(* ===== verification/_CoqProject ===== *)
-Q . S2P
Prelude.v
GttDefs.v
Pte.v
PortedXe.v
Ggtt.v
GgttNode.v
GgttLemmas.v
GgttOps.v
GgttInit.v
GgttThms.v
VmFault.v
VmArgs.v
VmState.v
Vma.v
VmBind.v
VmaLemmas.v
VmBindLemmas.v
VmExec.v
VmBindReq.v
VmInst.v
VmBindThms.v
StateWp.v
XeFirmware.v
GucTransport.v
GucTransportInv.v
GucTransportOps.v
GucTransportReach.v
GucTransportQueue.v
GucTransportThms.v
GucMailbox.v
GucMailboxThms.v
MemoryOwner.v
MemoryOwnerInv.v
MemoryOwnerSteps.v
MemoryOwnerReach.v
MemoryOwnerThms.v
NvCommand.v
GpFifoQueue.v
GpFifoInv.v
GpFifoSteps.v
GpFifoReach.v
GpFifoThms.v
HeapSort.v
Radix3.v
Radix3Thms.v
FirmwareImage.v
FirmwareImageThms.v
XeMemory.v
XePageTable.v
XePageTableRep.v
XePageTableOps.v
XePageTableSpec.v
XePageTableThms.v
XeVirtual.v
XeVirtualInv.v
XeVirtualOps.v
XeVirtualThms.v
XeSubmission.v
XeSubmissionInv.v
XeSubmissionOps.v
XeMemorySubmission.v
XeSubmissionBridge.v
XeSubmissionThms.v
Interleave.v
XeInterrupt.v
XeInterruptMask.v
XeInterruptBatch.v
XeInterruptThms.v
XeFence.v
XeFenceThms.v
XeContext.v
XeContextThms.v
XeGgtt.v
XeGgttInv.v
XeGgttClear.v
XeGgttThms.v
XeForceWake.v
XeForceWakeThms.v
XeGuCFirmware.v
XeGuCFirmwareThms.v
