(* ===== verification/Prelude.v ===== *)
(** * Verification of the GPU core of Mellow

    Mellow is a macOS kernel extension that drives Intel Xe (and NVIDIA) GPUs.  Most of
    the repository is glue to IOKit, vendored headers and binary patches; its own logic
    is in four layers, which this development models.

    - [Drivers/PortedXe/upstream/.../xe]: the memory management of the Linux Xe driver,
      [xe_vm.c] and [xe_ggtt.c], and [Drivers/PortedXe/XePageTable.cpp], which compiles
      six of its functions behind a validating C++ interface.
    - [Mellow/Xe*.cpp]: the C++ engines that talk to the GPU.  From the bottom up: power
      (forcewake) and interrupts; the GGTT manager, the page-table builder and GPU
      virtual memory; firmware parsing and loading, the GuC command transport and the
      mailbox that configures it; ring contexts, fences and the submission queue, with
      the bridge that makes the queue hold the memory that its jobs use.
    - [Drivers/NativeGpu] and [Drivers/NativeNvidia]: the owner of pinned and mapped
      memory, which does not depend on the vendor, and the GPFIFO queue that uses it.
    - [Drivers/PortedNvidia] and [Drivers/PortedNvidiaGsp]: command encodings, the
      container of the GSP firmware and the scatter table of its image.

    The parts meet at callbacks, and where both sides are in the repository the client
    is verified against an interface that the implementation is shown to satisfy.  The
    GPFIFO queue calls the memory owner through [MemoryInterface] with the laws
    [MemoryLaws]; [GpFifoThms] shows that the memory owner satisfies them and states the
    safety of the composition.  The Xe submission queue calls its resources through the
    class [ResourceOwner]; [XeSubmissionBridge] shows that the virtual memory behind
    [SubmissionMemoryBridge] is one.

    ** Conventions (this file, StateWp)

    A w-bit integer is a [Z] and its wrap-around is written out ([wrap], [+64], [-64]);
    flag tests are [Z.land].  Stateful code is a total function of type [ST S A], that is
    [S -> A * S], with the notations [x <-- c ;; k] and [c ;;; k]; error returns are
    values.  Loops are structural recursions over the list or the count that the code
    iterates, so that no fuel is needed; where the code iterates until a condition, the
    bound is the code's own.  Code outside the repository (the DRM range allocator, the
    buffer-object layer, IOKit adapters, the GuC itself) is a parameter, an argument of
    the definitions that use it: a record of functions on a world [W], which is an
    arbitrary type, with the laws that a theorem needs as a class, or no law at all.
    The C++ engines record the calls they make, newest first; what a protocol requires
    of the order of calls is a predicate on that trace, mostly by way of an automaton
    that the trace drives.  [GgttInit] and [VmInst] and the examples at the end of the
    files give concrete instances.  [StateWp] has weakest preconditions for [ST] and the
    tactic [wp_step] that runs a program symbolically.

    ** Page-table entries (GttDefs, Pte, PortedXe)

    [Pte] has the encoders of [xe_vm.c] and [xe_ggtt.c]; the theorems decode an entry
    field by field.  [PortedXe] has the same functions as compiled in
    [XePteAlgorithms.inc] with assertions that trap, their wrappers of
    [XePageTable.cpp] and the owner [GgttMapping], run against an arbitrary adapter:
    the wrappers never trap, and a mapping holds exactly one pin and leaves no entry
    behind.

    ** The GGTT (Ggtt, GgttNode; GgttLemmas, GgttOps, GgttInit, GgttThms)

    All of [xe_ggtt.c] but the lockdep priming: bring-up, writes with the flush
    workaround, node insertion and removal, buffer objects, SR-IOV assignment, save and
    load.  [GgttOps] makes insertion, removal, queued removal work, SR-IOV assignment,
    load and teardown a state machine; in every reachable state free pages translate to
    the scratch page and the number of writes between flushes stays below the limit of
    the hardware.  That nodes are disjoint is what the range allocator [drm_mm] promises
    ([DrmMmLaws]).  [xe_ggtt_shift_nodes] and the display transforms are functions of
    their own, outside the state machine.

    ** The VM (VmFault, VmArgs, VmState, Vma, VmBind, VmExec; VmaLemmas, VmBindLemmas, VmBindReq, VmInst, VmBindThms)

    The bind path of [xe_vm.c]: [VmArgs] the validation of the ioctl arguments, [Vma] the
    VMAs, [VmBind] the creation, parsing, commit and unwind of operations, [VmExec]
    locking, page-table updates and [xe_vm_bind_ioctl].  The main theorem is that a bind
    that fails leaves the VM as it was, but for the one failure that the code does not
    unwind, that of [xe_sync_in_fence_get]; other omissions of the code are shown on
    concrete requests.  The loop that collects the ranges of a prefetch runs once per page
    of the range, which is enough as every round moves at least a page up; the number of
    times that the locks of a bind are contended is an arbitrary answer of the
    environment.  [VmFault] is the log of page faults and the ioctl that reports it.

    ** The GuC transport (XeFirmware, GucTransport, GucMailbox; GucTransportInv, GucTransportOps, GucTransportReach, GucTransportQueue, GucTransportThms, GucMailboxThms)

    [XeFirmware] is the parser of the firmware header.  [GucTransport] is
    [XeGuCTransport.cpp] down to single loads, stores and barriers on memory that the GuC
    may change between any two of them.  Over every sequence of operations the response
    credits are conserved, accesses stay in bounds, final replies stay final; the H2G
    ring refines a FIFO queue of messages; a valid request is sent when the ring has twice
    its length free and it finds its slot, credits and fence.
    [GucMailbox] is [Mailbox::exchange] and [configureAndEnable] of the same file: an
    exchange ends within the 2052 polls of the code and poisons the mailbox unless the
    GuC answered; a bring-up that succeeds has sent exactly its seven requests.

    ** The GuC firmware loader (XeGuCFirmware, XeGuCFirmwareThms)

    [XeGuCFirmware.cpp]: the SHA-256 of the image (run on the test vectors of the
    standard), the check of the GGTT entries, the minimal ADS and the class [Loader].
    The trace drives an automaton of the device ([Untouched], [Live], the steps of a
    reset, [Stopped], [Configured]).  The theorems hold for every check of the image, of
    which [inspectPinnedFirmware] is one, since no preimage of its digest is at hand to
    run the loader on.  Regions are released only while the hardware is untouched or
    stopped by a reset that was read back, and the CPU writes to shared memory only while
    the GuC is in reset.  A successful start read and accepted the bytes of the firmware
    region and made exactly the accesses of a boot, written out with their addresses and
    values ([boot_accesses], [wopcm_window]).  The polls (101 for a reset and for the DMA, 301 for the authentication) are the code's.

    ** Xe page tables and GPU virtual memory (XeMemory, XePageTable, XeVirtual; XePageTableRep, XePageTableOps, XePageTableSpec, XePageTableThms, XeVirtualInv, XeVirtualOps, XeVirtualThms)

    [XeMemory] has the encoders of [XeMemory.cpp].  [XePageTable] is the class
    [PageTable] on a memory in which overlapping pages share words: it refines a finite
    map from pages to entries, and what the hardware finds by walking the sealed tree is
    that map.  [XeVirtual] is the class [VirtualMemory]: allocations in use are disjoint,
    the backend is called in a legal order, and what jobs use is not touched.  The search
    of [reserve] has the fuel capacity + 1, which is proved to be enough.

    ** The Xe GGTT manager (XeGgtt; XeGgttInv, XeGgttClear, XeGgttThms)

    The class [Manager] of [Mellow/XeGgtt.cpp], 64 slots in at most 32 granted ranges.
    The trace drives an automaton for every page entry ([Idle], [Vacant], [Live],
    [Zeroed], [Checked], [Flushed]).  Entries are written only where zero was read; an
    entry that may still be ours has its backing retained; mappings are disjoint; a
    published mapping was read back; [reserve] finds the first place within the 65
    attempts per range of the code, which is proved to be enough.

    ** Submission (XeSubmission, XeMemorySubmission; XeSubmissionInv, XeSubmissionOps, XeSubmissionBridge, XeSubmissionThms)

    [SubmissionQueue] of [XeSubmission.cpp] against an arbitrary backend: tokens are
    unique, a job completes only by a fence of its own generation, and its resources are
    given back exactly once.  [XeMemorySubmission] composes it with the virtual memory:
    memory of a job that the engine may still execute stays bound.

    ** Interrupts (Interleave, XeInterrupt; XeInterruptMask, XeInterruptBatch, XeInterruptThms)

    [Controller] of [XeInterrupt.cpp].  Its operations and the interrupt filter are
    programs of atomic actions ([Interleave]), and the filter may run between any two
    actions of an operation.  The contract of the class, that configure, start and
    service are not called while a filter runs, and service only in a state that is not
    armed, is part of the reachability relation.  An armed controller is never left
    masked.  At every write that enables delivery, every acknowledged identity has been
    handled once and in order, unless [stop] was called in between, which drops what is
    left.  The bounds of 10000 polls and 64 events are the code's.

    ** Fences, contexts, power (XeFence, XeFenceThms; XeContext, XeContextThms; XeForceWake, XeForceWakeThms)

    [Timeline] of [XeFence.cpp] on a slot that the device may write at any time: it is
    released only after the hardware stopped, and completion is monotone.
    [XeContext.cpp]: the bootstrap image reads back as specified, and appending to a ring
    is appending to the queue of words the engine has still to read.  [ForceWake] of
    [XeMmioAccess.cpp]: domains are woken and released in order, with an automaton of the
    power of each; the bound of 1001 polls is the code's.

    ** The memory owner (MemoryOwner; MemoryOwnerInv, MemoryOwnerSteps, MemoryOwnerReach, MemoryOwnerThms)

    [MemoryOwner.cpp] against an arbitrary backend whose calls are recorded.  The
    invariant ties the table of allocations to what the backend was asked to do: no
    handle is used twice, ranges in use and not quarantined are aligned, bounded and
    disjoint, accounting is exact, and the backend is called in a legal order, so that
    memory held by a job stays mapped.  The loop of [close] runs 32 times, the
    size of the table, which is proved to be enough.

    ** The GPFIFO queue (NvCommand, GpFifoQueue; GpFifoInv, GpFifoSteps, GpFifoReach, GpFifoThms)

    [NvCommand] is [CommandEncoding.cpp]; entries are decoded by the format that its
    comments give.  [GpFifoQueue] is [GpFifoQueue.cpp] against an arbitrary channel: in
    every reachable state the references of the queue are backed by holds, a job that may
    still run holds exactly what the channel was given when it was sealed, jobs complete
    only by the fence of their generation, and a submission publishes in the required
    order.  Other clients do anything but release holds of the queue's owner.

    ** The GSP firmware (FirmwareImage, FirmwareImageThms; HeapSort, Radix3, Radix3Thms)

    [FirmwareImage.cpp]: the parser of the ELF container accepts exactly the containers
    that a declarative description of the format accepts, reads nothing outside them, and
    returns disjoint views.  [Radix3.cpp]: the heap sort, with as much fuel as the array
    has elements, which is proved to be enough; the alias check built on it is equivalent
    to the absence of duplicates; the loader finds every byte of the image through the
    table.

    ** Not modelled

    The preempt, rebind and creation paths of [xe_vm.c]: they run on DMA-fence, GPU
    scheduler and userptr-notifier callbacks of the Linux kernel, which the repository
    does not contain, and decide little of their own; its debug output.
    [XeGuCRegionOwner.cpp], which joins the GGTT manager and the firmware loader: both are
    verified against arbitrary adapters, of which it is one.  [XeZebin.cpp] and the
    dispatch and context execution built on its output ([XeDispatch.cpp],
    [XeContextExecution.cpp]): their input format is a compiler's.  [CopyPushbuffer.cpp],
    whose encoder is a generated port, and [Probe.cpp], which only reads identification
    registers.  The patches of [kern_gen11.cpp] and the other kernel-extension glue, which
    rewrite or forward to closed code; the display code; the IOKit adapters, which are
    the callbacks of the models; the headers of MacKernelSDK and Lilu; the user-space
    runtime, the tools and the tests. *)
From stdpp Require Import base numbers list gmap.
From Stdlib Require Import ZArith Lia Btauto.

#[global] Open Scope Z_scope.

(** * Machine words

    A [w]-bit unsigned integer is a [Z]; the C wrap-around is written out with
    [wrap].  [word w x] says that [x] is a value of the type. *)

Declare Scope word_scope.
Delimit Scope word_scope with word.

Definition wrap (w x : Z) : Z := x mod 2 ^ w.

Notation "a +64 b" := (wrap 64 (a + b)) (at level 50, left associativity) : word_scope.
Notation "a -64 b" := (wrap 64 (a - b)) (at level 50, left associativity) : word_scope.
Notation "a ||| b" := (Z.lor a b) (at level 50, left associativity) : word_scope.
#[global] Open Scope word_scope.

Definition word (w x : Z) : Prop := 0 <= x < 2 ^ w.

Definition U64_MAX : Z := 2 ^ 64 - 1.
Definition U32_MAX : Z := 2 ^ 32 - 1.

Definition BIT (n : Z) : Z := Z.shiftl 1 n.

Definition GENMASK_ULL (high low : Z) : Z :=
  Z.shiftl (Z.ones (high - low + 1)) low.

(** [flags & mask] used as a C condition. *)
Definition test (flags mask : Z) : bool := negb (Z.land flags mask =? 0).

(** [flags & ~mask] on a [w]-bit flag word. *)
Definition clear_bits (flags mask : Z) : Z := Z.ldiff flags mask.

(** The kernel's [ALIGN] and [ALIGN_DOWN] (64-bit, [a] a power of two), and
    [IS_ALIGNED]. *)
Definition ALIGN (x a : Z) : Z := Z.ldiff (wrap 64 (x + (a - 1))) (a - 1).
Definition ALIGN_DOWN (x a : Z) : Z := Z.ldiff x (a - 1).
Definition IS_ALIGNED (x a : Z) : bool := Z.land x (a - 1) =? 0.

Definition SZ_4K : Z := 2 ^ 12.
Definition SZ_64K : Z := 2 ^ 16.
Definition SZ_1M : Z := 2 ^ 20.
Definition SZ_2M : Z := 2 ^ 21.
Definition SZ_8M : Z := 2 ^ 23.
Definition SZ_1G : Z := 2 ^ 30.

#[global] Arguments Z.testbit : simpl never.
#[global] Arguments Z.land : simpl never.
#[global] Arguments Z.lor : simpl never.
#[global] Arguments Z.ldiff : simpl never.
#[global] Arguments Z.shiftl : simpl never.
#[global] Arguments Z.shiftr : simpl never.
#[global] Arguments Z.pow : simpl never.
#[global] Arguments Z.mul : simpl never.
#[global] Arguments Z.add : simpl never.
#[global] Arguments Z.sub : simpl never.

(** ** Words: lemmas *)

Lemma wrap_small w x : 0 <= x < 2 ^ w -> wrap w x = x.
Proof. apply Z.mod_small. Qed.

Lemma wrap_range w x : 0 <= w -> 0 <= wrap w x < 2 ^ w.
Proof. intros. apply Z.mod_pos_bound, Z.pow_pos_nonneg; lia. Qed.

Lemma add64_small a b : 0 <= a + b < 2 ^ 64 -> a +64 b = a + b.
Proof. apply wrap_small. Qed.

Lemma sub64_small a b : 0 <= a - b < 2 ^ 64 -> a -64 b = a - b.
Proof. apply wrap_small. Qed.

Lemma testbit_BIT n i : 0 <= n -> Z.testbit (BIT n) i = (i =? n).
Proof.
  intros Hn. unfold BIT. destruct (Z.ltb_spec i 0).
  - rewrite Z.testbit_neg_r by done. symmetry. apply Z.eqb_neq. lia.
  - rewrite Z.shiftl_spec by done. destruct (Z.eqb_spec i n) as [->|Hne].
    + by rewrite Z.sub_diag.
    + destruct (Z.ltb_spec (i - n) 0).
      * by rewrite Z.testbit_neg_r.
      * change 1 with (2 ^ 0). rewrite Z.pow2_bits_eqb by done.
        apply Z.eqb_neq. lia.
Qed.

Lemma testbit_GENMASK h l i :
  0 <= l <= h -> Z.testbit (GENMASK_ULL h l) i = (l <=? i) && (i <=? h).
Proof.
  intros Hl. unfold GENMASK_ULL. destruct (Z.ltb_spec i 0).
  - rewrite Z.testbit_neg_r by done. symmetry.
    apply andb_false_iff. left. apply Z.leb_gt. lia.
  - rewrite Z.shiftl_spec by done. destruct (Z.leb_spec l i) as [Hi|Hi]; simpl.
    + destruct (Z.leb_spec i h).
      * apply Z.ones_spec_low. lia.
      * apply Z.ones_spec_high. lia.
    + by rewrite Z.testbit_neg_r by lia.
Qed.

Lemma testbit_if (b : bool) n m i :
  Z.testbit (if b then n else m) i = if b then Z.testbit n i else Z.testbit m i.
Proof. by destruct b. Qed.

Lemma testbit_above w x i : word w x -> 0 <= w <= i -> Z.testbit x i = false.
Proof.
  intros Hx Hi. rewrite <- (Z.mod_small x (2 ^ w)) by done.
  by apply Z.mod_pow2_bits_high.
Qed.

Lemma testbit_aligned p x i : x mod 2 ^ p = 0 -> 0 <= i < p -> Z.testbit x i = false.
Proof.
  intros Hx Hi. rewrite <- (Z.mod_pow2_bits_low x p) by lia.
  by rewrite Hx, Z.testbit_0_l.
Qed.

Lemma word_of_bits w x :
  0 <= w -> 0 <= x -> (forall i, w <= i -> Z.testbit x i = false) -> word w x.
Proof.
  intros Hw Hx Hb. split; [done|]. destruct (Z.ltb_spec x (2 ^ w)); [done|].
  destruct (decide (x = 0)) as [->|]; [lia|].
  assert (w <= Z.log2 x) by (apply Z.log2_le_pow2; lia).
  specialize (Hb (Z.log2 x)). rewrite Z.bit_log2 in Hb by lia. naive_solver lia.
Qed.

Lemma word_lor w x y : 0 <= w -> word w x -> word w y -> word w (Z.lor x y).
Proof.
  intros Hw Hx Hy. apply word_of_bits; [done| |].
  - apply Z.lor_nonneg. unfold word in *. lia.
  - intros i Hi. by rewrite Z.lor_spec, !(testbit_above w) by (done || lia).
Qed.

Lemma word_BIT w n : 0 <= n < w -> word w (BIT n).
Proof.
  intros. unfold BIT, word. rewrite Z.shiftl_1_l. split; [lia|].
  apply Z.pow_lt_mono_r; lia.
Qed.

Lemma word_if w (b : bool) x y : word w x -> word w y -> word w (if b then x else y).
Proof. by destruct b. Qed.

Lemma word_0 w : 0 <= w -> word w 0.
Proof. split; [lia|]. apply Z.pow_pos_nonneg; lia. Qed.

Lemma word_le w1 w2 x : 0 <= w1 <= w2 -> word w1 x -> word w2 x.
Proof.
  unfold word. intros. pose proof (Z.pow_le_mono_r 2 w1 w2). lia.
Qed.

Lemma land_ones_low x p : 0 <= p -> Z.land x (2 ^ p - 1) = x mod 2 ^ p.
Proof. intros. rewrite <- Z.land_ones by done. f_equal. by rewrite Z.ones_equiv, <- Z.sub_1_r. Qed.

Lemma IS_ALIGNED_pow2 x p : 0 <= p -> IS_ALIGNED x (2 ^ p) = (x mod 2 ^ p =? 0).
Proof. intros. unfold IS_ALIGNED. by rewrite land_ones_low. Qed.

Lemma ALIGN_DOWN_pow2 x p : 0 <= p -> ALIGN_DOWN x (2 ^ p) = 2 ^ p * (x / 2 ^ p).
Proof.
  intros. unfold ALIGN_DOWN. rewrite Z.sub_1_r, <- Z.ones_equiv.
  rewrite Z.ldiff_ones_r, Z.shiftl_mul_pow2, Z.shiftr_div_pow2 by done. lia.
Qed.

Lemma test_BIT f n : 0 <= n -> test f (BIT n) = Z.testbit f n.
Proof.
  intros Hn. unfold test. destruct (Z.testbit f n) eqn:E.
  - apply negb_true_iff, Z.eqb_neq. intros H0.
    assert (Z.testbit (Z.land f (BIT n)) n = false) as H1
      by (by rewrite H0, Z.testbit_0_l).
    rewrite Z.land_spec, testbit_BIT, Z.eqb_refl, E in H1 by done. done.
  - apply negb_false_iff, Z.eqb_eq. apply Z.bits_inj'. intros i Hi.
    rewrite Z.land_spec, testbit_BIT, Z.testbit_0_l by done.
    destruct (Z.eqb_spec i n) as [->|]; [by rewrite E|apply andb_false_r].
Qed.

Lemma test_lor_l a b m : test (Z.lor a b) m = test a m || test b m.
Proof.
  unfold test. rewrite Z.land_lor_distr_l.
  destruct (Z.eqb_spec (Z.land a m) 0) as [Ha|Ha], (Z.eqb_spec (Z.land b m) 0) as [Hb|Hb];
    simpl.
  - by rewrite Ha, Hb.
  - by rewrite Ha, Z.lor_0_l, (proj2 (Z.eqb_neq _ _)).
  - by rewrite Hb, Z.lor_0_r, (proj2 (Z.eqb_neq _ _)).
  - rewrite (proj2 (Z.eqb_neq _ _)); [done|]. rewrite Z.lor_eq_0_iff. tauto.
Qed.

(** Reduce an equation between words to one between their bits. *)
Create Rewrite HintDb bits.
#[export] Hint Rewrite Z.lor_spec Z.land_spec Z.ldiff_spec Z.testbit_0_l testbit_if : bits.
#[export] Hint Rewrite testbit_BIT testbit_GENMASK using lia : bits.

Ltac bitwise i Hi := apply Z.bits_inj'; intros i Hi; autorewrite with bits.

(** Decide every integer comparison of the goal. *)
Ltac zcases :=
  repeat match goal with
  | |- context [Z.eqb ?a ?b] => destruct (Z.eqb_spec a b)
  | |- context [Z.leb ?a ?b] => destruct (Z.leb_spec a b)
  | |- context [Z.ltb ?a ?b] => destruct (Z.ltb_spec a b)
  end; subst; simpl; try lia.

(** Turn boolean comparisons in the context into propositions for [lia]. *)
Ltac zbool :=
  repeat match goal with
  | H : (_ && _)%bool = true |- _ => apply andb_true_iff in H as [? ?]
  | H : (_ || _)%bool = false |- _ => apply orb_false_iff in H as [? ?]
  | H : negb _ = true |- _ => apply negb_true_iff in H
  | H : negb _ = false |- _ => apply negb_false_iff in H
  | H : Z.eqb _ _ = true |- _ => apply Z.eqb_eq in H
  | H : Z.eqb _ _ = false |- _ => apply Z.eqb_neq in H
  | H : Z.leb _ _ = true |- _ => apply Z.leb_le in H
  | H : Z.leb _ _ = false |- _ => apply Z.leb_gt in H
  | H : Z.ltb _ _ = true |- _ => apply Z.ltb_lt in H
  | H : Z.ltb _ _ = false |- _ => apply Z.ltb_ge in H
  end.

Create HintDb words.
#[export] Hint Resolve word_lor word_if word_0 : words.
#[export] Hint Extern 2 (word _ (BIT _)) => apply word_BIT; lia : words.
#[export] Hint Extern 1 (0 <= _) => lia : words.

(** * Results and errors *)

Inductive errno :=
  | EPERM | ENOENT | EINTR | ENOEXEC | EAGAIN | ENOMEM | EACCES | EFAULT | EBUSY
  | ENODEV | EINVAL | ENOSPC | ERANGE | EDEADLK | ENODATA | ETIME | EOPNOTSUPP
  | ENOBUFS | ERESTARTSYS.

#[export] Instance errno_eq_dec : EqDecision errno.
Proof. solve_decision. Defined.

(** A C [int] that is 0 or a negative error code is [res unit]; a pointer that
    may be an [ERR_PTR] is [res A]. *)
Inductive res (A : Type) :=
  | Ok (a : A)
  | Err (e : errno).
Arguments Ok {A} a.
Arguments Err {A} e.

#[export] Instance res_eq_dec {A} `{!EqDecision A} : EqDecision (res A).
Proof. solve_decision. Defined.

Definition is_ok {A} (r : res A) : bool := match r with Ok _ => true | Err _ => false end.

(** * State passing *)

Definition ST (S A : Type) : Type := S -> A * S.

Declare Scope st_scope.
Delimit Scope st_scope with st.

Definition ret {S A} (a : A) : ST S A := fun s => (a, s).
Definition bind {S A B} (c : ST S A) (k : A -> ST S B) : ST S B :=
  fun s => let '(a, s') := c s in k a s'.
Definition modify {S} (f : S -> S) : ST S unit := fun s => (tt, f s).
Definition gets {S A} (f : S -> A) : ST S A := fun s => (f s, s).
Definition when {S} (b : bool) (c : ST S unit) : ST S unit := if b then c else ret tt.

Notation "x <-- c ;; k" := (bind c (fun x => k))
  (at level 60, c at next level, right associativity) : st_scope.
Notation "c ;;; k" := (bind c (fun _ => k))
  (at level 60, right associativity) : st_scope.
#[global] Open Scope st_scope.

(** [for] over a list of items, threading the state. *)
Fixpoint for_each {S A} (l : list A) (f : A -> ST S unit) : ST S unit :=
  match l with
  | [] => ret tt
  | a :: l' => f a ;;; for_each l' f
  end.

(** Running a sequence. *)
Lemma run_bind {S A B} (c : ST S A) (k : A -> ST S B) s : bind c k s = k (c s).1 (c s).2.
Proof. unfold bind. by destruct (c s). Qed.

(** [for] over a list of items that stops at the first error. *)
Fixpoint for_err {S A} (l : list A) (f : A -> ST S (res unit)) : ST S (res unit) :=
  match l with
  | [] => ret (Ok tt)
  | a :: l' =>
      r <-- f a ;;
      match r with
      | Ok _ => for_err l' f
      | Err e => ret (Err e)
      end
  end.

Lemma for_each_app {S A} (l1 l2 : list A) (f : A -> ST S unit) s :
  for_each (l1 ++ l2) f s = for_each l2 f (for_each l1 f s).2.
Proof.
  revert s. induction l1 as [|a l1 IH]; intros s; [done|].
  simpl. unfold bind. by destruct (f a s).
Qed.

(** A property preserved by each iteration is preserved by the loop. *)
Lemma for_each_inv {S A} (P : S -> Prop) (l : list A) (f : A -> ST S unit) s :
  (forall a s, a ∈ l -> P s -> P (f a s).2) -> P s -> P (for_each l f s).2.
Proof.
  revert s. induction l as [|a l IH]; intros s Hf Hs; [done|].
  simpl. unfold bind. pose proof (Hf a s ltac:(set_solver) Hs) as H.
  destruct (f a s) as [[] s']. apply IH; [|done]. set_solver.
Qed.

Lemma for_err_inv {S A} (P : S -> Prop) (l : list A) (f : A -> ST S (res unit)) s :
  (forall a s, a ∈ l -> P s -> P (f a s).2) -> P s -> P (for_err l f s).2.
Proof.
  revert s. induction l as [|a l IH]; intros s Hf Hs; [done|].
  simpl. unfold bind. pose proof (Hf a s ltac:(set_solver) Hs) as H.
  destruct (f a s) as [[[]|e] s']; [|done]. apply IH; [|done]. set_solver.
Qed.

(** * Page loops

    [while (start < end) { f(start); start += PAGE; }] with 64-bit addresses.
    The result pairs the state with the value of [start] at exit, so that a
    caller can show that the loop ended because its condition failed and not
    because the fuel did. *)

Definition PAGE : Z := 4096.

Fixpoint while_pages {S} (fuel : nat) (start end_ : Z) (f : Z -> ST S unit)
    : ST S Z :=
  match fuel with
  | O => ret start
  | Datatypes.S n =>
      if start <? end_
      then f start ;;; while_pages n (start +64 PAGE) end_ f
      else ret start
  end.

(** The page addresses of [n] pages from [start]. *)
Definition pages (start : Z) (n : nat) : list Z :=
  (fun i => start + PAGE * Z.of_nat i) <$> seq 0 n.

Lemma pages_S start n : pages start (S n) = start :: pages (start + PAGE) n.
Proof.
  unfold pages. simpl. f_equal; [unfold PAGE; lia|].
  rewrite <- fmap_S_seq, <- list_fmap_compose. apply list_fmap_ext.
  intros i x _. simpl. unfold PAGE. lia.
Qed.

Lemma pages_length start n : length (pages start n) = n.
Proof. unfold pages. by rewrite length_fmap, length_seq. Qed.

Lemma elem_of_pages start n a :
  a ∈ pages start n <-> exists i, 0 <= i < Z.of_nat n /\ a = start + PAGE * i.
Proof.
  unfold pages. rewrite list_elem_of_fmap. split.
  - intros (i & -> & Hi%elem_of_seq). exists (Z.of_nat i). lia.
  - intros (i & Hi & ->). exists (Z.to_nat i). rewrite elem_of_seq.
    rewrite Z2Nat.id by lia. split; [done|lia].
Qed.

(** The loop over [n >= 1] whole pages ends by its own condition after exactly
    [n] iterations, on the addresses [pages start n]. *)
Lemma while_pages_spec {S} (f : Z -> ST S unit) n start s fuel :
  (n < fuel)%nat -> 0 <= start -> start + PAGE * Z.of_nat n < 2 ^ 64 ->
  while_pages fuel start (start + PAGE * Z.of_nat n - 1) f s =
    (start + PAGE * Z.of_nat n, (for_each (pages start n) f s).2).
Proof.
  revert start s fuel. induction n as [|n IH]; intros start s fuel Hf H0 Hmax.
  - destruct fuel as [|fuel]; [lia|]. rewrite Z.mul_0_r, Z.add_0_r. simpl.
    by destruct (Z.ltb_spec start (start - 1)); [lia|].
  - destruct fuel as [|fuel]; [lia|]. cbn [while_pages]. unfold PAGE in *.
    destruct (Z.ltb_spec start (start + 4096 * Z.of_nat (Datatypes.S n) - 1)); [|lia].
    rewrite pages_S. simpl. unfold bind. destruct (f start s) as [[] s'].
    unfold PAGE. rewrite add64_small by lia.
    replace (start + 4096 * Z.of_nat (Datatypes.S n) - 1)
      with (start + 4096 + 4096 * Z.of_nat n - 1) by lia.
    rewrite IH by lia. f_equal. lia.
Qed.

(** ** Loops that look for an element *)

Lemma existsb_none {A} (f : A -> bool) (l : list A) :
  existsb f l = false <-> forall x, x ∈ l -> f x = false.
Proof.
  split.
  - intros H x Hx. destruct (f x) eqn:E; [|done].
    rewrite (proj2 (existsb_exists f l)) in H; [done|]. exists x. by rewrite <- list_elem_of_In.
  - intros H. destruct (existsb f l) eqn:E; [|done].
    apply existsb_exists in E as (x & Hx%list_elem_of_In & Hf). by rewrite H in Hf.
Qed.
