(* ===== verification/GttDefs.v ===== *)
(** Page-table entry bits of [regs/xe_gtt_defs.h] and the attributes of buffer
    objects, page tables and the device that the Xe sources read. *)
From stdpp Require Import base numbers list.
From S2P Require Import Prelude.

(** * [xe_gtt_defs.h] *)

Definition XELPG_GGTT_PTE_PAT0 : Z := BIT 52.
Definition XELPG_GGTT_PTE_PAT1 : Z := BIT 53.

(** Mask for PTE address bits [51:shift]. *)
Definition XE_PAGE_ADDR_MASK (shift : Z) : Z := GENMASK_ULL 51 shift.
Definition GGTT_PTE_VFID : Z := GENMASK_ULL 11 2.

Definition GUC_GGTT_TOP : Z := 0xFEE00000.

Definition XELPG_PPGTT_PTE_PAT3 : Z := BIT 62.
Definition XE2_PPGTT_PTE_PAT4 : Z := BIT 61.
Definition XE_PPGTT_PDE_PDPE_PAT2 : Z := BIT 12.
Definition XE_PPGTT_PTE_PAT2 : Z := BIT 7.
Definition XE_PPGTT_PTE_PAT1 : Z := BIT 4.
Definition XE_PPGTT_PTE_PAT0 : Z := BIT 3.

Definition XE_PDE_PS_2M : Z := BIT 7.
Definition XE_PDPE_PS_1G : Z := BIT 7.
Definition XE_PDE_IPS_64K : Z := BIT 11.

Definition XE_GGTT_PTE_DM : Z := BIT 1.
Definition XE_USM_PPGTT_PTE_AE : Z := BIT 10.
Definition XE_PPGTT_PTE_DM : Z := BIT 11.
Definition XE_PDE_64K : Z := BIT 6.
Definition XE_PTE_PS64 : Z := BIT 8.
Definition XE_PTE_NULL : Z := BIT 9.

Definition XE_PAGE_PRESENT : Z := BIT 0.
Definition XE_PAGE_RW : Z := BIT 1.

(** [XE_PAGE_SIZE] of [xe_device.h], [XE_PTE_SHIFT] and [XE_PTE_MASK]: 4 KiB
    pages, as the comments of [xe_ggtt.c] state. *)
Definition XE_PAGE_SIZE : Z := PAGE.
Definition XE_PTE_SHIFT : Z := 12.
Definition XE_PTE_MASK : Z := 2 ^ 12 - 1.
Definition MAX_HUGEPTE_LEVEL : Z := 2.

(** [enum xe_cache_level]: the two levels the sources name, and any other. *)
Inductive xe_cache_level :=
  | XE_CACHE_NONE
  | XE_CACHE_WB
  | XE_CACHE_other (n : Z).

(** * Buffer objects

    What the sources read of a [struct xe_bo].  The predicates
    [xe_bo_is_vram], [xe_bo_is_stolen] and [xe_bo_is_stolen_devmem] are defined
    outside these sources: a buffer object carries their answers. *)
Record xe_bo := {
  bo_size : Z;
  bo_is_vram : bool;
  bo_is_stolen : bool;
  bo_is_stolen_devmem : bool;
  bo_flags : Z;
  bo_min_align : Z;
  bo_ttm_cached : bool;
}.

(** Unfold every PTE bit of the header. *)
Ltac unfold_pte_bits :=
  unfold XELPG_GGTT_PTE_PAT0, XELPG_GGTT_PTE_PAT1, XE_PAGE_ADDR_MASK, GGTT_PTE_VFID,
    XELPG_PPGTT_PTE_PAT3, XE2_PPGTT_PTE_PAT4, XE_PPGTT_PDE_PDPE_PAT2,
    XE_PPGTT_PTE_PAT2, XE_PPGTT_PTE_PAT1, XE_PPGTT_PTE_PAT0, XE_PDE_PS_2M,
    XE_PDPE_PS_1G, XE_GGTT_PTE_DM, XE_PPGTT_PTE_DM, XE_PTE_PS64, XE_PTE_NULL,
    XE_PAGE_PRESENT, XE_PAGE_RW in *.
