(* ===== verification/Pte.v ===== *)
(** PTE and PDE encoders of [xe_vm.c] and the GGTT PTE flag encoders of
    [xe_ggtt.c], with the decoding functions that state what they encode. *)
From stdpp Require Import base numbers list.
From Stdlib Require Import Btauto.
From S2P Require Import Prelude.
From S2P Require Import GttDefs.

(** * GGTT flags, [xe_ggtt.c] *)

Definition xelp_ggtt_pte_flags (bo : xe_bo) (pat_index : Z) : Z :=
  let pte := XE_PAGE_PRESENT in
  if bo_is_vram bo || bo_is_stolen_devmem bo then pte ||| XE_GGTT_PTE_DM else pte.

Definition xelpg_ggtt_pte_flags (bo : xe_bo) (pat_index : Z) : Z :=
  let pte := xelp_ggtt_pte_flags bo pat_index in
  let pte := if test pat_index (BIT 0) then pte ||| XELPG_GGTT_PTE_PAT0 else pte in
  if test pat_index (BIT 1) then pte ||| XELPG_GGTT_PTE_PAT1 else pte.

(** * PPGTT entries, [xe_vm.c] *)

Definition pde_encode_pat_index (pat_index : Z) : Z :=
  let pte := 0 in
  let pte := if test pat_index (BIT 0) then pte ||| XE_PPGTT_PTE_PAT0 else pte in
  if test pat_index (BIT 1) then pte ||| XE_PPGTT_PTE_PAT1 else pte.

Definition pte_encode_pat_index (pat_index pt_level : Z) : Z :=
  let pte := 0 in
  let pte := if test pat_index (BIT 0) then pte ||| XE_PPGTT_PTE_PAT0 else pte in
  let pte := if test pat_index (BIT 1) then pte ||| XE_PPGTT_PTE_PAT1 else pte in
  let pte :=
    if test pat_index (BIT 2)
    then if negb (pt_level =? 0) then pte ||| XE_PPGTT_PDE_PDPE_PAT2
         else pte ||| XE_PPGTT_PTE_PAT2
    else pte in
  let pte := if test pat_index (BIT 3) then pte ||| XELPG_PPGTT_PTE_PAT3 else pte in
  if test pat_index (BIT 4) then pte ||| XE2_PPGTT_PTE_PAT4 else pte.

Definition pte_encode_ps (pt_level : Z) : Z :=
  if pt_level =? 1 then XE_PDE_PS_2M
  else if pt_level =? 2 then XE_PDPE_PS_1G
  else 0.

Definition xelp_pte_encode_addr (addr pat_index pt_level : Z) (devmem : bool)
    (flags : Z) : Z :=
  let pte := addr in
  let pte := pte ||| (XE_PAGE_PRESENT ||| XE_PAGE_RW) in
  let pte := pte ||| pte_encode_pat_index pat_index pt_level in
  let pte := pte ||| pte_encode_ps pt_level in
  let pte := if devmem then pte ||| XE_PPGTT_PTE_DM else pte in
  pte ||| flags.

(** What [xelp_pte_encode_vma] reads of a VMA, its buffer object and its VM. *)
Record pte_vma := {
  pv_has_bo : bool;        (* xe_vma_bo(vma) != NULL *)
  pv_bo_purged : bool;     (* xe_bo_is_purged(bo) *)
  pv_read_only : bool;     (* xe_vma_read_only(vma) *)
  pv_is_null : bool;       (* xe_vma_is_null(vma) *)
  pv_vm_has_scratch : bool (* xe_vm_has_scratch(vm) *)
}.

Definition xelp_pte_encode_vma (pte : Z) (vma : pte_vma) (pat_index pt_level : Z) : Z :=
  let pte := pte ||| XE_PAGE_PRESENT in
  let pte := if negb (pv_read_only vma) then pte ||| XE_PAGE_RW else pte in
  let pte := pte ||| pte_encode_pat_index pat_index pt_level in
  let pte := pte ||| pte_encode_ps pt_level in
  if pv_is_null vma || (pv_has_bo vma && pv_bo_purged vma && pv_vm_has_scratch vma)
  then pte ||| XE_PTE_NULL else pte.

Section Bo.
(** [xe_bo_addr] of [xe_bo.c] and the device's cache-level to PAT-index table
    are not part of these sources. *)
Context (xe_bo_addr : xe_bo -> Z -> Z -> Z).
Context (xe_cache_pat_idx : xe_cache_level -> Z).

Definition pde_pat_index (bo : xe_bo) : Z :=
  if negb (bo_is_vram bo) && bo_ttm_cached bo
  then xe_cache_pat_idx XE_CACHE_WB
  else xe_cache_pat_idx XE_CACHE_NONE.

Definition xelp_pde_encode_bo (bo : xe_bo) (bo_offset : Z) : Z :=
  let pde := xe_bo_addr bo bo_offset XE_PAGE_SIZE in
  let pde := pde ||| (XE_PAGE_PRESENT ||| XE_PAGE_RW) in
  pde ||| pde_encode_pat_index (pde_pat_index bo).

Definition xelp_pte_encode_bo (bo : xe_bo) (bo_offset pat_index pt_level : Z) : Z :=
  let pte := xe_bo_addr bo bo_offset XE_PAGE_SIZE in
  let pte := pte ||| (XE_PAGE_PRESENT ||| XE_PAGE_RW) in
  let pte := pte ||| pte_encode_pat_index pat_index pt_level in
  let pte := pte ||| pte_encode_ps pt_level in
  if bo_is_vram bo || bo_is_stolen_devmem bo then pte ||| XE_PPGTT_PTE_DM else pte.
End Bo.

(** * Decoding

    The fields of an entry, as the hardware reads them. *)

(** Lowest address bit of a leaf at a level: 4 KiB, 2 MiB or 1 GiB. *)
Definition level_shift (pt_level : Z) : Z := 12 + 9 * pt_level.

Definition pte_addr (pt_level pte : Z) : Z :=
  Z.land pte (XE_PAGE_ADDR_MASK (level_shift pt_level)).

Definition bits_to_Z (bs : list bool) : Z :=
  foldr (fun b acc => Z.b2z b + 2 * acc) 0 bs.

Definition pte_pat (pt_level pte : Z) : Z :=
  bits_to_Z [Z.testbit pte 3; Z.testbit pte 4;
             Z.testbit pte (if pt_level =? 0 then 7 else 12);
             Z.testbit pte 62; Z.testbit pte 61].

Definition pde_pat (pde : Z) : Z := bits_to_Z [Z.testbit pde 3; Z.testbit pde 4].
Definition ggtt_pat (pte : Z) : Z := bits_to_Z [Z.testbit pte 52; Z.testbit pte 53].

Definition pte_devmem (pte : Z) : bool := Z.testbit pte 11.
Definition ggtt_devmem (pte : Z) : bool := Z.testbit pte 1.
Definition pte_present (pte : Z) : bool := Z.testbit pte 0.
Definition pte_rw (pte : Z) : bool := Z.testbit pte 1.
Definition pte_null (pte : Z) : bool := Z.testbit pte 9.

(** The page-size bit (bit 7) of an entry above the last level. *)
Definition pte_huge (pt_level pte : Z) : bool := negb (pt_level =? 0) && Z.testbit pte 7.

(** An address that fits the field of a leaf at a level. *)
Definition leaf_addr (pt_level addr : Z) : Prop :=
  word 52 addr /\ addr mod 2 ^ level_shift pt_level = 0.

(** ** Lemmas *)

Lemma leaf_addr_low l addr i :
  leaf_addr l addr -> 0 <= l -> 0 <= i < level_shift l -> Z.testbit addr i = false.
Proof. intros [_ Ha] ? ?. by apply (testbit_aligned (level_shift l)). Qed.

Lemma leaf_addr_high l addr i : leaf_addr l addr -> 52 <= i -> Z.testbit addr i = false.
Proof. intros [Ha _] ?. apply (testbit_above 52); [done|lia]. Qed.

Lemma bits_to_Z_word (n : nat) x :
  word (Z.of_nat n) x -> bits_to_Z (Z.testbit x ∘ Z.of_nat <$> seq 0 n) = x.
Proof.
  revert x. induction n as [|n IH]; intros x Hx.
  - simpl. unfold word in Hx. simpl in Hx. lia.
  - cbn [seq]. rewrite fmap_cons. cbn [bits_to_Z foldr compose].
    rewrite <- fmap_S_seq, <- list_fmap_compose.
    rewrite (list_fmap_ext _ (Z.testbit (Z.div2 x) ∘ Z.of_nat) (seq 0 n)).
    2:{ intros i k _. unfold compose. rewrite Z.div2_spec, Z.shiftr_spec by lia.
         by rewrite Nat2Z.inj_succ. }
    fold (bits_to_Z (Z.testbit (Z.div2 x) ∘ Z.of_nat <$> seq 0 n)).
    rewrite IH.
    + rewrite (Z.div2_odd x) at 3. rewrite Z.bit0_odd. lia.
    + unfold word in *. rewrite Nat2Z.inj_succ, Z.pow_succ_r in Hx by lia.
      rewrite Z.div2_div. split; [apply Z.div_pos; lia|].
      apply Z.div_lt_upper_bound; lia.
Qed.

(** Bit [i] of each encoder, for every [i]. *)
Lemma pte_encode_pat_index_bits pat l i :
  Z.testbit (pte_encode_pat_index pat l) i =
    (i =? 3) && Z.testbit pat 0 || (i =? 4) && Z.testbit pat 1
    || (i =? (if l =? 0 then 7 else 12)) && Z.testbit pat 2
    || (i =? 62) && Z.testbit pat 3 || (i =? 61) && Z.testbit pat 4.
Proof.
  unfold pte_encode_pat_index. rewrite !test_BIT by lia. unfold_pte_bits.
  destruct (Z.testbit pat 0), (Z.testbit pat 1), (Z.testbit pat 2),
    (Z.testbit pat 3), (Z.testbit pat 4), (l =? 0); simpl negb; cbv iota;
    autorewrite with bits; rewrite ?andb_true_r, ?andb_false_r; btauto.
Qed.

Lemma pde_encode_pat_index_bits pat i :
  Z.testbit (pde_encode_pat_index pat) i =
    (i =? 3) && Z.testbit pat 0 || (i =? 4) && Z.testbit pat 1.
Proof.
  unfold pde_encode_pat_index. rewrite !test_BIT by lia. unfold_pte_bits.
  destruct (Z.testbit pat 0), (Z.testbit pat 1);
    autorewrite with bits; rewrite ?andb_true_r, ?andb_false_r; btauto.
Qed.

Lemma pte_encode_ps_bits l i :
  0 <= l <= 2 -> Z.testbit (pte_encode_ps l) i = (i =? 7) && negb (l =? 0).
Proof.
  intros Hl. unfold pte_encode_ps. unfold_pte_bits.
  assert (l = 0 \/ l = 1 \/ l = 2) as [-> | [-> | ->]] by lia; simpl;
    autorewrite with bits; by rewrite ?andb_true_r, ?andb_false_r.
Qed.

Lemma xelpg_ggtt_pte_flags_bits bo pat i :
  Z.testbit (xelpg_ggtt_pte_flags bo pat) i =
    (i =? 0) || (i =? 1) && (bo_is_vram bo || bo_is_stolen_devmem bo)
    || (i =? 52) && Z.testbit pat 0 || (i =? 53) && Z.testbit pat 1.
Proof.
  unfold xelpg_ggtt_pte_flags, xelp_ggtt_pte_flags. rewrite !test_BIT by lia.
  unfold_pte_bits.
  destruct (Z.testbit pat 0), (Z.testbit pat 1), (bo_is_vram bo), (bo_is_stolen_devmem bo);
    simpl orb; cbv iota; autorewrite with bits;
    rewrite ?andb_true_r, ?andb_false_r; btauto.
Qed.

Create Rewrite HintDb pte_bits.
#[export] Hint Rewrite pte_encode_pat_index_bits pde_encode_pat_index_bits
  xelpg_ggtt_pte_flags_bits : pte_bits.
#[export] Hint Rewrite pte_encode_ps_bits using lia : pte_bits.

(** An entry is a leaf address with flag bits outside the address field. *)
Lemma addr_field_lor l addr fl :
  0 <= l <= 2 -> leaf_addr l addr ->
  (forall i, level_shift l <= i < 52 -> Z.testbit fl i = false) ->
  pte_addr l (addr ||| fl) = addr.
Proof.
  intros Hl Ha Hfl. unfold pte_addr, XE_PAGE_ADDR_MASK.
  bitwise i Hi. rewrite testbit_GENMASK by (unfold level_shift; lia).
  destruct (Z.leb_spec (level_shift l) i) as [H1|H1], (Z.leb_spec i 51) as [H2|H2]; simpl.
  - rewrite Hfl by lia. btauto.
  - rewrite (leaf_addr_high l addr i) by (done || lia). btauto.
  - rewrite (leaf_addr_low l addr i) by (done || lia). btauto.
  - rewrite (leaf_addr_high l addr i) by (done || lia). btauto.
Qed.

Lemma pte_addr_bit l addr i :
  leaf_addr l addr -> 0 <= l <= 2 -> 0 <= i < 12 \/ 52 <= i ->
  Z.testbit addr i = false.
Proof.
  intros Ha Hl [?|?]; [|by apply (leaf_addr_high l)].
  apply (leaf_addr_low l); [done|lia|unfold level_shift; lia].
Qed.

Lemma pte_addr_bit12 l addr : 1 <= l <= 2 -> leaf_addr l addr -> Z.testbit addr 12 = false.
Proof. intros. apply (leaf_addr_low l); [done|lia|unfold level_shift; lia]. Qed.

Lemma word5_bits pat :
  word 5 pat ->
  bits_to_Z [Z.testbit pat 0; Z.testbit pat 1; Z.testbit pat 2; Z.testbit pat 3;
             Z.testbit pat 4] = pat.
Proof. apply (bits_to_Z_word 5). Qed.

Lemma word2_bits pat :
  word 2 pat -> bits_to_Z [Z.testbit pat 0; Z.testbit pat 1] = pat.
Proof. apply (bits_to_Z_word 2). Qed.

Lemma word_pte_encode_pat_index pat l : word 64 (pte_encode_pat_index pat l).
Proof.
  unfold pte_encode_pat_index. unfold_pte_bits.
  repeat first [apply word_if | apply word_lor | apply word_BIT | apply word_0]; lia.
Qed.

Lemma word_pde_encode_pat_index pat : word 64 (pde_encode_pat_index pat).
Proof.
  unfold pde_encode_pat_index. unfold_pte_bits.
  repeat first [apply word_if | apply word_lor | apply word_BIT | apply word_0]; lia.
Qed.

Lemma word_pte_encode_ps l : word 64 (pte_encode_ps l).
Proof.
  unfold pte_encode_ps. unfold_pte_bits.
  repeat first [apply word_if | apply word_BIT | apply word_0]; lia.
Qed.

Lemma word_xelpg_ggtt_pte_flags bo pat : word 64 (xelpg_ggtt_pte_flags bo pat).
Proof.
  unfold xelpg_ggtt_pte_flags, xelp_ggtt_pte_flags. unfold_pte_bits.
  repeat first [apply word_if | apply word_lor | apply word_BIT | apply word_0]; lia.
Qed.

#[export] Hint Resolve word_pte_encode_pat_index word_pde_encode_pat_index
  word_pte_encode_ps word_xelpg_ggtt_pte_flags : words.

(** Compute a bit of an entry at a constant position, given that the address
    has none there. *)
Ltac entry_bit Ha :=
  autorewrite with bits pte_bits;
  rewrite ?(pte_addr_bit _ _ _ Ha) by lia;
  simpl; rewrite ?andb_true_r, ?andb_false_r, ?orb_false_r, ?orb_true_r; simpl.

(** Split an equation between two explicit lists into its elements. *)
Ltac split_list_eq :=
  repeat match goal with |- _ :: _ = _ :: _ => apply f_equal2 end.

(** * What the encoders produce *)

Record leaf_entry (l addr pat : Z) (devmem rw null : bool) (pte : Z) : Prop := {
  le_word : word 64 pte;
  le_addr : pte_addr l pte = addr;
  le_pat : pte_pat l pte = pat;
  le_devmem : pte_devmem pte = devmem;
  le_present : pte_present pte = true;
  le_rw : pte_rw pte = rw;
  le_null : pte_null pte = null;
  le_huge : pte_huge l pte = negb (l =? 0);
}.

(** Any word assembled from a leaf address, the PAT bits, the page-size bits,
    and the single-bit fields is the entry with those fields. *)
Definition leaf_word (l addr pat : Z) (devmem rw null : bool) (extra : Z) : Z :=
  addr ||| (BIT 0 ||| (if rw then BIT 1 else 0) ||| pte_encode_pat_index pat l
            ||| pte_encode_ps l ||| (if devmem then BIT 11 else 0)
            ||| (if null then BIT 9 else 0) ||| extra).

Lemma leaf_word_entry l addr pat devmem rw null extra :
  0 <= l <= 2 -> leaf_addr l addr -> word 5 pat -> extra = 0 \/ extra = XE_PTE_PS64 ->
  leaf_entry l addr pat devmem rw null (leaf_word l addr pat devmem rw null extra).
Proof.
  intros Hl Ha Hp Hx.
  assert (forall i, Z.testbit extra i = (i =? 8) && negb (extra =? 0)) as Hxb.
  { intros i. destruct Hx as [-> | ->]; unfold_pte_bits; autorewrite with bits;
      by rewrite ?andb_false_r, ?andb_true_r. }
  assert (word 64 extra) as Hxw
    by (destruct Hx as [-> | ->]; [by apply word_0|by apply word_BIT]).
  unfold leaf_word. constructor.
  - destruct Ha as [Ha _]. apply word_lor; [lia|by apply (word_le 52)|].
    auto 12 with words.
  - apply addr_field_lor; [done..|]. intros i Hi. unfold level_shift in Hi.
    autorewrite with bits pte_bits. rewrite Hxb.
    destruct (Z.eqb_spec l 0); rewrite ?(proj2 (Z.eqb_neq i _)) by lia;
      simpl; by destruct rw, devmem, null.
  - unfold pte_pat. transitivity (bits_to_Z [Z.testbit pat 0; Z.testbit pat 1;
      Z.testbit pat 2; Z.testbit pat 3; Z.testbit pat 4]); [|by apply word5_bits].
    f_equal. destruct (Z.eqb_spec l 0) as [->|Hl0].
    + split_list_eq; try done; entry_bit Ha; rewrite ?Hxb;
        destruct rw, devmem, null; simpl; btauto.
    + split_list_eq; try done; entry_bit Ha;
        rewrite ?Hxb, ?(pte_addr_bit12 l) by (done || lia);
        rewrite ?(proj2 (Z.eqb_neq l 0)) by done;
        destruct rw, devmem, null; simpl; btauto.
  - unfold pte_devmem. entry_bit Ha. rewrite ?Hxb. destruct (l =? 0), rw, devmem, null; done.
  - unfold pte_present. entry_bit Ha. done.
  - unfold pte_rw. entry_bit Ha. rewrite ?Hxb. destruct (l =? 0), rw, devmem, null; done.
  - unfold pte_null. entry_bit Ha. rewrite ?Hxb. destruct (l =? 0), rw, devmem, null; done.
  - unfold pte_huge. destruct (Z.eqb_spec l 0) as [->|Hl0]; [done|]. simpl.
    entry_bit Ha. rewrite ?(proj2 (Z.eqb_neq l 0)) by done. simpl.
    by rewrite ?orb_true_r.
Qed.

(** Reorder a chain of bitwise ors. *)
Ltac lor_eq := let i := fresh "i" in let Hi := fresh "Hi" in bitwise i Hi; btauto.

Lemma xelp_pte_encode_addr_word addr pat l devmem fl :
  xelp_pte_encode_addr addr pat l devmem fl = leaf_word l addr pat devmem true false fl.
Proof.
  unfold xelp_pte_encode_addr, leaf_word. unfold_pte_bits.
  destruct devmem; rewrite ?Z.lor_0_r; lor_eq.
Qed.

Lemma xelp_pte_encode_bo_word xe_bo_addr bo off pat l :
  xelp_pte_encode_bo xe_bo_addr bo off pat l =
    leaf_word l (xe_bo_addr bo off XE_PAGE_SIZE) pat
      (bo_is_vram bo || bo_is_stolen_devmem bo) true false 0.
Proof.
  unfold xelp_pte_encode_bo, leaf_word. unfold_pte_bits.
  destruct (bo_is_vram bo || bo_is_stolen_devmem bo); rewrite ?Z.lor_0_r; lor_eq.
Qed.

(** When [xelp_pte_encode_vma] redirects an entry to the scratch page. *)
Definition vma_null_pte (vma : pte_vma) : bool :=
  pv_is_null vma || (pv_has_bo vma && pv_bo_purged vma && pv_vm_has_scratch vma).

Lemma xelp_pte_encode_vma_word addr vma pat l :
  xelp_pte_encode_vma addr vma pat l =
    leaf_word l addr pat false (negb (pv_read_only vma)) (vma_null_pte vma) 0.
Proof.
  unfold xelp_pte_encode_vma, leaf_word, vma_null_pte. unfold_pte_bits.
  destruct (pv_read_only vma), (pv_is_null vma || _); simpl negb; cbv iota;
    rewrite ?Z.lor_0_r; lor_eq.
Qed.

(** A leaf PTE encoded by [xelp_pte_encode_addr] decodes, field by field, to
    what it was encoded from: at every page size the address, the five PAT
    index bits (whose third bit moves from bit 7 to bit 12 above the last
    level, where bit 7 is the page-size bit), the device-memory bit, present,
    writable; and the entry is a 64-bit word. *)
Theorem xelp_pte_encode_addr_fields addr pat l devmem fl
    (Hl : 0 <= l <= MAX_HUGEPTE_LEVEL) (Ha : leaf_addr l addr) (Hp : word 5 pat)
    (Hf : fl = 0 \/ fl = XE_PTE_PS64) :
  leaf_entry l addr pat devmem true false (xelp_pte_encode_addr addr pat l devmem fl).
Proof. rewrite xelp_pte_encode_addr_word. by apply leaf_word_entry. Qed.

Lemma xelp_pte_encode_addr_fields_witness :
  leaf_entry 1 (2 ^ 45 + 2 ^ 21) 21 true true false
    (xelp_pte_encode_addr (2 ^ 45 + 2 ^ 21) 21 1 true XE_PTE_PS64).
Proof.
  apply xelp_pte_encode_addr_fields.
  - unfold MAX_HUGEPTE_LEVEL. lia.
  - split; [split|]; vm_compute; congruence.
  - split; vm_compute; congruence.
  - by right.
Defined.

(** The VMA encoder grants write access exactly to VMAs that are not
    read-only, sets the NULL bit exactly for sparse VMAs and for purged buffer
    objects of a VM with scratch pages, and keeps address and PAT index; in
    particular a purged object never yields a NULL entry on a VM without
    scratch. *)
Theorem xelp_pte_encode_vma_fields addr vma pat l
    (Hl : 0 <= l <= MAX_HUGEPTE_LEVEL) (Ha : leaf_addr l addr) (Hp : word 5 pat) :
  leaf_entry l addr pat false (negb (pv_read_only vma)) (vma_null_pte vma)
    (xelp_pte_encode_vma addr vma pat l) /\
  (pv_is_null vma = false -> pv_vm_has_scratch vma = false ->
   pte_null (xelp_pte_encode_vma addr vma pat l) = false).
Proof.
  rewrite xelp_pte_encode_vma_word.
  assert (leaf_entry l addr pat false (negb (pv_read_only vma)) (vma_null_pte vma)
    (leaf_word l addr pat false (negb (pv_read_only vma)) (vma_null_pte vma) 0)) as He
    by (apply leaf_word_entry; auto).
  split; [done|]. intros Hn Hs. rewrite (le_null _ _ _ _ _ _ _ He).
  unfold vma_null_pte. by rewrite Hn, Hs, andb_false_r.
Qed.

Lemma xelp_pte_encode_vma_fields_witness :
  let vma := {| pv_has_bo := true; pv_bo_purged := true; pv_read_only := true;
                pv_is_null := false; pv_vm_has_scratch := false |} in
  leaf_entry 0 (2 ^ 40 + 4096) 9 false false false
    (xelp_pte_encode_vma (2 ^ 40 + 4096) vma 9 0) /\
  (pv_is_null vma = false -> pv_vm_has_scratch vma = false ->
   pte_null (xelp_pte_encode_vma (2 ^ 40 + 4096) vma 9 0) = false).
Proof.
  apply (xelp_pte_encode_vma_fields (2 ^ 40 + 4096)
    {| pv_has_bo := true; pv_bo_purged := true; pv_read_only := true;
       pv_is_null := false; pv_vm_has_scratch := false |} 9 0).
  - unfold MAX_HUGEPTE_LEVEL. lia.
  - split; [split|]; vm_compute; congruence.
  - split; vm_compute; congruence.
Defined.

(** A page-directory entry: address, the two PAT bits of the table's caching,
    present and writable, and nothing above bit 51. *)
Lemma xelp_pde_encode_bo_fields xe_bo_addr pat_idx bo off :
  leaf_addr 0 (xe_bo_addr bo off XE_PAGE_SIZE) ->
  word 2 (pde_pat_index pat_idx bo) ->
  let pde := xelp_pde_encode_bo xe_bo_addr pat_idx bo off in
  word 64 pde /\ pte_addr 0 pde = xe_bo_addr bo off XE_PAGE_SIZE /\
  pde_pat pde = pde_pat_index pat_idx bo /\ pte_present pde = true /\ pte_rw pde = true.
Proof.
  intros Ha Hp. unfold xelp_pde_encode_bo. unfold_pte_bits.
  set (addr := xe_bo_addr bo off XE_PAGE_SIZE) in *.
  set (pat := pde_pat_index pat_idx bo) in *. cbv zeta.
  rewrite <- Z.lor_assoc. split_and!.
  - apply word_lor; [lia|apply (word_le 52); [lia|apply Ha]|auto 8 with words].
  - apply addr_field_lor; [lia|done|]. intros i Hi. unfold level_shift in Hi.
    autorewrite with bits pte_bits. by rewrite !(proj2 (Z.eqb_neq i _)) by lia.
  - unfold pde_pat. rewrite <- (word2_bits pat) at 3 by done. f_equal.
    split_list_eq; try done; entry_bit Ha; btauto.
  - unfold pte_present. entry_bit Ha. done.
  - unfold pte_rw. entry_bit Ha. done.
Qed.

(** A GGTT entry [dma | flags] decodes to the DMA page, the two PAT bits and the
    device-memory bit. *)
Lemma xelpg_ggtt_pte_fields dma bo pat :
  leaf_addr 0 dma -> word 2 pat ->
  let pte := dma ||| xelpg_ggtt_pte_flags bo pat in
  word 64 pte /\ pte_addr 0 pte = dma /\ ggtt_pat pte = pat /\ pte_present pte = true /\
  ggtt_devmem pte = bo_is_vram bo || bo_is_stolen_devmem bo.
Proof.
  intros Ha Hp. cbv zeta. split_and!.
  - apply word_lor; [lia|apply (word_le 52); [lia|apply Ha]|auto with words].
  - apply addr_field_lor; [lia|done|]. intros i Hi. unfold level_shift in Hi.
    autorewrite with pte_bits. by rewrite !(proj2 (Z.eqb_neq i _)) by lia.
  - unfold ggtt_pat. rewrite <- (word2_bits pat) at 3 by done. f_equal.
    split_list_eq; try done; entry_bit Ha; btauto.
  - unfold pte_present. entry_bit Ha. done.
  - unfold ggtt_devmem. entry_bit Ha. btauto.
Qed.
