(* ===== verification/PortedXe.v ===== *)
(** The ported page-table subsystem, [Drivers/PortedXe]: the six upstream
    functions of [XePteAlgorithms.inc] compiled with trapping assertions, their
    validating wrappers, and the GGTT mapping owner [GgttMapping]. *)
From stdpp Require Import base numbers list sets.
From Stdlib Require Import Btauto.
From S2P Require Import Prelude.
From S2P Require Import GttDefs.
From S2P Require Import Pte.

Module PortedXe.

(** * [XePteAlgorithms.inc]

    The retained bodies are the upstream ones, but [xe_assert] and [XE_WARN_ON]
    are [__builtin_trap]: [None] is a trap. *)

Record xe_bo := { vram : bool; stolenDevmem : bool }.

Definition xe_assert (b : bool) {A} (k : option A) : option A := if b then k else None.

Definition xelp_ggtt_pte_flags (bo : xe_bo) (pat_index : Z) : Z :=
  let pte := XE_PAGE_PRESENT in
  if vram bo || stolenDevmem bo then pte ||| XE_GGTT_PTE_DM else pte.

Definition xelpg_ggtt_pte_flags (bo : xe_bo) (pat_index : Z) : option Z :=
  let pte := xelp_ggtt_pte_flags bo pat_index in
  xe_assert (pat_index <=? 3) (
    let pte := if test pat_index (BIT 0) then pte ||| XELPG_GGTT_PTE_PAT0 else pte in
    let pte := if test pat_index (BIT 1) then pte ||| XELPG_GGTT_PTE_PAT1 else pte in
    Some pte).

Definition pde_encode_pat_index (pat_index : Z) : Z :=
  let pte := 0 in
  let pte := if test pat_index (BIT 0) then pte ||| XE_PPGTT_PTE_PAT0 else pte in
  if test pat_index (BIT 1) then pte ||| XE_PPGTT_PTE_PAT1 else pte.

Definition pte_encode_pat_index (pat_index pt_level : Z) : Z :=
  let pte := 0 in
  let pte := if test pat_index (BIT 0) then pte ||| XE_PPGTT_PTE_PAT0 else pte in
  let pte := if test pat_index (BIT 1) then pte ||| XE_PPGTT_PTE_PAT1 else pte in
  let pte :=
    if test pat_index (BIT 2)
    then if negb (pt_level =? 0) then pte ||| XE_PPGTT_PDE_PDPE_PAT2
         else pte ||| XE_PPGTT_PTE_PAT2
    else pte in
  let pte := if test pat_index (BIT 3) then pte ||| XELPG_PPGTT_PTE_PAT3 else pte in
  if test pat_index (BIT 4) then pte ||| XE2_PPGTT_PTE_PAT4 else pte.

Definition pte_encode_ps (pt_level : Z) : option Z :=
  xe_assert (negb (MAX_HUGEPTE_LEVEL <? pt_level)) (
    if pt_level =? 1 then Some XE_PDE_PS_2M
    else if pt_level =? 2 then Some XE_PDPE_PS_1G
    else Some 0).

Definition xelp_pte_encode_addr (addr pat_index pt_level : Z) (devmem : bool)
    (flags : Z) : option Z :=
  xe_assert (Z.ldiff flags XE_PTE_PS64 =? 0) (
    let pte := addr in
    let pte := pte ||| (XE_PAGE_PRESENT ||| XE_PAGE_RW) in
    let pte := pte ||| pte_encode_pat_index pat_index pt_level in
    ps ← pte_encode_ps pt_level;
    let pte := pte ||| ps in
    let pte := if devmem then pte ||| XE_PPGTT_PTE_DM else pte in
    Some (pte ||| flags)).

(** * Wrappers, [XePageTable.cpp] *)

Inductive Status :=
  | Ok | InvalidAddress | InvalidPat | InvalidLevel | InvalidArgument
  | Busy | PinFailed | IoFailure | NotBound.

#[export] Instance Status_eq_dec : EqDecision Status.
Proof. solve_decision. Defined.

Definition validAddress (address bits shift : Z) : bool :=
  if (bits <? shift) || (52 <? bits) then false
  else (Z.land address (Z.shiftl 1 shift - 1) =? 0) && (Z.shiftr address bits =? 0).

Definition PageSize : Z := 4096.

(** The reference parameter [out] is passed in and returned; [None] is a trap. *)
Definition encodeGgtt (dma pat : Z) (devmem : bool) (addressBits out : Z)
    : option (Status * Z) :=
  if negb (validAddress dma addressBits 12) then Some (InvalidAddress, out)
  else if 3 <? pat then Some (InvalidPat, out)
  else
    let bo := {| vram := devmem; stolenDevmem := false |} in
    fl ← xelpg_ggtt_pte_flags bo pat;
    Some (Ok, dma ||| fl).

Definition encodePpgtt (dma pat level : Z) (devmem : bool) (addressBits out : Z)
    (writable : bool) : option (Status * Z) :=
  if 2 <? level then Some (InvalidLevel, out)
  else if negb (validAddress dma addressBits (12 + 9 * level)) then Some (InvalidAddress, out)
  else if 15 <? pat then Some (InvalidPat, out)
  else
    pte ← xelp_pte_encode_addr dma pat level devmem 0;
    Some (Ok, if negb writable then Z.ldiff pte XE_PAGE_RW else pte).

Definition encodePde (dma pat addressBits out : Z) : option (Status * Z) :=
  if negb (validAddress dma addressBits 12) then Some (InvalidAddress, out)
  else if 3 <? pat then Some (InvalidPat, out)
  else Some (Ok, dma ||| XE_PAGE_PRESENT ||| XE_PAGE_RW ||| pde_encode_pat_index pat).

(** ** Wrapper lemmas *)

Lemma validAddress_spec a bits shift :
  0 <= shift -> 0 <= a ->
  validAddress a bits shift = true <->
  shift <= bits <= 52 /\ a mod 2 ^ shift = 0 /\ word bits a.
Proof.
  intros Hs Ha. unfold validAddress.
  destruct (Z.ltb_spec bits shift), (Z.ltb_spec 52 bits); simpl;
    try (split; [done|unfold word; lia]).
  rewrite Z.shiftl_1_l, land_ones_low by lia.
  rewrite andb_true_iff, !Z.eqb_eq, Z.shiftr_div_pow2 by lia.
  unfold word. split; [|intros (?&?&?); split; [done|by apply Z.div_small]].
  intros [? Hd]. split_and!; [lia..|]. by apply Z.div_small_iff in Hd as [?|?];
    [lia|lia|apply Z.pow_nonzero; lia].
Qed.

Lemma validAddress_leaf a bits l :
  0 <= l <= 2 -> 0 <= a -> validAddress a bits (12 + 9 * l) = true -> leaf_addr l a.
Proof.
  intros Hl Ha Hv. apply validAddress_spec in Hv as (Hb & Hm & Hw); [|lia..].
  split; [|done]. apply (word_le bits); [lia|done].
Qed.

(** The retained GGTT and PPGTT bodies compute the upstream functions whenever
    they do not trap. *)
Lemma xelpg_ggtt_pte_flags_upstream v pat sz st sd fl ma tc :
  pat <= 3 ->
  xelpg_ggtt_pte_flags {| vram := v; stolenDevmem := sd |} pat =
    Some (Pte.xelpg_ggtt_pte_flags
      {| bo_size := sz; bo_is_vram := v; bo_is_stolen := st; bo_is_stolen_devmem := sd;
         bo_flags := fl; bo_min_align := ma; bo_ttm_cached := tc |} pat).
Proof.
  intros Hp. unfold xelpg_ggtt_pte_flags, xe_assert.
  by rewrite (proj2 (Z.leb_le pat 3) Hp).
Qed.

Lemma xelp_pte_encode_addr_upstream addr pat l devmem :
  l <= 2 ->
  xelp_pte_encode_addr addr pat l devmem 0 =
    Some (Pte.xelp_pte_encode_addr addr pat l devmem 0).
Proof.
  intros Hl. unfold xelp_pte_encode_addr, pte_encode_ps, xe_assert.
  rewrite Z.ldiff_0_l, (proj2 (Z.ltb_ge MAX_HUGEPTE_LEVEL l)) by (unfold MAX_HUGEPTE_LEVEL; lia).
  simpl.
  unfold Pte.xelp_pte_encode_addr, Pte.pte_encode_ps.
  by destruct (l =? 1), (l =? 2).
Qed.

(** The PPGTT wrapper never traps; it rejects a level above 2, then a DMA
    address that is misaligned for the level or wider than the adapter's DMA
    width, then a PAT index above 15, leaving the output untouched; otherwise
    its output has exactly the requested address, PAT index, device-memory and
    write permission, and equals the upstream VMA encoder's entry with the same
    write policy. *)
Theorem encodePpgtt_correct dma pat l devmem bits out writable :
  word 64 dma -> word 16 pat -> 0 <= l -> word 8 bits ->
  match encodePpgtt dma pat l devmem bits out writable with
  | None => False
  | Some (InvalidLevel, o) => o = out /\ 2 < l
  | Some (InvalidAddress, o) =>
      o = out /\ l <= 2 /\
      ~ (level_shift l <= bits <= 52 /\ dma mod 2 ^ level_shift l = 0 /\ dma < 2 ^ bits)
  | Some (InvalidPat, o) => o = out /\ l <= 2 /\ 15 < pat
  | Some (Ok, o) =>
      l <= 2 /\ pat <= 15 /\ leaf_entry l dma pat devmem writable false o /\
      (devmem = false ->
       o = xelp_pte_encode_vma dma
             {| pv_has_bo := true; pv_bo_purged := false; pv_read_only := negb writable;
                pv_is_null := false; pv_vm_has_scratch := false |} pat l)
  | Some _ => False
  end.
Proof.
  intros Hd Hp Hl Hb. unfold encodePpgtt.
  destruct (Z.ltb_spec 2 l); [done|].
  destruct (validAddress dma bits (12 + 9 * l)) eqn:Hv; simpl.
  - destruct (Z.ltb_spec 15 pat); [done|].
    apply validAddress_leaf in Hv; [|unfold word in *; lia..].
    rewrite xelp_pte_encode_addr_upstream by done. simpl.
    rewrite Pte.xelp_pte_encode_addr_word, xelp_pte_encode_vma_word. simpl.
    assert (forall d w, (if negb w then Z.ldiff (leaf_word l dma pat d true false 0) XE_PAGE_RW
              else leaf_word l dma pat d true false 0) = leaf_word l dma pat d w false 0)
      as Hw.
    { intros d [|]; [done|]. unfold leaf_word, XE_PAGE_RW. simpl negb. cbv iota.
      bitwise i Hi. rewrite pte_encode_pat_index_bits, pte_encode_ps_bits by lia.
      destruct (Z.eqb_spec i 1) as [->|]; [|simpl; btauto].
      rewrite (pte_addr_bit _ _ _ Hv) by lia. simpl.
      destruct (l =? 0), d; reflexivity. }
    rewrite !Hw, negb_involutive. split_and!; [done|done| |by intros ->].
    apply leaf_word_entry; auto. unfold word in *; lia.
  - split_and!; [done|done|]. intros (?&?&?).
    rewrite (proj2 (validAddress_spec dma bits (12 + 9 * l) ltac:(lia) ltac:(apply Hd))) in Hv;
      [done|]. unfold level_shift, word in *. split_and!; [lia..|done|lia|done].
Qed.

Lemma encodePpgtt_correct_witness :
  exists o, encodePpgtt (2 ^ 21) 5 1 false 46 7 false = Some (Ok, o) /\
  leaf_entry 1 (2 ^ 21) 5 false false false o.
Proof.
  pose proof (encodePpgtt_correct (2 ^ 21) 5 1 false 46 7 false
    ltac:(split; vm_compute; congruence) ltac:(split; vm_compute; congruence)
    ltac:(lia) ltac:(split; vm_compute; congruence)) as H.
  destruct (encodePpgtt (2 ^ 21) 5 1 false 46 7 false) as [[s o]|] eqn:E; [|done].
  exists o. destruct s; try (vm_compute in E; congruence). split; [done|apply H].
Defined.

Lemma encodeGgtt_valid dma pat devmem bits out :
  0 <= dma -> pat <= 3 -> validAddress dma bits 12 = true ->
  encodeGgtt dma pat devmem bits out =
    Some (Ok, dma ||| Pte.xelpg_ggtt_pte_flags
      {| bo_size := 0; bo_is_vram := devmem; bo_is_stolen := false;
         bo_is_stolen_devmem := false; bo_flags := 0; bo_min_align := 0;
         bo_ttm_cached := false |} pat).
Proof.
  intros Hd Hp Hv. unfold encodeGgtt. rewrite Hv. simpl.
  rewrite (proj2 (Z.ltb_ge 3 pat)) by done.
  by rewrite (xelpg_ggtt_pte_flags_upstream _ _ 0 false _ 0 0 false).
Qed.

Lemma encodeGgtt_total dma pat devmem bits out :
  exists s o, encodeGgtt dma pat devmem bits out = Some (s, o).
Proof.
  unfold encodeGgtt. destruct (validAddress dma bits 12); simpl; [|eauto].
  destruct (Z.ltb_spec 3 pat); [eauto|].
  rewrite (xelpg_ggtt_pte_flags_upstream _ _ 0 false _ 0 0 false) by done. simpl. eauto.
Qed.

Lemma encodeGgtt_Ok dma pat devmem bits out o :
  encodeGgtt dma pat devmem bits out = Some (Ok, o) ->
  validAddress dma bits 12 = true /\ pat <= 3.
Proof.
  unfold encodeGgtt. destruct (validAddress dma bits 12); [|done]. simpl.
  destruct (Z.ltb_spec 3 pat); [done|auto].
Qed.

(** * [GgttMapping]

    The adapter's callbacks are code outside this subsystem: each is a function
    of the adapter's own state [W], and a null pointer is [None].  Every call
    is recorded with its arguments and its answer, newest first. *)

Inductive io_event :=
  | EvRetain (lease : Z) (ok : bool)
  | EvRelease (lease : Z)
  | EvWrite (ggttAddress pte : Z) (ok : bool)
  | EvInvalidate (ok : bool).

Record DmaSegment := { address : Z; length : Z }.

Inductive MappingState := Empty | Bound | Faulted.

#[export] Instance MappingState_eq_dec : EqDecision MappingState.
Proof. solve_decision. Defined.

Section GgttMapping.
Context {W : Type}.

Record GgttIo := {
  retain : option (Z -> W -> bool * W);
  release : option (Z -> W -> W);
  writePte : option (Z -> Z -> W -> bool * W);
  barrierAndInvalidate : option (W -> bool * W);
}.

Definition null_io : GgttIo :=
  {| retain := None; release := None; writePte := None; barrierAndInvalidate := None |}.

Record GgttMapping := {
  io_ : GgttIo;
  state_ : MappingState;
  start_ : Z;
  bytes_ : Z;
  lease_ : Z;
}.

Definition empty_mapping : GgttMapping :=
  {| io_ := null_io; state_ := Empty; start_ := 0; bytes_ := 0; lease_ := 0 |}.

(** The adapter's state and the record of the calls made to it. *)
Record adapter := { ad_state : W; ad_trace : list io_event }.

Definition call_retain (f : Z -> W -> bool * W) (lease : Z) : ST adapter bool :=
  fun a => let '(ok, w) := f lease (ad_state a) in
    (ok, {| ad_state := w; ad_trace := EvRetain lease ok :: ad_trace a |}).
Definition call_release (f : Z -> W -> W) (lease : Z) : ST adapter unit :=
  fun a => (tt, {| ad_state := f lease (ad_state a);
                   ad_trace := EvRelease lease :: ad_trace a |}).
Definition call_write (f : Z -> Z -> W -> bool * W) (addr pte : Z) : ST adapter bool :=
  fun a => let '(ok, w) := f addr pte (ad_state a) in
    (ok, {| ad_state := w; ad_trace := EvWrite addr pte ok :: ad_trace a |}).
Definition call_invalidate (f : W -> bool * W) : ST adapter bool :=
  fun a => let '(ok, w) := f (ad_state a) in
    (ok, {| ad_state := w; ad_trace := EvInvalidate ok :: ad_trace a |}).

(** [GgttMapping::bind], first loop: the complete scatter/gather list is checked
    before anything is acquired.  [inr total] when every segment is accepted,
    [None] for a trap. *)
Fixpoint validateSegments (segments : list DmaSegment) (reservedBytes pat addressBits total : Z)
    : option (Status + Z) :=
  match segments with
  | [] => Some (inr total)
  | seg :: rest =>
      if (length seg =? 0) || negb (Z.land (length seg) (PageSize - 1) =? 0) ||
         (U64_MAX -64 (length seg -64 PageSize) <? address seg) ||
         (reservedBytes <? total) || (reservedBytes -64 total <? length seg)
      then Some (inl InvalidAddress)
      else
        r ← encodeGgtt (address seg) pat false addressBits 0;
        match r with
        | (Ok, _) =>
            r ← encodeGgtt (address seg +64 length seg -64 PageSize) pat false addressBits 0;
            match r with
            | (Ok, _) =>
                validateSegments rest reservedBytes pat addressBits (total +64 length seg)
            | (st, _) => Some (inl st)
            end
        | (st, _) => Some (inl st)
        end
  end.

(** The inner write loop, over the pages of one segment.  It returns the early
    [return] status, or the next GGTT address. *)
Fixpoint writeSegment (fuel : nat) (wr : Z -> Z -> W -> bool * W) (seg : DmaSegment)
    (pat addressBits offset addr : Z) (a : adapter) : option ((Status + Z) * adapter) :=
  match fuel with
  | O => Some (inr addr, a)
  | S n =>
      if offset <? length seg then
        r ← encodeGgtt (address seg +64 offset) pat false addressBits 0;
        match r with
        | (Ok, pte) =>
            let '(ok, a) := call_write wr addr pte a in
            if negb ok then Some (inl IoFailure, a)
            else writeSegment n wr seg pat addressBits (offset +64 PageSize)
                   (addr +64 PageSize) a
        | (st, _) => Some (inl st, a)
        end
      else Some (inr addr, a)
  end.

(** Iterations of the offset loop over a whole-page segment, and one to leave. *)
Definition segment_fuel (seg : DmaSegment) : nat := S (Z.to_nat (length seg / PageSize)).

Fixpoint writeSegments (wr : Z -> Z -> W -> bool * W) (segments : list DmaSegment)
    (pat addressBits addr : Z) (a : adapter) : option ((Status + Z) * adapter) :=
  match segments with
  | [] => Some (inr addr, a)
  | seg :: rest =>
      r ← writeSegment (segment_fuel seg) wr seg pat addressBits 0 addr a;
      match r with
      | (inl st, a) => Some (inl st, a)
      | (inr addr, a) => writeSegments wr rest pat addressBits addr a
      end
  end.

Definition set_state (st : MappingState) (m : GgttMapping) : GgttMapping :=
  {| io_ := io_ m; state_ := st; start_ := start_ m; bytes_ := bytes_ m; lease_ := lease_ m |}.

(** [segments] is [None] for a null pointer; [count] is its length. *)
Definition bind_args_ok (io : GgttIo) (start reservedBytes lease : Z)
    (segments : option (list DmaSegment)) : bool :=
  match retain io, release io, writePte io, barrierAndInvalidate io, segments with
  | Some _, Some _, Some _, Some _, Some segs =>
      let count := Z.of_nat (Datatypes.length segs) in
      negb ((lease =? 0) || (count =? 0) || (65536 <? count) || (reservedBytes =? 0) ||
            negb (Z.land start (PageSize - 1) =? 0) ||
            negb (Z.land reservedBytes (PageSize - 1) =? 0) ||
            (2 ^ 32 <? reservedBytes) || (2 ^ 32 - reservedBytes <? start))
  | _, _, _, _, _ => false
  end.

Definition bind (io : GgttIo) (start reservedBytes lease : Z)
    (segments : option (list DmaSegment)) (pat addressBits : Z)
    (m : GgttMapping) (a : adapter) : option (Status * GgttMapping * adapter) :=
  if negb (bool_decide (state_ m = Empty)) then Some (Busy, m, a)
  else if negb (bind_args_ok io start reservedBytes lease segments)
  then Some (InvalidArgument, m, a)
  else
    match retain io, writePte io, barrierAndInvalidate io, segments with
    | Some fret, Some fwr, Some finv, Some segs =>
        v ← validateSegments segs reservedBytes pat addressBits 0;
        match v with
        | inl st => Some (st, m, a)
        | inr total =>
            let '(ok, a) := call_retain fret lease a in
            if negb ok then Some (PinFailed, m, a)
            else
              let m := {| io_ := io; state_ := Faulted; start_ := start;
                          bytes_ := total; lease_ := lease |} in
              r ← writeSegments fwr segs pat addressBits start a;
              match r with
              | (inl st, a) => Some (st, m, a)
              | (inr _, a) =>
                  let '(ok, a) := call_invalidate finv a in
                  if negb ok then Some (IoFailure, m, a)
                  else Some (Ok, set_state Bound m, a)
              end
        end
    | _, _, _, _ => None
    end.

(** The zeroing loop of [unmap]: [false] when a write failed. *)
Fixpoint clearPages (fuel : nat) (wr : Z -> Z -> W -> bool * W) (start bytes offset : Z)
    (a : adapter) : bool * adapter :=
  match fuel with
  | O => (true, a)
  | S n =>
      if offset <? bytes then
        let '(ok, a) := call_write wr (start +64 offset) 0 a in
        if negb ok then (false, a) else clearPages n wr start bytes (offset +64 PageSize) a
      else (true, a)
  end.

(** [GgttMapping::unmap]; calling through a null pointer is a trap. *)
Definition unmap (m : GgttMapping) (a : adapter) : option (Status * GgttMapping * adapter) :=
  if bool_decide (state_ m = Empty) then Some (NotBound, m, a)
  else
    let m := set_state Faulted m in
    match writePte (io_ m), barrierAndInvalidate (io_ m), release (io_ m) with
    | Some fwr, Some finv, Some frel =>
        let '(ok, a) :=
          clearPages (S (Z.to_nat (bytes_ m / PageSize))) fwr (start_ m) (bytes_ m) 0 a in
        if negb ok then Some (IoFailure, m, a)
        else
          let '(ok, a) := call_invalidate finv a in
          if negb ok then Some (IoFailure, m, a)
          else
            let '(_, a) := call_release frel (lease_ m) a in
            Some (Ok, empty_mapping, a)
    | _, _, _ => None
    end.
End GgttMapping.
Arguments GgttIo : clear implicits.
Arguments GgttMapping : clear implicits.
Arguments adapter : clear implicits.

(** ** Segments

    What the validation loop establishes of a segment. *)

Definition seg_word (seg : DmaSegment) : Prop := word 64 (address seg) /\ word 64 (length seg).

Record seg_valid (pat bits : Z) (seg : DmaSegment) : Prop := {
  sv_pos : 0 < length seg;
  sv_len : length seg mod 4096 = 0;
  sv_first : validAddress (address seg) bits 12 = true;
  sv_last : validAddress (address seg + length seg - PageSize) bits 12 = true;
  sv_max : address seg + length seg - PageSize < 2 ^ 64;
  sv_pat : pat <= 3;
}.

Definition seg_pages (seg : DmaSegment) : nat := Z.to_nat (length seg / PageSize).

(** The DMA page addresses a scatter/gather list describes, in order. *)
Definition dma_pages (segs : list DmaSegment) : list Z :=
  concat ((fun s => pages (address s) (seg_pages s)) <$> segs).

Definition seg_total (segs : list DmaSegment) : Z := foldr (fun s t => length s + t) 0 segs.

(** The entry the mapping writes for a DMA page of system memory. *)
Definition page_pte (pat dma : Z) : Z :=
  dma ||| Pte.xelpg_ggtt_pte_flags
    {| bo_size := 0; bo_is_vram := false; bo_is_stolen := false;
       bo_is_stolen_devmem := false; bo_flags := 0; bo_min_align := 0;
       bo_ttm_cached := false |} pat.

Lemma seg_pages_length pat bits s :
  seg_valid pat bits s -> length s = PageSize * Z.of_nat (seg_pages s).
Proof.
  intros [Hp Hl _ _ _ _]. unfold seg_pages, PageSize in *.
  rewrite Z2Nat.id by (apply Z.div_pos; lia).
  rewrite (Z.div_mod (length s) 4096) at 1 by lia. lia.
Qed.

(** Both ends of a segment being encodable makes every page in it encodable, so
    the encoder's early return inside the write loop is dead. *)
Lemma seg_interior pat bits s k :
  seg_word s -> seg_valid pat bits s -> 0 <= k < Z.of_nat (seg_pages s) ->
  validAddress (address s + PageSize * k) bits 12 = true /\
  0 <= address s + PageSize * k < 2 ^ 64.
Proof.
  intros [[Ha0 _] _] Hs Hk. pose proof (seg_pages_length _ _ _ Hs) as Hlen.
  destruct Hs as [Hp Hl Hf Hla Hm _]. unfold PageSize in *.
  apply validAddress_spec in Hf as (Hb & Hal & Hw); [|lia..].
  apply validAddress_spec in Hla as (_ & _ & Hwl); [|lia..].
  unfold word in *. split; [|lia]. apply validAddress_spec; [lia..|].
  split_and!; [lia..| |unfold word; lia].
  change (2 ^ 12) with 4096 in *. rewrite Z.add_mod, Hal by lia.
  rewrite (Z.mul_comm 4096 k), Z.mod_mul by lia. done.
Qed.

Lemma encodeGgtt_page pat bits s k out :
  seg_word s -> seg_valid pat bits s -> 0 <= k < Z.of_nat (seg_pages s) ->
  encodeGgtt (address s +64 (PageSize * k)) pat false bits out =
    Some (Ok, page_pte pat (address s + PageSize * k)).
Proof.
  intros Hw Hs Hk. destruct (seg_interior _ _ _ _ Hw Hs Hk) as [Hv Hr].
  rewrite add64_small by lia. apply encodeGgtt_valid; [lia|apply Hs|done].
Qed.

Lemma validateSegments_total segs reserved pat bits total :
  exists r, validateSegments segs reserved pat bits total = Some r.
Proof.
  revert total. induction segs as [|s segs IH]; intros total; simpl; [eauto|].
  destruct (_ || _); [eauto|].
  destruct (encodeGgtt_total (address s) pat false bits 0) as (s1 & o1 & ->). simpl.
  destruct s1; eauto.
  destruct (encodeGgtt_total (address s +64 length s -64 PageSize) pat false bits 0)
    as (s2 & o2 & ->). simpl. destruct s2; eauto.
Qed.

Lemma validateSegments_status segs reserved pat bits total st :
  validateSegments segs reserved pat bits total = Some (inl st) ->
  st = InvalidAddress \/ st = InvalidPat.
Proof.
  assert (forall d out s o, encodeGgtt d pat false bits out = Some (s, o) ->
    s = Ok \/ s = InvalidAddress \/ s = InvalidPat) as Henc.
  { intros d out s o. unfold encodeGgtt.
    destruct (validAddress d bits 12); simpl; [|naive_solver].
    destruct (3 <? pat); [naive_solver|]. destruct (xelpg_ggtt_pte_flags _ _); naive_solver. }
  revert total. induction segs as [|s segs IH]; intros total; simpl; [done|].
  destruct (_ || _); [naive_solver|].
  destruct (encodeGgtt (address s) pat false bits 0) as [[s1 o1]|] eqn:E1; simpl; [|done].
  apply Henc in E1 as [-> | [-> | ->]]; [|by intros [= <-]; auto..].
  destruct (encodeGgtt (address s +64 length s -64 PageSize) pat false bits 0)
    as [[s2 o2]|] eqn:E2; simpl; [|done].
  apply Henc in E2 as [-> | [-> | ->]]; [by apply IH|by intros [= <-]; auto..].
Qed.

(** The checks of the validation loop on one segment. *)
Lemma segment_checks s reserved total :
  seg_word s -> 0 <= total -> reserved <= 2 ^ 32 ->
  (length s =? 0) || negb (Z.land (length s) (PageSize - 1) =? 0) ||
    (U64_MAX -64 (length s -64 PageSize) <? address s) ||
    (reserved <? total) || (reserved -64 total <? length s) = false ->
  0 < length s /\ length s mod 4096 = 0 /\ address s + length s - PageSize < 2 ^ 64 /\
  total + length s <= reserved.
Proof.
  intros [[Ha0 Ha] [Hl0 Hl]] Ht Hr H. zbool. unfold PageSize, U64_MAX in *.
  change (4096 - 1) with (2 ^ 12 - 1) in *. rewrite land_ones_low in * by lia.
  change (2 ^ 12) with 4096 in *.
  assert (length s <> 0) by done.
  assert (4096 <= length s).
  { assert (length s mod 4096 = 0) as [q Hq]%Z.mod_divide by done; lia. }
  assert (length s -64 4096 = length s - 4096) as Hl4 by (apply sub64_small; lia).
  rewrite Hl4 in *.
  rewrite (sub64_small (2 ^ 64 - 1)) in * by lia.
  rewrite (sub64_small reserved total) in * by lia. lia.
Qed.

Lemma validateSegments_spec segs reserved pat bits total t :
  Forall seg_word segs -> 0 <= total -> reserved <= 2 ^ 32 ->
  validateSegments segs reserved pat bits total = Some (inr t) ->
  Forall (seg_valid pat bits) segs /\ t = total + seg_total segs /\
  (segs = [] \/ t <= reserved).
Proof.
  revert total. induction segs as [|s segs IH]; intros total Hw Ht Hr; simpl.
  { intros [= <-]. split_and!; [done|lia|by left]. }
  apply Forall_cons in Hw as [Hs Hw].
  destruct (_ || _) eqn:Hc; [done|].
  apply segment_checks in Hc as (Hp & Hl & Hm & Hres); [|done..].
  assert (4096 <= length s) as Hpg.
  { apply Z.mod_divide in Hl as [q Hq]; [|lia]. lia. }
  destruct Hs as [[? ?] [? ?]].
  destruct (encodeGgtt (address s) pat false bits 0) as [[s1 o1]|] eqn:E1; simpl; [|done].
  destruct s1; try done. apply encodeGgtt_Ok in E1 as [Hf Hpat].
  rewrite (wrap_small 64 (total + length s)) by lia.
  replace (wrap 64 (wrap 64 (address s + length s) - PageSize))
    with (address s + length s - PageSize).
  2:{ unfold wrap. rewrite Zminus_mod_idemp_l. symmetry. apply Z.mod_small.
      unfold PageSize in *. lia. }
  destruct (encodeGgtt (address s + length s - PageSize) pat false bits 0)
    as [[s2 o2]|] eqn:E2; simpl; [|done].
  destruct s2; try done. apply encodeGgtt_Ok in E2 as [Hla _].
  intros Hv. apply IH in Hv as (HF & -> & Hor); [|done|lia|done].
  split_and!; [by constructor|lia|]. right. destruct Hor as [->|]; simpl; lia.
Qed.

(** ** The write loop as a relation

    [write_run addr pat ds r t]: writing the pages [ds] from GGTT address [addr]
    makes the calls [t] (oldest first) and ends with [r]. *)
Inductive write_run (pat : Z) : Z -> list Z -> Status + Z -> list io_event -> Prop :=
  | run_done addr : write_run pat addr [] (inr addr) []
  | run_fail addr d ds :
      write_run pat addr (d :: ds) (inl IoFailure) [EvWrite addr (page_pte pat d) false]
  | run_step addr d ds r t :
      write_run pat (addr + PageSize) ds r t ->
      write_run pat addr (d :: ds) r (EvWrite addr (page_pte pat d) true :: t).

Lemma write_run_app_ok pat addr ds1 ds2 x t1 r t2 :
  write_run pat addr ds1 (inr x) t1 -> write_run pat x ds2 r t2 ->
  write_run pat addr (ds1 ++ ds2) r (t1 ++ t2).
Proof.
  intros H. remember (inr x) as r1 eqn:Hr. revert Hr.
  induction H; intros [= ->]; simpl; intros; [done|constructor; auto].
Qed.

Lemma write_run_app_fail pat addr ds1 ds2 st t1 :
  write_run pat addr ds1 (inl st) t1 -> write_run pat addr (ds1 ++ ds2) (inl st) t1.
Proof.
  intros H. remember (inl st) as r1 eqn:Hr. revert Hr.
  induction H; intros [= ?]; subst; simpl; constructor; auto.
Qed.

Lemma write_run_ok pat addr ds x t :
  write_run pat addr ds (inr x) t ->
  x = addr + PageSize * Z.of_nat (Datatypes.length ds) /\
  t = imap (fun i d => EvWrite (addr + PageSize * Z.of_nat i) (page_pte pat d) true) ds.
Proof.
  intros H. remember (inr x) as r1 eqn:Hr. revert Hr.
  induction H; intros [= ?]; subst; simpl.
  { unfold PageSize. split; [lia|done]. }
  destruct (IHwrite_run eq_refl) as [-> ->]. unfold PageSize. split; [lia|].
  f_equal; [f_equal; lia|]. apply imap_ext. intros i d' _. simpl. f_equal; lia.
Qed.

Lemma write_run_fail pat addr ds st t :
  write_run pat addr ds (inl st) t -> st = IoFailure.
Proof.
  intros H. remember (inl st) as r1 eqn:Hr. revert Hr.
  induction H; intros [= ?]; subst; auto.
Qed.

Lemma write_run_events pat addr ds r t e :
  write_run pat addr ds r t -> e ∈ t ->
  exists a p ok, e = EvWrite a p ok /\ a ∈ pages addr (Datatypes.length ds).
Proof.
  intros H. induction H as [|addr d ds|addr d ds r t H IH]; intros He.
  - by apply not_elem_of_nil in He.
  - apply list_elem_of_singleton in He as ->. cbn [Datatypes.length]. rewrite pages_S.
    eexists _, _, _. split; [done|left].
  - cbn [Datatypes.length]. rewrite pages_S. apply elem_of_cons in He as [->|He].
    + eexists _, _, _. split; [done|left].
    + destruct (IH He) as (a & p & ok & -> & ?). exists a, p, ok. split; [done|by right].
Qed.

Section MappingProofs.
Context {W : Type}.

Lemma writeSegment_spec (wr : Z -> Z -> W -> bool * W) s pat bits n k addr fuel a :
  seg_word s -> seg_valid pat bits s -> (n < fuel)%nat ->
  0 <= k -> k + Z.of_nat n = Z.of_nat (seg_pages s) ->
  0 <= addr -> addr + PageSize * Z.of_nat n < 2 ^ 64 -> length s < 2 ^ 63 ->
  exists r a' t,
    writeSegment fuel wr s pat bits (PageSize * k) addr a = Some (r, a') /\
    ad_trace a' = rev t ++ ad_trace a /\
    write_run pat addr (pages (address s + PageSize * k) n) r t.
Proof.
  intros Hw Hs. pose proof (seg_pages_length _ _ _ Hs) as Hlen.
  revert k addr fuel a. induction n as [|n IH]; intros k addr fuel a Hf Hk Hn Ha Hmax Hlt.
  - destruct fuel as [|fuel]; [lia|]. simpl. unfold PageSize in *.
    rewrite (proj2 (Z.ltb_ge (4096 * k) (length s))) by lia.
    exists (inr addr), a, []. split_and!; [done..|constructor].
  - destruct fuel as [|fuel]; [lia|]. simpl.
    rewrite (proj2 (Z.ltb_lt (PageSize * k) (length s))) by (unfold PageSize in *; lia).
    rewrite (encodeGgtt_page pat bits s k) by (done || lia). simpl.
    rewrite pages_S. unfold call_write.
    destruct (wr addr _ (ad_state a)) as [ok w]. destruct ok; simpl.
    + unfold PageSize in *. rewrite !add64_small by lia.
      replace (4096 * k + 4096) with (4096 * (k + 1)) by lia.
      edestruct (IH (k + 1) (addr + 4096) fuel) as (r & a' & t & He & Htr & Hrun);
        [lia..|]. rewrite He. eexists r, a', (_ :: t). split_and!; [done| |].
      * rewrite Htr. simpl. by rewrite <- app_assoc.
      * apply run_step. unfold PAGE.
        replace (address s + 4096 * k + 4096) with (address s + 4096 * (k + 1)) by lia.
        done.
    + eexists _, _, [_]. split_and!; [done|done|apply run_fail].
Qed.

Lemma writeSegments_spec (wr : Z -> Z -> W -> bool * W) segs pat bits addr a :
  Forall seg_word segs -> Forall (seg_valid pat bits) segs ->
  0 <= addr -> seg_total segs < 2 ^ 63 -> addr + seg_total segs < 2 ^ 64 ->
  exists r a' t,
    writeSegments wr segs pat bits addr a = Some (r, a') /\
    ad_trace a' = rev t ++ ad_trace a /\ write_run pat addr (dma_pages segs) r t.
Proof.
  revert addr a. induction segs as [|s segs IH]; intros addr a Hw Hs Ha Hb Hmax; cbn [writeSegments].
  { eexists _, _, []. split_and!; [done|done|constructor]. }
  apply Forall_cons in Hw as [Hw1 Hw]. apply Forall_cons in Hs as [Hs1 Hs].
  pose proof (seg_pages_length _ _ _ Hs1) as Hlen. simpl in Hb, Hmax.
  assert (0 <= seg_total segs) as Htot.
  { clear -Hs. induction Hs as [|x l [] ? IH]; simpl; lia. }
  destruct (writeSegment_spec wr s pat bits (seg_pages s) 0 addr (segment_fuel s) a)
    as (r & a1 & t1 & He & Htr & Hrun);
    [done|done|unfold segment_fuel, seg_pages; lia|lia|lia|done|lia|lia|].
  rewrite Z.mul_0_r in He. rewrite He. simpl.
  replace (address s + PageSize * 0) with (address s) in Hrun by (unfold PageSize; lia).
  unfold dma_pages. simpl. fold (dma_pages segs). destruct r as [st|x].
  - exists (inl st), a1, t1. split_and!; [done..|]. by apply write_run_app_fail.
  - pose proof (write_run_ok _ _ _ _ _ Hrun) as [Hx _].
    rewrite pages_length, <- Hlen in Hx. pose proof (sv_pos _ _ _ Hs1).
    destruct (IH x a1) as (r & a2 & t2 & -> & Htr2 & Hrun2); [done|done|lia..|].
    exists r, a2, (t1 ++ t2). split_and!; [done| |by eapply write_run_app_ok].
    by rewrite Htr2, Htr, rev_app_distr, <- app_assoc.
Qed.

(** ** Binding *)

Definition bind_inputs (start reservedBytes lease pat addressBits : Z)
    (segments : option (list DmaSegment)) : Prop :=
  word 64 start /\ word 64 reservedBytes /\ word 64 lease /\ word 16 pat /\
  word 8 addressBits /\ from_option (Forall seg_word) True segments.

Lemma bind_args_ok_spec (io : GgttIo W) start reserved lease segments :
  bind_args_ok io start reserved lease segments = true ->
  exists fret frel fwr finv segs,
    retain io = Some fret /\ release io = Some frel /\ writePte io = Some fwr /\
    barrierAndInvalidate io = Some finv /\ segments = Some segs /\ segs <> [] /\
    lease <> 0 /\ reserved <= 2 ^ 32 /\ start <= 2 ^ 32 - reserved.
Proof.
  unfold bind_args_ok.
  destruct (retain io), (release io), (writePte io), (barrierAndInvalidate io),
    segments as [segs|]; try done.
  intros H. apply negb_true_iff in H. zbool.
  eexists _, _, _, _, segs. split_and!; try done; [|lia..]. by intros ->.
Qed.

(** The outcome of a bind: what each status means for the mapping and for the
    calls made to the adapter (oldest first). *)
Inductive bind_outcome (io : GgttIo W) (start lease pat : Z) (segs : list DmaSegment)
    (m : GgttMapping W) :
    Status -> GgttMapping W -> list io_event -> Prop :=
  | bind_rejected st :
      st ∈ [Busy; InvalidArgument; InvalidAddress; InvalidPat] ->
      bind_outcome io start lease pat segs m st m []
  | bind_unpinned :
      bind_outcome io start lease pat segs m PinFailed m [EvRetain lease false]
  | bind_faulted t :
      write_run pat start (dma_pages segs) (inl IoFailure) t ->
      bind_outcome io start lease pat segs m IoFailure
        {| io_ := io; state_ := Faulted; start_ := start; bytes_ := seg_total segs;
           lease_ := lease |} (EvRetain lease true :: t)
  | bind_uninvalidated x t :
      write_run pat start (dma_pages segs) (inr x) t ->
      bind_outcome io start lease pat segs m IoFailure
        {| io_ := io; state_ := Faulted; start_ := start; bytes_ := seg_total segs;
           lease_ := lease |} (EvRetain lease true :: t ++ [EvInvalidate false])
  | bind_bound x t :
      write_run pat start (dma_pages segs) (inr x) t ->
      bind_outcome io start lease pat segs m Ok
        {| io_ := io; state_ := Bound; start_ := start; bytes_ := seg_total segs;
           lease_ := lease |} (EvRetain lease true :: t ++ [EvInvalidate true]).

Lemma bind_total (io : GgttIo W) start reserved lease segments pat bits m a :
  bind_inputs start reserved lease pat bits segments ->
  exists st m' a' t,
    bind io start reserved lease segments pat bits m a = Some (st, m', a') /\
    ad_trace a' = rev t ++ ad_trace a /\
    bind_outcome io start lease pat (default [] segments) m st m' t.
Proof.
  intros (Hst & Hres & Hle & Hpat & Hbits & Hsegs). unfold bind.
  destruct (bool_decide_reflect (state_ m = Empty)); simpl.
  2:{ eexists _, _, _, []. split_and!; [done..|]. constructor. set_solver. }
  destruct (bind_args_ok io start reserved lease segments) eqn:Hargs; simpl.
  2:{ eexists _, _, _, []. split_and!; [done..|]. constructor. set_solver. }
  apply bind_args_ok_spec in Hargs
    as (fret & frel & fwr & finv & segs & -> & _ & -> & -> & -> & Hne & _ & Hr & Hs).
  simpl in *.
  destruct (validateSegments_total segs reserved pat bits 0) as [[st|total] Hv];
    rewrite Hv; simpl.
  { eexists _, _, _, []. split_and!; [done..|]. constructor.
    apply validateSegments_status in Hv. set_solver. }
  apply validateSegments_spec in Hv as (Hval & -> & Hor); [|done|lia|done].
  destruct Hor as [?|Htot]; [done|].
  rewrite Z.add_0_l in *. unfold call_retain.
  destruct (fret lease (ad_state a)) as [[|] w]; simpl.
  2:{ eexists _, _, _, [_]. split_and!; [done..|constructor]. }
  destruct (writeSegments_spec fwr segs pat bits start
    {| ad_state := w; ad_trace := EvRetain lease true :: ad_trace a |})
    as (r & a1 & t & -> & Htr & Hrun); [done|done|unfold word in *; lia..|].
  simpl in *. destruct r as [st|x].
  { pose proof (write_run_fail _ _ _ _ _ Hrun) as ->.
    eexists _, _, _, (_ :: t). split_and!; [done| |by constructor].
    rewrite Htr. simpl. by rewrite <- app_assoc. }
  unfold call_invalidate. destruct (finv (ad_state a1)) as [[|] w']; simpl.
  - eexists _, _, _, (_ :: t ++ [_]). split_and!; [done| |by econstructor].
    rewrite Htr. simpl. by rewrite rev_app_distr, <- app_assoc.
  - eexists _, _, _, (_ :: t ++ [_]). split_and!; [done| |by econstructor].
    rewrite Htr. simpl. by rewrite rev_app_distr, <- app_assoc.
Qed.

(** ** Unmapping *)

(** The zeroing loop as a relation, like [write_run]. *)
Inductive clear_run : Z -> nat -> bool -> list io_event -> Prop :=
  | clear_done addr : clear_run addr 0 true []
  | clear_fail addr n : clear_run addr (S n) false [EvWrite addr 0 false]
  | clear_step addr n ok t :
      clear_run (addr + PageSize) n ok t ->
      clear_run addr (S n) ok (EvWrite addr 0 true :: t).

Lemma clearPages_spec (wr : Z -> Z -> W -> bool * W) start bytes n k fuel a :
  (n < fuel)%nat -> 0 <= start -> 0 <= k -> bytes = PageSize * (k + Z.of_nat n) ->
  start + bytes < 2 ^ 64 ->
  exists ok a' t,
    clearPages fuel wr start bytes (PageSize * k) a = (ok, a') /\
    ad_trace a' = rev t ++ ad_trace a /\ clear_run (start + PageSize * k) n ok t.
Proof.
  revert k fuel a. induction n as [|n IH]; intros k fuel a Hf Hs Hk Hb Hmax.
  - destruct fuel as [|fuel]; [lia|]. simpl. unfold PageSize in *.
    rewrite (proj2 (Z.ltb_ge (4096 * k) bytes)) by lia.
    eexists _, _, []. split_and!; [done..|constructor].
  - destruct fuel as [|fuel]; [lia|]. simpl.
    rewrite (proj2 (Z.ltb_lt (PageSize * k) bytes)) by (unfold PageSize in *; lia).
    unfold call_write. unfold PageSize in *. rewrite (add64_small start) by lia.
    destruct (wr _ 0 (ad_state a)) as [[|] w]; simpl.
    + rewrite add64_small by lia.
      replace (4096 * k + 4096) with (4096 * (k + 1)) by lia.
      edestruct (IH (k + 1) fuel) as (ok & a' & t & -> & Htr & Hrun); [lia..|].
      eexists ok, a', (_ :: t). split_and!; [done| |].
      * rewrite Htr. simpl. by rewrite <- app_assoc.
      * constructor. unfold PageSize.
        replace (start + 4096 * k + 4096) with (start + 4096 * (k + 1)) by lia. done.
    + eexists _, _, [_]. split_and!; [done..|constructor].
Qed.

Lemma clear_run_ok addr n t :
  clear_run addr n true t -> t = (fun p => EvWrite p 0 true) <$> pages addr n.
Proof.
  intros H. remember true as ok eqn:Hok. revert Hok.
  induction H; intros ?; subst; [done|done|].
  rewrite pages_S, fmap_cons. by rewrite IHclear_run by done.
Qed.

Lemma clear_run_events addr n ok t e :
  clear_run addr n ok t -> e ∈ t -> exists p o, e = EvWrite p 0 o.
Proof.
  induction 1; intros He.
  - by apply not_elem_of_nil in He.
  - apply list_elem_of_singleton in He as ->. eauto.
  - apply elem_of_cons in He as [->|He]; eauto.
Qed.

(** ** The ownership invariant *)

(** How many pins of a lease the calls so far have left in place. *)
Fixpoint pin_count (tr : list io_event) (l : Z) : Z :=
  match tr with
  | [] => 0
  | EvRetain l' true :: t => (if l' =? l then 1 else 0) + pin_count t l
  | EvRelease l' :: t => pin_count t l - (if l' =? l then 1 else 0)
  | _ :: t => pin_count t l
  end.

(** Whether the aperture may still hold a nonzero entry at an address: a write
    that reports failure may have taken effect, a successful zero write clears. *)
Fixpoint may_hold (tr : list io_event) (p : Z) : bool :=
  match tr with
  | [] => false
  | EvWrite p' pte ok :: t =>
      if p' =? p
      then if pte =? 0 then negb ok && may_hold t p else true
      else may_hold t p
  | _ :: t => may_hold t p
  end.

Record mapping_inv (m : GgttMapping W) (tr : list io_event) : Prop := {
  inv_io : state_ m <> Empty ->
    is_Some (writePte (io_ m)) /\ is_Some (barrierAndInvalidate (io_ m)) /\
    is_Some (release (io_ m));
  inv_range : state_ m <> Empty ->
    0 <= start_ m /\ (exists n, bytes_ m = PageSize * Z.of_nat n) /\
    start_ m + bytes_ m <= 2 ^ 32;
  inv_pins : forall l,
    pin_count tr l =
      if bool_decide (state_ m = Empty) then 0 else if lease_ m =? l then 1 else 0;
  inv_stale : forall p,
    may_hold tr p = true ->
    state_ m <> Empty /\ p ∈ pages (start_ m) (Z.to_nat (bytes_ m / PageSize));
}.

(** Calls that are PTE writes change no pin. *)
Lemma pin_count_writes t tr l :
  (forall e, e ∈ t -> exists a p ok, e = EvWrite a p ok) ->
  pin_count (t ++ tr) l = pin_count tr l.
Proof.
  induction t as [|e t IH]; intros Ht; [done|]. simpl.
  destruct (Ht e) as (a & p & ok & ->); [set_solver|]. apply IH. set_solver.
Qed.

Lemma may_hold_app t tr p :
  may_hold (t ++ tr) p = true -> may_hold t p = true \/ may_hold tr p = true.
Proof.
  induction t as [|e t IH]; simpl; [auto|]. destruct e; auto.
  destruct (_ =? p); auto. destruct (pte =? 0); auto. destruct ok; simpl; auto.
Qed.

Lemma may_hold_elem t p :
  may_hold t p = true -> exists pte ok, EvWrite p pte ok ∈ t /\ pte <> 0.
Proof.
  induction t as [|e t IH]; simpl; [done|].
  assert (may_hold t p = true -> exists pte ok, EvWrite p pte ok ∈ e :: t /\ pte <> 0)
    as Hrest by (intros H; destruct (IH H) as (?&?&?&?); eauto using list_elem_of_further).
  destruct e; auto. destruct (Z.eqb_spec ggttAddress p) as [->|]; auto.
  destruct (Z.eqb_spec pte 0).
  - intros [_ ?]%andb_true_iff. auto.
  - intros _. exists pte, ok. split; [left|done].
Qed.

(** Zero writes never make the aperture hold more, and a completed zeroing run
    leaves nothing in its range. *)
Lemma may_hold_zero t tr p :
  (forall e, e ∈ t -> exists a ok, e = EvWrite a 0 ok) ->
  may_hold (t ++ tr) p = true -> may_hold tr p = true.
Proof.
  intros Ht [H|H]%may_hold_app; [|done].
  apply may_hold_elem in H as (pte & ok & H & Hne).
  destruct (Ht _ H) as (? & ? & [= _ -> _]). done.
Qed.

Lemma may_hold_cleared t tr p :
  EvWrite p 0 true ∈ t -> (forall e, e ∈ t -> exists a, e = EvWrite a 0 true) ->
  may_hold (t ++ tr) p = false.
Proof.
  induction t as [|e t IH]; intros He Ht; [by apply not_elem_of_nil in He|].
  destruct (Ht e) as [a ->]; [set_solver|]. simpl.
  destruct (Z.eqb_spec a p) as [->|Hne]; [done|].
  apply IH; [|set_solver]. apply elem_of_cons in He as [[= ->]|]; done.
Qed.

Lemma mapping_inv_init : mapping_inv empty_mapping [].
Proof. by constructor. Qed.

Lemma dma_pages_length pat bits segs :
  Forall (seg_valid pat bits) segs ->
  seg_total segs = PageSize * Z.of_nat (Datatypes.length (dma_pages segs)).
Proof.
  induction 1 as [|s segs Hs _ IH]; [done|].
  change (seg_total (s :: segs)) with (length s + seg_total segs).
  change (dma_pages (s :: segs)) with (pages (address s) (seg_pages s) ++ dma_pages segs).
  rewrite length_app, pages_length, IH, Nat2Z.inj_add, Z.mul_add_distr_l.
  by rewrite <- (seg_pages_length _ _ _ Hs).
Qed.

Lemma write_run_only_writes pat addr ds r t e :
  write_run pat addr ds r t -> e ∈ rev t -> exists a p ok, e = EvWrite a p ok.
Proof.
  intros Hr He%list_elem_of_In%in_rev%list_elem_of_In.
  destruct (write_run_events _ _ _ _ _ _ Hr He) as (a & p & ok & -> & _). eauto.
Qed.

(** A mapping left by a bind that pinned its lease satisfies the invariant. *)
Lemma bind_inv_pinned (io : GgttIo W) start lease pat segs st x (o : list io_event) m tr r t :
  mapping_inv m tr -> state_ m = Empty -> st <> Empty ->
  is_Some (writePte io) -> is_Some (barrierAndInvalidate io) -> is_Some (release io) ->
  0 <= start -> seg_total segs = PageSize * Z.of_nat (Datatypes.length (dma_pages segs)) ->
  start + seg_total segs <= 2 ^ 32 ->
  write_run pat start (dma_pages segs) r t ->
  (o = [] \/ o = [EvInvalidate x]) ->
  mapping_inv {| io_ := io; state_ := st; start_ := start; bytes_ := seg_total segs;
                 lease_ := lease |} (o ++ rev t ++ EvRetain lease true :: tr).
Proof.
  intros [_ _ Hp Hs] Hm Hst Hio1 Hio2 Hio3 H0 Htot Hmax Hrun Ho.
  rewrite Hm in Hp, Hs. constructor; simpl.
  - done.
  - intros _. split_and!; [done| |done]. eauto.
  - intros l. rewrite bool_decide_false by done.
    assert (pin_count (rev t ++ EvRetain lease true :: tr) l = if lease =? l then 1 else 0)
      as Hc.
    { rewrite pin_count_writes by (intros e; by apply (write_run_only_writes _ _ _ _ _ _ Hrun)).
      simpl. rewrite Hp. rewrite bool_decide_true by done. lia. }
    by destruct Ho as [-> | ->].
  - intros p Hh. split; [done|].
    assert (may_hold (rev t ++ EvRetain lease true :: tr) p = true) as Hh'
      by (by destruct Ho as [-> | ->]).
    apply may_hold_app in Hh' as [Hh'|Hh'].
    + apply may_hold_elem in Hh' as (pte & ok & He & _).
      apply list_elem_of_In, in_rev, list_elem_of_In in He.
      destruct (write_run_events _ _ _ _ _ _ Hrun He) as (? & ? & ? & [= <- _ _] & ?).
      rewrite Htot. unfold PageSize. by rewrite Z.mul_comm, Z.div_mul, Nat2Z.id by lia.
    + simpl in Hh'. by destruct (Hs p Hh').
Qed.

Lemma bind_args_range (io : GgttIo W) start reserved lease segs pat bits total :
  bind_inputs start reserved lease pat bits (Some segs) ->
  bind_args_ok io start reserved lease (Some segs) = true ->
  validateSegments segs reserved pat bits 0 = Some (inr total) ->
  Forall (seg_valid pat bits) segs /\ start + seg_total segs <= 2 ^ 32.
Proof.
  intros (Hst & Hres & _ & _ & _ & Hw) Ha Hv.
  apply bind_args_ok_spec in Ha
    as (? & ? & ? & ? & ? & _ & _ & _ & _ & [= <-] & Hne & _ & Hr & Hs).
  apply validateSegments_spec in Hv as (HF & -> & Hor); [|done|lia|done].
  split; [done|]. destruct Hor as [?|?]; [done|lia].
Qed.

Lemma bind_preserves_inv (io : GgttIo W) start reserved lease segments pat bits m a st m' a' :
  bind_inputs start reserved lease pat bits segments ->
  mapping_inv m (ad_trace a) ->
  bind io start reserved lease segments pat bits m a = Some (st, m', a') ->
  mapping_inv m' (ad_trace a').
Proof.
  intros Hin Hinv Hb.
  destruct (bind_total io start reserved lease segments pat bits m a Hin)
    as (st0 & m0 & a0 & t & Hb' & Htr & Hout).
  rewrite Hb in Hb'. injection Hb' as -> -> ->. rewrite Htr.
  assert (forall t', t = EvRetain lease true :: t' ->
    state_ m = Empty /\ is_Some (writePte io) /\ is_Some (barrierAndInvalidate io) /\
    is_Some (release io) /\ 0 <= start /\
    exists segs, segments = Some segs /\ Forall (seg_valid pat bits) segs /\
      start + seg_total segs <= 2 ^ 32) as Hpin.
  { intros t' ->. unfold bind in Hb.
    destruct (bool_decide_reflect (state_ m = Empty)); simpl in Hb.
    2:{ injection Hb as <- <- <-. inversion Hout; subst; set_solver. }
    destruct (bind_args_ok io start reserved lease segments) eqn:Hargs; simpl in Hb.
    2:{ injection Hb as <- <- <-. inversion Hout; subst; set_solver. }
    pose proof Hargs as Hargs'.
    apply bind_args_ok_spec in Hargs'
      as (fret & frel & fwr & finv & segs & E1 & E2 & E3 & E4 & -> & _ & _ & _ & _).
    rewrite E1, E3, E4 in Hb. rewrite E2, E3, E4.
    destruct (validateSegments_total segs reserved pat bits 0) as [[sv|total] Hv];
      rewrite Hv in Hb; simpl in Hb.
    { injection Hb as <- <- <-. apply validateSegments_status in Hv.
      inversion Hout; subst; set_solver. }
    destruct (bind_args_range _ _ _ _ _ _ _ _ Hin Hargs Hv).
    destruct Hin as [[? ?] _]. split_and!; eauto. }
  inversion Hout; subst; simpl.
  - done.
  - destruct Hinv as [? ? Hp Hs]. by constructor.
  - destruct (Hpin t0 eq_refl) as (Hm & ? & ? & ? & ? & segs & -> & HF & ?).
    rewrite <- app_assoc. apply (bind_inv_pinned _ _ _ pat _ _ true [] m _ (inl IoFailure) t0);
      eauto using dma_pages_length.
  - destruct (Hpin _ eq_refl) as (Hm & ? & ? & ? & ? & segs & -> & HF & ?).
    rewrite rev_app_distr. simpl. rewrite <- app_assoc.
    apply (bind_inv_pinned _ _ _ pat _ _ false [EvInvalidate false] m _ (inr x) t0);
      eauto using dma_pages_length.
  - destruct (Hpin _ eq_refl) as (Hm & ? & ? & ? & ? & segs & -> & HF & ?).
    rewrite rev_app_distr. simpl. rewrite <- app_assoc.
    apply (bind_inv_pinned _ _ _ pat _ _ true [EvInvalidate true] m _ (inr x) t0);
      eauto using dma_pages_length.
Qed.

#[local] Arguments clearPages : simpl never.

(** The outcome of an unmap.  The lease is released only by the last case, after
    every page of the range was zeroed and the invalidation completed. *)
Inductive unmap_outcome (m : GgttMapping W) :
    Status -> GgttMapping W -> list io_event -> Prop :=
  | unmap_not_bound : state_ m = Empty -> unmap_outcome m NotBound m []
  | unmap_write_failed n t :
      state_ m <> Empty -> bytes_ m = PageSize * Z.of_nat n ->
      clear_run (start_ m) n false t ->
      unmap_outcome m IoFailure (set_state Faulted m) t
  | unmap_invalidate_failed n :
      state_ m <> Empty -> bytes_ m = PageSize * Z.of_nat n ->
      unmap_outcome m IoFailure (set_state Faulted m)
        (((fun p => EvWrite p 0 true) <$> pages (start_ m) n) ++ [EvInvalidate false])
  | unmap_done n :
      state_ m <> Empty -> bytes_ m = PageSize * Z.of_nat n ->
      unmap_outcome m Ok empty_mapping
        (((fun p => EvWrite p 0 true) <$> pages (start_ m) n) ++
         [EvInvalidate true; EvRelease (lease_ m)]).

Lemma unmap_total (m : GgttMapping W) a :
  mapping_inv m (ad_trace a) ->
  exists st m' a' t,
    unmap m a = Some (st, m', a') /\ ad_trace a' = rev t ++ ad_trace a /\
    unmap_outcome m st m' t.
Proof.
  intros [Hio Hrg _ _]. unfold unmap.
  destruct (bool_decide_reflect (state_ m = Empty)) as [He|He]; simpl.
  { eexists _, _, _, []. split_and!; [done..|by constructor]. }
  destruct (Hio He) as ([fwr E1] & [finv E2] & [frel E3]).
  destruct (Hrg He) as (H0 & [n Hn] & Hmax). rewrite E1, E2, E3.
  edestruct (clearPages_spec fwr (start_ m) (bytes_ m) n 0
    (S (Z.to_nat (bytes_ m / PageSize))) a) as (ok & a1 & t & Hc & Htr & Hrun);
    [rewrite Hn; unfold PageSize; rewrite Z.mul_comm, Z.div_mul by lia; lia
    |lia|lia|unfold PageSize in *; lia|lia|].
  rewrite Z.mul_0_r in Hc. cbn [set_state start_ bytes_] in *. rewrite Hc.
  replace (start_ m + PageSize * 0) with (start_ m) in Hrun by (unfold PageSize; lia).
  destruct ok; cbn [negb].
  2:{ eexists _, _, _, t. split_and!; [done..|]. by eapply unmap_write_failed. }
  pose proof (clear_run_ok _ _ _ Hrun) as ->.
  unfold call_invalidate, call_release. destruct (finv (ad_state a1)) as [[|] w]; simpl.
  - eexists _, _, _, (_ ++ [_; _]). split_and!; [done| |by econstructor].
    rewrite Htr, rev_app_distr. done.
  - eexists _, _, _, (_ ++ [_]). split_and!; [done| |by econstructor].
    rewrite Htr, rev_app_distr. done.
Qed.

Lemma zero_writes_rev (l : list Z) e :
  e ∈ rev ((fun p => EvWrite p 0 true) <$> l) -> exists p, e = EvWrite p 0 true /\ p ∈ l.
Proof.
  intros He%list_elem_of_In%in_rev%list_elem_of_In.
  apply list_elem_of_fmap in He as (p & -> & Hp). eauto.
Qed.

Lemma unmap_preserves_inv (m : GgttMapping W) a st m' a' :
  mapping_inv m (ad_trace a) -> unmap m a = Some (st, m', a') ->
  mapping_inv m' (ad_trace a').
Proof.
  intros Hinv Hu. destruct (unmap_total m a Hinv) as (st0 & m0 & a0 & t & Hu' & Htr & Hout).
  rewrite Hu in Hu'. injection Hu' as -> -> ->. rewrite Htr.
  destruct Hinv as [Hio Hrg Hp Hs].
  assert (forall t, (forall e, e ∈ t -> exists q ok, e = EvWrite q 0 ok) ->
    state_ m <> Empty -> mapping_inv (set_state Faulted m) (t ++ ad_trace a)) as Hfault.
  { intros t' Ht He. constructor; simpl; [by auto..| |].
    - intros l. rewrite pin_count_writes by (intros e [q [ok ->]]%Ht; eauto).
      rewrite Hp. by rewrite !bool_decide_false.
    - intros p Hh%may_hold_zero; [|done]. split; [done|]. by apply Hs. }
  inversion Hout as [He|n t' He Hb Hrun|n He Hb|n He Hb]; subst.
  - by constructor.
  - apply Hfault; [|done]. intros e Hin%list_elem_of_In%in_rev%list_elem_of_In.
    by apply (clear_run_events _ _ _ _ _ Hrun).
  - rewrite rev_app_distr. simpl.
    destruct (Hfault (rev ((fun p => EvWrite p 0 true) <$> pages (start_ m) n)))
      as [? ? Hp' Hs']; [|done|by constructor].
    intros e (p & -> & _)%zero_writes_rev. eauto.
  - rewrite rev_app_distr. simpl.
    set (t := rev ((fun p => EvWrite p 0 true) <$> pages (start_ m) n)).
    assert (forall e, e ∈ t -> exists q, e = EvWrite q 0 true) as Ht
      by (intros e (p & -> & _)%zero_writes_rev; eauto).
    constructor; simpl; [done|done| |].
    + intros l. rewrite pin_count_writes by (intros e [q ->]%Ht; eauto).
      rewrite Hp, bool_decide_false by done. lia.
    + intros p Hh. exfalso.
      assert (may_hold (ad_trace a) p = true) as Hold
        by (apply (may_hold_zero t); [intros e [q ->]%Ht; eauto|done]).
      destruct (Hs p Hold) as [_ Hin]. rewrite Hb in Hin. unfold PageSize in Hin.
      rewrite Z.mul_comm, Z.div_mul, Nat2Z.id in Hin by lia.
      rewrite (may_hold_cleared t) in Hh; [done| |done].
      unfold t. rewrite list_elem_of_In, <- in_rev, <- list_elem_of_In.
      apply list_elem_of_fmap. eauto.
Qed.

(** States reached from an empty mapping by binds and unmaps, whatever the
    adapter's callbacks answer. *)
Inductive reachable : GgttMapping W -> adapter W -> Prop :=
  | reach_init w : reachable empty_mapping {| ad_state := w; ad_trace := [] |}
  | reach_bind io start reserved lease segments pat bits m a st m' a' :
      reachable m a -> bind_inputs start reserved lease pat bits segments ->
      bind io start reserved lease segments pat bits m a = Some (st, m', a') ->
      reachable m' a'
  | reach_unmap m a st m' a' :
      reachable m a -> unmap m a = Some (st, m', a') -> reachable m' a'.

Lemma reachable_inv m a : reachable m a -> mapping_inv m (ad_trace a).
Proof.
  induction 1; [apply mapping_inv_init|by eapply bind_preserves_inv
    |by eapply unmap_preserves_inv].
Qed.

(** [C13] Ownership of the GGTT mapping over every sequence of binds and unmaps
    and every behaviour of the adapter: neither operation ever traps; exactly
    the current lease is pinned, once, while the mapping is not empty, and
    nothing is pinned when it is; and an entry that may still be visible in the
    aperture (failed writes count as visible) lies on a page of the current
    mapping, so a pin is never dropped while the GPU may reach its pages. *)
Theorem mapping_ownership m a :
  reachable m a ->
  unmap m a <> None /\
  (forall io start reserved lease segments pat bits,
     bind_inputs start reserved lease pat bits segments ->
     bind io start reserved lease segments pat bits m a <> None) /\
  (forall l, pin_count (ad_trace a) l =
     if bool_decide (state_ m = Empty) then 0 else if lease_ m =? l then 1 else 0) /\
  (forall p, may_hold (ad_trace a) p = true ->
     state_ m <> Empty /\ p ∈ pages (start_ m) (Z.to_nat (bytes_ m / PageSize))).
Proof.
  intros Hr%reachable_inv. split_and!.
  - destruct (unmap_total m a Hr) as (? & ? & ? & ? & -> & _). done.
  - intros io start reserved lease segments pat bits Hin.
    destruct (bind_total io _ _ _ _ _ _ m a Hin) as (? & ? & ? & ? & -> & _). done.
  - apply Hr.
  - apply Hr.
Qed.

(** [C14] Every outcome of a bind: a rejected request makes no call and changes
    nothing; a refused pin changes nothing; otherwise the lease was pinned
    first, the entries of the scatter/gather pages were written in GGTT order,
    each encoding its page with the PAT index, up to the first failure; [Ok]
    means that all were written and the invalidation that followed completed,
    and any failure leaves the mapping faulted with its lease. *)
Theorem bind_outcomes (io : GgttIo W) start reserved lease segments pat bits m a :
  bind_inputs start reserved lease pat bits segments ->
  exists st m' a' t,
    bind io start reserved lease segments pat bits m a = Some (st, m', a') /\
    ad_trace a' = rev t ++ ad_trace a /\
    bind_outcome io start lease pat (default [] segments) m st m' t.
Proof. apply bind_total. Qed.

(** Unmapping in any reachable state: it releases the lease only as the
    very last call, after zero was successfully written to every page of the
    mapping and the invalidation completed; any failure keeps the lease and
    leaves the mapping faulted so that unmap can be retried. *)
Theorem unmap_releases_last m a :
  reachable m a ->
  exists st m' a' t,
    unmap m a = Some (st, m', a') /\ ad_trace a' = rev t ++ ad_trace a /\
    unmap_outcome m st m' t.
Proof. intros Hr%reachable_inv. by apply unmap_total. Qed.

End MappingProofs.

(** *** Witnesses: an adapter that always succeeds *)

Definition ok_io : GgttIo unit :=
  {| retain := Some (fun _ w => (true, w)); release := Some (fun _ w => w);
     writePte := Some (fun _ _ w => (true, w));
     barrierAndInvalidate := Some (fun w => (true, w)) |}.

Definition two_segments : list DmaSegment :=
  [{| address := 2 ^ 33; length := 8192 |}; {| address := 2 ^ 20; length := 4096 |}].

Lemma two_segments_inputs : bind_inputs 65536 16384 7 2 46 (Some two_segments).
Proof.
  unfold bind_inputs, two_segments, word. simpl.
  split_and!; try lia; repeat constructor; simpl; lia.
Qed.

Definition bound_state : option (Status * GgttMapping unit * adapter unit) :=
  bind ok_io 65536 16384 7 (Some two_segments) 2 46 empty_mapping
    {| ad_state := tt; ad_trace := [] |}.

Lemma bind_outcomes_witness :
  exists st m' a' t,
    bound_state = Some (st, m', a') /\ ad_trace a' = rev t ++ [] /\
    bind_outcome ok_io 65536 7 2 two_segments empty_mapping st m' t.
Proof. apply bind_outcomes, two_segments_inputs. Defined.

Lemma bound_state_reachable m a :
  bound_state = Some (Ok, m, a) -> reachable m a.
Proof.
  intros H. eapply reach_bind; [apply reach_init|apply two_segments_inputs|exact H].
Qed.

Lemma unmap_releases_last_witness :
  exists m a, bound_state = Some (Ok, m, a) /\
  exists st m' a' t,
    unmap m a = Some (st, m', a') /\ ad_trace a' = rev t ++ ad_trace a /\
    unmap_outcome m st m' t.
Proof.
  eexists _, _. split; [vm_compute; reflexivity|].
  apply unmap_releases_last. apply bound_state_reachable. vm_compute. reflexivity.
Defined.

Lemma mapping_ownership_witness :
  exists m a, bound_state = Some (Ok, m, a) /\
  (forall l, pin_count (ad_trace a) l =
     if bool_decide (state_ m = Empty) then 0 else if lease_ m =? l then 1 else 0) /\
  may_hold (ad_trace a) 65536 = true.
Proof.
  destruct bound_state as [[[[] m] a]|] eqn:E; try (vm_compute in E; discriminate E).
  exists m, a. split; [done|]. split.
  - apply (mapping_ownership m a (bound_state_reachable m a E)).
  - vm_compute in E. injection E as <- <-. vm_compute. reflexivity.
Defined.

End PortedXe.
