(* ===== verification/Ggtt.v ===== *)
(** The global graphics translation table, [xe_ggtt.c]: initialisation, PTE
    writes with the write-flush workaround, node allocation and removal, mapping
    of buffer objects, SR-IOV save and load. *)
From stdpp Require Import base numbers list gmap functions.
From Stdlib Require Import Btauto.
From S2P Require Import Prelude.
From S2P Require Import GttDefs.
From S2P Require Import Pte.

(** * Interfaces to code outside these sources *)

(** [drm_mm], the range allocator of DRM: nodes are known by an identity and
    have a start and a size; holes are the free ranges. *)
Class DrmMm := {
  drm_mm : Type;
  mm_size : drm_mm -> Z;
  mm_nodes : drm_mm -> gmap Z (Z * Z);
  drm_mm_init : Z -> drm_mm;
  drm_mm_insert_node_generic :
    drm_mm -> Z -> Z -> Z -> Z -> res drm_mm;
  drm_mm_insert_node_in_range :
    drm_mm -> Z -> Z -> Z -> Z -> Z -> res drm_mm;
  drm_mm_remove_node : drm_mm -> Z -> drm_mm;
  drm_mm_holes : drm_mm -> list (Z * Z);
}.

(** Two address ranges [start, start + size) with no common address. *)
Definition disjoint_ranges (a b : Z * Z) : Prop :=
  a.1 + a.2 <= b.1 \/ b.1 + b.2 <= a.1.

(** What a successful insertion gives: a range of the requested size, inside
    the managed range and the requested window, aligned, and disjoint from
    every other node. *)
Definition mm_inserted `{DrmMm} (mm mm' : drm_mm) (id size align lo hi : Z) : Prop :=
  exists s,
    mm_nodes mm' = <[id := (s, size)]> (mm_nodes mm) /\ mm_size mm' = mm_size mm /\
    0 <= s /\ s + size <= mm_size mm /\ lo <= s /\ s + size <= hi /\
    (0 < align -> s mod align = 0) /\
    (forall id' r, mm_nodes mm !! id' = Some r -> disjoint_ranges (s, size) r).

Class DrmMmLaws `{DrmMm} := {
  mm_init_nodes size : mm_nodes (drm_mm_init size) = ∅;
  mm_init_size size : mm_size (drm_mm_init size) = size;
  mm_insert_generic mm id size align mode mm' :
    mm_nodes mm !! id = None -> 0 < size ->
    drm_mm_insert_node_generic mm id size align mode = Ok mm' ->
    mm_inserted mm mm' id size align 0 (mm_size mm);
  mm_insert_in_range mm id size align lo hi mm' :
    mm_nodes mm !! id = None -> 0 < size ->
    drm_mm_insert_node_in_range mm id size align lo hi = Ok mm' ->
    mm_inserted mm mm' id size align lo hi;
  mm_remove_nodes mm id : mm_nodes (drm_mm_remove_node mm id) = delete id (mm_nodes mm);
  mm_remove_size mm id : mm_size (drm_mm_remove_node mm id) = mm_size mm;
  mm_holes_free mm hs he :
    (hs, he) ∈ drm_mm_holes mm ->
    0 <= hs /\ hs < he /\ he <= mm_size mm /\
    (hs = 0 \/ exists id r, mm_nodes mm !! id = Some r /\ hs = r.1 + r.2) /\
    (he = mm_size mm \/ exists id r, mm_nodes mm !! id = Some r /\ he = r.1) /\
    (forall id r, mm_nodes mm !! id = Some r -> 0 < r.2 -> disjoint_ranges (hs, he - hs) r);
  mm_holes_cover mm a :
    (forall id r, mm_nodes mm !! id = Some r -> 0 < r.2) -> 0 <= a < mm_size mm ->
    (exists id s size, mm_nodes mm !! id = Some (s, size) /\ s <= a < s + size) \/
    (exists hs he, (hs, he) ∈ drm_mm_holes mm /\ hs <= a < he);
}.

(** [xe_res_cursor.h]: a cursor over the pages of a buffer object's backing
    store, either its scatter/gather table or its memory resource. *)
Class ResCursor := {
  cursor : Type;
  xe_res_first_sg : xe_bo -> Z -> Z -> cursor;
  xe_res_first : xe_bo -> Z -> Z -> cursor;
  xe_res_next : cursor -> Z -> cursor;
  cur_remaining : cursor -> Z;
  cur_start : cursor -> Z;
  xe_res_dma : cursor -> Z;
  vram_region_gpu_offset : xe_bo -> Z;
}.

Class ResCursorLaws `{ResCursor} := {
  res_first_sg_remaining bo off size : cur_remaining (xe_res_first_sg bo off size) = size;
  res_first_remaining bo off size : cur_remaining (xe_res_first bo off size) = size;
  res_next_remaining c n :
    0 <= n <= cur_remaining c -> cur_remaining (xe_res_next c n) = cur_remaining c - n;
}.

(** Addresses and cache policy of the rest of the driver, and constants of
    headers that are not part of these sources. *)
Class XeEnv := {
  xe_bo_addr : xe_bo -> Z -> Z -> Z;
  xe_cache_pat_idx : xe_cache_level -> Z;
  BDW_GMCH_GGMS_SHIFT : Z;
  BDW_GMCH_GGMS_MASK : Z;
  XE_BO_FLAG_NEEDS_UC : Z;
  XE_BO_FLAG_GGTT_INVALIDATE : Z;
  XE_BO_FLAG_SYSTEM : Z;
  XE_BO_FLAG_VRAM_IF_DGFX : Z;
  DRM_MM_INSERT_HIGH : Z;
}.

(** * State *)

Definition XE_GGTT_FLAGS_64K : Z := BIT 0.
Definition XE_GGTT_FLAGS_ONLINE : Z := BIT 1.

(** The GTs of a tile; [wa] says whether workaround 22019338487 applies. *)
Inductive gt_name := primary_gt | media_gt.

#[export] Instance gt_name_eq_dec : EqDecision gt_name.
Proof. solve_decision. Defined.

Record xe_gt := { wa_22019338487 : bool }.

(** What the GGTT reads of its tile and device. *)
Record xe_tile := {
  tile_primary_gt : option xe_gt;
  tile_media_gt : option xe_gt;
  tile_is_dgfx : bool;
  tile_is_vf : bool;
  tile_graphics_verx100 : Z;
  tile_wopcm_size : Z;
  tile_vram_need64k : bool;
  tile_vf_ggtt_base : Z;
  tile_vf_ggtt_size : Z;
  tile_gmch_ctl : Z;
}.

(** The three constant operation tables of [struct xe_ggtt_pt_ops]. *)
Inductive xe_ggtt_pt_ops := xelp_pt_ops | xelpg_pt_ops | xelpg_pt_wa_ops.

(** Calls into the hardware and the rest of the kernel that leave no trace in
    the GGTT's own state. *)
Inductive ggtt_event :=
  | EvGsmWrite (index pte : Z)        (* writeq to the GSM *)
  | EvGmdIdWrite (gt : gt_name)       (* xe_mmio_write32(GMD_ID, 0) *)
  | EvVfCapRead                       (* xe_mmio_read32(VF_CAP_REG) *)
  | EvTlbInval (gt : gt_name)         (* xe_tlb_inval_ggtt *)
  | EvPmGet                           (* xe_pm_runtime_get_noresume / get_if_active *)
  | EvPmPut                           (* xe_pm_runtime_put *)
  | EvQueueWork (node : Z).           (* queue_work of a delayed removal *)

(** [struct xe_ggtt_node]; its [drm_mm_node] lives in the allocator, under the
    node's identity. *)
Record xe_ggtt_node := { invalidate_on_remove : bool }.

Section Ggtt.
Context `{DrmMm, ResCursor, XeEnv}.

(** [struct xe_ggtt], the nodes allocated for it, and the node slot that each
    buffer object has for this tile. *)
Record xe_ggtt := {
  g_start : Z;
  g_size : Z;
  g_flags : Z;
  g_scratch : option xe_bo;
  g_gsm : Z -> Z; (* PTE by index *)
  g_pt_ops : xe_ggtt_pt_ops;
  g_mm : drm_mm;
  g_access_count : Z;
  g_nodes : gmap Z xe_ggtt_node; (* allocated nodes *)
  g_next : Z; (* next node address *)
  g_bo_node : gmap Z Z; (* bo->ggtt_node[tile_id] *)
  g_wq : option (list Z); (* the work queue and its queued removals *)
  g_trace : list ggtt_event; (* newest first *)
}.

Definition set_g_start v (s : xe_ggtt) : xe_ggtt :=
  {| g_start := v; g_size := g_size s; g_flags := g_flags s; g_scratch := g_scratch s; g_gsm := g_gsm s; g_pt_ops := g_pt_ops s; g_mm := g_mm s; g_access_count := g_access_count s; g_nodes := g_nodes s; g_next := g_next s; g_bo_node := g_bo_node s; g_wq := g_wq s; g_trace := g_trace s |}.
Definition set_g_size v (s : xe_ggtt) : xe_ggtt :=
  {| g_start := g_start s; g_size := v; g_flags := g_flags s; g_scratch := g_scratch s; g_gsm := g_gsm s; g_pt_ops := g_pt_ops s; g_mm := g_mm s; g_access_count := g_access_count s; g_nodes := g_nodes s; g_next := g_next s; g_bo_node := g_bo_node s; g_wq := g_wq s; g_trace := g_trace s |}.
Definition set_g_flags v (s : xe_ggtt) : xe_ggtt :=
  {| g_start := g_start s; g_size := g_size s; g_flags := v; g_scratch := g_scratch s; g_gsm := g_gsm s; g_pt_ops := g_pt_ops s; g_mm := g_mm s; g_access_count := g_access_count s; g_nodes := g_nodes s; g_next := g_next s; g_bo_node := g_bo_node s; g_wq := g_wq s; g_trace := g_trace s |}.
Definition set_g_scratch v (s : xe_ggtt) : xe_ggtt :=
  {| g_start := g_start s; g_size := g_size s; g_flags := g_flags s; g_scratch := v; g_gsm := g_gsm s; g_pt_ops := g_pt_ops s; g_mm := g_mm s; g_access_count := g_access_count s; g_nodes := g_nodes s; g_next := g_next s; g_bo_node := g_bo_node s; g_wq := g_wq s; g_trace := g_trace s |}.
Definition set_g_gsm v (s : xe_ggtt) : xe_ggtt :=
  {| g_start := g_start s; g_size := g_size s; g_flags := g_flags s; g_scratch := g_scratch s; g_gsm := v; g_pt_ops := g_pt_ops s; g_mm := g_mm s; g_access_count := g_access_count s; g_nodes := g_nodes s; g_next := g_next s; g_bo_node := g_bo_node s; g_wq := g_wq s; g_trace := g_trace s |}.
Definition set_g_pt_ops v (s : xe_ggtt) : xe_ggtt :=
  {| g_start := g_start s; g_size := g_size s; g_flags := g_flags s; g_scratch := g_scratch s; g_gsm := g_gsm s; g_pt_ops := v; g_mm := g_mm s; g_access_count := g_access_count s; g_nodes := g_nodes s; g_next := g_next s; g_bo_node := g_bo_node s; g_wq := g_wq s; g_trace := g_trace s |}.
Definition set_g_mm v (s : xe_ggtt) : xe_ggtt :=
  {| g_start := g_start s; g_size := g_size s; g_flags := g_flags s; g_scratch := g_scratch s; g_gsm := g_gsm s; g_pt_ops := g_pt_ops s; g_mm := v; g_access_count := g_access_count s; g_nodes := g_nodes s; g_next := g_next s; g_bo_node := g_bo_node s; g_wq := g_wq s; g_trace := g_trace s |}.
Definition set_g_access_count v (s : xe_ggtt) : xe_ggtt :=
  {| g_start := g_start s; g_size := g_size s; g_flags := g_flags s; g_scratch := g_scratch s; g_gsm := g_gsm s; g_pt_ops := g_pt_ops s; g_mm := g_mm s; g_access_count := v; g_nodes := g_nodes s; g_next := g_next s; g_bo_node := g_bo_node s; g_wq := g_wq s; g_trace := g_trace s |}.
Definition set_g_nodes v (s : xe_ggtt) : xe_ggtt :=
  {| g_start := g_start s; g_size := g_size s; g_flags := g_flags s; g_scratch := g_scratch s; g_gsm := g_gsm s; g_pt_ops := g_pt_ops s; g_mm := g_mm s; g_access_count := g_access_count s; g_nodes := v; g_next := g_next s; g_bo_node := g_bo_node s; g_wq := g_wq s; g_trace := g_trace s |}.
Definition set_g_next v (s : xe_ggtt) : xe_ggtt :=
  {| g_start := g_start s; g_size := g_size s; g_flags := g_flags s; g_scratch := g_scratch s; g_gsm := g_gsm s; g_pt_ops := g_pt_ops s; g_mm := g_mm s; g_access_count := g_access_count s; g_nodes := g_nodes s; g_next := v; g_bo_node := g_bo_node s; g_wq := g_wq s; g_trace := g_trace s |}.
Definition set_g_bo_node v (s : xe_ggtt) : xe_ggtt :=
  {| g_start := g_start s; g_size := g_size s; g_flags := g_flags s; g_scratch := g_scratch s; g_gsm := g_gsm s; g_pt_ops := g_pt_ops s; g_mm := g_mm s; g_access_count := g_access_count s; g_nodes := g_nodes s; g_next := g_next s; g_bo_node := v; g_wq := g_wq s; g_trace := g_trace s |}.
Definition set_g_wq v (s : xe_ggtt) : xe_ggtt :=
  {| g_start := g_start s; g_size := g_size s; g_flags := g_flags s; g_scratch := g_scratch s; g_gsm := g_gsm s; g_pt_ops := g_pt_ops s; g_mm := g_mm s; g_access_count := g_access_count s; g_nodes := g_nodes s; g_next := g_next s; g_bo_node := g_bo_node s; g_wq := v; g_trace := g_trace s |}.
Definition set_g_trace v (s : xe_ggtt) : xe_ggtt :=
  {| g_start := g_start s; g_size := g_size s; g_flags := g_flags s; g_scratch := g_scratch s; g_gsm := g_gsm s; g_pt_ops := g_pt_ops s; g_mm := g_mm s; g_access_count := g_access_count s; g_nodes := g_nodes s; g_next := g_next s; g_bo_node := g_bo_node s; g_wq := g_wq s; g_trace := v |}.

Definition ggtt_m := ST xe_ggtt.

Definition emit (e : ggtt_event) : ST xe_ggtt unit :=
  modify (fun s => set_g_trace (e :: g_trace s) s).

(** * PTE access *)

Definition probe_gsm_size (gmch_ctl : Z) : Z :=
  let ggms := Z.land (Z.shiftr gmch_ctl BDW_GMCH_GGMS_SHIFT) BDW_GMCH_GGMS_MASK in
  if negb (ggms =? 0) then wrap 32 (Z.shiftl SZ_1M ggms) else 0.

(** The GT whose writes are counted and the number of writes between flushes. *)
Definition affected_gt (tile : xe_tile) : gt_name * Z :=
  match tile_primary_gt tile with
  | Some gt => if wa_22019338487 gt then (primary_gt, 1100) else (media_gt, 63)
  | None => (media_gt, 63)
  end.

Definition ggtt_update_access_counter (tile : xe_tile) : ST xe_ggtt unit :=
  let '(gt, max_gtt_writes) := affected_gt tile in
  modify (fun s => set_g_access_count (wrap 32 (g_access_count s + 1)) s) ;;;
  n <-- gets g_access_count ;;
  when (n mod max_gtt_writes =? 0) (
    emit (EvGmdIdWrite gt) ;;;
    modify (set_g_access_count 0)).

Definition xe_ggtt_start (s : xe_ggtt) : Z := g_start s.
Definition xe_ggtt_size (s : xe_ggtt) : Z := g_size s.

Definition xe_ggtt_set_pte (addr pte : Z) : ST xe_ggtt unit :=
  let i := Z.shiftr addr XE_PTE_SHIFT in
  modify (fun s => set_g_gsm (<[i := pte]> (g_gsm s)) s) ;;;
  emit (EvGsmWrite i pte).

Definition xe_ggtt_set_pte_and_flush (tile : xe_tile) (addr pte : Z) : ST xe_ggtt unit :=
  xe_ggtt_set_pte addr pte ;;;
  ggtt_update_access_counter tile.

Definition xe_ggtt_get_pte (addr : Z) (s : xe_ggtt) : Z :=
  g_gsm s (Z.shiftr addr XE_PTE_SHIFT).

(** Dispatch through [ggtt->pt_ops]. *)
Definition pt_ops_pte_encode_flags (ops : xe_ggtt_pt_ops) : xe_bo -> Z -> Z :=
  match ops with
  | xelp_pt_ops => xelp_ggtt_pte_flags
  | xelpg_pt_ops | xelpg_pt_wa_ops => xelpg_ggtt_pte_flags
  end.

Definition ggtt_set_pte (tile : xe_tile) (addr pte : Z) : ST xe_ggtt unit :=
  ops <-- gets g_pt_ops ;;
  match ops with
  | xelp_pt_ops | xelpg_pt_ops => xe_ggtt_set_pte addr pte
  | xelpg_pt_wa_ops => xe_ggtt_set_pte_and_flush tile addr pte
  end.

(** The entry that unmapped GGTT pages hold. *)
Definition scratch_pte (s : xe_ggtt) : Z :=
  match g_scratch s with
  | Some bo =>
      xe_bo_addr bo 0 XE_PAGE_SIZE |||
      pt_ops_pte_encode_flags (g_pt_ops s) bo (xe_cache_pat_idx XE_CACHE_WB)
  | None => 0
  end.

(** Iterations for a range of [size] bytes, and one to leave the loop. *)
Definition range_fuel (size : Z) : nat := S (Z.to_nat (size / XE_PAGE_SIZE)).

Definition xe_ggtt_clear (tile : xe_tile) (start size : Z) : ST xe_ggtt unit :=
  let end_ := start +64 size -64 1 in
  pte <-- gets scratch_pte ;;
  _ <-- while_pages (range_fuel size) start end_ (fun a => ggtt_set_pte tile a pte) ;;
  ret tt.

(** * Invalidation *)

(** A failing [xe_tlb_inval_ggtt] is only reported. *)
Definition ggtt_invalidate_gt_tlb (gt : option xe_gt) (name : gt_name) : ST xe_ggtt unit :=
  match gt with
  | None => ret tt
  | Some _ => emit (EvTlbInval name)
  end.

Definition xe_ggtt_invalidate (tile : xe_tile) : ST xe_ggtt unit :=
  emit EvVfCapRead ;;;
  ggtt_invalidate_gt_tlb (tile_primary_gt tile) primary_gt ;;;
  ggtt_invalidate_gt_tlb (tile_media_gt tile) media_gt.

(** * Initialisation *)

(** [drmm_kzalloc] and [drmm_mutex_init] succeed or not; the structure is
    zeroed.  A zeroed [drm_mm] is never used before [drm_mm_init]. *)
Definition xe_ggtt_alloc (kzalloc_ok mutex_ok : bool) (gsm0 : Z -> Z) : option xe_ggtt :=
  if negb kzalloc_ok then None
  else if negb mutex_ok then None
  else Some {| g_start := 0; g_size := 0; g_flags := 0; g_scratch := None; g_gsm := gsm0;
               g_pt_ops := xelp_pt_ops; g_mm := drm_mm_init 0; g_access_count := 0;
               g_nodes := ∅; g_next := 1; g_bo_node := ∅; g_wq := None; g_trace := [] |}.

(** [destroy_workqueue] and [drm_mm_takedown]. *)
Definition ggtt_fini_early : ST xe_ggtt unit := modify (set_g_wq None).

Definition ggtt_fini : ST xe_ggtt unit := modify (set_g_scratch None).

Definition __xe_ggtt_init_early (start size : Z) : ST xe_ggtt unit :=
  modify (set_g_start start) ;;;
  modify (set_g_size size) ;;;
  modify (set_g_mm (drm_mm_init size)).

Definition xe_ggtt_init_kunit (start size : Z) : ST xe_ggtt (res unit) :=
  __xe_ggtt_init_early start size ;;; ret (Ok tt).

(** The range chosen for the GGTT, before it is clipped to [GUC_GGTT_TOP]. *)
Definition ggtt_early_range (tile : xe_tile) : res (Z * Z) :=
  let wopcm := tile_wopcm_size tile in
  if negb (tile_is_vf tile) then
    let gsm_size :=
      if 1250 <=? tile_graphics_verx100 tile then SZ_8M
      else probe_gsm_size (tile_gmch_ctl tile) in
    if gsm_size =? 0 then Err ENOMEM
    else Ok (wopcm, (gsm_size / 8 * XE_PAGE_SIZE) -64 wopcm)
  else
    let ggtt_start := tile_vf_ggtt_base tile in
    let ggtt_size := tile_vf_ggtt_size tile in
    if (ggtt_start <? wopcm) || (GUC_GGTT_TOP <? ggtt_start +64 ggtt_size) then Err ERANGE
    else Ok (ggtt_start, ggtt_size).

Definition has_wa (gt : option xe_gt) : bool := from_option wa_22019338487 false gt.

Definition early_pt_ops (tile : xe_tile) : xe_ggtt_pt_ops :=
  if 1270 <=? tile_graphics_verx100 tile then
    if has_wa (tile_media_gt tile) || has_wa (tile_primary_gt tile)
    then xelpg_pt_wa_ops else xelpg_pt_ops
  else xelp_pt_ops.

(** [dev_fini_ggtt] takes the GGTT offline and drains the queued removals; each
    drained item runs [remove_work]. *)
Definition dev_fini_ggtt (remove_work : Z -> ST xe_ggtt unit) : ST xe_ggtt unit :=
  modify (fun s => set_g_flags (clear_bits (g_flags s) XE_GGTT_FLAGS_ONLINE) s) ;;;
  q <-- gets g_wq ;;
  match q with
  | None => ret tt
  | Some nodes => modify (set_g_wq (Some [])) ;;; for_each nodes remove_work
  end.

(** [xe_ggtt_init_early]; [wq_ok], [drmm] and [devm] are the answers of
    [alloc_workqueue], [drmm_add_action_or_reset] and
    [devm_add_action_or_reset], whose failure runs the action at once. *)
Definition xe_ggtt_init_early (tile : xe_tile) (wq_ok : bool) (drmm devm : res unit)
    (remove_work : Z -> ST xe_ggtt unit) : ST xe_ggtt (res unit) :=
  match ggtt_early_range tile with
  | Err e => ret (Err e)
  | Ok (ggtt_start, ggtt_size) =>
      when (tile_is_dgfx tile && tile_vram_need64k tile)
        (modify (fun s => set_g_flags (g_flags s ||| XE_GGTT_FLAGS_64K) s)) ;;;
      let ggtt_size :=
        if GUC_GGTT_TOP <? ggtt_size +64 ggtt_start then GUC_GGTT_TOP -64 ggtt_start
        else ggtt_size in
      modify (set_g_pt_ops (early_pt_ops tile)) ;;;
      if negb wq_ok then ret (Err ENOMEM)
      else
        modify (set_g_wq (Some [])) ;;;
        __xe_ggtt_init_early ggtt_start ggtt_size ;;;
        match drmm with
        | Err e => ggtt_fini_early ;;; ret (Err e)
        | Ok _ =>
            modify (fun s => set_g_flags (g_flags s ||| XE_GGTT_FLAGS_ONLINE) s) ;;;
            match devm with
            | Err e => dev_fini_ggtt remove_work ;;; ret (Err e)
            | Ok _ => ret (Ok tt)
            end
        end
  end.

(** The body of the loop over the holes. *)
Definition clear_hole (tile : xe_tile) (hole : Z * Z) : ST xe_ggtt unit :=
  base <-- gets g_start ;;
  xe_ggtt_clear tile (base +64 hole.1) (hole.2 -64 hole.1).

Definition xe_ggtt_initial_clear (tile : xe_tile) : ST xe_ggtt unit :=
  holes <-- gets (fun s => drm_mm_holes (g_mm s)) ;;
  for_each holes (clear_hole tile) ;;;
  xe_ggtt_invalidate tile.

(** Flags for the scratch buffer object. *)
Definition scratch_bo_flags (s : xe_ggtt) : Z :=
  if test (g_flags s) XE_GGTT_FLAGS_64K then XE_BO_FLAG_SYSTEM else XE_BO_FLAG_VRAM_IF_DGFX.

(** [xe_ggtt_init]; [create] is [xe_managed_bo_create_pin_map] of the scratch
    page with the given flags. *)
Definition xe_ggtt_init (tile : xe_tile) (create : Z -> res xe_bo) (devm : res unit)
    : ST xe_ggtt (res unit) :=
  flags <-- gets scratch_bo_flags ;;
  match create flags with
  | Err e => modify (set_g_scratch None) ;;; ret (Err e)
  | Ok bo =>
      modify (set_g_scratch (Some bo)) ;;;
      xe_ggtt_initial_clear tile ;;;
      match devm with
      | Err e => ggtt_fini ;;; ret (Err e)
      | Ok _ => ret (Ok tt)
      end
  end.

End Ggtt.
