(* ===== verification/GgttNode.v ===== *)
(** GGTT nodes, [xe_ggtt.c]: allocation and removal of nodes, mapping of buffer
    objects, holes, and the SR-IOV assignment, save and load of a node's
    entries. *)
From stdpp Require Import base numbers list gmap functions.
From S2P Require Import Prelude.
From S2P Require Import GttDefs.
From S2P Require Import Pte.
From S2P Require Import Ggtt.

Section GgttNode.
Context `{DrmMm, ResCursor, XeEnv}.

(** * Nodes *)

(** The [drm_mm_node] of a node; the memory of a node that was never inserted is
    zero. *)
Definition node_base (node : Z) (s : xe_ggtt) : Z * Z :=
  default (0, 0) (mm_nodes (g_mm s) !! node).

Definition xe_ggtt_node_addr (node : Z) (s : xe_ggtt) : Z :=
  (node_base node s).1 +64 g_start s.

Definition xe_ggtt_node_size (node : Z) (s : xe_ggtt) : Z := (node_base node s).2.

Definition xe_ggtt_node_pt_size (node : option Z) (s : xe_ggtt) : Z :=
  match node with
  | None => 0
  | Some n => (node_base n s).2 / XE_PAGE_SIZE * 8
  end.

Definition ggtt_node_fini (node : Z) : ST xe_ggtt unit :=
  modify (fun s => set_g_nodes (delete node (g_nodes s)) s).

(** [kzalloc_ok]: the allocation succeeded. *)
Definition ggtt_node_init (kzalloc_ok : bool) : ST xe_ggtt (res Z) :=
  if negb kzalloc_ok then ret (Err ENOMEM)
  else
    n <-- gets g_next ;;
    modify (fun s =>
      set_g_next (n + 1)
        (set_g_nodes (<[n := {| invalidate_on_remove := false |}]> (g_nodes s)) s)) ;;;
    ret (Ok n).

Definition ggtt_node_remove (tile : xe_tile) (node : Z) : ST xe_ggtt unit :=
  bound <-- gets (fun s => test (g_flags s) XE_GGTT_FLAGS_ONLINE) ;;
  addr <-- gets (xe_ggtt_node_addr node) ;;
  size <-- gets (xe_ggtt_node_size node) ;;
  when bound (xe_ggtt_clear tile addr size) ;;;
  modify (fun s => set_g_mm (drm_mm_remove_node (g_mm s) node) s) ;;;
  inval <-- gets (fun s => from_option invalidate_on_remove false (g_nodes s !! node)) ;;
  when (bound && inval) (xe_ggtt_invalidate tile) ;;;
  ggtt_node_fini node.

Definition ggtt_node_remove_work_func (tile : xe_tile) (node : Z) : ST xe_ggtt unit :=
  emit EvPmGet ;;;
  ggtt_node_remove tile node ;;;
  emit EvPmPut.

(** [queue_work] does nothing for an item that is already queued. *)
Definition queue_work (node : Z) : ST xe_ggtt unit :=
  modify (fun s =>
    match g_wq s with
    | Some q => if bool_decide (node ∈ q) then s else set_g_wq (Some (q ++ [node])) s
    | None => s
    end) ;;;
  emit (EvQueueWork node).

(** [active] is the answer of [xe_pm_runtime_get_if_active]. *)
Definition xe_ggtt_node_remove (tile : xe_tile) (node : option Z) (invalidate active : bool)
    : ST xe_ggtt unit :=
  match node with
  | None => ret tt
  | Some n =>
      modify (fun s =>
        set_g_nodes (alter (fun _ => {| invalidate_on_remove := invalidate |}) n (g_nodes s)) s) ;;;
      if active then
        emit EvPmGet ;;;
        ggtt_node_remove tile n ;;;
        emit EvPmPut
      else queue_work n
  end.

Definition xe_ggtt_shift_nodes (new_start : Z) : ST xe_ggtt unit :=
  modify (set_g_start new_start).

(** [size], [align] and [mm_flags] are [u32]. *)
Definition xe_ggtt_insert_node_locked (node size align mm_flags : Z) : ST xe_ggtt (res unit) :=
  r <-- gets (fun s => drm_mm_insert_node_generic (g_mm s) node (wrap 32 size) (wrap 32 align)
                         (wrap 32 mm_flags)) ;;
  match r with
  | Ok mm => modify (set_g_mm mm) ;;; ret (Ok tt)
  | Err e => ret (Err e)
  end.

Definition xe_ggtt_insert_node (kzalloc_ok : bool) (size align : Z) : ST xe_ggtt (res Z) :=
  node <-- ggtt_node_init kzalloc_ok ;;
  match node with
  | Err e => ret (Err e)
  | Ok n =>
      r <-- xe_ggtt_insert_node_locked n size align DRM_MM_INSERT_HIGH ;;
      match r with
      | Err e => ggtt_node_fini n ;;; ret (Err e)
      | Ok _ => ret (Ok n)
      end
  end.

(** * Buffer objects *)

(** [for (first; cur.remaining; xe_res_next(&cur, XE_PAGE_SIZE)) f(cur)], with the
    cursor at exit. *)
Fixpoint for_cursor (fuel : nat) (cur : cursor) (f : cursor -> ST xe_ggtt unit)
    : ST xe_ggtt cursor :=
  match fuel with
  | O => ret cur
  | S n =>
      if cur_remaining cur =? 0 then ret cur
      else f cur ;;; for_cursor n (xe_res_next cur XE_PAGE_SIZE) f
  end.

Definition xe_ggtt_map_bo (tile : xe_tile) (node : option Z) (bo : xe_bo) (pte : Z)
    : ST xe_ggtt unit :=
  match node with
  | None => ret tt
  | Some n =>
      start <-- gets (xe_ggtt_node_addr n) ;;
      let end_ := start +64 bo_size bo in
      let fuel := range_fuel (bo_size bo) in
      (if negb (bo_is_vram bo) && negb (bo_is_stolen bo) then
         for_cursor fuel (xe_res_first_sg bo 0 (bo_size bo)) (fun cur =>
           ggtt_set_pte tile (end_ -64 cur_remaining cur) (pte ||| xe_res_dma cur))
       else
         let pte := pte ||| vram_region_gpu_offset bo in
         for_cursor fuel (xe_res_first bo 0 (bo_size bo)) (fun cur =>
           ggtt_set_pte tile (end_ -64 cur_remaining cur) (pte +64 cur_start cur))) ;;;
      ret tt
  end.

(** [cache_mode], [pat_index] and the entry flags of a buffer object. *)
Definition bo_pte_flags (bo : xe_bo) (s : xe_ggtt) : Z :=
  let cache_mode := if test (bo_flags bo) XE_BO_FLAG_NEEDS_UC then XE_CACHE_NONE else XE_CACHE_WB in
  pt_ops_pte_encode_flags (g_pt_ops s) bo (xe_cache_pat_idx cache_mode).

Definition xe_ggtt_map_bo_unlocked (tile : xe_tile) (bo_id : Z) (bo : xe_bo)
    : ST xe_ggtt unit :=
  pte <-- gets (bo_pte_flags bo) ;;
  node <-- gets (fun s => g_bo_node s !! bo_id) ;;
  xe_ggtt_map_bo tile node bo pte.

(** [lock] is the answer of [mutex_lock_interruptible]; [transform] the caller's
    callback, given as the entries it writes through [ggtt_set_pte]. *)
Definition xe_ggtt_insert_node_transform (tile : xe_tile) (bo : xe_bo) (pte_flags size align : Z)
    (kzalloc_ok lock : bool) (transform : option (Z -> Z -> xe_ggtt -> list (Z * Z)))
    : ST xe_ggtt (res Z) :=
  node <-- ggtt_node_init kzalloc_ok ;;
  match node with
  | Err e => ret (Err e)
  | Ok n =>
      if negb lock then ggtt_node_fini n ;;; ret (Err ERESTARTSYS)
      else
        r <-- xe_ggtt_insert_node_locked n size align 0 ;;
        match r with
        | Err e => ggtt_node_fini n ;;; ret (Err e)
        | Ok _ =>
            match transform with
            | Some t =>
                ws <-- gets (t n pte_flags) ;;
                for_each ws (fun '(a, p) => ggtt_set_pte tile a p)
            | None => xe_ggtt_map_bo tile (Some n) bo pte_flags
            end ;;;
            ret (Ok n)
        end
  end.

(** The alignment of a buffer object in the GGTT. *)
Definition bo_alignment (bo : xe_bo) (s : xe_ggtt) : Z :=
  let alignment := if 0 <? bo_min_align bo then bo_min_align bo else XE_PAGE_SIZE in
  if bo_is_vram bo && test (g_flags s) XE_GGTT_FLAGS_64K then SZ_64K else alignment.

(** [start >= ggtt->start ? start - ggtt->start : 0]. *)
Definition rebase (base a : Z) : Z := if base <=? a then a -64 base else 0.

(** [validate] and [kzalloc_ok] are the answers of [xe_bo_validate] and of the
    allocation. *)
Definition __xe_ggtt_insert_bo_at (tile : xe_tile) (bo_id : Z) (bo : xe_bo) (start end_ : Z)
    (validate : res unit) (kzalloc_ok : bool) : ST xe_ggtt (res unit) :=
  alignment <-- gets (bo_alignment bo) ;;
  slot <-- gets (fun s => g_bo_node s !! bo_id) ;;
  match slot with
  | Some _ => ret (Ok tt)
  | None =>
      match validate with
      | Err e => ret (Err e)
      | Ok _ =>
          emit EvPmGet ;;;
          node <-- ggtt_node_init kzalloc_ok ;;
          err <-- match node with
          | Err e =>
              modify (fun s => set_g_bo_node (delete bo_id (g_bo_node s)) s) ;;;
              ret (Err e)
          | Ok n =>
              modify (fun s => set_g_bo_node (<[bo_id := n]> (g_bo_node s)) s) ;;;
              base <-- gets g_start ;;
              let start := rebase base start in
              let end_ := rebase base end_ in
              r <-- gets (fun s => drm_mm_insert_node_in_range (g_mm s) n (bo_size bo)
                                     alignment start end_) ;;
              match r with
              | Err e =>
                  ggtt_node_fini n ;;;
                  modify (fun s => set_g_bo_node (delete bo_id (g_bo_node s)) s) ;;;
                  ret (Err e)
              | Ok mm =>
                  modify (set_g_mm mm) ;;;
                  pte <-- gets (bo_pte_flags bo) ;;
                  xe_ggtt_map_bo tile (Some n) bo pte ;;;
                  when (test (bo_flags bo) XE_BO_FLAG_GGTT_INVALIDATE) (xe_ggtt_invalidate tile) ;;;
                  ret (Ok tt)
              end
          end ;;
          emit EvPmPut ;;;
          ret err
      end
  end.

Definition xe_ggtt_insert_bo_at := __xe_ggtt_insert_bo_at.

Definition xe_ggtt_insert_bo (tile : xe_tile) (bo_id : Z) (bo : xe_bo)
    (validate : res unit) (kzalloc_ok : bool) : ST xe_ggtt (res unit) :=
  __xe_ggtt_insert_bo_at tile bo_id bo 0 U64_MAX validate kzalloc_ok.

(** The slot of the buffer object keeps its node. *)
Definition xe_ggtt_remove_bo (tile : xe_tile) (bo_id : Z) (bo : xe_bo) (active : bool)
    : ST xe_ggtt unit :=
  slot <-- gets (fun s => g_bo_node s !! bo_id) ;;
  match slot with
  | None => ret tt
  | Some n =>
      xe_ggtt_node_remove tile (Some n) (test (bo_flags bo) XE_BO_FLAG_GGTT_INVALIDATE) active
  end.

(** * Holes *)

(** The aligned part of a hole that lies above [ggtt->start], if any. *)
Definition usable_hole (alignment base : Z) (hole : Z * Z) : option (Z * Z) :=
  let hole_start := Z.max hole.1 base in
  let hole_start := ALIGN hole_start alignment in
  let hole_end := ALIGN_DOWN hole.2 alignment in
  if hole_end <=? hole_start then None else Some (hole_start, hole_end).

(** One hole: [max_hole] and [*spare] (absent when the pointer is NULL). *)
Definition largest_hole_step (alignment base : Z) (acc : Z * option Z) (hole : Z * Z)
    : Z * option Z :=
  let '(max_hole, spare) := acc in
  match usable_hole alignment base hole with
  | None => acc
  | Some (hole_start, hole_end) =>
      let hole_size := hole_end -64 hole_start in
      (Z.max max_hole hole_size,
       option_map (fun sp => sp -64 Z.min sp (Z.min hole_size max_hole)) spare)
  end.

Definition xe_ggtt_largest_hole (alignment : Z) (spare : option Z) (s : xe_ggtt)
    : Z * option Z :=
  foldl (largest_hole_step alignment (g_start s)) (0, spare) (drm_mm_holes (g_mm s)).

(** The printed ranges and the total. *)
Definition print_holes_step (alignment base : Z) (acc : list (Z * Z) * Z) (hole : Z * Z)
    : list (Z * Z) * Z :=
  let '(printed, total) := acc in
  match usable_hole alignment base hole with
  | None => acc
  | Some (hole_start, hole_end) =>
      let hole_size := hole_end -64 hole_start in
      (printed ++ [(hole_start, hole_end -64 1)], total +64 hole_size)
  end.

Definition xe_ggtt_print_holes (alignment : Z) (s : xe_ggtt) : list (Z * Z) * Z :=
  foldl (print_holes_step alignment (g_start s)) ([], 0) (drm_mm_holes (g_mm s)).

(** [lock] is the answer of [mutex_lock_interruptible]. *)
Definition xe_ggtt_dump {P} (lock : res unit) (print : drm_mm -> P) (s : xe_ggtt) : res P :=
  match lock with
  | Err e => Err e
  | Ok _ => Ok (print (g_mm s))
  end.

Definition xe_ggtt_encode_pte_flags (bo : xe_bo) (pat_index : Z) (s : xe_ggtt) : Z :=
  pt_ops_pte_encode_flags (g_pt_ops s) bo pat_index.

Definition xe_ggtt_read_pte (offset : Z) (s : xe_ggtt) : Z := g_gsm s (offset / XE_PAGE_SIZE).

(** * SR-IOV *)

(** [u64_get_bits] and [u64_replace_bits] at [GGTT_PTE_VFID], bits 11:2. *)
Definition get_vfid (pte : Z) : Z := Z.shiftr (Z.land pte GGTT_PTE_VFID) 2.
Definition replace_vfid (pte vfid : Z) : Z :=
  Z.ldiff pte GGTT_PTE_VFID ||| Z.land (Z.shiftl vfid 2) GGTT_PTE_VFID.

Definition xe_encode_vfid_pte (vfid : Z) : Z :=
  Z.land (Z.shiftl vfid 2) GGTT_PTE_VFID ||| XE_PAGE_PRESENT.

Definition xe_ggtt_assign_locked (tile : xe_tile) (node vfid : Z) : ST xe_ggtt unit :=
  start <-- gets (xe_ggtt_node_addr node) ;;
  size <-- gets (xe_ggtt_node_size node) ;;
  let end_ := start +64 size -64 1 in
  let pte := xe_encode_vfid_pte vfid in
  _ <-- while_pages (range_fuel size) start end_ (fun a => ggtt_set_pte tile a pte) ;;
  xe_ggtt_invalidate tile.

Definition xe_ggtt_assign := xe_ggtt_assign_locked.

(** The saved words, newest last. *)
Fixpoint save_loop (fuel : nat) (start end_ vfid : Z) (buf : list Z) (s : xe_ggtt)
    : res (list Z) :=
  match fuel with
  | O => Ok buf
  | S n =>
      if start <? end_ then
        let pte := xe_ggtt_get_pte start s in
        if negb (vfid =? get_vfid pte) then Err EPERM
        else save_loop n (start +64 XE_PAGE_SIZE) end_ vfid (buf ++ [replace_vfid pte 0]) s
      else Ok buf
  end.

Definition xe_ggtt_node_save (node : option Z) (size vfid : Z) (s : xe_ggtt) : res (list Z) :=
  match node with
  | None => Err ENOENT
  | Some n =>
      if negb (xe_ggtt_node_pt_size node s =? size) then Err EINVAL
      else
        let start := xe_ggtt_node_addr n s in
        let end_ := start +64 xe_ggtt_node_size n s -64 1 in
        save_loop (range_fuel (xe_ggtt_node_size n s)) start end_ vfid [] s
  end.

(** [buf] is the rest of the source buffer; the size check makes it long enough. *)
Fixpoint load_loop (fuel : nat) (tile : xe_tile) (start end_ vfid : Z) (buf : list Z)
    : ST xe_ggtt unit :=
  match fuel with
  | O => ret tt
  | S n =>
      if start <? end_ then
        match buf with
        | [] => ret tt
        | w :: buf' =>
            let vfid_pte := replace_vfid w vfid in
            ggtt_set_pte tile start vfid_pte ;;;
            load_loop n tile (start +64 XE_PAGE_SIZE) end_ vfid buf'
        end
      else ret tt
  end.

(** The source buffer is given as its 64-bit words; [size] is its size in bytes. *)
Definition xe_ggtt_node_load (tile : xe_tile) (node : option Z) (src : list Z) (vfid : Z)
    : ST xe_ggtt (res unit) :=
  match node with
  | None => ret (Err ENOENT)
  | Some n =>
      pt_size <-- gets (xe_ggtt_node_pt_size node) ;;
      if negb (pt_size =? 8 * Z.of_nat (length src)) then ret (Err EINVAL)
      else
        start <-- gets (xe_ggtt_node_addr n) ;;
        size <-- gets (xe_ggtt_node_size n) ;;
        let end_ := start +64 size -64 1 in
        load_loop (range_fuel size) tile start end_ vfid src ;;;
        xe_ggtt_invalidate tile ;;;
        ret (Ok tt)
  end.

End GgttNode.
