(* ===== verification/GgttLemmas.v ===== *)
(** How the operations of the GGTT act on the translation table: every operation
    that writes entries writes one run of consecutive pages, and changes nothing
    else but the write counter and the event trace. *)
From stdpp Require Import base numbers list gmap functions.
From S2P Require Import Prelude.
From S2P Require Import GttDefs.
From S2P Require Import Pte.
From S2P Require Import Ggtt.
From S2P Require Import GgttNode.

Lemma for_each_fmap {S A B} (g : A -> B) (l : list A) (f : B -> ST S unit) :
  for_each (g <$> l) f = for_each l (fun a => f (g a)).
Proof. induction l as [|a l IH]; [done|]. cbn. by rewrite IH. Qed.

Lemma for_each_cons {S A} (a : A) l (f : A -> ST S unit) s :
  for_each (a :: l) f s = for_each l f (f a s).2.
Proof. cbn. unfold bind. by destruct (f a s) as [[] s']. Qed.

Lemma range_fuel_pages n : range_fuel (PAGE * Z.of_nat n) = S n.
Proof.
  unfold range_fuel, XE_PAGE_SIZE, PAGE. rewrite Z.mul_comm, Z.div_mul by done.
  by rewrite Nat2Z.id.
Qed.

Lemma page_multiple size :
  0 <= size -> size mod PAGE = 0 -> exists n, size = PAGE * Z.of_nat n.
Proof.
  intros H0 Hm. exists (Z.to_nat (size / PAGE)). unfold PAGE in *.
  rewrite Z2Nat.id by (apply Z.div_pos; lia). pose proof (Z.div_mod size 4096). lia.
Qed.

Section Writes.
Context `{DrmMm, ResCursor, XeEnv}.
Implicit Types s : xe_ggtt.

Definition write_ptes (tile : xe_tile) (ws : list (Z * Z)) s : xe_ggtt :=
  (for_each ws (fun '(a, p) => ggtt_set_pte tile a p) s).2.

(** The entries [vs] at consecutive pages from [start]. *)
Definition pte_run (start : Z) (vs : list Z) : list (Z * Z) := zip (pages start (length vs)) vs.

(** ** The frame of a write *)

Definition gsm_frame s s' : Prop :=
  s' = set_g_trace (g_trace s') (set_g_access_count (g_access_count s') (set_g_gsm (g_gsm s') s)).

#[export] Instance gsm_frame_preorder : PreOrder gsm_frame.
Proof.
  split.
  - by intros [].
  - intros [] [] [] E1 E2. unfold gsm_frame, set_g_trace, set_g_access_count, set_g_gsm in *.
    cbn in *. congruence.
Qed.

Lemma emit_frame e s : gsm_frame s (emit e s).2.
Proof. destruct s. reflexivity. Qed.

Lemma ggtt_update_access_counter_frame tile s :
  gsm_frame s (ggtt_update_access_counter tile s).2 /\
  g_gsm (ggtt_update_access_counter tile s).2 = g_gsm s.
Proof.
  unfold ggtt_update_access_counter, bind, modify, gets, when.
  destruct (affected_gt tile) as [gt m]. cbn. case_match; destruct s; cbn.
  all: split; [reflexivity|done].
Qed.

Lemma ggtt_set_pte_frame tile a p s : gsm_frame s (ggtt_set_pte tile a p s).2.
Proof.
  unfold ggtt_set_pte, bind, gets. cbn. destruct (g_pt_ops s).
  1, 2: destruct s; reflexivity.
  unfold xe_ggtt_set_pte_and_flush, bind. destruct (xe_ggtt_set_pte a p s) as [[] s'] eqn:E.
  destruct (ggtt_update_access_counter_frame tile s') as [Hf _]. etrans; [|done].
  assert (s' = (xe_ggtt_set_pte a p s).2) as -> by by rewrite E.
  destruct s; reflexivity.
Qed.

Lemma ggtt_set_pte_gsm tile a p s :
  g_gsm (ggtt_set_pte tile a p s).2 = <[Z.shiftr a 12 := p]> (g_gsm s).
Proof.
  unfold ggtt_set_pte, bind, gets. cbn. destruct (g_pt_ops s); [done..|].
  unfold xe_ggtt_set_pte_and_flush, bind. destruct (xe_ggtt_set_pte a p s) as [[] s'] eqn:E.
  destruct (ggtt_update_access_counter_frame tile s') as [_ ->].
  assert (s' = (xe_ggtt_set_pte a p s).2) as -> by by rewrite E. done.
Qed.

Lemma write_ptes_cons tile a p ws s :
  write_ptes tile ((a, p) :: ws) s = write_ptes tile ws (ggtt_set_pte tile a p s).2.
Proof. unfold write_ptes. cbn [for_each]. unfold bind at 1. by destruct (ggtt_set_pte tile a p s) as [[] ?]. Qed.

Lemma write_ptes_frame tile ws s : gsm_frame s (write_ptes tile ws s).
Proof.
  revert s. induction ws as [|[a p] ws IH]; intros s; [done|].
  rewrite write_ptes_cons. etrans; [apply ggtt_set_pte_frame|apply IH].
Qed.

Lemma xe_ggtt_invalidate_frame tile s :
  gsm_frame s (xe_ggtt_invalidate tile s).2 /\ g_gsm (xe_ggtt_invalidate tile s).2 = g_gsm s.
Proof.
  unfold xe_ggtt_invalidate, ggtt_invalidate_gt_tlb, bind.
  destruct (tile_primary_gt tile), (tile_media_gt tile), s; cbn.
  all: split; [reflexivity|done].
Qed.

(** ** Reading the table after a run of writes *)

Lemma pte_run_cons start v vs : pte_run start (v :: vs) = (start, v) :: pte_run (start + PAGE) vs.
Proof. unfold pte_run. cbn [length]. by rewrite pages_S. Qed.

Lemma shiftr_page_add a : Z.shiftr (a + PAGE) 12 = Z.shiftr a 12 + 1.
Proof.
  rewrite !Z.shiftr_div_pow2 by done. change PAGE with (1 * 2 ^ 12). by rewrite Z.div_add.
Qed.

Lemma write_run_gsm tile start vs s j :
  g_gsm (write_ptes tile (pte_run start vs) s) j =
    let i := j - Z.shiftr start 12 in
    if (0 <=? i) && (i <? Z.of_nat (length vs)) then vs !!! Z.to_nat i else g_gsm s j.
Proof.
  cbn zeta. revert start s. induction vs as [|v vs IH]; intros start s.
  - cbn. zcases; done.
  - rewrite pte_run_cons, write_ptes_cons, IH, shiftr_page_add, ggtt_set_pte_gsm.
    cbn [length]. destruct (decide (j = Z.shiftr start 12)) as [->|Hne].
    + rewrite fn_lookup_insert. zcases. by rewrite Z.sub_diag.
    + rewrite fn_lookup_insert_ne by done. zcases.
      replace (Z.to_nat (j - Z.shiftr start 12))
        with (S (Z.to_nat (j - (Z.shiftr start 12 + 1)))) by lia. done.
Qed.

(** A run from a page-aligned address, read at an address of the run or outside. *)
Lemma write_run_in tile start vs s i :
  (i < length vs)%nat ->
  g_gsm (write_ptes tile (pte_run start vs) s) (Z.shiftr start 12 + Z.of_nat i) = vs !!! i.
Proof.
  intros. rewrite write_run_gsm, Z.add_simpl_l. cbn zeta. rewrite Nat2Z.id. zcases.
Qed.

Lemma write_run_out tile start vs s j :
  j < Z.shiftr start 12 \/ Z.shiftr start 12 + Z.of_nat (length vs) <= j ->
  g_gsm (write_ptes tile (pte_run start vs) s) j = g_gsm s j.
Proof. intros. rewrite write_run_gsm. cbn zeta. zcases; done. Qed.

Lemma shiftr_aligned a : a mod PAGE = 0 -> PAGE * Z.shiftr a 12 = a.
Proof.
  unfold PAGE. intros. rewrite Z.shiftr_div_pow2 by done. change (2 ^ 12) with 4096.
  pose proof (Z.div_mod a 4096). lia.
Qed.

(** ** The operations as runs *)

Lemma pte_run_replicate start n p :
  pte_run start (replicate n p) = (fun a => (a, p)) <$> pages start n.
Proof.
  unfold pte_run. rewrite length_replicate. revert start. induction n as [|n IH]; intros; [done|].
  rewrite pages_S. cbn. by rewrite IH.
Qed.

Lemma while_pages_run tile start n p s fuel :
  (n < fuel)%nat -> 0 <= start -> start + PAGE * Z.of_nat n < 2 ^ 64 ->
  while_pages fuel start (start + PAGE * Z.of_nat n - 1) (fun a => ggtt_set_pte tile a p) s =
    (start + PAGE * Z.of_nat n, write_ptes tile (pte_run start (replicate n p)) s).
Proof.
  intros. rewrite while_pages_spec by done. unfold write_ptes.
  by rewrite pte_run_replicate, for_each_fmap.
Qed.

Lemma run_end start n :
  0 <= start -> start + PAGE * Z.of_nat (S n) < 2 ^ 64 ->
  start +64 PAGE * Z.of_nat (S n) -64 1 = start + PAGE * Z.of_nat (S n) - 1.
Proof. unfold PAGE. intros. rewrite add64_small, sub64_small; lia. Qed.

Lemma xe_ggtt_clear_run tile start n s :
  0 <= start -> start + PAGE * Z.of_nat (S n) < 2 ^ 64 ->
  (xe_ggtt_clear tile start (PAGE * Z.of_nat (S n)) s).2 =
    write_ptes tile (pte_run start (replicate (S n) (scratch_pte s))) s.
Proof.
  intros. unfold xe_ggtt_clear, bind, gets.
  by rewrite run_end, range_fuel_pages, while_pages_run by (done || lia).
Qed.

Lemma xe_ggtt_assign_run tile node vfid n s :
  0 <= xe_ggtt_node_addr node s ->
  xe_ggtt_node_addr node s + PAGE * Z.of_nat (S n) < 2 ^ 64 ->
  xe_ggtt_node_size node s = PAGE * Z.of_nat (S n) ->
  (xe_ggtt_assign tile node vfid s).2 =
    (xe_ggtt_invalidate tile
       (write_ptes tile (pte_run (xe_ggtt_node_addr node s)
                           (replicate (S n) (xe_encode_vfid_pte vfid))) s)).2.
Proof.
  intros ? ? Hsz. unfold xe_ggtt_assign, xe_ggtt_assign_locked, bind, gets. rewrite Hsz.
  by rewrite run_end, range_fuel_pages, while_pages_run by (done || lia).
Qed.

Lemma load_loop_run tile vfid n start src s fuel :
  length src = n -> (n < fuel)%nat -> 0 <= start -> start + PAGE * Z.of_nat n < 2 ^ 64 ->
  (load_loop fuel tile start (start + PAGE * Z.of_nat n - 1) vfid src s).2 =
    write_ptes tile (pte_run start ((fun w => replace_vfid w vfid) <$> src)) s.
Proof.
  revert start src s fuel. induction n as [|n IH]; intros start src s fuel Hl Hf Hst Hm.
  - destruct fuel as [|fuel]; [lia|]. apply nil_length_inv in Hl as ->.
    rewrite Z.mul_0_r. cbn. destruct (Z.ltb_spec start (start + 0 - 1)); [lia|done].
  - destruct fuel as [|fuel]; [lia|]. destruct src as [|w src]; [done|].
    cbn [load_loop]. unfold PAGE in Hm |- *.
    destruct (Z.ltb_spec start (start + 4096 * Z.of_nat (S n) - 1)); [|lia].
    rewrite fmap_cons, pte_run_cons, write_ptes_cons. unfold bind.
    destruct (ggtt_set_pte tile start (replace_vfid w vfid) s) as [[] s'].
    unfold XE_PAGE_SIZE, PAGE. rewrite add64_small by lia.
    replace (start + 4096 * Z.of_nat (S n) - 1) with (start + 4096 + PAGE * Z.of_nat n - 1)
      by (unfold PAGE; lia).
    rewrite IH by (cbn in *; unfold PAGE; lia). done.
Qed.

(** ** Mapping a buffer object *)

Context `{!ResCursorLaws}.

(** The cursor after [i] pages. *)
Definition cursor_at (c : cursor) (i : nat) : cursor :=
  Nat.iter i (fun c => xe_res_next c XE_PAGE_SIZE) c.

Lemma cursor_at_S c i : cursor_at (xe_res_next c XE_PAGE_SIZE) i = cursor_at c (S i).
Proof. unfold cursor_at. symmetry. exact (Nat.iter_succ_r i (fun c => xe_res_next c XE_PAGE_SIZE) c). Qed.

(** The loop over the pages of a cursor ends with nothing remaining and writes
    one entry per page. *)
Lemma for_cursor_run tile (val : cursor -> Z) n start c s fuel :
  (n < fuel)%nat -> 0 <= start -> start + PAGE * Z.of_nat n < 2 ^ 64 ->
  cur_remaining c = PAGE * Z.of_nat n ->
  let end_ := start + PAGE * Z.of_nat n in
  let r := for_cursor fuel c (fun c => ggtt_set_pte tile (end_ -64 cur_remaining c) (val c)) s in
  cur_remaining r.1 = 0 /\
  r.2 = write_ptes tile (pte_run start ((fun i => val (cursor_at c i)) <$> seq 0 n)) s.
Proof.
  cbn zeta. revert start c s fuel. induction n as [|n IH]; intros start c s fuel Hf Hst Hm Hc.
  - destruct fuel as [|fuel]; [lia|]. cbn. rewrite Hc. by rewrite Z.mul_0_r.
  - destruct fuel as [|fuel]; [lia|]. cbn [for_cursor].
    unfold PAGE in Hc, Hm. destruct (Z.eqb_spec (cur_remaining c) 0); [lia|].
    cbn [seq]. rewrite fmap_cons, pte_run_cons, write_ptes_cons. unfold bind.
    replace (start + PAGE * Z.of_nat (S n) -64 cur_remaining c) with start.
    2: { unfold PAGE. rewrite sub64_small; lia. }
    destruct (ggtt_set_pte tile start (val c) s) as [[] s'] eqn:E.
    replace (start + PAGE * Z.of_nat (S n)) with (start + PAGE + PAGE * Z.of_nat n)
      by (unfold PAGE; lia).
    destruct (IH (start + PAGE) (xe_res_next c XE_PAGE_SIZE) s' fuel) as [Hr Hw].
    + lia.
    + unfold PAGE; lia.
    + unfold PAGE; lia.
    + rewrite res_next_remaining; unfold XE_PAGE_SIZE, PAGE; lia.
    + split; [done|]. rewrite Hw. change (cursor_at c 0) with c. rewrite E.
      do 2 f_equal. rewrite <- fmap_S_seq, <- list_fmap_compose. apply list_fmap_ext.
      intros i x _. cbn. by rewrite cursor_at_S.
Qed.

(** The entries of a buffer object, page by page. *)
Definition bo_ptes (bo : xe_bo) (pte : Z) : list Z :=
  (fun i =>
     if negb (bo_is_vram bo) && negb (bo_is_stolen bo)
     then pte ||| xe_res_dma (cursor_at (xe_res_first_sg bo 0 (bo_size bo)) i)
     else (pte ||| vram_region_gpu_offset bo)
            +64 cur_start (cursor_at (xe_res_first bo 0 (bo_size bo)) i))
  <$> seq 0 (Z.to_nat (bo_size bo / PAGE)).

Lemma bo_ptes_length bo pte : length (bo_ptes bo pte) = Z.to_nat (bo_size bo / PAGE).
Proof. unfold bo_ptes. by rewrite length_fmap, length_seq. Qed.

Lemma xe_ggtt_map_bo_run tile n bo pte s :
  0 < bo_size bo -> bo_size bo mod PAGE = 0 ->
  0 <= xe_ggtt_node_addr n s -> xe_ggtt_node_addr n s + bo_size bo < 2 ^ 64 ->
  (xe_ggtt_map_bo tile (Some n) bo pte s).2 =
    write_ptes tile (pte_run (xe_ggtt_node_addr n s) (bo_ptes bo pte)) s.
Proof.
  intros Hp Hm Ha Hend. destruct (page_multiple (bo_size bo)) as [k Hk]; [lia|done|].
  unfold xe_ggtt_map_bo, bo_ptes, bind, gets. cbv beta iota zeta. rewrite (add64_small (_ n s)) by lia.
  rewrite Hk, range_fuel_pages.
  replace (PAGE * Z.of_nat k / PAGE) with (Z.of_nat k)
    by (unfold PAGE; rewrite Z.mul_comm, Z.div_mul; done).
  rewrite Nat2Z.id. unfold ret.
  destruct (negb (bo_is_vram bo) && negb (bo_is_stolen bo)).
  - destruct (for_cursor_run tile (fun c => pte ||| xe_res_dma c) k (xe_ggtt_node_addr n s)
      (xe_res_first_sg bo 0 (PAGE * Z.of_nat k)) s (S k)) as [_ <-]; try lia.
    { apply res_first_sg_remaining. }
    by destruct (for_cursor _ _ _ s).
  - destruct (for_cursor_run tile (fun c => (pte ||| vram_region_gpu_offset bo) +64 cur_start c)
      k (xe_ggtt_node_addr n s) (xe_res_first bo 0 (PAGE * Z.of_nat k)) s (S k)) as [_ <-]; try lia.
    { apply res_first_remaining. }
    by destruct (for_cursor _ _ _ s).
Qed.

End Writes.

(** * The invariant of the GGTT and its preservation: nodes are disjoint page ranges of the managed space, every free page of an online GGTT translates to the scratch page, and the writes between two flushes stay within the hardware limit *)

(** Writes to the table since the last dummy write to [GMD_ID]. *)
Fixpoint unflushed (tr : list ggtt_event) : Z :=
  match tr with
  | [] => 0
  | EvGmdIdWrite _ :: _ => 0
  | EvGsmWrite _ _ :: tr' => 1 + unflushed tr'
  | _ :: tr' => unflushed tr'
  end.

Lemma suffix_cons_cases {A} (tr : list A) e l :
  tr `suffix_of` e :: l -> tr = e :: l \/ tr `suffix_of` l.
Proof.
  intros [[|x k] Hk]; cbn in Hk; [by left|]. right. exists k. by simplify_eq.
Qed.

(** Events that are neither table writes nor flushes. *)
Definition is_quiet (e : ggtt_event) : bool :=
  match e with EvGsmWrite _ _ | EvGmdIdWrite _ => false | _ => true end.

Section GgttInv.
Context `{DrmMm, ResCursor, XeEnv}.
Context `{!DrmMmLaws}.
Implicit Types s : xe_ggtt.

Definition online s : bool := test (g_flags s) XE_GGTT_FLAGS_ONLINE.

(** Page [j] of the table belongs to a node. *)
Definition in_node s (j : Z) : Prop :=
  exists id a sz, mm_nodes (g_mm s) !! id = Some (a, sz) /\ a <= PAGE * j - g_start s < a + sz.

(** With the flush workaround in use, the counter is the number of unflushed
    writes, and that number never passed the limit in the past. *)
Definition wa_inv (tile : xe_tile) s : Prop :=
  g_pt_ops s = xelpg_pt_wa_ops ->
  unflushed (g_trace s) = g_access_count s /\
  0 <= g_access_count s < (affected_gt tile).2 /\
  (forall tr, tr `suffix_of` g_trace s -> unflushed tr <= (affected_gt tile).2).

Record ginv (tile : xe_tile) s : Prop := {
  gi_space : 0 <= g_start s /\ 0 <= g_size s /\ g_start s + g_size s <= GUC_GGTT_TOP;
  gi_page : g_start s mod PAGE = 0;
  gi_mm : mm_size (g_mm s) = g_size s;
  gi_dom id : is_Some (mm_nodes (g_mm s) !! id) <-> is_Some (g_nodes s !! id);
  gi_next id : is_Some (g_nodes s !! id) -> id < g_next s;
  gi_node id a sz : mm_nodes (g_mm s) !! id = Some (a, sz) ->
    0 <= a /\ 0 < sz /\ a + sz <= g_size s /\ a mod PAGE = 0 /\ sz mod PAGE = 0;
  gi_disj i j r1 r2 : i <> j -> mm_nodes (g_mm s) !! i = Some r1 ->
    mm_nodes (g_mm s) !! j = Some r2 -> disjoint_ranges r1 r2;
  gi_queue q : g_wq s = Some q -> NoDup q /\ (forall n, n ∈ q -> is_Some (g_nodes s !! n));
  gi_scratch : online s = true -> forall j, g_start s <= PAGE * j < g_start s + g_size s ->
    ~ in_node s j -> g_gsm s j = scratch_pte s;
  gi_wa : wa_inv tile s;
}.

(** ** The flush workaround *)

Lemma affected_gt_max tile : 63 <= (affected_gt tile).2 <= 1100.
Proof. unfold affected_gt. repeat case_match; cbn; lia. Qed.

Lemma wa_inv_quiet tile e s : is_quiet e = true -> wa_inv tile s -> wa_inv tile (emit e s).2.
Proof.
  intros He Hs Hw. destruct (Hs Hw) as (Hu & Hb & Hh). cbn. split_and!; [|lia|lia|].
  - destruct e; try done; cbn; auto.
  - intros tr Ht. apply suffix_cons_cases in Ht as [->|Ht]; [|by apply Hh].
    specialize (Hh (g_trace s) ltac:(done)). destruct e; try done; cbn; auto.
Qed.

Lemma ggtt_set_pte_wa tile a p s : wa_inv tile s -> wa_inv tile (ggtt_set_pte tile a p s).2.
Proof.
  intros Hs. unfold ggtt_set_pte, bind, gets. destruct (g_pt_ops s) eqn:Ho; cbn.
  1, 2: intros Hw; cbn in Hw; congruence.
  destruct (Hs Ho) as (Hu & Hb & Hh). pose proof (affected_gt_max tile) as Hm.
  unfold xe_ggtt_set_pte_and_flush, ggtt_update_access_counter, xe_ggtt_set_pte, bind, modify,
    gets, when. destruct (affected_gt tile) as [gt m] eqn:Ha. cbn in *.
  rewrite wrap_small by lia. destruct (Z.eqb_spec ((g_access_count s + 1) mod m) 0) as [E|E].
  - assert (g_access_count s + 1 = m) as Hmax.
    { destruct (decide (g_access_count s + 1 < m)); [|lia]. rewrite Z.mod_small in E; lia. }
    intros _; rewrite Ha; cbn. split_and!; [lia..|].
    intros tr [->|[->|Ht]%suffix_cons_cases]%suffix_cons_cases; cbn; [lia..|]. by apply Hh.
  - assert (g_access_count s + 1 <> m) as Hmax
      by (intros Hx; apply E; rewrite Hx; apply Z.mod_same; lia).
    intros _; rewrite Ha; cbn. split_and!; [lia..|].
    intros tr [->|Ht]%suffix_cons_cases; cbn; [lia|]. by apply Hh.
Qed.

Lemma write_ptes_wa tile ws s : wa_inv tile s -> wa_inv tile (write_ptes tile ws s).
Proof.
  revert s. induction ws as [|[a p] ws IH]; intros s Hs; [done|].
  rewrite write_ptes_cons. by apply IH, ggtt_set_pte_wa.
Qed.

Lemma xe_ggtt_invalidate_wa tile s : wa_inv tile s -> wa_inv tile (xe_ggtt_invalidate tile s).2.
Proof.
  intros Hs. unfold xe_ggtt_invalidate, ggtt_invalidate_gt_tlb, bind.
  pose proof (wa_inv_quiet tile EvVfCapRead s eq_refl Hs) as H3.
  destruct (tile_primary_gt tile), (tile_media_gt tile).
  - exact (wa_inv_quiet tile (EvTlbInval media_gt) _ eq_refl
      (wa_inv_quiet tile (EvTlbInval primary_gt) _ eq_refl H3)).
  - exact (wa_inv_quiet tile (EvTlbInval primary_gt) _ eq_refl H3).
  - exact (wa_inv_quiet tile (EvTlbInval media_gt) _ eq_refl H3).
  - exact H3.
Qed.

(** ** Updates that keep the invariant *)

(** A change of table entries that leaves the free pages alone. *)
Lemma ginv_frame tile s s' :
  ginv tile s -> gsm_frame s s' -> wa_inv tile s' ->
  (forall j, g_start s <= PAGE * j < g_start s + g_size s -> ~ in_node s j ->
     g_gsm s' j = g_gsm s j) ->
  ginv tile s'.
Proof.
  intros Hi Hf Hw Hg. rewrite Hf in Hw |- *. destruct Hi. split; cbn; try done.
  intros Ho j Hj Hn. rewrite Hg by done. by apply gi_scratch0.
Qed.

Lemma ginv_emit tile e s : is_quiet e = true -> ginv tile s -> ginv tile (emit e s).2.
Proof.
  intros He Hi. eapply ginv_frame; [done|apply emit_frame| |done].
  apply wa_inv_quiet; [done|apply Hi].
Qed.

Lemma ginv_invalidate tile s : ginv tile s -> ginv tile (xe_ggtt_invalidate tile s).2.
Proof.
  intros Hi. destruct (xe_ggtt_invalidate_frame tile s) as [Hf Hg].
  eapply ginv_frame; [done..|apply xe_ggtt_invalidate_wa, Hi|]. by rewrite Hg.
Qed.

(** The address of a live node. *)
Lemma live_node tile s n :
  ginv tile s -> is_Some (g_nodes s !! n) ->
  exists a k, mm_nodes (g_mm s) !! n = Some (a, PAGE * Z.of_nat (S k)) /\
    node_base n s = (a, PAGE * Z.of_nat (S k)) /\
    0 <= a /\ a mod PAGE = 0 /\ a + PAGE * Z.of_nat (S k) <= g_size s /\
    xe_ggtt_node_addr n s = g_start s + a /\ (g_start s + a) mod PAGE = 0.
Proof.
  intros Hi Hn. apply (gi_dom _ _ Hi) in Hn as [[a sz] Hn].
  destruct (gi_node _ _ Hi _ _ _ Hn) as (Ha & Hs & He & Hma & Hms).
  destruct (page_multiple sz) as [[|k] ->]; [lia|done|unfold PAGE in Hs; lia|].
  pose proof (gi_space _ _ Hi). exists a, k. unfold xe_ggtt_node_addr, node_base. rewrite Hn. cbn.
  rewrite wrap_small by (unfold GUC_GGTT_TOP in *; lia). repeat split; try done; [lia|].
  rewrite Z.add_mod, Hma, (gi_page _ _ Hi) by done. done.
Qed.

(** Pages of a run at a page-aligned address. *)
Lemma run_pages start n j :
  start mod PAGE = 0 ->
  (j < Z.shiftr start 12 \/ Z.shiftr start 12 + Z.of_nat n <= j) <->
  ~ (start <= PAGE * j < start + PAGE * Z.of_nat n).
Proof. intros Hs. pose proof (shiftr_aligned _ Hs). unfold PAGE in *. lia. Qed.

(** Entries written inside a live node. *)
Lemma ginv_write_node tile s n a sz start vs :
  ginv tile s -> mm_nodes (g_mm s) !! n = Some (a, sz) ->
  start mod PAGE = 0 -> g_start s + a <= start ->
  start + PAGE * Z.of_nat (length vs) <= g_start s + a + sz ->
  ginv tile (write_ptes tile (pte_run start vs) s).
Proof.
  intros Hi Hn Hs Hlo Hhi. eapply ginv_frame; [done|apply write_ptes_frame|apply write_ptes_wa, Hi|].
  intros j Hj Hf. apply write_run_out, run_pages; [done|]. intros Hin. apply Hf.
  exists n, a, sz. split; [done|lia].
Qed.

Lemma ginv_bo_node tile m s : ginv tile s -> ginv tile (set_g_bo_node m s).
Proof. intros []. by split. Qed.

Lemma ginv_next tile n s : g_next s <= n -> ginv tile s -> ginv tile (set_g_next n s).
Proof. intros Hn []. split; try done. cbn. intros. specialize (gi_next0 id). naive_solver lia. Qed.

Lemma ginv_alter tile f n s : ginv tile s -> ginv tile (set_g_nodes (alter f n (g_nodes s)) s).
Proof.
  intros []. split; try done; cbn.
  - intros id. rewrite lookup_alter_is_Some. apply gi_dom0.
  - intros id. rewrite lookup_alter_is_Some. apply gi_next0.
  - intros q Hq. destruct (gi_queue0 q Hq) as [? Hl]. split; [done|].
    intros x Hx. rewrite lookup_alter_is_Some. by apply Hl.
Qed.

Lemma ginv_queue tile q q' s :
  ginv tile s -> g_wq s = Some q -> NoDup q' ->
  (forall n, n ∈ q' -> is_Some (g_nodes s !! n)) -> ginv tile (set_g_wq (Some q') s).
Proof. intros [] Hq Hnd Hl. split; try done. cbn. intros ? [= <-]. done. Qed.

Lemma fresh_node tile s : ginv tile s -> g_nodes s !! g_next s = None /\
  mm_nodes (g_mm s) !! g_next s = None.
Proof.
  intros Hi. assert (g_nodes s !! g_next s = None) as Hn.
  { apply eq_None_not_Some. intros Hs%(gi_next _ _ Hi). lia. }
  split; [done|]. apply eq_None_not_Some. rewrite (gi_dom _ _ Hi). by rewrite Hn; intros [].
Qed.

(** A node inserted by the allocator under a fresh identity. *)
Lemma ginv_insert tile s mm' v size align lo hi :
  ginv tile s -> mm_inserted (g_mm s) mm' (g_next s) size align lo hi ->
  0 < size -> size mod PAGE = 0 -> 0 < align -> align mod PAGE = 0 ->
  ginv tile (set_g_mm mm' (set_g_next (g_next s + 1) (set_g_nodes (<[g_next s := v]> (g_nodes s)) s))).
Proof.
  intros Hi (a & Hm & Hsz & Ha & Hend & _ & _ & Hal & Hd) Hp Hpm Hap Ham.
  pose proof (fresh_node _ _ Hi) as [Hf1 Hf2].
  assert (a mod PAGE = 0) as Hamod.
  { apply Z.mod_divide in Ham; [|done]. specialize (Hal Hap).
    apply Z.mod_divide in Hal; [|lia]. apply Z.mod_divide; [done|]. by etrans. }
  destruct Hi. split; cbn; try done.
  - by rewrite Hsz.
  - intros id. rewrite Hm, !lookup_insert_is_Some', gi_dom0. done.
  - intros id. rewrite lookup_insert_is_Some'. intros [<-|Hs]; [lia|].
    specialize (gi_next0 id Hs). lia.
  - intros id b sz. rewrite Hm, lookup_insert_Some. intros [[<- [= -> ->]]|[? Hl]].
    + rewrite gi_mm0 in Hend. done.
    + by apply gi_node0 in Hl.
  - intros i j r1 r2 Hij. rewrite Hm, !lookup_insert_Some. unfold disjoint_ranges in *.
    intros [[<- <-]|[? H1']] [[<- <-]|[? H2']]; [congruence| | |by eapply (gi_disj0 i j)].
    + by eapply Hd.
    + apply Hd in H1'. cbn in *. tauto.
  - intros q Hq. destruct (gi_queue0 q Hq) as [? Hl]. split; [done|].
    intros n Hn. apply lookup_insert_is_Some'. right. by apply Hl.
  - intros Ho j Hj Hn. apply gi_scratch0; [done..|]. intros (id & b & sz & Hl & Hin).
    apply Hn. exists id, b, sz. cbn. split; [|done]. rewrite Hm, lookup_insert_ne; [done|congruence].
Qed.

(** A node removed after its pages were reset, or from an offline GGTT. *)
Lemma ginv_remove tile s n a sz :
  ginv tile s -> mm_nodes (g_mm s) !! n = Some (a, sz) ->
  (forall q, g_wq s = Some q -> n ∉ q) ->
  (online s = true -> forall j, a <= PAGE * j - g_start s < a + sz -> g_gsm s j = scratch_pte s) ->
  ginv tile (set_g_nodes (delete n (g_nodes s)) (set_g_mm (drm_mm_remove_node (g_mm s) n) s)).
Proof.
  intros Hi Hn Hq Hc. destruct Hi. split; cbn; try done; try rewrite mm_remove_nodes.
  - by rewrite mm_remove_size.
  - intros id. rewrite !lookup_delete_is_Some. by rewrite gi_dom0.
  - intros id [_ Hs]%lookup_delete_is_Some. by apply gi_next0.
  - intros id b sz' [_ Hl]%lookup_delete_Some. by apply gi_node0 in Hl.
  - intros i j r1 r2 Hij [_ H1']%lookup_delete_Some [_ H2']%lookup_delete_Some. by eapply gi_disj0.
  - intros q Hwq. destruct (gi_queue0 q Hwq) as [? Hl]. split; [done|].
    intros x Hx. apply lookup_delete_is_Some. split; [|by apply Hl].
    intros ->. by destruct (Hq q Hwq).
  - intros Ho j Hj Hfree. destruct (decide (a <= PAGE * j - g_start s < a + sz)) as [Hin|Hout].
    { by apply Hc. }
    apply gi_scratch0; [done..|]. intros (id & b & sz' & Hl & Hin). apply Hfree.
    exists id, b, sz'. cbn. rewrite mm_remove_nodes. split; [|done].
    apply lookup_delete_Some. split; [|done]. intros <-. rewrite Hn in Hl. naive_solver lia.
Qed.

End GgttInv.
