(* ===== verification/GgttOps.v ===== *)
(** The GGTT as a state machine: its operations in any order, and what holds in
    every state they reach. *)
From stdpp Require Import base numbers list gmap functions.
From S2P Require Import Prelude.
From S2P Require Import GttDefs.
From S2P Require Import Pte.
From S2P Require Import Ggtt.
From S2P Require Import GgttNode.
From S2P Require Import GgttLemmas.

(** A request to the GGTT, with the answers of allocations, locks, power
    management and buffer validation. *)
Inductive ggtt_op :=
  | OpInsertNode (kzalloc_ok : bool) (size align : Z)
  | OpInsertBo (bo_id : Z) (bo : xe_bo) (start end_ : Z) (validate : res unit) (kzalloc_ok : bool)
  | OpInsertLinear (bo : xe_bo) (pte_flags align : Z) (kzalloc_ok lock : bool)
  | OpMapBo (bo_id : Z) (bo : xe_bo)
  | OpRemove (node : Z) (invalidate active : bool)
  | OpRemoveBo (bo_id : Z) (bo : xe_bo) (active : bool)
  | OpRemoveWork (node : Z)
  | OpAssign (node vfid : Z)
  | OpLoad (node : Z) (src : list Z) (vfid : Z)
  | OpDevFini.

Section GgttOps.
Context `{DrmMm, ResCursor, XeEnv}.
Context `{!DrmMmLaws, !ResCursorLaws}.
Implicit Types s : xe_ggtt.

(** The work queue takes an item out of the queue and runs it. *)
Definition run_work (tile : xe_tile) (node : Z) : ST xe_ggtt unit :=
  modify (fun s => set_g_wq (option_map (filter (fun n => n <> node)) (g_wq s)) s) ;;;
  ggtt_node_remove_work_func tile node.

Definition exec_op (tile : xe_tile) (op : ggtt_op) s : xe_ggtt :=
  match op with
  | OpInsertNode kz size align => (xe_ggtt_insert_node kz size align s).2
  | OpInsertBo id bo start end_ v kz => (xe_ggtt_insert_bo_at tile id bo start end_ v kz s).2
  | OpInsertLinear bo flags align kz lock =>
      (xe_ggtt_insert_node_transform tile bo flags (bo_size bo) align kz lock None s).2
  | OpMapBo id bo => (xe_ggtt_map_bo_unlocked tile id bo s).2
  | OpRemove n inval active => (xe_ggtt_node_remove tile (Some n) inval active s).2
  | OpRemoveBo id bo active => (xe_ggtt_remove_bo tile id bo active s).2
  | OpRemoveWork n => (run_work tile n s).2
  | OpAssign n vfid => (xe_ggtt_assign tile n vfid s).2
  | OpLoad n src vfid => (xe_ggtt_node_load tile (Some n) src vfid s).2
  | OpDevFini => (dev_fini_ggtt (ggtt_node_remove_work_func tile) s).2
  end.

Definition queued (n : Z) s : Prop := n ∈ default [] (g_wq s).
Definition live (n : Z) s : Prop := is_Some (g_nodes s !! n) /\ ~ queued n s.

Definition page_multiple_in (hi x : Z) : Prop := 0 < x < hi /\ x mod PAGE = 0.

(** What callers respect: sizes and alignments are whole pages, and a node is
    used only between its insertion and its removal. *)
Definition op_ok (op : ggtt_op) s : Prop :=
  match op with
  | OpInsertNode _ size align =>
      page_multiple_in (2 ^ 32) size /\ page_multiple_in (2 ^ 32) align
  | OpInsertBo _ bo _ _ _ _ =>
      page_multiple_in (2 ^ 64) (bo_size bo) /\ bo_min_align bo mod PAGE = 0
  | OpInsertLinear bo _ align _ _ =>
      page_multiple_in (2 ^ 32) (bo_size bo) /\ page_multiple_in (2 ^ 32) align
  | OpMapBo id bo =>
      match g_bo_node s !! id with
      | None => True
      | Some n =>
          page_multiple_in (2 ^ 64) (bo_size bo) /\ live n s /\ bo_size bo = xe_ggtt_node_size n s
      end
  | OpRemove n _ _ => live n s
  | OpRemoveBo id _ _ => match g_bo_node s !! id with None => True | Some n => live n s end
  | OpRemoveWork n => queued n s
  | OpAssign n _ => live n s
  | OpLoad n _ _ => live n s
  | OpDevFini => True
  end.

Inductive ggtt_reach (tile : xe_tile) s0 : xe_ggtt -> Prop :=
  | reach_refl : ggtt_reach tile s0 s0
  | reach_step s op : ggtt_reach tile s0 s -> op_ok op s -> ggtt_reach tile s0 (exec_op tile op s).

(** ** Removal *)

Lemma clear_node_inv tile s n a k :
  ginv tile s -> mm_nodes (g_mm s) !! n = Some (a, PAGE * Z.of_nat (S k)) ->
  (g_start s + a) mod PAGE = 0 -> 0 <= a -> a + PAGE * Z.of_nat (S k) <= g_size s ->
  let s' := (xe_ggtt_clear tile (g_start s + a) (PAGE * Z.of_nat (S k)) s).2 in
  ginv tile s' /\ gsm_frame s s' /\
  (forall j, a <= PAGE * j - g_start s < a + PAGE * Z.of_nat (S k) -> g_gsm s' j = scratch_pte s) /\
  (forall j, ~ (a <= PAGE * j - g_start s < a + PAGE * Z.of_nat (S k)) -> g_gsm s' j = g_gsm s j).
Proof.
  intros Hi Hn Hm Ha He. pose proof (gi_space _ _ Hi) as (? & ? & ?). cbn zeta.
  rewrite xe_ggtt_clear_run by (unfold GUC_GGTT_TOP in *; lia). split_and!.
  - eapply ginv_write_node; [done..|lia|]. rewrite length_replicate. lia.
  - apply write_ptes_frame.
  - intros j Hj. rewrite write_run_gsm, length_replicate. cbn zeta.
    pose proof (shiftr_aligned _ Hm). unfold PAGE in *. zcases.
    apply (lookup_total_replicate_2 (S k)). lia.
  - intros j Hj. apply write_run_out. rewrite length_replicate. apply run_pages; [done|lia].
Qed.

(** Removal of a live node: the node is gone, its pages are scratch pages when
    the GGTT is online, and no other page changes. *)
Lemma ggtt_node_remove_spec tile s n :
  ginv tile s -> live n s ->
  let s' := (ggtt_node_remove tile n s).2 in
  ginv tile s' /\ g_nodes s' = delete n (g_nodes s) /\
  mm_nodes (g_mm s') = delete n (mm_nodes (g_mm s)) /\
  g_start s' = g_start s /\ g_wq s' = g_wq s /\ g_bo_node s' = g_bo_node s /\
  g_flags s' = g_flags s /\
  (forall j, ~ ((node_base n s).1 <= PAGE * j - g_start s
                < (node_base n s).1 + (node_base n s).2) \/ online s = false ->
     g_gsm s' j = g_gsm s j) /\
  (forall j, (node_base n s).1 <= PAGE * j - g_start s < (node_base n s).1 + (node_base n s).2 ->
     online s = true -> g_gsm s' j = scratch_pte s).
Proof.
  intros Hi [Hn Hq]. destruct (live_node _ _ _ Hi Hn) as (a & k & Hmm & Hb & Ha & Hma & He & Had & Hm).
  assert (forall q, g_wq s = Some q -> n ∉ q) as Hq'.
  { intros q E Hin. apply Hq. unfold queued. by rewrite E. }
  destruct (clear_node_inv tile s n a k Hi Hmm Hm Ha He) as (Hci & Hcf & Hcp & Hco).
  unfold ggtt_node_remove, bind, gets, modify, when. cbn zeta.
  unfold xe_ggtt_node_size. rewrite Hb, Had. fold (online s). cbn [fst snd].
  destruct (online s) eqn:Ho; cbn [andb].
  - destruct (xe_ggtt_clear _ _ _ s) as [[] s1]. cbn [snd] in *. rewrite Hcf in Hci, Hcp, Hco |- *.
    set (s2 := set_g_trace _ _) in *.
    pose proof (ginv_remove tile s2 n a _ Hci Hmm Hq' (fun _ => Hcp)) as Hr.
    destruct (from_option _ _ _).
    + destruct (xe_ggtt_invalidate_frame tile (set_g_mm (drm_mm_remove_node (g_mm s2) n) s2))
        as [Hf Hg].
      pose proof (xe_ggtt_invalidate_wa tile (set_g_mm (drm_mm_remove_node (g_mm s2) n) s2)
                    (gi_wa _ _ Hci)) as Hw.
      destruct (xe_ggtt_invalidate tile _) as [[] s3]. cbn [snd] in *.
      rewrite Hf, Hg in Hw |- *. unfold ggtt_node_fini, modify. cbn [snd].
      split_and!; try done.
      * eapply ginv_frame; [exact Hr|reflexivity|exact Hw|done].
      * by cbn; rewrite mm_remove_nodes.
      * intros j [Hj|]; [by apply Hco|done].
      * intros j Hj _. by apply Hcp.
    + split_and!; try done.
      * by cbn; rewrite mm_remove_nodes.
      * intros j [Hj|]; [by apply Hco|done].
      * intros j Hj _. by apply Hcp.
  - unfold ret. split_and!; try done.
    + apply (ginv_remove tile s n a _ Hi Hmm Hq'). congruence.
    + by cbn; rewrite mm_remove_nodes.
Qed.

Lemma remove_work_spec tile s n :
  ginv tile s -> live n s ->
  let s' := (ggtt_node_remove_work_func tile n s).2 in
  ginv tile s' /\ g_nodes s' = delete n (g_nodes s) /\ g_wq s' = g_wq s.
Proof.
  intros Hi Hl. unfold ggtt_node_remove_work_func, bind. cbn zeta.
  pose proof (ginv_emit tile EvPmGet s eq_refl Hi) as Hi1.
  destruct (emit EvPmGet s) as [[] s1] eqn:E1.
  assert (s1 = (emit EvPmGet s).2) as -> by by rewrite E1. clear E1.
  destruct (ggtt_node_remove_spec tile _ n Hi1 Hl) as (Hi2 & Hn & _ & _ & Hw & _).
  destruct (ggtt_node_remove tile n _) as [[] s2]. cbn [snd] in *.
  split; [|done]. by apply (ginv_emit tile EvPmPut).
Qed.

Lemma xe_ggtt_node_remove_inv tile n inval active s :
  ginv tile s -> live n s -> ginv tile (xe_ggtt_node_remove tile (Some n) inval active s).2.
Proof.
  intros Hi [Hn Hq]. unfold xe_ggtt_node_remove, bind, modify.
  set (s1 := set_g_nodes _ s).
  assert (ginv tile s1) as Hi1 by by apply ginv_alter.
  assert (live n s1) as Hl1 by (split; [by cbn; rewrite lookup_alter_is_Some|done]).
  destruct active.
  - exact (proj1 (remove_work_spec tile s1 n Hi1 Hl1)).
  - unfold queue_work, bind, modify. apply (ginv_emit tile (EvQueueWork n)); [done|].
    change (g_wq s1) with (g_wq s). destruct (g_wq s) as [q|] eqn:Eq; [|done].
    case_bool_decide as Hin; [done|].
    destruct (gi_queue _ _ Hi1 q Eq) as [Hnd Hlive]. apply (ginv_queue tile q); [done|done| |].
    + apply list.NoDup_app. split_and!; [done| |apply NoDup_singleton]. set_solver.
    + intros x [Hx| ->%list_elem_of_singleton]%elem_of_app; [by apply Hlive|apply Hl1].
Qed.

Lemma run_work_inv tile n s :
  ginv tile s -> queued n s -> ginv tile (run_work tile n s).2.
Proof.
  intros Hi Hq. unfold queued in Hq. destruct (g_wq s) as [q|] eqn:Eq; [|by apply not_elem_of_nil in Hq].
  destruct (gi_queue _ _ Hi q Eq) as [Hnd Hl].
  unfold run_work, bind, modify. rewrite Eq. cbn [option_map].
  apply remove_work_spec.
  - apply (ginv_queue tile q); [done|done|by apply list.NoDup_filter|].
    intros x [_ Hx]%list_elem_of_filter. by apply Hl.
  - split; [by apply Hl|]. unfold queued. cbn. intros [? _]%list_elem_of_filter. done.
Qed.

Lemma clear_online f : test (clear_bits f XE_GGTT_FLAGS_ONLINE) XE_GGTT_FLAGS_ONLINE = false.
Proof.
  unfold test, clear_bits. apply negb_false_iff, Z.eqb_eq. bitwise i Hi.
  by destruct (Z.testbit f i), (Z.testbit XE_GGTT_FLAGS_ONLINE i).
Qed.

Lemma drain_inv tile q s :
  ginv tile s -> g_wq s = Some [] -> NoDup q -> (forall n, n ∈ q -> is_Some (g_nodes s !! n)) ->
  let s' := (for_each q (ggtt_node_remove_work_func tile) s).2 in
  ginv tile s' /\ g_wq s' = Some [] /\
  (forall n, g_nodes s' !! n = if decide (n ∈ q) then None else g_nodes s !! n).
Proof.
  cbn zeta. revert s. induction q as [|n q IH]; intros s Hi Hw Hnd Hl; [done|].
  apply list.NoDup_cons in Hnd as [Hn Hnd].
  destruct (remove_work_spec tile s n Hi) as (Hi' & Hd & Hw').
  { split; [apply Hl; set_solver|]. unfold queued. rewrite Hw. apply not_elem_of_nil. }
  cbn [for_each]. unfold bind. destruct (ggtt_node_remove_work_func tile n s) as [[] s'].
  cbn [snd] in *. destruct (IH s') as (Hi2 & Hw2 & Hg2); [done|congruence|done| |].
  { intros x Hx. rewrite Hd, lookup_delete_ne by set_solver. apply Hl. set_solver. }
  split_and!; [done..|]. intros x. rewrite Hg2, Hd.
  destruct (decide (x = n)) as [->|Hne].
  - rewrite lookup_delete_eq. destruct (decide (n ∈ q)), (decide (n ∈ n :: q)); set_solver.
  - rewrite lookup_delete_ne by done.
    destruct (decide (x ∈ q)), (decide (x ∈ n :: q)); set_solver.
Qed.

Lemma dev_fini_inv tile s :
  ginv tile s -> ginv tile (dev_fini_ggtt (ggtt_node_remove_work_func tile) s).2.
Proof.
  intros Hi. unfold dev_fini_ggtt, bind, modify, gets.
  set (s1 := set_g_flags _ s).
  assert (ginv tile s1) as Hi1.
  { destruct Hi. split; try done. intros Ho. unfold online in Ho. cbn in Ho.
    by rewrite clear_online in Ho. }
  destruct (g_wq s1) as [q|] eqn:Eq; [|done].
  destruct (gi_queue _ _ Hi1 q Eq) as [Hnd Hl].
  apply drain_inv; [|done|done|done].
  apply (ginv_queue tile q); [done|done|by apply NoDup_nil_2|set_solver].
Qed.

(** ** Insertion *)

(** The state with a fresh node that the allocator does not know yet. *)
Definition with_node s : xe_ggtt :=
  set_g_next (g_next s + 1)
    (set_g_nodes (<[g_next s := {| invalidate_on_remove := false |}]> (g_nodes s)) s).

(** Dropping the fresh node again. *)
Lemma abandon_node tile s :
  ginv tile s -> (ggtt_node_fini (g_next s) (with_node s)).2 = set_g_next (g_next s + 1) s.
Proof.
  intros Hi. destruct (fresh_node _ _ Hi) as [Hf _]. unfold ggtt_node_fini, modify, with_node.
  cbn. rewrite delete_insert_id by done. by destruct s.
Qed.

Lemma insert_locked_spec tile s size align flags :
  ginv tile s -> page_multiple_in (2 ^ 32) size -> page_multiple_in (2 ^ 32) align ->
  match xe_ggtt_insert_node_locked (g_next s) size align flags (with_node s) with
  | (Ok _, s') =>
      ginv tile s' /\ exists mm', s' = set_g_mm mm' (with_node s) /\
        mm_inserted (g_mm s) mm' (g_next s) size align 0 (g_size s)
  | (Err _, s') => s' = with_node s
  end.
Proof.
  intros Hi [Hs Hsm] [Hal Ham]. unfold xe_ggtt_insert_node_locked, bind, gets, modify, ret.
  rewrite (wrap_small 32 size), (wrap_small 32 align) by lia.
  change (g_mm (with_node s)) with (g_mm s).
  destruct (drm_mm_insert_node_generic _ _ _ _ _) as [mm'|e] eqn:E; [|done].
  apply mm_insert_generic in E; [|apply (fresh_node _ _ Hi)|lia].
  rewrite (gi_mm _ _ Hi) in E. split; [|by exists mm'].
  eapply (ginv_insert tile s mm'); [done|done|lia|done|lia|done].
Qed.

Lemma xe_ggtt_insert_node_inv tile kz size align s :
  ginv tile s -> page_multiple_in (2 ^ 32) size -> page_multiple_in (2 ^ 32) align ->
  ginv tile (xe_ggtt_insert_node kz size align s).2.
Proof.
  intros Hi Hs Ha. unfold xe_ggtt_insert_node, ggtt_node_init, bind. destruct kz; [|done].
  unfold gets, modify, ret. cbn [negb]. cbv beta iota. fold (with_node s).
  pose proof (insert_locked_spec tile s size align DRM_MM_INSERT_HIGH Hi Hs Ha) as Hl.
  destruct (xe_ggtt_insert_node_locked _ _ _ _ _) as [[[]|e] s'].
  - apply Hl.
  - subst s'. pose proof (abandon_node tile s Hi) as E.
    destruct (ggtt_node_fini _ _) as [[] s']. cbn [snd] in *. subst s'. apply ginv_next; [lia|done].
Qed.

(** Mapping a buffer object of the size of its node. *)
Lemma map_bo_spec tile n bo pte s :
  ginv tile s -> is_Some (g_nodes s !! n) -> page_multiple_in (2 ^ 64) (bo_size bo) ->
  bo_size bo = xe_ggtt_node_size n s ->
  let s' := (xe_ggtt_map_bo tile (Some n) bo pte s).2 in
  ginv tile s' /\ gsm_frame s s' /\
  s' = write_ptes tile (pte_run (xe_ggtt_node_addr n s) (bo_ptes bo pte)) s.
Proof.
  intros Hi Hn [Hb Hbm] Hsz. cbn zeta.
  destruct (live_node _ _ _ Hi Hn) as (a & k & Hmm & Hbase & Ha & Hma & He & Had & Hm).
  pose proof (gi_space _ _ Hi) as (? & ? & ?). unfold xe_ggtt_node_size in Hsz. rewrite Hbase in Hsz.
  cbn in Hsz. unfold GUC_GGTT_TOP in *.
  rewrite xe_ggtt_map_bo_run by (rewrite ?Had; (done || lia)). rewrite Had.
  split_and!; [|apply write_ptes_frame|done].
  eapply ginv_write_node; [done|done|done|lia|].
  rewrite bo_ptes_length, Z2Nat.id by (apply Z.div_pos; unfold PAGE; lia).
  rewrite Hsz, <- Z.mul_comm. unfold PAGE. rewrite (Z.mul_comm 4096), Z.div_mul by done. lia.
Qed.

Lemma insert_transform_inv tile bo flags align kz lock s :
  ginv tile s -> page_multiple_in (2 ^ 32) (bo_size bo) -> page_multiple_in (2 ^ 32) align ->
  ginv tile (xe_ggtt_insert_node_transform tile bo flags (bo_size bo) align kz lock None s).2.
Proof.
  intros Hi Hs Ha. unfold xe_ggtt_insert_node_transform, ggtt_node_init, bind. destruct kz; [|done].
  unfold gets, modify, ret. cbn [negb]. cbv beta iota. fold (with_node s).
  pose proof (abandon_node tile s Hi) as E. destruct lock; cbn [negb].
  2: { destruct (ggtt_node_fini _ _) as [[] s']. cbn [snd] in *. subst s'.
       apply ginv_next; [lia|done]. }
  pose proof (insert_locked_spec tile s (bo_size bo) align 0 Hi Hs Ha) as Hl.
  destruct (xe_ggtt_insert_node_locked _ _ _ _ _) as [[[]|e] s'].
  - destruct Hl as (Hi' & mm' & -> & b & Hm & _).
    destruct (map_bo_spec tile (g_next s) bo flags (set_g_mm mm' (with_node s))) as (Hr & _).
    + done.
    + cbn. by rewrite lookup_insert_eq.
    + destruct Hs. split; [lia|done].
    + unfold xe_ggtt_node_size, node_base. cbn. by rewrite Hm, lookup_insert_eq.
    + by destruct (xe_ggtt_map_bo _ _ _ _ _) as [[] ?].
  - subst s'. destruct (ggtt_node_fini _ _) as [[] s']. cbn [snd] in *. subst s'.
    apply ginv_next; [lia|done].
Qed.

Lemma bo_alignment_pages bo s :
  bo_min_align bo mod PAGE = 0 -> 0 < bo_alignment bo s /\ bo_alignment bo s mod PAGE = 0.
Proof.
  intros Hm. unfold bo_alignment. destruct (bo_is_vram bo && _); [done|].
  destruct (Z.ltb_spec 0 (bo_min_align bo)); done.
Qed.

(** What a successful [__xe_ggtt_insert_bo_at] leaves: a node [n] for the buffer
    object at offset [a], whose pages translate to the object. *)
Record bo_inserted (bo_id : Z) (bo : xe_bo) (start end_ : Z) s s' : Prop := {
  bi_node : g_bo_node s' = <[bo_id := g_next s]> (g_bo_node s);
  bi_range : exists a, mm_nodes (g_mm s') = <[g_next s := (a, bo_size bo)]> (mm_nodes (g_mm s)) /\
    a mod bo_alignment bo s = 0 /\
    rebase (g_start s) start <= a /\ a + bo_size bo <= rebase (g_start s) end_ /\
    (forall i, (i < Z.to_nat (bo_size bo / PAGE))%nat ->
       g_gsm s' (Z.shiftr (g_start s + a) 12 + Z.of_nat i) =
         bo_ptes bo (bo_pte_flags bo s) !!! i) /\
    (forall j, ~ (g_start s + a <= PAGE * j < g_start s + a + bo_size bo) ->
       g_gsm s' j = g_gsm s j);
}.

(** What a failed one leaves alone. *)
Record bo_not_inserted s s' : Prop := {
  bn_mm : g_mm s' = g_mm s;
  bn_gsm : g_gsm s' = g_gsm s;
  bn_nodes : g_nodes s' = g_nodes s;
  bn_bo_node : g_bo_node s' = g_bo_node s;
}.

Lemma map_inserted tile s mm' bo bo_id lo hi :
  ginv tile s -> page_multiple_in (2 ^ 64) (bo_size bo) -> bo_min_align bo mod PAGE = 0 ->
  mm_inserted (g_mm s) mm' (g_next s) (bo_size bo) (bo_alignment bo s) lo hi ->
  let s1 := set_g_mm mm' (set_g_bo_node (<[bo_id := g_next s]> (g_bo_node s)) (with_node s)) in
  let s' := (xe_ggtt_map_bo tile (Some (g_next s)) bo (bo_pte_flags bo s1) s1).2 in
  ginv tile s' /\ gsm_frame s1 s' /\
  exists a, mm_nodes (g_mm s') = <[g_next s := (a, bo_size bo)]> (mm_nodes (g_mm s)) /\
    a mod bo_alignment bo s = 0 /\ lo <= a /\ a + bo_size bo <= hi /\
    (forall i, (i < Z.to_nat (bo_size bo / PAGE))%nat ->
       g_gsm s' (Z.shiftr (g_start s + a) 12 + Z.of_nat i) =
         bo_ptes bo (bo_pte_flags bo s) !!! i) /\
    (forall j, ~ (g_start s + a <= PAGE * j < g_start s + a + bo_size bo) ->
       g_gsm s' j = g_gsm s j).
Proof.
  intros Hi [Hb Hbm] Hal Hins s1. destruct (bo_alignment_pages bo s Hal) as [Hap Ham].
  assert (ginv tile s1) as Hi1.
  { apply (ginv_bo_node tile _ (set_g_mm mm' (with_node s))).
    eapply (ginv_insert tile s mm'); [done|done|lia|done|done|done]. }
  destruct Hins as (a & Hm & Hsz & Ha & He & Hlo & Hhi & Hamod & _).
  destruct (map_bo_spec tile (g_next s) bo (bo_pte_flags bo s1) s1) as (Hi2 & Hf & Hw); [done| |by split| |].
  { cbn. by rewrite lookup_insert_eq. }
  { unfold xe_ggtt_node_size, node_base. cbn. by rewrite Hm, lookup_insert_eq. }
  destruct (live_node tile s1 (g_next s) Hi1) as (a' & k & Hmm & _ & _ & _ & _ & Had & Hpg).
  { cbn. by rewrite lookup_insert_eq. }
  assert (a' = a) as -> by (cbn in Hmm; rewrite Hm, lookup_insert_eq in Hmm; congruence).
  change (g_start s1) with (g_start s) in *. rewrite Had in Hw. cbn zeta in *.
  split; [done|]. split; [done|]. exists a. split_and!; [|by auto|done|done| |].
  - by rewrite Hf.
  - intros i Hil. rewrite Hw. apply write_run_in. by rewrite bo_ptes_length.
  - intros j Hj. rewrite Hw. rewrite write_run_out; [done|]. apply run_pages; [done|].
    rewrite bo_ptes_length, Z2Nat.id by (apply Z.div_pos; unfold PAGE; lia).
    intros Hin. apply Hj. pose proof (Z.div_mod (bo_size bo) PAGE). unfold PAGE in *. lia.
Qed.

Lemma insert_bo_spec tile bo_id bo start end_ validate kz s :
  ginv tile s -> page_multiple_in (2 ^ 64) (bo_size bo) -> bo_min_align bo mod PAGE = 0 ->
  let r := __xe_ggtt_insert_bo_at tile bo_id bo start end_ validate kz s in
  ginv tile r.2 /\
  match r.1 with
  | Err _ => g_bo_node s !! bo_id = None /\ bo_not_inserted s r.2
  | Ok _ =>
      match g_bo_node s !! bo_id with
      | Some _ => r.2 = s
      | None => bo_inserted bo_id bo start end_ s r.2
      end
  end.
Proof.
  intros Hi Hb Hal. cbn zeta. unfold __xe_ggtt_insert_bo_at, bind, gets, modify, ret, when.
  cbv beta iota zeta.
  destruct (g_bo_node s !! bo_id) as [n|] eqn:Hslot; [done|].
  destruct validate as [[]|e]; [|done].
  pose proof (ginv_emit tile EvPmGet s eq_refl Hi) as Hi0.
  destruct (emit EvPmGet s) as [[] s0] eqn:E0.
  assert (s0 = (emit EvPmGet s).2) as -> by by rewrite E0. clear E0. cbn [snd] in *.
  set (s0 := (emit EvPmGet s).2) in *.
  unfold ggtt_node_init, bind, gets, modify, ret. destruct kz; cbn [negb].
  2: { cbn [fst snd].
       split; [|split; [done|split; cbn; rewrite ?delete_id by done; done]].
       apply (ginv_emit tile EvPmPut); [done|]. by apply ginv_bo_node. }
  cbv beta iota.
  destruct (drm_mm_insert_node_in_range _ _ _ _ _ _) as [mm'|e] eqn:E; cbv beta iota.
  - apply mm_insert_in_range in E; [|apply (fresh_node _ _ Hi0)|destruct Hb; lia].
    destruct (map_inserted tile s0 mm' bo bo_id _ _ Hi0 Hb Hal E) as (Hi2 & Hf & a & Ha).
    cbn zeta in *. unfold with_node in *.
    destruct (xe_ggtt_map_bo _ _ _ _ _) as [[] s2]. cbn [fst snd] in *.
    assert (g_bo_node s2 = <[bo_id := g_next s]> (g_bo_node s)) as Hbn by by rewrite Hf.
    destruct (test (bo_flags bo) _).
    + destruct (xe_ggtt_invalidate_frame tile s2) as [Hif Hig].
      pose proof (ginv_invalidate tile s2 Hi2) as Hi3.
      destruct (xe_ggtt_invalidate tile s2) as [[] s3]. cbn [fst snd] in *.
      split; [by apply (ginv_emit tile EvPmPut)|]. split.
      * rewrite Hif. exact Hbn.
      * exists a. rewrite Hif, Hig. exact Ha.
    + split; [by apply (ginv_emit tile EvPmPut)|]. split; [exact Hbn|]. by exists a.
  - unfold ggtt_node_fini, modify. cbn. rewrite delete_insert_id by done.
    rewrite delete_insert_id by apply (fresh_node _ _ Hi).
    split; [|split; [done|by split]].
    apply (ginv_next tile (g_next s0 + 1)) in Hi0; [|lia].
    exact (ginv_emit tile EvPmPut _ eq_refl Hi0).
Qed.

(** ** SR-IOV *)

Lemma assign_spec tile n vfid s :
  ginv tile s -> is_Some (g_nodes s !! n) ->
  let s' := (xe_ggtt_assign tile n vfid s).2 in
  ginv tile s' /\
  (forall j, (node_base n s).1 <= PAGE * j - g_start s < (node_base n s).1 + (node_base n s).2 ->
     g_gsm s' j = xe_encode_vfid_pte vfid) /\
  (forall j, ~ ((node_base n s).1 <= PAGE * j - g_start s
                < (node_base n s).1 + (node_base n s).2) -> g_gsm s' j = g_gsm s j).
Proof.
  intros Hi Hn. destruct (live_node _ _ _ Hi Hn) as (a & k & Hmm & Hb & Ha & Hma & He & Had & Hm).
  pose proof (gi_space _ _ Hi) as (? & ? & ?). unfold GUC_GGTT_TOP in *. cbn zeta.
  rewrite (xe_ggtt_assign_run tile n vfid k) by (rewrite ?Had; unfold xe_ggtt_node_size;
    rewrite ?Hb; (done || lia)).
  rewrite Had, Hb. cbn [fst snd].
  destruct (xe_ggtt_invalidate_frame tile (write_ptes tile
    (pte_run (g_start s + a) (replicate (S k) (xe_encode_vfid_pte vfid))) s)) as [_ ->].
  split_and!.
  - apply ginv_invalidate. eapply ginv_write_node; [done..|lia|]. rewrite length_replicate. lia.
  - intros j Hj. rewrite write_run_gsm, length_replicate. cbn zeta.
    pose proof (shiftr_aligned _ Hm). unfold PAGE in *. zcases.
    apply (lookup_total_replicate_2 (S k)). lia.
  - intros j Hj. apply write_run_out. rewrite length_replicate. apply run_pages; [done|lia].
Qed.

Lemma load_spec tile n src vfid s :
  ginv tile s -> is_Some (g_nodes s !! n) ->
  match xe_ggtt_node_load tile (Some n) src vfid s with
  | (Err e, s') => e = EINVAL /\ s' = s /\ xe_ggtt_node_pt_size (Some n) s <> 8 * Z.of_nat (length src)
  | (Ok _, s') =>
      ginv tile s' /\ xe_ggtt_node_size n s = PAGE * Z.of_nat (length src) /\
      (forall i, (i < length src)%nat ->
         g_gsm s' (Z.shiftr (xe_ggtt_node_addr n s) 12 + Z.of_nat i) =
           replace_vfid (src !!! i) vfid) /\
      (forall j, ~ (xe_ggtt_node_addr n s <= PAGE * j
                    < xe_ggtt_node_addr n s + xe_ggtt_node_size n s) -> g_gsm s' j = g_gsm s j)
  end.
Proof.
  intros Hi Hn. destruct (live_node _ _ _ Hi Hn) as (a & k & Hmm & Hb & Ha & Hma & He & Had & Hm).
  pose proof (gi_space _ _ Hi) as (? & ? & ?). unfold GUC_GGTT_TOP in *.
  unfold xe_ggtt_node_load, bind, gets, ret. cbn [xe_ggtt_node_pt_size].
  unfold xe_ggtt_node_size. rewrite Hb, Had. cbn [fst snd]. unfold XE_PAGE_SIZE.
  replace (PAGE * Z.of_nat (S k) / PAGE) with (Z.of_nat (S k))
    by (unfold PAGE; rewrite Z.mul_comm, Z.div_mul; done).
  destruct (Z.eqb_spec (Z.of_nat (S k) * 8) (8 * Z.of_nat (length src))) as [E|E]; cbn [negb].
  2: { done. }
  assert (length src = S k) as Hl by lia.
  cbv beta iota zeta. rewrite Hb, Had. cbn [fst snd].
  rewrite run_end, range_fuel_pages by lia.
  pose proof (load_loop_run tile vfid (S k) (g_start s + a) src s (S (S k)) Hl) as Hr.
  rewrite (surjective_pairing (load_loop _ _ _ _ _ _ s)). rewrite Hr by lia. clear Hr.
  set (s1 := write_ptes _ _ _).
  destruct (xe_ggtt_invalidate_frame tile s1) as [_ Hg].
  assert (ginv tile (xe_ggtt_invalidate tile s1).2) as Hi2.
  { apply ginv_invalidate. eapply ginv_write_node; [done..|lia|]. rewrite length_fmap. lia. }
  destruct (xe_ggtt_invalidate tile s1) as [[] s2]. cbn [snd] in *. rewrite Hg.
  split; [done|]. split; [by rewrite Hl|]. subst s1. split.
  - intros i Hil. rewrite write_run_in by by rewrite length_fmap. exact (list_lookup_total_fmap (fun w => replace_vfid w vfid) src i Hil).
  - intros j Hj. apply write_run_out. rewrite length_fmap, Hl. by apply run_pages.
Qed.

(** ** Every operation keeps the invariant *)

Lemma exec_op_inv tile op s : ginv tile s -> op_ok op s -> ginv tile (exec_op tile op s).
Proof.
  intros Hi Hok. destruct op; cbn [op_ok] in Hok; cbn [exec_op].
  - apply xe_ggtt_insert_node_inv; tauto.
  - apply insert_bo_spec; tauto.
  - apply insert_transform_inv; tauto.
  - unfold xe_ggtt_map_bo_unlocked, bind, gets.
    destruct (g_bo_node s !! bo_id) as [n|]; [|done].
    destruct Hok as (Hb & [Hn _] & Hsz). by apply map_bo_spec.
  - by apply xe_ggtt_node_remove_inv.
  - unfold xe_ggtt_remove_bo, bind, gets.
    destruct (g_bo_node s !! bo_id) as [n|]; [|done]. by apply xe_ggtt_node_remove_inv.
  - by apply run_work_inv.
  - by apply assign_spec; [|apply Hok].
  - pose proof (load_spec tile node src vfid s Hi (proj1 Hok)) as Hl.
    destruct (xe_ggtt_node_load _ _ _ _ _) as [[[]|e] s']; [apply Hl|]. by destruct Hl as (_ & -> & _).
  - by apply dev_fini_inv.
Qed.

Lemma reach_inv tile s0 s : ginv tile s0 -> ggtt_reach tile s0 s -> ginv tile s.
Proof. intros Hi Hr. induction Hr; [done|]. by apply exec_op_inv. Qed.

End GgttOps.
