(* ===== verification/GgttInit.v ===== *)
(** Initialisation of the GGTT: the range it manages, and that it establishes the
    invariant. *)
From stdpp Require Import base numbers list gmap functions.
From S2P Require Import Prelude.
From S2P Require Import GttDefs.
From S2P Require Import Pte.
From S2P Require Import Ggtt.
From S2P Require Import GgttNode.
From S2P Require Import GgttLemmas.
From S2P Require Import GgttOps.

Section GgttInit.
Context `{DrmMm, ResCursor, XeEnv}.
Context `{!DrmMmLaws, !ResCursorLaws}.
Implicit Types s : xe_ggtt.

(** What the driver relies on of the device: the WOPCM is a whole number of pages
    below 1 GiB (the smallest GGTT), a VF's range is a whole number of pages that
    does not wrap around, and the GMCH control word is a non-negative field. *)
Record tile_ok (tile : xe_tile) : Prop := {
  tk_wopcm : 0 <= tile_wopcm_size tile <= SZ_1G /\ tile_wopcm_size tile mod PAGE = 0;
  tk_vf : 0 <= tile_vf_ggtt_base tile /\ 0 <= tile_vf_ggtt_size tile /\
    tile_vf_ggtt_base tile + tile_vf_ggtt_size tile < 2 ^ 64 /\
    tile_vf_ggtt_base tile mod PAGE = 0 /\ tile_vf_ggtt_size tile mod PAGE = 0;
  tk_gmch : 0 <= BDW_GMCH_GGMS_MASK;
}.

Lemma probe_gsm_size_range gmch_ctl :
  0 <= BDW_GMCH_GGMS_MASK ->
  probe_gsm_size gmch_ctl = 0 \/
  exists k, 21 <= k < 32 /\ probe_gsm_size gmch_ctl = 2 ^ k.
Proof.
  intros Hm. unfold probe_gsm_size. cbn zeta. set (g := Z.land _ _).
  assert (0 <= g) as Hg by (apply Z.land_nonneg; lia).
  destruct (Z.eqb_spec g 0) as [|Hne]; [by left|]. cbn [negb].
  unfold SZ_1M. rewrite Z.shiftl_mul_pow2, <- Z.pow_add_r by lia.
  destruct (decide (20 + g < 32)) as [Hlt|Hge].
  - right. exists (20 + g). split; [lia|]. apply wrap_small.
    split; [lia|]. by apply Z.pow_lt_mono_r.
  - left. unfold wrap. replace (20 + g) with (20 + g - 32 + 32) by lia.
    rewrite Z.pow_add_r by lia. apply Z.mod_mul. done.
Qed.

(** The early range: inside the address space, above the WOPCM. *)
Lemma early_range_spec tile start size :
  tile_ok tile -> ggtt_early_range tile = Ok (start, size) ->
  tile_wopcm_size tile <= start < 2 ^ 64 /\ 0 <= size /\ start + size < 2 ^ 64 /\
  start mod PAGE = 0 /\ size mod PAGE = 0 /\ start <= GUC_GGTT_TOP.
Proof.
  intros [[Hw Hwm] (Hb & Hs & Hbs & Hbm & Hsm) Hg]. unfold ggtt_early_range, SZ_1G in *.
  destruct (tile_is_vf tile); cbn [negb].
  - rewrite add64_small by lia. destruct (_ || _) eqn:E; [done|]. zbool. intros [= <- <-].
    split_and!; try done; lia.
  - set (gsm := if 1250 <=? _ then SZ_8M else _).
    assert (gsm = 0 \/ exists k, 21 <= k < 32 /\ gsm = 2 ^ k) as Hgsm.
    { subst gsm. case_match; [|by apply probe_gsm_size_range]. right. by exists 23. }
    destruct (Z.eqb_spec gsm 0) as [|Hne]; [done|]. intros [= <- <-].
    destruct Hgsm as [|(k & Hk & ->)]; [done|]. unfold XE_PAGE_SIZE, PAGE in *.
    replace (2 ^ k) with (2 ^ (k - 21) * 2 ^ 18 * 8)
      by (rewrite <- (Z.mul_assoc _ (2 ^ 18)); change (2 ^ 18 * 8) with (2 ^ 21);
          rewrite <- Z.pow_add_r by lia; f_equal; lia).
    rewrite Z.div_mul by done.
    assert (1 <= 2 ^ (k - 21) < 2 ^ 11) as Hp.
    { split; [|apply Z.pow_lt_mono_r; lia].
      pose proof (Z.pow_pos_nonneg 2 (k - 21)). lia. }
    rewrite sub64_small by lia. unfold GUC_GGTT_TOP. split_and!; try lia.
    replace (2 ^ (k - 21) * 2 ^ 18 * 4096 - tile_wopcm_size tile)
      with (- tile_wopcm_size tile + 2 ^ (k - 21) * 2 ^ 18 * 4096) by lia.
    rewrite Z.mod_add by done. by apply Z.mod_opp_l_z.
Qed.

(** The size after clipping to the GuC's top address. *)
Definition clip_size (start size : Z) : Z :=
  if GUC_GGTT_TOP <? size +64 start then GUC_GGTT_TOP -64 start else size.

Lemma clip_size_spec tile start size :
  tile_ok tile -> ggtt_early_range tile = Ok (start, size) ->
  0 <= clip_size start size /\ start + clip_size start size <= GUC_GGTT_TOP /\
  clip_size start size mod PAGE = 0.
Proof.
  intros Ht Hr. destruct (early_range_spec _ _ _ Ht Hr) as (Hst & Hsz & Hs & Hm & Hsm & Htop).
  destruct Ht as [[Hw _] _ _]. unfold clip_size. rewrite add64_small by lia.
  destruct (Z.ltb_spec GUC_GGTT_TOP (size + start)); [|split_and!; [lia..|done]].
  unfold GUC_GGTT_TOP in *. rewrite sub64_small by lia. split_and!; [lia..|].
  rewrite Zminus_mod, Hm. done.
Qed.

(** [xe_ggtt_init_early] on a freshly allocated GGTT. *)
Lemma init_early_state tile gsm0 s0 rw start size :
  xe_ggtt_alloc true true gsm0 = Some s0 -> ggtt_early_range tile = Ok (start, size) ->
  exists flags, test flags XE_GGTT_FLAGS_ONLINE = true /\
  xe_ggtt_init_early tile true (Ok tt) (Ok tt) rw s0 =
    (Ok tt,
     {| g_start := start; g_size := clip_size start size; g_flags := flags; g_scratch := None;
        g_gsm := gsm0; g_pt_ops := early_pt_ops tile; g_mm := drm_mm_init (clip_size start size);
        g_access_count := 0; g_nodes := ∅; g_next := 1; g_bo_node := ∅; g_wq := Some [];
        g_trace := [] |}).
Proof.
  intros [= <-] Hr. unfold xe_ggtt_init_early. rewrite Hr. unfold clip_size, when, bind, modify, ret.
  destruct (tile_is_dgfx tile && tile_vram_need64k tile);
    [exists (0 ||| XE_GGTT_FLAGS_64K ||| XE_GGTT_FLAGS_ONLINE)|exists (0 ||| XE_GGTT_FLAGS_ONLINE)].
  all: split; reflexivity.
Qed.

(** The invariant apart from the contents of the free pages. *)
Definition ginv_pre (tile : xe_tile) s : Prop := ginv tile (set_g_flags 0 s).

Lemma ginv_pre_full tile s :
  ginv_pre tile s ->
  (forall j, g_start s <= PAGE * j < g_start s + g_size s -> ~ in_node s j ->
     g_gsm s j = scratch_pte s) -> ginv tile s.
Proof. intros [] Hs. split; try done. Qed.

Lemma scratch_pte_frame s s' : gsm_frame s s' -> scratch_pte s' = scratch_pte s.
Proof. intros ->. done. Qed.

(** Page-aligned ranges of the managed space. *)
Definition hole_ok s (h : Z * Z) : Prop :=
  0 <= h.1 /\ h.1 < h.2 /\ h.2 <= g_size s /\ h.1 mod PAGE = 0 /\ h.2 mod PAGE = 0.

Definition in_hole s (j : Z) (h : Z * Z) : Prop := h.1 <= PAGE * j - g_start s < h.2.

Lemma clear_holes tile s l :
  0 <= g_start s -> g_start s mod PAGE = 0 -> g_start s + g_size s <= GUC_GGTT_TOP ->
  Forall (hole_ok s) l -> wa_inv tile s ->
  let s' := (for_each l (clear_hole tile) s).2 in
  gsm_frame s s' /\ wa_inv tile s' /\
  (forall j, Exists (in_hole s j) l -> g_gsm s' j = scratch_pte s) /\
  (forall j, ~ Exists (in_hole s j) l -> g_gsm s' j = g_gsm s j).
Proof.
  intros H0' Hm Htop. cbn zeta. revert s H0' Hm Htop.
  induction l as [|[hs he] l IH]; intros s Hst Hm Htop Hl Hw.
  { split_and!; [done..|intros j Hj; by inversion Hj|done]. }
  inversion Hl as [|? ? (Ha & Hlt & He & Hsm & Hem) Hl']; subst. cbn in Ha, Hlt, He, Hsm, Hem.
  rewrite for_each_cons. unfold GUC_GGTT_TOP in Htop.
  destruct (page_multiple (he - hs)) as [[|k] Hk]; [lia| |unfold PAGE in Hk; lia|].
  { rewrite Zminus_mod, Hsm, Hem. done. }
  set (s1 := (clear_hole tile (hs, he) s).2).
  assert (s1 = (xe_ggtt_clear tile (g_start s + hs) (PAGE * Z.of_nat (S k)) s).2) as E1.
  { subst s1. unfold clear_hole, bind, gets. cbn [fst snd].
    by rewrite (sub64_small he hs), (add64_small (g_start s) hs), Hk by lia. }
  clearbody s1. pose proof (xe_ggtt_clear_run tile (g_start s + hs) k s ltac:(lia) ltac:(lia)) as Hr.
  rewrite <- E1 in Hr. clear E1.
  pose proof (write_ptes_frame tile (pte_run (g_start s + hs) (replicate (S k) (scratch_pte s))) s) as Hf1.
  assert ((g_start s + hs) mod PAGE = 0) as Hpg by (by rewrite Z.add_mod, Hm, Hsm by done).
  rewrite <- Hr in Hf1.
  assert (g_start s1 = g_start s /\ g_size s1 = g_size s) as [Es Ez] by by rewrite Hf1.
  destruct (IH s1) as (Hf & Hw' & Hin & Hout).
  { lia. } { by rewrite Es. } { unfold GUC_GGTT_TOP. lia. }
  { eapply list.Forall_impl; [exact Hl'|]. intros h. unfold hole_ok. by rewrite Ez. }
  { rewrite Hr. by apply write_ptes_wa. }
  assert (forall j, in_hole s1 j = in_hole s j) as Eh by (intros; unfold in_hole; by rewrite Es).
  rewrite (scratch_pte_frame _ _ Hf1) in Hin.
  split; [by etrans|]. split; [exact Hw'|].
  assert (forall j, in_hole s j (hs, he) -> g_gsm s1 j = scratch_pte s) as Hh.
  { intros j Hj. unfold in_hole in Hj. cbn in Hj. rewrite Hr, write_run_gsm, length_replicate.
    cbn zeta. pose proof (shiftr_aligned _ Hpg). unfold PAGE in *. zcases.
    apply (lookup_total_replicate_2 (S k)). lia. }
  assert (forall j, ~ in_hole s j (hs, he) -> g_gsm s1 j = g_gsm s j) as Hnh.
  { intros j Hj. rewrite Hr. apply write_run_out. rewrite length_replicate.
    apply run_pages; [done|]. unfold in_hole in Hj. cbn in Hj. lia. }
  assert (forall j, Decision (Exists (in_hole s1 j) l)) as Hdec.
  { intros j. apply list.Exists_dec. intros h. unfold in_hole. apply _. }
  split; intros j Hj.
  - destruct (Hdec j) as [Hex|Hnex]; [by apply Hin|]. rewrite Hout by done.
    apply Exists_cons in Hj as [Hj|Hj]; [by apply Hh|]. by rewrite <- Eh in Hj.
  - rewrite Exists_cons in Hj. rewrite Hout; [apply Hnh; tauto|]. rewrite Eh. tauto.
Qed.

(** Every page that no node owns is a scratch page after the initial clear. *)
Lemma initial_clear_inv tile s :
  ginv_pre tile s -> g_size s mod PAGE = 0 -> ginv tile (xe_ggtt_initial_clear tile s).2.
Proof.
  intros Hi Hsz. pose proof (gi_space _ _ Hi) as (Hst & Hsn & Htop). pose proof (gi_page _ _ Hi) as Hpg.
  cbn in Hst, Hsn, Htop, Hpg. pose proof (gi_mm _ _ Hi) as Hmm. cbn in Hmm.
  assert (forall id r, mm_nodes (g_mm s) !! id = Some r ->
    0 < r.2 /\ r.1 mod PAGE = 0 /\ r.2 mod PAGE = 0) as Hnodes.
  { intros id [a sz] Hl. pose proof (gi_node _ _ Hi id a sz Hl). cbn in *. tauto. }
  unfold xe_ggtt_initial_clear, bind at 1, gets at 1. unfold bind at 1.
  destruct (clear_holes tile s (drm_mm_holes (g_mm s))) as (Hf & Hw & Hin & Hout); [done..| |apply Hi|].
  { apply list.Forall_forall. intros [hs he] Hh. apply mm_holes_free in Hh as (? & ? & He & Hl & Hr & _).
    rewrite Hmm in He, Hr. unfold hole_ok. cbn. split_and!; try done.
    - destruct Hl as [->|(id & r & Hid & ->)]; [done|]. apply Hnodes in Hid as (_ & E1 & E2).
      by rewrite Z.add_mod, E1, E2.
    - destruct Hr as [->|(id & r & Hid & ->)]; [done|]. by apply Hnodes in Hid as (_ & E1 & _). }
  match goal with |- context [for_each ?l ?f s] => destruct (for_each l f s) as [[] s1] end.
  cbn [snd] in *. apply ginv_invalidate. apply ginv_pre_full.
  - unfold ginv_pre in *. rewrite Hf in Hw |- *. destruct Hi. by split.
  - rewrite (scratch_pte_frame _ _ Hf). intros j Hj Hn. rewrite Hf in Hj, Hn. cbn in Hj.
    apply Hin. destruct (mm_holes_cover (g_mm s) (PAGE * j - g_start s)) as [Hc|Hc].
    + intros id r Hl. apply Hnodes in Hl. tauto.
    + lia.
    + destruct Hn. destruct Hc as (id & a & sz & Hc). by exists id, a, sz.
    + destruct Hc as (hs & he & Hh & Hc). apply list.Exists_exists. by exists (hs, he).
Qed.

Lemma ginv_pre_scratch tile b s : ginv_pre tile s -> ginv_pre tile (set_g_scratch b s).
Proof. intros []. split; try done. Qed.

(** A GGTT brought up the way the driver does: allocation, early
    initialisation, then initialisation with a scratch page. *)
Definition ggtt_boot (tile : xe_tile) (gsm0 : Z -> Z) (create : Z -> res xe_bo) : option xe_ggtt :=
  s0 ← xe_ggtt_alloc true true gsm0;
  match xe_ggtt_init_early tile true (Ok tt) (Ok tt) (ggtt_node_remove_work_func tile) s0 with
  | (Ok _, s1) =>
      match xe_ggtt_init tile create (Ok tt) s1 with
      | (Ok _, s2) => Some s2
      | _ => None
      end
  | _ => None
  end.

Lemma ggtt_boot_inv tile gsm0 create s :
  tile_ok tile -> ggtt_boot tile gsm0 create = Some s -> ginv tile s.
Proof.
  intros Ht. unfold ggtt_boot. destruct (xe_ggtt_alloc true true gsm0) as [s0|] eqn:E0; [|done]. cbn.
  destruct (ggtt_early_range tile) as [[start size]|e] eqn:Er.
  2: { unfold xe_ggtt_init_early. by rewrite Er. }
  destruct (init_early_state tile gsm0 s0 (ggtt_node_remove_work_func tile) _ _ E0 Er)
    as (flags & Hon & ->).
  set (s1 := {| g_start := start |}).
  destruct (early_range_spec _ _ _ Ht Er) as (Hst & _ & _ & Hm & _ & _).
  destruct (clip_size_spec _ _ _ Ht Er) as (Hc0 & Hctop & Hcm).
  pose proof (tk_wopcm _ Ht) as [[? _] _].
  assert (ginv_pre tile s1) as Hi1.
  { split; cbn; rewrite ?mm_init_nodes; try done.
    - lia.
    - by rewrite mm_init_size.
    - intros id. by rewrite !lookup_empty.
    - intros id. rewrite lookup_empty. by intros [].
    - intros q [= <-]. split; [apply NoDup_nil_2|set_solver].
    - intros _. cbn. split_and!; [done|done|pose proof (affected_gt_max tile); lia|].
      intros tr ->%suffix_nil_inv. cbn. pose proof (affected_gt_max tile). lia. }
  unfold xe_ggtt_init, bind, gets, modify. destruct (create _) as [bo|e]; [|done].
  pose proof (initial_clear_inv tile (set_g_scratch (Some bo) s1)
    (ginv_pre_scratch _ _ _ Hi1) Hcm) as Hi2.
  destruct (xe_ggtt_initial_clear tile _) as [[] s2]. cbn [snd] in Hi2. by intros [= <-].
Qed.

End GgttInit.

(** * Concrete instances of the interfaces the GGTT uses: a first-fit range allocator, a linear cursor and an environment *)

(** * A first-fit allocator *)

Record ff_mm := { ff_size : Z; ff_nodes : gmap Z (Z * Z) }.

Definition ff_ranges (mm : ff_mm) : list (Z * Z) := (map_to_list (ff_nodes mm)).*2.

#[export] Instance disjoint_ranges_dec a b : Decision (disjoint_ranges a b).
Proof. unfold disjoint_ranges. apply _. Defined.

Definition ff_fits (mm : ff_mm) (size align lo hi a : Z) : Prop :=
  0 <= a /\ a + size <= ff_size mm /\ lo <= a /\ a + size <= hi /\
  (0 < align -> a mod align = 0) /\
  Forall (disjoint_ranges (a, size)) (ff_ranges mm).

#[export] Instance ff_fits_dec mm size align lo hi a : Decision (ff_fits mm size align lo hi a).
Proof. unfold ff_fits. apply _. Defined.

Definition round_up (align x : Z) : Z :=
  if 0 <? align then align * ((x + align - 1) / align) else x.

Definition ff_candidates (mm : ff_mm) (align lo : Z) : list Z :=
  round_up align <$> lo :: 0 :: ((fun r => r.1 + r.2) <$> ff_ranges mm).

Definition ff_insert (mm : ff_mm) (id size align lo hi : Z) : res ff_mm :=
  match filter (ff_fits mm size align lo hi) (ff_candidates mm align lo) with
  | [] => Err ENOSPC
  | a :: _ => Ok {| ff_size := ff_size mm; ff_nodes := <[id := (a, size)]> (ff_nodes mm) |}
  end.

Definition ff_remove (mm : ff_mm) (id : Z) : ff_mm :=
  {| ff_size := ff_size mm; ff_nodes := delete id (ff_nodes mm) |}.

(** The first node after [e], or the end of the space. *)
Definition ff_next (size e : Z) (rs : list (Z * Z)) : Z :=
  foldr (fun r m => if e <? r.1 then Z.min r.1 m else m) size rs.

Definition ff_hole_start (mm : ff_mm) (e : Z) : Prop :=
  0 <= e < ff_size mm /\ Forall (fun r => ~ (r.1 <= e < r.1 + r.2)) (ff_ranges mm).

#[export] Instance ff_hole_start_dec mm e : Decision (ff_hole_start mm e).
Proof. unfold ff_hole_start. apply _. Defined.

Definition ff_holes (mm : ff_mm) : list (Z * Z) :=
  (fun e => (e, ff_next (ff_size mm) e (ff_ranges mm))) <$>
    filter (ff_hole_start mm) (0 :: ((fun r => r.1 + r.2) <$> ff_ranges mm)).

#[export] Instance ff_DrmMm : DrmMm := {|
  drm_mm := ff_mm;
  mm_size := ff_size;
  mm_nodes := ff_nodes;
  drm_mm_init size := {| ff_size := size; ff_nodes := ∅ |};
  drm_mm_insert_node_generic mm id size align mode := ff_insert mm id size align 0 (ff_size mm);
  drm_mm_insert_node_in_range := ff_insert;
  drm_mm_remove_node := ff_remove;
  drm_mm_holes := ff_holes;
|}.

Lemma elem_of_ff_ranges mm r : r ∈ ff_ranges mm <-> exists id, ff_nodes mm !! id = Some r.
Proof.
  unfold ff_ranges. rewrite list_elem_of_fmap. split.
  - intros ([id r'] & -> & Hl%elem_of_map_to_list). by exists id.
  - intros [id Hl]. exists (id, r). by rewrite elem_of_map_to_list.
Qed.

Lemma ff_insert_spec mm id size align lo hi mm' :
  ff_insert mm id size align lo hi = Ok mm' -> mm_inserted mm mm' id size align lo hi.
Proof.
  unfold ff_insert. destruct (filter _ _) as [|a l] eqn:E; [done|]. intros [= <-].
  assert (a ∈ filter (ff_fits mm size align lo hi) (ff_candidates mm align lo)) as Ha
    by (rewrite E; set_solver).
  apply list_elem_of_filter in Ha as [(? & ? & ? & ? & ? & Hd) _].
  exists a. split_and!; try done. intros id' r Hl.
  rewrite list.Forall_forall in Hd. apply Hd, elem_of_ff_ranges. by exists id'.
Qed.

Lemma ff_next_spec size e rs :
  e < size ->
  e < ff_next size e rs <= size /\
  (ff_next size e rs = size \/ exists r, r ∈ rs /\ ff_next size e rs = r.1) /\
  (forall r, r ∈ rs -> e < r.1 -> ff_next size e rs <= r.1).
Proof.
  intros He. induction rs as [|r rs (Hb & Hor & Hle)]; cbn.
  { split_and!; [done|done|by left|set_solver]. }
  fold (ff_next size e rs). destruct (Z.ltb_spec e r.1) as [Hr|Hr].
  - split_and!; [lia..| |].
    + destruct (Z.min_spec r.1 (ff_next size e rs)) as [[_ ->]|[_ ->]].
      * right. exists r. set_solver.
      * destruct Hor as [|(r' & ? & ?)]; [by left|right]. exists r'. set_solver.
    + intros r' [-> |Hin]%elem_of_cons Hlt; [lia|]. specialize (Hle r' Hin Hlt). lia.
  - split_and!; [lia..| |].
    + destruct Hor as [|(r' & ? & ?)]; [by left|right]. exists r'. set_solver.
    + intros r' [-> |Hin]%elem_of_cons Hlt; [lia|]. by apply Hle.
Qed.

(** A largest element below a bound. *)
Lemma max_below (l : list Z) (a x : Z) :
  x ∈ l -> x <= a -> exists e, e ∈ l /\ e <= a /\ (forall y, y ∈ l -> y <= a -> y <= e).
Proof.
  revert x. induction l as [|z l IH]; intros x Hx Hxa; [set_solver|].
  destruct (decide (Exists (fun y => y <= a) l)) as [Hex|Hnex].
  - apply list.Exists_exists in Hex as (y & Hy & Hya). destruct (IH y Hy Hya) as (e & He & Hea & Hm).
    destruct (decide (z <= a /\ e <= z)) as [[Hz Hze]|Hz].
    + exists z. split_and!; [set_solver|done|].
      intros w [-> |Hw]%elem_of_cons Hwa; [lia|]. specialize (Hm w Hw Hwa). lia.
    + exists e. split_and!; [set_solver|done|].
      intros w [-> |Hw]%elem_of_cons Hwa; [lia|]. by apply Hm.
  - rewrite list.Exists_exists in Hnex. apply elem_of_cons in Hx as [-> |Hx]; [|naive_solver].
    exists z. split_and!; [set_solver|done|]. intros w [-> |Hw]%elem_of_cons Hwa; naive_solver.
Qed.

Lemma ff_holes_free mm hs he :
  (hs, he) ∈ ff_holes mm ->
  0 <= hs /\ hs < he /\ he <= ff_size mm /\
  (hs = 0 \/ exists id r, ff_nodes mm !! id = Some r /\ hs = r.1 + r.2) /\
  (he = ff_size mm \/ exists id r, ff_nodes mm !! id = Some r /\ he = r.1) /\
  (forall id r, ff_nodes mm !! id = Some r -> 0 < r.2 -> disjoint_ranges (hs, he - hs) r).
Proof.
  unfold ff_holes. intros (e & [= -> ->] & [[Hb Hf] Hc]%list_elem_of_filter)%list_elem_of_fmap.
  destruct (ff_next_spec (ff_size mm) e (ff_ranges mm)) as (Hn & Hor & Hle); [lia|].
  split_and!; [lia..| | |].
  - apply elem_of_cons in Hc as [-> |Hc]; [by left|right].
    apply list_elem_of_fmap in Hc as (r & -> & [id Hid]%elem_of_ff_ranges). by exists id, r.
  - destruct Hor as [|(r & [id Hid]%elem_of_ff_ranges & ?)]; [by left|right]. by exists id, r.
  - intros id r Hid Hr. rewrite list.Forall_forall in Hf.
    assert (r ∈ ff_ranges mm) as Hin by (apply elem_of_ff_ranges; by exists id).
    specialize (Hf r Hin). unfold disjoint_ranges. cbn.
    destruct (decide (e < r.1)) as [Hlt|]; [|lia]. specialize (Hle r Hin Hlt). lia.
Qed.

Lemma ff_holes_cover mm a :
  (forall id r, ff_nodes mm !! id = Some r -> 0 < r.2) -> 0 <= a < ff_size mm ->
  (exists id s size, ff_nodes mm !! id = Some (s, size) /\ s <= a < s + size) \/
  (exists hs he, (hs, he) ∈ ff_holes mm /\ hs <= a < he).
Proof.
  intros Hpos Ha.
  destruct (decide (Exists (fun r => r.1 <= a < r.1 + r.2) (ff_ranges mm))) as [Hex|Hnex].
  { left. apply list.Exists_exists in Hex as ([s z] & [id Hid]%elem_of_ff_ranges & ?).
    by exists id, s, z. }
  right. rewrite list.Exists_exists in Hnex.
  set (l := 0 :: ((fun r => r.1 + r.2) <$> ff_ranges mm)).
  destruct (max_below l a 0) as (e & He & Hea & Hmax); [set_solver|lia|].
  assert (forall r, r ∈ ff_ranges mm -> r.1 + r.2 <= a -> r.1 + r.2 <= e) as Hends.
  { intros r Hr Hle. apply Hmax; [|done]. apply elem_of_cons. right. apply list_elem_of_fmap. by exists r. }
  assert (0 <= e) as He0 by (apply Hmax; [set_solver|lia]).
  assert (forall r, r ∈ ff_ranges mm -> 0 < r.2) as Hpos'.
  { intros r [id Hid]%elem_of_ff_ranges. by eapply Hpos. }
  assert (ff_hole_start mm e) as Hs.
  { split; [lia|]. apply list.Forall_forall. intros r Hr Hin. specialize (Hends r Hr).
    apply Hnex. exists r. split; [done|]. lia. }
  exists e, (ff_next (ff_size mm) e (ff_ranges mm)). split.
  - unfold ff_holes. apply list_elem_of_fmap. exists e. split; [done|].
    by apply list_elem_of_filter.
  - destruct (ff_next_spec (ff_size mm) e (ff_ranges mm)) as (Hn & Hor & _); [lia|].
    split; [done|]. destruct Hor as [E|(r & Hr & E)]; [lia|].
    destruct (decide (a < r.1)); [lia|]. exfalso. apply Hnex. exists r. split; [done|].
    specialize (Hends r Hr). specialize (Hpos' r Hr). lia.
Qed.

#[export] Instance ff_DrmMmLaws : DrmMmLaws.
Proof.
  split; try done.
  - intros mm id size align mode mm' _ _ Hi. by apply ff_insert_spec.
  - intros mm id size align lo hi mm' _ _ Hi. by apply ff_insert_spec.
  - apply ff_holes_free.
  - apply ff_holes_cover.
Qed.

(** * A linear cursor over a buffer object *)

#[export] Instance linear_ResCursor : ResCursor := {|
  cursor := Z * Z;
  xe_res_first_sg _ off size := (off, size);
  xe_res_first _ off size := (off, size);
  xe_res_next c n := (c.1 + n, c.2 - n);
  cur_remaining := snd;
  cur_start := fst;
  xe_res_dma c := SZ_1G + c.1;
  vram_region_gpu_offset _ := 0;
|}.

#[export] Instance linear_ResCursorLaws : ResCursorLaws.
Proof. by split. Qed.

(** * An environment *)

#[export] Instance example_XeEnv : XeEnv := {|
  xe_bo_addr bo off page_size := 2 ^ 29 + off;
  xe_cache_pat_idx l := match l with XE_CACHE_WB => 3 | XE_CACHE_NONE => 1 | XE_CACHE_other _ => 0 end;
  BDW_GMCH_GGMS_SHIFT := 6;
  BDW_GMCH_GGMS_MASK := 3;
  XE_BO_FLAG_NEEDS_UC := BIT 20;
  XE_BO_FLAG_GGTT_INVALIDATE := BIT 9;
  XE_BO_FLAG_SYSTEM := BIT 1;
  XE_BO_FLAG_VRAM_IF_DGFX := BIT 2;
  DRM_MM_INSERT_HIGH := 1;
|}.

(** A buffer object of [n] pages of system memory. *)
Definition example_bo (n : Z) : xe_bo := {|
  bo_size := PAGE * n; bo_is_vram := false; bo_is_stolen := false; bo_is_stolen_devmem := false;
  bo_flags := BIT 9; bo_min_align := 0; bo_ttm_cached := true |}.

(** A VF tile with a small GGTT range whose media GT needs the flush
    workaround. *)
Definition example_tile : xe_tile := {|
  tile_primary_gt := Some {| wa_22019338487 := false |};
  tile_media_gt := Some {| wa_22019338487 := true |};
  tile_is_dgfx := false; tile_is_vf := true; tile_graphics_verx100 := 1270;
  tile_wopcm_size := SZ_1M; tile_vram_need64k := false;
  tile_vf_ggtt_base := SZ_2M; tile_vf_ggtt_size := PAGE * 8; tile_gmch_ctl := 0 |}.

Definition example_create (flags : Z) : res xe_bo := Ok (example_bo 1).
