(* ===== verification/GgttThms.v ===== *)
(** The theorems of the GGTT: what holds in every reachable state, what inserting
    and removing a buffer object does, the round trip of saving and loading a
    node, and the range chosen at initialisation. *)
From stdpp Require Import base numbers list gmap functions.
From Stdlib Require Import Btauto.
From S2P Require Import Prelude.
From S2P Require Import GttDefs.
From S2P Require Import Pte.
From S2P Require Import Ggtt.
From S2P Require Import GgttNode.
From S2P Require Import GgttLemmas.
From S2P Require Import GgttOps.
From S2P Require Import GgttInit.

(** ** VF identifiers in entries *)

Lemma testbit_vfid_mask i : 0 <= i -> Z.testbit GGTT_PTE_VFID i = (2 <=? i) && (i <=? 11).
Proof. intros. unfold GGTT_PTE_VFID. by rewrite testbit_GENMASK by lia. Qed.

Lemma testbit_replace_vfid p v i :
  0 <= i -> Z.testbit (replace_vfid p v) i =
    if (2 <=? i) && (i <=? 11) then Z.testbit v (i - 2) else Z.testbit p i.
Proof.
  intros Hi. unfold replace_vfid. rewrite Z.lor_spec, Z.ldiff_spec, Z.land_spec, Z.shiftl_spec by done.
  rewrite testbit_vfid_mask by done. destruct ((2 <=? i) && (i <=? 11)); btauto.
Qed.

Lemma testbit_get_vfid p i :
  0 <= i -> Z.testbit (get_vfid p) i = (i <=? 9) && Z.testbit p (i + 2).
Proof.
  intros Hi. unfold get_vfid. rewrite Z.shiftr_spec, Z.land_spec, testbit_vfid_mask by lia.
  zcases; btauto.
Qed.

Lemma get_replace_vfid p v : word 10 v -> get_vfid (replace_vfid p v) = v.
Proof.
  intros Hv. apply Z.bits_inj'. intros i Hi. rewrite testbit_get_vfid, testbit_replace_vfid by lia.
  zcases.
  - f_equal. lia.
  - symmetry. apply (testbit_above 10); [done|lia].
Qed.

Lemma replace_replace_vfid p v w : replace_vfid (replace_vfid p v) w = replace_vfid p w.
Proof.
  apply Z.bits_inj'. intros i Hi. rewrite !testbit_replace_vfid by done. by destruct (_ && _).
Qed.

Lemma replace_get_vfid p v : get_vfid p = v -> replace_vfid p v = p.
Proof.
  intros <-. apply Z.bits_inj'. intros i Hi. rewrite testbit_replace_vfid by done.
  destruct ((2 <=? i) && (i <=? 11)) eqn:E; [|done]. zbool.
  rewrite testbit_get_vfid by lia. replace (i - 2 + 2) with i by lia. zcases; done.
Qed.

Section GgttThms.
Context `{DrmMm, ResCursor, XeEnv}.
Context `{!DrmMmLaws, !ResCursorLaws}.
Implicit Types s : xe_ggtt.

(** ** Saving *)

Lemma save_loop_spec s vfid n start acc fuel :
  (n < fuel)%nat -> 0 <= start -> start + PAGE * Z.of_nat n < 2 ^ 64 ->
  let ptes := (fun a => g_gsm s (Z.shiftr a 12)) <$> pages start n in
  save_loop fuel start (start + PAGE * Z.of_nat n - 1) vfid acc s =
    if decide (Forall (fun p => get_vfid p = vfid) ptes)
    then Ok (acc ++ ((fun p => replace_vfid p 0) <$> ptes)) else Err EPERM.
Proof.
  cbn zeta. revert start acc fuel. induction n as [|n IH]; intros start acc fuel Hf Hst Hm.
  - destruct fuel as [|fuel]; [lia|]. rewrite Z.mul_0_r. cbn.
    destruct (Z.ltb_spec start (start + 0 - 1)); [lia|].
    destruct (decide _) as [|[]]; [by rewrite app_nil_r|by constructor].
  - destruct fuel as [|fuel]; [lia|]. cbn [save_loop]. unfold PAGE in Hm |- *.
    destruct (Z.ltb_spec start (start + 4096 * Z.of_nat (S n) - 1)); [|lia].
    rewrite pages_S, fmap_cons, fmap_cons. unfold xe_ggtt_get_pte, XE_PTE_SHIFT.
    destruct (Z.eqb_spec vfid (get_vfid (g_gsm s (Z.shiftr start 12)))) as [Ev|Ev]; cbn [negb].
    2: { destruct (decide _) as [Hall|]; [|done]. inversion Hall. congruence. }
    unfold XE_PAGE_SIZE, PAGE. rewrite add64_small by lia.
    replace (start + 4096 * Z.of_nat (S n) - 1) with (start + 4096 + PAGE * Z.of_nat n - 1)
      by (unfold PAGE; lia).
    rewrite IH by (unfold PAGE; lia). change PAGE with 4096.
    destruct (decide (Forall _ _)) as [H1'|H1'], (decide (Forall _ (_ :: _))) as [H2'|H2'].
    + by rewrite <- app_assoc.
    + destruct H2'. by constructor.
    + by inversion H2'.
    + done.
Qed.

Definition node_ptes (n : Z) s : list Z :=
  (fun a => g_gsm s (Z.shiftr a 12)) <$>
    pages (xe_ggtt_node_addr n s) (Z.to_nat (xe_ggtt_node_size n s / PAGE)).

Lemma save_spec tile n size vfid s :
  ginv tile s -> is_Some (g_nodes s !! n) ->
  xe_ggtt_node_save (Some n) size vfid s =
    if negb (xe_ggtt_node_pt_size (Some n) s =? size) then Err EINVAL
    else if decide (Forall (fun p => get_vfid p = vfid) (node_ptes n s))
    then Ok ((fun p => replace_vfid p 0) <$> node_ptes n s) else Err EPERM.
Proof.
  intros Hi Hn. destruct (live_node _ _ _ Hi Hn) as (a & k & _ & Hb & Ha & _ & He & Had & _).
  pose proof (gi_space _ _ Hi) as (? & ? & ?). unfold GUC_GGTT_TOP in *.
  unfold xe_ggtt_node_save, node_ptes. destruct (_ =? size); [|done]. cbn [negb].
  unfold xe_ggtt_node_size. rewrite Hb, Had. cbn [snd].
  rewrite run_end, range_fuel_pages by lia. rewrite (save_loop_spec s vfid (S k)) by lia.
  replace (PAGE * Z.of_nat (S k) / PAGE) with (Z.of_nat (S k))
    by (unfold PAGE; rewrite Z.mul_comm, Z.div_mul; done).
  by rewrite Nat2Z.id.
Qed.

Lemma shiftr_pages a i : Z.shiftr (a + PAGE * i) 12 = Z.shiftr a 12 + i.
Proof.
  rewrite !Z.shiftr_div_pow2 by done. change (2 ^ 12) with PAGE.
  rewrite Z.mul_comm, Z.div_add by done. done.
Qed.

Lemma node_ptes_lookup n s i :
  node_ptes n s !! i =
    if decide (i < Z.to_nat (xe_ggtt_node_size n s / PAGE))%nat
    then Some (g_gsm s (Z.shiftr (xe_ggtt_node_addr n s) 12 + Z.of_nat i)) else None.
Proof.
  unfold node_ptes, pages. rewrite <- list_fmap_compose, list_lookup_fmap. cbn.
  destruct (decide _) as [Hi|Hi].
  - rewrite lookup_seq_lt by done. cbn. by rewrite shiftr_pages.
  - by rewrite lookup_seq_ge by lia.
Qed.

Lemma load_loop_frame tile vfid fuel st e src s :
  gsm_frame s (load_loop fuel tile st e vfid src s).2.
Proof.
  revert st src s. induction fuel as [|f IH]; intros st src s; cbn; [done|].
  destruct (st <? e); [|done]. destruct src as [|w src]; [done|]. unfold bind.
  pose proof (ggtt_set_pte_frame tile st (replace_vfid w vfid) s).
  destruct (ggtt_set_pte tile st _ s) as [[] s1]. etrans; [done|apply IH].
Qed.

Lemma load_frame tile n src vfid s r s' :
  xe_ggtt_node_load tile (Some n) src vfid s = (r, s') -> gsm_frame s s'.
Proof.
  unfold xe_ggtt_node_load, bind, gets, ret. destruct (negb _); [by intros [= _ <-]|].
  match goal with |- context [load_loop ?f tile ?st ?e vfid src s] =>
    pose proof (load_loop_frame tile vfid f st e src s) as Hlf;
    destruct (load_loop f tile st e vfid src s) as [[] s1] end.
  destruct (xe_ggtt_invalidate_frame tile s1) as [Hif _].
  destruct (xe_ggtt_invalidate tile s1) as [[] s2]. intros [= _ <-]. by etrans.
Qed.

Lemma node_ptes_loaded tile n src vfid s s' :
  ginv tile s -> is_Some (g_nodes s !! n) ->
  xe_ggtt_node_load tile (Some n) src vfid s = (Ok tt, s') ->
  node_ptes n s' = (fun w => replace_vfid w vfid) <$> src.
Proof.
  intros Hi Hn Hl. pose proof (load_spec tile n src vfid s Hi Hn) as Hs. rewrite Hl in Hs.
  destruct Hs as (_ & Hsz & Hp & _).
  pose proof (load_frame _ _ _ _ _ _ _ Hl) as Hf.
  apply list_eq. intros i. rewrite node_ptes_lookup, list_lookup_fmap.
  assert (xe_ggtt_node_size n s' = xe_ggtt_node_size n s /\
          xe_ggtt_node_addr n s' = xe_ggtt_node_addr n s) as [-> ->] by by rewrite Hf.
  rewrite Hsz. replace (PAGE * Z.of_nat (length src) / PAGE) with (Z.of_nat (length src))
    by (unfold PAGE; rewrite Z.mul_comm, Z.div_mul; done).
  rewrite Nat2Z.id. destruct (decide (i < length src)%nat) as [Hi'|Hi'].
  - rewrite Hp by done. destruct (lookup_lt_is_Some_2 src i Hi') as [w Hw].
    by rewrite Hw, (list_lookup_total_correct _ _ _ Hw).
  - by rewrite lookup_ge_None_2 by lia.
Qed.

(** ** Properties *)

(** [C12] In every reachable state of an online GGTT, a page of the managed space
    that no node owns translates to the scratch page: no removal, failed insertion
    or partial operation leaves a stale translation behind. *)
Theorem ggtt_free_pages_scratch tile gsm0 create s0 s j :
  tile_ok tile -> ggtt_boot tile gsm0 create = Some s0 -> ggtt_reach tile s0 s ->
  test (g_flags s) XE_GGTT_FLAGS_ONLINE = true ->
  g_start s <= PAGE * j < g_start s + g_size s -> ~ in_node s j ->
  xe_ggtt_read_pte (PAGE * j) s = scratch_pte s.
Proof.
  intros Ht Hb Hr Ho Hj Hn. pose proof (reach_inv _ _ _ (ggtt_boot_inv _ _ _ _ Ht Hb) Hr) as Hi.
  unfold xe_ggtt_read_pte, XE_PAGE_SIZE. rewrite Z.mul_comm, Z.div_mul by done.
  by apply (gi_scratch _ _ Hi).
Qed.

(** [C11] With the flush workaround in use, at every moment of every run the number
    of table writes since the last dummy write to [GMD_ID] is at most 1100 on the
    primary GT and 63 on the media GT; and when early initialisation selects the
    workaround, the GT that receives the dummy write exists. *)
Theorem ggtt_flush_bound tile gsm0 create s0 s tr :
  tile_ok tile -> ggtt_boot tile gsm0 create = Some s0 -> ggtt_reach tile s0 s ->
  g_pt_ops s = xelpg_pt_wa_ops -> tr `suffix_of` g_trace s ->
  unflushed tr <= (if has_wa (tile_primary_gt tile) then 1100 else 63) /\
  (early_pt_ops tile = xelpg_pt_wa_ops ->
   is_Some (match (affected_gt tile).1 with
            | primary_gt => tile_primary_gt tile | media_gt => tile_media_gt tile end)).
Proof.
  intros Ht Hb Hr Ho Htr. pose proof (reach_inv _ _ _ (ggtt_boot_inv _ _ _ _ Ht Hb) Hr) as Hi.
  destruct (gi_wa _ _ Hi Ho) as (_ & _ & Hh). specialize (Hh tr Htr).
  unfold affected_gt, early_pt_ops in *. split.
  - destruct (tile_primary_gt tile) as [[[]]|]; done.
  - destruct (1270 <=? _); [|done].
    by destruct (tile_primary_gt tile) as [[[]]|], (tile_media_gt tile) as [[[]]|].
Qed.

(** Inserting a buffer object in a window [start, end): a success gives it a
    fresh node inside the rebased window, at an address aligned for it, makes
    every page of the node translate to the object's page with the entry flags of
    its cache mode, and changes no other entry; an object that already has a node
    is left as it is; a failure leaves the allocator, the nodes, the table and the
    object's slot as they were. *)
Theorem insert_bo_correct tile bo_id bo start end_ validate kz s r s' :
  ginv tile s -> page_multiple_in (2 ^ 64) (bo_size bo) -> bo_min_align bo mod PAGE = 0 ->
  xe_ggtt_insert_bo_at tile bo_id bo start end_ validate kz s = (r, s') ->
  ginv tile s' /\
  match r with
  | Err _ => g_bo_node s !! bo_id = None /\ bo_not_inserted s s'
  | Ok _ =>
      match g_bo_node s !! bo_id with
      | Some _ => s' = s
      | None => bo_inserted bo_id bo start end_ s s'
      end
  end.
Proof.
  intros Hi Hb Ha E. pose proof (insert_bo_spec tile bo_id bo start end_ validate kz s Hi Hb Ha) as Hs.
  unfold xe_ggtt_insert_bo_at in E. by rewrite E in Hs.
Qed.

(** Removing a live node while the device is awake frees it and its range; on
    an online GGTT exactly its pages become scratch pages, on an offline one no
    entry is touched. *)
Theorem node_remove_correct tile n inval s :
  ginv tile s -> live n s ->
  let s' := (xe_ggtt_node_remove tile (Some n) inval true s).2 in
  ginv tile s' /\ g_nodes s' !! n = None /\
  mm_nodes (g_mm s') = delete n (mm_nodes (g_mm s)) /\
  (forall j, g_gsm s' j =
     if online s && (xe_ggtt_node_addr n s <=? PAGE * j) &&
        (PAGE * j <? xe_ggtt_node_addr n s + xe_ggtt_node_size n s)
     then scratch_pte s else g_gsm s j).
Proof.
  intros Hi [Hn Hq]. unfold xe_ggtt_node_remove, bind, modify. cbn zeta.
  set (s1 := set_g_nodes _ s). set (s2 := (emit EvPmGet s1).2).
  assert (ginv tile s2) as Hi2 by by apply (ginv_emit tile EvPmGet), ginv_alter.
  destruct (ggtt_node_remove_spec tile s2 n Hi2) as (Hi3 & Hg & Hm & _ & _ & _ & _ & Hout & Hin).
  { split; [by cbn; rewrite lookup_alter_is_Some|done]. }
  cbn zeta in *. destruct (live_node _ _ _ Hi Hn) as (a & k & _ & Hb & _ & _ & _ & Had & _).
  unfold xe_ggtt_node_size. rewrite Had, Hb. cbn [snd].
  change (node_base n s2) with (node_base n s) in *. rewrite Hb in Hout, Hin. cbn [fst snd] in *.
  change (emit EvPmGet s1) with (tt, s2). cbv beta iota.
  destruct (ggtt_node_remove tile n s2) as [[] s3]. cbn [snd] in *.
  split_and!; [by apply (ginv_emit tile EvPmPut)| |exact Hm|].
  - change (g_nodes s3 !! n = None). by rewrite Hg, lookup_delete_eq.
  - intros j. change (g_gsm s3 j = if online s && (g_start s + a <=? PAGE * j) &&
      (PAGE * j <? g_start s + a + PAGE * Z.of_nat (S k)) then scratch_pte s else g_gsm s j).
    destruct (online s) eqn:Ho; cbn [andb]; [|apply Hout; by right].
    change (g_start s2) with (g_start s) in *.
    zcases; [apply Hin; [lia|done]|apply Hout; left; lia..].
Qed.

(** [C15] A node saved for one VF and loaded into a node of the same size for
    another, possibly on another GGTT, arrives complete: the load succeeds, every
    loaded entry is the saved entry with the new VF identifier, saving it again
    gives the same image, and entries outside the node do not change. *)
Theorem save_load_migrate tile tile2 n n2 vfid vfid2 size buf s s2 :
  ginv tile s -> is_Some (g_nodes s !! n) -> ginv tile2 s2 -> is_Some (g_nodes s2 !! n2) ->
  xe_ggtt_node_size n2 s2 = xe_ggtt_node_size n s -> word 10 vfid2 ->
  xe_ggtt_node_save (Some n) size vfid s = Ok buf ->
  exists s2', xe_ggtt_node_load tile2 (Some n2) buf vfid2 s2 = (Ok tt, s2') /\
    node_ptes n2 s2' = (fun p => replace_vfid p vfid2) <$> node_ptes n s /\
    xe_ggtt_node_save (Some n2) size vfid2 s2' = Ok buf /\
    (forall j, ~ (xe_ggtt_node_addr n2 s2 <= PAGE * j
                  < xe_ggtt_node_addr n2 s2 + xe_ggtt_node_size n2 s2) -> g_gsm s2' j = g_gsm s2 j).
Proof.
  intros Hi Hn Hi2 Hn2 Hsz Hv Hsave. rewrite (save_spec tile) in Hsave by done.
  destruct (Z.eqb_spec (xe_ggtt_node_pt_size (Some n) s) size) as [Hps|]; [|done]. cbn [negb] in Hsave.
  destruct (decide _) as [Hall|]; [|done]. injection Hsave as <-.
  pose proof (load_spec tile2 n2 ((fun p => replace_vfid p 0) <$> node_ptes n s) vfid2 s2 Hi2 Hn2) as Hl.
  pose proof (node_ptes_loaded tile2 n2 ((fun p => replace_vfid p 0) <$> node_ptes n s) vfid2 s2) as Hp.
  destruct (xe_ggtt_node_load _ _ _ _ _) as [[[]|e] s2'] eqn:Eload.
  2: { destruct Hl as (_ & _ & []). rewrite length_fmap. unfold node_ptes.
       rewrite length_fmap, pages_length. cbn [xe_ggtt_node_pt_size]. fold (xe_ggtt_node_size n2 s2).
       rewrite Hsz, Z2Nat.id; [unfold XE_PAGE_SIZE; lia|].
       destruct (live_node _ _ _ Hi Hn) as (a & k & _ & Hb & _).
       unfold xe_ggtt_node_size. rewrite Hb. apply Z.div_pos; unfold PAGE; cbn; lia. }
  exists s2'. specialize (Hp s2' Hi2 Hn2 eq_refl). rewrite <- list_fmap_compose in Hp.
  assert (node_ptes n2 s2' = (fun p => replace_vfid p vfid2) <$> node_ptes n s) as Hp'.
  { rewrite Hp. apply list_fmap_ext. intros i x _. cbn. by rewrite replace_replace_vfid. }
  destruct Hl as (Hi' & _ & _ & Hout). split; [done|]. split; [done|]. split; [|done].
  pose proof (load_frame _ _ _ _ _ _ _ Eload) as Hf.
  rewrite (save_spec tile2) by (done || by rewrite Hf). rewrite Hp'.
  replace (xe_ggtt_node_pt_size (Some n2) s2') with size.
  2: { cbn [xe_ggtt_node_pt_size]. fold (xe_ggtt_node_size n2 s2').
       replace (xe_ggtt_node_size n2 s2') with (xe_ggtt_node_size n s) by by rewrite Hf, <- Hsz.
       done. }
  rewrite Z.eqb_refl. cbn [negb]. destruct (decide _) as [_|[]].
  - f_equal. rewrite <- list_fmap_compose. apply list_fmap_ext. intros i x _. cbn.
    by rewrite replace_replace_vfid.
  - apply list.Forall_fmap, list.Forall_forall. intros x _. cbn. by apply get_replace_vfid.
Qed.

(** [xe_ggtt_init_early] on a fresh GGTT: it fails with [-ENOMEM] exactly when
    a physical function has no GSM, with [-ERANGE] exactly when a VF's range starts
    below the WOPCM or ends above [GUC_GGTT_TOP]; otherwise the GGTT is online, its
    range starts at or above the WOPCM, ends at or below [GUC_GGTT_TOP], and its
    allocator manages exactly that range. *)
Theorem init_early_range tile gsm0 s0 rw :
  tile_ok tile -> xe_ggtt_alloc true true gsm0 = Some s0 ->
  match xe_ggtt_init_early tile true (Ok tt) (Ok tt) rw s0 with
  | (Err ENOMEM, s) => s = s0 /\ tile_is_vf tile = false /\
      tile_graphics_verx100 tile < 1250 /\ probe_gsm_size (tile_gmch_ctl tile) = 0
  | (Err ERANGE, s) => s = s0 /\ tile_is_vf tile = true /\
      (tile_vf_ggtt_base tile < tile_wopcm_size tile \/
       GUC_GGTT_TOP < tile_vf_ggtt_base tile + tile_vf_ggtt_size tile)
  | (Err _, _) => False
  | (Ok _, s) =>
      tile_wopcm_size tile <= xe_ggtt_start s /\ 0 <= xe_ggtt_size s /\
      xe_ggtt_start s + xe_ggtt_size s <= GUC_GGTT_TOP /\
      mm_size (g_mm s) = xe_ggtt_size s /\ mm_nodes (g_mm s) = ∅ /\ online s = true
  end.
Proof.
  intros Ht Ha. destruct (ggtt_early_range tile) as [[start size]|e] eqn:Er.
  - destruct (init_early_state tile gsm0 s0 rw _ _ Ha Er) as (flags & Hon & ->).
    destruct (early_range_spec _ _ _ Ht Er) as (Hst & _).
    destruct (clip_size_spec _ _ _ Ht Er) as (Hc0 & Hctop & _). cbn.
    rewrite mm_init_size, mm_init_nodes. split_and!; [lia..|done|done|done].
  - unfold xe_ggtt_init_early. rewrite Er. unfold ggtt_early_range in Er. cbn.
    destruct (tile_is_vf tile); cbn [negb] in Er.
    + destruct (_ || _) eqn:E; [|done]. injection Er as <-. split; [done|]. split; [done|].
      apply orb_true_iff in E. rewrite !Z.ltb_lt in E. destruct (tk_vf _ Ht) as (? & ? & ? & _).
      rewrite add64_small in E by lia. done.
    + destruct (Z.leb_spec 1250 (tile_graphics_verx100 tile)); [done|].
      destruct (Z.eqb_spec (probe_gsm_size (tile_gmch_ctl tile)) 0); [|done]. by injection Er as <-.
Qed.

Lemma ALIGN_PAGE x : 0 <= x -> x + PAGE < 2 ^ 64 -> x mod PAGE = 0 -> ALIGN x PAGE = x.
Proof.
  unfold PAGE. intros Hx Hb Hm. unfold ALIGN. rewrite wrap_small by lia.
  change (Z.ldiff (x + (4096 - 1)) (4096 - 1)) with (ALIGN_DOWN (x + (4096 - 1)) (2 ^ 12)).
  rewrite ALIGN_DOWN_pow2 by lia. change (2 ^ 12) with 4096.
  pose proof (Z.div_mod x 4096). replace (x + (4096 - 1)) with (4095 + x / 4096 * 4096) by lia.
  rewrite Z.div_add by lia. change (4095 / 4096) with 0. lia.
Qed.

Lemma ALIGN_DOWN_PAGE x : x mod PAGE = 0 -> ALIGN_DOWN x PAGE = x.
Proof.
  unfold PAGE. intros Hm. change 4096 with (2 ^ 12) at 1. rewrite ALIGN_DOWN_pow2 by lia.
  change (2 ^ 12) with 4096. pose proof (Z.div_mod x 4096). lia.
Qed.

(** On a GGTT whose only hole is its whole managed range, [xe_ggtt_largest_hole]
    reports [size - start] and not [size]: hole offsets are relative to the start
    of the GGTT, but the code clips them to [ggtt->start] as if they were
    absolute. *)
Theorem largest_hole_clipped tile s :
  ginv tile s -> drm_mm_holes (g_mm s) = [(0, g_size s)] -> g_size s mod PAGE = 0 ->
  g_start s < g_size s ->
  xe_ggtt_largest_hole PAGE None s = (g_size s - g_start s, None).
Proof.
  intros Hi Hh Hm Hlt. pose proof (gi_space _ _ Hi) as (? & ? & ?). pose proof (gi_page _ _ Hi).
  unfold GUC_GGTT_TOP in *. unfold xe_ggtt_largest_hole. rewrite Hh. cbn [foldl].
  unfold largest_hole_step, usable_hole. cbn [fst snd].
  rewrite Z.max_r, ALIGN_PAGE, ALIGN_DOWN_PAGE by (unfold PAGE in *; (lia || done)).
  destruct (Z.leb_spec (g_size s) (g_start s)); [lia|]. cbn. rewrite sub64_small by lia.
  f_equal. lia.
Qed.

End GgttThms.

(** * Witnesses *)

#[export] Instance live_dec `{DrmMm} n (s : xe_ggtt) : Decision (live n s).
Proof. unfold live, queued. apply _. Defined.

#[export] Instance op_ok_dec `{DrmMm} op (s : xe_ggtt) : Decision (op_ok op s).
Proof.
  destruct op; cbn; unfold page_multiple_in, queued; try (destruct (g_bo_node s !! bo_id)); apply _.
Defined.

Lemma example_tile_ok : tile_ok example_tile.
Proof. split; vm_compute; intuition congruence. Qed.

(** The booted example, then a sequence of operations on it. *)
Definition example_boot : option xe_ggtt := ggtt_boot example_tile (fun _ => 7) example_create.
Definition example_s0 : xe_ggtt :=
  match example_boot with
  | Some s => s
  | None => {| g_start := 0; g_size := 0; g_flags := 0; g_scratch := None; g_gsm := fun _ => 0;
               g_pt_ops := xelp_pt_ops; g_mm := drm_mm_init 0; g_access_count := 0; g_nodes := ∅;
               g_next := 0; g_bo_node := ∅; g_wq := None; g_trace := [] |}
  end.

Lemma example_booted : ggtt_boot example_tile (fun _ => 7) example_create = Some example_s0.
Proof.
  assert (bool_decide (is_Some example_boot) = true) as Hb by (vm_compute; reflexivity).
  unfold example_s0. fold example_boot. destruct example_boot; [done|discriminate Hb].
Qed.

Definition example_ops : list ggtt_op :=
  [ OpInsertBo 5 (example_bo 2) 0 U64_MAX (Ok tt) true;
    OpInsertNode true (PAGE * 3) PAGE;
    OpInsertBo 6 (example_bo 4) 0 U64_MAX (Ok tt) true;
    OpAssign 2 9;
    OpRemoveBo 5 (example_bo 2) true;
    OpRemove 2 true false;
    OpRemoveWork 2;
    OpInsertBo 6 (example_bo 4) 0 U64_MAX (Ok tt) true ].

Definition run_ops `{DrmMm, ResCursor, XeEnv} (tile : xe_tile) (ops : list ggtt_op) (s : xe_ggtt)
    : xe_ggtt := foldl (fun s op => exec_op tile op s) s ops.

Fixpoint ops_ok `{DrmMm, ResCursor, XeEnv} (tile : xe_tile) (ops : list ggtt_op) (s : xe_ggtt)
    : bool :=
  match ops with
  | [] => true
  | op :: ops' => bool_decide (op_ok op s) && ops_ok tile ops' (exec_op tile op s)
  end.

Lemma run_ops_reach `{DrmMm, ResCursor, XeEnv} tile s0 ops s :
  ggtt_reach tile s0 s -> ops_ok tile ops s = true -> ggtt_reach tile s0 (run_ops tile ops s).
Proof.
  revert s. induction ops as [|op ops IH]; intros s Hr Hok; [done|].
  cbn in Hok. apply andb_true_iff in Hok as [Hop Hok]. apply bool_decide_eq_true in Hop.
  cbn. apply IH; [|done]. by apply reach_step.
Qed.

Definition example_s : xe_ggtt := run_ops example_tile example_ops example_s0.

Lemma example_reached : ggtt_reach example_tile example_s0 example_s.
Proof. apply run_ops_reach; [apply reach_refl|vm_compute; reflexivity]. Qed.

Lemma example_s0_inv : ginv example_tile example_s0.
Proof. exact (ggtt_boot_inv _ _ _ _ example_tile_ok example_booted). Qed.

(** Page 6 of the range is free at the end of the run, after two nodes that
    covered it were removed. *)
Lemma ggtt_free_pages_scratch_witness :
  xe_ggtt_read_pte (PAGE * (512 + 4)) example_s = scratch_pte example_s.
Proof.
  apply (ggtt_free_pages_scratch _ _ _ _ _ _ example_tile_ok example_booted example_reached).
  - vm_compute. reflexivity.
  - split; [apply Z.leb_le|apply Z.ltb_lt]; vm_compute; reflexivity.
  - intros (id & a & sz & Hl & Hin). apply elem_of_map_to_list in Hl.
    assert (map_to_list (mm_nodes (g_mm example_s)) = [(4, (0, PAGE * 4))]) as E
      by (vm_compute; reflexivity).
    rewrite E in Hl. apply list_elem_of_singleton in Hl. injection Hl as -> -> ->.
    assert (g_start example_s = SZ_2M) as Es by (vm_compute; reflexivity).
    rewrite Es in Hin. unfold PAGE, SZ_2M in Hin. lia.
Defined.

Lemma ggtt_flush_bound_witness :
  unflushed (g_trace example_s) <= 63.
Proof.
  refine (proj1 (ggtt_flush_bound _ _ _ _ _ _ example_tile_ok example_booted example_reached _ _)).
  - vm_compute. reflexivity.
  - reflexivity.
Defined.

Definition example_insert : res unit * xe_ggtt :=
  xe_ggtt_insert_bo_at example_tile 5 (example_bo 2) 0 U64_MAX (Ok tt) true example_s0.

Lemma insert_bo_correct_witness :
  example_insert.1 = Ok tt /\ bo_inserted 5 (example_bo 2) 0 U64_MAX example_s0 example_insert.2.
Proof.
  assert (example_insert.1 = Ok tt) as E by (vm_compute; reflexivity). split; [done|].
  pose proof (insert_bo_correct example_tile 5 (example_bo 2) 0 U64_MAX (Ok tt) true example_s0
    example_insert.1 example_insert.2 example_s0_inv) as [_ Hm].
  - split; [|reflexivity]. cbn. unfold PAGE. lia.
  - reflexivity.
  - by destruct example_insert eqn:E2.
  - rewrite E in Hm. assert (g_bo_node example_s0 !! 5 = None) as En by (vm_compute; reflexivity).
    by rewrite En in Hm.
Defined.

Lemma node_remove_correct_witness :
  g_nodes (xe_ggtt_node_remove example_tile (Some 4) true true example_s).2 !! 4 = None.
Proof.
  pose proof (reach_inv _ _ _ example_s0_inv example_reached) as Hi.
  assert (live 4 example_s) as Hl by (apply (bool_decide_unpack _); vm_compute; exact I).
  exact (proj1 (proj2 (node_remove_correct example_tile 4 true example_s Hi Hl))).
Defined.

(** Node 2, assigned to VF 9, saved and loaded back for VF 10. *)
Definition example_assigned : xe_ggtt :=
  run_ops example_tile (take 4 example_ops) example_s0.

Definition example_image : list Z :=
  match xe_ggtt_node_save (Some 2) 24 9 example_assigned with Ok l => l | Err _ => [] end.

Lemma save_load_migrate_witness :
  exists s', xe_ggtt_node_load example_tile (Some 2) example_image 10 example_assigned = (Ok tt, s') /\
    node_ptes 2 s' = [0x29; 0x29; 0x29].
Proof.
  assert (ginv example_tile example_assigned) as Hi.
  { apply (reach_inv _ example_s0); [apply example_s0_inv|].
    apply run_ops_reach; [apply reach_refl|vm_compute; reflexivity]. }
  assert (is_Some (g_nodes example_assigned !! 2)) as Hl
    by (apply (bool_decide_unpack _); vm_compute; exact I).
  destruct (save_load_migrate example_tile example_tile 2 2 9 10 24 example_image
    example_assigned example_assigned Hi Hl Hi Hl eq_refl) as (s' & H1 & H2 & _).
  - unfold word. lia.
  - vm_compute. reflexivity.
  - exists s'. split; [done|]. rewrite H2. vm_compute. reflexivity.
Defined.

Lemma init_early_range_witness :
  match xe_ggtt_alloc true true (fun _ => 0) with
  | Some s0 =>
      match xe_ggtt_init_early example_tile true (Ok tt) (Ok tt) (fun _ => ret tt) s0 with
      | (Ok _, s) => xe_ggtt_start s + xe_ggtt_size s <= GUC_GGTT_TOP
      | _ => False
      end
  | None => False
  end.
Proof.
  destruct (xe_ggtt_alloc true true (fun _ => 0)) as [s0|] eqn:E; [|discriminate].
  pose proof (init_early_range example_tile (fun _ => 0) s0 (fun _ => ret tt) example_tile_ok E) as Hr.
  destruct (xe_ggtt_init_early _ _ _ _ _ s0) as [[[]|e] s] eqn:Ei; [apply Hr|].
  injection E as <-. unfold xe_ggtt_init_early in Ei. discriminate Ei.
Defined.

(** A range of 1 GiB above a base of 2 MiB. *)
Definition big_tile : xe_tile := {|
  tile_primary_gt := Some {| wa_22019338487 := false |}; tile_media_gt := None;
  tile_is_dgfx := false; tile_is_vf := true; tile_graphics_verx100 := 1270;
  tile_wopcm_size := PAGE; tile_vram_need64k := false;
  tile_vf_ggtt_base := PAGE * 4; tile_vf_ggtt_size := PAGE * 16; tile_gmch_ctl := 0 |}.

Definition big_s0 : xe_ggtt :=
  match ggtt_boot big_tile (fun _ => 7) example_create with Some s => s | None => example_s0 end.

Lemma big_s0_inv : ginv big_tile big_s0.
Proof.
  assert (bool_decide (is_Some (ggtt_boot big_tile (fun _ => 7) example_create)) = true) as Hb
    by (vm_compute; reflexivity).
  unfold big_s0. destruct (ggtt_boot big_tile _ _) eqn:E; [|discriminate Hb].
  apply (ggtt_boot_inv big_tile (fun _ => 7) example_create); [|done].
  split; vm_compute; intuition congruence.
Qed.

Lemma largest_hole_clipped_witness :
  xe_ggtt_largest_hole PAGE None big_s0 = (PAGE * 12, None) /\ g_size big_s0 = PAGE * 16.
Proof.
  assert (g_size big_s0 = PAGE * 16 /\ g_start big_s0 = PAGE * 4) as [Es Est]
    by (split; vm_compute; reflexivity).
  split; [|done].
  rewrite (largest_hole_clipped big_tile big_s0 big_s0_inv).
  - by rewrite Es, Est.
  - vm_compute. reflexivity.
  - by rewrite Es.
  - by rewrite Es, Est.
Defined.
