(* ===== verification/VmFault.v ===== *)
(** The page-fault log of a VM and the property ioctl that reports it, [xe_vm.c]. *)
From stdpp Require Import base numbers list relations.
From S2P Require Import Prelude.

(** Constants and field decoders of headers outside these sources. *)
Class FaultEnv := {
  MAX_FAULTS_SAVED_PER_VM : Z;
  sizeof_xe_vm_fault : Z;
  XE_PAGEFAULT_ACCESS_TYPE_MASK : Z;
  DRM_XE_VM_GET_PROPERTY_FAULTS : Z;
  pagefault_type : Z -> Z;  (* FIELD_GET(XE_PAGEFAULT_TYPE_MASK, _) *)
  pagefault_level : Z -> Z; (* FIELD_GET(XE_PAGEFAULT_LEVEL_MASK, _) *)
  xe_device_canonicalize_addr : Z -> Z;
}.

Class FaultEnvLaws `{FaultEnv} := {
  max_faults_pos : 0 < MAX_FAULTS_SAVED_PER_VM < 2 ^ 31;
  sizeof_fault_pos : 0 < sizeof_xe_vm_fault < 2 ^ 31;
}.

(** [pf->consumer]; [pf_engine] is the engine [xe_gt_hw_engine] finds for it, with
    the answer of [xe_hw_engine_is_reserved]. *)
Record xe_pagefault := {
  pf_engine : option bool;
  pf_page_addr : Z;
  pf_access_type : Z;
  pf_fault_type_level : Z;
}.

Record xe_vm_fault_entry := {
  fe_address : Z;
  fe_address_precision : Z;
  fe_access_type : Z;
  fe_fault_type : Z;
  fe_fault_level : Z;
}.

(** The user-visible [struct xe_vm_fault]. *)
Record xe_vm_fault := {
  uf_address : Z;
  uf_address_precision : Z;
  uf_access_type : Z;
  uf_fault_type : Z;
  uf_fault_level : Z;
}.

Definition zero_fault : xe_vm_fault := {|
  uf_address := 0; uf_address_precision := 0; uf_access_type := 0; uf_fault_type := 0;
  uf_fault_level := 0 |}.

(** [vm->faults]. *)
Record vm_faults := { fl_list : list xe_vm_fault_entry; fl_len : Z }.

Record get_property_args := {
  gp_extensions : Z;
  gp_vm_id : Z;
  gp_property : Z;
  gp_size : Z;
  gp_pad : Z;
  gp_reserved : Z * Z * Z;
}.

Section VmFault.
Context `{FaultEnv}.

(** [kzalloc_ok]: the allocation of the entry succeeded. *)
Definition xe_vm_add_fault_entry_pf (pf : xe_pagefault) (kzalloc_ok : bool) (f : vm_faults)
    : vm_faults :=
  match pf_engine pf with
  | None | Some true => f
  | Some false =>
      if negb kzalloc_ok then f
      else if MAX_FAULTS_SAVED_PER_VM <=? fl_len f then f
      else
        let e := {|
          fe_address := pf_page_addr pf;
          fe_address_precision := SZ_4K;
          fe_access_type := pf_access_type pf;
          fe_fault_type := pagefault_type (pf_fault_type_level pf);
          fe_fault_level := pagefault_level (pf_fault_type_level pf) |} in
        {| fl_list := fl_list f ++ [e]; fl_len := wrap 32 (fl_len f + 1) |}
  end.

(** Every entry is unlinked and freed in turn. *)
Fixpoint clear_entries (l : list xe_vm_fault_entry) (f : vm_faults) : vm_faults :=
  match l with
  | [] => f
  | _ :: l' => clear_entries l' {| fl_list := tail (fl_list f); fl_len := fl_len f |}
  end.

Definition xe_vm_clear_fault_entries (f : vm_faults) : vm_faults :=
  {| fl_list := fl_list (clear_entries (fl_list f) f); fl_len := 0 |}.

Definition xe_to_user_access_type (access_type : Z) : Z :=
  Z.land access_type XE_PAGEFAULT_ACCESS_TYPE_MASK.
Definition xe_to_user_fault_type (fault_type : Z) : Z := fault_type.
Definition xe_to_user_fault_level (fault_level : Z) : Z := fault_level.

Definition user_fault (e : xe_vm_fault_entry) : xe_vm_fault := {|
  uf_address := xe_device_canonicalize_addr (fe_address e);
  uf_address_precision := fe_address_precision e;
  uf_access_type := xe_to_user_access_type (fe_access_type e);
  uf_fault_type := xe_to_user_fault_type (fe_fault_type e);
  uf_fault_level := xe_to_user_fault_level (fe_fault_level e) |}.

(** The loop over the list: slot [i] of the array is written until [i == count]. *)
Fixpoint fill_loop (l : list xe_vm_fault_entry) (i count : Z) (fault_list : list xe_vm_fault)
    : list xe_vm_fault :=
  match l with
  | [] => fault_list
  | entry :: l' =>
      if i =? count then fault_list
      else fill_loop l' (i + 1) count (<[Z.to_nat i := user_fault entry]> fault_list)
  end.

(** [kcalloc_ok] and [copy_ok] are the answers of the allocation and of
    [copy_to_user]; the result is the array copied to the user. *)
Definition fill_faults (size : Z) (kcalloc_ok copy_ok : bool) (f : vm_faults)
    : res (list xe_vm_fault) :=
  let entry_size := sizeof_xe_vm_fault in
  let count := size / entry_size in
  if negb kcalloc_ok then Err ENOMEM
  else
    let fault_list := fill_loop (fl_list f) 0 count (replicate (Z.to_nat count) zero_fault) in
    if copy_ok then Ok fault_list else Err EFAULT.

(** The size reported to the user, or the array copied to it. *)
Inductive property_result := ReportSize (size : Z) | ReportFaults (l : list xe_vm_fault).

Definition xe_vm_get_property_helper (args : get_property_args) (kcalloc_ok copy_ok : bool)
    (f : vm_faults) : res property_result :=
  if gp_property args =? DRM_XE_VM_GET_PROPERTY_FAULTS then
    let size := sizeof_xe_vm_fault * fl_len f in
    if gp_size args =? 0 then Ok (ReportSize size)
    else if (size <? gp_size args) || negb (gp_size args mod sizeof_xe_vm_fault =? 0)
    then Err EINVAL
    else
      match fill_faults (gp_size args) kcalloc_ok copy_ok f with
      | Ok l => Ok (ReportFaults l)
      | Err e => Err e
      end
  else Err EINVAL.

(** [lookup] is [xe_vm_lookup] of the caller's file. *)
Definition xe_vm_get_property_ioctl (args : get_property_args) (lookup : Z -> option vm_faults)
    (kcalloc_ok copy_ok : bool) : res property_result :=
  let '(r0, r1, r2) := gp_reserved args in
  if negb (r0 =? 0) || negb (r1 =? 0) || negb (r2 =? 0) || negb (gp_extensions args =? 0)
     || negb (gp_pad args =? 0)
  then Err EINVAL
  else
    match lookup (gp_vm_id args) with
    | None => Err ENOENT
    | Some f => xe_vm_get_property_helper args kcalloc_ok copy_ok f
    end.

(** * Properties *)

(** The log grows by [xe_vm_add_fault_entry_pf] and is emptied when the VM goes. *)
Inductive fault_step : vm_faults -> vm_faults -> Prop :=
  | step_add pf ok f : fault_step f (xe_vm_add_fault_entry_pf pf ok f)
  | step_clear f : fault_step f (xe_vm_clear_fault_entries f).

Definition empty_faults : vm_faults := {| fl_list := []; fl_len := 0 |}.

Definition faults_inv (f : vm_faults) : Prop :=
  fl_len f = Z.of_nat (length (fl_list f)) /\ fl_len f <= MAX_FAULTS_SAVED_PER_VM.

Context `{!FaultEnvLaws}.

Lemma clear_entries_all l f :
  length (fl_list f) = length l -> fl_list (clear_entries l f) = [].
Proof.
  revert f. induction l as [|e l IH]; intros f Hl; cbn in *; [by apply nil_length_inv|].
  apply IH. cbn. destruct (fl_list f); cbn in *; lia.
Qed.

Lemma add_fault_inv pf ok f : faults_inv f -> faults_inv (xe_vm_add_fault_entry_pf pf ok f).
Proof.
  intros [Hl Hm]. unfold xe_vm_add_fault_entry_pf. destruct (pf_engine pf) as [[]|]; [done| |done].
  destruct ok; [|done]. cbn [negb]. destruct (Z.leb_spec MAX_FAULTS_SAVED_PER_VM (fl_len f)); [done|].
  pose proof max_faults_pos. split; cbn; rewrite wrap_small by lia; [rewrite length_app; cbn|]; lia.
Qed.

Lemma fault_step_inv f f' : fault_step f f' -> faults_inv f -> faults_inv f'.
Proof.
  intros [pf ok|]; [apply add_fault_inv|]. intros _. pose proof max_faults_pos.
  unfold faults_inv, xe_vm_clear_fault_entries. cbn. rewrite clear_entries_all by done. cbn. lia.
Qed.

Lemma faults_reach_inv f : rtc fault_step empty_faults f -> faults_inv f.
Proof.
  intros Hr. assert (faults_inv empty_faults) as Hi.
  { pose proof max_faults_pos. unfold faults_inv; cbn. lia. }
  induction Hr as [|f1 f2 f3 Hs _ IH]; [done|]. by apply IH, (fault_step_inv f1).
Qed.

(** Adding only appends. *)
Inductive grows : vm_faults -> vm_faults -> Prop :=
  | grows_refl f : grows f f
  | grows_add pf ok f f' : grows f f' -> grows f (xe_vm_add_fault_entry_pf pf ok f').

Lemma grows_prefix f f' : grows f f' -> fl_list f `prefix_of` fl_list f'.
Proof.
  induction 1 as [|pf ok f f' _ IH]; [done|]. unfold xe_vm_add_fault_entry_pf.
  destruct (pf_engine pf) as [[]|], ok; cbn; try done. case_match; [done|]. cbn.
  by apply prefix_app_r.
Qed.

Lemma grows_inv f f' : grows f f' -> faults_inv f -> faults_inv f'.
Proof. induction 1; [done|]. intros. by apply add_fault_inv, IHgrows. Qed.

(** What the loop leaves in the array. *)
Lemma fill_loop_spec l i count arr :
  0 <= i -> count = i + Z.of_nat (length arr - Z.to_nat i) ->
  (Z.to_nat i <= length arr)%nat ->
  fill_loop l i count arr =
    take (Z.to_nat i) arr ++ (user_fault <$> take (length arr - Z.to_nat i) l)
      ++ drop (Z.to_nat i + length l) arr.
Proof.
  revert i arr. induction l as [|e l IH]; intros i arr Hi Hc Hlen; cbn [fill_loop].
  - rewrite take_nil, Nat.add_0_r. cbn. by rewrite take_drop.
  - destruct (Z.eqb_spec i count) as [Heq|Hne].
    + replace (length arr - Z.to_nat i)%nat with O by lia. cbn.
      rewrite take_ge by lia. by rewrite drop_ge, app_nil_r by lia.
    + assert (Z.to_nat i < length arr)%nat as Hlt by lia.
      rewrite IH by (rewrite ?length_insert; lia). rewrite length_insert.
      replace (Z.to_nat (i + 1)) with (S (Z.to_nat i)) by lia.
      replace (length arr - Z.to_nat i)%nat with (S (length arr - S (Z.to_nat i)))%nat by lia.
      cbn [take fmap list_fmap length].
      rewrite (take_S_r _ _ (user_fault e)) by (apply list_lookup_insert_eq; lia).
      rewrite take_insert_ge by lia. rewrite <- app_assoc. f_equal.
      cbn. f_equal. rewrite drop_insert_lt by lia. do 2 f_equal. lia.
Qed.

Lemma fill_faults_spec n f :
  (n <= length (fl_list f))%nat ->
  fill_faults (sizeof_xe_vm_fault * Z.of_nat n) true true f =
    Ok (user_fault <$> take n (fl_list f)).
Proof.
  intros Hn. pose proof sizeof_fault_pos. unfold fill_faults. cbn [negb].
  replace (sizeof_xe_vm_fault * Z.of_nat n / sizeof_xe_vm_fault) with (Z.of_nat n)
    by (rewrite Z.mul_comm, Z.div_mul; lia).
  rewrite Nat2Z.id, fill_loop_spec by (rewrite ?length_replicate; lia).
  rewrite length_replicate, Nat.sub_0_r. cbn [take app Z.to_nat Nat.add].
  rewrite drop_ge by (rewrite length_replicate; lia). by rewrite app_nil_r.
Qed.

(** The fault log of a VM never holds more than [MAX_FAULTS_SAVED_PER_VM]
    entries and its length field is the number of entries, in every state that
    recording faults and clearing the log can reach. *)
Theorem fault_log_bounded f :
  rtc fault_step empty_faults f ->
  fl_len f = Z.of_nat (length (fl_list f)) /\ fl_len f <= MAX_FAULTS_SAVED_PER_VM.
Proof. apply faults_reach_inv. Qed.

(** The two-call protocol of [xe_vm_get_property_ioctl]: a caller that asks for
    the size and then fetches that many bytes receives exactly the faults that
    were in the log at the first call, in order and in user form, even if faults
    were recorded in between. *)
Theorem fault_property_two_calls f f' args lookup' size :
  faults_inv f -> fl_list f <> [] -> grows f f' ->
  gp_property args = DRM_XE_VM_GET_PROPERTY_FAULTS ->
  gp_size args = 0 -> gp_extensions args = 0 -> gp_pad args = 0 -> gp_reserved args = (0, 0, 0) ->
  xe_vm_get_property_ioctl args (fun _ => Some f) true true = Ok (ReportSize size) ->
  lookup' (gp_vm_id args) = Some f' ->
  xe_vm_get_property_ioctl
    {| gp_extensions := 0; gp_vm_id := gp_vm_id args; gp_property := gp_property args;
       gp_size := size; gp_pad := 0; gp_reserved := (0, 0, 0) |} lookup' true true =
    Ok (ReportFaults (user_fault <$> fl_list f)).
Proof.
  intros Hi Hne Hg Hp Hs He Hpad Hres Hq Hl. pose proof sizeof_fault_pos.
  pose proof (grows_inv _ _ Hg Hi) as [Hl' _]. destruct Hi as [Hlen _].
  pose proof (grows_prefix _ _ Hg) as [k Hk].
  unfold xe_vm_get_property_ioctl in Hq. rewrite Hres, He, Hpad in Hq. cbn in Hq.
  unfold xe_vm_get_property_helper in Hq. rewrite Hp, Z.eqb_refl, Hs in Hq. cbn in Hq.
  injection Hq as <-. unfold xe_vm_get_property_ioctl.
  cbn [gp_size gp_property gp_reserved gp_extensions gp_pad gp_vm_id Z.eqb negb orb]. rewrite Hl.
  unfold xe_vm_get_property_helper. cbn [gp_size gp_property]. rewrite Hp, Z.eqb_refl, Hlen, Hl', Hk.
  rewrite length_app. assert (0 < length (fl_list f))%nat by (destruct (fl_list f); [done|cbn; lia]).
  destruct (Z.eqb_spec (sizeof_xe_vm_fault * Z.of_nat (length (fl_list f))) 0); [nia|].
  replace (sizeof_xe_vm_fault * Z.of_nat (length (fl_list f) + length k) <?
           sizeof_xe_vm_fault * Z.of_nat (length (fl_list f))) with false
    by (symmetry; apply Z.ltb_ge; nia).
  replace ((sizeof_xe_vm_fault * Z.of_nat (length (fl_list f))) mod sizeof_xe_vm_fault) with 0
    by (rewrite Z.mul_comm, Z.mod_mul by lia; done).
  cbn [orb negb Z.eqb].
  rewrite fill_faults_spec by (rewrite Hk, length_app; lia).
  by rewrite Hk, take_app_length.
Qed.

End VmFault.

(** * Witnesses *)

#[export] Instance example_FaultEnv : FaultEnv := {|
  MAX_FAULTS_SAVED_PER_VM := 2;
  sizeof_xe_vm_fault := 32;
  XE_PAGEFAULT_ACCESS_TYPE_MASK := 3;
  DRM_XE_VM_GET_PROPERTY_FAULTS := 0;
  pagefault_type x := Z.land (Z.shiftr x 4) 15;
  pagefault_level x := Z.land x 15;
  xe_device_canonicalize_addr a := a;
|}.

#[export] Instance example_FaultEnvLaws : FaultEnvLaws.
Proof. split; cbn; lia. Qed.

Definition example_pf (a : Z) : xe_pagefault := {|
  pf_engine := Some false; pf_page_addr := a; pf_access_type := 5; pf_fault_type_level := 0x21 |}.

(** Three faults on a log of two. *)
Definition example_log : vm_faults :=
  xe_vm_add_fault_entry_pf (example_pf 3) true
    (xe_vm_add_fault_entry_pf (example_pf 2) true
       (xe_vm_add_fault_entry_pf (example_pf 1) true empty_faults)).

Lemma fault_log_bounded_witness :
  fl_len example_log = 2 /\ fl_len example_log <= MAX_FAULTS_SAVED_PER_VM.
Proof.
  split; [reflexivity|]. apply (fault_log_bounded example_log).
  eapply rtc_l; [apply (step_add (example_pf 1) true)|].
  eapply rtc_l; [apply (step_add (example_pf 2) true)|].
  eapply rtc_l; [apply (step_add (example_pf 3) true)|]. apply rtc_refl.
Defined.

Lemma fault_property_two_calls_witness :
  let f := xe_vm_add_fault_entry_pf (example_pf 1) true empty_faults in
  let args := {| gp_extensions := 0; gp_vm_id := 1; gp_property := 0; gp_size := 0; gp_pad := 0;
                 gp_reserved := (0, 0, 0) |} in
  xe_vm_get_property_ioctl
    {| gp_extensions := 0; gp_vm_id := 1; gp_property := 0; gp_size := 32; gp_pad := 0;
       gp_reserved := (0, 0, 0) |} (fun _ => Some example_log) true true =
    Ok (ReportFaults (user_fault <$> fl_list f)).
Proof.
  intros f args. apply (fault_property_two_calls f example_log args (fun _ => Some example_log) 32);
    try reflexivity.
  - apply add_fault_inv. split; cbn; lia.
  - discriminate.
  - apply (grows_add (example_pf 3) true), (grows_add (example_pf 2) true), grows_refl.
Defined.
