(* ===== verification/VmArgs.v ===== *)
(** Validation of [DRM_IOCTL_XE_VM_BIND] arguments, [xe_vm.c]. *)
From stdpp Require Import base numbers list sets.
From S2P Require Import Prelude.

(** * Constants of the user interface

    The headers [xe_drm.h], [xe_pat.h] and [xe_bo.h] are not part of these
    sources. *)
Class BindUapi := {
  DRM_XE_MAX_SYNCS : Z;
  DRM_XE_VM_BIND_OP_MAP : Z;
  DRM_XE_VM_BIND_OP_UNMAP : Z;
  DRM_XE_VM_BIND_OP_MAP_USERPTR : Z;
  DRM_XE_VM_BIND_OP_UNMAP_ALL : Z;
  DRM_XE_VM_BIND_OP_PREFETCH : Z;
  DRM_XE_VM_BIND_FLAG_READONLY : Z;
  DRM_XE_VM_BIND_FLAG_IMMEDIATE : Z;
  DRM_XE_VM_BIND_FLAG_NULL : Z;
  DRM_XE_VM_BIND_FLAG_DUMPABLE : Z;
  DRM_XE_VM_BIND_FLAG_CHECK_PXP : Z;
  DRM_XE_VM_BIND_FLAG_CPU_ADDR_MIRROR : Z;
  DRM_XE_VM_BIND_FLAG_MADVISE_AUTORESET : Z;
  DRM_XE_VM_BIND_FLAG_DECOMPRESS : Z;
  DRM_XE_CONSULT_MEM_ADVISE_PREF_LOC : Z;
  DRM_XE_GEM_CPU_CACHING_WB : Z;
  XE_COH_NONE : Z;
  XE_COH_2WAY : Z;
  XE_BO_FLAG_NO_COMPRESSION : Z;
  XE_BO_FLAG_INTERNAL_64K : Z;
  XE_VRAM_FLAGS_NEED64K : Z;
}.

(** The operation codes are the numbers up to [PREFETCH], all different. *)
Class BindUapiLaws `{BindUapi} := {
  op_codes op : 0 <= op <= DRM_XE_VM_BIND_OP_PREFETCH ->
    op = DRM_XE_VM_BIND_OP_MAP \/ op = DRM_XE_VM_BIND_OP_UNMAP \/
    op = DRM_XE_VM_BIND_OP_MAP_USERPTR \/ op = DRM_XE_VM_BIND_OP_UNMAP_ALL \/
    op = DRM_XE_VM_BIND_OP_PREFETCH;
  op_codes_distinct :
    NoDup [DRM_XE_VM_BIND_OP_MAP; DRM_XE_VM_BIND_OP_UNMAP; DRM_XE_VM_BIND_OP_MAP_USERPTR;
           DRM_XE_VM_BIND_OP_UNMAP_ALL; DRM_XE_VM_BIND_OP_PREFETCH];
}.

(** What the checks read of the device and the kernel configuration. *)
Record xe_device := {
  pat_n_entries : Z;
  xe_pat_index_get_coh_mode : Z -> Z;
  xe_pat_index_get_comp_en : Z -> bool;
  IS_DGFX : bool;
  xe_device_is_l2_flush_optimized : bool;
  xe_device_has_flat_ccs : bool;
  GRAPHICS_VER : Z;
  mem_region_mask : Z;
  mem_region_mask_bytes : Z; (* sizeof(xe->info.mem_region_mask) *)
  vram_flags : Z;
  CONFIG_DRM_XE_GPUSVM : bool;
  CONFIG_DRM_GPUSVM : bool;
}.

Record drm_xe_vm_bind_op := {
  bop_extensions : Z;
  bop_obj : Z;
  bop_pat_index : Z;
  bop_obj_offset : Z;
  bop_range : Z;
  bop_addr : Z;
  bop_op : Z;
  bop_flags : Z;
  bop_prefetch_mem_region_instance : Z;
}.

Definition set_pat_index (p : Z) (o : drm_xe_vm_bind_op) : drm_xe_vm_bind_op := {|
  bop_extensions := bop_extensions o; bop_obj := bop_obj o; bop_pat_index := p;
  bop_obj_offset := bop_obj_offset o; bop_range := bop_range o; bop_addr := bop_addr o;
  bop_op := bop_op o; bop_flags := bop_flags o;
  bop_prefetch_mem_region_instance := bop_prefetch_mem_region_instance o |}.

(** [args]; the vector of binds in user memory is given by its contents, absent
    when [copy_from_user] faults. *)
Record drm_xe_vm_bind := {
  ba_extensions : Z;
  ba_vm_id : Z;
  ba_exec_queue_id : Z;
  ba_pad : Z;
  ba_num_binds : Z;
  ba_bind : drm_xe_vm_bind_op;
  ba_vector_of_binds : option (list drm_xe_vm_bind_op);
  ba_pad2 : Z;
  ba_num_syncs : Z;
  ba_syncs : Z;
  ba_reserved : Z * Z;
}.

Definition PAGE_OFFSET_MASK : Z := PAGE - 1. (* ~PAGE_MASK *)
Definition XE_64K_PAGE_MASK : Z := 0xffff.

Section VmArgs.
Context `{BindUapi}.

Definition SUPPORTED_FLAGS : Z :=
  DRM_XE_VM_BIND_FLAG_READONLY ||| DRM_XE_VM_BIND_FLAG_IMMEDIATE ||| DRM_XE_VM_BIND_FLAG_NULL |||
  DRM_XE_VM_BIND_FLAG_DUMPABLE ||| DRM_XE_VM_BIND_FLAG_CHECK_PXP |||
  DRM_XE_VM_BIND_FLAG_CPU_ADDR_MIRROR ||| DRM_XE_VM_BIND_FLAG_MADVISE_AUTORESET |||
  DRM_XE_VM_BIND_FLAG_DECOMPRESS.

(** [array_index_nospec]: the index when it is in bounds, else 0. *)
Definition array_index_nospec (i n : Z) : Z := if i <? n then i else 0.

Definition nz (x : Z) : bool := negb (x =? 0).

(** The long condition on operation, flags, object and region. *)
Definition op_rejected (xe : xe_device) (o : drm_xe_vm_bind_op) (pat_index coh_mode : Z)
    (comp_en : bool) : bool :=
  let range := bop_range o in
  let addr := bop_addr o in
  let op := bop_op o in
  let flags := bop_flags o in
  let obj := bop_obj o in
  let obj_offset := bop_obj_offset o in
  let prefetch_region := bop_prefetch_mem_region_instance o in
  let is_null := test flags DRM_XE_VM_BIND_FLAG_NULL in
  let is_cpu_addr_mirror := test flags DRM_XE_VM_BIND_FLAG_CPU_ADDR_MIRROR in
  let is_decompress := test flags DRM_XE_VM_BIND_FLAG_DECOMPRESS in
  (DRM_XE_VM_BIND_OP_PREFETCH <? op) ||
  nz (Z.ldiff flags SUPPORTED_FLAGS) ||
  (nz obj && (is_null || is_cpu_addr_mirror)) ||
  (nz obj_offset && (is_null || is_cpu_addr_mirror)) ||
  (negb (op =? DRM_XE_VM_BIND_OP_MAP) && (is_decompress || is_null || is_cpu_addr_mirror)) ||
  (is_decompress && xe_pat_index_get_comp_en xe pat_index) ||
  (negb (nz obj) && (op =? DRM_XE_VM_BIND_OP_MAP) && negb is_null && negb is_cpu_addr_mirror) ||
  (negb (nz obj) && (op =? DRM_XE_VM_BIND_OP_UNMAP_ALL)) ||
  (nz addr && (op =? DRM_XE_VM_BIND_OP_UNMAP_ALL)) ||
  (nz range && (op =? DRM_XE_VM_BIND_OP_UNMAP_ALL)) ||
  (nz obj && (op =? DRM_XE_VM_BIND_OP_MAP_USERPTR)) ||
  ((coh_mode =? XE_COH_NONE) && (op =? DRM_XE_VM_BIND_OP_MAP_USERPTR)) ||
  (negb (IS_DGFX xe) && (coh_mode =? XE_COH_NONE) && is_cpu_addr_mirror) ||
  (xe_device_is_l2_flush_optimized xe &&
   ((op =? DRM_XE_VM_BIND_OP_MAP_USERPTR) || is_cpu_addr_mirror) &&
   (negb (pat_index =? 19) && negb (coh_mode =? XE_COH_2WAY))) ||
  (comp_en && (op =? DRM_XE_VM_BIND_OP_MAP_USERPTR)) ||
  ((op =? DRM_XE_VM_BIND_OP_MAP_USERPTR) && negb (CONFIG_DRM_GPUSVM xe)) ||
  (nz obj && (op =? DRM_XE_VM_BIND_OP_PREFETCH)) ||
  (nz prefetch_region && negb (op =? DRM_XE_VM_BIND_OP_PREFETCH)) ||
  (negb (prefetch_region =? DRM_XE_CONSULT_MEM_ADVISE_PREF_LOC) &&
   ((mem_region_mask_bytes xe * 8 <=? prefetch_region) ||
    negb (test (BIT prefetch_region) (mem_region_mask xe)))) ||
  (nz obj && (op =? DRM_XE_VM_BIND_OP_UNMAP)) ||
  (test flags DRM_XE_VM_BIND_FLAG_MADVISE_AUTORESET &&
   (negb is_cpu_addr_mirror || negb (op =? DRM_XE_VM_BIND_OP_MAP))).

(** The alignment conditions. *)
Definition op_misaligned (o : drm_xe_vm_bind_op) : bool :=
  test (bop_obj_offset o) PAGE_OFFSET_MASK ||
  test (bop_addr o) PAGE_OFFSET_MASK ||
  test (bop_range o) PAGE_OFFSET_MASK ||
  (negb (nz (bop_range o)) && negb (bop_op o =? DRM_XE_VM_BIND_OP_UNMAP_ALL)).

(** The body of the loop over the operations; [fault_mode] is
    [xe_vm_in_fault_mode(vm)].  It returns the operation with its PAT index. *)
Definition check_bind_op (xe : xe_device) (fault_mode : bool) (o : drm_xe_vm_bind_op)
    : res drm_xe_vm_bind_op :=
  let is_cpu_addr_mirror := test (bop_flags o) DRM_XE_VM_BIND_FLAG_CPU_ADDR_MIRROR in
  let is_decompress := test (bop_flags o) DRM_XE_VM_BIND_FLAG_DECOMPRESS in
  if is_cpu_addr_mirror && (negb fault_mode || negb (CONFIG_DRM_XE_GPUSVM xe)) then Err EINVAL
  else if pat_n_entries xe <=? bop_pat_index o then Err EINVAL
  else
    let pat_index := array_index_nospec (bop_pat_index o) (pat_n_entries xe) in
    let coh_mode := xe_pat_index_get_coh_mode xe pat_index in
    let comp_en := xe_pat_index_get_comp_en xe pat_index in
    if coh_mode =? 0 then Err EINVAL
    else if XE_COH_2WAY <? coh_mode then Err EINVAL
    else if op_rejected xe o pat_index coh_mode comp_en then Err EINVAL
    else if op_misaligned o then Err EINVAL
    else if is_decompress &&
            (negb (xe_device_has_flat_ccs xe) || (GRAPHICS_VER xe <? 20) || negb (IS_DGFX xe))
    then Err EOPNOTSUPP
    else Ok (set_pat_index pat_index o).

Fixpoint check_bind_ops (xe : xe_device) (fault_mode : bool) (ops : list drm_xe_vm_bind_op)
    : res (list drm_xe_vm_bind_op) :=
  match ops with
  | [] => Ok []
  | o :: ops' =>
      match check_bind_op xe fault_mode o with
      | Err e => Err e
      | Ok o' =>
          match check_bind_ops xe fault_mode ops' with
          | Err e => Err e
          | Ok l => Ok (o' :: l)
          end
      end
  end.

(** The array of operations: the user's vector, or the single operation inside the
    arguments ([num_binds] of 0 leaves an empty array to walk). *)
Definition fetch_bind_ops (args : drm_xe_vm_bind) (kvmalloc_ok : bool)
    : res (list drm_xe_vm_bind_op) :=
  if 1 <? ba_num_binds args then
    if negb kvmalloc_ok then Err ENOBUFS
    else
      match ba_vector_of_binds args with
      | None => Err EFAULT
      | Some v => Ok (take (Z.to_nat (ba_num_binds args)) v)
      end
  else Ok (if ba_num_binds args =? 0 then [] else [ba_bind args]).

Definition vm_bind_ioctl_check_args (xe : xe_device) (fault_mode : bool) (args : drm_xe_vm_bind)
    (kvmalloc_ok : bool) : res (list drm_xe_vm_bind_op) :=
  if nz (ba_pad args) || nz (ba_pad2 args) || (nz (ba_reserved args).1 || nz (ba_reserved args).2)
  then Err EINVAL
  else if nz (ba_extensions args) then Err EINVAL
  else if DRM_XE_MAX_SYNCS <? ba_num_syncs args then Err EINVAL
  else
    match fetch_bind_ops args kvmalloc_ok with
    | Err e => Err e
    | Ok bind_ops => check_bind_ops xe fault_mode bind_ops
    end.

(** What [xe_vm_bind_ioctl_validate_bo] reads of a buffer object. *)
Record bind_bo := {
  bb_size : Z;
  bb_flags : Z;
  bb_cpu_caching : Z;
  bb_import_attach : bool;
  bb_is_protected : bool;
  bb_key_ok : bool; (* xe_pxp_bo_key_check(xe->pxp, bo) == 0 *)
}.

Definition xe_vm_bind_ioctl_validate_bo (xe : xe_device) (bo : bind_bo)
    (addr range obj_offset pat_index op bind_flags : Z) : res unit :=
  if test (bb_flags bo) XE_BO_FLAG_NO_COMPRESSION && xe_pat_index_get_comp_en xe pat_index
  then Err EINVAL
  else if (bb_size bo <? range) || (bb_size bo -64 range <? obj_offset) then Err EINVAL
  else if test (bb_flags bo) XE_BO_FLAG_INTERNAL_64K && test (vram_flags xe) XE_VRAM_FLAGS_NEED64K &&
          (test obj_offset XE_64K_PAGE_MASK || test addr XE_64K_PAGE_MASK ||
           test range XE_64K_PAGE_MASK)
  then Err EINVAL
  else
    let coh_mode := xe_pat_index_get_coh_mode xe pat_index in
    if (if nz (bb_cpu_caching bo)
        then (coh_mode =? XE_COH_NONE) && (bb_cpu_caching bo =? DRM_XE_GEM_CPU_CACHING_WB)
        else coh_mode =? XE_COH_NONE)
    then Err EINVAL
    else
      let comp_en := xe_pat_index_get_comp_en xe pat_index in
      if bb_import_attach bo && comp_en then Err EINVAL
      else if bb_import_attach bo && xe_device_is_l2_flush_optimized xe &&
              (negb (pat_index =? 19) && negb (coh_mode =? XE_COH_2WAY))
      then Err EINVAL
      else if test bind_flags DRM_XE_VM_BIND_FLAG_CHECK_PXP && bb_is_protected bo &&
              negb (op =? DRM_XE_VM_BIND_OP_UNMAP) && negb (op =? DRM_XE_VM_BIND_OP_UNMAP_ALL) &&
              negb (bb_key_ok bo)
      then Err ENOEXEC
      else Ok tt.

(** * What an accepted operation satisfies *)

Definition flag_null (o : drm_xe_vm_bind_op) : bool := test (bop_flags o) DRM_XE_VM_BIND_FLAG_NULL.
Definition flag_mirror (o : drm_xe_vm_bind_op) : bool :=
  test (bop_flags o) DRM_XE_VM_BIND_FLAG_CPU_ADDR_MIRROR.

(** The rules of the interface, by kind of operation. *)
Inductive op_kind_ok (xe : xe_device) (fault_mode : bool) (o : drm_xe_vm_bind_op) : Prop :=
  | ok_map_object : bop_op o = DRM_XE_VM_BIND_OP_MAP -> bop_obj o <> 0 -> bop_range o <> 0 ->
      flag_null o = false -> flag_mirror o = false -> op_kind_ok xe fault_mode o
  | ok_map_null : bop_op o = DRM_XE_VM_BIND_OP_MAP -> bop_obj o = 0 -> bop_obj_offset o = 0 ->
      bop_range o <> 0 -> flag_null o = true -> flag_mirror o = false -> op_kind_ok xe fault_mode o
  | ok_map_mirror : bop_op o = DRM_XE_VM_BIND_OP_MAP -> bop_obj o = 0 -> bop_obj_offset o = 0 ->
      bop_range o <> 0 -> flag_mirror o = true -> fault_mode = true ->
      CONFIG_DRM_XE_GPUSVM xe = true -> op_kind_ok xe fault_mode o
  | ok_userptr : bop_op o = DRM_XE_VM_BIND_OP_MAP_USERPTR -> bop_obj o = 0 -> bop_range o <> 0 ->
      xe_pat_index_get_coh_mode xe (bop_pat_index o) <> XE_COH_NONE ->
      xe_pat_index_get_comp_en xe (bop_pat_index o) = false -> CONFIG_DRM_GPUSVM xe = true ->
      flag_null o = false -> flag_mirror o = false -> op_kind_ok xe fault_mode o
  | ok_unmap : bop_op o = DRM_XE_VM_BIND_OP_UNMAP -> bop_obj o = 0 -> bop_range o <> 0 ->
      flag_null o = false -> flag_mirror o = false -> op_kind_ok xe fault_mode o
  | ok_unmap_all : bop_op o = DRM_XE_VM_BIND_OP_UNMAP_ALL -> bop_obj o <> 0 -> bop_addr o = 0 ->
      bop_range o = 0 -> flag_null o = false -> flag_mirror o = false -> op_kind_ok xe fault_mode o
  | ok_prefetch : bop_op o = DRM_XE_VM_BIND_OP_PREFETCH -> bop_obj o = 0 -> bop_range o <> 0 ->
      flag_null o = false -> flag_mirror o = false -> op_kind_ok xe fault_mode o.

Record bind_op_valid (xe : xe_device) (fault_mode : bool) (o : drm_xe_vm_bind_op) : Prop := {
  bv_pat : bop_pat_index o < pat_n_entries xe;
  bv_coh : xe_pat_index_get_coh_mode xe (bop_pat_index o) <> 0 /\
    xe_pat_index_get_coh_mode xe (bop_pat_index o) <= XE_COH_2WAY;
  bv_flags : Z.ldiff (bop_flags o) SUPPORTED_FLAGS = 0;
  bv_align : bop_obj_offset o mod PAGE = 0 /\ bop_addr o mod PAGE = 0 /\ bop_range o mod PAGE = 0;
  bv_region : bop_prefetch_mem_region_instance o <> 0 -> bop_op o = DRM_XE_VM_BIND_OP_PREFETCH;
  bv_region_exists :
    bop_prefetch_mem_region_instance o = DRM_XE_CONSULT_MEM_ADVISE_PREF_LOC \/
    (bop_prefetch_mem_region_instance o < mem_region_mask_bytes xe * 8 /\
     (0 <= bop_prefetch_mem_region_instance o ->
      Z.testbit (mem_region_mask xe) (bop_prefetch_mem_region_instance o) = true));
  bv_kind : op_kind_ok xe fault_mode o;
}.

Lemma test_page_mask x : test x PAGE_OFFSET_MASK = false -> x mod PAGE = 0.
Proof.
  unfold test, PAGE_OFFSET_MASK. rewrite negb_false_iff, Z.eqb_eq.
  change (PAGE - 1) with (2 ^ 12 - 1). by rewrite land_ones_low.
Qed.

Lemma test_comm a b : test a b = test b a.
Proof. unfold test. by rewrite Z.land_comm. Qed.

Context `{!BindUapiLaws}.

(** Rewrite a comparison of the operation code with a known code. *)
Lemma op_eqb_cases op :
  0 <= op <= DRM_XE_VM_BIND_OP_PREFETCH ->
  forall P : Prop,
  (op = DRM_XE_VM_BIND_OP_MAP -> (op =? DRM_XE_VM_BIND_OP_MAP) = true ->
   (op =? DRM_XE_VM_BIND_OP_UNMAP_ALL) = false -> P) ->
  (op = DRM_XE_VM_BIND_OP_UNMAP -> (op =? DRM_XE_VM_BIND_OP_MAP) = false ->
   (op =? DRM_XE_VM_BIND_OP_UNMAP) = true -> (op =? DRM_XE_VM_BIND_OP_UNMAP_ALL) = false -> P) ->
  (op = DRM_XE_VM_BIND_OP_MAP_USERPTR -> (op =? DRM_XE_VM_BIND_OP_MAP) = false ->
   (op =? DRM_XE_VM_BIND_OP_MAP_USERPTR) = true ->
   (op =? DRM_XE_VM_BIND_OP_UNMAP_ALL) = false -> P) ->
  (op = DRM_XE_VM_BIND_OP_UNMAP_ALL -> (op =? DRM_XE_VM_BIND_OP_MAP) = false ->
   (op =? DRM_XE_VM_BIND_OP_UNMAP_ALL) = true -> P) ->
  (op = DRM_XE_VM_BIND_OP_PREFETCH -> (op =? DRM_XE_VM_BIND_OP_MAP) = false ->
   (op =? DRM_XE_VM_BIND_OP_PREFETCH) = true -> (op =? DRM_XE_VM_BIND_OP_UNMAP_ALL) = false -> P) ->
  P.
Proof.
  intros Hop P HM HU HP HA HF. pose proof op_codes_distinct as Hd.
  repeat (apply list.NoDup_cons in Hd as [? Hd]).
  destruct (op_codes op Hop) as [E|[E|[E|[E|E]]]];
    [apply HM|apply HU|apply HP|apply HA|apply HF]; subst; try apply Z.eqb_refl; try done.
  all: apply Z.eqb_neq; set_solver.
Qed.

(** Split the rejected conditions into facts. *)
Ltac split_rejections :=
  repeat match goal with
  | H : (_ || _)%bool = false |- _ => apply orb_false_iff in H as [? ?]
  end.

(** Use what is known of the operation code and decide the other conditions. *)
Ltac decide_kind :=
  repeat match goal with
  | Hx : (bop_op _ =? _) = _ |- _ => rewrite Hx in *; clear Hx end;
  rewrite ?andb_true_r, ?andb_false_r in *; cbn [negb andb orb] in *; unfold nz in *;
  match goal with o : drm_xe_vm_bind_op |- _ =>
    destruct (flag_null o) eqn:?, (flag_mirror o) eqn:?,
      (Z.eqb_spec (bop_obj o) 0), (Z.eqb_spec (bop_obj_offset o) 0),
      (Z.eqb_spec (bop_range o) 0), (Z.eqb_spec (bop_addr o) 0) end;
  cbn [negb andb orb] in *; try discriminate.

Lemma check_bind_op_valid xe fm o o' :
  0 <= bop_op o -> check_bind_op xe fm o = Ok o' -> o' = o /\ bind_op_valid xe fm o.
Proof.
  intros Hop. unfold check_bind_op. cbn zeta.
  destruct (test (bop_flags o) DRM_XE_VM_BIND_FLAG_CPU_ADDR_MIRROR && _) eqn:Emir; [done|].
  destruct (Z.leb_spec (pat_n_entries xe) (bop_pat_index o)) as [|Hpat]; [done|].
  unfold array_index_nospec. destruct (Z.ltb_spec (bop_pat_index o) (pat_n_entries xe)); [|lia].
  destruct (Z.eqb_spec (xe_pat_index_get_coh_mode xe (bop_pat_index o)) 0) as [|Hc0]; [done|].
  destruct (Z.ltb_spec XE_COH_2WAY (xe_pat_index_get_coh_mode xe (bop_pat_index o))) as [|Hc2]; [done|].
  destruct (op_rejected _ _ _ _ _) eqn:Er; [done|].
  destruct (op_misaligned o) eqn:Em; [done|]. destruct (test _ DRM_XE_VM_BIND_FLAG_DECOMPRESS && _) eqn:Ed; [done|].
  intros Hx. injection Hx as Hx. subst o'. split; [by destruct o|]. unfold op_rejected in Er. unfold op_misaligned in Em.
  cbn zeta in *. fold (flag_null o) (flag_mirror o) in *. split_rejections.
  match goal with Hx : (DRM_XE_VM_BIND_OP_PREFETCH <? bop_op o) = false |- _ =>
    apply Z.ltb_ge in Hx; rename Hx into Hle end.
  split; [done|done|unfold nz in *; zbool; done|by auto using test_page_mask| | |].
  - intros Hr. unfold nz in *. destruct (Z.eqb_spec (bop_op o) DRM_XE_VM_BIND_OP_PREFETCH); [done|].
    destruct (Z.eqb_spec (bop_prefetch_mem_region_instance o) 0); done.
  - destruct (Z.eqb_spec (bop_prefetch_mem_region_instance o) DRM_XE_CONSULT_MEM_ADVISE_PREF_LOC)
      as [->|]; [by left|right]. cbn [negb andb] in *. split_rejections. zbool.
    split; [done|]. intros Hn. by rewrite <- test_BIT, test_comm.
  - apply (op_eqb_cases (bop_op o)); [lia|..]; intros Hk; intros.
    all: decide_kind.
    all: zbool; first [solve [constructor 1; done] | solve [constructor 2; done]
      | solve [constructor 3; done] | solve [constructor 4; done] | solve [constructor 5; done]
      | solve [constructor 6; done] | solve [constructor 7; done]].
Qed.

Lemma check_bind_ops_valid xe fm ops l :
  Forall (fun o => 0 <= bop_op o) ops -> check_bind_ops xe fm ops = Ok l ->
  l = ops /\ Forall (bind_op_valid xe fm) ops.
Proof.
  intros Hops. revert l. induction Hops as [|o ops Ho _ IH]; intros l; cbn; [by intros [= <-]|].
  destruct (check_bind_op xe fm o) as [o'|] eqn:E; [|done].
  destruct (check_bind_ops xe fm ops) as [l'|] eqn:El; [|done]. intros [= <-].
  destruct (check_bind_op_valid _ _ _ _ Ho E) as [-> ?]. destruct (IH l' eq_refl) as [-> ?].
  split; [done|]. by constructor.
Qed.

(** The errors of the checks on one operation and on all of them. *)
Lemma check_bind_op_err xe fm o e :
  check_bind_op xe fm o = Err e ->
  e = EINVAL \/ (e = EOPNOTSUPP /\ test (bop_flags o) DRM_XE_VM_BIND_FLAG_DECOMPRESS = true).
Proof.
  unfold check_bind_op. cbn zeta. repeat (case_match; [intros [= <-]; by left|]).
  destruct (test _ DRM_XE_VM_BIND_FLAG_DECOMPRESS); cbn; [|done].
  case_match; [|done]. intros [= <-]. by right.
Qed.

(** A [VM_BIND] request that passes [vm_bind_ioctl_check_args] has clean padding
    and reserved fields, no more syncs than allowed, and every one of its
    operations, returned unchanged, obeys the rules of its kind: page-aligned
    address, range and offset; a range unless it unmaps a whole object; an object
    exactly where the kind wants one; the NULL, mirror and prefetch-region options
    only where they mean something; a PAT index and memory region that exist. *)
Theorem check_args_sound xe fm args kvmalloc_ok ops :
  Forall (fun o => 0 <= bop_op o) (ba_bind args :: default [] (ba_vector_of_binds args)) ->
  vm_bind_ioctl_check_args xe fm args kvmalloc_ok = Ok ops ->
  fetch_bind_ops args kvmalloc_ok = Ok ops /\ Forall (bind_op_valid xe fm) ops /\
  ba_pad args = 0 /\ ba_pad2 args = 0 /\ ba_reserved args = (0, 0) /\ ba_extensions args = 0 /\
  ba_num_syncs args <= DRM_XE_MAX_SYNCS.
Proof.
  intros Hops. unfold vm_bind_ioctl_check_args. unfold nz at 1 2 3 4.
  destruct (_ || _) eqn:Eh; [done|]. unfold nz. destruct (negb (ba_extensions args =? 0)) eqn:Ee; [done|].
  destruct (Z.ltb_spec DRM_XE_MAX_SYNCS (ba_num_syncs args)); [done|].
  destruct (fetch_bind_ops args kvmalloc_ok) as [l|] eqn:Ef; [|done]. intros Hc.
  assert (Forall (fun o => 0 <= bop_op o) l) as Hl.
  { apply list.Forall_cons in Hops as [Hb Hv]. revert Ef. unfold fetch_bind_ops.
    destruct (1 <? _).
    - destruct kvmalloc_ok; cbn; [|done]. destruct (ba_vector_of_binds args); [|done].
      intros [= <-]. by apply Forall_take.
    - intros [= <-]. destruct (ba_num_binds args =? 0); [constructor|]. apply list.Forall_singleton. done. }
  destruct (check_bind_ops_valid _ _ _ _ Hl Hc) as [-> Hv]. zbool.
  destruct (ba_reserved args) as [r0 r1]. cbn in *. split_and!; try done. by subst.
Qed.

(** A buffer object accepted for a mapping contains the whole mapped range,
    without wrap-around; on platforms that need it, address, range and offset are
    64 KiB aligned; an object cached write-back on the CPU, or imported, is not
    mapped incoherently; compression is enabled neither for an imported object nor
    for one that forbids it; and a protected object whose key check was asked for
    has a valid key. *)
Theorem validate_bo_sound xe bo addr range obj_offset pat_index op bind_flags :
  word 64 (bb_size bo) -> word 64 range -> word 64 obj_offset ->
  xe_vm_bind_ioctl_validate_bo xe bo addr range obj_offset pat_index op bind_flags = Ok tt ->
  obj_offset + range <= bb_size bo /\
  (test (bb_flags bo) XE_BO_FLAG_INTERNAL_64K = true ->
   test (vram_flags xe) XE_VRAM_FLAGS_NEED64K = true ->
   obj_offset mod SZ_64K = 0 /\ addr mod SZ_64K = 0 /\ range mod SZ_64K = 0) /\
  (xe_pat_index_get_coh_mode xe pat_index = XE_COH_NONE ->
   bb_cpu_caching bo <> 0 /\ bb_cpu_caching bo <> DRM_XE_GEM_CPU_CACHING_WB) /\
  (xe_pat_index_get_comp_en xe pat_index = true ->
   bb_import_attach bo = false /\ test (bb_flags bo) XE_BO_FLAG_NO_COMPRESSION = false) /\
  (test bind_flags DRM_XE_VM_BIND_FLAG_CHECK_PXP = true -> bb_is_protected bo = true ->
   op <> DRM_XE_VM_BIND_OP_UNMAP -> op <> DRM_XE_VM_BIND_OP_UNMAP_ALL -> bb_key_ok bo = true).
Proof.
  intros Hs Hr Ho. unfold xe_vm_bind_ioctl_validate_bo, word in *.
  destruct (test _ XE_BO_FLAG_NO_COMPRESSION && _) eqn:Ec; [done|].
  destruct (_ || _) eqn:Eb; [done|].
  destruct (test _ XE_BO_FLAG_INTERNAL_64K && _ && _) eqn:E64; [done|]. cbn zeta.
  destruct (if nz (bb_cpu_caching bo) then _ else _) eqn:Ecoh; [done|].
  destruct (bb_import_attach bo && _) eqn:Ei; [done|].
  destruct (bb_import_attach bo && _ && _) eqn:Ei2; [done|].
  destruct (test bind_flags _ && _ && _ && _ && _) eqn:Ek; [done|]. intros _. zbool.
  rewrite sub64_small in * by lia. split_and!.
  - lia.
  - intros Ha Hb. rewrite Ha, Hb in E64. cbn [andb] in E64. zbool.
    assert (forall x, test x XE_64K_PAGE_MASK = false -> x mod SZ_64K = 0) as Hal.
    { intros x. unfold test, XE_64K_PAGE_MASK. rewrite negb_false_iff, Z.eqb_eq.
      change 0xffff with (2 ^ 16 - 1). by rewrite land_ones_low. }
    auto.
  - intros Hn. rewrite Hn, Z.eqb_refl in Ecoh. unfold nz in Ecoh.
    destruct (Z.eqb_spec (bb_cpu_caching bo) 0); cbn in Ecoh; [done|]. zbool. done.
  - intros Hce. rewrite Hce in *. split.
    + by destruct (bb_import_attach bo).
    + by destruct (test (bb_flags bo) XE_BO_FLAG_NO_COMPRESSION).
  - intros Ht Hp Hu Hua. rewrite Ht, Hp in Ek. apply Z.eqb_neq in Hu, Hua. rewrite Hu, Hua in Ek.
    cbn in Ek. by destruct (bb_key_ok bo).
Qed.

End VmArgs.

(** * Witnesses *)

#[export] Instance example_BindUapi : BindUapi := {|
  DRM_XE_MAX_SYNCS := 1024;
  DRM_XE_VM_BIND_OP_MAP := 0; DRM_XE_VM_BIND_OP_UNMAP := 1; DRM_XE_VM_BIND_OP_MAP_USERPTR := 2;
  DRM_XE_VM_BIND_OP_UNMAP_ALL := 3; DRM_XE_VM_BIND_OP_PREFETCH := 4;
  DRM_XE_VM_BIND_FLAG_READONLY := BIT 0; DRM_XE_VM_BIND_FLAG_IMMEDIATE := BIT 1;
  DRM_XE_VM_BIND_FLAG_NULL := BIT 2; DRM_XE_VM_BIND_FLAG_DUMPABLE := BIT 3;
  DRM_XE_VM_BIND_FLAG_CHECK_PXP := BIT 4; DRM_XE_VM_BIND_FLAG_CPU_ADDR_MIRROR := BIT 5;
  DRM_XE_VM_BIND_FLAG_MADVISE_AUTORESET := BIT 6; DRM_XE_VM_BIND_FLAG_DECOMPRESS := BIT 7;
  DRM_XE_CONSULT_MEM_ADVISE_PREF_LOC := 2 ^ 32 - 1; DRM_XE_GEM_CPU_CACHING_WB := 1;
  XE_COH_NONE := 1; XE_COH_2WAY := 3; XE_BO_FLAG_NO_COMPRESSION := BIT 21;
  XE_BO_FLAG_INTERNAL_64K := BIT 22; XE_VRAM_FLAGS_NEED64K := BIT 0;
|}.

#[export] Instance example_BindUapiLaws : BindUapiLaws.
Proof.
  split; cbn; [lia|]. apply (bool_decide_unpack _). vm_compute. exact I.
Qed.

Definition example_device : xe_device := {|
  pat_n_entries := 32; xe_pat_index_get_coh_mode := fun i => if i =? 0 then 1 else 2;
  xe_pat_index_get_comp_en := fun i => i =? 9; IS_DGFX := true;
  xe_device_is_l2_flush_optimized := false; xe_device_has_flat_ccs := true; GRAPHICS_VER := 20;
  mem_region_mask := 3; mem_region_mask_bytes := 1; vram_flags := 1;
  CONFIG_DRM_XE_GPUSVM := true; CONFIG_DRM_GPUSVM := true |}.

Definition example_map_op : drm_xe_vm_bind_op := {|
  bop_extensions := 0; bop_obj := 7; bop_pat_index := 3; bop_obj_offset := PAGE;
  bop_range := 2 * PAGE; bop_addr := 16 * PAGE; bop_op := 0; bop_flags := 1;
  bop_prefetch_mem_region_instance := 0 |}.

Definition example_args : drm_xe_vm_bind := {|
  ba_extensions := 0; ba_vm_id := 1; ba_exec_queue_id := 0; ba_pad := 0; ba_num_binds := 2;
  ba_bind := example_map_op; ba_vector_of_binds := Some [example_map_op; example_map_op];
  ba_pad2 := 0; ba_num_syncs := 0; ba_syncs := 0; ba_reserved := (0, 0) |}.

Lemma check_args_sound_witness :
  vm_bind_ioctl_check_args example_device false example_args true = Ok [example_map_op; example_map_op]
  /\ Forall (bind_op_valid example_device false) [example_map_op; example_map_op].
Proof.
  split; [reflexivity|].
  apply (check_args_sound example_device false example_args true); [|reflexivity].
  repeat constructor; cbn; lia.
Defined.

Definition example_bind_bo : bind_bo := {|
  bb_size := 4 * PAGE; bb_flags := 0; bb_cpu_caching := 1; bb_import_attach := false;
  bb_is_protected := false; bb_key_ok := true |}.

Lemma validate_bo_sound_witness : PAGE + 2 * PAGE <= bb_size example_bind_bo.
Proof.
  apply (validate_bo_sound example_device example_bind_bo (16 * PAGE) (2 * PAGE) PAGE 3 0 1);
    [unfold word; cbn; unfold PAGE; lia..|reflexivity].
Defined.
