(* ===== verification/VmState.v ===== *)
(** The state of a VM and the vocabulary shared by the files that model [xe_vm.c]:
    VMAs, buffer objects, bind operations, the calls into the rest of the driver. *)
From stdpp Require Import base numbers list gmap.
From S2P Require Import Prelude.
From S2P Require Import VmFault.

(** * Flags

    The flag words are defined in headers outside these sources.  Each flag is one
    bit; a class gives the positions, all different within a word. *)
Class VmFlags := {
  b_read_only : Z; b_dumpable : Z; b_system_allocator : Z; b_sparse : Z; b_autoreset : Z;
  b_atomic_pte : Z; b_destroyed : Z; b_pte_4k : Z; b_pte_2m : Z; b_pte_1g : Z; b_pte_64k : Z;
  b_pte_compact : Z;
  b_committed : Z; b_prev_committed : Z; b_next_committed : Z;
  b_ops_svm_prefetch : Z; b_ops_madvise : Z; b_ops_array : Z; b_ops_skip_tlb_wait : Z;
  b_ops_allow_svm_unmap : Z;
  b_vm_64k : Z; b_vm_lr_mode : Z; b_vm_migration : Z; b_vm_scratch : Z; b_vm_fault_mode : Z;
  b_vm_banned : Z; b_vm_gsc : Z; b_vm_no_overcommit : Z;
  XE_VM_FLAG_TILE_ID : Z -> Z;
  XE_MAX_TILES_PER_DEVICE : Z;
  XE_MADV_PURGEABLE_WILLNEED : Z;
  DRM_XE_ATOMIC_UNDEFINED : Z; DRM_XE_ATOMIC_DEVICE : Z; DRM_XE_ATOMIC_GLOBAL : Z;
  DRM_XE_ATOMIC_CPU : Z;
  DRM_XE_PREFERRED_LOC_DEFAULT_DEVICE : Z;
  DRM_XE_MIGRATE_ALL_PAGES : Z;
  num_tlb_inval : Z; (* values of i in for_each_tlb_inval(i) *)
  XE_PL_SYSTEM : Z; XE_PL_TT : Z; XE_PL_VRAM0 : Z; XE_PL_VRAM1 : Z;
  mem_type_is_vram : Z -> bool;
}.

(** Positions of distinct bits. *)
Definition distinct_bits (l : list Z) : Prop := NoDup l /\ Forall (fun b => 0 <= b) l.

Class VmFlagsLaws `{VmFlags} := {
  vma_bits : distinct_bits [b_read_only; b_dumpable; b_system_allocator; b_sparse; b_autoreset;
    b_atomic_pte; b_destroyed; b_pte_4k; b_pte_2m; b_pte_1g; b_pte_64k; b_pte_compact];
  op_bits : distinct_bits [b_committed; b_prev_committed; b_next_committed];
  ops_bits : distinct_bits [b_ops_svm_prefetch; b_ops_madvise; b_ops_array; b_ops_skip_tlb_wait;
    b_ops_allow_svm_unmap];
  vm_bits : distinct_bits [b_vm_64k; b_vm_lr_mode; b_vm_migration; b_vm_scratch; b_vm_fault_mode;
    b_vm_banned; b_vm_gsc; b_vm_no_overcommit];
}.

Section Flags.
Context `{VmFlags}.
Definition XE_VMA_READ_ONLY : Z := BIT b_read_only.
Definition XE_VMA_DUMPABLE : Z := BIT b_dumpable.
Definition XE_VMA_SYSTEM_ALLOCATOR : Z := BIT b_system_allocator.
Definition DRM_GPUVA_SPARSE : Z := BIT b_sparse.
Definition XE_VMA_MADV_AUTORESET : Z := BIT b_autoreset.
Definition XE_VMA_ATOMIC_PTE_BIT : Z := BIT b_atomic_pte.
Definition XE_VMA_DESTROYED : Z := BIT b_destroyed.
Definition XE_VMA_PTE_4K : Z := BIT b_pte_4k.
Definition XE_VMA_PTE_2M : Z := BIT b_pte_2m.
Definition XE_VMA_PTE_1G : Z := BIT b_pte_1g.
Definition XE_VMA_PTE_64K : Z := BIT b_pte_64k.
Definition XE_VMA_PTE_COMPACT : Z := BIT b_pte_compact.
Definition XE_VMA_OP_COMMITTED : Z := BIT b_committed.
Definition XE_VMA_OP_PREV_COMMITTED : Z := BIT b_prev_committed.
Definition XE_VMA_OP_NEXT_COMMITTED : Z := BIT b_next_committed.
Definition XE_VMA_OPS_FLAG_HAS_SVM_PREFETCH : Z := BIT b_ops_svm_prefetch.
Definition XE_VMA_OPS_FLAG_MADVISE : Z := BIT b_ops_madvise.
Definition XE_VMA_OPS_ARRAY_OF_BINDS : Z := BIT b_ops_array.
Definition XE_VMA_OPS_FLAG_SKIP_TLB_WAIT : Z := BIT b_ops_skip_tlb_wait.
Definition XE_VMA_OPS_FLAG_ALLOW_SVM_UNMAP : Z := BIT b_ops_allow_svm_unmap.
Definition XE_VM_FLAG_64K : Z := BIT b_vm_64k.
Definition XE_VM_FLAG_LR_MODE : Z := BIT b_vm_lr_mode.
Definition XE_VM_FLAG_MIGRATION : Z := BIT b_vm_migration.
Definition XE_VM_FLAG_SCRATCH_PAGE : Z := BIT b_vm_scratch.
Definition XE_VM_FLAG_FAULT_MODE : Z := BIT b_vm_fault_mode.
Definition XE_VM_FLAG_BANNED : Z := BIT b_vm_banned.
Definition XE_VM_FLAG_GSC : Z := BIT b_vm_gsc.
Definition XE_VM_FLAG_NO_VM_OVERCOMMIT : Z := BIT b_vm_no_overcommit.

Definition XE_VMA_CREATE_MASK : Z :=
  XE_VMA_READ_ONLY ||| XE_VMA_DUMPABLE ||| XE_VMA_SYSTEM_ALLOCATOR ||| DRM_GPUVA_SPARSE |||
  XE_VMA_MADV_AUTORESET.
End Flags.

(** * Objects *)

(** [struct xe_vma_mem_attr]. *)
Record xe_vma_mem_attr := {
  ma_devmem_fd : Z;
  ma_migration_policy : Z;
  ma_dpagemap : option Z;
  ma_atomic_access : Z;
  ma_default_pat_index : Z;
  ma_pat_index : Z;
  ma_purgeable_state : Z;
}.

(** [struct xe_vma] with its [drm_gpuva]. *)
Record xe_vma := {
  va_addr : Z;
  va_range : Z;
  va_flags : Z;
  va_bo : option Z;      (* gpuva.gem.obj *)
  va_offset : Z;         (* gpuva.gem.offset, or the user pointer *)
  va_tile_mask : Z;
  va_tile_present : Z;
  va_tile_invalidated : Z;
  va_attr : xe_vma_mem_attr;
}.

Definition set_va_addr v (s : xe_vma) : xe_vma :=
  {| va_addr := v; va_range := va_range s; va_flags := va_flags s; va_bo := va_bo s; va_offset := va_offset s; va_tile_mask := va_tile_mask s; va_tile_present := va_tile_present s; va_tile_invalidated := va_tile_invalidated s; va_attr := va_attr s |}.
Definition set_va_range v (s : xe_vma) : xe_vma :=
  {| va_addr := va_addr s; va_range := v; va_flags := va_flags s; va_bo := va_bo s; va_offset := va_offset s; va_tile_mask := va_tile_mask s; va_tile_present := va_tile_present s; va_tile_invalidated := va_tile_invalidated s; va_attr := va_attr s |}.
Definition set_va_flags v (s : xe_vma) : xe_vma :=
  {| va_addr := va_addr s; va_range := va_range s; va_flags := v; va_bo := va_bo s; va_offset := va_offset s; va_tile_mask := va_tile_mask s; va_tile_present := va_tile_present s; va_tile_invalidated := va_tile_invalidated s; va_attr := va_attr s |}.
Definition set_va_bo v (s : xe_vma) : xe_vma :=
  {| va_addr := va_addr s; va_range := va_range s; va_flags := va_flags s; va_bo := v; va_offset := va_offset s; va_tile_mask := va_tile_mask s; va_tile_present := va_tile_present s; va_tile_invalidated := va_tile_invalidated s; va_attr := va_attr s |}.
Definition set_va_offset v (s : xe_vma) : xe_vma :=
  {| va_addr := va_addr s; va_range := va_range s; va_flags := va_flags s; va_bo := va_bo s; va_offset := v; va_tile_mask := va_tile_mask s; va_tile_present := va_tile_present s; va_tile_invalidated := va_tile_invalidated s; va_attr := va_attr s |}.
Definition set_va_tile_mask v (s : xe_vma) : xe_vma :=
  {| va_addr := va_addr s; va_range := va_range s; va_flags := va_flags s; va_bo := va_bo s; va_offset := va_offset s; va_tile_mask := v; va_tile_present := va_tile_present s; va_tile_invalidated := va_tile_invalidated s; va_attr := va_attr s |}.
Definition set_va_tile_present v (s : xe_vma) : xe_vma :=
  {| va_addr := va_addr s; va_range := va_range s; va_flags := va_flags s; va_bo := va_bo s; va_offset := va_offset s; va_tile_mask := va_tile_mask s; va_tile_present := v; va_tile_invalidated := va_tile_invalidated s; va_attr := va_attr s |}.
Definition set_va_tile_invalidated v (s : xe_vma) : xe_vma :=
  {| va_addr := va_addr s; va_range := va_range s; va_flags := va_flags s; va_bo := va_bo s; va_offset := va_offset s; va_tile_mask := va_tile_mask s; va_tile_present := va_tile_present s; va_tile_invalidated := v; va_attr := va_attr s |}.
Definition set_va_attr v (s : xe_vma) : xe_vma :=
  {| va_addr := va_addr s; va_range := va_range s; va_flags := va_flags s; va_bo := va_bo s; va_offset := va_offset s; va_tile_mask := va_tile_mask s; va_tile_present := va_tile_present s; va_tile_invalidated := va_tile_invalidated s; va_attr := v |}.

(** What the VM code reads and counts of a buffer object. *)
Record vm_bo := {
  vb_size : Z;
  vb_vm : bool;          (* bo->vm: the object is private to a VM *)
  vb_purged : bool;
  vb_dontneed : bool;
  vb_protected : bool;
  vb_cpu_caching : Z;
  vb_mem_type : Z;
  vb_placements : list Z;
  vb_atomic_access : Z;
  vb_refs : Z;           (* references to the object *)
  vb_vma_count : Z;      (* xe_bo_vma_count_inc_locked / dec *)
  vb_willneed : Z;       (* xe_bo_willneed_get_locked / put *)
}.

Definition set_vb_size v (s : vm_bo) : vm_bo :=
  {| vb_size := v; vb_vm := vb_vm s; vb_purged := vb_purged s; vb_dontneed := vb_dontneed s; vb_protected := vb_protected s; vb_cpu_caching := vb_cpu_caching s; vb_mem_type := vb_mem_type s; vb_placements := vb_placements s; vb_atomic_access := vb_atomic_access s; vb_refs := vb_refs s; vb_vma_count := vb_vma_count s; vb_willneed := vb_willneed s |}.
Definition set_vb_vm v (s : vm_bo) : vm_bo :=
  {| vb_size := vb_size s; vb_vm := v; vb_purged := vb_purged s; vb_dontneed := vb_dontneed s; vb_protected := vb_protected s; vb_cpu_caching := vb_cpu_caching s; vb_mem_type := vb_mem_type s; vb_placements := vb_placements s; vb_atomic_access := vb_atomic_access s; vb_refs := vb_refs s; vb_vma_count := vb_vma_count s; vb_willneed := vb_willneed s |}.
Definition set_vb_purged v (s : vm_bo) : vm_bo :=
  {| vb_size := vb_size s; vb_vm := vb_vm s; vb_purged := v; vb_dontneed := vb_dontneed s; vb_protected := vb_protected s; vb_cpu_caching := vb_cpu_caching s; vb_mem_type := vb_mem_type s; vb_placements := vb_placements s; vb_atomic_access := vb_atomic_access s; vb_refs := vb_refs s; vb_vma_count := vb_vma_count s; vb_willneed := vb_willneed s |}.
Definition set_vb_dontneed v (s : vm_bo) : vm_bo :=
  {| vb_size := vb_size s; vb_vm := vb_vm s; vb_purged := vb_purged s; vb_dontneed := v; vb_protected := vb_protected s; vb_cpu_caching := vb_cpu_caching s; vb_mem_type := vb_mem_type s; vb_placements := vb_placements s; vb_atomic_access := vb_atomic_access s; vb_refs := vb_refs s; vb_vma_count := vb_vma_count s; vb_willneed := vb_willneed s |}.
Definition set_vb_protected v (s : vm_bo) : vm_bo :=
  {| vb_size := vb_size s; vb_vm := vb_vm s; vb_purged := vb_purged s; vb_dontneed := vb_dontneed s; vb_protected := v; vb_cpu_caching := vb_cpu_caching s; vb_mem_type := vb_mem_type s; vb_placements := vb_placements s; vb_atomic_access := vb_atomic_access s; vb_refs := vb_refs s; vb_vma_count := vb_vma_count s; vb_willneed := vb_willneed s |}.
Definition set_vb_cpu_caching v (s : vm_bo) : vm_bo :=
  {| vb_size := vb_size s; vb_vm := vb_vm s; vb_purged := vb_purged s; vb_dontneed := vb_dontneed s; vb_protected := vb_protected s; vb_cpu_caching := v; vb_mem_type := vb_mem_type s; vb_placements := vb_placements s; vb_atomic_access := vb_atomic_access s; vb_refs := vb_refs s; vb_vma_count := vb_vma_count s; vb_willneed := vb_willneed s |}.
Definition set_vb_mem_type v (s : vm_bo) : vm_bo :=
  {| vb_size := vb_size s; vb_vm := vb_vm s; vb_purged := vb_purged s; vb_dontneed := vb_dontneed s; vb_protected := vb_protected s; vb_cpu_caching := vb_cpu_caching s; vb_mem_type := v; vb_placements := vb_placements s; vb_atomic_access := vb_atomic_access s; vb_refs := vb_refs s; vb_vma_count := vb_vma_count s; vb_willneed := vb_willneed s |}.
Definition set_vb_placements v (s : vm_bo) : vm_bo :=
  {| vb_size := vb_size s; vb_vm := vb_vm s; vb_purged := vb_purged s; vb_dontneed := vb_dontneed s; vb_protected := vb_protected s; vb_cpu_caching := vb_cpu_caching s; vb_mem_type := vb_mem_type s; vb_placements := v; vb_atomic_access := vb_atomic_access s; vb_refs := vb_refs s; vb_vma_count := vb_vma_count s; vb_willneed := vb_willneed s |}.
Definition set_vb_atomic_access v (s : vm_bo) : vm_bo :=
  {| vb_size := vb_size s; vb_vm := vb_vm s; vb_purged := vb_purged s; vb_dontneed := vb_dontneed s; vb_protected := vb_protected s; vb_cpu_caching := vb_cpu_caching s; vb_mem_type := vb_mem_type s; vb_placements := vb_placements s; vb_atomic_access := v; vb_refs := vb_refs s; vb_vma_count := vb_vma_count s; vb_willneed := vb_willneed s |}.
Definition set_vb_refs v (s : vm_bo) : vm_bo :=
  {| vb_size := vb_size s; vb_vm := vb_vm s; vb_purged := vb_purged s; vb_dontneed := vb_dontneed s; vb_protected := vb_protected s; vb_cpu_caching := vb_cpu_caching s; vb_mem_type := vb_mem_type s; vb_placements := vb_placements s; vb_atomic_access := vb_atomic_access s; vb_refs := v; vb_vma_count := vb_vma_count s; vb_willneed := vb_willneed s |}.
Definition set_vb_vma_count v (s : vm_bo) : vm_bo :=
  {| vb_size := vb_size s; vb_vm := vb_vm s; vb_purged := vb_purged s; vb_dontneed := vb_dontneed s; vb_protected := vb_protected s; vb_cpu_caching := vb_cpu_caching s; vb_mem_type := vb_mem_type s; vb_placements := vb_placements s; vb_atomic_access := vb_atomic_access s; vb_refs := vb_refs s; vb_vma_count := v; vb_willneed := vb_willneed s |}.
Definition set_vb_willneed v (s : vm_bo) : vm_bo :=
  {| vb_size := vb_size s; vb_vm := vb_vm s; vb_purged := vb_purged s; vb_dontneed := vb_dontneed s; vb_protected := vb_protected s; vb_cpu_caching := vb_cpu_caching s; vb_mem_type := vb_mem_type s; vb_placements := vb_placements s; vb_atomic_access := vb_atomic_access s; vb_refs := vb_refs s; vb_vma_count := vb_vma_count s; vb_willneed := v |}.

(** The operations [drm_gpuvm] produces. *)
Record gpuva_map := { gm_addr : Z; gm_range : Z; gm_obj : option Z; gm_offset : Z }.

Inductive gpuva_op :=
  | GpuvaMap (m : gpuva_map)
  | GpuvaRemap (prev next : option gpuva_map) (unmap_va : Z)
  | GpuvaUnmap (va : Z)
  | GpuvaPrefetch (va : Z)
  | GpuvaDriver.

Inductive xe_vma_subop := XE_VMA_SUBOP_MAP_RANGE | XE_VMA_SUBOP_UNMAP_RANGE.

(** [struct xe_vma_op]; the members of the union are separate fields. *)
Record xe_vma_op := {
  op_base : gpuva_op;
  op_flags : Z;
  op_tile_mask : Z;
  op_subop : option xe_vma_subop;
  om_vma : option Z;             (* map.vma *)
  om_vma_flags : Z;
  om_immediate : bool;
  om_invalidate_on_bind : bool;
  om_request_decompress : bool;
  om_pat_index : Z;
  or_prev : option Z;            (* remap.prev, remap.next *)
  or_next : option Z;
  or_start : Z;
  or_range : Z;
  or_old_start : Z;
  or_old_range : Z;
  or_skip_prev : bool;
  or_skip_next : bool;
  of_region : Z;                 (* prefetch.region *)
  of_ranges : list Z;            (* prefetch_range.range *)
  of_dpagemap : option Z;
}.

Definition set_op_base v (s : xe_vma_op) : xe_vma_op :=
  {| op_base := v; op_flags := op_flags s; op_tile_mask := op_tile_mask s; op_subop := op_subop s; om_vma := om_vma s; om_vma_flags := om_vma_flags s; om_immediate := om_immediate s; om_invalidate_on_bind := om_invalidate_on_bind s; om_request_decompress := om_request_decompress s; om_pat_index := om_pat_index s; or_prev := or_prev s; or_next := or_next s; or_start := or_start s; or_range := or_range s; or_old_start := or_old_start s; or_old_range := or_old_range s; or_skip_prev := or_skip_prev s; or_skip_next := or_skip_next s; of_region := of_region s; of_ranges := of_ranges s; of_dpagemap := of_dpagemap s |}.
Definition set_op_flags v (s : xe_vma_op) : xe_vma_op :=
  {| op_base := op_base s; op_flags := v; op_tile_mask := op_tile_mask s; op_subop := op_subop s; om_vma := om_vma s; om_vma_flags := om_vma_flags s; om_immediate := om_immediate s; om_invalidate_on_bind := om_invalidate_on_bind s; om_request_decompress := om_request_decompress s; om_pat_index := om_pat_index s; or_prev := or_prev s; or_next := or_next s; or_start := or_start s; or_range := or_range s; or_old_start := or_old_start s; or_old_range := or_old_range s; or_skip_prev := or_skip_prev s; or_skip_next := or_skip_next s; of_region := of_region s; of_ranges := of_ranges s; of_dpagemap := of_dpagemap s |}.
Definition set_op_tile_mask v (s : xe_vma_op) : xe_vma_op :=
  {| op_base := op_base s; op_flags := op_flags s; op_tile_mask := v; op_subop := op_subop s; om_vma := om_vma s; om_vma_flags := om_vma_flags s; om_immediate := om_immediate s; om_invalidate_on_bind := om_invalidate_on_bind s; om_request_decompress := om_request_decompress s; om_pat_index := om_pat_index s; or_prev := or_prev s; or_next := or_next s; or_start := or_start s; or_range := or_range s; or_old_start := or_old_start s; or_old_range := or_old_range s; or_skip_prev := or_skip_prev s; or_skip_next := or_skip_next s; of_region := of_region s; of_ranges := of_ranges s; of_dpagemap := of_dpagemap s |}.
Definition set_op_subop v (s : xe_vma_op) : xe_vma_op :=
  {| op_base := op_base s; op_flags := op_flags s; op_tile_mask := op_tile_mask s; op_subop := v; om_vma := om_vma s; om_vma_flags := om_vma_flags s; om_immediate := om_immediate s; om_invalidate_on_bind := om_invalidate_on_bind s; om_request_decompress := om_request_decompress s; om_pat_index := om_pat_index s; or_prev := or_prev s; or_next := or_next s; or_start := or_start s; or_range := or_range s; or_old_start := or_old_start s; or_old_range := or_old_range s; or_skip_prev := or_skip_prev s; or_skip_next := or_skip_next s; of_region := of_region s; of_ranges := of_ranges s; of_dpagemap := of_dpagemap s |}.
Definition set_om_vma v (s : xe_vma_op) : xe_vma_op :=
  {| op_base := op_base s; op_flags := op_flags s; op_tile_mask := op_tile_mask s; op_subop := op_subop s; om_vma := v; om_vma_flags := om_vma_flags s; om_immediate := om_immediate s; om_invalidate_on_bind := om_invalidate_on_bind s; om_request_decompress := om_request_decompress s; om_pat_index := om_pat_index s; or_prev := or_prev s; or_next := or_next s; or_start := or_start s; or_range := or_range s; or_old_start := or_old_start s; or_old_range := or_old_range s; or_skip_prev := or_skip_prev s; or_skip_next := or_skip_next s; of_region := of_region s; of_ranges := of_ranges s; of_dpagemap := of_dpagemap s |}.
Definition set_om_vma_flags v (s : xe_vma_op) : xe_vma_op :=
  {| op_base := op_base s; op_flags := op_flags s; op_tile_mask := op_tile_mask s; op_subop := op_subop s; om_vma := om_vma s; om_vma_flags := v; om_immediate := om_immediate s; om_invalidate_on_bind := om_invalidate_on_bind s; om_request_decompress := om_request_decompress s; om_pat_index := om_pat_index s; or_prev := or_prev s; or_next := or_next s; or_start := or_start s; or_range := or_range s; or_old_start := or_old_start s; or_old_range := or_old_range s; or_skip_prev := or_skip_prev s; or_skip_next := or_skip_next s; of_region := of_region s; of_ranges := of_ranges s; of_dpagemap := of_dpagemap s |}.
Definition set_om_immediate v (s : xe_vma_op) : xe_vma_op :=
  {| op_base := op_base s; op_flags := op_flags s; op_tile_mask := op_tile_mask s; op_subop := op_subop s; om_vma := om_vma s; om_vma_flags := om_vma_flags s; om_immediate := v; om_invalidate_on_bind := om_invalidate_on_bind s; om_request_decompress := om_request_decompress s; om_pat_index := om_pat_index s; or_prev := or_prev s; or_next := or_next s; or_start := or_start s; or_range := or_range s; or_old_start := or_old_start s; or_old_range := or_old_range s; or_skip_prev := or_skip_prev s; or_skip_next := or_skip_next s; of_region := of_region s; of_ranges := of_ranges s; of_dpagemap := of_dpagemap s |}.
Definition set_om_invalidate_on_bind v (s : xe_vma_op) : xe_vma_op :=
  {| op_base := op_base s; op_flags := op_flags s; op_tile_mask := op_tile_mask s; op_subop := op_subop s; om_vma := om_vma s; om_vma_flags := om_vma_flags s; om_immediate := om_immediate s; om_invalidate_on_bind := v; om_request_decompress := om_request_decompress s; om_pat_index := om_pat_index s; or_prev := or_prev s; or_next := or_next s; or_start := or_start s; or_range := or_range s; or_old_start := or_old_start s; or_old_range := or_old_range s; or_skip_prev := or_skip_prev s; or_skip_next := or_skip_next s; of_region := of_region s; of_ranges := of_ranges s; of_dpagemap := of_dpagemap s |}.
Definition set_om_request_decompress v (s : xe_vma_op) : xe_vma_op :=
  {| op_base := op_base s; op_flags := op_flags s; op_tile_mask := op_tile_mask s; op_subop := op_subop s; om_vma := om_vma s; om_vma_flags := om_vma_flags s; om_immediate := om_immediate s; om_invalidate_on_bind := om_invalidate_on_bind s; om_request_decompress := v; om_pat_index := om_pat_index s; or_prev := or_prev s; or_next := or_next s; or_start := or_start s; or_range := or_range s; or_old_start := or_old_start s; or_old_range := or_old_range s; or_skip_prev := or_skip_prev s; or_skip_next := or_skip_next s; of_region := of_region s; of_ranges := of_ranges s; of_dpagemap := of_dpagemap s |}.
Definition set_om_pat_index v (s : xe_vma_op) : xe_vma_op :=
  {| op_base := op_base s; op_flags := op_flags s; op_tile_mask := op_tile_mask s; op_subop := op_subop s; om_vma := om_vma s; om_vma_flags := om_vma_flags s; om_immediate := om_immediate s; om_invalidate_on_bind := om_invalidate_on_bind s; om_request_decompress := om_request_decompress s; om_pat_index := v; or_prev := or_prev s; or_next := or_next s; or_start := or_start s; or_range := or_range s; or_old_start := or_old_start s; or_old_range := or_old_range s; or_skip_prev := or_skip_prev s; or_skip_next := or_skip_next s; of_region := of_region s; of_ranges := of_ranges s; of_dpagemap := of_dpagemap s |}.
Definition set_or_prev v (s : xe_vma_op) : xe_vma_op :=
  {| op_base := op_base s; op_flags := op_flags s; op_tile_mask := op_tile_mask s; op_subop := op_subop s; om_vma := om_vma s; om_vma_flags := om_vma_flags s; om_immediate := om_immediate s; om_invalidate_on_bind := om_invalidate_on_bind s; om_request_decompress := om_request_decompress s; om_pat_index := om_pat_index s; or_prev := v; or_next := or_next s; or_start := or_start s; or_range := or_range s; or_old_start := or_old_start s; or_old_range := or_old_range s; or_skip_prev := or_skip_prev s; or_skip_next := or_skip_next s; of_region := of_region s; of_ranges := of_ranges s; of_dpagemap := of_dpagemap s |}.
Definition set_or_next v (s : xe_vma_op) : xe_vma_op :=
  {| op_base := op_base s; op_flags := op_flags s; op_tile_mask := op_tile_mask s; op_subop := op_subop s; om_vma := om_vma s; om_vma_flags := om_vma_flags s; om_immediate := om_immediate s; om_invalidate_on_bind := om_invalidate_on_bind s; om_request_decompress := om_request_decompress s; om_pat_index := om_pat_index s; or_prev := or_prev s; or_next := v; or_start := or_start s; or_range := or_range s; or_old_start := or_old_start s; or_old_range := or_old_range s; or_skip_prev := or_skip_prev s; or_skip_next := or_skip_next s; of_region := of_region s; of_ranges := of_ranges s; of_dpagemap := of_dpagemap s |}.
Definition set_or_start v (s : xe_vma_op) : xe_vma_op :=
  {| op_base := op_base s; op_flags := op_flags s; op_tile_mask := op_tile_mask s; op_subop := op_subop s; om_vma := om_vma s; om_vma_flags := om_vma_flags s; om_immediate := om_immediate s; om_invalidate_on_bind := om_invalidate_on_bind s; om_request_decompress := om_request_decompress s; om_pat_index := om_pat_index s; or_prev := or_prev s; or_next := or_next s; or_start := v; or_range := or_range s; or_old_start := or_old_start s; or_old_range := or_old_range s; or_skip_prev := or_skip_prev s; or_skip_next := or_skip_next s; of_region := of_region s; of_ranges := of_ranges s; of_dpagemap := of_dpagemap s |}.
Definition set_or_range v (s : xe_vma_op) : xe_vma_op :=
  {| op_base := op_base s; op_flags := op_flags s; op_tile_mask := op_tile_mask s; op_subop := op_subop s; om_vma := om_vma s; om_vma_flags := om_vma_flags s; om_immediate := om_immediate s; om_invalidate_on_bind := om_invalidate_on_bind s; om_request_decompress := om_request_decompress s; om_pat_index := om_pat_index s; or_prev := or_prev s; or_next := or_next s; or_start := or_start s; or_range := v; or_old_start := or_old_start s; or_old_range := or_old_range s; or_skip_prev := or_skip_prev s; or_skip_next := or_skip_next s; of_region := of_region s; of_ranges := of_ranges s; of_dpagemap := of_dpagemap s |}.
Definition set_or_old_start v (s : xe_vma_op) : xe_vma_op :=
  {| op_base := op_base s; op_flags := op_flags s; op_tile_mask := op_tile_mask s; op_subop := op_subop s; om_vma := om_vma s; om_vma_flags := om_vma_flags s; om_immediate := om_immediate s; om_invalidate_on_bind := om_invalidate_on_bind s; om_request_decompress := om_request_decompress s; om_pat_index := om_pat_index s; or_prev := or_prev s; or_next := or_next s; or_start := or_start s; or_range := or_range s; or_old_start := v; or_old_range := or_old_range s; or_skip_prev := or_skip_prev s; or_skip_next := or_skip_next s; of_region := of_region s; of_ranges := of_ranges s; of_dpagemap := of_dpagemap s |}.
Definition set_or_old_range v (s : xe_vma_op) : xe_vma_op :=
  {| op_base := op_base s; op_flags := op_flags s; op_tile_mask := op_tile_mask s; op_subop := op_subop s; om_vma := om_vma s; om_vma_flags := om_vma_flags s; om_immediate := om_immediate s; om_invalidate_on_bind := om_invalidate_on_bind s; om_request_decompress := om_request_decompress s; om_pat_index := om_pat_index s; or_prev := or_prev s; or_next := or_next s; or_start := or_start s; or_range := or_range s; or_old_start := or_old_start s; or_old_range := v; or_skip_prev := or_skip_prev s; or_skip_next := or_skip_next s; of_region := of_region s; of_ranges := of_ranges s; of_dpagemap := of_dpagemap s |}.
Definition set_or_skip_prev v (s : xe_vma_op) : xe_vma_op :=
  {| op_base := op_base s; op_flags := op_flags s; op_tile_mask := op_tile_mask s; op_subop := op_subop s; om_vma := om_vma s; om_vma_flags := om_vma_flags s; om_immediate := om_immediate s; om_invalidate_on_bind := om_invalidate_on_bind s; om_request_decompress := om_request_decompress s; om_pat_index := om_pat_index s; or_prev := or_prev s; or_next := or_next s; or_start := or_start s; or_range := or_range s; or_old_start := or_old_start s; or_old_range := or_old_range s; or_skip_prev := v; or_skip_next := or_skip_next s; of_region := of_region s; of_ranges := of_ranges s; of_dpagemap := of_dpagemap s |}.
Definition set_or_skip_next v (s : xe_vma_op) : xe_vma_op :=
  {| op_base := op_base s; op_flags := op_flags s; op_tile_mask := op_tile_mask s; op_subop := op_subop s; om_vma := om_vma s; om_vma_flags := om_vma_flags s; om_immediate := om_immediate s; om_invalidate_on_bind := om_invalidate_on_bind s; om_request_decompress := om_request_decompress s; om_pat_index := om_pat_index s; or_prev := or_prev s; or_next := or_next s; or_start := or_start s; or_range := or_range s; or_old_start := or_old_start s; or_old_range := or_old_range s; or_skip_prev := or_skip_prev s; or_skip_next := v; of_region := of_region s; of_ranges := of_ranges s; of_dpagemap := of_dpagemap s |}.
Definition set_of_region v (s : xe_vma_op) : xe_vma_op :=
  {| op_base := op_base s; op_flags := op_flags s; op_tile_mask := op_tile_mask s; op_subop := op_subop s; om_vma := om_vma s; om_vma_flags := om_vma_flags s; om_immediate := om_immediate s; om_invalidate_on_bind := om_invalidate_on_bind s; om_request_decompress := om_request_decompress s; om_pat_index := om_pat_index s; or_prev := or_prev s; or_next := or_next s; or_start := or_start s; or_range := or_range s; or_old_start := or_old_start s; or_old_range := or_old_range s; or_skip_prev := or_skip_prev s; or_skip_next := or_skip_next s; of_region := v; of_ranges := of_ranges s; of_dpagemap := of_dpagemap s |}.
Definition set_of_ranges v (s : xe_vma_op) : xe_vma_op :=
  {| op_base := op_base s; op_flags := op_flags s; op_tile_mask := op_tile_mask s; op_subop := op_subop s; om_vma := om_vma s; om_vma_flags := om_vma_flags s; om_immediate := om_immediate s; om_invalidate_on_bind := om_invalidate_on_bind s; om_request_decompress := om_request_decompress s; om_pat_index := om_pat_index s; or_prev := or_prev s; or_next := or_next s; or_start := or_start s; or_range := or_range s; or_old_start := or_old_start s; or_old_range := or_old_range s; or_skip_prev := or_skip_prev s; or_skip_next := or_skip_next s; of_region := of_region s; of_ranges := v; of_dpagemap := of_dpagemap s |}.
Definition set_of_dpagemap v (s : xe_vma_op) : xe_vma_op :=
  {| op_base := op_base s; op_flags := op_flags s; op_tile_mask := op_tile_mask s; op_subop := op_subop s; om_vma := om_vma s; om_vma_flags := om_vma_flags s; om_immediate := om_immediate s; om_invalidate_on_bind := om_invalidate_on_bind s; om_request_decompress := om_request_decompress s; om_pat_index := om_pat_index s; or_prev := or_prev s; or_next := or_next s; or_start := or_start s; or_range := or_range s; or_old_start := or_old_start s; or_old_range := or_old_range s; or_skip_prev := or_skip_prev s; or_skip_next := or_skip_next s; of_region := of_region s; of_ranges := of_ranges s; of_dpagemap := v |}.

(** A zeroed operation with the given base, as [xe_vm_op_alloc] returns. *)
Definition new_op (base : gpuva_op) : xe_vma_op := {|
  op_base := base; op_flags := 0; op_tile_mask := 0; op_subop := None; om_vma := None;
  om_vma_flags := 0; om_immediate := false; om_invalidate_on_bind := false;
  om_request_decompress := false; om_pat_index := 0; or_prev := None; or_next := None;
  or_start := 0; or_range := 0; or_old_start := 0; or_old_range := 0; or_skip_prev := false;
  or_skip_next := false; of_region := 0; of_ranges := []; of_dpagemap := None |}.

(** [struct xe_vma_ops]: the operations of one request, in order, and per tile the
    number of page-table updates and the queue that runs them. *)
Record xe_vma_ops := {
  vo_list : list Z;
  vo_flags : Z;
  vo_num_ops : gmap Z Z;
  vo_tile_q : gmap Z Z;
  vo_wait_bookkeep : list Z;     (* tiles with wait_vm_bookkeep set *)
  vo_allocated : list Z;         (* tiles whose ops array is allocated *)
  vo_q : option Z;
  vo_syncs : list bool;          (* the syncs, true for a user fence *)
}.

Definition set_vo_list v (s : xe_vma_ops) : xe_vma_ops :=
  {| vo_list := v; vo_flags := vo_flags s; vo_num_ops := vo_num_ops s; vo_tile_q := vo_tile_q s; vo_wait_bookkeep := vo_wait_bookkeep s; vo_allocated := vo_allocated s; vo_q := vo_q s; vo_syncs := vo_syncs s |}.
Definition set_vo_flags v (s : xe_vma_ops) : xe_vma_ops :=
  {| vo_list := vo_list s; vo_flags := v; vo_num_ops := vo_num_ops s; vo_tile_q := vo_tile_q s; vo_wait_bookkeep := vo_wait_bookkeep s; vo_allocated := vo_allocated s; vo_q := vo_q s; vo_syncs := vo_syncs s |}.
Definition set_vo_num_ops v (s : xe_vma_ops) : xe_vma_ops :=
  {| vo_list := vo_list s; vo_flags := vo_flags s; vo_num_ops := v; vo_tile_q := vo_tile_q s; vo_wait_bookkeep := vo_wait_bookkeep s; vo_allocated := vo_allocated s; vo_q := vo_q s; vo_syncs := vo_syncs s |}.
Definition set_vo_tile_q v (s : xe_vma_ops) : xe_vma_ops :=
  {| vo_list := vo_list s; vo_flags := vo_flags s; vo_num_ops := vo_num_ops s; vo_tile_q := v; vo_wait_bookkeep := vo_wait_bookkeep s; vo_allocated := vo_allocated s; vo_q := vo_q s; vo_syncs := vo_syncs s |}.
Definition set_vo_wait_bookkeep v (s : xe_vma_ops) : xe_vma_ops :=
  {| vo_list := vo_list s; vo_flags := vo_flags s; vo_num_ops := vo_num_ops s; vo_tile_q := vo_tile_q s; vo_wait_bookkeep := v; vo_allocated := vo_allocated s; vo_q := vo_q s; vo_syncs := vo_syncs s |}.
Definition set_vo_allocated v (s : xe_vma_ops) : xe_vma_ops :=
  {| vo_list := vo_list s; vo_flags := vo_flags s; vo_num_ops := vo_num_ops s; vo_tile_q := vo_tile_q s; vo_wait_bookkeep := vo_wait_bookkeep s; vo_allocated := v; vo_q := vo_q s; vo_syncs := vo_syncs s |}.
Definition set_vo_q v (s : xe_vma_ops) : xe_vma_ops :=
  {| vo_list := vo_list s; vo_flags := vo_flags s; vo_num_ops := vo_num_ops s; vo_tile_q := vo_tile_q s; vo_wait_bookkeep := vo_wait_bookkeep s; vo_allocated := vo_allocated s; vo_q := v; vo_syncs := vo_syncs s |}.
Definition set_vo_syncs v (s : xe_vma_ops) : xe_vma_ops :=
  {| vo_list := vo_list s; vo_flags := vo_flags s; vo_num_ops := vo_num_ops s; vo_tile_q := vo_tile_q s; vo_wait_bookkeep := vo_wait_bookkeep s; vo_allocated := vo_allocated s; vo_q := vo_q s; vo_syncs := v |}.

(** A queue in long-running mode and its preempt fence. *)
Record lr_queue := {
  lq_pfence : option Z;
  lq_seqno : Z;
  lq_suspended : bool;
}.

Definition set_lq_pfence v (s : lr_queue) : lr_queue :=
  {| lq_pfence := v; lq_seqno := lq_seqno s; lq_suspended := lq_suspended s |}.
Definition set_lq_seqno v (s : lr_queue) : lr_queue :=
  {| lq_pfence := lq_pfence s; lq_seqno := v; lq_suspended := lq_suspended s |}.
Definition set_lq_suspended v (s : lr_queue) : lr_queue :=
  {| lq_pfence := lq_pfence s; lq_seqno := lq_seqno s; lq_suspended := v |}.

(** * Calls into the rest of the kernel

    A call is an event of the trace; its answer comes from an oracle that may look
    at the whole history, so that a theorem holds for every behaviour of the code
    that is called. *)
Inductive ext :=
  | drm_exec_lock_obj | drm_exec_lock_uninterruptible | dma_resv_lock | down_write_killable | xe_bo_lock
  | kmalloc | xe_bo_validate | xe_bo_decompress | xe_bo_migrate | dma_resv_reserve_fences
  | dma_resv_add_fence | drm_gpuvm_bo_obtain | xe_userptr_setup | xe_userptr_remove
  | xe_userptr_destroy | xe_vma_userptr_pin_pages | dma_fence_add_callback | ufence_put | ufence_get
  | xe_sync_ufence_get_status | xe_svm_has_mapping | xe_svm_unmap_address_range
  | xe_svm_range_migrate_to_smem | xe_svm_range_needs_migrate_to_vram | xe_svm_alloc_vram
  | xe_svm_range_get_pages | xe_pt_update_ops_prepare | xe_pt_update_ops_run
  | xe_pt_update_ops_fini | xe_pt_update_ops_abort | dma_fence_put | tlb_inval_last_fence
  | xe_sync_entry_parse | xe_sync_entry_signal | xe_sync_entry_cleanup | xe_sync_in_fence_get
  | drm_gpuva_ops_free | xe_svm_flush | xe_exec_queue_put | xe_pm_get | xe_pm_put
  | xe_svm_init | xe_svm_fini | xe_svm_close | drm_gpuvm_resv_object_alloc | xe_pt_create
  | xe_pt_populate_empty | xe_pt_destroy | xe_pt_clear | xe_tlb_inval_vm | xe_exec_queue_create_bind
  | xe_exec_queue_last_fence_put | xe_exec_queue_kill | xa_alloc_asid | xa_erase_asid | xe_file_get
  | xe_file_put | flush_rebind_work | drm_dev_enter | dma_resv_wait_timeout | queue_destroy_work
  | drm_gpuvm_validate | drm_gpuvm_prepare_vm | drm_gpuvm_prepare_objects | xe_exec_queue_is_idle
  | dma_fence_wait | try_wait_pm_block | xe_validation_exec_lock | xe_preempt_fence_alloc
  | xe_preempt_fence_free | xe_preempt_fence_arm | xe_preempt_fence_create | enable_signaling
  | userptr_needs_repin | xe_vm_userptr_pin | queue_reset_status | queue_resume | queue_kill
  | resv_add_fence | queue_rebind_work | rebind_resume_list_add | contention
  | xe_pt_zap_ptes | xe_tlb_inval_submit | xe_tlb_inval_wait | xe_pxp_bo_key_check
  | mmget_not_zero | mmput | xe_bo_read | copy_from_user | copy_to_user | evict_list_nonempty
  | xe_svm_range_find_or_insert | xe_svm_find_vma_start | xe_svm_range_validate | xa_alloc_range
  | xe_svm_range_end | xe_vma_resolve_pagemap | xe_tile_local_pagemap | xa_destroy_range
  | migrate_queue_get | fence_error_etime
  | xe_vm_allow_vm_eviction | oob_read | multi_gt_nonempty | multi_gt_next | dma_fence_get_stub
  | dma_fence_array_init | xe_exec_queue_lookup | exec_queue_is_vm_bind | exec_queue_is_of_vm
  | drm_gem_object_lookup | xe_sync_is_ufence | retry_rounds | xe_vm_lookup | xe_exec_queue_get.

#[export] Instance ext_eq_dec : EqDecision ext.
Proof. solve_decision. Defined.

Record vm_event := Ev { ev_call : ext; ev_args : list Z }.

Class VmOracle := {
  answer : list vm_event -> res unit;  (* of the newest event *)
  answer_bool : list vm_event -> bool;
  answer_z : list vm_event -> Z;
}.

(** * [drm_gpuvm]

    The address-space manager of DRM, seen as the inserted VMAs by identity with
    the range each was inserted with. *)
Notation va_tree := (gmap Z (Z * Z)).

Definition ranges_overlap (a b : Z * Z) : bool := (a.1 <? b.1 + b.2) && (b.1 <? a.1 + a.2).

(** No VMA of the tree overlaps the range. *)
Definition tree_free (t : va_tree) (r : Z * Z) : Prop :=
  map_Forall (fun _ r' => ranges_overlap r' r = false) t.

(** The inserted VMAs with what [drm_gpuvm] keeps of each. *)
Notation gpuva_set := (gmap Z gpuva_map).

Class DrmGpuvm := {
  drm_gpuva_insert : va_tree -> Z -> Z * Z -> res va_tree;
  drm_gpuva_find_first : va_tree -> Z -> Z -> option Z;
  drm_gpuvm_for_each_va : va_tree -> list Z;
  drm_gpuvm_for_each_va_range : va_tree -> Z -> Z -> list Z;
  drm_gpuvm_sm_map_ops_create : gpuva_set -> gpuva_map -> res (list gpuva_op);
  drm_gpuvm_madvise_ops_create : gpuva_set -> gpuva_map -> res (list gpuva_op);
  drm_gpuvm_sm_unmap_ops_create : gpuva_set -> Z -> Z -> res (list gpuva_op);
  drm_gpuvm_prefetch_ops_create : gpuva_set -> Z -> Z -> res (list gpuva_op);
  drm_gpuvm_bo_unmap_ops_create : gpuva_set -> Z -> res (list gpuva_op);
}.

(** The mapping an operation removes. *)
Definition gpuva_target (op : gpuva_op) : option Z :=
  match op with
  | GpuvaRemap _ _ old => Some old
  | GpuvaUnmap va => Some va
  | _ => None
  end.

(** A side of a REMAP keeps a part of the old mapping. *)
Definition gpuva_side_fits (old m : gpuva_map) : Prop :=
  gm_obj m = gm_obj old /\ 0 <= gm_range m /\ gm_addr old <= gm_addr m /\
  gm_addr m + gm_range m <= gm_addr old + gm_range old.

(** An operation for a set of mappings: a MAP is one of those requested; REMAP, UNMAP
    and PREFETCH are of an inserted VMA; what a REMAP keeps are disjoint parts of it. *)
Definition gpuva_op_fits (g : gpuva_set) (maps : list gpuva_map) (op : gpuva_op) : Prop :=
  match op with
  | GpuvaMap m => m ∈ maps
  | GpuvaRemap prev next old =>
      exists k, g !! old = Some k /\ from_option (gpuva_side_fits k) True prev /\
        from_option (gpuva_side_fits k) True next /\
        match prev, next with
        | Some p, Some n => gm_addr p + gm_range p <= gm_addr n
        | _, _ => True
        end
  | GpuvaUnmap va | GpuvaPrefetch va => is_Some (g !! va)
  | GpuvaDriver => True
  end.

Definition gpuva_ops_fit (g : gpuva_set) (maps : list gpuva_map) (r : res (list gpuva_op)) : Prop :=
  forall l, r = Ok l -> Forall (gpuva_op_fits g maps) l /\ NoDup (omap gpuva_target l).

(** It inserts a VMA that overlaps none and fails on one that does; its iterators
    visit the inserted VMAs, each once; the operations it creates fit the inserted
    VMAs, each removing a mapping of its own. *)
Class DrmGpuvmLaws `{DrmGpuvm} := {
  gpuva_insert_free t id r : tree_free t r -> drm_gpuva_insert t id r = Ok (<[id := r]> t);
  gpuva_insert_ok t id r t' : drm_gpuva_insert t id r = Ok t' -> t' = <[id := r]> t /\ tree_free t r;
  gpuva_find_first t a n id : drm_gpuva_find_first t a n = Some id ->
    exists r, t !! id = Some r /\ ranges_overlap r (a, n) = true;
  gpuva_find_none t a n : drm_gpuva_find_first t a n = None -> tree_free t (a, n);
  gpuvm_va_list t : NoDup (drm_gpuvm_for_each_va t) /\
    forall id, id ∈ drm_gpuvm_for_each_va t <-> is_Some (t !! id);
  gpuvm_va_range t a b : NoDup (drm_gpuvm_for_each_va_range t a b) /\
    forall id, id ∈ drm_gpuvm_for_each_va_range t a b <->
      exists r, t !! id = Some r /\ ranges_overlap r (a, b - a) = true;
  gpuvm_sm_map_fits g m : gpuva_ops_fit g [m] (drm_gpuvm_sm_map_ops_create g m);
  gpuvm_madvise_fits g m : gpuva_ops_fit g [m] (drm_gpuvm_madvise_ops_create g m);
  gpuvm_sm_unmap_fits g a n : gpuva_ops_fit g [] (drm_gpuvm_sm_unmap_ops_create g a n);
  gpuvm_prefetch_fits g a n : gpuva_ops_fit g [] (drm_gpuvm_prefetch_ops_create g a n);
  gpuvm_bo_unmap_fits g b : gpuva_ops_fit g [] (drm_gpuvm_bo_unmap_ops_create g b);
}.

(** * The device *)

Record vm_device := {
  dv_tiles : list Z;
  dv_has_atomic_pte : bool;
  dv_is_dgfx : bool;
  dv_need64k : bool;
  dv_va_bits : Z;
  dv_max_level : Z;
  dv_has_asid : bool;
  dv_has_usm : bool;
  dv_needs_scratch : bool;
  dv_vf_migration : bool;
  dv_has_ctx_tlb_inval : bool;
  dv_device_atomics_on_smem : bool;
  dv_wa_22014953428 : bool;
  dv_gts : list Z;
}.

(** * The VM *)

Record xe_vm := {
  v_flags : Z;
  v_size : Z;
  v_refs : Z;
  v_vmas : gmap Z xe_vma;          (* allocated VMAs *)
  v_ufences : gmap Z Z;            (* vma->ufence of the VMAs that have one *)
  v_ops : gmap Z xe_vma_op;        (* allocated operations *)
  v_next : Z;                      (* next address *)
  v_tree : va_tree;
  v_last_fault : option Z;         (* usm.last_fault_vma *)
  v_rebind_list : list Z;
  v_pending : list Z;              (* VMAs whose destruction waits for a fence *)
  v_bos : gmap Z vm_bo;
  v_pagemaps : gmap Z Z;           (* references of drm_pagemaps *)
  v_vops : xe_vma_ops;             (* the request in progress *)
  v_queues : list Z;               (* preempt.exec_queues *)
  v_num_queues : Z;                (* preempt.num_exec_queues *)
  v_lr : gmap Z lr_queue;
  v_fences : gmap Z bool;          (* preempt fences: signaling enabled *)
  v_deactivated : bool;            (* preempt.rebind_deactivated *)
  v_pt_root : gmap Z Z;            (* tile -> level of its root *)
  v_scratch : gmap (Z * Z) unit;   (* (tile, level) -> scratch table *)
  v_bind_q : gmap Z Z;             (* vm->q[] *)
  v_asid : Z;
  v_faults : vm_faults;
  v_xef : bool;
  v_batch_inval : bool;            (* batch_invalidate_tlb *)
  v_freed : bool;                  (* the structure was freed *)
  v_trace : list vm_event;         (* newest first *)
}.

Definition set_v_flags v (s : xe_vm) : xe_vm :=
  {| v_flags := v; v_size := v_size s; v_refs := v_refs s; v_vmas := v_vmas s; v_ufences := v_ufences s; v_ops := v_ops s; v_next := v_next s; v_tree := v_tree s; v_last_fault := v_last_fault s; v_rebind_list := v_rebind_list s; v_pending := v_pending s; v_bos := v_bos s; v_pagemaps := v_pagemaps s; v_vops := v_vops s; v_queues := v_queues s; v_num_queues := v_num_queues s; v_lr := v_lr s; v_fences := v_fences s; v_deactivated := v_deactivated s; v_pt_root := v_pt_root s; v_scratch := v_scratch s; v_bind_q := v_bind_q s; v_asid := v_asid s; v_faults := v_faults s; v_xef := v_xef s; v_batch_inval := v_batch_inval s; v_freed := v_freed s; v_trace := v_trace s |}.
Definition set_v_size v (s : xe_vm) : xe_vm :=
  {| v_flags := v_flags s; v_size := v; v_refs := v_refs s; v_vmas := v_vmas s; v_ufences := v_ufences s; v_ops := v_ops s; v_next := v_next s; v_tree := v_tree s; v_last_fault := v_last_fault s; v_rebind_list := v_rebind_list s; v_pending := v_pending s; v_bos := v_bos s; v_pagemaps := v_pagemaps s; v_vops := v_vops s; v_queues := v_queues s; v_num_queues := v_num_queues s; v_lr := v_lr s; v_fences := v_fences s; v_deactivated := v_deactivated s; v_pt_root := v_pt_root s; v_scratch := v_scratch s; v_bind_q := v_bind_q s; v_asid := v_asid s; v_faults := v_faults s; v_xef := v_xef s; v_batch_inval := v_batch_inval s; v_freed := v_freed s; v_trace := v_trace s |}.
Definition set_v_refs v (s : xe_vm) : xe_vm :=
  {| v_flags := v_flags s; v_size := v_size s; v_refs := v; v_vmas := v_vmas s; v_ufences := v_ufences s; v_ops := v_ops s; v_next := v_next s; v_tree := v_tree s; v_last_fault := v_last_fault s; v_rebind_list := v_rebind_list s; v_pending := v_pending s; v_bos := v_bos s; v_pagemaps := v_pagemaps s; v_vops := v_vops s; v_queues := v_queues s; v_num_queues := v_num_queues s; v_lr := v_lr s; v_fences := v_fences s; v_deactivated := v_deactivated s; v_pt_root := v_pt_root s; v_scratch := v_scratch s; v_bind_q := v_bind_q s; v_asid := v_asid s; v_faults := v_faults s; v_xef := v_xef s; v_batch_inval := v_batch_inval s; v_freed := v_freed s; v_trace := v_trace s |}.
Definition set_v_vmas v (s : xe_vm) : xe_vm :=
  {| v_flags := v_flags s; v_size := v_size s; v_refs := v_refs s; v_vmas := v; v_ufences := v_ufences s; v_ops := v_ops s; v_next := v_next s; v_tree := v_tree s; v_last_fault := v_last_fault s; v_rebind_list := v_rebind_list s; v_pending := v_pending s; v_bos := v_bos s; v_pagemaps := v_pagemaps s; v_vops := v_vops s; v_queues := v_queues s; v_num_queues := v_num_queues s; v_lr := v_lr s; v_fences := v_fences s; v_deactivated := v_deactivated s; v_pt_root := v_pt_root s; v_scratch := v_scratch s; v_bind_q := v_bind_q s; v_asid := v_asid s; v_faults := v_faults s; v_xef := v_xef s; v_batch_inval := v_batch_inval s; v_freed := v_freed s; v_trace := v_trace s |}.
Definition set_v_ufences v (s : xe_vm) : xe_vm :=
  {| v_flags := v_flags s; v_size := v_size s; v_refs := v_refs s; v_vmas := v_vmas s; v_ufences := v; v_ops := v_ops s; v_next := v_next s; v_tree := v_tree s; v_last_fault := v_last_fault s; v_rebind_list := v_rebind_list s; v_pending := v_pending s; v_bos := v_bos s; v_pagemaps := v_pagemaps s; v_vops := v_vops s; v_queues := v_queues s; v_num_queues := v_num_queues s; v_lr := v_lr s; v_fences := v_fences s; v_deactivated := v_deactivated s; v_pt_root := v_pt_root s; v_scratch := v_scratch s; v_bind_q := v_bind_q s; v_asid := v_asid s; v_faults := v_faults s; v_xef := v_xef s; v_batch_inval := v_batch_inval s; v_freed := v_freed s; v_trace := v_trace s |}.
Definition set_v_ops v (s : xe_vm) : xe_vm :=
  {| v_flags := v_flags s; v_size := v_size s; v_refs := v_refs s; v_vmas := v_vmas s; v_ufences := v_ufences s; v_ops := v; v_next := v_next s; v_tree := v_tree s; v_last_fault := v_last_fault s; v_rebind_list := v_rebind_list s; v_pending := v_pending s; v_bos := v_bos s; v_pagemaps := v_pagemaps s; v_vops := v_vops s; v_queues := v_queues s; v_num_queues := v_num_queues s; v_lr := v_lr s; v_fences := v_fences s; v_deactivated := v_deactivated s; v_pt_root := v_pt_root s; v_scratch := v_scratch s; v_bind_q := v_bind_q s; v_asid := v_asid s; v_faults := v_faults s; v_xef := v_xef s; v_batch_inval := v_batch_inval s; v_freed := v_freed s; v_trace := v_trace s |}.
Definition set_v_next v (s : xe_vm) : xe_vm :=
  {| v_flags := v_flags s; v_size := v_size s; v_refs := v_refs s; v_vmas := v_vmas s; v_ufences := v_ufences s; v_ops := v_ops s; v_next := v; v_tree := v_tree s; v_last_fault := v_last_fault s; v_rebind_list := v_rebind_list s; v_pending := v_pending s; v_bos := v_bos s; v_pagemaps := v_pagemaps s; v_vops := v_vops s; v_queues := v_queues s; v_num_queues := v_num_queues s; v_lr := v_lr s; v_fences := v_fences s; v_deactivated := v_deactivated s; v_pt_root := v_pt_root s; v_scratch := v_scratch s; v_bind_q := v_bind_q s; v_asid := v_asid s; v_faults := v_faults s; v_xef := v_xef s; v_batch_inval := v_batch_inval s; v_freed := v_freed s; v_trace := v_trace s |}.
Definition set_v_tree v (s : xe_vm) : xe_vm :=
  {| v_flags := v_flags s; v_size := v_size s; v_refs := v_refs s; v_vmas := v_vmas s; v_ufences := v_ufences s; v_ops := v_ops s; v_next := v_next s; v_tree := v; v_last_fault := v_last_fault s; v_rebind_list := v_rebind_list s; v_pending := v_pending s; v_bos := v_bos s; v_pagemaps := v_pagemaps s; v_vops := v_vops s; v_queues := v_queues s; v_num_queues := v_num_queues s; v_lr := v_lr s; v_fences := v_fences s; v_deactivated := v_deactivated s; v_pt_root := v_pt_root s; v_scratch := v_scratch s; v_bind_q := v_bind_q s; v_asid := v_asid s; v_faults := v_faults s; v_xef := v_xef s; v_batch_inval := v_batch_inval s; v_freed := v_freed s; v_trace := v_trace s |}.
Definition set_v_last_fault v (s : xe_vm) : xe_vm :=
  {| v_flags := v_flags s; v_size := v_size s; v_refs := v_refs s; v_vmas := v_vmas s; v_ufences := v_ufences s; v_ops := v_ops s; v_next := v_next s; v_tree := v_tree s; v_last_fault := v; v_rebind_list := v_rebind_list s; v_pending := v_pending s; v_bos := v_bos s; v_pagemaps := v_pagemaps s; v_vops := v_vops s; v_queues := v_queues s; v_num_queues := v_num_queues s; v_lr := v_lr s; v_fences := v_fences s; v_deactivated := v_deactivated s; v_pt_root := v_pt_root s; v_scratch := v_scratch s; v_bind_q := v_bind_q s; v_asid := v_asid s; v_faults := v_faults s; v_xef := v_xef s; v_batch_inval := v_batch_inval s; v_freed := v_freed s; v_trace := v_trace s |}.
Definition set_v_rebind_list v (s : xe_vm) : xe_vm :=
  {| v_flags := v_flags s; v_size := v_size s; v_refs := v_refs s; v_vmas := v_vmas s; v_ufences := v_ufences s; v_ops := v_ops s; v_next := v_next s; v_tree := v_tree s; v_last_fault := v_last_fault s; v_rebind_list := v; v_pending := v_pending s; v_bos := v_bos s; v_pagemaps := v_pagemaps s; v_vops := v_vops s; v_queues := v_queues s; v_num_queues := v_num_queues s; v_lr := v_lr s; v_fences := v_fences s; v_deactivated := v_deactivated s; v_pt_root := v_pt_root s; v_scratch := v_scratch s; v_bind_q := v_bind_q s; v_asid := v_asid s; v_faults := v_faults s; v_xef := v_xef s; v_batch_inval := v_batch_inval s; v_freed := v_freed s; v_trace := v_trace s |}.
Definition set_v_pending v (s : xe_vm) : xe_vm :=
  {| v_flags := v_flags s; v_size := v_size s; v_refs := v_refs s; v_vmas := v_vmas s; v_ufences := v_ufences s; v_ops := v_ops s; v_next := v_next s; v_tree := v_tree s; v_last_fault := v_last_fault s; v_rebind_list := v_rebind_list s; v_pending := v; v_bos := v_bos s; v_pagemaps := v_pagemaps s; v_vops := v_vops s; v_queues := v_queues s; v_num_queues := v_num_queues s; v_lr := v_lr s; v_fences := v_fences s; v_deactivated := v_deactivated s; v_pt_root := v_pt_root s; v_scratch := v_scratch s; v_bind_q := v_bind_q s; v_asid := v_asid s; v_faults := v_faults s; v_xef := v_xef s; v_batch_inval := v_batch_inval s; v_freed := v_freed s; v_trace := v_trace s |}.
Definition set_v_bos v (s : xe_vm) : xe_vm :=
  {| v_flags := v_flags s; v_size := v_size s; v_refs := v_refs s; v_vmas := v_vmas s; v_ufences := v_ufences s; v_ops := v_ops s; v_next := v_next s; v_tree := v_tree s; v_last_fault := v_last_fault s; v_rebind_list := v_rebind_list s; v_pending := v_pending s; v_bos := v; v_pagemaps := v_pagemaps s; v_vops := v_vops s; v_queues := v_queues s; v_num_queues := v_num_queues s; v_lr := v_lr s; v_fences := v_fences s; v_deactivated := v_deactivated s; v_pt_root := v_pt_root s; v_scratch := v_scratch s; v_bind_q := v_bind_q s; v_asid := v_asid s; v_faults := v_faults s; v_xef := v_xef s; v_batch_inval := v_batch_inval s; v_freed := v_freed s; v_trace := v_trace s |}.
Definition set_v_pagemaps v (s : xe_vm) : xe_vm :=
  {| v_flags := v_flags s; v_size := v_size s; v_refs := v_refs s; v_vmas := v_vmas s; v_ufences := v_ufences s; v_ops := v_ops s; v_next := v_next s; v_tree := v_tree s; v_last_fault := v_last_fault s; v_rebind_list := v_rebind_list s; v_pending := v_pending s; v_bos := v_bos s; v_pagemaps := v; v_vops := v_vops s; v_queues := v_queues s; v_num_queues := v_num_queues s; v_lr := v_lr s; v_fences := v_fences s; v_deactivated := v_deactivated s; v_pt_root := v_pt_root s; v_scratch := v_scratch s; v_bind_q := v_bind_q s; v_asid := v_asid s; v_faults := v_faults s; v_xef := v_xef s; v_batch_inval := v_batch_inval s; v_freed := v_freed s; v_trace := v_trace s |}.
Definition set_v_vops v (s : xe_vm) : xe_vm :=
  {| v_flags := v_flags s; v_size := v_size s; v_refs := v_refs s; v_vmas := v_vmas s; v_ufences := v_ufences s; v_ops := v_ops s; v_next := v_next s; v_tree := v_tree s; v_last_fault := v_last_fault s; v_rebind_list := v_rebind_list s; v_pending := v_pending s; v_bos := v_bos s; v_pagemaps := v_pagemaps s; v_vops := v; v_queues := v_queues s; v_num_queues := v_num_queues s; v_lr := v_lr s; v_fences := v_fences s; v_deactivated := v_deactivated s; v_pt_root := v_pt_root s; v_scratch := v_scratch s; v_bind_q := v_bind_q s; v_asid := v_asid s; v_faults := v_faults s; v_xef := v_xef s; v_batch_inval := v_batch_inval s; v_freed := v_freed s; v_trace := v_trace s |}.
Definition set_v_queues v (s : xe_vm) : xe_vm :=
  {| v_flags := v_flags s; v_size := v_size s; v_refs := v_refs s; v_vmas := v_vmas s; v_ufences := v_ufences s; v_ops := v_ops s; v_next := v_next s; v_tree := v_tree s; v_last_fault := v_last_fault s; v_rebind_list := v_rebind_list s; v_pending := v_pending s; v_bos := v_bos s; v_pagemaps := v_pagemaps s; v_vops := v_vops s; v_queues := v; v_num_queues := v_num_queues s; v_lr := v_lr s; v_fences := v_fences s; v_deactivated := v_deactivated s; v_pt_root := v_pt_root s; v_scratch := v_scratch s; v_bind_q := v_bind_q s; v_asid := v_asid s; v_faults := v_faults s; v_xef := v_xef s; v_batch_inval := v_batch_inval s; v_freed := v_freed s; v_trace := v_trace s |}.
Definition set_v_num_queues v (s : xe_vm) : xe_vm :=
  {| v_flags := v_flags s; v_size := v_size s; v_refs := v_refs s; v_vmas := v_vmas s; v_ufences := v_ufences s; v_ops := v_ops s; v_next := v_next s; v_tree := v_tree s; v_last_fault := v_last_fault s; v_rebind_list := v_rebind_list s; v_pending := v_pending s; v_bos := v_bos s; v_pagemaps := v_pagemaps s; v_vops := v_vops s; v_queues := v_queues s; v_num_queues := v; v_lr := v_lr s; v_fences := v_fences s; v_deactivated := v_deactivated s; v_pt_root := v_pt_root s; v_scratch := v_scratch s; v_bind_q := v_bind_q s; v_asid := v_asid s; v_faults := v_faults s; v_xef := v_xef s; v_batch_inval := v_batch_inval s; v_freed := v_freed s; v_trace := v_trace s |}.
Definition set_v_lr v (s : xe_vm) : xe_vm :=
  {| v_flags := v_flags s; v_size := v_size s; v_refs := v_refs s; v_vmas := v_vmas s; v_ufences := v_ufences s; v_ops := v_ops s; v_next := v_next s; v_tree := v_tree s; v_last_fault := v_last_fault s; v_rebind_list := v_rebind_list s; v_pending := v_pending s; v_bos := v_bos s; v_pagemaps := v_pagemaps s; v_vops := v_vops s; v_queues := v_queues s; v_num_queues := v_num_queues s; v_lr := v; v_fences := v_fences s; v_deactivated := v_deactivated s; v_pt_root := v_pt_root s; v_scratch := v_scratch s; v_bind_q := v_bind_q s; v_asid := v_asid s; v_faults := v_faults s; v_xef := v_xef s; v_batch_inval := v_batch_inval s; v_freed := v_freed s; v_trace := v_trace s |}.
Definition set_v_fences v (s : xe_vm) : xe_vm :=
  {| v_flags := v_flags s; v_size := v_size s; v_refs := v_refs s; v_vmas := v_vmas s; v_ufences := v_ufences s; v_ops := v_ops s; v_next := v_next s; v_tree := v_tree s; v_last_fault := v_last_fault s; v_rebind_list := v_rebind_list s; v_pending := v_pending s; v_bos := v_bos s; v_pagemaps := v_pagemaps s; v_vops := v_vops s; v_queues := v_queues s; v_num_queues := v_num_queues s; v_lr := v_lr s; v_fences := v; v_deactivated := v_deactivated s; v_pt_root := v_pt_root s; v_scratch := v_scratch s; v_bind_q := v_bind_q s; v_asid := v_asid s; v_faults := v_faults s; v_xef := v_xef s; v_batch_inval := v_batch_inval s; v_freed := v_freed s; v_trace := v_trace s |}.
Definition set_v_deactivated v (s : xe_vm) : xe_vm :=
  {| v_flags := v_flags s; v_size := v_size s; v_refs := v_refs s; v_vmas := v_vmas s; v_ufences := v_ufences s; v_ops := v_ops s; v_next := v_next s; v_tree := v_tree s; v_last_fault := v_last_fault s; v_rebind_list := v_rebind_list s; v_pending := v_pending s; v_bos := v_bos s; v_pagemaps := v_pagemaps s; v_vops := v_vops s; v_queues := v_queues s; v_num_queues := v_num_queues s; v_lr := v_lr s; v_fences := v_fences s; v_deactivated := v; v_pt_root := v_pt_root s; v_scratch := v_scratch s; v_bind_q := v_bind_q s; v_asid := v_asid s; v_faults := v_faults s; v_xef := v_xef s; v_batch_inval := v_batch_inval s; v_freed := v_freed s; v_trace := v_trace s |}.
Definition set_v_pt_root v (s : xe_vm) : xe_vm :=
  {| v_flags := v_flags s; v_size := v_size s; v_refs := v_refs s; v_vmas := v_vmas s; v_ufences := v_ufences s; v_ops := v_ops s; v_next := v_next s; v_tree := v_tree s; v_last_fault := v_last_fault s; v_rebind_list := v_rebind_list s; v_pending := v_pending s; v_bos := v_bos s; v_pagemaps := v_pagemaps s; v_vops := v_vops s; v_queues := v_queues s; v_num_queues := v_num_queues s; v_lr := v_lr s; v_fences := v_fences s; v_deactivated := v_deactivated s; v_pt_root := v; v_scratch := v_scratch s; v_bind_q := v_bind_q s; v_asid := v_asid s; v_faults := v_faults s; v_xef := v_xef s; v_batch_inval := v_batch_inval s; v_freed := v_freed s; v_trace := v_trace s |}.
Definition set_v_scratch v (s : xe_vm) : xe_vm :=
  {| v_flags := v_flags s; v_size := v_size s; v_refs := v_refs s; v_vmas := v_vmas s; v_ufences := v_ufences s; v_ops := v_ops s; v_next := v_next s; v_tree := v_tree s; v_last_fault := v_last_fault s; v_rebind_list := v_rebind_list s; v_pending := v_pending s; v_bos := v_bos s; v_pagemaps := v_pagemaps s; v_vops := v_vops s; v_queues := v_queues s; v_num_queues := v_num_queues s; v_lr := v_lr s; v_fences := v_fences s; v_deactivated := v_deactivated s; v_pt_root := v_pt_root s; v_scratch := v; v_bind_q := v_bind_q s; v_asid := v_asid s; v_faults := v_faults s; v_xef := v_xef s; v_batch_inval := v_batch_inval s; v_freed := v_freed s; v_trace := v_trace s |}.
Definition set_v_bind_q v (s : xe_vm) : xe_vm :=
  {| v_flags := v_flags s; v_size := v_size s; v_refs := v_refs s; v_vmas := v_vmas s; v_ufences := v_ufences s; v_ops := v_ops s; v_next := v_next s; v_tree := v_tree s; v_last_fault := v_last_fault s; v_rebind_list := v_rebind_list s; v_pending := v_pending s; v_bos := v_bos s; v_pagemaps := v_pagemaps s; v_vops := v_vops s; v_queues := v_queues s; v_num_queues := v_num_queues s; v_lr := v_lr s; v_fences := v_fences s; v_deactivated := v_deactivated s; v_pt_root := v_pt_root s; v_scratch := v_scratch s; v_bind_q := v; v_asid := v_asid s; v_faults := v_faults s; v_xef := v_xef s; v_batch_inval := v_batch_inval s; v_freed := v_freed s; v_trace := v_trace s |}.
Definition set_v_asid v (s : xe_vm) : xe_vm :=
  {| v_flags := v_flags s; v_size := v_size s; v_refs := v_refs s; v_vmas := v_vmas s; v_ufences := v_ufences s; v_ops := v_ops s; v_next := v_next s; v_tree := v_tree s; v_last_fault := v_last_fault s; v_rebind_list := v_rebind_list s; v_pending := v_pending s; v_bos := v_bos s; v_pagemaps := v_pagemaps s; v_vops := v_vops s; v_queues := v_queues s; v_num_queues := v_num_queues s; v_lr := v_lr s; v_fences := v_fences s; v_deactivated := v_deactivated s; v_pt_root := v_pt_root s; v_scratch := v_scratch s; v_bind_q := v_bind_q s; v_asid := v; v_faults := v_faults s; v_xef := v_xef s; v_batch_inval := v_batch_inval s; v_freed := v_freed s; v_trace := v_trace s |}.
Definition set_v_faults v (s : xe_vm) : xe_vm :=
  {| v_flags := v_flags s; v_size := v_size s; v_refs := v_refs s; v_vmas := v_vmas s; v_ufences := v_ufences s; v_ops := v_ops s; v_next := v_next s; v_tree := v_tree s; v_last_fault := v_last_fault s; v_rebind_list := v_rebind_list s; v_pending := v_pending s; v_bos := v_bos s; v_pagemaps := v_pagemaps s; v_vops := v_vops s; v_queues := v_queues s; v_num_queues := v_num_queues s; v_lr := v_lr s; v_fences := v_fences s; v_deactivated := v_deactivated s; v_pt_root := v_pt_root s; v_scratch := v_scratch s; v_bind_q := v_bind_q s; v_asid := v_asid s; v_faults := v; v_xef := v_xef s; v_batch_inval := v_batch_inval s; v_freed := v_freed s; v_trace := v_trace s |}.
Definition set_v_xef v (s : xe_vm) : xe_vm :=
  {| v_flags := v_flags s; v_size := v_size s; v_refs := v_refs s; v_vmas := v_vmas s; v_ufences := v_ufences s; v_ops := v_ops s; v_next := v_next s; v_tree := v_tree s; v_last_fault := v_last_fault s; v_rebind_list := v_rebind_list s; v_pending := v_pending s; v_bos := v_bos s; v_pagemaps := v_pagemaps s; v_vops := v_vops s; v_queues := v_queues s; v_num_queues := v_num_queues s; v_lr := v_lr s; v_fences := v_fences s; v_deactivated := v_deactivated s; v_pt_root := v_pt_root s; v_scratch := v_scratch s; v_bind_q := v_bind_q s; v_asid := v_asid s; v_faults := v_faults s; v_xef := v; v_batch_inval := v_batch_inval s; v_freed := v_freed s; v_trace := v_trace s |}.
Definition set_v_batch_inval v (s : xe_vm) : xe_vm :=
  {| v_flags := v_flags s; v_size := v_size s; v_refs := v_refs s; v_vmas := v_vmas s; v_ufences := v_ufences s; v_ops := v_ops s; v_next := v_next s; v_tree := v_tree s; v_last_fault := v_last_fault s; v_rebind_list := v_rebind_list s; v_pending := v_pending s; v_bos := v_bos s; v_pagemaps := v_pagemaps s; v_vops := v_vops s; v_queues := v_queues s; v_num_queues := v_num_queues s; v_lr := v_lr s; v_fences := v_fences s; v_deactivated := v_deactivated s; v_pt_root := v_pt_root s; v_scratch := v_scratch s; v_bind_q := v_bind_q s; v_asid := v_asid s; v_faults := v_faults s; v_xef := v_xef s; v_batch_inval := v; v_freed := v_freed s; v_trace := v_trace s |}.
Definition set_v_freed v (s : xe_vm) : xe_vm :=
  {| v_flags := v_flags s; v_size := v_size s; v_refs := v_refs s; v_vmas := v_vmas s; v_ufences := v_ufences s; v_ops := v_ops s; v_next := v_next s; v_tree := v_tree s; v_last_fault := v_last_fault s; v_rebind_list := v_rebind_list s; v_pending := v_pending s; v_bos := v_bos s; v_pagemaps := v_pagemaps s; v_vops := v_vops s; v_queues := v_queues s; v_num_queues := v_num_queues s; v_lr := v_lr s; v_fences := v_fences s; v_deactivated := v_deactivated s; v_pt_root := v_pt_root s; v_scratch := v_scratch s; v_bind_q := v_bind_q s; v_asid := v_asid s; v_faults := v_faults s; v_xef := v_xef s; v_batch_inval := v_batch_inval s; v_freed := v; v_trace := v_trace s |}.
Definition set_v_trace v (s : xe_vm) : xe_vm :=
  {| v_flags := v_flags s; v_size := v_size s; v_refs := v_refs s; v_vmas := v_vmas s; v_ufences := v_ufences s; v_ops := v_ops s; v_next := v_next s; v_tree := v_tree s; v_last_fault := v_last_fault s; v_rebind_list := v_rebind_list s; v_pending := v_pending s; v_bos := v_bos s; v_pagemaps := v_pagemaps s; v_vops := v_vops s; v_queues := v_queues s; v_num_queues := v_num_queues s; v_lr := v_lr s; v_fences := v_fences s; v_deactivated := v_deactivated s; v_pt_root := v_pt_root s; v_scratch := v_scratch s; v_bind_q := v_bind_q s; v_asid := v_asid s; v_faults := v_faults s; v_xef := v_xef s; v_batch_inval := v_batch_inval s; v_freed := v_freed s; v_trace := v |}.

(** The state without its bookkeeping: the operation store, the next address, the
    lookup cache, the request in progress and the trace. *)
Definition no_vops : xe_vma_ops := {|
  vo_list := []; vo_flags := 0; vo_num_ops := ∅; vo_tile_q := ∅; vo_wait_bookkeep := [];
  vo_allocated := []; vo_q := None; vo_syncs := [] |}.

Definition core (s : xe_vm) : xe_vm :=
  {| v_flags := v_flags s; v_size := v_size s; v_refs := v_refs s; v_vmas := v_vmas s; v_ufences := v_ufences s; v_ops := ∅; v_next := 0; v_tree := v_tree s; v_last_fault := None; v_rebind_list := v_rebind_list s; v_pending := v_pending s; v_bos := v_bos s; v_pagemaps := v_pagemaps s; v_vops := no_vops; v_queues := v_queues s; v_num_queues := v_num_queues s; v_lr := v_lr s; v_fences := v_fences s; v_deactivated := v_deactivated s; v_pt_root := v_pt_root s; v_scratch := v_scratch s; v_bind_q := v_bind_q s; v_asid := v_asid s; v_faults := v_faults s; v_xef := v_xef s; v_batch_inval := v_batch_inval s; v_freed := v_freed s; v_trace := [] |}.

(** ** Calls *)

Definition event (e : ext) (args : list Z) : ST xe_vm unit :=
  modify (fun s => set_v_trace (Ev e args :: v_trace s) s).

Section Calls.
Context `{VmOracle}.

Definition ask (e : ext) (args : list Z) : ST xe_vm (res unit) :=
  event e args ;;; gets (fun s => answer (v_trace s)).
Definition ask_bool (e : ext) (args : list Z) : ST xe_vm bool :=
  event e args ;;; gets (fun s => answer_bool (v_trace s)).
Definition ask_z (e : ext) (args : list Z) : ST xe_vm Z :=
  event e args ;;; gets (fun s => answer_z (v_trace s)).

End Calls.

(** Continue on success, return the error otherwise. *)
Definition bind_res {A B} (c : ST xe_vm (res A)) (k : A -> ST xe_vm (res B)) : ST xe_vm (res B) :=
  r <-- c ;; match r with Ok a => k a | Err e => ret (Err e) end.

Notation "x <-? c ;; k" := (bind_res c (fun x => k))
  (at level 60, c at next level, right associativity) : st_scope.

(** A dummy VMA and operation for a dangling pointer; a lookup in the stores is
    always of a live object in well-formed states. *)
Definition zero_attr : xe_vma_mem_attr := {|
  ma_devmem_fd := 0; ma_migration_policy := 0; ma_dpagemap := None; ma_atomic_access := 0;
  ma_default_pat_index := 0; ma_pat_index := 0; ma_purgeable_state := 0 |}.
Definition zero_vma : xe_vma := {|
  va_addr := 0; va_range := 0; va_flags := 0; va_bo := None; va_offset := 0; va_tile_mask := 0;
  va_tile_present := 0; va_tile_invalidated := 0; va_attr := zero_attr |}.

Definition get_vma (v : Z) (s : xe_vm) : xe_vma := default zero_vma (v_vmas s !! v).
(** What [drm_gpuvm] knows of the inserted VMAs. *)
Definition gpuvas (s : xe_vm) : gpuva_set :=
  map_imap (fun v r => x ← v_vmas s !! v;
    Some {| gm_addr := r.1; gm_range := r.2; gm_obj := va_bo x; gm_offset := va_offset x |}) (v_tree s).

Definition get_op (o : Z) (s : xe_vm) : xe_vma_op := default (new_op GpuvaDriver) (v_ops s !! o).

Definition upd_vma (v : Z) (f : xe_vma -> xe_vma) : ST xe_vm unit :=
  modify (fun s => set_v_vmas (alter f v (v_vmas s)) s).
Definition upd_op (o : Z) (f : xe_vma_op -> xe_vma_op) : ST xe_vm unit :=
  modify (fun s => set_v_ops (alter f o (v_ops s)) s).
Definition upd_bo (b : Z) (f : vm_bo -> vm_bo) : ST xe_vm unit :=
  modify (fun s => set_v_bos (alter f b (v_bos s)) s).
Definition upd_vops (f : xe_vma_ops -> xe_vma_ops) : ST xe_vm unit :=
  modify (fun s => set_v_vops (f (v_vops s)) s).

Definition xe_vm_get : ST xe_vm unit := modify (fun s => set_v_refs (v_refs s + 1) s).
Definition xe_bo_get (b : Z) : ST xe_vm unit := upd_bo b (fun x => set_vb_refs (vb_refs x + 1) x).
Definition xe_bo_put (b : Z) : ST xe_vm unit := upd_bo b (fun x => set_vb_refs (vb_refs x - 1) x).

Section Accessors.
Context `{VmFlags}.

(** The accessors of [xe_vm.h] and [xe_vma.h]. *)
Definition xe_vma_start (v : xe_vma) : Z := va_addr v.
Definition xe_vma_size (v : xe_vma) : Z := va_range v.
Definition xe_vma_end (v : xe_vma) : Z := va_addr v +64 va_range v.
Definition xe_vma_is_null (v : xe_vma) : bool := test (va_flags v) DRM_GPUVA_SPARSE.
Definition xe_vma_is_cpu_addr_mirror (v : xe_vma) : bool := test (va_flags v) XE_VMA_SYSTEM_ALLOCATOR.
Definition xe_vma_has_no_bo (v : xe_vma) : bool := bool_decide (va_bo v = None).
Definition xe_vma_is_userptr (v : xe_vma) : bool :=
  xe_vma_has_no_bo v && negb (xe_vma_is_null v) && negb (xe_vma_is_cpu_addr_mirror v).
Definition xe_vma_read_only (v : xe_vma) : bool := test (va_flags v) XE_VMA_READ_ONLY.
Definition xe_vm_in_fault_mode (s : xe_vm) : bool := test (v_flags s) XE_VM_FLAG_FAULT_MODE.
Definition xe_vm_in_lr_mode (s : xe_vm) : bool := test (v_flags s) XE_VM_FLAG_LR_MODE.
Definition xe_vm_in_preempt_fence_mode (s : xe_vm) : bool :=
  xe_vm_in_lr_mode s && negb (xe_vm_in_fault_mode s).
Definition xe_vm_has_scratch (s : xe_vm) : bool := test (v_flags s) XE_VM_FLAG_SCRATCH_PAGE.
Definition xe_vm_is_closed_or_banned (s : xe_vm) : bool :=
  (v_size s =? 0) || test (v_flags s) XE_VM_FLAG_BANNED.
End Accessors.
