(* ===== verification/Vma.v ===== *)
(** VMAs, [xe_vm.c]: creation, destruction, insertion into and removal from the
    address space, and the lookups. *)
From stdpp Require Import base numbers list gmap.
From S2P Require Import Prelude.
From S2P Require Import VmState.

Section Vma.
Context `{VmFlags, VmOracle, DrmGpuvm}.
Context (dev : vm_device).

(** [drm_pagemap_get] and [drm_pagemap_put]; both accept NULL. *)
Definition drm_pagemap_get (p : option Z) : ST xe_vm unit :=
  match p with
  | None => ret tt
  | Some m => modify (fun s => set_v_pagemaps (alter (fun n => n + 1) m (v_pagemaps s)) s)
  end.
Definition drm_pagemap_put (p : option Z) : ST xe_vm unit :=
  match p with
  | None => ret tt
  | Some m => modify (fun s => set_v_pagemaps (alter (fun n => n - 1) m (v_pagemaps s)) s)
  end.

(** [gpuvm_ops.vm_free]: the last reference queues the destruction. *)
Definition xe_vm_free : ST xe_vm unit := event queue_destroy_work [].

Definition xe_vm_put : ST xe_vm unit :=
  modify (fun s => set_v_refs (v_refs s - 1) s) ;;;
  n <-- gets v_refs ;;
  when (n =? 0) xe_vm_free.

Definition xe_vma_mem_attr_fini (attr : xe_vma_mem_attr) : ST xe_vm unit :=
  drm_pagemap_put (ma_dpagemap attr).

Definition xe_vma_free (v : Z) : ST xe_vm unit :=
  vma <-- gets (get_vma v) ;;
  xe_vma_mem_attr_fini (va_attr vma) ;;;
  modify (fun s => set_v_vmas (delete v (v_vmas s)) s).

(** [xe_vma_mem_attr_copy(&vma->attr, from)]. *)
Definition xe_vma_mem_attr_copy (v : Z) (from : xe_vma_mem_attr) : ST xe_vm unit :=
  vma <-- gets (get_vma v) ;;
  xe_vma_mem_attr_fini (va_attr vma) ;;;
  upd_vma v (set_va_attr from) ;;;
  drm_pagemap_get (ma_dpagemap from).

(** [for_each_tile(tile, xe, id) mask |= 0x1 << id]. *)
Definition all_tiles_mask : Z := foldr (fun id m => Z.lor m (BIT id)) 0 (dv_tiles dev).

(** The fresh, zero-initialised VMA with its range and flags. *)
Definition vma_init (bo : option Z) (start end_ flags : Z) : xe_vma := {|
  va_addr := start;
  va_range := end_ -64 start +64 1;
  va_flags := if dv_has_atomic_pte dev then flags ||| XE_VMA_ATOMIC_PTE_BIT else flags;
  va_bo := bo; va_offset := 0; va_tile_mask := all_tiles_mask; va_tile_present := 0;
  va_tile_invalidated := 0; va_attr := zero_attr |}.

(** The part of [xe_vma_create] that ties a VMA to its buffer object. *)
Definition xe_vma_create_bo (v b : Z) (offset : Z) (attr : xe_vma_mem_attr) : ST xe_vm (res Z) :=
  bo <-- gets (fun s => v_bos s !! b) ;;
  let willneed := ma_purgeable_state attr =? XE_MADV_PURGEABLE_WILLNEED in
  if willneed && from_option vb_dontneed false bo then xe_vma_free v ;;; ret (Err EBUSY)
  else if willneed && from_option vb_purged false bo then xe_vma_free v ;;; ret (Err EINVAL)
  else
    r <-- ask drm_gpuvm_bo_obtain [b] ;;
    match r with
    | Err e => xe_vma_free v ;;; ret (Err e)
    | Ok _ =>
        xe_bo_get b ;;;
        upd_vma v (set_va_offset offset) ;;;
        upd_bo b (fun x => set_vb_vma_count (vb_vma_count x + 1) x) ;;;
        when willneed (upd_bo b (fun x => set_vb_willneed (vb_willneed x + 1) x)) ;;;
        ret (Ok v)
    end.

Definition xe_vma_create (bo : option Z) (bo_offset_or_userptr start end_ : Z)
    (attr : xe_vma_mem_attr) (flags : Z) : ST xe_vm (res Z) :=
  let is_null := test flags DRM_GPUVA_SPARSE in
  let is_cpu_addr_mirror := test flags XE_VMA_SYSTEM_ALLOCATOR in
  r <-- ask kmalloc [] ;;
  match r with
  | Err _ => ret (Err ENOMEM)
  | Ok _ =>
      v <-- gets v_next ;;
      modify (fun s => set_v_next (v + 1)
        (set_v_vmas (<[v := vma_init bo start end_ flags]> (v_vmas s)) s)) ;;;
      xe_vma_mem_attr_copy v attr ;;;
      match bo with
      | Some b => xe_vma_create_bo v b bo_offset_or_userptr attr
      | None =>
          if negb is_null && negb is_cpu_addr_mirror then
            upd_vma v (set_va_offset bo_offset_or_userptr) ;;;
            r <-- ask xe_userptr_setup [v; bo_offset_or_userptr; end_ -64 start +64 1] ;;
            match r with
            | Err e => xe_vma_free v ;;; ret (Err e)
            | Ok _ => xe_vm_get ;;; ret (Ok v)
            end
          else xe_vm_get ;;; ret (Ok v)
      end
  end.

Definition xe_vma_destroy_late (v : Z) : ST xe_vm unit :=
  vma <-- gets (get_vma v) ;;
  ufence <-- gets (fun s => v_ufences s !! v) ;;
  match ufence with
  | Some f =>
      event ufence_put [f] ;;;
      modify (fun s => set_v_ufences (delete v (v_ufences s)) s)
  | None => ret tt
  end ;;;
  (if xe_vma_is_userptr vma then event xe_userptr_remove [v] ;;; xe_vm_put
   else if xe_vma_is_null vma || xe_vma_is_cpu_addr_mirror vma then xe_vm_put
   else match va_bo vma with Some b => xe_bo_put b | None => ret tt end) ;;;
  xe_vma_free v.

Definition vma_destroy_work_func (v : Z) : ST xe_vm unit := xe_vma_destroy_late v.

(** The fence signals: the callback queues the work, which then runs. *)
Definition vma_destroy_cb (v : Z) : ST xe_vm unit :=
  modify (fun s => set_v_pending (filter (fun x => x <> v) (v_pending s)) s) ;;;
  vma_destroy_work_func v.

(** With a fence the destruction waits for it, unless it has signalled already
    ([dma_fence_add_callback] fails). *)
Definition xe_vma_destroy (v : Z) (fence : bool) : ST xe_vm unit :=
  vma <-- gets (get_vma v) ;;
  (if xe_vma_is_userptr vma then event xe_userptr_destroy [v]
   else if negb (xe_vma_is_null vma) && negb (xe_vma_is_cpu_addr_mirror vma) then
     match va_bo vma with
     | Some b =>
         upd_bo b (fun x => set_vb_vma_count (vb_vma_count x - 1) x) ;;;
         when (ma_purgeable_state (va_attr vma) =? XE_MADV_PURGEABLE_WILLNEED)
           (upd_bo b (fun x => set_vb_willneed (vb_willneed x - 1) x))
     | None => ret tt
     end
   else ret tt) ;;;
  if fence then
    r <-- ask dma_fence_add_callback [v] ;;
    match r with
    | Err _ => xe_vma_destroy_late v
    | Ok _ => modify (fun s => set_v_pending (v_pending s ++ [v]) s)
    end
  else xe_vma_destroy_late v.

(** [bo && !bo->vm]. *)
Definition bo_is_external (b : Z) (s : xe_vm) : bool :=
  negb (from_option vb_vm false (v_bos s !! b)).

(** [call] is the lock of the [drm_exec], which may be interruptible or not. *)
Definition xe_vm_lock_vma (call : ext) (v : Z) : ST xe_vm (res unit) :=
  vma <-- gets (get_vma v) ;;
  err <-- ask call [0] ;;
  match err, va_bo vma with
  | Ok _, Some b =>
      ext <-- gets (bo_is_external b) ;;
      if ext then ask call [b] else ret (Ok tt)
  | _, _ => ret err
  end.

(** A contended locking round is repeated before anything else happens; the locks
    are the ones of its last round. *)
Definition xe_vma_destroy_unlocked (v : Z) : ST xe_vm unit :=
  err <-- xe_vm_lock_vma drm_exec_lock_uninterruptible v ;;
  match err with
  | Err _ => ret tt
  | Ok _ => xe_vma_destroy v false
  end.

Definition xe_vm_find_overlapping_vma (start range : Z) (s : xe_vm) : option Z :=
  if xe_vm_is_closed_or_banned s then None
  else drm_gpuva_find_first (v_tree s) start range.

Definition xe_vm_insert_vma (v : Z) : ST xe_vm (res unit) :=
  vma <-- gets (get_vma v) ;;
  r <-- gets (fun s => drm_gpuva_insert (v_tree s) v (va_addr vma, va_range vma)) ;;
  match r with
  | Ok t => modify (set_v_tree t) ;;; ret (Ok tt)
  | Err e => ret (Err e)
  end.

Definition xe_vm_remove_vma (v : Z) : ST xe_vm unit :=
  modify (fun s => set_v_tree (delete v (v_tree s)) s) ;;;
  last <-- gets v_last_fault ;;
  when (bool_decide (last = Some v)) (modify (set_v_last_fault None)).

Definition prep_vma_destroy (v : Z) (post_commit : bool) : ST xe_vm unit :=
  upd_vma v (fun x => set_va_flags (va_flags x ||| XE_VMA_DESTROYED) x) ;;;
  when post_commit (xe_vm_remove_vma v).

Definition vma_matches (vma : xe_vma) (page_addr : Z) : bool :=
  negb ((xe_vma_end vma -64 1 <? page_addr) || (page_addr +64 SZ_4K -64 1 <? xe_vma_start vma)).

Definition xe_vm_find_vma_by_addr (page_addr : Z) (s : xe_vm) : option Z :=
  let fast :=
    match v_last_fault s with
    | Some v => if vma_matches (get_vma v s) page_addr then Some v else None
    | None => None
    end in
  match fast with
  | Some v => Some v
  | None => xe_vm_find_overlapping_vma page_addr SZ_4K s
  end.

Definition xe_vma_max_pte_size (vma : xe_vma) : Z :=
  if test (va_flags vma) XE_VMA_PTE_1G then SZ_1G
  else if test (va_flags vma) (XE_VMA_PTE_2M ||| XE_VMA_PTE_COMPACT) then SZ_2M
  else if test (va_flags vma) XE_VMA_PTE_64K then SZ_64K
  else if test (va_flags vma) XE_VMA_PTE_4K then SZ_4K
  else SZ_1G.

Definition xe_vma_set_pte_size (size : Z) (vma : xe_vma) : xe_vma :=
  if size =? SZ_1G then set_va_flags (va_flags vma ||| XE_VMA_PTE_1G) vma
  else if size =? SZ_2M then set_va_flags (va_flags vma ||| XE_VMA_PTE_2M) vma
  else if size =? SZ_64K then set_va_flags (va_flags vma ||| XE_VMA_PTE_64K) vma
  else if size =? SZ_4K then set_va_flags (va_flags vma ||| XE_VMA_PTE_4K) vma
  else vma.

Definition xe_vma_has_default_mem_attrs (vma : xe_vma) : bool :=
  let a := va_attr vma in
  (ma_atomic_access a =? DRM_XE_ATOMIC_UNDEFINED) && (ma_pat_index a =? ma_default_pat_index a) &&
  (ma_devmem_fd a =? DRM_XE_PREFERRED_LOC_DEFAULT_DEVICE) &&
  (ma_migration_policy a =? DRM_XE_MIGRATE_ALL_PAGES).

Definition is_cpu_addr_vma_with_default_attr (v : option Z) (s : xe_vm) : bool :=
  match v with
  | None => false
  | Some v =>
      xe_vma_is_cpu_addr_mirror (get_vma v s) && xe_vma_has_default_mem_attrs (get_vma v s)
  end.

(** Widen [start, end) over neighbouring mirror VMAs with default attributes. *)
Definition xe_vm_find_cpu_addr_mirror_vma_range (start end_ : Z) (s : xe_vm) : Z * Z :=
  let start' :=
    if SZ_4K <=? start then
      let prev := xe_vm_find_vma_by_addr (start -64 SZ_4K) s in
      match prev with
      | Some p => if is_cpu_addr_vma_with_default_attr prev s then xe_vma_start (get_vma p s) else start
      | None => start
      end
    else start in
  let end' :=
    if end_ <? v_size s then
      let next := xe_vm_find_vma_by_addr (end_ +64 1) s in
      match next with
      | Some n => if is_cpu_addr_vma_with_default_attr next s then xe_vma_end (get_vma n s) else end_
      | None => end_
      end
    else end_ in
  (start', end').

(** Needs VRAM for an atomic access: 0, 1 or an error. *)
Definition xe_vma_need_vram_for_atomic (v : Z) (is_atomic : bool) (s : xe_vm) : res bool :=
  let vma := get_vma v s in
  let atomic_access :=
    match va_bo vma with
    | Some b => from_option vb_atomic_access 0 (v_bos s !! b)
    | None => ma_atomic_access (va_attr vma)
    end in
  if negb (dv_is_dgfx dev) || negb is_atomic then Ok false
  else if atomic_access =? DRM_XE_ATOMIC_DEVICE then Ok (negb (dv_device_atomics_on_smem dev))
  else if atomic_access =? DRM_XE_ATOMIC_CPU then Err EACCES
  else Ok true.

(** * Preempt fences of a new mapping *)

Definition add_preempt_fences (b : Z) : ST xe_vm (res unit) :=
  n <-- gets v_num_queues ;;
  if n =? 0 then ret (Ok tt)
  else
    _ <-? ask dma_resv_reserve_fences [b; n] ;;
    qs <-- gets v_queues ;;
    for_each qs (fun q =>
      lq <-- gets (fun s => v_lr s !! q) ;;
      match lq with
      | Some x =>
          match lq_pfence x with
          | Some f => event dma_resv_add_fence [b; f]
          | None => ret tt
          end
      | None => ret tt
      end) ;;;
    ret (Ok tt).

(** * [new_vma] *)

(** The locks of the guard around the creation with a buffer object. *)
Definition new_vma_lock (b : Z) : ST xe_vm (res unit) :=
  ext <-- gets (bo_is_external b) ;;
  _ <-? (if ext then ask drm_exec_lock_obj [0] else ret (Ok tt)) ;;
  ask drm_exec_lock_obj [b].

Definition new_vma (op : gpuva_map) (attr : xe_vma_mem_attr) (flags : Z) : ST xe_vm (res Z) :=
  let end_ := gm_addr op +64 gm_range op -64 1 in
  match gm_obj op with
  | Some b =>
      _ <-? new_vma_lock b ;;
      v <-? xe_vma_create (Some b) (gm_offset op) (gm_addr op) end_ attr flags ;;
      ext <-- gets (bo_is_external b) ;;
      if ext then
        err <-- add_preempt_fences b ;;
        match err with
        | Err e =>
            prep_vma_destroy v false ;;;
            xe_vma_destroy v false ;;;
            ret (Err e)
        | Ok _ => ret (Ok v)
        end
      else ret (Ok v)
  | None =>
      v <-? xe_vma_create None (gm_offset op) (gm_addr op) end_ attr flags ;;
      vma <-- gets (get_vma v) ;;
      if xe_vma_is_userptr vma then
        err <-- ask xe_vma_userptr_pin_pages [v] ;;
        match err with
        | Err e =>
            prep_vma_destroy v false ;;;
            xe_vma_destroy_unlocked v ;;;
            ret (Err (if bool_decide (e = EBUSY) then ENOMEM else e))
        | Ok _ => ret (Ok v)
        end
      else ret (Ok v)
  end.

End Vma.
