(* ===== verification/VmBind.v ===== *)
(** The bind transaction, [xe_vm.c]: operations are created, parsed and committed to
    the address space one by one, and unwound in reverse when the request fails. *)
From stdpp Require Import base numbers list gmap.
From S2P Require Import Prelude.
From S2P Require Import VmArgs.
From S2P Require Import VmState.
From S2P Require Import Vma.

Section VmBind.
Context `{BindUapi, VmFlags, VmOracle, DrmGpuvm}.
Context (dev : vm_device).

(** * The request *)

Definition xe_vma_ops_init (q : option Z) (syncs : list bool) : ST xe_vm unit :=
  modify (set_v_vops (set_vo_syncs syncs (set_vo_q q no_vops))).

(** Tile indices [0 .. XE_MAX_TILES_PER_DEVICE - 1]. *)
Definition tile_ids : list Z := Z.of_nat <$> seq 0 (Z.to_nat XE_MAX_TILES_PER_DEVICE).

Definition num_ops_of (vops : xe_vma_ops) (i : Z) : Z := default 0 (vo_num_ops vops !! i).

Definition xe_vma_ops_alloc (array_of_binds : bool) : ST xe_vm (res unit) :=
  for_err tile_ids (fun i =>
    n <-- gets (fun s => num_ops_of (v_vops s) i) ;;
    if n =? 0 then ret (Ok tt)
    else
      r <-- ask kmalloc [i; n] ;;
      match r with
      | Err _ => ret (Err (if array_of_binds then ENOBUFS else ENOMEM))
      | Ok _ => upd_vops (fun v => set_vo_allocated (i :: vo_allocated v) v) ;;; ret (Ok tt)
      end).

Definition xe_vma_svm_prefetch_op_fini (o : Z) : ST xe_vm unit :=
  op <-- gets (get_op o) ;;
  match op_base op with
  | GpuvaPrefetch va =>
      vma <-- gets (get_vma va) ;;
      when (xe_vma_is_cpu_addr_mirror vma)
        (event xa_destroy_range [o] ;;; upd_op o (set_of_ranges []))
  | _ => ret tt
  end.

Definition xe_vma_svm_prefetch_ops_fini : ST xe_vm unit :=
  vops <-- gets v_vops ;;
  when (test (vo_flags vops) XE_VMA_OPS_FLAG_HAS_SVM_PREFETCH)
    (for_each (vo_list vops) xe_vma_svm_prefetch_op_fini).

Definition xe_vma_ops_fini : ST xe_vm unit :=
  xe_vma_svm_prefetch_ops_fini ;;;
  upd_vops (set_vo_allocated []).

Definition xe_vma_ops_incr_pt_update_ops (tile_mask inc_val : Z) : ST xe_vm unit :=
  if inc_val =? 0 then ret tt
  else
    for_each tile_ids (fun i =>
      when (test (BIT i) tile_mask)
        (upd_vops (fun v => set_vo_num_ops (<[i := num_ops_of v i + inc_val]> (vo_num_ops v)) v))).

(** * Creating the operations *)

Definition __xe_vm_needs_clear_scratch_pages (bind_flags : Z) (s : xe_vm) : bool :=
  if negb (xe_vm_in_fault_mode s) then false
  else if negb (xe_vm_has_scratch s) then false
  else if test bind_flags DRM_XE_VM_BIND_FLAG_IMMEDIATE then false
  else true.

(** Store each operation of [drm_gpuvm] in a zeroed [xe_vma_op]. *)
Fixpoint alloc_ops (l : list gpuva_op) : ST xe_vm (list Z) :=
  match l with
  | [] => ret []
  | g :: l' =>
      o <-- gets v_next ;;
      modify (fun s => set_v_next (o + 1) (set_v_ops (<[o := new_op g]> (v_ops s)) s)) ;;;
      os <-- alloc_ops l' ;;
      ret (o :: os)
  end.

(** The [switch (operation)]: which operations [drm_gpuvm] is asked for. *)
Definition ops_create_switch (bo : option Z) (bo_offset_or_userptr addr range operation flags : Z)
    : ST xe_vm (res (list gpuva_op)) :=
  let map_ops (range_start range_end : Z) :=
    gets (fun s => drm_gpuvm_sm_map_ops_create (gpuvas s)
      {| gm_addr := range_start; gm_range := range_end -64 range_start; gm_obj := bo;
         gm_offset := bo_offset_or_userptr |}) in
  if operation =? DRM_XE_VM_BIND_OP_MAP then
    if test flags DRM_XE_VM_BIND_FLAG_CPU_ADDR_MIRROR then
      r <-- gets (xe_vm_find_cpu_addr_mirror_vma_range addr (addr +64 range)) ;;
      upd_vops (fun v => set_vo_flags (vo_flags v ||| XE_VMA_OPS_FLAG_ALLOW_SVM_UNMAP) v) ;;;
      map_ops r.1 r.2
    else map_ops addr (addr +64 range)
  else if operation =? DRM_XE_VM_BIND_OP_MAP_USERPTR then map_ops addr (addr +64 range)
  else if operation =? DRM_XE_VM_BIND_OP_UNMAP then
    gets (fun s => drm_gpuvm_sm_unmap_ops_create (gpuvas s) addr range)
  else if operation =? DRM_XE_VM_BIND_OP_PREFETCH then
    gets (fun s => drm_gpuvm_prefetch_ops_create (gpuvas s) addr range)
  else if operation =? DRM_XE_VM_BIND_OP_UNMAP_ALL then
    let b := default 0 bo in
    _ <-? ask xe_bo_lock [b] ;;
    _ <-? ask drm_gpuvm_bo_obtain [b] ;;
    gets (fun s => drm_gpuvm_bo_unmap_ops_create (gpuvas s) b)
  else ret (Err EINVAL).

(** The flags a MAP operation takes from the bind flags. *)
Definition map_vma_flags (flags f : Z) : Z :=
  let f := if test flags DRM_XE_VM_BIND_FLAG_READONLY then f ||| XE_VMA_READ_ONLY else f in
  let f := if test flags DRM_XE_VM_BIND_FLAG_NULL then f ||| DRM_GPUVA_SPARSE else f in
  let f := if test flags DRM_XE_VM_BIND_FLAG_CPU_ADDR_MIRROR then f ||| XE_VMA_SYSTEM_ALLOCATOR else f in
  let f := if test flags DRM_XE_VM_BIND_FLAG_DUMPABLE then f ||| XE_VMA_DUMPABLE else f in
  if test flags DRM_XE_VM_BIND_FLAG_MADVISE_AUTORESET then f ||| XE_VMA_MADV_AUTORESET else f.

Definition setup_map_op (o flags pat_index : Z) : ST xe_vm unit :=
  inval <-- gets (__xe_vm_needs_clear_scratch_pages flags) ;;
  upd_op o (fun op =>
    set_om_invalidate_on_bind inval
      (set_om_pat_index pat_index
        (set_om_request_decompress (test flags DRM_XE_VM_BIND_FLAG_DECOMPRESS)
          (set_om_vma_flags (map_vma_flags flags (om_vma_flags op))
            (set_om_immediate (test flags DRM_XE_VM_BIND_FLAG_IMMEDIATE) op))))).

(** The loop at [alloc_next_range]: collect the SVM ranges to prefetch from [addr]
    up to [range_end].  The result is the value of [addr] at the end.  Every round
    moves [addr] to the end of a range or to a later VMA, at least a page up. *)
Fixpoint collect_ranges (fuel : nat) (o v addr range_end tile_mask dpagemap : Z)
    : ST xe_vm (res Z) :=
  match fuel with
  | O => ret (Ok addr)
  | S n =>
      r <-- ask xe_svm_range_find_or_insert [addr; v] ;;
      match r with
      | Err ENOENT =>
          next <-- ask_z xe_svm_find_vma_start [addr; range_end; v] ;;
          let addr := if next =? U64_MAX then 0 else next in
          if negb (addr =? 0) then collect_ranges n o v addr range_end tile_mask dpagemap
          else ret (Ok addr)
      | Err e => ret (Err e)
      | Ok _ =>
          range <-- gets (fun s => answer_z (v_trace s)) ;;
          valid <-- ask_bool xe_svm_range_validate [range; tile_mask; dpagemap] ;;
          err <-- (if valid then ret (Ok tt)
                   else
                     _ <-? ask xa_alloc_range [o; range] ;;
                     upd_op o (fun op => set_of_ranges (of_ranges op ++ [range]) op) ;;;
                     upd_vops (fun w => set_vo_flags (vo_flags w ||| XE_VMA_OPS_FLAG_HAS_SVM_PREFETCH) w) ;;;
                     ret (Ok tt)) ;;
          match err with
          | Err e => ret (Err e)
          | Ok _ =>
              end_ <-- ask_z xe_svm_range_end [range] ;;
              vma_end <-- gets (fun s => xe_vma_end (get_vma v s)) ;;
              if (end_ <? range_end) && (end_ <? vma_end)
              then collect_ranges n o v end_ range_end tile_mask dpagemap
              else ret (Ok addr)
          end
      end
  end.

(** A PREFETCH of a mirror VMA. *)
Definition setup_prefetch_mirror (o v addr range_end prefetch_region : Z) : ST xe_vm (res Z) :=
  upd_op o (set_of_ranges []) ;;;
  dpagemap <-- (if prefetch_region =? DRM_XE_CONSULT_MEM_ADVISE_PREF_LOC
                then ask_z xe_vma_resolve_pagemap [v]
                else if negb (prefetch_region =? 0)
                then ask_z xe_tile_local_pagemap [prefetch_region]
                else ret 0) ;;
  upd_op o (set_of_dpagemap (if dpagemap =? 0 then None else Some dpagemap)) ;;;
  collect_ranges (S (Z.to_nat ((range_end - addr) / SZ_4K))) o v addr range_end
    (all_tiles_mask dev) dpagemap.

(** The loop over the operations.  A PREFETCH of a VMA that is not a mirror leaves
    it ([break]); [addr] is carried from one operation to the next. *)
Fixpoint setup_ops (os : list Z) (addr range_end flags prefetch_region pat_index : Z)
    : ST xe_vm (res unit) :=
  match os with
  | [] => ret (Ok tt)
  | o :: os' =>
      op <-- gets (get_op o) ;;
      match op_base op with
      | GpuvaMap _ =>
          setup_map_op o flags pat_index ;;;
          setup_ops os' addr range_end flags prefetch_region pat_index
      | GpuvaPrefetch v =>
          vma <-- gets (get_vma v) ;;
          if negb (xe_vma_is_cpu_addr_mirror vma) then
            upd_op o (set_of_region prefetch_region) ;;; ret (Ok tt)
          else
            addr' <-? setup_prefetch_mirror o v addr range_end prefetch_region ;;
            setup_ops os' addr' range_end flags prefetch_region pat_index
      | _ => setup_ops os' addr range_end flags prefetch_region pat_index
      end
  end.

Definition xe_svm_prefetch_gpuva_ops_fini (os : list Z) : ST xe_vm unit :=
  for_each os xe_vma_svm_prefetch_op_fini.

Definition gpuva_ops_free (os : list Z) : ST xe_vm unit :=
  event drm_gpuva_ops_free os ;;;
  for_each os (fun o => modify (fun s => set_v_ops (delete o (v_ops s)) s)).

Definition vm_bind_ioctl_ops_create (bo : option Z) (bo_offset_or_userptr addr range operation flags
    prefetch_region pat_index : Z) : ST xe_vm (res (list Z)) :=
  l <-? ops_create_switch bo bo_offset_or_userptr addr range operation flags ;;
  os <-- alloc_ops l ;;
  err <-- setup_ops os addr (addr +64 range) flags prefetch_region pat_index ;;
  match err with
  | Err e =>
      xe_svm_prefetch_gpuva_ops_fini os ;;;
      gpuva_ops_free os ;;;
      ret (Err e)
  | Ok _ => ret (Ok os)
  end.

(** * Committing *)

(** [err |= e]: the first error, or the next one. *)
Definition or_err (a b : res unit) : res unit := match a with Err e => Err e | Ok _ => b end.

Definition op_set_flag (o f : Z) : ST xe_vm unit :=
  upd_op o (fun op => set_op_flags (op_flags op ||| f) op).

(** Insert one side of a REMAP. *)
Definition commit_side (o : Z) (side : option Z) (skip : bool) (flag tile_present : Z)
    (err : res unit) : ST xe_vm (res unit) :=
  match side with
  | None => ret err
  | Some v =>
      r <-- xe_vm_insert_vma v ;;
      let err := or_err err r in
      when (is_ok err) (op_set_flag o flag) ;;;
      when (is_ok err && skip) (upd_vma v (set_va_tile_present tile_present)) ;;;
      ret err
  end.

Definition xe_vma_op_commit (o : Z) : ST xe_vm (res unit) :=
  op <-- gets (get_op o) ;;
  match op_base op with
  | GpuvaMap _ =>
      match om_vma op with
      | None => ret (Ok tt)
      | Some v =>
          err <-- xe_vm_insert_vma v ;;
          when (is_ok err) (op_set_flag o XE_VMA_OP_COMMITTED) ;;;
          ret err
      end
  | GpuvaRemap _ _ old =>
      tile_present <-- gets (fun s => va_tile_present (get_vma old s)) ;;
      prep_vma_destroy old true ;;;
      op_set_flag o XE_VMA_OP_COMMITTED ;;;
      err <-- commit_side o (or_prev op) (or_skip_prev op) XE_VMA_OP_PREV_COMMITTED tile_present (Ok tt) ;;
      err <-- commit_side o (or_next op) (or_skip_next op) XE_VMA_OP_NEXT_COMMITTED tile_present err ;;
      when (is_ok err)
        (upd_vma old (fun x => set_va_range (or_range op) (set_va_addr (or_start op) x))) ;;;
      ret err
  | GpuvaUnmap va =>
      prep_vma_destroy va true ;;;
      op_set_flag o XE_VMA_OP_COMMITTED ;;;
      ret (Ok tt)
  | GpuvaPrefetch _ => op_set_flag o XE_VMA_OP_COMMITTED ;;; ret (Ok tt)
  | GpuvaDriver => ret (Ok tt)
  end.

(** * Parsing *)

Definition default_attr (pat_index : Z) : xe_vma_mem_attr := {|
  ma_devmem_fd := DRM_XE_PREFERRED_LOC_DEFAULT_DEVICE;
  ma_migration_policy := DRM_XE_MIGRATE_ALL_PAGES;
  ma_dpagemap := None;
  ma_atomic_access := DRM_XE_ATOMIC_UNDEFINED;
  ma_default_pat_index := pat_index;
  ma_pat_index := pat_index;
  ma_purgeable_state := XE_MADV_PURGEABLE_WILLNEED |}.

Definition parse_map (o : Z) (m : gpuva_map) : ST xe_vm (res unit) :=
  op <-- gets (get_op o) ;;
  v <-? new_vma dev m (default_attr (om_pat_index op)) (Z.land (om_vma_flags op) XE_VMA_CREATE_MASK) ;;
  upd_op o (set_om_vma (Some v)) ;;;
  fault_mode <-- gets xe_vm_in_fault_mode ;;
  when (((om_immediate op || negb fault_mode) &&
         negb (test (om_vma_flags op) XE_VMA_SYSTEM_ALLOCATOR)) || om_invalidate_on_bind op)
    (xe_vma_ops_incr_pt_update_ops (op_tile_mask op) 1) ;;;
  ret (Ok tt).

(** The range a REMAP removes: [old] less what [prev] and [next] keep. *)
Definition remap_hole (old : xe_vma) (prev next : option gpuva_map) : Z * Z :=
  (match prev with Some p => gm_addr p +64 gm_range p | None => xe_vma_start old end,
   match next with Some n => gm_addr n | None => xe_vma_end old end).

Definition parse_remap_prev (o : Z) (prev : option gpuva_map) (old : xe_vma) (skip : bool) (flags : Z)
    : ST xe_vm (res Z) :=
  match prev with
  | None => ret (Ok 0)
  | Some p =>
      v <-? new_vma dev p (va_attr old) flags ;;
      upd_op o (set_or_prev (Some v)) ;;;
      vma <-- gets (get_vma v) ;;
      let skip_prev := skip || (negb (xe_vma_is_userptr old) &&
                                IS_ALIGNED (xe_vma_end vma) (xe_vma_max_pte_size old)) in
      upd_op o (set_or_skip_prev skip_prev) ;;;
      if skip_prev then
        upd_vma v (xe_vma_set_pte_size (xe_vma_max_pte_size old)) ;;;
        upd_op o (fun op =>
          set_or_start (xe_vma_end vma)
            (set_or_range (or_range op -64 (xe_vma_end vma -64 xe_vma_start old)) op)) ;;;
        ret (Ok 0)
      else ret (Ok 1)
  end.

Definition parse_remap_next (o : Z) (next : option gpuva_map) (old : xe_vma) (skip : bool) (flags : Z)
    : ST xe_vm (res Z) :=
  match next with
  | None => ret (Ok 0)
  | Some n =>
      v <-? new_vma dev n (va_attr old) flags ;;
      upd_op o (set_or_next (Some v)) ;;;
      vma <-- gets (get_vma v) ;;
      let skip_next := skip || (negb (xe_vma_is_userptr old) &&
                                IS_ALIGNED (xe_vma_start vma) (xe_vma_max_pte_size old)) in
      upd_op o (set_or_skip_next skip_next) ;;;
      if skip_next then
        upd_vma v (xe_vma_set_pte_size (xe_vma_max_pte_size old)) ;;;
        upd_op o (fun op => set_or_range (or_range op -64 (xe_vma_end old -64 xe_vma_start vma)) op) ;;;
        ret (Ok 0)
      else ret (Ok 1)
  end.

Definition parse_remap (o : Z) (prev next : option gpuva_map) (old_id : Z) : ST xe_vm (res unit) :=
  old <-- gets (get_vma old_id) ;;
  op <-- gets (get_op o) ;;
  let skip := xe_vma_is_cpu_addr_mirror old in
  let '(start, end_) := remap_hole old prev next in
  mapped <-- (if skip then ask_bool xe_svm_has_mapping [start; end_] else ret false) ;;
  vops <-- gets v_vops ;;
  if mapped && negb (test (vo_flags vops) XE_VMA_OPS_FLAG_MADVISE) then ret (Err EBUSY)
  else
    when mapped (event xe_svm_unmap_address_range [start; end_]) ;;;
    upd_op o (fun op =>
      set_or_old_range (xe_vma_size old) (set_or_old_start (xe_vma_start old)
        (set_or_range (xe_vma_size old) (set_or_start (xe_vma_start old) op)))) ;;;
    let flags := Z.land (va_flags old) XE_VMA_CREATE_MASK in
    n1 <-? parse_remap_prev o prev old skip flags ;;
    n2 <-? parse_remap_next o next old skip flags ;;
    xe_vma_ops_incr_pt_update_ops (op_tile_mask op) (n1 + n2 + (if skip then 0 else 1)) ;;;
    ret (Ok tt).

Definition parse_unmap (o va : Z) : ST xe_vm (res unit) :=
  vma <-- gets (get_vma va) ;;
  op <-- gets (get_op o) ;;
  vops <-- gets v_vops ;;
  mapped <-- (if xe_vma_is_cpu_addr_mirror vma
              then ask_bool xe_svm_has_mapping [xe_vma_start vma; xe_vma_end vma] else ret false) ;;
  if mapped && negb (test (vo_flags vops) XE_VMA_OPS_FLAG_ALLOW_SVM_UNMAP) then ret (Err EBUSY)
  else
    when (negb (xe_vma_is_cpu_addr_mirror vma)) (xe_vma_ops_incr_pt_update_ops (op_tile_mask op) 1) ;;;
    ret (Ok tt).

Definition parse_prefetch (o va : Z) : ST xe_vm (res unit) :=
  vma <-- gets (get_vma va) ;;
  op <-- gets (get_op o) ;;
  _ <-? (if xe_vma_is_userptr vma then ask xe_vma_userptr_pin_pages [va] else ret (Ok tt)) ;;
  (if xe_vma_is_cpu_addr_mirror vma
   then xe_vma_ops_incr_pt_update_ops (op_tile_mask op) (Z.of_nat (length (of_ranges op)))
   else xe_vma_ops_incr_pt_update_ops (op_tile_mask op) 1) ;;;
  ret (Ok tt).

(** The body of the loop: link the operation, parse it by kind, commit it. *)
Definition parse_op (o : Z) : ST xe_vm (res unit) :=
  upd_vops (fun v => set_vo_list (vo_list v ++ [o]) v) ;;;
  upd_op o (set_op_tile_mask (all_tiles_mask dev)) ;;;
  op <-- gets (get_op o) ;;
  _ <-? match op_base op with
        | GpuvaMap m => parse_map o m
        | GpuvaRemap prev next old => parse_remap o prev next old
        | GpuvaUnmap va => parse_unmap o va
        | GpuvaPrefetch va => parse_prefetch o va
        | GpuvaDriver => ret (Ok tt)
        end ;;
  xe_vma_op_commit o.

Definition vm_bind_ioctl_ops_parse (os : list Z) : ST xe_vm (res unit) := for_err os parse_op.

(** * Unwinding *)

Definition clear_destroyed (v : Z) : ST xe_vm unit :=
  upd_vma v (fun x => set_va_flags (clear_bits (va_flags x) XE_VMA_DESTROYED) x).

(** Destroy a VMA the operation created, if it did. *)
Definition unwind_new (v : option Z) (post_commit : bool) : ST xe_vm unit :=
  match v with
  | None => ret tt
  | Some v => prep_vma_destroy v post_commit ;;; xe_vma_destroy_unlocked v
  end.

Definition xe_vma_op_unwind (o : Z) (post_commit prev_post_commit next_post_commit : bool)
    : ST xe_vm unit :=
  op <-- gets (get_op o) ;;
  match op_base op with
  | GpuvaMap _ => unwind_new (om_vma op) post_commit
  | GpuvaUnmap va =>
      clear_destroyed va ;;;
      when post_commit (_ <-- xe_vm_insert_vma va ;; ret tt)
  | GpuvaRemap _ _ old =>
      unwind_new (or_prev op) prev_post_commit ;;;
      unwind_new (or_next op) next_post_commit ;;;
      clear_destroyed old ;;;
      when post_commit (
        upd_vma old (fun x => set_va_range (or_old_range op) (set_va_addr (or_old_start op) x)) ;;;
        _ <-- xe_vm_insert_vma old ;; ret tt)
  | GpuvaPrefetch _ | GpuvaDriver => ret tt
  end.

Definition unwind_op (o : Z) : ST xe_vm unit :=
  op <-- gets (get_op o) ;;
  xe_vma_op_unwind o (test (op_flags op) XE_VMA_OP_COMMITTED)
    (test (op_flags op) XE_VMA_OP_PREV_COMMITTED) (test (op_flags op) XE_VMA_OP_NEXT_COMMITTED).

(** [ops[i]] is absent for the operations that were not created. *)
Definition vm_bind_ioctl_ops_unwind (ops : list (option (list Z))) : ST xe_vm unit :=
  for_each (reverse ops) (fun l =>
    match l with
    | None => ret tt
    | Some os => for_each (reverse os) unwind_op
    end).

End VmBind.
