(* ===== verification/VmaLemmas.v ===== *)
(** What creating and destroying a VMA does to the VM: a VMA accounts for
    references to its buffer object or to the VM, and to its page map. *)
From stdpp Require Import base numbers list gmap.
From S2P Require Import Prelude.
From S2P Require Import VmState.
From S2P Require Import Vma.

Section VmaLemmas.
Context `{VmFlags, VmOracle, DrmGpuvm}.
Context (dev : vm_device).
Implicit Types s : xe_vm.

(** * Frames *)

(** The states differ only in bookkeeping. *)
Definition bind_frame s s' : Prop := core s = core s'.

#[export] Instance bind_frame_equivalence : Equivalence bind_frame.
Proof. unfold bind_frame. split; [intros s; reflexivity|intros s1 s2 E; exact (eq_sym E)|].
  intros s1 s2 s3 E1 E2. exact (eq_trans E1 E2). Qed.

(** The states differ only in the trace. *)
Definition trace_frame s s' : Prop := set_v_trace [] s = set_v_trace [] s'.

#[export] Instance trace_frame_equivalence : Equivalence trace_frame.
Proof. unfold trace_frame. split; [intros s; reflexivity|intros s1 s2 E; exact (eq_sym E)|].
  intros s1 s2 s3 E1 E2. exact (eq_trans E1 E2). Qed.

Lemma trace_bind_frame s s' : trace_frame s s' -> bind_frame s s'.
Proof. intros E. exact (f_equal core E). Qed.

Lemma trace_frame_ops s s' : trace_frame s s' -> v_ops s = v_ops s' /\ v_next s = v_next s'.
Proof. intros E. split; [exact (f_equal v_ops E)|exact (f_equal v_next E)]. Qed.

Lemma event_frame e args s : trace_frame s (event e args s).2.
Proof. reflexivity. Qed.
Lemma ask_frame e args s : trace_frame s (ask e args s).2.
Proof. reflexivity. Qed.
Lemma ask_bool_frame e args s : trace_frame s (ask_bool e args s).2.
Proof. reflexivity. Qed.

(** * Accounting *)

Definition bump (k : Z) (willneed : bool) (x : vm_bo) : vm_bo := {|
  vb_size := vb_size x; vb_vm := vb_vm x; vb_purged := vb_purged x; vb_dontneed := vb_dontneed x;
  vb_protected := vb_protected x; vb_cpu_caching := vb_cpu_caching x; vb_mem_type := vb_mem_type x;
  vb_placements := vb_placements x; vb_atomic_access := vb_atomic_access x;
  vb_refs := vb_refs x + k; vb_vma_count := vb_vma_count x + k;
  vb_willneed := vb_willneed x + (if willneed then k else 0) |}.

Definition is_willneed (x : xe_vma) : bool :=
  ma_purgeable_state (va_attr x) =? XE_MADV_PURGEABLE_WILLNEED.

Definition acct_bos (x : xe_vma) (k : Z) (m : gmap Z vm_bo) : gmap Z vm_bo :=
  match va_bo x with Some b => alter (bump k (is_willneed x)) b m | None => m end.
Definition acct_refs (x : xe_vma) (k n : Z) : Z :=
  match va_bo x with Some _ => n | None => n + k end.
Definition acct_pagemaps (x : xe_vma) (k : Z) (m : gmap Z Z) : gmap Z Z :=
  match ma_dpagemap (va_attr x) with Some p => alter (fun n => n + k) p m | None => m end.

(** [k] times the references of the VMA [x]. *)
Definition acct (x : xe_vma) (k : Z) s : xe_vm :=
  set_v_bos (acct_bos x k (v_bos s))
    (set_v_refs (acct_refs x k (v_refs s))
      (set_v_pagemaps (acct_pagemaps x k (v_pagemaps s)) s)).

Lemma alter_comm_gen {A} (f g : A -> A) (i j : Z) (m : gmap Z A) :
  (forall a, f (g a) = g (f a)) -> alter f i (alter g j m) = alter g j (alter f i m).
Proof.
  intros Hfg. destruct (decide (i = j)) as [->|Hne].
  - rewrite !alter_alter_eq. apply alter_ext. intros a _. cbn. apply Hfg.
  - by apply alter_alter_ne.
Qed.

Lemma alter_id_gen {A} (f : A -> A) (i : Z) (m : gmap Z A) :
  (forall a, f a = a) -> alter f i m = m.
Proof. intros Hf. apply alter_id. intros a _. apply Hf. Qed.

Lemma bump_comm k j w w' x : bump k w (bump j w' x) = bump j w' (bump k w x).
Proof.
  unfold bump. cbn. f_equal; [lia..|destruct w, w'; lia].
Qed.

Lemma acct_bos_comm x y k j m : acct_bos x k (acct_bos y j m) = acct_bos y j (acct_bos x k m).
Proof.
  unfold acct_bos. destruct (va_bo x), (va_bo y); try done.
  apply alter_comm_gen. intros. apply bump_comm.
Qed.

Lemma acct_refs_comm x y k j n : acct_refs x k (acct_refs y j n) = acct_refs y j (acct_refs x k n).
Proof. unfold acct_refs. destruct (va_bo x), (va_bo y); lia. Qed.

Lemma acct_pagemaps_comm x y k j m :
  acct_pagemaps x k (acct_pagemaps y j m) = acct_pagemaps y j (acct_pagemaps x k m).
Proof.
  unfold acct_pagemaps. destruct (ma_dpagemap (va_attr x)), (ma_dpagemap (va_attr y)); try done.
  apply alter_comm_gen. intros. lia.
Qed.

(** Accounting, field by field. *)
Lemma acct_fields x k s b r p :
  acct_bos x k (v_bos s) = b -> acct_refs x k (v_refs s) = r -> acct_pagemaps x k (v_pagemaps s) = p ->
  acct x k s = set_v_bos b (set_v_refs r (set_v_pagemaps p s)).
Proof. by intros <- <- <-. Qed.

Lemma acct_comm x y k j s : acct x k (acct y j s) = acct y j (acct x k s).
Proof.
  rewrite (acct_fields x k (acct y j s) _ _ _ (acct_bos_comm x y k j (v_bos s))
    (acct_refs_comm x y k j (v_refs s)) (acct_pagemaps_comm x y k j (v_pagemaps s))).
  reflexivity.
Qed.

Lemma acct_cancel x s : acct x (-1) (acct x 1 s) = s.
Proof.
  rewrite (acct_fields x (-1) (acct x 1 s) (v_bos s) (v_refs s) (v_pagemaps s)).
  - by destruct s.
  - cbn. unfold acct_bos. destruct (va_bo x) as [b|]; [|done]. rewrite alter_alter_eq.
    apply alter_id_gen. intros []. unfold bump. cbn. f_equal; destruct (is_willneed x); lia.
  - cbn. unfold acct_refs. destruct (va_bo x); lia.
  - cbn. unfold acct_pagemaps. destruct (ma_dpagemap (va_attr x)); [|done].
    rewrite alter_alter_eq. apply alter_id_gen. intros. cbn. lia.
Qed.

(** What accounting reads of a VMA. *)
Definition same_refs (x y : xe_vma) : Prop :=
  va_bo x = va_bo y /\ va_attr x = va_attr y.

Lemma acct_same x y k s : same_refs x y -> acct x k s = acct y k s.
Proof.
  intros [Hb Ha]. unfold acct, acct_bos, acct_refs, acct_pagemaps, is_willneed. by rewrite Hb, Ha.
Qed.

(** The kinds are consistent: a VMA with a buffer object is neither NULL nor a
    mirror. *)
Definition kind_ok (x : xe_vma) : Prop :=
  is_Some (va_bo x) -> xe_vma_is_null x = false /\ xe_vma_is_cpu_addr_mirror x = false.

(** * Destruction *)

Lemma get_vma_lookup v x s : v_vmas s !! v = Some x -> get_vma v s = x.
Proof. intros Hl. unfold get_vma. by rewrite Hl. Qed.

Lemma xe_vm_put_frame s : trace_frame (set_v_refs (v_refs s - 1) s) (xe_vm_put s).2.
Proof. unfold xe_vm_put, bind, modify, gets, when. case_match; reflexivity. Qed.

Lemma xe_vma_free_eq v x s :
  v_vmas s !! v = Some x ->
  (xe_vma_free v s).2 =
    set_v_vmas (delete v (v_vmas s)) (set_v_pagemaps (acct_pagemaps x (-1) (v_pagemaps s)) s).
Proof.
  intros Hl. unfold xe_vma_free, xe_vma_mem_attr_fini, bind, gets, modify.
  rewrite (get_vma_lookup _ _ _ Hl). unfold drm_pagemap_put, acct_pagemaps, modify, ret.
  destruct (ma_dpagemap (va_attr x)); reflexivity.
Qed.

(** The last step of a destruction. *)
Lemma destroy_late_frame v x s :
  v_vmas s !! v = Some x -> kind_ok x -> v_ufences s !! v = None ->
  trace_frame
    (set_v_vmas (delete v (v_vmas s))
      (set_v_pagemaps (acct_pagemaps x (-1) (v_pagemaps s))
        (match va_bo x with
         | Some b => set_v_bos (alter (fun o => set_vb_refs (vb_refs o - 1) o) b (v_bos s)) s
         | None => set_v_refs (v_refs s - 1) s
         end)))
    (xe_vma_destroy_late v s).2.
Proof.
  intros Hl Hk Hu. unfold xe_vma_destroy_late, bind, gets. rewrite (get_vma_lookup _ _ _ Hl). cbv beta iota. rewrite Hu.
  unfold xe_vma_is_userptr, xe_vma_has_no_bo, ret. destruct (va_bo x) as [b|] eqn:Eb.
  - destruct (Hk ltac:(done)) as [En Em]. rewrite En, Em. cbn [bool_decide andb orb negb].
    rewrite bool_decide_false by done. cbn [andb orb].
    unfold xe_bo_put, upd_bo, modify. cbv beta iota. by rewrite (xe_vma_free_eq v x).
  - rewrite bool_decide_true by done.
    destruct (xe_vma_is_null x) eqn:En, (xe_vma_is_cpu_addr_mirror x) eqn:Em;
      cbn [andb orb negb]; unfold event, modify; cbv beta iota.
    all: match goal with |- context [xe_vm_put ?t] =>
      pose proof (xe_vm_put_frame t) as Hp; destruct (xe_vm_put t) as [[] s2]; cbn [snd] in Hp end.
    all: rewrite (xe_vma_free_eq v x) by (rewrite <- Hl; exact (f_equal (fun s => v_vmas s !! v) (eq_sym Hp))).
    all: unfold trace_frame in *.
    all: transitivity (set_v_vmas (delete v (v_vmas (set_v_trace [] s2)))
      (set_v_pagemaps (acct_pagemaps x (-1) (v_pagemaps (set_v_trace [] s2))) (set_v_trace [] s2)));
      [by rewrite <- Hp|done].
Qed.

(** Destroying a VMA at once frees it and drops its references. *)
Lemma xe_vma_destroy_frame v x s :
  v_vmas s !! v = Some x -> kind_ok x -> v_ufences s !! v = None ->
  trace_frame (set_v_vmas (delete v (v_vmas s)) (acct x (-1) s)) (xe_vma_destroy v false s).2.
Proof.
  intros Hl Hk Hu. unfold xe_vma_destroy, bind, gets.
  rewrite (get_vma_lookup _ _ _ Hl). unfold xe_vma_is_userptr, xe_vma_has_no_bo.
  unfold acct, acct_bos, acct_refs. destruct (va_bo x) as [b|] eqn:Eb.
  - destruct (Hk ltac:(done)) as [En Em]. rewrite En, Em, bool_decide_false by done.
    cbn [andb orb negb]. unfold upd_bo, modify, when, ret. fold (is_willneed x).
    destruct (is_willneed x) eqn:Ew.
    all: cbv beta iota; etrans; [|apply (destroy_late_frame v x); done]; rewrite Eb.
    all: unfold trace_frame, set_v_trace; cbn; f_equal.
    all: rewrite !alter_alter_eq; apply alter_ext; intros [] _;
      unfold bump, set_vb_refs, set_vb_vma_count, set_vb_willneed; cbn; f_equal; lia.
  - rewrite bool_decide_true by done.
    destruct (xe_vma_is_null x), (xe_vma_is_cpu_addr_mirror x); cbn [andb orb negb];
      unfold event, modify, ret; cbv beta iota.
    all: etrans; [|apply (destroy_late_frame v x); done]; rewrite Eb; reflexivity.
Qed.

(** The uninterruptible locks of a destruction succeed. *)
Class LocksSucceed := locks_succeed args tr :
  answer (Ev drm_exec_lock_uninterruptible args :: tr) = Ok tt.

Context `{!LocksSucceed}.

Lemma destroy_unlocked_frame v x s :
  v_vmas s !! v = Some x -> kind_ok x -> v_ufences s !! v = None ->
  trace_frame (set_v_vmas (delete v (v_vmas s)) (acct x (-1) s)) (xe_vma_destroy_unlocked v s).2.
Proof.
  intros Hl Hk Hu. unfold xe_vma_destroy_unlocked, xe_vm_lock_vma, bind, gets.
  rewrite (get_vma_lookup _ _ _ Hl).
  unfold ask, event, bind, modify, gets. cbv beta iota. cbn [v_trace set_v_trace].
  rewrite locks_succeed.
  destruct (va_bo x) as [b|].
  - destruct (bo_is_external b _); cbv beta iota; cbn [v_trace set_v_trace]; unfold ret;
      rewrite ?locks_succeed.
    all: etrans; [|apply (xe_vma_destroy_frame v x); done]; reflexivity.
  - unfold ret. etrans; [|apply (xe_vma_destroy_frame v x); done]. reflexivity.
Qed.

(** * Creation *)

(** A state whose objects were all allocated below the next address. *)
Definition fresh_ok s : Prop :=
  (forall v, is_Some (v_vmas s !! v) -> v < v_next s) /\ (forall v, is_Some (v_ufences s !! v) -> v < v_next s).

Lemma fresh_vma s : fresh_ok s -> v_vmas s !! v_next s = None.
Proof. intros [Hf _]. apply eq_None_not_Some. intros Hs%Hf. lia. Qed.

Lemma fresh_ufence s v : fresh_ok s -> v_next s <= v -> v_ufences s !! v = None.
Proof. intros [_ Hf] Hv. apply eq_None_not_Some. intros Hs%Hf. lia. Qed.

(** What a VMA created for a range looks like. *)
Record created (bo : option Z) (start range : Z) (attr : xe_vma_mem_attr) (x : xe_vma) : Prop := {
  cr_addr : va_addr x = start;
  cr_range : va_range x = range;
  cr_bo : va_bo x = bo;
  cr_attr : va_attr x = attr;
  cr_word : 0 <= range < 2 ^ 64;
  cr_kind : kind_ok x;
  cr_alive : test (va_flags x) XE_VMA_DESTROYED = false;
}.

(** Flags a VMA may be created with. *)
Record flags_ok (bo : option Z) (flags : Z) : Prop := {
  fo_kind : is_Some bo -> test flags DRM_GPUVA_SPARSE = false /\
                          test flags XE_VMA_SYSTEM_ALLOCATOR = false;
  fo_alive : test flags XE_VMA_DESTROYED = false;
}.

Context `{!VmFlagsLaws}.

Lemma bits_ne (l : list Z) a b i j :
  distinct_bits l -> l !! i = Some a -> l !! j = Some b -> i <> j -> 0 <= a /\ 0 <= b /\ a <> b.
Proof.
  intros [Hnd Hp] Ha Hb Hij. rewrite list.Forall_forall in Hp.
  split; [apply Hp; by eapply list_elem_of_lookup_2|].
  split; [apply Hp; by eapply list_elem_of_lookup_2|].
  intros ->. apply Hij. by eapply (list.NoDup_lookup l).
Qed.

Lemma test_other f a b : 0 <= a -> 0 <= b -> a <> b -> test (f ||| BIT a) (BIT b) = test f (BIT b).
Proof.
  intros Ha Hb Hab. rewrite test_lor_l, (test_BIT (BIT a)) by done. rewrite testbit_BIT by done.
  replace (b =? a) with false by (symmetry; apply Z.eqb_neq; lia). by rewrite orb_false_r.
Qed.

Lemma vma_init_created bo start end_ range flags attr off :
  flags_ok bo flags -> end_ -64 start +64 1 = range ->
  created bo start range attr (set_va_offset off (set_va_attr attr (vma_init dev bo start end_ flags))).
Proof.
  intros [Hk Ha] Hr. pose proof vma_bits as Hb.
  assert (forall b i, [b_read_only; b_dumpable; b_system_allocator; b_sparse; b_autoreset;
    b_atomic_pte; b_destroyed; b_pte_4k; b_pte_2m; b_pte_1g; b_pte_64k; b_pte_compact] !! i = Some b ->
    i <> 5%nat -> test (if dv_has_atomic_pte dev then flags ||| XE_VMA_ATOMIC_PTE_BIT else flags) (BIT b)
      = test flags (BIT b)) as Ht.
  { intros b i Hi Hne. destruct (dv_has_atomic_pte dev); [|done].
    destruct (bits_ne _ b_atomic_pte b 5%nat i Hb eq_refl Hi) as (? & ? & ?); [done|].
    by apply test_other. }
  split; try done.
  - rewrite <- Hr. apply wrap_range. lia.
  - intros Hbo. destruct (Hk Hbo) as [Hn Hm].
    split; [exact (eq_trans (Ht b_sparse 3%nat eq_refl ltac:(done)) Hn)|].
    exact (eq_trans (Ht b_system_allocator 2%nat eq_refl ltac:(done)) Hm).
  - exact (eq_trans (Ht b_destroyed 6%nat eq_refl ltac:(done)) Ha).
Qed.

(** The state with a fresh VMA. *)
Definition with_vma (x : xe_vma) s : xe_vm :=
  set_v_vmas (<[v_next s := x]> (v_vmas s)) (acct x 1 s).

Record create_ok s (bo : option Z) (start range : Z) (attr : xe_vma_mem_attr) (v : Z) s1 : Prop := {
  co_id : v = v_next s;
  co_next : v_next s1 = v_next s + 1;
  co_ops : v_ops s1 = v_ops s;
  co_vma : exists x, v_vmas s1 !! v = Some x /\ created bo start range attr x /\
    core s1 = core (with_vma x s);
}.

Record create_err s s1 : Prop := {
  ce_frame : bind_frame s s1;
  ce_ops : v_ops s1 = v_ops s;
  ce_next : v_next s <= v_next s1;
}.

Lemma attr_copy_fresh v x attr s :
  v_vmas s !! v = Some x -> ma_dpagemap (va_attr x) = None ->
  (xe_vma_mem_attr_copy v attr s).2 =
    set_v_pagemaps (acct_pagemaps (set_va_attr attr x) 1 (v_pagemaps s))
      (set_v_vmas (<[v := set_va_attr attr x]> (v_vmas s)) s).
Proof.
  intros Hl Hn. unfold xe_vma_mem_attr_copy, xe_vma_mem_attr_fini, bind, gets.
  rewrite (get_vma_lookup _ _ _ Hl), Hn. unfold upd_vma, drm_pagemap_put, drm_pagemap_get, ret, modify.
  assert (alter (set_va_attr attr) v (v_vmas s) = <[v := set_va_attr attr x]> (v_vmas s)) as E.
  { apply map_eq. intros i. destruct (decide (i = v)) as [->|].
    - by rewrite lookup_alter_eq, Hl, lookup_insert_eq.
    - by rewrite lookup_alter_ne, lookup_insert_ne. }
  cbv beta iota. rewrite E. unfold acct_pagemaps. cbn.
  destruct (ma_dpagemap attr); reflexivity.
Qed.

Lemma alter_insert_same {A} (f : A -> A) (i : Z) (a : A) (m : gmap Z A) :
  alter f i (<[i := a]> m) = <[i := f a]> m.
Proof.
  apply map_eq. intros j. destruct (decide (j = i)) as [->|].
  - by rewrite lookup_alter_eq, !lookup_insert_eq.
  - by rewrite lookup_alter_ne, !lookup_insert_ne.
Qed.

(** The state after the VMA was allocated and its attributes copied. *)
Record allocated (x : xe_vma) s s' : Prop := {
  al_next : v_next s' = v_next s + 1;
  al_ops : v_ops s' = v_ops s;
  al_core : core s' = set_v_vmas (<[v_next s := x]> (v_vmas s))
                        (set_v_pagemaps (acct_pagemaps x 1 (v_pagemaps s)) (core s));
}.

Lemma allocated_vmas x s s' : allocated x s s' -> v_vmas s' = <[v_next s := x]> (v_vmas s).
Proof. intros []. exact (f_equal v_vmas al_core0). Qed.

Lemma acct_pagemaps_cancel x y m :
  va_attr x = va_attr y -> acct_pagemaps y (-1) (acct_pagemaps x 1 m) = m.
Proof.
  unfold acct_pagemaps. intros ->. destruct (ma_dpagemap (va_attr y)); [|done].
  rewrite alter_alter_eq. apply alter_id_gen. intros. cbn. lia.
Qed.

(** The core after freeing. *)
Lemma core_free v x s :
  v_vmas s !! v = Some x ->
  core (xe_vma_free v s).2 =
    set_v_vmas (delete v (v_vmas s)) (set_v_pagemaps (acct_pagemaps x (-1) (v_pagemaps s)) (core s)).
Proof. intros Hl. by rewrite (xe_vma_free_eq v x). Qed.

Lemma set_core_id s :
  set_v_vmas (v_vmas s) (set_v_pagemaps (v_pagemaps s) (core s)) = core s.
Proof. reflexivity. Qed.

(** Freeing the VMA that was just allocated. *)
Lemma allocated_free x s s' :
  fresh_ok s -> allocated x s s' -> create_err s (xe_vma_free (v_next s) s').2.
Proof.
  intros Hf Hal. pose proof (allocated_vmas _ _ _ Hal) as Hv.
  assert (v_vmas s' !! v_next s = Some x) as Hl by (rewrite Hv; apply lookup_insert_eq).
  destruct Hal as [Hn Ho Hc]. split.
  - unfold bind_frame. rewrite (core_free _ x) by done. rewrite Hv, Hc.
    rewrite delete_insert_id by by apply fresh_vma.
    pose proof (f_equal v_pagemaps Hc) as Hp. cbn in Hp. rewrite Hp, acct_pagemaps_cancel by done.
    reflexivity.
  - by rewrite (xe_vma_free_eq _ x).
  - rewrite (xe_vma_free_eq _ x) by done. cbn. lia.
Qed.

(** A state that differs in the trace, or in the VMA's offset, is as good. *)
Lemma allocated_trace x s s' t : allocated x s s' -> trace_frame s' t -> allocated x s t.
Proof.
  intros [Hn Ho Hc] Ht. destruct (trace_frame_ops _ _ Ht) as [E1 E2]. split; [congruence..|].
  rewrite <- Hc. symmetry. exact (trace_bind_frame _ _ Ht).
Qed.

Lemma allocated_offset x off s s' :
  allocated x s s' ->
  allocated (set_va_offset off x) s (upd_vma (v_next s) (set_va_offset off) s').2.
Proof.
  intros Hal. pose proof (allocated_vmas _ _ _ Hal) as Hv. destruct Hal as [Hn Ho Hc].
  split; [done|done|].
  change (set_v_vmas (alter (set_va_offset off) (v_next s) (v_vmas s')) (core s') =
    set_v_vmas (<[v_next s := set_va_offset off x]> (v_vmas s))
      (set_v_pagemaps (acct_pagemaps x 1 (v_pagemaps s)) (core s))).
  rewrite Hv, alter_insert_same, Hc. reflexivity.
Qed.

(** Taking the references of an allocated VMA completes its creation. *)
Lemma allocated_refs x s s' b r t bo start range attr :
  allocated x s s' -> created bo start range attr x ->
  b = acct_bos x 1 (v_bos s) -> r = acct_refs x 1 (v_refs s) ->
  core t = set_v_bos b (set_v_refs r (core s')) -> v_next t = v_next s' -> v_ops t = v_ops s' ->
  create_ok s bo start range attr (v_next s) t.
Proof.
  intros Hal Hcr -> -> Ht Hnt Hot. pose proof (allocated_vmas _ _ _ Hal) as Hv.
  destruct Hal as [Hn Ho Hc]. split; [done|congruence|congruence|].
  exists x. split; [|split; [done|]].
  - pose proof (f_equal v_vmas Ht) as Hvt. cbn in Hvt. rewrite Hvt, Hv. apply lookup_insert_eq.
  - rewrite Ht, Hc. reflexivity.
Qed.

(** Allocating the VMA and copying the attributes. *)
Lemma alloc_vma bo start end_ flags attr s s0 :
  fresh_ok s -> trace_frame s s0 ->
  allocated (set_va_attr attr (vma_init dev bo start end_ flags)) s
    (xe_vma_mem_attr_copy (v_next s) attr
      (set_v_next (v_next s + 1)
        (set_v_vmas (<[v_next s := vma_init dev bo start end_ flags]> (v_vmas s0)) s0))).2.
Proof.
  intros Hf Ht. pose proof (f_equal v_vmas Ht) as Hv. cbn in Hv.
  rewrite (attr_copy_fresh _ (vma_init dev bo start end_ flags)); [|apply lookup_insert_eq|done].
  cbn [v_vmas set_v_next set_v_vmas]. rewrite <- Hv. split; [done|exact (eq_sym (proj1 (trace_frame_ops _ _ Ht)))|].
  change (core (set_v_pagemaps (acct_pagemaps (set_va_attr attr (vma_init dev bo start end_ flags)) 1 (v_pagemaps s0))
    (set_v_vmas (<[v_next s := set_va_attr attr (vma_init dev bo start end_ flags)]>
      (<[v_next s := vma_init dev bo start end_ flags]> (v_vmas s))) s0)) =
    set_v_vmas (<[v_next s := set_va_attr attr (vma_init dev bo start end_ flags)]> (v_vmas s))
     (set_v_pagemaps (acct_pagemaps (set_va_attr attr (vma_init dev bo start end_ flags)) 1 (v_pagemaps s)) (core s))).
  rewrite insert_insert_eq. unfold trace_frame in Ht.
  transitivity (core (set_v_pagemaps (acct_pagemaps (set_va_attr attr (vma_init dev bo start end_ flags)) 1 (v_pagemaps (set_v_trace [] s0)))
    (set_v_vmas (<[v_next s := set_va_attr attr (vma_init dev bo start end_ flags)]> (v_vmas s)) (set_v_trace [] s0))));
    [reflexivity|]. rewrite <- Ht. reflexivity.
Qed.

(** The outcome of a creation. *)
Definition create_post s (bo : option Z) (start range : Z) (attr : xe_vma_mem_attr)
    (p : res Z * xe_vm) : Prop :=
  match p.1 with
  | Ok v => create_ok s bo start range attr v p.2
  | Err _ => create_err s p.2
  end.

(** The three counters of a buffer object, one after the other. *)
Lemma bump_steps (w : bool) (b : Z) (m : gmap Z vm_bo) :
  (let m1 : gmap Z vm_bo := alter (fun x : vm_bo => set_vb_vma_count (vb_vma_count x + 1) x) b
               (alter (fun x : vm_bo => set_vb_refs (vb_refs x + 1) x) b m) in
   if w then alter (fun x : vm_bo => set_vb_willneed (vb_willneed x + 1) x) b m1 else m1) =
  alter (bump 1 w) b m.
Proof.
  cbv zeta. destruct w; rewrite !alter_alter_eq; apply alter_ext; intros [] _;
    unfold bump, set_vb_refs, set_vb_vma_count, set_vb_willneed; cbn; f_equal; lia.
Qed.

Lemma create_bo_spec b off start end_ range flags attr s s' :
  fresh_ok s -> flags_ok (Some b) flags -> end_ -64 start +64 1 = range ->
  allocated (set_va_attr attr (vma_init dev (Some b) start end_ flags)) s s' ->
  create_post s (Some b) start range attr (xe_vma_create_bo (v_next s) b off attr s').
Proof.
  intros Hf Hfl Hr Hal. unfold xe_vma_create_bo. rewrite run_bind. cbn [gets fst snd].
  pose proof (allocated_free _ _ _ Hf Hal) as Hfree.
  destruct (_ && from_option vb_dontneed _ _); [rewrite run_bind; exact Hfree|].
  destruct (_ && from_option vb_purged _ _); [rewrite run_bind; exact Hfree|].
  rewrite run_bind.
  pose proof (allocated_trace _ _ _ _ Hal (ask_frame drm_gpuvm_bo_obtain [b] s')) as Hal2.
  destruct (ask drm_gpuvm_bo_obtain [b] s').1.
  2: { rewrite run_bind. exact (allocated_free _ _ _ Hf Hal2). }
  revert Hal2. generalize (ask drm_gpuvm_bo_obtain [b] s').2. clear - Hfl Hr H3. intros s2 Hal2.
  rewrite !run_bind. unfold create_post, ret. cbn [fst snd].
  eapply (allocated_refs _ _ _ _ _ _ _ _ _ _ (allocated_offset _ off _ _ Hal2)
    (vma_init_created _ _ _ _ _ _ off Hfl Hr) eq_refl eq_refl).
  2-3: unfold when; case_match; reflexivity.
  pose proof (f_equal v_bos (al_core _ _ _ Hal2)) as Hb. pose proof (f_equal v_refs (al_core _ _ _ Hal2)) as Hn.
  cbn in Hb, Hn. 
  unfold upd_bo, xe_bo_get, modify, when, acct_bos, acct_refs, upd_bo, modify. cbn [va_bo set_va_offset set_va_attr vma_init].
  rewrite <- Hb, <- Hn.
  transitivity (set_v_bos (alter (bump 1 (ma_purgeable_state attr =? XE_MADV_PURGEABLE_WILLNEED)) b (v_bos s2)) (core (upd_vma (v_next s) (set_va_offset off) s2).2)).
  2: reflexivity.
  rewrite <- bump_steps. destruct (_ =? _); reflexivity.
Qed.

Lemma trace_err s s' : trace_frame s s' -> create_err s s'.
Proof.
  intros Ht. destruct (trace_frame_ops _ _ Ht) as [E1 E2]. split; [by apply trace_bind_frame|done|lia].
Qed.

(** Without a buffer object the VMA holds a reference to the VM. *)
Lemma allocated_vm_get x s s' start range attr :
  allocated x s s' -> created None start range attr x ->
  create_post s None start range attr ((xe_vm_get ;;; ret (Ok (v_next s))) s').
Proof.
  intros Hal Hcr. rewrite run_bind. unfold create_post. cbn [ret fst snd].
  eapply (allocated_refs _ _ _ _ _ _ _ _ _ _ Hal Hcr eq_refl eq_refl); [|done..].
  unfold acct_bos, acct_refs. rewrite (cr_bo _ _ _ _ _ Hcr).
  pose proof (f_equal v_bos (al_core _ _ _ Hal)) as Hb.
  pose proof (f_equal v_refs (al_core _ _ _ Hal)) as Hn. cbn in Hb, Hn.
  rewrite <- Hb, <- Hn. reflexivity.
Qed.

(** Creating a VMA either succeeds with its references taken, or changes nothing. *)
Lemma xe_vma_create_spec bo off start end_ range attr flags s :
  fresh_ok s -> flags_ok bo flags -> end_ -64 start +64 1 = range ->
  create_post s bo start range attr (xe_vma_create dev bo off start end_ attr flags s).
Proof.
  intros Hf Hfl Hr. unfold xe_vma_create. rewrite run_bind.
  pose proof (ask_frame kmalloc [] s) as Ht.
  destruct (ask kmalloc [] s).1; [|by apply trace_err].
  revert Ht. generalize (ask kmalloc [] s).2. intros s0 Ht.
  rewrite !run_bind. cbn [gets modify fst snd].
  pose proof (trace_frame_ops _ _ Ht) as [_ En]. rewrite <- En.
  pose proof (alloc_vma bo start end_ flags attr s s0 Hf Ht) as Hal.
  revert Hal. match goal with |- allocated _ _ ?t -> _ => generalize t end. intros s1 Hal.
  destruct bo as [b|]; [by apply (create_bo_spec _ _ _ end_ _ flags)|].
  destruct (negb _ && negb _).
  - rewrite !run_bind. pose proof (allocated_offset _ off _ _ Hal) as Hal2. revert Hal2.
    generalize (upd_vma (v_next s) (set_va_offset off) s1).2. intros s2 Hal2.
    pose proof (vma_init_created None start end_ range flags attr off Hfl Hr) as Hcr.
    match goal with |- context [ask ?e ?a s2] =>
      pose proof (allocated_trace _ _ _ _ Hal2 (ask_frame e a s2)) as Hal3;
      destruct (ask e a s2).1 end.
    + by eapply allocated_vm_get.
    + rewrite run_bind. by eapply allocated_free.
  - eapply allocated_vm_get; [exact Hal|].
    exact (vma_init_created None start end_ range flags attr 0 Hfl Hr).
Qed.

(** Destroying the VMA takes the references back. *)
Lemma undo_created v x y s s1 t :
  v_vmas s !! v = None -> same_refs x y ->
  core s1 = set_v_vmas (<[v := y]> (v_vmas s)) (acct x 1 (core s)) ->
  trace_frame (set_v_vmas (delete v (v_vmas s1)) (acct y (-1) s1)) t ->
  core t = core s.
Proof.
  intros Hn Hxy Hc Ht%trace_bind_frame. unfold bind_frame in Ht. rewrite <- Ht.
  change (set_v_vmas (delete v (v_vmas (core s1))) (acct y (-1) (core s1)) = core s).
  rewrite Hc. cbn [v_vmas set_v_vmas]. rewrite delete_insert_id by done.
  rewrite <- (acct_same x y) by done.
  transitivity (set_v_vmas (v_vmas s) (acct x (-1) (acct x 1 (core s)))); [reflexivity|].
  by rewrite acct_cancel.
Qed.

Definition destroyed (x : xe_vma) : xe_vma := set_va_flags (va_flags x ||| XE_VMA_DESTROYED) x.

Lemma prep_destroy_false v s :
  (prep_vma_destroy v false s).2 =
    set_v_vmas (alter destroyed v (v_vmas s)) s.
Proof. reflexivity. Qed.

Lemma destroyed_refs x : same_refs x (destroyed x).
Proof. done. Qed.

Lemma test_destroyed x b i :
  [b_read_only; b_dumpable; b_system_allocator; b_sparse; b_autoreset;
    b_atomic_pte; b_destroyed; b_pte_4k; b_pte_2m; b_pte_1g; b_pte_64k; b_pte_compact] !! i = Some b ->
  i <> 6%nat -> test (va_flags (destroyed x)) (BIT b) = test (va_flags x) (BIT b).
Proof.
  intros Hi Hne. destruct (bits_ne _ b_destroyed b 6%nat i vma_bits eq_refl Hi) as (? & ? & ?); [done|].
  by apply test_other.
Qed.

Lemma destroyed_kind x : kind_ok x -> kind_ok (destroyed x).
Proof.
  intros Hk Hb. destruct (Hk Hb) as [E1 E2]. unfold xe_vma_is_null, xe_vma_is_cpu_addr_mirror in *.
  split; [rewrite <- E1; exact (test_destroyed x b_sparse 3%nat eq_refl ltac:(done))|].
  rewrite <- E2. exact (test_destroyed x b_system_allocator 2%nat eq_refl ltac:(done)).
Qed.

(** A creation that is taken back. *)
Lemma create_undone s bo start range attr v s1 s1' (D : Z -> ST xe_vm unit) :
  fresh_ok s -> create_ok s bo start range attr v s1 -> trace_frame s1 s1' ->
  (forall y t, v_vmas t !! v = Some y -> kind_ok y -> v_ufences t !! v = None ->
    trace_frame (set_v_vmas (delete v (v_vmas t)) (acct y (-1) t)) (D v t).2) ->
  create_err s (D v (prep_vma_destroy v false s1').2).2.
Proof.
  intros Hf [-> Hn Ho (x & Hx & Hcr & Hc)] Ht HD. rewrite prep_destroy_false.
  pose proof (f_equal v_vmas Ht) as Hv. cbn in Hv.
  destruct (trace_frame_ops _ _ Ht) as [Eo En].
  assert (v_vmas (set_v_vmas (alter destroyed (v_next s) (v_vmas s1')) s1') !! v_next s =
    Some (destroyed x)) as Hl by (cbn; by rewrite lookup_alter_eq, <- Hv, Hx).
  assert (v_ufences s1' !! v_next s = None) as Hu.
  { rewrite <- (fresh_ufence s (v_next s) Hf (Z.le_refl _)). etrans; [symmetry; exact (f_equal (fun c => v_ufences c !! v_next s) Ht)|].
    exact (f_equal (fun c => v_ufences c !! v_next s) Hc). }
  specialize (HD _ _ Hl (destroyed_kind _ (cr_kind _ _ _ _ _ Hcr)) Hu).
  split.
  - symmetry. eapply (undo_created _ x); [by apply fresh_vma|apply destroyed_refs| |exact HD].
    pose proof (f_equal v_vmas Hc) as Hv1. cbn in Hv1.
    transitivity (set_v_vmas (alter destroyed (v_next s) (v_vmas s1)) (core s1')); [by rewrite Hv|].
    rewrite Hv1, alter_insert_same. pose proof (trace_bind_frame _ _ Ht) as Hcf. unfold bind_frame in Hcf.
    rewrite <- Hcf, Hc. reflexivity.
  - destruct (trace_frame_ops _ _ HD) as [<- _]. cbn. congruence.
  - destruct (trace_frame_ops _ _ HD) as [_ <-]. cbn. lia.
Qed.

Lemma bind_frame_fresh s s' : bind_frame s s' -> v_next s <= v_next s' -> fresh_ok s -> fresh_ok s'.
Proof.
  intros Hb Hle [Hf Hu]. pose proof (f_equal v_vmas Hb) as Ev. pose proof (f_equal v_ufences Hb) as Eu.
  cbn in Ev, Eu. split; intros v; [rewrite <- Ev; intros Hs%Hf|rewrite <- Eu; intros Hs%Hu]; lia.
Qed.

(** * [new_vma] *)

Lemma new_range a n : 0 <= n < 2 ^ 64 -> a +64 n -64 1 -64 a +64 1 = n.
Proof.
  intros Hn. unfold wrap. rewrite <- (Z.mod_small n (2 ^ 64)) at 2 by done.
  rewrite Zplus_mod_idemp_l. set (x := ((a + n) mod 2 ^ 64 - 1) mod 2 ^ 64).
  replace (x - a + 1) with (x - (a - 1)) by lia. subst x.
  rewrite Zminus_mod_idemp_l, <- Z.sub_add_distr, Zminus_mod_idemp_l.
  f_equal. lia.
Qed.

Lemma new_vma_lock_frame b s : trace_frame s (new_vma_lock b s).2.
Proof.
  unfold new_vma_lock, bind_res. rewrite !run_bind. cbn [gets fst snd].
  destruct (bo_is_external b s); [|reflexivity].
  destruct (ask drm_exec_lock_obj [0] s).1; reflexivity.
Qed.

Lemma for_each_frame {A} (l : list A) (f : A -> ST xe_vm unit) s :
  (forall a t, trace_frame t (f a t).2) -> trace_frame s (for_each l f s).2.
Proof.
  intros Hf. apply for_each_inv; [|reflexivity]. intros a t _ Ht. etrans; [exact Ht|apply Hf].
Qed.

Lemma add_preempt_fences_frame b s : trace_frame s (add_preempt_fences b s).2.
Proof.
  unfold add_preempt_fences, bind_res. rewrite run_bind. cbn [gets fst snd].
  destruct (_ =? 0); [done|]. rewrite run_bind.
  pose proof (ask_frame dma_resv_reserve_fences [b; v_num_queues s] s) as Ht.
  destruct (ask dma_resv_reserve_fences _ s).1; [|exact Ht].
  rewrite !run_bind. etrans; [exact Ht|]. apply for_each_frame. intros q t.
  rewrite run_bind. cbn [gets fst snd]. destruct (v_lr t !! q) as [x|]; [|done].
  destruct (lq_pfence x); reflexivity.
Qed.

Lemma create_ok_trace s bo start range attr v s1 s2 :
  create_ok s bo start range attr v s1 -> trace_frame s1 s2 -> create_ok s bo start range attr v s2.
Proof.
  intros [-> Hn Ho (x & Hx & Hcr & Hc)] Ht. destruct (trace_frame_ops _ _ Ht) as [E1 E2].
  pose proof (f_equal v_vmas Ht) as Hv. cbn in Hv.
  split; [done|congruence..|]. exists x. rewrite <- Hv. split; [done|]. split; [done|].
  rewrite <- Hc. symmetry. by apply trace_bind_frame.
Qed.

(** The same start. *)
Lemma create_post_trace s0 s bo start range attr p :
  trace_frame s0 s -> create_post s bo start range attr p -> create_post s0 bo start range attr p.
Proof.
  intros Ht. destruct (trace_frame_ops _ _ Ht) as [E1 E2]. pose proof (trace_bind_frame _ _ Ht) as Hc.
  unfold create_post. destruct p.1 as [v|e].
  - intros [-> Hn Ho (x & Hx & Hcr & Hcc)]. split; [congruence..|].
    exists x. split; [done|]. split; [done|]. rewrite Hcc. unfold bind_frame in Hc.
    change (set_v_vmas (<[v_next s := x]> (v_vmas (core s))) (acct x 1 (core s)) =
            set_v_vmas (<[v_next s0 := x]> (v_vmas (core s0))) (acct x 1 (core s0))).
    by rewrite Hc, E2.
  - intros [Hf Ho Hn]. split; [by rewrite Hc|congruence|lia].
Qed.

(** A new VMA is created with its references taken, or nothing changes. *)
Lemma new_vma_spec m attr flags s :
  fresh_ok s -> flags_ok (gm_obj m) flags -> 0 <= gm_range m < 2 ^ 64 ->
  create_post s (gm_obj m) (gm_addr m) (gm_range m) attr (new_vma dev m attr flags s).
Proof.
  intros Hf Hfl Hr. unfold new_vma, bind_res. destruct (gm_obj m) as [b|].
  - rewrite run_bind. pose proof (new_vma_lock_frame b s) as Ht.
    destruct (new_vma_lock b s).1; [|by apply trace_err].
    eapply create_post_trace; [exact Ht|].
    assert (fresh_ok (new_vma_lock b s).2) as Hf0.
    { eapply bind_frame_fresh; [by apply trace_bind_frame| |done].
      by destruct (trace_frame_ops _ _ Ht) as [_ ->]. }
    revert Hf0. generalize (new_vma_lock b s).2. clear s Hf Ht. intros s Hf.
    rewrite run_bind.
    pose proof (xe_vma_create_spec (Some b) (gm_offset m) (gm_addr m) _ _ attr flags s Hf Hfl
      (new_range (gm_addr m) (gm_range m) Hr)) as Hc. unfold create_post in Hc.
    destruct (xe_vma_create _ _ _ _ _ _ _ s) as [[v|e] s1]; cbn [fst snd] in *; [|exact Hc].
    rewrite run_bind. cbn [gets fst snd].
    destruct (bo_is_external b s1); [|exact Hc]. rewrite run_bind.
    pose proof (add_preempt_fences_frame b s1) as Hp.
    destruct (add_preempt_fences b s1) as [[[]|e] s2]; cbn [fst snd] in *.
    + unfold create_post, ret; cbn. by eapply create_ok_trace.
    + rewrite !run_bind. unfold create_post. cbn [ret fst snd].
      eapply (create_undone _ _ _ _ _ _ _ _ (fun v => xe_vma_destroy v false)); [done..|].
      intros y t. apply xe_vma_destroy_frame.
  - rewrite run_bind.
    pose proof (xe_vma_create_spec None (gm_offset m) (gm_addr m) _ _ attr flags s Hf Hfl
      (new_range (gm_addr m) (gm_range m) Hr)) as Hc. unfold create_post in Hc.
    destruct (xe_vma_create _ _ _ _ _ _ _ s) as [[v|e] s1]; cbn [fst snd] in *; [|exact Hc].
    rewrite run_bind. cbn [gets fst snd].
    destruct (xe_vma_is_userptr _); [|exact Hc]. rewrite run_bind.
    pose proof (ask_frame xe_vma_userptr_pin_pages [v] s1) as Hp.
    destruct (ask xe_vma_userptr_pin_pages [v] s1) as [[[]|e] s2]; cbn [fst snd] in *.
    + unfold create_post, ret; cbn. by eapply create_ok_trace.
    + rewrite !run_bind. unfold create_post. cbn [ret fst snd].
      eapply (create_undone _ _ _ _ _ _ _ _ xe_vma_destroy_unlocked); [done..|].
      intros y t. apply destroy_unlocked_frame.
Qed.

End VmaLemmas.
