(* ===== verification/VmBindLemmas.v ===== *)
(** What parsing a bind operation does to the address space, and that unwinding it
    takes it back. *)
From stdpp Require Import base numbers list gmap.
From S2P Require Import Prelude.
From S2P Require Import VmArgs.
From S2P Require Import VmState.
From S2P Require Import Vma.
From S2P Require Import VmBind.
From S2P Require Import VmaLemmas.

Section VmBindLemmas.
Context `{BindUapi, VmFlags, VmOracle, DrmGpuvm}.
Context (dev : vm_device).
Context `{!LocksSucceed, !VmFlagsLaws, !DrmGpuvmLaws}.
Implicit Types s : xe_vm.

(** * Normal form of a state: the parts a bind changes, and the rest *)

Definition mk (vm : gmap Z xe_vma) (tr : va_tree) (b : gmap Z vm_bo) (r : Z) (p : gmap Z Z) s : xe_vm :=
  set_v_vmas vm (set_v_tree tr (set_v_bos b (set_v_refs r (set_v_pagemaps p s)))).

Lemma core_mk s : core s = mk (v_vmas s) (v_tree s) (v_bos s) (v_refs s) (v_pagemaps s) (core s).
Proof. reflexivity. Qed.

(** The parts of a state with a given core. *)
Lemma core_parts s vm tr b r p c :
  core s = mk vm tr b r p c ->
  v_vmas s = vm /\ v_tree s = tr /\ v_bos s = b /\ v_refs s = r /\ v_pagemaps s = p.
Proof.
  intros Hc. split_and!; [exact (f_equal v_vmas Hc)|exact (f_equal v_tree Hc)|exact (f_equal v_bos Hc)|
    exact (f_equal v_refs Hc)|exact (f_equal v_pagemaps Hc)].
Qed.

(** * What unwinding reads of an operation *)

Definition uview (op : xe_vma_op) :=
  (op_base op, op_flags op, om_vma op, (or_prev op, or_next op), (or_old_start op, or_old_range op)).

Definition op_new (op : xe_vma_op) : Prop :=
  op_flags op = 0 /\ om_vma op = None /\ or_prev op = None /\ or_next op = None.

(** Nothing but the operation [o] changed among the operations. *)
Definition ops_but (o : Z) s s' : Prop := delete o (v_ops s') = delete o (v_ops s).

#[export] Instance ops_but_equivalence o : Equivalence (ops_but o).
Proof.
  unfold ops_but. split; [intros s; reflexivity|intros s1 s2 E; exact (eq_sym E)|].
  intros s1 s2 s3 E1 E2. exact (eq_trans E2 E1).
Qed.

Lemma ops_but_lookup o o' s s' : ops_but o s s' -> o' <> o -> v_ops s' !! o' = v_ops s !! o'.
Proof.
  intros E Hne. rewrite <- (lookup_delete_ne (v_ops s') o o'), <- (lookup_delete_ne (v_ops s) o o') by done.
  by rewrite E.
Qed.

Lemma upd_op_but o f s : ops_but o s (upd_op o f s).2.
Proof. unfold ops_but. cbn. apply delete_alter_eq. Qed.

Lemma upd_op_get o f op s : v_ops s !! o = Some op -> v_ops (upd_op o f s).2 !! o = Some (f op).
Proof. intros Ho. cbn. by rewrite lookup_alter_eq, Ho. Qed.

(** Steps that change nothing but the request's own bookkeeping. *)
Record quiet s s' : Prop := {
  q_core : core s' = core s;
  q_ops : v_ops s' = v_ops s;
  q_next : v_next s' = v_next s;
}.

#[export] Instance quiet_preorder : PreOrder quiet.
Proof.
  split; [done|]. intros s1 s2 s3 [] []. split; congruence.
Qed.

Lemma quiet_trace s s' : trace_frame s s' -> quiet s s'.
Proof.
  intros Ht. destruct (trace_frame_ops _ _ Ht). split; [|done..]. symmetry. exact (trace_bind_frame _ _ Ht).
Qed.

Lemma quiet_for_each {A} (l : list A) (f : A -> ST xe_vm unit) s :
  (forall a t, quiet t (f a t).2) -> quiet s (for_each l f s).2.
Proof. intros Hf. apply for_each_inv; [|done]. intros a t _ Ht. etrans; [exact Ht|apply Hf]. Qed.

Lemma quiet_vops f s : quiet s (upd_vops f s).2.
Proof. done. Qed.

Lemma quiet_incr m n s : quiet s (xe_vma_ops_incr_pt_update_ops m n s).2.
Proof.
  unfold xe_vma_ops_incr_pt_update_ops. destruct (n =? 0); [done|].
  apply quiet_for_each. intros i t. unfold when. destruct (test _ _); [apply quiet_vops|done].
Qed.

Lemma quiet_event e args s : quiet s (event e args s).2.
Proof. apply quiet_trace, event_frame. Qed.
Lemma quiet_ask e args s : quiet s (ask e args s).2.
Proof. apply quiet_trace, ask_frame. Qed.
Lemma quiet_ask_bool e args s : quiet s (ask_bool e args s).2.
Proof. apply quiet_trace, ask_bool_frame. Qed.
Lemma quiet_when b c s : (forall t, quiet t (c t).2) -> quiet s (when b c s).2.
Proof. intros Hc. unfold when. destruct b; [apply Hc|done]. Qed.

(** * The address space *)

(** A VMA that may be inserted. *)
Definition vma_good (x : xe_vma) : Prop :=
  kind_ok x /\ test (va_flags x) XE_VMA_DESTROYED = false /\ 0 <= va_range x < 2 ^ 64.

(** Every inserted VMA is alive, with the range it was inserted with; no two of them
    overlap; addresses of objects are below the next one. *)
Record bind_wf s : Prop := {
  bw_fresh : fresh_ok s;
  bw_tree v r : v_tree s !! v = Some r -> exists x, v_vmas s !! v = Some x /\
    r = (va_addr x, va_range x) /\ vma_good x;
  bw_disjoint v w r r' : v_tree s !! v = Some r -> v_tree s !! w = Some r' -> v <> w ->
    ranges_overlap r r' = false;
}.

(** A side of a REMAP keeps a part of the old mapping. *)
Definition side_fits (x : xe_vma) (m : gpuva_map) : Prop :=
  gm_obj m = va_bo x /\ 0 <= gm_range m /\ va_addr x <= gm_addr m /\
  gm_addr m + gm_range m <= va_addr x + va_range x.

Definition sides_fit (x : xe_vma) (prev next : option gpuva_map) : Prop :=
  from_option (side_fits x) True prev /\ from_option (side_fits x) True next /\
  match prev, next with
  | Some p, Some n => gm_addr p + gm_range p <= gm_addr n
  | _, _ => True
  end.

(** The operation is new and fits the address space: the mapping it changes is
    inserted, what a REMAP keeps are parts of it, and a MAP of a buffer object is
    neither a NULL mapping nor a mirror. *)
Definition op_fits s (op : xe_vma_op) : Prop :=
  op_new op /\
  match op_base op with
  | GpuvaMap m => 0 <= gm_range m < 2 ^ 64 /\
      (is_Some (gm_obj m) -> test (om_vma_flags op) DRM_GPUVA_SPARSE = false /\
                             test (om_vma_flags op) XE_VMA_SYSTEM_ALLOCATOR = false)
  | GpuvaRemap prev next old =>
      exists x, v_vmas s !! old = Some x /\ is_Some (v_tree s !! old) /\ sides_fit x prev next
  | GpuvaUnmap va => is_Some (v_tree s !! va)
  | GpuvaPrefetch _ | GpuvaDriver => True
  end.

(** The mapping an operation removes. *)
Definition target (op : xe_vma_op) : option Z :=
  match op_base op with
  | GpuvaRemap _ _ old => Some old
  | GpuvaUnmap va => Some va
  | _ => None
  end.

(** * Unwinding a VMA the operation created *)

Definition undo_new (v : Z) (y : xe_vma) (pc : bool) s : xe_vm :=
  mk (delete v (v_vmas s)) (if pc then delete v (v_tree s) else v_tree s)
    (acct_bos y (-1) (v_bos s)) (acct_refs y (-1) (v_refs s)) (acct_pagemaps y (-1) (v_pagemaps s)) s.

Lemma prep_destroy_core v pc s :
  core (prep_vma_destroy v pc s).2 =
    set_v_vmas (alter destroyed v (v_vmas s))
      (set_v_tree (if pc then delete v (v_tree s) else v_tree s) (core s)) /\
  v_ops (prep_vma_destroy v pc s).2 = v_ops s /\ v_next (prep_vma_destroy v pc s).2 = v_next s.
Proof.
  unfold prep_vma_destroy, xe_vm_remove_vma, when. rewrite run_bind. destruct pc; [|done].
  rewrite !run_bind. destruct (bool_decide _); done.
Qed.

Lemma unwind_new_core v y pc s :
  v_vmas s !! v = Some y -> kind_ok y -> v_ufences s !! v = None ->
  core (unwind_new (Some v) pc s).2 = undo_new v y pc (core s) /\
  v_ops (unwind_new (Some v) pc s).2 = v_ops s.
Proof.
  intros Hy Hk Hu. unfold unwind_new. rewrite run_bind.
  destruct (prep_destroy_core v pc s) as (Hc & Ho & _). revert Hc Ho.
  generalize (prep_vma_destroy v pc s).2. intros t Hc Ho.
  pose proof (f_equal v_vmas Hc) as Hv. cbn in Hv.
  assert (v_vmas t !! v = Some (destroyed y)) as Ht by (by rewrite Hv, lookup_alter_eq, Hy).
  assert (v_ufences t !! v = None) as Hu' by (rewrite <- Hu; exact (f_equal (fun c => v_ufences c !! v) Hc)).
  pose proof (destroy_unlocked_frame v _ t Ht (destroyed_kind _ Hk) Hu') as Hd.
  split; [|by destruct (trace_frame_ops _ _ Hd) as [<- _]].
  apply trace_bind_frame in Hd. unfold bind_frame in Hd. rewrite <- Hd.
  change (set_v_vmas (delete v (v_vmas (core t))) (acct (destroyed y) (-1) (core t)) =
    undo_new v y pc (core s)).
  rewrite <- (acct_same y (destroyed y)) by apply destroyed_refs.
  rewrite Hc. cbn [v_vmas set_v_vmas]. rewrite delete_alter_eq. reflexivity.
Qed.

(** * New VMAs *)

Definition vma_bit_list : list Z := [b_read_only; b_dumpable; b_system_allocator; b_sparse; b_autoreset;
    b_atomic_pte; b_destroyed; b_pte_4k; b_pte_2m; b_pte_1g; b_pte_64k; b_pte_compact].

Lemma test_vma_bit f b c (i j : nat) :
  vma_bit_list !! i = Some b -> vma_bit_list !! j = Some c -> i <> j ->
  test (f ||| BIT b) (BIT c) = test f (BIT c).
Proof.
  intros Hi Hj Hne. destruct (bits_ne vma_bit_list b c i j vma_bits Hi Hj Hne) as (? & ? & ?).
  by apply test_other.
Qed.

(** Page-size flags keep the kind. *)
Lemma created_pte_bit bo start range attr x b i :
  vma_bit_list !! i = Some b -> (6 < i)%nat -> created bo start range attr x ->
  created bo start range attr (set_va_flags (va_flags x ||| BIT b) x).
Proof.
  intros Hi Hlt [Ha Hr Hb Hat Hwd Hk Hd]. split; try done.
  - intros Hs. destruct (Hk Hs) as [E1 E2]. unfold xe_vma_is_null, xe_vma_is_cpu_addr_mirror in *.
    split; [rewrite <- E1; by apply (test_vma_bit _ b b_sparse i 3%nat); [|done|lia]|].
    rewrite <- E2. by apply (test_vma_bit _ b b_system_allocator i 2%nat); [|done|lia].
  - rewrite <- Hd. by apply (test_vma_bit _ b b_destroyed i 6%nat); [|done|lia].
Qed.

Lemma created_pte_size bo start range attr x size :
  created bo start range attr x -> created bo start range attr (xe_vma_set_pte_size size x).
Proof.
  intros Hx. unfold xe_vma_set_pte_size. repeat case_match; [..|done].
  - apply (created_pte_bit _ _ _ _ _ b_pte_1g 9); [done|lia|done].
  - apply (created_pte_bit _ _ _ _ _ b_pte_2m 8); [done|lia|done].
  - apply (created_pte_bit _ _ _ _ _ b_pte_64k 10); [done|lia|done].
  - apply (created_pte_bit _ _ _ _ _ b_pte_4k 7); [done|lia|done].
Qed.

Lemma pte_size_refs size x : same_refs x (xe_vma_set_pte_size size x).
Proof. unfold xe_vma_set_pte_size. repeat case_match; done. Qed.

(** Changing the flags of the new VMA. *)
Lemma with_vma_alter f x s s1 :
  (forall x, same_refs x (f x)) -> core s1 = core (with_vma x s) ->
  core (upd_vma (v_next s) f s1).2 = core (with_vma (f x) s).
Proof.
  intros Hf Hc. pose proof (f_equal v_vmas Hc) as Hv. cbn in Hv.
  transitivity (set_v_vmas (alter f (v_next s) (v_vmas s1)) (core s1)); [done|].
  rewrite Hv, alter_insert_same, Hc. unfold with_vma. rewrite (acct_same x (f x)) by apply Hf. reflexivity.
Qed.

(** * The sides of a REMAP *)

(** A VMA was made for the operation, and stored in it by [setter]. *)
Definition side_made (setter : option Z -> xe_vma_op -> xe_vma_op) (o : Z) (op : xe_vma_op)
    (attr : xe_vma_mem_attr) (m : gpuva_map) s t : Prop :=
  v_next t = v_next s + 1 /\ ops_but o s t /\
  (exists op', v_ops t !! o = Some op' /\ uview op' = uview (setter (Some (v_next s)) op)) /\
  (exists x, created (gm_obj m) (gm_addr m) (gm_range m) attr x /\ core t = core (with_vma x s)).

(** It is made, or nothing happens. *)
Definition side_post {A} (setter : option Z -> xe_vma_op -> xe_vma_op) (o : Z) (op : xe_vma_op)
    (attr : xe_vma_mem_attr) (m : gpuva_map) s (p : res A * xe_vm) : Prop :=
  match p.1 with
  | Err _ => create_err s p.2
  | Ok _ => side_made setter o op attr m s p.2
  end.

(** Later changes to the operation that unwinding does not read. *)
Lemma side_made_op setter o op attr m s t f :
  (forall op, uview (f op) = uview op) ->
  side_made setter o op attr m s t -> side_made setter o op attr m s (upd_op o f t).2.
Proof.
  intros Hf (Hn & Hb & (op' & Ho & Hu) & Hx). split; [done|].
  split; [etrans; [exact Hb|apply upd_op_but]|]. split; [|done].
  exists (f op'). split; [by apply upd_op_get|]. by rewrite Hf.
Qed.

Lemma side_made_vma setter o op attr m s t f :
  (forall x, created (gm_obj m) (gm_addr m) (gm_range m) attr x ->
    created (gm_obj m) (gm_addr m) (gm_range m) attr (f x)) -> (forall x, same_refs x (f x)) ->
  side_made setter o op attr m s t -> side_made setter o op attr m s (upd_vma (v_next s) f t).2.
Proof.
  intros Hf Hs (Hn & Hb & Ho & (x & Hx & Hc)). split; [done|]. split; [done|]. split; [done|].
  exists (f x). split; [by apply Hf|]. by apply with_vma_alter.
Qed.

Lemma side_made_quiet setter o op attr m s t t' :
  quiet t t' -> side_made setter o op attr m s t -> side_made setter o op attr m s t'.
Proof.
  intros [Qc Qo Qn] (Hn & Hb & Ho & (x & Hx & Hc)). split; [congruence|].
  split; [unfold ops_but in *; congruence|]. rewrite Qo. split; [done|]. exists x. split; [done|congruence].
Qed.

(** The VMA just made. *)
Lemma side_made_new setter o op attr m s v s1 :
  v_ops s !! o = Some op ->
  create_ok s (gm_obj m) (gm_addr m) (gm_range m) attr v s1 ->
  side_made setter o op attr m s (upd_op o (setter (Some v)) s1).2.
Proof.
  intros Ho [-> Hn Hops (x & Hx & Hcr & Hc)]. split; [done|].
  split; [unfold ops_but; cbn; rewrite delete_alter_eq; by rewrite Hops|].
  split; [|by exists x]. exists (setter (Some (v_next s)) op). split; [|done].
  apply upd_op_get. by rewrite Hops.
Qed.

Ltac side_step :=
  match goal with
  | |- side_made _ _ _ _ _ _ (upd_op _ _ _).2 => apply side_made_op; [done|]
  | |- side_made _ _ _ _ _ _ (upd_vma _ _ _).2 =>
      apply side_made_vma; [intros; by apply created_pte_size|intros; by apply pte_size_refs|]
  end.

Lemma parse_remap_prev_spec o op m old skip flags s :
  fresh_ok s -> v_ops s !! o = Some op -> flags_ok (gm_obj m) flags -> 0 <= gm_range m < 2 ^ 64 ->
  side_post set_or_prev o op (va_attr old) m s (parse_remap_prev dev o (Some m) old skip flags s).
Proof.
  intros Hf Ho Hfl Hr. unfold parse_remap_prev, bind_res. rewrite run_bind.
  pose proof (new_vma_spec dev m (va_attr old) flags s Hf Hfl Hr) as Hn. unfold create_post in Hn.
  destruct (new_vma _ _ _ _ s) as [[v|e] s1]; cbn [fst snd] in *; [|exact Hn].
  pose proof (side_made_new set_or_prev _ _ _ _ _ _ _ Ho Hn) as Hp.
  pose proof (co_id _ _ _ _ _ _ _ Hn) as ->. rewrite !run_bind. cbn [gets fst snd].
  revert Hp. generalize (upd_op o (set_or_prev (Some (v_next s))) s1).2. intros s2 Hp.
  destruct (_ || _); rewrite ?run_bind; unfold side_post, ret; cbn [fst snd]; repeat side_step; exact Hp.
Qed.

Lemma parse_remap_next_spec o op m old skip flags s :
  fresh_ok s -> v_ops s !! o = Some op -> flags_ok (gm_obj m) flags -> 0 <= gm_range m < 2 ^ 64 ->
  side_post set_or_next o op (va_attr old) m s (parse_remap_next dev o (Some m) old skip flags s).
Proof.
  intros Hf Ho Hfl Hr. unfold parse_remap_next, bind_res. rewrite run_bind.
  pose proof (new_vma_spec dev m (va_attr old) flags s Hf Hfl Hr) as Hn. unfold create_post in Hn.
  destruct (new_vma _ _ _ _ s) as [[v|e] s1]; cbn [fst snd] in *; [|exact Hn].
  pose proof (side_made_new set_or_next _ _ _ _ _ _ _ Ho Hn) as Hp.
  pose proof (co_id _ _ _ _ _ _ _ Hn) as ->. rewrite !run_bind. cbn [gets fst snd].
  revert Hp. generalize (upd_op o (set_or_next (Some (v_next s))) s1).2. intros s2 Hp.
  destruct (_ || _); rewrite ?run_bind; unfold side_post, ret; cbn [fst snd]; repeat side_step; exact Hp.
Qed.

(** * The invariant, step by step *)

Lemma created_good bo start range attr x : created bo start range attr x -> vma_good x.
Proof. intros [Ha Hr Hb Hat Hw Hk Hd]. unfold vma_good. by rewrite Hr. Qed.

Lemma wf_core s s' : bind_wf s -> core s' = core s -> v_next s <= v_next s' -> bind_wf s'.
Proof.
  intros [Hf Ht Hd] Hc Hn.
  pose proof (f_equal v_vmas Hc) as Hv. pose proof (f_equal v_tree Hc) as Hr. cbn in Hv, Hr.
  split; rewrite ?Hr, ?Hv; [|done|done]. by eapply bind_frame_fresh.
Qed.

(** Fences of VMAs may be dropped. *)
Lemma wf_ufences s u : bind_wf s -> u ⊆ v_ufences s -> bind_wf (set_v_ufences u s).
Proof.
  intros [[Hf Hu] Ht Hd] Hs. split; [|done..]. split; [done|].
  intros v [f Hv]. apply Hu. exists f. by eapply lookup_weaken.
Qed.

Lemma wf_tree_vma s v r : bind_wf s -> v_tree s !! v = Some r ->
  exists x, v_vmas s !! v = Some x /\ r = (va_addr x, va_range x) /\ vma_good x.
Proof. intros Hw Hr. destruct (bw_tree s Hw v r Hr) as (x & ? & ? & ?). by exists x. Qed.

(** New objects at [v_next s] and above. *)
Lemma fresh_step s s1 :
  fresh_ok s -> v_next s <= v_next s1 -> v_ufences s1 = v_ufences s ->
  (forall v, is_Some (v_vmas s1 !! v) -> is_Some (v_vmas s !! v) \/ v < v_next s1) -> fresh_ok s1.
Proof.
  intros [Hf Hu] Hn Eu Hv. split; intros v Hs.
  - destruct (Hv v Hs) as [Hs'%Hf|]; lia.
  - rewrite Eu in Hs. apply Hu in Hs. lia.
Qed.

Lemma wf_new s s1 v x :
  bind_wf s -> v = v_next s -> v_next s < v_next s1 -> v_vmas s1 = <[v := x]> (v_vmas s) ->
  v_tree s1 = v_tree s -> v_ufences s1 = v_ufences s -> bind_wf s1.
Proof.
  intros [Hf Ht Hd] -> Hn Hv Hr Hu. split; rewrite ?Hr; [| |done].
  - apply (fresh_step s); [done|lia|done|]. intros w. rewrite Hv, lookup_insert_is_Some.
    intros [<-|[_ ?]]; [right; lia|by left].
  - intros w r Hw. destruct (Ht w r Hw) as (y & Hy & Hrest). exists y. split; [|done].
    rewrite Hv, lookup_insert_ne; [done|]. intros <-. by rewrite fresh_vma in Hy.
Qed.

(** Inserting a VMA into a free range. *)
Lemma wf_insert s s1 v x :
  bind_wf s -> v_next s <= v_next s1 -> v_vmas s1 = v_vmas s -> v_ufences s1 = v_ufences s ->
  v_vmas s !! v = Some x -> vma_good x ->
  tree_free (v_tree s) (va_addr x, va_range x) ->
  v_tree s1 = <[v := (va_addr x, va_range x)]> (v_tree s) -> bind_wf s1.
Proof.
  intros [Hf Ht Hd] Hn Hv Hu Hx Hg Hfree Hr. split.
  - apply (fresh_step s); [done..|]. intros w. rewrite Hv. by left.
  - intros w r. rewrite Hr, Hv. intros [[<- <-]|[Hne Hw]]%lookup_insert_Some; [by exists x|by apply Ht].
  - intros w w' r r'. rewrite Hr.
    intros [[<- <-]|[Hne Hw]]%lookup_insert_Some [[<- <-]|[Hne' Hw']]%lookup_insert_Some Hww; [done| | |by eapply Hd].
    + specialize (Hfree _ _ Hw'). revert Hfree. unfold ranges_overlap. cbn. lia.
    + exact (Hfree _ _ Hw).
Qed.

(** Removing a VMA, which may change. *)
Lemma wf_remove s s1 v f :
  bind_wf s -> v_next s <= v_next s1 -> v_vmas s1 = alter f v (v_vmas s) -> v_ufences s1 = v_ufences s ->
  v_tree s1 = delete v (v_tree s) -> bind_wf s1.
Proof.
  intros [Hf Ht Hd] Hn Hv Hu Hr. split.
  - apply (fresh_step s); [done..|]. intros w. rewrite Hv, lookup_alter_is_Some. by left.
  - intros w r. rewrite Hr, Hv. intros [Hne Hw]%lookup_delete_Some.
    rewrite lookup_alter_ne by done. by apply Ht.
  - intros w w' r r'. rewrite Hr. intros [Hne Hw]%lookup_delete_Some [Hne' Hw']%lookup_delete_Some.
    by apply Hd.
Qed.

(** Changing a VMA that is not inserted. *)
Lemma wf_alter s s1 v f :
  bind_wf s -> v_next s <= v_next s1 -> v_vmas s1 = alter f v (v_vmas s) -> v_ufences s1 = v_ufences s ->
  v_tree s1 = v_tree s -> v_tree s !! v = None -> bind_wf s1.
Proof.
  intros [Hf Ht Hd] Hn Hv Hu Hr Hnone. split; [|intros w r|].
  - apply (fresh_step s); [done..|]. intros w. rewrite Hv, lookup_alter_is_Some. by left.
  - rewrite Hr, Hv. intros Hw. rewrite lookup_alter_ne by congruence. by apply Ht.
  - rewrite Hr. exact Hd.
Qed.

(** * The outcome of an operation *)

(** Mappings other than the operation's are untouched. *)
Definition others_kept (tgt : option Z) s s1 : Prop :=
  forall v r, v_tree s !! v = Some r -> Some v <> tgt ->
    v_tree s1 !! v = Some r /\ v_vmas s1 !! v = v_vmas s !! v.

(** Unwinding the operation from any state that differs in bookkeeping goes back. *)
Definition undoable (o : Z) s s1 : Prop :=
  forall s2 op1 op2, core s2 = core s1 -> v_ops s1 !! o = Some op1 -> v_ops s2 !! o = Some op2 ->
    uview op2 = uview op1 ->
    core (unwind_op o s2).2 = core s /\ v_ops (unwind_op o s2).2 = v_ops s2.

Record op_done (o : Z) (tgt : option Z) s s1 : Prop := {
  od_but : ops_but o s s1;
  od_next : v_next s <= v_next s1;
  od_wf : bind_wf s1;
  od_kept : others_kept tgt s s1;
  od_undo : forall u, u ⊆ v_ufences s -> undoable o (set_v_ufences u s) (set_v_ufences u s1);
  od_some : is_Some (v_ops s1 !! o);
  od_ufences : v_ufences s1 = v_ufences s;
}.

Lemma get_op_lookup o op s : v_ops s !! o = Some op -> get_op o s = op.
Proof. intros Ho. unfold get_op. by rewrite Ho. Qed.

(** Unwinding reads what [uview] keeps. *)
Definition unwind_of (op : xe_vma_op) : ST xe_vm unit :=
  match op_base op with
  | GpuvaMap _ => unwind_new (om_vma op) (test (op_flags op) XE_VMA_OP_COMMITTED)
  | GpuvaUnmap va =>
      clear_destroyed va ;;;
      when (test (op_flags op) XE_VMA_OP_COMMITTED) (_ <-- xe_vm_insert_vma va ;; ret tt)
  | GpuvaRemap _ _ old =>
      unwind_new (or_prev op) (test (op_flags op) XE_VMA_OP_PREV_COMMITTED) ;;;
      unwind_new (or_next op) (test (op_flags op) XE_VMA_OP_NEXT_COMMITTED) ;;;
      clear_destroyed old ;;;
      when (test (op_flags op) XE_VMA_OP_COMMITTED) (
        upd_vma old (fun x => set_va_range (or_old_range op) (set_va_addr (or_old_start op) x)) ;;;
        _ <-- xe_vm_insert_vma old ;; ret tt)
  | GpuvaPrefetch _ | GpuvaDriver => ret tt
  end.

Lemma unwind_op_of o op s : v_ops s !! o = Some op -> unwind_op o s = unwind_of op s.
Proof.
  intros Ho. unfold unwind_op, xe_vma_op_unwind. rewrite run_bind. cbn [gets fst snd].
  rewrite (get_op_lookup _ _ _ Ho). rewrite run_bind. cbn [gets fst snd].
  rewrite (get_op_lookup _ _ _ Ho). unfold unwind_of. by destruct (op_base op).
Qed.

Lemma unwind_of_uview op op' : uview op = uview op' -> unwind_of op = unwind_of op'.
Proof.
  unfold uview. intros E. injection E as E1 E2 E3 E4 E5 E6 E7. unfold unwind_of.
  rewrite E1, E2, E3, E4, E5. by rewrite E6, E7.
Qed.

Lemma undoable_intro o op s s1 :
  v_ops s1 !! o = Some op ->
  (forall s2, core s2 = core s1 -> core (unwind_of op s2).2 = core s /\ v_ops (unwind_of op s2).2 = v_ops s2) ->
  undoable o s s1.
Proof.
  intros Ho Hu s2 op1 op2 Hc Ho1 Ho2 Hv. assert (op1 = op) as -> by congruence.
  rewrite (unwind_op_of o op2 s2 Ho2), (unwind_of_uview _ _ Hv). by apply Hu.
Qed.

(** ** MAP *)

Lemma insert_vma_cases v x s :
  v_vmas s !! v = Some x ->
  (tree_free (v_tree s) (va_addr x, va_range x) /\
   xe_vm_insert_vma v s = (Ok tt, set_v_tree (<[v := (va_addr x, va_range x)]> (v_tree s)) s)) \/
  exists e, xe_vm_insert_vma v s = (Err e, s).
Proof.
  intros Hx. unfold xe_vm_insert_vma. rewrite !run_bind. cbn [gets fst snd].
  rewrite (get_vma_lookup _ _ _ Hx).
  destruct (drm_gpuva_insert _ _ _) as [t|e] eqn:E; [left|right; by exists e].
  apply gpuva_insert_ok in E as [-> Hf]. done.
Qed.

Lemma insert_vma_free v x s :
  v_vmas s !! v = Some x -> tree_free (v_tree s) (va_addr x, va_range x) ->
  xe_vm_insert_vma v s = (Ok tt, set_v_tree (<[v := (va_addr x, va_range x)]> (v_tree s)) s).
Proof.
  intros Hx Hf. unfold xe_vm_insert_vma. rewrite !run_bind. cbn [gets fst snd].
  by rewrite (get_vma_lookup _ _ _ Hx), (gpuva_insert_free _ _ _ Hf).
Qed.

(** Unwinding the VMA of a state that only has it in addition. *)
Lemma undo_new_with v x (pc : bool) (tr : va_tree) s c :
  v = v_next s -> fresh_ok s -> c = set_v_tree tr (core (with_vma x s)) ->
  (if pc then delete v tr else tr) = v_tree s -> undo_new v x pc c = core s.
Proof.
  intros -> Hf -> Htr. unfold undo_new. cbn [v_vmas v_tree set_v_tree core with_vma set_v_vmas].
  rewrite delete_insert_id by by apply fresh_vma. rewrite Htr.
  transitivity (mk (v_vmas s) (v_tree s) (v_bos (acct x (-1) (acct x 1 s)))
    (v_refs (acct x (-1) (acct x 1 s))) (v_pagemaps (acct x (-1) (acct x 1 s))) (core s)); [reflexivity|].
  by rewrite acct_cancel.
Qed.

Lemma wf_tree_next s : bind_wf s -> v_tree s !! v_next s = None.
Proof.
  intros Hw. destruct (v_tree s !! v_next s) eqn:E; [|done].
  destruct (wf_tree_vma _ _ _ Hw E) as (x & Hx & _).
  by rewrite fresh_vma in Hx by apply Hw.
Qed.

Lemma with_vma_parts x s t :
  core t = core (with_vma x s) ->
  v_vmas t = <[v_next s := x]> (v_vmas s) /\ v_tree t = v_tree s.
Proof. intros Hc. split; [exact (f_equal v_vmas Hc)|exact (f_equal v_tree Hc)]. Qed.

Lemma kept_new tgt s s1 x :
  bind_wf s -> v_vmas s1 = <[v_next s := x]> (v_vmas s) ->
  (forall v r, v_tree s !! v = Some r -> v_tree s1 !! v = Some r) -> others_kept tgt s s1.
Proof.
  intros Hw Hv Ht v r Hr _. split; [by apply Ht|]. rewrite Hv. apply lookup_insert_ne.
  intros <-. by rewrite wf_tree_next in Hr.
Qed.

Lemma test_lor_self f b l (i : nat) : distinct_bits l -> l !! i = Some b -> test (f ||| BIT b) (BIT b) = true.
Proof.
  intros [_ Hp] Hi. rewrite test_lor_l, (test_BIT (BIT b)), testbit_BIT, Z.eqb_refl by
    (rewrite list.Forall_forall in Hp; apply Hp; by eapply list_elem_of_lookup_2).
  apply orb_true_r.
Qed.

Lemma committed_set f : test (f ||| XE_VMA_OP_COMMITTED) XE_VMA_OP_COMMITTED = true.
Proof. exact (test_lor_self f _ _ 0%nat op_bits eq_refl). Qed.
Lemma prev_committed_set f : test (f ||| XE_VMA_OP_PREV_COMMITTED) XE_VMA_OP_PREV_COMMITTED = true.
Proof. exact (test_lor_self f _ _ 1%nat op_bits eq_refl). Qed.
Lemma next_committed_set f : test (f ||| XE_VMA_OP_NEXT_COMMITTED) XE_VMA_OP_NEXT_COMMITTED = true.
Proof. exact (test_lor_self f _ _ 2%nat op_bits eq_refl). Qed.

(** The state of a MAP whose VMA was made, and inserted if [pc]. *)
Lemma undo_map o op m x (pc : bool) tr s t :
  bind_wf s -> v_ops t !! o = Some op -> op_base op = GpuvaMap m -> om_vma op = Some (v_next s) ->
  test (op_flags op) XE_VMA_OP_COMMITTED = pc -> vma_good x ->
  core t = set_v_tree tr (core (with_vma x s)) -> (if pc then delete (v_next s) tr else tr) = v_tree s ->
  undoable o s t.
Proof.
  intros Hw Ho Hb Hv Hf [Hk _] Hc Htr. eapply undoable_intro; [exact Ho|]. intros s2 Hc2.
  unfold unwind_of. rewrite Hb, Hv, Hf. rewrite Hc in Hc2.
  assert (v_vmas s2 !! v_next s = Some x) as Hl.
  { pose proof (f_equal v_vmas Hc2) as E. cbn in E. rewrite E. apply lookup_insert_eq. }
  assert (v_ufences s2 !! v_next s = None) as Hu.
  { pose proof (f_equal v_ufences Hc2) as E. cbn in E. rewrite E. by apply fresh_ufence; [apply Hw|]. }
  destruct (unwind_new_core _ _ pc _ Hl Hk Hu) as [-> ->]. split; [|done].
  by eapply undo_new_with; [|apply Hw|..].
Qed.

Lemma commit_map_spec o op m attr s s1 :
  bind_wf s -> op_base op = GpuvaMap m -> op_new op -> side_made set_om_vma o op attr m s s1 ->
  op_done o None s (xe_vma_op_commit o s1).2.
Proof.
  intros Hw Hb (Hfl & _) (Hn & Hbut & (op' & Ho & Hu) & (x & Hx & Hc)).
  injection Hu as E1 E2 E3 E4 E5 E6 E7. rewrite Hb in E1. rewrite Hfl in E2.
  destruct (with_vma_parts _ _ _ Hc) as [Hv Ht].
  pose proof (created_good _ _ _ _ _ Hx) as Hg.
  pose proof (f_equal v_ufences Hc) as Huf. cbn in Huf.
  assert (v_vmas s1 !! v_next s = Some x) as Hl by (rewrite Hv; apply lookup_insert_eq).
  assert (bind_wf s1) as Hw1 by (eapply wf_new; [exact Hw|done|lia|done|done|done]).
  unfold xe_vma_op_commit. rewrite run_bind. cbn [gets fst snd]. rewrite (get_op_lookup _ _ _ Ho), E1, E3.
  rewrite !run_bind. destruct (insert_vma_cases _ _ _ Hl) as [[Hfree ->]|[e ->]]; cbn [fst snd is_ok when ret].
  - split; [etrans; [exact Hbut|]; exact (upd_op_but o _ s1)|cbn; lia| | |
      |eexists; exact (upd_op_get _ _ _ _ Ho)|exact Huf].
    + eapply (wf_insert s1); [exact Hw1|done|done|done|exact Hl|done|done|done].
    + eapply kept_new; [done|exact Hv|]. intros v r Hr.
      change (<[v_next s := (va_addr x, va_range x)]> (v_tree s1) !! v = Some r).
      rewrite Ht, lookup_insert_ne; [done|]. intros <-. by rewrite wf_tree_next in Hr.
    + intros u Hs. eapply (undo_map o _ m x true (<[v_next s := (va_addr x, va_range x)]> (v_tree s)));
        [by apply wf_ufences|exact (upd_op_get _ _ _ _ Ho)|exact E1|exact E3| |done| |].
      * cbn [op_flags set_op_flags]. rewrite E2. apply committed_set.
      * rewrite <- Ht. exact (f_equal (fun c => set_v_tree (<[v_next s := (va_addr x, va_range x)]> (v_tree s1))
          (set_v_ufences u c)) Hc).
      * exact (delete_insert_id _ _ _ (wf_tree_next s Hw)).
  - split; [done|lia|done| | |by exists op'|done].
    + eapply kept_new; [done|exact Hv|]. intros v r Hr. by rewrite Ht.
    + intros u Hs. eapply (undo_map o op' m x false (v_tree s)); [by apply wf_ufences|exact Ho|done|done| |done| |done].
      * by rewrite E2.
      * exact (f_equal (set_v_ufences u) Hc).
Qed.

(** ** UNMAP *)

Lemma tree_free_delete s v r : bind_wf s -> v_tree s !! v = Some r -> tree_free (delete v (v_tree s)) r.
Proof.
  intros Hw Hr w r' [Hne Hw']%lookup_delete_Some. by eapply (bw_disjoint s Hw w v).
Qed.

Definition undestroyed (x : xe_vma) : xe_vma := set_va_flags (clear_bits (va_flags x) XE_VMA_DESTROYED) x.

Lemma b_destroyed_pos : 0 <= b_destroyed.
Proof. by destruct (bits_ne vma_bit_list b_destroyed b_sparse 6 3 vma_bits). Qed.

Lemma clear_alive f : test f XE_VMA_DESTROYED = false -> clear_bits f XE_VMA_DESTROYED = f.
Proof.
  pose proof b_destroyed_pos. unfold clear_bits, XE_VMA_DESTROYED. rewrite test_BIT by done. intros Hf.
  apply Z.bits_inj'. intros i Hi. rewrite Z.ldiff_spec, testbit_BIT by done.
  destruct (Z.eqb_spec i b_destroyed) as [->|]; [by rewrite Hf|]. by rewrite andb_true_r.
Qed.

Lemma clear_destroyed_flag f : clear_bits (f ||| XE_VMA_DESTROYED) XE_VMA_DESTROYED = clear_bits f XE_VMA_DESTROYED.
Proof.
  pose proof b_destroyed_pos. unfold clear_bits, XE_VMA_DESTROYED.
  apply Z.bits_inj'. intros i Hi. rewrite !Z.ldiff_spec, Z.lor_spec, testbit_BIT by done.
  destruct (i =? b_destroyed); [by rewrite !andb_false_r|]. by rewrite orb_false_r.
Qed.

Lemma undestroyed_alive x : test (va_flags x) XE_VMA_DESTROYED = false -> undestroyed x = x.
Proof. intros Hx. unfold undestroyed. rewrite clear_alive by done. by destruct x. Qed.

Lemma undestroyed_destroyed x :
  test (va_flags x) XE_VMA_DESTROYED = false -> undestroyed (destroyed x) = x.
Proof.
  intros Hx. unfold undestroyed, destroyed. cbn. rewrite clear_destroyed_flag, clear_alive by done.
  by destruct x.
Qed.

Lemma alter_same {A} (f : A -> A) (i : Z) (a : A) (m : gmap Z A) :
  m !! i = Some a -> f a = a -> alter f i m = m.
Proof.
  intros Hi Ha. apply alter_id. intros b Hb. by replace b with a by congruence.
Qed.

(** Clearing the mark of a VMA that is alive changes nothing. *)
Lemma clear_destroyed_noop v x s :
  v_vmas s !! v = Some x -> test (va_flags x) XE_VMA_DESTROYED = false ->
  core (clear_destroyed v s).2 = core s /\ v_ops (clear_destroyed v s).2 = v_ops s.
Proof.
  intros Hx Ha. split; [|done].
  transitivity (set_v_vmas (alter undestroyed v (v_vmas s)) (core s)); [done|].
  rewrite (alter_same _ _ x) by (done || by apply undestroyed_alive). done.
Qed.

(** Reinserting a removed VMA. *)
Lemma reinsert_core s v x s3 :
  bind_wf s -> v_tree s !! v = Some (va_addr x, va_range x) -> v_vmas s !! v = Some x ->
  core s3 = mk (v_vmas s) (delete v (v_tree s)) (v_bos s) (v_refs s) (v_pagemaps s) (core s) ->
  core ((_ <-- xe_vm_insert_vma v ;; ret tt) s3).2 = core s /\
  v_ops ((_ <-- xe_vm_insert_vma v ;; ret tt) s3).2 = v_ops s3.
Proof.
  intros Hw Hr Hx Hc. destruct (core_parts _ _ _ _ _ _ _ Hc) as (Hv & Ht & _).
  rewrite run_bind, (insert_vma_free v x); [|by rewrite Hv|rewrite Ht; by eapply tree_free_delete].
  split; [|done]. cbn [ret fst snd].
  transitivity (set_v_tree (<[v := (va_addr x, va_range x)]> (v_tree s3)) (core s3)); [done|].
  rewrite Ht, Hc, insert_delete_id by done. by rewrite (core_mk s).
Qed.

Lemma undo_unmap o op va x s t :
  bind_wf s -> v_ops t !! o = Some op -> op_base op = GpuvaUnmap va ->
  test (op_flags op) XE_VMA_OP_COMMITTED = true -> v_vmas s !! va = Some x ->
  v_tree s !! va = Some (va_addr x, va_range x) -> vma_good x ->
  core t = set_v_vmas (alter destroyed va (v_vmas s)) (set_v_tree (delete va (v_tree s)) (core s)) ->
  undoable o s t.
Proof.
  intros Hw Ho Hb Hf Hx Hr (_ & Ha & _) Hc. eapply undoable_intro; [exact Ho|]. intros s2 Hc2.
  unfold unwind_of. rewrite Hb, Hf, run_bind. unfold when.
  destruct (reinsert_core s va x (clear_destroyed va s2).2) as [-> ->]; try done.
  transitivity (set_v_vmas (alter undestroyed va (v_vmas s2)) (core s2)); [done|].
  rewrite Hc in Hc2. pose proof (f_equal v_vmas Hc2) as Hv2. cbn in Hv2. rewrite Hv2, Hc2, alter_alter_eq.
  rewrite (alter_same _ va x); [reflexivity|done|]. by apply undestroyed_destroyed.
Qed.

Lemma commit_unmap_spec o op va s :
  bind_wf s -> v_ops s !! o = Some op -> op_base op = GpuvaUnmap va -> op_new op ->
  is_Some (v_tree s !! va) -> op_done o (Some va) s (xe_vma_op_commit o s).2.
Proof.
  intros Hw Ho Hb (Hfl & _) [r Hr]. destruct (wf_tree_vma _ _ _ Hw Hr) as (x & Hx & -> & Hg).
  unfold xe_vma_op_commit. rewrite run_bind. cbn [gets fst snd]. rewrite (get_op_lookup _ _ _ Ho), Hb.
  rewrite !run_bind. cbn [ret snd]. destruct (prep_destroy_core va true s) as (Hc & Hops & Hn).
  revert Hc Hops Hn. generalize (prep_vma_destroy va true s).2. intros s1 Hc Hops Hn.
  pose proof (f_equal v_vmas Hc) as Hv. pose proof (f_equal v_tree Hc) as Ht.
  pose proof (f_equal v_ufences Hc) as Huf. cbn in Hv, Ht, Huf.
  rewrite <- Hops in Ho.
  split; [etrans; [|apply upd_op_but]; unfold ops_but; by rewrite Hops|by apply Z.eq_le_incl| | |
      |eexists; exact (upd_op_get _ _ _ _ Ho)|exact Huf].
  - eapply (wf_remove s); [done|by apply Z.eq_le_incl|exact Hv|exact Huf|exact Ht].
  - intros v r Hvr Hne. cbn. rewrite Hv, Ht, lookup_delete_ne, lookup_alter_ne by congruence. done.
  - intros u Hs. eapply (undo_unmap o _ va x); [by apply wf_ufences|exact (upd_op_get _ _ _ _ Ho)|exact Hb| |done..|].
    + cbn [op_flags set_op_flags]. rewrite Hfl. apply committed_set.
    + exact (f_equal (set_v_ufences u) Hc).
Qed.

(** ** REMAP *)

(** A state with up to two new VMAs, which may be inserted, on top of [vm0] and [tr0]. *)
Notation new_vma_t := (option (Z * xe_vma)).
Definition ins_vma (n : new_vma_t) (vm : gmap Z xe_vma) : gmap Z xe_vma :=
  match n with Some (v, x) => <[v := x]> vm | None => vm end.
Definition ins_tree (b : bool) (n : new_vma_t) (tr : va_tree) : va_tree :=
  match n with Some (v, x) => if b then <[v := (va_addr x, va_range x)]> tr else tr | None => tr end.
Definition ins_acct {A} (f : xe_vma -> Z -> A -> A) (n : new_vma_t) (a : A) : A :=
  match n with Some (_, x) => f x 1 a | None => a end.

Definition over2 (vm0 : gmap Z xe_vma) (tr0 : va_tree) (p n : new_vma_t) (bp bn : bool) s : xe_vm :=
  mk (ins_vma n (ins_vma p vm0)) (ins_tree bn n (ins_tree bp p tr0))
    (ins_acct acct_bos n (ins_acct acct_bos p (v_bos s)))
    (ins_acct acct_refs n (ins_acct acct_refs p (v_refs s)))
    (ins_acct acct_pagemaps n (ins_acct acct_pagemaps p (v_pagemaps s))) (core s).

Definition new_free (n : new_vma_t) (vm0 : gmap Z xe_vma) (tr0 : va_tree) : Prop :=
  match n with
  | Some (v, x) => vm0 !! v = None /\ tr0 !! v = None /\ vma_good x
  | None => True
  end.
Definition new_differ (p n : new_vma_t) : Prop :=
  match p, n with Some (v, _), Some (w, _) => v <> w | _, _ => True end.

Lemma acct_cancel_parts x b r p :
  acct_bos x (-1) (acct_bos x 1 b) = b /\ acct_refs x (-1) (acct_refs x 1 r) = r /\
  acct_pagemaps x (-1) (acct_pagemaps x 1 p) = p.
Proof.
  split_and!; [| |by apply acct_pagemaps_cancel].
  - unfold acct_bos. destruct (va_bo x); [|done]. rewrite alter_alter_eq.
    apply alter_id_gen. intros []. unfold bump. cbn. f_equal; destruct (is_willneed x); lia.
  - unfold acct_refs. destruct (va_bo x); lia.
Qed.

Lemma undo_over2_prev v x n (b b' : bool) vm0 tr0 s :
  vm0 !! v = None -> tr0 !! v = None -> new_differ (Some (v, x)) n ->
  undo_new v x b (over2 vm0 tr0 (Some (v, x)) n b b' s) = over2 vm0 tr0 None n b b' s.
Proof.
  intros Hv Ht Hd. unfold undo_new, over2. cbn [v_vmas v_tree v_bos v_refs v_pagemaps mk set_v_vmas
    set_v_tree set_v_bos set_v_refs set_v_pagemaps ins_vma ins_tree ins_acct].
  destruct n as [[w y]|]; cbn [ins_vma ins_tree ins_acct] in *.
  - rewrite (acct_bos_comm x y), (acct_refs_comm x y), (acct_pagemaps_comm x y).
    destruct (acct_cancel_parts x (v_bos s) (v_refs s) (v_pagemaps s)) as (-> & -> & ->).
    rewrite delete_insert_ne, delete_insert_id by done.
    destruct b, b'; try reflexivity; rewrite ?delete_insert_ne, delete_insert_id by done; reflexivity.
  - destruct (acct_cancel_parts x (v_bos s) (v_refs s) (v_pagemaps s)) as (-> & -> & ->).
    rewrite delete_insert_id by done. destruct b; [|reflexivity].
    rewrite delete_insert_id by done. reflexivity.
Qed.

Lemma undo_over2_next v x (b : bool) vm0 tr0 s :
  vm0 !! v = None -> tr0 !! v = None ->
  undo_new v x b (over2 vm0 tr0 None (Some (v, x)) b b s) = over2 vm0 tr0 None None b b s.
Proof.
  intros Hv Ht. exact (undo_over2_prev v x None b b vm0 tr0 s Hv Ht I).
Qed.

(** Unwinding both sides. *)
Definition no_ufence (n : new_vma_t) s : Prop :=
  match n with Some (v, _) => v_ufences s !! v = None | None => True end.

Lemma unwind_sides p n b vm0 tr0 s s2 :
  new_free p vm0 tr0 -> new_free n vm0 tr0 -> new_differ p n -> no_ufence p s -> no_ufence n s ->
  core s2 = over2 vm0 tr0 p n b b s ->
  let s3 := (unwind_new (fst <$> n) b (unwind_new (fst <$> p) b s2).2).2 in
  core s3 = over2 vm0 tr0 None None b b s /\ v_ops s3 = v_ops s2.
Proof.
  intros Hp Hn Hd Up Un Hc. cbv zeta.
  assert (core (unwind_new (fst <$> p) b s2).2 = over2 vm0 tr0 None n b b s /\
    v_ops (unwind_new (fst <$> p) b s2).2 = v_ops s2) as [Hc1 <-].
  { destruct p as [[v x]|]; [|done]. destruct Hp as (Hv & Ht & Hk & _). cbn [fmap option_fmap option_map fst].
    assert (v_vmas s2 !! v = Some x) as Hl.
    { destruct (core_parts _ _ _ _ _ _ _ Hc) as (-> & _). destruct n as [[w y]|]; cbn.
      - rewrite lookup_insert_ne by (cbn in Hd; congruence). apply lookup_insert_eq.
      - apply lookup_insert_eq. }
    assert (v_ufences s2 !! v = None) as Hu by (rewrite <- Up; exact (f_equal (fun c => v_ufences c !! v) Hc)).
    destruct (unwind_new_core v x b s2 Hl Hk Hu) as [-> ->]. rewrite Hc. by rewrite undo_over2_prev. }
  revert Hc1. generalize (unwind_new (fst <$> p) b s2).2. intros t Hc1.
  destruct n as [[v x]|]; [|done]. destruct Hn as (Hv & Ht & Hk & _). cbn [fmap option_fmap option_map fst].
  assert (v_vmas t !! v = Some x) as Hl.
  { destruct (core_parts _ _ _ _ _ _ _ Hc1) as (-> & _). cbn. apply lookup_insert_eq. }
  assert (v_ufences t !! v = None) as Hu by (rewrite <- Un; exact (f_equal (fun c => v_ufences c !! v) Hc1)).
  destruct (unwind_new_core v x b t Hl Hk Hu) as [-> ->]. rewrite Hc1. by rewrite undo_over2_next.
Qed.

(** The sides were made for what the REMAP keeps of the old VMA [x]. *)
Definition made_for (x : xe_vma) (m : option gpuva_map) (n : new_vma_t) s t : Prop :=
  match n with
  | Some (v, y) => v_next s <= v < v_next t /\ exists k, m = Some k /\
      created (gm_obj k) (gm_addr k) (gm_range k) (va_attr x) y
  | None => True
  end.

Lemma made_for_free x m n s t : bind_wf s -> made_for x m n s t -> new_free n (v_vmas s) (v_tree s).
Proof.
  intros Hw. destruct n as [[v y]|]; [|done]. intros (Hv & k & _ & Hy). split_and!.
  - destruct (v_vmas s !! v) eqn:E; [|done]. pose proof (proj1 (bw_fresh s Hw) v ltac:(by eexists)). lia.
  - destruct (v_tree s !! v) eqn:E; [|done]. destruct (wf_tree_vma _ _ _ Hw E) as (z & Hz & _).
    pose proof (proj1 (bw_fresh s Hw) v ltac:(by eexists)). lia.
  - by eapply created_good.
Qed.

Lemma made_for_ufence x m n s t u :
  bind_wf s -> made_for x m n s t -> u ⊆ v_ufences s -> no_ufence n (set_v_ufences u s).
Proof.
  intros Hw. destruct n as [[v y]|]; [|done]. intros ([Hv _] & _) Hu. cbn.
  eapply lookup_weaken_None; [|exact Hu]. by apply fresh_ufence; [apply Hw|].
Qed.

Lemma made_for_le x m n s t t' : made_for x m n s t -> v_next t <= v_next t' -> made_for x m n s t'.
Proof. destruct n as [[v y]|]; [|done]. intros ([? ?] & Hk) ?. split; [lia|done]. Qed.

(** A REMAP that was parsed, possibly in part. *)
Record remap_made (o : Z) (op : xe_vma_op) (x : xe_vma) (mp mn : option gpuva_map) (ab : Z * Z)
    (p n : new_vma_t) s t : Prop := {
  rm_next : v_next s <= v_next t;
  rm_but : ops_but o s t;
  rm_op : exists op', v_ops t !! o = Some op' /\ op_base op' = op_base op /\ op_flags op' = op_flags op /\
    or_prev op' = fst <$> p /\ or_next op' = fst <$> n /\ (or_old_start op', or_old_range op') = ab;
  rm_core : core t = over2 (v_vmas s) (v_tree s) p n false false s;
  rm_prev : made_for x mp p s t;
  rm_sides_next : made_for x mn n s t;
  rm_differ : new_differ p n;
}.

Lemma over2_lookup vm0 tr0 p n b b' s t v x :
  core t = over2 vm0 tr0 p n b b' s -> new_free p vm0 tr0 -> new_free n vm0 tr0 ->
  vm0 !! v = Some x -> v_vmas t !! v = Some x.
Proof.
  intros Hc Hp Hn Hv. destruct (core_parts _ _ _ _ _ _ _ Hc) as (-> & _).
  destruct n as [[w y]|], p as [[w' y']|]; cbn in *; destruct_and?;
    rewrite ?lookup_insert_ne by congruence; done.
Qed.

Lemma wf_remap_made o op x mp mn ab p n s t : bind_wf s -> remap_made o op x mp mn ab p n s t -> bind_wf t.
Proof.
  intros Hw [Hn _ _ Hc Hp Hs Hd]. pose proof (made_for_free _ _ _ _ _ Hw Hp) as Fp.
  pose proof (made_for_free _ _ _ _ _ Hw Hs) as Fn.
  destruct (core_parts _ _ _ _ _ _ _ Hc) as (Hv & Ht & _).
  assert (v_tree t = v_tree s) as Htr by (rewrite Ht; by destruct p as [[]|], n as [[]|]).
  split.
  - apply (fresh_step s); [apply Hw|done|exact (f_equal v_ufences Hc)|].
    intros v. rewrite Hv. destruct n as [[w y]|], p as [[w' y']|]; cbn in *; destruct_and?.
    all: rewrite ?lookup_insert_is_Some; intros Hs'.
    all: repeat match goal with H : _ \/ _ |- _ => destruct H as [?|[_ ?]] end; subst; first [by left|right; lia].
  - intros v r. rewrite Htr. intros Hr. destruct (bw_tree s Hw v r Hr) as (y & Hy & Hrest).
    exists y. split; [|done]. by eapply over2_lookup.
  - rewrite Htr. apply Hw.
Qed.

(** A REMAP that was not committed is taken back. *)
Lemma undo_uncommitted o op prev next old x p n s t :
  v_ops t !! o = Some op -> op_base op = GpuvaRemap prev next old -> op_flags op = 0 ->
  or_prev op = fst <$> p -> or_next op = fst <$> n ->
  v_vmas s !! old = Some x -> vma_good x -> core t = over2 (v_vmas s) (v_tree s) p n false false s ->
  new_free p (v_vmas s) (v_tree s) -> new_free n (v_vmas s) (v_tree s) -> new_differ p n ->
  no_ufence p s -> no_ufence n s -> undoable o s t.
Proof.
  intros Ho Hb Hf Ep En Hx (_ & Ha & _) Hc Fp Fn Hd Up Un. eapply undoable_intro; [exact Ho|]. intros s2 Hc2.
  unfold unwind_of. rewrite Hb, Hf, Ep, En. change (test 0 _) with false. unfold when.
  rewrite !run_bind. rewrite Hc in Hc2.
  destruct (unwind_sides _ _ _ _ _ _ _ Fp Fn Hd Up Un Hc2) as [Hc3 Ho3]. revert Hc3 Ho3.
  match goal with |- core ?u = _ -> _ => generalize u end. intros s3 Hc3 Ho3.
  cbn [ret snd]. destruct (clear_destroyed_noop old x s3) as [-> ->]; [|done|].
  - destruct (core_parts _ _ _ _ _ _ _ Hc3) as (-> & _). done.
  - rewrite Hc3, Ho3. done.
Qed.

Lemma remap_uncommitted o op prev next old x ab p n s t :
  bind_wf s -> op_base op = GpuvaRemap prev next old -> op_flags op = 0 -> v_vmas s !! old = Some x ->
  vma_good x -> remap_made o op x prev next ab p n s t -> op_done o (Some old) s t.
Proof.
  intros Hw Hb Hfl Hx Hg Hm. pose proof (wf_remap_made _ _ _ _ _ _ _ _ _ _ Hw Hm) as Hwt.
  destruct Hm as [Hn Hbut (op' & Ho & E1 & E2 & E3 & E4 & _) Hc Hp Hs Hd].
  pose proof (made_for_free _ _ _ _ _ Hw Hp) as Fp. pose proof (made_for_free _ _ _ _ _ Hw Hs) as Fn.
  split; [done|done|done| | |by exists op'|exact (f_equal v_ufences Hc)].
  - intros v r Hr _. destruct (core_parts _ _ _ _ _ _ _ Hc) as (Hv & Ht & _).
    destruct (wf_tree_vma _ _ _ Hw Hr) as (y & Hy & _). split.
    + rewrite Ht. destruct p as [[]|], n as [[]|]; done.
    + rewrite Hy. by eapply over2_lookup.
  - intros u Hu. eapply (undo_uncommitted o op' prev next old x p n); try done; [congruence..| | |].
    + exact (f_equal (set_v_ufences u) Hc).
    + by eapply made_for_ufence.
    + by eapply made_for_ufence.
Qed.

(** Committing a side. *)
Definition present_or_id (b : bool) (tp : Z) (x : xe_vma) : xe_vma :=
  if b then set_va_tile_present tp x else x.

Lemma commit_side_ok o v x skip flag tp s :
  v_vmas s !! v = Some x -> tree_free (v_tree s) (va_addr x, va_range x) ->
  let p := commit_side o (Some v) skip flag tp (Ok tt) s in
  p.1 = Ok tt /\ v_next p.2 = v_next s /\
  v_ops p.2 = alter (fun op => set_op_flags (op_flags op ||| flag) op) o (v_ops s) /\
  core p.2 = set_v_vmas (alter (present_or_id skip tp) v (v_vmas s))
    (set_v_tree (<[v := (va_addr x, va_range x)]> (v_tree s)) (core s)).
Proof.
  intros Hx Hf. cbv zeta. unfold commit_side. rewrite run_bind, (insert_vma_free v x) by done.
  cbn [fst snd or_err is_ok andb when]. rewrite !run_bind. destruct skip; [done|].
  cbn [when ret fst snd]. split; [done|]. split; [done|]. split; [done|].
  rewrite alter_id by done. done.
Qed.

Lemma sub_free t r r' :
  tree_free t r -> r.1 <= r'.1 -> r'.1 + r'.2 <= r.1 + r.2 -> tree_free t r'.
Proof.
  intros Ht H1' H2' v a Hv. specialize (Ht v a Hv). revert Ht. unfold ranges_overlap. lia.
Qed.

Lemma insert_free t v r r' :
  tree_free t r -> ranges_overlap r' r = false -> tree_free (<[v := r']> t) r.
Proof. intros Ht Hr w a [[<- <-]|[_ Hw]]%lookup_insert_Some; [done|by eapply Ht]. Qed.

(** The flags of a committed side. *)
Definition side_flag (n : new_vma_t) (flag : Z) (op : xe_vma_op) : xe_vma_op :=
  match n with Some _ => set_op_flags (op_flags op ||| flag) op | None => op end.
Definition side_map (f : xe_vma -> xe_vma) (n : new_vma_t) : new_vma_t :=
  match n with Some (v, x) => Some (v, f x) | None => None end.
Definition side_free (n : new_vma_t) (tr : va_tree) : Prop :=
  match n with Some (_, x) => tree_free tr (va_addr x, va_range x) | None => True end.

Record side_committed (o : Z) (n : new_vma_t) (flag : Z) (r : res unit) s t : Prop := {
  sc_ok : r = Ok tt;
  sc_next : v_next t = v_next s;
  sc_ops : v_ops t = alter (side_flag n flag) o (v_ops s);
}.

Lemma commit_prev_spec o p n vm0 tr0 skip flag tp s t :
  core t = over2 vm0 tr0 p n false false s -> new_free p vm0 tr0 -> new_differ p n -> side_free p tr0 ->
  let q := commit_side o (fst <$> p) skip flag tp (Ok tt) t in
  side_committed o p flag q.1 t q.2 /\
  core q.2 = over2 vm0 tr0 (side_map (present_or_id skip tp) p) n true false s.
Proof.
  intros Hc Hp Hd Hf. destruct (core_parts _ _ _ _ _ _ _ Hc) as (Hv & Ht & _).
  destruct p as [[v x]|]; cbv zeta; cbn [fmap option_fmap option_map fst].
  2: { split; [split; [done|done|]|exact Hc]. symmetry. apply alter_id. done. }
  assert (v_vmas t = <[v := x]> (ins_vma n vm0)) as Hv'.
  { rewrite Hv. destruct n as [[w y]|]; [|done]. cbn. by rewrite insert_insert_ne by (cbn in Hd; congruence). }
  assert (v_tree t = tr0) as Ht' by (rewrite Ht; by destruct n as [[]|]).
  destruct (commit_side_ok o v x skip flag tp t) as (Hr & Hn & Ho & ->);
    [rewrite Hv'; apply lookup_insert_eq|by rewrite Ht'|].
  split; [by split|]. rewrite Hv', Ht', Hc, alter_insert_same.
  destruct n as [[w y]|]; cbn [ins_vma side_map]; [|by destruct skip].
  rewrite insert_insert_ne by (cbn in Hd; congruence). by destruct skip.
Qed.

Lemma commit_next_spec o p n vm0 tr0 skip flag tp s t :
  core t = over2 vm0 tr0 p n true false s -> new_free n vm0 tr0 -> side_free n (ins_tree true p tr0) ->
  let q := commit_side o (fst <$> n) skip flag tp (Ok tt) t in
  side_committed o n flag q.1 t q.2 /\
  core q.2 = over2 vm0 tr0 p (side_map (present_or_id skip tp) n) true true s.
Proof.
  intros Hc Hp Hf. destruct (core_parts _ _ _ _ _ _ _ Hc) as (Hv & Ht & _).
  destruct n as [[v x]|]; cbv zeta; cbn [fmap option_fmap option_map fst].
  2: { split; [split; [done|done|]|exact Hc]. symmetry. apply alter_id. done. }
  cbn [ins_vma ins_tree] in Hv, Ht.
  destruct (commit_side_ok o v x skip flag tp t) as (Hr & Hn & Ho & ->);
    [rewrite Hv; apply lookup_insert_eq|by rewrite Ht|].
  split; [by split|]. rewrite Hv, Ht, Hc, alter_insert_same. cbn [side_map]. by destruct skip.
Qed.

(** Inserting a new VMA. *)
Lemma wf_ins s s1 v x :
  bind_wf s -> v_vmas s !! v = None -> v < v_next s1 -> v_next s <= v_next s1 -> vma_good x ->
  tree_free (v_tree s) (va_addr x, va_range x) -> v_vmas s1 = <[v := x]> (v_vmas s) ->
  v_ufences s1 = v_ufences s -> v_tree s1 = <[v := (va_addr x, va_range x)]> (v_tree s) -> bind_wf s1.
Proof.
  intros Hw Hn Hlt Hle Hg Hf Hv Hu Ht.
  assert (bind_wf (set_v_next (v_next s1) (set_v_vmas (<[v := x]> (v_vmas s)) s))) as Hw1.
  { destruct Hw as [Hfr Htr Hd]. split; [| |exact Hd].
    - apply (fresh_step s); [done..|]. intros w. cbn. rewrite lookup_insert_is_Some.
      intros [<-|[_ ?]]; [by right|by left].
    - intros w r Hr. destruct (Htr w r Hr) as (y & Hy & Hrest). exists y. cbn.
      rewrite lookup_insert_ne by congruence. done. }
  eapply (wf_insert _ s1 v x Hw1); [done|done|done|apply lookup_insert_eq|done|done|done].
Qed.

Lemma wf_over2 vm0 tr0 p n s s0 t :
  bind_wf s0 -> v_vmas s0 = vm0 -> v_tree s0 = tr0 -> v_ufences s0 = v_ufences s -> v_next s0 <= v_next t ->
  core t = over2 vm0 tr0 p n true true s -> new_free p vm0 tr0 -> new_free n vm0 tr0 -> new_differ p n ->
  side_free p tr0 -> side_free n (ins_tree true p tr0) ->
  (forall v x, p = Some (v, x) \/ n = Some (v, x) -> v < v_next t) -> bind_wf t.
Proof.
  intros Hw <- <- Hu Hle Hc Fp Fn Hd Sp Sn Hlt. destruct (core_parts _ _ _ _ _ _ _ Hc) as (Hv & Ht & _).
  pose proof (f_equal v_ufences Hc) as Huf. cbn in Huf.
  set (s1 := set_v_next (v_next t) (set_v_vmas (ins_vma p (v_vmas s0)) (set_v_tree (ins_tree true p (v_tree s0)) s0))).
  assert (bind_wf s1) as Hw1.
  { destruct p as [[v x]|].
    - destruct Fp as (? & ? & ?). eapply (wf_ins s0); [done|done|by eapply Hlt; left|done..].
    - eapply wf_core; [exact Hw|done|done]. }
  destruct n as [[w y]|].
  - destruct Fn as (? & ? & ?).
    eapply (wf_ins s1); [done| |by eapply Hlt; right|done|done|done|done| |done]; [|by rewrite Huf, <- Hu].
    destruct p as [[v x]|]; [|done]. cbn. rewrite lookup_insert_ne by (cbn in Hd; congruence). done.
  - destruct Hw1 as [F T D]. split; [|intros v r|]; rewrite ?Hv, ?Ht; [|apply T|apply D].
    apply (fresh_step s1); [done|done|by rewrite Huf, <- Hu|]. intros v. rewrite Hv. by left.
Qed.

Lemma alter_ins f v p n (vm : gmap Z xe_vma) :
  (forall w x, p = Some (w, x) \/ n = Some (w, x) -> w <> v) ->
  alter f v (ins_vma n (ins_vma p vm)) = ins_vma n (ins_vma p (alter f v vm)).
Proof.
  intros Hne. destruct n as [[w y]|]; cbn; [rewrite alter_insert_ne by (intros ->; by eapply Hne; [right|]); f_equal|];
    (destruct p as [[w' y']|]; [|done]; cbn; by rewrite alter_insert_ne by (intros ->; by eapply Hne; [left|])).
Qed.

(** The flags of a committed REMAP. *)
Lemma remap_flags p n op' :
  op_flags op' = 0 ->
  let fl := op_flags (side_flag n XE_VMA_OP_NEXT_COMMITTED (side_flag p XE_VMA_OP_PREV_COMMITTED
              (set_op_flags (op_flags op' ||| XE_VMA_OP_COMMITTED) op'))) in
  test fl XE_VMA_OP_COMMITTED = true /\
  unwind_new (fst <$> p) (test fl XE_VMA_OP_PREV_COMMITTED) = unwind_new (fst <$> p) true /\
  unwind_new (fst <$> n) (test fl XE_VMA_OP_NEXT_COMMITTED) = unwind_new (fst <$> n) true.
Proof.
  intros ->. cbv zeta. split_and!.
  - destruct p, n; cbn [side_flag op_flags set_op_flags]; by rewrite ?(test_lor_l (_ ||| XE_VMA_OP_PREV_COMMITTED)), ?(test_lor_l (_ ||| XE_VMA_OP_COMMITTED)), committed_set.
  - destruct p; [|done]. f_equal. destruct n; cbn [side_flag op_flags set_op_flags];
      by rewrite ?(test_lor_l (_ ||| XE_VMA_OP_PREV_COMMITTED)), prev_committed_set.
  - destruct n; [|done]. f_equal. apply next_committed_set.
Qed.

(** The sides of a REMAP are free once the old VMA is removed. *)
Lemma sides_free x prev next p n s t old tr :
  sides_fit x prev next -> made_for x prev p s t -> made_for x next n s t ->
  tree_free (delete old tr) (va_addr x, va_range x) ->
  side_free p (delete old tr) /\ side_free n (ins_tree true p (delete old tr)).
Proof.
  intros (Fp & Fn & Fpn) Mp Mn Hfree.
  assert (forall k m y, side_fits x k -> created (gm_obj k) (gm_addr k) (gm_range k) m y ->
    tree_free (delete old tr) (va_addr y, va_range y)) as Hside.
  { intros k m y (_ & ? & ? & ?) Hy. eapply sub_free; [exact Hfree|..]; cbn;
      rewrite (cr_addr _ _ _ _ _ Hy), ?(cr_range _ _ _ _ _ Hy); lia. }
  split.
  - destruct p as [[v y]|]; [|done]. destruct Mp as (_ & k & -> & Hy). by eapply Hside.
  - destruct n as [[w z]|]; [|done]. destruct Mn as (_ & k & -> & Hz).
    pose proof (Hside _ _ _ Fn Hz) as Hfz.
    destruct p as [[v y]|]; [|done]. destruct Mp as (_ & k' & -> & Hy). cbn.
    apply insert_free; [done|]. unfold ranges_overlap. cbn.
    rewrite (cr_addr _ _ _ _ _ Hy), (cr_range _ _ _ _ _ Hy), (cr_addr _ _ _ _ _ Hz), (cr_range _ _ _ _ _ Hz). lia.
Qed.

Lemma new_free_alter f n v vm tr tr' :
  new_free n vm tr -> (forall w, tr !! w = None -> tr' !! w = None) -> new_free n (alter f v vm) tr'.
Proof.
  destruct n as [[w x]|]; [|done]. intros (Hv & Ht & Hg) Htr. split_and!; [|by apply Htr|done].
  apply eq_None_not_Some. rewrite lookup_alter_is_Some. by rewrite Hv, <- eq_None_not_Some.
Qed.

Lemma new_free_map n vm tr b tp : new_free n vm tr -> new_free (side_map (present_or_id b tp) n) vm tr.
Proof. destruct n as [[w x]|]; [|done]. intros (? & ? & ? & ? & ?). by destruct b. Qed.

Lemma side_map_fst f n : fst <$> side_map f n = fst <$> n.
Proof. by destruct n as [[]|]. Qed.

Lemma side_free_map n tr b tp : side_free n tr -> side_free (side_map (present_or_id b tp) n) tr.
Proof. destruct n as [[w x]|]; [|done]. by destruct b. Qed.

Lemma ins_tree_map n tr b tp : ins_tree true (side_map (present_or_id b tp) n) tr = ins_tree true n tr.
Proof. destruct n as [[w x]|]; [|done]. by destruct b. Qed.

(** The three stages of the commit. *)
Record remap_stage (o old : Z) (p n : new_vma_t) (skp skn : bool) (tp rs rr : Z) (op' : xe_vma_op) s t t' : Prop := {
  rs_next : v_next t' = v_next t;
  rs_but : ops_but o t t';
  rs_op : v_ops t' !! o = Some (side_flag n XE_VMA_OP_NEXT_COMMITTED
    (side_flag p XE_VMA_OP_PREV_COMMITTED (set_op_flags (op_flags op' ||| XE_VMA_OP_COMMITTED) op')));
  rs_core : core t' = over2 (alter (fun x => set_va_range rr (set_va_addr rs x)) old (alter destroyed old (v_vmas s)))
    (delete old (v_tree s)) (side_map (present_or_id skp tp) p) (side_map (present_or_id skn tp) n) true true s;
}.

Lemma commit_remap_stages o op prev next old x ab p n s t op' :
  bind_wf s -> op_base op = GpuvaRemap prev next old -> v_vmas s !! old = Some x ->
  v_tree s !! old = Some (va_addr x, va_range x) -> sides_fit x prev next ->
  remap_made o op x prev next ab p n s t -> v_ops t !! o = Some op' ->
  remap_stage o old p n (or_skip_prev op') (or_skip_next op') (va_tile_present (get_vma old t))
    (or_start op') (or_range op') op' s t (xe_vma_op_commit o t).2.
Proof.
  intros Hw Hb Hx Hr Hfit [Hn Hbut (op1 & Ho1 & E1 & E2 & E3 & E4 & E5) Hc Hp Hs Hd] Ho.
  assert (op1 = op') as -> by congruence.
  pose proof (made_for_free _ _ _ _ _ Hw Hp) as Fp. pose proof (made_for_free _ _ _ _ _ Hw Hs) as Fn.
  assert (forall w y, p = Some (w, y) \/ n = Some (w, y) -> w <> old) as Hne.
  { intros w y [->| ->] ->; [destruct Fp as (E & _)|destruct Fn as (E & _)]; congruence. }
  destruct (core_parts _ _ _ _ _ _ _ Hc) as (Hv & Ht & _).
  assert (v_tree t = v_tree s) as Htr by (rewrite Ht; by destruct p as [[]|], n as [[]|]).
  destruct (sides_free _ _ _ _ _ _ _ old (v_tree s) Hfit Hp Hs (tree_free_delete _ _ _ Hw Hr)) as [Sp Sn].
  unfold xe_vma_op_commit. rewrite run_bind. cbn [gets fst snd]. rewrite (get_op_lookup _ _ _ Ho), E1, Hb, E3, E4.
  rewrite run_bind. cbn [gets fst snd]. rewrite !(run_bind (prep_vma_destroy _ _)), !(run_bind (op_set_flag _ _)).
  destruct (prep_destroy_core old true t) as (Hc1 & Ho1' & Hn1). revert Hc1 Ho1' Hn1.
  generalize (prep_vma_destroy old true t).2. intros t1 Hc1 Ho1' Hn1.
  set (t2 := (op_set_flag o XE_VMA_OP_COMMITTED t1).2).
  assert (core t2 = over2 (alter destroyed old (v_vmas s)) (delete old (v_tree s)) p n false false s) as Hc2.
  { transitivity (core t1); [done|]. rewrite Hc1, Hv, Htr, Hc, alter_ins by done.
    by destruct p as [[]|], n as [[]|]. }
  assert (v_ops t2 = alter (fun op => set_op_flags (op_flags op ||| XE_VMA_OP_COMMITTED) op) o (v_ops t)) as Ho2
    by (subst t2; cbn; by rewrite Ho1').
  assert (forall w, v_tree s !! w = None -> delete old (v_tree s) !! w = None) as Hdel
    by (intros w E; by apply lookup_delete_None; right).
  rewrite run_bind.
  edestruct (commit_prev_spec o p n _ _ (or_skip_prev op') XE_VMA_OP_PREV_COMMITTED
    (va_tile_present (get_vma old t)) s t2 Hc2) as [[K1 K2 K3] K4]; [by eapply new_free_alter|done|done|].
  revert K1 K2 K3 K4. generalize (commit_side o (fst <$> p) (or_skip_prev op') XE_VMA_OP_PREV_COMMITTED
    (va_tile_present (get_vma old t)) (Ok tt) t2). intros [r3 t3]. cbn [fst snd]. intros -> K2 K3 K4.
  rewrite run_bind.
  edestruct (commit_next_spec o _ n _ _ (or_skip_next op') XE_VMA_OP_NEXT_COMMITTED
    (va_tile_present (get_vma old t)) s t3 K4) as [[L1 L2 L3] L4]; [by eapply new_free_alter|by rewrite ins_tree_map|].
  revert L1 L2 L3 L4. generalize (commit_side o (fst <$> n) (or_skip_next op') XE_VMA_OP_NEXT_COMMITTED
    (va_tile_present (get_vma old t)) (Ok tt) t3). intros [r4 t4]. cbn [fst snd]. intros -> L2 L3 L4.
  cbn [is_ok when]. rewrite run_bind. cbn [ret snd].
  destruct (core_parts _ _ _ _ _ _ _ L4) as (Hv4 & _).
  assert (v_ops t4 = alter (side_flag n XE_VMA_OP_NEXT_COMMITTED) o (alter (side_flag p XE_VMA_OP_PREV_COMMITTED) o
    (alter (fun op => set_op_flags (op_flags op ||| XE_VMA_OP_COMMITTED) op) o (v_ops t)))) as Hops
    by by rewrite L3, K3, Ho2.
  split.
  - cbn. rewrite L2, K2. exact Hn1.
  - unfold ops_but. cbn. rewrite Hops. by rewrite !delete_alter_eq.
  - cbn. rewrite Hops. by rewrite !lookup_alter_eq, Ho.
  - transitivity (set_v_vmas (alter (fun x => set_va_range (or_range op') (set_va_addr (or_start op') x)) old (v_vmas t4)) (core t4));
      [done|]. rewrite Hv4, L4. rewrite alter_ins; [done|].
    intros w y [E|E]; [destruct p as [[]|]|destruct n as [[]|]]; cbn in E; try done; injection E as -> _;
      eapply Hne; eauto.
Qed.

Lemma new_differ_map p n f g : new_differ p n -> new_differ (side_map f p) (side_map g n).
Proof. by destruct p as [[]|], n as [[]|]. Qed.

(** Restoring the old VMA of a REMAP. *)
Lemma restore_old s old x rs rr s3 :
  bind_wf s -> v_vmas s !! old = Some x -> v_tree s !! old = Some (va_addr x, va_range x) -> vma_good x ->
  core s3 = mk (alter (fun y => set_va_range rr (set_va_addr rs y)) old (alter destroyed old (v_vmas s)))
    (delete old (v_tree s)) (v_bos s) (v_refs s) (v_pagemaps s) (core s) ->
  let c := clear_destroyed old ;;; upd_vma old (fun y => set_va_range (va_range x) (set_va_addr (va_addr x) y)) ;;;
    (_ <-- xe_vm_insert_vma old ;; ret tt) in
  core (c s3).2 = core s /\ v_ops (c s3).2 = v_ops s3.
Proof.
  intros Hw Hx Hr (_ & Ha & _) Hc. cbv zeta. rewrite run_bind, (run_bind (upd_vma _ _)).
  match goal with |- core (_ ?t).2 = _ /\ _ => set (s4 := t) end.
  destruct (reinsert_core s old x s4) as [-> ->]; try done.
  destruct (core_parts _ _ _ _ _ _ _ Hc) as (Hv & _).
  transitivity (set_v_vmas (alter (fun y => set_va_range (va_range x) (set_va_addr (va_addr x) y)) old
    (alter undestroyed old (v_vmas s3))) (core s3)); [done|].
  rewrite Hv, Hc, !alter_alter_eq, (alter_same _ old x); [done|done|].
  cbn. destruct x. unfold set_va_range, set_va_addr, undestroyed, destroyed, set_va_flags in *. cbn in *.
  by rewrite clear_destroyed_flag, clear_alive.
Qed.

(** What flags a side do not change. *)
Lemma side_flags_keep p n a b op :
  let op' := side_flag n a (side_flag p b op) in
  op_base op' = op_base op /\ or_prev op' = or_prev op /\ or_next op' = or_next op /\
  or_old_start op' = or_old_start op /\ or_old_range op' = or_old_range op.
Proof. by destruct p, n. Qed.

(** A committed REMAP is taken back. *)
Lemma undo_committed o op op' prev next old x p n rs rr s t :
  bind_wf s -> v_vmas s !! old = Some x -> v_tree s !! old = Some (va_addr x, va_range x) -> vma_good x ->
  v_ops t !! o = Some op' ->
  op' = side_flag n XE_VMA_OP_NEXT_COMMITTED (side_flag p XE_VMA_OP_PREV_COMMITTED
    (set_op_flags (op_flags op ||| XE_VMA_OP_COMMITTED) op)) ->
  op_base op = GpuvaRemap prev next old -> op_flags op = 0 -> or_prev op = fst <$> p -> or_next op = fst <$> n ->
  or_old_start op = va_addr x -> or_old_range op = va_range x ->
  forall p' n' : new_vma_t, fst <$> p' = fst <$> p -> fst <$> n' = fst <$> n ->
  let vm1 := alter (fun y => set_va_range rr (set_va_addr rs y)) old (alter destroyed old (v_vmas s)) in
  core t = over2 vm1 (delete old (v_tree s)) p' n' true true s ->
  new_free p' vm1 (delete old (v_tree s)) -> new_free n' vm1 (delete old (v_tree s)) -> new_differ p' n' ->
  no_ufence p' s -> no_ufence n' s -> undoable o s t.
Proof.
  intros Hw Hx Hr Hg Ho -> Hb Hf Ep En Hos Hor p' n' Ep' En' vm1 Hc Fp Fn Hd Up Un.
  eapply undoable_intro; [exact Ho|]. intros s2 Hc2. unfold unwind_of.
  destruct (remap_flags p n op Hf) as (F1 & F2 & F3).
  destruct (side_flags_keep p n XE_VMA_OP_NEXT_COMMITTED XE_VMA_OP_PREV_COMMITTED
    (set_op_flags (op_flags op ||| XE_VMA_OP_COMMITTED) op)) as (-> & -> & -> & -> & ->).
  cbn [op_base or_prev or_next or_old_start or_old_range set_op_flags].
  rewrite Hb, F1, Hos, Hor, Ep, En, F2, F3. unfold when. rewrite (run_bind (unwind_new _ _)), (run_bind (unwind_new _ _)).
  rewrite Hc in Hc2. rewrite <- Ep', <- En'.
  destruct (unwind_sides _ _ _ _ _ _ _ Fp Fn Hd Up Un Hc2) as [Hc3 <-]. revert Hc3.
  match goal with |- core ?u = _ -> _ => generalize u end. intros s3 Hc3.
  by apply (restore_old s old x rs rr).
Qed.

Lemma no_ufence_map f n s : no_ufence n s -> no_ufence (side_map f n) s.
Proof. by destruct n as [[]|]. Qed.

Lemma commit_remap_spec o op prev next old x p n s t :
  bind_wf s -> op_base op = GpuvaRemap prev next old -> op_flags op = 0 -> v_vmas s !! old = Some x ->
  v_tree s !! old = Some (va_addr x, va_range x) -> vma_good x -> sides_fit x prev next ->
  remap_made o op x prev next (va_addr x, va_range x) p n s t ->
  op_done o (Some old) s (xe_vma_op_commit o t).2.
Proof.
  intros Hw Hb Hfl Hx Hr Hg Hfit Hm. destruct (rm_op _ _ _ _ _ _ _ _ _ _ Hm) as (op' & Ho & _).
  pose proof (commit_remap_stages _ _ _ _ _ _ _ _ _ _ _ _ Hw Hb Hx Hr Hfit Hm Ho) as [Sn Sb So Sc].
  revert Sn Sb So Sc. generalize (xe_vma_op_commit o t).2. intros t' Sn Sb So Sc.
  destruct Hm as [Hn Hbut (op1 & Ho1 & E1 & E2 & E3 & E4 & E5) Hc Hp Hs Hd].
  assert (op1 = op') as -> by congruence. rewrite Hfl in E2. rewrite Hb in E1. injection E5 as Hos Hor.
  pose proof (made_for_free _ _ _ _ _ Hw Hp) as Fp. pose proof (made_for_free _ _ _ _ _ Hw Hs) as Fn.
  assert (forall w, v_tree s !! w = None -> delete old (v_tree s) !! w = None) as Hdel
    by (intros w E; by apply lookup_delete_None; right).
  destruct (sides_free _ _ _ _ _ _ _ old (v_tree s) Hfit Hp Hs (tree_free_delete _ _ _ Hw Hr)) as [Sp Sq].
  set (tp := va_tile_present (get_vma old t)) in *.
  set (vm1 := alter (fun y => set_va_range (or_range op') (set_va_addr (or_start op') y)) old
    (alter destroyed old (v_vmas s))) in *.
  assert (forall b (k : new_vma_t), new_free k (v_vmas s) (v_tree s) ->
    new_free (side_map (present_or_id b tp) k) vm1 (delete old (v_tree s))) as Hfree.
  { intros b k Hk. apply new_free_map. eapply (new_free_alter _ _ _ _ (delete old (v_tree s))); [|done].
    by eapply new_free_alter. }
  pose proof (Hfree (or_skip_prev op') p Fp) as Fp'. pose proof (Hfree (or_skip_next op') n Fn) as Fn'.
  pose proof (new_differ_map p n (present_or_id (or_skip_prev op') tp) (present_or_id (or_skip_next op') tp) Hd) as Hd'.
  split; [by etrans|lia| | | |by eexists|exact (f_equal v_ufences Sc)].
  - eapply (wf_over2 _ _ _ _ s (set_v_vmas vm1 (set_v_tree (delete old (v_tree s)) s)) t'); try done.
    + eapply (wf_alter (set_v_vmas (alter destroyed old (v_vmas s)) (set_v_tree (delete old (v_tree s)) s)) _ old);
        [eapply (wf_remove s); done|done..|]. apply lookup_delete_eq.
    + cbn. lia.
    + by apply side_free_map.
    + rewrite ins_tree_map. by apply side_free_map.
    + intros v y [E|E]; rewrite Sn; [destruct p as [[]|]|destruct n as [[]|]]; cbn in E; try done;
        injection E as -> _; [destruct Hp as [? _]|destruct Hs as [? _]]; lia.
  - intros v r Hvr Hne. destruct (wf_tree_vma _ _ _ Hw Hvr) as (y & Hy & _).
    assert (vm1 !! v = Some y) as Hy1 by (subst vm1; by rewrite !lookup_alter_ne by congruence).
    rewrite Hy. split; [|by eapply over2_lookup].
    destruct (core_parts _ _ _ _ _ _ _ Sc) as (_ & -> & _).
    destruct p as [[]|], n as [[]|]; cbn in Fp, Fn |- *; destruct_and?;
      rewrite ?lookup_insert_ne by congruence; by rewrite lookup_delete_ne by congruence.
  - intros u Hu. refine (undo_committed o op' _ prev next old x p n (or_start op') (or_range op') (set_v_ufences u s)
      (set_v_ufences u t') (wf_ufences _ _ Hw Hu) Hx Hr Hg So eq_refl E1 E2 E3 E4 Hos Hor _ _ (side_map_fst _ _)
      (side_map_fst _ _) (f_equal (set_v_ufences u) Sc) Fp' Fn' Hd' _ _);
      apply no_ufence_map; by eapply made_for_ufence.
Qed.

(** ** Parsing a REMAP *)

Lemma remap_made_refl o op x mp mn s :
  v_ops s !! o = Some op -> op_new op ->
  remap_made o op x mp mn (or_old_start op, or_old_range op) None None s s.
Proof.
  intros Ho (_ & _ & Ep & En). split; [done|done|by exists op|done..].
Qed.

Lemma remap_made_quiet o op x mp mn ab p n s t t' :
  remap_made o op x mp mn ab p n s t -> quiet t t' -> remap_made o op x mp mn ab p n s t'.
Proof.
  intros [Hn Hb Ho Hc Hp Hs Hd] [Qc Qo Qn].
  split; [lia|unfold ops_but in *; congruence|by rewrite Qo|congruence|(eapply (made_for_le _ _ _ _ t); [done|lia])..|done].
Qed.

Lemma remap_made_err o op x mp mn ab p n s t t' :
  remap_made o op x mp mn ab p n s t -> create_err t t' -> remap_made o op x mp mn ab p n s t'.
Proof.
  intros [Hn Hb Ho Hc Hp Hs Hd] [Ec Eo En]. unfold bind_frame in Ec.
  split; [lia|unfold ops_but in *; congruence|by rewrite Eo|congruence|(eapply (made_for_le _ _ _ _ t); [done|lia])..|done].
Qed.

Lemma remap_made_upd o op x mp mn ab ab' s t f :
  (forall op, op_base (f op) = op_base op /\ op_flags (f op) = op_flags op /\ or_prev (f op) = or_prev op /\
    or_next (f op) = or_next op /\ (or_old_start (f op), or_old_range (f op)) = ab') ->
  remap_made o op x mp mn ab None None s t -> remap_made o op x mp mn ab' None None s (upd_op o f t).2.
Proof.
  intros Hf [Hn Hb (op' & Ho & E1 & E2 & E3 & E4 & E5) Hc Hp Hs Hd].
  split; [done|etrans; [exact Hb|apply upd_op_but]| |done..].
  exists (f op'). split; [by apply upd_op_get|]. destruct (Hf op') as (-> & -> & -> & -> & ->). done.
Qed.

Lemma remap_made_prev o op op1 x m mn ab s t t' :
  remap_made o op x (Some m) mn ab None None s t -> v_ops t !! o = Some op1 ->
  side_made set_or_prev o op1 (va_attr x) m t t' ->
  exists y, remap_made o op x (Some m) mn ab (Some (v_next t, y)) None s t'.
Proof.
  intros [Hn Hb (op' & Ho & E1 & E2 & E3 & E4 & E5) Hc Hp Hs Hd] Ho1 (Sn & Sb & (op2 & So & Su) & (y & Sy & Sc)).
  assert (op' = op1) as -> by congruence. injection Su as U1 U2 U3 U4 U5 U6 U7.
  exists y. split; [lia|by etrans| | |split; [lia|by exists m]|done|done].
  - exists op2. split; [done|]. rewrite U1, U2, U4, U5, U6, U7. done.
  - rewrite Sc. transitivity (set_v_vmas (<[v_next t := y]> (v_vmas (core t))) (acct y 1 (core t))); [done|]. by rewrite Hc.
Qed.

Lemma remap_made_next o op op1 x mp m ab p s t t' :
  remap_made o op x mp (Some m) ab p None s t -> v_ops t !! o = Some op1 ->
  side_made set_or_next o op1 (va_attr x) m t t' ->
  exists y, remap_made o op x mp (Some m) ab p (Some (v_next t, y)) s t'.
Proof.
  intros [Hn Hb (op' & Ho & E1 & E2 & E3 & E4 & E5) Hc Hp Hs Hd] Ho1 (Sn & Sb & (op2 & So & Su) & (y & Sy & Sc)).
  assert (op' = op1) as -> by congruence. injection Su as U1 U2 U3 U4 U5 U6 U7.
  exists y. split; [lia|by etrans| | |(eapply (made_for_le _ _ _ _ t); [done|lia])|split; [lia|by exists m]|].
  - exists op2. split; [done|]. rewrite U1, U2, U4, U5, U6, U7. done.
  - rewrite Sc. transitivity (set_v_vmas (<[v_next t := y]> (v_vmas (core t))) (acct y 1 (core t))); [done|].
    by rewrite Hc.
  - destruct p as [[v z]|]; [|done]. destruct Hp as [? _]. cbn. lia.
Qed.

Lemma test_land_l f m b : test f b = false -> test (Z.land f m) b = false.
Proof.
  unfold test. rewrite !negb_false_iff, !Z.eqb_eq. intros E.
  by rewrite (Z.land_comm f m), <- Z.land_assoc, E, Z.land_0_r.
Qed.

Lemma test_land_r f m b : test m b = false -> test (Z.land f m) b = false.
Proof. rewrite Z.land_comm. apply test_land_l. Qed.

Lemma remap_flags_ok x m : vma_good x -> gm_obj m = va_bo x ->
  flags_ok (gm_obj m) (Z.land (va_flags x) XE_VMA_CREATE_MASK).
Proof.
  intros (Hk & Ha & _) ->. split; [|by apply test_land_l].
  intros Hs. destruct (Hk Hs). split; by apply test_land_l.
Qed.

Lemma create_mask_alive : test XE_VMA_CREATE_MASK XE_VMA_DESTROYED = false.
Proof.
  pose proof b_destroyed_pos as Hp. unfold XE_VMA_CREATE_MASK. rewrite !test_lor_l.
  repeat (apply orb_false_iff; split).
  all: unfold XE_VMA_DESTROYED; rewrite test_BIT by done;
    unfold XE_VMA_READ_ONLY, XE_VMA_DUMPABLE, XE_VMA_SYSTEM_ALLOCATOR, DRM_GPUVA_SPARSE, XE_VMA_MADV_AUTORESET.
  all: match goal with |- Z.testbit (BIT ?b) _ = false =>
    assert (exists i : nat, (i < 5)%nat /\ vma_bit_list !! i = Some b) as (i & Hi & Hb)
      by (first [exists 0%nat; split; [lia|reflexivity]|exists 1%nat; split; [lia|reflexivity]|
        exists 2%nat; split; [lia|reflexivity]|exists 3%nat; split; [lia|reflexivity]|
        exists 4%nat; split; [lia|reflexivity]]);
    destruct (bits_ne vma_bit_list b b_destroyed i 6 vma_bits Hb eq_refl) as (? & ? & ?); [lia|];
    rewrite testbit_BIT by done; apply Z.eqb_neq; congruence end.
Qed.

Lemma side_fits_word x m : vma_good x -> side_fits x m -> 0 <= gm_range m < 2 ^ 64.
Proof. intros (_ & _ & Hr) (_ & ? & ? & ?). lia. Qed.

Lemma remap_prev_step o op prev next x s t :
  bind_wf s -> vma_good x -> from_option (side_fits x) True prev ->
  remap_made o op x prev next (va_addr x, va_range x) None None s t ->
  let q := parse_remap_prev dev o prev x (xe_vma_is_cpu_addr_mirror x) (Z.land (va_flags x) XE_VMA_CREATE_MASK) t in
  match q.1 with
  | Ok _ => exists p, remap_made o op x prev next (va_addr x, va_range x) p None s q.2
  | Err _ => remap_made o op x prev next (va_addr x, va_range x) None None s q.2
  end.
Proof.
  intros Hw Hg Fp Hm. cbv zeta. destruct prev as [m|]; [|by exists None]. pose proof (side_fits_word _ _ Hg Fp) as Fr. destruct Fp as [Fo _].
  destruct (rm_op _ _ _ _ _ _ _ _ _ _ Hm) as (op1 & Ho1 & _).
  pose proof (parse_remap_prev_spec o op1 m x (xe_vma_is_cpu_addr_mirror x) _ t
    (bw_fresh _ (wf_remap_made _ _ _ _ _ _ _ _ _ _ Hw Hm)) Ho1 (remap_flags_ok x m Hg Fo) Fr) as Hs.
  unfold side_post in Hs. destruct (parse_remap_prev _ _ _ _ _ _ t) as [[z|e] s4]; cbn [fst snd] in *.
  - destruct (remap_made_prev _ _ _ _ _ _ _ _ _ _ Hm Ho1 Hs) as [y Hy]. by eexists.
  - by eapply remap_made_err.
Qed.

Lemma remap_next_step o op prev next x p s t :
  bind_wf s -> vma_good x -> from_option (side_fits x) True next ->
  remap_made o op x prev next (va_addr x, va_range x) p None s t ->
  let q := parse_remap_next dev o next x (xe_vma_is_cpu_addr_mirror x) (Z.land (va_flags x) XE_VMA_CREATE_MASK) t in
  match q.1 with
  | Ok _ => exists n, remap_made o op x prev next (va_addr x, va_range x) p n s q.2
  | Err _ => remap_made o op x prev next (va_addr x, va_range x) p None s q.2
  end.
Proof.
  intros Hw Hg Fn Hm. cbv zeta. destruct next as [m|]; [|by exists None]. pose proof (side_fits_word _ _ Hg Fn) as Fr. destruct Fn as [Fo _].
  destruct (rm_op _ _ _ _ _ _ _ _ _ _ Hm) as (op1 & Ho1 & _).
  pose proof (parse_remap_next_spec o op1 m x (xe_vma_is_cpu_addr_mirror x) _ t
    (bw_fresh _ (wf_remap_made _ _ _ _ _ _ _ _ _ _ Hw Hm)) Ho1 (remap_flags_ok x m Hg Fo) Fr) as Hs.
  unfold side_post in Hs. destruct (parse_remap_next _ _ _ _ _ _ t) as [[z'|e] s5]; cbn [fst snd] in *.
  - destruct (remap_made_next _ _ _ _ _ _ _ _ _ _ _ Hm Ho1 Hs) as [y Hy]. by eexists.
  - by eapply remap_made_err.
Qed.

Lemma parse_remap_spec o op prev next old x s :
  bind_wf s -> v_ops s !! o = Some op -> op_new op -> v_vmas s !! old = Some x -> vma_good x ->
  sides_fit x prev next ->
  let q := parse_remap dev o prev next old s in
  match q.1 with
  | Ok _ => exists p n, remap_made o op x prev next (va_addr x, va_range x) p n s q.2
  | Err _ => exists ab p n, remap_made o op x prev next ab p n s q.2
  end.
Proof.
  intros Hw Ho Hnew Hx Hg (Fp & Fn & _). cbv zeta. unfold parse_remap, bind_res.
  rewrite run_bind. cbn [gets fst snd]. rewrite (get_vma_lookup _ _ _ Hx).
  rewrite run_bind. cbn [gets fst snd]. rewrite (get_op_lookup _ _ _ Ho).
  destruct (remap_hole x prev next) as [start end_].
  rewrite run_bind.
  match goal with |- context [(?c s).2] => assert (quiet s (c s).2) as Hq by (destruct (xe_vma_is_cpu_addr_mirror x); done);
    revert Hq; generalize (c s) end. intros [mapped s1]. cbn [fst snd]. intros Hq.
  pose proof (remap_made_quiet _ _ _ _ _ _ _ _ _ _ _ (remap_made_refl o op x prev next s Ho Hnew) Hq) as Hm.
  rewrite run_bind. cbn [gets fst snd].
  destruct (mapped && _); [by eexists _, None, None|].
  rewrite (run_bind (when _ _)).
  pose proof (remap_made_quiet _ _ _ _ _ _ _ _ _ _ _ Hm (quiet_when mapped _ _ (quiet_event xe_svm_unmap_address_range [start; end_]))) as Hm2.
  revert Hm2. match goal with |- remap_made _ _ _ _ _ _ _ _ _ ?u -> _ => generalize u end. intros s2 Hm2.
  rewrite (run_bind (upd_op _ _)).
  match goal with |- context [upd_op o ?f s2] =>
    apply (remap_made_upd _ _ _ _ _ _ (va_addr x, va_range x) _ _ f) in Hm2; [|by intros op'] end.
  revert Hm2. match goal with |- remap_made _ _ _ _ _ _ _ _ _ ?u -> _ => generalize u end. intros s3 Hm3.
  rewrite run_bind.
  pose proof (remap_prev_step o op prev next x s s3 Hw Hg Fp Hm3) as Hprev. cbv zeta in Hprev.
  destruct (parse_remap_prev _ _ _ _ _ _ s3) as [[z|e] s4]; cbn [fst snd] in *; [|by eexists _, None, None].
  destruct Hprev as [p Hm4]. rewrite run_bind.
  pose proof (remap_next_step o op prev next x p s s4 Hw Hg Fn Hm4) as Hnext. cbv zeta in Hnext.
  destruct (parse_remap_next _ _ _ _ _ _ s4) as [[z'|e] s5]; cbn [fst snd] in *; [|by eexists _, _, _].
  destruct Hnext as [n Hm5]. rewrite run_bind. cbn [ret fst snd]. exists p, n.
  eapply remap_made_quiet; [exact Hm5|apply quiet_incr].
Qed.

(** ** Any operation *)

(** What an operation changes is alive. *)
Definition target_alive (op : xe_vma_op) s : Prop :=
  forall v, target op = Some v -> exists x, v_vmas s !! v = Some x /\ test (va_flags x) XE_VMA_DESTROYED = false.

(** Unwinding an operation that did nothing does nothing. *)
Lemma unwind_new_op op s :
  op_new op -> target_alive op s ->
  core (unwind_of op s).2 = core s /\ v_ops (unwind_of op s).2 = v_ops s.
Proof.
  intros (Ef & Em & Ep & En) Ht. unfold unwind_of, target_alive, target in *. rewrite Ef, Em, Ep, En.
  change (test 0 ?m) with false. destruct (op_base op) as [m|p n old|va|va|]; try done.
  - rewrite !run_bind. cbn [unwind_new ret snd when fst].
    destruct (Ht old eq_refl) as (x & Hx & Ha). by eapply clear_destroyed_noop.
  - rewrite !run_bind. cbn [ret snd when fst].
    destruct (Ht va eq_refl) as (x & Hx & Ha). by eapply clear_destroyed_noop.
Qed.

Lemma target_alive_core op s t : core t = core s -> target_alive op s -> target_alive op t.
Proof.
  intros Hc Ha v Hv. destruct (Ha v Hv) as (x & Hx & Hd). exists x. split; [|done].
  rewrite <- Hx. exact (f_equal (fun c => v_vmas c !! v) Hc).
Qed.

Lemma fits_alive s op : bind_wf s -> op_fits s op -> target_alive op s.
Proof.
  intros Hw [_ Hf] v Hv. unfold target in Hv.
  assert (is_Some (v_tree s !! v)) as [r Hr].
  { destruct (op_base op); simplify_eq; [|done]. by destruct Hf as (x & _ & Ht & _). }
  destruct (wf_tree_vma _ _ _ Hw Hr) as (x & Hx & _ & _ & Ha & _). by exists x.
Qed.

Lemma undo_nothing o op s t :
  bind_wf s -> v_ops t !! o = Some op -> op_fits s op -> core t = core s -> undoable o s t.
Proof.
  intros Hw Ho Hf Hc. eapply undoable_intro; [exact Ho|]. intros s2 Hc2.
  destruct (unwind_new_op op s2) as [-> ->]; [apply Hf| |by rewrite Hc2].
  eapply target_alive_core; [|by eapply fits_alive]. by rewrite Hc2.
Qed.

Lemma done_nothing o op s t :
  bind_wf s -> v_ops s !! o = Some op -> op_fits s op -> create_err s t -> op_done o (target op) s t.
Proof.
  intros Hw Ho Hf [Hc Hops Hn]. unfold bind_frame in Hc. rewrite <- Hops in Ho.
  split; [unfold ops_but; by rewrite Hops|done|by eapply wf_core| | |by exists op|exact (f_equal v_ufences (eq_sym Hc))].
  - intros v r Hr _. split; [rewrite <- Hr; exact (f_equal (fun c => v_tree c !! v) (eq_sym Hc))|].
    exact (f_equal (fun c => v_vmas c !! v) (eq_sym Hc)).
  - intros u Hu. eapply undo_nothing; [by apply wf_ufences|exact Ho|exact Hf|].
    exact (f_equal (set_v_ufences u) (eq_sym Hc)).
Qed.

(** The state an operation starts from may differ in bookkeeping. *)
Lemma op_done_start o tgt s s1 t :
  core s1 = core s -> ops_but o s s1 -> v_next s <= v_next s1 -> op_done o tgt s1 t -> op_done o tgt s t.
Proof.
  intros Hc Hb Hn [Db Dn Dw Dk Du Ds Df].
  split; [by etrans|lia|done| | |done|rewrite Df; exact (f_equal v_ufences Hc)].
  - intros v r Hr Hne. destruct (Dk v r) as [-> ->]; [|done|].
    + rewrite <- Hr. exact (f_equal (fun c => v_tree c !! v) Hc).
    + split; [done|]. exact (f_equal (fun c => v_vmas c !! v) Hc).
  - intros u Hu s2 op1 op2 Hc2 Ho1 Ho2 Hv.
    pose proof (f_equal v_ufences Hc) as Eu. cbn in Eu. rewrite <- Eu in Hu.
    destruct (Du u Hu s2 op1 op2 Hc2 Ho1 Ho2 Hv) as [-> ->]. split; [|done].
    exact (f_equal (set_v_ufences u) Hc).
Qed.

Lemma quiet_err s t : quiet s t -> create_err s t.
Proof. intros [Qc Qo Qn]. split; [by symmetry|done|lia]. Qed.

Lemma parse_map_spec o op m s :
  bind_wf s -> v_ops s !! o = Some op -> op_base op = GpuvaMap m -> op_fits s op ->
  side_post set_om_vma o op (default_attr (om_pat_index op)) m s (parse_map dev o m s).
Proof.
  intros Hw Ho Hb [_ Hf]. rewrite Hb in Hf. destruct Hf as [Hr Hk].
  unfold parse_map, bind_res. rewrite run_bind. cbn [gets fst snd]. rewrite (get_op_lookup _ _ _ Ho), run_bind.
  assert (flags_ok (gm_obj m) (Z.land (om_vma_flags op) XE_VMA_CREATE_MASK)) as Hfl.
  { split; [|apply test_land_r, create_mask_alive]. intros Hs. destruct (Hk Hs). split; by apply test_land_l. }
  pose proof (new_vma_spec dev m (default_attr (om_pat_index op)) _ s (bw_fresh _ Hw) Hfl Hr) as Hn.
  unfold create_post in Hn. destruct (new_vma _ _ _ _ s) as [[v|e] s1]; cbn [fst snd] in *; [|exact Hn].
  pose proof (side_made_new set_om_vma _ _ _ _ _ _ _ Ho Hn) as Hm.
  rewrite !run_bind. unfold side_post. cbn [ret gets fst snd].
  eapply side_made_quiet; [apply quiet_when; intros; apply quiet_incr|exact Hm].
Qed.

Lemma parse_unmap_quiet o va s : quiet s (parse_unmap o va s).2.
Proof.
  unfold parse_unmap. rewrite !(run_bind (gets _)). cbn [gets fst snd]. rewrite run_bind.
  destruct (xe_vma_is_cpu_addr_mirror _); cbn [ret fst snd negb].
  - destruct (_ && _); [apply quiet_ask_bool|]. rewrite run_bind. apply quiet_ask_bool.
  - cbn [andb]. rewrite run_bind. cbn [ret snd]. apply quiet_when. intros. apply quiet_incr.
Qed.

Lemma parse_prefetch_quiet o va s : quiet s (parse_prefetch o va s).2.
Proof.
  unfold parse_prefetch, bind_res. rewrite !(run_bind (gets _)). cbn [gets fst snd]. rewrite run_bind.
  match goal with |- quiet s (match (?c s).1 with _ => _ end _).2 =>
    assert (quiet s (c s).2) as Hq by (destruct (xe_vma_is_userptr _); done);
    revert Hq; generalize (c s) end.
  intros [[u|e] s1] Hq; cbn [fst snd] in *; [|exact Hq]. rewrite run_bind. cbn [ret snd].
  etrans; [exact Hq|]. destruct (xe_vma_is_cpu_addr_mirror _); apply quiet_incr.
Qed.

(** Committing a PREFETCH changes nothing that unwinding reads, but its flag. *)
Lemma commit_prefetch_spec o op va s :
  bind_wf s -> v_ops s !! o = Some op -> op_base op = GpuvaPrefetch va ->
  op_done o None s (xe_vma_op_commit o s).2.
Proof.
  intros Hw Ho Hb. unfold xe_vma_op_commit. rewrite run_bind. cbn [gets fst snd].
  rewrite (get_op_lookup _ _ _ Ho), Hb, run_bind. cbn [ret snd].
  split; [apply upd_op_but|done|by eapply wf_core|done| |eexists; exact (upd_op_get _ _ _ _ Ho)|done].
  intros u Hu. eapply undoable_intro; [exact (upd_op_get _ _ _ _ Ho)|]. intros s2 Hc2. unfold unwind_of.
  cbn [op_base set_op_flags]. by rewrite Hb.
Qed.

Lemma op_fits_quiet s t op : core t = core s -> op_fits s op -> op_fits t op.
Proof.
  intros Hc [Hn Hf]. split; [done|].
  pose proof (f_equal v_vmas Hc) as Hv. pose proof (f_equal v_tree Hc) as Ht. cbn in Hv, Ht.
  destruct (op_base op); rewrite ?Hv, ?Ht; done.
Qed.

(** The operation is parsed and committed by kind. *)
Lemma parse_kind_spec o op s :
  bind_wf s -> v_ops s !! o = Some op -> op_fits s op ->
  op_done o (target op) s
    ((_ <-? match op_base op with
            | GpuvaMap m => parse_map dev o m
            | GpuvaRemap prev next old => parse_remap dev o prev next old
            | GpuvaUnmap va => parse_unmap o va
            | GpuvaPrefetch va => parse_prefetch o va
            | GpuvaDriver => ret (Ok tt)
            end ;; xe_vma_op_commit o) s).2.
Proof.
  intros Hw Ho Hf. pose proof Hf as [Hnew Hk]. unfold bind_res. rewrite run_bind.
  destruct (op_base op) as [m|prev next old|va|va|] eqn:Hb.
  - pose proof (parse_map_spec o op m s Hw Ho Hb Hf) as Hm. unfold side_post in Hm.
    destruct (parse_map _ _ _ s) as [[u|e] s1]; cbn [fst snd ret] in *; [|by apply done_nothing].
    unfold target. rewrite Hb. by eapply commit_map_spec.
  - destruct Hk as (x & Hx & [r Hr] & Hs). destruct (wf_tree_vma _ _ _ Hw Hr) as (x' & Hx' & -> & Hg).
    assert (x' = x) as -> by congruence.
    pose proof (parse_remap_spec o op prev next old x s Hw Ho Hnew Hx Hg Hs) as Hm. cbv zeta in Hm.
    unfold target. rewrite Hb. destruct (parse_remap _ _ _ _ _ s) as [[u|e] s1]; cbn [fst snd ret] in *.
    + destruct Hm as (p & n & Hm). eapply commit_remap_spec; try done. apply Hnew.
    + destruct Hm as (ab & p & n & Hm). eapply remap_uncommitted; try done. apply Hnew.
  - pose proof (parse_unmap_quiet o va s) as Hq. destruct (parse_unmap _ _ s) as [[u|e] s1]; cbn [fst snd ret] in *.
    + eapply (op_done_start _ _ _ s1); [apply Hq|unfold ops_but; by rewrite (q_ops _ _ Hq)|by rewrite (q_next _ _ Hq)|].
      unfold target. rewrite Hb. eapply commit_unmap_spec; [|by rewrite (q_ops _ _ Hq)|done|done|].
      * eapply wf_core; [done|apply Hq|by rewrite (q_next _ _ Hq)].
      * pose proof (f_equal v_tree (q_core _ _ Hq)) as Ht. cbn in Ht. by rewrite Ht.
    + apply done_nothing; [done..|by apply quiet_err].
  - pose proof (parse_prefetch_quiet o va s) as Hq. destruct (parse_prefetch _ _ s) as [[u|e] s1]; cbn [fst snd ret] in *.
    + eapply (op_done_start _ _ _ s1); [apply Hq|unfold ops_but; by rewrite (q_ops _ _ Hq)|by rewrite (q_next _ _ Hq)|].
      unfold target. rewrite Hb. eapply commit_prefetch_spec; [|by rewrite (q_ops _ _ Hq)|done].
      eapply wf_core; [done|apply Hq|by rewrite (q_next _ _ Hq)].
    + apply done_nothing; [done..|by apply quiet_err].
  - cbn [ret fst snd]. unfold xe_vma_op_commit. rewrite run_bind. cbn [gets fst snd].
    rewrite (get_op_lookup _ _ _ Ho), Hb. apply done_nothing; [done..|by apply quiet_err].
Qed.

Lemma parse_op_spec o op s :
  bind_wf s -> v_ops s !! o = Some op -> op_fits s op -> op_done o (target op) s (parse_op dev o s).2.
Proof.
  intros Hw Ho Hf. unfold parse_op. rewrite run_bind, (run_bind (upd_op _ _)).
  set (s1 := (upd_vops _ s).2). set (s2 := (upd_op o _ s1).2).
  set (op' := set_op_tile_mask (all_tiles_mask dev) op).
  assert (v_ops s2 !! o = Some op') as Ho' by (by apply upd_op_get).
  eapply (op_done_start _ _ _ s2); [done|exact (upd_op_but o _ s1)|done|].
  rewrite run_bind. cbn [gets fst snd]. rewrite (get_op_lookup _ _ _ Ho').
  exact (parse_kind_spec o op' s2 (wf_core s s2 Hw eq_refl (Z.le_refl _)) Ho' Hf).
Qed.

(** * A list of operations *)

(** Operations for one bind that fit the address space: each is new and changes a
    mapping of its own. *)
Definition ops_ready s (os : list Z) : Prop :=
  NoDup os /\ NoDup (omap (fun o => o' ← v_ops s !! o; target o') os) /\
  Forall (fun o => exists op, v_ops s !! o = Some op /\ op_fits s op) os.

Lemma op_fits_kept s s1 op tgt :
  others_kept tgt s s1 -> (forall v, target op = Some v -> Some v <> tgt) -> op_fits s op -> op_fits s1 op.
Proof.
  intros Hk Hne [Hn Hf]. split; [done|]. unfold target in Hne. destruct (op_base op) as [m|p n old|va|va|]; try done.
  - destruct Hf as (x & Hx & [r Hr] & Hs). destruct (Hk old r Hr (Hne _ eq_refl)) as [-> ->]. by exists x.
  - destruct Hf as [r Hr]. by destruct (Hk va r Hr (Hne _ eq_refl)) as [-> _].
Qed.

Lemma uview_new op op' : uview op' = uview op -> op_new op -> op_new op'.
Proof. intros E. injection E as E1 E2 E3 E4 E5 E6 E7. unfold op_new. by rewrite E2, E3, E4, E5. Qed.

Lemma uview_target op op' : uview op' = uview op -> target op' = target op.
Proof. intros E. injection E as E1 _ _ _ _ _ _. unfold target. by rewrite E1. Qed.

(** Unwinding operations that did nothing. *)
Lemma unwind_unparsed os s :
  Forall (fun o => exists op, v_ops s !! o = Some op /\ op_new op /\ target_alive op s) os ->
  core (for_each os unwind_op s).2 = core s /\ v_ops (for_each os unwind_op s).2 = v_ops s.
Proof.
  revert s. induction os as [|o os IH]; intros s Hall; [done|].
  apply list.Forall_cons in Hall as [(op & Ho & Hn & Ha) Hall]. cbn [for_each]. rewrite run_bind.
  rewrite (unwind_op_of _ _ _ Ho). destruct (unwind_new_op op s Hn Ha) as [Hc Hops].
  destruct (IH (unwind_of op s).2) as [-> ->]; [|done].
  eapply list.Forall_impl; [exact Hall|]. intros o' (op' & Ho' & Hn' & Ha'). exists op'.
  rewrite Hops. split; [done|]. split; [done|]. by eapply target_alive_core.
Qed.

(** The states agree on what unwinding reads of the operations. *)
Definition ops_agree (os : list Z) t s2 : Prop :=
  Forall (fun o => exists op1 op2, v_ops t !! o = Some op1 /\ v_ops s2 !! o = Some op2 /\ uview op2 = uview op1) os.

Record list_done (os : list Z) s t : Prop := {
  ld_wf : bind_wf t;
  ld_next : v_next s <= v_next t;
  ld_ops : forall o, o ∉ os -> v_ops t !! o = v_ops s !! o;
  ld_some : Forall (fun o => is_Some (v_ops t !! o)) os;
  ld_ufences : v_ufences t = v_ufences s;
  ld_undo : forall u s2, u ⊆ v_ufences s -> core s2 = core (set_v_ufences u t) -> ops_agree os t s2 ->
    core (for_each (reverse os) unwind_op s2).2 = core (set_v_ufences u s) /\
    v_ops (for_each (reverse os) unwind_op s2).2 = v_ops s2;
}.

Lemma ready_tail s s1 o op os :
  v_ops s !! o = Some op -> ops_ready s (o :: os) -> op_done o (target op) s s1 -> ops_ready s1 os.
Proof.
  intros Ho (Hnd & Hnt & Hall) Hd. apply list.NoDup_cons in Hnd as [Hno Hnd].
  apply list.Forall_cons in Hall as [_ Hall].
  assert (forall o', o' ∈ os -> v_ops s1 !! o' = v_ops s !! o') as Hsame.
  { intros o' Ho'. eapply ops_but_lookup; [apply Hd|]. by intros ->. }
  assert (omap (fun o => o' ← v_ops s1 !! o; target o') os = omap (fun o => o' ← v_ops s !! o; target o') os) as Eom.
  { clear -Hsame. induction os as [|o' os IH]; [done|]. cbn. rewrite Hsame by set_solver.
    rewrite IH by (intros; apply Hsame; set_solver). done. }
  split; [done|]. cbn in Hnt. rewrite Ho in Hnt. cbn in Hnt. split.
  - rewrite Eom. destruct (target op); [|done]. by apply list.NoDup_cons in Hnt as [_ ?].
  - rewrite list.Forall_forall in Hall |- *. intros o' Ho'. destruct (Hall o' Ho') as (op' & Hl & Hf).
    exists op'. split; [by rewrite Hsame|]. eapply op_fits_kept; [apply Hd| |done].
    intros v Hv Hv'. rewrite <- Hv' in Hnt. apply list.NoDup_cons in Hnt as [Hnin _]. apply Hnin.
    apply list_elem_of_omap. exists o'. split; [done|]. by rewrite Hl.
Qed.

Lemma ready_unparsed s os s2 :
  bind_wf s -> ops_ready s os -> core s2 = core s -> ops_agree os s s2 ->
  Forall (fun o => exists op, v_ops s2 !! o = Some op /\ op_new op /\ target_alive op s2) os.
Proof.
  intros Hw (_ & _ & Hall) Hc Hag. unfold ops_agree in Hag. rewrite list.Forall_forall in Hall, Hag |- *. intros o Ho.
  destruct (Hall o Ho) as (op & Hl & Hf). destruct (Hag o Ho) as (op1 & op2 & Hl1 & Hl2 & Hu).
  assert (op1 = op) as -> by congruence. exists op2. split; [done|].
  split; [eapply uview_new; [done|apply Hf]|].
  pose proof (fits_alive _ _ Hw Hf) as Ha. intros v Hv. rewrite (uview_target _ _ Hu) in Hv.
  by eapply (target_alive_core op s s2 Hc Ha).
Qed.

Lemma parse_list_spec os s :
  bind_wf s -> ops_ready s os -> list_done os s (vm_bind_ioctl_ops_parse dev os s).2.
Proof.
  unfold vm_bind_ioctl_ops_parse. revert s. induction os as [|o os IH]; intros s Hw Hr.
  { split; done. }
  pose proof Hr as (Hnd & _ & Hall). apply list.NoDup_cons in Hnd as [Hno _].
  apply list.Forall_cons in Hall as [(op & Ho & Hf) _].
  pose proof (parse_op_spec o op s Hw Ho Hf) as Hd.
  pose proof (ready_tail _ _ _ _ _ Ho Hr Hd) as Hr1.
  cbn [for_err]. rewrite run_bind. destruct (parse_op dev o s) as [r s1]. cbn [fst snd] in *.
  assert (exists t, (match r with Ok _ => for_err os (parse_op dev) | Err e => ret (Err e) end s1).2 = t /\
    list_done os s1 t) as (t & -> & Ht).
  { eexists. split; [done|]. destruct r as [u|e]; [apply IH; [apply Hd|done]|].
    split; [apply Hd|done|done| |done|].
    - destruct Hr1 as (_ & _ & Hall). eapply list.Forall_impl; [exact Hall|]. intros o' (? & ? & _). by eexists.
    - intros u s2 Hu Hc Hag. destruct (unwind_unparsed (reverse os) s2) as [-> ->]; [|done].
      apply Forall_reverse. eapply (ready_unparsed (set_v_ufences u s1)); [|done|done|done].
      apply wf_ufences; [apply Hd|done]. }
  destruct Ht as [Tw Tn To Ts Tf Tu]. destruct Hd as [Db Dn Dw Dk Du Ds Df].
  assert (v_ops t !! o = v_ops s1 !! o) as Eo by (by apply To).
  split; [done|lia| |apply list.Forall_cons; split; [by rewrite Eo|done]|by rewrite Tf|].
  - intros o' Ho'. apply not_elem_of_cons in Ho' as [Hne Ho']. rewrite To by done. by eapply ops_but_lookup.
  - intros u s2 Hu Hc Hag. apply list.Forall_cons in Hag as [(op1 & op2 & Ho1 & Ho2 & Hv) Hag].
    rewrite reverse_cons, for_each_app. destruct (Tu u s2) as [Hc1 Hops1]; [by rewrite Df|done|done|]. revert Hc1 Hops1.
    generalize (for_each (reverse os) unwind_op s2).2. intros s3 Hc1 Hops1. cbn [for_each]. rewrite run_bind.
    cbn [ret snd]. rewrite Eo in Ho1. rewrite <- Hops1 in Ho2.
    destruct (Du u Hu s3 op1 op2 Hc1 Ho1 Ho2 Hv) as [-> ->]. done.
Qed.

End VmBindLemmas.
