(* ===== verification/VmExec.v ===== *)
(** Running a bind request, [xe_vm.c]: locking and preparing the operations, updating
    the page tables of every tile, the user fence, and [xe_vm_bind_ioctl]. *)
From stdpp Require Import base numbers list gmap.
From S2P Require Import Prelude.
From S2P Require Import VmArgs.
From S2P Require Import VmState.
From S2P Require Import Vma.
From S2P Require Import VmBind.

Section VmExec.
Context `{BindUapi, VmFlags, VmOracle, DrmGpuvm}.
Context (dev : vm_device).

Definition b2z (b : bool) : Z := if b then 1 else 0.

(** * Locking and preparing *)

(** [struct xe_vma_lock_and_validate_flags]. *)
Record xe_vma_lock_and_validate_flags := {
  lv_res_evict : bool;
  lv_validate : bool;
  lv_request_decompress : bool;
  lv_check_purged : bool;
}.

Definition vma_lock_and_validate (v : Z) (flags : xe_vma_lock_and_validate_flags) : ST xe_vm (res unit) :=
  vma <-- gets (get_vma v) ;;
  match va_bo vma with
  | None => ret (Ok tt)
  | Some b =>
      ext <-- gets (bo_is_external b) ;;
      bo <-- gets (fun s => v_bos s !! b) ;;
      err <-- (if ext then ask drm_exec_lock_obj [b] else ret (Ok tt)) ;;
      let err :=
        if is_ok err && lv_check_purged flags then
          if from_option vb_dontneed false bo then Err EBUSY
          else if from_option vb_purged false bo then Err EINVAL
          else err
        else err in
      let validate_bo := lv_validate flags &&
        (ma_purgeable_state (va_attr vma) =? XE_MADV_PURGEABLE_WILLNEED) in
      err <-- (if is_ok err && validate_bo then
                 evict <-- ask_bool xe_vm_allow_vm_eviction [] ;;
                 ask xe_bo_validate [b; b2z (evict && lv_res_evict flags)]
               else ret err) ;;
      match err with
      | Err e => ret (Err e)
      | Ok _ => if lv_request_decompress flags then ask xe_bo_decompress [b] else ret (Ok tt)
      end
  end.

Definition check_ufence (v : Z) : ST xe_vm (res unit) :=
  ufence <-- gets (fun s => v_ufences s !! v) ;;
  match ufence with
  | None => ret (Ok tt)
  | Some f =>
      signalled <-- ask_bool xe_sync_ufence_get_status [f] ;;
      if negb signalled then ret (Err EBUSY)
      else
        modify (fun s => set_v_ufences (delete v (v_ufences s)) s) ;;;
        event ufence_put [f] ;;;
        ret (Ok tt)
  end.

(** One SVM range of a prefetch. *)
Definition prefetch_range (v : Z) (dpagemap : option Z) (r : Z) : ST xe_vm (res unit) :=
  when (bool_decide (dpagemap = None)) (event xe_svm_range_migrate_to_smem [r]) ;;;
  needs <-- ask_bool xe_svm_range_needs_migrate_to_vram [r; v; default 0 dpagemap] ;;
  err <-- (if needs then ask xe_svm_alloc_vram [r; default 0 dpagemap] else ret (Ok tt)) ;;
  match err with
  | Err _ => ret (Err ENODATA)
  | Ok _ =>
      err <-- ask xe_svm_range_get_pages [r] ;;
      match err with
      | Err EOPNOTSUPP | Err EFAULT | Err EPERM => ret (Err ENODATA)
      | _ => ret err
      end
  end.

Definition prefetch_ranges (o va : Z) : ST xe_vm (res unit) :=
  vma <-- gets (get_vma va) ;;
  op <-- gets (get_op o) ;;
  if negb (xe_vma_is_cpu_addr_mirror vma) then ret (Ok tt)
  else for_err (of_ranges op) (prefetch_range va (of_dpagemap op)).

Definition region_to_mem_type : list Z := [XE_PL_TT; XE_PL_VRAM0; XE_PL_VRAM1].

(** The memory a PREFETCH moves the object to. *)
Definition prefetch_mem_type (b region : Z) : ST xe_vm Z :=
  if region =? DRM_XE_CONSULT_MEM_ADVISE_PREF_LOC then
    places <-- gets (fun s => from_option vb_placements [] (v_bos s !! b)) ;;
    ret (default XE_PL_TT (head (filter mem_type_is_vram places)))
  else
    match region_to_mem_type !! Z.to_nat region with
    | Some m => ret m
    | None => ask_z oob_read [region]
    end.

Definition op_lock_and_prep (o : Z) : ST xe_vm (res unit) :=
  vops <-- gets v_vops ;;
  op <-- gets (get_op o) ;;
  fault_mode <-- gets xe_vm_in_fault_mode ;;
  let res_evict := negb (test (vo_flags vops) XE_VMA_OPS_ARRAY_OF_BINDS) in
  let flags (validate decompress check : bool) := {|
    lv_res_evict := res_evict; lv_validate := validate; lv_request_decompress := decompress;
    lv_check_purged := check |} in
  let side (v : option Z) :=
    match v with
    | Some v => vma_lock_and_validate v (flags true false false)
    | None => ret (Ok tt)
    end in
  match op_base op with
  | GpuvaMap _ =>
      if om_invalidate_on_bind op then ret (Ok tt)
      else
        match om_vma op with
        | Some v => vma_lock_and_validate v
            (flags (negb fault_mode || om_immediate op) (om_request_decompress op) false)
        | None => ret (Ok tt)
        end
  | GpuvaRemap _ _ old =>
      _ <-? check_ufence old ;;
      _ <-? vma_lock_and_validate old (flags false false false) ;;
      _ <-? side (or_prev op) ;;
      side (or_next op)
  | GpuvaUnmap va =>
      _ <-? check_ufence va ;;
      vma_lock_and_validate va (flags false false false)
  | GpuvaPrefetch va =>
      _ <-? vma_lock_and_validate va (flags false false true) ;;
      vma <-- gets (get_vma va) ;;
      match va_bo vma with
      | None => ret (Ok tt)
      | Some b =>
          mem_type <-- prefetch_mem_type b (of_region op) ;;
          ask xe_bo_migrate [b; mem_type]
      end
  | GpuvaDriver => ret (Ok tt)
  end.

Definition vm_bind_ioctl_ops_prefetch_ranges : ST xe_vm (res unit) :=
  vops <-- gets v_vops ;;
  if negb (test (vo_flags vops) XE_VMA_OPS_FLAG_HAS_SVM_PREFETCH) then ret (Ok tt)
  else
    for_err (vo_list vops) (fun o =>
      op <-- gets (get_op o) ;;
      match op_base op with
      | GpuvaPrefetch va => prefetch_ranges o va
      | _ => ret (Ok tt)
      end).

Definition vm_bind_ioctl_ops_lock_and_prep : ST xe_vm (res unit) :=
  _ <-? ask drm_exec_lock_obj [0] ;;
  vops <-- gets v_vops ;;
  for_err (vo_list vops) op_lock_and_prep.

(** * Updating the page tables *)

(** The loop over the tiles; [q] is the queue that the next tile takes. *)
Fixpoint setup_tile_args (tiles : list Z) (q : option Z) (number_tiles : Z) : ST xe_vm Z :=
  match tiles with
  | [] => ret number_tiles
  | id :: tiles' =>
      vops <-- gets v_vops ;;
      let number_tiles := if num_ops_of vops id =? 0 then number_tiles else number_tiles + 1 in
      match vo_tile_q vops !! id, q with
      | Some _, _ => setup_tile_args tiles' q number_tiles
      | None, Some qid =>
          upd_vops (fun v => set_vo_tile_q (<[id := qid]> (vo_tile_q v)) v) ;;;
          root <-- gets (fun s => v_pt_root s !! id) ;;
          more <-- ask_bool multi_gt_nonempty [qid] ;;
          if bool_decide (is_Some root) && more then
            next <-- ask_z multi_gt_next [qid] ;;
            setup_tile_args tiles' (Some next) number_tiles
          else setup_tile_args tiles' q number_tiles
      | None, None =>
          vq <-- gets (fun s => v_bind_q s !! id) ;;
          upd_vops (fun v => set_vo_tile_q (partial_alter (fun _ => vq) id (vo_tile_q v)) v) ;;;
          setup_tile_args tiles' q number_tiles
      end
  end.

Definition vm_ops_setup_tile_args : ST xe_vm Z :=
  vops <-- gets v_vops ;;
  setup_tile_args (dv_tiles dev) (vo_q vops) 0.

(** Indices [i] of [for_each_tlb_inval(i)]. *)
Definition tlb_invals : list Z := Z.of_nat <$> seq 0 (Z.to_nat num_tlb_inval).

(** The number of fences that is allocated. *)
Definition fence_count (skip_wait : bool) : Z :=
  foldl (fun n _ => n + 1 + (if skip_wait then 0 else Z.of_nat (length tlb_invals))) 0 (dv_tiles dev).

Definition tiles_with_ops : ST xe_vm (list Z) :=
  gets (fun s => filter (fun id => num_ops_of (v_vops s) id <> 0) (dv_tiles dev)).

(** The last fences of the TLB invalidations of a tile's queue. *)
Fixpoint last_fences (q : Z) (l : list Z) : ST xe_vm (list Z) :=
  match l with
  | [] => ret []
  | i :: l' =>
      f <-- ask_z tlb_inval_last_fence [q; i] ;;
      fs <-- last_fences q l' ;;
      ret (f :: fs)
  end.

(** The fence of one tile's update: a stub when the tile has none. *)
Definition run_tile (id : Z) : ST xe_vm (res Z) :=
  n <-- gets (fun s => num_ops_of (v_vops s) id) ;;
  if n =? 0 then f <-- ask_z dma_fence_get_stub [] ;; ret (Ok f)
  else
    _ <-? ask xe_pt_update_ops_run [id] ;;
    f <-- gets (fun s => answer_z (v_trace s)) ;;
    ret (Ok f).

(** Run the updates of the tiles and collect their fences; the fences collected so
    far come back with an error too. *)
Fixpoint run_tiles (tiles : list Z) (fences : list Z) : ST xe_vm (res unit * list Z) :=
  match tiles with
  | [] => ret (Ok tt, fences)
  | id :: tiles' =>
      vops <-- gets v_vops ;;
      r <-- run_tile id ;;
      match r with
      | Err e => ret (Err e, fences)
      | Ok f =>
          if test (vo_flags vops) XE_VMA_OPS_FLAG_SKIP_TLB_WAIT then run_tiles tiles' (fences ++ [f])
          else
            more <-- last_fences (default 0 (vo_tile_q vops !! id)) tlb_invals ;;
            run_tiles tiles' (fences ++ f :: more)
      end
  end.

(** The label [err_out]. *)
Definition ops_abort (fences : list Z) : ST xe_vm unit :=
  work <-- tiles_with_ops ;;
  for_each work (fun id => event xe_pt_update_ops_abort [id]) ;;;
  for_each (reverse fences) (fun f => event dma_fence_put [f]).

Definition ops_execute : ST xe_vm (res Z) :=
  number_tiles <-- vm_ops_setup_tile_args ;;
  if number_tiles =? 0 then ret (Err ENODATA)
  else
    vops <-- gets v_vops ;;
    let n_fence := fence_count (test (vo_flags vops) XE_VMA_OPS_FLAG_SKIP_TLB_WAIT) in
    fences_alloc <-- ask kmalloc [n_fence] ;;
    if negb (is_ok fences_alloc) then ret (Err ENOMEM)
    else
      cf <-- ask kmalloc [n_fence] ;;
      if negb (is_ok cf) then ops_abort [] ;;; ret (Err ENOMEM)
      else
        work <-- tiles_with_ops ;;
        r <-- for_err work (fun id => ask xe_pt_update_ops_prepare [id]) ;;
        match r with
        | Err e => ops_abort [] ;;; ret (Err e)
        | Ok _ =>
            p <-- run_tiles (dv_tiles dev) [] ;;
            match p with
            | (Err e, fences) => ops_abort fences ;;; ret (Err e)
            | (Ok _, fences) =>
                fence <-- ask_z dma_fence_array_init (n_fence :: fences) ;;
                for_each work (fun id => event xe_pt_update_ops_fini [id]) ;;;
                ret (Ok fence)
            end
        end.

(** * The end of a request *)

Definition vma_add_ufence (v ufence : Z) : ST xe_vm unit :=
  old <-- gets (fun s => v_ufences s !! v) ;;
  match old with Some f => event ufence_put [f] | None => ret tt end ;;;
  event ufence_get [ufence] ;;;
  modify (fun s => set_v_ufences (<[v := ufence]> (v_ufences s)) s).

Definition vma_add_ufence_opt (v : option Z) (ufence : Z) : ST xe_vm unit :=
  match v with Some v => vma_add_ufence v ufence | None => ret tt end.

Definition op_add_ufence (o ufence : Z) : ST xe_vm unit :=
  op <-- gets (get_op o) ;;
  match op_base op with
  | GpuvaMap _ =>
      match om_vma op with
      | Some v =>
          vma <-- gets (get_vma v) ;;
          when (negb (xe_vma_is_cpu_addr_mirror vma)) (vma_add_ufence v ufence)
      | None => ret tt
      end
  | GpuvaRemap _ _ _ =>
      vma_add_ufence_opt (or_prev op) ufence ;;;
      vma_add_ufence_opt (or_next op) ufence
  | GpuvaPrefetch va => vma_add_ufence va ufence
  | GpuvaUnmap _ | GpuvaDriver => ret tt
  end.

(** The first sync that is a user fence; a fence is named by its index. *)
Definition find_ufence_get (syncs : list bool) : ST xe_vm (option Z) :=
  match list_find (fun b => b = true) syncs with
  | Some (i, _) => event ufence_get [Z.of_nat i] ;;; ret (Some (Z.of_nat i))
  | None => ret None
  end.

Definition op_destroy_old (o : Z) (fence : bool) : ST xe_vm unit :=
  op <-- gets (get_op o) ;;
  match op_base op with
  | GpuvaUnmap va => xe_vma_destroy va fence
  | GpuvaRemap _ _ old => xe_vma_destroy old fence
  | _ => ret tt
  end.

Definition sync_ids (syncs : list bool) : list Z := Z.of_nat <$> seq 0 (length syncs).

Definition vm_bind_ioctl_ops_fini (fence : option Z) : ST xe_vm unit :=
  vops <-- gets v_vops ;;
  ufence <-- find_ufence_get (vo_syncs vops) ;;
  for_each (vo_list vops) (fun o =>
    match ufence with Some f => op_add_ufence o f | None => ret tt end ;;;
    op_destroy_old o (bool_decide (is_Some fence))) ;;;
  match ufence with Some f => event ufence_put [f] | None => ret tt end ;;;
  match fence with
  | Some f => for_each (sync_ids (vo_syncs vops)) (fun i => event xe_sync_entry_signal [i; f])
  | None => ret tt
  end.

(** A round that fails is repeated when a lock was contended or memory can be freed.
    [n] bounds the number of repetitions of one run. *)
Fixpoint retry_on_contention (n : nat) (c : ST xe_vm (res unit)) : ST xe_vm (res unit) :=
  r <-- c ;;
  match r with
  | Ok _ => ret (Ok tt)
  | Err e =>
      again <-- ask_bool contention [] ;;
      match again, n with
      | true, S n' => retry_on_contention n' c
      | _, _ => ret (Err e)
      end
  end.

Definition vm_bind_ioctl_ops_execute : ST xe_vm (res Z) :=
  rounds <-- ask_z retry_rounds [] ;;
  err <-- retry_on_contention (Z.to_nat rounds) vm_bind_ioctl_ops_lock_and_prep ;;
  match err with
  | Err e => ret (Err e)
  | Ok _ =>
      fence <-- ops_execute ;;
      match fence with
      | Err e =>
          when (bool_decide (e = ENODATA)) (vm_bind_ioctl_ops_fini None) ;;;
          ret (Err e)
      | Ok f => vm_bind_ioctl_ops_fini (Some f) ;;; ret (Ok f)
      end
  end.

(** * [xe_vm_bind_ioctl] *)

(** [to_wait_exec_queue]: the queue of the request, or the VM's first. *)
Definition to_wait_exec_queue (q : option Z) : ST xe_vm Z :=
  match q with
  | Some q => ret q
  | None => gets (fun s => default 0 (v_bind_q s !! 0))
  end.

Definition vm_bind_ioctl_signal_fences (q : option Z) (syncs : list bool) : ST xe_vm (res unit) :=
  if bool_decide (syncs = []) then event dma_fence_put [0] ;;; ret (Ok tt)
  else
    w <-- to_wait_exec_queue q ;;
    _ <-? ask xe_sync_in_fence_get [w] ;;
    f <-- gets (fun s => answer_z (v_trace s)) ;;
    for_each (sync_ids syncs) (fun i => event xe_sync_entry_signal [i; f]) ;;;
    event dma_fence_put [f] ;;;
    ret (Ok tt).

(** The range checks against the size of the VM. *)
Definition bind_ranges_ok (bind_ops : list drm_xe_vm_bind_op) (size : Z) : bool :=
  forallb (fun o => negb (size <? bop_range o) && negb (size - bop_range o <? bop_addr o)) bind_ops.

(** Look up and validate the objects.  [bo_info] is what the validation reads of an
    object.  The array of objects found so far comes back with an error. *)
Fixpoint bind_lookup_bos (xe : xe_device) (bo_info : Z -> bind_bo) (bind_ops : list drm_xe_vm_bind_op)
    : ST xe_vm (res unit * list (option Z)) :=
  match bind_ops with
  | [] => ret (Ok tt, [])
  | o :: ops' =>
      if bop_obj o =? 0 then
        p <-- bind_lookup_bos xe bo_info ops' ;; ret (p.1, None :: p.2)
      else
        found <-- ask drm_gem_object_lookup [bop_obj o] ;;
        match found with
        | Err _ => ret (Err ENOENT, [])
        | Ok _ =>
            b <-- gets (fun s => answer_z (v_trace s)) ;;
            xe_bo_get b ;;;
            match xe_vm_bind_ioctl_validate_bo xe (bo_info b) (bop_addr o) (bop_range o)
                    (bop_obj_offset o) (bop_pat_index o) (bop_op o) (bop_flags o) with
            | Err e => ret (Err e, [Some b])
            | Ok _ => p <-- bind_lookup_bos xe bo_info ops' ;; ret (p.1, Some b :: p.2)
            end
        end
  end.

(** Parse the syncs; those parsed come back with an error. *)
Fixpoint bind_parse_syncs (ids : list Z) : ST xe_vm (res unit * list bool) :=
  match ids with
  | [] => ret (Ok tt, [])
  | i :: ids' =>
      r <-- ask xe_sync_entry_parse [i] ;;
      match r with
      | Err e => ret (Err e, [])
      | Ok _ =>
          u <-- ask_bool xe_sync_is_ufence [i] ;;
          p <-- bind_parse_syncs ids' ;; ret (p.1, u :: p.2)
      end
  end.

(** Create and parse the operations of each bind; [ops[i]] is absent for a bind whose
    operations were not created. *)
Fixpoint bind_create_parse (binds : list (drm_xe_vm_bind_op * option Z))
    : ST xe_vm (res unit * list (option (list Z))) :=
  match binds with
  | [] => ret (Ok tt, [])
  | (o, bo) :: binds' =>
      r <-- vm_bind_ioctl_ops_create dev bo (bop_obj_offset o) (bop_addr o) (bop_range o) (bop_op o)
              (bop_flags o) (bop_prefetch_mem_region_instance o) (bop_pat_index o) ;;
      match r with
      | Err e => ret (Err e, [None])
      | Ok os =>
          err <-- vm_bind_ioctl_ops_parse dev os ;;
          match err with
          | Err e => ret (Err e, [Some os])
          | Ok _ => p <-- bind_create_parse binds' ;; ret (p.1, Some os :: p.2)
          end
      end
  end.

(** From the parsed operations to the execution. *)
Definition bind_run (num_binds : Z) : ST xe_vm (res unit) :=
  vops <-- gets v_vops ;;
  if bool_decide (vo_list vops = []) then ret (Err ENODATA)
  else
    _ <-? xe_vma_ops_alloc (1 <? num_binds) ;;
    _ <-? vm_bind_ioctl_ops_prefetch_ranges ;;
    f <-? vm_bind_ioctl_ops_execute ;;
    event dma_fence_put [f] ;;;
    ret (Ok tt).

(** [err && err != -ENODATA]. *)
Definition must_unwind (err : res unit) : bool :=
  match err with Ok _ => false | Err e => negb (bool_decide (e = ENODATA)) end.

(** From [xe_vma_ops_init] to the freeing of the operations. *)
Definition bind_request (q : option Z) (syncs : list bool) (bind_ops : list drm_xe_vm_bind_op)
    (bos : list (option Z)) : ST xe_vm (res unit) :=
  let num_binds := Z.of_nat (length bind_ops) in
  xe_vma_ops_init q syncs ;;;
  when (1 <? num_binds)
    (upd_vops (fun v => set_vo_flags (vo_flags v ||| XE_VMA_OPS_ARRAY_OF_BINDS) v)) ;;;
  p <-- bind_create_parse (zip bind_ops bos) ;;
  err <-- match p.1 with Err e => ret (Err e) | Ok _ => bind_run num_binds end ;;
  when (must_unwind err) (vm_bind_ioctl_ops_unwind p.2) ;;;
  xe_vma_ops_fini ;;;
  for_each (reverse p.2) (fun os => match os with Some os => gpuva_ops_free os | None => ret tt end) ;;;
  ret err.

(** With the objects and the syncs: the labels [free_syncs] and [put_obj]. *)
Definition bind_with_syncs (q : option Z) (num_syncs : Z) (bind_ops : list drm_xe_vm_bind_op)
    (bos : list (option Z)) : ST xe_vm (res unit) :=
  p <-- bind_parse_syncs (Z.of_nat <$> seq 0 (Z.to_nat num_syncs)) ;;
  let syncs := p.2 in
  err <-- match p.1 with
          | Err e => ret (Err e)
          | Ok _ =>
              if (1 <? length (filter (fun b => b = true) syncs))%nat then ret (Err EINVAL)
              else if bool_decide (bind_ops = []) then ret (Err ENODATA)
              else bind_request q syncs bind_ops bos
          end ;;
  err <-- match err with
          | Err ENODATA => vm_bind_ioctl_signal_fences q syncs
          | _ => ret err
          end ;;
  for_each (reverse (sync_ids syncs)) (fun i => event xe_sync_entry_cleanup [i]) ;;;
  ret err.

Definition bind_locked (xe : xe_device) (bo_info : Z -> bind_bo) (q : option Z) (num_syncs : Z)
    (bind_ops : list drm_xe_vm_bind_op) : ST xe_vm (res unit) :=
  closed <-- gets xe_vm_is_closed_or_banned ;;
  size <-- gets v_size ;;
  if closed then ret (Err ENOENT)
  else if negb (bind_ranges_ok bind_ops size) then ret (Err EINVAL)
  else
    bos_alloc <-- (if bool_decide (bind_ops = []) then ret (Ok tt) else ask kmalloc []) ;;
    ops_alloc <-- (if bool_decide (bind_ops = []) || negb (is_ok bos_alloc) then ret (Ok tt)
                   else ask kmalloc []) ;;
    if negb (is_ok bos_alloc) || negb (is_ok ops_alloc) then ret (Err ENOMEM)
    else
      p <-- bind_lookup_bos xe bo_info bind_ops ;;
      err <-- match p.1 with
              | Err e => ret (Err e)
              | Ok _ =>
                  syncs_alloc <-- (if num_syncs =? 0 then ret (Ok tt) else ask kmalloc []) ;;
                  if negb (is_ok syncs_alloc) then ret (Err ENOMEM)
                  else bind_with_syncs q num_syncs bind_ops p.2
              end ;;
      for_each p.2 (fun b => match b with Some b => xe_bo_put b | None => ret tt end) ;;;
      ret err.

(** The queue of the request, if it names one. *)
Definition bind_queue (exec_queue_id : Z) : ST xe_vm (res (option Z)) :=
  if exec_queue_id =? 0 then ret (Ok None)
  else
    found <-- ask xe_exec_queue_lookup [exec_queue_id] ;;
    match found with
    | Err _ => ret (Err ENOENT)
    | Ok _ =>
        q <-- gets (fun s => answer_z (v_trace s)) ;;
        bind_q <-- ask_bool exec_queue_is_vm_bind [q] ;;
        of_vm <-- (if bind_q then ask_bool exec_queue_is_of_vm [q] else ret false) ;;
        if bind_q && of_vm then ret (Ok (Some q))
        else event xe_exec_queue_put [q] ;;; ret (Err EINVAL)
    end.

(** The VM was looked up: [xe_vm_lookup] took a reference to it. *)
Definition xe_vm_bind_ioctl (xe : xe_device) (bo_info : Z -> bind_bo) (args : drm_xe_vm_bind)
    (kvmalloc_ok : bool) : ST xe_vm (res unit) :=
  found <-- ask_bool xe_vm_lookup [ba_vm_id args] ;;
  if negb found then ret (Err EINVAL)
  else
    xe_vm_get ;;;
    fault_mode <-- gets xe_vm_in_fault_mode ;;
    err <-- match vm_bind_ioctl_check_args xe fault_mode args kvmalloc_ok with
            | Err e => ret (Err e)
            | Ok bind_ops =>
                q <-? bind_queue (ba_exec_queue_id args) ;;
                event xe_svm_flush [] ;;;
                err <-- ask down_write_killable [] ;;
                err <-- match err with
                        | Err e => ret (Err e)
                        | Ok _ => bind_locked xe bo_info q (ba_num_syncs args) bind_ops
                        end ;;
                match q with Some q => event xe_exec_queue_put [q] | None => ret tt end ;;;
                ret err
            end ;;
    xe_vm_put ;;;
    ret err.

(** * [xe_vm_bind_kernel_bo] *)

(** A failure to parse leaves by [release_vm_lock], past the unwinding. *)
Definition xe_vm_bind_kernel_bo (b : Z) (q : option Z) (addr pat_index : Z) : ST xe_vm (res Z) :=
  xe_bo_get b ;;;
  xe_vm_get ;;;
  match q with Some q => event xe_exec_queue_get [q] | None => ret tt end ;;;
  xe_vma_ops_init q [] ;;;
  size <-- gets (fun s => from_option vb_size 0 (v_bos s !! b)) ;;
  r <-- vm_bind_ioctl_ops_create dev (Some b) 0 addr size DRM_XE_VM_BIND_OP_MAP 0 0 pat_index ;;
  fence <-- match r with
            | Err e => ret (Err e)
            | Ok os =>
                err <-- vm_bind_ioctl_ops_parse dev os ;;
                match err with
                | Err e => ret (Err e)
                | Ok _ =>
                    alloc <-- xe_vma_ops_alloc false ;;
                    fence <-- match alloc with
                              | Err e => ret (Err e)
                              | Ok _ => vm_bind_ioctl_ops_execute
                              end ;;
                    let err := match fence with Ok _ => Ok tt | Err e => Err e end in
                    when (must_unwind err) (vm_bind_ioctl_ops_unwind [Some os]) ;;;
                    xe_vma_ops_fini ;;;
                    gpuva_ops_free os ;;;
                    ret fence
                end
            end ;;
  match q with Some q => event xe_exec_queue_put [q] | None => ret tt end ;;;
  xe_vm_put ;;;
  xe_bo_put b ;;;
  ret fence.

Definition xe_vm_lock (intr : bool) : ST xe_vm (res unit) :=
  if intr then ask dma_resv_lock [1] else ask dma_resv_lock [0].

End VmExec.
