(* ===== verification/VmBindReq.v ===== *)
(** A bind request as a whole: what creating operations and running them leaves
    alone, so that unwinding them goes back to the start of the request. *)
From stdpp Require Import base numbers list gmap.
From S2P Require Import Prelude.
From S2P Require Import VmArgs.
From S2P Require Import VmState.
From S2P Require Import Vma.
From S2P Require Import VmBind.
From S2P Require Import VmaLemmas.
From S2P Require Import VmBindLemmas.
From S2P Require Import VmExec.

Section VmBindReq.
Context `{BindUapi, VmFlags, VmOracle, DrmGpuvm}.
Context (dev : vm_device).
Context `{!LocksSucceed, !VmFlagsLaws, !DrmGpuvmLaws}.
Implicit Types s : xe_vm.

(** * Running operations *)

(** The operations agree on what unwinding reads. *)
Definition ops_same s s2 : Prop := forall o, option_relation (fun a b => uview b = uview a) (fun _ => False)
  (fun _ => False) (v_ops s !! o) (v_ops s2 !! o).

(** Only bookkeeping changed, and fences of VMAs were dropped. *)
Record exec_frame s s2 : Prop := {
  ef_core : exists u, u ⊆ v_ufences s /\ core s2 = core (set_v_ufences u s);
  ef_ops : ops_same s s2;
  ef_next : v_next s2 = v_next s;
}.

Lemma ops_same_refl s : ops_same s s.
Proof. intros o. by destruct (v_ops s !! o). Qed.

#[export] Instance exec_frame_preorder : PreOrder exec_frame.
Proof.
  split.
  - intros s. split; [|apply ops_same_refl|done]. by exists (v_ufences s).
  - intros s1 s2 s3 [(u1 & Hu1 & Hc1) Ho1 Hn1] [(u2 & Hu2 & Hc2) Ho2 Hn2]. split; [|intros o|congruence].
    + pose proof (f_equal v_ufences Hc1) as E. cbn in E. rewrite E in Hu2.
      exists u2. split; [by etrans|]. rewrite Hc2. exact (f_equal (set_v_ufences u2) Hc1).
    + specialize (Ho1 o). specialize (Ho2 o).
      destruct (v_ops s1 !! o), (v_ops s2 !! o), (v_ops s3 !! o); cbn in *; try done. congruence.
Qed.

Lemma quiet_exec s t : quiet s t -> exec_frame s t.
Proof.
  intros [Hc Ho Hn]. split; [by exists (v_ufences s)| |done]. intros o. rewrite Ho. apply ops_same_refl.
Qed.

Lemma exec_upd_op o f s : (forall op, uview (f op) = uview op) -> exec_frame s (upd_op o f s).2.
Proof.
  intros Hf. split; [by exists (v_ufences s)| |done]. intros o'. cbn.
  destruct (decide (o' = o)) as [->|].
  - rewrite lookup_alter_eq. destruct (v_ops s !! o); cbn; [apply Hf|done].
  - rewrite lookup_alter_ne by done. apply ops_same_refl.
Qed.

Lemma exec_for_err {A} (l : list A) (f : A -> ST xe_vm (res unit)) s :
  (forall a t, exec_frame t (f a t).2) -> exec_frame s (for_err l f s).2.
Proof. intros Hf. apply for_err_inv; [|done]. intros a t _ Ht. etrans; [exact Ht|apply Hf]. Qed.

Lemma exec_for_each {A} (l : list A) (f : A -> ST xe_vm unit) s :
  (forall a t, exec_frame t (f a t).2) -> exec_frame s (for_each l f s).2.
Proof. intros Hf. apply for_each_inv; [|done]. intros a t _ Ht. etrans; [exact Ht|apply Hf]. Qed.

(** Sequences of such steps. *)
Lemma exec_bind {A B} (c : ST xe_vm A) (k : A -> ST xe_vm B) s :
  exec_frame s (c s).2 -> (forall a t, exec_frame t (k a t).2) -> exec_frame s (bind c k s).2.
Proof. intros Hc Hk. rewrite run_bind. etrans; [exact Hc|apply Hk]. Qed.

Lemma exec_bind_res {A B} (c : ST xe_vm (res A)) (k : A -> ST xe_vm (res B)) s :
  exec_frame s (c s).2 -> (forall a t, exec_frame t (k a t).2) -> exec_frame s (bind_res c k s).2.
Proof. intros Hc Hk. apply exec_bind; [done|]. intros [a|e] t; [apply Hk|done]. Qed.

End VmBindReq.

Create HintDb vm_frame.

(** Walk through a computation whose steps are all such steps; the database holds the
    lemmas on the functions it calls. *)
Ltac exec_steps :=
  repeat first
    [ reflexivity
    | solve [auto with vm_frame]
    | match goal with
      | |- exec_frame _ (bind_res _ _ _).2 => apply exec_bind_res; [|intros]
      | |- exec_frame _ (bind _ _ _).2 => apply exec_bind; [|intros]
      | |- exec_frame _ (for_err _ _ _).2 => apply exec_for_err; intros
      | |- exec_frame _ (for_each _ _ _).2 => apply exec_for_each; intros
      | |- exec_frame _ (when ?b _ _).2 => destruct b; unfold when
      | |- exec_frame _ ((if ?b then _ else _) _).2 => destruct b
      | |- exec_frame _ ((match ?x with _ => _ end) _).2 => destruct x
      | |- exec_frame _ (upd_op _ _ _).2 => apply exec_upd_op; done
      | |- exec_frame _ (ask _ _ _).2 => apply quiet_exec, quiet_ask
      | |- exec_frame _ (ask_bool _ _ _).2 => apply quiet_exec, quiet_ask_bool
      | |- exec_frame _ (ask_z _ _ _).2 => apply quiet_exec, quiet_trace; reflexivity
      | |- exec_frame _ (event _ _ _).2 => apply quiet_exec, quiet_event
      | |- exec_frame _ (upd_vops _ _).2 => apply quiet_exec, quiet_vops
      end ].

Section Frames.
Context `{BindUapi, VmFlags, VmOracle, DrmGpuvm}.
Context (dev : vm_device).
Context `{!LocksSucceed, !VmFlagsLaws, !DrmGpuvmLaws}.
Implicit Types s : xe_vm.

Lemma exec_check_ufence v s : exec_frame s (check_ufence v s).2.
Proof.
  unfold check_ufence. rewrite run_bind. cbn [gets fst snd]. destruct (v_ufences s !! v) as [f|] eqn:E; [|done].
  apply exec_bind; [exec_steps|]. intros [] t; cbn [negb]; [|done].
  apply exec_bind; [|intros; exec_steps].
  split; [|exact (ops_same_refl t)|done]. exists (delete v (v_ufences t)). split; [apply delete_subseteq|done].
Qed.
#[local] Hint Resolve exec_check_ufence : vm_frame.

Lemma exec_lock_and_validate v fl s : exec_frame s (vma_lock_and_validate v fl s).2.
Proof. unfold vma_lock_and_validate. exec_steps. Qed.
#[local] Hint Resolve exec_lock_and_validate : vm_frame.

Lemma exec_prefetch_range v d r s : exec_frame s (prefetch_range v d r s).2.
Proof. unfold prefetch_range. exec_steps. Qed.
#[local] Hint Resolve exec_prefetch_range : vm_frame.

Lemma exec_ops_prefetch s : exec_frame s (vm_bind_ioctl_ops_prefetch_ranges s).2.
Proof. unfold vm_bind_ioctl_ops_prefetch_ranges, prefetch_ranges. exec_steps. Qed.
#[local] Hint Resolve exec_ops_prefetch : vm_frame.

Lemma exec_op_lock_and_prep o s : exec_frame s (op_lock_and_prep o s).2.
Proof. unfold op_lock_and_prep, prefetch_mem_type. exec_steps. Qed.
#[local] Hint Resolve exec_op_lock_and_prep : vm_frame.

Lemma exec_lock_and_prep s : exec_frame s (vm_bind_ioctl_ops_lock_and_prep s).2.
Proof. unfold vm_bind_ioctl_ops_lock_and_prep. exec_steps. Qed.
#[local] Hint Resolve exec_lock_and_prep : vm_frame.

Lemma exec_retry n c s : (forall t, exec_frame t (c t).2) -> exec_frame s (retry_on_contention n c s).2.
Proof.
  intros Hc. revert s. induction n as [|n IH]; intros s; cbn [retry_on_contention];
    (apply exec_bind; [apply Hc|]; intros [[]|e] t; [done|]; apply exec_bind; [exec_steps|]; intros [] t'); done || apply IH.
Qed.

Lemma exec_setup_tile_args tiles q n s : exec_frame s (setup_tile_args tiles q n s).2.
Proof.
  revert q n s. induction tiles as [|id tiles IH]; intros q n s; cbn [setup_tile_args]; [done|].
  apply exec_bind; [done|]. intros vops t. destruct (vo_tile_q vops !! id), q; exec_steps; apply IH.
Qed.
#[local] Hint Resolve exec_setup_tile_args : vm_frame.

Lemma exec_last_fences q l s : exec_frame s (last_fences q l s).2.
Proof. revert s. induction l as [|i l IH]; intros s; cbn [last_fences]; exec_steps. Qed.
#[local] Hint Resolve exec_last_fences : vm_frame.

Lemma exec_run_tile id s : exec_frame s (run_tile id s).2.
Proof. unfold run_tile. exec_steps. Qed.
#[local] Hint Resolve exec_run_tile : vm_frame.

Lemma exec_run_tiles tiles fs s : exec_frame s (run_tiles tiles fs s).2.
Proof.
  revert fs s. induction tiles as [|id tiles IH]; intros fs s; cbn [run_tiles]; [done|].
  exec_steps.
Qed.
#[local] Hint Resolve exec_run_tiles : vm_frame.

Lemma exec_ops_abort fs s : exec_frame s (ops_abort dev fs s).2.
Proof. unfold ops_abort, tiles_with_ops. exec_steps. Qed.
#[local] Hint Resolve exec_ops_abort : vm_frame.

Lemma exec_ops_execute s : exec_frame s (ops_execute dev s).2.
Proof. unfold ops_execute, vm_ops_setup_tile_args, tiles_with_ops. exec_steps. Qed.
#[local] Hint Resolve exec_ops_execute : vm_frame.

Lemma exec_ops_alloc b s : exec_frame s (xe_vma_ops_alloc b s).2.
Proof. unfold xe_vma_ops_alloc. exec_steps. Qed.
#[local] Hint Resolve exec_ops_alloc : vm_frame.

Lemma exec_ops_fini s : exec_frame s (xe_vma_ops_fini s).2.
Proof. unfold xe_vma_ops_fini, xe_vma_svm_prefetch_ops_fini, xe_vma_svm_prefetch_op_fini. exec_steps. Qed.

(** A run that fails, and is not a request with nothing to do, changed no mapping. *)
Lemma exec_bind_run n s e t :
  bind_run dev n s = (Err e, t) -> e <> ENODATA -> exec_frame s t.
Proof.
  intros Hr He. unfold bind_run in Hr. rewrite run_bind in Hr. cbn [gets fst snd] in Hr.
  destruct (bool_decide (vo_list (v_vops s) = [])); [by inversion Hr; subst|].
  unfold bind_res in Hr. rewrite run_bind in Hr.
  pose proof (exec_ops_alloc (1 <? n) s) as Hf. destruct (xe_vma_ops_alloc (1 <? n) s) as [[[]|e1] s1]; cbn [fst snd] in *;
    [|by inversion Hr; subst].
  rewrite run_bind in Hr. pose proof (exec_ops_prefetch s1) as Hf1. apply (transitivity Hf) in Hf1.
  destruct (vm_bind_ioctl_ops_prefetch_ranges s1) as [[[]|e1] s2]; cbn [fst snd] in *; [|by inversion Hr; subst].
  rewrite run_bind in Hr. unfold vm_bind_ioctl_ops_execute in Hr. rewrite (run_bind (ask_z _ _)) in Hr.
  assert (exec_frame s (ask_z retry_rounds [] s2).2) as Hf2 by (etrans; [exact Hf1|exec_steps]).
  revert Hr Hf2. generalize (ask_z retry_rounds [] s2). intros [rounds s3] Hr Hf2. cbn [fst snd] in *.
  rewrite run_bind in Hr.
  pose proof (exec_retry (Z.to_nat rounds) _ s3 exec_lock_and_prep) as Hf3. apply (transitivity Hf2) in Hf3.
  destruct (retry_on_contention _ _ s3) as [[[]|e1] s4]; cbn [fst snd] in *; [|by inversion Hr; subst].
  rewrite run_bind in Hr. pose proof (exec_ops_execute s4) as Hf4. apply (transitivity Hf3) in Hf4.
  destruct (ops_execute dev s4) as [[f|e1] s5]; cbn [fst snd] in *.
  - rewrite run_bind in Hr. by inversion Hr.
  - rewrite run_bind in Hr. unfold when in Hr. destruct (bool_decide (e1 = ENODATA)) eqn:Ee.
    + apply bool_decide_eq_true in Ee as ->. by inversion Hr; subst.
    + by inversion Hr; subst.
Qed.

End Frames.

(** * Creating operations *)

Section Create.
Context `{BindUapi, VmFlags, VmOracle, DrmGpuvm}.
Context (dev : vm_device).
Context `{!LocksSucceed, !VmFlagsLaws, !DrmGpuvmLaws}.
Implicit Types s : xe_vm.

(** A new operation whose MAP flags agree with the kind of the mapping. *)
Definition setup_ok (bo : option Z) (op : xe_vma_op) : Prop :=
  op_new op /\
  (is_Some bo -> test (om_vma_flags op) DRM_GPUVA_SPARSE = false /\
                 test (om_vma_flags op) XE_VMA_SYSTEM_ALLOCATOR = false).

(** Only operations of [os] were filled in. *)
Record ops_setup (bo : option Z) (os : list Z) s t : Prop := {
  su_core : core t = core s;
  su_next : v_next t = v_next s;
  su_out o : o ∉ os -> v_ops t !! o = v_ops s !! o;
  su_ops o op : v_ops s !! o = Some op ->
    exists op', v_ops t !! o = Some op' /\ op_base op' = op_base op /\ (setup_ok bo op -> setup_ok bo op');
}.

#[export] Instance ops_setup_preorder bo os : PreOrder (ops_setup bo os).
Proof.
  split.
  - intros s. split; [done..|]. intros o op Ho. by exists op.
  - intros s1 s2 s3 [C1 N1 U1 O1] [C2 N2 U2 O2]. split; [congruence..| |].
    + intros o Ho. by rewrite U2, U1.
    + intros o op Ho. destruct (O1 o op Ho) as (op1 & Ho1 & Hb1 & Hs1).
      destruct (O2 o op1 Ho1) as (op2 & Ho2 & Hb2 & Hs2). exists op2. split; [done|]. split; [congruence|auto].
Qed.

Lemma setup_quiet bo os s t : quiet s t -> ops_setup bo os s t.
Proof. intros [Qc Qo Qn]. split; [done|done|by rewrite Qo|]. rewrite Qo. intros o op Ho. by exists op. Qed.

Lemma setup_upd bo os o f s :
  o ∈ os -> (forall op, op_base (f op) = op_base op /\ (setup_ok bo op -> setup_ok bo (f op))) ->
  ops_setup bo os s (upd_op o f s).2.
Proof.
  intros Ho Hf. split; [done|done| |].
  - intros o' Ho'. cbn. rewrite lookup_alter_ne; [done|]. by intros ->.
  - intros o' op Ho'. cbn. destruct (decide (o' = o)) as [->|].
    + rewrite lookup_alter_eq, Ho'. exists (f op). split; [done|apply Hf].
    + rewrite lookup_alter_ne by done. by exists op.
Qed.

Lemma setup_bind {A B} bo os (c : ST xe_vm A) (k : A -> ST xe_vm B) s :
  ops_setup bo os s (c s).2 -> (forall a t, ops_setup bo os t (k a t).2) -> ops_setup bo os s (bind c k s).2.
Proof. intros Hc Hk. rewrite run_bind. etrans; [exact Hc|apply Hk]. Qed.

Lemma setup_bind_res {A B} bo os (c : ST xe_vm (res A)) (k : A -> ST xe_vm (res B)) s :
  ops_setup bo os s (c s).2 -> (forall a t, ops_setup bo os t (k a t).2) -> ops_setup bo os s (bind_res c k s).2.
Proof. intros Hc Hk. apply setup_bind; [done|]. intros [a|e] t; [apply Hk|done]. Qed.

Lemma setup_for_each {A} bo os (l : list A) (f : A -> ST xe_vm unit) s :
  (forall a t, a ∈ l -> ops_setup bo os t (f a t).2) -> ops_setup bo os s (for_each l f s).2.
Proof. intros Hf. apply for_each_inv; [|done]. intros a t Ha Ht. etrans; [exact Ht|by apply Hf]. Qed.

(** The flags of a MAP of a buffer object. *)
Lemma map_vma_flags_kind flags f :
  test flags DRM_XE_VM_BIND_FLAG_NULL = false -> test flags DRM_XE_VM_BIND_FLAG_CPU_ADDR_MIRROR = false ->
  test f DRM_GPUVA_SPARSE = false /\ test f XE_VMA_SYSTEM_ALLOCATOR = false ->
  test (map_vma_flags flags f) DRM_GPUVA_SPARSE = false /\
  test (map_vma_flags flags f) XE_VMA_SYSTEM_ALLOCATOR = false.
Proof.
  intros Hn Hm [H1' H2']. unfold map_vma_flags. rewrite Hn, Hm.
  assert (forall g b i, vma_bit_list !! i = Some b -> i ∈ [0; 1; 4]%nat ->
    test g DRM_GPUVA_SPARSE = false /\ test g XE_VMA_SYSTEM_ALLOCATOR = false ->
    test (g ||| BIT b) DRM_GPUVA_SPARSE = false /\ test (g ||| BIT b) XE_VMA_SYSTEM_ALLOCATOR = false) as Hbit.
  { intros g b i Hi Hin [E1 E2]. split; [rewrite <- E1; apply (test_vma_bit g b b_sparse i 3); try done
    |rewrite <- E2; apply (test_vma_bit g b b_system_allocator i 2); try done]; intros ->; set_solver. }
  destruct (test flags DRM_XE_VM_BIND_FLAG_READONLY), (test flags DRM_XE_VM_BIND_FLAG_DUMPABLE),
    (test flags DRM_XE_VM_BIND_FLAG_MADVISE_AUTORESET).
  all: repeat first [apply (Hbit _ b_autoreset 4%nat); [done|set_solver|]
    |apply (Hbit _ b_dumpable 1%nat); [done|set_solver|]|apply (Hbit _ b_read_only 0%nat); [done|set_solver|]]; done.
Qed.

(** A request to map a buffer object is neither NULL nor a mirror. *)
Definition bo_flags_ok (bo : option Z) (flags : Z) : Prop :=
  is_Some bo -> test flags DRM_XE_VM_BIND_FLAG_NULL = false /\
                test flags DRM_XE_VM_BIND_FLAG_CPU_ADDR_MIRROR = false.

Lemma setup_map_spec bo os o flags pat s :
  o ∈ os -> bo_flags_ok bo flags -> ops_setup bo os s (setup_map_op o flags pat s).2.
Proof.
  intros Ho Hf. unfold setup_map_op. apply setup_bind; [done|]. intros inval t.
  apply setup_upd; [done|]. intros op. split; [done|]. intros [Hn Hk]. split; [done|].
  intros Hb. destruct (Hf Hb). by apply map_vma_flags_kind; [..|apply Hk].
Qed.

Lemma setup_collect bo os fuel o v addr re tm dp s :
  o ∈ os -> ops_setup bo os s (collect_ranges fuel o v addr re tm dp s).2.
Proof.
  intros Ho. revert addr s. induction fuel as [|n IH]; intros addr s; cbn [collect_ranges]; [done|].
  apply setup_bind; [apply setup_quiet, quiet_ask|]. intros [[]|e] t.
  - apply setup_bind; [done|]. intros range t1.
    apply setup_bind; [apply setup_quiet, quiet_ask_bool|]. intros valid t2.
    apply setup_bind.
    { destruct valid; [done|]. apply setup_bind_res; [apply setup_quiet, quiet_ask|]. intros _ t3.
      apply setup_bind; [by apply setup_upd|]. intros _ t4.
      apply setup_bind; [apply setup_quiet, quiet_vops|done]. }
    intros [[]|e] t3; [|done].
    apply setup_bind; [apply setup_quiet, quiet_trace; reflexivity|]. intros end_ t4.
    apply setup_bind; [done|]. intros vma_end t5. destruct (_ && _); [apply IH|done].
  - destruct e; try done.
    apply setup_bind; [apply setup_quiet, quiet_trace; reflexivity|]. intros next t1.
    destruct (negb _); [apply IH|done].
Qed.

Lemma setup_mirror_spec bo os o v addr re region s :
  o ∈ os -> ops_setup bo os s (setup_prefetch_mirror dev o v addr re region s).2.
Proof.
  intros Ho. unfold setup_prefetch_mirror. apply setup_bind; [by apply setup_upd|]. intros _ t.
  apply setup_bind.
  { destruct (region =? _); [apply setup_quiet, quiet_trace; reflexivity|].
    destruct (negb _); [apply setup_quiet, quiet_trace; reflexivity|done]. }
  intros dp t1. apply setup_bind; [by apply setup_upd|]. intros _ t2. by apply setup_collect.
Qed.

Lemma setup_ops_spec bo os l addr re flags region pat s :
  l ⊆ os -> bo_flags_ok bo flags -> ops_setup bo os s (setup_ops dev l addr re flags region pat s).2.
Proof.
  intros Hl Hf. revert addr s Hl. induction l as [|o l IH]; intros addr s Hl; cbn [setup_ops]; [done|].
  assert (o ∈ os) as Ho by set_solver. assert (l ⊆ os) as Hl' by set_solver.
  apply setup_bind; [done|]. intros op t. destruct (op_base op); try by apply IH.
  - apply setup_bind; [by apply setup_map_spec|]. intros _ t1. by apply IH.
  - apply setup_bind; [done|]. intros vma t1. destruct (negb _).
    + apply setup_bind; [by apply setup_upd|done].
    + apply setup_bind_res; [by apply setup_mirror_spec|]. intros addr' t2. by apply IH.
Qed.

Lemma ops_free_spec os s :
  core (gpuva_ops_free os s).2 = core s /\ v_next (gpuva_ops_free os s).2 = v_next s /\
  forall o, o ∉ os -> v_ops (gpuva_ops_free os s).2 !! o = v_ops s !! o.
Proof.
  unfold gpuva_ops_free. rewrite run_bind. set (s1 := (event _ _ s).2).
  change (core s) with (core s1). change (v_next s) with (v_next s1). change (v_ops s) with (v_ops s1).
  generalize s1. clear. induction os as [|o os IH]; intros s; cbn [for_each]; [done|]. rewrite run_bind.
  destruct (IH (modify (fun s => set_v_ops (delete o (v_ops s)) s) s).2) as (-> & -> & Hi).
  split; [done|]. split; [done|]. intros o' Ho'. apply not_elem_of_cons in Ho' as [Hne Ho'].
  rewrite Hi by done. cbn. by rewrite lookup_delete_ne.
Qed.

(** ** Allocating them *)

Record ops_allocated (l : list gpuva_op) (os : list Z) s t : Prop := {
  oa_core : core t = core s;
  oa_next : v_next s <= v_next t;
  oa_ids : Forall (fun o => v_next s <= o < v_next t) os;
  oa_nodup : NoDup os;
  oa_old o : o < v_next s -> v_ops t !! o = v_ops s !! o;
  oa_ops : Forall2 (fun o g => v_ops t !! o = Some (new_op g)) os l;
}.

Lemma alloc_ops_spec l s : ops_allocated l (alloc_ops l s).1 s (alloc_ops l s).2.
Proof.
  revert s. induction l as [|g l IH]; intros s; cbn [alloc_ops].
  { split; [done|done|constructor|constructor|done|constructor]. }
  rewrite !run_bind. cbn [gets modify fst snd].
  set (s1 := set_v_next (v_next s + 1) (set_v_ops (<[v_next s := new_op g]> (v_ops s)) s)).
  destruct (IH s1) as [C N I D O F]. cbn [ret fst snd].
  assert (v_next s1 = v_next s + 1) as E1 by done.
  split; [by rewrite C|lia| | | |].
  - constructor; [lia|]. eapply list.Forall_impl; [exact I|]. cbn. lia.
  - constructor; [|done]. intros Hin. rewrite list.Forall_forall in I. specialize (I _ Hin). cbn in I. lia.
  - intros o Ho. rewrite O by lia. cbn. rewrite lookup_insert_ne by lia. done.
  - constructor; [|done]. rewrite O by lia. cbn. apply lookup_insert_eq.
Qed.

(** ** Which operations *)

Lemma gpuvas_lookup s v k :
  gpuvas s !! v = Some k -> exists r x, v_tree s !! v = Some r /\ v_vmas s !! v = Some x /\
    k = {| gm_addr := r.1; gm_range := r.2; gm_obj := va_bo x; gm_offset := va_offset x |}.
Proof.
  unfold gpuvas. rewrite map_lookup_imap. destruct (v_tree s !! v) as [r|]; [|done]. cbn.
  destruct (v_vmas s !! v) as [x|]; [|done]. cbn. intros [= <-]. by exists r, x.
Qed.

(** Mappings that may be requested for [bo]. *)
Definition maps_ok (bo : option Z) (maps : list gpuva_map) : Prop :=
  Forall (fun m => gm_obj m = bo /\ 0 <= gm_range m < 2 ^ 64) maps.

Lemma created_fits bo maps s t g op :
  bind_wf s -> core t = core s -> maps_ok bo maps -> gpuva_op_fits (gpuvas s) maps g ->
  op_base op = g -> setup_ok bo op -> op_fits t op.
Proof.
  intros Hw Hc Hm Hg <- [Hn Hk]. eapply op_fits_quiet; [exact Hc|]. split; [done|].
  unfold gpuva_op_fits in Hg. destruct (op_base op) as [m|p n old|va|va|]; try done.
  - unfold maps_ok in Hm. rewrite list.Forall_forall in Hm. destruct (Hm m Hg) as [-> Hr]. done.
  - destruct Hg as (k & (r & x & Hr & Hx & ->)%gpuvas_lookup & Hp & Hq & Hpq). exists x. split; [done|].
    split; [done|]. destruct (wf_tree_vma _ _ _ Hw Hr) as (x' & Hx' & -> & _).
    assert (x' = x) as -> by congruence. done.
  - destruct Hg as [k (r & x & Hr & _)%gpuvas_lookup]. done.
Qed.

(** The switch over the kinds of request. *)
Lemma switch_spec bo off addr range op flags s :
  exists maps, maps_ok bo maps /\
  let p := ops_create_switch bo off addr range op flags s in
  quiet s p.2 /\ gpuva_ops_fit (gpuvas s) maps p.1.
Proof.
  unfold ops_create_switch.
  assert (forall a b, maps_ok bo [{| gm_addr := a; gm_range := b -64 a; gm_obj := bo; gm_offset := off |}]) as Hmap.
  { intros a b. constructor; [|constructor]. split; [done|]. cbn. apply wrap_range. lia. }
  destruct (op =? DRM_XE_VM_BIND_OP_MAP).
  { destruct (test flags _).
    - rewrite !run_bind. cbn [gets fst snd]. eexists. split; [apply Hmap|]. split; [done|]. apply gpuvm_sm_map_fits.
    - eexists. split; [apply Hmap|]. split; [done|]. apply gpuvm_sm_map_fits. }
  destruct (op =? DRM_XE_VM_BIND_OP_MAP_USERPTR).
  { eexists. split; [apply Hmap|]. split; [done|]. apply gpuvm_sm_map_fits. }
  exists []. split; [constructor|].
  destruct (op =? DRM_XE_VM_BIND_OP_UNMAP); [split; [done|apply gpuvm_sm_unmap_fits]|].
  destruct (op =? DRM_XE_VM_BIND_OP_PREFETCH); [split; [done|apply gpuvm_prefetch_fits]|].
  destruct (op =? DRM_XE_VM_BIND_OP_UNMAP_ALL); [|done].
  unfold bind_res. rewrite run_bind. destruct (ask xe_bo_lock _ s).1; [|done].
  rewrite run_bind. destruct (ask drm_gpuvm_bo_obtain _ _).1; [|done].
  split; [done|apply gpuvm_bo_unmap_fits].
Qed.

Record ops_created (os : list Z) s t : Prop := {
  oc_core : core t = core s;
  oc_next : v_next s <= v_next t;
  oc_ids : Forall (fun o => v_next s <= o < v_next t) os;
  oc_old o : o < v_next s -> v_ops t !! o = v_ops s !! o;
  oc_ready : ops_ready t os;
}.

Lemma target_base op : target op = gpuva_target (op_base op).
Proof. done. Qed.

Lemma created_ready bo maps l os s t1 t :
  bind_wf s -> maps_ok bo maps -> Forall (gpuva_op_fits (gpuvas s) maps) l -> NoDup (omap gpuva_target l) ->
  ops_allocated l os s t1 -> ops_setup bo os t1 t -> ops_ready t os.
Proof.
  intros Hw Hm Hl Ht [C N I D O F] [SC SN SU SO].
  assert (Forall2 (fun o g => exists op, v_ops t !! o = Some op /\ op_base op = g /\ setup_ok bo op) os l) as F'.
  { eapply Forall2_impl; [exact F|]. intros o g Ho. destruct (SO o _ Ho) as (op & Hop & Hb & Hs).
    exists op. split; [done|]. split; [done|]. by apply Hs. }
  split; [done|]. split.
  - assert (omap (fun o => o' ← v_ops t !! o; target o') os = omap gpuva_target l) as ->; [|done].
    clear -F'. induction F' as [|o g os l (op & Ho & Hb & _) _ IH]; [done|]. cbn. rewrite Ho. cbn.
    by rewrite target_base, Hb, IH.
  - clear -F' Hl Hw Hm C SC. induction F' as [|o g os l (op & Ho & Hb & Hs) _ IH]; [constructor|].
    apply list.Forall_cons in Hl as [Hg Hl]. constructor; [|by apply IH].
    exists op. split; [done|]. eapply created_fits; [done| |done|done|done|done]. by rewrite SC.
Qed.

(** Creating the operations of a bind gives operations that fit, or changes nothing. *)
Lemma ops_create_spec bo off addr range op flags region pat s :
  bind_wf s -> bo_flags_ok bo flags ->
  let p := vm_bind_ioctl_ops_create dev bo off addr range op flags region pat s in
  match p.1 with
  | Ok os => ops_created os s p.2
  | Err _ => core p.2 = core s /\ v_next s <= v_next p.2 /\ forall o, o < v_next s -> v_ops p.2 !! o = v_ops s !! o
  end.
Proof.
  intros Hw Hf. cbv zeta. unfold vm_bind_ioctl_ops_create, bind_res. rewrite run_bind.
  destruct (switch_spec bo off addr range op flags s) as (maps & Hm & Hq & Hfit). cbv zeta in Hfit, Hq.
  destruct (ops_create_switch _ _ _ _ _ _ s) as [[l|e] s1]; cbn [fst snd] in *.
  2: { destruct Hq as [Qc Qo Qn]. cbn. rewrite Qc, Qn, Qo. done. }
  destruct (Hfit l eq_refl) as [Hl Ht].
  rewrite run_bind. pose proof (alloc_ops_spec l s1) as Ha. destruct (alloc_ops l s1) as [os t1]. cbn [fst snd] in *.
  assert (ops_allocated l os s t1) as Ha'.
  { destruct Hq as [Qc Qo Qn], Ha as [C N I D O F]. rewrite Qn in *. rewrite Qc in C.
    split; [done|done|done|done| |done]. intros o Ho. by rewrite O, Qo. }
  rewrite run_bind.
  pose proof (setup_ops_spec bo os os addr (addr +64 range) flags region pat t1 ltac:(done) Hf) as Hs.
  destruct (setup_ops _ _ _ _ _ _ _ t1) as [r t2]. cbn [fst snd] in *.
  assert (forall o, o < v_next s -> o ∉ os) as Hnin.
  { intros o Ho Hin. pose proof (oa_ids _ _ _ _ Ha') as I. rewrite list.Forall_forall in I. specialize (I o Hin). cbn in I. lia. }
  destruct r as [[]|e]; cbn [ret fst snd].
  - pose proof (created_ready _ _ _ _ _ _ _ Hw Hm Hl Ht Ha' Hs) as Hr.
    destruct Ha' as [C N I D O F], Hs as [SC SN SU SO].
    split; [by rewrite SC|lia|by rewrite SN| |done].
    intros o Ho. rewrite SU by by apply Hnin. by apply O.
  - rewrite !run_bind. cbn [ret fst snd].
    assert (forall u, (for_each os xe_vma_svm_prefetch_op_fini t2).2 = u -> ops_setup bo os t2 u) as Hfini.
    { intros u <-. apply setup_for_each. intros o t Ho. unfold xe_vma_svm_prefetch_op_fini.
      apply setup_bind; [done|]. intros op' t3. destruct (op_base op'); try done.
      apply setup_bind; [done|]. intros vma t4. unfold when. destruct (xe_vma_is_cpu_addr_mirror vma); [|done].
      apply setup_bind; [apply setup_quiet, quiet_event|]. intros _ t5. by apply setup_upd. }
    specialize (Hfini _ eq_refl). unfold xe_svm_prefetch_gpuva_ops_fini. revert Hfini.
    generalize (for_each os xe_vma_svm_prefetch_op_fini t2).2. intros t3 Hfini.
    assert (core (gpuva_ops_free os t3).2 = core t3 /\ v_next (gpuva_ops_free os t3).2 = v_next t3 /\
      forall o, o ∉ os -> v_ops (gpuva_ops_free os t3).2 !! o = v_ops t3 !! o) as (Fc & Fn & Fo) by apply ops_free_spec.
    destruct Ha' as [C N I D O F], Hs as [SC SN SU SO], Hfini as [TC TN TU TO].
    split; [congruence|]. split; [lia|]. intros o Ho. rewrite Fo, TU, SU by by apply Hnin. by apply O.
Qed.

End Create.

(** * The whole request *)

Section Request.
Context `{BindUapi, VmFlags, VmOracle, DrmGpuvm}.
Context (dev : vm_device).
Context `{!LocksSucceed, !VmFlagsLaws, !DrmGpuvmLaws}.
Implicit Types s : xe_vm.

Definition all_ops (lss : list (option (list Z))) : list Z := concat (default [] <$> lss).

Record chain_done (lss : list (option (list Z))) s t : Prop := {
  ch_wf : bind_wf t;
  ch_next : v_next s <= v_next t;
  ch_ufences : v_ufences t = v_ufences s;
  ch_old o : o < v_next s -> v_ops t !! o = v_ops s !! o;
  ch_ids : Forall (fun o => v_next s <= o < v_next t /\ is_Some (v_ops t !! o)) (all_ops lss);
  ch_undo u s2 : u ⊆ v_ufences s -> core s2 = core (set_v_ufences u t) -> ops_agree (all_ops lss) t s2 ->
    core (vm_bind_ioctl_ops_unwind lss s2).2 = core (set_v_ufences u s) /\
    v_ops (vm_bind_ioctl_ops_unwind lss s2).2 = v_ops s2;
}.

Lemma unwind_cons l lss s :
  vm_bind_ioctl_ops_unwind (l :: lss) s =
    match l with
    | None => ret tt
    | Some os => for_each (reverse os) unwind_op
    end (vm_bind_ioctl_ops_unwind lss s).2.
Proof.
  unfold vm_bind_ioctl_ops_unwind. rewrite reverse_cons, for_each_app. cbn [for_each]. rewrite run_bind.
  by destruct (_ (for_each (reverse lss) _ s).2) as [[] ?].
Qed.

Lemma chain_nil s : bind_wf s -> chain_done [] s s.
Proof. intros Hw. split; [done..|constructor|]. intros u s2 _ Hc _. done. Qed.

(** A bind whose operations were not created. *)
Lemma chain_none s t :
  bind_wf s -> core t = core s -> v_next s <= v_next t -> (forall o, o < v_next s -> v_ops t !! o = v_ops s !! o) ->
  chain_done [None] s t.
Proof.
  intros Hw Hc Hn Ho. split; [by eapply wf_core|done|exact (f_equal v_ufences Hc)|done|constructor|].
  intros u s2 _ Hc2 _. rewrite unwind_cons. cbn. split; [|done]. rewrite Hc2. exact (f_equal (set_v_ufences u) Hc).
Qed.

(** One more bind before the others. *)
Lemma chain_cons os lss s s1 s2 t :
  bind_wf s -> ops_created os s s1 -> list_done os s1 s2 -> chain_done lss s2 t -> chain_done (Some os :: lss) s t.
Proof.
  intros Hw [OC ON OI OO OR] [LW LN LO LS LF LU] [CW CN CF CO CI CU].
  pose proof (f_equal v_ufences OC) as OF. cbn in OF.
  assert (forall o, o ∈ os -> v_next s <= o < v_next s1) as Hid by (by apply list.Forall_forall).
  split; [done|lia|by rewrite CF, LF, OF| | |].
  - intros o Ho. rewrite CO, LO, OO by (lia || intros Hin%Hid; lia). done.
  - unfold all_ops. cbn. apply Forall_app. split.
    + rewrite list.Forall_forall in LS |- *. intros o Hin. pose proof (Hid o Hin). split; [lia|].
      rewrite CO by lia. by apply LS.
    + eapply list.Forall_impl; [exact CI|]. cbn. intros o [? ?]. split; [lia|done].
  - intros u s3 Hu Hc Hag. unfold all_ops in Hag. cbn in Hag. apply Forall_app in Hag as [Hag1 Hag2].
    rewrite unwind_cons. destruct (CU u s3) as [Hc2 Ho2]; [by rewrite LF, OF|done|done|].
    revert Hc2 Ho2. generalize (vm_bind_ioctl_ops_unwind lss s3).2. intros s4 Hc4 Ho4.
    destruct (LU u s4) as [-> ->]; [by rewrite OF|done| |].
    + unfold ops_agree in *. rewrite list.Forall_forall in Hag1 |- *. intros o Hin.
      destruct (Hag1 o Hin) as (op1 & op2 & H1' & H2' & Hv). exists op1, op2. rewrite Ho4.
      split; [|done]. rewrite <- CO; [done|]. pose proof (Hid o Hin). lia.
    + split; [exact (f_equal (set_v_ufences u) OC)|done].
Qed.

(** The binds of a request: a buffer object with NULL or mirror flags is rejected before. *)
Definition binds_ok (binds : list (drm_xe_vm_bind_op * option Z)) : Prop :=
  Forall (fun p => bo_flags_ok p.2 (bop_flags p.1)) binds.

Lemma create_parse_spec binds s :
  bind_wf s -> binds_ok binds -> chain_done (bind_create_parse dev binds s).1.2 s (bind_create_parse dev binds s).2.
Proof.
  intros Hw Hb. revert s Hw. induction Hb as [|[o bo] binds Hf _ IH]; intros s Hw; cbn [bind_create_parse].
  { by apply chain_nil. }
  rewrite run_bind.
  pose proof (ops_create_spec dev bo (bop_obj_offset o) (bop_addr o) (bop_range o) (bop_op o) (bop_flags o)
    (bop_prefetch_mem_region_instance o) (bop_pat_index o) s Hw Hf) as Hc. cbv zeta in Hc.
  destruct (vm_bind_ioctl_ops_create _ _ _ _ _ _ _ _ _ s) as [[os|e] s1]; cbn [fst snd] in *.
  2: { destruct Hc as (Hc & Hn & Ho). by apply chain_none. }
  assert (bind_wf s1) as Hw1 by (eapply wf_core; [done|apply Hc|apply Hc]).
  pose proof (parse_list_spec dev os s1 Hw1 (oc_ready _ _ _ Hc)) as Hl. rewrite run_bind.
  destruct (vm_bind_ioctl_ops_parse dev os s1) as [[[]|e] s2]; cbn [fst snd] in *.
  - specialize (IH s2 (ld_wf _ _ _ Hl)). rewrite run_bind. cbn [ret fst snd]. by eapply chain_cons.
  - eapply chain_cons; [done..|]. apply chain_nil, Hl.
Qed.

Lemma ops_free_core opss s :
  let f os := match os with Some os => gpuva_ops_free os | None => ret tt end in
  core (for_each (reverse opss) f s).2 = core s /\ v_next (for_each (reverse opss) f s).2 = v_next s.
Proof.
  cbv zeta. generalize (reverse opss). intros l. revert s. induction l as [|[os|] l IH]; intros s; cbn [for_each]; [done| |apply IH].
  rewrite run_bind. destruct (IH (gpuva_ops_free os s).2) as [-> ->].
  destruct (ops_free_spec os s) as (-> & -> & _). done.
Qed.

Lemma ops_same_agree l t s2 :
  Forall (fun o => is_Some (v_ops t !! o)) l -> ops_same t s2 -> ops_agree l t s2.
Proof.
  intros Hs Ho. eapply list.Forall_impl; [exact Hs|]. cbn. intros o [op Hop]. specialize (Ho o).
  rewrite Hop in Ho. destruct (v_ops s2 !! o) as [op2|] eqn:E; [|done]. by exists op, op2.
Qed.

Lemma xe_vma_ops_init_quiet q syncs s : quiet s (xe_vma_ops_init q syncs s).2.
Proof. done. Qed.

(** What the end of the request changes is bookkeeping. *)
Lemma bind_request_end opss s :
  let f os := match os with Some os => gpuva_ops_free os | None => ret tt end in
  exists u, u ⊆ v_ufences s /\ core (for_each (reverse opss) f (xe_vma_ops_fini s).2).2 = core (set_v_ufences u s).
Proof.
  cbv zeta. destruct (ops_free_core opss (xe_vma_ops_fini s).2) as [Hc _]. cbv zeta in Hc. rewrite Hc.
  apply exec_ops_fini.
Qed.

(** A request that fails leaves the address space as it was. *)
Lemma request_restores q syncs bind_ops bos s err t :
  bind_wf s -> binds_ok (zip bind_ops bos) ->
  bind_request dev q syncs bind_ops bos s = (err, t) -> must_unwind err = true ->
  exists u, u ⊆ v_ufences s /\ core t = core (set_v_ufences u s).
Proof.
  intros Hw Hb Hreq Hun. unfold bind_request in Hreq. rewrite run_bind in Hreq.
  set (s1 := (xe_vma_ops_init q syncs s).2) in Hreq. rewrite run_bind in Hreq.
  set (s2 := (when _ _ s1).2) in Hreq.
  assert (quiet s s2) as Hq2.
  { etrans; [apply (xe_vma_ops_init_quiet q syncs)|]. apply quiet_when. intros. apply quiet_vops. }
  assert (bind_wf s2) as Hw2 by (eapply wf_core; [done|apply Hq2|rewrite (q_next _ _ Hq2); done]).
  clearbody s2. rewrite run_bind in Hreq.
  pose proof (create_parse_spec (zip bind_ops bos) s2 Hw2 Hb) as Hch.
  destruct (bind_create_parse dev (zip bind_ops bos) s2) as [[r opss] s3]. cbn [fst snd] in *.
  rewrite run_bind in Hreq.
  destruct (match r with Ok _ => bind_run dev (Z.of_nat (length bind_ops)) | Err e => ret (Err e) end s3)
    as [err1 s4] eqn:Erun. cbn [fst snd] in Hreq.
  rewrite !run_bind in Hreq. cbn [ret] in Hreq. injection Hreq as -> Hreq. rewrite Hun in Hreq. unfold when in Hreq.
  assert (exec_frame s3 s4) as Hex.
  { destruct r as [[]|e]; [|by inversion Erun].
    destruct err as [[]|e]; [done|]. eapply exec_bind_run; [exact Erun|].
    cbn in Hun. by apply negb_true_iff, bool_decide_eq_false in Hun. }
  destruct Hch as [CW CN CF CO CI CU], Hex as [(u & Hu & Hc4) Ho4 Hn4].
  destruct (CU u s4) as [Hc5 _]; [by rewrite <- CF|done| |].
  { apply ops_same_agree; [|done]. eapply list.Forall_impl; [exact CI|]. by intros o [_ ?]. }
  destruct (bind_request_end opss (vm_bind_ioctl_ops_unwind opss s4).2) as (u' & Hu' & Hc6). cbv zeta in Hc6.
  rewrite Hreq in Hc6. pose proof (f_equal v_ufences Hc5) as E5. cbn in E5. rewrite E5 in Hu'.
  exists u'. split.
  - etrans; [exact Hu'|]. rewrite CF in Hu. etrans; [exact Hu|].
    pose proof (f_equal v_ufences (q_core _ _ Hq2)) as E. cbn in E. by rewrite E.
  - rewrite Hc6. etrans; [exact (f_equal (set_v_ufences u') Hc5)|]. exact (f_equal (set_v_ufences u') (q_core _ _ Hq2)).
Qed.

(** * The ioctl *)

(** The address space of [t] is the one of [s]; fences of VMAs may be dropped. *)
Definition same_space s t : Prop := exists u, u ⊆ v_ufences s /\ core t = core (set_v_ufences u s).

#[export] Instance same_space_preorder : PreOrder same_space.
Proof.
  split; [intros s; by exists (v_ufences s)|].
  intros s1 s2 s3 (u1 & Hu1 & Hc1) (u2 & Hu2 & Hc2). exists u2.
  pose proof (f_equal v_ufences Hc1) as E. cbn in E. rewrite E in Hu2. split; [by etrans|].
  rewrite Hc2. exact (f_equal (set_v_ufences u2) Hc1).
Qed.

Lemma quiet_space s t : quiet s t -> same_space s t.
Proof. intros [Hc _ _]. by exists (v_ufences s). Qed.

(** Quiet computations, by their structure. *)
Lemma quiet_bind {A B} (c : ST xe_vm A) (k : A -> ST xe_vm B) s :
  quiet s (c s).2 -> (forall a t, quiet t (k a t).2) -> quiet s (bind c k s).2.
Proof. intros Hc Hk. rewrite run_bind. etrans; [exact Hc|apply Hk]. Qed.

Lemma quiet_parse_syncs l s : quiet s (bind_parse_syncs l s).2.
Proof.
  revert s. induction l as [|i l IH]; intros s; cbn [bind_parse_syncs]; [done|].
  apply quiet_bind; [apply quiet_ask|]. intros [[]|e] t; [|done].
  apply quiet_bind; [apply quiet_ask_bool|]. intros u t1. apply quiet_bind; [apply IH|done].
Qed.

(** The failure that is not unwound: nothing was left to execute, and the fence that the syncs should
    signal could not be had.  All calls after that are releases. *)
Definition release_call (e : ext) : Prop := e = xe_sync_entry_cleanup \/ e = xe_exec_queue_put \/ e = queue_destroy_work.
Definition unsignalled (e : errno) t : Prop := exists args tr post,
  v_trace t = post ++ Ev xe_sync_in_fence_get args :: tr /\ answer (Ev xe_sync_in_fence_get args :: tr) = Err e /\
  Forall (fun ev => release_call (ev_call ev)) post.

Lemma unsignalled_after e s t post :
  unsignalled e s -> v_trace t = post ++ v_trace s -> Forall (fun ev => release_call (ev_call ev)) post -> unsignalled e t.
Proof.
  intros (args & tr & p & E & Ha & Hp) Et Hpost. exists args, tr, (post ++ p). rewrite Et, E, app_assoc.
  split; [done|]. split; [done|]. by apply Forall_app.
Qed.

Lemma signal_fences_error q syncs s e t : vm_bind_ioctl_signal_fences q syncs s = (Err e, t) -> unsignalled e t.
Proof.
  unfold vm_bind_ioctl_signal_fences. destruct (bool_decide (syncs = [])); [done|].
  rewrite run_bind. destruct (to_wait_exec_queue q s) as [w s1]. cbn [fst snd]. unfold bind_res. rewrite run_bind.
  unfold ask. rewrite (run_bind (event _ _)). cbn [gets fst snd].
  set (s2 := (event xe_sync_in_fence_get [w] s1).2). assert (E2 : v_trace s2 = Ev xe_sync_in_fence_get [w] :: v_trace s1) by done.
  clearbody s2. destruct (answer (v_trace s2)) as [[]|e'] eqn:Ea; [rewrite !run_bind; done|]. intros [= <- <-].
  exists [w], (v_trace s1), []. rewrite <- E2. done.
Qed.

Lemma sync_cleanup_trace l s :
  exists post, v_trace (for_each l (fun i => event xe_sync_entry_cleanup [i]) s).2 = post ++ v_trace s /\
    Forall (fun ev => release_call (ev_call ev)) post.
Proof.
  revert s. induction l as [|i l IH]; intros s; cbn [for_each]; [by exists []|]. rewrite run_bind.
  destruct (IH (event xe_sync_entry_cleanup [i] s).2) as (post & E & Hp). exists (post ++ [Ev xe_sync_entry_cleanup [i]]).
  rewrite E, <- app_assoc. split; [done|]. apply Forall_app. split; [done|]. constructor; [by left|constructor].
Qed.

Lemma put_bos_trace bs s :
  v_trace (for_each bs (fun b => match b with Some b => xe_bo_put b | None => ret tt end) s).2 = v_trace s.
Proof. revert s. induction bs as [|[b|] bs IH]; intros s; cbn [for_each]; [done| |apply IH]. by rewrite run_bind, IH. Qed.

Lemma vm_put_trace s : exists post, v_trace (xe_vm_put s).2 = post ++ v_trace s /\ Forall (fun ev => release_call (ev_call ev)) post.
Proof.
  unfold xe_vm_put. rewrite !run_bind. cbn [gets fst snd]. destruct (v_refs _ =? 0); cbn; [exists [Ev queue_destroy_work []]|by exists []].
  split; [done|]. constructor; [by right; right|constructor].
Qed.

Lemma with_syncs_restores q n bind_ops bos s e t :
  bind_wf s -> binds_ok (zip bind_ops bos) ->
  bind_with_syncs dev q n bind_ops bos s = (Err e, t) -> same_space s t \/ unsignalled e t.
Proof.
  intros Hw Hb Hr. unfold bind_with_syncs in Hr. rewrite run_bind in Hr.
  pose proof (quiet_parse_syncs (Z.of_nat <$> seq 0 (Z.to_nat n)) s) as Hq.
  destruct (bind_parse_syncs _ s) as [[r syncs] s1]. cbn [fst snd] in *. rewrite run_bind in Hr.
  destruct (match r with Err e => ret (Err e) | Ok _ => _ end s1) as [err s2] eqn:Eb. cbn [fst snd] in Hr.
  rewrite run_bind in Hr.
  destruct err as [[]|e'].
  { rewrite !run_bind in Hr. by inversion Hr. }
  destruct (decide (e' = ENODATA)) as [->|Hne].
  { right. destruct (vm_bind_ioctl_signal_fences q syncs s2) as [r3 s3] eqn:E3. cbn [fst snd] in Hr.
    rewrite run_bind in Hr. cbn [ret] in Hr. injection Hr as -> <-. apply signal_fences_error in E3.
    destruct (sync_cleanup_trace (reverse (sync_ids syncs)) s3) as (post & Ep & Hp). by eapply unsignalled_after. }
  assert (same_space s1 s2) as Hs.
  { destruct r as [[]|e'']; [|by inversion Eb; subst].
    destruct (1 <? _)%nat; [by inversion Eb; subst|]. destruct (bool_decide (bind_ops = [])); [by inversion Eb; subst|].
    eapply request_restores; [|exact Hb|exact Eb|cbn; by rewrite bool_decide_false].
    eapply wf_core; [exact Hw|apply Hq|by rewrite (q_next _ _ Hq)]. }
  replace (match e' with ENODATA => _ | _ => _ end s2) with (Err (A := unit) e', s2) in Hr by by destruct e'.
  cbn [fst snd] in Hr. rewrite run_bind in Hr. injection Hr as _ <-. left.
  etrans; [apply quiet_space, Hq|]. etrans; [exact Hs|].
  apply quiet_space, quiet_for_each. intros. apply quiet_event.
Qed.

(** The objects of the request: each found one is referenced, and put at the end. *)
Fixpoint bos_add (k : Z) (bs : list (option Z)) (m : gmap Z vm_bo) : gmap Z vm_bo :=
  match bs with
  | [] => m
  | Some b :: bs' => alter (fun x => set_vb_refs (vb_refs x + k) x) b (bos_add k bs' m)
  | None :: bs' => bos_add k bs' m
  end.

Lemma refs_add_comm k j b b' (m : gmap Z vm_bo) :
  alter (fun x => set_vb_refs (vb_refs x + k) x) b (alter (fun x => set_vb_refs (vb_refs x + j) x) b' m) =
  alter (fun x => set_vb_refs (vb_refs x + j) x) b' (alter (fun x => set_vb_refs (vb_refs x + k) x) b m).
Proof. apply alter_comm_gen. intros []. unfold set_vb_refs. cbn. f_equal. lia. Qed.

Lemma bos_add_comm k j b bs m :
  bos_add k bs (alter (fun x => set_vb_refs (vb_refs x + j) x) b m) =
  alter (fun x => set_vb_refs (vb_refs x + j) x) b (bos_add k bs m).
Proof. induction bs as [|[b'|] bs IH]; cbn; [done| |done]. by rewrite IH, refs_add_comm. Qed.

Lemma bos_add_cancel bs m : bos_add (-1) bs (bos_add 1 bs m) = m.
Proof.
  revert m. induction bs as [|[b|] bs IH]; intros m; cbn; [done| |apply IH].
  rewrite bos_add_comm, IH, alter_alter_eq. apply alter_id_gen. intros []. unfold set_vb_refs. cbn. f_equal. lia.
Qed.

Lemma lookup_bos_spec xe info l s :
  let p := bind_lookup_bos xe info l s in
  core p.2 = core (set_v_bos (bos_add 1 p.1.2 (v_bos s)) s) /\ v_next p.2 = v_next s /\
  (p.1.1 = Ok tt -> Forall2 (fun o b => is_Some b -> bop_obj o <> 0) l p.1.2).
Proof.
  cbv zeta. revert s. induction l as [|o l IH]; intros s; cbn [bind_lookup_bos]; [done|].
  destruct (bop_obj o =? 0) eqn:Eo.
  - rewrite run_bind. cbn [ret fst snd bos_add]. destruct (IH s) as (-> & -> & Hf). split; [done|]. split; [done|].
    intros Hok. constructor; [by intros []|auto].
  - apply Z.eqb_neq in Eo. rewrite run_bind. set (s1 := (ask drm_gem_object_lookup [bop_obj o] s).2).
    destruct (ask drm_gem_object_lookup [bop_obj o] s).1; [|done].
    rewrite run_bind. cbn [gets fst snd]. generalize (answer_z (v_trace s1)). intros b. rewrite run_bind.
    set (s2 := (xe_bo_get b s1).2).
    destruct (xe_vm_bind_ioctl_validate_bo _ _ _ _ _ _ _ _); [|done].
    rewrite run_bind. cbn [ret fst snd bos_add]. destruct (IH s2) as (-> & -> & Hf). split; [|split; [done|]].
    + change (v_bos s2) with (alter (fun x => set_vb_refs (vb_refs x + 1) x) b (v_bos s)).
      rewrite bos_add_comm. done.
    + intros Hok. constructor; [done|auto].
Qed.

Lemma put_bos_spec bs s :
  let f b := match b with Some b => xe_bo_put b | None => ret tt end in
  core (for_each bs f s).2 = core (set_v_bos (bos_add (-1) bs (v_bos s)) s).
Proof.
  cbv zeta. revert s. induction bs as [|[b|] bs IH]; intros s; cbn [for_each]; [done| |apply IH].
  rewrite run_bind, IH. cbn [bos_add].
  change (v_bos (xe_bo_put b s).2) with (alter (fun x => set_vb_refs (vb_refs x + -1) x) b (v_bos s)).
  rewrite bos_add_comm. done.
Qed.

(** A request that passed the argument checks. *)
Lemma checked_flags_ok xe fm o o' :
  check_bind_op xe fm o = Ok o' -> bop_obj o' <> 0 ->
  test (bop_flags o') DRM_XE_VM_BIND_FLAG_NULL = false /\ test (bop_flags o') DRM_XE_VM_BIND_FLAG_CPU_ADDR_MIRROR = false.
Proof.
  unfold check_bind_op. cbn zeta. repeat (case_match; [done|]). intros [= <-] Ho. cbn in *.
  match goal with E : op_rejected _ _ _ _ _ = false |- _ => unfold op_rejected in E; cbn zeta in E end.
  repeat match goal with E : (_ || _)%bool = false |- _ => apply orb_false_iff in E as [? ?] end.
  unfold nz in *. apply Z.eqb_neq in Ho. rewrite Ho in *. cbn [negb andb] in *.
  repeat match goal with E : (_ || _)%bool = false |- _ => apply orb_false_iff in E as [? ?] end. done.
Qed.

Lemma checked_binds_ok xe fm l l' bos :
  check_bind_ops xe fm l = Ok l' -> Forall2 (fun o b => is_Some b -> bop_obj o <> 0) l' bos -> binds_ok (zip l' bos).
Proof.
  revert l' bos. induction l as [|o l IH]; intros l' bos; cbn [check_bind_ops].
  { intros [= <-]. inversion 1. constructor. }
  destruct (check_bind_op xe fm o) as [o'|e] eqn:Eo; [|done].
  destruct (check_bind_ops xe fm l) as [l1|e]; [|done]. intros [= <-] [b [bs' (Hb & Hbs & ->)]]%Forall2_cons_inv_l. cbn.
  constructor; [|by eapply IH]. intros Hs. by eapply checked_flags_ok; [|apply Hb].
Qed.

Lemma wf_set_bos s m : bind_wf s -> bind_wf (set_v_bos m s).
Proof. by intros []. Qed.
Lemma wf_set_refs s n : bind_wf s -> bind_wf (set_v_refs n s).
Proof. by intros []. Qed.

Lemma locked_restores xe info q n fm l bind_ops s e t :
  bind_wf s -> check_bind_ops xe fm l = Ok bind_ops ->
  bind_locked dev xe info q n bind_ops s = (Err e, t) -> same_space s t \/ unsignalled e t.
Proof.
  intros Hw Hck Hr. unfold bind_locked in Hr. rewrite !(run_bind (gets _)) in Hr. cbn [gets fst snd] in Hr.
  destruct (xe_vm_is_closed_or_banned s); [left; by inversion Hr; subst|].
  destruct (negb (bind_ranges_ok _ _)); [left; by inversion Hr; subst|].
  rewrite run_bind in Hr.
  match type of Hr with context [(?c s).1] => assert (quiet s (c s).2) as Hq1 by (destruct (bool_decide (bind_ops = [])); [reflexivity|apply quiet_ask]);
    revert Hq1 Hr; generalize (c s) end. intros [r1 s1] Hq1 Hr. cbn [fst snd] in *. rewrite run_bind in Hr.
  match type of Hr with context [(?c s1).1] => assert (quiet s1 (c s1).2) as Hq2 by (destruct (bool_decide (bind_ops = []) || negb (is_ok r1)); [reflexivity|apply quiet_ask]);
    revert Hq2 Hr; generalize (c s1) end. intros [r2 s2] Hq2 Hr. cbn [fst snd] in *.
  apply (transitivity Hq1) in Hq2. clear Hq1.
  destruct (negb (is_ok r1) || negb (is_ok r2)); [left; by inversion Hr; subst; apply quiet_space|].
  rewrite run_bind in Hr. pose proof (lookup_bos_spec xe info bind_ops s2) as (Hc3 & Hn3 & Hf3).
  destruct (bind_lookup_bos xe info bind_ops s2) as [[r bs] s3]. cbn [fst snd] in *. rewrite run_bind in Hr.
  destruct (match r with Ok _ => _ | Err e => ret (Err e) end s3) as [err s4] eqn:E4. cbn [fst snd] in Hr.
  rewrite run_bind in Hr. injection Hr as -> Hr.
  assert (bind_wf s3) as Hw3.
  { eapply (wf_core (set_v_bos _ s2)); [apply wf_set_bos|exact Hc3|by rewrite Hn3].
    eapply wf_core; [exact Hw|apply Hq2|by rewrite (q_next _ _ Hq2)]. }
  assert (same_space s3 s4 \/ unsignalled e s4) as [(u & Hu & Hc4)|Hus].
  { destruct r as [[]|e']; [|left; by inversion E4]. rewrite run_bind in E4.
    match type of E4 with context [(?c s3).1] => assert (quiet s3 (c s3).2) as Hq5 by (destruct (n =? 0); [reflexivity|apply quiet_ask]);
      revert Hq5 E4; generalize (c s3) end. intros [r5 s5] Hq5 E4. cbn [fst snd] in *.
    destruct (negb (is_ok r5)); [left; by inversion E4; subst; apply quiet_space|].
    eapply with_syncs_restores in E4 as [Hs|Hus]; [left; etrans; [apply quiet_space, Hq5|exact Hs]|by right| |by eapply checked_binds_ok; [|apply Hf3]].
    eapply wf_core; [exact Hw3|apply Hq5|by rewrite (q_next _ _ Hq5)]. }
  2: { right. eapply (unsignalled_after _ _ _ []); [exact Hus| |constructor]. rewrite <- Hr. apply put_bos_trace. }
  left.
  pose proof (put_bos_spec bs s4) as Hc5. cbv zeta in Hc5. rewrite Hr in Hc5.
  pose proof (f_equal v_ufences Hc3) as Euf. cbn in Euf. rewrite Euf in Hu.
  pose proof (f_equal v_ufences (q_core _ _ Hq2)) as Euf2. cbn in Euf2. rewrite Euf2 in Hu.
  exists u. split; [done|]. rewrite Hc5.
  pose proof (f_equal v_bos Hc4) as Eb4. pose proof (f_equal v_bos Hc3) as Eb3. cbn in Eb4, Eb3.
  rewrite Eb4, Eb3, bos_add_cancel.
  transitivity (set_v_bos (v_bos s2) (core s4)); [done|]. rewrite Hc4.
  transitivity (set_v_bos (v_bos s2) (set_v_ufences u (core s3))); [done|]. rewrite Hc3.
  transitivity (set_v_ufences u (core s2)); [done|]. by rewrite (q_core _ _ Hq2).
Qed.

Lemma bind_queue_quiet id s : quiet s (bind_queue id s).2.
Proof.
  unfold bind_queue. destruct (id =? 0); [done|]. apply quiet_bind; [apply quiet_ask|]. intros [[]|e] t; [|done].
  apply quiet_bind; [done|]. intros q t1. apply quiet_bind; [apply quiet_ask_bool|]. intros b t2.
  apply quiet_bind; [by destruct b|]. intros c t3. destruct (b && c); [done|]. apply quiet_bind; [apply quiet_event|done].
Qed.

(** Between taking and dropping the reference of the lookup. *)
Lemma get_put_space s s1 s2 :
  core s1 = core (set_v_refs (v_refs s + 1) s) -> same_space s1 s2 -> same_space s (xe_vm_put s2).2.
Proof.
  intros Hc1 (u & Hu & Hc2). pose proof (f_equal v_ufences Hc1) as E. cbn in E. rewrite E in Hu.
  exists u. split; [done|]. pose proof (trace_bind_frame _ _ (xe_vm_put_frame s2)) as Hp. unfold bind_frame in Hp.
  rewrite <- Hp. pose proof (f_equal v_refs Hc2) as Er2. pose proof (f_equal v_refs Hc1) as Er1. cbn in Er2, Er1.
  rewrite Er2, Er1. transitivity (set_v_refs (v_refs s + 1 - 1) (core s2)); [done|]. rewrite Hc2.
  transitivity (set_v_refs (v_refs s + 1 - 1) (set_v_ufences u (core s1))); [done|]. rewrite Hc1.
  transitivity (set_v_refs (v_refs s + 1 - 1) (set_v_ufences u (core s))); [done|].
  replace (v_refs s + 1 - 1) with (v_refs s) by lia. done.
Qed.

Lemma ioctl_restores xe info args kv s e t :
  bind_wf s -> xe_vm_bind_ioctl dev xe info args kv s = (Err e, t) -> same_space s t \/ unsignalled e t.
Proof.
  intros Hw Hr. unfold xe_vm_bind_ioctl in Hr. rewrite run_bind in Hr.
  set (s0 := (ask_bool xe_vm_lookup [ba_vm_id args] s).2) in Hr.
  assert (quiet s s0) as Hq0 by apply quiet_ask_bool.
  destruct (negb _); [left; by inversion Hr; subst; apply quiet_space|].
  rewrite (run_bind xe_vm_get), (run_bind (gets _)) in Hr. cbn [gets fst snd] in Hr.
  set (s1 := (xe_vm_get s0).2) in Hr. rewrite run_bind in Hr.
  destruct (match vm_bind_ioctl_check_args _ _ _ _ with Ok _ => _ | Err e => ret (Err e) end s1) as [err s2] eqn:E2.
  cbn [fst snd] in Hr. rewrite run_bind in Hr. injection Hr as -> <-.
  assert (bind_wf s1) as Hw1.
  { apply (wf_set_refs s0 (v_refs s0 + 1)). eapply wf_core; [exact Hw|apply Hq0|by rewrite (q_next _ _ Hq0)]. }
  assert (same_space s1 s2 \/ unsignalled e s2) as [Hs|Hus].
  2: { left. etrans; [apply quiet_space, Hq0|]. by apply (get_put_space s0 s1). }
  2: { right. destruct (vm_put_trace s2) as (post & Ep & Hp). by eapply unsignalled_after. }
  clearbody s1. clear s0 Hq0 Hw s.
  destruct (vm_bind_ioctl_check_args _ _ _ _) as [bind_ops|e'] eqn:Eck; [|left; by inversion E2].
  assert (exists l, check_bind_ops xe (xe_vm_in_fault_mode s1) l = Ok bind_ops) as [l Hck].
  { unfold vm_bind_ioctl_check_args in Eck. repeat (case_match; [done|]). case_match; [|done]. by eexists. }
  unfold bind_res in E2. rewrite run_bind in E2. pose proof (bind_queue_quiet (ba_exec_queue_id args) s1) as Hq.
  destruct (bind_queue _ s1) as [[q|e'] s3]; cbn [fst snd] in *; [|left; by inversion E2; subst; apply quiet_space].
  rewrite (run_bind (event _ _)), (run_bind (ask _ _)) in E2.
  set (s4 := (ask down_write_killable [] (event xe_svm_flush [] s3).2).2) in E2.
  assert (quiet s1 s4) as Hq4 by (etrans; [exact Hq|]; etrans; [apply quiet_event|apply quiet_ask]).
  rewrite run_bind in E2.
  destruct (match (ask down_write_killable [] _).1 with Ok _ => _ | Err e => ret (Err e) end s4) as [err s5] eqn:E5.
  cbn [fst snd] in E2. rewrite run_bind in E2. injection E2 as -> <-.
  assert (same_space s4 s5 \/ unsignalled e s5) as [Hs5|Hus].
  { destruct (ask down_write_killable [] _).1; [|left; by inversion E5].
    eapply locked_restores; [|exact Hck|exact E5]. eapply wf_core; [exact Hw1|apply Hq4|by rewrite (q_next _ _ Hq4)]. }
  - left. etrans; [apply quiet_space, Hq4|]. etrans; [exact Hs5|]. apply quiet_space. destruct q; [apply quiet_event|done].
  - right. destruct q as [q|]; [|exact Hus]. eapply (unsignalled_after _ _ _ [_]); [exact Hus|reflexivity|]. constructor; [by right; left|constructor].
Qed.

End Request.
