(* ===== verification/VmInst.v ===== *)
(** A concrete address-space manager, flag layout, device and environment for the VM
    files: they show that the interfaces can be met, and the witnesses run on them. *)
From stdpp Require Import base numbers list gmap.
From S2P Require Import Prelude.
From S2P Require Import VmFault.
From S2P Require Import VmArgs.
From S2P Require Import VmState.

(** * Flags *)

#[export] Instance example_VmFlags : VmFlags := {|
  b_read_only := 8; b_dumpable := 9; b_system_allocator := 10; b_sparse := 1; b_autoreset := 11;
  b_atomic_pte := 12; b_destroyed := 13; b_pte_4k := 14; b_pte_2m := 15; b_pte_1g := 16;
  b_pte_64k := 17; b_pte_compact := 18;
  b_committed := 0; b_prev_committed := 1; b_next_committed := 2;
  b_ops_svm_prefetch := 0; b_ops_madvise := 1; b_ops_array := 2; b_ops_skip_tlb_wait := 3;
  b_ops_allow_svm_unmap := 4;
  b_vm_64k := 0; b_vm_lr_mode := 1; b_vm_migration := 2; b_vm_scratch := 3; b_vm_fault_mode := 4;
  b_vm_banned := 5; b_vm_gsc := 8; b_vm_no_overcommit := 9;
  XE_VM_FLAG_TILE_ID := fun f => Z.land (Z.shiftr f 6) 3;
  XE_MAX_TILES_PER_DEVICE := 2; XE_MADV_PURGEABLE_WILLNEED := 0;
  DRM_XE_ATOMIC_UNDEFINED := 0; DRM_XE_ATOMIC_DEVICE := 1; DRM_XE_ATOMIC_GLOBAL := 2;
  DRM_XE_ATOMIC_CPU := 3; DRM_XE_PREFERRED_LOC_DEFAULT_DEVICE := 0; DRM_XE_MIGRATE_ALL_PAGES := 0;
  num_tlb_inval := 2; XE_PL_SYSTEM := 0; XE_PL_TT := 1; XE_PL_VRAM0 := 2; XE_PL_VRAM1 := 3;
  mem_type_is_vram := fun m => (2 <=? m) && (m <=? 3);
|}.

#[export] Instance example_VmFlagsLaws : VmFlagsLaws.
Proof. split; apply (bool_decide_unpack _); vm_compute; exact I. Qed.

(** * A reference manager *)

Definition ref_overlaps (a n : Z) (p : Z * gpuva_map) : Prop :=
  ranges_overlap (gm_addr p.2, gm_range p.2) (a, n) = true.

#[export] Instance ref_overlaps_dec a n p : Decision (ref_overlaps a n p).
Proof. unfold ref_overlaps. apply _. Defined.
#[export] Instance tree_free_dec t r : Decision (tree_free t r).
Proof. unfold tree_free. apply _. Defined.

(** Cut the range out of a mapping. *)
Definition ref_split (a n : Z) (p : Z * gpuva_map) : gpuva_op :=
  let '(v, k) := p in
  let e := gm_addr k + gm_range k in
  let prev := if gm_addr k <? a then
      Some {| gm_addr := gm_addr k; gm_range := a - gm_addr k; gm_obj := gm_obj k; gm_offset := gm_offset k |}
    else None in
  let next := if a + n <? e then
      Some {| gm_addr := a + n; gm_range := e - (a + n); gm_obj := gm_obj k;
              gm_offset := gm_offset k + (a + n - gm_addr k) |}
    else None in
  match prev, next with
  | None, None => GpuvaUnmap v
  | _, _ => GpuvaRemap prev next v
  end.

Definition ref_cut (g : gpuva_set) (a n : Z) : list gpuva_op :=
  ref_split a n <$> filter (fun p => ref_overlaps a n p /\ 0 <= n) (map_to_list g).

#[export] Instance ref_DrmGpuvm : DrmGpuvm := {|
  drm_gpuva_insert t id r := if decide (tree_free t r) then Ok (<[id := r]> t) else Err EINVAL;
  drm_gpuva_find_first t a n :=
    fst <$> head (filter (fun p => ranges_overlap p.2 (a, n) = true) (map_to_list t));
  drm_gpuvm_for_each_va t := (map_to_list t).*1;
  drm_gpuvm_for_each_va_range t a b :=
    (filter (fun p => ranges_overlap p.2 (a, b - a) = true) (map_to_list t)).*1;
  drm_gpuvm_sm_map_ops_create g m := Ok (ref_cut g (gm_addr m) (gm_range m) ++ [GpuvaMap m]);
  drm_gpuvm_madvise_ops_create g m := Ok (ref_cut g (gm_addr m) (gm_range m) ++ [GpuvaMap m]);
  drm_gpuvm_sm_unmap_ops_create g a n := Ok (ref_cut g a n);
  drm_gpuvm_prefetch_ops_create g a n :=
    Ok ((fun p => GpuvaPrefetch p.1) <$> filter (ref_overlaps a n) (map_to_list g));
  drm_gpuvm_bo_unmap_ops_create g b :=
    Ok ((fun p => GpuvaUnmap p.1) <$> filter (fun p => gm_obj p.2 = Some b) (map_to_list g));
|}.

Lemma NoDup_filter_fst {A B} (P : A * B -> Prop) `{!forall x, Decision (P x)} (l : list (A * B)) :
  NoDup l.*1 -> NoDup (filter P l).*1.
Proof.
  induction l as [|[a b] l IH]; [done|]. cbn. intros [Hn Hd]%list.NoDup_cons.
  destruct (decide (P (a, b))); [|auto]. cbn. apply list.NoDup_cons. split; [|auto].
  intros Hin. apply Hn. apply list_elem_of_fmap in Hin as ([a' b'] & -> & [_ Hin]%list_elem_of_filter).
  apply list_elem_of_fmap. by exists (a', b').
Qed.

Lemma ref_split_target a n p : gpuva_target (ref_split a n p) = Some p.1.
Proof. destruct p as [v k]. unfold ref_split. by destruct (_ <? a), (a + n <? _). Qed.

Lemma ref_split_fits g maps a n v k :
  g !! v = Some k -> ref_overlaps a n (v, k) -> 0 <= n -> gpuva_op_fits g maps (ref_split a n (v, k)).
Proof.
  unfold ref_overlaps, ranges_overlap. cbn. intros Hg Ho Hn. apply andb_true_iff in Ho as [H1%Z.ltb_lt H2%Z.ltb_lt].
  unfold ref_split. destruct (Z.ltb_spec (gm_addr k) a), (Z.ltb_spec (a + n) (gm_addr k + gm_range k)); cbn.
  4: by exists k.
  all: exists k; split; [done|]; unfold gpuva_side_fits; cbn; repeat split; try done; lia.
Qed.

Lemma ref_cut_fits g maps a n :
  Forall (gpuva_op_fits g maps) (ref_cut g a n) /\ NoDup (omap gpuva_target (ref_cut g a n)).
Proof.
  unfold ref_cut. split.
  - apply Forall_fmap, list.Forall_forall. intros [v k] [[Ho Hn] Hin%elem_of_map_to_list]%list_elem_of_filter.
    by apply ref_split_fits.
  - assert (forall l : list (Z * gpuva_map), omap gpuva_target (ref_split a n <$> l) = l.*1) as ->.
    { induction l as [|p l IH]; [done|]. cbn. by rewrite ref_split_target, IH. }
    apply NoDup_filter_fst, NoDup_fst_map_to_list.
Qed.

Lemma ref_map_fits g m :
  gpuva_ops_fit g [m] (Ok (ref_cut g (gm_addr m) (gm_range m) ++ [GpuvaMap m])).
Proof.
  intros l [= <-]. destruct (ref_cut_fits g [m] (gm_addr m) (gm_range m)) as [Hf Hn]. split.
  - apply Forall_app. split; [done|]. constructor; [|constructor]. cbn. set_solver.
  - rewrite omap_app. cbn. by rewrite app_nil_r.
Qed.

Lemma head_filter {A} (P : A -> Prop) `{!forall x, Decision (P x)} (l : list A) x :
  head (filter P l) = Some x -> x ∈ l /\ P x.
Proof.
  intros Hh. assert (x ∈ filter P l) as [? ?]%list_elem_of_filter; [|done].
  destruct (filter P l); [done|]. injection Hh as ->. by left.
Qed.

#[export] Instance ref_DrmGpuvmLaws : DrmGpuvmLaws.
Proof.
  split; cbn.
  - intros t id r Hf. by rewrite decide_True.
  - intros t id r t'. destruct (decide _); [|done]. by intros [= <-].
  - intros t a n id. destruct (head _) as [[i r]|] eqn:E; cbn; [|done]. intros [= <-].
    apply head_filter in E as [Hin Hp]. apply elem_of_map_to_list in Hin. by exists r.
  - intros t a n. destruct (filter _ _) as [|p l] eqn:E; cbn; [|done]. intros _ id r Hr.
    destruct (ranges_overlap r (a, n)) eqn:Eo; [|done]. exfalso.
    assert ((id, r) ∈ filter (fun p => ranges_overlap p.2 (a, n) = true) (map_to_list t)) as Hin.
    { apply list_elem_of_filter. split; [done|]. by apply elem_of_map_to_list. }
    rewrite E in Hin. by apply not_elem_of_nil in Hin.
  - intros t. split; [apply NoDup_fst_map_to_list|]. intros id. rewrite list_elem_of_fmap. split.
    + intros ([i r] & -> & Hin%elem_of_map_to_list). by exists r.
    + intros [r Hr]. exists (id, r). split; [done|]. by apply elem_of_map_to_list.
  - intros t a b. split; [apply NoDup_filter_fst, NoDup_fst_map_to_list|]. intros id. rewrite list_elem_of_fmap. split.
    + intros ([i r] & -> & [Hp Hin%elem_of_map_to_list]%list_elem_of_filter). by exists r.
    + intros (r & Hr & Hp). exists (id, r). split; [done|]. apply list_elem_of_filter. split; [done|].
      by apply elem_of_map_to_list.
  - apply ref_map_fits.
  - apply ref_map_fits.
  - intros g a n l [= <-]. apply ref_cut_fits.
  - intros g a n l [= <-]. split.
    + apply Forall_fmap, list.Forall_forall. intros [v k] [_ Hin%elem_of_map_to_list]%list_elem_of_filter. by exists k.
    + assert (forall l : list (Z * gpuva_map), omap gpuva_target ((fun p => GpuvaPrefetch p.1) <$> l) = []) as ->.
      { induction l as [|p l IH]; done. }
      constructor.
  - intros g b l [= <-]. split.
    + apply Forall_fmap, list.Forall_forall. intros [v k] [_ Hin%elem_of_map_to_list]%list_elem_of_filter. by exists k.
    + assert (forall l : list (Z * gpuva_map), omap gpuva_target ((fun p => GpuvaUnmap p.1) <$> l) = l.*1) as ->.
      { induction l as [|p l IH]; [done|]. cbn. by rewrite IH. }
      apply NoDup_filter_fst, NoDup_fst_map_to_list.
Qed.

(** * An example VM *)

Definition example_vm_device : vm_device := {|
  dv_tiles := [0]; dv_has_atomic_pte := true; dv_is_dgfx := true; dv_need64k := false; dv_va_bits := 48;
  dv_max_level := 3; dv_has_asid := true; dv_has_usm := true; dv_needs_scratch := false;
  dv_vf_migration := false; dv_has_ctx_tlb_inval := false; dv_device_atomics_on_smem := false;
  dv_wa_22014953428 := false; dv_gts := [0] |}.

Definition example_bo : vm_bo := {|
  vb_size := 64 * PAGE; vb_vm := false; vb_purged := false; vb_dontneed := false; vb_protected := false;
  vb_cpu_caching := 1; vb_mem_type := 2; vb_placements := [2; 1]; vb_atomic_access := 0; vb_refs := 2;
  vb_vma_count := 1; vb_willneed := 1 |}.

(** A VMA of [n] pages at page [a]. *)
Definition example_vma (a n flags : Z) (bo : option Z) : xe_vma := {|
  va_addr := a * PAGE; va_range := n * PAGE; va_flags := flags; va_bo := bo; va_offset := 0;
  va_tile_mask := 1; va_tile_present := 1; va_tile_invalidated := 0; va_attr := zero_attr |}.

(** A VM with object 7 mapped at pages 16 to 23 (VMA 1), and a fence on the mapping. *)
Definition example_vm : xe_vm := {|
  v_flags := 0; v_size := 2 ^ 48; v_refs := 1; v_vmas := {[1 := example_vma 16 8 0 (Some 7)]};
  v_ufences := {[1 := 5]}; v_ops := ∅; v_next := 2;
  v_tree := {[1 := (16 * PAGE, 8 * PAGE)]}; v_last_fault := None; v_rebind_list := []; v_pending := [];
  v_bos := {[7 := example_bo]}; v_pagemaps := ∅; v_vops := no_vops; v_queues := []; v_num_queues := 0;
  v_lr := ∅; v_fences := ∅; v_deactivated := false; v_pt_root := {[0 := 3]}; v_scratch := ∅;
  v_bind_q := {[0 := 100]}; v_asid := 1; v_faults := empty_faults; v_xef := true;
  v_batch_inval := false; v_freed := false; v_trace := [] |}.

(** An environment in which the calls for which [fails] holds fail with [err], every
    question is answered by [yes] and every number is [num]. *)
Definition example_oracle (fails : list vm_event -> bool) (err : errno) (yes : ext -> bool) (num : ext -> Z)
    : VmOracle := {|
  answer tr := if fails tr then Err err else Ok tt;
  answer_bool tr := match tr with Ev e _ :: _ => yes e | [] => false end;
  answer_z tr := match tr with Ev e _ :: _ => num e | [] => 0 end |}.

(** How often a call was made. *)
Definition calls (e : ext) (tr : list vm_event) : nat := length (filter (fun x => ev_call x = e) tr).

(** The newest event is the [n]th call of [e]. *)
Definition nth_call (e : ext) (n : nat) (tr : list vm_event) : bool :=
  match tr with Ev x _ :: _ => bool_decide (x = e) && (calls e tr =? n)%nat | [] => false end.
