(* ===== verification/VmBindThms.v ===== *)
(** The theorems on bind requests. *)
From stdpp Require Import base numbers list gmap.
From S2P Require Import Prelude.
From S2P Require Import VmArgs.
From S2P Require Import VmState.
From S2P Require Import Vma.
From S2P Require Import VmBind.
From S2P Require Import VmaLemmas.
From S2P Require Import VmBindLemmas.
From S2P Require Import VmExec.
From S2P Require Import VmBindReq.
From S2P Require Import VmInst.

Section VmBindThms.
Context `{BindUapi, VmFlags, VmOracle, DrmGpuvm}.
Context (dev : vm_device).
Implicit Types s : xe_vm.

(** * The fences of an execution *)

Lemma last_fences_length q l s : length (last_fences q l s).1 = length l.
Proof. revert s. induction l as [|i l IH]; intros s; cbn [last_fences]; [done|]. rewrite !run_bind. cbn. by rewrite IH. Qed.

Lemma fence_count_eq skip :
  fence_count dev skip = Z.of_nat (length (dv_tiles dev)) * (1 + (if skip then 0 else Z.of_nat (length tlb_invals))).
Proof.
  unfold fence_count. set (k := if skip then 0 else _).
  assert (forall l n, foldl (fun n (_ : Z) => n + 1 + k) n l = n + Z.of_nat (length l) * (1 + k)) as E.
  { induction l as [|a l IH]; intros n; cbn [foldl length]; [lia|]. rewrite IH. lia. }
  rewrite E. lia.
Qed.

(** The flags of the request do not change while the tiles run. *)
Lemma run_tile_vops id s : v_vops (run_tile id s).2 = v_vops s.
Proof.
  unfold run_tile. rewrite run_bind. cbn [gets fst snd]. destruct (_ =? 0); [done|].
  unfold bind_res. rewrite run_bind. by destruct (ask _ _ s).1.
Qed.
Lemma last_fences_vops q l s : v_vops (last_fences q l s).2 = v_vops s.
Proof. revert s. induction l as [|i l IH]; intros s; cbn [last_fences]; [done|]. rewrite !run_bind. cbn [ret snd]. by rewrite IH. Qed.

Lemma run_tiles_length tiles fs s fences t :
  run_tiles tiles fs s = ((Ok tt, fences), t) ->
  Z.of_nat (length fences) = Z.of_nat (length fs) + Z.of_nat (length tiles) *
    (1 + (if test (vo_flags (v_vops s)) XE_VMA_OPS_FLAG_SKIP_TLB_WAIT then 0 else Z.of_nat (length tlb_invals))).
Proof.
  revert fs s. induction tiles as [|id tiles IH]; intros fs s; cbn [run_tiles].
  { intros [= <- <-]. cbn [length]. lia. }
  rewrite !run_bind. cbn [gets fst snd]. pose proof (run_tile_vops id s) as Ev.
  destruct (run_tile id s) as [[f|e] s1]; cbn [fst snd] in *; [|done].
  destruct (test (vo_flags (v_vops s)) _) eqn:Et.
  - intros Hr. apply IH in Hr. rewrite Ev, Et in Hr. rewrite Hr, length_app. cbn. lia.
  - rewrite run_bind. pose proof (last_fences_vops (default 0 (vo_tile_q (v_vops s) !! id)) tlb_invals s1) as Ev2.
    pose proof (last_fences_length (default 0 (vo_tile_q (v_vops s) !! id)) tlb_invals s1) as El.
    destruct (last_fences _ _ s1) as [more s2]. cbn [fst snd] in *.
    intros Hr. apply IH in Hr. rewrite Ev2, Ev, Et in Hr. rewrite Hr, length_app. cbn. lia.
Qed.

(** The state of the trace grows. *)
Definition grows s t : Prop := exists l, v_trace t = l ++ v_trace s.

#[export] Instance grows_preorder : PreOrder grows.
Proof.
  split; [intros s; by exists []|]. intros s1 s2 s3 [l1 E1] [l2 E2]. exists (l2 ++ l1). by rewrite E2, E1, app_assoc.
Qed.

Lemma grows_fini l s : grows s (for_each l (fun id => event xe_pt_update_ops_fini [id]) s).2.
Proof. apply for_each_inv; [|done]. intros a t _ Ht. etrans; [exact Ht|]. by exists [Ev xe_pt_update_ops_fini [a]]. Qed.

End VmBindThms.

(** * Claims *)

Section Claims.
Context `{BindUapi, VmFlags, VmOracle, DrmGpuvm}.
Context (dev : vm_device).
Implicit Types s : xe_vm.


(** [ops_execute] fills the fence array exactly: when it succeeds, the array it
    initialises has as many fences as were counted before the tiles ran, one per tile
    and, unless the wait is skipped, one per TLB invalidation of each tile. *)
Theorem ops_execute_fences s f t :
  ops_execute dev s = (Ok f, t) ->
  exists fences, Z.of_nat (length fences) =
      fence_count dev (test (vo_flags (v_vops s)) XE_VMA_OPS_FLAG_SKIP_TLB_WAIT) /\
    Ev dma_fence_array_init (Z.of_nat (length fences) :: fences) ∈ v_trace t.
Proof.
  unfold ops_execute. rewrite run_bind.
  assert (forall tiles q n s, vo_flags (v_vops (setup_tile_args tiles q n s).2) = vo_flags (v_vops s)) as Hset.
  { clear. induction tiles as [|id tiles IH]; intros q n s; cbn [setup_tile_args]; [done|].
    rewrite run_bind. cbn [gets fst snd]. destruct (vo_tile_q (v_vops s) !! id), q; [apply IH|apply IH| |].
    - rewrite !run_bind. destruct (_ && _); [rewrite run_bind|]; by rewrite IH.
    - rewrite !run_bind. by rewrite IH. }
  unfold vm_ops_setup_tile_args. rewrite run_bind. cbn [gets fst snd].
  pose proof (Hset (dv_tiles dev) (vo_q (v_vops s)) 0 s) as Ef. destruct (setup_tile_args _ _ _ s) as [n s1].
  cbn [fst snd] in *. destruct (n =? 0); [done|]. rewrite run_bind. cbn [gets fst snd]. rewrite Ef.
  set (nf := fence_count dev _). rewrite run_bind. set (s2 := (ask kmalloc [nf] s1).2).
  destruct (negb _); [done|]. rewrite run_bind. set (s3 := (ask kmalloc [nf] s2).2).
  destruct (negb _); [by rewrite run_bind|]. rewrite run_bind. cbn [tiles_with_ops gets fst snd].
  set (work := filter _ _). rewrite run_bind.
  assert (v_vops (for_err work (fun id => ask xe_pt_update_ops_prepare [id]) s3).2 = v_vops s1) as Ev.
  { apply (for_err_inv (fun u => v_vops u = v_vops s1)); [|done]. by intros a u _ <-. }
  destruct (for_err work _ s3) as [[[]|e] s4]; cbn [fst snd] in *; [|by rewrite run_bind].
  rewrite run_bind. destruct (run_tiles (dv_tiles dev) [] s4) as [[[[]|e] fences] s5] eqn:Er; cbn [fst snd];
    [|by rewrite run_bind].
  apply run_tiles_length in Er. rewrite Ev, Ef in Er. cbn [length] in Er.
  rewrite !run_bind. cbn [ret fst snd]. intros [= _ <-]. exists fences.
  assert (Z.of_nat (length fences) = nf) as El by (subst nf; rewrite fence_count_eq; lia).
  split; [done|]. rewrite El.
  match goal with |- _ ∈ v_trace (for_each work _ ?u).2 => destruct (grows_fini work u) as [l ->] end.
  apply elem_of_app. right. left.
Qed.

End Claims.

(** * Witnesses *)



(** The sixth allocation, of the page-table operations, fails. *)
Definition example_alloc_fails : VmOracle :=
  example_oracle (nth_call kmalloc 6) ENOMEM (fun e => bool_decide (e = xe_vm_lookup)) (fun _ => 7).


#[local] Instance example_alloc_fails_locks : LocksSucceed (H0 := example_alloc_fails).
Proof. by intros args tr. Qed.

Lemma run_result {A} (p : A * xe_vm) a : p.1 = a -> p = (a, p.2).
Proof. intros <-. by destruct p. Qed.


(** A request with one page-table operation on the only tile. *)
Definition example_pending : xe_vm := set_v_vops (set_vo_num_ops {[0 := 1]} no_vops) example_vm.

Lemma ops_execute_fences_witness :
  exists fences, Z.of_nat (length fences) =
      fence_count example_vm_device (test (vo_flags (v_vops example_pending)) XE_VMA_OPS_FLAG_SKIP_TLB_WAIT) /\
    Ev dma_fence_array_init (Z.of_nat (length fences) :: fences) ∈
      v_trace (ops_execute (H1 := example_alloc_fails) example_vm_device example_pending).2.
Proof.
  apply (ops_execute_fences (H1 := example_alloc_fails) example_vm_device example_pending 7).
  apply run_result. vm_compute. reflexivity.
Defined.

(** * Failures that are not unwound *)

(** A mirror VMA at pages 64 to 71, and a request that maps object 7 at page 100 and
    prefetches the mirror. *)
Definition example_mirror_vm : xe_vm :=
  set_v_vmas {[2 := example_vma 64 8 1024 None]} (set_v_tree {[2 := (64 * PAGE, 8 * PAGE)]}
    (set_v_ufences ∅ (set_v_next 3 example_vm))).

Definition example_map_100 : drm_xe_vm_bind_op := {|
  bop_extensions := 0; bop_obj := 7; bop_pat_index := 3; bop_obj_offset := 0;
  bop_range := PAGE; bop_addr := 100 * PAGE; bop_op := 0; bop_flags := 0;
  bop_prefetch_mem_region_instance := 0 |}.
Definition example_prefetch_64 : drm_xe_vm_bind_op := {|
  bop_extensions := 0; bop_obj := 0; bop_pat_index := 3; bop_obj_offset := 0;
  bop_range := 8 * PAGE; bop_addr := 64 * PAGE; bop_op := 4; bop_flags := 0;
  bop_prefetch_mem_region_instance := 1 |}.
Definition example_prefetch_args : drm_xe_vm_bind := {|
  ba_extensions := 0; ba_vm_id := 1; ba_exec_queue_id := 0; ba_pad := 0; ba_num_binds := 2;
  ba_bind := example_map_100; ba_vector_of_binds := Some [example_map_100; example_prefetch_64];
  ba_pad2 := 0; ba_num_syncs := 0; ba_syncs := 0; ba_reserved := (0, 0) |}.

(** Memory for the pages cannot be allocated in VRAM. *)
Definition example_vram_full : VmOracle :=
  example_oracle (nth_call xe_svm_alloc_vram 1) ENOMEM
    (fun e => bool_decide (e = xe_vm_lookup) || bool_decide (e = xe_svm_range_needs_migrate_to_vram))
    (fun e => if decide (e = xe_svm_range_end) then 2 ^ 40 else 7).

Definition example_prefetch_run : res unit * xe_vm :=
  xe_vm_bind_ioctl (H1 := example_vram_full) example_vm_device example_device (fun _ => example_bind_bo)
    example_prefetch_args true example_mirror_vm.

(** The mapping of page 100, with its identity, when there is one. *)
Definition mapped_at (p : Z) (s : xe_vm) : list Z :=
  (filter (fun e => e.2 = (p * PAGE, PAGE)) (map_to_list (v_tree s))).*1.

(** A request of a MAP and an SVM PREFETCH whose migration to VRAM fails: the
    ioctl reports success and the MAP stays in the address space, but no page-table
    update was ever run for it and its VMA is bound on no tile. *)
Theorem prefetch_failure_keeps_map :
  example_prefetch_run.1 = Ok tt /\
  mapped_at 100 example_mirror_vm = [] /\
  (exists v, mapped_at 100 example_prefetch_run.2 = [v] /\
     va_tile_present (get_vma v example_prefetch_run.2) = 0) /\
  calls xe_pt_update_ops_run (v_trace example_prefetch_run.2) = 0%nat.
Proof.
  split; [vm_compute; reflexivity|]. split; [vm_compute; reflexivity|].
  split; [|vm_compute; reflexivity]. eexists. split; vm_compute; reflexivity.
Qed.

(** The second VMA of the request cannot be allocated. *)
Definition example_map_fails : VmOracle :=
  example_oracle (nth_call kmalloc 2) ENOMEM (fun _ => false) (fun _ => 7).

Definition example_kernel_run : res Z * xe_vm :=
  xe_vm_bind_kernel_bo (H1 := example_map_fails) example_vm_device 7 None (18 * PAGE) 3 example_vm.

(** [xe_vm_bind_kernel_bo] over an existing mapping: when a later operation cannot
    be parsed it returns the error without unwinding, so the mapping that was there
    before (VMA 1) is gone from the address space, and the operations are not freed. *)
Theorem bind_kernel_bo_skips_unwind :
  example_kernel_run.1 = Err ENOMEM /\
  v_tree example_vm !! 1 = Some (16 * PAGE, 8 * PAGE) /\
  v_tree example_kernel_run.2 !! 1 = None /\
  calls drm_gpuva_ops_free (v_trace example_kernel_run.2) = 0%nat /\
  v_ops example_kernel_run.2 <> ∅.
Proof. split_and!; [vm_compute; reflexivity..|]. intros E. apply (f_equal map_to_list) in E. vm_compute in E. done. Qed.
