(* ===== verification/StateWp.v ===== *)
(** Weakest preconditions for the state-passing programs of [Prelude]: a program is a
    total function, so [wp c Q s] says what its result and final state satisfy, and the
    rules below run it symbolically. *)
From stdpp Require Import base numbers list.
From S2P Require Import Prelude.

Definition wp {S A} (c : ST S A) (Q : A -> S -> Prop) (s : S) : Prop := Q (c s).1 (c s).2.

Section Rules.
Context {S : Type}.
Implicit Types s : S.

Lemma wp_run {A} (c : ST S A) (Q : A -> S -> Prop) s : wp c Q s -> Q (c s).1 (c s).2.
Proof. done. Qed.

Lemma wp_ret {A} (a : A) (Q : A -> S -> Prop) s : Q a s -> wp (ret a) Q s.
Proof. done. Qed.

Lemma wp_gets {A} (f : S -> A) (Q : A -> S -> Prop) s : Q (f s) s -> wp (gets f) Q s.
Proof. done. Qed.

Lemma wp_modify (f : S -> S) (Q : unit -> S -> Prop) s : Q tt (f s) -> wp (modify f) Q s.
Proof. done. Qed.

Lemma wp_bind {A B} (c : ST S A) (k : A -> ST S B) (Q : B -> S -> Prop) s :
  wp c (fun a => wp (k a) Q) s -> wp (bind c k) Q s.
Proof. unfold wp. by rewrite run_bind. Qed.

Lemma wp_mono {A} (c : ST S A) (Q R : A -> S -> Prop) s :
  wp c Q s -> (forall a s', Q a s' -> R a s') -> wp c R s.
Proof. unfold wp. auto. Qed.

Lemma wp_if {A} (b : bool) (c d : ST S A) (Q : A -> S -> Prop) s :
  (b = true -> wp c Q s) -> (b = false -> wp d Q s) -> wp (if b then c else d) Q s.
Proof. destruct b; auto. Qed.

Lemma wp_when (b : bool) (c : ST S unit) (Q : unit -> S -> Prop) s :
  (b = true -> wp c Q s) -> (b = false -> Q tt s) -> wp (when b c) Q s.
Proof. intros H1 H2. destruct b; [by apply H1|by apply H2]. Qed.

(** A loop keeps what each of its iterations keeps. *)
Lemma wp_for_each {A} (P : S -> Prop) (l : list A) (f : A -> ST S unit) (Q : unit -> S -> Prop) s :
  P s -> (forall a s', a ∈ l -> P s' -> wp (f a) (fun _ => P) s') ->
  (forall s', P s' -> Q tt s') -> wp (for_each l f) Q s.
Proof.
  intros Hs Hf HQ. unfold wp. destruct (for_each l f s) as [[] s'] eqn:E. apply HQ.
  change s' with ((tt, s').2). rewrite <- E. by apply for_each_inv.
Qed.
End Rules.

(** One step of symbolic execution; conditions become hypotheses. *)
Ltac wp_step :=
  lazymatch goal with
  | |- wp (bind _ _) _ _ => apply wp_bind
  | |- wp (ret _) _ _ => apply wp_ret
  | |- wp (gets _) _ _ => apply wp_gets
  | |- wp (modify _) _ _ => apply wp_modify
  | |- wp (if _ then _ else _) _ _ => apply wp_if; intros ?Hcond
  | |- wp (when _ _) _ _ => apply wp_when; intros ?Hcond
  end; cbv beta zeta.
Ltac wp_steps := repeat wp_step.

(** Evaluate the powers of two that bound machine words. *)
Ltac eval_pows :=
  change (2 ^ 16) with 65536 in *; change (2 ^ 20) with 1048576 in *;
  change (2 ^ 32) with 4294967296 in *; change (2 ^ 64) with 18446744073709551616 in *.

(** Case analysis on the condition that a hypothesis tests first. *)
Tactic Notation "case_if_in" hyp(H) "as" ident(E) :=
  match type of H with (if ?b then _ else _) = _ => destruct b eqn:E end.
