(* ===== verification/XeFirmware.v ===== *)
(** The firmware header parser of [Mellow/XeFirmware.cpp]: the versions, offsets and
    sizes that the GuC transport and the firmware loader rely on. *)
From stdpp Require Import base numbers list.
From S2P Require Import Prelude.

(** * Data *)

Inductive FirmwareError :=
  | None_ | NullInput | TruncatedHeader | HeaderArithmetic | EmptyPayload
  | TruncatedPayload | UnsupportedRelease.

Record FirmwareVersion := { major : Z; minor : Z; patch : Z }.

(** [FirmwareVersion::packed]. *)
Definition packed (v : FirmwareVersion) : Z :=
  Z.shiftl (major v) 16 ||| Z.shiftl (minor v) 8 ||| patch v.

Record FirmwareInfo := {
  fi_release : FirmwareVersion;
  fi_submission : FirmwareVersion;
  ucodeOffset : Z;
  ucodeBytes : Z;
  rsaOffset : Z;
  rsaBytes : Z;
  minimumBytes : Z;
  privateDataBytes : Z;
  moduleVendor : Z;
  headerVersion : Z;
  declaredDeviceId : Z;
  buildType : Z;
  securityVersion : Z;
  deviceInfoValid : bool;
  securityInfoValid : bool;
  belowRecommended : bool;
}.

Definition no_version : FirmwareVersion := {| major := 0; minor := 0; patch := 0 |}.

Definition no_info : FirmwareInfo := {|
  fi_release := no_version; fi_submission := no_version; ucodeOffset := 0; ucodeBytes := 0;
  rsaOffset := 0; rsaBytes := 0; minimumBytes := 0; privateDataBytes := 0; moduleVendor := 0;
  headerVersion := 0; declaredDeviceId := 0; buildType := 0; securityVersion := 0;
  deviceInfoValid := false; securityInfoValid := false; belowRecommended := false |}.

Definition gucMinimumRelease : Z := 0x461D02.
Definition gucRecommendedRelease : Z := 0x463500.

(** * Parsing

    The image is a list of bytes; a read past its end is [None], so that a result
    shows that no such read happens. *)

Definition le32 (data : list Z) (i : nat) : option Z :=
  b0 ← data !! i;
  b1 ← data !! (i + 1)%nat;
  b2 ← data !! (i + 2)%nat;
  b3 ← data !! (i + 3)%nat;
  Some (b0 ||| Z.shiftl b1 8 ||| Z.shiftl b2 16 ||| Z.shiftl b3 24).

Definition version (value : Z) : FirmwareVersion := {|
  major := wrap 8 (Z.shiftr value 16); minor := wrap 8 (Z.shiftr value 8);
  patch := wrap 8 value |}.

(** [parseGuCCss] of a non-null pointer; [None] is a read outside the buffer. *)
Definition parse_image (data : list Z) : option (FirmwareError * FirmwareInfo) :=
  let length := Z.of_nat (length data) in
  if length <? 128 then Some (TruncatedHeader, no_info) else
  headerDw ← le32 data 4; totalDw ← le32 data 24;
  keyDw ← le32 data 28; modulusDw ← le32 data 32; exponentDw ← le32 data 36;
  if negb (headerDw =? wrap 64 (32 + keyDw + modulusDw + exponentDw)) || (totalDw <? headerDw)
  then Some (HeaderArithmetic, no_info) else
  let ucode := wrap 64 ((totalDw -64 headerDw) * 4) in
  let rsa := wrap 64 (keyDw * 4) in
  if (ucode =? 0) || (rsa =? 0) then Some (EmptyPayload, no_info) else
  let required := wrap 64 (128 + ucode + rsa) in
  if length <? required then Some (TruncatedPayload, no_info) else
  r ← le32 data 64;
  let release := version r in
  if negb (major release =? 70) || (packed release <? gucMinimumRelease)
  then Some (UnsupportedRelease, no_info) else
  submission ← le32 data 68; privateData ← le32 data 120;
  vendor ← le32 data 16; hversion ← le32 data 8;
  headerInfo ← le32 data 116; kernelInfo ← le32 data 124;
  Some (None_, {|
    fi_release := release; fi_submission := version submission;
    ucodeOffset := 128; ucodeBytes := ucode; rsaOffset := 128 +64 ucode; rsaBytes := rsa;
    minimumBytes := required; privateDataBytes := privateData; moduleVendor := vendor;
    headerVersion := hversion; declaredDeviceId := wrap 16 (Z.shiftr kernelInfo 16);
    buildType := Z.land (Z.shiftr kernelInfo 2) 3; securityVersion := wrap 8 headerInfo;
    deviceInfoValid := test kernelInfo 1; securityInfoValid := test headerInfo 0x80000000;
    belowRecommended := packed release <? gucRecommendedRelease |}).

Definition parseGuCCss (data : option (list Z)) : option (FirmwareError * FirmwareInfo) :=
  match data with
  | None => Some (NullInput, no_info)
  | Some data => parse_image data
  end.

(** * Lemmas *)

Definition bytes (data : list Z) : Prop := Forall (word 8) data.

Lemma word_shiftl8 n x : 0 <= n -> word 8 x -> word (8 + n) (Z.shiftl x n).
Proof.
  unfold word. intros Hn Hx. rewrite Z.shiftl_mul_pow2, Z.pow_add_r by lia.
  change (2 ^ 8) with 256 in *. pose proof (Z.pow_pos_nonneg 2 n ltac:(lia) Hn). nia.
Qed.

Lemma le32_some data i :
  bytes data -> (i + 4 <= length data)%nat -> exists v, le32 data i = Some v /\ word 32 v.
Proof.
  intros Hb Hi. unfold le32.
  destruct (lookup_lt_is_Some_2 data i ltac:(lia)) as [b0 H0].
  destruct (lookup_lt_is_Some_2 data (i + 1) ltac:(lia)) as [b1 H1].
  destruct (lookup_lt_is_Some_2 data (i + 2) ltac:(lia)) as [b2 H2].
  destruct (lookup_lt_is_Some_2 data (i + 3) ltac:(lia)) as [b3 H3].
  rewrite H0, H1, H2, H3. cbn.
  pose proof (Forall_lookup_1 _ _ _ _ Hb H0). pose proof (Forall_lookup_1 _ _ _ _ Hb H1).
  pose proof (Forall_lookup_1 _ _ _ _ Hb H2). pose proof (Forall_lookup_1 _ _ _ _ Hb H3).
  eexists. split; [done|]. repeat apply word_lor; try lia.
  - eapply word_le; [|done]; lia.
  - eapply word_le; [|by apply word_shiftl8]; lia.
  - eapply word_le; [|by apply word_shiftl8]; lia.
  - eapply word_le; [|by apply word_shiftl8]; lia.
Qed.

(** What a parsed header says of the image it came from. *)
Record info_fits (data : list Z) (info : FirmwareInfo) : Prop := {
  fit_ucode : ucodeOffset info = 128 /\ 0 < ucodeBytes info;
  fit_rsa : rsaOffset info = 128 + ucodeBytes info /\ 0 < rsaBytes info;
  fit_end : rsaOffset info + rsaBytes info = minimumBytes info /\
    minimumBytes info <= Z.of_nat (length data);
  fit_words : (4 | ucodeBytes info) /\ (4 | rsaBytes info);
  fit_release : major (fi_release info) = 70 /\ gucMinimumRelease <= packed (fi_release info);
  fit_recommended : belowRecommended info = true <-> packed (fi_release info) < gucRecommendedRelease;
}.

(** One step of the parser: the next word it reads is there. *)
Ltac read_word :=
  match goal with
  | Hb : bytes ?d |- exists e info, mbind _ (le32 ?d ?i) = _ /\ _ =>
      let v := fresh "v" in let E := fresh "E" in let W := fresh "W" in
      destruct (le32_some d i Hb ltac:(lia)) as (v & E & W); rewrite E; cbn [mbind option_bind]; cbv zeta
  end.

(** Case analysis on the next check; a failing check is an error with cleared metadata. *)
Ltac next_check H :=
  match goal with
  | |- exists e info, (if ?b then _ else _) = _ /\ _ =>
      destruct b eqn:H; [do 2 eexists; split; [done|by right]|]
  end.

(** [C19] [parseGuCCss] on any image, at any length: it always returns, reads no byte
    outside the image, and either reports an error with cleared metadata, or describes
    a microcode and an RSA section that are non-empty, adjacent, start after the
    128-byte header and end within the image, of a supported release; no
    64-bit computation of a size wraps. *)
Theorem parseGuCCss_sound (data : list Z) :
  bytes data ->
  exists e info, parseGuCCss (Some data) = Some (e, info) /\
    ((e = None_ /\ info_fits data info) \/ (e <> None_ /\ info = no_info)).
Proof.
  intros Hb. unfold parseGuCCss, parse_image. cbv zeta.
  destruct (Z.ltb_spec (Z.of_nat (length data)) 128); [do 2 eexists; split; [done|by right]|].
  do 5 read_word. unfold word in *. change (2 ^ 32) with 4294967296 in *.
  next_check Ha.
  apply orb_false_iff in Ha as [Hh Ht]. rewrite negb_false_iff, Z.eqb_eq in Hh.
  apply Z.ltb_ge in Ht. rewrite wrap_small in Hh by lia.
  rewrite sub64_small, !wrap_small by (rewrite ?sub64_small; lia).
  next_check Hz.
  apply orb_false_iff in Hz as [Hu Hr]. apply Z.eqb_neq in Hu, Hr.
  next_check Hl. apply Z.ltb_ge in Hl.
  read_word. next_check Hv.
  apply orb_false_iff in Hv as [Hmaj Hmin]. rewrite negb_false_iff, Z.eqb_eq in Hmaj.
  apply Z.ltb_ge in Hmin. do 6 read_word.
  do 2 eexists; split; [done|]. left. split; [done|].
  split; cbn -[packed version]; rewrite ?add64_small by lia;
    (split || idtac); try lia; try (apply Z.divide_factor_r); by rewrite Z.ltb_lt.
Qed.

(** A minimal image of the recommended release: two microcode words, one RSA word. *)
Definition word_bytes (v : Z) : list Z :=
  [wrap 8 v; wrap 8 (Z.shiftr v 8); wrap 8 (Z.shiftr v 16); wrap 8 (Z.shiftr v 24)].

Definition example_image : list Z :=
  mjoin (word_bytes <$> ([6; 33; 0; 0; 0; 0; 35; 1; 0; 0] ++ replicate 6 0 ++
    [0x463500; 0x011a00] ++ replicate 14 0 ++ [0; 0; 0])).

Lemma parseGuCCss_sound_witness :
  exists info, parseGuCCss (Some example_image) = Some (None_, info) /\ info_fits example_image info.
Proof.
  destruct (parseGuCCss_sound example_image) as (e & info & H & [[-> ?]|[Hn ->]]).
  - apply (bool_decide_unpack (Forall (word 8) example_image)). vm_compute. exact I.
  - by exists info.
  - exfalso. revert H. vm_compute. congruence.
Defined.
