(* ===== verification/GucTransport.v ===== *)
(** The GuC command transport of [Mellow/XeGuCTransport.{hpp,cpp}]: the action encoders,
    the CT rings in memory shared with the GuC, the table of pending requests and its
    response credits.  The proofs about it are in [GucTransportInv], [GucTransportQueue]
    and [GucTransportThms]; the MMIO mailbox is in [GucMailbox]. *)
From stdpp Require Import base numbers list.
From S2P Require Import Prelude.
From S2P Require Import XeFirmware.

Notation "a +32 b" := (wrap 32 (a + b)) (at level 50, left associativity) : word_scope.
Notation "a -32 b" := (wrap 32 (a - b)) (at level 50, left associativity) : word_scope.

Module XeGuC.

(** * Data *)

Inductive Status :=
  | Ok | Invalid | Unavailable | Busy | Empty | Corrupt | IoFailure | Timeout
  | Retry | Rejected | UnknownCookie | Exhausted | PublishedUnknown | StaleEpoch.

#[export] Instance Status_eq_dec : EqDecision Status.
Proof. solve_decision. Defined.

Definition isOk (s : Status) : bool := match s with Ok => true | _ => false end.

Lemma isOk_true s : isOk s = true <-> s = Ok.
Proof. by destruct s. Qed.
Lemma isOk_false s : isOk s = false <-> s <> Ok.
Proof. by destruct s. Qed.

Definition maxHxgWords : nat := 255.
Definition maxPending : nat := 32.
Definition requiredSubmissionAbi : Z := 0x011a00.

(** Pointers are addresses; 0 is the null pointer. *)
Record Ring := {
  descriptor : Z;
  words : Z;
  count : Z;
  descriptorGgtt : Z;
  bufferGgtt : Z;
}.

Record Action := { a_words : list Z; a_count : Z }.

(** [a.words[i]] of the array of twelve. *)
Definition aw (a : Action) (i : nat) : Z := default 0 (a_words a !! i).

Record Cookie := { c_epoch : Z; c_fence : Z }.

#[export] Instance Cookie_eq_dec : EqDecision Cookie.
Proof. solve_decision. Defined.

Inductive ReplyState :=
  | RPending | RBusy | RSuccess | RFailure | RRetry | RTimedOut | RSentUnconfirmed.

#[export] Instance ReplyState_eq_dec : EqDecision ReplyState.
Proof. solve_decision. Defined.

Record Reply := {
  cookie : Cookie;
  rstate : ReplyState;
  hxg : list Z;
  rcount : Z;
  late : bool;
  creditsHeld : bool;
}.

Record Message := { m_fence : Z; m_hxg : list Z; m_count : Z }.

Definition no_cookie : Cookie := {| c_epoch := 0; c_fence := 0 |}.
Definition no_reply : Reply := {|
  cookie := no_cookie; rstate := RPending; hxg := replicate maxHxgWords 0; rcount := 0;
  late := false; creditsHeld := false |}.
Definition no_message : Message := {|
  m_fence := 0; m_hxg := replicate maxHxgWords 0; m_count := 0 |}.

Record Pending := {
  reply : Reply;
  deadline : Z;
  action : Z;
  context : Z;
  mode : Z;
  reservation : Z;
  used : bool;
  terminalReceived : bool;
}.

Definition no_pending : Pending := {|
  reply := no_reply; deadline := 0; action := 0; context := 0; mode := 0; reservation := 0;
  used := false; terminalReceived := false |}.

Definition set_cookie v (s : Reply) : Reply :=
  {| cookie := v; rstate := rstate s; hxg := hxg s; rcount := rcount s; late := late s; creditsHeld := creditsHeld s |}.
Definition set_rstate v (s : Reply) : Reply :=
  {| cookie := cookie s; rstate := v; hxg := hxg s; rcount := rcount s; late := late s; creditsHeld := creditsHeld s |}.
Definition set_hxg v (s : Reply) : Reply :=
  {| cookie := cookie s; rstate := rstate s; hxg := v; rcount := rcount s; late := late s; creditsHeld := creditsHeld s |}.
Definition set_rcount v (s : Reply) : Reply :=
  {| cookie := cookie s; rstate := rstate s; hxg := hxg s; rcount := v; late := late s; creditsHeld := creditsHeld s |}.
Definition set_late v (s : Reply) : Reply :=
  {| cookie := cookie s; rstate := rstate s; hxg := hxg s; rcount := rcount s; late := v; creditsHeld := creditsHeld s |}.
Definition set_creditsHeld v (s : Reply) : Reply :=
  {| cookie := cookie s; rstate := rstate s; hxg := hxg s; rcount := rcount s; late := late s; creditsHeld := v |}.
Definition set_reply v (s : Pending) : Pending :=
  {| reply := v; deadline := deadline s; action := action s; context := context s; mode := mode s; reservation := reservation s; used := used s; terminalReceived := terminalReceived s |}.
Definition set_deadline v (s : Pending) : Pending :=
  {| reply := reply s; deadline := v; action := action s; context := context s; mode := mode s; reservation := reservation s; used := used s; terminalReceived := terminalReceived s |}.
Definition set_action v (s : Pending) : Pending :=
  {| reply := reply s; deadline := deadline s; action := v; context := context s; mode := mode s; reservation := reservation s; used := used s; terminalReceived := terminalReceived s |}.
Definition set_context v (s : Pending) : Pending :=
  {| reply := reply s; deadline := deadline s; action := action s; context := v; mode := mode s; reservation := reservation s; used := used s; terminalReceived := terminalReceived s |}.
Definition set_mode v (s : Pending) : Pending :=
  {| reply := reply s; deadline := deadline s; action := action s; context := context s; mode := v; reservation := reservation s; used := used s; terminalReceived := terminalReceived s |}.
Definition set_reservation v (s : Pending) : Pending :=
  {| reply := reply s; deadline := deadline s; action := action s; context := context s; mode := mode s; reservation := v; used := used s; terminalReceived := terminalReceived s |}.
Definition set_used v (s : Pending) : Pending :=
  {| reply := reply s; deadline := deadline s; action := action s; context := context s; mode := mode s; reservation := reservation s; used := v; terminalReceived := terminalReceived s |}.
Definition set_terminalReceived v (s : Pending) : Pending :=
  {| reply := reply s; deadline := deadline s; action := action s; context := context s; mode := mode s; reservation := reservation s; used := used s; terminalReceived := v |}.

(** * Actions *)

Definition statusAuthenticatedAndReady (s : Z) : bool :=
  negb (s =? U32_MAX) && (Z.land s 0xc0000000 =? 0x80000000) &&
  (Z.land s 0x0000ff00 =? 0x0000f000) && (Z.land s 0x000000fe =? 0xec) &&
  negb (test s 0x00020001).

Definition idValid (id : Z) : bool := id <? 65535.

(** [a = {}; a.count = n; ...] with the leading words given. *)
Definition action_of (n : Z) (ws : list Z) : Action :=
  {| a_words := ws ++ replicate (12 - length ws) 0; a_count := n |}.
Definition no_action : Action := action_of 0 [].

Definition encodeRegister (id cls mask lrc : Z) : Status * Action :=
  if negb (idValid id) || (negb (cls =? 0) && negb (cls =? 4)) || (mask =? 0) || (lrc =? 0)
  then (Invalid, no_action)
  else (Ok, action_of 12 [0x4502; 1; id; cls; mask; 0; 0; 0; 0; 0;
                          wrap 32 lrc; wrap 32 (Z.shiftr lrc 32)]).

Definition encodeSchedule (id : Z) : Status * Action :=
  if negb (idValid id) then (Invalid, no_action) else (Ok, action_of 2 [0x1000; id]).

Definition encodeMode (id : Z) (enable : bool) : Status * Action :=
  match encodeSchedule id with
  | (Ok, _) => (Ok, action_of 3 [0x1001; id; if enable then 1 else 0])
  | (_, a) => (Invalid, a)
  end.

Definition encodeDeregister (id : Z) : Status * Action :=
  match encodeSchedule id with
  | (Ok, _) => (Ok, action_of 2 [0x4503; id])
  | (_, a) => (Invalid, a)
  end.

Definition encodeAuthenticateHuC (address : Z) : Status * Action :=
  if (address =? 0) || test address 3 then (Invalid, no_action)
  else (Ok, action_of 2 [0x4000; address]).

Definition validateAction (a : Action) : Status :=
  if (a_count a =? 0) || (12 <? a_count a) then Invalid else
  if aw a 0 =? 0x4502 then
    if negb (a_count a =? 12) || negb (aw a 1 =? 1) || negb (idValid (aw a 2)) ||
       (negb (aw a 3 =? 0) && negb (aw a 3 =? 4)) || (aw a 4 =? 0) ||
       ((aw a 10 =? 0) && (aw a 11 =? 0)) then Invalid
    else if existsb (fun i => negb (aw a i =? 0)) (seq 5 5) then Invalid else Ok
  else if (aw a 0 =? 0x1000) || (aw a 0 =? 0x4503) then
    if (a_count a =? 2) && idValid (aw a 1) then Ok else Invalid
  else if aw a 0 =? 0x1001 then
    if (a_count a =? 3) && idValid (aw a 1) && (aw a 2 <=? 1) then Ok else Invalid
  else if aw a 0 =? 0x4000 then
    if (a_count a =? 2) && negb (aw a 1 =? 0) && negb (test (aw a 1) 3) then Ok else Invalid
  else Invalid.

(** * Rings *)

Definition ringValid (r : Ring) : bool :=
  negb (descriptor r =? 0) && negb (words r =? 0) && negb (test (descriptor r) 3) &&
  negb (test (words r) 3) && (1024 <=? count r) && (count r <=? 2 ^ 20) &&
  (Z.land (count r) (count r -32 1) =? 0).

(** The CPU spans of the two rings, as (start, bytes). *)
Definition ring_spans (h g : Ring) : list (Z * Z) :=
  [(descriptor h, 64); (words h, count h * 4); (descriptor g, 64); (words g, count g * 4)].

(** The loop over the spans, with the ends of those already accepted. *)
Fixpoint spans_disjoint (done l : list (Z * Z)) : bool :=
  match l with
  | [] => true
  | (start, bytes) :: l =>
      if U64_MAX - start <? bytes then false
      else let end_ := start + bytes in
           if existsb (fun '(s, e) => (start <? e) && (s <? end_)) done then false
           else spans_disjoint (done ++ [(start, end_)]) l
  end.

Definition ringsValid (h g : Ring) : bool :=
  ringValid h && ringValid g && spans_disjoint [] (ring_spans h g).

Definition abiValid (f : FirmwareInfo) : bool :=
  (packed (fi_release f) =? gucRecommendedRelease) &&
  (packed (fi_submission f) =? requiredSubmissionAbi).

(** * The transport

    The rest of the system is a world [W]: memory that the GuC also writes, and the
    callbacks of the adapter.  Loads return whatever the world holds, so that a value
    read twice may differ; every access and barrier is recorded, newest first. *)

Inductive ct_event :=
  | EvLoad (address value : Z)
  | EvStore (address value : Z)
  | EvAdmitted (granted : bool)
  | EvAuthorize (granted : bool)
  | EvAcquire (done : bool)
  | EvRelease (done : bool)
  | EvNotify (done : bool).

Section Transport.
Context {W : Type}.

Record Memory := {
  w_load : Z -> W -> Z * W;
  w_store : Z -> Z -> W -> W;
}.

(** [Configuration] of [configureAndEnable]. *)
Record Configuration := {
  cfg_h2g : Ring;
  cfg_g2h : Ring;
  cfg_epoch : Z;
  minimumGgtt : Z;
  limitGgtt : Z;
  cfg_firmware : FirmwareInfo;
}.

(** Callbacks; a null function pointer is [None]. *)
Record Ops := {
  admitted : option (Z -> W -> bool * W);
  authorizeAction : option (Z -> Action -> W -> bool * W);
  acquire : option (W -> bool * W);
  release : option (W -> bool * W);
  notify : option (W -> bool * W);
  configurationAllowed : option (Configuration -> W -> bool * W);
}.

Definition no_ops : Ops := {|
  admitted := None; authorizeAction := None; acquire := None; release := None;
  notify := None; configurationAllowed := None |}.

Record Transport := {
  h2g_ : Ring;
  g2h_ : Ring;
  ops_ : Ops;
  pending_ : list Pending;
  epoch_ : Z;
  lastTime_ : Z;
  hTail_ : Z;
  gHead_ : Z;
  credits_ : Z;
  maxCredits_ : Z;
  nextFence_ : Z;
  attached_ : bool;
  broken_ : bool;
}.

Definition no_ring : Ring := {|
  descriptor := 0; words := 0; count := 0; descriptorGgtt := 0; bufferGgtt := 0 |}.

(** A default-constructed [Transport]. *)
Definition new_transport : Transport := {|
  h2g_ := no_ring; g2h_ := no_ring; ops_ := no_ops; pending_ := replicate maxPending no_pending;
  epoch_ := 0; lastTime_ := 0; hTail_ := 0; gHead_ := 0; credits_ := 0; maxCredits_ := 0;
  nextFence_ := 0; attached_ := false; broken_ := false |}.

Definition set_h2g_ v (s : Transport) : Transport :=
  {| h2g_ := v; g2h_ := g2h_ s; ops_ := ops_ s; pending_ := pending_ s; epoch_ := epoch_ s; lastTime_ := lastTime_ s; hTail_ := hTail_ s; gHead_ := gHead_ s; credits_ := credits_ s; maxCredits_ := maxCredits_ s; nextFence_ := nextFence_ s; attached_ := attached_ s; broken_ := broken_ s |}.
Definition set_g2h_ v (s : Transport) : Transport :=
  {| h2g_ := h2g_ s; g2h_ := v; ops_ := ops_ s; pending_ := pending_ s; epoch_ := epoch_ s; lastTime_ := lastTime_ s; hTail_ := hTail_ s; gHead_ := gHead_ s; credits_ := credits_ s; maxCredits_ := maxCredits_ s; nextFence_ := nextFence_ s; attached_ := attached_ s; broken_ := broken_ s |}.
Definition set_ops_ v (s : Transport) : Transport :=
  {| h2g_ := h2g_ s; g2h_ := g2h_ s; ops_ := v; pending_ := pending_ s; epoch_ := epoch_ s; lastTime_ := lastTime_ s; hTail_ := hTail_ s; gHead_ := gHead_ s; credits_ := credits_ s; maxCredits_ := maxCredits_ s; nextFence_ := nextFence_ s; attached_ := attached_ s; broken_ := broken_ s |}.
Definition set_pending_ v (s : Transport) : Transport :=
  {| h2g_ := h2g_ s; g2h_ := g2h_ s; ops_ := ops_ s; pending_ := v; epoch_ := epoch_ s; lastTime_ := lastTime_ s; hTail_ := hTail_ s; gHead_ := gHead_ s; credits_ := credits_ s; maxCredits_ := maxCredits_ s; nextFence_ := nextFence_ s; attached_ := attached_ s; broken_ := broken_ s |}.
Definition set_epoch_ v (s : Transport) : Transport :=
  {| h2g_ := h2g_ s; g2h_ := g2h_ s; ops_ := ops_ s; pending_ := pending_ s; epoch_ := v; lastTime_ := lastTime_ s; hTail_ := hTail_ s; gHead_ := gHead_ s; credits_ := credits_ s; maxCredits_ := maxCredits_ s; nextFence_ := nextFence_ s; attached_ := attached_ s; broken_ := broken_ s |}.
Definition set_lastTime_ v (s : Transport) : Transport :=
  {| h2g_ := h2g_ s; g2h_ := g2h_ s; ops_ := ops_ s; pending_ := pending_ s; epoch_ := epoch_ s; lastTime_ := v; hTail_ := hTail_ s; gHead_ := gHead_ s; credits_ := credits_ s; maxCredits_ := maxCredits_ s; nextFence_ := nextFence_ s; attached_ := attached_ s; broken_ := broken_ s |}.
Definition set_hTail_ v (s : Transport) : Transport :=
  {| h2g_ := h2g_ s; g2h_ := g2h_ s; ops_ := ops_ s; pending_ := pending_ s; epoch_ := epoch_ s; lastTime_ := lastTime_ s; hTail_ := v; gHead_ := gHead_ s; credits_ := credits_ s; maxCredits_ := maxCredits_ s; nextFence_ := nextFence_ s; attached_ := attached_ s; broken_ := broken_ s |}.
Definition set_gHead_ v (s : Transport) : Transport :=
  {| h2g_ := h2g_ s; g2h_ := g2h_ s; ops_ := ops_ s; pending_ := pending_ s; epoch_ := epoch_ s; lastTime_ := lastTime_ s; hTail_ := hTail_ s; gHead_ := v; credits_ := credits_ s; maxCredits_ := maxCredits_ s; nextFence_ := nextFence_ s; attached_ := attached_ s; broken_ := broken_ s |}.
Definition set_credits_ v (s : Transport) : Transport :=
  {| h2g_ := h2g_ s; g2h_ := g2h_ s; ops_ := ops_ s; pending_ := pending_ s; epoch_ := epoch_ s; lastTime_ := lastTime_ s; hTail_ := hTail_ s; gHead_ := gHead_ s; credits_ := v; maxCredits_ := maxCredits_ s; nextFence_ := nextFence_ s; attached_ := attached_ s; broken_ := broken_ s |}.
Definition set_maxCredits_ v (s : Transport) : Transport :=
  {| h2g_ := h2g_ s; g2h_ := g2h_ s; ops_ := ops_ s; pending_ := pending_ s; epoch_ := epoch_ s; lastTime_ := lastTime_ s; hTail_ := hTail_ s; gHead_ := gHead_ s; credits_ := credits_ s; maxCredits_ := v; nextFence_ := nextFence_ s; attached_ := attached_ s; broken_ := broken_ s |}.
Definition set_nextFence_ v (s : Transport) : Transport :=
  {| h2g_ := h2g_ s; g2h_ := g2h_ s; ops_ := ops_ s; pending_ := pending_ s; epoch_ := epoch_ s; lastTime_ := lastTime_ s; hTail_ := hTail_ s; gHead_ := gHead_ s; credits_ := credits_ s; maxCredits_ := maxCredits_ s; nextFence_ := v; attached_ := attached_ s; broken_ := broken_ s |}.
Definition set_attached_ v (s : Transport) : Transport :=
  {| h2g_ := h2g_ s; g2h_ := g2h_ s; ops_ := ops_ s; pending_ := pending_ s; epoch_ := epoch_ s; lastTime_ := lastTime_ s; hTail_ := hTail_ s; gHead_ := gHead_ s; credits_ := credits_ s; maxCredits_ := maxCredits_ s; nextFence_ := nextFence_ s; attached_ := v; broken_ := broken_ s |}.
Definition set_broken_ v (s : Transport) : Transport :=
  {| h2g_ := h2g_ s; g2h_ := g2h_ s; ops_ := ops_ s; pending_ := pending_ s; epoch_ := epoch_ s; lastTime_ := lastTime_ s; hTail_ := hTail_ s; gHead_ := gHead_ s; credits_ := credits_ s; maxCredits_ := maxCredits_ s; nextFence_ := nextFence_ s; attached_ := attached_ s; broken_ := v |}.

(** The transport, the world and the accesses made. *)
Record machine := { tp : Transport; world : W; trace : list ct_event }.

Context (mem : Memory).

Definition upd (f : Transport -> Transport) : ST machine unit :=
  modify (fun m => {| tp := f (tp m); world := world m; trace := trace m |}).

(** A volatile 32-bit load and store. *)
Definition load (address : Z) : ST machine Z := fun m =>
  let '(v, w) := w_load mem address (world m) in
  (wrap 32 v, {| tp := tp m; world := w; trace := EvLoad address (wrap 32 v) :: trace m |}).

Definition store (address value : Z) : ST machine unit := fun m =>
  (tt, {| tp := tp m; world := w_store mem address value (world m);
          trace := EvStore address value :: trace m |}).

(** Calls through a function pointer; [attach] admits only pointers that are not null. *)
Definition call (f : option (W -> bool * W)) (ev : bool -> ct_event) : ST machine bool := fun m =>
  let '(ok, w) := match f with Some f => f (world m) | None => (false, world m) end in
  (ok, {| tp := tp m; world := w; trace := ev ok :: trace m |}).

Definition call_admitted (ops : Ops) (epoch : Z) : ST machine bool :=
  call (match admitted ops with Some f => Some (f epoch) | None => None end) EvAdmitted.
Definition call_authorize (ops : Ops) (epoch : Z) (a : Action) : ST machine bool :=
  call (match authorizeAction ops with Some f => Some (f epoch a) | None => None end) EvAuthorize.
Definition call_acquire (ops : Ops) : ST machine bool := call (acquire ops) EvAcquire.
Definition call_release (ops : Ops) : ST machine bool := call (release ops) EvRelease.
Definition call_notify (ops : Ops) : ST machine bool := call (notify ops) EvNotify.

(** [!ops.release() || !ops.notify()]. *)
Definition release_notify (ops : Ops) : ST machine bool :=
  ok <-- call_release ops ;;
  if negb ok then ret false else call_notify ops.

Definition head_addr (r : Ring) : Z := descriptor r.
Definition tail_addr (r : Ring) : Z := descriptor r + 4.
Definition status_addr (r : Ring) : Z := descriptor r + 8.
Definition word_addr (r : Ring) (i : Z) : Z := words r + 4 * i.

Definition fault (s : Status) : ST machine Status := upd (set_broken_ true) ;;; ret s.

Definition clock (now : Z) : ST machine Status :=
  t <-- gets tp ;;
  if now <? lastTime_ t then ret Invalid
  else upd (set_lastTime_ now) ;;; ret Ok.

(** [a || b || ...] over volatile loads: the next is loaded only when the ones before
    did not decide. *)
Fixpoint any_bad (checks : list (Z * (Z -> bool))) : ST machine bool :=
  match checks with
  | [] => ret false
  | (address, bad) :: checks =>
      v <-- load address ;;
      if bad v then ret true else any_bad checks
  end.

Definition is_some {A} (x : option A) : bool := match x with Some _ => true | None => false end.
Definition nonzero (v : Z) : bool := negb (v =? 0).

Definition attach (h g : Ring) (ops : Ops) (epoch : Z) (f : FirmwareInfo) : ST machine Status :=
  t <-- gets tp ;;
  if attached_ t || (epoch =? 0) || negb (ringsValid h g) || negb (abiValid f)
  then ret Invalid else
  if negb (is_some (admitted ops) && is_some (authorizeAction ops) && is_some (acquire ops) &&
           is_some (release ops) && is_some (notify ops)) then ret Unavailable else
  ok <-- call_admitted ops epoch ;;
  if negb ok then ret Unavailable else
  ok <-- call_acquire ops ;;
  if negb ok then ret IoFailure else
  bad <-- any_bad [(head_addr h, nonzero); (tail_addr h, nonzero); (status_addr h, nonzero);
                   (head_addr g, nonzero); (tail_addr g, fun v => count g <=? v);
                   (status_addr g, nonzero)] ;;
  if bad then ret Corrupt else
  let credits := count g -32 1 -32 count g / 2 in
  upd (fun t => set_credits_ credits (set_maxCredits_ credits (set_epoch_ epoch
    (set_ops_ ops (set_g2h_ g (set_h2g_ h t)))))) ;;;
  upd (set_attached_ true) ;;;
  ret Ok.

Definition checkDescriptors : ST machine Status :=
  t <-- gets tp ;;
  if negb (attached_ t) then ret Unavailable else
  if broken_ t then ret Corrupt else
  ok <-- call_admitted (ops_ t) (epoch_ t) ;;
  if negb ok then fault Unavailable else
  ok <-- call_acquire (ops_ t) ;;
  if negb ok then fault IoFailure else
  bad <-- any_bad [(status_addr (h2g_ t), nonzero); (status_addr (g2h_ t), nonzero);
                   (tail_addr (h2g_ t), fun v => negb (v =? hTail_ t));
                   (head_addr (g2h_ t), fun v => negb (v =? gHead_ t));
                   (head_addr (h2g_ t), fun v => count (h2g_ t) <=? v);
                   (tail_addr (g2h_ t), fun v => count (g2h_ t) <=? v)] ;;
  if bad then fault Corrupt else ret Ok.

(** * Pending requests *)

(** Index of the first, and of the last, element with a property. *)
Fixpoint find_first {A} (p : A -> bool) (l : list A) : option nat :=
  match l with
  | [] => None
  | x :: l => if p x then Some O else S <$> find_first p l
  end.
Fixpoint find_last {A} (p : A -> bool) (l : list A) : option nat :=
  match l with
  | [] => None
  | x :: l => match find_last p l with Some i => Some (S i) | None => if p x then Some O else None end
  end.

Definition has_cookie (c : Cookie) (p : Pending) : bool :=
  used p && (c_epoch (cookie (reply p)) =? c_epoch c) && (c_fence (cookie (reply p)) =? c_fence c).

Definition find (c : Cookie) (t : Transport) : option nat := find_first (has_cookie c) (pending_ t).

Definition upd_pending (i : nat) (f : Pending -> Pending) : ST machine unit :=
  upd (fun t => set_pending_ (alter f i (pending_ t)) t).

Definition is_request (a : Action) : bool := aw a 0 =? 0x4000.

(** G2H words reserved for the response. *)
Definition reserve_of (a : Action) : Z :=
  if is_request a then 256 else if aw a 0 =? 0x1001 then 4 else if aw a 0 =? 0x4503 then 3 else 0.

(** An event reply carries the context only: one such request at a time. *)
Definition overlaps (a : Action) (p : Pending) : bool :=
  used p && creditsHeld (reply p) && negb (is_request a) && (context p =? aw a 1) &&
  ((action p =? 0x1001) || (action p =? 0x4503)).

(** The slot of a request that is about to be written. *)
Definition new_slot (a : Action) (epoch dl fence reserve : Z) : Pending := {|
  reply := {| cookie := {| c_epoch := epoch; c_fence := fence |};
              rstate := if nonzero reserve then RPending else RSentUnconfirmed;
              hxg := replicate maxHxgWords 0; rcount := 0; late := false;
              creditsHeld := nonzero reserve |};
  deadline := dl; action := aw a 0; context := aw a 1; mode := aw a 2;
  reservation := reserve; used := true; terminalReceived := false |}.

(** Zero-length headers up to the end of the buffer, then the tail at the start.
    [Some s] is a status to return. *)
Definition pad_ring (length space : Z) : ST machine (option Status) :=
  t <-- gets tp ;;
  let h := h2g_ t in
  if count h <? hTail_ t +32 length then
    let padding := count h -32 hTail_ t in
    for_each (seqZ (hTail_ t) (count h - hTail_ t)) (fun i => store (word_addr h i) 0) ;;;
    ok <-- call_release (ops_ t) ;;
    if negb ok then s <-- fault IoFailure ;; ret (Some s) else
    upd (set_hTail_ 0) ;;;
    store (tail_addr h) 0 ;;;
    ok <-- release_notify (ops_ t) ;;
    if negb ok then s <-- fault IoFailure ;; ret (Some s) else
    if space -32 padding <? length then ret (Some Busy) else ret None
  else ret None.

(** The words of the message: CT header, HXG header, payload. *)
Definition ct_header (fence n : Z) : Z := Z.shiftl fence 16 ||| n.
Definition hxg_header (a : Action) : Z := aw a 0 ||| (if is_request a then 0 else 0x20000000).
Definition wire (a : Action) (fence : Z) : list Z :=
  ct_header fence (a_count a) :: hxg_header a :: ((aw a) <$> seq 1 (Z.to_nat (a_count a) - 1)).

(** Store words at consecutive indices of the buffer. *)
Fixpoint store_words (r : Ring) (i : Z) (ws : list Z) : ST machine unit :=
  match ws with
  | [] => ret tt
  | w :: ws => store (word_addr r i) w ;;; store_words r (i + 1) ws
  end.

(** Fill the slot, write the message, publish the tail. *)
Definition publish (a : Action) (dl : Z) (slot : nat) : ST machine (Status * Cookie) :=
  t <-- gets tp ;;
  let reserve := reserve_of a in
  let fence := wrap 16 (nextFence_ t ||| (if is_request a then 0 else 0x8000)) in
  let c := {| c_epoch := epoch_ t; c_fence := fence |} in
  upd_pending slot (fun _ => new_slot a (epoch_ t) dl fence reserve) ;;;
  upd (fun t => set_credits_ (credits_ t -32 reserve) (set_nextFence_ (nextFence_ t +32 1) t)) ;;;
  store_words (h2g_ t) (hTail_ t) (wire a fence) ;;;
  ok <-- call_release (ops_ t) ;;
  if negb ok then s <-- fault PublishedUnknown ;; ret (s, c) else
  let tail := Z.land (hTail_ t +32 (a_count a + 1)) (count (h2g_ t) - 1) in
  upd (set_hTail_ tail) ;;;
  store (tail_addr (h2g_ t)) tail ;;;
  ok <-- release_notify (ops_ t) ;;
  if negb ok then s <-- fault PublishedUnknown ;; ret (s, c) else
  ret (Ok, c).

Definition send (a : Action) (now dl : Z) : ST machine (Status * Cookie) :=
  if negb (isOk (validateAction a)) || (dl <=? now) then ret (Invalid, no_cookie) else
  s <-- clock now ;;
  if negb (isOk s) then ret (Invalid, no_cookie) else
  s <-- checkDescriptors ;;
  if negb (isOk s) then ret (s, no_cookie) else
  t <-- gets tp ;;
  ok <-- call_authorize (ops_ t) (epoch_ t) a ;;
  if negb ok then ret (Unavailable, no_cookie) else
  if 0x8000 <=? nextFence_ t then ret (Exhausted, no_cookie) else
  if existsb (overlaps a) (pending_ t) then ret (Busy, no_cookie) else
  match find_last (fun p => negb (used p)) (pending_ t) with
  | None => ret (Busy, no_cookie)
  | Some slot =>
      if nonzero (reserve_of a) && (credits_ t <=? reserve_of a) then ret (Busy, no_cookie) else
      head <-- load (head_addr (h2g_ t)) ;;
      let space := Z.land (head -32 hTail_ t -32 1) (count (h2g_ t) - 1) in
      let length := a_count a + 1 in
      if space <? length then ret (Busy, no_cookie) else
      r <-- pad_ring length space ;;
      match r with
      | Some s => ret (s, no_cookie)
      | None => publish a dl slot
      end
  end.

(** * Replies *)

Definition expired (now : Z) (p : Pending) : bool :=
  used p && creditsHeld (reply p) && (deadline p <=? now) &&
  negb (bool_decide (rstate (reply p) = RTimedOut)).

Definition expire_one (now : Z) (p : Pending) : Pending :=
  if expired now p then set_reply (set_rstate RTimedOut (reply p)) p else p.

Definition expire (now : Z) : ST machine Status :=
  s <-- clock now ;;
  if negb (isOk s) then ret Invalid else
  upd (fun t => set_pending_ (expire_one now <$> pending_ t) t) ;;;
  ret Ok.

Definition mh (m : Message) (i : nat) : Z := default 0 (m_hxg m !! i).

(** The request that a message answers, or the fault it is. *)
Definition match_event (t : Transport) (m : Message) (act : Z) : Status + nat :=
  if test (mh m 0) 0x0fff0000 || negb (m_count m =? (if act =? 0x1002 then 3 else 2)) ||
     negb (idValid (mh m 1)) then inl Corrupt else
  match find_last (fun p => used p && creditsHeld (reply p) && (context p =? mh m 1) &&
                            (action p =? (if act =? 0x1002 then 0x1001 else 0x4503))) (pending_ t) with
  | None => inl Corrupt
  | Some i =>
      if (act =? 0x1002) && negb (mh m 2 =? from_option mode 0 (pending_ t !! i))
      then inl Corrupt else inr i
  end.

Definition match_reply (t : Transport) (m : Message) (type : Z) : Status + nat :=
  if negb ((type =? 3) || (type =? 5) || (type =? 6) || (type =? 7)) then inl Corrupt else
  if negb (type =? 7) && negb (m_count m =? 1) then inl Corrupt else
  match find {| c_epoch := epoch_ t; c_fence := m_fence m |} t with
  | None => inl UnknownCookie
  | Some i =>
      if test (m_fence m) 0x8000 && negb (type =? 6) then inl Corrupt else
      if negb (test (m_fence m) 0x8000) &&
         negb (from_option (fun p => creditsHeld (reply p)) false (pending_ t !! i))
      then inl Corrupt else inr i
  end.

(** Copy the message into the reply of a request. *)
Definition record_reply (m : Message) (p : Pending) : Pending :=
  set_reply (set_hxg (take (Z.to_nat (m_count m)) (m_hxg m) ++
                      drop (Z.to_nat (m_count m)) (hxg (reply p)))
            (set_rcount (m_count m) (reply p))) p.

(** A final response: [late] when the request had timed out. *)
Definition finish_reply (type : Z) (p : Pending) : Pending :=
  let r := reply p in
  let r := if bool_decide (rstate r = RTimedOut) then set_late true r
           else set_rstate (if type =? 6 then RFailure else if type =? 5 then RRetry else RSuccess) r in
  set_terminalReceived true (set_reply r p).

Definition settle (m : Message) (type : Z) (i : nat) : ST machine Status :=
  t <-- gets tp ;;
  let p := default no_pending (pending_ t !! i) in
  if terminalReceived p then fault Corrupt else
  upd_pending i (record_reply m) ;;;
  if type =? 3 then
    upd_pending i (fun p => if bool_decide (rstate (reply p) = RTimedOut) then p
                            else set_reply (set_rstate RBusy (reply p)) p) ;;;
    ret Ok
  else if creditsHeld (reply p) then
    if maxCredits_ t -32 credits_ t <? reservation p then fault Corrupt else
    upd (fun t => set_credits_ (credits_ t +32 reservation p) t) ;;;
    upd_pending i (fun p => finish_reply type (set_reply (set_creditsHeld false (reply p)) p)) ;;;
    ret Ok
  else upd_pending i (finish_reply type) ;;; ret Ok.

Definition dispatch (m : Message) : ST machine Status :=
  t <-- gets tp ;;
  let header := mh m 0 in
  let type := Z.land (Z.shiftr header 28) 7 in
  if negb (test header 0x80000000) then fault Corrupt else
  if type =? 1 then
    let act := Z.land header 0xffff in
    if negb (act =? 0x1002) && negb (act =? 0x4600) then ret Ok else
    match match_event t m act with
    | inl s => fault s
    | inr i => settle m type i
    end
  else
    match match_reply t m type with
    | inl s => fault s
    | inr i => settle m type i
    end.

(** The words of a G2H message, which may wrap around the end of the buffer. *)
Fixpoint load_words (r : Ring) (i : Z) (n : nat) : ST machine (list Z) :=
  match n with
  | O => ret []
  | S n =>
      v <-- load (word_addr r (Z.land (wrap 32 i) (count r - 1))) ;;
      vs <-- load_words r (i + 1) n ;;
      ret (v :: vs)
  end.

Definition receive (epoch now : Z) : ST machine (Status * Message) :=
  t <-- gets tp ;;
  if negb (epoch =? epoch_ t) then ret (StaleEpoch, no_message) else
  s <-- expire now ;;
  if negb (isOk s) then ret (Invalid, no_message) else
  s <-- checkDescriptors ;;
  if negb (isOk s) then ret (s, no_message) else
  let g := g2h_ t in
  tail <-- load (tail_addr g) ;;
  ok <-- call_acquire (ops_ t) ;;
  if negb ok then s <-- fault IoFailure ;; ret (s, no_message) else
  let available := Z.land (tail -32 gHead_ t) (count g - 1) in
  if available =? 0 then ret (Empty, no_message) else
  header <-- load (word_addr g (gHead_ t)) ;;
  let n := Z.land header 255 in
  if test header 0x0000ff00 || (n =? 0) || (available <? n + 1)
  then s <-- fault Corrupt ;; ret (s, no_message) else
  ws <-- load_words g (gHead_ t + 1) (Z.to_nat n) ;;
  let m := {| m_fence := wrap 16 (Z.shiftr header 16); m_count := n;
              m_hxg := ws ++ replicate (maxHxgWords - Z.to_nat n) 0 |} in
  s <-- dispatch m ;;
  if negb (isOk s) then ret (s, m) else
  ok <-- call_release (ops_ t) ;;
  if negb ok then s <-- fault IoFailure ;; ret (s, m) else
  let head := Z.land (gHead_ t +32 1 +32 n) (count g - 1) in
  upd (set_gHead_ head) ;;;
  store (head_addr g) head ;;;
  ok <-- call_release (ops_ t) ;;
  if negb ok then s <-- fault IoFailure ;; ret (s, m) else
  ret (Ok, m).

Definition query (c : Cookie) (t : Transport) : Status * option Reply :=
  if negb (c_epoch c =? epoch_ t) then (StaleEpoch, None) else
  match find c t with
  | None => (UnknownCookie, None)
  | Some i => (Ok, reply <$> pending_ t !! i)
  end.

Definition retire (c : Cookie) : ST machine Status :=
  t <-- gets tp ;;
  if negb (c_epoch c =? epoch_ t) then ret StaleEpoch else
  match find c t with
  | None => ret UnknownCookie
  | Some i =>
      if from_option (fun p => creditsHeld (reply p)) false (pending_ t !! i) then ret Busy else
      upd_pending i (fun _ => no_pending) ;;;
      ret Ok
  end.
End Transport.
Arguments Ops : clear implicits.
Arguments Memory : clear implicits.
Arguments Transport : clear implicits.
Arguments machine : clear implicits.
End XeGuC.
