(* ===== verification/GucTransportInv.v ===== *)
(** The invariant of the GuC transport and its preservation by every operation, whatever
    the GuC and the adapter do: credits are conserved, cookies are unique and never
    reused, ring indices stay in range, and every memory access is in bounds and every
    store to a field that the host owns. *)
From stdpp Require Import base numbers list sets.
From S2P Require Import Prelude.
From S2P Require Import XeFirmware.
From S2P Require Import StateWp.
From S2P Require Import GucTransport.
Import XeGuC.

(** * Statements *)

(** Response credits held by the table of requests. *)
Definition holds (p : Pending) : bool := used p && creditsHeld (reply p).
Definition held (l : list Pending) : Z :=
  foldr (fun p n => (if holds p then reservation p else 0) + n) 0 l.

(** The sequence number inside a cookie. *)
Definition fence_no (p : Pending) : Z := Z.land (c_fence (cookie (reply p))) 0x7fff.

(** A request answered by an event that names its context. *)
Definition by_event (p : Pending) : bool := (action p =? 0x1001) || (action p =? 0x4503).

(** A used slot, in a transport of this epoch that numbers its next request [next]. *)
Record slot_ok (epoch next : Z) (p : Pending) : Prop := {
  so_epoch : c_epoch (cookie (reply p)) = epoch;
  so_fence : 0 <= fence_no p < next;
  so_kind : test (c_fence (cookie (reply p))) 0x8000 = negb (action p =? 0x4000);
  so_reserve : creditsHeld (reply p) = true -> 0 < reservation p <= 256;
  so_event : creditsHeld (reply p) = true -> action p <> 0x4000 -> by_event p = true;
  so_final : terminalReceived p = true -> creditsHeld (reply p) = false;
}.

Section Inv.
Context {W : Type}.
Implicit Types (t : Transport W) (m : machine W).

Record tinv t : Prop := {
  ti_attached : attached_ t = true;
  ti_len : length (pending_ t) = maxPending;
  ti_rings : ringsValid (h2g_ t) (g2h_ t) = true;
  ti_tail : 0 <= hTail_ t < count (h2g_ t);
  ti_head : 0 <= gHead_ t < count (g2h_ t);
  ti_max : maxCredits_ t = count (g2h_ t) - 1 - count (g2h_ t) / 2;
  ti_credits : 0 <= credits_ t /\ credits_ t + held (pending_ t) = maxCredits_ t;
  ti_next : 0 <= nextFence_ t <= 0x8000;
  ti_slots : forall i p, pending_ t !! i = Some p -> used p = true -> slot_ok (epoch_ t) (nextFence_ t) p;
  ti_fences : forall i j p q, pending_ t !! i = Some p -> pending_ t !! j = Some q ->
    used p = true -> used q = true -> fence_no p = fence_no q -> i = j;
  ti_context : forall i j p q, pending_ t !! i = Some p -> pending_ t !! j = Some q ->
    holds p = true -> holds q = true -> by_event p = true -> by_event q = true ->
    context p = context q -> i = j;
}.

(** An access inside the spans of the rings; a store to a field the host owns. *)
Definition access_ok (h g : Ring) (e : ct_event) : Prop :=
  match e with
  | EvLoad a _ => exists start bytes, (start, bytes) ∈ ring_spans h g /\ start <= a /\ a + 4 <= start + bytes
  | EvStore a _ => a = tail_addr h \/ a = head_addr g \/
                   exists i, 0 <= i < count h /\ a = word_addr h i
  | _ => True
  end.

Definition minv m : Prop :=
  tinv (tp m) /\ Forall (access_ok (h2g_ (tp m)) (g2h_ (tp m))) (trace m).

(** * Updating the table *)

Definition cost (p : Pending) : Z := if holds p then reservation p else 0.

Lemma held_insert (l : list Pending) (i : nat) p q : l !! i = Some p -> held (<[i := q]> l) = held l - cost p + cost q.
Proof.
  revert i. induction l as [|x l IH]; intros [|i] H; simplify_eq/=; [unfold cost; lia|].
  rewrite (IH _ H). lia.
Qed.

Lemma alter_as_insert {A} (f : A -> A) (l : list A) (i : nat) p : l !! i = Some p -> alter f i l = <[i := f p]> l.
Proof.
  intros H. apply list_eq. intros j. destruct (decide (i = j)) as [<-|Hn].
  - pose proof (lookup_lt_Some _ _ _ H). rewrite list_lookup_alter_eq, H. cbn. symmetry.
    by apply list_lookup_insert_eq.
  - by rewrite list_lookup_alter_ne, list_lookup_insert_ne.
Qed.

Lemma held_cost (l : list Pending) :
  (forall i p, l !! i = Some p -> 0 <= cost p) ->
  0 <= held l /\ forall i p, l !! i = Some p -> cost p <= held l.
Proof.
  induction l as [|x l IH]; intros H; [by split|].
  pose proof (H O x eq_refl) as Hx. destruct IH as [IH1 IH2]; [intros i; apply (H (S i))|].
  change (held (x :: l)) with (cost x + held l). split; [lia|].
  intros [|i] p Hp; simplify_eq/=; [lia|]. specialize (IH2 _ _ Hp). lia.
Qed.

(** What the invariant reads of a slot. *)
Definition same_view (p q : Pending) : Prop :=
  used p = used q /\ cookie (reply p) = cookie (reply q) /\
  creditsHeld (reply p) = creditsHeld (reply q) /\ action p = action q /\
  context p = context q /\ reservation p = reservation q /\
  terminalReceived p = terminalReceived q.

Lemma held_view l l' : Forall2 same_view l l' -> held l = held l'.
Proof.
  induction 1 as [|p q l l' (Hu & _ & Hh & _ & _ & Hr & _) _ IH]; [done|].
  change (cost p + held l = cost q + held l'). unfold cost, holds. by rewrite Hu, Hh, Hr, IH.
Qed.

Lemma slot_view e n p q : same_view p q -> slot_ok e n p -> slot_ok e n q.
Proof.
  intros (Hu & Hc & Hh & Ha & Hx & Hr & Ht) [H1 H2 H3 H4 H5 H6].
  unfold fence_no, by_event in *. rewrite Hc in *. rewrite Hh, Ha, Hr, Ht in *. by split.
Qed.

(** The fields that no update of the table touches. *)
Record same_rings t t' : Prop := {
  sr_h : h2g_ t' = h2g_ t; sr_g : g2h_ t' = g2h_ t; sr_e : epoch_ t' = epoch_ t;
  sr_m : maxCredits_ t' = maxCredits_ t; sr_a : attached_ t' = attached_ t;
}.

Lemma tinv_view t t' :
  tinv t -> same_rings t t' -> 0 <= hTail_ t' < count (h2g_ t) -> 0 <= gHead_ t' < count (g2h_ t) ->
  credits_ t' = credits_ t -> nextFence_ t' = nextFence_ t ->
  Forall2 same_view (pending_ t) (pending_ t') -> tinv t'.
Proof.
  intros [] [Eh Eg Ee Em Ea] Htl Hhd Ec En Hv.
  assert (Hback : forall i q, pending_ t' !! i = Some q ->
    exists p, pending_ t !! i = Some p /\ same_view p q).
  { intros i q Hq. destruct (Forall2_lookup_r _ _ _ _ _ Hv Hq) as (p & ? & ?). eauto. }
  split; rewrite ?Eh, ?Eg, ?Ee, ?Em, ?Ec, ?En, ?Ea; try done.
  - by rewrite <- (Forall2_length _ _ _ Hv).
  - by rewrite <- (held_view _ _ Hv).
  - intros i q Hq Hu. destruct (Hback _ _ Hq) as (p & Hp & Hs). eapply slot_view; [done|].
    apply (ti_slots0 i); [done|]. by destruct Hs as (-> & _).
  - intros i j p q Hp Hq Hu Hu' Hf.
    destruct (Hback _ _ Hp) as (p' & Hp' & Hs), (Hback _ _ Hq) as (q' & Hq' & Hs').
    apply (ti_fences0 _ _ _ _ Hp' Hq'); [by destruct Hs as (-> & _)|by destruct Hs' as (-> & _)|].
    unfold fence_no in *. destruct Hs as (_ & -> & _), Hs' as (_ & -> & _). done.
  - intros i j p q Hp Hq Hu Hu' Hb Hb' Hx.
    destruct (Hback _ _ Hp) as (p' & Hp' & A1 & _ & A2 & A3 & A4 & _).
    destruct (Hback _ _ Hq) as (q' & Hq' & B1 & _ & B2 & B3 & B4 & _).
    unfold holds, by_event in *.
    apply (ti_context0 _ _ _ _ Hp' Hq'); unfold holds, by_event;
      by rewrite ?A1, ?A2, ?A3, ?A4, ?B1, ?B2, ?B3, ?B4.
Qed.

Lemma cost_nonneg t i p : tinv t -> pending_ t !! i = Some p -> 0 <= cost p.
Proof.
  intros Hi Hp. unfold cost, holds. destruct (used p) eqn:Hu; cbn; [|done].
  destruct (creditsHeld (reply p)) eqn:Hc; [|done].
  destruct (ti_slots _ Hi _ _ Hp Hu) as [_ _ _ Hr _ _]. specialize (Hr Hc). lia.
Qed.

(** The credits held by one request are within what has been taken. *)
Lemma cost_held t i p :
  tinv t -> pending_ t !! i = Some p -> 0 <= cost p <= maxCredits_ t - credits_ t.
Proof.
  intros Hi Hp. destruct (held_cost (pending_ t)) as [_ H].
  { intros j q. by apply cost_nonneg. }
  specialize (H _ _ Hp). pose proof (cost_nonneg _ _ _ Hi Hp). destruct Hi as [_ _ _ _ _ _ [_ <-] _ _ _ _]. lia.
Qed.

Lemma credits_range t : tinv t -> 0 <= credits_ t <= maxCredits_ t.
Proof.
  intros Hi. destruct (held_cost (pending_ t)) as [H _].
  { intros j q. by apply cost_nonneg. }
  destruct Hi as [_ _ _ _ _ _ [? <-] _ _ _ _]. lia.
Qed.

(** Replacing one slot. *)
Lemma tinv_insert t t' i p q :
  tinv t -> same_rings t t' -> 0 <= hTail_ t' < count (h2g_ t) -> 0 <= gHead_ t' < count (g2h_ t) ->
  pending_ t !! i = Some p -> pending_ t' = <[i := q]> (pending_ t) ->
  credits_ t' = credits_ t + cost p - cost q -> 0 <= credits_ t' ->
  nextFence_ t <= nextFence_ t' <= 0x8000 ->
  (used q = true -> slot_ok (epoch_ t) (nextFence_ t') q) ->
  (used q = true -> (used p = true /\ fence_no q = fence_no p) \/ nextFence_ t <= fence_no q) ->
  (holds q = true -> by_event q = true ->
    (holds p = true /\ by_event p = true /\ context q = context p) \/
    forall j r, pending_ t !! j = Some r -> holds r = true -> by_event r = true -> context r <> context q) ->
  tinv t'.
Proof.
  intros [] [Eh Eg Ee Em Ea] Htl Hhd Hp Ep Ec Hc Hn Hq Hf Hx.
  pose proof (lookup_lt_Some _ _ _ Hp) as Hi.
  assert (Hold : forall j r, pending_ t !! j = Some r -> used r = true -> fence_no r < nextFence_ t).
  { intros j r Hr Hu. by destruct (ti_slots0 j r Hr Hu) as [_ [_ ?] _ _ _ _]. }
  assert (Hlook : forall j r, pending_ t' !! j = Some r ->
    (j = i /\ r = q) \/ (j <> i /\ pending_ t !! j = Some r)).
  { intros j r. rewrite Ep. intros [(<- & <- & _)|[Hne H]]%list_lookup_insert_Some; auto. }
  split; rewrite ?Eh, ?Eg, ?Ee, ?Em, ?Ea; try done.
  - by rewrite Ep, length_insert.
  - rewrite Ep, (held_insert _ _ _ _ Hp). lia.
  - lia.
  - intros j r Hr Hu. destruct (Hlook _ _ Hr) as [[-> ->]|[Hne Hr']]; [by apply Hq|].
    destruct (ti_slots0 j r Hr' Hu). split; try done. lia.
  - intros j k r u Hr Hu Hur Huu Heq.
    destruct (Hlook _ _ Hr) as [[-> ->]|[Hne Hr']], (Hlook _ _ Hu) as [[-> ->]|[Hne' Hu']]; try done.
    + destruct (Hf Hur) as [[Hup Hfe]|Hfresh]; [|specialize (Hold _ _ Hu' Huu); lia].
      apply (ti_fences0 _ _ _ _ Hp Hu' Hup Huu). congruence.
    + destruct (Hf Huu) as [[Hup Hfe]|Hfresh]; [|specialize (Hold _ _ Hr' Hur); lia].
      apply (ti_fences0 _ _ _ _ Hr' Hp Hur Hup). congruence.
    + by apply (ti_fences0 _ _ _ _ Hr' Hu').
  - intros j k r u Hr Hu Hhr Hhu Hbr Hbu Heq.
    destruct (Hlook _ _ Hr) as [[-> ->]|[Hne Hr']], (Hlook _ _ Hu) as [[-> ->]|[Hne' Hu']]; try done.
    + destruct (Hx Hhr Hbr) as [(Hup & Hbp & Hfe)|Hfresh]; [|by destruct (Hfresh _ _ Hu')].
      apply (ti_context0 _ _ _ _ Hp Hu' Hup Hhu Hbp Hbu). congruence.
    + destruct (Hx Hhu Hbu) as [(Hup & Hbp & Hfe)|Hfresh]; [|by destruct (Hfresh _ _ Hr')].
      apply (ti_context0 _ _ _ _ Hr' Hp Hhr Hup Hbr Hbp). congruence.
    + by apply (ti_context0 _ _ _ _ Hr' Hu').
Qed.

(** * Running the transport *)

(** The stores among some accesses. *)
Definition stores (tr : list ct_event) : list (Z * Z) :=
  omap (fun e => match e with EvStore a v => Some (a, v) | _ => None end) tr.

(** From [m] to [m'] the accesses satisfied [P], and the stores were [st], newest first. *)
Definition emits (P : ct_event -> Prop) m m' (st : list (Z * Z)) : Prop :=
  exists evs, trace m' = evs ++ trace m /\ Forall P evs /\ stores evs = st.

Lemma emits_refl P m : emits P m m [].
Proof. by exists []. Qed.

Lemma emits_trans P m1 m2 m3 s1 s2 : emits P m1 m2 s1 -> emits P m2 m3 s2 -> emits P m1 m3 (s2 ++ s1).
Proof.
  intros (e1 & T1 & F1 & S1) (e2 & T2 & F2 & S2). exists (e2 ++ e1). split_and!.
  - by rewrite T2, T1, app_assoc.
  - by apply Forall_app.
  - unfold stores in *. by rewrite omap_app, S1, S2.
Qed.

Lemma emits_mono (P Q : ct_event -> Prop) m m' st :
  (forall e, P e -> Q e) -> emits P m m' st -> emits Q m m' st.
Proof. intros H (evs & ? & ? & ?). exists evs. split_and!; [done| |done]. by eapply Forall_impl. Qed.

(** Accesses that the rings of a machine allow; those among them that are no loads. *)
Definition allowed m : ct_event -> Prop := access_ok (h2g_ (tp m)) (g2h_ (tp m)).
Definition unread (h g : Ring) (e : ct_event) : Prop :=
  access_ok h g e /\ match e with EvLoad _ _ => False | _ => True end.

Lemma emits_minv m m' st :
  minv m -> same_rings (tp m) (tp m') -> tinv (tp m') -> emits (allowed m) m m' st -> minv m'.
Proof.
  intros [Ht Htr] [Eh Eg _ _ _] Ht' (evs & T & F & _). split; [done|].
  rewrite Eh, Eg, T. by apply Forall_app.
Qed.

Context (mem : Memory W).

Lemma wp_upd f (Q : unit -> machine W -> Prop) m :
  Q tt {| tp := f (tp m); world := world m; trace := trace m |} -> wp (upd f) Q m.
Proof. done. Qed.

(** A step that changes nothing of the transport. *)
Definition steps (P : ct_event -> Prop) m m' (st : list (Z * Z)) : Prop :=
  tp m' = tp m /\ emits P m m' st.

Lemma wp_load (P : ct_event -> Prop) a (Q : Z -> machine W -> Prop) m :
  (forall v, P (EvLoad a v)) ->
  (forall v m', word 32 v -> trace m' = EvLoad a v :: trace m -> steps P m m' [] -> Q v m') ->
  wp (load mem a) Q m.
Proof.
  intros Ha HQ. unfold wp, load. destruct (w_load mem a (world m)) as [v w]. apply HQ; cbn.
  - apply wrap_range. lia.
  - done.
  - split; [done|]. exists [EvLoad a (wrap 32 v)]. split_and!; [done| |done]. by constructor.
Qed.

Lemma wp_store (P : ct_event -> Prop) a v (Q : unit -> machine W -> Prop) m :
  P (EvStore a v) -> (forall m', steps P m m' [(a, v)] -> Q tt m') -> wp (store mem a v) Q m.
Proof.
  intros Ha HQ. apply HQ. split; [done|]. exists [EvStore a v]. split_and!; [done| |done].
  by constructor.
Qed.

(** The events of calls are no memory accesses. *)
Definition call_event (ev : bool -> ct_event) : Prop :=
  forall b, match ev b with EvLoad _ _ | EvStore _ _ => False | _ => True end.
Definition call_ok (P : ct_event -> Prop) : Prop :=
  forall e, match e with EvLoad _ _ | EvStore _ _ => False | _ => True end -> P e.

Lemma wp_call (P : ct_event -> Prop) f ev (Q : bool -> machine W -> Prop) m :
  call_ok P -> call_event ev -> (forall ok m', steps P m m' [] -> Q ok m') -> wp (call f ev) Q m.
Proof.
  intros HP Hev HQ. unfold wp, call.
  destruct (match f with Some f => f (world m) | None => (false, world m) end) as [ok w].
  apply HQ. cbn. split; [done|]. exists [ev ok]. specialize (Hev ok). specialize (HP _ Hev).
  split_and!; [done|by constructor|]. by destruct (ev ok).
Qed.

Lemma steps_refl P m : steps P m m [].
Proof. split; [done|apply emits_refl]. Qed.

Lemma steps_trans P m1 m2 m3 s1 s2 :
  steps P m1 m2 s1 -> steps P m2 m3 s2 -> steps P m1 m3 (s2 ++ s1).
Proof. intros [T1 E1] [T2 E2]. split; [congruence|by eapply emits_trans]. Qed.

Lemma steps_quiet P m1 m2 m3 s1 : steps P m1 m2 s1 -> steps P m2 m3 [] -> steps P m1 m3 s1.
Proof. apply steps_trans. Qed.

Lemma wp_release_notify (P : ct_event -> Prop) ops (Q : bool -> machine W -> Prop) m :
  call_ok P -> (forall ok m', steps P m m' [] -> Q ok m') -> wp (release_notify ops) Q m.
Proof.
  intros HP HQ. unfold release_notify. apply wp_bind. apply (wp_call P); [done..|]. intros ok m1 H1.
  wp_step; wp_steps; [by apply HQ|]. apply (wp_call P); [done..|]. intros ok2 m2 H2.
  apply HQ. by eapply steps_quiet.
Qed.

Lemma call_access h g : call_ok (access_ok h g).
Proof. by intros []. Qed.
Lemma call_allowed m : call_ok (allowed m).
Proof. apply call_access. Qed.
Lemma call_unread h g : call_ok (unread h g).
Proof. by intros []. Qed.

(** The addresses of the rings. *)
Lemma load_head_h h g v : access_ok h g (EvLoad (head_addr h) v).
Proof. exists (descriptor h), 64. unfold head_addr. split; [set_solver|lia]. Qed.
Lemma load_tail_h h g v : access_ok h g (EvLoad (tail_addr h) v).
Proof. exists (descriptor h), 64. unfold tail_addr. split; [set_solver|lia]. Qed.
Lemma load_status_h h g v : access_ok h g (EvLoad (status_addr h) v).
Proof. exists (descriptor h), 64. unfold status_addr. split; [set_solver|lia]. Qed.
Lemma load_head_g h g v : access_ok h g (EvLoad (head_addr g) v).
Proof. exists (descriptor g), 64. unfold head_addr. split; [set_solver|lia]. Qed.
Lemma load_tail_g h g v : access_ok h g (EvLoad (tail_addr g) v).
Proof. exists (descriptor g), 64. unfold tail_addr. split; [set_solver|lia]. Qed.
Lemma load_status_g h g v : access_ok h g (EvLoad (status_addr g) v).
Proof. exists (descriptor g), 64. unfold status_addr. split; [set_solver|lia]. Qed.
Lemma load_word_g h g i v : 0 <= i < count g -> access_ok h g (EvLoad (word_addr g i) v).
Proof. intros Hi. exists (words g), (count g * 4). unfold word_addr. split; [set_solver|lia]. Qed.
Lemma store_tail_h h g v : access_ok h g (EvStore (tail_addr h) v).
Proof. by left. Qed.
Lemma store_head_g h g v : access_ok h g (EvStore (head_addr g) v).
Proof. right; by left. Qed.
Lemma store_word_h h g i v : 0 <= i < count h -> access_ok h g (EvStore (word_addr h i) v).
Proof. right; right. eauto. Qed.
Lemma unread_store h g a v : access_ok h g (EvStore a v) -> unread h g (EvStore a v).
Proof. by split. Qed.
End Inv.

Create HintDb guc.
#[export] Hint Resolve load_head_h load_tail_h load_status_h load_head_g load_tail_g load_status_g
  load_word_g store_tail_h store_head_g store_word_h steps_refl call_access call_allowed call_unread : guc.
