(* ===== verification/GucTransportOps.v ===== *)
(** Every operation of the GuC transport keeps the invariant of [GucTransportInv]. *)
From stdpp Require Import base numbers list sets.
From S2P Require Import Prelude.
From S2P Require Import XeFirmware.
From S2P Require Import StateWp.
From S2P Require Import GucTransport.
From S2P Require Import GucTransportInv.
Import XeGuC.

Section Ops.
Context {W : Type} (mem : Memory W).
Implicit Types (t : Transport W) (m : machine W).

Local Notation steps_of m := (steps (allowed m)).

(** * Running *)

Lemma wp_any_bad h g checks (Q : bool -> machine W -> Prop) m :
  Forall (fun c => forall v, access_ok h g (EvLoad c.1 v)) checks ->
  (forall b m', steps (access_ok h g) m m' [] -> Q b m') -> wp (any_bad mem checks) Q m.
Proof.
  revert m. induction checks as [|[a bad] checks IH]; intros m Hc HQ; cbn [any_bad].
  - apply HQ, steps_refl.
  - inversion_clear Hc. apply wp_bind, (wp_load mem (access_ok h g)); [done|]. intros v m1 _ _ H1.
    wp_step; [by apply HQ|]. apply IH; [done|]. intros b m2 H2. apply HQ. by eapply steps_quiet.
Qed.

(** A step that may only have stopped the transport. *)
Definition calm m m' : Prop :=
  (tp m' = tp m \/ tp m' = set_broken_ true (tp m)) /\
  emits (allowed m) m m' [].

Lemma calm_steps m m' : steps_of m m m' [] -> calm m m'.
Proof. intros [? ?]. split; auto. Qed.

Lemma wp_fault s (Q : Status -> machine W -> Prop) m m1 :
  steps_of m m m1 [] -> (forall m', calm m m' -> Q s m') -> wp (fault s) Q m1.
Proof.
  intros [T E] HQ. unfold fault. apply wp_bind, wp_upd, wp_ret, HQ.
  split; cbn; [right; by rewrite T|]. destruct E as (evs & ? & ? & ?). by exists evs.
Qed.

Lemma tinv_broken t : tinv t -> tinv (set_broken_ true t).
Proof. by intros []. Qed.

Lemma calm_minv m m' : minv m -> calm m m' -> minv m'.
Proof.
  intros Hm [Ht He]. eapply emits_minv; [done| | |done].
  - destruct Ht as [-> | ->]; by split.
  - destruct Ht as [-> | ->]; [|apply tinv_broken]; apply Hm.
Qed.

Lemma steps_minv m m' : minv m -> steps_of m m m' [] -> minv m'.
Proof. intros Hm Hs. eapply calm_minv; [done|]. by apply calm_steps. Qed.

Lemma wp_clock now (Q : Status -> machine W -> Prop) m :
  (now < lastTime_ (tp m) -> Q Invalid m) ->
  (lastTime_ (tp m) <= now ->
    Q Ok {| tp := set_lastTime_ now (tp m); world := world m; trace := trace m |}) ->
  wp (clock now) Q m.
Proof.
  intros H1 H2. unfold clock. wp_steps.
  - apply H1. by apply Z.ltb_lt.
  - apply wp_upd, wp_ret, H2. by apply Z.ltb_ge.
Qed.

Lemma minv_time now m :
  minv m -> minv {| tp := set_lastTime_ now (tp m); world := world m; trace := trace m |}.
Proof. intros [[] Htr]. split; [by split|done]. Qed.

Lemma wp_checkDescriptors (Q : Status -> machine W -> Prop) m :
  attached_ (tp m) = true ->
  (forall s m', calm m m' -> (s = Ok -> tp m' = tp m) -> Q s m') -> wp (checkDescriptors mem) Q m.
Proof.
  intros Ha HQ. unfold checkDescriptors. wp_step. wp_step. wp_step.
  { by rewrite Ha in *. }
  wp_step; [wp_steps; apply HQ; [apply calm_steps, steps_refl|done]|].
  wp_step. apply (wp_call (allowed m)); [apply call_allowed|done|]. intros ok m1 H1.
  wp_step; [eapply wp_fault; [done|]; intros; by apply HQ|].
  wp_step. apply (wp_call (allowed m)); [apply call_allowed|done|]. intros ok2 m2 H2.
  pose proof (steps_quiet _ _ _ _ _ H1 H2) as H12.
  wp_step; [eapply wp_fault; [done|]; intros; by apply HQ|].
  wp_step. apply (wp_any_bad (h2g_ (tp m)) (g2h_ (tp m))).
  { repeat constructor; eauto with guc. }
  intros bad m3 H3. pose proof (steps_quiet _ _ _ _ _ H12 H3) as H13.
  wp_step; [eapply wp_fault; [done|]; intros; by apply HQ|].
  wp_steps. apply HQ; [by apply calm_steps|]. intros _. apply H13.
Qed.

(** * Sending *)

(** The stores of words at consecutive indices, newest first. *)
Fixpoint word_stores (r : Ring) (i : Z) (ws : list Z) : list (Z * Z) :=
  match ws with
  | [] => []
  | w :: ws => word_stores r (i + 1) ws ++ [(word_addr r i, w)]
  end.

Lemma wp_store_words h g i ws (Q : unit -> machine W -> Prop) m :
  0 <= i -> i + Z.of_nat (length ws) <= count h ->
  (forall m', steps (unread h g) m m' (word_stores h i ws) -> Q tt m') -> wp (store_words mem h i ws) Q m.
Proof.
  revert i m Q. induction ws as [|w ws IH]; intros i m Q Hi Hl HQ; cbn [store_words length] in *.
  - apply HQ, steps_refl.
  - apply wp_bind, (wp_store mem (unread h g)); [apply unread_store, store_word_h; lia|]. intros m1 H1.
    apply IH; [lia..|]. intros m2 H2. apply HQ. by eapply steps_trans.
Qed.

Lemma wp_store_zeros h g i n (Q : unit -> machine W -> Prop) m :
  0 <= i -> i + Z.of_nat n <= count h ->
  (forall m', steps (unread h g) m m' (word_stores h i (replicate n 0)) -> Q tt m') ->
  wp (for_each (seqZ i (Z.of_nat n)) (fun i => store mem (word_addr h i) 0)) Q m.
Proof.
  revert i m Q. induction n as [|n IH]; intros i m Q Hi Hl HQ.
  - apply HQ, steps_refl.
  - rewrite seqZ_cons by lia. cbn [for_each].
    apply wp_bind, (wp_store mem (unread h g)); [apply unread_store, store_word_h; lia|]. intros m1 H1.
    replace (Z.pred (Z.of_nat (S n))) with (Z.of_nat n) by lia.
    apply IH; [lia..|]. intros m2 H2. apply HQ. by eapply steps_trans.
Qed.

(** Padding the ring for a message of [len] words, with [space] words free. *)
Inductive pad_outcome (len space : Z) m : option Status -> machine W -> Prop :=
  | pad_none :
      hTail_ (tp m) + len <= count (h2g_ (tp m)) -> pad_outcome len space m None m
  | pad_done r m' :
      count (h2g_ (tp m)) < hTail_ (tp m) + len ->
      tp m' = set_hTail_ 0 (tp m) ->
      emits (unread (h2g_ (tp m)) (g2h_ (tp m))) m m'
        ((tail_addr (h2g_ (tp m)), 0) :: word_stores (h2g_ (tp m)) (hTail_ (tp m))
           (replicate (Z.to_nat (count (h2g_ (tp m)) - hTail_ (tp m))) 0)) ->
      (r = None /\ len <= space - (count (h2g_ (tp m)) - hTail_ (tp m))) \/
      (r = Some Busy /\ space - (count (h2g_ (tp m)) - hTail_ (tp m)) < len) ->
      pad_outcome len space m r m'
  | pad_fail m' st :
      tp m' = set_broken_ true (tp m) \/ tp m' = set_broken_ true (set_hTail_ 0 (tp m)) ->
      emits (unread (h2g_ (tp m)) (g2h_ (tp m))) m m' st ->
      pad_outcome len space m (Some IoFailure) m'.

(** Facts about the rings of a running transport. *)
Lemma rings_count t : tinv t -> 1024 <= count (h2g_ t) <= 2 ^ 20 /\ 1024 <= count (g2h_ t) <= 2 ^ 20.
Proof.
  intros [_ _ Hr _ _ _ _ _ _ _ _]. unfold ringsValid, ringValid in Hr.
  rewrite !andb_true_iff, !Z.leb_le in Hr. tauto.
Qed.

Lemma emits_broken P m m1 st :
  emits P m m1 st ->
  emits P m {| tp := set_broken_ true (tp m1); world := world m1; trace := trace m1 |} st.
Proof. intros (evs & ? & ? & ?). by exists evs. Qed.

Lemma wp_pad_ring len space (Q : option Status -> machine W -> Prop) m :
  tinv (tp m) -> 0 < len <= space -> space < 2 ^ 32 -> len <= 13 ->
  (forall r m', pad_outcome len space m r m' -> Q r m') -> wp (pad_ring mem len space) Q m.
Proof.
  intros Hi Hl Hs Hl' HQ. pose proof (rings_count _ Hi) as [Hc _].
  pose proof (ti_tail _ Hi) as Ht. eval_pows. unfold pad_ring. wp_step. wp_step.
  wp_step; rewrite wrap_small in Hcond by (eval_pows; lia); cycle 1.
  { wp_steps. apply HQ, pad_none. apply Z.ltb_ge in Hcond. lia. }
  apply Z.ltb_lt in Hcond. rewrite (wrap_small 32 (count _ - _)) by (eval_pows; lia).
  set (h := h2g_ (tp m)) in *. set (g := g2h_ (tp m)) in *. set (pad := count h - hTail_ (tp m)) in *.
  wp_step. replace pad with (Z.of_nat (Z.to_nat pad)) at 1 by lia.
  apply (wp_store_zeros h g); [lia..|]. intros m1 [T1 E1].
  wp_step. apply (wp_call (unread h g)); [apply call_unread|done|]. intros ok m2 [T2 E2].
  pose proof (emits_trans _ _ _ _ _ _ E1 E2) as E12.
  wp_step.
  { unfold fault. wp_step. wp_step. apply wp_upd. wp_steps. apply HQ. eapply pad_fail.
    - left. cbn. by rewrite T2, T1.
    - by apply emits_broken. }
  wp_step. apply wp_upd. wp_step. apply (wp_store mem (unread h g)); [apply unread_store, store_tail_h|]. intros m3 [T3 E3].
  assert (E13 : emits (unread h g) m m3 ((tail_addr h, 0) :: word_stores h (hTail_ (tp m)) (replicate (Z.to_nat pad) 0))).
  { exact (emits_trans _ _ _ _ _ [(tail_addr h, 0)] E12 E3). }
  cbn in T3. rewrite T2, T1 in T3.
  wp_step. apply (wp_release_notify (unread h g)); [apply call_unread|]. intros ok2 m4 [T4 E4].
  pose proof (emits_trans _ _ _ _ _ _ E13 E4) as E14.
  wp_step.
  { unfold fault. wp_step. wp_step. apply wp_upd. wp_steps. apply HQ. eapply pad_fail.
    - right. cbn. by rewrite T4, T3.
    - by apply emits_broken. }
  rewrite wrap_small by (eval_pows; lia).
  wp_step; wp_steps; apply HQ; (eapply pad_done; [done|by rewrite T4, T3|done|]).
  - right. split; [done|]. by apply Z.ltb_lt.
  - left. split; [done|]. by apply Z.ltb_ge.
Qed.

(** The cookie number of the next request, and the table once it is entered. *)
Definition fence_of (a : Action) t : Z :=
  wrap 16 (nextFence_ t ||| (if is_request a then 0 else 0x8000)).

Definition booked (a : Action) (dl : Z) (slot : nat) t : Transport W :=
  set_credits_ (credits_ t -32 reserve_of a) (set_nextFence_ (nextFence_ t +32 1)
    (set_pending_ (alter (fun _ => new_slot a (epoch_ t) dl (fence_of a t) (reserve_of a)) slot
       (pending_ t)) t)).

(** What [send] has established when it starts to write. *)
Record can_publish (a : Action) (slot : nat) t : Prop := {
  cp_action : validateAction a = Ok;
  cp_slot : exists p, pending_ t !! slot = Some p /\ used p = false;
  cp_next : nextFence_ t < 0x8000;
  cp_overlap : existsb (overlaps a) (pending_ t) = false;
  cp_credits : reserve_of a = 0 \/ reserve_of a < credits_ t;
}.

Lemma action_count a : validateAction a = Ok -> 2 <= a_count a <= 12.
Proof. unfold validateAction. intros H. repeat case_match; try done; lia. Qed.

Lemma reserve_range a : 0 <= reserve_of a <= 256.
Proof. unfold reserve_of. repeat case_match; lia. Qed.

Lemma fence_bits n (b : bool) : 0 <= n < 0x8000 ->
  Z.land (wrap 16 (n ||| (if b then 0 else 0x8000))) 0x7fff = n /\
  test (wrap 16 (n ||| (if b then 0 else 0x8000))) 0x8000 = negb b.
Proof.
  intros Hn. assert (Hb : forall i, 15 <= i -> Z.testbit n i = false).
  { intros i Hi. apply testbit_above with (w := 15); [|lia]. split; [lia|]. apply Hn. }
  assert (Hw : wrap 16 (n ||| (if b then 0 else 0x8000)) = n ||| (if b then 0 else 0x8000)).
  { apply wrap_small. change (word 16 (n ||| (if b then 0 else 0x8000))).
    apply word_lor; [lia|unfold word; change (2 ^ 16) with 65536; lia|]. destruct b; by split. }
  rewrite Hw. split.
  - apply Z.bits_inj'. intros i Hi. change 0x7fff with (Z.ones 15). rewrite Z.land_spec, Z.lor_spec.
    destruct (Z.lt_ge_cases i 15).
    + rewrite Z.ones_spec_low by lia. destruct b; [by rewrite Z.bits_0, orb_false_r, andb_true_r|].
      change 0x8000 with (BIT 15). rewrite testbit_BIT by lia.
      rewrite (proj2 (Z.eqb_neq _ _)) by lia. by rewrite orb_false_r, andb_true_r.
    + rewrite Z.ones_spec_high, andb_false_r by lia. by rewrite Hb.
  - change 0x8000 with (BIT 15) at 2. rewrite test_BIT by lia. rewrite Z.lor_spec, Hb by lia.
    by destruct b.
Qed.

Lemma new_slot_cost a e dl f : cost (new_slot a e dl f (reserve_of a)) = reserve_of a.
Proof. unfold cost, holds. cbn. unfold nonzero. destruct (Z.eqb_spec (reserve_of a) 0); cbn; lia. Qed.

Lemma new_slot_ok a e dl t :
  0 <= nextFence_ t < 0x8000 ->
  slot_ok e (nextFence_ t + 1) (new_slot a e dl (fence_of a t) (reserve_of a)).
Proof.
  intros Hn. destruct (fence_bits (nextFence_ t) (is_request a) Hn) as [Hf1 Hf2].
  pose proof (reserve_range a) as Hr.
  split; unfold fence_no, by_event; cbn -[Z.add fence_of]; try done.
  - unfold fence_of. rewrite Hf1. lia.
  - unfold nonzero. rewrite negb_true_iff, Z.eqb_neq. lia.
  - unfold nonzero, reserve_of, is_request. intros H1 H2.
    destruct (Z.eqb_spec (aw a 0) 0x4000); [done|]. by repeat case_match.
Qed.

Lemma booked_tinv a dl slot t :
  tinv t -> can_publish a slot t -> tinv (booked a dl slot t).
Proof.
  intros Hi [Ha (p & Hp & Hu) Hn Ho Hc]. pose proof (ti_next _ Hi) as Hnx.
  pose proof (rings_count _ Hi) as [_ Hg]. pose proof (reserve_range a) as Hr.
  pose proof (credits_range _ Hi) as Hcr. rewrite (ti_max _ Hi) in Hcr.
  assert (Hcr' : credits_ t <= 2 ^ 20) by (Z.div_mod_to_equations; lia).
  assert (Hcost : cost p = 0) by (unfold cost, holds; by rewrite Hu).
  eval_pows. assert (Hw1 : credits_ t -32 reserve_of a = credits_ t - reserve_of a)
    by (apply wrap_small; eval_pows; lia).
  assert (Hw2 : nextFence_ t +32 1 = nextFence_ t + 1) by (apply wrap_small; eval_pows; lia).
  eapply (tinv_insert t _ slot p (new_slot a (epoch_ t) dl (fence_of a t) (reserve_of a))); try done; cbn -[Z.add Z.sub held];
    rewrite ?new_slot_cost, ?Hcost, ?Hw1, ?Hw2; try lia.
  - apply Hi.
  - apply Hi.
  - exact (alter_as_insert _ _ _ _ Hp).
  - intros _. apply new_slot_ok. lia.
  - intros _. right. unfold fence_no. cbn -[fence_of]. unfold fence_of.
    destruct (fence_bits (nextFence_ t) (is_request a)) as [-> _]; lia.
  - intros _ Hb. right. intros j r Hr' Hh Hbr Hx. pose proof (proj1 (existsb_none _ _) Ho _ (list_elem_of_lookup_2 _ _ _ Hr')) as Hov.
    unfold overlaps, holds, by_event in *. cbn in *.
    apply andb_true_iff in Hh as [Hh1 Hh2]. rewrite Hh1, Hh2, Hbr, Hx, Z.eqb_refl in Hov.
    unfold is_request in Hov. destruct (Z.eqb_spec (aw a 0) 0x4000) as [E|]; [|done].
    by rewrite E in Hb.
Qed.

(** A ring size is a power of two, so masking is reduction modulo the size. *)
Lemma pow2_of_land n : 0 < n -> Z.land n (n - 1) = 0 -> n = 2 ^ Z.log2 n.
Proof.
  intros Hn Hl. destruct (Z.log2_spec n Hn) as [H1 H2].
  destruct (Z.eq_dec n (2 ^ Z.log2 n)) as [|Hne]; [done|]. exfalso.
  pose proof (Z.log2_nonneg n) as Hk.
  assert (Hb : Z.testbit (Z.land n (n - 1)) (Z.log2 n) = true); [|by rewrite Hl, Z.bits_0 in Hb].
  rewrite Z.land_spec, Z.bit_log2 by lia.
  replace (Z.log2 n) with (Z.log2 (n - 1)); [by apply Z.bit_log2; lia|].
  apply Z.log2_unique; lia.
Qed.

Lemma ring_mask r x : ringValid r = true -> Z.land x (count r - 1) = x mod count r.
Proof.
  intros H. unfold ringValid in H. rewrite !andb_true_iff, !Z.leb_le, Z.eqb_eq in H.
  destruct H as [[[_ H1] H2] H3]. rewrite wrap_small in H3 by (eval_pows; lia).
  rewrite (pow2_of_land (count r)) by (lia || done). by apply land_ones_low, Z.log2_nonneg.
Qed.

Lemma rings_valid t : tinv t -> ringValid (h2g_ t) = true /\ ringValid (g2h_ t) = true.
Proof. intros [_ _ Hr _ _ _ _ _ _ _ _]. unfold ringsValid in Hr. rewrite !andb_true_iff in Hr. tauto. Qed.

Lemma wire_length a f : validateAction a = Ok -> Z.of_nat (length (wire a f)) = a_count a + 1.
Proof.
  intros Ha%action_count. unfold wire. cbn [length]. rewrite length_fmap, length_seq. lia.
Qed.

(** Entering the request, writing the message and publishing the tail. *)
Definition next_tail (a : Action) t : Z := (hTail_ t + (a_count a + 1)) mod count (h2g_ t).

Inductive publish_outcome (a : Action) (dl : Z) (slot : nat) m : Status * Cookie -> machine W -> Prop :=
  | pub_ok m' :
      tp m' = set_hTail_ (next_tail a (tp m)) (booked a dl slot (tp m)) ->
      emits (unread (h2g_ (tp m)) (g2h_ (tp m))) m m'
        ((tail_addr (h2g_ (tp m)), next_tail a (tp m)) ::
         word_stores (h2g_ (tp m)) (hTail_ (tp m)) (wire a (fence_of a (tp m)))) ->
      publish_outcome a dl slot m
        (Ok, {| c_epoch := epoch_ (tp m); c_fence := fence_of a (tp m) |}) m'
  | pub_lost m' st :
      tp m' = set_broken_ true (booked a dl slot (tp m)) \/
      tp m' = set_broken_ true (set_hTail_ (next_tail a (tp m)) (booked a dl slot (tp m))) ->
      emits (unread (h2g_ (tp m)) (g2h_ (tp m))) m m' st ->
      publish_outcome a dl slot m
        (PublishedUnknown, {| c_epoch := epoch_ (tp m); c_fence := fence_of a (tp m) |}) m'.

Lemma wp_publish a dl slot (Q : Status * Cookie -> machine W -> Prop) m :
  tinv (tp m) -> validateAction a = Ok -> hTail_ (tp m) + (a_count a + 1) <= count (h2g_ (tp m)) ->
  (forall r m', publish_outcome a dl slot m r m' -> Q r m') -> wp (publish mem a dl slot) Q m.
Proof.
  intros Hi Ha Hl HQ. pose proof (rings_count _ Hi) as [Hc _]. pose proof (ti_tail _ Hi) as Ht.
  pose proof (action_count _ Ha) as Hn. eval_pows. unfold publish.
  set (t := tp m) in *. set (h := h2g_ t) in *. set (g := g2h_ t) in *.
  wp_step. wp_step. fold t. fold h. fold (fence_of a t).
  wp_step. apply wp_upd. wp_step. apply wp_upd. cbn [tp world trace].
  wp_step. apply (wp_store_words h g); [lia|by rewrite wire_length|]. intros m1 [T1 E1].
  wp_step. apply (wp_call (unread h g)); [apply call_unread|done|]. intros ok m2 [T2 E2].
  pose proof (emits_trans _ _ _ _ _ _ E1 E2) as E12. rewrite T1 in T2. cbn in T2.
  wp_step.
  { unfold fault. wp_step. wp_step. apply wp_upd. wp_steps. apply HQ. eapply pub_lost.
    - left. cbn. by rewrite T2.
    - apply emits_broken. exact E12. }
  assert (Htail : Z.land (hTail_ t +32 (a_count a + 1)) (count h - 1) = next_tail a t).
  { rewrite ring_mask by apply (rings_valid _ Hi). rewrite wrap_small by (eval_pows; lia). done. }
  rewrite Htail.
  wp_step. apply wp_upd. wp_step. apply (wp_store mem (unread h g)); [apply unread_store, store_tail_h|]. intros m3 [T3 E3].
  pose proof (emits_trans _ _ _ _ _ [(tail_addr h, next_tail a t)] E12 E3) as E13.
  cbn in T3. rewrite T2 in T3.
  wp_step. apply (wp_release_notify (unread h g)); [apply call_unread|]. intros ok2 m4 [T4 E4].
  pose proof (emits_trans _ _ _ _ _ _ E13 E4) as E14.
  wp_step; wp_steps.
  - unfold fault. wp_step. apply wp_upd. wp_steps. apply HQ. eapply pub_lost.
    + right. cbn. by rewrite T4, T3.
    + apply emits_broken. exact E14.
  - apply HQ, pub_ok; [by rewrite T4, T3|exact E14].
Qed.

(** The transport once the clock has been read. *)
Definition timed (now : Z) t : Transport W := set_lastTime_ now t.

(** Free words of the H2G ring, when the GuC has consumed up to [head]. *)
Definition free_words (head : Z) t : Z :=
  Z.land (head -32 hTail_ t -32 1) (count (h2g_ t) - 1).

(** [send] has passed its checks and read [head]. *)
Record at_ring (a : Action) (now head : Z) (slot : nat) m m0 : Prop := {
  ar_tp : tp m0 = timed now (tp m);
  ar_emits : emits (allowed m) m m0 [];
  ar_head : word 32 head;
  ar_read : exists evs, trace m0 = EvLoad (head_addr (h2g_ (tp m))) head :: evs ++ trace m;
  ar_space : a_count a + 1 <= free_words head (tp m);
  ar_can : can_publish a slot (tp m);
}.

Inductive send_outcome (a : Action) (now dl : Z) m : Status * Cookie -> machine W -> Prop :=
  | send_refused s m' :
      s <> Ok ->
      tp m' = tp m \/ tp m' = timed now (tp m) \/ tp m' = set_broken_ true (timed now (tp m)) ->
      emits (allowed m) m m' [] ->
      send_outcome a now dl m (s, no_cookie) m'
  | send_padded m0 head slot s m' :
      at_ring a now head slot m m0 ->
      pad_outcome (a_count a + 1) (free_words head (tp m)) m0 (Some s) m' ->
      send_outcome a now dl m (s, no_cookie) m'
  | send_written m0 m1 head slot r m' :
      at_ring a now head slot m m0 ->
      pad_outcome (a_count a + 1) (free_words head (tp m)) m0 None m1 ->
      publish_outcome a dl slot m1 r m' ->
      send_outcome a now dl m r m'.

Lemma find_last_some {A} (p : A -> bool) (l : list A) i :
  find_last p l = Some i -> exists x, l !! i = Some x /\ p x = true.
Proof.
  revert i. induction l as [|x l IH]; intros i H; cbn in H; [done|].
  destruct (find_last p l) as [j|]; simplify_eq.
  - by apply IH.
  - destruct (p x) eqn:E; simplify_eq. by exists x.
Qed.

Lemma can_publish_tail a slot t n : can_publish a slot t -> can_publish a slot (set_hTail_ n t).
Proof. by intros []. Qed.

Lemma can_publish_time a slot t n : can_publish a slot t <-> can_publish a slot (set_lastTime_ n t).
Proof. split; by intros []. Qed.

Lemma tinv_time n t : tinv t -> tinv (set_lastTime_ n t).
Proof. by intros []. Qed.

Lemma tinv_tail n t : tinv t -> 0 <= n < count (h2g_ t) -> tinv (set_hTail_ n t).
Proof. by intros []. Qed.

Lemma pad_continues len space m m1 :
  tinv (tp m) -> 0 < len <= 13 -> pad_outcome len space m None m1 ->
  tinv (tp m1) /\ (tp m1 = tp m \/ tp m1 = set_hTail_ 0 (tp m)) /\
  hTail_ (tp m1) + len <= count (h2g_ (tp m1)).
Proof.
  intros Hi Hl H. inversion H as [Hle|r m' Hlt T E Hs|]; subst; [by auto|].
  pose proof (rings_count _ Hi) as [? _]. rewrite T. split_and!; [|by right|cbn; lia].
  apply tinv_tail; [done|lia].
Qed.

Lemma word_land_mask t x : tinv t -> 0 <= Z.land x (count (h2g_ t) - 1) < 2 ^ 20.
Proof.
  intros Hi. rewrite ring_mask by apply (rings_valid _ Hi). pose proof (rings_count _ Hi) as [? _].
  pose proof (Z.mod_pos_bound x (count (h2g_ t)) ltac:(lia)). lia.
Qed.

Lemma wp_send a now dl (Q : Status * Cookie -> machine W -> Prop) m :
  tinv (tp m) -> (forall r m', send_outcome a now dl m r m' -> Q r m') -> wp (send mem a now dl) Q m.
Proof.
  intros Hi HQ. unfold send. wp_step; [wp_steps; apply HQ, send_refused; [done|by left|apply emits_refl]|].
  apply orb_false_iff in Hcond as [Hv _]. apply negb_false_iff, isOk_true in Hv.
  wp_step. apply wp_clock; intros Hclk.
  { wp_step; [|done]. wp_steps. apply HQ, send_refused; [done|by left|apply emits_refl]. }
  wp_step; [done|]. set (m0 := {| tp := timed now (tp m); world := world m; trace := trace m |}).
  assert (Hi0 : tinv (tp m0)) by by apply tinv_time.
  wp_step. apply wp_checkDescriptors; [apply Hi|]. intros s m1 [Hc1 He1] Hok.
  wp_step.
  { wp_steps. apply HQ, send_refused; [|by right|exact He1].
    by apply negb_true_iff, isOk_false in Hcond0. }
  apply negb_false_iff, isOk_true in Hcond0. specialize (Hok Hcond0).
  wp_step. wp_step. wp_step.
  apply (wp_call (allowed m)); [apply call_allowed|done|]. intros ok m2 [T2 E2].
  pose proof (emits_trans _ _ _ _ _ _ He1 E2) as E12. rewrite Hok in T2.
  assert (Hrefuse : forall s, s <> Ok -> Q (s, no_cookie) m2).
  { intros s' Hs'. apply HQ, send_refused; [done|by right; left|exact E12]. }
  rewrite Hok. cbn [tp m0]. wp_step; [wp_steps; by apply Hrefuse|].
  wp_step; [wp_steps; by apply Hrefuse|]. wp_step; [wp_steps; by apply Hrefuse|].
  destruct (find_last _ _) as [slot|] eqn:Hslot; [|wp_steps; by apply Hrefuse].
  wp_step; [wp_steps; by apply Hrefuse|]. wp_step. apply (wp_load mem (allowed m)).
  { intros v. apply load_head_h. }
  intros head m3 Hw Hrd [T3 E3]. pose proof (emits_trans _ _ _ _ _ _ E12 E3) as E13.
  wp_step.
  { wp_steps. apply HQ, send_refused; [done|right; left; by rewrite T3|exact E13]. }
  change (Z.land (head -32 hTail_ (set_lastTime_ now (tp m)) -32 1)
    (count (h2g_ (set_lastTime_ now (tp m))) - 1)) with (free_words head (tp m)) in *.
  assert (Har : at_ring a now head slot m m3).
  { split; [by rewrite T3, T2|exact E13|done| |by apply Z.ltb_ge|].
    { destruct E12 as (evs & E12 & _). exists evs. rewrite Hrd, E12. done. }
    apply (can_publish_time _ _ _ now). destruct (find_last_some _ _ _ Hslot) as (p & Hp & Hu).
    split; [done| |by apply Z.leb_gt|done|].
    - exists p. split; [done|by apply negb_true_iff].
    - apply andb_false_iff in Hcond4 as [Hz|Hz]; [left|right; by apply Z.leb_gt].
      unfold nonzero in Hz. apply negb_false_iff, Z.eqb_eq in Hz. done. }
  pose proof (action_count _ Hv) as Hn. pose proof (word_land_mask _ (head -32 hTail_ (tp m) -32 1) Hi) as Hsp.
  fold (free_words head (tp m)) in Hsp. pose proof Har as [A1 A2 A3 _ A4 A5].
  wp_step. apply wp_pad_ring; [rewrite A1; by apply tinv_time|lia|eval_pows; lia|lia|].
  intros r m4 Hpad. destruct r as [s'|].
  { wp_steps. apply HQ. by eapply send_padded. }
  apply pad_continues in Hpad as Hcont; [|rewrite A1; by apply tinv_time|lia].
  destruct Hcont as (Hi4 & _ & Hl4).
  apply wp_publish; [done..|]. intros r m5 Hpub. apply HQ. by eapply send_written.
Qed.

(** An operation that leaves the table alone keeps the invariant. *)
Lemma minv_upd m m' f st :
  minv m -> tp m' = f (tp m) -> same_rings (tp m) (f (tp m)) -> (tinv (tp m) -> tinv (f (tp m))) ->
  emits (allowed m) m m' st -> minv m'.
Proof.
  intros Hm T Hr Hf He. eapply emits_minv; [done|by rewrite T| |done]. rewrite T. apply Hf, Hm.
Qed.

Lemma tinv_broken_tail n t :
  tinv t -> 0 <= n < count (h2g_ t) -> tinv (set_broken_ true (set_hTail_ n t)).
Proof. intros. by apply tinv_broken, tinv_tail. Qed.

Lemma zero_tail t : tinv t -> 0 <= 0 < count (h2g_ t).
Proof. intros Hi. pose proof (rings_count _ Hi). lia. Qed.

Lemma emits_allowed m m' st :
  emits (unread (h2g_ (tp m)) (g2h_ (tp m))) m m' st -> emits (allowed m) m m' st.
Proof. apply emits_mono. by intros e []. Qed.

Lemma pad_minv len space m r m' : minv m -> pad_outcome len space m r m' -> minv m'.
Proof.
  intros Hm H. pose proof Hm as [Hi _]. inversion H as [|r' m'' _ T E _|m'' st [T|T] E]; subst; [done|..]; apply emits_allowed in E.
  - eapply (minv_upd m _ (set_hTail_ 0)); [done|done|by split| |done].
    intros. by apply tinv_tail, zero_tail.
  - eapply (minv_upd m _ (set_broken_ true)); [done|done|by split| |done]. apply tinv_broken.
  - eapply (minv_upd m _ (fun t => set_broken_ true (set_hTail_ 0 t))); [done|done|by split| |done].
    intros. by apply tinv_broken_tail, zero_tail.
Qed.

Lemma next_tail_range a t : tinv t -> 0 <= next_tail a t < count (h2g_ t).
Proof. intros Hi. apply Z.mod_pos_bound. pose proof (rings_count _ Hi). lia. Qed.

Lemma publish_minv a dl slot m r m' :
  minv m -> can_publish a slot (tp m) -> publish_outcome a dl slot m r m' -> minv m'.
Proof.
  intros Hm Hc H. pose proof Hm as [Hi _]. pose proof (booked_tinv a dl slot _ Hi Hc) as Hb.
  pose proof (next_tail_range a _ Hi) as Hn.
  inversion H as [m'' T E|m'' st [T|T] E]; subst; apply emits_allowed in E;
    (eapply emits_minv; [done|rewrite T; by split|rewrite T|done]).
  - by apply tinv_tail.
  - by apply tinv_broken.
  - by apply tinv_broken_tail.
Qed.

Lemma at_ring_minv a now head slot m m0 : minv m -> at_ring a now head slot m m0 -> minv m0.
Proof.
  intros Hm [T E _ _ _ _]. eapply (minv_upd m _ (timed now)); [done|done|by split| |done]. apply tinv_time.
Qed.

Lemma send_minv a now dl m r m' : minv m -> send_outcome a now dl m r m' -> minv m'.
Proof.
  intros Hm H. inversion H as [s m'' Hs Ht E|m0 head slot s m'' Har Hp|m0 m1 head slot r' m'' Har Hp Hw]; subst.
  - destruct Ht as [T|[T|T]].
    + eapply (minv_upd m _ id); [done|done|by split|done|done].
    + eapply (minv_upd m _ (timed now)); [done|done|by split|apply tinv_time|done].
    + eapply (minv_upd m _ (fun t => set_broken_ true (timed now t))); [done|done|by split| |done].
      intros. by apply tinv_broken, tinv_time.
  - eapply pad_minv; [|done]. by eapply at_ring_minv.
  - pose proof (at_ring_minv _ _ _ _ _ _ Hm Har) as Hm0. pose proof (pad_minv _ _ _ _ _ Hm0 Hp) as Hm1.
    eapply publish_minv; [done| |done]. destruct Har as [T _ _ _ _ Hc].
    apply (can_publish_time _ _ _ now) in Hc. fold (timed now (tp m)) in Hc. rewrite <- T in Hc.
    inversion Hp as [|r'' m3 _ T1 _ _|]; subst; [done|]. rewrite T1. by apply can_publish_tail.
Qed.

(** * Replies *)

Lemma wp_expire now (Q : Status -> machine W -> Prop) m :
  (now < lastTime_ (tp m) -> Q Invalid m) ->
  (Q Ok {| tp := set_pending_ (expire_one now <$> pending_ (tp m)) (timed now (tp m));
           world := world m; trace := trace m |}) -> wp (expire now) Q m.
Proof.
  intros H1 H2. unfold expire. wp_step. apply wp_clock; intros Hc.
  - wp_step; [|done]. wp_steps. by apply H1.
  - wp_step; [done|]. wp_step. by apply wp_upd.
Qed.

Lemma expire_view now p : same_view p (expire_one now p).
Proof. unfold expire_one. by case_match. Qed.

Lemma expire_tinv now t : tinv t -> tinv (set_pending_ (expire_one now <$> pending_ t) (timed now t)).
Proof.
  intros Hi. eapply tinv_view; [done|by split|apply Hi|apply Hi|done|done|].
  cbn. apply Forall2_fmap_r. apply Forall_Forall2_diag, Forall_true. intros p. apply expire_view.
Qed.

Lemma expire_minv now m :
  minv m -> minv {| tp := set_pending_ (expire_one now <$> pending_ (tp m)) (timed now (tp m));
                    world := world m; trace := trace m |}.
Proof. intros [Hi Htr]. split; [by apply expire_tinv|done]. Qed.

(** The slot of a request after a message of a type answered it. *)
Definition answered (msg : Message) (type : Z) (p : Pending) : Pending :=
  let p := record_reply msg p in
  if type =? 3 then
    if bool_decide (rstate (reply p) = RTimedOut) then p else set_reply (set_rstate RBusy (reply p)) p
  else finish_reply type (set_reply (set_creditsHeld false (reply p)) p).

(** Why a message of a type is an answer to a request. *)
Definition answers (msg : Message) (type : Z) (p : Pending) : Prop :=
  if type =? 1 then
    holds p = true /\ context p = mh msg 1 /\
    ((Z.land (mh msg 0) 0xffff = 0x1002 /\ action p = 0x1001 /\ mode p = mh msg 2) \/
     (Z.land (mh msg 0) 0xffff = 0x4600 /\ action p = 0x4503))
  else
    (type = 3 \/ type = 5 \/ type = 6 \/ type = 7) /\
    c_fence (cookie (reply p)) = m_fence msg /\
    (test (m_fence msg) 0x8000 = true -> type = 6) /\
    (test (m_fence msg) 0x8000 = false -> holds p = true).

Definition msg_type (msg : Message) : Z := Z.land (Z.shiftr (mh msg 0) 28) 7.

Inductive dispatch_outcome (msg : Message) m : Status -> machine W -> Prop :=
  | disp_event :
      msg_type msg = 1 -> Z.land (mh msg 0) 0xffff <> 0x1002 -> Z.land (mh msg 0) 0xffff <> 0x4600 ->
      dispatch_outcome msg m Ok m
  | disp_fault s :
      s = Corrupt \/ s = UnknownCookie ->
      dispatch_outcome msg m s {| tp := set_broken_ true (tp m); world := world m; trace := trace m |}
  | disp_answer i p :
      pending_ (tp m) !! i = Some p -> used p = true -> terminalReceived p = false ->
      answers msg (msg_type msg) p ->
      dispatch_outcome msg m Ok
        {| tp := set_credits_ (credits_ (tp m) + (if msg_type msg =? 3 then 0 else cost p))
                   (set_pending_ (<[i := answered msg (msg_type msg) p]> (pending_ (tp m))) (tp m));
           world := world m; trace := trace m |}.

Lemma find_first_some {A} (p : A -> bool) (l : list A) i :
  find_first p l = Some i -> exists x, l !! i = Some x /\ p x = true.
Proof.
  revert i. induction l as [|x l IH]; intros i H; cbn in H; [done|].
  destruct (p x) eqn:E; simplify_eq; [by exists x|].
  destruct (find_first p l) as [j|]; simplify_eq/=. by apply IH.
Qed.

Lemma alter_alter_insert {A} (f g : A -> A) (l : list A) (i : nat) x :
  l !! i = Some x -> alter g i (alter f i l) = <[i := g (f x)]> l.
Proof.
  intros H. rewrite (alter_as_insert f l i x H), (alter_as_insert g _ i (f x)).
  - by rewrite list_insert_insert_eq.
  - apply list_lookup_insert_eq. by eapply lookup_lt_Some.
Qed.

Lemma wp_settle msg i p (Q : Status -> machine W -> Prop) m :
  tinv (tp m) -> pending_ (tp m) !! i = Some p -> used p = true -> answers msg (msg_type msg) p ->
  (forall s m', dispatch_outcome msg m s m' -> Q s m') -> wp (settle msg (msg_type msg) i) Q m.
Proof.
  intros Hi Hp Hu Ha HQ. unfold settle. wp_step. wp_step. rewrite Hp. change (default no_pending (Some p)) with p.
  wp_step; [unfold fault; wp_step; apply wp_upd; wp_steps; apply HQ, disp_fault; by left|].
  wp_step. apply wp_upd. pose proof (disp_answer msg m i p Hp Hu Hcond Ha) as Hd. unfold answered in Hd.
  pose proof (cost_held _ _ _ Hi Hp) as Hch. unfold cost, holds in *. rewrite Hu in *. cbn [andb] in *.
  wp_step.
  - rewrite Hcond0 in Hd. wp_step. apply wp_upd. wp_steps. apply HQ.
    cbn [tp]. rewrite Z.add_0_r in Hd.
    replace (set_pending_ _ _) with
      (set_credits_ (credits_ (tp m)) (set_pending_ (<[i := if bool_decide (rstate (reply (record_reply msg p)) = RTimedOut)
        then record_reply msg p else set_reply (set_rstate RBusy (reply (record_reply msg p))) (record_reply msg p)]>
        (pending_ (tp m))) (tp m))); [exact Hd|].
    cbn [pending_ set_pending_]. erewrite alter_alter_insert by done. done.
  - rewrite Hcond0 in Hd. pose proof (rings_count _ Hi) as [_ Hg].
    pose proof (credits_range _ Hi) as Hcr. pose proof (ti_max _ Hi) as Hmax.
    assert (Hmx : maxCredits_ (tp m) < 2 ^ 20) by (Z.div_mod_to_equations; lia). eval_pows.
    wp_step.
    + rewrite Hcond1 in Hch, Hd. rewrite (wrap_small 32 (maxCredits_ _ - _)) by (eval_pows; lia).
      wp_step; [apply Z.ltb_lt in Hcond2; lia|].
      wp_step. apply wp_upd. wp_step. apply wp_upd. wp_steps. apply HQ. cbn [tp set_pending_ set_credits_ pending_ credits_].
      erewrite alter_alter_insert by done. rewrite wrap_small by (eval_pows; lia). exact Hd.
    + rewrite Hcond1 in Hd. wp_step. apply wp_upd. wp_steps. apply HQ.
      cbn [tp set_pending_ pending_]. erewrite alter_alter_insert by done.
      rewrite Z.add_0_r in Hd.
      replace (finish_reply (msg_type msg) (record_reply msg p)) with
        (finish_reply (msg_type msg) (set_reply (set_creditsHeld false (reply (record_reply msg p))) (record_reply msg p)));
        [exact Hd|].
      do 2 f_equal. unfold record_reply. destruct p as [[] ? ? ? ? ? ? ?]. cbn in *. by subst.
Qed.

Lemma match_event_ok t msg i act :
  act = Z.land (mh msg 0) 0xffff -> msg_type msg = 1 -> act = 0x1002 \/ act = 0x4600 ->
  match_event t msg act = inr i ->
  exists p, pending_ t !! i = Some p /\ used p = true /\ answers msg (msg_type msg) p.
Proof.
  intros -> Ht Ha H. unfold match_event in H. case_if_in H as Hbad; [done|].
  destruct (find_last _ _) as [j|] eqn:Hf; [|done].
  destruct (find_last_some _ _ _ Hf) as (p & Hp & Hq).
  case_if_in H as Hm; [done|]. simplify_eq. exists p. rewrite Hp in Hm. cbn [from_option] in Hm.
  rewrite !andb_true_iff, !Z.eqb_eq in Hq. destruct Hq as [[[Hu Hh] Hc] Hx].
  split_and!; [done|done|]. unfold answers. rewrite Ht. change (1 =? 1) with true. cbv iota.
  split_and!; [unfold holds; by rewrite Hu, Hh|done|].
  destruct Ha as [Ha|Ha]; rewrite Ha in *; [left|by right].
  split_and!; [done|done|]. apply negb_false_iff, Z.eqb_eq in Hm. done.
Qed.

Lemma match_reply_ok t msg i :
  msg_type msg <> 1 -> match_reply t msg (msg_type msg) = inr i ->
  exists p, pending_ t !! i = Some p /\ used p = true /\ answers msg (msg_type msg) p.
Proof.
  intros Ht H. unfold match_reply in H. case_if_in H as Hty; [done|]. case_if_in H as Hcnt; [done|].
  destruct (find _ _) as [j|] eqn:Hf; [|done].
  destruct (find_first_some _ _ _ Hf) as (p & Hp & Hq).
  case_if_in H as Hfast; [done|]. case_if_in H as Hreq; [done|]. simplify_eq. exists p.
  unfold has_cookie in Hq. cbn [c_fence c_epoch] in Hq. rewrite !andb_true_iff, !Z.eqb_eq in Hq.
  destruct Hq as [[Hu _] Hc]. rewrite Hp in Hreq. cbn [from_option] in Hreq.
  split_and!; [done|done|]. unfold answers. rewrite (proj2 (Z.eqb_neq _ _)) by done.
  apply negb_false_iff in Hty. rewrite !orb_true_iff, !Z.eqb_eq in Hty.
  split_and!; [tauto|done| |].
  - intros Hb. rewrite Hb in Hfast. cbn in Hfast. by apply negb_false_iff, Z.eqb_eq in Hfast.
  - intros Hb. rewrite Hb in Hreq. cbn in Hreq. apply negb_false_iff in Hreq.
    unfold holds. by rewrite Hu, Hreq.
Qed.

Lemma match_fault_status t msg act type s :
  (match_event t msg act = inl s \/ match_reply t msg type = inl s) -> s = Corrupt \/ s = UnknownCookie.
Proof.
  unfold match_event, match_reply. intros [H|H]; repeat case_match; simplify_eq; auto.
Qed.

Lemma wp_dispatch msg (Q : Status -> machine W -> Prop) m :
  tinv (tp m) -> (forall s m', dispatch_outcome msg m s m' -> Q s m') -> wp (dispatch msg) Q m.
Proof.
  intros Hi HQ.
  assert (Hfault : forall s, s = Corrupt \/ s = UnknownCookie -> wp (fault s) Q m).
  { intros s Hs. unfold fault. wp_step. apply wp_upd. wp_steps. by apply HQ, disp_fault. }
  unfold dispatch. wp_step. wp_step. fold (msg_type msg).
  wp_step; [by apply Hfault; left|]. wp_step.
  - apply Z.eqb_eq in Hcond0. wp_step.
    { wp_steps. apply HQ. apply andb_true_iff in Hcond1 as [H1 H2].
      rewrite negb_true_iff, Z.eqb_neq in H1, H2. by apply disp_event. }
    destruct (match_event _ _ _) as [s|i] eqn:Hm.
    + apply Hfault. eapply (match_fault_status _ _ _ 0). by left.
    + assert (Hact : Z.land (mh msg 0) 0xffff = 0x1002 \/ Z.land (mh msg 0) 0xffff = 0x4600).
      { apply andb_false_iff in Hcond1 as [H|H]; apply negb_false_iff, Z.eqb_eq in H; auto. }
      destruct (match_event_ok _ _ _ _ eq_refl Hcond0 Hact Hm) as (p & Hp & Hu & Ha).
      by eapply wp_settle.
  - apply Z.eqb_neq in Hcond0. destruct (match_reply _ _ _) as [s|i] eqn:Hm.
    + apply Hfault. eapply (match_fault_status _ _ 0). right. exact Hm.
    + destruct (match_reply_ok _ _ _ Hcond0 Hm) as (p & Hp & Hu & Ha). by eapply wp_settle.
Qed.

(** What an answer changes of a slot, as far as the invariant reads it. *)
Lemma answered_view msg type p :
  used (answered msg type p) = used p /\ cookie (reply (answered msg type p)) = cookie (reply p) /\
  action (answered msg type p) = action p /\ context (answered msg type p) = context p /\
  reservation (answered msg type p) = reservation p /\
  creditsHeld (reply (answered msg type p)) = (if type =? 3 then creditsHeld (reply p) else false) /\
  terminalReceived (answered msg type p) = (if type =? 3 then terminalReceived p else true).
Proof.
  unfold answered, finish_reply, record_reply. destruct (type =? 3); [case_match; done|].
  cbn. case_match; done.
Qed.

Lemma dispatch_minv msg m s m' : minv m -> dispatch_outcome msg m s m' -> minv m'.
Proof.
  intros Hm H. inversion H as [|s' Hs|i p Hp Hu Ht Ha]; subst; [done|..].
  { destruct Hm. split; [by apply tinv_broken|done]. }
  destruct Hm as [Hi Htr]. split; [|done]. cbn [tp].
  destruct (answered_view msg (msg_type msg) p) as (Vu & Vk & Va & Vc & Vr & Vh & Vt).
  pose proof (cost_held _ _ _ Hi Hp) as Hch. pose proof (ti_credits _ Hi) as [Hc0 _].
  assert (Hcost : cost (answered msg (msg_type msg) p) = if msg_type msg =? 3 then cost p else 0).
  { unfold cost, holds. rewrite Vu, Vh, Vr. destruct (msg_type msg =? 3); [done|]. by rewrite andb_false_r. }
  set (q := answered msg (msg_type msg) p) in *. clearbody q.
  eapply (tinv_insert (tp m) _ i p q Hi); [by split|apply Hi|apply Hi|done|done|..].
  - cbn [credits_ set_credits_]. rewrite Hcost. case_match; lia.
  - cbn [credits_ set_credits_]. case_match; lia.
  - change (nextFence_ (tp m) <= nextFence_ (tp m) <= 0x8000). pose proof (ti_next _ Hi). lia.
  - intros _. destruct (ti_slots _ Hi _ _ Hp Hu) as [S1 S2 S3 S4 S5 S6].
    split; unfold fence_no, by_event; rewrite ?Vk, ?Va, ?Vr, ?Vh, ?Vt;
      [exact S1|exact S2|exact S3|..]; destruct (msg_type msg =? 3).
    + exact S4.
    + discriminate.
    + exact S5.
    + discriminate.
    + exact S6.
    + reflexivity.
  - intros _. left. split; [done|]. unfold fence_no. by rewrite Vk.
  - unfold holds, by_event. rewrite Vu, Vh, Va, Vc, Hu. cbn [andb]. intros Hh Hb. left.
    destruct (msg_type msg =? 3); [|discriminate]. split_and!; [exact Hh|exact Hb|reflexivity].
Qed.

(** * Receiving *)

Lemma wp_load_words h g i n (Q : list Z -> machine W -> Prop) m :
  ringValid g = true ->
  (forall ws m', length ws = n -> Forall (word 32) ws -> steps (access_ok h g) m m' [] -> Q ws m') ->
  wp (load_words mem g i n) Q m.
Proof.
  intros Hg. revert i m Q. induction n as [|n IH]; intros i m Q HQ; cbn [load_words].
  - apply HQ; [done|done|apply steps_refl].
  - wp_step. apply (wp_load mem (access_ok h g)).
    { intros v. apply load_word_g. rewrite ring_mask by done. apply Z.mod_pos_bound.
      unfold ringValid in Hg. rewrite !andb_true_iff, !Z.leb_le in Hg. lia. }
    intros v m1 Hv _ H1. wp_step. apply IH. intros ws m2 Hl Hw H2. wp_steps.
    apply HQ; [cbn; by rewrite Hl|by constructor|by eapply steps_quiet].
Qed.

(** The transport after the deadlines have been checked. *)
Definition expired_tp (now : Z) t : Transport W :=
  set_pending_ (expire_one now <$> pending_ t) (timed now t).

Inductive receive_outcome (epoch now : Z) m : Status * Message -> machine W -> Prop :=
  | recv_none s m' :
      s <> Ok ->
      tp m' = tp m \/ tp m' = expired_tp now (tp m) \/ tp m' = set_broken_ true (expired_tp now (tp m)) ->
      emits (allowed m) m m' [] ->
      receive_outcome epoch now m (s, no_message) m'
  | recv_rejected msg m1 s m2 :
      tp m1 = expired_tp now (tp m) -> emits (allowed m) m m1 [] ->
      s <> Ok -> dispatch_outcome msg m1 s m2 ->
      receive_outcome epoch now m (s, msg) m2
  | recv_taken msg m1 m2 n s m' st :
      tp m1 = expired_tp now (tp m) -> emits (allowed m) m m1 [] ->
      m_count msg = n -> 1 <= n <= 255 -> length (m_hxg msg) = maxHxgWords ->
      dispatch_outcome msg m1 Ok m2 ->
      (s = Ok /\ tp m' = set_gHead_ ((gHead_ (tp m) + 1 + n) mod count (g2h_ (tp m))) (tp m2)) \/
      (s = IoFailure /\ (tp m' = set_broken_ true (tp m2) \/
        tp m' = set_broken_ true (set_gHead_ ((gHead_ (tp m) + 1 + n) mod count (g2h_ (tp m))) (tp m2)))) ->
      emits (allowed m) m2 m' st ->
      Forall (fun x => x.1 = head_addr (g2h_ (tp m))) st ->
      receive_outcome epoch now m (s, msg) m'.

Lemma land_255 x : 0 <= Z.land x 255 <= 255.
Proof.
  change 255 with (2 ^ 8 - 1). rewrite land_ones_low by lia.
  pose proof (Z.mod_pos_bound x (2 ^ 8) ltac:(done)). lia.
Qed.

Lemma wp_receive epoch now (Q : Status * Message -> machine W -> Prop) m :
  tinv (tp m) -> (forall r m', receive_outcome epoch now m r m' -> Q r m') ->
  wp (receive mem epoch now) Q m.
Proof.
  intros Hi HQ. unfold receive. wp_step. wp_step.
  wp_step; [wp_steps; apply HQ, recv_none; [done|by left|apply emits_refl]|].
  wp_step. apply wp_expire; [intros _; wp_step; [|done]; wp_steps; apply HQ, recv_none; [done|by left|apply emits_refl]|].
  wp_step; [done|]. fold (expired_tp now (tp m)).
  set (m0 := {| tp := expired_tp now (tp m); world := world m; trace := trace m |}).
  assert (Hi0 : tinv (tp m0)) by by apply expire_tinv.
  wp_step. apply wp_checkDescriptors; [apply Hi|]. intros s m1 [Hc1 He1] Hok.
  wp_step.
  { wp_steps. apply HQ, recv_none; [by apply negb_true_iff, isOk_false in Hcond1|by right|exact He1]. }
  apply negb_false_iff, isOk_true in Hcond1. specialize (Hok Hcond1).
  set (h := h2g_ (tp m)) in *. set (g := g2h_ (tp m)) in *.
  wp_step. apply (wp_load mem (access_ok h g)); [intros v; apply load_tail_g|]. intros tail m2 Hw2 _ [T2 E2].
  pose proof (emits_trans _ _ _ _ _ _ He1 E2) as E12. rewrite Hok in T2.
  wp_step. apply (wp_call (access_ok h g)); [apply call_access|done|]. intros ok m3 [T3 E3].
  pose proof (emits_trans _ _ _ _ _ _ E12 E3) as E13. rewrite T2 in T3.
  assert (Hstop : forall s m4, s <> Ok -> tp m4 = expired_tp now (tp m) -> emits (access_ok h g) m m4 [] ->
    wp (bind (fault s) (fun s => ret (s, no_message))) Q m4).
  { intros s' m4 Hs T4 E4. unfold fault. wp_step. wp_step. apply wp_upd. wp_steps.
    apply HQ, recv_none; [done| |by apply emits_broken]. right; right. cbn. by rewrite T4. }
  wp_step; [by apply Hstop|].
  wp_step; [wp_steps; apply HQ, recv_none; [done|by right; left|exact E13]|].
  wp_step. apply (wp_load mem (access_ok h g)); [intros v; apply load_word_g, (ti_head _ Hi)|]. intros header m4 Hw4 _ [T4 E4].
  pose proof (emits_trans _ _ _ _ _ _ E13 E4) as E14. rewrite T3 in T4.
  wp_step; [by apply Hstop|].
  assert (Hn : 1 <= Z.land header 255 <= 255).
  { pose proof (land_255 header). apply orb_false_iff in Hcond4 as [Hcond4 _].
    apply orb_false_iff in Hcond4 as [_ Hz]. apply Z.eqb_neq in Hz. lia. }
  wp_step. apply (wp_load_words h g); [apply (rings_valid _ Hi)|]. intros ws m5 Hl _ [T5 E5].
  pose proof (emits_trans _ _ _ _ _ _ E14 E5) as E15. rewrite T4 in T5.
  set (msg := {| m_fence := _; m_hxg := _; m_count := _ |}).
  assert (Hlen : length (m_hxg msg) = maxHxgWords).
  { cbn [m_hxg msg]. rewrite length_app, length_replicate, Hl. unfold maxHxgWords. lia. }
  wp_step. apply wp_dispatch; [by rewrite T5|]. intros s' m6 Hd.
  wp_step.
  { wp_steps. apply HQ. eapply recv_rejected; [exact T5|exact E15| |exact Hd].
    by apply negb_true_iff, isOk_false in Hcond5. }
  apply negb_false_iff, isOk_true in Hcond5 as ->.
  assert (Hout : forall s m7 st, (s = Ok /\ tp m7 = set_gHead_ ((gHead_ (tp m) + 1 + Z.land header 255) mod count g) (tp m6)) \/
    (s = IoFailure /\ (tp m7 = set_broken_ true (tp m6) \/
      tp m7 = set_broken_ true (set_gHead_ ((gHead_ (tp m) + 1 + Z.land header 255) mod count g) (tp m6)))) ->
    emits (access_ok h g) m6 m7 st -> Forall (fun x => x.1 = head_addr g) st -> Q (s, msg) m7).
  { intros s0 m7 st Hs E7 F7. apply HQ. by eapply (recv_taken _ _ _ msg _ _ _ _ _ _ T5 E15). }
  assert (Hhead : Z.land (gHead_ (tp m) +32 1 +32 Z.land header 255) (count g - 1) =
    (gHead_ (tp m) + 1 + Z.land header 255) mod count g).
  { rewrite ring_mask by apply (rings_valid _ Hi). pose proof (rings_count _ Hi) as [_ Hg].
    pose proof (ti_head _ Hi) as Hh. fold g in Hg, Hh. eval_pows.
    rewrite (wrap_small 32 (gHead_ (tp m) + 1)), wrap_small by (eval_pows; lia). done. }
  wp_step. apply (wp_call (access_ok h g)); [apply call_access|done|]. intros ok2 m7 [T7 E7].
  wp_step.
  { unfold fault. wp_step. wp_step. apply wp_upd. wp_steps. eapply Hout; [|by apply emits_broken|done].
    right. split; [done|]. left. cbn. by rewrite T7. }
  rewrite Hhead. wp_step. apply wp_upd. wp_step. apply (wp_store mem (access_ok h g)); [apply store_head_g|]. intros m8 [T8 E8].
  pose proof (emits_trans _ _ _ _ _ _ E7 E8) as E78. cbn in T8. rewrite T7 in T8.
  wp_step. apply (wp_call (access_ok h g)); [apply call_access|done|]. intros ok3 m9 [T9 E9].
  pose proof (emits_trans _ _ _ _ _ _ E78 E9) as E79. rewrite T8 in T9.
  wp_step.
  - unfold fault. wp_step. wp_step. apply wp_upd. wp_steps. eapply Hout; [|by apply emits_broken|by repeat constructor].
    right. split; [done|]. right. cbn. by rewrite T9.
  - wp_steps. eapply Hout; [|done|by repeat constructor]. by left.
Qed.
End Ops.
