(* ===== verification/GucTransportReach.v ===== *)
(** Every state of the GuC transport that a sequence of operations can reach, with any
    GuC and any adapter, satisfies the invariant of [GucTransportInv]; the states of a
    request that are final never change. *)
From stdpp Require Import base numbers list sets relations.
From S2P Require Import Prelude.
From S2P Require Import XeFirmware.
From S2P Require Import StateWp.
From S2P Require Import GucTransport.
From S2P Require Import GucTransportInv.
From S2P Require Import GucTransportOps.
Import XeGuC.

Section Reach.
Context {W : Type} (mem : Memory W).
Implicit Types (t : Transport W) (m : machine W).

Lemma dispatch_rings msg m s m' :
  dispatch_outcome msg m s m' ->
  same_rings (tp m) (tp m') /\ hTail_ (tp m') = hTail_ (tp m) /\ gHead_ (tp m') = gHead_ (tp m) /\
  nextFence_ (tp m') = nextFence_ (tp m) /\ trace m' = trace m.
Proof. destruct 1; (split_and!; [split; reflexivity|reflexivity..]). Qed.

Lemma tinv_head n t : tinv t -> 0 <= n < count (g2h_ t) -> tinv (set_gHead_ n t).
Proof. by intros []. Qed.

Lemma receive_minv epoch now m r m' : minv m -> receive_outcome epoch now m r m' -> minv m'.
Proof.
  intros Hm H. pose proof Hm as [Hi _]. pose proof (expire_tinv now _ Hi) as Hx. fold (expired_tp now (tp m)) in Hx.
  assert (Hm1 : forall m1, tp m1 = expired_tp now (tp m) -> emits (allowed m) m m1 [] -> minv m1).
  { intros m1 T E. eapply (minv_upd m _ (expired_tp now)); [done|done|by split|done|done]. }
  inversion H as [s m'' Hs Ht E|msg m1 s m2 T1 E1 Hs Hd|msg m1 m2 n s m'' st T1 E1 Hc Hn Hl Hd Ht E _]; subst.
  - destruct Ht as [T|[T|T]].
    + eapply (minv_upd m _ id); [done|done|by split|done|done].
    + by apply Hm1.
    + eapply (minv_upd m _ (fun t => set_broken_ true (expired_tp now t))); [done|done|by split| |done].
      intros _. by apply tinv_broken.
  - eapply dispatch_minv; [|done]. by apply Hm1.
  - pose proof (dispatch_minv _ _ _ _ (Hm1 _ T1 E1) Hd) as Hm2. pose proof Hm2 as [Hi2 _].
    destruct (dispatch_rings _ _ _ _ Hd) as ([Eh Eg _ _ _] & _).
    rewrite T1 in Eh, Eg. cbn in Eh, Eg. unfold allowed in E. rewrite <- Eh, <- Eg in E.
    pose proof (rings_count _ Hi) as [_ Hg].
    pose proof (Z.mod_pos_bound (gHead_ (tp m) + 1 + m_count msg) (count (g2h_ (tp m))) ltac:(lia)) as Hb.
    rewrite <- Eg in Hb at 3. set (n := _ mod _) in *.
    destruct Ht as [[_ T]|[_ [T|T]]]; (eapply emits_minv; [exact Hm2|rewrite T; by split|rewrite T|exact E]).
    + by apply tinv_head.
    + by apply tinv_broken.
    + by apply tinv_broken, tinv_head.
Qed.

Lemma retire_minv c m : minv m -> minv (retire c m).2.
Proof.
  intros Hm. apply (wp_run (retire c) (fun _ => minv)). unfold retire. wp_step. wp_step.
  wp_step; [by wp_steps|]. destruct (find c (tp m)) as [i|] eqn:Hf; [|by wp_steps].
  destruct (find_first_some _ _ _ Hf) as (p & Hp & Hk). rewrite Hp. cbn [from_option].
  wp_step; [by wp_steps|]. wp_step. apply wp_upd. wp_steps.
  destruct Hm as [Hi Htr]. split; [|done]. cbn [tp].
  assert (Hcost : cost p = 0) by (unfold cost, holds; by rewrite Hcond0, andb_false_r).
  eapply (tinv_insert (tp m) _ i p no_pending Hi); [by split|apply Hi|apply Hi|done|..]; try done.
  - exact (alter_as_insert _ _ _ _ Hp).
  - cbn -[Z.add Z.sub]. rewrite Hcost. change (cost no_pending) with 0. lia.
  - apply Hi.
  - change (nextFence_ (tp m) <= nextFence_ (tp m) <= 0x8000). pose proof (ti_next _ Hi). lia.
Qed.

Lemma held_free n : held (replicate n no_pending) = 0.
Proof. induction n; [done|]. change (cost no_pending + held (replicate n no_pending) = 0). by rewrite IHn. Qed.

(** What [attach] establishes on a new transport. *)
Lemma attach_spec h g ops epoch f w m :
  attach mem h g ops epoch f {| tp := new_transport; world := w; trace := [] |} = (Ok, m) ->
  minv m /\ pending_ (tp m) = replicate maxPending no_pending /\ hTail_ (tp m) = 0 /\ stores (trace m) = [].
Proof.
  intros H. set (m0 := {| tp := new_transport; world := w; trace := [] |}) in *.
  enough (Hwp : wp (attach mem h g ops epoch f) (fun s m => s = Ok -> minv m /\ pending_ (tp m) = replicate maxPending no_pending /\
    hTail_ (tp m) = 0 /\ stores (trace m) = []) m0).
  { unfold wp in Hwp. rewrite H in Hwp. by apply Hwp. }
  unfold attach. wp_step. wp_step. wp_step; [by wp_steps|].
  rewrite !orb_false_iff, !negb_false_iff in Hcond. destruct Hcond as [[[_ _] Hr] _].
  wp_step; [by wp_steps|].
  wp_step. apply (wp_call (access_ok h g)); [apply call_access|done|]. intros ok m1 H1. wp_step; [by wp_steps|].
  wp_step. apply (wp_call (access_ok h g)); [apply call_access|done|]. intros ok2 m2 H2. wp_step; [by wp_steps|].
  wp_step. apply (wp_any_bad mem h g).
  { repeat constructor; eauto with guc. }
  intros bad m3 H3. wp_step; [by wp_steps|].
  wp_step. apply wp_upd. wp_step. apply wp_upd. wp_steps. intros _.
  pose proof (steps_quiet _ _ _ _ _ (steps_quiet _ _ _ _ _ H1 H2) H3) as [T3 (evs & E3 & F3 & S3)].
  split; [|rewrite T3; cbn [tp trace]; rewrite E3, app_nil_r; done].
  split; cbn [tp trace]; [|rewrite E3; by apply Forall_app].
  assert (Hg : 1024 <= count g <= 2 ^ 20 /\ 1024 <= count h <= 2 ^ 20).
  { unfold ringsValid, ringValid in Hr. rewrite !andb_true_iff, !Z.leb_le in Hr. tauto. }
  eval_pows.
  assert (Hcr : count g -32 1 -32 count g / 2 = count g - 1 - count g / 2).
  { rewrite (wrap_small 32 (count g - 1)) by (eval_pows; lia).
    apply wrap_small. eval_pows. Z.div_mod_to_equations. lia. }
  rewrite T3, Hcr. split; cbn -[Z.add Z.sub Z.div held replicate]; try done; try lia.
  - rewrite held_free. Z.div_mod_to_equations. lia.
  - intros i p [-> _]%lookup_replicate_1. done.
  - intros i j p q [-> _]%lookup_replicate_1. done.
  - intros i j p q [-> _]%lookup_replicate_1. done.
Qed.

(** * Reachable states

    The operations of the transport, in any order and with any arguments; between them
    the rest of the world does what it wants. *)
Inductive op_step : machine W -> machine W -> Prop :=
  | step_send a now dl m : op_step m (send mem a now dl m).2
  | step_receive epoch now m : op_step m (receive mem epoch now m).2
  | step_expire now m : op_step m (expire now m).2
  | step_retire c m : op_step m (retire c m).2
  | step_world w m : op_step m {| tp := tp m; world := w; trace := trace m |}.

Definition started m : Prop :=
  exists h g ops epoch f w,
    attach mem h g ops epoch f {| tp := new_transport; world := w; trace := [] |} = (Ok, m).

Definition reachable m : Prop := exists m0, started m0 /\ rtc op_step m0 m.

Lemma step_minv m m' : minv m -> op_step m m' -> minv m'.
Proof.
  intros Hm. pose proof Hm as [Hi Htr]. destruct 1 as [a now dl m|epoch now m|now m|c m|w m].
  - apply (wp_run (send mem a now dl) (fun _ => minv)), wp_send; [done|]. intros r m'. by apply send_minv.
  - apply (wp_run (receive mem epoch now) (fun _ => minv)), wp_receive; [done|]. intros r m'.
    by apply receive_minv.
  - apply (wp_run (expire now) (fun _ => minv)), wp_expire; [done|]. by apply expire_minv.
  - by apply retire_minv.
  - by split.
Qed.

Lemma reachable_minv m : reachable m -> minv m.
Proof.
  intros (m0 & (h & g & ops & epoch & f & w & Hs) & Hr). apply attach_spec in Hs as [Hs _].
  induction Hr as [|m1 m2 m3 H _ IH]; [done|]. apply IH. by eapply step_minv.
Qed.

(** * Final replies *)

Definition final (s : ReplyState) : Prop :=
  s = RSuccess \/ s = RFailure \/ s = RRetry \/ s = RTimedOut.

(** A reply other than a timeout is final only once a terminal response arrived. *)
Definition state_ok (p : Pending) : Prop :=
  final (rstate (reply p)) -> rstate (reply p) <> RTimedOut -> terminalReceived p = true.

(** How the table may evolve: a used slot continues a used slot of the same request,
    whose final state it keeps, or is a new request, numbered [next] or later. *)
Definition continues (l : list Pending) (next : Z) (i : nat) (q : Pending) : Prop :=
  (exists p, l !! i = Some p /\ used p = true /\ cookie (reply q) = cookie (reply p) /\
     (final (rstate (reply p)) -> rstate (reply q) = rstate (reply p))) \/
  next <= fence_no q.

Record evolves t t' : Prop := {
  ev_epoch : epoch_ t' = epoch_ t;
  ev_next : nextFence_ t <= nextFence_ t';
  ev_slots : forall i q, pending_ t' !! i = Some q -> used q = true ->
    continues (pending_ t) (nextFence_ t) i q;
}.

Lemma continues_refl t i q : pending_ t !! i = Some q -> used q = true ->
  continues (pending_ t) (nextFence_ t) i q.
Proof. intros. left. by exists q. Qed.

Lemma evolves_same t t' :
  epoch_ t' = epoch_ t -> nextFence_ t' = nextFence_ t -> pending_ t' = pending_ t -> evolves t t'.
Proof. intros E N P. split; [done|lia|]. rewrite P. intros i q. apply continues_refl. Qed.

Lemma evolves_trans t1 t2 t3 : evolves t1 t2 -> evolves t2 t3 -> evolves t1 t3.
Proof.
  intros [E1 N1 S1] [E2 N2 S2]. split; [congruence|lia|]. intros i q Hq Hu.
  destruct (S2 i q Hq Hu) as [(p & Hp & Hup & Hc & Hf)|Hn]; [|right; lia].
  destruct (S1 i p Hp Hup) as [(o & Ho & Huo & Hc' & Hf')|Hn].
  - left. exists o. split_and!; [done|done|congruence|]. intros Hfin. rewrite <- (Hf' Hfin).
    apply Hf. by rewrite (Hf' Hfin).
  - right. unfold fence_no in *. by rewrite Hc.
Qed.

(** Replacing one slot. *)
Lemma evolves_insert t t' i q :
  epoch_ t' = epoch_ t -> nextFence_ t <= nextFence_ t' -> pending_ t' = <[i := q]> (pending_ t) ->
  (used q = true -> continues (pending_ t) (nextFence_ t) i q) -> evolves t t'.
Proof.
  intros E N P Hq. split; [done|done|]. rewrite P.
  intros j r [(<- & <- & _)|[Hne Hr]]%list_lookup_insert_Some Hu; [by apply Hq|by apply continues_refl].
Qed.

Lemma state_ok_alter (l : list Pending) i f :
  Forall state_ok l -> (forall p, state_ok p -> state_ok (f p)) -> Forall state_ok (alter f i l).
Proof. intros H Hf. by apply Forall_alter; [|intros; apply Hf]. Qed.

Lemma state_ok_insert (l : list Pending) i p :
  Forall state_ok l -> state_ok p -> Forall state_ok (<[i := p]> l).
Proof. intros. by apply Forall_insert. Qed.

Lemma expire_evolves now t : tinv t -> Forall state_ok (pending_ t) ->
  evolves t (expired_tp now t) /\ Forall state_ok (pending_ (expired_tp now t)).
Proof.
  intros Hi Hok. split; [split; [done|reflexivity|]|].
  - intros i q Hq Hu. cbn [pending_ expired_tp set_pending_] in Hq.
    rewrite list_lookup_fmap, fmap_Some in Hq. destruct Hq as (p & Hp & ->).
    destruct (expire_view now p) as (Vu & Vc & _). left. exists p.
    rewrite <- Vu in Hu. split_and!; [done|done|done|]. intros Hf.
    pose proof (Forall_lookup_1 _ _ _ _ Hok Hp) as Hs. unfold expire_one.
    destruct (expired now p) eqn:He; [|done]. unfold expired in He.
    rewrite !andb_true_iff, negb_true_iff, bool_decide_eq_false in He.
    destruct He as [[[_ Hh] _] Hn]. specialize (Hs Hf Hn).
    destruct (ti_slots _ Hi _ _ Hp Hu) as [_ _ _ _ _ H6]. specialize (H6 Hs). congruence.
  - cbn [pending_ expired_tp set_pending_]. apply Forall_fmap. eapply Forall_impl; [done|].
    intros p Hp. unfold expire_one. cbn. case_match; [|done]. intros _ Hn. by cbn in Hn.
Qed.

Lemma answered_state msg type p :
  terminalReceived p = false -> state_ok p ->
  state_ok (answered msg type p) /\ (final (rstate (reply p)) -> rstate (reply (answered msg type p)) = rstate (reply p)).
Proof.
  intros Ht Hs.
  assert (Hto : final (rstate (reply p)) -> rstate (reply p) = RTimedOut).
  { intros Hf. destruct (decide (rstate (reply p) = RTimedOut)) as [|Hn]; [done|].
    specialize (Hs Hf Hn). congruence. }
  unfold answered, finish_reply, record_reply, state_ok. destruct (type =? 3).
  - cbn. case_bool_decide as E; cbn.
    + split; [|done]. by rewrite E.
    + split; [by intros [?|[?|[?|?]]]|]. intros Hf. by destruct (E (Hto Hf)).
  - cbn. case_bool_decide as E; cbn.
    + done.
    + split; [done|]. intros Hf. by destruct (E (Hto Hf)).
Qed.

Lemma dispatch_evolves msg m s m' :
  Forall state_ok (pending_ (tp m)) -> dispatch_outcome msg m s m' ->
  evolves (tp m) (tp m') /\ Forall state_ok (pending_ (tp m')).
Proof.
  intros Hok [Ht Ha1 Ha2|s' Hs|i p Hp Hu Ht Ha]; [split; [by apply evolves_same|exact Hok]..|].
  pose proof (Forall_lookup_1 _ _ _ _ Hok Hp) as Hs.
  destruct (answered_state msg (msg_type msg) p Ht Hs) as [H1 H2].
  destruct (answered_view msg (msg_type msg) p) as (Vu & Vk & _).
  cbn [tp]. split.
  - eapply (evolves_insert _ _ i); [reflexivity|reflexivity|reflexivity|]. intros _. left. exists p.
    split_and!; [exact Hp|exact Hu|exact Vk|exact H2].
  - cbn [pending_ set_credits_ set_pending_]. by apply state_ok_insert.
Qed.

Definition good t : Prop := tinv t /\ Forall state_ok (pending_ t).

(** A step that keeps the table. *)
Lemma evolves_kept t t' :
  Forall state_ok (pending_ t) ->
  epoch_ t' = epoch_ t -> nextFence_ t' = nextFence_ t -> pending_ t' = pending_ t ->
  evolves t t' /\ Forall state_ok (pending_ t').
Proof. intros Hok E N P. split; [by apply evolves_same|by rewrite P]. Qed.

Lemma booked_evolves a dl slot t :
  tinv t -> can_publish a slot t -> Forall state_ok (pending_ t) ->
  evolves t (booked a dl slot t) /\ Forall state_ok (pending_ (booked a dl slot t)).
Proof.
  intros Hi [_ (p & Hp & Hu) Hn _ _] Hok. pose proof (ti_next _ Hi) as Hnx.
  assert (Hw : nextFence_ t +32 1 = nextFence_ t + 1) by (apply wrap_small; eval_pows; lia).
  split.
  - eapply (evolves_insert _ _ slot); [done| |exact (alter_as_insert _ _ _ _ Hp)|].
    + cbn [nextFence_ booked set_credits_ set_nextFence_]. rewrite Hw. lia.
    + intros _. right. unfold fence_no. cbn -[fence_of]. unfold fence_of.
      destruct (fence_bits (nextFence_ t) (is_request a)) as [-> _]; lia.
  - cbn [pending_ booked set_credits_ set_nextFence_ set_pending_].
    rewrite (alter_as_insert _ _ _ _ Hp). apply state_ok_insert; [done|].
    unfold state_ok. cbn -[nonzero reserve_of]. destruct (nonzero _); by intros [?|[?|[?|?]]].
Qed.

Lemma send_evolves a now dl m r m' :
  good (tp m) -> send_outcome a now dl m r m' ->
  evolves (tp m) (tp m') /\ Forall state_ok (pending_ (tp m')).
Proof.
  intros [Hi Hok] H.
  inversion H as [s m'' Hs Ht E|m0 head slot s m'' Har Hp|m0 m1 head slot r' m'' Har Hp Hw]; subst.
  - destruct Ht as [T|[T|T]]; rewrite T; by apply evolves_kept.
  - destruct Har as [T0 _ _ _ _ _].
    inversion Hp as [|r' m2 _ T _ _|m2 st [T|T] _]; subst; rewrite T, T0; by apply evolves_kept.
  - destruct Har as [T0 _ _ _ _ Hc].
    assert (T1 : tp m1 = timed now (tp m) \/ tp m1 = set_hTail_ 0 (timed now (tp m))).
    { inversion Hp as [|r'' m3 _ T _ _|]; subst; rewrite ?T, T0; auto. }
    assert (Hc1 : can_publish a slot (tp m1)) by (destruct T1 as [-> | ->]; by destruct Hc).
    assert (Hi1 : tinv (tp m1)).
    { destruct T1 as [-> | ->]; [by apply tinv_time|]. apply tinv_tail; [by apply tinv_time|]. exact (zero_tail _ Hi). }
    assert (Hk : evolves (tp m) (tp m1) /\ Forall state_ok (pending_ (tp m1)))
      by (destruct T1 as [-> | ->]; by apply evolves_kept).
    destruct Hk as [Hk Hok1]. destruct (booked_evolves a dl slot _ Hi1 Hc1 Hok1) as [Hb Hok2].
    pose proof (evolves_trans _ _ _ Hk Hb) as Hkb.
    inversion Hw as [m2 T _|m2 st [T|T] _]; subst; rewrite T; (split; [|exact Hok2]);
      (eapply evolves_trans; [exact Hkb|by apply evolves_same]).
Qed.

Lemma receive_evolves epoch now m r m' :
  good (tp m) -> receive_outcome epoch now m r m' ->
  evolves (tp m) (tp m') /\ Forall state_ok (pending_ (tp m')).
Proof.
  intros [Hi Hok] H. destruct (expire_evolves now _ Hi Hok) as [Hx Hokx].
  inversion H as [s m'' Hs Ht E|msg m1 s m2 T1 E1 Hs Hd|msg m1 m2 n s m'' st T1 E1 Hc Hn Hl Hd Ht E _]; subst.
  - destruct Ht as [T|[T|T]]; rewrite T; [by apply evolves_kept|done|].
    split; [|exact Hokx]. eapply evolves_trans; [exact Hx|by apply evolves_same].
  - rewrite <- T1 in Hx, Hokx. destruct (dispatch_evolves _ _ _ _ Hokx Hd) as [H2 Hok2].
    split; [by eapply evolves_trans|done].
  - rewrite <- T1 in Hx, Hokx. destruct (dispatch_evolves _ _ _ _ Hokx Hd) as [H2 Hok2].
    pose proof (evolves_trans _ _ _ Hx H2) as H12.
    destruct Ht as [[_ T]|[_ [T|T]]]; rewrite T; (split; [|exact Hok2]);
      (eapply evolves_trans; [exact H12|by apply evolves_same]).
Qed.

Lemma retire_evolves c m :
  Forall state_ok (pending_ (tp m)) ->
  evolves (tp m) (tp (retire c m).2) /\ Forall state_ok (pending_ (tp (retire c m).2)).
Proof.
  intros Hok. apply (wp_run (retire c) (fun _ m' => evolves (tp m) (tp m') /\ Forall state_ok (pending_ (tp m')))).
  unfold retire. wp_step. wp_step. wp_step; [wp_steps; by apply evolves_kept|].
  destruct (find c (tp m)) as [i|] eqn:Hf; [|wp_steps; by apply evolves_kept].
  destruct (find_first_some _ _ _ Hf) as (p & Hp & _).
  wp_step; [wp_steps; by apply evolves_kept|]. wp_step. apply wp_upd. wp_steps. cbn [tp].
  split; [|apply state_ok_alter; [done|by intros ? ? [?|[?|[?|?]]]]].
  eapply (evolves_insert _ _ i no_pending); [done|reflexivity|exact (alter_as_insert _ _ _ _ Hp)|done].
Qed.

Lemma step_evolves m m' :
  good (tp m) -> op_step m m' -> evolves (tp m) (tp m') /\ Forall state_ok (pending_ (tp m')).
Proof.
  intros Hg. pose proof Hg as [Hi Hok]. destruct 1 as [a now dl m|epoch now m|now m|c m|w m].
  - apply (wp_run (send mem a now dl) (fun _ m' => evolves (tp m) (tp m') /\ Forall state_ok (pending_ (tp m')))), wp_send;
      [done|]. intros r m'. by apply send_evolves.
  - apply (wp_run (receive mem epoch now) (fun _ m' => evolves (tp m) (tp m') /\ Forall state_ok (pending_ (tp m')))), wp_receive;
      [done|]. intros r m'. by apply receive_evolves.
  - apply (wp_run (expire now) (fun _ m' => evolves (tp m) (tp m') /\ Forall state_ok (pending_ (tp m')))), wp_expire;
      [by intros; apply evolves_kept|]. by apply expire_evolves.
  - by apply retire_evolves.
  - by apply evolves_kept.
Qed.

(** What [query] answers for a cookie. *)
Lemma query_slot t c :
  tinv t -> c_epoch c = epoch_ t ->
  (query c t = (UnknownCookie, None) /\ forall i p, pending_ t !! i = Some p -> used p = true -> cookie (reply p) <> c) \/
  exists i p, query c t = (Ok, Some (reply p)) /\ pending_ t !! i = Some p /\ used p = true /\ cookie (reply p) = c.
Proof.
  intros Hi He. unfold query. rewrite He, Z.eqb_refl. cbn [negb].
  destruct (find c t) as [i|] eqn:Hf.
  - destruct (find_first_some _ _ _ Hf) as (p & Hp & Hk). unfold has_cookie in Hk.
    rewrite !andb_true_iff, !Z.eqb_eq in Hk. destruct Hk as [[Hu H1] H2]. right. exists i, p.
    rewrite Hp. split_and!; [done|done|done|]. destruct c, (cookie (reply p)). cbn in *. by subst.
  - left. split; [done|]. intros i p Hp Hu Hc. unfold find in Hf.
    assert (Hn : forall l (j : nat), l !! j = Some p -> find_first (has_cookie c) l <> None).
    { intros l. induction l as [|x l IH]; intros [|j] Hj; simplify_eq/=.
      - unfold has_cookie. by rewrite Hu, !Z.eqb_refl.
      - case_match; [done|]. specialize (IH _ Hj). by destruct (find_first _ l). }
    by apply (Hn _ _ Hp).
Qed.
End Reach.
