(* ===== verification/GucTransportQueue.v ===== *)
(** The H2G ring refines a queue of messages: what the GuC decodes from the shared
    memory is the sequence of messages whose [send] returned [Ok], in order. *)
From stdpp Require Import base numbers list sets relations.
From S2P Require Import Prelude.
From S2P Require Import XeFirmware.
From S2P Require Import StateWp.
From S2P Require Import GucTransport.
From S2P Require Import GucTransportInv.
From S2P Require Import GucTransportOps.
From S2P Require Import GucTransportReach.
Import XeGuC.

(** * Memory as the GuC sees it

    Only the host stores to the H2G buffer and its tail: the last store is what the
    GuC reads. *)

Fixpoint assoc (st : list (Z * Z)) (a : Z) : option Z :=
  match st with
  | [] => None
  | (b, v) :: st => if a =? b then Some v else assoc st a
  end.

Definition view (tr : list ct_event) (a : Z) : option Z := assoc (stores tr) a.

Lemma assoc_app st st' a : assoc (st ++ st') a = match assoc st a with Some v => Some v | None => assoc st' a end.
Proof. induction st as [|[b v] st IH]; [done|]. cbn. by destruct (a =? b). Qed.

Lemma assoc_none st a : (forall x, x ∈ st -> x.1 <> a) -> assoc st a = None.
Proof.
  induction st as [|[b v] st IH]; intros H; [done|]. cbn.
  destruct (Z.eqb_spec a b) as [->|]; [by destruct (H (b, v) ltac:(set_solver))|]. apply IH. set_solver.
Qed.

Lemma word_stores_addr h i ws y :
  y ∈ word_stores h i ws -> exists k, i <= k < i + Z.of_nat (length ws) /\ y.1 = word_addr h k.
Proof.
  revert i. induction ws as [|w ws IH]; intros i Hy; [set_solver|]. cbn in Hy.
  apply elem_of_app in Hy as [Hy|Hy].
  - destruct (IH _ Hy) as (k & Hk & ->). exists k. cbn [length]. split; [lia|done].
  - apply list_elem_of_singleton in Hy as ->. exists i. cbn [length]. split; [lia|done].
Qed.

Lemma assoc_words h i ws (k : nat) x :
  ws !! k = Some x -> assoc (word_stores h i ws) (word_addr h (i + Z.of_nat k)) = Some x.
Proof.
  revert i k. induction ws as [|w ws IH]; intros i [|k] Hk; simplify_eq/=; rewrite assoc_app.
  - rewrite assoc_none.
    + cbn. by rewrite Z.add_0_r, Z.eqb_refl.
    + intros y Hy. destruct (word_stores_addr _ _ _ _ Hy) as (k & Hk & ->). unfold word_addr. lia.
  - specialize (IH (i + 1) k Hk).
    replace (i + Z.of_nat (S k)) with (i + 1 + Z.of_nat k) by lia. by rewrite IH.
Qed.

(** * Decoding *)

(** [n] words from index [i] of the ring hold the messages [q], with zero words
    (no-operations) between them. *)
Inductive ring_holds (v : Z -> option Z) (h : Ring) : nat -> Z -> list (list Z) -> Prop :=
  | rh_nil i : ring_holds v h 0 i []
  | rh_nop n i q :
      0 <= i < count h -> v (word_addr h i) = Some 0 ->
      ring_holds v h n ((i + 1) mod count h) q -> ring_holds v h (1 + n) i q
  | rh_msg n i w ws q :
      0 <= i -> i + Z.of_nat (length (w :: ws)) <= count h ->
      w <> 0 -> Z.land w 255 = Z.of_nat (length ws) ->
      (forall (k : nat) x, (w :: ws) !! k = Some x -> v (word_addr h (i + Z.of_nat k)) = Some x) ->
      ring_holds v h n ((i + Z.of_nat (length (w :: ws))) mod count h) q ->
      ring_holds v h (length (w :: ws) + n) i ((w :: ws) :: q).

Section Holds.
Context (h : Ring) (Hcount : 0 < count h).

Lemma mod_step i a b : ((i + a) mod count h + b) mod count h = (i + (a + b)) mod count h.
Proof. rewrite Z.add_mod_idemp_l by lia. f_equal. lia. Qed.

Lemma holds_app v n1 n2 i q1 q2 :
  ring_holds v h n1 i q1 -> ring_holds v h n2 ((i + Z.of_nat n1) mod count h) q2 -> 0 <= i < count h ->
  ring_holds v h (n1 + n2) i (q1 ++ q2).
Proof.
  induction 1 as [i|n i q Hi Hv H IH|n i w ws q Hi Hl Hw Hb Hv H IH]; intros H2 Hr.
  - by rewrite Z.add_0_r, Z.mod_small in H2 by lia.
  - apply (rh_nop _ _ (n + n2)); [done|done|]. apply IH; [|apply Z.mod_pos_bound; lia].
    rewrite mod_step. replace (1 + Z.of_nat n) with (Z.of_nat (1 + n)) by lia. done.
  - rewrite <- Nat.add_assoc. apply rh_msg; try done. apply IH; [|apply Z.mod_pos_bound; lia].
    rewrite mod_step, <- Nat2Z.inj_add. done.
Qed.

Lemma holds_frame v v' n i q :
  ring_holds v h n i q -> 0 <= i < count h ->
  (forall j, 0 <= j < Z.of_nat n -> v' (word_addr h ((i + j) mod count h)) = v (word_addr h ((i + j) mod count h))) ->
  ring_holds v' h n i q.
Proof.
  induction 1 as [i|n i q Hi Hv H IH|n i w ws q Hi Hl Hw Hb Hv H IH]; intros Hr Hf.
  - constructor.
  - apply rh_nop; [done| |].
    + specialize (Hf 0 ltac:(lia)). rewrite Z.add_0_r, Z.mod_small in Hf by lia. by rewrite Hf.
    + apply IH; [apply Z.mod_pos_bound; lia|]. intros j Hj. rewrite mod_step. apply Hf. lia.
  - apply rh_msg; try done.
    + intros k x Hk. pose proof (lookup_lt_Some _ _ _ Hk) as Hlt.
      specialize (Hf (Z.of_nat k) ltac:(lia)). rewrite Z.mod_small in Hf by lia. rewrite Hf. by apply Hv.
    + apply IH; [apply Z.mod_pos_bound; lia|]. intros j Hj. rewrite mod_step. apply Hf. lia.
Qed.

Lemma holds_nops v n i :
  0 <= i -> i + Z.of_nat n <= count h ->
  (forall (k : nat), (k < n)%nat -> v (word_addr h (i + Z.of_nat k)) = Some 0) -> ring_holds v h n i [].
Proof.
  revert i. induction n as [|n IH]; intros i Hi Hl Hv; [constructor|].
  apply rh_nop; [lia|by specialize (Hv O ltac:(lia)); rewrite Z.add_0_r in Hv|].
  destruct n as [|n]; [constructor|].
  rewrite Z.mod_small by lia. apply IH; [lia..|]. intros k Hk. specialize (Hv (S k) ltac:(lia)).
  by replace (i + 1 + Z.of_nat k) with (i + Z.of_nat (S k)) by lia.
Qed.

Lemma holds_one v i w ws :
  0 <= i -> i + Z.of_nat (length (w :: ws)) <= count h -> w <> 0 -> Z.land w 255 = Z.of_nat (length ws) ->
  (forall (k : nat) x, (w :: ws) !! k = Some x -> v (word_addr h (i + Z.of_nat k)) = Some x) ->
  ring_holds v h (length (w :: ws)) i [w :: ws].
Proof. intros. rewrite <- (Nat.add_0_r (length _)). apply rh_msg; [done..|constructor]. Qed.
End Holds.

(** * The transport *)

Section Queue.
Context {W : Type} (mem : Memory W).
Implicit Types (t : Transport W) (m : machine W).

(** Words of the ring that the GuC has still to read when it has reached [head]. *)
Definition used_words (head : Z) t : Z := (hTail_ t - head) mod count (h2g_ t).

Definition ring_queue m (head : Z) (q : list (list Z)) : Prop :=
  0 <= head < count (h2g_ (tp m)) /\
  ring_holds (view (trace m)) (h2g_ (tp m)) (Z.to_nat (used_words head (tp m))) head q.

(** The tail that the GuC reads is the one the transport wrote last. *)
Definition published m : Prop := default 0 (view (trace m) (tail_addr (h2g_ (tp m)))) = hTail_ (tp m).

Lemma view_emits P m m' st a :
  emits P m m' st ->
  view (trace m') a = match assoc st a with Some v => Some v | None => view (trace m) a end.
Proof.
  intros (evs & T & _ & S). unfold view. rewrite T. unfold stores in *. by rewrite omap_app, assoc_app, S.
Qed.

Lemma spans_apart h g :
  ringsValid h g = true ->
  (forall i, 0 <= i < count h -> tail_addr h <> word_addr h i /\ head_addr g <> word_addr h i) /\
  head_addr g <> tail_addr h.
Proof.
  intros H. unfold ringsValid in H. rewrite !andb_true_iff in H. destruct H as [[_ _] H].
  cbn -[Z.mul U64_MAX Z.sub Z.add] in H. repeat case_match; try done.
  unfold tail_addr, head_addr, word_addr.
  rewrite ?orb_false_iff, ?orb_false_r, ?andb_false_iff, ?Z.ltb_ge in *. split; [intros i Hi; split|]; lia.
Qed.

Lemma count_pow2 t : tinv t -> exists k, 0 <= k <= 20 /\ count (h2g_ t) = 2 ^ k.
Proof.
  intros Hi. destruct (rings_valid _ Hi) as [H _]. unfold ringValid in H.
  rewrite !andb_true_iff, !Z.leb_le, Z.eqb_eq in H. destruct H as [[[_ H1] H2] H3].
  rewrite wrap_small in H3 by (eval_pows; lia). exists (Z.log2 (count (h2g_ t))).
  split; [|by apply pow2_of_land; [lia|]]. split; [apply Z.log2_nonneg|].
  rewrite <- (Z.log2_pow2 20) by lia. by apply Z.log2_le_mono.
Qed.

Lemma free_used head t :
  tinv t -> free_words head t = count (h2g_ t) - 1 - used_words head t.
Proof.
  intros Hi. unfold free_words, used_words. rewrite ring_mask by apply (rings_valid _ Hi).
  destruct (count_pow2 _ Hi) as (k & Hk & Hc). pose proof (rings_count _ Hi) as [Hr _].
  assert (Hd : (count (h2g_ t) | 2 ^ 32)).
  { rewrite Hc. exists (2 ^ (32 - k)). rewrite <- Z.pow_add_r by lia. f_equal. lia. }
  unfold wrap. rewrite Zminus_mod_idemp_l, <- Znumtheory.Zmod_div_mod by (eval_pows; lia || done).
  pose proof (Z.mod_pos_bound (hTail_ t - head) (count (h2g_ t)) ltac:(lia)) as Hb.
  symmetry. apply (Z.mod_unique_pos _ _ (- ((hTail_ t - head) / count (h2g_ t)) - 1)); [lia|].
  pose proof (Z.div_mod (hTail_ t - head) (count (h2g_ t)) ltac:(lia)). nia.
Qed.

Lemma used_range head t : tinv t -> 0 <= used_words head t < count (h2g_ t).
Proof. intros Hi. apply Z.mod_pos_bound. pose proof (rings_count _ Hi). lia. Qed.

(** The index where the next word goes. *)
Lemma used_end head t :
  tinv t -> 0 <= head < count (h2g_ t) -> (head + used_words head t) mod count (h2g_ t) = hTail_ t.
Proof.
  intros Hi Hh. unfold used_words. rewrite Z.add_mod_idemp_r by lia.
  replace (head + (hTail_ t - head)) with (hTail_ t) by lia. apply Z.mod_small, Hi.
Qed.

(** Words stored beyond the used part leave its contents alone. *)
Lemma holds_kept P m m' st head q n :
  tinv (tp m) -> ring_queue m head q -> h2g_ (tp m') = h2g_ (tp m) ->
  emits P m m' st ->
  (forall y, y ∈ st -> y.1 = tail_addr (h2g_ (tp m)) \/ y.1 = head_addr (g2h_ (tp m)) \/
     exists k, hTail_ (tp m) <= k < hTail_ (tp m) + n /\ y.1 = word_addr (h2g_ (tp m)) k) ->
  hTail_ (tp m) + n <= count (h2g_ (tp m)) -> n <= free_words head (tp m) ->
  ring_holds (view (trace m')) (h2g_ (tp m')) (Z.to_nat (used_words head (tp m))) head q.
Proof.
  intros Hi [Hh Hq] Er He Hst Hn Hf. rewrite Er.
  pose proof (used_range head _ Hi) as Hu. pose proof (rings_count _ Hi) as [Hc _].
  rewrite free_used in Hf by done.
  eapply holds_frame; [lia|exact Hq|done|]. intros j Hj.
  set (p := (head + j) mod count (h2g_ (tp m))).
  assert (Hp : 0 <= p < count (h2g_ (tp m))) by (apply Z.mod_pos_bound; lia).
  rewrite (view_emits _ _ _ _ _ He), assoc_none; [done|]. intros y Hy.
  destruct (spans_apart _ _ (ti_rings _ Hi)) as [Hs _]. destruct (Hs p Hp) as [Hs1 Hs2].
  destruct (Hst y Hy) as [->|[->|(k & Hk & ->)]]; [done|done|].
  unfold word_addr. enough (k <> p) by lia. intros ->.
  pose proof (used_end head _ Hi Hh) as Hend. unfold p in *. clear Hs Hst Hy Hq He.
  set (c := count (h2g_ (tp m))) in *. set (u := used_words head (tp m)) in *.
  pose proof (Z.div_mod (head + j) c ltac:(lia)). pose proof (Z.div_mod (head + u) c ltac:(lia)).
  rewrite Hend in *. assert ((head + j) / c = 0 \/ (head + j) / c = 1) by (Z.div_mod_to_equations; nia).
  assert ((head + u) / c = 0 \/ (head + u) / c = 1) by (Z.div_mod_to_equations; nia). nia.
Qed.

Lemma used_step head t n :
  tinv t -> 0 <= n -> n <= free_words head t ->
  (hTail_ t + n - head) mod count (h2g_ t) = used_words head t + n.
Proof.
  intros Hi H0 Hn. rewrite free_used in Hn by done. pose proof (used_range head _ Hi) as Hu.
  unfold used_words in *. replace (hTail_ t + n - head) with (hTail_ t - head + n) by lia.
  rewrite <- Z.add_mod_idemp_l by lia. apply Z.mod_small. lia.
Qed.

(** A run of words appended at the tail. *)
Lemma queue_append P m m' st head q n tail q' :
  tinv (tp m) -> ring_queue m head q -> h2g_ (tp m') = h2g_ (tp m) ->
  hTail_ (tp m') = tail -> tail = (hTail_ (tp m) + n) mod count (h2g_ (tp m)) -> 0 <= n ->
  emits P m m' st ->
  (forall y, y ∈ st -> y.1 = tail_addr (h2g_ (tp m)) \/ y.1 = head_addr (g2h_ (tp m)) \/
     exists k, hTail_ (tp m) <= k < hTail_ (tp m) + n /\ y.1 = word_addr (h2g_ (tp m)) k) ->
  hTail_ (tp m) + n <= count (h2g_ (tp m)) -> n <= free_words head (tp m) ->
  ring_holds (view (trace m')) (h2g_ (tp m)) (Z.to_nat n) (hTail_ (tp m)) q' ->
  ring_queue m' head (q ++ q').
Proof.
  intros Hi Hq Er Et -> H0 He Hst Hn Hf Hnew. pose proof Hq as [Hh _].
  pose proof (holds_kept _ _ _ _ _ _ _ Hi Hq Er He Hst Hn Hf) as Hold.
  pose proof (rings_count _ Hi) as [Hc _]. pose proof (used_range head _ Hi) as Hu.
  split; [by rewrite Er|]. unfold used_words. rewrite Et, Er, Zminus_mod_idemp_l.
  rewrite used_step by done. rewrite Z2Nat.inj_add by lia.
  rewrite Er in Hold. apply holds_app; [lia|exact Hold| |done].
  rewrite Z2Nat.id by lia. by rewrite used_end.
Qed.

Lemma view_word h g P m m' a v i ws (k : nat) x :
  ringsValid h g = true -> 0 <= i -> i + Z.of_nat (length ws) <= count h -> a = tail_addr h ->
  emits P m m' ((a, v) :: word_stores h i ws) -> ws !! k = Some x ->
  view (trace m') (word_addr h (i + Z.of_nat k)) = Some x.
Proof.
  intros Hr Hi Hl -> He Hk. rewrite (view_emits _ _ _ _ _ He). cbn [assoc].
  pose proof (lookup_lt_Some _ _ _ Hk) as Hlt. destruct (spans_apart _ _ Hr) as [Hs _].
  destruct (Hs (i + Z.of_nat k) ltac:(lia)) as [Hne _].
  rewrite (proj2 (Z.eqb_neq _ _)) by done. by rewrite (assoc_words _ _ _ _ _ Hk).
Qed.

(** The stores of a run of words and of the tail. *)
Lemma run_stores h i ws n a v y :
  Z.of_nat (length ws) = n -> y ∈ (a, v) :: word_stores h i ws ->
  y.1 = a \/ exists k, i <= k < i + n /\ y.1 = word_addr h k.
Proof. intros <- [->|Hy]%elem_of_cons; [by left|right]. by apply word_stores_addr. Qed.

Lemma published_tail h P m m' v st :
  tail_addr h = tail_addr (h2g_ (tp m')) -> hTail_ (tp m') = v ->
  emits P m m' ((tail_addr h, v) :: st) -> published m'.
Proof.
  intros Er Et He. unfold published. rewrite <- Er, (view_emits _ _ _ _ _ He). cbn [assoc].
  by rewrite Z.eqb_refl.
Qed.

(** Padding appends no-operations. *)
Lemma queue_pad len head m r m' q :
  tinv (tp m) -> ring_queue m head q -> published m -> 0 < len <= free_words head (tp m) ->
  pad_outcome len (free_words head (tp m)) m r m' -> r <> Some IoFailure ->
  ring_queue m' head q /\ published m' /\ (r = None -> len <= free_words head (tp m')).
Proof.
  intros Hi Hq Hp Hl H Hr. inversion H as [|r' m'' Hlt T E Hs|]; subst; [by split_and!; [| |lia]| |done].
  pose proof (ti_tail _ Hi) as Ht. set (h := h2g_ (tp m)) in *. set (pad := count h - hTail_ (tp m)) in *.
  assert (Hz : Z.of_nat (length (replicate (Z.to_nat pad) 0)) = pad) by (rewrite length_replicate; lia).
  assert (Hfr : pad <= free_words head (tp m)) by lia.
  split_and!.
  - rewrite <- (app_nil_r q). eapply (queue_append _ m m' _ head q pad 0 []); try done.
    + by rewrite T.
    + by rewrite T.
    + fold h. replace (hTail_ (tp m) + pad) with (count h) by lia. by rewrite Z.mod_same by lia.
    + lia.
    + intros y Hy. destruct (run_stores _ _ _ _ _ _ _ Hz Hy) as [->|Hk]; [by left|by right; right].
    + fold h. lia.
    + fold h. apply holds_nops; [lia..|]. intros k Hk.
      eapply (view_word h (g2h_ (tp m)) _ _ _ _ _ _ (replicate (Z.to_nat pad) 0));
        [apply Hi|lia|rewrite Hz; lia|reflexivity|exact E|]. by apply lookup_replicate_2.
  - eapply (published_tail h); [by rewrite T|by rewrite T|exact E].
  - intros ->. destruct Hs as [[_ Hs]|[? _]]; [|done].
    rewrite T. unfold free_words in *. 
    assert (Hi' : tinv (set_hTail_ 0 (tp m))) by (apply tinv_tail; [done|by apply zero_tail]).
    change (len <= free_words head (set_hTail_ 0 (tp m))). rewrite free_used by done.
    change (len <= free_words head (tp m) - pad) in Hs. rewrite free_used in Hs by done.
    pose proof (used_step head _ pad Hi ltac:(lia) Hfr) as Hst.
    replace (hTail_ (tp m) + pad - head) with (0 - head + 1 * count h) in Hst by lia.
    fold h in Hst. rewrite Z.mod_add in Hst by lia.
    change (used_words head (set_hTail_ 0 (tp m))) with ((0 - head) mod count h).
    change (count (h2g_ (set_hTail_ 0 (tp m)))) with (count h). fold h in Hs. lia.
Qed.

Lemma ct_header_word f n : 0 <= f -> 0 < n < 256 ->
  ct_header f n <> 0 /\ Z.land (ct_header f n) 255 = n.
Proof.
  intros Hf Hn. assert (Hl : Z.land (ct_header f n) 255 = n).
  { unfold ct_header. change 255 with (Z.ones 8). rewrite Z.land_lor_distr_l.
    rewrite (Z.land_ones n) by lia. rewrite (Z.mod_small n) by (change (2 ^ 8) with 256; lia).
    rewrite Z.land_ones, Z.shiftl_mul_pow2 by lia.
    change (2 ^ 16) with (2 ^ 8 * 2 ^ 8). rewrite Z.mul_assoc, Z.mod_mul by done. apply Z.lor_0_l. }
  split; [|done]. intros H0. rewrite H0, Z.land_0_l in Hl. lia.
Qed.

(** Publishing appends the message. *)
Lemma queue_publish a dl slot head m c m' q :
  tinv (tp m) -> validateAction a = Ok -> ring_queue m head q ->
  a_count a + 1 <= free_words head (tp m) -> hTail_ (tp m) + (a_count a + 1) <= count (h2g_ (tp m)) ->
  publish_outcome a dl slot m (Ok, c) m' ->
  ring_queue m' head (q ++ [wire a (c_fence c)]) /\ published m'.
Proof.
  intros Hi Ha Hq Hf Hl H. inversion H as [m'' T E|]; subst. cbn [c_fence].
  pose proof (action_count _ Ha) as Hn. pose proof (ti_tail _ Hi) as Ht.
  set (h := h2g_ (tp m)) in *. set (f := fence_of a (tp m)) in *.
  pose proof (wire_length a f Ha) as Hw.
  assert (Hf0 : 0 <= f) by (apply wrap_range; lia).
  split; [|eapply (published_tail h); [by rewrite T|by rewrite T|exact E]].
  eapply (queue_append _ m m' _ head q (a_count a + 1) (next_tail a (tp m)) [wire a f]);
    try done; [by rewrite T|by rewrite T|lia|..].
  - intros y Hy. destruct (run_stores _ _ _ _ _ _ _ Hw Hy) as [->|Hk]; [by left|by right; right].
  - fold h. rewrite <- Hw, Nat2Z.id. destruct (ct_header_word f (a_count a) Hf0 ltac:(lia)) as [Hc1 Hc2].
    apply holds_one; try done; [lia|by fold (wire a f); rewrite Hw| |].
    + rewrite Hc2. unfold wire in Hw. cbn [length] in Hw |- *. lia.
    + intros k x Hk. eapply (view_word h (g2h_ (tp m))); [apply Hi|lia| |reflexivity|exact E|exact Hk].
      by fold (wire a f); rewrite Hw.
Qed.
End Queue.
