(* ===== verification/GucTransportThms.v ===== *)
(** The theorems about the GuC transport: safety of every reachable state, the H2G ring
    as a queue, final replies, progress of [send]. *)
From stdpp Require Import base numbers list sets relations.
From S2P Require Import Prelude.
From S2P Require Import XeFirmware.
From S2P Require Import StateWp.
From S2P Require Import GucTransport.
From S2P Require Import GucTransportInv.
From S2P Require Import GucTransportOps.
From S2P Require Import GucTransportReach.
From S2P Require Import GucTransportQueue.
Import XeGuC.

Section Thms.
Context {W : Type} (mem : Memory W).
Implicit Types (t : Transport W) (m : machine W).

(** * The GuC as a reader *)

(** Consecutive words from index [i]. *)
Definition peer_words (tr : list ct_event) (h : Ring) (i : Z) (n : nat) : list Z :=
  (fun k => default 0 (view tr (word_addr h (i + Z.of_nat k)))) <$> seq 0 n.

(** One step of the GuC at position [head]: nothing to read, a no-operation, or a
    message; with its new position. *)
Definition peer_step (tr : list ct_event) (h : Ring) (head : Z) : option (list (list Z) * Z) :=
  if head =? default 0 (view tr (tail_addr h)) then None else
  let w := default 0 (view tr (word_addr h head)) in
  if w =? 0 then Some ([], (head + 1) mod count h) else
  let n := S (Z.to_nat (Z.land w 255)) in
  Some ([peer_words tr h head n], (head + Z.of_nat n) mod count h).

Lemma used_advance head t n :
  tinv t -> 0 <= n <= used_words head t ->
  used_words ((head + n) mod count (h2g_ t)) t = used_words head t - n.
Proof.
  intros Hi Hn. pose proof (used_range head _ Hi) as Hu. unfold used_words in *.
  rewrite Zminus_mod_idemp_r. replace (hTail_ t - (head + n)) with (hTail_ t - head - n) by lia.
  rewrite <- Zminus_mod_idemp_l. apply Z.mod_small. lia.
Qed.

Lemma peer_words_eq tr h i ws :
  (forall (k : nat) x, ws !! k = Some x -> view tr (word_addr h (i + Z.of_nat k)) = Some x) ->
  peer_words tr h i (length ws) = ws.
Proof.
  intros H. apply list_eq. intros k. unfold peer_words. rewrite list_lookup_fmap.
  destruct (ws !! k) as [x|] eqn:Hk.
  - pose proof (lookup_lt_Some _ _ _ Hk). rewrite lookup_seq_lt by done. cbn. by rewrite (H _ _ Hk).
  - apply lookup_ge_None in Hk. by rewrite lookup_seq_ge.
Qed.

(** The reader decodes the queue. *)
Lemma peer_reads m head q :
  tinv (tp m) -> ring_queue m head q -> published m ->
  match peer_step (trace m) (h2g_ (tp m)) head with
  | None => q = []
  | Some (msgs, head') =>
      (exists q', q = msgs ++ q' /\ ring_queue m head' q') /\
      used_words head' (tp m) < used_words head (tp m)
  end.
Proof.
  intros Hi [Hh Hq] Hp. unfold peer_step, published in *. rewrite Hp.
  pose proof (rings_count _ Hi) as [Hc _]. pose proof (used_range head _ Hi) as Hu.
  pose proof (used_end head _ Hi Hh) as He.
  destruct (Z.eqb_spec head (hTail_ (tp m))) as [E|E].
  - assert (H0 : used_words head (tp m) = 0) by (unfold used_words; rewrite E, Z.sub_diag; by apply Z.mod_0_l; lia).
    rewrite H0 in Hq. by inversion Hq.
  - inversion Hq as [i Hn|n i q' Hi' Hv Hrest Hn|n i w ws q' Hi' Hl Hw Hb Hv Hrest Hn]; subst.
    + destruct E. rewrite <- He. assert (used_words head (tp m) = 0) as -> by lia.
      rewrite Z.add_0_r. by rewrite Z.mod_small.
    + rewrite Hv. cbn [default]. change (id 0 =? 0) with true. cbv iota.
      assert (Ha : used_words ((head + 1) mod count (h2g_ (tp m))) (tp m) = used_words head (tp m) - 1)
        by (apply used_advance; [done|lia]).
      split; [|lia]. exists q. split; [done|]. split; [apply Z.mod_pos_bound; lia|]. rewrite Ha.
      by replace (Z.to_nat (used_words head (tp m) - 1)) with n by lia.
    + pose proof (Hv O w eq_refl) as Hv0. rewrite Z.add_0_r in Hv0. rewrite Hv0.
      change (default 0 (Some w)) with w. rewrite (proj2 (Z.eqb_neq _ _)) by done.
      rewrite Hb, Nat2Z.id. change (S (length ws)) with (length (w :: ws)).
      rewrite (peer_words_eq _ _ _ _ Hv). set (l := length (w :: ws)) in *.
      assert (Hln : 0 < Z.of_nat l /\ (l + n)%nat = Z.to_nat (used_words head (tp m)))
        by (unfold l; cbn [length] in *; lia).
      assert (Ha : used_words ((head + Z.of_nat l) mod count (h2g_ (tp m))) (tp m) = used_words head (tp m) - Z.of_nat l)
        by (apply used_advance; [done|lia]).
      split; [|lia]. exists q'. split; [done|]. split; [apply Z.mod_pos_bound; lia|]. rewrite Ha.
      by replace (Z.to_nat (used_words head (tp m) - Z.of_nat l)) with n by lia.
Qed.

(** * Runs of the two sides *)

(** The value of the H2G head that some accesses loaded last. *)
Fixpoint last_head (h : Ring) (tr : list ct_event) : option Z :=
  match tr with
  | [] => None
  | EvLoad a v :: tr => if a =? head_addr h then Some v else last_head h tr
  | _ :: tr => last_head h tr
  end.

(** Runs of the transport with a GuC at position [head], the messages sent and the
    messages the GuC has read.  A [send] sees the position that the GuC has when the
    transport last loads it. *)
Inductive ct_run : machine W -> Z -> list (list Z) -> list (list Z) -> Prop :=
  | run_start m : started mem m -> ct_run m 0 [] []
  | run_send a now dl m head sent got s c m' evs :
      ct_run m head sent got ->
      send mem a now dl m = ((s, c), m') -> broken_ (tp m') = false ->
      trace m' = evs ++ trace m -> (forall v, last_head (h2g_ (tp m)) evs = Some v -> v = head) ->
      ct_run m' head (if isOk s then sent ++ [wire a (c_fence c)] else sent) got
  | run_receive epoch now m head sent got :
      ct_run m head sent got -> ct_run (receive mem epoch now m).2 head sent got
  | run_expire now m head sent got : ct_run m head sent got -> ct_run (expire now m).2 head sent got
  | run_retire c m head sent got : ct_run m head sent got -> ct_run (retire c m).2 head sent got
  | run_world w m head sent got :
      ct_run m head sent got -> ct_run {| tp := tp m; world := w; trace := trace m |} head sent got
  | run_read m head sent got msgs head' :
      ct_run m head sent got -> peer_step (trace m) (h2g_ (tp m)) head = Some (msgs, head') ->
      ct_run m head' sent (got ++ msgs).

Lemma queue_same m m' head q :
  h2g_ (tp m') = h2g_ (tp m) -> hTail_ (tp m') = hTail_ (tp m) -> tinv (tp m) ->
  (forall a, (a = tail_addr (h2g_ (tp m)) \/ exists i, 0 <= i < count (h2g_ (tp m)) /\ a = word_addr (h2g_ (tp m)) i) ->
     view (trace m') a = view (trace m) a) ->
  ring_queue m head q -> published m -> ring_queue m' head q /\ published m'.
Proof.
  intros Er Et Hi Hv [Hh Hq] Hp. pose proof (rings_count _ Hi) as [Hc _]. split.
  - split; [by rewrite Er|]. unfold used_words. rewrite Er, Et.
    eapply holds_frame; [lia|exact Hq|done|]. intros j Hj. apply Hv. right.
    eexists. split; [|done]. apply Z.mod_pos_bound. lia.
  - unfold published. rewrite Er, Et. rewrite Hv by (by left). done.
Qed.

Lemma queue_quiet P m m' head q :
  h2g_ (tp m') = h2g_ (tp m) -> hTail_ (tp m') = hTail_ (tp m) -> tinv (tp m) -> emits P m m' [] ->
  ring_queue m head q -> published m -> ring_queue m' head q /\ published m'.
Proof.
  intros Er Et Hi He. apply queue_same; try done. intros a _. by rewrite (view_emits _ _ _ _ _ He).
Qed.

Lemma last_head_app h e1 e2 :
  Forall (fun e => match e with EvLoad _ _ => False | _ => True end) e1 ->
  last_head h (e1 ++ e2) = last_head h e2.
Proof. induction 1 as [|e e1 He _ IH]; [done|]. by destruct e. Qed.

(** The head that [send] used is the last it loaded. *)
Lemma send_head a now head slot m m0 m' evs st :
  at_ring a now head slot m m0 -> trace m' = evs ++ trace m ->
  emits (unread (h2g_ (tp m)) (g2h_ (tp m))) m0 m' st -> last_head (h2g_ (tp m)) evs = Some head.
Proof.
  intros [_ _ _ (e1 & T0) _ _] T (e2 & T2 & F2 & _). rewrite T0, app_comm_cons, app_assoc in T2.
  rewrite T in T2. apply app_inv_tail in T2 as ->. rewrite last_head_app.
  - cbn. by rewrite Z.eqb_refl.
  - eapply Forall_impl; [exact F2|]. by intros e [].
Qed.

Lemma pad_emits len space m r m' :
  pad_outcome len space m r m' -> exists st, emits (unread (h2g_ (tp m)) (g2h_ (tp m))) m m' st.
Proof. intros [? | ? ? ? ? ? ? | ? ? ? ?]; eauto using emits_refl. Qed.

Lemma publish_emits a dl slot m r m' :
  publish_outcome a dl slot m r m' -> exists st, emits (unread (h2g_ (tp m)) (g2h_ (tp m))) m m' st.
Proof. intros [? ? ? | ? ? ? ?]; eauto. Qed.

Lemma pad_rings len space m m1 :
  pad_outcome len space m None m1 -> h2g_ (tp m1) = h2g_ (tp m) /\ g2h_ (tp m1) = g2h_ (tp m).
Proof. intros H. inversion H as [|r' m' _ T _ _|]; subst; [done|]. by rewrite T. Qed.

(** What [send] does to the queue when the transport survives it. *)
Lemma send_queue a now dl head m s c m' evs q :
  tinv (tp m) -> ring_queue m head q -> published m ->
  send_outcome a now dl m (s, c) m' -> broken_ (tp m') = false ->
  trace m' = evs ++ trace m -> (forall v, last_head (h2g_ (tp m)) evs = Some v -> v = head) ->
  ring_queue m' head (if isOk s then q ++ [wire a (c_fence c)] else q) /\ published m'.
Proof.
  intros Hi Hq Hp H Hb Ht Hh.
  inversion H as [s' m'' Hs Htp E|m0 head0 slot s' m'' Har Hpad|m0 m1 head0 slot r m'' Har Hpad Hpub]; subst.
  - rewrite (proj2 (isOk_false s) Hs).
    eapply queue_quiet; [..|exact E|done|done]; try done; by destruct Htp as [->|[->| ->]].
  - destruct (pad_emits _ _ _ _ _ Hpad) as [st He].
    pose proof Har as [T0 E0 _ _ Hsp [Hv _ _ _ _]]. rewrite T0 in He.
    pose proof (Hh _ (send_head _ _ _ _ _ _ _ _ _ Har Ht He)) as ->.
    assert (Hi0 : tinv (tp m0)) by (rewrite T0; by apply tinv_time).
    destruct (queue_quiet _ m m0 head q ltac:(by rewrite T0) ltac:(by rewrite T0) Hi E0 Hq Hp) as [Hq0 Hp0].
    assert (Hf : free_words head (tp m0) = free_words head (tp m)) by by rewrite T0.
    rewrite <- Hf in Hsp, Hpad. pose proof (action_count _ Hv).
    assert (Hs : s <> IoFailure /\ s <> Ok).
    { inversion Hpad as [|r' m2 _ _ _ [[? _]|[[= ->] _]]|m2 st' [T|T] _]; subst; try done;
        by rewrite T in Hb. }
    rewrite (proj2 (isOk_false s) (proj2 Hs)).
    edestruct (queue_pad (a_count a + 1) head m0) as (Hq1 & Hp1 & _); [exact Hi0|exact Hq0|exact Hp0|lia|exact Hpad|..].
    { intros [= ?]. by destruct Hs. }
    by split.
  - destruct (pad_emits _ _ _ _ _ Hpad) as [st He]. destruct (publish_emits _ _ _ _ _ _ Hpub) as [st' He'].
    destruct (pad_rings _ _ _ _ Hpad) as [Eh Eg].
    pose proof Har as [T0 E0 _ _ Hsp [Hv _ _ _ _]]. rewrite Eh, Eg in He'. rewrite T0 in He, He'.
    pose proof (Hh _ (send_head _ _ _ _ _ _ _ _ _ Har Ht (emits_trans _ _ _ _ _ _ He He'))) as ->.
    assert (Hi0 : tinv (tp m0)) by (rewrite T0; by apply tinv_time).
    destruct (queue_quiet _ m m0 head q ltac:(by rewrite T0) ltac:(by rewrite T0) Hi E0 Hq Hp) as [Hq0 Hp0].
    assert (Hf : free_words head (tp m0) = free_words head (tp m)) by by rewrite T0.
    rewrite <- Hf in Hsp, Hpad. pose proof (action_count _ Hv) as Hn.
    edestruct (queue_pad (a_count a + 1) head m0) as (Hq1 & Hp1 & Hf1); [exact Hi0|exact Hq0|exact Hp0|lia|exact Hpad|done|].
    assert (Hlen : 0 < a_count a + 1 <= 13) by lia.
    destruct (pad_continues _ _ _ _ Hi0 Hlen Hpad) as (Hi1 & _ & Hl1).
    assert (s = Ok) as ->.
    { inversion Hpub as [|m2 st2 [T|T] _]; subst; [done|..]; by rewrite T in Hb. }
    eapply queue_publish; [exact Hi1|exact Hv|exact Hq1|by apply Hf1|exact Hl1|exact Hpub].
Qed.

Lemma receive_queue epoch now head m r m' q :
  tinv (tp m) -> ring_queue m head q -> published m ->
  receive_outcome epoch now m r m' -> ring_queue m' head q /\ published m'.
Proof.
  intros Hi Hq Hp H.
  inversion H as [s m'' Hs Htp E|msg m1 s m2 T1 E1 Hs Hd|msg m1 m2 n s m'' st T1 E1 Hc Hn Hl Hd Htp E F]; subst.
  - eapply queue_quiet; [..|exact E|done|done]; try done; by destruct Htp as [->|[->| ->]].
  - destruct (dispatch_rings _ _ _ _ Hd) as ([Eh _ _ _ _] & Et & _ & _ & Etr). rewrite T1 in Eh, Et.
    eapply (queue_quiet _ m m'); [by rewrite Eh|by rewrite Et|done| |done|done].
    destruct E1 as (evs & ? & ? & ?). exists evs. rewrite Etr. split_and!; [eassumption..|done].
  - destruct (dispatch_rings _ _ _ _ Hd) as ([Eh _ _ _ _] & Et & _ & _ & Etr). rewrite T1 in Eh, Et.
    assert (Htp' : h2g_ (tp m') = h2g_ (tp m) /\ hTail_ (tp m') = hTail_ (tp m)).
    { destruct Htp as [[_ ->]|[_ [-> | ->]]]; cbn; rewrite Eh, Et; done. }
    destruct Htp' as [Eh' Et']. eapply (queue_same m m'); try done. intros a Ha.
    rewrite (view_emits _ _ _ _ _ E), assoc_none.
    + unfold view. rewrite Etr. fold (view (trace m1) a). by rewrite (view_emits _ _ _ _ _ E1).
    + intros x Hx. rewrite (proj1 (Forall_forall _ _) F x Hx).
      destruct (spans_apart _ _ (ti_rings _ Hi)) as [Hs1 Hs2].
      destruct Ha as [->|(i & Hi' & ->)]; [done|]. by apply Hs1.
Qed.

Lemma run_queue m head sent got :
  ct_run m head sent got ->
  minv m /\ published m /\ exists pend, sent = got ++ pend /\ ring_queue m head pend.
Proof.
  induction 1 as [m (h & g & ops & ep & f & w & Hs)|a now dl m head sent got s c m' evs _ IH Hsend Hb Ht Hh
    |epoch now m head sent got _ IH|now m head sent got _ IH|c m head sent got _ IH|w m head sent got _ IH
    |m head sent got msgs head' _ IH Hstep].
  - apply attach_spec in Hs as (Hm & _ & Ht & Hst). pose proof Hm as [Hi _].
    split_and!; [done|unfold published, view; by rewrite Hst, Ht|]. exists []. split; [done|].
    split; [by apply zero_tail|]. unfold used_words. rewrite Ht. cbn. rewrite Z.mod_0_l; [constructor|].
    pose proof (rings_count _ Hi). lia.
  - destruct IH as (Hm & Hp & pend & -> & Hq). pose proof Hm as [Hi _].
    assert (Ho : send_outcome a now dl m (s, c) m').
    { pose proof (wp_send mem a now dl (fun r m' => send_outcome a now dl m r m') m Hi ltac:(auto)) as Ho.
      unfold wp in Ho. by rewrite Hsend in Ho. }
    pose proof (send_minv _ _ _ _ _ _ Hm Ho) as Hm'.
    destruct (send_queue _ _ _ _ _ _ _ _ _ _ Hi Hq Hp Ho Hb Ht Hh) as [Hq' Hp'].
    split_and!; [done|done|]. eexists. split; [|exact Hq']. destruct (isOk s); [by rewrite app_assoc|done].
  - destruct IH as (Hm & Hp & pend & -> & Hq). pose proof Hm as [Hi _].
    apply (wp_run (receive mem epoch now) (fun _ m => minv m /\ published m /\ exists pend', got ++ pend = got ++ pend' /\ ring_queue m head pend')).
    apply wp_receive; [done|]. intros r m' Ho. destruct (receive_queue _ _ _ _ _ _ _ Hi Hq Hp Ho).
    split_and!; [by eapply receive_minv|done|eauto].
  - destruct IH as (Hm & Hp & pend & -> & Hq).
    apply (wp_run (expire now) (fun _ m => minv m /\ published m /\ exists pend', got ++ pend = got ++ pend' /\ ring_queue m head pend')).
    apply wp_expire; [by eauto|]. split_and!; [by apply expire_minv|done|eauto].
  - destruct IH as (Hm & Hp & pend & -> & Hq).
    pose proof (retire_minv c _ Hm) as Hm'. revert Hm'.
    apply (wp_run (retire c) (fun _ m => minv m -> minv m /\ published m /\ exists pend', got ++ pend = got ++ pend' /\ ring_queue m head pend')).
    unfold retire. wp_step. wp_step. wp_step; [wp_steps; by eauto|]. destruct (find c (tp m)); [|wp_steps; by eauto].
    wp_step; [wp_steps; by eauto|]. wp_step. apply wp_upd. wp_steps. intros Hm'. split_and!; [done|done|eauto].
  - destruct IH as (Hm & Hp & pend & -> & Hq). split_and!; [by destruct Hm|done|eauto].
  - destruct IH as (Hm & Hp & pend & -> & Hq). pose proof Hm as [Hi _].
    pose proof (peer_reads m head pend Hi Hq Hp) as Hr. rewrite Hstep in Hr.
    destruct Hr as [(q' & -> & Hq') _]. split_and!; [done|done|]. exists q'. by rewrite app_assoc.
Qed.

(** [C16] In every state that operations of the transport reach, whatever the GuC and
    the adapter do in between: the response credits in hand and those held by pending
    requests add up to the maximum, no two requests share a cookie, the ring indices
    are in range, every memory access was inside the rings and every store was to the
    H2G buffer, the H2G tail or the G2H head. *)
Theorem transport_safe m :
  reachable mem m ->
  (0 <= credits_ (tp m) /\ credits_ (tp m) + held (pending_ (tp m)) = maxCredits_ (tp m)) /\
  (forall i j p q, pending_ (tp m) !! i = Some p -> pending_ (tp m) !! j = Some q ->
     used p = true -> used q = true -> cookie (reply p) = cookie (reply q) -> i = j) /\
  (0 <= hTail_ (tp m) < count (h2g_ (tp m)) /\ 0 <= gHead_ (tp m) < count (g2h_ (tp m))) /\
  Forall (access_ok (h2g_ (tp m)) (g2h_ (tp m))) (trace m).
Proof.
  intros Hr. destruct (reachable_minv mem m Hr) as [[] Htr]. split_and!; try done; try lia.
  intros i j p q Hp Hq Hu Hu' Hc. apply (ti_fences _ _ _ _ Hp Hq Hu Hu'). unfold fence_no. by rewrite Hc.
Qed.

(** [C17] The H2G ring is a queue: in every run of the transport with a GuC that reads
    the ring, the messages the GuC has read are a prefix of the messages whose [send]
    returned [Ok], in order and word for word; when the GuC finds the ring empty it has
    read all of them; and it gets there by reading on. *)
Theorem h2g_fifo m head sent got :
  ct_run m head sent got ->
  (exists pend, sent = got ++ pend) /\
  (peer_step (trace m) (h2g_ (tp m)) head = None -> got = sent) /\
  (exists head', ct_run m head' sent sent).
Proof.
  intros Hrun. split_and!.
  - destruct (run_queue _ _ _ _ Hrun) as (_ & _ & pend & -> & _). eauto.
  - destruct (run_queue _ _ _ _ Hrun) as ([Hi _] & Hp & pend & -> & Hq). intros Hn.
    pose proof (peer_reads _ _ _ Hi Hq Hp) as Hr. rewrite Hn in Hr. by rewrite Hr, app_nil_r.
  - remember (Z.to_nat (used_words head (tp m))) as n eqn:Hn. revert head got Hn Hrun.
    induction (lt_wf n) as [n _ IH]. intros head got Hn Hrun.
    destruct (run_queue _ _ _ _ Hrun) as ([Hi _] & Hp & pend & Hs & Hq).
    pose proof (peer_reads _ _ _ Hi Hq Hp) as Hr. pose proof (used_range head _ Hi) as Hu.
    destruct (peer_step _ _ head) as [[msgs head']|] eqn:Hstep.
    + destruct Hr as [_ Hlt]. pose proof (used_range head' _ Hi) as Hu'.
      eapply (IH (Z.to_nat (used_words head' (tp m)))); [lia|done|]. by eapply run_read.
    + exists head. rewrite Hr, app_nil_r in Hs. by subst.
Qed.

Lemma started_good m : started mem m -> good (tp m).
Proof.
  intros (h & g & ops & ep & f & w & Hs). apply attach_spec in Hs as ([Hi _] & Hp & _).
  split; [done|]. rewrite Hp. apply Forall_replicate. by intros [?|[?|[?|?]]].
Qed.

Lemma step_good m m' : minv m -> good (tp m) -> op_step mem m m' -> good (tp m') /\ evolves (tp m) (tp m').
Proof.
  intros Hm Hg Hs. destruct (step_evolves mem _ _ Hg Hs) as [He Hok].
  pose proof (step_minv mem _ _ Hm Hs) as [Hi _]. done.
Qed.

Lemma steps_evolve m m' :
  minv m -> good (tp m) -> rtc (op_step mem) m m' -> good (tp m') /\ minv m' /\ evolves (tp m) (tp m').
Proof.
  intros Hm Hg Hs. induction Hs as [m|m1 m2 m3 H _ IH].
  - split_and!; [done|done|by apply evolves_same].
  - destruct (step_good _ _ Hm Hg H) as [Hg2 He]. pose proof (step_minv mem _ _ Hm H) as Hm2.
    destruct (IH Hm2 Hg2) as (? & ? & ?). split_and!; [done|done|by eapply evolves_trans].
Qed.

(** A reply that is final stays as it is: once [query] reports that a request
    succeeded, failed, must be retried or timed out, it reports the same after any
    further operations - a late response of a request that timed out does not turn
    it into a success - until the request is retired; and then the cookie is never
    issued again. *)
Theorem final_reply_stable m m' c r :
  reachable mem m -> rtc (op_step mem) m m' ->
  query c (tp m) = (Ok, Some r) -> final (rstate r) ->
  (exists r', query c (tp m') = (Ok, Some r') /\ rstate r' = rstate r) \/
  query c (tp m') = (UnknownCookie, None).
Proof.
  intros (m0 & Hstart & Hs0) Hs Hq Hf.
  assert (Hm0 : minv m0) by (apply (reachable_minv mem); exists m0; done).
  destruct (steps_evolve _ _ Hm0 (started_good _ Hstart) Hs0) as (Hg & Hm & _).
  destruct (steps_evolve _ _ Hm Hg Hs) as (Hg' & Hm' & [Ee En Es]).
  destruct Hm as [Hi _], Hm' as [Hi' _].
  assert (Hep : c_epoch c = epoch_ (tp m)).
  { unfold query in Hq. destruct (Z.eqb_spec (c_epoch c) (epoch_ (tp m))); done. }
  destruct (query_slot _ c Hi Hep) as [[Hu _]|(i & p & Hqp & Hp & Hup & Hc)]; [congruence|].
  assert (r = reply p) as -> by congruence.
  destruct (query_slot _ c Hi' ltac:(congruence)) as [[Hu' _]|(j & q & Hqq & Hqj & Huq & Hcq)]; [by right|].
  left. exists (reply q). split; [done|].
  destruct (Es j q Hqj Huq) as [(p' & Hp' & Hup' & Hc' & Hst)|Hn].
  - assert (j = i) as ->.
    { apply (ti_fences _ Hi j i p' p); try done. unfold fence_no. congruence. }
    assert (p' = p) as -> by congruence. by apply Hst.
  - destruct (ti_slots _ Hi _ _ Hp Hup) as [_ [_ Hlt] _ _ _ _]. unfold fence_no in *.
    rewrite Hcq in Hn. rewrite Hc in Hlt. lia.
Qed.

(** * Progress *)

(** An adapter whose callbacks succeed and leave the world alone, and a memory whose
    loads do. *)
Record polite (ops : Ops W) : Prop := {
  po_admitted : exists f, admitted ops = Some f /\ forall e w, f e w = (true, w);
  po_authorize : exists f, authorizeAction ops = Some f /\ forall e a w, f e a w = (true, w);
  po_acquire : exists f, acquire ops = Some f /\ forall w, f w = (true, w);
  po_release : exists f, release ops = Some f /\ forall w, f w = (true, w);
  po_notify : exists f, notify ops = Some f /\ forall w, f w = (true, w);
  po_load : forall a w, (w_load mem a w).2 = w;
}.

(** The descriptors as the GuC and the transport left them, with the GuC at [head]. *)
Record descriptors_ok m (head : Z) : Prop := {
  do_status : wrap 32 (w_load mem (status_addr (h2g_ (tp m))) (world m)).1 = 0 /\
              wrap 32 (w_load mem (status_addr (g2h_ (tp m))) (world m)).1 = 0;
  do_own : wrap 32 (w_load mem (tail_addr (h2g_ (tp m))) (world m)).1 = hTail_ (tp m) /\
           wrap 32 (w_load mem (head_addr (g2h_ (tp m))) (world m)).1 = gHead_ (tp m);
  do_head : wrap 32 (w_load mem (head_addr (h2g_ (tp m))) (world m)).1 = head /\
            0 <= head < count (h2g_ (tp m));
  do_tail : wrap 32 (w_load mem (tail_addr (g2h_ (tp m))) (world m)).1 < count (g2h_ (tp m));
}.

Lemma wp_call_true f ev (Q : bool -> machine W -> Prop) m :
  (forall w, f w = (true, w)) ->
  Q true {| tp := tp m; world := world m; trace := ev true :: trace m |} -> wp (call (Some f) ev) Q m.
Proof. intros Hf HQ. unfold wp, call. by rewrite Hf. Qed.

Lemma wp_load_same a (Q : Z -> machine W -> Prop) m :
  (w_load mem a (world m)).2 = world m ->
  Q (wrap 32 (w_load mem a (world m)).1)
    {| tp := tp m; world := world m; trace := EvLoad a (wrap 32 (w_load mem a (world m)).1) :: trace m |} ->
  wp (load mem a) Q m.
Proof. intros Hw HQ. unfold wp, load. destruct (w_load mem a (world m)) as [v w]. cbn in *. by subst. Qed.

Lemma wp_any_bad_none checks (Q : bool -> machine W -> Prop) m :
  (forall a w, (w_load mem a w).2 = w) ->
  Forall (fun c => c.2 (wrap 32 (w_load mem c.1 (world m)).1) = false) checks ->
  (forall m', tp m' = tp m -> world m' = world m -> Q false m') -> wp (any_bad mem checks) Q m.
Proof.
  intros Hl. revert m. induction checks as [|[a bad] checks IH]; intros m Hc HQ; cbn [any_bad].
  - by apply HQ.
  - inversion_clear Hc as [|? ? H1 H2]. wp_step. apply wp_load_same; [apply Hl|]. cbn in H1. rewrite H1.
    apply IH; [exact H2|]. intros m' T E. by apply HQ.
Qed.

Lemma wp_check_ok head (Q : Status -> machine W -> Prop) m :
  attached_ (tp m) = true -> broken_ (tp m) = false -> polite (ops_ (tp m)) -> descriptors_ok m head ->
  (forall m', tp m' = tp m -> world m' = world m -> Q Ok m') -> wp (checkDescriptors mem) Q m.
Proof.
  intros Ha Hb [(fa & Ea & Hfa) _ (fq & Eq & Hfq) _ _ Hl] [[H1 H2] [H3 H4] [H5 H5'] H6] HQ.
  unfold checkDescriptors. wp_step. wp_step. rewrite Ha, Hb. cbn [negb].
  wp_step. unfold call_admitted. rewrite Ea. apply wp_call_true; [intros; apply Hfa|]. cbn [negb].
  wp_step. unfold call_acquire. rewrite Eq. apply wp_call_true; [apply Hfq|]. cbn [negb].
  wp_step. apply wp_any_bad_none; [done| |].
  - cbn [world]. repeat constructor; cbn [fst snd]; unfold nonzero;
      rewrite ?H1, ?H2, ?H3, ?H4, ?H5, ?Z.eqb_refl; try done; apply Z.leb_gt; lia.
  - intros m' T E. wp_steps. by apply HQ.
Qed.

Lemma wp_release_notify_ok ops (Q : bool -> machine W -> Prop) m :
  polite ops -> (forall m', tp m' = tp m -> Q true m') -> wp (release_notify ops) Q m.
Proof.
  intros [_ _ _ (fr & Er & Hfr) (fn & En & Hfn) _] HQ. unfold release_notify, call_release, call_notify.
  rewrite Er, En. wp_step. apply wp_call_true; [done|]. cbn [negb]. apply wp_call_true; [done|]. by apply HQ.
Qed.

Lemma wp_pad_ok len space (Q : option Status -> machine W -> Prop) m :
  tinv (tp m) -> polite (ops_ (tp m)) -> 0 < len <= 13 -> len <= space < 2 ^ 32 ->
  (count (h2g_ (tp m)) < hTail_ (tp m) + len -> len <= space - (count (h2g_ (tp m)) - hTail_ (tp m))) ->
  (forall m', tp m' = tp m \/ tp m' = set_hTail_ 0 (tp m) -> Q None m') -> wp (pad_ring mem len space) Q m.
Proof.
  intros Hi Hpo Hl Hs Hroom HQ. pose proof (rings_count _ Hi) as [Hc _]. pose proof (ti_tail _ Hi) as Ht. eval_pows.
  pose proof Hpo as [_ _ _ (fr & Er & Hfr) _ _]. unfold pad_ring. wp_step. wp_step.
  wp_step; rewrite wrap_small in Hcond by (eval_pows; lia); [|wp_steps; apply HQ; by left].
  apply Z.ltb_lt in Hcond. specialize (Hroom Hcond).
  wp_step. apply (wp_for_each (fun m' => tp m' = tp m)); [done|intros i m' _ T; exact T|]. intros m1 T1.
  wp_step. unfold call_release. rewrite Er. apply wp_call_true; [done|]. cbn [negb].
  wp_step. apply wp_upd. wp_step. unfold wp at 1. cbn [store fst snd]. wp_step.
  apply wp_release_notify_ok; [done|]. intros m2 T2. cbn [negb].
  rewrite (wrap_small 32 (count _ - _)), wrap_small by (eval_pows; lia).
  rewrite (proj2 (Z.ltb_ge _ _)) by lia. wp_steps. apply HQ. right. rewrite T2. cbn. by rewrite T1.
Qed.

Lemma wp_publish_ok a dl slot (Q : Status * Cookie -> machine W -> Prop) m :
  polite (ops_ (tp m)) -> (forall c m', Q (Ok, c) m') -> wp (publish mem a dl slot) Q m.
Proof.
  intros Hpo HQ. pose proof Hpo as [_ _ _ (fr & Er & Hfr) _ _]. unfold publish. wp_step. wp_step.
  wp_step. apply wp_upd. wp_step. apply wp_upd. wp_step.
  assert (Hst : forall ws i r (R : unit -> machine W -> Prop) m1,
    (forall m2, R tt m2) -> wp (store_words mem r i ws) R m1).
  { intros ws. induction ws as [|w ws IH]; intros i r R m1 HR; cbn [store_words]; [by apply HR|].
    wp_step. by apply IH. }
  apply Hst. intros m2. wp_step. unfold call_release. rewrite Er. apply wp_call_true; [done|]. cbn [negb].
  wp_step. apply wp_upd. wp_step. unfold wp at 1. cbn [store fst snd]. wp_step.
  apply wp_release_notify_ok; [done|]. intros m3 _. cbn [negb]. wp_steps. apply HQ.
Qed.

Lemma find_last_is_some {A} (p : A -> bool) (l : list A) i x :
  l !! i = Some x -> p x = true -> exists j, find_last p l = Some j.
Proof.
  revert i. induction l as [|y l IH]; intros [|i] Hi Hx; simplify_eq/=.
  - rewrite Hx. case_match; eauto.
  - destruct (IH _ Hi Hx) as [j ->]. eauto.
Qed.

(** [C18] A request is accepted when there is room for it: in any state of the
    invariant that is not broken, with callbacks that succeed, intact descriptors and a
    GuC that has left twice the length of the message free, a valid action whose deadline is ahead, that overlaps no pending
    transition and finds a free slot, a cookie and its response credits, is sent: [send]
    returns [Ok] with the cookie that numbers it. *)
Theorem send_progress a now dl m head :
  minv m -> broken_ (tp m) = false -> polite (ops_ (tp m)) -> descriptors_ok m head ->
  validateAction a = Ok -> lastTime_ (tp m) <= now < dl ->
  nextFence_ (tp m) < 0x8000 -> existsb (overlaps a) (pending_ (tp m)) = false ->
  (exists i p, pending_ (tp m) !! i = Some p /\ used p = false) ->
  reserve_of a = 0 \/ reserve_of a < credits_ (tp m) ->
  2 * (a_count a + 1) <= free_words head (tp m) ->
  (send mem a now dl m).1 =
    (Ok, {| c_epoch := epoch_ (tp m); c_fence := fence_of a (tp m) |}).
Proof.
  intros [Hi _] Hb Hpo Hd Hv Hnow Hn Ho (i & p & Hp & Hu) Hcr Hfree.
  assert (Hok : wp (send mem a now dl) (fun r _ => r.1 = Ok) m); cycle 1.
  { pose proof (wp_send mem a now dl (fun r m' => send_outcome a now dl m r m') m Hi ltac:(auto)) as Hs.
    unfold wp in Hok, Hs. destruct (send mem a now dl m) as [[s c] m']. cbn in *. subst s.
    inversion Hs as [|m0 h0 slot s' m2 Har Hpad|m0 m1 h0 slot r m2 Har Hpad Hpub]; subst; [done|..].
    - inversion Hpad as [|r' m3 _ _ _ [[? _]|[[= ?] _]]|]; done.
    - inversion Hpub as [m3 T _|]; subst. destruct Har as [T0 _ _ _ _ _].
      inversion Hpad as [|r' m3 _ T1 _ _|]; subst; [by rewrite T0|by rewrite T1, T0]. }
  pose proof (action_count _ Hv) as Hcnt. pose proof (word_land_mask _ (head -32 hTail_ (tp m) -32 1) Hi) as Hsp.
  fold (free_words head (tp m)) in Hsp. eval_pows.
  unfold send. rewrite Hv. cbn [isOk negb orb]. rewrite (proj2 (Z.leb_gt _ _)) by lia.
  wp_step. apply wp_clock; intros Hc; [lia|]. cbn [isOk negb].
  wp_step. apply (wp_check_ok head); [apply Hi|done|done|by destruct Hd|]. intros m1 T1 W1. cbn [isOk negb].
  wp_step. wp_step. wp_step. rewrite T1. cbn [tp] in *. pose proof Hpo as [P1 (f & Ef & Hf) P3 P4 P5 P6].
  unfold call_authorize. cbn [ops_ set_lastTime_]. rewrite Ef. apply wp_call_true; [intros; apply Hf|]. cbn [negb].
  cbn [nextFence_ pending_ credits_ set_lastTime_].
  rewrite (proj2 (Z.leb_gt _ _)), Ho by lia.
  destruct (find_last_is_some (fun p => negb (used p)) _ _ _ Hp (proj2 (negb_true_iff _) Hu)) as [slot ->].
  assert (Hc' : nonzero (reserve_of a) && (credits_ (tp m) <=? reserve_of a) = false).
  { unfold nonzero. destruct Hcr as [-> |Hcr]; [done|]. by rewrite (proj2 (Z.leb_gt _ _)), andb_false_r. }
  rewrite Hc'. wp_step. apply wp_load_same; [apply P6|]. cbn [world] in *. rewrite W1.
  destruct Hd as [_ _ [Hhead _] _]. cbn [h2g_ hTail_ set_lastTime_]. rewrite Hhead.
  fold (free_words head (tp m)). rewrite (proj2 (Z.ltb_ge _ _)) by lia.
  wp_step. apply wp_pad_ok.
  - cbn [tp]. rewrite T1. by apply tinv_time.
  - cbn [tp]. rewrite T1. done.
  - lia.
  - eval_pows. lia.
  - cbn [tp]. rewrite T1. cbn. lia.
  - cbn [tp]. intros m2 T2. apply wp_publish_ok; [|done].
    destruct T2 as [-> | ->]; cbn; by rewrite T1.
Qed.
End Thms.

(** * Examples

    A plain memory, an adapter that agrees to everything, two rings of 1024 words. *)

Definition plain : Memory (Z -> Z) := {|
  w_load := fun a w => (w a, w);
  w_store := fun a v w => fun x => if x =? a then v else w x |}.

Definition agree : Ops (Z -> Z) := {|
  admitted := Some (fun _ w => (true, w)); authorizeAction := Some (fun _ _ w => (true, w));
  acquire := Some (fun w => (true, w)); release := Some (fun w => (true, w));
  notify := Some (fun w => (true, w)); configurationAllowed := None |}.

Definition example_h2g : Ring := {|
  descriptor := 0x1000; words := 0x10000; count := 1024; descriptorGgtt := 0; bufferGgtt := 0 |}.
Definition example_g2h : Ring := {|
  descriptor := 0x2000; words := 0x20000; count := 1024; descriptorGgtt := 0; bufferGgtt := 0 |}.

Definition example_firmware : FirmwareInfo :=
  {| fi_release := version gucRecommendedRelease; fi_submission := version requiredSubmissionAbi;
     ucodeOffset := 0; ucodeBytes := 0; rsaOffset := 0; rsaBytes := 0; minimumBytes := 0;
     privateDataBytes := 0; moduleVendor := 0; headerVersion := 0; declaredDeviceId := 0;
     buildType := 0; securityVersion := 0; deviceInfoValid := false; securityInfoValid := false;
     belowRecommended := false |}.

Definition example_start : Status * machine (Z -> Z) :=
  attach plain example_h2g example_g2h agree 1 example_firmware
    {| tp := new_transport; world := fun _ => 0; trace := [] |}.

Definition enable_7 : Action := (encodeMode 7 true).2.

(** The request to enable context 7, sent at time 1 with a deadline at 100. *)
Local Notation example_sent := (send plain enable_7 1 100 example_start.2).

Definition example_cookie : Cookie := {| c_epoch := 1; c_fence := 0x8000 |}.

Lemma example_started : started plain example_start.2.
Proof.
  exists example_h2g, example_g2h, agree, 1, example_firmware, (fun _ => 0).
  rewrite (surjective_pairing (attach _ _ _ _ _ _ _)). f_equal.
Qed.

Lemma example_sent_ok : example_sent = ((Ok, example_cookie), example_sent.2).
Proof. rewrite (surjective_pairing example_sent) at 1. f_equal. Qed.

Lemma example_reachable : reachable plain example_sent.2.
Proof. exists example_start.2. split; [apply example_started|]. apply rtc_once, step_send. Qed.

Lemma transport_safe_witness :
  reachable plain example_sent.2 /\
  credits_ (tp example_sent.2) = 507 /\ held (pending_ (tp example_sent.2)) = 4 /\
  credits_ (tp example_sent.2) + held (pending_ (tp example_sent.2)) = maxCredits_ (tp example_sent.2).
Proof.
  split_and!; [apply example_reachable|vm_compute; reflexivity..|].
  apply (transport_safe plain _ example_reachable).
Defined.

(** The GuC reads the message and finds the ring empty. *)
Lemma h2g_fifo_witness :
  ct_run plain example_sent.2 4 [wire enable_7 0x8000] [wire enable_7 0x8000] /\
  wire enable_7 0x8000 = [0x80000003; 0x20001001; 7; 1] /\
  exists pend, [wire enable_7 0x8000] = [wire enable_7 0x8000] ++ pend.
Proof.
  assert (Hrun : ct_run plain example_sent.2 4 [wire enable_7 0x8000] [wire enable_7 0x8000]).
  { apply (run_read plain _ 0 _ [] [wire enable_7 0x8000]); [|vm_compute; reflexivity].
    eapply (run_send plain enable_7 1 100 example_start.2 0 [] [] Ok example_cookie _
      (take (length (trace example_sent.2) - length (trace example_start.2)) (trace example_sent.2))).
    - apply run_start, example_started.
    - exact example_sent_ok.
    - vm_compute. reflexivity.
    - vm_compute. reflexivity.
    - vm_compute. congruence. }
  split_and!; [exact Hrun|vm_compute; reflexivity|]. apply (h2g_fifo plain _ _ _ _ Hrun).
Defined.

(** The request times out at 100; the acknowledgement that comes later does not change that. *)
Definition example_timed_out : machine (Z -> Z) := (expire 100 example_sent.2).2.

Definition example_late : machine (Z -> Z) :=
  (receive plain 1 101 {| tp := tp example_timed_out;
     world := fun a => if a =? 0x2004 then 4 else if a =? 0x20000 then 3 else
       if a =? 0x20004 then 0x90001002 else if a =? 0x20008 then 7 else if a =? 0x2000c then 1
       else world example_timed_out a; trace := trace example_timed_out |}).2.

Lemma final_reply_stable_witness :
  rstate <$> (query example_cookie (tp example_timed_out)).2 = Some RTimedOut /\
  credits_ (tp example_late) = 511 /\
  ((exists r', query example_cookie (tp example_late) = (Ok, Some r') /\ rstate r' = RTimedOut) \/
   query example_cookie (tp example_late) = (UnknownCookie, None)).
Proof.
  destruct (query example_cookie (tp example_timed_out)) as [s o] eqn:E.
  assert (Hq : s = Ok /\ exists r, o = Some r /\ rstate r = RTimedOut).
  { revert E. vm_compute. intros [= <- <-]. eauto. }
  destruct Hq as (-> & r & -> & Hr). split_and!; [by cbn; rewrite Hr|vm_compute; reflexivity|].
  rewrite <- Hr. eapply (final_reply_stable plain example_timed_out).
  - destruct example_reachable as (m0 & Hm0 & Hs). exists m0. split; [done|].
    eapply rtc_r; [exact Hs|apply step_expire].
  - eapply rtc_l; [apply step_world|]. apply rtc_once, step_receive.
  - exact E.
  - rewrite Hr. by right; right; right.
Defined.

Lemma send_progress_witness :
  (send plain enable_7 1 100 example_start.2).1 =
    (Ok, {| c_epoch := epoch_ (tp example_start.2); c_fence := fence_of enable_7 (tp example_start.2) |}).
Proof.
  apply (send_progress plain enable_7 1 100 example_start.2 0).
  - apply (reachable_minv plain). exists example_start.2. split; [apply example_started|done].
  - vm_compute. reflexivity.
  - split; try (eexists; split; [vm_compute; reflexivity|done]). done.
  - split; vm_compute; done.
  - vm_compute. reflexivity.
  - vm_compute. done.
  - vm_compute. reflexivity.
  - vm_compute. reflexivity.
  - exists O, no_pending. split; vm_compute; reflexivity.
  - right. vm_compute. reflexivity.
  - vm_compute. done.
Defined.
