(* ===== verification/GucMailbox.v ===== *)
(** The MMIO mailbox of [Mellow/XeGuCTransport.{hpp,cpp}], [Mailbox::exchange], and the
    bring-up of the CT rings through it, [configureAndEnable]: the code, the protocol that
    every exchange follows, and what a successful bring-up has done. *)
From stdpp Require Import base numbers list.
From S2P Require Import Prelude.
From S2P Require Import StateWp.
From S2P Require Import XeFirmware.
From S2P Require Import GucTransport.
Import XeGuC.

Module GucMailbox.

(** * Code *)

Definition mainNotifyRegister : Z := 0x1901f0.
Definition mainMailboxRegister : Z := 0x190240.

(** What is done to registers, to ring memory and to time, newest first. *)
Inductive mb_event :=
  | EvRead (offset value : Z) (ok : bool)
  | EvWrite (offset value : Z) (ok : bool)
  | EvDelay (micros : Z)
  | EvZero (address : Z)
  | EvBarrier (done : bool).

Section Mailbox.
Context {W : Type}.

(** Callbacks; [read32] is given the value that the variable holds. *)
Record MmioOps := {
  mm_admitted : option (Z -> W -> bool * W);
  read32 : option (Z -> Z -> W -> (bool * Z) * W);
  write32 : option (Z -> Z -> W -> bool * W);
  nowMicros : option (W -> Z * W);
  delayMicros : option (Z -> W -> W);
}.

Record Mailbox := { mb_ops_ : MmioOps; mb_epoch_ : Z; active_ : bool; poisoned_ : bool }.

Definition new_mailbox (ops : MmioOps) (epoch : Z) : Mailbox :=
  {| mb_ops_ := ops; mb_epoch_ := epoch; active_ := false; poisoned_ := false |}.

Definition set_active_ v (b : Mailbox) : Mailbox :=
  {| mb_ops_ := mb_ops_ b; mb_epoch_ := mb_epoch_ b; active_ := v; poisoned_ := poisoned_ b |}.
Definition set_poisoned_ v (b : Mailbox) : Mailbox :=
  {| mb_ops_ := mb_ops_ b; mb_epoch_ := mb_epoch_ b; active_ := active_ b; poisoned_ := v |}.

Record mb_machine := { mbox : Mailbox; mb_world : W; mb_trace : list mb_event }.

Definition mb_upd (f : Mailbox -> Mailbox) : ST mb_machine unit :=
  modify (fun m => {| mbox := f (mbox m); mb_world := mb_world m; mb_trace := mb_trace m |}).

(** A callback, with the events it stands for. *)
Definition mb_call {A} (f : W -> A * W) (ev : A -> list mb_event) : ST mb_machine A := fun m =>
  let '(r, w) := f (mb_world m) in
  (r, {| mbox := mbox m; mb_world := w; mb_trace := ev r ++ mb_trace m |}).

Definition call_admitted : ST mb_machine bool :=
  b <-- gets mbox ;;
  mb_call (fun w => match mm_admitted (mb_ops_ b) with Some f => f (mb_epoch_ b) w | None => (false, w) end)
    (fun _ => []).

(** The lambdas [read] and [write]. *)
Definition read (offset old : Z) : ST mb_machine (bool * Z) :=
  ok <-- call_admitted ;;
  if negb ok then ret (false, old) else
  b <-- gets mbox ;;
  r <-- mb_call (fun w => match read32 (mb_ops_ b) with Some f => f offset old w | None => ((false, old), w) end)
          (fun r => [EvRead offset (wrap 32 r.2) r.1]) ;;
  ret (r.1, wrap 32 r.2).

Definition write (offset value : Z) : ST mb_machine bool :=
  ok <-- call_admitted ;;
  if negb ok then ret false else
  b <-- gets mbox ;;
  mb_call (fun w => match write32 (mb_ops_ b) with Some f => f offset value w | None => (false, w) end)
    (fun r => [EvWrite offset value r]).

Definition now_micros : ST mb_machine Z :=
  b <-- gets mbox ;;
  v <-- mb_call (fun w => match nowMicros (mb_ops_ b) with Some f => f w | None => (0, w) end) (fun _ => []) ;;
  ret (wrap 64 v).

Definition delay (micros : Z) : ST mb_machine unit :=
  b <-- gets mbox ;;
  mb_call (fun w => (tt, match delayMicros (mb_ops_ b) with Some f => f micros w | None => w end))
    (fun _ => [EvDelay micros]).

(** The lambda [finish]; the second component is [response]. *)
Definition finish (s : Status) (uncertain : bool) (response : Z) : ST mb_machine (Status * Z) :=
  mb_upd (set_active_ false) ;;;
  when uncertain (mb_upd (set_poisoned_ true)) ;;;
  ret (s, response).

(** The copy of the input, with zeros after it. *)
Definition request_of (input : list Z) (count : Z) : list Z :=
  take (Z.to_nat count) input ++ replicate (4 - Z.to_nat count) 0.

(** SELF_CFG of a known key with the length of its value, or CONTROL_CTB. *)
Definition request_valid (q : list Z) (count : Z) : bool :=
  let key := Z.shiftr (q !!! 1%nat) 16 in
  let len := Z.land (q !!! 1%nat) 0xffff in
  let klvLength := if (key =? 0x904) || (key =? 0x907) then 1 else 2 in
  ((count =? 4) && (q !!! 0%nat =? 0x508) && (0x902 <=? key) && (key <=? 0x907) && (len =? klvLength) &&
   ((len =? 2) || (q !!! 3%nat =? 0))) ||
  ((count =? 2) && (q !!! 0%nat =? 0x4509) && (q !!! 1%nat <=? 1)).

(** The words of the request, to consecutive registers. *)
Fixpoint write_words (offset : Z) (l : list Z) : ST mb_machine bool :=
  match l with
  | [] => ret true
  | v :: l => ok <-- write offset v ;; if ok then write_words (offset + 4) l else ret false
  end.

(** The polling loop, with what is left of its 2052 rounds. *)
Fixpoint poll_loop (n : nat) (start last busyStart : Z) (seenBusy : bool) (header : Z)
    : ST mb_machine (Status * Z) :=
  match n with
  | O => finish Timeout true 0
  | S n =>
      r <-- read mainMailboxRegister header ;;
      let header := r.2 in
      if negb r.1 || (header =? U32_MAX) then finish IoFailure true 0 else
      now <-- now_micros ;;
      if now <? last then finish IoFailure true 0 else
      if (negb seenBusy && (50000 <=? now -64 start)) || (seenBusy && (2000000 <=? now -64 busyStart))
      then finish Timeout true 0 else
      if test header 0x80000000 then
        let type := Z.land (Z.shiftr header 28) 7 in
        if type =? 7 then finish Ok false (Z.land header 0x0fffffff) else
        if type =? 6 then finish Rejected false header else
        if type =? 5 then finish Retry false header else
        if negb (type =? 3) then finish Corrupt true 0 else
        delay 1000 ;;;
        poll_loop n start now (if seenBusy then busyStart else now) true header
      else if seenBusy then finish Corrupt true 0 else
        delay 1000 ;;;
        poll_loop n start now busyStart seenBusy header
  end.

(** The posting read of the last mailbox register, then the doorbell; with the header read. *)
Definition ring_bell : ST mb_machine (bool * Z) :=
  r <-- read (mainMailboxRegister + 12) 0 ;;
  ok <-- (if r.1 then write mainNotifyRegister 0 else ret false) ;;
  ret (ok, r.2).

Definition is_some {A} (x : option A) : bool := match x with Some _ => true | None => false end.

Definition exchange (input : option (list Z)) (count : Z) : ST mb_machine (Status * Z) :=
  match input with
  | None => ret (Invalid, 0)
  | Some input =>
      if (count =? 0) || (4 <? count) then ret (Invalid, 0) else
      let q := request_of input count in
      if negb (request_valid q count) then ret (Invalid, 0) else
      b <-- gets mbox ;;
      if active_ b then ret (Busy, 0) else
      if poisoned_ b then ret (Corrupt, 0) else
      if (mb_epoch_ b =? 0) || negb (is_some (mm_admitted (mb_ops_ b))) || negb (is_some (read32 (mb_ops_ b))) ||
         negb (is_some (write32 (mb_ops_ b))) || negb (is_some (nowMicros (mb_ops_ b))) ||
         negb (is_some (delayMicros (mb_ops_ b))) then ret (Unavailable, 0) else
      ok <-- call_admitted ;;
      if negb ok then ret (Unavailable, 0) else
      mb_upd (set_active_ true) ;;;
      ok <-- write_words mainMailboxRegister (take (Z.to_nat count) q) ;;
      if negb ok then finish IoFailure true 0 else
      r <-- ring_bell ;;
      if negb r.1 then finish IoFailure true 0 else
      start <-- now_micros ;;
      poll_loop 2052 start start 0 false r.2
  end.

(** ** Bring-up of the rings *)

Definition in_range (base bytes minimum limit : Z) : bool :=
  (minimum <=? base) && (base <? limit) && (bytes <=? limit - base).

Definition ggtt_base (c : Configuration) : list Z :=
  [descriptorGgtt (cfg_h2g c); bufferGgtt (cfg_h2g c); descriptorGgtt (cfg_g2h c); bufferGgtt (cfg_g2h c)].
Definition ggtt_size (c : Configuration) : list Z :=
  [64; count (cfg_h2g c) * 4; 64; count (cfg_g2h c) * 4].

(** The loop over the four GGTT ranges. *)
Fixpoint ranges_ok (c : Configuration) (odd : bool) (done l : list (Z * Z)) : bool :=
  match l with
  | [] => true
  | (base, size) :: l =>
      negb (test base (if odd then 4095 else 63)) &&
      in_range base size (minimumGgtt c) (limitGgtt c) &&
      negb (existsb (fun '(b, s) => (base <? b +64 s) && (b <? base +64 size)) done) &&
      ranges_ok c (negb odd) (done ++ [(base, size)]) l
  end.

Definition configuration_invalid (c : Configuration) (b : Mailbox) : bool :=
  (cfg_epoch c =? 0) || negb (cfg_epoch c =? mb_epoch_ b) || negb (ringsValid (cfg_h2g c) (cfg_g2h c)) ||
  negb (abiValid (cfg_firmware c)) || (limitGgtt c <=? minimumGgtt c) || (2 ^ 32 <? limitGgtt c).

(** The addresses that are cleared for a ring: status, tail, head, reserved, words. *)
Definition ring_words (r : Ring) : list Z :=
  [status_addr r; tail_addr r; head_addr r] ++
  ((fun i => descriptor r + 12 + 4 * Z.of_nat i) <$> seq 0 13) ++
  ((fun i => words r + 4 * Z.of_nat i) <$> seq 0 (Z.to_nat (count r))).

Definition clear_word (store0 : Z -> W -> W) (a : Z) : ST mb_machine unit :=
  mb_call (fun w => (tt, store0 a w)) (fun _ => [EvZero a]).

Definition cfg_call (f : option (W -> bool * W)) (ev : bool -> list mb_event) : ST mb_machine bool :=
  mb_call (fun w => match f with Some f => f w | None => (false, w) end) ev.

(** The six SELF_CFG requests and the final CONTROL_CTB. *)
Definition config_keys : list Z := [0x903; 0x902; 0x904; 0x906; 0x905; 0x907].
Definition config_values (c : Configuration) : list Z :=
  [ggtt_base c !!! 0%nat; ggtt_base c !!! 1%nat; ggtt_size c !!! 1%nat;
   ggtt_base c !!! 2%nat; ggtt_base c !!! 3%nat; ggtt_size c !!! 3%nat].
Definition config_request (i : nat) (key value : Z) : list Z :=
  [0x508; Z.lor (wrap 32 (Z.shiftl key 16)) (if (i mod 3 =? 2)%nat then 1 else 2);
   wrap 32 value; wrap 32 (Z.shiftr value 32)].
Definition config_requests (c : Configuration) : list (list Z) :=
  imap (fun i kv => config_request i kv.1 kv.2) (zip config_keys (config_values c)).
Definition enable_request : list Z := [0x4509; 1].

Fixpoint send_config (ops : Ops W) (epoch : Z) (l : list (list Z)) : ST mb_machine Status :=
  match l with
  | [] => ret Ok
  | q :: l =>
      ok <-- cfg_call (match admitted ops with Some f => Some (f epoch) | None => None end) (fun _ => []) ;;
      if negb ok then ret Unavailable else
      r <-- exchange (Some q) 4 ;;
      if negb (isOk r.1) then ret r.1 else
      if negb (r.2 =? 1) then ret Rejected else send_config ops epoch l
  end.

(** [store0] writes a zero to ring memory. *)
Definition configureAndEnable (store0 : Z -> W -> W) (c : Configuration) (ops : Ops W)
    : ST mb_machine Status :=
  b <-- gets mbox ;;
  if configuration_invalid c b then ret Invalid else
  if negb (ranges_ok c false [] (zip (ggtt_base c) (ggtt_size c))) then ret Invalid else
  if negb (is_some (admitted ops)) || negb (is_some (release ops)) || negb (is_some (configurationAllowed ops))
  then ret Unavailable else
  ok <-- cfg_call (match admitted ops with Some f => Some (f (cfg_epoch c)) | None => None end) (fun _ => []) ;;
  if negb ok then ret Unavailable else
  ok <-- cfg_call (match configurationAllowed ops with Some f => Some (f c) | None => None end) (fun _ => []) ;;
  if negb ok then ret Unavailable else
  for_each (ring_words (cfg_h2g c) ++ ring_words (cfg_g2h c)) (clear_word store0) ;;;
  ok <-- cfg_call (release ops) (fun r => [EvBarrier r]) ;;
  if negb ok then ret IoFailure else
  s <-- send_config ops (cfg_epoch c) (config_requests c) ;;
  if negb (isOk s) then ret s else
  r <-- exchange (Some enable_request) 2 ;;
  ret (if isOk r.1 && negb (r.2 =? 0) then Corrupt else r.1).
End Mailbox.
Arguments MmioOps : clear implicits.
Arguments Mailbox : clear implicits.
Arguments mb_machine : clear implicits.
End GucMailbox.
