(* ===== verification/GucMailboxThms.v ===== *)
(** The theorems about the mailbox: every exchange ends within its bound and follows the
    protocol, and a successful bring-up has sent exactly its seven requests, each of them
    acknowledged, after the rings were cleared. *)
From stdpp Require Import base numbers list.
From S2P Require Import Prelude.
From S2P Require Import StateWp.
From S2P Require Import XeFirmware.
From S2P Require Import GucTransport.
From S2P Require Import GucMailbox.
Import XeGuC GucMailbox.

(** * What a trace shows *)

Definition write_of (ev : mb_event) : list (Z * Z) :=
  match ev with EvWrite o v _ => [(o, v)] | _ => [] end.
Definition is_read (ev : mb_event) : bool := match ev with EvRead _ _ _ => true | _ => false end.
Definition is_delay (ev : mb_event) : bool := match ev with EvDelay _ => true | _ => false end.

(** The register writes, in the order in which they were made. *)
Fixpoint writes (evs : list mb_event) : list (Z * Z) :=
  match evs with [] => [] | ev :: evs => writes evs ++ write_of ev end.
Definition number (p : mb_event -> bool) (evs : list mb_event) : nat := length (List.filter p evs).

Lemma writes_app evs1 evs2 : writes (evs1 ++ evs2) = writes evs2 ++ writes evs1.
Proof. induction evs1 as [|ev evs IH]; cbn; [by rewrite app_nil_r|]. by rewrite IH, app_assoc. Qed.

Lemma number_app p evs1 evs2 : number p (evs1 ++ evs2) = (number p evs1 + number p evs2)%nat.
Proof. unfold number. by rewrite List.filter_app, length_app. Qed.

(** A request on the wire: its words to the mailbox, then the doorbell. *)
Fixpoint words_at (offset : Z) (l : list Z) : list (Z * Z) :=
  match l with [] => [] | v :: l => (offset, v) :: words_at (offset + 4) l end.
Definition wire (q : list Z) : list (Z * Z) := words_at mainMailboxRegister q ++ [(mainNotifyRegister, 0)].

(** The header [v] is the final answer that a status reports. *)
Definition header_type (v : Z) : Z := Z.land (Z.shiftr v 28) 7.
Definition answered (s : Status) (response v : Z) : Prop :=
  test v 0x80000000 = true /\
  match s with
  | Ok => header_type v = 7 /\ response = Z.land v 0x0fffffff
  | Rejected => header_type v = 6 /\ response = v
  | Retry => header_type v = 5 /\ response = v
  | _ => False
  end.
Definition broke (s : Status) : Prop := s = IoFailure \/ s = Timeout \/ s = Corrupt.

Section Mailbox.
Context {W : Type}.
Implicit Types (m : mb_machine W) (b : Mailbox W) (tr evs : list mb_event).

(** The machine with mailbox [b] after the events [tr]. *)
Definition at_ b tr m : Prop := mbox m = b /\ mb_trace m = tr.

(** ** Rules *)

Lemma wp_mb_call {A} (f : W -> A * W) ev b tr m (Q : A -> mb_machine W -> Prop) :
  at_ b tr m -> (forall r m', at_ b (ev r ++ tr) m' -> Q r m') -> wp (mb_call f ev) Q m.
Proof. intros [<- <-] HQ. unfold wp, mb_call. destruct (f (mb_world m)) as [r w]. by apply HQ. Qed.

Lemma wp_mb_upd f b tr m (Q : unit -> mb_machine W -> Prop) :
  at_ b tr m -> (forall m', at_ (f b) tr m' -> Q tt m') -> wp (mb_upd f) Q m.
Proof. intros [<- <-] HQ. apply wp_modify. by apply HQ. Qed.

Lemma wp_admitted b tr m (Q : bool -> mb_machine W -> Prop) :
  at_ b tr m -> (forall r m', at_ b tr m' -> Q r m') -> wp call_admitted Q m.
Proof. intros Ha HQ. unfold call_admitted. wp_step. wp_step. eapply wp_mb_call; [done|]. auto. Qed.

(** A read that is not admitted makes no access. *)
Lemma wp_read o old b tr m (Q : bool * Z -> mb_machine W -> Prop) :
  at_ b tr m ->
  (forall r m', at_ b (EvRead o r.2 r.1 :: tr) m' -> Q r m') ->
  (forall v m', at_ b tr m' -> Q (false, v) m') -> wp (read o old) Q m.
Proof.
  intros Ha H1 H2. unfold read. wp_step. eapply wp_admitted; [done|]. intros ok m1 Ha1.
  wp_step; [apply wp_ret; by apply H2|]. wp_step. wp_step. wp_step. eapply wp_mb_call; [done|].
  intros r m2 Ha2. apply wp_ret. by apply H1.
Qed.

Lemma wp_write o v b tr m (Q : bool -> mb_machine W -> Prop) :
  at_ b tr m ->
  (forall r m', at_ b (EvWrite o v r :: tr) m' -> Q r m') ->
  (forall m', at_ b tr m' -> Q false m') -> wp (write o v) Q m.
Proof.
  intros Ha H1 H2. unfold write. wp_step. eapply wp_admitted; [done|]. intros ok m1 Ha1.
  wp_step; [apply wp_ret; by apply H2|]. wp_step. wp_step. eapply wp_mb_call; [done|].
  intros r m2 Ha2. by apply H1.
Qed.

Lemma wp_now b tr m (Q : Z -> mb_machine W -> Prop) :
  at_ b tr m -> (forall v m', at_ b tr m' -> Q v m') -> wp now_micros Q m.
Proof.
  intros Ha HQ. unfold now_micros. wp_step. wp_step. wp_step. eapply wp_mb_call; [done|].
  intros v m1 Ha1. apply wp_ret. by apply HQ.
Qed.

Lemma wp_delay k b tr m (Q : unit -> mb_machine W -> Prop) :
  at_ b tr m -> (forall m', at_ b (EvDelay k :: tr) m' -> Q tt m') -> wp (delay k) Q m.
Proof.
  intros Ha HQ. unfold delay. wp_step. wp_step. eapply wp_mb_call; [done|]. intros [] m1 Ha1. by apply HQ.
Qed.

(** The mailbox when an exchange is over. *)
Definition over (uncertain : bool) b : Mailbox W :=
  if uncertain then set_poisoned_ true (set_active_ false b) else set_active_ false b.

Lemma wp_finish s u v b tr m (Q : Status * Z -> mb_machine W -> Prop) :
  at_ b tr m -> (forall m', at_ (over u b) tr m' -> Q (s, v) m') -> wp (finish s u v) Q m.
Proof.
  intros Ha HQ. unfold finish. wp_step. eapply wp_mb_upd; [done|]. intros m1 Ha1. wp_step.
  apply wp_when; intros ->; [eapply wp_mb_upd; [done|]; intros m2 Ha2|]; apply wp_ret; by apply HQ.
Qed.

(** ** The polling loop *)

(** How an exchange that was started ends, [evs] being what it did after [tr]. *)
Definition ends b tr evs (r : Status * Z) m' : Prop :=
  (at_ (over false b) (evs ++ tr) m' /\
     exists v evs', evs = EvRead mainMailboxRegister v true :: evs' /\ answered r.1 r.2 v) \/
  (at_ (over true b) (evs ++ tr) m' /\ broke r.1).

Lemma ends_app b tr evs1 evs2 r m' : ends b (evs1 ++ tr) evs2 r m' -> ends b tr (evs2 ++ evs1) r m'.
Proof.
  intros [[Ha (v & evs' & -> & Hans)]|[Ha Hb]]; rewrite app_assoc in Ha.
  - left. split; [done|]. by exists v, (evs' ++ evs1).
  - by right.
Qed.

Definition polled (n : nat) b tr (r : Status * Z) m' : Prop :=
  exists evs, ends b tr evs r m' /\ writes evs = [] /\
    (number is_read evs <= n)%nat /\ (number is_delay evs <= n)%nat.

Lemma polled_broke n evs s v b tr m :
  at_ b (evs ++ tr) m -> broke s -> writes evs = [] ->
  (number is_read evs <= n)%nat -> (number is_delay evs <= n)%nat -> wp (finish s true v) (polled n b tr) m.
Proof.
  intros Ha Hb Hw Hr Hd. eapply wp_finish; [done|]. intros m1 Ha1. exists evs. split; [|done]. by right.
Qed.

Lemma polled_answer n s k v b tr m :
  at_ b (EvRead mainMailboxRegister v true :: tr) m -> answered s k v ->
  wp (finish s false k) (polled (S n) b tr) m.
Proof.
  intros Ha Hans. eapply wp_finish; [done|]. intros m1 Ha1. exists [EvRead mainMailboxRegister v true].
  split_and!; [|done|cbn; lia|cbn; lia]. left. split; [done|]. by eexists v, [].
Qed.

Lemma poll_loop_ok n start last busy seen header b tr m :
  at_ b tr m -> wp (poll_loop n start last busy seen header) (polled n b tr) m.
Proof.
  revert start last busy seen header tr m. induction n as [|n IH]; intros start last busy seen header tr m Ha;
    cbn [poll_loop].
  { apply (polled_broke 0 []); [done|by right; left|done|cbn; lia..]. }
  wp_step. eapply wp_read; [done| |].
  2: { intros v m1 Ha1. cbn [negb orb]. apply (polled_broke _ []); [done|by left|done|cbn; lia..]. }
  intros [ok v] m1 Ha1. cbn [fst snd] in *.
  assert (Hone : forall s k m', at_ b (EvRead mainMailboxRegister v ok :: tr) m' -> broke s ->
    wp (finish s true k) (polled (S n) b tr) m').
  { intros s k m' Ha' Hb. apply (polled_broke _ [EvRead mainMailboxRegister v ok]); [done..|cbn; lia|cbn; lia]. }
  wp_step; [apply Hone; [done|by left]|]. apply orb_false_iff in Hcond as [->%negb_false_iff _].
  wp_step. eapply wp_now; [done|]. intros now m2 Ha2.
  wp_step; [apply Hone; [done|by left]|]. wp_step; [apply Hone; [done|by right; left]|].
  assert (Hnext : forall k s, wp (delay 1000 ;;; poll_loop n start now k s v) (polled (S n) b tr) m2).
  { intros k s. wp_step. eapply wp_delay; [done|]. intros m3 Ha3.
    eapply wp_mono; [by apply IH|]. intros r m' (evs & He & Hw & Hr & Hd).
    exists (evs ++ [EvDelay 1000; EvRead mainMailboxRegister v true]).
    rewrite writes_app, !number_app, Hw. split_and!; [by apply ends_app|done|cbn; lia|cbn; lia]. }
  wp_step.
  - do 3 (wp_step; [zbool; apply (polled_answer _ _ _ v); [done|by split]|]).
    wp_step; [apply Hone; [done|by right; right]|]. apply Hnext.
  - wp_step; [apply Hone; [done|by right; right]|]. apply Hnext.
Qed.

(** ** The exchange *)

Lemma write_words_ok offset l b tr m (Q : bool -> mb_machine W -> Prop) :
  at_ b tr m ->
  (forall ok evs m', at_ b (evs ++ tr) m' -> writes evs `prefix_of` words_at offset l ->
    (ok = true -> writes evs = words_at offset l) -> number is_read evs = 0%nat -> number is_delay evs = 0%nat ->
    Q ok m') -> wp (write_words offset l) Q m.
Proof.
  revert offset tr m Q. induction l as [|v l IH]; intros offset tr m Q Ha HQ; cbn [write_words].
  { apply wp_ret, (HQ true []); done. }
  wp_step. eapply wp_write; [done| |].
  - intros [] m1 Ha1.
    + eapply IH; [done|]. intros ok' evs m2 Ha2 Hp Hw Hr Hd.
      apply (HQ ok' (evs ++ [EvWrite offset v true])).
      * by rewrite <- app_assoc.
      * rewrite writes_app. by apply prefix_cons.
      * intros Hok. rewrite writes_app. cbn. by rewrite Hw.
      * rewrite number_app. cbn. lia.
      * rewrite number_app. cbn. lia.
    + apply wp_ret, (HQ false [EvWrite offset v false]); try done. cbn. by apply prefix_cons, prefix_nil.
  - intros m1 Ha1. cbn. apply wp_ret, (HQ false []); try done. by apply prefix_nil.
Qed.

Lemma ring_bell_ok b tr m (Q : bool * Z -> mb_machine W -> Prop) :
  at_ b tr m ->
  (forall r evs m', at_ b (evs ++ tr) m' ->
    (writes evs = [] /\ r.1 = false) \/ writes evs = [(mainNotifyRegister, 0)] ->
    (number is_read evs <= 1)%nat -> number is_delay evs = 0%nat -> Q r m') -> wp ring_bell Q m.
Proof.
  intros Ha HQ. unfold ring_bell. wp_step. eapply wp_read; [done| |].
  - intros [okr v] m1 Ha1. cbn [fst snd] in *. wp_step. destruct okr.
    + eapply wp_write; [done| |].
      * intros r m2 Ha2. apply wp_ret.
        apply (HQ _ [EvWrite mainNotifyRegister 0 r; EvRead (mainMailboxRegister + 12) v true]); [done|by right|cbn; lia|done].
      * intros m2 Ha2. apply wp_ret. apply (HQ _ [EvRead (mainMailboxRegister + 12) v true]); [done|by left|cbn; lia|done].
    + do 2 apply wp_ret. apply (HQ _ [EvRead (mainMailboxRegister + 12) v false]); [done|by left|cbn; lia|done].
  - intros v m1 Ha1. wp_step. do 2 apply wp_ret. apply (HQ _ []); [done|by left|cbn; lia|done].
Qed.

(** What an exchange does: nothing, or a started one with the request on the wire. *)
Record exchanged (q : list Z) m (r : Status * Z) m' evs : Prop := {
  ex_reads : (number is_read evs <= 2053)%nat;
  ex_delays : (number is_delay evs <= 2052)%nat;
  ex_idle : poisoned_ (mbox m) = false;
  ex_writes : writes evs `prefix_of` wire q;
  ex_ends : ends (set_active_ true (mbox m)) (mb_trace m) evs r m';
  ex_answer : ~ broke r.1 -> writes evs = wire q;
}.

Definition refused (s : Status) : Prop := s = Invalid \/ s = Busy \/ s = Corrupt \/ s = Unavailable.

Lemma exchange_ok input n m :
  wp (exchange input n) (fun r m' =>
    (at_ (mbox m) (mb_trace m) m' /\ refused r.1) \/
    exists q evs, input = Some q /\ exchanged (take (Z.to_nat n) (request_of q n)) m r m' evs) m.
Proof.
  assert (Hno : forall s m', at_ (mbox m) (mb_trace m) m' -> refused s ->
    wp (ret (s, 0)) (fun r m' => (at_ (mbox m) (mb_trace m) m' /\ refused r.1) \/
      exists q evs, input = Some q /\ exchanged (take (Z.to_nat n) (request_of q n)) m r m' evs) m').
  { intros s m' Ha Hs. apply wp_ret. by left. }
  unfold exchange. destruct input as [q|]; [|by apply Hno; [|left]].
  wp_step; [by apply Hno; [|left]|]. wp_step; [by apply Hno; [|left]|].
  set (q' := take (Z.to_nat n) (request_of q n)). wp_step. wp_step.
  wp_step; [by apply Hno; [|right; left]|]. wp_step; [by apply Hno; [|right; right; left]|].
  wp_step; [by apply Hno; [|right; right; right]|].
  wp_step. eapply (wp_admitted (mbox m) (mb_trace m)); [done|]. intros ok m1 Ha1.
  wp_step; [by apply Hno; [|right; right; right]|].
  wp_step. eapply wp_mb_upd; [done|]. intros m2 Ha2.
  assert (Hbreak : forall evs m', at_ (set_active_ true (mbox m)) (evs ++ mb_trace m) m' ->
    writes evs `prefix_of` wire q' -> (number is_read evs <= 1)%nat -> number is_delay evs = 0%nat ->
    wp (finish IoFailure true 0) (fun r m' => (at_ (mbox m) (mb_trace m) m' /\ refused r.1) \/
      exists q0 evs, Some q = Some q0 /\ exchanged (take (Z.to_nat n) (request_of q0 n)) m r m' evs) m').
  { intros evs m' Ha Hp Hr Hd. eapply wp_finish; [done|]. intros m3 Ha3. right. exists q, evs.
    split; [done|]. split; [lia|lia|done|done| |].
    - right. split; [done|by left].
    - intros []. by left. }
  wp_step. eapply write_words_ok; [done|]. intros okw evs m3 Ha3 Hpre Hall Hr Hd.
  wp_step.
  { eapply Hbreak; [done| |lia|lia]. by apply prefix_app_r. }
  apply negb_false_iff in Hcond5 as ->. specialize (Hall eq_refl).
  wp_step. eapply ring_bell_ok; [done|]. intros r evs5 m5 Ha5 Hw5 Hr5 Hd5.
  rewrite app_assoc in Ha5.
  assert (Hw : writes (evs5 ++ evs) = if r.1 then wire q' else words_at mainMailboxRegister q' ++ writes evs5).
  { rewrite writes_app, Hall. destruct Hw5 as [[-> ->]| ->]; [done|]. by destruct r.1. }
  wp_step.
  { apply negb_true_iff in Hcond5. rewrite Hcond5 in Hw. eapply Hbreak; [done| | |].
    - rewrite Hw. destruct Hw5 as [[-> _]| ->]; [rewrite app_nil_r; by apply prefix_app_r|done].
    - rewrite number_app. lia.
    - rewrite number_app. lia. }
  apply negb_false_iff in Hcond5. rewrite Hcond5 in Hw.
  wp_step. eapply wp_now; [done|]. intros start m6 Ha6.
  eapply wp_mono; [by apply poll_loop_ok|]. intros res m' (evs6 & He & Hw6 & Hr6 & Hd6).
  right. exists q, (evs6 ++ evs5 ++ evs). split; [done|].
  assert (Hw' : writes (evs6 ++ evs5 ++ evs) = wire q') by (by rewrite writes_app, Hw6, app_nil_r).
  split; rewrite ?number_app, ?Hw'; [lia|lia|done|done|by apply ends_app|done].
Qed.

(** [C30] Every exchange ends, with at most 2052 polls: a refused one touches nothing; a
    started one writes the request word by word and then the doorbell, once, and either
    the GuC gave the final answer that is reported or the mailbox is poisoned, so that
    no later exchange writes to it. *)
Theorem exchange_protocol input n m :
  let '(r, m') := exchange input n m in
  (mbox m' = mbox m /\ mb_trace m' = mb_trace m /\ refused r.1) \/
  exists q evs, input = Some q /\ mb_trace m' = evs ++ mb_trace m /\
    (number is_read evs <= 2053)%nat /\ (number is_delay evs <= 2052)%nat /\
    poisoned_ (mbox m) = false /\ active_ (mbox m') = false /\
    writes evs `prefix_of` wire (take (Z.to_nat n) (request_of q n)) /\
    ((poisoned_ (mbox m') = true /\ broke r.1) \/
     (poisoned_ (mbox m') = false /\ writes evs = wire (take (Z.to_nat n) (request_of q n)) /\
      exists v evs', evs = EvRead mainMailboxRegister v true :: evs' /\ answered r.1 r.2 v)).
Proof.
  pose proof (wp_run _ _ _ (exchange_ok input n m)) as H. destruct (exchange input n m) as [r m'].
  cbn [fst snd] in H. destruct H as [[[Hb Ht] Hr]|(q & evs & -> & [Hr Hd Hi Hw He Ha])]; [by left|].
  right. exists q, evs. split; [done|]. destruct He as [[[Eb Et] Hans]|[[Eb Et] Hb]]; rewrite Eb.
  - do 4 (split; [done|]). split; [done|]. split; [done|]. right. split; [done|]. split; [|done].
    apply Ha. destruct Hans as (v & evs' & _ & _ & Hans). intros [E|[E|E]]; by rewrite E in Hans.
  - do 4 (split; [done|]). split; [done|]. split; [done|]. by left.
Qed.

(** ** Bring-up *)

(** What was done after [m]. *)
Definition did m m' (ws : list (Z * Z)) : Prop :=
  exists evs, mb_trace m' = evs ++ mb_trace m /\ writes evs = ws.

Lemma did_app m0 m1 m2 ws1 ws2 : did m0 m1 ws1 -> did m1 m2 ws2 -> did m0 m2 (ws1 ++ ws2).
Proof.
  intros (e1 & E1 & W1) (e2 & E2 & W2). exists (e2 ++ e1). by rewrite E2, E1, app_assoc, writes_app, W1, W2.
Qed.

Lemma cfg_call_ok f ev m (Q : bool -> mb_machine W -> Prop) :
  (forall r m', at_ (mbox m) (ev r ++ mb_trace m) m' -> Q r m') -> wp (cfg_call f ev) Q m.
Proof. intros HQ. by eapply wp_mb_call. Qed.

Lemma exchange_accepted q n m :
  Z.of_nat (length q) = n ->
  wp (exchange (Some q) n) (fun r m' => r.1 = Ok -> did m m' (wire q) /\ poisoned_ (mbox m') = false) m.
Proof.
  intros Hn. eapply wp_mono; [apply exchange_ok|].
  intros r m' [[_ Hr]|(q' & evs & [= <-] & [_ _ Hi _ He Ha])] Hok.
  { exfalso. rewrite Hok in Hr. destruct Hr as [?|[?|[?|?]]]; done. }
  assert (Hq : take (Z.to_nat n) (request_of q n) = q).
  { unfold request_of. subst n. rewrite Nat2Z.id, firstn_all. apply take_app_length. }
  rewrite Hq in Ha. destruct He as [[[Eb Et] _]|[_ Hb]].
  - split; [|by rewrite Eb]. exists evs. split; [done|]. apply Ha. rewrite Hok. by intros [?|[?|?]].
  - exfalso. rewrite Hok in Hb. by destruct Hb as [?|[?|?]].
Qed.

Lemma send_config_ok ops epoch l m :
  Forall (fun q => length q = 4%nat) l ->
  wp (send_config ops epoch l) (fun s m' => s = Ok -> did m m' (flat_map wire l)) m.
Proof.
  intros Hl. revert m. induction Hl as [|q l Hq Hl IH]; intros m; cbn [send_config].
  { apply wp_ret. intros _. by exists []. }
  wp_step. apply cfg_call_ok. intros ok m1 [Eb Et]. wp_step; [by apply wp_ret|]. wp_step.
  eapply wp_mono; [apply exchange_accepted; lia|]. intros r m2 Hr.
  wp_step; [apply wp_ret; intros E; by rewrite E in Hcond0|].
  apply negb_false_iff, isOk_true in Hcond0. destruct (Hr Hcond0) as [Hd _].
  wp_step; [by apply wp_ret|]. eapply wp_mono; [apply IH|]. intros s m3 Hs Hok. cbn [flat_map].
  eapply did_app; [|by apply Hs]. destruct Hd as (evs & E & Hw). exists evs. split; [|done]. by rewrite E, Et.
Qed.

Lemma clear_ok store0 l b tr m (Q : unit -> mb_machine W -> Prop) :
  at_ b tr m -> (forall m', at_ b (rev (EvZero <$> l) ++ tr) m' -> Q tt m') -> wp (for_each l (clear_word store0)) Q m.
Proof.
  revert tr m Q. induction l as [|a l IH]; intros tr m Q Ha HQ; cbn [for_each]; [by apply wp_ret, HQ|].
  wp_step. eapply wp_mb_call; [done|]. intros [] m1 Ha1. eapply IH; [done|]. intros m2 Ha2. apply HQ.
  cbn. by rewrite <- app_assoc.
Qed.

Lemma config_lengths c : Forall (fun q => length q = 4%nat) (config_requests c).
Proof. unfold config_requests. cbn. by repeat constructor. Qed.

(** A bring-up that succeeds has cleared both rings, word by word, and passed the
    barrier before it touched a register; then it sent exactly the six addresses and
    sizes of the configuration and the enabling request, in the order of the code, each
    of them answered, and the mailbox can still be used. *)
Theorem configure_enables store0 c ops m :
  (configureAndEnable store0 c ops m).1 = Ok ->
  exists evs, mb_trace (configureAndEnable store0 c ops m).2 = evs ++ EvBarrier true ::
      rev (EvZero <$> ring_words (cfg_h2g c) ++ ring_words (cfg_g2h c)) ++ mb_trace m /\
    writes evs = flat_map wire (config_requests c ++ [enable_request]) /\
    poisoned_ (mbox (configureAndEnable store0 c ops m).2) = false.
Proof.
  pose (P := fun (s : Status) (m' : mb_machine W) => s = Ok -> exists evs, mb_trace m' = evs ++ EvBarrier true ::
      rev (EvZero <$> ring_words (cfg_h2g c) ++ ring_words (cfg_g2h c)) ++ mb_trace m /\
    writes evs = flat_map wire (config_requests c ++ [enable_request]) /\ poisoned_ (mbox m') = false).
  apply (wp_run _ P m). unfold configureAndEnable, P. clear P.
  wp_step. wp_step. do 3 (wp_step; [by apply wp_ret|]).
  wp_step. apply cfg_call_ok. intros ok m1 Ha1. wp_step; [by apply wp_ret|].
  wp_step. apply cfg_call_ok. intros ok2 m2 [Eb2 Et2]. wp_step; [by apply wp_ret|].
  wp_step. apply (clear_ok _ _ (mbox m2) (mb_trace m2)); [done|]. intros m3 [Eb3 Et3].
  wp_step. apply cfg_call_ok. intros ok3 m4 [Eb4 Et4]. wp_step; [by apply wp_ret|].
  apply negb_false_iff in Hcond4. rewrite Hcond4 in Et4.
  wp_step. eapply wp_mono; [apply send_config_ok, config_lengths|]. intros s m5 Hs.
  wp_step; [apply wp_ret; intros ->; done|]. apply negb_false_iff, isOk_true in Hcond5. specialize (Hs Hcond5).
  wp_step. eapply wp_mono; [by apply exchange_accepted|]. intros r m6 Hr. apply wp_ret. intros Hok.
  assert (r.1 = Ok) as Hr1 by (by destruct r.1; destruct (negb (r.2 =? 0))).
  destruct (Hr Hr1) as [Hd Hp]. destruct (did_app _ _ _ _ _ Hs Hd) as (evs & E & Hw). exists evs.
  split_and!; [|rewrite Hw, flat_map_app; f_equal; symmetry; apply app_nil_r|done].
  rewrite E, Et4, Et3, Et2. destruct Ha1 as [_ ->]. done.
Qed.
End Mailbox.

(** * Example

    A GuC that acknowledges every request at once; the world remembers whether the last
    request was SELF_CFG. *)

Definition obliging : MmioOps bool := {|
  mm_admitted := Some (fun _ w => (true, w));
  read32 := Some (fun (_ _ : Z) (w : bool) => ((true, if w then 0xf0000001 else 0xf0000000), w));
  write32 := Some (fun o v w => (true, if o =? mainMailboxRegister then v =? 0x508 else w));
  nowMicros := Some (fun w => (0, w));
  delayMicros := Some (fun _ w => w) |}.

Definition permissive : Ops bool := {|
  admitted := Some (fun _ w => (true, w)); authorizeAction := Some (fun _ _ w => (true, w));
  acquire := Some (fun w => (true, w)); release := Some (fun w => (true, w));
  notify := Some (fun w => (true, w)); configurationAllowed := Some (fun _ w => (true, w)) |}.

Definition example_ring (d w dg bg : Z) : Ring :=
  {| descriptor := d; words := w; count := 1024; descriptorGgtt := dg; bufferGgtt := bg |}.

Definition example_configuration : Configuration := {|
  cfg_h2g := example_ring 0x1000 0x2000 0x100000 0x101000;
  cfg_g2h := example_ring 0x4000 0x5000 0x102000 0x103000;
  cfg_epoch := 1; minimumGgtt := 0x80000; limitGgtt := 0xfee00000;
  cfg_firmware := {|
    fi_release := version gucRecommendedRelease; fi_submission := version requiredSubmissionAbi;
    ucodeOffset := 0; ucodeBytes := 0; rsaOffset := 0; rsaBytes := 0; minimumBytes := 0;
    privateDataBytes := 0; moduleVendor := 0; headerVersion := 0; declaredDeviceId := 0; buildType := 0; securityVersion := 0;
    deviceInfoValid := false; securityInfoValid := false; belowRecommended := false |} |}.

Lemma configure_enables_witness :
  let m := {| mbox := new_mailbox obliging 1; mb_world := false; mb_trace := [] |} in
  let r := configureAndEnable (fun _ w => w) example_configuration permissive m in
  r.1 = Ok /\ poisoned_ (mbox r.2) = false /\ exists evs, writes evs =
    flat_map wire (config_requests example_configuration ++ [enable_request]).
Proof.
  intros m r. assert (E : r.1 = Ok) by (vm_compute; reflexivity). split; [exact E|].
  destruct (configure_enables (fun _ w => w) example_configuration permissive m E) as (evs & _ & Hw & Hp).
  split; [exact Hp|]. exists evs. exact Hw.
Defined.
