(* ===== verification/MemoryOwner.v ===== *)
(** The owner of DMA memory, [Drivers/NativeGpu/MemoryOwner.{hpp,cpp}]: a fixed table of
    allocations that are pinned, mapped into the GPU, held by jobs, and torn down in the
    inverse order, against a backend that may fail at any call. *)
From stdpp Require Import base numbers list.
From S2P Require Import Prelude.

Module MellowNative.

(** * Data *)

Inductive MemoryStatus :=
  | Ok | Unavailable | Invalid | Ownership | StaleEpoch | Capacity | Busy
  | IoFailure | Quarantined | ClockRegression.

#[export] Instance MemoryStatus_eq_dec : EqDecision MemoryStatus.
Proof. solve_decision. Defined.

Definition isOk (s : MemoryStatus) : bool := match s with Ok => true | _ => false end.

Record DeviceIdentity := { vendor : Z; device : Z; registryId : Z; epoch : Z }.

(** [CacheDirection] can hold any value of its underlying type. *)
Definition CacheDirection := Z.
Definition ForDevice : CacheDirection := 0.
Definition ForCpu : CacheDirection := 1.

Inductive MemoryState := StEmpty | StPinned | StMapped | StRetiring | StQuarantined.

#[export] Instance MemoryState_eq_dec : EqDecision MemoryState.
Proof. solve_decision. Defined.

Record MemoryHandle := { slot : Z; generation : Z; h_registryId : Z; h_epoch : Z }.

#[export] Instance MemoryHandle_eq_dec : EqDecision MemoryHandle.
Proof. solve_decision. Defined.

(** Pointers are addresses; 0 is the null pointer. *)
Record DmaPin := {
  p_cookie : Z;
  cpu : Z;
  pages : Z;
  pageCount : Z;
  p_bytes : Z;
  deviceRegistryId : Z;
}.

Record GpuMapping := { g_cookie : Z; address : Z; g_bytes : Z; writable : bool }.

Record MemoryView := {
  v_device : DeviceIdentity;
  handle : MemoryHandle;
  owner : Z;
  bytes : Z;
  state : MemoryState;
  pin : DmaPin;
  mapping : GpuMapping;
  jobHolds : Z;
}.

Record MemoryLimits := {
  dmaAddressBits : Z;
  gpuAddressBits : Z;
  maxAllocationBytes : Z;
  maxTotalBytes : Z;
}.

Record Slot := {
  view : MemoryView;
  pinOwned : bool;
  mapAttempted : bool;
  mappingUncertain : bool;
  cpuSynchronized : bool;
}.

#[export] Instance DeviceIdentity_eq_dec : EqDecision DeviceIdentity.
Proof. solve_decision. Defined.
#[export] Instance DmaPin_eq_dec : EqDecision DmaPin.
Proof. solve_decision. Defined.
#[export] Instance GpuMapping_eq_dec : EqDecision GpuMapping.
Proof. solve_decision. Defined.
#[export] Instance MemoryView_eq_dec : EqDecision MemoryView.
Proof. solve_decision. Defined.
#[export] Instance Slot_eq_dec : EqDecision Slot.
Proof. solve_decision. Defined.

Definition no_device : DeviceIdentity := {| vendor := 0; device := 0; registryId := 0; epoch := 0 |}.
Definition no_handle : MemoryHandle :=
  {| slot := U32_MAX; generation := 0; h_registryId := 0; h_epoch := 0 |}.
Definition no_pin : DmaPin :=
  {| p_cookie := 0; cpu := 0; pages := 0; pageCount := 0; p_bytes := 0; deviceRegistryId := 0 |}.
Definition no_mapping : GpuMapping := {| g_cookie := 0; address := 0; g_bytes := 0; writable := false |}.
Definition no_view : MemoryView := {|
  v_device := no_device; handle := no_handle; owner := 0; bytes := 0; state := StEmpty;
  pin := no_pin; mapping := no_mapping; jobHolds := 0 |}.
Definition no_limits : MemoryLimits := {|
  dmaAddressBits := 46; gpuAddressBits := 48; maxAllocationBytes := 64 * 1024 * 1024;
  maxTotalBytes := 256 * 1024 * 1024 |}.
Definition no_slot : Slot := {|
  view := no_view; pinOwned := false; mapAttempted := false; mappingUncertain := false;
  cpuSynchronized := false |}.

Definition set_v_device v (s : MemoryView) : MemoryView :=
  {| v_device := v; handle := handle s; owner := owner s; bytes := bytes s; state := state s; pin := pin s; mapping := mapping s; jobHolds := jobHolds s |}.
Definition set_handle v (s : MemoryView) : MemoryView :=
  {| v_device := v_device s; handle := v; owner := owner s; bytes := bytes s; state := state s; pin := pin s; mapping := mapping s; jobHolds := jobHolds s |}.
Definition set_owner v (s : MemoryView) : MemoryView :=
  {| v_device := v_device s; handle := handle s; owner := v; bytes := bytes s; state := state s; pin := pin s; mapping := mapping s; jobHolds := jobHolds s |}.
Definition set_bytes v (s : MemoryView) : MemoryView :=
  {| v_device := v_device s; handle := handle s; owner := owner s; bytes := v; state := state s; pin := pin s; mapping := mapping s; jobHolds := jobHolds s |}.
Definition set_state v (s : MemoryView) : MemoryView :=
  {| v_device := v_device s; handle := handle s; owner := owner s; bytes := bytes s; state := v; pin := pin s; mapping := mapping s; jobHolds := jobHolds s |}.
Definition set_pin v (s : MemoryView) : MemoryView :=
  {| v_device := v_device s; handle := handle s; owner := owner s; bytes := bytes s; state := state s; pin := v; mapping := mapping s; jobHolds := jobHolds s |}.
Definition set_mapping v (s : MemoryView) : MemoryView :=
  {| v_device := v_device s; handle := handle s; owner := owner s; bytes := bytes s; state := state s; pin := pin s; mapping := v; jobHolds := jobHolds s |}.
Definition set_jobHolds v (s : MemoryView) : MemoryView :=
  {| v_device := v_device s; handle := handle s; owner := owner s; bytes := bytes s; state := state s; pin := pin s; mapping := mapping s; jobHolds := v |}.
Definition set_view v (s : Slot) : Slot :=
  {| view := v; pinOwned := pinOwned s; mapAttempted := mapAttempted s; mappingUncertain := mappingUncertain s; cpuSynchronized := cpuSynchronized s |}.
Definition set_pinOwned v (s : Slot) : Slot :=
  {| view := view s; pinOwned := v; mapAttempted := mapAttempted s; mappingUncertain := mappingUncertain s; cpuSynchronized := cpuSynchronized s |}.
Definition set_mapAttempted v (s : Slot) : Slot :=
  {| view := view s; pinOwned := pinOwned s; mapAttempted := v; mappingUncertain := mappingUncertain s; cpuSynchronized := cpuSynchronized s |}.
Definition set_mappingUncertain v (s : Slot) : Slot :=
  {| view := view s; pinOwned := pinOwned s; mapAttempted := mapAttempted s; mappingUncertain := v; cpuSynchronized := cpuSynchronized s |}.
Definition set_cpuSynchronized v (s : Slot) : Slot :=
  {| view := view s; pinOwned := pinOwned s; mapAttempted := mapAttempted s; mappingUncertain := mappingUncertain s; cpuSynchronized := v |}.

Definition upd_view (f : MemoryView -> MemoryView) (s : Slot) : Slot := set_view (f (view s)) s.

Definition MaxAllocations : nat := 32.
Definition PageBytes : Z := 4096.
Definition MaxAllocationBytes : Z := 64 * 1024 * 1024.

(** * Predicates on values *)

Definition empty_pin (p : DmaPin) : bool :=
  (p_cookie p =? 0) && (cpu p =? 0) && (pages p =? 0) && (pageCount p =? 0) &&
  (p_bytes p =? 0) && (deviceRegistryId p =? 0).
Definition empty_mapping (g : GpuMapping) : bool :=
  (g_cookie g =? 0) && (address g =? 0) && (g_bytes g =? 0) && negb (writable g).

Definition cleanPinRejection (s : MemoryStatus) : bool :=
  match s with
  | Unavailable | Invalid | Ownership | StaleEpoch | Capacity | Busy => true
  | _ => false
  end.

Definition overlap (first bytes other otherBytes : Z) : bool :=
  (first <? other +64 otherBytes) && (other <? first +64 bytes).

Definition is_empty (s : Slot) : bool := bool_decide (state (view s) = StEmpty).

(** * The owner

    The backend acts on a world [W], which also holds the page lists that it owns.
    Every call of a callback that acquires or gives up a resource is recorded, newest
    first. *)

Inductive mem_event :=
  | EvPin (h : MemoryHandle) (s : MemoryStatus)
  | EvUnpin (h : MemoryHandle) (s : MemoryStatus)
  | EvSync (h : MemoryHandle) (d : CacheDirection) (s : MemoryStatus)
  | EvMap (h : MemoryHandle) (s : MemoryStatus) (g : GpuMapping)
  | EvUnmap (h : MemoryHandle) (s : MemoryStatus)
  | EvRetired (h : MemoryHandle) (r : bool)
  | EvQuiesce (stopped : bool).

Section Owner.
Context {W : Type}.

(** Callbacks; a null function pointer is [None].  An out parameter is a result. *)
Record MemoryBackend := {
  b_admitted : option (DeviceIdentity -> W -> bool * W);
  b_pin : option (DeviceIdentity -> Z -> MemoryHandle -> Z -> DmaPin -> W -> (MemoryStatus * DmaPin) * W);
  b_unpin : option (DeviceIdentity -> Z -> MemoryHandle -> DmaPin -> W -> (MemoryStatus * DmaPin) * W);
  b_synchronize : option (DeviceIdentity -> Z -> MemoryHandle -> DmaPin -> CacheDirection -> W -> MemoryStatus * W);
  b_map : option (DeviceIdentity -> Z -> MemoryHandle -> DmaPin -> bool -> GpuMapping -> W -> (MemoryStatus * GpuMapping) * W);
  b_unmap : option (DeviceIdentity -> Z -> MemoryHandle -> DmaPin -> GpuMapping -> W -> (MemoryStatus * GpuMapping) * W);
  b_retired : option (MemoryView -> W -> bool * W);
  b_quiesce : option (DeviceIdentity -> W -> bool * W);
}.

Definition no_backend : MemoryBackend := {|
  b_admitted := None; b_pin := None; b_unpin := None; b_synchronize := None; b_map := None;
  b_unmap := None; b_retired := None; b_quiesce := None |}.

Record MemoryOwner := {
  slots_ : list Slot;
  device_ : DeviceIdentity;
  limits_ : MemoryLimits;
  backend_ : MemoryBackend;
  generation_ : Z;
  charged_ : Z;
  initialized_ : bool;
  draining_ : bool;
  quiesced_ : bool;
  closed_ : bool;
}.

(** A default-constructed [MemoryOwner]. *)
Definition new_owner : MemoryOwner := {|
  slots_ := replicate MaxAllocations no_slot; device_ := no_device; limits_ := no_limits;
  backend_ := no_backend; generation_ := 1; charged_ := 0; initialized_ := false;
  draining_ := false; quiesced_ := false; closed_ := false |}.

Definition set_slots_ v (s : MemoryOwner) : MemoryOwner :=
  {| slots_ := v; device_ := device_ s; limits_ := limits_ s; backend_ := backend_ s; generation_ := generation_ s; charged_ := charged_ s; initialized_ := initialized_ s; draining_ := draining_ s; quiesced_ := quiesced_ s; closed_ := closed_ s |}.
Definition set_device_ v (s : MemoryOwner) : MemoryOwner :=
  {| slots_ := slots_ s; device_ := v; limits_ := limits_ s; backend_ := backend_ s; generation_ := generation_ s; charged_ := charged_ s; initialized_ := initialized_ s; draining_ := draining_ s; quiesced_ := quiesced_ s; closed_ := closed_ s |}.
Definition set_limits_ v (s : MemoryOwner) : MemoryOwner :=
  {| slots_ := slots_ s; device_ := device_ s; limits_ := v; backend_ := backend_ s; generation_ := generation_ s; charged_ := charged_ s; initialized_ := initialized_ s; draining_ := draining_ s; quiesced_ := quiesced_ s; closed_ := closed_ s |}.
Definition set_backend_ v (s : MemoryOwner) : MemoryOwner :=
  {| slots_ := slots_ s; device_ := device_ s; limits_ := limits_ s; backend_ := v; generation_ := generation_ s; charged_ := charged_ s; initialized_ := initialized_ s; draining_ := draining_ s; quiesced_ := quiesced_ s; closed_ := closed_ s |}.
Definition set_generation_ v (s : MemoryOwner) : MemoryOwner :=
  {| slots_ := slots_ s; device_ := device_ s; limits_ := limits_ s; backend_ := backend_ s; generation_ := v; charged_ := charged_ s; initialized_ := initialized_ s; draining_ := draining_ s; quiesced_ := quiesced_ s; closed_ := closed_ s |}.
Definition set_charged_ v (s : MemoryOwner) : MemoryOwner :=
  {| slots_ := slots_ s; device_ := device_ s; limits_ := limits_ s; backend_ := backend_ s; generation_ := generation_ s; charged_ := v; initialized_ := initialized_ s; draining_ := draining_ s; quiesced_ := quiesced_ s; closed_ := closed_ s |}.
Definition set_initialized_ v (s : MemoryOwner) : MemoryOwner :=
  {| slots_ := slots_ s; device_ := device_ s; limits_ := limits_ s; backend_ := backend_ s; generation_ := generation_ s; charged_ := charged_ s; initialized_ := v; draining_ := draining_ s; quiesced_ := quiesced_ s; closed_ := closed_ s |}.
Definition set_draining_ v (s : MemoryOwner) : MemoryOwner :=
  {| slots_ := slots_ s; device_ := device_ s; limits_ := limits_ s; backend_ := backend_ s; generation_ := generation_ s; charged_ := charged_ s; initialized_ := initialized_ s; draining_ := v; quiesced_ := quiesced_ s; closed_ := closed_ s |}.
Definition set_quiesced_ v (s : MemoryOwner) : MemoryOwner :=
  {| slots_ := slots_ s; device_ := device_ s; limits_ := limits_ s; backend_ := backend_ s; generation_ := generation_ s; charged_ := charged_ s; initialized_ := initialized_ s; draining_ := draining_ s; quiesced_ := v; closed_ := closed_ s |}.
Definition set_closed_ v (s : MemoryOwner) : MemoryOwner :=
  {| slots_ := slots_ s; device_ := device_ s; limits_ := limits_ s; backend_ := backend_ s; generation_ := generation_ s; charged_ := charged_ s; initialized_ := initialized_ s; draining_ := draining_ s; quiesced_ := quiesced_ s; closed_ := v |}.

Record mem_machine := { mo : MemoryOwner; world : W; trace : list mem_event }.

(** The 64-bit word at an address of kernel memory. *)
Context (read64 : Z -> W -> Z).

Definition upd (f : MemoryOwner -> MemoryOwner) : ST mem_machine unit :=
  modify (fun m => {| mo := f (mo m); world := world m; trace := trace m |}).
Definition upd_slot (i : nat) (f : Slot -> Slot) : ST mem_machine unit :=
  upd (fun t => set_slots_ (alter f i (slots_ t)) t).
Definition slot_at (t : MemoryOwner) (i : nat) : Slot := default no_slot (slots_ t !! i).

(** * Calls of the backend *)

(** A call with its result and the event it leaves. *)
Definition call {A} (f : W -> A * W) (ev : A -> list mem_event) : ST mem_machine A := fun m =>
  let '(r, w) := f (world m) in
  (r, {| mo := mo m; world := w; trace := ev r ++ trace m |}).

(** What an out parameter can hold. *)
Definition as_pin (p : DmaPin) : DmaPin := {|
  p_cookie := wrap 64 (p_cookie p); cpu := wrap 64 (cpu p); pages := wrap 64 (pages p);
  pageCount := wrap 64 (pageCount p); p_bytes := wrap 64 (p_bytes p);
  deviceRegistryId := wrap 64 (deviceRegistryId p) |}.
Definition as_mapping (g : GpuMapping) : GpuMapping := {|
  g_cookie := wrap 64 (g_cookie g); address := wrap 64 (address g);
  g_bytes := wrap 64 (g_bytes g); writable := writable g |}.

Definition call_admitted : ST mem_machine bool :=
  t <-- gets mo ;;
  call (fun w => match b_admitted (backend_ t) with Some f => f (device_ t) w | None => (false, w) end)
       (fun _ => []).

Definition call_pin (own : Z) (h : MemoryHandle) (n : Z) (p : DmaPin) : ST mem_machine (MemoryStatus * DmaPin) :=
  t <-- gets mo ;;
  r <-- call (fun w => match b_pin (backend_ t) with
                       | Some f => f (device_ t) own h n p w | None => ((Unavailable, p), w) end)
             (fun r => [EvPin h r.1]) ;;
  ret (r.1, as_pin r.2).

Definition call_unpin (own : Z) (h : MemoryHandle) (p : DmaPin) : ST mem_machine (MemoryStatus * DmaPin) :=
  t <-- gets mo ;;
  r <-- call (fun w => match b_unpin (backend_ t) with
                       | Some f => f (device_ t) own h p w | None => ((Unavailable, p), w) end)
             (fun r => [EvUnpin h r.1]) ;;
  ret (r.1, as_pin r.2).

Definition call_sync (own : Z) (h : MemoryHandle) (p : DmaPin) (d : CacheDirection) : ST mem_machine MemoryStatus :=
  t <-- gets mo ;;
  call (fun w => match b_synchronize (backend_ t) with
                 | Some f => f (device_ t) own h p d w | None => (Unavailable, w) end)
       (fun r => [EvSync h d r]).

Definition call_map (own : Z) (h : MemoryHandle) (p : DmaPin) (wr : bool) (g : GpuMapping)
    : ST mem_machine (MemoryStatus * GpuMapping) :=
  t <-- gets mo ;;
  r <-- call (fun w => match b_map (backend_ t) with
                       | Some f => f (device_ t) own h p wr g w | None => ((Unavailable, g), w) end)
             (fun r => [EvMap h r.1 (as_mapping r.2)]) ;;
  ret (r.1, as_mapping r.2).

Definition call_unmap (own : Z) (h : MemoryHandle) (p : DmaPin) (g : GpuMapping)
    : ST mem_machine (MemoryStatus * GpuMapping) :=
  t <-- gets mo ;;
  r <-- call (fun w => match b_unmap (backend_ t) with
                       | Some f => f (device_ t) own h p g w | None => ((Unavailable, g), w) end)
             (fun r => [EvUnmap h r.1]) ;;
  ret (r.1, as_mapping r.2).

Definition call_retired (v : MemoryView) : ST mem_machine bool :=
  t <-- gets mo ;;
  call (fun w => match b_retired (backend_ t) with Some f => f v w | None => (false, w) end)
       (fun r => [EvRetired (handle v) r]).

Definition call_quiesce : ST mem_machine bool :=
  t <-- gets mo ;;
  call (fun w => match b_quiesce (backend_ t) with Some f => f (device_ t) w | None => (false, w) end)
       (fun r => [EvQuiesce r]).

(** * Operations *)

Definition is_some {A} (x : option A) : bool := match x with Some _ => true | None => false end.

Definition device_invalid (d : DeviceIdentity) (l : MemoryLimits) : bool :=
  (vendor d =? 0) || (vendor d =? 0xffff) || (device d =? 0) || (device d =? 0xffff) ||
  (registryId d =? 0) || (epoch d =? 0) ||
  (dmaAddressBits l <? 39) || (48 <? dmaAddressBits l) ||
  (gpuAddressBits l <? 39) || (48 <? gpuAddressBits l) ||
  (maxAllocationBytes l =? 0) || (MaxAllocationBytes <? maxAllocationBytes l) ||
  test (maxAllocationBytes l) (PageBytes - 1) ||
  (maxTotalBytes l <? maxAllocationBytes l) ||
  (MaxAllocationBytes * Z.of_nat MaxAllocations <? maxTotalBytes l).

Definition backend_complete (b : MemoryBackend) : bool :=
  is_some (b_admitted b) && is_some (b_pin b) && is_some (b_unpin b) && is_some (b_synchronize b) &&
  is_some (b_map b) && is_some (b_unmap b) && is_some (b_retired b) && is_some (b_quiesce b).

Definition initialize (d : DeviceIdentity) (l : MemoryLimits) (b : MemoryBackend) : ST mem_machine MemoryStatus :=
  t <-- gets mo ;;
  if initialized_ t then ret Busy else
  if device_invalid d l then ret Invalid else
  if negb (backend_complete b) then ret Unavailable else
  ok <-- call (fun w => match b_admitted b with Some f => f d w | None => (false, w) end) (fun _ => []) ;;
  if negb ok then ret Ownership else
  upd (fun t => set_initialized_ true (set_backend_ b (set_limits_ l (set_device_ d t)))) ;;;
  ret Ok.

Definition live : ST mem_machine bool :=
  t <-- gets mo ;;
  if initialized_ t && negb (closed_ t) && negb (draining_ t) then call_admitted else ret false.

(** What an operation returns when the owner is not live. *)
Definition not_live : ST mem_machine MemoryStatus :=
  t <-- gets mo ;;
  ret (if draining_ t then Quarantined else Ownership).

Definition lookup (own : Z) (h : MemoryHandle) (t : MemoryOwner) : MemoryStatus + nat :=
  if negb (initialized_ t) || (own =? 0) || (Z.of_nat MaxAllocations <=? slot h) || (generation h =? 0)
  then inl Invalid else
  if negb (h_registryId h =? registryId (device_ t)) then inl Ownership else
  if negb (h_epoch h =? epoch (device_ t)) then inl StaleEpoch else
  let s := slot_at t (Z.to_nat (slot h)) in
  if is_empty s || negb (owner (view s) =? own) || negb (generation (handle (view s)) =? generation h)
  then inl Ownership else inr (Z.to_nat (slot h)).

(** The other slots, in the order of the table. *)
Definition others (t : MemoryOwner) (i : nat) : list Slot := delete i (slots_ t).

Definition pages_valid (w : W) (limits : MemoryLimits) (p : DmaPin) : bool :=
  let dmaLimit := Z.shiftl 1 (dmaAddressBits limits) in
  forallb (fun k => let a := wrap 64 (read64 (pages p + 8 * Z.of_nat k) w) in
             negb (test a (PageBytes - 1)) && (a <=? dmaLimit - PageBytes))
          (seq 0 (Z.to_nat (pageCount p))).

(** The pin of another slot that rules this one out. *)
Definition pin_conflict (p : DmaPin) (n : Z) (o : Slot) : bool :=
  let q := pin (view o) in
  if is_empty o || negb (pinOwned o) || (cpu q =? 0) then false else
  (p_cookie p =? p_cookie q) ||
  ((cpu q <=? U64_MAX - bytes (view o)) && overlap (cpu p) n (cpu q) (bytes (view o))).

Definition validPin (t : MemoryOwner) (w : W) (i : nat) : bool :=
  let s := slot_at t i in
  let p := pin (view s) in
  let n := bytes (view s) in
  if negb (pinOwned s) || (p_cookie p =? 0) || (cpu p =? 0) || (pages p =? 0) ||
     negb (p_bytes p =? n) || negb (deviceRegistryId p =? registryId (device_ t)) ||
     negb (pageCount p =? n / PageBytes) || (pageCount p =? 0) ||
     (MaxAllocationBytes / PageBytes <? pageCount p) || (U64_MAX <? n) then false else
  if test (cpu p) (PageBytes - 1) || (U64_MAX - n <? cpu p) || test (pages p) 7 then false else
  if negb (pages_valid w (limits_ t) p) then false else
  negb (existsb (pin_conflict p n) (others t i)).

(** A mapping that lies below the limit. *)
Definition mapping_conflict (limit : Z) (g : GpuMapping) (o : Slot) : bool :=
  let q := mapping (view o) in
  if negb (mapAttempted o) || (address q =? 0) || (g_bytes q =? 0) || (limit <=? address q) ||
     (limit - address q <? g_bytes q) then false else
  (g_cookie g =? g_cookie q) || overlap (address g) (g_bytes g) (address q) (g_bytes q).

Definition validMapping (t : MemoryOwner) (i : nat) : bool :=
  let s := slot_at t i in
  let g := mapping (view s) in
  let limit := Z.shiftl 1 (gpuAddressBits (limits_ t)) in
  if negb (mapAttempted s) || (g_cookie g =? 0) || (address g <? PageBytes) ||
     test (address g) (PageBytes - 1) || negb (g_bytes g =? bytes (view s)) ||
     (limit <=? address g) || (limit - address g <? g_bytes g) then false else
  negb (existsb (mapping_conflict limit g) (others t i)).

Definition check_pin (i : nat) : ST mem_machine bool := gets (fun m => validPin (mo m) (world m) i).
Definition check_mapping (i : nat) : ST mem_machine bool := gets (fun m => validMapping (mo m) i).
(** [validPin(slot) && validMapping(slot)]. *)
Definition check_both (i : nat) : ST mem_machine bool :=
  gets (fun m => validPin (mo m) (world m) i && validMapping (mo m) i).

Definition quarantine (i : nat) : ST mem_machine MemoryStatus :=
  upd_slot i (upd_view (set_state StQuarantined)) ;;;
  upd (set_draining_ true) ;;;
  ret Quarantined.

(** [slot.mappingUncertain = true; return quarantine(slot);] *)
Definition quarantine_uncertain (i : nat) : ST mem_machine MemoryStatus :=
  upd_slot i (set_mappingUncertain true) ;;; quarantine i.

Fixpoint first_empty (l : list Slot) : option nat :=
  match l with
  | [] => None
  | s :: l => if is_empty s then Some O else S <$> first_empty l
  end.

(** The slot of an allocation before it is pinned. *)
Definition fresh_slot (t : MemoryOwner) (own n : Z) (i : nat) : Slot := {|
  view := {| v_device := device_ t;
             handle := {| slot := Z.of_nat i; generation := generation_ t;
                          h_registryId := registryId (device_ t); h_epoch := epoch (device_ t) |};
             owner := own; bytes := n; state := StPinned; pin := no_pin; mapping := no_mapping;
             jobHolds := 0 |};
  pinOwned := true; mapAttempted := false; mappingUncertain := false; cpuSynchronized := false |}.

Definition allocate (own n : Z) : ST mem_machine (MemoryStatus * MemoryHandle) :=
  t <-- gets mo ;;
  if negb (initialized_ t) then ret (Unavailable, no_handle) else
  if (own =? 0) || (n =? 0) || test n (PageBytes - 1) || (maxAllocationBytes (limits_ t) <? n)
  then ret (Invalid, no_handle) else
  alive <-- live ;;
  if negb alive then s <-- not_live ;; ret (s, no_handle) else
  if (generation_ t =? U64_MAX) || (maxTotalBytes (limits_ t) <? charged_ t) ||
     (maxTotalBytes (limits_ t) - charged_ t <? n) then ret (Capacity, no_handle) else
  match first_empty (slots_ t) with
  | None => ret (Capacity, no_handle)
  | Some i =>
      let h := handle (view (fresh_slot t own n i)) in
      upd_slot i (fun _ => fresh_slot t own n i) ;;;
      upd (fun t => set_charged_ (charged_ t +64 n) (set_generation_ (generation_ t +64 1) t)) ;;;
      r <-- call_pin own h n no_pin ;;
      upd_slot i (upd_view (set_pin r.2)) ;;;
      ok <-- check_pin i ;;
      if isOk r.1 && ok then ret (Ok, h) else
      if cleanPinRejection r.1 && empty_pin r.2 then
        upd (fun t => set_charged_ (charged_ t -64 n) t) ;;;
        upd_slot i (fun _ => no_slot) ;;;
        ret (r.1, no_handle)
      else s <-- quarantine i ;; ret (s, h)
  end.

Definition map (own : Z) (h : MemoryHandle) (wr : bool) : ST mem_machine MemoryStatus :=
  t <-- gets mo ;;
  match lookup own h t with
  | inl s => ret s
  | inr i =>
      alive <-- live ;;
      if negb alive then not_live else
      let s := slot_at t i in
      if negb (bool_decide (state (view s) = StPinned)) || mapAttempted s || negb (jobHolds (view s) =? 0)
      then ret Busy else
      ok <-- check_pin i ;;
      if negb ok then quarantine i else
      r <-- call_sync own h (pin (view s)) ForDevice ;;
      if negb (isOk r) then quarantine i else
      upd_slot i (fun s => set_mapAttempted true (set_cpuSynchronized false s)) ;;;
      r <-- call_map own h (pin (view s)) wr (mapping (view s)) ;;
      upd_slot i (upd_view (set_mapping r.2)) ;;;
      if bool_decide (r.1 = Unavailable) && empty_mapping r.2 then
        upd_slot i (set_mapAttempted false) ;;; ret r.1
      else
        ok <-- check_both i ;;
        if negb (isOk r.1) || negb (Bool.eqb (writable r.2) wr) || negb ok
        then quarantine_uncertain i
        else upd_slot i (upd_view (set_state StMapped)) ;;; ret Ok
  end.

Definition inspect (own : Z) (h : MemoryHandle) : ST mem_machine (MemoryStatus * MemoryView) :=
  t <-- gets mo ;;
  ret match lookup own h t with
      | inl s => (s, no_view)
      | inr i => (Ok, view (slot_at t i))
      end.

Definition retain (own : Z) (h : MemoryHandle) : ST mem_machine MemoryStatus :=
  t <-- gets mo ;;
  match lookup own h t with
  | inl s => ret s
  | inr i =>
      alive <-- live ;;
      if negb alive then not_live else
      let s := slot_at t i in
      if negb (bool_decide (state (view s) = StMapped)) then ret Busy else
      ok <-- check_both i ;;
      if negb ok then quarantine_uncertain i else
      if jobHolds (view s) =? U32_MAX then ret Capacity else
      upd_slot i (fun s => set_cpuSynchronized false (upd_view (set_jobHolds (wrap 32 (jobHolds (view s) + 1))) s)) ;;;
      ret Ok
  end.

Definition release (own : Z) (h : MemoryHandle) : ST mem_machine MemoryStatus :=
  t <-- gets mo ;;
  match lookup own h t with
  | inl s => ret s
  | inr i =>
      if jobHolds (view (slot_at t i)) =? 0 then ret Ownership else
      upd_slot i (fun s => upd_view (set_jobHolds (wrap 32 (jobHolds (view s) - 1))) s) ;;;
      ret Ok
  end.

Definition bad_direction (d : CacheDirection) : bool := negb (d =? ForDevice) && negb (d =? ForCpu).

Definition sync (own : Z) (h : MemoryHandle) (d : CacheDirection) : ST mem_machine MemoryStatus :=
  if bad_direction d then ret Invalid else
  t <-- gets mo ;;
  match lookup own h t with
  | inl s => ret s
  | inr i =>
      alive <-- live ;;
      if negb alive then not_live else
      let s := slot_at t i in
      if negb (jobHolds (view s) =? 0) ||
         (negb (bool_decide (state (view s) = StPinned)) && negb (bool_decide (state (view s) = StMapped)))
      then ret Busy else
      ok <-- check_pin i ;;
      if negb ok then quarantine i else
      busy <-- (if mapAttempted s then r <-- call_retired (view s) ;; ret (negb r) else ret false) ;;
      if busy then ret Busy else
      r <-- call_sync own h (pin (view s)) d ;;
      if negb (isOk r) then quarantine i else
      upd_slot i (set_cpuSynchronized (d =? ForCpu)) ;;;
      ret Ok
  end.

Definition synchronizeRetained (own : Z) (h : MemoryHandle) (d : CacheDirection) : ST mem_machine MemoryStatus :=
  if bad_direction d then ret Invalid else
  t <-- gets mo ;;
  match lookup own h t with
  | inl s => ret s
  | inr i =>
      alive <-- live ;;
      if negb alive then not_live else
      let s := slot_at t i in
      if (jobHolds (view s) =? 0) || negb (bool_decide (state (view s) = StMapped)) then ret Busy else
      ok <-- check_both i ;;
      if negb ok then quarantine_uncertain i else
      upd_slot i (set_cpuSynchronized false) ;;;
      r <-- call_sync own h (pin (view s)) d ;;
      if negb (isOk r) then quarantine i else ret Ok
  end.

(** The first half of [cleanup]; [Some s] is a status to return. *)
Definition cleanup_mapping (i : nat) : ST mem_machine (option MemoryStatus) :=
  t <-- gets mo ;;
  let s := slot_at t i in
  if negb (mapAttempted s) then ret None else
  if mappingUncertain s && negb (quiesced_ t) then r <-- quarantine i ;; ret (Some r) else
  busy <-- (if quiesced_ t then ret false else r <-- call_retired (view s) ;; ret (negb r)) ;;
  if busy then ret (Some Busy) else
  ok <-- check_pin i ;;
  if negb ok then r <-- quarantine i ;; ret (Some r) else
  synced <-- (if cpuSynchronized s then ret true else
              r <-- call_sync (owner (view s)) (handle (view s)) (pin (view s)) ForCpu ;;
              ret (isOk r)) ;;
  if negb synced then r <-- quarantine i ;; ret (Some r) else
  upd_slot i (set_cpuSynchronized true) ;;;
  r <-- call_unmap (owner (view s)) (handle (view s)) (pin (view s)) (mapping (view s)) ;;
  upd_slot i (upd_view (set_mapping r.2)) ;;;
  if negb (isOk r.1) then r <-- quarantine_uncertain i ;; ret (Some r) else
  upd_slot i (fun s => set_mappingUncertain false (set_mapAttempted false
    (upd_view (set_mapping no_mapping) s))) ;;;
  ret None.

Definition cleanup (i : nat) : ST mem_machine MemoryStatus :=
  t <-- gets mo ;;
  if negb (jobHolds (view (slot_at t i)) =? 0) then ret Busy else
  r <-- cleanup_mapping i ;;
  match r with
  | Some s => ret s
  | None =>
      t <-- gets mo ;;
      let s := slot_at t i in
      ok <-- (if pinOwned s then
                r <-- call_unpin (owner (view s)) (handle (view s)) (pin (view s)) ;;
                upd_slot i (upd_view (set_pin r.2)) ;;;
                ret (isOk r.1)
              else ret true) ;;
      if negb ok then quarantine i else
      upd (fun t => set_charged_ (charged_ t -64 bytes (view s)) t) ;;;
      upd_slot i (fun _ => no_slot) ;;;
      ret Ok
  end.

Definition retire (own : Z) (h : MemoryHandle) : ST mem_machine MemoryStatus :=
  t <-- gets mo ;;
  match lookup own h t with
  | inl s => ret s
  | inr i =>
      if negb (jobHolds (view (slot_at t i)) =? 0) then ret Busy else
      upd_slot i (fun s => if bool_decide (state (view s) = StQuarantined) then s
                           else upd_view (set_state StRetiring) s) ;;;
      cleanup i
  end.

Definition quiesce_slot (stopped : bool) (s : Slot) : Slot :=
  if is_empty s then s else
  let s := set_cpuSynchronized false s in
  if stopped then s else
  let s := upd_view (set_state StQuarantined) s in
  if mapAttempted s then set_mappingUncertain true s else s.

Definition quiesce : ST mem_machine MemoryStatus :=
  t <-- gets mo ;;
  if negb (initialized_ t) then ret Unavailable else
  if closed_ t || quiesced_ t then ret Ok else
  upd (set_draining_ true) ;;;
  stopped <-- call_quiesce ;;
  upd (fun t => set_slots_ (quiesce_slot stopped <$> slots_ t) t) ;;;
  if negb stopped then ret Quarantined else
  upd (set_quiesced_ true) ;;;
  ret Ok.

(** The live slot with the highest generation, the first of equals. *)
Fixpoint latest_from (l : list Slot) (i : nat) (best : option (nat * Z)) : option nat :=
  match l with
  | [] => fst <$> best
  | s :: l =>
      let g := generation (handle (view s)) in
      let newer := match best with None => true | Some (_, b) => b <? g end in
      latest_from l (S i) (if negb (is_empty s) && newer then Some (i, g) else best)
  end.
Definition latest (l : list Slot) : option nat := latest_from l O None.

Fixpoint close_loop (n : nat) : ST mem_machine MemoryStatus :=
  match n with
  | O => upd (set_closed_ true) ;;; ret Ok
  | S n =>
      t <-- gets mo ;;
      match latest (slots_ t) with
      | None => upd (set_closed_ true) ;;; ret Ok
      | Some i =>
          r <-- cleanup i ;;
          if negb (isOk r) then ret r else close_loop n
      end
  end.

Definition close : ST mem_machine MemoryStatus :=
  r <-- quiesce ;;
  if negb (isOk r) then ret r else
  t <-- gets mo ;;
  if closed_ t then ret Ok else close_loop MaxAllocations.

Definition allocations (t : MemoryOwner) : Z :=
  Z.of_nat (length (List.filter (fun s => negb (is_empty s)) (slots_ t))).
End Owner.
Arguments MemoryBackend : clear implicits.
Arguments MemoryOwner : clear implicits.
Arguments mem_machine : clear implicits.
End MellowNative.
