(* ===== verification/MemoryOwnerInv.v ===== *)
(** The invariant of the memory owner: accounting, unique handles, disjoint CPU and GPU
    ranges, and the protocol that its calls of the backend follow. *)
From stdpp Require Import base numbers list.
From S2P Require Import Prelude.
From S2P Require Import StateWp.
From S2P Require Import MemoryOwner.
Import MellowNative.

(** * The protocol of the backend

    What the backend was asked to do with an allocation, from the calls made so far
    (newest first). *)

Inductive phase := PNone | PPinned | PMapped | PUncertain | PReleased.

Definition phase_step (h : MemoryHandle) (p : phase) (ev : mem_event) : phase :=
  match ev with
  | EvPin h' _ => if decide (h' = h) then PPinned else p
  | EvMap h' s g =>
      if decide (h' = h) then
        if isOk s then PMapped
        else if bool_decide (s = Unavailable) && empty_mapping g then PPinned else PUncertain
      else p
  | EvUnmap h' s => if decide (h' = h) then if isOk s then PPinned else PUncertain else p
  | EvUnpin h' s => if decide (h' = h) then if isOk s then PReleased else p else p
  | _ => p
  end.

Fixpoint phase_of (h : MemoryHandle) (tr : list mem_event) : phase :=
  match tr with
  | [] => PNone
  | ev :: tr => phase_step h (phase_of h tr) ev
  end.

(** The backend has just confirmed that no consumer of the allocation is left; only the
    last cache synchronization may come between. *)
Definition just_retired (h : MemoryHandle) (tr : list mem_event) : Prop :=
  match tr with
  | EvRetired h' true :: _ => h' = h
  | EvSync h' _ Ok :: EvRetired h'' true :: _ => h' = h /\ h'' = h
  | _ => False
  end.

(** When each call is legal. *)
Definition legal_event (tr : list mem_event) (ev : mem_event) : Prop :=
  match ev with
  | EvPin h _ => phase_of h tr = PNone
  | EvMap h _ _ => phase_of h tr = PPinned
  | EvSync h _ _ => phase_of h tr <> PNone /\ phase_of h tr <> PReleased
  | EvUnmap h _ =>
      (phase_of h tr = PMapped /\ just_retired h tr) \/
      ((phase_of h tr = PMapped \/ phase_of h tr = PUncertain) /\ EvQuiesce true ∈ tr)
  | EvUnpin h _ => phase_of h tr = PPinned
  | EvRetired _ _ | EvQuiesce _ => True
  end.

Fixpoint legal_trace (tr : list mem_event) : Prop :=
  match tr with
  | [] => True
  | ev :: tr => legal_event tr ev /\ legal_trace tr
  end.

Definition ev_about (h : MemoryHandle) (ev : mem_event) : Prop :=
  match ev with
  | EvPin h' _ | EvUnpin h' _ | EvSync h' _ _ | EvMap h' _ _ | EvUnmap h' _ | EvRetired h' _ => h' = h
  | EvQuiesce _ => False
  end.

Lemma phase_other h h' evs tr :
  Forall (ev_about h) evs -> h' <> h -> phase_of h' (evs ++ tr) = phase_of h' tr.
Proof.
  intros Hf Hn. induction Hf as [|ev evs He _ IH]; [done|]. cbn [app phase_of]. rewrite IH.
  destruct ev; cbn in *; try done; subst; by rewrite decide_False by congruence.
Qed.

(** * The table of allocations *)

Definition span_disjoint (a n b k : Z) : Prop := a + n <= b \/ b + k <= a.

(** A slot whose pin and mapping are as the backend reported and the owner checked. *)
Definition settled (s : Slot) : Prop := state (view s) <> StQuarantined.
Definition gpu_live (s : Slot) : Prop := settled s /\ mapAttempted s = true.

Record pin_good (t : Z) (s : Slot) : Prop := {
  pg_cookie : p_cookie (pin (view s)) <> 0;
  pg_cpu : 0 < cpu (pin (view s)) /\ (4096 | cpu (pin (view s)));
  pg_end : cpu (pin (view s)) + bytes (view s) < 2 ^ 64;
  pg_bytes : p_bytes (pin (view s)) = bytes (view s);
  pg_count : pageCount (pin (view s)) = bytes (view s) / 4096;
  pg_device : deviceRegistryId (pin (view s)) = t;
}.

Record map_good (limit : Z) (s : Slot) : Prop := {
  mg_cookie : g_cookie (mapping (view s)) <> 0;
  mg_address : 4096 <= address (mapping (view s)) /\ (4096 | address (mapping (view s)));
  mg_bytes : g_bytes (mapping (view s)) = bytes (view s);
  mg_end : address (mapping (view s)) + bytes (view s) <= limit;
}.

Definition gpu_limit {W} (t : MemoryOwner W) : Z := 2 ^ gpuAddressBits (limits_ t).

(** Two slots that are both in use. *)
Record compatible (s o : Slot) : Prop := {
  co_generation : generation (handle (view s)) <> generation (handle (view o));
  co_pins : settled s -> settled o ->
    p_cookie (pin (view s)) <> p_cookie (pin (view o)) /\
    span_disjoint (cpu (pin (view s))) (bytes (view s)) (cpu (pin (view o))) (bytes (view o));
  co_maps : gpu_live s -> gpu_live o ->
    g_cookie (mapping (view s)) <> g_cookie (mapping (view o)) /\
    span_disjoint (address (mapping (view s))) (bytes (view s))
                  (address (mapping (view o))) (bytes (view o));
}.

Lemma compatible_sym s o : compatible s o -> compatible o s.
Proof.
  intros [H1 H2 H3]. split; [done| |].
  - intros Ho Hs. destruct (H2 Hs Ho) as [? []]; split; try done; [by right|by left].
  - intros Ho Hs. destruct (H3 Hs Ho) as [? []]; split; try done; [by right|by left].
Qed.

(** [s'] claims no more than [s]. *)
Record weaker (s s' : Slot) : Prop := {
  we_handle : handle (view s') = handle (view s);
  we_bytes : bytes (view s') = bytes (view s);
  we_pin : settled s' -> settled s /\ pin (view s') = pin (view s);
  we_map : gpu_live s' -> gpu_live s /\ mapping (view s') = mapping (view s);
}.

Lemma compatible_weaker s s' o : weaker s s' -> compatible s o -> compatible s' o.
Proof.
  intros [Hh Hb Hp Hm] [H1 H2 H3]. split.
  - by rewrite Hh.
  - intros [Hs ->]%Hp Ho. rewrite Hb. auto.
  - intros [Hs ->]%Hm Ho. rewrite Hb. auto.
Qed.

Section Inv.
Context {W : Type}.
Implicit Types (t : MemoryOwner W) (m : mem_machine W).

Record slot_inv t (i : nat) (s : Slot) : Prop := {
  si_state : state (view s) <> StEmpty;
  si_handle : exists g, handle (view s) = {| slot := Z.of_nat i; generation := g;
      h_registryId := registryId (device_ t); h_epoch := epoch (device_ t) |} /\
    1 <= g < generation_ t;
  si_owner : owner (view s) <> 0;
  si_bytes : 0 < bytes (view s) <= MaxAllocationBytes /\ (4096 | bytes (view s));
  si_pinned : pinOwned s = true;
  si_holds : word 32 (jobHolds (view s)) /\
    (0 < jobHolds (view s) -> mapAttempted s = true /\
      (state (view s) = StMapped \/ state (view s) = StQuarantined));
  si_pin : settled s -> pin_good (registryId (device_ t)) s;
  si_map : gpu_live s -> map_good (gpu_limit t) s;
  si_certain : settled s -> mappingUncertain s = false;
  si_states : (state (view s) = StPinned -> mapAttempted s = false) /\
    (state (view s) = StMapped -> mapAttempted s = true) /\
    (state (view s) = StQuarantined -> draining_ t = true);
}.

Fixpoint total (l : list Slot) : Z :=
  match l with [] => 0 | s :: l => bytes (view s) + total l end.

Record oinv t : Prop := {
  oi_length : length (slots_ t) = MaxAllocations;
  oi_slots : forall i s, slots_ t !! i = Some s -> s <> no_slot -> slot_inv t i s;
  oi_pairs : forall i j s o, i <> j -> slots_ t !! i = Some s -> slots_ t !! j = Some o ->
    s <> no_slot -> o <> no_slot -> compatible s o;
  oi_charged : charged_ t = total (slots_ t);
  oi_total : total (slots_ t) <= maxTotalBytes (limits_ t);
  oi_generation : 1 <= generation_ t <= U64_MAX;
  oi_limits : initialized_ t = true -> device_invalid (device_ t) (limits_ t) = false;
  oi_fresh : initialized_ t = false ->
    slots_ t = replicate MaxAllocations no_slot /\ limits_ t = no_limits;
}.

(** The phase of an allocation agrees with its slot. *)
Record slot_phase (p : phase) (s : Slot) : Prop := {
  sp_pinned : mapAttempted s = false -> p = PPinned;
  sp_mapped : mapAttempted s = true -> p = PMapped \/ (p = PUncertain /\ mappingUncertain s = true);
  sp_held : 0 < jobHolds (view s) -> p = PMapped;
}.

Record minv m : Prop := {
  mi_owner : oinv (mo m);
  mi_phase : forall i s, slots_ (mo m) !! i = Some s -> s <> no_slot ->
    slot_phase (phase_of (handle (view s)) (trace m)) s;
  mi_fresh : forall h, generation_ (mo m) <= generation h -> phase_of h (trace m) = PNone;
  mi_legal : legal_trace (trace m);
  mi_quiesced : quiesced_ (mo m) = true -> EvQuiesce true ∈ trace m;
}.

(** ** Slots of the table *)

Lemma slot_at_some t i s : slots_ t !! i = Some s -> slot_at t i = s.
Proof. unfold slot_at. by intros ->. Qed.

Lemma total_insert l i s s' :
  l !! i = Some s -> total (<[i := s']> l) = total l - bytes (view s) + bytes (view s').
Proof.
  revert i. induction l as [|x l IH]; intros [|i]; cbn; try done.
  - intros [= ->]. lia.
  - intros H. change (bytes (view x) + total (<[i := s']> l) =
      bytes (view x) + total l - bytes (view s) + bytes (view s')). rewrite (IH _ H). lia.
Qed.

Lemma others_in t i j o : i <> j -> slots_ t !! j = Some o -> o ∈ others t i.
Proof.
  intros Hn Hj. unfold others. destruct (decide (j < i)%nat).
  - apply list_elem_of_lookup_2 with j. by rewrite list_lookup_delete_lt.
  - apply list_elem_of_lookup_2 with (j - 1)%nat.
    rewrite list_lookup_delete_ge by lia. by replace (S (j - 1)) with j by lia.
Qed.

Lemma slot_inv_mono t t' i s :
  device_ t' = device_ t -> limits_ t' = limits_ t -> generation_ t <= generation_ t' ->
  (draining_ t = true -> draining_ t' = true) -> slot_inv t i s -> slot_inv t' i s.
Proof.
  intros Ed El Hg Hdr [A (g & Hh & Hg0) B C D E F G X (S1 & S2 & S3)]. split; rewrite ?Ed; try done.
  - exists g. split; [done|lia].
  - unfold gpu_limit. by rewrite El.
  - auto.
Qed.

(** Replacing one slot of the table. *)
Lemma oinv_set t t' i s s' :
  oinv t -> slots_ t !! i = Some s -> slots_ t' = <[i := s']> (slots_ t) ->
  device_ t' = device_ t -> limits_ t' = limits_ t -> initialized_ t = true -> initialized_ t' = true ->
  generation_ t <= generation_ t' <= U64_MAX -> (draining_ t = true -> draining_ t' = true) ->
  charged_ t' = charged_ t - bytes (view s) + bytes (view s') ->
  charged_ t' <= maxTotalBytes (limits_ t) ->
  (s' <> no_slot -> slot_inv t' i s' /\
    forall j o, j <> i -> slots_ t !! j = Some o -> o <> no_slot -> compatible s' o) ->
  oinv t'.
Proof.
  intros [Hlen Hs Hp Hc Ht Hg Hl Hf] Hi Es Ed El In In' Hg' Hdr Ec Hmax Hs'.
  assert (Hi' : (i < length (slots_ t))%nat) by (by eapply lookup_lt_Some).
  assert (Ht' : total (slots_ t') = charged_ t') by (rewrite Es, (total_insert _ _ _ _ Hi); lia).
  split.
  - by rewrite Es, length_insert.
  - intros j o Hj Ho. rewrite Es in Hj. destruct (decide (j = i)) as [->|Hn].
    + rewrite list_lookup_insert_eq in Hj by done. injection Hj as <-. by apply Hs'.
    + rewrite list_lookup_insert_ne in Hj by done.
      eapply (slot_inv_mono t); [done|done|lia|done|]. by apply Hs.
  - intros j k a b Hn Hj Hk Ha Hb. rewrite Es in Hj, Hk.
    destruct (decide (j = i)) as [->|Hji], (decide (k = i)) as [->|Hki]; [done|..];
      rewrite ?list_lookup_insert_eq, ?list_lookup_insert_ne in Hj by done;
      rewrite ?list_lookup_insert_eq, ?list_lookup_insert_ne in Hk by done.
    + injection Hj as <-. by eapply Hs'.
    + injection Hk as <-. apply compatible_sym. by eapply Hs'.
    + eauto.
  - done.
  - rewrite El. lia.
  - lia.
  - rewrite Ed, El. auto.
  - congruence.
Qed.
End Inv.

(** * Every operation of the memory owner keeps its invariant, whatever the backend does *)

Section Ops.
Context {W : Type}.
Implicit Types (t : MemoryOwner W) (m : mem_machine W).

Lemma wp_call_any {A} (f : W -> A * W) ev m (Q : A -> mem_machine W -> Prop) :
  (forall r w, Q r {| mo := mo m; world := w; trace := ev r ++ trace m |}) -> wp (call f ev) Q m.
Proof. intros HQ. unfold wp, call. destruct (f (world m)) as [r w]. apply HQ. Qed.

(** * Symbolic execution on one slot

    [m] is [m0] with slot [i] replaced by [s], after the calls [evs]. *)
Record focus m0 (i : nat) (s : Slot) (dr : bool) (evs : list mem_event) m : Prop := {
  fo_owner : mo m = set_draining_ dr (set_slots_ (<[i := s]> (slots_ (mo m0))) (mo m0));
  fo_trace : trace m = evs ++ trace m0;
}.

Lemma focus_refl m i s : slots_ (mo m) !! i = Some s -> focus m i s (draining_ (mo m)) [] m.
Proof. intros H. split; [|done]. rewrite list_insert_id by done. by destruct (mo m). Qed.

Lemma alter_insert (l : list Slot) i s f :
  (i < length l)%nat -> alter f i (<[i := s]> l) = <[i := f s]> l.
Proof.
  revert i. induction l as [|x l IH]; intros [|i] Hi; cbn in *; try lia; [done|].
  f_equal. apply IH. lia.
Qed.

Section Focus.
Context (m0 : mem_machine W) (i : nat) (Hi : (i < length (slots_ (mo m0)))%nat).

Lemma focus_slot s dr evs m : focus m0 i s dr evs m -> slot_at (mo m) i = s.
Proof. intros [-> _]. unfold slot_at. cbn. by rewrite list_lookup_insert_eq. Qed.

Lemma wp_upd_slot s dr evs m f (Q : unit -> mem_machine W -> Prop) :
  focus m0 i s dr evs m -> (forall m', focus m0 i (f s) dr evs m' -> Q tt m') ->
  wp (upd_slot i f) Q m.
Proof.
  intros [E T] HQ. apply HQ. split; cbn; [|done]. rewrite E. cbn. by rewrite alter_insert.
Qed.

Lemma wp_quarantine s dr evs m (Q : MemoryStatus -> mem_machine W -> Prop) :
  focus m0 i s dr evs m ->
  (forall m', focus m0 i (upd_view (set_state StQuarantined) s) true evs m' -> Q Quarantined m') ->
  wp (quarantine i) Q m.
Proof.
  intros Hf HQ. apply wp_bind. eapply wp_upd_slot; [done|]. intros m' [E T].
  apply HQ. split; cbn; [|done]. by rewrite E.
Qed.

Lemma wp_quarantine_uncertain s dr evs m (Q : MemoryStatus -> mem_machine W -> Prop) :
  focus m0 i s dr evs m ->
  (forall m', focus m0 i (upd_view (set_state StQuarantined) (set_mappingUncertain true s)) true evs m' ->
     Q Quarantined m') ->
  wp (quarantine_uncertain i) Q m.
Proof. intros Hf HQ. apply wp_bind. eapply wp_upd_slot; [done|]. intros. by eapply wp_quarantine. Qed.

Lemma wp_mem_call {A} s dr evs m (f : W -> A * W) ev (Q : A -> mem_machine W -> Prop) :
  focus m0 i s dr evs m -> (forall r m', focus m0 i s dr (ev r ++ evs) m' -> Q r m') ->
  wp (call f ev) Q m.
Proof.
  intros [E T] HQ. unfold wp, call. destruct (f (world m)) as [r w]. apply HQ.
  split; cbn; [done|]. by rewrite T, app_assoc.
Qed.

Lemma wp_live s dr evs m (Q : bool -> mem_machine W -> Prop) :
  focus m0 i s dr evs m ->
  (forall m', focus m0 i s dr evs m' -> Q true m') -> (forall m', focus m0 i s dr evs m' -> Q false m') ->
  wp live Q m.
Proof.
  intros Hf H1 H2. unfold live, call_admitted. wp_steps; [|by apply H2].
  eapply wp_mem_call; [done|]. intros [] ?; auto.
Qed.

Lemma wp_not_live s dr evs m (Q : MemoryStatus -> mem_machine W -> Prop) :
  focus m0 i s dr evs m -> (forall r, Q r m) -> wp not_live Q m.
Proof. intros Hf HQ. unfold not_live. wp_steps. apply HQ. Qed.

(** The calls of the backend. *)
Lemma wp_call_sync s dr evs m own h p d (Q : MemoryStatus -> mem_machine W -> Prop) :
  focus m0 i s dr evs m -> (forall r m', focus m0 i s dr (EvSync h d r :: evs) m' -> Q r m') ->
  wp (call_sync own h p d) Q m.
Proof. intros Hf HQ. unfold call_sync. wp_steps. by eapply wp_mem_call. Qed.

Lemma wp_call_retired s dr evs m v (Q : bool -> mem_machine W -> Prop) :
  focus m0 i s dr evs m -> (forall r m', focus m0 i s dr (EvRetired (handle v) r :: evs) m' -> Q r m') ->
  wp (call_retired v) Q m.
Proof. intros Hf HQ. unfold call_retired. wp_steps. by eapply wp_mem_call. Qed.

Lemma wp_call_pin s dr evs m own h n p (Q : MemoryStatus * DmaPin -> mem_machine W -> Prop) :
  focus m0 i s dr evs m ->
  (forall r q m', focus m0 i s dr (EvPin h r :: evs) m' -> Q (r, as_pin q) m') ->
  wp (call_pin own h n p) Q m.
Proof.
  intros Hf HQ. unfold call_pin. wp_steps. eapply wp_mem_call; [done|]. intros [r q] m' Hf'.
  apply wp_ret. by apply HQ.
Qed.

Lemma wp_call_unpin s dr evs m own h p (Q : MemoryStatus * DmaPin -> mem_machine W -> Prop) :
  focus m0 i s dr evs m ->
  (forall r q m', focus m0 i s dr (EvUnpin h r :: evs) m' -> Q (r, as_pin q) m') ->
  wp (call_unpin own h p) Q m.
Proof.
  intros Hf HQ. unfold call_unpin. wp_steps. eapply wp_mem_call; [done|]. intros [r q] m' Hf'.
  apply wp_ret. by apply HQ.
Qed.

Lemma wp_call_map s dr evs m own h p wr g (Q : MemoryStatus * GpuMapping -> mem_machine W -> Prop) :
  focus m0 i s dr evs m ->
  (forall r q m', focus m0 i s dr (EvMap h r (as_mapping q) :: evs) m' -> Q (r, as_mapping q) m') ->
  wp (call_map own h p wr g) Q m.
Proof.
  intros Hf HQ. unfold call_map. wp_steps. eapply wp_mem_call; [done|]. intros [r q] m' Hf'.
  apply wp_ret. by apply HQ.
Qed.

Lemma wp_call_unmap s dr evs m own h p g (Q : MemoryStatus * GpuMapping -> mem_machine W -> Prop) :
  focus m0 i s dr evs m ->
  (forall r q m', focus m0 i s dr (EvUnmap h r :: evs) m' -> Q (r, as_mapping q) m') ->
  wp (call_unmap own h p g) Q m.
Proof.
  intros Hf HQ. unfold call_unmap. wp_steps. eapply wp_mem_call; [done|]. intros [r q] m' Hf'.
  apply wp_ret. by apply HQ.
Qed.
End Focus.

(** * Checks *)

Lemma test_page a : test a (PageBytes - 1) = false -> (4096 | a).
Proof.
  unfold test, PageBytes. rewrite negb_false_iff, Z.eqb_eq.
  change (4096 - 1) with (2 ^ 12 - 1). rewrite land_ones_low by lia. intros H.
  change 4096 with (2 ^ 12). apply Z.mod_divide; [lia|done].
Qed.

Lemma overlap_disjoint a n b k :
  0 <= a + n < 2 ^ 64 -> 0 <= b + k < 2 ^ 64 -> overlap a n b k = false -> span_disjoint a n b k.
Proof.
  unfold overlap, span_disjoint. intros H1 H2. rewrite !add64_small by done.
  intros [?%Z.ltb_ge|?%Z.ltb_ge]%andb_false_iff; lia.
Qed.

Lemma as_pin_range q : 0 <= cpu (as_pin q).
Proof. apply wrap_range. lia. Qed.

Lemma valid_pin (read64 : Z -> W -> Z) t w i s :
  slots_ t !! i = Some s -> 0 < bytes (view s) -> 0 <= cpu (pin (view s)) ->
  validPin read64 t w i = true ->
  pin_good (registryId (device_ t)) s /\
  forall j o, j <> i -> slots_ t !! j = Some o -> slot_inv t j o -> settled o ->
    p_cookie (pin (view s)) <> p_cookie (pin (view o)) /\
    span_disjoint (cpu (pin (view s))) (bytes (view s)) (cpu (pin (view o))) (bytes (view o)).
Proof.
  intros Hs Hb Hc H. unfold validPin in H. rewrite (slot_at_some _ _ _ Hs) in H.
  case_if_in H as H1; [done|]. case_if_in H as H2; [done|]. case_if_in H as H3; [done|].
  apply negb_true_iff in H. zbool.
  assert (Hend : cpu (pin (view s)) + bytes (view s) < 2 ^ 64) by (unfold U64_MAX in *; lia).
  split.
  - split; try done. split; [lia|by apply test_page].
  - intros j o Hj Hl Hi Hset. destruct (si_pin _ _ _ Hi Hset) as [Q1 [Q2 _] Q3 _ _ _].
    pose proof (si_bytes _ _ _ Hi) as [Hbo _].
    pose proof (proj1 (existsb_none _ _) H o (others_in _ _ _ _ (not_eq_sym Hj) Hl)) as Hn.
    unfold pin_conflict in Hn. cbv zeta in Hn.
    rewrite (si_pinned _ _ _ Hi), (proj2 (Z.eqb_neq _ _)) in Hn by lia.
    unfold is_empty in Hn. rewrite bool_decide_false in Hn by apply (si_state _ _ _ Hi).
    cbn in Hn. apply orb_false_iff in Hn as [Hn1%Z.eqb_neq Hn2]. split; [done|].
    rewrite (proj2 (Z.leb_le _ _)) in Hn2 by (unfold U64_MAX; lia).
    apply overlap_disjoint; [lia|lia|done].
Qed.

Lemma valid_mapping t i s :
  device_invalid (device_ t) (limits_ t) = false -> slots_ t !! i = Some s -> 0 < bytes (view s) ->
  validMapping t i = true ->
  map_good (gpu_limit t) s /\
  forall j o, j <> i -> slots_ t !! j = Some o -> slot_inv t j o -> gpu_live o ->
    g_cookie (mapping (view s)) <> g_cookie (mapping (view o)) /\
    span_disjoint (address (mapping (view s))) (bytes (view s))
                  (address (mapping (view o))) (bytes (view o)).
Proof.
  intros Hd Hs Hb H. unfold validMapping in H. rewrite (slot_at_some _ _ _ Hs) in H. cbv zeta in H.
  unfold device_invalid in Hd. zbool.
  rewrite Z.shiftl_1_l in H. fold (gpu_limit t) in H.
  assert (Hl : gpu_limit t <= 2 ^ 48) by (apply Z.pow_le_mono_r; lia).
  case_if_in H as Hck; [done|]. apply negb_true_iff in H. zbool.
  assert (He : address (mapping (view s)) + bytes (view s) <= gpu_limit t) by lia.
  change (2 ^ 48) with 281474976710656 in Hl. change (2 ^ 64) with 18446744073709551616.
  unfold PageBytes in *. split.
  - split; try done. split; [lia|by apply test_page].
  - intros j o Hj Hlk Hi Hg. destruct (si_map _ _ _ Hi Hg) as [Q1 [Q2 _] Q3 Q4].
    pose proof (si_bytes _ _ _ Hi) as [Hbo _].
    pose proof (proj1 (existsb_none _ _) H o (others_in _ _ _ _ (not_eq_sym Hj) Hlk)) as Hn.
    unfold mapping_conflict in Hn. cbv zeta in Hn. destruct Hg as [_ Hg].
    rewrite Hg, Q3, !(proj2 (Z.eqb_neq _ _)), (proj2 (Z.leb_gt _ _)), (proj2 (Z.ltb_ge _ _)) in Hn by lia.
    cbn in Hn. apply orb_false_iff in Hn as [Hn1 Hn2]. split; [by apply Z.eqb_neq|].
    apply overlap_disjoint; [eval_pows; lia|eval_pows; lia|]. by replace (bytes (view s)) with (g_bytes (mapping (view s))).
Qed.

(** * Updates of a slot *)

Record update_ok (s0 s : Slot) (dr : bool) : Prop := {
  uo_weaker : weaker s0 s;
  uo_state : state (view s) <> StEmpty;
  uo_owner : owner (view s) = owner (view s0);
  uo_pinned : pinOwned s = true;
  uo_holds : word 32 (jobHolds (view s)) /\
    (0 < jobHolds (view s) -> mapAttempted s = true /\
      (state (view s) = StMapped \/ state (view s) = StQuarantined));
  uo_certain : settled s -> mappingUncertain s = false;
  uo_states : (state (view s) = StPinned -> mapAttempted s = false) /\
    (state (view s) = StMapped -> mapAttempted s = true) /\
    (state (view s) = StQuarantined -> dr = true);
}.

(** The calls made for one slot. *)
Record calls_ok (h : MemoryHandle) (tr evs : list mem_event) (s : Slot) : Prop := {
  ca_about : Forall (ev_about h) evs;
  ca_legal : legal_trace (evs ++ tr);
  ca_phase : slot_phase (phase_of h (evs ++ tr)) s;
}.

Lemma slot_inv_update m0 m i s0 s dr evs :
  slot_inv (mo m0) i s0 -> focus m0 i s dr evs m -> update_ok s0 s dr -> slot_inv (mo m) i s.
Proof.
  intros [A B C D E F G H X I] [-> _] [[Hh Hb Hp Hm] U2 U3 U4 U5 U6 U7]. split; try done.
  - by rewrite Hh.
  - by rewrite U3.
  - by rewrite Hb.
  - intros [Hs Ep]%Hp. destruct (G Hs). split; rewrite ?Ep, ?Hb; done.
  - intros Hg. destruct (Hm Hg) as [Hs Em]. destruct (H Hs).
    split; rewrite ?Em, ?Hb; done.
Qed.

Lemma minv_initialized m i s :
  minv m -> slots_ (mo m) !! i = Some s -> s <> no_slot -> initialized_ (mo m) = true.
Proof.
  intros Hm Hi Hs. destruct (initialized_ (mo m)) eqn:E; [done|].
  destruct (oi_fresh _ (mi_owner _ Hm) E) as [El _]. rewrite El in Hi.
  by apply lookup_replicate in Hi as [-> _].
Qed.

Lemma bytes_nonneg t i s : oinv t -> slots_ t !! i = Some s -> 0 <= bytes (view s).
Proof.
  intros Ho Hs. destruct (decide (bytes (view s) < 0)) as [Hneg|]; [|lia].
  assert (Hn : s <> no_slot) by (intros ->; cbn in Hneg; lia).
  destruct (si_bytes _ _ _ (oi_slots _ Ho _ _ Hs Hn)). lia.
Qed.

Lemma total_nonneg l : (forall i s, l !! i = Some s -> 0 <= bytes (view s)) -> 0 <= total l.
Proof.
  induction l as [|s l IH]; intros Hall; cbn; [lia|].
  pose proof (Hall O s eq_refl). specialize (IH (fun i => Hall (S i))). lia.
Qed.

Lemma total_ge l i s :
  (forall i s, l !! i = Some s -> 0 <= bytes (view s)) -> l !! i = Some s -> bytes (view s) <= total l.
Proof.
  revert i. induction l as [|x l IH]; intros [|i] Hall Hi; cbn; try done.
  - injection Hi as ->. pose proof (total_nonneg l (fun i => Hall (S i))). lia.
  - specialize (IH i (fun i => Hall (S i)) Hi). pose proof (Hall O x eq_refl). lia.
Qed.

(** What is charged fits a machine word. *)
Lemma charged_range t : oinv t -> initialized_ t = true ->
  0 <= charged_ t <= maxTotalBytes (limits_ t) /\ maxTotalBytes (limits_ t) <= 2 ^ 31.
Proof.
  intros Ho In. rewrite (oi_charged _ Ho). pose proof (oi_total _ Ho).
  pose proof (total_nonneg _ (fun i s => bytes_nonneg t i s Ho)).
  pose proof (oi_limits _ Ho In) as Hd. unfold device_invalid in Hd. zbool.
  unfold MaxAllocationBytes, MaxAllocations in *. change (2 ^ 31) with 2147483648. lia.
Qed.

(** A slot that changed as the invariant allows, after legal calls. *)
Lemma focus_minv m0 m i s0 s dr evs :
  minv m0 -> slots_ (mo m0) !! i = Some s0 -> s0 <> no_slot -> focus m0 i s dr evs m ->
  slot_inv (mo m) i s -> handle (view s) = handle (view s0) -> bytes (view s) = bytes (view s0) ->
  (forall j o, j <> i -> slots_ (mo m0) !! j = Some o -> o <> no_slot -> compatible s o) ->
  (draining_ (mo m0) = true -> dr = true) ->
  calls_ok (handle (view s0)) (trace m0) evs s -> minv m.
Proof.
  intros Hm Hi Hn [Eo Et] Hs Hh Hb Hco Hdr [Ca Cl Cp]. pose proof (minv_initialized _ _ _ Hm Hi Hn) as In.
  pose proof (si_handle _ _ _ (oi_slots _ (mi_owner _ Hm) _ _ Hi Hn)) as (g & Hg & Hgr).
  pose proof (mi_owner _ Hm) as Ho. pose proof (oi_charged _ Ho). pose proof (oi_total _ Ho).
  assert (Hl : (i < length (slots_ (mo m0)))%nat) by (by eapply lookup_lt_Some).
  split.
  - apply (oinv_set (mo m0) (mo m) i s0 s); try done; rewrite ?Eo; cbn; try done.
    + pose proof (oi_generation _ Ho). lia.
    + rewrite Hb. lia.
    + lia.
  - intros j o Hj Ho'. rewrite Eo in Hj. cbn in Hj. rewrite Et. destruct (decide (j = i)) as [->|Hji].
    + rewrite list_lookup_insert_eq in Hj by done. injection Hj as <-. by rewrite Hh.
    + rewrite list_lookup_insert_ne in Hj by done. rewrite (phase_other (handle (view s0))); [|done|].
      * by eapply mi_phase.
      * destruct (oi_pairs _ Ho j i o s0 Hji Hj Hi Ho' Hn) as [Hgen _ _]. congruence.
  - intros h. rewrite Eo, Et. cbn. intros Hge. rewrite (phase_other (handle (view s0))); [|done|].
    + by apply (mi_fresh _ Hm).
    + intros ->. rewrite Hg in Hge. cbn in Hge. lia.
  - by rewrite Et.
  - rewrite Eo, Et. cbn. intros Hq%(mi_quiesced _ Hm). apply elem_of_app. by right.
Qed.

Lemma focus_update m0 m i s0 s dr evs :
  minv m0 -> slots_ (mo m0) !! i = Some s0 -> s0 <> no_slot -> focus m0 i s dr evs m ->
  update_ok s0 s dr -> (draining_ (mo m0) = true -> dr = true) ->
  calls_ok (handle (view s0)) (trace m0) evs s -> minv m.
Proof.
  intros Hm Hi Hn Hf Hu Hdr Hc. pose proof (mi_owner _ Hm) as Ho.
  pose proof (uo_weaker _ _ _ Hu) as Hw. eapply focus_minv; try done.
  - eapply slot_inv_update; [|done..]. by eapply oi_slots.
  - apply Hw.
  - apply Hw.
  - intros j o Hj Hjo Hno. eapply compatible_weaker; [done|]. eapply (oi_pairs _ Ho i j); eauto.
Qed.
End Ops.
