(* ===== verification/MemoryOwnerSteps.v ===== *)
(** What each operation of the memory owner does to the invariant and to the holds that
    jobs have on an allocation: only [retain] and [release] change them. *)
From stdpp Require Import base numbers list.
From S2P Require Import Prelude.
From S2P Require Import StateWp.
From S2P Require Import MemoryOwner.
From S2P Require Import MemoryOwnerInv.
Import MellowNative.

(** The number of holds of an owner on a handle. *)
Definition held {W} (t : MemoryOwner W) (own : Z) (h : MemoryHandle) : Z :=
  match slots_ t !! Z.to_nat (slot h) with
  | Some s => if decide (handle (view s) = h) then if decide (owner (view s) = own)
              then jobHolds (view s) else 0 else 0
  | None => 0
  end.

Section Steps.
Context {W : Type}.
Implicit Types (t : MemoryOwner W) (m : mem_machine W).

Lemma lookup_inr t own h i :
  oinv t -> 0 <= slot h -> lookup own h t = inr i ->
  exists s, slots_ t !! i = Some s /\ s <> no_slot /\ handle (view s) = h /\ owner (view s) = own /\
    i = Z.to_nat (slot h).
Proof.
  intros Ho Hs H. unfold lookup in H. case_if_in H as H1; [done|]. case_if_in H as H2; [done|].
  case_if_in H as H3; [done|]. cbv zeta in H. case_if_in H as H4; [done|]. injection H as <-. zbool.
  destruct (lookup_lt_is_Some_2 (slots_ t) (Z.to_nat (slot h))) as [s Es].
  { rewrite (oi_length _ Ho). lia. }
  rewrite (slot_at_some _ _ _ Es) in *.
  assert (Hn : s <> no_slot) by (by intros ->).
  destruct (si_handle _ _ _ (oi_slots _ Ho _ _ Es Hn)) as (g & Hh & _).
  exists s. split_and!; try done. rewrite Hh in *. cbn in *. destruct h; cbn in *. f_equal; lia.
Qed.

Lemma held_lookup t own h :
  oinv t -> 0 < held t own h -> exists s,
    lookup own h t = inr (Z.to_nat (slot h)) /\ slots_ t !! Z.to_nat (slot h) = Some s /\
    s <> no_slot /\ handle (view s) = h /\ owner (view s) = own /\ jobHolds (view s) = held t own h.
Proof.
  intros Ho Hh. unfold held in *. destruct (slots_ t !! _) as [s|] eqn:Es; [|lia].
  destruct (decide (handle (view s) = h)) as [Eh|]; [|lia].
  destruct (decide (owner (view s) = own)) as [Eo|]; [|lia].
  assert (Hn : s <> no_slot) by (intros ->; cbn in Hh; lia).
  pose proof (oi_slots _ Ho _ _ Es Hn) as Hi.
  destruct (si_handle _ _ _ Hi) as (g & Hg & Hgr). exists s. split_and!; try done.
  assert (Hl : (Z.to_nat (slot h) < MaxAllocations)%nat)
    by (rewrite <- (oi_length _ Ho); by eapply lookup_lt_Some).
  assert (In : initialized_ t = true).
  { destruct (initialized_ t) eqn:E; [done|]. destruct (oi_fresh _ Ho E) as [El _].
    rewrite El in Es. by apply lookup_replicate in Es as [-> _]. }
  unfold lookup. rewrite In, (slot_at_some _ _ _ Es), Hg. rewrite Hg in Eh.
  destruct h as [hs hg hr he]. cbn in *. injection Eh as E1 <- <- <-. pose proof (si_owner _ _ _ Hi).
  rewrite (proj2 (Z.eqb_neq own 0)), (proj2 (Z.leb_gt _ _)), (proj2 (Z.eqb_neq g 0)), !Z.eqb_refl by lia.
  cbn. unfold is_empty. rewrite bool_decide_false by apply (si_state _ _ _ Hi).
  by rewrite Eo, Z.eqb_refl.
Qed.

(** What a step leaves: the invariant, with the same holds. *)
Definition step_ok m0 m : Prop := minv m /\ forall own h, held (mo m) own h = held (mo m0) own h.

Lemma step_ok_refl m : minv m -> step_ok m m.
Proof. done. Qed.

Lemma step_ok_trans m0 m1 m2 : step_ok m0 m1 -> step_ok m1 m2 -> step_ok m0 m2.
Proof. intros [_ H1] [? H2]. split; [done|]. intros. by rewrite H2. Qed.

(** The world does not matter. *)
Lemma minv_world m m' : mo m' = mo m -> trace m' = trace m -> minv m -> minv m'.
Proof. intros Eo Et [A B C D E]. split; rewrite ?Eo, ?Et; done. Qed.

Lemma step_ok_world m m' : mo m' = mo m -> trace m' = trace m -> minv m -> step_ok m m'.
Proof. intros Eo Et Hm. split; [by eapply minv_world|]. by rewrite Eo. Qed.

Section Slot.
Context (m0 : mem_machine W) (i : nat) (s0 : Slot).
Context (Hm : minv m0) (Hi : slots_ (mo m0) !! i = Some s0) (Hn : s0 <> no_slot).

Lemma slot_lt : (i < length (slots_ (mo m0)))%nat.
Proof. by eapply lookup_lt_Some. Qed.

Lemma slot_inv0 : slot_inv (mo m0) i s0.
Proof. by apply oi_slots; [apply mi_owner|..]. Qed.

Lemma handle_slot : Z.to_nat (slot (handle (view s0))) = i.
Proof. destruct (si_handle _ _ _ slot_inv0) as (g & -> & _). cbn. lia. Qed.

Lemma focus_held m s dr evs own h :
  focus m0 i s dr evs m -> handle (view s) = handle (view s0) -> owner (view s) = owner (view s0) ->
  held (mo m) own h =
    if decide (handle (view s0) = h /\ owner (view s0) = own) then jobHolds (view s) else held (mo m0) own h.
Proof.
  intros [-> _] Hh Ho. unfold held. cbn. destruct (decide (Z.to_nat (slot h) = i)) as [E|E].
  - rewrite E, list_lookup_insert_eq, Hi, Hh, Ho by apply slot_lt.
    repeat case_decide; naive_solver.
  - rewrite list_lookup_insert_ne by done. rewrite decide_False; [done|].
    intros [<- _]. by rewrite handle_slot in E.
Qed.

(** An update of the slot that keeps its holds. *)
Lemma focus_step m s dr evs :
  focus m0 i s dr evs m -> update_ok s0 s dr -> (draining_ (mo m0) = true -> dr = true) ->
  calls_ok (handle (view s0)) (trace m0) evs s -> jobHolds (view s) = jobHolds (view s0) ->
  step_ok m0 m.
Proof.
  intros Hf Hu Hdr Hc Hj. split; [by eapply focus_update|]. intros own h.
  rewrite (focus_held _ _ _ _ _ _ Hf); [|apply Hu..]. case_decide as Hd; [|done].
  destruct Hd as [<- <-]. unfold held. by rewrite handle_slot, Hi, !decide_True.
Qed.

(** ** Phases *)

Definition ph : phase := phase_of (handle (view s0)) (trace m0).

Lemma ph_slot : slot_phase ph s0.
Proof. by eapply mi_phase. Qed.

Lemma ph_alive : ph <> PNone /\ ph <> PReleased.
Proof.
  destruct ph_slot as [H1 H2 _]. destruct (mapAttempted s0).
  - by destruct (H2 eq_refl) as [->|[-> _]].
  - by rewrite (H1 eq_refl).
Qed.

(** Calls that do not change what the backend holds. *)
Definition quiet (ev : mem_event) : Prop :=
  match ev with EvSync h _ _ | EvRetired h _ => h = handle (view s0) | _ => False end.

Lemma quiet_phase evs h : Forall quiet evs -> phase_of h (evs ++ trace m0) = phase_of h (trace m0).
Proof. induction 1 as [|ev evs He _ IH]; [done|]. by destruct ev. Qed.

Lemma quiet_calls evs s :
  Forall quiet evs -> slot_phase ph s -> calls_ok (handle (view s0)) (trace m0) evs s.
Proof.
  intros Hq Hs. split.
  - eapply Forall_impl; [done|]. by intros [].
  - induction Hq as [|ev evs He Hq IH]; cbn [app legal_trace]; [apply Hm|]. split; [|done].
    destruct ev; try done. cbn in *. subst h. rewrite quiet_phase by done. apply ph_alive.
  - by rewrite quiet_phase.
Qed.

(** Quarantine keeps a slot for good, as it is. *)
Lemma step_quarantine m s evs :
  focus m0 i (upd_view (set_state StQuarantined) s) true evs m ->
  handle (view s) = handle (view s0) -> bytes (view s) = bytes (view s0) ->
  owner (view s) = owner (view s0) -> pinOwned s = true -> jobHolds (view s) = jobHolds (view s0) ->
  (0 < jobHolds (view s0) -> mapAttempted s = true) ->
  calls_ok (handle (view s0)) (trace m0) evs (upd_view (set_state StQuarantined) s) -> step_ok m0 m.
Proof.
  intros Hf Hh Hb Ho Hp Hj Ha Hc. pose proof slot_inv0 as Hs. eapply focus_step; try done.
  split; try done; cbn.
  - split; try done. by intros [Hq _].
  - rewrite Hj. destruct (si_holds _ _ _ Hs) as [? Hpos]. split; [done|]. intros H0.
    destruct (Hpos H0). auto.
Qed.
End Slot.
End Steps.

(** A property of every call of a given list. *)
Ltac quiet_tac := repeat (apply Forall_cons_2; [reflexivity|]); apply Forall_nil_2.

(** Symbolic execution under [focus]: [Hl] bounds the slot index, [Hf] is the current
    description of the machine. *)
Ltac wpf Hl Hf :=
  cbv beta zeta;
  lazymatch goal with
  | |- wp (bind _ _) _ _ => apply wp_bind; wpf Hl Hf
  | |- wp (ret _) _ _ => apply wp_ret
  | |- wp (gets mo) _ _ => apply wp_gets; rewrite ?(focus_slot _ _ Hl _ _ _ _ Hf)
  | |- wp (gets _) _ _ => apply wp_gets
  | |- wp (check_pin _ _) _ _ => apply wp_gets
  | |- wp (check_both _ _) _ _ => apply wp_gets
  | |- wp (if _ then _ else _) _ _ => apply wp_if; intros ?Hc
  | |- wp live _ _ =>
      eapply wp_live; [exact Hf| |]; clear Hf; intros ?m Hf; 
      change (negb true) with false; change (negb false) with true; cbv beta iota zeta
  | |- wp not_live _ _ => eapply wp_not_live; [exact Hf|]; intros ?r
  | |- wp (quarantine _) _ _ => eapply wp_quarantine; [exact Hl|exact Hf|]; clear Hf; intros ?m Hf
  | |- wp (quarantine_uncertain _) _ _ =>
      eapply wp_quarantine_uncertain; [exact Hl|exact Hf|]; clear Hf; intros ?m Hf
  | |- wp (upd_slot _ _) _ _ => eapply wp_upd_slot; [exact Hl|exact Hf|]; clear Hf; intros ?m Hf
  | |- wp (call_sync _ _ _ _) _ _ => eapply wp_call_sync; [exact Hf|]; clear Hf; intros ?r ?m Hf
  | |- wp (call_retired _) _ _ => eapply wp_call_retired; [exact Hf|]; clear Hf; intros ?r ?m Hf
  | |- wp (call_pin _ _ _ _) _ _ => eapply wp_call_pin; [exact Hf|]; clear Hf; intros ?r ?q ?m Hf
  | |- wp (call_unpin _ _ _) _ _ => eapply wp_call_unpin; [exact Hf|]; clear Hf; intros ?r ?q ?m Hf
  | |- wp (call_map _ _ _ _ _) _ _ => eapply wp_call_map; [exact Hf|]; clear Hf; intros ?r ?q ?m Hf
  | |- wp (call_unmap _ _ _ _) _ _ => eapply wp_call_unmap; [exact Hf|]; clear Hf; intros ?r ?q ?m Hf
  end; cbv beta zeta.

Section Operations.
Context {W : Type} (read64 : Z -> W -> Z).
Implicit Types (t : MemoryOwner W) (m : mem_machine W).

(** A slot that was looked up and not changed. *)
Lemma step_same m0 m i s0 evs dr :
  minv m0 -> slots_ (mo m0) !! i = Some s0 -> s0 <> no_slot ->
  focus m0 i s0 dr evs m -> dr = draining_ (mo m0) -> Forall (quiet s0) evs -> step_ok m0 m.
Proof.
  intros Hm Hi Hn Hf -> Hq. pose proof (slot_inv0 _ _ _ Hm Hi Hn) as [A B C D E F G H X I].
  eapply focus_step; try done.
  apply (quiet_calls _ i); try done. by apply (ph_slot _ i).
Qed.

(** A flag that the invariant does not read. *)
Lemma step_flag m0 m i s0 b evs dr :
  minv m0 -> slots_ (mo m0) !! i = Some s0 -> s0 <> no_slot ->
  focus m0 i (set_cpuSynchronized b s0) dr evs m -> dr = draining_ (mo m0) ->
  Forall (quiet s0) evs -> step_ok m0 m.
Proof.
  intros Hm Hi Hn Hf -> Hq. pose proof (slot_inv0 _ _ _ Hm Hi Hn) as [A B C D E F G H X I].
  eapply focus_step; try done.
  apply (quiet_calls _ i); try done. by destruct (ph_slot _ i _ Hm Hi Hn).
Qed.

Lemma step_quarantined m0 m i s0 evs b :
  minv m0 -> slots_ (mo m0) !! i = Some s0 -> s0 <> no_slot ->
  focus m0 i (upd_view (set_state StQuarantined) (set_cpuSynchronized b s0)) true evs m ->
  Forall (quiet s0) evs -> step_ok m0 m.
Proof.
  intros Hm Hi Hn Hf Hq. pose proof (slot_inv0 _ _ _ Hm Hi Hn) as Hs.
  eapply step_quarantine; try done; [apply Hs|apply (si_holds _ _ _ Hs)|]. apply (quiet_calls _ i); try done.
  by destruct (ph_slot _ i _ Hm Hi Hn).
Qed.

Lemma slot_eta s : set_cpuSynchronized (cpuSynchronized s) s = s.
Proof. by destruct s. Qed.

Lemma sync_ok own h d m0 :
  minv m0 -> 0 <= slot h -> wp (sync read64 own h d) (fun _ => step_ok m0) m0.
Proof.
  intros Hm Hh. unfold sync. wp_steps; [by apply step_ok_refl|].
  destruct (lookup own h (mo m0)) as [r|i] eqn:El; [wp_steps; by apply step_ok_refl|].
  destruct (lookup_inr _ _ _ _ (mi_owner _ Hm) Hh El) as (s & Hi & Hn & <- & <- & _).
  pose proof (focus_refl _ _ _ Hi) as Hf. pose proof (slot_lt _ _ _ Hi) as Hl.
  rewrite (slot_at_some _ _ _ Hi).
  wpf Hl Hf; [|wpf Hl Hf; by eapply step_same].
  wpf Hl Hf; [wpf Hl Hf; by eapply step_same|].
  wpf Hl Hf. wpf Hl Hf; [wpf Hl Hf; eapply (step_quarantined _ _ _ _ _ (cpuSynchronized s)); rewrite ?slot_eta; done|].
  assert (Hq : wp (if mapAttempted s then r <-- call_retired (view s) ;; ret (negb r) else ret false)
    (fun _ m => exists evs, focus m0 i s (draining_ (mo m0)) evs m /\ Forall (quiet s) evs) m).
  { wpf Hl Hf; [wpf Hl Hf; wpf Hl Hf|wpf Hl Hf]; eexists; (split; [done|]); quiet_tac. }
  apply wp_bind. eapply wp_mono; [exact Hq|]. clear Hf. intros busy m1 (evs & Hf & He).
  wpf Hl Hf; [wpf Hl Hf; by eapply step_same|].
  wpf Hl Hf. wpf Hl Hf.
  - wpf Hl Hf. eapply (step_quarantined _ _ _ _ _ (cpuSynchronized s)); rewrite ?slot_eta; try done.
    by apply Forall_cons.
  - wpf Hl Hf. wpf Hl Hf. eapply step_flag; try done. by apply Forall_cons.
Qed.

Lemma step_uncertain m0 m i s0 evs :
  minv m0 -> slots_ (mo m0) !! i = Some s0 -> s0 <> no_slot ->
  focus m0 i (upd_view (set_state StQuarantined) (set_mappingUncertain true s0)) true evs m ->
  Forall (quiet s0) evs -> step_ok m0 m.
Proof.
  intros Hm Hi Hn Hf Hq. pose proof (slot_inv0 _ _ _ Hm Hi Hn) as Hs.
  eapply step_quarantine; try done; [apply Hs|apply (si_holds _ _ _ Hs)|]. apply (quiet_calls _ i); try done.
  destruct (ph_slot _ i _ Hm Hi Hn) as [H1 H2 H3]. split; try done. intros Ha.
  destruct (H2 Ha) as [|[? _]]; auto.
Qed.

Lemma synchronizeRetained_ok own h d m0 :
  minv m0 -> 0 <= slot h -> wp (synchronizeRetained read64 own h d) (fun _ => step_ok m0) m0.
Proof.
  intros Hm Hh. unfold synchronizeRetained. wp_steps; [by apply step_ok_refl|].
  destruct (lookup own h (mo m0)) as [r|i] eqn:El; [wp_steps; by apply step_ok_refl|].
  destruct (lookup_inr _ _ _ _ (mi_owner _ Hm) Hh El) as (s & Hi & Hn & <- & <- & _).
  pose proof (focus_refl _ _ _ Hi) as Hf. pose proof (slot_lt _ _ _ Hi) as Hl.
  rewrite (slot_at_some _ _ _ Hi).
  wpf Hl Hf; [|wpf Hl Hf; by eapply step_same].
  wpf Hl Hf; [wpf Hl Hf; by eapply step_same|].
  wpf Hl Hf. wpf Hl Hf; [wpf Hl Hf; by eapply step_uncertain|].
  wpf Hl Hf. wpf Hl Hf. wpf Hl Hf; wpf Hl Hf.
  - eapply step_quarantined; try done. quiet_tac.
  - eapply step_flag; try done. quiet_tac.
Qed.

(** The holds after one was added ([d] = 1) or removed ([d] = -1). *)
Definition holds_changed m0 m (own : Z) (h : MemoryHandle) (d : Z) : Prop :=
  minv m /\ forall own' h', held (mo m) own' h' =
    held (mo m0) own' h' + if decide (h = h' /\ own = own') then d else 0.

(** Changing the holds of a slot that is mapped, or that keeps some. *)
Lemma step_holds m0 m i s0 s d :
  minv m0 -> slots_ (mo m0) !! i = Some s0 -> s0 <> no_slot ->
  (s = upd_view (set_jobHolds (jobHolds (view s0) + d)) s0 \/
   s = set_cpuSynchronized false (upd_view (set_jobHolds (jobHolds (view s0) + d)) s0)) ->
  focus m0 i s (draining_ (mo m0)) [] m -> word 32 (jobHolds (view s0) + d) ->
  (0 < jobHolds (view s0) + d -> 0 < jobHolds (view s0) \/ state (view s0) = StMapped) ->
  holds_changed m0 m (owner (view s0)) (handle (view s0)) d.
Proof.
  intros Hm Hi Hn Hs Hf Hw Hd. pose proof (slot_inv0 _ _ _ Hm Hi Hn) as [A B C D E F G H X I].
  pose proof (ph_slot _ i _ Hm Hi Hn) as [P1 P2 P3].
  assert (Ha : 0 < jobHolds (view s0) + d -> mapAttempted s0 = true /\
    (state (view s0) = StMapped \/ state (view s0) = StQuarantined)).
  { intros Hpos. destruct (Hd Hpos) as [H0|H0]; [by apply F|]. split; [by apply I|by left]. }
  assert (Hp : 0 < jobHolds (view s0) + d -> ph m0 s0 = PMapped).
  { intros Hpos. destruct (Hd Hpos) as [H0|H0]; [by apply P3|].
    assert (Hg : gpu_live s0) by (split; [unfold settled; by rewrite H0|by apply I]).
    destruct (P2 (proj2 Hg)) as [|[_ Hu]]; [done|]. by rewrite (X (proj1 Hg)) in Hu. }
  assert (Hmi : minv m).
  { eapply focus_update; try done.
    - destruct Hs as [-> | ->]; split; try done; exact X.
    - apply (quiet_calls _ i); try done. destruct Hs as [-> | ->]; by split. }
  split; [done|]. intros own' h'.
  rewrite (focus_held _ _ _ Hm Hi Hn _ _ _ _ own' h' Hf) by (by destruct Hs as [-> | ->]).
  case_decide as Hdc; [|lia]. destruct Hdc as [<- <-].
  unfold held. rewrite (handle_slot _ _ _ Hm Hi Hn), Hi, !decide_True by done.
  by destruct Hs as [-> | ->].
Qed.

Lemma retain_ok own h m0 :
  minv m0 -> 0 <= slot h ->
  wp (retain read64 own h)
    (fun r m => (r = Ok /\ holds_changed m0 m own h 1) \/ (r <> Ok /\ step_ok m0 m)) m0.
Proof.
  intros Hm Hh. unfold retain. wp_steps.
  destruct (lookup own h (mo m0)) as [r|i] eqn:El.
  { wp_steps. right. split; [|by apply step_ok_refl]. intros ->. unfold lookup in El.
    repeat case_match; congruence. }
  destruct (lookup_inr _ _ _ _ (mi_owner _ Hm) Hh El) as (s & Hi & Hn & <- & <- & _).
  pose proof (focus_refl _ _ _ Hi) as Hf. pose proof (slot_lt _ _ _ Hi) as Hl.
  rewrite (slot_at_some _ _ _ Hi).
  wpf Hl Hf.
  2: { unfold not_live. wpf Hl Hf. wpf Hl Hf. right. split; [by case_match|by eapply step_same]. }
  wpf Hl Hf; [wpf Hl Hf; right; split; [done|by eapply step_same]|].
  apply negb_false_iff, bool_decide_eq_true in Hc.
  wpf Hl Hf. wpf Hl Hf; [wpf Hl Hf; right; split; [done|by eapply step_uncertain]|].
  wpf Hl Hf; [wpf Hl Hf; right; split; [done|by eapply step_same]|]. zbool.
  pose proof (si_holds _ _ _ (slot_inv0 _ _ _ Hm Hi Hn)) as [[Hw1 Hw2] _]. unfold U32_MAX in *.
  wpf Hl Hf. wpf Hl Hf. left. split; [done|].
  rewrite wrap_small in Hf by lia.
  eapply step_holds; try done; [by right|split; lia|by right].
Qed.

Lemma release_ok own h m0 :
  minv m0 -> 0 <= slot h ->
  wp (release own h)
    (fun r m => (r = Ok /\ 0 < held (mo m0) own h /\ holds_changed m0 m own h (-1)) \/
                (r <> Ok /\ held (mo m0) own h <= 0 /\ m = m0)) m0.
Proof.
  intros Hm Hh. unfold release. wp_steps.
  destruct (lookup own h (mo m0)) as [r|i] eqn:El.
  { wp_steps. right. split_and!; [| |done].
    - intros ->. unfold lookup in El. repeat case_match; congruence.
    - destruct (decide (0 < held (mo m0) own h)) as [Hp|]; [|lia].
      destruct (held_lookup _ _ _ (mi_owner _ Hm) Hp) as (s & E & _). congruence. }
  destruct (lookup_inr _ _ _ _ (mi_owner _ Hm) Hh El) as (s & Hi & Hn & <- & <- & ->).
  pose proof (focus_refl _ _ _ Hi) as Hf. pose proof (slot_lt _ _ _ Hi) as Hl.
  rewrite (slot_at_some _ _ _ Hi).
  assert (Hj : held (mo m0) (owner (view s)) (handle (view s)) = jobHolds (view s)).
  { unfold held. by rewrite Hi, !decide_True. }
  pose proof (si_holds _ _ _ (slot_inv0 _ _ _ Hm Hi Hn)) as [[Hw1 Hw2] _].
  wpf Hl Hf; [wpf Hl Hf; zbool; right; split_and!; [done|lia|done]|]. zbool.
  wpf Hl Hf. wpf Hl Hf. left. split_and!; [done|lia|].
  rewrite wrap_small in Hf by lia.
  eapply step_holds; try done; [by left|split; lia|left; lia].
Qed.
End Operations.
