(* ===== verification/MemoryOwnerReach.v ===== *)
(** The remaining operations of the memory owner, mapping, teardown and admission, and the
    states that sequences of operations reach. *)
From stdpp Require Import base numbers list relations.
From S2P Require Import Prelude.
From S2P Require Import StateWp.
From S2P Require Import MemoryOwner.
From S2P Require Import MemoryOwnerInv.
From S2P Require Import MemoryOwnerSteps.
Import MellowNative.

Section Teardown.
Context {W : Type} (read64 : Z -> W -> Z).
Implicit Types (t : MemoryOwner W) (m : mem_machine W).

Lemma slot_inv_focus m0 m i s dr evs j o :
  focus m0 i s dr evs m -> (draining_ (mo m0) = true -> dr = true) ->
  slot_inv (mo m0) j o -> slot_inv (mo m) j o.
Proof. intros [-> _] Hdr. by apply slot_inv_mono. Qed.

(** * Mapping *)

(** A mapping that passed the checks. *)
Lemma step_mapped m0 m m1 i s0 g evs :
  minv m0 -> slots_ (mo m0) !! i = Some s0 -> s0 <> no_slot -> state (view s0) = StPinned ->
  jobHolds (view s0) = 0 ->
  focus m0 i (upd_view (set_mapping g) (set_mapAttempted true (set_cpuSynchronized false s0)))
    (draining_ (mo m0)) evs m1 ->
  validMapping (mo m1) i = true ->
  focus m0 i (upd_view (set_state StMapped)
    (upd_view (set_mapping g) (set_mapAttempted true (set_cpuSynchronized false s0)))) (draining_ (mo m0)) evs m ->
  Forall (ev_about (handle (view s0))) evs -> legal_trace (evs ++ trace m0) ->
  phase_of (handle (view s0)) (evs ++ trace m0) = PMapped -> step_ok m0 m.
Proof.
  intros Hm Hi Hn Hst Hj0 Hf1 Hv Hf Hab Hlg Hph. pose proof (slot_inv0 _ _ _ Hm Hi Hn) as Hs.
  pose proof (minv_initialized _ _ _ Hm Hi Hn) as In. pose proof (mi_owner _ Hm) as Ho.
  assert (Hset : settled s0) by (unfold settled; by rewrite Hst).
  set (s1 := upd_view (set_mapping g) (set_mapAttempted true (set_cpuSynchronized false s0))) in *.
  assert (Hl1 : slots_ (mo m1) !! i = Some s1).
  { destruct Hf1 as [-> _]. cbn. apply list_lookup_insert_eq, (slot_lt _ _ _ Hi). }
  destruct (valid_mapping (mo m1) i s1) as [Hg Hdis]; try done.
  { destruct Hf1 as [-> _]. cbn. by apply (oi_limits _ Ho). }
  { apply (si_bytes _ _ _ Hs). }
  assert (Hgl : map_good (gpu_limit (mo m0)) s1) by (destruct Hf1 as [E1 _]; by rewrite E1 in Hg).
  assert (Hmi : minv m).
  { eapply focus_minv; try done; cbn.
    - destruct Hs as [A B C D E F G H X I]. destruct Hf as [-> _]. split; try done; cbn.
      + rewrite Hj0. split; [done|lia].
      + intros _. destruct (G Hset). by split.
      + intros _. destruct Hgl. by split.
      + auto.
    - intros j o Hj Hlj Hno. pose proof (oi_slots _ Ho _ _ Hlj Hno) as Hso.
      destruct (oi_pairs _ Ho i j s0 o) as [C1 C2 C3]; try done. split; cbn; [done|..].
      + intros _ Hos. by apply C2.
      + intros _ Hos. eapply (Hdis j o Hj); [|by eapply slot_inv_focus|done].
        destruct Hf1 as [-> _]. cbn. by rewrite list_lookup_insert_ne.
    - split; [done|done|]. rewrite Hph. split; cbn; try done; auto. }
  split; [done|]. intros own h. rewrite (focus_held _ _ _ Hm Hi Hn _ _ _ _ own h Hf) by done. cbn.
  case_decide as Hd; [|done]. destruct Hd as [<- <-].
  unfold held. by rewrite (handle_slot _ _ _ Hm Hi Hn), Hi, !decide_True.
Qed.

Lemma map_ok own h wr m0 :
  minv m0 -> 0 <= slot h -> wp (map read64 own h wr) (fun _ => step_ok m0) m0.
Proof.
  intros Hm Hh. unfold map. wp_steps.
  destruct (lookup own h (mo m0)) as [r|i] eqn:El; [wp_steps; by apply step_ok_refl|].
  destruct (lookup_inr _ _ _ _ (mi_owner _ Hm) Hh El) as (s & Hi & Hn & <- & <- & _).
  pose proof (focus_refl _ _ _ Hi) as Hf. pose proof (slot_lt _ _ _ Hi) as Hl.
  pose proof (slot_inv0 _ _ _ Hm Hi Hn) as Hs. pose proof (ph_slot _ i _ Hm Hi Hn) as Hp.
  rewrite (slot_at_some _ _ _ Hi).
  wpf Hl Hf; [|wpf Hl Hf; by eapply step_same].
  wpf Hl Hf; [wpf Hl Hf; by eapply step_same|].
  apply orb_false_iff in Hc as [[Hst Hma]%orb_false_iff Hj0]. apply negb_false_iff, Z.eqb_eq in Hj0.
  apply negb_false_iff, bool_decide_eq_true in Hst.
  pose proof (sp_pinned _ _ Hp Hma) as Hph. unfold ph in Hph.
  wpf Hl Hf. wpf Hl Hf.
  { wpf Hl Hf. eapply (step_quarantined _ _ _ _ _ (cpuSynchronized s)); rewrite ?slot_eta; done. }
  wpf Hl Hf. wpf Hl Hf.
  { wpf Hl Hf. eapply (step_quarantined _ _ _ _ _ (cpuSynchronized s)); rewrite ?slot_eta; try done.
    by apply Forall_cons. }
  wpf Hl Hf. wpf Hl Hf. wpf Hl Hf. cbn [fst snd] in *.
  set (g := as_mapping q) in *.
  assert (Hab : Forall (ev_about (handle (view s)))
    [EvMap (handle (view s)) r0 g; EvSync (handle (view s)) ForDevice r]) by quiet_tac.
  assert (Hlg : legal_trace ([EvMap (handle (view s)) r0 g; EvSync (handle (view s)) ForDevice r] ++ trace m0)).
  { cbn. rewrite Hph. split_and!; try done. apply Hm. }
  wpf Hl Hf.
  - apply andb_true_iff in Hc1 as [Hc5%bool_decide_eq_true Hc6]. subst r0.
    wpf Hl Hf. wpf Hl Hf. eapply focus_step; try done; cbn.
    + destruct Hs as [A B C D E F G H X I]. split; cbn; try done.
      * split; cbn; try done. by intros [_ ?].
      * rewrite Hj0. split; [done|lia].
      * split_and!; try done; by rewrite Hst.
    + split; [done|done|]. cbn [app phase_of phase_step]. rewrite decide_True by done.
      rewrite Hc6. cbn. split; cbn; try done. rewrite Hj0. lia.
  - wpf Hl Hf. wpf Hl Hf.
    + wpf Hl Hf. eapply step_quarantine; try done; cbn; [apply Hs|].
      split; [done|done|]. cbn [app phase_of phase_step]. rewrite decide_True by done. split; cbn.
      * done.
      * intros _. destruct (isOk r0); [by left|]. rewrite Hc1. by right.
      * rewrite Hj0. lia.
    + apply orb_false_iff in Hc2 as [[Hc5 _]%orb_false_iff Hc6]. apply negb_false_iff in Hc5, Hc6.
      apply andb_true_iff in Hc6 as [_ Hv]. pose proof Hf as Hf1. wpf Hl Hf. wpf Hl Hf.
      eapply step_mapped; try done.
      * cbn [app phase_of phase_step]. by rewrite decide_True, Hc5 by done.
Qed.

(** * Teardown *)

(** A slot whose mapping is gone, before it is unpinned. *)
Record unmapped (s0 s : Slot) : Prop := {
  un_handle : handle (view s) = handle (view s0);
  un_owner : owner (view s) = owner (view s0);
  un_bytes : bytes (view s) = bytes (view s0);
  un_pinned : pinOwned s = true;
  un_attempted : mapAttempted s = false;
  un_holds : jobHolds (view s) = 0;
}.

Record unmap_calls (h : MemoryHandle) (tr evs : list mem_event) : Prop := {
  uc_about : Forall (ev_about h) evs;
  uc_legal : legal_trace (evs ++ tr);
  uc_phase : phase_of h (evs ++ tr) = PPinned;
}.

Section Slot.
Context (m0 : mem_machine W) (i : nat) (s0 : Slot).
Context (Hm : minv m0) (Hi : slots_ (mo m0) !! i = Some s0) (Hn : s0 <> no_slot).
Context (Hj : jobHolds (view s0) = 0).
Local Notation h0 := (handle (view s0)).

(** The calls before [unmap]: a confirmation that the allocation is retired, unless all
    is quiesced, and a last synchronization, unless one was made. *)
Definition before_unmap (evs : list mem_event) : Prop :=
  Forall (quiet s0) evs /\
  (quiesced_ (mo m0) = true \/
   mappingUncertain s0 = false /\ just_retired h0 (evs ++ trace m0)).

Lemma unmap_legal evs r :
  before_unmap evs -> mapAttempted s0 = true -> legal_event (evs ++ trace m0) (EvUnmap h0 r).
Proof.
  intros [Hq Hr] Ha. cbn. rewrite (quiet_phase _ _ _ _ Hq).
  destruct (sp_mapped _ _ (ph_slot _ i _ Hm Hi Hn) Ha) as [Hp|[Hp Hu]]; unfold ph in Hp.
  - destruct Hr as [Hr|[_ Hr]]; [right|by left]. split; [by left|].
    apply elem_of_app. right. by apply (mi_quiesced _ Hm).
  - right. split; [by right|]. destruct Hr as [Hr|[Hr _]]; [|by rewrite Hr in Hu].
    apply elem_of_app. right. by apply (mi_quiesced _ Hm).
Qed.

(** Whether a consumer is left. *)
Lemma wp_retired_check m :
  focus m0 i s0 (draining_ (mo m0)) [] m -> mappingUncertain s0 && negb (quiesced_ (mo m0)) = false ->
  wp (if quiesced_ (mo m0) then ret false else r <-- call_retired (view s0) ;; ret (negb r))
    (fun busy m' => exists evs, focus m0 i s0 (draining_ (mo m0)) evs m' /\ Forall (quiet s0) evs /\
      (busy = false -> quiesced_ (mo m0) = true \/ mappingUncertain s0 = false /\ evs = [EvRetired h0 true])) m.
Proof.
  intros Hf Hc. pose proof (slot_lt _ _ _ Hi) as Hl. apply wp_if; intros Hq.
  - wpf Hl Hf. exists []. split_and!; [done|done|by left].
  - wpf Hl Hf. wpf Hl Hf. exists [EvRetired h0 r]. split_and!; [done|quiet_tac|].
    intros Hr%negb_false_iff. subst r. right. by rewrite Hq, andb_true_r in Hc.
Qed.

(** The last synchronization. *)
Lemma wp_last_sync m evs :
  focus m0 i s0 (draining_ (mo m0)) evs m -> Forall (quiet s0) evs ->
  quiesced_ (mo m0) = true \/ mappingUncertain s0 = false /\ evs = [EvRetired h0 true] ->
  wp (if cpuSynchronized s0 then ret true else
      r <-- call_sync (owner (view s0)) h0 (pin (view s0)) ForCpu ;; ret (isOk r))
    (fun synced m' => exists evs, focus m0 i s0 (draining_ (mo m0)) evs m' /\ Forall (quiet s0) evs /\
      (synced = true -> before_unmap evs)) m.
Proof.
  intros Hf He Hr. pose proof (slot_lt _ _ _ Hi) as Hl. apply wp_if; intros Hcs.
  - wpf Hl Hf. exists evs. split_and!; [done|done|]. intros _. split; [done|].
    destruct Hr as [|[? ->]]; [by left|by right].
  - wpf Hl Hf. wpf Hl Hf. exists (EvSync h0 ForCpu r :: evs).
    split_and!; [done|by apply Forall_cons_2|]. intros Hr'.
    assert (r = Ok) as -> by (by destruct r). split; [by apply Forall_cons_2|].
    destruct Hr as [|[? ->]]; [by left|by right].
Qed.

(** The call of [unmap] and what follows it. *)
Lemma wp_unmap_tail m evs :
  focus m0 i s0 (draining_ (mo m0)) evs m -> Forall (quiet s0) evs -> before_unmap evs ->
  mapAttempted s0 = true ->
  wp (upd_slot i (set_cpuSynchronized true) ;;;
      r <-- call_unmap (owner (view s0)) h0 (pin (view s0)) (mapping (view s0)) ;;
      upd_slot i (upd_view (set_mapping r.2)) ;;;
      if negb (isOk r.1) then r <-- quarantine_uncertain i ;; ret (Some r) else
      upd_slot i (fun s => set_mappingUncertain false (set_mapAttempted false
        (upd_view (set_mapping no_mapping) s))) ;;;
      ret None)
    (fun r m => match r with
     | Some r => r <> Ok /\ step_ok m0 m
     | None => exists s evs, focus m0 i s (draining_ (mo m0)) evs m /\ unmapped s0 s /\
                 unmap_calls h0 (trace m0) evs
     end) m.
Proof.
  intros Hf He Hb Ha. pose proof (slot_lt _ _ _ Hi) as Hl.
  pose proof (slot_inv0 _ _ _ Hm Hi Hn) as Hs. pose proof (ph_slot _ i _ Hm Hi Hn) as Hp.
  destruct (quiet_calls _ _ _ Hm Hi Hn evs s0 He Hp) as [Ca Cl _].
  wpf Hl Hf. wpf Hl Hf. wpf Hl Hf. cbn [fst snd] in *.
  assert (Hab : Forall (ev_about h0) (EvUnmap h0 r :: evs)) by (by apply Forall_cons_2).
  assert (Hlg : legal_trace ((EvUnmap h0 r :: evs) ++ trace m0)) by (split; [by apply unmap_legal|done]).
  wpf Hl Hf.
  - wpf Hl Hf. wpf Hl Hf. split; [done|].
    eapply step_quarantine; try done; cbn; [apply Hs|]. split; [done..|].
    apply negb_true_iff in Hc. cbn [app phase_of phase_step]. rewrite decide_True, Hc by done.
    split; cbn; [by rewrite Ha|auto|rewrite Hj; lia].
  - apply negb_false_iff in Hc. wpf Hl Hf. wpf Hl Hf. do 2 eexists. split_and!; [done| |].
    + split; try done. apply Hs.
    + split; [done|done|]. cbn [app phase_of phase_step]. by rewrite decide_True, Hc.
Qed.

Lemma cleanup_mapping_ok :
  wp (cleanup_mapping read64 i) (fun r m =>
    match r with
    | Some r => r <> Ok /\ step_ok m0 m
    | None => exists s evs, focus m0 i s (draining_ (mo m0)) evs m /\ unmapped s0 s /\
                unmap_calls h0 (trace m0) evs
    end) m0.
Proof.
  pose proof (focus_refl _ _ _ Hi) as Hf. pose proof (slot_lt _ _ _ Hi) as Hl.
  pose proof (slot_inv0 _ _ _ Hm Hi Hn) as Hs. pose proof (ph_slot _ i _ Hm Hi Hn) as Hp.
  assert (Hqq : forall m evs, focus m0 i (upd_view (set_state StQuarantined) s0) true evs m ->
    Forall (quiet s0) evs -> step_ok m0 m).
  { intros. by eapply (step_quarantined _ _ _ _ _ (cpuSynchronized s0)); rewrite ?slot_eta. }
  unfold cleanup_mapping. wp_step. wp_step. rewrite (slot_at_some _ _ _ Hi).
  wpf Hl Hf.
  { wpf Hl Hf. apply negb_true_iff in Hc. exists s0, []. split_and!; [done| |].
    - split; try done. apply Hs.
    - split; [done|apply Hm|]. by apply (sp_pinned _ _ Hp). }
  apply negb_false_iff in Hc. wpf Hl Hf; [wpf Hl Hf; wpf Hl Hf; split; [done|by eapply Hqq]|].
  apply wp_bind. eapply wp_mono; [by apply wp_retired_check|].
  clear Hf. intros busy m1 (evs & Hf & He & Hb).
  wpf Hl Hf; [wpf Hl Hf; split; [done|by eapply step_same]|]. specialize (Hb Hc1).
  wpf Hl Hf. wpf Hl Hf; [wpf Hl Hf; wpf Hl Hf; split; [done|by eapply Hqq]|].
  apply wp_bind. eapply wp_mono; [by apply (wp_last_sync m1 evs)|].
  clear Hf He Hb evs. intros synced m2 (evs & Hf & He & Hb).
  wpf Hl Hf; [wpf Hl Hf; wpf Hl Hf; split; [done|by eapply Hqq]|].
  apply negb_false_iff in Hc3. by apply (wp_unmap_tail m2 evs); auto.
Qed.

(** The slot is given back. *)
Lemma free_ok m evs :
  mo m = set_charged_ (charged_ (mo m0) - bytes (view s0))
    (set_slots_ (<[i := no_slot]> (slots_ (mo m0))) (mo m0)) ->
  trace m = evs ++ trace m0 -> Forall (ev_about h0) evs -> legal_trace (evs ++ trace m0) -> step_ok m0 m.
Proof.
  intros Eo Et Ha Hl. pose proof (slot_inv0 _ _ _ Hm Hi Hn) as Hs. pose proof (mi_owner _ Hm) as Ho.
  pose proof (minv_initialized _ _ _ Hm Hi Hn) as In. pose proof (slot_lt _ _ _ Hi) as Hlt.
  pose proof (oi_total _ Ho). pose proof (oi_charged _ Ho). pose proof (si_bytes _ _ _ Hs).
  destruct (si_handle _ _ _ Hs) as (g & Hg & Hgr).
  split; [split|].
  - eapply (oinv_set (mo m0) (mo m) i s0 no_slot); rewrite ?Eo; cbn; try done; try lia.
    pose proof (oi_generation _ Ho). lia.
  - rewrite Eo. cbn. intros j o Hj' Hno. destruct (decide (j = i)) as [->|Hji].
    { rewrite list_lookup_insert_eq in Hj' by done. by injection Hj' as <-. }
    rewrite list_lookup_insert_ne in Hj' by done. rewrite Et, (phase_other h0); [|done|].
    + by eapply mi_phase.
    + destruct (oi_pairs _ Ho j i o s0) as [Hgen _ _]; try done. congruence.
  - rewrite Eo, Et. cbn. intros h Hge. rewrite (phase_other h0); [by apply (mi_fresh _ Hm)|done|].
    intros ->. rewrite Hg in Hge. cbn in Hge. lia.
  - by rewrite Et.
  - rewrite Eo, Et. cbn. intros Hq%(mi_quiesced _ Hm). apply elem_of_app. by right.
  - intros own h. unfold held. rewrite Eo. cbn. destruct (decide (Z.to_nat (slot h) = i)) as [E|E].
    + rewrite E, list_lookup_insert_eq, Hi by done. cbn. rewrite Hj. by repeat case_decide.
    + by rewrite list_lookup_insert_ne.
Qed.

Lemma cleanup_ok :
  wp (cleanup read64 i) (fun r m => step_ok m0 m /\
    (r = Ok -> slots_ (mo m) = <[i := no_slot]> (slots_ (mo m0)))) m0.
Proof.
  pose proof (slot_lt _ _ _ Hi) as Hl. pose proof (slot_inv0 _ _ _ Hm Hi Hn) as Hs.
  unfold cleanup. wp_step. wp_step. rewrite (slot_at_some _ _ _ Hi), Hj. cbn [Z.eqb negb].
  apply wp_bind. eapply wp_mono; [apply cleanup_mapping_ok|].
  intros [r|] m; [intros [Hr Hok]; apply wp_ret; by split|].
  intros (s & evs & Hf & [U1 U2 U3 U4 U5 U6] & [C1 C2 C3]). wp_step. wp_step.
  rewrite (focus_slot _ _ Hl _ _ _ _ Hf), U4. wpf Hl Hf. wpf Hl Hf. wpf Hl Hf.
  cbn [fst snd] in *. rewrite U1 in *.
  assert (Hab : Forall (ev_about h0) (EvUnpin h0 r :: evs)) by (by apply Forall_cons_2).
  assert (Hlg : legal_trace ((EvUnpin h0 r :: evs) ++ trace m0)) by (split; [exact C3|done]).
  wpf Hl Hf.
  - apply negb_true_iff in Hc. wpf Hl Hf. split; [|done].
    eapply step_quarantine; try done; cbn; [by rewrite U6|rewrite Hj; lia|].
    split; [done..|]. cbn [app phase_of phase_step]. rewrite decide_True, Hc, C3 by done.
    split; cbn; [done|by rewrite U5|rewrite U6; lia].
  - wp_step. apply wp_bind. unfold upd, upd_slot. apply wp_modify. apply wp_ret. cbn.
    destruct Hf as [Eo Et]. rewrite Eo, U3. cbn. rewrite alter_insert by done.
    split; [|done]. apply (free_ok _ (EvUnpin h0 r :: evs)); cbn; [|done..].
    pose proof (mi_owner _ Hm) as Ho. pose proof (minv_initialized _ _ _ Hm Hi Hn) as In.
    pose proof (charged_range _ Ho In). change (2 ^ 31) with 2147483648 in *.
    pose proof (total_ge _ _ _ (fun i s => bytes_nonneg _ i s Ho) Hi). pose proof (oi_charged _ Ho).
    pose proof (bytes_nonneg _ _ _ Ho Hi).
    rewrite sub64_small by (eval_pows; lia). by destruct (mo m0).
Qed.
End Slot.

Lemma retire_ok own h m0 :
  minv m0 -> 0 <= slot h -> wp (retire read64 own h) (fun _ => step_ok m0) m0.
Proof.
  intros Hm Hh. unfold retire. wp_steps.
  destruct (lookup own h (mo m0)) as [r|i] eqn:El; [wp_steps; by apply step_ok_refl|].
  destruct (lookup_inr _ _ _ _ (mi_owner _ Hm) Hh El) as (s & Hi & Hn & <- & <- & _).
  pose proof (focus_refl _ _ _ Hi) as Hf. pose proof (slot_lt _ _ _ Hi) as Hl.
  pose proof (slot_inv0 _ _ _ Hm Hi Hn) as Hs. rewrite (slot_at_some _ _ _ Hi).
  wpf Hl Hf; [wpf Hl Hf; by eapply step_same|]. apply negb_false_iff, Z.eqb_eq in Hc.
  wpf Hl Hf.
  set (s1 := if bool_decide _ then _ else _) in *.
  assert (H1 : step_ok m0 m /\ jobHolds (view s1) = 0 /\ s1 <> no_slot).
  { pose proof (ph_slot _ i _ Hm Hi Hn) as Hp. destruct Hs as [A B C D E F G H X I].
    unfold s1 in *. clear s1. case_bool_decide as Hb; split_and!; try done; [by eapply step_same|].
    eapply focus_step; try done; cbn.
    - split; try done; cbn.
      + split; cbn; try done. intros [_ Hg]. split; [by split|done].
      + rewrite Hc. split; [done|lia].
      + intros _. by apply X.
    - apply (quiet_calls _ i); try done. by destruct Hp. }
  destruct H1 as (H1 & H2 & H3). eapply wp_mono.
  - apply (cleanup_ok m i s1); try done; [apply H1|]. destruct Hf as [-> _]. cbn.
    by apply list_lookup_insert_eq.
  - intros r m' [H4 _]. by eapply step_ok_trans.
Qed.

(** * Stopping *)

Lemma weaker_quiesce b s : weaker s (quiesce_slot b s).
Proof.
  unfold quiesce_slot. destruct (is_empty s); [done|]. destruct b; [done|].
  cbn. destruct (mapAttempted s) eqn:E; split; cbn; try done; intros []; done.
Qed.

Lemma quiesce_slot_empty b s : quiesce_slot b s = no_slot -> s = no_slot.
Proof.
  unfold quiesce_slot. destruct (is_empty s) eqn:E; [done|]. intros Hs.
  assert (Hst : state (view s) = StEmpty).
  { destruct b; [by injection Hs as ->|]. cbn in Hs. by destruct (mapAttempted s). }
  unfold is_empty in E. by rewrite bool_decide_true in E.
Qed.

Lemma slot_inv_quiesce b t i s :
  slot_inv t i s -> slot_inv (set_draining_ true t) i (quiesce_slot b s).
Proof.
  intros Hs. assert (Hd : slot_inv (set_draining_ true t) i s).
  { apply (slot_inv_mono t); try done. }
  destruct Hd as [A B C D E F G H X I]. unfold quiesce_slot, is_empty.
  rewrite bool_decide_false by done. destruct b.
  { split; try done; intros Hg; [destruct (G Hg)|destruct (H Hg)]; by split. }
  cbn. destruct (mapAttempted s) eqn:Ea; split; cbn; try done; try (by intros []); try (by intros Hq).
  - split; [apply F|]. auto.
  - split; [apply F|]. intros H0. by destruct (proj2 F H0).
Qed.

Lemma total_quiesce b l : total (quiesce_slot b <$> l) = total l.
Proof.
  induction l as [|s l IH]; [done|]. change (bytes (view (quiesce_slot b s)) + total (quiesce_slot b <$> l) = bytes (view s) + total l).
  by rewrite IH, (we_bytes _ _ (weaker_quiesce b s)).
Qed.

(** The fields that an update of the table leaves. *)
Record same_frame t t' : Prop := {
  sf_device : device_ t' = device_ t;
  sf_limits : limits_ t' = limits_ t;
  sf_charged : charged_ t' = charged_ t;
  sf_generation : generation_ t' = generation_ t;
  sf_initialized : initialized_ t' = initialized_ t;
}.

Lemma quiesced_oinv b t t' :
  oinv t -> initialized_ t = true -> same_frame t t' -> draining_ t' = true ->
  slots_ t' = quiesce_slot b <$> slots_ t -> oinv t'.
Proof.
  intros Ho In [Ed El Ec Eg Ei] Hdr Es. split; rewrite ?Es, ?El, ?Ec, ?Eg, ?Ei, ?Ed, ?total_quiesce;
    try apply Ho; try congruence.
  - rewrite length_fmap. apply Ho.
  - intros i s (o & -> & Ho')%list_lookup_fmap_Some Hn.
    assert (Hno : o <> no_slot) by (intros ->; by apply Hn).
    eapply (slot_inv_mono (set_draining_ true t)); try done; [cbn; lia|].
    apply slot_inv_quiesce. by apply (oi_slots _ Ho).
  - intros i j s o Hij (s' & -> & Hs)%list_lookup_fmap_Some (o' & -> & Hs')%list_lookup_fmap_Some Hn Hn'.
    assert (s' <> no_slot) by (intros ->; by apply Hn). assert (o' <> no_slot) by (intros ->; by apply Hn').
    eapply compatible_weaker; [apply weaker_quiesce|]. apply compatible_sym.
    eapply compatible_weaker; [apply weaker_quiesce|]. eapply (oi_pairs _ Ho j i); eauto.
Qed.

Lemma phase_quiesce b p s : slot_phase p s -> slot_phase p (quiesce_slot b s).
Proof.
  intros [A B C]. unfold quiesce_slot. destruct (is_empty s); [done|]. destruct b; [done|].
  cbn. destruct (mapAttempted s) eqn:E; split; cbn; rewrite ?E; try done.
  intros _. destruct (B eq_refl) as [|[? _]]; auto.
Qed.

Lemma holds_quiesce b s : jobHolds (view (quiesce_slot b s)) = jobHolds (view s) /\
  owner (view (quiesce_slot b s)) = owner (view s).
Proof.
  unfold quiesce_slot. destruct (is_empty s), b; cbn; try done; by destruct (mapAttempted s).
Qed.

Lemma quiesced_ok b m0 m :
  minv m0 -> initialized_ (mo m0) = true -> same_frame (mo m0) (mo m) -> draining_ (mo m) = true ->
  slots_ (mo m) = quiesce_slot b <$> slots_ (mo m0) -> trace m = EvQuiesce b :: trace m0 ->
  (quiesced_ (mo m) = true -> quiesced_ (mo m0) = true \/ b = true) -> step_ok m0 m.
Proof.
  intros Hm In Hfr Hdr Es Et Hq. split; [split|].
  - eapply quiesced_oinv; [apply Hm|done..].
  - rewrite Es, Et. intros i s (o & -> & Hi)%list_lookup_fmap_Some Hn. cbn [phase_of phase_step].
    rewrite (we_handle _ _ (weaker_quiesce b o)). apply phase_quiesce. eapply mi_phase; [done..|].
    intros ->. by apply Hn.
  - rewrite (sf_generation _ _ Hfr), Et. apply Hm.
  - rewrite Et. split; [done|apply Hm].
  - rewrite Et. intros [H| ->]%Hq; [right; by apply (mi_quiesced _ Hm)|left].
  - intros own h. unfold held. rewrite Es, list_lookup_fmap. destruct (slots_ (mo m0) !! _) as [s|]; [|done].
    cbn. destruct (holds_quiesce b s) as [-> ->]. by rewrite (we_handle _ _ (weaker_quiesce b s)).
Qed.

Lemma quiesce_ok m0 :
  minv m0 -> wp (@quiesce W) (fun _ m => step_ok m0 m /\ closed_ (mo m) = closed_ (mo m0)) m0.
Proof.
  intros Hm. unfold quiesce, call_quiesce, upd. wp_steps; [by split; [apply step_ok_refl|]..|].
  apply negb_false_iff in Hcond. apply orb_false_iff in Hcond0 as [_ Hq].
  apply wp_call_any. intros b w. wp_steps; cbn in *; (split; [|done]); destruct b; try done.
  - eapply (quiesced_ok false); try done. cbn. by left.
  - eapply (quiesced_ok true); try done. by right.
Qed.

(** * Closing *)

Definition used (l : list Slot) : nat := length (List.filter (fun s => negb (is_empty s)) l).

Lemma used_free l i s :
  l !! i = Some s -> is_empty s = false -> used l = S (used (<[i := no_slot]> l)).
Proof.
  unfold used. revert i. induction l as [|x l IH]; intros [|i] Hi He; try done.
  - injection Hi as ->. cbn. by rewrite He.
  - specialize (IH i Hi He). change (<[S i := no_slot]> (x :: l)) with (x :: <[i := no_slot]> l).
    cbn [List.filter]. destruct (is_empty x); cbn; congruence.
Qed.

Lemma used_none t : oinv t -> used (slots_ t) = O -> slots_ t = replicate MaxAllocations no_slot.
Proof.
  intros Ho Hu. symmetry. apply replicate_as_Forall. split; [apply Ho|]. apply Forall_lookup. intros i s Hi.
  destruct (decide (s = no_slot)) as [|Hn]; [done|].
  pose proof (si_state _ _ _ (oi_slots _ Ho _ _ Hi Hn)) as Hs.
  rewrite (used_free _ _ _ Hi) in Hu; [done|]. unfold is_empty. by rewrite bool_decide_false.
Qed.

Lemma latest_from_some l i best j :
  latest_from l i best = Some j ->
  (exists g, best = Some (j, g)) \/ exists s, (i <= j)%nat /\ l !! (j - i)%nat = Some s /\ is_empty s = false.
Proof.
  revert i best. induction l as [|s l IH]; intros i best; cbn [latest_from].
  { destruct best as [[k g]|]; cbn; [|done]. intros [= ->]. eauto. }
  intros [[g Hb]|(o & Hle & Ho & He)]%IH.
  - case_match eqn:E; [|eauto]. injection Hb as -> _. right. exists s. apply andb_true_iff in E as [E _].
    apply negb_true_iff in E. rewrite Nat.sub_diag. split_and!; [lia|done|done].
  - right. exists o. split_and!; [lia| |done]. by replace (j - i)%nat with (S (j - S i)) by lia.
Qed.

Lemma latest_from_none l i best : latest_from l i best = None -> best = None /\ used l = O.
Proof.
  revert i best. induction l as [|s l IH]; intros i best; cbn [latest_from].
  { by destruct best. }
  intros [Hb Hu]%IH. unfold used in *. cbn. destruct (is_empty s); cbn in *; [done|].
  destruct best as [[k g]|]; [by case_match|done].
Qed.

Lemma close_loop_ok n m0 :
  minv m0 -> wp (close_loop read64 n) (fun r m => step_ok m0 m /\
    (r = Ok -> (used (slots_ (mo m0)) <= n)%nat -> used (slots_ (mo m)) = O)) m0.
Proof.
  assert (Hclose : forall m, minv m -> step_ok m
    {| mo := set_closed_ true (mo m); world := world m; trace := trace m |}).
  { intros m [[A B C D E F G H] I J K L]. split; [|done]. split; try done. split; try done.
    intros i s Hi Hn. apply (slot_inv_mono (mo m)); try done. by apply B. }
  revert m0. induction n as [|n IH]; intros m0 Hm; cbn [close_loop].
  { unfold upd. wp_steps. split; [by apply Hclose|].
    intros _ Hu. exact (proj1 (Nat.le_0_r _) Hu). }
  wp_steps. destruct (latest (slots_ (mo m0))) as [i|] eqn:El.
  - apply latest_from_some in El as [[? ?]|(s & _ & Hi & He)]; [done|].
    rewrite Nat.sub_0_r in Hi.
    assert (Hn : s <> no_slot) by (intros ->; unfold is_empty in He; by rewrite bool_decide_true in He).
    wp_step. eapply (wp_mono _ (fun r m => step_ok m0 m /\
      (r = Ok -> slots_ (mo m) = <[i := no_slot]> (slots_ (mo m0))))).
    { destruct (Z.eqb_spec (jobHolds (view s)) 0) as [Hj|Hj]; [by eapply cleanup_ok|].
      unfold cleanup. wp_step. wp_step. rewrite (slot_at_some _ _ _ Hi), (proj2 (Z.eqb_neq _ _)) by done.
      cbn [negb]. wp_step. by split; [apply step_ok_refl|]. }
    intros r m [Hs Hr]. wp_step; [wp_step; split; [done|]; intros ->; done|].
    assert (r = Ok) as -> by (by destruct r). eapply wp_mono; [apply IH, Hs|].
    intros r' m' [Hs' Hr']. split; [by eapply step_ok_trans|]. intros -> Hle.
    apply Hr'; [done|]. rewrite (Hr eq_refl). rewrite (used_free _ _ _ Hi He) in Hle. lia.
  - apply latest_from_none in El as [_ Hu]. unfold upd. wp_steps. split; [by apply Hclose|done].
Qed.

Lemma close_ok m0 :
  minv m0 -> wp (close read64) (fun r m => step_ok m0 m /\
    (r = Ok -> closed_ (mo m0) = false -> slots_ (mo m) = replicate MaxAllocations no_slot)) m0.
Proof.
  intros Hm. unfold close. wp_step. eapply wp_mono; [by apply quiesce_ok|].
  intros r m [Hs Hc]. wp_step; [wp_step; split; [done|]; by intros ->|].
  wp_step. wp_step. wp_step; [wp_step; split; [done|]; congruence|].
  eapply wp_mono; [apply close_loop_ok, Hs|]. intros r' m' [Hs' Hr']. split; [by eapply step_ok_trans|].
  intros -> _. apply used_none; [apply Hs'|]. apply Hr'; [done|].
  unfold used. rewrite <- (oi_length _ (mi_owner _ (proj1 Hs))). apply List.filter_length_le.
Qed.
End Teardown.
