(* ===== verification/MemoryOwnerThms.v ===== *)
(** The theorems about the memory owner: in every state that operations reach, with any
    backend, accounting and isolation hold, the backend is called in a legal order, and
    memory that a job holds stays mapped. *)
From stdpp Require Import base numbers list relations.
From S2P Require Import Prelude.
From S2P Require Import StateWp.
From S2P Require Import MemoryOwner.
From S2P Require Import MemoryOwnerInv.
From S2P Require Import MemoryOwnerSteps.
From S2P Require Import MemoryOwnerReach.
Import MellowNative.

Section Admission.
Context {W : Type} (read64 : Z -> W -> Z).
Implicit Types (t : MemoryOwner W) (m : mem_machine W).

(** * Allocation *)

Lemma first_empty_some t i :
  oinv t -> first_empty (slots_ t) = Some i -> slots_ t !! i = Some no_slot.
Proof.
  intros Ho Hf.
  assert (Hi : forall l k, first_empty l = Some k -> exists s, l !! k = Some s /\ is_empty s = true).
  { induction l as [|s l IH]; intros k; cbn; [done|]. destruct (is_empty s) eqn:E.
    - intros [= <-]. eauto.
    - destruct (first_empty l) as [j|] eqn:Ej; [|done]. intros [= <-]. by apply IH. }
  destruct (Hi _ _ Hf) as (s & Hs & He). rewrite Hs. f_equal.
  destruct (decide (s = no_slot)) as [|Hn]; [done|]. apply bool_decide_eq_true in He.
  by destruct (si_state _ _ _ (oi_slots _ Ho _ _ Hs Hn)).
Qed.

(** A new slot, or none, after its pin was asked for. *)
Lemma alloc_step m0 m i s h r dr :
  minv m0 -> initialized_ (mo m0) = true -> slots_ (mo m0) !! i = Some no_slot ->
  generation_ (mo m0) <> U64_MAX ->
  mo m = set_draining_ dr (set_slots_ (<[i := s]> (slots_ (mo m0)))
    (set_charged_ (charged_ (mo m0) + bytes (view s)) (set_generation_ (generation_ (mo m0) + 1) (mo m0)))) ->
  charged_ (mo m0) + bytes (view s) <= maxTotalBytes (limits_ (mo m0)) ->
  trace m = EvPin h r :: trace m0 -> generation h = generation_ (mo m0) ->
  (draining_ (mo m0) = true -> dr = true) ->
  (s <> no_slot -> slot_inv (mo m) i s /\ handle (view s) = h /\ mapAttempted s = false /\
    jobHolds (view s) = 0 /\
    forall j o, j <> i -> slots_ (mo m0) !! j = Some o -> o <> no_slot -> compatible s o) ->
  step_ok m0 m.
Proof.
  intros Hm In Hi Hg Eo Hc Et Hh Hdr Hs. pose proof (mi_owner _ Hm) as Ho.
  pose proof (oi_generation _ Ho). unfold U64_MAX in *.
  assert (Hl : (i < length (slots_ (mo m0)))%nat) by (by eapply lookup_lt_Some).
  assert (Hph : forall h', h' <> h -> phase_of h' (trace m) = phase_of h' (trace m0)).
  { intros h' Hn. rewrite Et. cbn. by rewrite decide_False. }
  split; [split|].
  - eapply (oinv_set (mo m0) (mo m) i no_slot s); rewrite ?Eo; cbn; try done; try lia;
      [unfold U64_MAX; lia|].
    intros Hn. destruct (Hs Hn) as (H1 & _ & _ & _ & H2). rewrite <- Eo. auto.
  - rewrite Eo. cbn. intros j o Hj Hno. destruct (decide (j = i)) as [->|Hji].
    + rewrite list_lookup_insert_eq in Hj by done. injection Hj as <-.
      destruct (Hs Hno) as (_ & -> & Ha & Hj0 & _). rewrite Et. cbn [phase_of phase_step].
      rewrite decide_True by done. split; [done|by rewrite Ha|rewrite Hj0; lia].
    + rewrite list_lookup_insert_ne in Hj by done. rewrite Hph; [by eapply mi_phase|].
      destruct (si_handle _ _ _ (oi_slots _ Ho _ _ Hj Hno)) as (g & Hg' & Hgr).
      intros E. rewrite <- E, Hg' in Hh. cbn in Hh. lia.
  - rewrite Eo. cbn. intros h' Hge. rewrite Hph; [apply (mi_fresh _ Hm); lia|]. intros ->. lia.
  - rewrite Et. split; [|apply Hm]. apply (mi_fresh _ Hm). lia.
  - rewrite Eo, Et. cbn. intros Hq%(mi_quiesced _ Hm). by right.
  - intros own h'. unfold held. rewrite Eo. cbn. destruct (decide (Z.to_nat (slot h') = i)) as [E|E].
    + rewrite E, list_lookup_insert_eq, Hi by done. cbn.
      assert (jobHolds (view s) = 0) as ->.
      { destruct (decide (s = no_slot)) as [->|Hn]; [done|]. by apply Hs. }
      by repeat case_decide.
    + by rewrite list_lookup_insert_ne.
Qed.

(** The owner once a slot and a generation are taken, and then with the slot as [s]. *)
Definition taken (t : MemoryOwner W) (own n : Z) (i : nat) : MemoryOwner W :=
  set_charged_ (charged_ t + n) (set_generation_ (generation_ t + 1)
    (set_slots_ (<[i := fresh_slot t own n i]> (slots_ t)) t)).

Section Fresh.
Context (m0 m1 : mem_machine W) (i : nat) (own n : Z).
Context (Hm : minv m0) (In : initialized_ (mo m0) = true) (Hi : slots_ (mo m0) !! i = Some no_slot).
Context (Hg : generation_ (mo m0) <> U64_MAX) (Hown : own <> 0).
Context (Hn : 0 < n <= MaxAllocationBytes) (Hdiv : (4096 | n)).
Context (Hmax : charged_ (mo m0) + n <= maxTotalBytes (limits_ (mo m0))).
Context (E1 : mo m1 = taken (mo m0) own n i) (T1 : trace m1 = trace m0).
Local Notation h0 := (handle (view (fresh_slot (mo m0) own n i))).
Local Notation pinned q := (upd_view (set_pin q) (fresh_slot (mo m0) own n i)).

Lemma focus_taken s dr evs m :
  focus m1 i s dr evs m ->
  mo m = set_draining_ dr (set_slots_ (<[i := s]> (slots_ (mo m0)))
    (set_charged_ (charged_ (mo m0) + n) (set_generation_ (generation_ (mo m0) + 1) (mo m0)))) /\
  trace m = evs ++ trace m0.
Proof.
  intros [Eo Et]. rewrite Eo, Et, E1, T1. unfold taken. cbn. by rewrite list_insert_insert_eq.
Qed.

Lemma fresh_generation j o : slots_ (mo m0) !! j = Some o -> o <> no_slot ->
  generation_ (mo m0) <> generation (handle (view o)).
Proof.
  intros Hj Ho. destruct (si_handle _ _ _ (oi_slots _ (mi_owner _ Hm) _ _ Hj Ho)) as (g & -> & Hr).
  cbn. lia.
Qed.

Lemma alloc_pinned q r m m' dr :
  focus m1 i (pinned (as_pin q)) (draining_ (mo m1)) [EvPin h0 r] m' ->
  validPin read64 (mo m') (world m') i = true ->
  focus m1 i (pinned (as_pin q)) dr [EvPin h0 r] m -> dr = draining_ (mo m1) -> step_ok m0 m.
Proof.
  intros Hf' Hv Hf ->. destruct (focus_taken _ _ _ _ Hf) as [Eo Et].
  destruct (focus_taken _ _ _ _ Hf') as [Eo' _]. pose proof (mi_owner _ Hm) as Ho.
  assert (Hl : (i < length (slots_ (mo m0)))%nat) by (by eapply lookup_lt_Some).
  assert (Hlk : slots_ (mo m') !! i = Some (pinned (as_pin q))).
  { rewrite Eo'. cbn. by apply list_lookup_insert_eq. }
  destruct (valid_pin read64 (mo m') (world m') i _ Hlk) as [Hp Hd]; [cbn; lia|apply as_pin_range|done|].
  pose proof (oi_generation _ Ho).
  eapply (alloc_step m0 m i (pinned (as_pin q)) h0 r (draining_ (mo m1))); try done; [by rewrite E1|].
  intros _. split_and!; try done.
  - assert (Hr : registryId (device_ (mo m')) = registryId (device_ (mo m0))) by (by rewrite Eo').
    rewrite Hr in Hp. rewrite Eo. split; cbn; try done; try (by intros []).
    eexists. split; [done|]. lia.
  - intros j o Hj Hlj Hno. split; cbn.
    + by eapply fresh_generation.
    + intros _ Hso. eapply (Hd j o); try done.
      * rewrite Eo'. cbn. by rewrite list_lookup_insert_ne.
      * eapply (slot_inv_mono (mo m0)); try done; rewrite ?Eo', ?E1; try done; cbn; [lia|].
        by apply (oi_slots _ Ho).
    + by intros [_ ?].
Qed.

Lemma alloc_quarantined q r m :
  focus m1 i (upd_view (set_state StQuarantined) (pinned (as_pin q))) true [EvPin h0 r] m -> step_ok m0 m.
Proof.
  intros Hf. destruct (focus_taken _ _ _ _ Hf) as [Eo Et]. pose proof (oi_generation _ (mi_owner _ Hm)).
  eapply (alloc_step m0 m i (upd_view (set_state StQuarantined) (pinned (as_pin q))) h0 r true); try done.
  intros _. split_and!; try done.
  - rewrite Eo. split; cbn; try done; try (by intros []).
    eexists. split; [done|]. lia.
  - intros j o Hj Hlj Hno. split; cbn; [by eapply fresh_generation|done|by intros []].
Qed.

Lemma alloc_rejected r m :
  mo m = set_draining_ (draining_ (mo m0)) (set_slots_ (<[i := no_slot]> (slots_ (mo m0)))
    (set_charged_ (charged_ (mo m0)) (set_generation_ (generation_ (mo m0) + 1) (mo m0)))) ->
  trace m = EvPin h0 r :: trace m0 -> step_ok m0 m.
Proof.
  intros Eo Et. eapply (alloc_step m0 m i no_slot h0 r (draining_ (mo m0))); try done; cbn.
  - by rewrite Z.add_0_r.
  - lia.
Qed.

(** From the call of [pin] to the return. *)
Lemma alloc_tail :
  wp (r <-- call_pin own h0 n no_pin ;;
      upd_slot i (upd_view (set_pin r.2)) ;;;
      ok <-- check_pin read64 i ;;
      if isOk r.1 && ok then ret (Ok, h0) else
      if cleanPinRejection r.1 && empty_pin r.2 then
        upd (fun t => set_charged_ (charged_ t -64 n) t) ;;;
        upd_slot i (fun _ => no_slot) ;;;
        ret (r.1, no_handle)
      else s <-- quarantine i ;; ret (s, h0)) (fun _ => step_ok m0) m1.
Proof.
  assert (Hi1 : slots_ (mo m1) !! i = Some (fresh_slot (mo m0) own n i)).
  { rewrite E1. cbn. apply list_lookup_insert_eq. by eapply lookup_lt_Some. }
  pose proof (focus_refl _ _ _ Hi1) as Hf. assert (Hl : (i < length (slots_ (mo m1)))%nat) by (by eapply lookup_lt_Some).
  wpf Hl Hf. wpf Hl Hf. cbn [fst snd] in *. wpf Hl Hf. wpf Hl Hf.
  { apply andb_true_iff in Hc as [_ Hv]. wpf Hl Hf. by eapply alloc_pinned. }
  wpf Hl Hf; [|wpf Hl Hf; wpf Hl Hf; by eapply alloc_quarantined].
  destruct (focus_taken _ _ _ _ Hf) as [Eo Et]. wp_step. apply wp_bind. unfold upd, upd_slot.
  apply wp_modify. apply wp_ret. apply (alloc_rejected r); [|done]. cbn. rewrite Eo. cbn.
  rewrite alter_insert by (by eapply lookup_lt_Some). rewrite E1. cbn.
  pose proof (charged_range _ (mi_owner _ Hm) In). change (2 ^ 31) with 2147483648 in *.
  rewrite sub64_small by (eval_pows; lia). by rewrite Z.add_simpl_r.
Qed.
End Fresh.

Lemma wp_live_any m (Q : bool -> mem_machine W -> Prop) :
  (forall b m', mo m' = mo m -> trace m' = trace m -> Q b m') -> wp live Q m.
Proof.
  intros HQ. unfold live, call_admitted. wp_steps; [|by apply HQ].
  apply wp_call_any. intros. by apply HQ.
Qed.

Lemma allocate_ok own n m0 :
  minv m0 -> 0 <= n -> wp (allocate read64 own n) (fun _ => step_ok m0) m0.
Proof.
  intros Hm Hn0. pose proof (mi_owner _ Hm) as Ho. unfold allocate, not_live.
  do 3 wp_step; [by wp_step; apply step_ok_refl|]. apply negb_false_iff in Hcond.
  wp_step; [by wp_step; apply step_ok_refl|].
  apply orb_false_iff in Hcond0 as [[[Hown Hnz]%orb_false_iff Hpg]%orb_false_iff Hal]. zbool.
  pose proof (oi_limits _ Ho Hcond) as Hd. unfold device_invalid in Hd. zbool.
  pose proof (charged_range _ Ho Hcond) as Hch. change (2 ^ 31) with 2147483648 in *.
  wp_step. apply wp_live_any. intros alive m Em Et.
  wp_step; [wp_steps; by apply step_ok_world|].
  wp_step; [wp_steps; by apply step_ok_world|].
  apply orb_false_iff in Hcond1 as [[Hg _]%orb_false_iff Hcap]. zbool.
  destruct (first_empty (slots_ (mo m0))) as [i|] eqn:Ef; [|wp_steps; by apply step_ok_world].
  apply first_empty_some in Ef; [|done]. pose proof (oi_generation _ Ho). unfold U64_MAX in *.
  unfold upd_slot, upd. do 4 wp_step.
  apply alloc_tail; try done; cbn; [lia|by apply test_page|lia|].
  rewrite Em. unfold taken. rewrite !add64_small by (eval_pows; lia). cbn. do 3 f_equal.
  rewrite <- (list_insert_id _ _ _ Ef) at 1. apply alter_insert. by eapply lookup_lt_Some.
Qed.

(** * Initialization *)

Lemma initialize_ok d l b m0 :
  minv m0 -> 0 <= maxTotalBytes l -> wp (initialize d l b) (fun _ => step_ok m0) m0.
Proof.
  intros Hm Hl. unfold initialize, upd. do 3 wp_step; [by wp_step; apply step_ok_refl|].
  wp_step; [by wp_step; apply step_ok_refl|]. wp_step; [by wp_step; apply step_ok_refl|].
  wp_step. apply wp_call_any. intros ok w. wp_step; [wp_step; by apply step_ok_world|].
  wp_steps. destruct Hm as [Ho A B C D]. destruct (oi_fresh _ Ho Hcond) as [El _].
  split; [|done]. split; try done; cbn.
  destruct Ho as [O1 O2 O3 O4 O5 O6 O7 O8]. split; cbn; try done.
  - rewrite El. intros i s (-> & _)%lookup_replicate. done.
  - by rewrite El.
Qed.
End Admission.

(** * Reachable states *)

Section Reach.
Context {W : Type} (read64 : Z -> W -> Z).
Implicit Types (t : MemoryOwner W) (m : mem_machine W).

(** Any operation of any client, and any change of the world between two of them; [rel]
    says which owners may give back holds. *)
Inductive mem_step_by (rel : Z -> Prop) : mem_machine W -> mem_machine W -> Prop :=
  | ms_initialize d l b m : 0 <= maxTotalBytes l -> mem_step_by rel m (initialize d l b m).2
  | ms_allocate own n m : 0 <= n -> mem_step_by rel m (allocate read64 own n m).2
  | ms_map own h wr m : 0 <= slot h -> mem_step_by rel m (map read64 own h wr m).2
  | ms_retain own h m : 0 <= slot h -> mem_step_by rel m (retain read64 own h m).2
  | ms_release own h m : rel own -> 0 <= slot h -> mem_step_by rel m (release own h m).2
  | ms_sync own h d m : 0 <= slot h -> mem_step_by rel m (sync read64 own h d m).2
  | ms_synchronizeRetained own h d m :
      0 <= slot h -> mem_step_by rel m (synchronizeRetained read64 own h d m).2
  | ms_retire own h m : 0 <= slot h -> mem_step_by rel m (retire read64 own h m).2
  | ms_quiesce m : mem_step_by rel m (quiesce m).2
  | ms_close m : mem_step_by rel m (close read64 m).2
  | ms_world w m : mem_step_by rel m {| mo := mo m; world := w; trace := trace m |}.

Definition mem_step : mem_machine W -> mem_machine W -> Prop := mem_step_by (fun _ => True).

Definition mem_start (w : W) : mem_machine W := {| mo := new_owner; world := w; trace := [] |}.

Definition mem_reachable m : Prop := exists w, rtc mem_step (mem_start w) m.

Lemma mem_start_minv w : minv (mem_start w).
Proof.
  assert (Hs : forall i s, slots_ (mo (mem_start w)) !! i = Some s -> s = no_slot).
  { intros i s H. change (replicate MaxAllocations no_slot !! i = Some s) in H.
    by apply lookup_replicate in H as [-> _]. }
  split; try done.
  - split; try done.
    + intros i s Hi%Hs. done.
    + intros i j s o _ Hi%Hs. done.
  - intros i s Hi%Hs. done.
Qed.

Lemma holds_changed_le m0 m own h d o h' :
  holds_changed m0 m own h d -> 0 <= d \/ o <> own -> held (mo m0) o h' <= held (mo m) o h'.
Proof. intros [_ Hh] Hd. rewrite Hh. case_decide as E; [|lia]. destruct E as [_ ->], Hd; [lia|done]. Qed.

(** A step keeps the invariant, and the holds of the owners that may not release. *)
Lemma mem_step_keeps rel m m' :
  minv m -> mem_step_by rel m m' ->
  minv m' /\ forall own, ~ rel own -> forall h, held (mo m) own h <= held (mo m') own h.
Proof.
  assert (Hok : forall m', step_ok m m' -> minv m' /\ forall own, ~ rel own -> forall h,
    held (mo m) own h <= held (mo m') own h).
  { intros m1 [H1 H2]. split; [done|]. intros. by rewrite H2. }
  intros Hm Hs. destruct Hs.
  - by apply Hok, (wp_run _ _ _ (initialize_ok d l b m Hm H)).
  - by apply Hok, (wp_run _ _ _ (allocate_ok read64 own n m Hm H)).
  - by apply Hok, (wp_run _ _ _ (map_ok read64 own h wr m Hm H)).
  - pose proof (wp_run _ _ _ (retain_ok read64 own h m Hm H)) as [[_ Hh]|[_ Hh]]; [|by apply Hok].
    split; [apply Hh|]. intros o _ h'. eapply holds_changed_le; [done|by left].
  - pose proof (wp_run _ _ _ (release_ok own h m Hm H0)) as [(_ & _ & Hh)|(_ & _ & ->)]; [|done].
    split; [apply Hh|]. intros o Ho h'. eapply holds_changed_le; [done|]. right. by intros ->.
  - by apply Hok, (wp_run _ _ _ (sync_ok read64 own h d m Hm H)).
  - by apply Hok, (wp_run _ _ _ (synchronizeRetained_ok read64 own h d m Hm H)).
  - by apply Hok, (wp_run _ _ _ (retire_ok read64 own h m Hm H)).
  - apply Hok. by apply (wp_run _ _ _ (quiesce_ok m Hm)).
  - apply Hok. by apply (wp_run _ _ _ (close_ok read64 m Hm)).
  - by apply Hok, step_ok_world.
Qed.

Lemma mem_reachable_minv m : mem_reachable m -> minv m.
Proof.
  intros [w Hr]. refine (rtc_ind_r (fun m => minv m) (mem_start w) _ _ m Hr); [apply mem_start_minv|].
  intros m1 m2 _ Hs Hm. by eapply mem_step_keeps.
Qed.

(** The handles that were pinned. *)
Definition pinned_handles (tr : list mem_event) : list MemoryHandle :=
  omap (fun ev => match ev with EvPin h _ => Some h | _ => None end) tr.

Lemma legal_pinned tr h : legal_trace tr -> phase_of h tr <> PNone <-> h ∈ pinned_handles tr.
Proof.
  induction tr as [|ev tr IH]; [split; [done|by intros ?%elem_of_nil]|]. intros [He Ht]. specialize (IH Ht).
  destruct ev as [h' st|h' st|h' d st|h' st g|h' st|h' r|q]; cbn [phase_of phase_step legal_event] in *; try exact IH.
  - change (pinned_handles (EvPin h' st :: tr)) with (h' :: pinned_handles tr). rewrite elem_of_cons.
    destruct (decide (h' = h)) as [->|]; naive_solver.
  - change (pinned_handles (EvUnpin h' st :: tr)) with (pinned_handles tr). rewrite <- IH.
    destruct (decide (h' = h)) as [->|]; [|done]. rewrite He. by destruct (isOk st).
  - change (pinned_handles (EvMap h' st g :: tr)) with (pinned_handles tr). rewrite <- IH.
    destruct (decide (h' = h)) as [->|]; [|done]. rewrite He. destruct (isOk st); [done|]. by destruct (bool_decide (st = Unavailable) && empty_mapping g).
  - change (pinned_handles (EvUnmap h' st :: tr)) with (pinned_handles tr). rewrite <- IH.
    destruct (decide (h' = h)) as [->|]; [|done]. destruct (isOk st), He as [[-> _]|[[-> | ->] _]]; done.
Qed.

Lemma legal_pinned_once tr : legal_trace tr -> NoDup (pinned_handles tr).
Proof.
  induction tr as [|ev tr IH]; [constructor|]. intros [He Ht]. specialize (IH Ht). destruct ev; try exact IH.
  cbn. apply list.NoDup_cons. split; [|done]. rewrite <- (legal_pinned _ _ Ht). by intros [].
Qed.

(** [C20] In every state that operations reach, whatever the backend returns: what is
    charged is the sum of the allocations in use and stays within the limit; no handle is
    ever given to the backend for two allocations, and an allocation in use has the handle it
    was pinned with, which names its slot.  Unless the owner has quarantined it, because
    the backend failed or returned something invalid, an allocation in use has a pin of its
    size at a page-aligned CPU range that does not wrap around, and a mapped one has a
    page-aligned GPU range of its size, not at page zero and below the address limit; two of
    them have disjoint CPU ranges and, if both are mapped, disjoint GPU ranges. *)
Theorem owner_isolation m :
  mem_reachable m ->
  charged_ (mo m) = total (slots_ (mo m)) /\ charged_ (mo m) <= maxTotalBytes (limits_ (mo m)) /\
  NoDup (pinned_handles (trace m)) /\
  (forall i s, slots_ (mo m) !! i = Some s -> s <> no_slot ->
     handle (view s) ∈ pinned_handles (trace m) /\ slot (handle (view s)) = Z.of_nat i /\
     (settled s -> pin_good (registryId (device_ (mo m))) s) /\ (gpu_live s -> map_good (gpu_limit (mo m)) s)) /\
  (forall i j s o, i <> j -> slots_ (mo m) !! i = Some s -> slots_ (mo m) !! j = Some o ->
     s <> no_slot -> o <> no_slot -> compatible s o).
Proof.
  intros Hr. pose proof (mem_reachable_minv _ Hr) as Hm. pose proof (mi_owner _ Hm) as Ho.
  pose proof (oi_charged _ Ho) as Hc. pose proof (oi_total _ Ho).
  split_and!; [done|lia|apply legal_pinned_once, Hm| |by apply Ho].
  intros i s Hi Hn. pose proof (oi_slots _ Ho _ _ Hi Hn) as Hsl. split_and!; [|by destruct (si_handle _ _ _ Hsl) as (g & -> & _)|apply Hsl..].
  apply legal_pinned; [apply Hm|]. destruct (mi_phase _ Hm _ _ Hi Hn) as [P1 P2 _].
  destruct (mapAttempted s); [destruct (P2 eq_refl) as [->|[-> _]]|rewrite P1]; done.
Qed.

(** [C21] The backend is called in a legal order in every run: an allocation is mapped only
    while it is pinned, unmapped only right after the backend confirmed that no consumer
    is left or after everything was quiesced, and unpinned only when it is not mapped; and
    while a job holds an allocation it is mapped, with no attempt to unmap it since. *)
Theorem owner_protocol m :
  mem_reachable m ->
  legal_trace (trace m) /\
  forall i s, slots_ (mo m) !! i = Some s -> 0 < jobHolds (view s) ->
    phase_of (handle (view s)) (trace m) = PMapped.
Proof.
  intros Hr. pose proof (mem_reachable_minv _ Hr) as Hm. split; [apply Hm|]. intros i s Hi Hj.
  assert (Hn : s <> no_slot) by (intros ->; cbn in Hj; lia).
  by apply (sp_held _ _ (mi_phase _ Hm _ _ Hi Hn)).
Qed.

(** [C22] A [close] that succeeds has given everything back: the 32 rounds of its loop are
    enough to clean up every allocation, and nothing stays charged. *)
Theorem close_complete m :
  mem_reachable m -> closed_ (mo m) = false -> (close read64 m).1 = Ok ->
  slots_ (mo (close read64 m).2) = replicate MaxAllocations no_slot /\
  charged_ (mo (close read64 m).2) = 0.
Proof.
  intros Hr Hc Hok. pose proof (mem_reachable_minv _ Hr) as Hm.
  pose proof (wp_run _ _ _ (close_ok read64 m Hm)) as [[Hm' _] He]. specialize (He Hok Hc).
  split; [done|]. by rewrite (oi_charged _ (mi_owner _ Hm')), He.
Qed.
End Reach.

(** * Examples

    A backend that agrees to everything: pages at 0, CPU and GPU ranges of 16 MiB by
    generation. *)

Definition zero64 : Z -> unit -> Z := fun _ _ => 0.

Definition agreeable : MemoryBackend unit := {|
  b_admitted := Some (fun _ w => (true, w));
  b_pin := Some (fun d _ h n _ w => ((Ok, {|
    p_cookie := generation h; cpu := generation h * 2 ^ 24; pages := 8; pageCount := n / 4096;
    p_bytes := n; deviceRegistryId := registryId d |}), w));
  b_unpin := Some (fun _ _ _ p w => ((Ok, p), w));
  b_synchronize := Some (fun _ _ _ _ _ w => (Ok, w));
  b_map := Some (fun _ _ h p wr _ w => ((Ok, {|
    g_cookie := generation h; address := generation h * 2 ^ 24; g_bytes := p_bytes p; writable := wr |}), w));
  b_unmap := Some (fun _ _ _ _ g w => ((Ok, g), w));
  b_retired := Some (fun _ w => (true, w));
  b_quiesce := Some (fun _ w => (true, w)) |}.

Definition example_device : DeviceIdentity := {| vendor := 0x10de; device := 0x2684; registryId := 7; epoch := 1 |}.

Definition example_handle (i g : Z) : MemoryHandle :=
  {| slot := i; generation := g; h_registryId := 7; h_epoch := 1 |}.

(** Two allocations, both mapped, the first one held. *)
Definition example_held : mem_machine unit :=
  let m := (initialize example_device no_limits agreeable (mem_start tt)).2 in
  let m := (allocate zero64 5 8192 m).2 in
  let m := (allocate zero64 5 4096 m).2 in
  let m := (map zero64 5 (example_handle 0 1) true m).2 in
  let m := (map zero64 5 (example_handle 1 2) false m).2 in
  (retain zero64 5 (example_handle 0 1) m).2.

Lemma mem_reach_r m m' : mem_reachable zero64 m -> mem_step zero64 m m' -> mem_reachable zero64 m'.
Proof. intros [w Hr] Hs. exists w. by eapply rtc_r. Qed.

Lemma example_held_reachable : mem_reachable zero64 example_held.
Proof.
  unfold example_held. cbv zeta.
  eapply mem_reach_r; [|apply ms_retain; cbn; lia].
  do 2 (eapply mem_reach_r; [|apply ms_map; cbn; lia]).
  do 2 (eapply mem_reach_r; [|apply ms_allocate; lia]).
  eapply mem_reach_r; [|apply ms_initialize; cbn; lia]. exists tt. apply rtc_refl.
Qed.

Lemma owner_isolation_witness :
  mem_reachable zero64 example_held /\ charged_ (mo example_held) = 12288 /\
  charged_ (mo example_held) = total (slots_ (mo example_held)).
Proof.
  split; [apply example_held_reachable|]. split; [vm_compute; reflexivity|].
  exact (proj1 (owner_isolation zero64 example_held example_held_reachable)).
Defined.

Lemma owner_protocol_witness :
  (exists s, slots_ (mo example_held) !! 0%nat = Some s /\ jobHolds (view s) = 1 /\
    phase_of (handle (view s)) (trace example_held) = PMapped) /\ legal_trace (trace example_held).
Proof.
  destruct (owner_protocol zero64 example_held example_held_reachable) as [Hl Hh]. split; [|exact Hl].
  destruct (slots_ (mo example_held) !! 0%nat) as [s|] eqn:E; [|vm_compute in E; discriminate E].
  assert (Hj : jobHolds (view s) = 1) by (vm_compute in E; injection E as <-; reflexivity).
  exists s. split; [reflexivity|]. split; [exact Hj|]. apply (Hh 0%nat s E). rewrite Hj. lia.
Defined.

(** Once the hold is released everything can be closed. *)
Lemma close_complete_witness :
  let m := (release 5 (example_handle 0 1) example_held).2 in
  allocations (mo m) = 2 /\ (close zero64 m).1 = Ok /\ charged_ (mo (close zero64 m).2) = 0.
Proof.
  split; [vm_compute; reflexivity|]. split; [vm_compute; reflexivity|].
  refine (proj2 (close_complete zero64 (release 5 (example_handle 0 1) example_held).2 _ _ _)).
  - eapply mem_reach_r; [apply example_held_reachable|]. apply ms_release; [done|]. cbn. lia.
  - vm_compute. reflexivity.
  - vm_compute. reflexivity.
Defined.
