(* ===== verification/NvCommand.v ===== *)
(** The command encodings of [Drivers/PortedNvidia/CommandEncoding.cpp]: GPFIFO entries
    and method headers, with what a channel makes of them. *)
From stdpp Require Import base numbers list.
From S2P Require Import Prelude.
From S2P Require Import StateWp.

Module PortedNvidia.

(** Enumerations with an underlying type can hold any of its values. *)
Definition ChannelClass := Z.
Definition MaxwellA : ChannelClass := 0xB06F.
Definition PascalA : ChannelClass := 0xC06F.
Definition VoltaA : ChannelClass := 0xC36F.
Definition TuringA : ChannelClass := 0xC46F.
Definition AmpereA : ChannelClass := 0xC56F.
Definition HopperA : ChannelClass := 0xC86F.
Definition BlackwellA : ChannelClass := 0xC96F.
Definition BlackwellB : ChannelClass := 0xCA6F.

Inductive Status :=
  | Ok | UnknownClass | InvalidAddress | InvalidLength | InvalidSync | InvalidMethod
  | InvalidSubchannel | InvalidCount | InvalidMode | UnsupportedOperation | SegmentBoundary.

Definition Sync := Z.
Definition Proceed : Sync := 0.
Definition Wait : Sync := 1.

Definition MethodMode := Z.
Definition Incrementing : MethodMode := 1.
Definition NonIncrementing : MethodMode := 3.
Definition Immediate : MethodMode := 4.
Definition OneIncrement : MethodMode := 5.

Record GpfifoEntry := { lower : Z; upper : Z }.
Record GpfifoSegment := { setBase : GpfifoEntry; pushbuffer : GpfifoEntry }.

Definition GpfifoAddressMax : Z := 0xFFFFFFFFFF.
Definition GpfifoBytesMax : Z := 0x7FFFFC.
Definition SegmentAddressMax : Z := 0x1FFFFFFFFFFFFFF.
Definition MethodAddressMax : Z := 0x3FFC.
Definition MethodCountMax : Z := 0x1FFF.

Definition knownFormat (channel : ChannelClass) : bool :=
  existsb (Z.eqb channel)
    [MaxwellA; PascalA; VoltaA; TuringA; AmpereA; HopperA; BlackwellA; BlackwellB].

Definition extendedFormat (channel : ChannelClass) : bool :=
  (channel =? HopperA) || (channel =? BlackwellA) || (channel =? BlackwellB).

(** * Encoders

    The output is an argument, returned unchanged on failure. *)

Definition packGpfifoPushbuffer (address bytes : Z) (sync : Sync) (out : GpfifoEntry) : Status * GpfifoEntry :=
  if test address 3 || (GpfifoAddressMax <? address) then (InvalidAddress, out) else
  if (bytes =? 0) || test bytes 3 || (GpfifoBytesMax <? bytes) then (InvalidLength, out) else
  if GpfifoAddressMax - address <? bytes - 1 then (InvalidAddress, out) else
  if negb (sync =? Proceed) && negb (sync =? Wait) then (InvalidSync, out) else
  (Ok, {| lower := wrap 32 address;
          upper := wrap 32 (Z.shiftr address 32) |||
                   wrap 32 (Z.shiftl (wrap 32 (Z.shiftr bytes 2)) 10) |||
                   wrap 32 (Z.shiftl sync 31) |}).

Definition encodeGpfifoPushbuffer (channel : ChannelClass) (address bytes : Z) (sync : Sync) (out : GpfifoEntry)
    : Status * GpfifoEntry :=
  if negb (knownFormat channel) then (UnknownClass, out) else
  if extendedFormat channel then (UnsupportedOperation, out) else
  packGpfifoPushbuffer address bytes sync out.

Definition encodeGpfifoNop (channel : ChannelClass) (out : GpfifoEntry) : Status * GpfifoEntry :=
  if negb (knownFormat channel) then (UnknownClass, out) else
  (Ok, {| lower := 0; upper := 0 |}).

Definition no_entry : GpfifoEntry := {| lower := 0; upper := 0 |}.

Definition encodeGpfifoSegment (channel : ChannelClass) (address bytes : Z) (sync : Sync) (out : GpfifoSegment)
    : Status * GpfifoSegment :=
  if negb (knownFormat channel) then (UnknownClass, out) else
  if negb (extendedFormat channel) then (UnsupportedOperation, out) else
  if test address 3 || (SegmentAddressMax <? address) then (InvalidAddress, out) else
  if (bytes =? 0) || test bytes 3 || (GpfifoBytesMax <? bytes) then (InvalidLength, out) else
  let lowAddress := Z.land address GpfifoAddressMax in
  if GpfifoAddressMax - lowAddress <? bytes - 1 then (SegmentBoundary, out) else
  match packGpfifoPushbuffer lowAddress bytes sync no_entry with
  | (Ok, e) =>
      (Ok, {| setBase := {| lower := wrap 32 (Z.shiftl (wrap 32 (Z.shiftr address 40)) 8); upper := 4 |};
              pushbuffer := e |})
  | (s, _) => (s, out)
  end.

(** The eight bytes in memory. *)
Definition writeGpfifoLittleEndian (e : GpfifoEntry) : list Z :=
  ((fun k => wrap 8 (Z.shiftr (lower e) (8 * k))) <$> [0; 1; 2; 3]) ++
  ((fun k => wrap 8 (Z.shiftr (upper e) (8 * k))) <$> [0; 1; 2; 3]).

Definition encodeMethodHeader (channel : ChannelClass) (mode : MethodMode) (address subchannel count out : Z)
    : Status * Z :=
  if negb (knownFormat channel) then (UnknownClass, out) else
  if test address 3 || (MethodAddressMax <? address) then (InvalidMethod, out) else
  if 7 <? subchannel then (InvalidSubchannel, out) else
  if MethodCountMax <? count then (InvalidCount, out) else
  let index := Z.shiftr address 2 in
  let encoded := index ||| wrap 32 (Z.shiftl subchannel 13) ||| wrap 32 (Z.shiftl count 16) |||
                 wrap 32 (Z.shiftl mode 29) in
  if mode =? Incrementing then
    if 0x1000 - index <? count then (InvalidMethod, out) else (Ok, encoded)
  else if mode =? OneIncrement then
    if (1 <? count) && (index =? 0xFFF) then (InvalidMethod, out) else (Ok, encoded)
  else if (mode =? NonIncrementing) || (mode =? Immediate) then (Ok, encoded)
  else (InvalidMode, out).

(** * What the channel does with entries

    An entry with a length is a fetch of that many words, from the address of the entry
    within the current segment; one without is a control entry, of which NOP and
    SET_PB_SEGMENT_EXTENDED_BASE are used. *)

Record fetch := { f_address : Z; f_bytes : Z; f_sync : Z }.

Definition entry_length (e : GpfifoEntry) : Z := Z.land (Z.shiftr (upper e) 10) 0x1fffff.
Definition entry_get (e : GpfifoEntry) : Z := Z.ldiff (lower e) 3 + Z.land (upper e) 0xff * 2 ^ 32.

Fixpoint run_entries (base : Z) (es : list GpfifoEntry) : option (list fetch) :=
  match es with
  | [] => Some []
  | e :: es =>
      if entry_length e =? 0 then
        let opcode := Z.land (upper e) 0xff in
        if opcode =? 0 then run_entries base es
        else if opcode =? 4 then run_entries (Z.land (Z.shiftr (lower e) 8) 0x1ffff) es
        else None
      else
        fs ← run_entries base es;
        Some ({| f_address := base * 2 ^ 40 + entry_get e; f_bytes := 4 * entry_length e;
                 f_sync := Z.shiftr (upper e) 31 |} :: fs)
  end.

(** An entry as the channel reads it from memory. *)
Definition le_word (bs : list Z) : Z := foldr (fun b w => b + 256 * w) 0 bs.
Definition read_entry (bs : list Z) : GpfifoEntry :=
  {| lower := le_word (take 4 bs); upper := le_word (drop 4 bs) |}.

(** ** Fields of words *)

Lemma test3_divide x : test x 3 = false -> (4 | x).
Proof.
  unfold test. rewrite negb_false_iff, Z.eqb_eq. change 3 with (2 ^ 2 - 1).
  rewrite land_ones_low by lia. change 4 with (2 ^ 2). intros. apply Z.mod_divide; [lia|done].
Qed.

(** Words with disjoint bits add up. *)
Lemma land_disjoint a k n : 0 <= n -> word n a -> Z.land a (k * 2 ^ n) = 0.
Proof.
  intros Hn Ha. apply Z.bits_inj'. intros i Hi. rewrite Z.land_spec, Z.bits_0.
  destruct (Z.ltb_spec i n).
  - by rewrite Z.mul_pow2_bits_low, andb_false_r.
  - by rewrite (testbit_above n a) by (done || lia).
Qed.

Lemma lor_add a k n : 0 <= n -> word n a -> Z.lor a (k * 2 ^ n) = a + k * 2 ^ n.
Proof.
  intros Hn Ha. rewrite <- Z.lxor_lor by (by apply land_disjoint).
  symmetry. by apply Z.add_nocarry_lxor, land_disjoint.
Qed.

Lemma wrap_shiftl x n : 0 <= n -> 0 <= x -> x * 2 ^ n < 2 ^ 32 -> wrap 32 (Z.shiftl x n) = x * 2 ^ n.
Proof. intros. rewrite Z.shiftl_mul_pow2 by done. apply wrap_small. lia. Qed.

Lemma le_word_bytes x :
  word 32 x -> le_word ((fun k => wrap 8 (Z.shiftr x (8 * k))) <$> [0; 1; 2; 3]) = x.
Proof.
  intros [H0 H1]. cbn [fmap list_fmap le_word foldr]. unfold wrap. rewrite !Z.shiftr_div_pow2 by lia.
  change (2 ^ 32) with (256 * 256 * 256 * 256) in H1.
  change (2 ^ (8 * 0)) with 1. change (2 ^ (8 * 1)) with 256. change (2 ^ 8) with 256.
  change (2 ^ (8 * 2)) with (256 * 256). change (2 ^ (8 * 3)) with (256 * 256 * 256).
  rewrite Z.div_1_r, <- !Z.div_div by lia.
  pose proof (Z.div_mod x 256). pose proof (Z.div_mod (x / 256) 256).
  pose proof (Z.div_mod (x / 256 / 256) 256).
  rewrite (Z.mod_small (x / 256 / 256 / 256)); [lia|].
  rewrite !Z.div_div by lia. split; [apply Z.div_pos; lia|]. apply Z.div_lt_upper_bound; lia.
Qed.

Lemma entry_memory e : word 32 (lower e) -> word 32 (upper e) ->
  read_entry (writeGpfifoLittleEndian e) = e.
Proof.
  intros Hl Hu. unfold read_entry, writeGpfifoLittleEndian.
  rewrite take_app_length', drop_app_length', !le_word_bytes by done. by destruct e.
Qed.

(** The words of a fetch entry. *)
Definition fetch_entry (address bytes sync : Z) : GpfifoEntry :=
  {| lower := address mod 2 ^ 32;
     upper := address / 2 ^ 32 + bytes / 4 * 2 ^ 10 + sync * 2 ^ 31 |}.

Record fetch_ok (address bytes sync : Z) : Prop := {
  fk_address : 0 <= address /\ (4 | address);
  fk_bytes : 0 < bytes <= GpfifoBytesMax /\ (4 | bytes);
  fk_end : address + bytes <= 2 ^ 40;
  fk_sync : sync = Proceed \/ sync = Wait;
}.

Lemma pack_ok address bytes sync out e :
  word 64 address -> word 64 bytes -> packGpfifoPushbuffer address bytes sync out = (Ok, e) ->
  fetch_ok address bytes sync /\ e = fetch_entry address bytes sync.
Proof.
  intros [Ha _] [Hb _] H. unfold packGpfifoPushbuffer in H.
  case_if_in H as H1; [done|]. case_if_in H as H2; [done|]. case_if_in H as H3; [done|].
  case_if_in H as H4; [done|]. injection H as <-.
  apply orb_false_iff in H1 as [Ha4%test3_divide Ham%Z.ltb_ge].
  apply orb_false_iff in H2 as [[Hbz%Z.eqb_neq Hb4%test3_divide]%orb_false_iff Hbm%Z.ltb_ge].
  apply Z.ltb_ge in H3.
  assert (Hs : sync = Proceed \/ sync = Wait).
  { apply andb_false_iff in H4 as [H4|H4]; apply negb_false_iff, Z.eqb_eq in H4; auto. }
  unfold GpfifoAddressMax, GpfifoBytesMax in *.
  split; [split; unfold GpfifoBytesMax; try done; [split; [lia|done]|change (2 ^ 40) with 1099511627776; lia]|].
  unfold fetch_entry. f_equal.
  assert (Hq : 0 <= address / 2 ^ 32 < 256).
  { change (2 ^ 32) with 4294967296. split; [apply Z.div_pos; lia|apply Z.div_lt_upper_bound; lia]. }
  assert (Hl : 0 <= bytes / 4 < 2 ^ 21).
  { change (2 ^ 21) with 2097152. split; [apply Z.div_pos; lia|apply Z.div_lt_upper_bound; lia]. }
  rewrite !Z.shiftr_div_pow2 by lia. change (2 ^ 2) with 4.
  rewrite (wrap_small 32 (address / _)), (wrap_small 32 (bytes / 4)) by (eval_pows; lia).
  change (2 ^ 21) with 2097152 in *.
  assert (E1 : wrap 32 (Z.shiftl (bytes / 4) 10) = bytes / 4 * 2 ^ 10).
  { apply wrap_shiftl; [lia|lia|]. change (2 ^ 10) with 1024. eval_pows. lia. }
  assert (E2 : wrap 32 (Z.shiftl sync 31) = sync * 2 ^ 31) by (by destruct Hs; subst).
  rewrite E1, E2.
  rewrite (lor_add _ _ 10), (lor_add _ sync 31); try lia.
  - split; change (2 ^ 10) with 1024; change (2 ^ 31) with 2147483648; lia.
  - split; change (2 ^ 10) with 1024; lia.
Qed.

Section Fetch.
Context (address bytes sync : Z) (Hok : fetch_ok address bytes sync).
Local Notation e := (fetch_entry address bytes sync).

Lemma fetch_ranges : 0 <= address / 2 ^ 32 < 2 ^ 8 /\ 0 < bytes / 4 < 2 ^ 21 /\ 0 <= sync < 2.
Proof.
  destruct Hok as [[H1 _] [H2 [k Hk]] H3 H4]. unfold GpfifoBytesMax in *.
  change (2 ^ 40) with 1099511627776 in *. change (2 ^ 32) with 4294967296.
  change (2 ^ 8) with 256. change (2 ^ 21) with 2097152. split_and!.
  - apply Z.div_pos; lia.
  - apply Z.div_lt_upper_bound; lia.
  - rewrite Hk, Z.div_mul by lia. lia.
  - apply Z.div_lt_upper_bound; lia.
  - by destruct H4 as [-> | ->].
  - by destruct H4 as [-> | ->].
Qed.

Lemma fetch_words : word 32 (lower e) /\ word 32 (upper e).
Proof.
  destruct fetch_ranges as (H1 & H2 & H3). split; [apply Z.mod_pos_bound; lia|]. unfold word. cbn.
  change (2 ^ 8) with 256 in *. change (2 ^ 21) with 2097152 in *. change (2 ^ 10) with 1024.
  change (2 ^ 31) with 2147483648. change (2 ^ 32) with 4294967296 in *. lia.
Qed.

Lemma fetch_fields :
  entry_length e = bytes / 4 /\ Z.land (upper e) 0xff = address / 2 ^ 32 /\ Z.shiftr (upper e) 31 = sync /\
  Z.ldiff (lower e) 3 = address mod 2 ^ 32.
Proof.
  destruct fetch_ranges as (H1 & H2 & H3). unfold entry_length. cbn [upper lower fetch_entry].
  change 0xff with (2 ^ 8 - 1). change 0x1fffff with (2 ^ 21 - 1). rewrite !land_ones_low by lia.
  rewrite !Z.shiftr_div_pow2 by lia.
  change (2 ^ 31) with (2 ^ 21 * 2 ^ 10). change (2 ^ 8) with 256 in *. change (2 ^ 21) with 2097152 in *.
  change (2 ^ 10) with (256 * 4). split_and!.
  - replace (address / 2 ^ 32 + bytes / 4 * (256 * 4) + sync * (2097152 * (256 * 4)))
      with (address / 2 ^ 32 + (bytes / 4 + sync * 2097152) * (256 * 4)) by lia.
    rewrite Z.div_add, Z.div_small, Z.add_0_l by lia. rewrite Z.mod_add, Z.mod_small by lia. done.
  - replace (address / 2 ^ 32 + bytes / 4 * (256 * 4) + sync * (2097152 * (256 * 4)))
      with (address / 2 ^ 32 + (bytes / 4 * 4 + sync * (2097152 * 4)) * 256) by lia.
    rewrite Z.mod_add, Z.mod_small by lia. done.
  - rewrite Z.div_add, Z.div_small by lia. lia.
  - destruct Hok as [[_ [k Hk]] _ _ _]. change 3 with (2 ^ 2 - 1). rewrite Z.sub_1_r, <- Z.ones_equiv.
    rewrite Z.ldiff_ones_r, Z.shiftl_mul_pow2, Z.shiftr_div_pow2 by lia. change (2 ^ 2) with 4.
    assert (Hd : (address mod 2 ^ 32) mod 4 = 0).
    { rewrite Z.mod_mod_divide, Hk by (by exists 1073741824). apply Z.mod_mul. lia. }
    pose proof (Z.div_mod (address mod 2 ^ 32) 4). lia.
Qed.

(** The channel fetches what was encoded. *)
Lemma fetch_run base :
  run_entries base [read_entry (writeGpfifoLittleEndian e)] =
    Some [{| f_address := base * 2 ^ 40 + address; f_bytes := bytes; f_sync := sync |}].
Proof.
  destruct fetch_words as [W1 W2]. rewrite entry_memory by done. cbn [run_entries].
  destruct fetch_fields as (F1 & F2 & F3 & F4). destruct fetch_ranges as (H1 & H2 & H3).
  rewrite F1, (proj2 (Z.eqb_neq _ _)), F3 by lia. unfold entry_get. rewrite F2, F4. cbn.
  destruct Hok as [_ [_ [k Hk]] _ _]. do 3 f_equal.
  - rewrite (Z.div_mod address (2 ^ 32)) at 3 by lia. lia.
  - rewrite Hk, Z.div_mul by lia. lia.
Qed.
End Fetch.

Lemma pushbuffer_fetch channel address bytes sync out e :
  word 64 address -> word 64 bytes ->
  encodeGpfifoPushbuffer channel address bytes sync out = (Ok, e) ->
  run_entries 0 [read_entry (writeGpfifoLittleEndian e)] =
    Some [{| f_address := address; f_bytes := bytes; f_sync := sync |}] /\ address + bytes <= 2 ^ 40.
Proof.
  intros Ha Hb H. unfold encodeGpfifoPushbuffer in H.
  case_if_in H as H1; [done|]. case_if_in H as H2; [done|].
  destruct (pack_ok _ _ _ _ _ Ha Hb H) as [Hok ->]. split; [|apply Hok]. by rewrite fetch_run.
Qed.

(** The control entry that selects a segment. *)
Lemma base_run hi base es :
  0 <= hi < 2 ^ 17 ->
  run_entries base (read_entry (writeGpfifoLittleEndian
    {| lower := wrap 32 (Z.shiftl (wrap 32 hi) 8); upper := 4 |}) :: es) = run_entries hi es.
Proof.
  change (2 ^ 17) with 131072. intros Hh. rewrite (wrap_small 32 hi) by (eval_pows; lia).
  rewrite wrap_shiftl by (change (2 ^ 8) with 256; eval_pows; lia).
  rewrite entry_memory by (unfold word; cbn; change (2 ^ 8) with 256; eval_pows; lia).
  cbn [run_entries lower upper].
  change (run_entries (Z.land (Z.shiftr (hi * 2 ^ 8) 8) (2 ^ 17 - 1)) es = run_entries hi es).
  rewrite Z.shiftr_div_pow2, Z.div_mul, land_ones_low by lia.
  by rewrite Z.mod_small by (change (2 ^ 17) with 131072; lia).
Qed.

Lemma segment_run address bytes sync e :
  word 64 address -> word 64 bytes -> address <= SegmentAddressMax ->
  packGpfifoPushbuffer (Z.land address GpfifoAddressMax) bytes sync no_entry = (Ok, e) ->
  (forall base, run_entries base [read_entry (writeGpfifoLittleEndian
       {| lower := wrap 32 (Z.shiftl (wrap 32 (Z.shiftr address 40)) 8); upper := 4 |});
     read_entry (writeGpfifoLittleEndian e)] =
   Some [{| f_address := address; f_bytes := bytes; f_sync := sync |}]) /\
  address / 2 ^ 40 = (address + bytes - 1) / 2 ^ 40.
Proof.
  intros [Ha _] Hb Hm Hp. unfold SegmentAddressMax in Hm.
  change GpfifoAddressMax with (2 ^ 40 - 1) in Hp. rewrite land_ones_low in Hp by lia.
  pose proof (Z.mod_pos_bound address (2 ^ 40) ltac:(lia)) as Hl.
  pose proof (Z.div_mod address (2 ^ 40) ltac:(lia)) as Hd.
  apply pack_ok in Hp as [Hok ->]; [|unfold word; change (2 ^ 40) with 1099511627776 in *; eval_pows; lia|done].
  split.
  - intros base. rewrite Z.shiftr_div_pow2 by lia. rewrite base_run.
    + rewrite fetch_run by done. repeat f_equal. lia.
    + change (2 ^ 40) with 1099511627776 in *. change (2 ^ 17) with 131072.
      split; [apply Z.div_pos; lia|apply Z.div_lt_upper_bound; lia].
  - pose proof (fk_end _ _ _ Hok). pose proof (fk_bytes _ _ _ Hok).
    apply (Z.div_unique _ _ _ (address mod 2 ^ 40 + bytes - 1)); [left; lia|lia].
Qed.

(** [C23] What is encoded is what the channel fetches.  An entry accepted by
    [encodeGpfifoPushbuffer], written to memory and read back by the channel, fetches
    exactly the given address, length and synchronization, within 40 bits; the two
    entries of [encodeGpfifoSegment] do so whatever segment was selected before, within
    one segment; a refused request leaves the output as it was. *)
Theorem gpfifo_roundtrip (channel : ChannelClass) (address bytes : Z) (sync : Sync) :
  word 64 address -> word 64 bytes ->
  let f := {| f_address := address; f_bytes := bytes; f_sync := sync |} in
  let mem e := read_entry (writeGpfifoLittleEndian e) in
  (forall out s e, encodeGpfifoPushbuffer channel address bytes sync out = (s, e) ->
     (s = Ok -> run_entries 0 [mem e] = Some [f] /\ address + bytes <= 2 ^ 40) /\ (s <> Ok -> e = out)) /\
  (forall out s g, encodeGpfifoSegment channel address bytes sync out = (s, g) ->
     (s = Ok -> (forall base, run_entries base [mem (setBase g); mem (pushbuffer g)] = Some [f]) /\
                address / 2 ^ 40 = (address + bytes - 1) / 2 ^ 40) /\ (s <> Ok -> g = out)).
Proof.
  intros Ha Hb f mem. split.
  - intros out s e H. split.
    + intros ->. by eapply pushbuffer_fetch.
    + intros Hn. unfold encodeGpfifoPushbuffer in H.
      repeat (case_if_in H as Hc; [by injection H as <- <-|clear Hc]). unfold packGpfifoPushbuffer in H.
      repeat (case_if_in H as Hc; [by injection H as <- <-|clear Hc]). injection H as <- <-. done.
  - intros out s g H. unfold encodeGpfifoSegment in H.
    case_if_in H as H1; [by injection H as <- <-|]. case_if_in H as H2; [by injection H as <- <-|].
    case_if_in H as H3; [by injection H as <- <-|]. case_if_in H as H4; [by injection H as <- <-|].
    cbv zeta in H. case_if_in H as H5; [by injection H as <- <-|].
    destruct (packGpfifoPushbuffer _ _ _ _) as [s' e] eqn:Ep.
    destruct s'; injection H as <- <-; split; try done. intros _.
    apply orb_false_iff in H3 as [_ H3%Z.ltb_ge]. by apply segment_run.
Qed.

(** A fetch of 16 bytes beyond the first segment, on Hopper. *)
Definition example_segment : Status * GpfifoSegment :=
  encodeGpfifoSegment HopperA 0x1230000001000 16 Wait {| setBase := no_entry; pushbuffer := no_entry |}.

Lemma gpfifo_roundtrip_witness :
  example_segment.1 = Ok /\
  run_entries 5 [read_entry (writeGpfifoLittleEndian (setBase example_segment.2));
                 read_entry (writeGpfifoLittleEndian (pushbuffer example_segment.2))] =
    Some [{| f_address := 0x1230000001000; f_bytes := 16; f_sync := 1 |}].
Proof.
  assert (Ho : example_segment.1 = Ok) by (vm_compute; reflexivity). split; [exact Ho|].
  destruct (gpfifo_roundtrip HopperA 0x1230000001000 16 Wait) as [_ H].
  - split; vm_compute; congruence.
  - split; vm_compute; congruence.
  - refine (proj1 (proj1 (H {| setBase := no_entry; pushbuffer := no_entry |}
      example_segment.1 example_segment.2 _) Ho) 5). apply surjective_pairing.
Defined.
End PortedNvidia.
