(* ===== verification/GpFifoQueue.v ===== *)
(** The GPFIFO queue of [Drivers/NativeNvidia/GpFifoQueue.{hpp,cpp}]: publication of jobs
    to a channel and the lifetime of the memory they use.  The memory owner is used
    through the interface [MemoryInterface], which [MemoryOwner] implements. *)
From stdpp Require Import base numbers list.
From S2P Require Import Prelude.
From S2P Require Import MemoryOwner.
From S2P Require Import NvCommand.
Import MellowNative.

(** * The interface to the memory owner *)

(** The operations of [MemoryOwner] that the queue calls. *)
Class MemoryInterface (M : Type) := {
  mem_inspect : Z -> MemoryHandle -> ST M (MemoryStatus * MemoryView);
  mem_retain : Z -> MemoryHandle -> ST M MemoryStatus;
  mem_release : Z -> MemoryHandle -> ST M MemoryStatus;
  mem_synchronizeRetained : Z -> MemoryHandle -> CacheDirection -> ST M MemoryStatus;
}.

Module NativeNvidia.

(** * Data *)

Inductive QueueStatus :=
  | Ok | Unavailable | Invalid | UnsupportedClass | UnsupportedChannel | Ownership
  | MemoryFailure | Capacity | Busy | TransportFailure | PublicationUnknown
  | StaleToken | InvalidFence | SequenceExhausted | TimedOut | ClockRegression
  | QuiesceFailed.

#[export] Instance QueueStatus_eq_dec : EqDecision QueueStatus.
Proof. solve_decision. Defined.

Definition isOk (s : QueueStatus) : bool := match s with Ok => true | _ => false end.

Inductive Operation := Done | Rejected | Unknown.
Inductive ChannelMode := Ordinary | Proxy | Confidential | WorkLaunch | UnsupportedMode.
Inductive RingDomain := CoherentSystem | NoncoherentSystem | Video | UnsupportedDomain.
Inductive QueueState := Detached | Ready | NeedsReset.
Inductive JobState := Free | Submitted | JPublicationUnknown | Completed | JTimedOut | Reset.

#[export] Instance Operation_eq_dec : EqDecision Operation.
Proof. solve_decision. Defined.
#[export] Instance ChannelMode_eq_dec : EqDecision ChannelMode.
Proof. solve_decision. Defined.
#[export] Instance RingDomain_eq_dec : EqDecision RingDomain.
Proof. solve_decision. Defined.
#[export] Instance QueueState_eq_dec : EqDecision QueueState.
Proof. solve_decision. Defined.
#[export] Instance JobState_eq_dec : EqDecision JobState.
Proof. solve_decision. Defined.

Record FenceToken := { tk_generation : Z; sequence : Z }.

Record ChannelBinding := {
  cb_device : DeviceIdentity;
  cb_owner : Z;
  vm : Z;
  channel : Z;
  channelGeneration : Z;
  channelClass : Z;
  ringEntries : Z;
  ring : MemoryHandle;
  fence : MemoryHandle;
  ringOffset : Z;
  fenceOffset : Z;
}.

Record ChannelObservation := {
  ob_device : DeviceIdentity;
  ob_owner : Z;
  ob_vm : Z;
  ob_channel : Z;
  ob_channelGeneration : Z;
  ob_channelClass : Z;
  ob_ringEntries : Z;
  gpGet : Z;
  gpPut : Z;
  completedFence : Z;
  lastQueuedFence : Z;
  ob_mode : ChannelMode;
  ringDomain : RingDomain;
}.

Record PushbufferRange := { offset : Z; commandBytes : Z; capacityBytes : Z }.
Record DataResource := { d_handle : MemoryHandle; gpuWrites : bool }.

(** [resources] is a pointer to [resourceCount] elements; the null pointer is [None]. *)
Record SubmitRequest := {
  commands : MemoryHandle;
  range : PushbufferRange;
  resources : option (list DataResource);
  resourceCount : Z;
  rq_deadline : Z;
}.

Record JobResult := { jr_state : JobState; resourcesHeld : bool; jr_token : FenceToken }.

(** [held] lists the first [heldCount] elements of the array; the rest is never read. *)
Record Job := {
  token : FenceToken;
  jstate : JobState;
  deadline : Z;
  jheld : list MemoryHandle;
  ringPending : bool;
}.

Definition no_token : FenceToken := {| tk_generation := 0; sequence := 0 |}.
Definition no_job : Job := {| token := no_token; jstate := Free; deadline := 0; jheld := []; ringPending := false |}.
Definition no_binding : ChannelBinding := {|
  cb_device := no_device; cb_owner := 0; vm := 0; channel := 0; channelGeneration := 0;
  channelClass := 0; ringEntries := 0; ring := no_handle; fence := no_handle;
  ringOffset := 0; fenceOffset := 0 |}.

Definition set_token v (s : Job) : Job :=
  {| token := v; jstate := jstate s; deadline := deadline s; jheld := jheld s; ringPending := ringPending s |}.
Definition set_jstate v (s : Job) : Job :=
  {| token := token s; jstate := v; deadline := deadline s; jheld := jheld s; ringPending := ringPending s |}.
Definition set_deadline v (s : Job) : Job :=
  {| token := token s; jstate := jstate s; deadline := v; jheld := jheld s; ringPending := ringPending s |}.
Definition set_jheld v (s : Job) : Job :=
  {| token := token s; jstate := jstate s; deadline := deadline s; jheld := v; ringPending := ringPending s |}.
Definition set_ringPending v (s : Job) : Job :=
  {| token := token s; jstate := jstate s; deadline := deadline s; jheld := jheld s; ringPending := v |}.

Definition MaxJobs : nat := 32.
Definition MaxDataResources : Z := 8.
Definition MaxRingEntries : Z := 256.

(** * Predicates on values *)

Definition sameDevice (a b : DeviceIdentity) : bool :=
  (vendor a =? vendor b) && (device a =? device b) && (registryId a =? registryId b) && (epoch a =? epoch b).

Definition sameHandle (a b : MemoryHandle) : bool :=
  (slot a =? slot b) && (generation a =? generation b) && (h_registryId a =? h_registryId b) &&
  (h_epoch a =? h_epoch b).

Definition span (offset bytes limit : Z) : bool :=
  negb (bytes =? 0) && (offset <=? limit) && (bytes <=? limit - offset).

Definition gpuSpan (v : MemoryView) (offset n : Z) : bool :=
  span offset n (bytes v) && span offset n (g_bytes (mapping v)) &&
  (address (mapping v) <=? U64_MAX - offset) &&
  (n - 1 <=? U64_MAX - (address (mapping v) +64 offset)).

(** * The queue

    [M] is the memory owner and [W] the world of the channel.  What the queue does to
    ring memory and to the channel is recorded, newest first. *)

Inductive q_event :=
  | EvClaim (r : Operation)
  | EvSeal (j : nat) (t : FenceToken) (allocations : list MemoryHandle) (r : QueueStatus)
  | EvRingStore (address : Z) (bs : list Z)
  | EvBeforePut (r : QueueStatus)
  | EvWritePut (newPut : Z) (r : Operation)
  | EvAfterPut (r : QueueStatus)
  | EvToken (r : QueueStatus)
  | EvDoorbell (t : Z) (r : Operation)
  | EvFence (gen payload : Z) (r : QueueStatus)
  | EvQuiesce (b : bool)
  | EvRelease (r : Operation).

Section Queue.
Context {M W : Type} `{!MemoryInterface M}.

Record QueueTransport := {
  context : Z;
  t_claim : option (ChannelBinding -> MemoryView -> MemoryView -> W -> (Operation * ChannelObservation) * W);
  t_sealPushbuffer : option (ChannelBinding -> MemoryView -> PushbufferRange -> list MemoryView -> Z -> Z ->
    W -> (QueueStatus * Z) * W);
  t_beforePut : option (ChannelBinding -> W -> QueueStatus * W);
  t_writePut : option (ChannelBinding -> Z -> W -> Operation * W);
  t_afterPut : option (ChannelBinding -> W -> QueueStatus * W);
  t_readCurrentToken : option (ChannelBinding -> W -> (QueueStatus * Z) * W);
  t_ringDoorbell : option (ChannelBinding -> Z -> W -> Operation * W);
  t_readCompletedFence : option (ChannelBinding -> MemoryView -> W -> (QueueStatus * Z) * W);
  t_quiesce : option (ChannelBinding -> W -> bool * W);
  t_releaseChannel : option (ChannelBinding -> W -> Operation * W);
}.

Record GpFifoQueue := {
  transport_ : QueueTransport;
  binding_ : ChannelBinding;
  ring_ : MemoryView;
  fence_ : MemoryView;
  jobs_ : list Job;
  state_ : QueueState;
  qgeneration_ : Z;
  lastTime_ : Z;
  put_ : Z;
  pending_ : Z;
  nextSequence_ : Z;
  completed_ : Z;
  ringHeld_ : bool;
  fenceHeld_ : bool;
  claimed_ : bool;
  stopped_ : bool;
  clockSet_ : bool;
  bindingVerified_ : bool;
}.

(** The constructor. *)
Definition new_queue (transport : QueueTransport) : GpFifoQueue := {|
  transport_ := transport; binding_ := no_binding; ring_ := no_view; fence_ := no_view;
  jobs_ := replicate MaxJobs no_job; state_ := Detached; qgeneration_ := 1; lastTime_ := 0;
  put_ := 0; pending_ := 0; nextSequence_ := 0; completed_ := 0; ringHeld_ := false;
  fenceHeld_ := false; claimed_ := false; stopped_ := false; clockSet_ := false;
  bindingVerified_ := false |}.

Definition set_transport_ v (s : GpFifoQueue) : GpFifoQueue :=
  {| transport_ := v; binding_ := binding_ s; ring_ := ring_ s; fence_ := fence_ s; jobs_ := jobs_ s; state_ := state_ s; qgeneration_ := qgeneration_ s; lastTime_ := lastTime_ s; put_ := put_ s; pending_ := pending_ s; nextSequence_ := nextSequence_ s; completed_ := completed_ s; ringHeld_ := ringHeld_ s; fenceHeld_ := fenceHeld_ s; claimed_ := claimed_ s; stopped_ := stopped_ s; clockSet_ := clockSet_ s; bindingVerified_ := bindingVerified_ s |}.
Definition set_binding_ v (s : GpFifoQueue) : GpFifoQueue :=
  {| transport_ := transport_ s; binding_ := v; ring_ := ring_ s; fence_ := fence_ s; jobs_ := jobs_ s; state_ := state_ s; qgeneration_ := qgeneration_ s; lastTime_ := lastTime_ s; put_ := put_ s; pending_ := pending_ s; nextSequence_ := nextSequence_ s; completed_ := completed_ s; ringHeld_ := ringHeld_ s; fenceHeld_ := fenceHeld_ s; claimed_ := claimed_ s; stopped_ := stopped_ s; clockSet_ := clockSet_ s; bindingVerified_ := bindingVerified_ s |}.
Definition set_ring_ v (s : GpFifoQueue) : GpFifoQueue :=
  {| transport_ := transport_ s; binding_ := binding_ s; ring_ := v; fence_ := fence_ s; jobs_ := jobs_ s; state_ := state_ s; qgeneration_ := qgeneration_ s; lastTime_ := lastTime_ s; put_ := put_ s; pending_ := pending_ s; nextSequence_ := nextSequence_ s; completed_ := completed_ s; ringHeld_ := ringHeld_ s; fenceHeld_ := fenceHeld_ s; claimed_ := claimed_ s; stopped_ := stopped_ s; clockSet_ := clockSet_ s; bindingVerified_ := bindingVerified_ s |}.
Definition set_fence_ v (s : GpFifoQueue) : GpFifoQueue :=
  {| transport_ := transport_ s; binding_ := binding_ s; ring_ := ring_ s; fence_ := v; jobs_ := jobs_ s; state_ := state_ s; qgeneration_ := qgeneration_ s; lastTime_ := lastTime_ s; put_ := put_ s; pending_ := pending_ s; nextSequence_ := nextSequence_ s; completed_ := completed_ s; ringHeld_ := ringHeld_ s; fenceHeld_ := fenceHeld_ s; claimed_ := claimed_ s; stopped_ := stopped_ s; clockSet_ := clockSet_ s; bindingVerified_ := bindingVerified_ s |}.
Definition set_jobs_ v (s : GpFifoQueue) : GpFifoQueue :=
  {| transport_ := transport_ s; binding_ := binding_ s; ring_ := ring_ s; fence_ := fence_ s; jobs_ := v; state_ := state_ s; qgeneration_ := qgeneration_ s; lastTime_ := lastTime_ s; put_ := put_ s; pending_ := pending_ s; nextSequence_ := nextSequence_ s; completed_ := completed_ s; ringHeld_ := ringHeld_ s; fenceHeld_ := fenceHeld_ s; claimed_ := claimed_ s; stopped_ := stopped_ s; clockSet_ := clockSet_ s; bindingVerified_ := bindingVerified_ s |}.
Definition set_state_ v (s : GpFifoQueue) : GpFifoQueue :=
  {| transport_ := transport_ s; binding_ := binding_ s; ring_ := ring_ s; fence_ := fence_ s; jobs_ := jobs_ s; state_ := v; qgeneration_ := qgeneration_ s; lastTime_ := lastTime_ s; put_ := put_ s; pending_ := pending_ s; nextSequence_ := nextSequence_ s; completed_ := completed_ s; ringHeld_ := ringHeld_ s; fenceHeld_ := fenceHeld_ s; claimed_ := claimed_ s; stopped_ := stopped_ s; clockSet_ := clockSet_ s; bindingVerified_ := bindingVerified_ s |}.
Definition set_qgeneration_ v (s : GpFifoQueue) : GpFifoQueue :=
  {| transport_ := transport_ s; binding_ := binding_ s; ring_ := ring_ s; fence_ := fence_ s; jobs_ := jobs_ s; state_ := state_ s; qgeneration_ := v; lastTime_ := lastTime_ s; put_ := put_ s; pending_ := pending_ s; nextSequence_ := nextSequence_ s; completed_ := completed_ s; ringHeld_ := ringHeld_ s; fenceHeld_ := fenceHeld_ s; claimed_ := claimed_ s; stopped_ := stopped_ s; clockSet_ := clockSet_ s; bindingVerified_ := bindingVerified_ s |}.
Definition set_lastTime_ v (s : GpFifoQueue) : GpFifoQueue :=
  {| transport_ := transport_ s; binding_ := binding_ s; ring_ := ring_ s; fence_ := fence_ s; jobs_ := jobs_ s; state_ := state_ s; qgeneration_ := qgeneration_ s; lastTime_ := v; put_ := put_ s; pending_ := pending_ s; nextSequence_ := nextSequence_ s; completed_ := completed_ s; ringHeld_ := ringHeld_ s; fenceHeld_ := fenceHeld_ s; claimed_ := claimed_ s; stopped_ := stopped_ s; clockSet_ := clockSet_ s; bindingVerified_ := bindingVerified_ s |}.
Definition set_put_ v (s : GpFifoQueue) : GpFifoQueue :=
  {| transport_ := transport_ s; binding_ := binding_ s; ring_ := ring_ s; fence_ := fence_ s; jobs_ := jobs_ s; state_ := state_ s; qgeneration_ := qgeneration_ s; lastTime_ := lastTime_ s; put_ := v; pending_ := pending_ s; nextSequence_ := nextSequence_ s; completed_ := completed_ s; ringHeld_ := ringHeld_ s; fenceHeld_ := fenceHeld_ s; claimed_ := claimed_ s; stopped_ := stopped_ s; clockSet_ := clockSet_ s; bindingVerified_ := bindingVerified_ s |}.
Definition set_pending_ v (s : GpFifoQueue) : GpFifoQueue :=
  {| transport_ := transport_ s; binding_ := binding_ s; ring_ := ring_ s; fence_ := fence_ s; jobs_ := jobs_ s; state_ := state_ s; qgeneration_ := qgeneration_ s; lastTime_ := lastTime_ s; put_ := put_ s; pending_ := v; nextSequence_ := nextSequence_ s; completed_ := completed_ s; ringHeld_ := ringHeld_ s; fenceHeld_ := fenceHeld_ s; claimed_ := claimed_ s; stopped_ := stopped_ s; clockSet_ := clockSet_ s; bindingVerified_ := bindingVerified_ s |}.
Definition set_nextSequence_ v (s : GpFifoQueue) : GpFifoQueue :=
  {| transport_ := transport_ s; binding_ := binding_ s; ring_ := ring_ s; fence_ := fence_ s; jobs_ := jobs_ s; state_ := state_ s; qgeneration_ := qgeneration_ s; lastTime_ := lastTime_ s; put_ := put_ s; pending_ := pending_ s; nextSequence_ := v; completed_ := completed_ s; ringHeld_ := ringHeld_ s; fenceHeld_ := fenceHeld_ s; claimed_ := claimed_ s; stopped_ := stopped_ s; clockSet_ := clockSet_ s; bindingVerified_ := bindingVerified_ s |}.
Definition set_completed_ v (s : GpFifoQueue) : GpFifoQueue :=
  {| transport_ := transport_ s; binding_ := binding_ s; ring_ := ring_ s; fence_ := fence_ s; jobs_ := jobs_ s; state_ := state_ s; qgeneration_ := qgeneration_ s; lastTime_ := lastTime_ s; put_ := put_ s; pending_ := pending_ s; nextSequence_ := nextSequence_ s; completed_ := v; ringHeld_ := ringHeld_ s; fenceHeld_ := fenceHeld_ s; claimed_ := claimed_ s; stopped_ := stopped_ s; clockSet_ := clockSet_ s; bindingVerified_ := bindingVerified_ s |}.
Definition set_ringHeld_ v (s : GpFifoQueue) : GpFifoQueue :=
  {| transport_ := transport_ s; binding_ := binding_ s; ring_ := ring_ s; fence_ := fence_ s; jobs_ := jobs_ s; state_ := state_ s; qgeneration_ := qgeneration_ s; lastTime_ := lastTime_ s; put_ := put_ s; pending_ := pending_ s; nextSequence_ := nextSequence_ s; completed_ := completed_ s; ringHeld_ := v; fenceHeld_ := fenceHeld_ s; claimed_ := claimed_ s; stopped_ := stopped_ s; clockSet_ := clockSet_ s; bindingVerified_ := bindingVerified_ s |}.
Definition set_fenceHeld_ v (s : GpFifoQueue) : GpFifoQueue :=
  {| transport_ := transport_ s; binding_ := binding_ s; ring_ := ring_ s; fence_ := fence_ s; jobs_ := jobs_ s; state_ := state_ s; qgeneration_ := qgeneration_ s; lastTime_ := lastTime_ s; put_ := put_ s; pending_ := pending_ s; nextSequence_ := nextSequence_ s; completed_ := completed_ s; ringHeld_ := ringHeld_ s; fenceHeld_ := v; claimed_ := claimed_ s; stopped_ := stopped_ s; clockSet_ := clockSet_ s; bindingVerified_ := bindingVerified_ s |}.
Definition set_claimed_ v (s : GpFifoQueue) : GpFifoQueue :=
  {| transport_ := transport_ s; binding_ := binding_ s; ring_ := ring_ s; fence_ := fence_ s; jobs_ := jobs_ s; state_ := state_ s; qgeneration_ := qgeneration_ s; lastTime_ := lastTime_ s; put_ := put_ s; pending_ := pending_ s; nextSequence_ := nextSequence_ s; completed_ := completed_ s; ringHeld_ := ringHeld_ s; fenceHeld_ := fenceHeld_ s; claimed_ := v; stopped_ := stopped_ s; clockSet_ := clockSet_ s; bindingVerified_ := bindingVerified_ s |}.
Definition set_stopped_ v (s : GpFifoQueue) : GpFifoQueue :=
  {| transport_ := transport_ s; binding_ := binding_ s; ring_ := ring_ s; fence_ := fence_ s; jobs_ := jobs_ s; state_ := state_ s; qgeneration_ := qgeneration_ s; lastTime_ := lastTime_ s; put_ := put_ s; pending_ := pending_ s; nextSequence_ := nextSequence_ s; completed_ := completed_ s; ringHeld_ := ringHeld_ s; fenceHeld_ := fenceHeld_ s; claimed_ := claimed_ s; stopped_ := v; clockSet_ := clockSet_ s; bindingVerified_ := bindingVerified_ s |}.
Definition set_clockSet_ v (s : GpFifoQueue) : GpFifoQueue :=
  {| transport_ := transport_ s; binding_ := binding_ s; ring_ := ring_ s; fence_ := fence_ s; jobs_ := jobs_ s; state_ := state_ s; qgeneration_ := qgeneration_ s; lastTime_ := lastTime_ s; put_ := put_ s; pending_ := pending_ s; nextSequence_ := nextSequence_ s; completed_ := completed_ s; ringHeld_ := ringHeld_ s; fenceHeld_ := fenceHeld_ s; claimed_ := claimed_ s; stopped_ := stopped_ s; clockSet_ := v; bindingVerified_ := bindingVerified_ s |}.
Definition set_bindingVerified_ v (s : GpFifoQueue) : GpFifoQueue :=
  {| transport_ := transport_ s; binding_ := binding_ s; ring_ := ring_ s; fence_ := fence_ s; jobs_ := jobs_ s; state_ := state_ s; qgeneration_ := qgeneration_ s; lastTime_ := lastTime_ s; put_ := put_ s; pending_ := pending_ s; nextSequence_ := nextSequence_ s; completed_ := completed_ s; ringHeld_ := ringHeld_ s; fenceHeld_ := fenceHeld_ s; claimed_ := claimed_ s; stopped_ := stopped_ s; clockSet_ := clockSet_ s; bindingVerified_ := v |}.

Record qmachine := { qu : GpFifoQueue; memory : M; qworld : W; qtrace : list q_event }.

Definition qupd (f : GpFifoQueue -> GpFifoQueue) : ST qmachine unit :=
  modify (fun m => {| qu := f (qu m); memory := memory m; qworld := qworld m; qtrace := qtrace m |}).
Definition upd_job (j : nat) (f : Job -> Job) : ST qmachine unit :=
  qupd (fun q => set_jobs_ (alter f j (jobs_ q)) q).
Definition job_at (q : GpFifoQueue) (j : nat) : Job := default no_job (jobs_ q !! j).

(** An operation of the memory owner. *)
Definition on_memory {A} (f : ST M A) : ST qmachine A := fun m =>
  let '(r, mem) := f (memory m) in
  (r, {| qu := qu m; memory := mem; qworld := qworld m; qtrace := qtrace m |}).

(** A call of the transport; [bind] admits only a complete one. *)
Definition qcall {A} (f : W -> A * W) (ev : A -> q_event) : ST qmachine A := fun m =>
  let '(r, w) := f (qworld m) in
  (r, {| qu := qu m; memory := memory m; qworld := w; qtrace := ev r :: qtrace m |}).

Definition record (ev : q_event) : ST qmachine unit :=
  modify (fun m => {| qu := qu m; memory := memory m; qworld := qworld m; qtrace := ev :: qtrace m |}).

Definition is_some {A} (x : option A) : bool := match x with Some _ => true | None => false end.

Definition completeTransport (t : QueueTransport) : bool :=
  negb (context t =? 0) && is_some (t_claim t) && is_some (t_sealPushbuffer t) && is_some (t_beforePut t) &&
  is_some (t_writePut t) && is_some (t_afterPut t) && is_some (t_readCurrentToken t) &&
  is_some (t_ringDoorbell t) && is_some (t_readCompletedFence t) && is_some (t_quiesce t) &&
  is_some (t_releaseChannel t).

Definition tick (now : Z) : ST qmachine bool :=
  q <-- gets qu ;;
  if clockSet_ q && (now <? lastTime_ q) then ret false else
  qupd (fun q => set_lastTime_ now (set_clockSet_ true q)) ;;;
  ret true.

(** [GpFifoQueue::view]. *)
Definition view_ok (b : ChannelBinding) (h : MemoryHandle) (v : MemoryView) : bool :=
  sameDevice (v_device v) (cb_device b) && sameHandle (handle v) h && (owner v =? cb_owner b) &&
  bool_decide (state v = StMapped) && negb (p_cookie (pin v) =? 0) && negb (cpu (pin v) =? 0) &&
  negb (g_cookie (mapping v) =? 0) && negb (bytes v =? 0) && (bytes v <=? p_bytes (pin v)) &&
  (bytes v <=? g_bytes (mapping v)).

Definition qview (h : MemoryHandle) : ST qmachine (QueueStatus * MemoryView) :=
  q <-- gets qu ;;
  r <-- on_memory (mem_inspect (cb_owner (binding_ q)) h) ;;
  ret (if MellowNative.isOk r.1 && view_ok (binding_ q) h r.2 then Ok else Ownership, r.2).

Definition releaseBindingHolds : ST qmachine QueueStatus :=
  q <-- gets qu ;;
  ok <-- (if fenceHeld_ q then
            r <-- on_memory (mem_release (cb_owner (binding_ q)) (fence (binding_ q))) ;;
            if MellowNative.isOk r then qupd (set_fenceHeld_ false) ;;; ret true else ret false
          else ret true) ;;
  if negb ok then ret MemoryFailure else
  ok <-- (if ringHeld_ q then
            r <-- on_memory (mem_release (cb_owner (binding_ q)) (ring (binding_ q))) ;;
            if MellowNative.isOk r then qupd (set_ringHeld_ false) ;;; ret true else ret false
          else ret true) ;;
  ret (if ok then Ok else MemoryFailure).

(** * Binding *)

Definition binding_invalid (b : ChannelBinding) : bool :=
  let d := cb_device b in
  negb (vendor d =? 0x10de) || (device d =? 0) || (device d =? 0xffff) || (registryId d =? 0) ||
  (epoch d =? 0) || (cb_owner b =? 0) || (vm b =? 0) || (channel b =? 0) || (channelGeneration b =? 0) ||
  (ringEntries b <? 2) || (MaxRingEntries <? ringEntries b) ||
  test (ringEntries b) (ringEntries b - 1) || negb (ringOffset b mod 8 =? 0) ||
  negb (fenceOffset b mod 4 =? 0) || sameHandle (ring b) (fence b).

Definition forget_binding : ST qmachine unit :=
  qupd (fun q => set_fence_ no_view (set_ring_ no_view (set_binding_ no_binding q))).

(** [state_ = NeedsReset; stopped_ = true]: nothing was exposed to the channel. *)
Definition needs_reset_stopped : ST qmachine unit :=
  qupd (fun q => set_stopped_ true (set_state_ NeedsReset q)).

(** Give the holds back, or keep what could not be released for [reset]. *)
Definition undo_bind (failure : QueueStatus) : ST qmachine QueueStatus :=
  s <-- releaseBindingHolds ;;
  if negb (isOk s) then needs_reset_stopped ;;; ret s
  else forget_binding ;;; ret failure.

Definition observation_mismatch (b : ChannelBinding) (o : ChannelObservation) : bool :=
  negb (sameDevice (ob_device o) (cb_device b)) || negb (ob_owner o =? cb_owner b) ||
  negb (ob_vm o =? vm b) || negb (ob_channel o =? channel b) ||
  negb (ob_channelGeneration o =? channelGeneration b) ||
  negb (ob_channelClass o =? channelClass b) || negb (ob_ringEntries o =? ringEntries b) ||
  (ringEntries b <=? gpPut o) || negb (gpGet o =? gpPut o) ||
  negb (completedFence o =? lastQueuedFence o).

(** What an out parameter of type [ChannelObservation] can hold. *)
Definition as_observation (o : ChannelObservation) : ChannelObservation := {|
  ob_device := ob_device o; ob_owner := ob_owner o; ob_vm := ob_vm o; ob_channel := ob_channel o;
  ob_channelGeneration := ob_channelGeneration o; ob_channelClass := ob_channelClass o;
  ob_ringEntries := ob_ringEntries o; gpGet := wrap 32 (gpGet o); gpPut := wrap 32 (gpPut o);
  completedFence := wrap 32 (completedFence o); lastQueuedFence := wrap 32 (lastQueuedFence o);
  ob_mode := ob_mode o; ringDomain := ringDomain o |}.

Definition no_observation : ChannelObservation := {|
  ob_device := no_device; ob_owner := 0; ob_vm := 0; ob_channel := 0; ob_channelGeneration := 0;
  ob_channelClass := 0; ob_ringEntries := 0; gpGet := 0; gpPut := 0; completedFence := 0;
  lastQueuedFence := 0; ob_mode := UnsupportedMode; ringDomain := UnsupportedDomain |}.

(** From the claim of the channel to the return. *)
Definition bind_claim : ST qmachine QueueStatus :=
  q <-- gets qu ;;
  let b := binding_ q in
  r <-- qcall (fun w => match t_claim (transport_ q) with
                        | Some f => f b (ring_ q) (fence_ q) w | None => ((Rejected, no_observation), w) end)
              (fun r => EvClaim r.1) ;;
  let o := as_observation r.2 in
  if bool_decide (r.1 = Rejected) then undo_bind TransportFailure else
  qupd (fun q => set_stopped_ false (set_claimed_ true q)) ;;;
  if negb (bool_decide (r.1 = Done)) then qupd (set_state_ NeedsReset) ;;; ret PublicationUnknown else
  if observation_mismatch b o then qupd (set_state_ NeedsReset) ;;; ret Ownership else
  if negb (bool_decide (ob_mode o = Ordinary)) || negb (bool_decide (ringDomain o = CoherentSystem))
  then qupd (set_state_ NeedsReset) ;;; ret UnsupportedChannel else
  qupd (fun q => set_state_ Ready (set_bindingVerified_ true (set_nextSequence_ (completedFence o)
    (set_completed_ (completedFence o) (set_pending_ 0 (set_put_ (gpPut o) q)))))) ;;;
  ret Ok.

(** The views of the ring and the fence: [None] when all is well. *)
Definition bind_views (b : ChannelBinding) : ST qmachine QueueStatus :=
  r <-- qview (ring b) ;;
  qupd (set_ring_ r.2) ;;;
  if negb (isOk r.1) then ret r.1 else
  f <-- qview (fence b) ;;
  qupd (set_fence_ f.2) ;;;
  if negb (isOk f.1) then ret f.1 else
  ret (if negb (jobHolds r.2 =? 0) || negb (jobHolds f.2 =? 0) ||
          negb (writable (mapping r.2)) || negb (writable (mapping f.2)) ||
          negb (gpuSpan r.2 (ringOffset b) (wrap 64 (ringEntries b * 8))) ||
          negb (gpuSpan f.2 (fenceOffset b) 4)
       then Invalid else Ok).

Definition bind_queue (b : ChannelBinding) : ST qmachine QueueStatus :=
  q <-- gets qu ;;
  if negb (bool_decide (state_ q = Detached)) || ringHeld_ q || fenceHeld_ q || claimed_ q then ret Busy else
  if negb (completeTransport (transport_ q)) then ret Unavailable else
  if qgeneration_ q =? U64_MAX then ret SequenceExhausted else
  if negb (channelClass b =? PortedNvidia.AmpereA) then ret UnsupportedClass else
  if binding_invalid b then ret Invalid else
  qupd (set_binding_ b) ;;;
  s <-- bind_views b ;;
  if negb (isOk s) then forget_binding ;;; ret s else
  r <-- on_memory (mem_retain (cb_owner b) (ring b)) ;;
  if negb (MellowNative.isOk r) then forget_binding ;;; ret MemoryFailure else
  qupd (set_ringHeld_ true) ;;;
  r <-- on_memory (mem_retain (cb_owner b) (fence b)) ;;
  if negb (MellowNative.isOk r) then undo_bind MemoryFailure else
  qupd (set_fenceHeld_ true) ;;;
  v <-- qview (ring b) ;;
  qupd (set_ring_ v.2) ;;;
  s <-- (if isOk v.1 then
           f <-- qview (fence b) ;;
           qupd (set_fence_ f.2) ;;;
           ret f.1
         else ret v.1) ;;
  if negb (isOk s) then needs_reset_stopped ;;; ret Ownership else
  bind_claim.

(** * Jobs *)

(** Release the holds of a job, last first. *)
Fixpoint release_held (own : Z) (j : nat) (n : nat) : ST qmachine QueueStatus :=
  q <-- gets qu ;;
  match last (jheld (job_at q j)), n with
  | None, _ => ret Ok
  | Some _, O => ret Ok
  | Some h, S n =>
      r <-- on_memory (mem_release own h) ;;
      if negb (MellowNative.isOk r) then ret MemoryFailure else
      upd_job j (fun job => set_jheld (take (length (jheld job) - 1) (jheld job)) job) ;;;
      release_held own j n
  end.

Definition releaseJob (j : nat) : ST qmachine QueueStatus :=
  q <-- gets qu ;;
  release_held (cb_owner (binding_ q)) j (length (jheld (job_at q j))).

(** Bookkeeping of a job that the channel can see. *)
Definition published (j : nat) (st : JobState) (newPut : Z) : ST qmachine unit :=
  upd_job j (fun job => set_ringPending true (set_jstate st job)) ;;;
  qupd (fun q => set_nextSequence_ (sequence (token (job_at q j)))
    (set_pending_ (wrap 32 (pending_ q + 1)) (set_put_ newPut q))).

Definition uncertain (j : nat) (newPut : Z) : ST qmachine QueueStatus :=
  published j JPublicationUnknown newPut ;;;
  qupd (set_state_ NeedsReset) ;;;
  ret PublicationUnknown.

Definition request_invalid (q : GpFifoQueue) (r : SubmitRequest) (now : Z) : bool :=
  let g := range r in
  (commandBytes g =? 0) || negb (commandBytes g mod 4 =? 0) || negb (offset g mod 4 =? 0) ||
  negb (capacityBytes g mod 4 =? 0) || (capacityBytes g <? commandBytes g) ||
  (PortedNvidia.GpfifoBytesMax <? capacityBytes g) || (rq_deadline r <=? now) ||
  (MaxDataResources <? resourceCount r) ||
  (negb (resourceCount r =? 0) && negb (is_some (resources r))) ||
  sameHandle (commands r) (ring (binding_ q)) || sameHandle (commands r) (fence (binding_ q)).

(** The resources of a request. *)
Definition rq_resources (r : SubmitRequest) : list DataResource :=
  take (Z.to_nat (resourceCount r)) (default [] (resources r)).

Fixpoint free_job (l : list Job) : option nat :=
  match l with
  | [] => None
  | job :: l => if bool_decide (jstate job = Free) then Some O else S <$> free_job l
  end.

(** A live private pushbuffer is never data. *)
Definition live_commands (jobs : list Job) (h : MemoryHandle) : bool :=
  existsb (fun job => match jheld job with c :: _ => sameHandle h c | [] => false end) jobs.

(** Checks of the resources, with the ones before already accepted. *)
Fixpoint check_resources (r : SubmitRequest) (before rest : list DataResource) : ST qmachine QueueStatus :=
  match rest with
  | [] => ret Ok
  | d :: rest =>
      q <-- gets qu ;;
      let h := d_handle d in
      if sameHandle h (commands r) || sameHandle h (ring (binding_ q)) || sameHandle h (fence (binding_ q)) ||
         existsb (fun e => sameHandle h (d_handle e)) before || live_commands (jobs_ q) h
      then ret Ownership else
      v <-- qview h ;;
      if negb (isOk v.1) then ret v.1 else
      if gpuWrites d && negb (writable (mapping v.2)) then ret Ownership else
      check_resources r (before ++ [d]) rest
  end.

(** Before PUT, nothing was published: roll back. *)
Definition unpublished (j : nat) (failure : QueueStatus) : ST qmachine QueueStatus :=
  s <-- releaseJob j ;;
  if negb (isOk s) then
    upd_job j (set_jstate JPublicationUnknown) ;;;
    qupd (set_state_ NeedsReset) ;;;
    ret MemoryFailure
  else
    upd_job j (fun _ => no_job) ;;;
    when (bool_decide (failure = MemoryFailure)) (qupd (set_state_ NeedsReset)) ;;;
    ret failure.

(** Hold one more allocation for the job. *)
Definition hold (j : nat) (h : MemoryHandle) : ST qmachine bool :=
  q <-- gets qu ;;
  r <-- on_memory (mem_retain (cb_owner (binding_ q)) h) ;;
  if negb (MellowNative.isOk r) then ret false else
  upd_job j (fun job => set_jheld (jheld job ++ [h]) job) ;;;
  ret true.

Fixpoint hold_all (j : nat) (l : list MemoryHandle) : ST qmachine bool :=
  match l with
  | [] => ret true
  | h :: l => ok <-- hold j h ;; if negb ok then ret false else hold_all j l
  end.

(** The views of the held allocations. *)
Fixpoint views (l : list MemoryHandle) : ST qmachine (QueueStatus * list MemoryView) :=
  match l with
  | [] => ret (Ok, [])
  | h :: l =>
      v <-- qview h ;;
      if negb (isOk v.1) then ret (v.1, []) else
      r <-- views l ;;
      ret (r.1, v.2 :: r.2)
  end.

(** Make the held allocations visible to the device. *)
Fixpoint sync_all (own : Z) (l : list MemoryHandle) : ST qmachine bool :=
  match l with
  | [] => ret true
  | h :: l =>
      r <-- on_memory (mem_synchronizeRetained own h ForDevice) ;;
      if negb (MellowNative.isOk r) then ret false else sync_all own l
  end.

Definition transport_call {A B} (f : option A) (dflt : B) (k : A -> W -> B * W) (w : W) : B * W :=
  match f with Some f => k f w | None => (dflt, w) end.

(** Seal the commands and build the entry; [inl] is a failure. *)
Definition seal (j : nat) (r : SubmitRequest) (cmd : MemoryView) (res : list MemoryView)
    : ST qmachine (QueueStatus + PortedNvidia.GpfifoEntry) :=
  q <-- gets qu ;;
  let b := binding_ q in
  s <-- qcall (transport_call (t_sealPushbuffer (transport_ q)) (Unavailable, 0) (fun f =>
                f b cmd (range r) res (address (mapping (fence_ q)) +64 fenceOffset b)
                  (sequence (token (job_at q j)))))
              (fun s => EvSeal j (token (job_at q j)) (handle cmd :: (handle <$> res)) s.1) ;;
  let submitted := wrap 64 s.2 in
  if negb (isOk s.1) then ret (inl s.1) else
  if (submitted <? commandBytes (range r)) || (capacityBytes (range r) <? submitted) ||
     negb (gpuSpan cmd (offset (range r)) submitted) then ret (inl Invalid) else
  match PortedNvidia.encodeGpfifoPushbuffer PortedNvidia.AmpereA
          (address (mapping cmd) +64 offset (range r)) submitted PortedNvidia.Proceed PortedNvidia.no_entry with
  | (PortedNvidia.Ok, e) => ret (inr e)
  | _ => ret (inl Invalid)
  end.

(** Write the ring entry and make it visible. *)
Definition write_entry (e : PortedNvidia.GpfifoEntry) : ST qmachine QueueStatus :=
  q <-- gets qu ;;
  let b := binding_ q in
  record (EvRingStore (cpu (pin (ring_ q)) + ringOffset b + put_ q * 8)
            (PortedNvidia.writeGpfifoLittleEndian e)) ;;;
  r <-- on_memory (mem_synchronizeRetained (cb_owner b) (ring b) ForDevice) ;;
  if negb (MellowNative.isOk r) then ret MemoryFailure else
  qcall (transport_call (t_beforePut (transport_ q)) Unavailable (fun f => f b)) EvBeforePut.

(** Publish: PUT, then the doorbell.  After PUT nothing can be taken back. *)
Definition ring_out (j : nat) : ST qmachine (QueueStatus * FenceToken) :=
  q <-- gets qu ;;
  let b := binding_ q in
  let tok := token (job_at q j) in
  let newPut := wrap 32 (put_ q + 1) mod ringEntries b in
  p <-- qcall (transport_call (t_writePut (transport_ q)) Rejected (fun f => f b newPut)) (EvWritePut newPut) ;;
  match p with
  | Rejected => s <-- unpublished j TransportFailure ;; ret (s, no_token)
  | Unknown => s <-- uncertain j newPut ;; ret (s, tok)
  | Done =>
      s <-- qcall (transport_call (t_afterPut (transport_ q)) Unavailable (fun f => f b)) EvAfterPut ;;
      t <-- (if isOk s then
               qcall (transport_call (t_readCurrentToken (transport_ q)) (Unavailable, 0) (fun f => f b))
                     (fun t => EvToken t.1)
             else ret (s, 0)) ;;
      rung <-- (if isOk t.1 then
                  d <-- qcall (transport_call (t_ringDoorbell (transport_ q)) Rejected (fun f => f b (wrap 32 t.2)))
                              (EvDoorbell (wrap 32 t.2)) ;;
                  ret (bool_decide (d = Done))
                else ret false) ;;
      if negb rung then s <-- uncertain j newPut ;; ret (s, tok) else
      published j Submitted newPut ;;;
      ret (Ok, tok)
  end.

(** From the first hold to the return; [own] holds the job. *)
Definition submit_job (j : nat) (r : SubmitRequest) : ST qmachine (QueueStatus * FenceToken) :=
  let fail f := s <-- unpublished j f ;; ret (s, no_token) in
  let handles := d_handle <$> rq_resources r in
  ok <-- hold_all j (commands r :: handles) ;;
  if negb ok then fail MemoryFailure else
  v <-- qview (commands r) ;;
  vs <-- (if isOk v.1 then views handles else ret (v.1, [])) ;;
  if negb (isOk vs.1) then fail vs.1 else
  e <-- seal j r v.2 vs.2 ;;
  match e with
  | inl f => fail f
  | inr e =>
      q <-- gets qu ;;
      ok <-- sync_all (cb_owner (binding_ q)) (jheld (job_at q j)) ;;
      if negb ok then fail MemoryFailure else
      s <-- write_entry e ;;
      if negb (isOk s) then fail s else
      ring_out j
  end.

Definition submit (r : SubmitRequest) (now : Z) : ST qmachine (QueueStatus * FenceToken) :=
  q <-- gets qu ;;
  if negb (bool_decide (state_ q = Ready)) then ret (Busy, no_token) else
  ok <-- tick now ;;
  if negb ok then ret (ClockRegression, no_token) else
  if request_invalid q r now then ret (Invalid, no_token) else
  if nextSequence_ q =? U32_MAX then ret (SequenceExhausted, no_token) else
  if wrap 32 (ringEntries (binding_ q) - 1) <=? pending_ q then ret (Capacity, no_token) else
  match free_job (jobs_ q) with
  | None => ret (Capacity, no_token)
  | Some j =>
      v <-- qview (commands r) ;;
      if negb (isOk v.1) then ret (v.1, no_token) else
      if negb (jobHolds v.2 =? 0) || negb (gpuSpan v.2 (offset (range r)) (capacityBytes (range r)))
      then ret (Ownership, no_token) else
      s <-- check_resources r [] (rq_resources r) ;;
      if negb (isOk s) then ret (s, no_token) else
      upd_job j (fun _ => set_deadline (rq_deadline r)
        (set_token {| tk_generation := qgeneration_ q; sequence := wrap 32 (nextSequence_ q + 1) |} no_job)) ;;;
      submit_job j r
  end.

(** * Completion *)

Definition expired (now : Z) (job : Job) : bool :=
  bool_decide (jstate job = Submitted) && (deadline job <=? now).

Definition expire (now : Z) : ST qmachine QueueStatus :=
  q <-- gets qu ;;
  if bool_decide (state_ q = Detached) then ret Busy else
  ok <-- tick now ;;
  if negb ok then ret ClockRegression else
  qupd (fun q => set_jobs_ ((fun job => if expired now job then set_jstate JTimedOut job else job) <$> jobs_ q) q) ;;;
  if existsb (expired now) (jobs_ q) then qupd (set_state_ NeedsReset) ;;; ret TimedOut
  else ret Ok.

(** The jobs that the observed fence completes, in the order of the table. *)
Definition done_by (q : GpFifoQueue) (observed : Z) (job : Job) : bool :=
  ringPending job && (tk_generation (token job) =? qgeneration_ q) && (sequence (token job) <=? observed).

Fixpoint complete_jobs (observed : Z) (js : list nat) : ST qmachine QueueStatus :=
  match js with
  | [] => ret Ok
  | j :: js =>
      q <-- gets qu ;;
      if done_by q observed (job_at q j) then
        upd_job j (fun job => set_jstate Completed (set_ringPending false job)) ;;;
        qupd (fun q => set_pending_ (wrap 32 (pending_ q - 1)) q) ;;;
        s <-- releaseJob j ;;
        if negb (isOk s) then qupd (set_state_ NeedsReset) ;;; ret MemoryFailure
        else complete_jobs observed js
      else complete_jobs observed js
  end.

Definition poll (now : Z) : ST qmachine QueueStatus :=
  q <-- gets qu ;;
  if bool_decide (state_ q = Detached) || negb (claimed_ q) || stopped_ q || negb (bindingVerified_ q)
  then ret Busy else
  ok <-- tick now ;;
  if negb ok then ret ClockRegression else
  r <-- on_memory (mem_synchronizeRetained (cb_owner (binding_ q)) (fence (binding_ q)) ForCpu) ;;
  if negb (MellowNative.isOk r) then qupd (set_state_ NeedsReset) ;;; ret MemoryFailure else
  s <-- qcall (transport_call (t_readCompletedFence (transport_ q)) (Unavailable, 0)
                (fun f => f (binding_ q) (fence_ q)))
              (fun s => EvFence (qgeneration_ q) (wrap 32 s.2) s.1) ;;
  let observed := wrap 32 s.2 in
  if negb (isOk s.1) then qupd (set_state_ NeedsReset) ;;; ret s.1 else
  if (observed <? completed_ q) || (nextSequence_ q <? observed)
  then qupd (set_state_ NeedsReset) ;;; ret InvalidFence else
  qupd (set_completed_ observed) ;;;
  s <-- complete_jobs observed (seq 0 MaxJobs) ;;
  if negb (isOk s) then ret s else
  expire now.

(** * Reset *)

Fixpoint reset_jobs (js : list nat) : ST qmachine QueueStatus :=
  match js with
  | [] => ret Ok
  | j :: js =>
      q <-- gets qu ;;
      let job := job_at q j in
      if bool_decide (jstate job = Free) then reset_jobs js else
      upd_job j (fun job => if bool_decide (jstate job = Completed) then job else set_jstate Reset job) ;;;
      when (ringPending job) (
        upd_job j (set_ringPending false) ;;;
        qupd (fun q => set_pending_ (wrap 32 (pending_ q - 1)) q)) ;;;
      s <-- releaseJob j ;;
      if negb (isOk s) then ret MemoryFailure else reset_jobs js
  end.

Definition reset_fields (q : GpFifoQueue) : GpFifoQueue :=
  let q := set_fence_ no_view (set_ring_ no_view (set_binding_ no_binding q)) in
  let q := set_put_ 0 (set_pending_ 0 (set_nextSequence_ 0 (set_completed_ 0 q))) in
  let q := set_lastTime_ 0 (set_clockSet_ false q) in
  let q := if qgeneration_ q =? U64_MAX then q else set_qgeneration_ (qgeneration_ q +64 1) q in
  set_state_ Detached q.

Definition reset : ST qmachine QueueStatus :=
  q <-- gets qu ;;
  if bool_decide (state_ q = Detached) && negb (ringHeld_ q) && negb (fenceHeld_ q) && negb (claimed_ q)
  then ret Ok else
  qupd (fun q => set_bindingVerified_ false (set_state_ NeedsReset q)) ;;;
  ok <-- (if stopped_ q then ret true else
          b <-- qcall (transport_call (t_quiesce (transport_ q)) false (fun f => f (binding_ q))) EvQuiesce ;;
          when b (qupd (set_stopped_ true)) ;;;
          ret b) ;;
  if negb ok then ret QuiesceFailed else
  s <-- reset_jobs (seq 0 MaxJobs) ;;
  if negb (isOk s) then ret s else
  ok <-- (if claimed_ q then
            r <-- qcall (transport_call (t_releaseChannel (transport_ q)) Rejected (fun f => f (binding_ q))) EvRelease ;;
            when (bool_decide (r = Done)) (qupd (set_claimed_ false)) ;;;
            ret (bool_decide (r = Done))
          else ret true) ;;
  if negb ok then ret TransportFailure else
  s <-- releaseBindingHolds ;;
  if negb (isOk s) then ret s else
  qupd reset_fields ;;;
  ret Ok.

(** * Queries *)

Definition has_token (t : FenceToken) (job : Job) : bool :=
  negb (bool_decide (jstate job = Free)) && (tk_generation (token job) =? tk_generation t) &&
  (sequence (token job) =? sequence t).

Fixpoint find_job (t : FenceToken) (l : list Job) : option nat :=
  match l with
  | [] => None
  | job :: l => if has_token t job then Some O else S <$> find_job t l
  end.

Definition query (t : FenceToken) (q : GpFifoQueue) : QueueStatus * JobResult :=
  match find_job t (jobs_ q) with
  | None => (StaleToken, {| jr_state := Free; resourcesHeld := false; jr_token := no_token |})
  | Some j =>
      let job := job_at q j in
      (Ok, {| jr_state := jstate job; resourcesHeld := negb (bool_decide (jheld job = []));
              jr_token := token job |})
  end.

Definition retire_job (t : FenceToken) : ST qmachine QueueStatus :=
  q <-- gets qu ;;
  match find_job t (jobs_ q) with
  | None => ret StaleToken
  | Some j =>
      let job := job_at q j in
      if negb (bool_decide (jheld job = [])) || ringPending job ||
         (negb (bool_decide (jstate job = Completed)) && negb (bool_decide (jstate job = Reset)))
      then ret Busy else
      upd_job j (fun _ => no_job) ;;;
      ret Ok
  end.
End Queue.
Arguments QueueTransport : clear implicits.
Arguments GpFifoQueue : clear implicits.
Arguments qmachine : clear implicits.
End NativeNvidia.
