(* ===== verification/GpFifoInv.v ===== *)
(** The invariant of the GPFIFO queue, proved against the interface of the memory owner:
    every reference that the queue records is backed by a hold, and the bookkeeping of
    pending jobs is exact. *)
From stdpp Require Import base numbers list.
From S2P Require Import Prelude.
From S2P Require Import StateWp.
From S2P Require Import MemoryOwner.
From S2P Require Import NvCommand.
From S2P Require Import GpFifoQueue.
Import MellowNative NativeNvidia.

(** * What the memory owner promises

    Holds are counted per owner and handle.  A release succeeds when there is a hold;
    [mem_env own] is what the other clients may do, which is anything but to give back
    holds of the owner [own]. *)

Class MemoryLaws (M : Type) `{!MemoryInterface M} := {
  mem_good : M -> Prop;
  mem_held : M -> Z -> MemoryHandle -> Z;
  mem_env : Z -> M -> M -> Prop;
  law_held own h m : mem_good m -> 0 <= mem_held m own h;
  law_inspect own h m : (mem_inspect own h m).2 = m;
  law_retain own h m : mem_good m -> 0 <= slot h ->
    wp (mem_retain own h) (fun r m' => mem_good m' /\ forall own' h', mem_held m' own' h' =
      mem_held m own' h' + if decide (r = MellowNative.Ok /\ h = h' /\ own = own') then 1 else 0) m;
  law_release own h m : mem_good m -> 0 <= slot h -> 0 < mem_held m own h ->
    wp (mem_release own h) (fun r m' => r = MellowNative.Ok /\ mem_good m' /\
      forall own' h', mem_held m' own' h' =
        mem_held m own' h' + if decide (h = h' /\ own = own') then -1 else 0) m;
  law_sync own h d m : mem_good m -> 0 <= slot h ->
    wp (mem_synchronizeRetained own h d) (fun _ m' => mem_good m' /\
      forall own' h', mem_held m' own' h' = mem_held m own' h') m;
  law_env own m m' : mem_good m -> mem_env own m m' ->
    mem_good m' /\ forall h, mem_held m own h <= mem_held m' own h;
}.

(** * References *)

Definition b2z (b : bool) : Z := if b then 1 else 0.

Fixpoint count_in (h : MemoryHandle) (l : list MemoryHandle) : Z :=
  match l with [] => 0 | x :: l => b2z (bool_decide (x = h)) + count_in h l end.

Fixpoint job_refs (l : list Job) (h : MemoryHandle) : Z :=
  match l with [] => 0 | job :: l => count_in h (jheld job) + job_refs l h end.

Fixpoint npending (l : list Job) : Z :=
  match l with [] => 0 | job :: l => b2z (ringPending job) + npending l end.

Lemma count_in_app h l1 l2 : count_in h (l1 ++ l2) = count_in h l1 + count_in h l2.
Proof. induction l1 as [|x l IH]; cbn; [done|]. rewrite IH. lia. Qed.

Lemma count_in_nonneg h l : 0 <= count_in h l.
Proof. induction l as [|x l IH]; cbn; [lia|]. unfold b2z. case_match; lia. Qed.

Lemma job_refs_nonneg h l : 0 <= job_refs l h.
Proof. induction l as [|x l IH]; cbn; [lia|]. pose proof (count_in_nonneg h (jheld x)). lia. Qed.

Lemma job_refs_alter f j l job h :
  l !! j = Some job -> job_refs (alter f j l) h =
    job_refs l h - count_in h (jheld job) + count_in h (jheld (f job)).
Proof.
  revert j. induction l as [|x l IH]; intros [|j]; cbn; try done.
  - intros [= ->]. lia.
  - intros Hj. change (count_in h (jheld x) + job_refs (alter f j l) h =
      count_in h (jheld x) + job_refs l h - count_in h (jheld job) + count_in h (jheld (f job))).
    rewrite (IH _ Hj). lia.
Qed.

Lemma npending_alter f j l job :
  l !! j = Some job -> npending (alter f j l) =
    npending l - b2z (ringPending job) + b2z (ringPending (f job)).
Proof.
  revert j. induction l as [|x l IH]; intros [|j]; cbn; try done.
  - intros [= ->]. lia.
  - intros Hj. change (b2z (ringPending x) + npending (alter f j l) =
      b2z (ringPending x) + npending l - b2z (ringPending job) + b2z (ringPending (f job))).
    rewrite (IH _ Hj). lia.
Qed.

Lemma count_in_refs l j job h : l !! j = Some job -> count_in h (jheld job) <= job_refs l h.
Proof.
  revert j. induction l as [|x l IH]; intros [|j]; cbn; try done.
  - intros [= ->]. pose proof (job_refs_nonneg h l). lia.
  - intros Hj. pose proof (IH _ Hj). pose proof (count_in_nonneg h (jheld x)). lia.
Qed.

Lemma npending_bound l : 0 <= npending l <= Z.of_nat (length l).
Proof. induction l as [|x l IH]; cbn; [lia|]. unfold b2z. case_match; lia. Qed.

Lemma npending_pos l j job : l !! j = Some job -> ringPending job = true -> 0 < npending l.
Proof.
  revert j. induction l as [|x l IH]; intros [|j]; cbn; try done.
  - intros [= ->] ->. pose proof (npending_bound l). cbn. lia.
  - intros Hj Hp. pose proof (IH _ Hj Hp). unfold b2z. case_match; lia.
Qed.

Lemma npending_zero l : (forall j job, l !! j = Some job -> ringPending job = false) -> npending l = 0.
Proof.
  induction l as [|x l IH]; intros H; cbn; [done|]. rewrite (H O x eq_refl). cbn.
  apply IH. intros j. apply (H (S j)).
Qed.

Lemma job_refs_zero l h : (forall j job, l !! j = Some job -> jheld job = []) -> job_refs l h = 0.
Proof.
  induction l as [|x l IH]; intros H; cbn; [done|]. rewrite (H O x eq_refl). cbn.
  apply IH. intros j. apply (H (S j)).
Qed.

Lemma job_refs_fmap (f : Job -> Job) l h :
  (forall job, jheld (f job) = jheld job) -> job_refs (f <$> l) h = job_refs l h.
Proof.
  intros Hf. induction l as [|x l IH]; [done|].
  change (count_in h (jheld (f x)) + job_refs (f <$> l) h = count_in h (jheld x) + job_refs l h).
  by rewrite IH, Hf.
Qed.

Lemma npending_fmap (f : Job -> Job) l :
  (forall job, ringPending (f job) = ringPending job) -> npending (f <$> l) = npending l.
Proof.
  intros Hf. induction l as [|x l IH]; [done|].
  change (b2z (ringPending (f x)) + npending (f <$> l) = b2z (ringPending x) + npending l).
  by rewrite IH, Hf.
Qed.

Definition one (h : MemoryHandle) : MemoryHandle -> Z := fun h' => b2z (bool_decide (h = h')).

Section Inv.
Context {M W : Type} `{!MemoryInterface M, !MemoryLaws M}.
Implicit Types (q : GpFifoQueue W) (m : qmachine M W).

Definition refs q (h : MemoryHandle) : Z :=
  b2z (ringHeld_ q && bool_decide (ring (binding_ q) = h)) +
  b2z (fenceHeld_ q && bool_decide (fence (binding_ q) = h)) + job_refs (jobs_ q) h.

(** Every reference is backed by a hold; [ex] are holds taken and not yet recorded, or
    given back and still recorded. *)
Definition mem_ok (ex : MemoryHandle -> Z) m : Prop :=
  mem_good (memory m) /\
  forall h, refs (qu m) h + ex h <= mem_held (memory m) (cb_owner (binding_ (qu m))) h.

Definition none : MemoryHandle -> Z := fun _ => 0.

(** The newest seal of the job in slot [j]: its token, and the allocations that the channel was
    given. *)
Fixpoint sealed_in (j : nat) (tr : list q_event) : option (FenceToken * list MemoryHandle) :=
  match tr with
  | [] => None
  | EvSeal k t hs NativeNvidia.Ok :: tr => if (k =? j)%nat then Some (t, hs) else sealed_in j tr
  | _ :: tr => sealed_in j tr
  end.

(** The event is no seal of a job other than the one being prepared. *)
Definition seals_only (x : option nat) (ev : q_event) : Prop :=
  match ev with EvSeal k _ _ NativeNvidia.Ok => x = Some k | _ => True end.

Lemma sealed_in_cons j ev tr : seals_only None ev -> sealed_in j (ev :: tr) = sealed_in j tr.
Proof. destruct ev as [|k t hs []| | | | | | | | |]; done. Qed.

Lemma sealed_in_other j k ev tr : seals_only (Some k) ev -> j <> k -> sealed_in j (ev :: tr) = sealed_in j tr.
Proof.
  destruct ev as [|k' t hs []| | | | | | | | |]; try done. cbn. intros [= <-] Hn.
  by rewrite (proj2 (Nat.eqb_neq k j)) by done.
Qed.

(** The job of slot [j]; [prep] for the one that is being prepared. *)
Record job_ok (j : nat) (tr : list q_event) (prep : bool) (job : Job) : Prop := {
  jo_slots : Forall (fun h => 0 <= slot h) (jheld job);
  jo_free : jstate job = Free -> ringPending job = false /\ (prep = false -> jheld job = []);
  jo_pending : ringPending job = true ->
    sealed_in j tr = Some (token job, jheld job) /\ jheld job <> [] /\ jstate job <> Completed /\ jstate job <> Reset;
  jo_live : jstate job <> Free -> jstate job <> Completed -> jstate job <> Reset -> ringPending job = true;
  jo_done : jstate job = Completed -> exists v,
    EvFence (tk_generation (token job)) v NativeNvidia.Ok ∈ tr /\ sequence (token job) <= v;
}.

Record queue_ok (x : option nat) q (tr : list q_event) : Prop := {
  qo_length : length (jobs_ q) = MaxJobs;
  qo_jobs : forall j job, jobs_ q !! j = Some job -> job_ok j tr (bool_decide (x = Some j)) job;
  qo_prep : forall j job, x = Some j -> jobs_ q !! j = Some job -> jstate job = Free;
  qo_pending : pending_ q = npending (jobs_ q);
  qo_unclaimed : claimed_ q = false ->
    forall j job, jobs_ q !! j = Some job -> jheld job = [] /\ ringPending job = false;
  qo_claimed : claimed_ q = true -> ringHeld_ q = true /\ fenceHeld_ q = true /\
    2 <= ringEntries (binding_ q) <= MaxRingEntries /\ npending (jobs_ q) <= ringEntries (binding_ q) - 1;
  qo_detached : state_ q = Detached -> ringHeld_ q = false /\ fenceHeld_ q = false /\ claimed_ q = false;
  qo_ready : state_ q = Ready -> claimed_ q = true /\ 0 <= put_ q < ringEntries (binding_ q);
  qo_slots : (ringHeld_ q = true -> 0 <= slot (ring (binding_ q))) /\
    (fenceHeld_ q = true -> 0 <= slot (fence (binding_ q)));
}.

Record qinv m : Prop := {
  qi_memory : mem_ok none m;
  qi_queue : queue_ok None (qu m) (qtrace m);
}.
End Inv.

(** * Symbolic execution of the GPFIFO queue: what its helpers do to the queue and to the holds, against the laws of the memory interface *)

Section Ops.
Context {M W : Type} `{!MemoryInterface M, !MemoryLaws M}.
Implicit Types (q : GpFifoQueue W) (m : qmachine M W) (tr : list q_event) (ex : MemoryHandle -> Z).

(** The machine is in queue state [q] after the events [tr], with [ex] unrecorded holds. *)
Record st ex q tr m : Prop := {
  st_queue : qu m = q;
  st_trace : qtrace m = tr;
  st_good : mem_good (memory m);
  st_held : forall h, refs q h + ex h <= mem_held (memory m) (cb_owner (binding_ q)) h;
}.

Lemma st_mem_ok q tr m : st none q tr m <-> qu m = q /\ qtrace m = tr /\ mem_ok none m.
Proof.
  split.
  - intros [<- <- Hg Hh]. done.
  - intros (<- & <- & [Hg Hh]). by split.
Qed.

Lemma st_weaken ex ex' q tr m : (forall h, ex' h <= ex h) -> st ex q tr m -> st ex' q tr m.
Proof. intros He [A B C D]. split; try done. intros h. specialize (D h). specialize (He h). lia. Qed.

(** ** Rules *)

Lemma wp_qupd ex ex' q tr m f (Q : unit -> qmachine M W -> Prop) :
  st ex q tr m -> cb_owner (binding_ (f q)) = cb_owner (binding_ q) ->
  (forall h, refs (f q) h + ex' h <= refs q h + ex h) ->
  (forall m', st ex' (f q) tr m' -> Q tt m') -> wp (qupd f) Q m.
Proof.
  intros [<- <- Hg Hh] Ho Hr HQ. apply wp_modify, HQ. split; cbn; try done.
  intros h. specialize (Hh h). specialize (Hr h). rewrite Ho. lia.
Qed.

(** An update that changes no reference. *)
Lemma wp_qupd_same ex q tr m f (Q : unit -> qmachine M W -> Prop) :
  st ex q tr m -> binding_ (f q) = binding_ q -> jobs_ (f q) = jobs_ q ->
  ringHeld_ (f q) = ringHeld_ q -> fenceHeld_ (f q) = fenceHeld_ q ->
  (forall m', st ex (f q) tr m' -> Q tt m') -> wp (qupd f) Q m.
Proof.
  intros Hs Eb Ej Er Ef HQ. eapply (wp_qupd ex ex); [done|by rewrite Eb| |done].
  intros h. unfold refs. rewrite Eb, Ej, Er, Ef. lia.
Qed.

(** An update after which nothing is recorded as held: the owner may change. *)
Lemma wp_qupd_idle ex q tr m f (Q : unit -> qmachine M W -> Prop) :
  st ex q tr m -> (forall h, refs (f q) h <= 0) ->
  (forall m', st none (f q) tr m' -> Q tt m') -> wp (qupd f) Q m.
Proof.
  intros [<- <- Hg Hh] Hr HQ. apply wp_modify, HQ. split; cbn; try done.
  intros h. specialize (Hr h). pose proof (law_held (cb_owner (binding_ (f (qu m)))) h _ Hg). unfold none. lia.
Qed.

Lemma wp_qcall {A} ex q tr m (f : W -> A * W) ev (Q : A -> qmachine M W -> Prop) :
  st ex q tr m -> (forall r m', st ex q (ev r :: tr) m' -> Q r m') -> wp (qcall f ev) Q m.
Proof.
  intros [<- <- Hg Hh] HQ. unfold wp, qcall. destruct (f (qworld m)) as [r w]. apply HQ. by split.
Qed.

Lemma wp_record ex q tr m ev (Q : unit -> qmachine M W -> Prop) :
  st ex q tr m -> (forall m', st ex q (ev :: tr) m' -> Q tt m') -> wp (record ev) Q m.
Proof. intros [<- <- Hg Hh] HQ. apply wp_modify, HQ. by split. Qed.

Lemma wp_retain ex q tr m h (Q : MemoryStatus -> qmachine M W -> Prop) :
  st ex q tr m -> 0 <= slot h ->
  (forall m', st (fun h' => ex h' + one h h') q tr m' -> Q MellowNative.Ok m') ->
  (forall r m', r <> MellowNative.Ok -> st ex q tr m' -> Q r m') ->
  wp (on_memory (mem_retain (cb_owner (binding_ q)) h)) Q m.
Proof.
  intros [<- <- Hg Hh] Hs H1 H2. unfold wp, on_memory.
  pose proof (law_retain (cb_owner (binding_ (qu m))) h _ Hg Hs) as HL. unfold wp in HL.
  destruct (mem_retain _ h (memory m)) as [r mem]. cbn [fst snd] in HL. destruct HL as [Hg' Hr].
  destruct (decide (r = MellowNative.Ok)) as [->|Hn].
  - apply H1. split; cbn; try done. intros h'. rewrite Hr. specialize (Hh h').
    unfold one, b2z. case_bool_decide as E.
    + rewrite decide_True by done. lia.
    + rewrite decide_False by naive_solver. lia.
  - apply H2; [done|]. split; cbn; try done. intros h'. rewrite Hr, decide_False by naive_solver.
    specialize (Hh h'). lia.
Qed.

Lemma wp_release ex q tr m h (Q : MemoryStatus -> qmachine M W -> Prop) :
  st ex q tr m -> 0 <= slot h -> 0 < refs q h + ex h ->
  (forall m', st (fun h' => ex h' - one h h') q tr m' -> Q MellowNative.Ok m') ->
  wp (on_memory (mem_release (cb_owner (binding_ q)) h)) Q m.
Proof.
  intros [<- <- Hg Hh] Hs Hp HQ. unfold wp, on_memory.
  pose proof (law_release (cb_owner (binding_ (qu m))) h (memory m) Hg Hs) as HL.
  specialize (HL ltac:(specialize (Hh h); lia)). unfold wp in HL.
  destruct (mem_release _ h (memory m)) as [r mem]. cbn [fst snd] in HL. destruct HL as (-> & Hg' & Hr).
  apply HQ. split; cbn; try done. intros h'. rewrite Hr. specialize (Hh h').
  unfold one, b2z. case_bool_decide as E.
  - rewrite decide_True by done. lia.
  - rewrite decide_False by naive_solver. lia.
Qed.

Lemma wp_inspect ex q tr m own h (Q : MemoryStatus * MemoryView -> qmachine M W -> Prop) :
  st ex q tr m -> (forall r m', st ex q tr m' -> Q r m') -> wp (on_memory (mem_inspect own h)) Q m.
Proof.
  intros [<- <- Hg Hh] HQ. unfold wp, on_memory. pose proof (law_inspect own h (memory m)) as HL.
  destruct (mem_inspect own h (memory m)) as [r mem]. cbn in HL. subst mem. apply HQ. by split.
Qed.

Lemma wp_sync ex q tr m own h d (Q : MemoryStatus -> qmachine M W -> Prop) :
  st ex q tr m -> 0 <= slot h -> (forall r m', st ex q tr m' -> Q r m') ->
  wp (on_memory (mem_synchronizeRetained own h d)) Q m.
Proof.
  intros [<- <- Hg Hh] Hs HQ. unfold wp, on_memory.
  pose proof (law_sync own h d _ Hg Hs) as HL. unfold wp in HL.
  destruct (mem_synchronizeRetained own h d (memory m)) as [r mem]. cbn [fst snd] in HL. destruct HL as [Hg' Hr].
  apply HQ. split; cbn; try done. intros h'. rewrite Hr. apply Hh.
Qed.

Lemma view_handle b h v : view_ok b h v = true -> handle v = h.
Proof.
  unfold view_ok, sameHandle. intros H. repeat (apply andb_true_iff in H as [H ?]). zbool.
  destruct (handle v), h. cbn in *. by subst.
Qed.

Lemma wp_qview ex q tr m h (Q : QueueStatus * MemoryView -> qmachine M W -> Prop) :
  st ex q tr m ->
  (forall r m', st ex q tr m' -> (r.1 = Ok -> view_ok (binding_ q) h r.2 = true) -> Q r m') ->
  wp (qview h) Q m.
Proof.
  intros Hs HQ. unfold qview. wp_step. wp_step. rewrite (st_queue _ _ _ _ Hs). wp_step.
  eapply wp_inspect; [done|]. intros r m' Hs'. apply wp_ret. apply HQ; [done|]. cbn.
  destruct (MellowNative.isOk r.1); [|done]. cbn. by case_match.
Qed.

(** ** One job *)

Definition with_job q (j : nat) (job : Job) : GpFifoQueue W := set_jobs_ (<[j := job]> (jobs_ q)) q.

Lemma alter_job f j q job :
  jobs_ q !! j = Some job -> set_jobs_ (alter f j (jobs_ q)) q = with_job q j (f job).
Proof.
  intros Hj. unfold with_job. f_equal. revert j Hj.
  generalize (jobs_ q). induction l as [|x l IH]; intros [|j]; cbn; try done.
  - by intros [= ->].
  - intros Hj. f_equal. by apply IH.
Qed.

Lemma with_job_id q j job : jobs_ q !! j = Some job -> with_job q j job = q.
Proof. intros Hj. unfold with_job. rewrite list_insert_id by done. by destruct q. Qed.

Lemma with_job_twice q j a b : with_job (with_job q j a) j b = with_job q j b.
Proof. unfold with_job. cbn. by rewrite list_insert_insert_eq. Qed.

Lemma with_job_lookup q j job a : jobs_ q !! j = Some job -> jobs_ (with_job q j a) !! j = Some a.
Proof. intros Hj. apply list_lookup_insert_eq. by eapply lookup_lt_Some. Qed.

Lemma with_job_at q j job a : jobs_ q !! j = Some job -> job_at (with_job q j a) j = a.
Proof. intros Hj. unfold job_at. by rewrite (with_job_lookup _ _ _ _ Hj). Qed.

Lemma refs_with_job q j job a h :
  jobs_ q !! j = Some job ->
  refs (with_job q j a) h = refs q h - count_in h (jheld job) + count_in h (jheld a).
Proof.
  intros Hj. unfold refs. rewrite <- (alter_job (fun _ => a) _ _ _ Hj). cbn.
  rewrite (job_refs_alter _ _ _ _ _ Hj). lia.
Qed.

Lemma npending_with_job q j job a :
  jobs_ q !! j = Some job ->
  npending (jobs_ (with_job q j a)) = npending (jobs_ q) - b2z (ringPending job) + b2z (ringPending a).
Proof.
  intros Hj. rewrite <- (alter_job (fun _ => a) _ _ _ Hj). cbn. by apply npending_alter.
Qed.

Lemma wp_upd_job ex ex' q tr m j job f (Q : unit -> qmachine M W -> Prop) :
  st ex q tr m -> jobs_ q !! j = Some job ->
  (forall h, count_in h (jheld (f job)) + ex' h <= count_in h (jheld job) + ex h) ->
  (forall m', st ex' (with_job q j (f job)) tr m' -> Q tt m') -> wp (upd_job j f) Q m.
Proof.
  intros Hs Hj Hc HQ. unfold upd_job. eapply (wp_qupd ex ex' q tr); [exact Hs|reflexivity| |].
  - intros h. rewrite (alter_job _ _ _ _ Hj), (refs_with_job _ _ _ _ _ Hj). specialize (Hc h). lia.
  - by rewrite (alter_job _ _ _ _ Hj).
Qed.

(** [releaseJob] gives back every hold of the job; it cannot fail. *)
Lemma release_held_ok q tr j job n m (Q : QueueStatus -> qmachine M W -> Prop) :
  st none q tr m -> jobs_ q !! j = Some job -> n = length (jheld job) ->
  Forall (fun h => 0 <= slot h) (jheld job) ->
  (forall m', st none (with_job q j (set_jheld [] job)) tr m' -> Q Ok m') ->
  wp (release_held (cb_owner (binding_ q)) j n) Q m.
Proof.
  revert q job m. induction n as [|n IH]; intros q job m Hs Hj Hn Hf HQ.
  - cbn [release_held]. wp_step. wp_step. rewrite (st_queue _ _ _ _ Hs).
    assert (jheld job = []) as E by (by apply length_zero_iff_nil).
    unfold job_at. rewrite Hj. cbn. rewrite E. cbn. apply wp_ret, HQ.
    assert (set_jheld [] job = job) as -> by (rewrite <- E; by destruct job).
    by rewrite with_job_id.
  - destruct (exists_last (l := jheld job)) as (l & h & E); [by intros E; rewrite E in Hn|].
    cbn [release_held]. wp_step. wp_step. rewrite (st_queue _ _ _ _ Hs). unfold job_at. rewrite Hj. cbn.
    rewrite E, last_snoc. rewrite E in Hn, Hf. rewrite length_app in Hn. cbn in Hn.
    apply Forall_app in Hf as [Hf1 Hf2]. apply Forall_cons in Hf2 as [Hf2 _].
    wp_step. eapply wp_release; [done|done| |].
    { pose proof (count_in_refs _ _ _ h Hj) as Hc. rewrite E, count_in_app in Hc. cbn in Hc.
      rewrite bool_decide_true in Hc by done. pose proof (count_in_nonneg h l). cbn in Hc. unfold refs, none, b2z.
      repeat case_match; lia. }
    intros m1 Hs1. cbn [MellowNative.isOk negb]. wp_step.
    eapply (wp_upd_job _ none); [done|done| |].
    { intros h'. cbn. rewrite E, length_app, count_in_app. cbn. rewrite Nat.add_sub, take_app_length.
      unfold none, one. lia. }
    intros m2 Hs2. cbn in Hs2.
    set (job' := set_jheld (take (length (jheld job) - 1) (jheld job)) job) in *.
    assert (El : jheld job' = l).
    { cbn. by rewrite E, length_app, Nat.add_sub, take_app_length. }
    change (cb_owner (binding_ q)) with (cb_owner (binding_ (with_job q j job'))).
    eapply (IH _ job'); [done| | | |].
    + by eapply with_job_lookup.
    + rewrite El. lia.
    + by rewrite El.
    + intros m' Hs'. apply HQ. by rewrite with_job_twice in Hs'.
Qed.

Lemma releaseJob_ok q tr j job m (Q : QueueStatus -> qmachine M W -> Prop) :
  st none q tr m -> jobs_ q !! j = Some job -> Forall (fun h => 0 <= slot h) (jheld job) ->
  (forall m', st none (with_job q j (set_jheld [] job)) tr m' -> Q Ok m') -> wp (releaseJob j) Q m.
Proof.
  intros Hs Hj Hf HQ. unfold releaseJob. wp_step. wp_step. rewrite (st_queue _ _ _ _ Hs).
  eapply release_held_ok; try done. unfold job_at. by rewrite Hj.
Qed.

(** [hold] records the hold it takes. *)
Lemma hold_ok q tr j job h m (Q : bool -> qmachine M W -> Prop) :
  st none q tr m -> jobs_ q !! j = Some job -> 0 <= slot h ->
  (forall m', st none (with_job q j (set_jheld (jheld job ++ [h]) job)) tr m' -> Q true m') ->
  (forall m', st none q tr m' -> Q false m') -> wp (hold j h) Q m.
Proof.
  intros Hs Hj Hh H1 H2. unfold hold. wp_step. wp_step. rewrite (st_queue _ _ _ _ Hs). wp_step.
  eapply wp_retain; [done|done| |].
  - intros m1 Hs1. cbn [MellowNative.isOk negb]. wp_step. eapply (wp_upd_job _ none); [done|done| |].
    + intros h'. cbn. rewrite count_in_app. cbn. unfold none, one, b2z. lia.
    + intros m2 Hs2. apply wp_ret. by apply H1.
  - intros r m1 Hr Hs1. assert (MellowNative.isOk r = false) as -> by (by destruct r).
    apply wp_ret. by apply H2.
Qed.

Lemma hold_all_ok q tr j job l m (Q : bool -> qmachine M W -> Prop) :
  st none q tr m -> jobs_ q !! j = Some job -> Forall (fun h => 0 <= slot h) l ->
  (forall m', st none (with_job q j (set_jheld (jheld job ++ l) job)) tr m' -> Q true m') ->
  (forall k m', st none (with_job q j (set_jheld (jheld job ++ take k l) job)) tr m' -> Q false m') ->
  wp (hold_all j l) Q m.
Proof.
  intros Hs Hj Hl. revert q job m Hs Hj Q. induction Hl as [|h l Hh Hl IH]; intros q job m Hs Hj Q H1 H2;
    cbn [hold_all].
  - apply wp_ret, H1. rewrite app_nil_r.
    assert (set_jheld (jheld job) job = job) as -> by (by destruct job). by rewrite with_job_id.
  - wp_step. eapply hold_ok; try done.
    + intros m1 Hs1. cbn [negb]. eapply IH; [done|by eapply with_job_lookup| |].
      * intros m2. rewrite with_job_twice. cbn. rewrite <- app_assoc. apply H1.
      * intros k m2. rewrite with_job_twice. cbn. rewrite <- app_assoc. apply (H2 (S k)).
    + intros m1 Hs1. cbn [negb]. apply wp_ret, (H2 O). cbn. rewrite app_nil_r.
      assert (set_jheld (jheld job) job = job) as -> by (by destruct job). by rewrite with_job_id.
Qed.

Lemma sync_all_ok q tr own l m (Q : bool -> qmachine M W -> Prop) :
  st none q tr m -> Forall (fun h => 0 <= slot h) l ->
  (forall b m', st none q tr m' -> Q b m') -> wp (sync_all own l) Q m.
Proof.
  intros Hs Hl HQ. revert m Hs. induction Hl as [|h l Hh Hl IH]; intros m Hs; cbn [sync_all].
  - by apply wp_ret, HQ.
  - wp_step. eapply wp_sync; [done|done|]. intros r m1 Hs1. wp_step; [by apply wp_ret, HQ|by apply IH].
Qed.

Lemma views_ok q tr l m (Q : QueueStatus * list MemoryView -> qmachine M W -> Prop) :
  st none q tr m ->
  (forall r m', st none q tr m' -> (r.1 = Ok -> handle <$> r.2 = l) -> Q r m') -> wp (views l) Q m.
Proof.
  revert m Q. induction l as [|h l IH]; intros m Q Hs HQ; cbn [views]; [by apply wp_ret, HQ|].
  wp_step. eapply wp_qview; [done|]. intros r m1 Hs1 Hv.
  wp_step; [apply wp_ret, HQ; [done|]; intros E; cbn in E; by rewrite E in Hcond|].
  assert (Hr : handle r.2 = h) by (eapply view_handle, Hv; by destruct (r.1)).
  wp_step. apply IH; [done|]. intros r' m2 Hs2 Hl. apply wp_ret, HQ; [done|]. cbn. intros E. by rewrite Hr, Hl.
Qed.

Lemma check_resources_ok q tr r before rest m (Q : QueueStatus -> qmachine M W -> Prop) :
  st none q tr m -> (forall s m', st none q tr m' -> Q s m') -> wp (check_resources r before rest) Q m.
Proof.
  revert before m. induction rest as [|d rest IH]; intros before m Hs HQ; cbn [check_resources];
    [by apply wp_ret, HQ|].
  wp_step. wp_step. wp_step; [by apply wp_ret, HQ|]. wp_step. eapply wp_qview; [done|].
  intros v m1 Hs1 _. wp_step; [by apply wp_ret, HQ|]. wp_step; [by apply wp_ret, HQ|]. by apply IH.
Qed.

Lemma tick_ok q tr now m (Q : bool -> qmachine M W -> Prop) :
  st none q tr m ->
  (forall m', st none (set_lastTime_ now (set_clockSet_ true q)) tr m' -> Q true m') -> Q false m ->
  wp (tick now) Q m.
Proof.
  intros Hs H1 H2. unfold tick. wp_step. wp_step. wp_step; [by apply wp_ret|]. wp_step.
  by eapply wp_qupd_same.
Qed.

(** [releaseBindingHolds] gives back what is recorded; it cannot fail. *)
Definition unheld q : GpFifoQueue W := set_ringHeld_ false (set_fenceHeld_ false q).

Lemma releaseBindingHolds_ok q tr m (Q : QueueStatus -> qmachine M W -> Prop) :
  st none q tr m -> (ringHeld_ q = true -> 0 <= slot (ring (binding_ q))) ->
  (fenceHeld_ q = true -> 0 <= slot (fence (binding_ q))) ->
  (forall m', st none (unheld q) tr m' -> Q Ok m') -> wp releaseBindingHolds Q m.
Proof.
  intros Hs Hr Hf HQ. unfold releaseBindingHolds. wp_step. wp_step. rewrite (st_queue _ _ _ _ Hs).
  wp_step. apply (wp_mono _ (fun ok m' => ok = true /\ st none (set_fenceHeld_ false q) tr m')).
  { destruct (fenceHeld_ q) eqn:Ef.
    - wp_step. eapply wp_release; [done|by apply Hf| |].
      { unfold refs, none. rewrite Ef, (bool_decide_true (fence (binding_ q) = fence (binding_ q))) by done. pose proof (job_refs_nonneg (fence (binding_ q)) (jobs_ q)).
        unfold b2z. cbn. case_match; lia. }
      intros m1 Hs1. cbn [MellowNative.isOk]. wp_step. eapply (wp_qupd _ none); [exact Hs1|reflexivity| |].
      { intros h. unfold refs, none, one. cbn. rewrite Ef. cbn. lia. }
      intros m2 Hs2. by apply wp_ret.
    - apply wp_ret. split; [done|].
      assert (set_fenceHeld_ false q = q) as -> by (rewrite <- Ef; by destruct q). done. }
  intros ok m1 [-> Hs1]. cbn [negb]. wp_step.
  apply (wp_mono _ (fun ok m' => ok = true /\ st none (unheld q) tr m')).
  { destruct (ringHeld_ q) eqn:Er.
    - wp_step. change (cb_owner (binding_ q)) with (cb_owner (binding_ (set_fenceHeld_ false q))).
      eapply wp_release; [done|by apply Hr| |].
      { unfold refs, none. cbn. rewrite Er, (bool_decide_true (ring (binding_ q) = ring (binding_ q))) by done.
        pose proof (job_refs_nonneg (ring (binding_ q)) (jobs_ q)). cbn. lia. }
      intros m2 Hs2. cbn [MellowNative.isOk]. wp_step. eapply (wp_qupd _ none); [exact Hs2|reflexivity| |].
      { intros h. unfold refs, none, one. cbn. rewrite Er. cbn. lia. }
      intros m3 Hs3. by apply wp_ret.
    - apply wp_ret. split; [done|]. unfold unheld.
      assert (set_ringHeld_ false (set_fenceHeld_ false q) = set_fenceHeld_ false q) as ->
        by (rewrite <- Er; by destruct q). done. }
  intros ok m2 [-> Hs2]. apply wp_ret. by apply HQ.
Qed.
End Ops.
