(* ===== verification/GpFifoSteps.v ===== *)
(** Every operation of the GPFIFO queue keeps its invariant; what a submission that
    succeeds has done. *)
From stdpp Require Import base numbers list.
From S2P Require Import Prelude.
From S2P Require Import StateWp.
From S2P Require Import MemoryOwner.
From S2P Require Import NvCommand.
From S2P Require Import GpFifoQueue.
From S2P Require Import GpFifoInv.
Import MellowNative NativeNvidia.

Section Steps.
Context {M W : Type} `{!MemoryInterface M, !MemoryLaws M}.
Implicit Types (q : GpFifoQueue W) (m : qmachine M W) (tr : list q_event).

Lemma qinv_st m : qinv m <-> st none (qu m) (qtrace m) m /\ queue_ok None (qu m) (qtrace m).
Proof.
  split.
  - intros [[A B] C]. split; [|done]. by split.
  - intros [[_ _ A B] C]. split; [|done]. by split.
Qed.

Lemma st_qinv q tr m : st none q tr m -> queue_ok None q tr -> qinv m.
Proof. intros Hs Hq. pose proof Hs as [<- <- _ _]. by apply qinv_st. Qed.

(** ** The queue alone *)

Lemma job_ok_trace ev j tr prep job :
  (ringPending job = true -> sealed_in j (ev :: tr) = sealed_in j tr) ->
  job_ok j tr prep job -> job_ok j (ev :: tr) prep job.
Proof.
  intros He [A B C D E]. split; try done.
  - intros Hp. rewrite (He Hp). by apply C.
  - intros H. destruct (E H) as (v & ? & ?). exists v. by split; [right|].
Qed.

(** Events, but for seals of other jobs than the one being prepared, leave the invariant. *)
Lemma queue_ok_trace ev x q tr : seals_only x ev -> queue_ok x q tr -> queue_ok x q (ev :: tr).
Proof.
  intros He [A B C D E F G H I]. split; try done. intros j job Hj. apply job_ok_trace; [|by apply B].
  intros Hp. destruct x as [k|]; [|by apply sealed_in_cons]. apply (sealed_in_other _ k); [done|].
  intros ->. destruct (jo_free _ _ _ _ (B _ _ Hj) (C _ _ eq_refl Hj)). congruence.
Qed.

(** The fields that matter. *)
Record same_queue q q' : Prop := {
  sq_jobs : jobs_ q' = jobs_ q;
  sq_pending : pending_ q' = pending_ q;
  sq_claimed : claimed_ q' = claimed_ q;
  sq_binding : binding_ q' = binding_ q;
  sq_ring : ringHeld_ q' = ringHeld_ q;
  sq_fence : fenceHeld_ q' = fenceHeld_ q;
}.

(** The state may stay or become [NeedsReset]. *)
Definition state_step q q' : Prop :=
  (state_ q' = state_ q /\ put_ q' = put_ q) \/ state_ q' = NeedsReset.

Lemma queue_ok_same x q q' tr :
  queue_ok x q tr -> same_queue q q' -> state_step q q' -> queue_ok x q' tr.
Proof.
  intros [A B C D E F G H I] [S1 S2 S3 S4 S5 S6] Hst.
  split; rewrite ?S1, ?S2, ?S3, ?S4, ?S5, ?S6; try done.
  - intros Hd. apply G. destruct Hst as [[<- _]|Hst]; [done|congruence].
  - intros Hd. destruct Hst as [[Hst ->]|Hst]; [|congruence]. apply H. congruence.
Qed.

Lemma queue_ok_job x x' q q' tr j job job' :
  queue_ok x q tr -> jobs_ q !! j = Some job -> jobs_ q' = <[j := job']> (jobs_ q) ->
  (x = None \/ x = Some j) -> (x' = None \/ x' = Some j) ->
  job_ok j tr (bool_decide (x' = Some j)) job' -> (x' = Some j -> jstate job' = Free) ->
  pending_ q' = npending (jobs_ q) - b2z (ringPending job) + b2z (ringPending job') ->
  claimed_ q' = claimed_ q -> binding_ q' = binding_ q -> ringHeld_ q' = ringHeld_ q ->
  fenceHeld_ q' = fenceHeld_ q ->
  (claimed_ q = false -> jheld job' = [] /\ ringPending job' = false) ->
  (b2z (ringPending job') <= b2z (ringPending job) \/ npending (jobs_ q) < ringEntries (binding_ q) - 1) ->
  (state_ q' = Detached -> state_ q = Detached) ->
  (state_ q' = Ready -> claimed_ q = true /\ 0 <= put_ q' < ringEntries (binding_ q)) ->
  queue_ok x' q' tr.
Proof.
  intros [A B C D E F G H I] Hj Ej Hx Hx' Hjo Hfree Hp Ec Eb Er Ef Hu Hb Hd Hr.
  assert (Hl : (j < length (jobs_ q))%nat) by (by eapply lookup_lt_Some).
  assert (Hn : npending (jobs_ q') = npending (jobs_ q) - b2z (ringPending job) + b2z (ringPending job')).
  { rewrite Ej. exact (npending_with_job _ _ _ job' Hj). }
  assert (Hlook : forall k b, jobs_ q' !! k = Some b -> (k = j /\ b = job') \/ (k <> j /\ jobs_ q !! k = Some b)).
  { intros k b. rewrite Ej. destruct (decide (k = j)) as [->|Hkj].
    - rewrite list_lookup_insert_eq by done. intros [= <-]. by left.
    - rewrite list_lookup_insert_ne by done. by right. }
  assert (Hb2 : b2z (ringPending job') <= 1) by (destruct (ringPending job'); cbn; lia).
  assert (Hb3 : 0 <= b2z (ringPending job)) by (destruct (ringPending job); cbn; lia).
  split; rewrite ?Ec, ?Eb, ?Er, ?Ef; try done.
  - by rewrite Ej, length_insert.
  - intros k b [[-> ->]|[Hkj Hk]]%Hlook; [done|]. specialize (B k b Hk).
    rewrite bool_decide_false in B |- * by (intros ->; naive_solver). done.
  - intros k b -> [[-> ->]|[Hkj Hk]]%Hlook; [naive_solver|]. destruct Hx' as [?|[= ->]]; done.
  - by rewrite Hn.
  - intros Hcl k b [[-> ->]|[Hkj Hk]]%Hlook; [by apply Hu|by eapply E].
  - intros Hcl. destruct (F Hcl) as (F1 & F2 & F3 & F4). split_and!; try done; [lia..|].
    rewrite Hn. destruct Hb; lia.
  - intros Hdt%Hd. by apply G.
Qed.

Lemma ready_inv q tr : queue_ok None q tr -> state_ q = Ready ->
  claimed_ q = true /\ 0 <= put_ q < ringEntries (binding_ q) /\ 2 <= ringEntries (binding_ q) <= 256.
Proof.
  intros Hq Hr. destruct (qo_ready _ _ _ Hq Hr) as [Hc Hp].
  destruct (qo_claimed _ _ _ Hq Hc) as (_ & _ & He & _). done.
Qed.

(** ** Submission *)

Section Submit.
Context (j : nat).

(** A job that is prepared: free, with its holds. *)
Record preparing q tr job : Prop := {
  pr_queue : queue_ok (Some j) q tr;
  pr_job : jobs_ q !! j = Some job;
  pr_claimed : claimed_ q = true;
  pr_ready : state_ q = Ready;
}.

Lemma prep_job q tr job : preparing q tr job ->
  jstate job = Free /\ ringPending job = false /\ Forall (fun h => 0 <= slot h) (jheld job).
Proof.
  intros [Hq Hj _ _]. pose proof (qo_jobs _ _ _ Hq _ _ Hj) as [A B C D E].
  pose proof (qo_prep _ _ _ Hq _ _ eq_refl Hj) as Hf. by destruct (B Hf).
Qed.

(** The holds of the job in preparation do not matter to the rest. *)
Lemma prep_held q tr job l :
  preparing q tr job -> Forall (fun h => 0 <= slot h) l ->
  preparing (with_job q j (set_jheld l job)) tr (set_jheld l job).
Proof.
  intros Hp Hl. destruct (prep_job _ _ _ Hp) as (Hf & Hrp & _). pose proof Hp as [Hq Hj Hc Hr].
  split; try done; [|by eapply with_job_lookup].
  eapply (queue_ok_job (Some j) (Some j)); try done; try (by right); cbn.
  - split; cbn; try done; try congruence.
    + intros _. rewrite bool_decide_true by done. done.
  - rewrite (qo_pending _ _ _ Hq), Hrp. cbn. lia.
  - congruence.
  - left. lia.
  - apply (qo_ready _ _ _ Hq).
Qed.

(** The slot is free again. *)
Lemma prep_cancel q q' tr job :
  preparing q tr job -> jobs_ q' = <[j := no_job]> (jobs_ q) -> same_queue (set_jobs_ (jobs_ q') q) q' ->
  state_step q q' -> queue_ok None q' tr.
Proof.
  intros Hp Ej [_ S2 S3 S4 S5 S6] Hst. destruct (prep_job _ _ _ Hp) as (Hf & Hrp & _).
  pose proof Hp as [Hq Hj Hc Hr]. cbn in *.
  eapply (queue_ok_job (Some j) None q q' tr j job no_job); try done; try (by left); try (by right).
  - rewrite S2, (qo_pending _ _ _ Hq), Hrp. cbn. lia.
  - rewrite Hrp. by left.
  - intros Hd. destruct Hst as [[<- _]|Hst]; congruence.
  - intros Hd. destruct Hst as [[_ ->]|Hst]; [|congruence]. by apply (qo_ready _ _ _ Hq).
Qed.

Lemma unpublished_ok q tr job f m :
  st none q tr m -> preparing q tr job ->
  wp (unpublished j f) (fun s m' => qinv m' /\ s = f) m.
Proof.
  intros Hs Hp. destruct (prep_job _ _ _ Hp) as (Hf & Hrp & Hsl). pose proof Hp as [Hq Hj Hc Hr].
  unfold unpublished. wp_step. eapply releaseJob_ok; [done|done|done|]. intros m1 Hs1. cbn [isOk negb].
  wp_step. eapply (wp_upd_job none none); [done|by eapply with_job_lookup|done|].
  intros m2 Hs2. rewrite with_job_twice in Hs2. wp_step. apply wp_when; intros Hm.
  - eapply wp_qupd_same; try done. intros m3 Hs3. apply wp_ret. split; [|done].
    eapply st_qinv; [done|]. eapply prep_cancel; try done. by right.
  - apply wp_ret. split; [|done]. eapply st_qinv; [done|]. eapply prep_cancel; try done. by left.
Qed.

(** The job becomes visible to the channel. *)
Lemma published_ok q tr job stt newPut m (Q : unit -> qmachine M W -> Prop) :
  st none q tr m -> preparing q tr job -> jheld job <> [] -> sealed_in j tr = Some (token job, jheld job) ->
  stt = Submitted \/ stt = JPublicationUnknown ->
  npending (jobs_ q) < ringEntries (binding_ q) - 1 -> 0 <= newPut < ringEntries (binding_ q) ->
  (forall m' q', st none q' tr m' -> queue_ok None q' tr ->
     jobs_ q' = <[j := set_ringPending true (set_jstate stt job)]> (jobs_ q) -> put_ q' = newPut ->
     Q tt m') ->
  wp (published j stt newPut) Q m.
Proof.
  intros Hs Hp Hh Hse Hst Hn Hnp HQ. destruct (prep_job _ _ _ Hp) as (Hf & Hrp & Hsl).
  pose proof Hp as [Hq Hj Hc Hr]. pose proof (npending_bound (jobs_ q)).
  destruct (qo_claimed _ _ _ Hq Hc) as (_ & _ & He & _). unfold MaxRingEntries in He.
  unfold published. wp_step. eapply (wp_upd_job none none); [done|done|done|]. intros m1 Hs1. cbn in Hs1.
  eapply wp_qupd_same; try done. intros m2 Hs2. eapply HQ; [done| |done|done].
  eapply (queue_ok_job (Some j) None q _ tr j job); try done; try (by left); try (by right); cbn.
  - rewrite bool_decide_false by done. split; cbn; try done; try (by destruct Hst as [-> | ->]).
  - rewrite (qo_pending _ _ _ Hq), Hrp. cbn. rewrite wrap_small by (eval_pows; lia). lia.
  - congruence.
Qed.

(** The entry that a submission stores, and what the channel fetches through it. *)
Definition entry_for q (r : SubmitRequest) (e : PortedNvidia.GpfifoEntry) : Prop :=
  exists v n, view_ok (binding_ q) (commands r) v = true /\ gpuSpan v (offset (range r)) n = true /\
    commandBytes (range r) <= n <= capacityBytes (range r) /\
    PortedNvidia.run_entries 0 [PortedNvidia.read_entry (PortedNvidia.writeGpfifoLittleEndian e)] =
      Some [{| PortedNvidia.f_address := address (mapping v) +64 offset (range r);
               PortedNvidia.f_bytes := n; PortedNvidia.f_sync := PortedNvidia.Proceed |}].

Definition ring_slot q : Z := cpu (pin (ring_ q)) + ringOffset (binding_ q) + put_ q * 8.
Definition next_put q : Z := (put_ q + 1) mod ringEntries (binding_ q).

(** What a submission has done when it returns [Ok]: newest call first. *)
Definition submitted q tr (r : SubmitRequest) job (tok : FenceToken) m' : Prop :=
  exists e dt, tok = token job /\ entry_for q r e /\
    jobs_ (qu m') !! j = Some (set_ringPending true (set_jstate Submitted job)) /\
    put_ (qu m') = next_put q /\
    qtrace m' = EvDoorbell dt Done :: EvToken Ok :: EvAfterPut Ok :: EvWritePut (next_put q) Done ::
      EvBeforePut Ok :: EvRingStore (ring_slot q) (PortedNvidia.writeGpfifoLittleEndian e) ::
      EvSeal j (token job) (jheld job) Ok :: tr.

Lemma preparing_trace ev q tr job : seals_only (Some j) ev -> preparing q tr job -> preparing q (ev :: tr) job.
Proof. intros He [A B C D]. split; try done. by apply queue_ok_trace. Qed.

Lemma uncertain_ok q tr job newPut m :
  st none q tr m -> preparing q tr job -> jheld job <> [] -> sealed_in j tr = Some (token job, jheld job) ->
  npending (jobs_ q) < ringEntries (binding_ q) - 1 -> 0 <= newPut < ringEntries (binding_ q) ->
  wp (uncertain j newPut) (fun s m' => qinv m' /\ s = PublicationUnknown) m.
Proof.
  intros Hs Hp Hh Hse Hn Hnp. unfold uncertain. wp_step. eapply published_ok; try done; [by right|].
  intros m1 q1 Hs1 Hq1 _ _. wp_step. eapply wp_qupd_same; try done. intros m2 Hs2. apply wp_ret.
  split; [|done]. eapply st_qinv; [done|]. eapply queue_ok_same; [done|done|]. by right.
Qed.

Lemma ring_out_ok q tr job m :
  st none q tr m -> preparing q tr job -> jheld job <> [] -> sealed_in j tr = Some (token job, jheld job) ->
  npending (jobs_ q) < ringEntries (binding_ q) - 1 ->
  wp (ring_out j) (fun r m' => qinv m' /\ (r.1 = Ok -> r.2 = token job /\
    jobs_ (qu m') !! j = Some (set_ringPending true (set_jstate Submitted job)) /\
    put_ (qu m') = next_put q /\ exists dt,
    qtrace m' = EvDoorbell dt Done :: EvToken Ok :: EvAfterPut Ok :: EvWritePut (next_put q) Done :: tr)) m.
Proof.
  intros Hs Hp Hh Hse Hn. pose proof Hp as [Hq Hj Hc Hr].
  destruct (qo_claimed _ _ _ Hq Hc) as (_ & _ & He & _). destruct (qo_ready _ _ _ Hq Hr) as [_ Hput].
  unfold MaxRingEntries in He.
  unfold ring_out. wp_step. wp_step. rewrite (st_queue _ _ _ _ Hs).
  rewrite (wrap_small 32 (put_ q + 1)) by (eval_pows; lia). fold (next_put q).
  assert (Hnp : 0 <= next_put q < ringEntries (binding_ q)) by (apply Z.mod_pos_bound; lia).
  unfold job_at. rewrite Hj. cbn [default from_option].
  wp_step. eapply wp_qcall; [done|]. intros p m1 Hs1. apply (preparing_trace (EvWritePut (next_put q) p)) in Hp; [|done].
  destruct p.
  - wp_step. eapply wp_qcall; [done|]. intros s m2 Hs2. apply (preparing_trace (EvAfterPut s)) in Hp; [|done].
    assert (Hunc : forall tr2 m2, st none q tr2 m2 -> preparing q tr2 job ->
      sealed_in j tr2 = Some (token job, jheld job) ->
      wp (s <-- uncertain j (next_put q) ;; ret (s, token job)) (fun r m' => qinv m' /\ (r.1 = Ok -> False)) m2).
    { intros tr2 m2' Hs2' Hp' Hse'. wp_step. eapply wp_mono; [by eapply uncertain_ok|].
      intros s' m' [Hi ->]. by apply wp_ret. }
    assert (Hweak : forall (P : QueueStatus * FenceToken -> qmachine M W -> Prop) c m2,
      wp c (fun r m' => qinv m' /\ (r.1 = Ok -> False)) m2 -> wp c (fun r m' => qinv m' /\ (r.1 = Ok -> P r m')) m2).
    { intros P c m2' Hc'. eapply wp_mono; [exact Hc'|]. intros r m' [? Hf]. split; [done|]. by intros ?%Hf. }
    destruct s; cbn [isOk]; try (wp_step; wp_step; cbn [isOk fst]; wp_step; wp_step; cbn [negb];
      apply Hweak; by eapply Hunc).
    wp_step. eapply wp_qcall; [done|]. intros [s dt] m3 Hs3. cbn [fst snd] in *.
    apply (preparing_trace (EvToken s)) in Hp; [|done].
    destruct s; cbn [isOk]; try (wp_step; wp_step; cbn [negb]; apply Hweak; by eapply Hunc).
    wp_step. wp_step. eapply wp_qcall; [done|]. intros d m4 Hs4. wp_step.
    apply (preparing_trace (EvDoorbell (wrap 32 dt) d)) in Hp; [|done].
    destruct d; cbn [bool_decide]; try (rewrite bool_decide_false by done; cbn [negb]; apply Hweak; by eapply Hunc).
    rewrite bool_decide_true by done. cbn [negb]. wp_step. eapply published_ok; try done; [by left|].
    intros m5 q5 Hs5 Hq5 Ej Ep. apply wp_ret. split; [by eapply st_qinv|]. intros _.
    pose proof Hs5 as [-> -> _ _]. split_and!; try done.
    + rewrite Ej. apply list_lookup_insert_eq. by eapply lookup_lt_Some.
    + by exists (wrap 32 dt).
  - wp_step. eapply wp_mono; [by eapply unpublished_ok|]. intros s m' [Hi ->]. by apply wp_ret.
  - wp_step. eapply wp_mono; [by eapply uncertain_ok|]. intros s m' [Hi ->]. by apply wp_ret.
Qed.

Lemma seal_ok q tr job r v vs m (Q : QueueStatus + PortedNvidia.GpfifoEntry -> qmachine M W -> Prop) :
  st none q tr m -> jobs_ q !! j = Some job -> view_ok (binding_ q) (commands r) v = true ->
  (forall s m', st none q (EvSeal j (token job) (handle v :: (handle <$> vs)) s :: tr) m' ->
     forall f, f <> Ok -> Q (inl f) m') ->
  (forall e m', st none q (EvSeal j (token job) (handle v :: (handle <$> vs)) Ok :: tr) m' ->
     entry_for q r e -> Q (inr e) m') ->
  wp (seal j r v vs) Q m.
Proof.
  intros Hs Hj Hv H1 H2. unfold seal. wp_step. wp_step. rewrite (st_queue _ _ _ _ Hs).
  unfold job_at. rewrite Hj. cbn [default from_option].
  wp_step. eapply wp_qcall; [done|]. intros [s n] m1 Hs1. cbn [fst snd].
  wp_step; [apply wp_ret; apply (H1 s); [done|by intros ->]|].
  assert (s = Ok) as -> by (by destruct s).
  wp_step; [apply wp_ret; by apply (H1 Ok)|].
  destruct (PortedNvidia.encodeGpfifoPushbuffer _ _ _ _ _) as [es e] eqn:Ee.
  destruct es; try (apply wp_ret; by apply (H1 Ok)).
  apply wp_ret. apply H2; [done|]. exists v, (wrap 64 n). zbool. split_and!; try done.
  eapply PortedNvidia.pushbuffer_fetch; [| |exact Ee]; by apply wrap_range.
Qed.

Lemma write_entry_ok q tr e m (Q : QueueStatus -> qmachine M W -> Prop) :
  st none q tr m -> 0 <= slot (ring (binding_ q)) ->
  (forall s tr' m', s <> Ok -> Forall (seals_only (Some j)) tr' -> st none q (tr' ++ EvRingStore (ring_slot q) (PortedNvidia.writeGpfifoLittleEndian e) :: tr) m' ->
     Q s m') ->
  (forall m', st none q (EvBeforePut Ok :: EvRingStore (ring_slot q) (PortedNvidia.writeGpfifoLittleEndian e) :: tr) m' ->
     Q Ok m') ->
  wp (write_entry e) Q m.
Proof.
  intros Hs Hr H1 H2. unfold write_entry. wp_step. wp_step. rewrite (st_queue _ _ _ _ Hs).
  wp_step. eapply wp_record; [done|]. intros m1 Hs1. wp_step. eapply wp_sync; [done|done|].
  intros r m2 Hs2. wp_step; [apply wp_ret; by apply (H1 _ []); [|constructor|]|].
  eapply wp_qcall; [done|]. intros s m3 Hs3. destruct (decide (s = Ok)) as [->|Hn]; [by apply H2|].
  apply (H1 _ [EvBeforePut s]); [done|by constructor|done].
Qed.

Lemma preparing_app evs q tr job :
  Forall (seals_only (Some j)) evs -> preparing q tr job -> preparing q (evs ++ tr) job.
Proof. intros He Hp. induction He as [|ev evs Hev _ IH]; [done|]. by apply preparing_trace. Qed.

Lemma submit_job_ok q tr job r m :
  st none q tr m -> preparing q tr job -> jheld job = [] ->
  npending (jobs_ q) < ringEntries (binding_ q) - 1 ->
  0 <= slot (commands r) -> Forall (fun d => 0 <= slot (d_handle d)) (rq_resources r) ->
  wp (submit_job j r) (fun res m' => qinv m' /\ (res.1 = Ok ->
    submitted q tr r (set_jheld (commands r :: (d_handle <$> rq_resources r)) job) res.2 m')) m.
Proof.
  intros Hs Hp Hh Hn Hc Hf. pose proof Hp as [Hq Hj Hcl Hr].
  set (hs := commands r :: (d_handle <$> rq_resources r)).
  assert (Hhs : Forall (fun h => 0 <= slot h) hs).
  { apply Forall_cons. split; [done|]. by apply Forall_fmap. }
  assert (Hring : 0 <= slot (ring (binding_ q))).
  { destruct (qo_claimed _ _ _ Hq Hcl) as (Hrh & _). by apply (qo_slots _ _ _ Hq). }
  assert (Hfail : forall q1 tr1 job1 f m1, st none q1 tr1 m1 -> preparing q1 tr1 job1 -> f <> Ok ->
    wp (s <-- unpublished j f ;; ret (s, no_token)) (fun res m' => qinv m' /\ (res.1 = Ok ->
      submitted q tr r (set_jheld hs job) res.2 m')) m1).
  { intros q1 tr1 job1 f m1 Hs1 Hp1 Hf1. wp_step. eapply wp_mono; [by eapply unpublished_ok|].
    intros s m' [Hi ->]. apply wp_ret. by split. }
  unfold submit_job. fold hs. wp_step. eapply hold_all_ok; [done|done|done| |].
  2: { intros k m1 Hs1. cbn [negb]. eapply Hfail; [done| |done]. rewrite Hh in Hs1 |- *.
       apply prep_held; [done|]. by apply Forall_take. }
  intros m1 Hs1. rewrite Hh in Hs1. cbn [app negb] in Hs1 |- *.
  set (job1 := set_jheld hs job) in *. set (q1 := with_job q j job1) in *.
  assert (Hp1 : preparing q1 tr job1) by (by apply prep_held).
  wp_step. eapply wp_qview; [done|]. intros v m2 Hs2 Hv.
  wp_step. apply (wp_mono _ (fun vs m' => st none q1 tr m' /\
    (isOk vs.1 = true -> isOk v.1 = true /\ handle <$> vs.2 = d_handle <$> rq_resources r))).
  { wp_step; [|wp_step; split; [done|]; cbn; congruence]. eapply views_ok; [done|]. intros vs m3 Hs3 Hvs.
    split; [done|]. intros E. split; [done|]. apply Hvs. by destruct (vs.1). }
  intros vs m3 [Hs3 Hvs]. wp_step; [eapply Hfail; [done|done|by intros E; rewrite E in Hcond]|].
  apply negb_false_iff, Hvs in Hcond as [Hcond Hhs'].
  assert (Hv' : view_ok (binding_ q1) (commands r) v.2 = true) by (apply Hv; by destruct (v.1)).
  wp_step. eapply seal_ok; [done|apply Hp1|done| |].
  { intros s m4 Hs4 f Hf4. eapply Hfail; [done|apply preparing_trace; [by destruct s|done]|done]. }
  rewrite Hhs', (view_handle _ _ _ Hv'). fold hs. change (token job1) with (token job).
  intros e m4 Hs4 He. wp_step. wp_step. rewrite (st_queue _ _ _ _ Hs4).
  wp_step. eapply sync_all_ok; [done| |].
  { unfold job_at. rewrite (pr_job _ _ _ Hp1). done. }
  intros ok m5 Hs5. wp_step; [eapply Hfail; [done|by apply preparing_trace|done]|].
  wp_step. eapply write_entry_ok; [done|done| |].
  { intros s tr' m6 Hns Htr Hs6. rewrite (proj2 (negb_true_iff _)) by (by destruct s).
    eapply Hfail; [done| |done]. apply preparing_app; [done|]. by do 2 (apply preparing_trace; [done|]). }
  intros m6 Hs6. cbn [isOk negb].
  eapply wp_mono; [eapply (ring_out_ok q1); [done|by do 3 (apply preparing_trace; [done|])|done| |]|].
  { cbn. by rewrite Nat.eqb_refl. }
  { unfold q1. rewrite (npending_with_job _ _ _ _ Hj). cbn. lia. }
  intros res m7 [Hi Hok]. split; [done|]. intros (-> & H1 & H2 & dt & H3)%Hok.
  exists e, dt. by split_and!.
Qed.
End Submit.

Lemma free_job_some (l : list Job) j : free_job l = Some j -> exists job, l !! j = Some job /\ jstate job = Free.
Proof.
  revert j. induction l as [|x l IH]; intros j; cbn; [done|]. case_bool_decide as E.
  - intros [= <-]. eauto.
  - destruct (free_job l) as [k|]; [|done]. intros [= <-]. by apply IH.
Qed.

(** The job that a submission starts from. *)
Definition fresh_job q (r : SubmitRequest) : Job :=
  set_deadline (rq_deadline r)
    (set_token {| tk_generation := qgeneration_ q; sequence := wrap 32 (nextSequence_ q + 1) |} no_job).

Definition request_ok (r : SubmitRequest) : Prop :=
  0 <= slot (commands r) /\ Forall (fun d => 0 <= slot (d_handle d)) (rq_resources r).

Lemma submit_ok r now m :
  qinv m -> request_ok r ->
  wp (submit r now) (fun res m' => qinv m' /\ (res.1 = Ok -> exists j,
    submitted j (qu m) (qtrace m) r
      (set_jheld (commands r :: (d_handle <$> rq_resources r)) (fresh_job (qu m) r)) res.2 m')) m.
Proof.
  intros Hi [Hr1 Hr2]. pose proof (proj1 (qinv_st m) Hi) as [Hs Hq].
  assert (Hret : forall q' m' s, st none q' (qtrace m) m' -> same_queue (qu m) q' -> state_step (qu m) q' ->
    s <> Ok -> wp (ret (s, no_token)) (fun res m' => qinv m' /\ (res.1 = Ok -> exists j,
    submitted j (qu m) (qtrace m) r
      (set_jheld (commands r :: (d_handle <$> rq_resources r)) (fresh_job (qu m) r)) res.2 m')) m').
  { intros q' m' s Hs' Hsq Hst Hns. apply wp_ret. split; [|done]. eapply st_qinv; [done|].
    by eapply queue_ok_same. }
  unfold submit. wp_step. wp_step. wp_step; [eapply Hret; try done; by left|].
  apply negb_false_iff, bool_decide_eq_true in Hcond.
  destruct (ready_inv _ _ Hq Hcond) as (Hcl & Hput & He).
  wp_step. eapply tick_ok; [done| |cbn [negb]; eapply Hret; try done; by left].
  intros m1 Hs1. cbn [negb]. set (q1 := set_lastTime_ now (set_clockSet_ true (qu m))) in *.
  assert (Hq1 : same_queue (qu m) q1 /\ state_step (qu m) q1) by (split; [done|by left]).
  destruct Hq1 as [Hsq Hst].
  wp_step; [by eapply Hret|]. wp_step; [by eapply Hret|]. wp_step; [by eapply Hret|].
  apply Z.leb_gt in Hcond2. rewrite wrap_small in Hcond2 by (eval_pows; lia).
  rewrite (qo_pending _ _ _ Hq) in Hcond2.
  destruct (free_job (jobs_ (qu m))) as [j|] eqn:Ef; [|by eapply Hret].
  apply free_job_some in Ef as (job & Hj & Hfree).
  pose proof (qo_jobs _ _ _ Hq _ _ Hj) as [_ Hjf _ _ _]. destruct (Hjf Hfree) as [Hrp Hjh]. specialize (Hjh eq_refl).
  wp_step. eapply wp_qview; [done|]. intros v m2 Hs2 _.
  wp_step; [eapply Hret; try done; intros E; by rewrite E in Hcond3|]. wp_step; [by eapply Hret|].
  wp_step. eapply check_resources_ok; [done|]. intros s m3 Hs3.
  wp_step; [eapply Hret; try done; intros ->; done|].
  wp_step. eapply (wp_upd_job none none q1 _ _ j job); [done|done| |].
  { intros h. cbn. rewrite Hjh. cbn. lia. }
  intros m4 Hs4. fold (fresh_job (qu m) r) in *.
  eapply wp_mono; [eapply (submit_job_ok j _ _ (fresh_job (qu m) r)); try done|].
  - split; try done; [|by eapply with_job_lookup].
    eapply (queue_ok_job None (Some j) (qu m) _ _ j job); try done; try (by left); try (by right); cbn.
    rewrite (qo_pending _ _ _ Hq), Hrp. cbn. lia.
  - rewrite (npending_with_job _ _ job); [|done]. cbn. rewrite Hrp. cbn. lia.
  - intros res m5 [Hi5 Hok]. split; [done|]. intros Hres. exists j. by apply Hok.
Qed.
End Steps.
