(* ===== verification/GpFifoReach.v ===== *)
(** The other operations of the GPFIFO queue, binding, completion and reset, and the
    states that sequences of operations reach. *)
From stdpp Require Import base numbers list relations.
From S2P Require Import Prelude.
From S2P Require Import StateWp.
From S2P Require Import MemoryOwner.
From S2P Require Import NvCommand.
From S2P Require Import GpFifoQueue.
From S2P Require Import GpFifoInv.
From S2P Require Import GpFifoSteps.
Import MellowNative NativeNvidia.

Section Reach.
Context {M W : Type} `{!MemoryInterface M, !MemoryLaws M}.
Implicit Types (q : GpFifoQueue W) (m : qmachine M W) (tr : list q_event).

(** * Binding *)

(** A queue with no job in flight, in any new state. *)
Lemma queue_ok_rebind q q' tr tr' :
  queue_ok None q tr -> (forall j job, jobs_ q !! j = Some job -> jheld job = [] /\ ringPending job = false) ->
  jobs_ q' = jobs_ q -> pending_ q' = 0 -> (forall ev, ev ∈ tr -> ev ∈ tr') ->
  (claimed_ q' = true -> ringHeld_ q' = true /\ fenceHeld_ q' = true /\
    2 <= ringEntries (binding_ q') <= MaxRingEntries) ->
  (state_ q' = Detached -> ringHeld_ q' = false /\ fenceHeld_ q' = false /\ claimed_ q' = false) ->
  (state_ q' = Ready -> claimed_ q' = true /\ 0 <= put_ q' < ringEntries (binding_ q')) ->
  (ringHeld_ q' = true -> 0 <= slot (ring (binding_ q'))) ->
  (fenceHeld_ q' = true -> 0 <= slot (fence (binding_ q'))) -> queue_ok None q' tr'.
Proof.
  intros [A B C D E F G H I] Hcl Ej Ep Htr Hc Hd Hr Hs1 Hs2.
  assert (Hn : npending (jobs_ q) = 0) by (apply npending_zero; intros; by eapply Hcl).
  split; rewrite ?Ej; try done.
  - intros j job Hj. destruct (B j job Hj) as [J1 J2 J3 J4 J5]. destruct (Hcl j job Hj) as [_ Hnp].
    split; try done; [congruence|].
    intros Hdn. destruct (J5 Hdn) as (v & ? & ?). eauto.
  - congruence.
  - intros Hcl'. destruct (Hc Hcl') as (? & ? & ?). split_and!; try done; lia.
Qed.

Lemma idle_refs q h :
  (forall j job, jobs_ q !! j = Some job -> jheld job = [] /\ ringPending job = false) ->
  ringHeld_ q = false -> fenceHeld_ q = false -> refs q h = 0.
Proof.
  intros Hj Hr Hf. unfold refs. rewrite Hr, Hf, job_refs_zero; [done|]. intros. by eapply Hj.
Qed.

Section Bind.
Context (q0 : GpFifoQueue W) (tr0 : list q_event) (b : ChannelBinding).
Context (Hq : queue_ok None q0 tr0) (Hdet : state_ q0 = Detached).
Context (Hring : 0 <= slot (ring b)) (Hfence : 0 <= slot (fence b)).
Context (Hent : 2 <= ringEntries b <= MaxRingEntries).

Lemma detached_clean j job : jobs_ q0 !! j = Some job -> jheld job = [] /\ ringPending job = false.
Proof. apply (qo_unclaimed _ _ _ Hq). by apply (qo_detached _ _ _ Hq). Qed.

Lemma detached_pending : pending_ q0 = 0.
Proof. rewrite (qo_pending _ _ _ Hq). apply npending_zero. intros. by eapply detached_clean. Qed.

(** A queue on the way to be bound: only the binding, its views and holds changed. *)
Record binding_to q : Prop := {
  bt_jobs : jobs_ q = jobs_ q0;
  bt_pending : pending_ q = 0;
  bt_state : state_ q = Detached;
  bt_claimed : claimed_ q = false;
  bt_binding : binding_ q = b;
}.

Lemma binding_clean q : binding_to q ->
  forall j job, jobs_ q !! j = Some job -> jheld job = [] /\ ringPending job = false.
Proof. intros Hb j job. rewrite (bt_jobs _ Hb). apply detached_clean. Qed.

Lemma forget_ok q tr m (s : QueueStatus) :
  st none q tr m -> binding_to q -> ringHeld_ q = false -> fenceHeld_ q = false ->
  (forall ev, ev ∈ tr0 -> ev ∈ tr) -> wp (forget_binding ;;; ret s) (fun _ m' => qinv m') m.
Proof.
  intros Hs Hb Hr Hf Htr. unfold forget_binding. wp_step. eapply wp_qupd_idle; [done| |].
  - intros h. rewrite idle_refs; [lia| |done|done]. intros j job. cbn. by apply (binding_clean q).
  - intros m1 Hs1. apply wp_ret. eapply st_qinv; [done|]. eapply (queue_ok_rebind q0); try done; cbn.
    + apply detached_clean.
    + apply Hb.
    + apply Hb.
    + intros Hcl. by rewrite (bt_claimed _ Hb) in Hcl.
    + intros _. split_and!; try done. apply Hb.
    + intros Hst. by rewrite (bt_state _ Hb) in Hst.
Qed.

Lemma needs_reset_ok q tr m (s : QueueStatus) :
  st none q tr m -> binding_to q -> (forall ev, ev ∈ tr0 -> ev ∈ tr) ->
  wp (needs_reset_stopped ;;; ret s) (fun _ m' => qinv m') m.
Proof.
  intros Hs Hb Htr. unfold needs_reset_stopped. wp_step. eapply wp_qupd_same; try done.
  intros m1 Hs1. apply wp_ret. eapply st_qinv; [done|].
  eapply (queue_ok_rebind q0); try done; cbn; try (by rewrite (bt_binding _ Hb)).
  - apply detached_clean.
  - apply Hb.
  - apply Hb.
  - intros Hcl. by rewrite (bt_claimed _ Hb) in Hcl.
Qed.

Lemma undo_bind_ok q tr m f :
  st none q tr m -> binding_to q -> (forall ev, ev ∈ tr0 -> ev ∈ tr) ->
  wp (undo_bind f) (fun _ m' => qinv m') m.
Proof.
  intros Hs Hb Htr. unfold undo_bind. wp_step. eapply releaseBindingHolds_ok; [done| | |].
  - by rewrite (bt_binding _ Hb).
  - by rewrite (bt_binding _ Hb).
  - intros m1 Hs1. cbn [isOk negb]. eapply forget_ok; try done. by destruct Hb.
Qed.

(** The channel is claimed: the state is [Ready] or [NeedsReset]. *)
Lemma claimed_ok q q' tr :
  binding_to q -> ringHeld_ q = true -> fenceHeld_ q = true -> (forall ev, ev ∈ tr0 -> ev ∈ tr) ->
  jobs_ q' = jobs_ q -> pending_ q' = 0 -> binding_ q' = b -> ringHeld_ q' = true -> fenceHeld_ q' = true ->
  claimed_ q' = true -> state_ q' = NeedsReset \/ (state_ q' = Ready /\ 0 <= put_ q' < ringEntries b) ->
  queue_ok None q' tr.
Proof.
  intros Hb Hr Hf Htr Ej Ep Eb Er Ef Ec Hst. eapply (queue_ok_rebind q0); try done; rewrite ?Eb; try done.
  - apply detached_clean.
  - by rewrite Ej, (bt_jobs _ Hb).
  - intros Hd. destruct Hst as [?|[? _]]; congruence.
  - intros Hd. destruct Hst as [?|[_ ?]]; [congruence|done].
Qed.

Lemma bind_claim_ok q tr m :
  st none q tr m -> binding_to q -> ringHeld_ q = true -> fenceHeld_ q = true ->
  (forall ev, ev ∈ tr0 -> ev ∈ tr) -> wp bind_claim (fun _ m' => qinv m') m.
Proof.
  intros Hs Hb Hr Hf Htr. unfold bind_claim. wp_step. wp_step. rewrite (st_queue _ _ _ _ Hs).
  wp_step. eapply wp_qcall; [done|]. intros [op o] m1 Hs1. cbn [fst snd] in *.
  assert (Htr' : forall ev, ev ∈ tr0 -> ev ∈ EvClaim op :: tr) by (intros; right; auto).
  wp_step; [by eapply undo_bind_ok|].
  wp_step. eapply wp_qupd_same; try done. intros m2 Hs2.
  set (q2 := set_stopped_ false (set_claimed_ true q)) in *.
  assert (Hreset : forall (s : QueueStatus) m2, st none q2 (EvClaim op :: tr) m2 ->
    wp (qupd (set_state_ NeedsReset) ;;; ret s) (fun _ m' => qinv m') m2).
  { intros s m2' Hs2'. wp_step. eapply wp_qupd_same; try done. intros m3 Hs3. apply wp_ret.
    eapply st_qinv; [done|]. eapply (claimed_ok q); try done; [apply Hb|apply Hb|by left]. }
  wp_step; [by apply Hreset|]. wp_step; [by apply Hreset|]. wp_step; [by apply Hreset|].
  unfold observation_mismatch in Hcond1. rewrite (bt_binding _ Hb) in Hcond1.
  apply orb_false_iff in Hcond1 as [[[_ Hput%Z.leb_gt]%orb_false_iff _]%orb_false_iff _].
  wp_step. eapply wp_qupd_same; try done. intros m3 Hs3. apply wp_ret. eapply st_qinv; [done|].
  eapply (claimed_ok q); try done; [apply Hb|]. right. split; [done|]. cbn in *.
  split; [apply wrap_range; lia|done].
Qed.
End Bind.

(** The first look at the ring and the fence changes only their views. *)
Lemma bind_views_ok b q tr m q0 (Q : QueueStatus -> qmachine M W -> Prop) :
  st none q tr m -> binding_to q0 b q ->
  (forall s q' m', st none q' tr m' -> binding_to q0 b q' -> ringHeld_ q' = ringHeld_ q ->
     fenceHeld_ q' = fenceHeld_ q -> Q s m') -> wp (bind_views b) Q m.
Proof.
  intros Hs Hb HQ. unfold bind_views. wp_step. eapply wp_qview; [done|]. intros v m1 Hs1 _.
  wp_step. eapply wp_qupd_same; try done. intros m2 Hs2.
  assert (Hb2 : binding_to q0 b (set_ring_ v.2 q)) by (by destruct Hb).
  wp_step; [apply wp_ret; by eapply HQ|]. wp_step. eapply wp_qview; [done|]. intros f m3 Hs3 _.
  wp_step. eapply wp_qupd_same; try done. intros m4 Hs4.
  assert (Hb4 : binding_to q0 b (set_fence_ f.2 (set_ring_ v.2 q))) by (by destruct Hb).
  wp_step; apply wp_ret; by eapply HQ.
Qed.

Lemma bind_queue_ok b m :
  qinv m -> 0 <= slot (ring b) -> 0 <= slot (fence b) -> wp (bind_queue b) (fun _ m' => qinv m') m.
Proof.
  intros Hi Hr Hf. pose proof (proj1 (qinv_st m) Hi) as [Hs Hq].
  unfold bind_queue. wp_step. wp_step. do 5 (wp_step; [by apply wp_ret|]).
  apply orb_false_iff in Hcond as [[[Hst Hrh]%orb_false_iff Hfh]%orb_false_iff Hcl].
  apply negb_false_iff, bool_decide_eq_true in Hst.
  unfold binding_invalid in Hcond3. zbool.
  assert (Hent : 2 <= ringEntries b <= MaxRingEntries) by lia.
  set (q1 := set_binding_ b (qu m)). pose proof (detached_clean _ _ Hq Hst) as Hclean.
  assert (Hidle : forall q, jobs_ q = jobs_ (qu m) -> ringHeld_ q = false -> fenceHeld_ q = false ->
    forall h, refs q h = 0).
  { intros q Ej Er Ef h. apply idle_refs; [|done|done]. rewrite Ej. apply Hclean. }
  assert (Hbt : binding_to (qu m) b q1) by (split; try done; exact (detached_pending _ _ Hq Hst)).
  wp_step. eapply wp_qupd_idle; [done|by intros h; rewrite Hidle|]. intros m1 Hs1. fold q1 in Hs1.
  wp_step. eapply (bind_views_ok b q1); [done|done|]. intros s q2 m2 Hs2 Hbt2 Hrh2 Hfh2.
  assert (Er2 : ringHeld_ q2 = false) by (by rewrite Hrh2).
  assert (Ef2 : fenceHeld_ q2 = false) by (by rewrite Hfh2).
  assert (Hforget : forall (s : QueueStatus) m2, st none q2 (qtrace m) m2 ->
    wp (forget_binding ;;; ret s) (fun _ m' => qinv m') m2).
  { intros s' m2' Hs2'. eapply (forget_ok (qu m) (qtrace m) b); try done. }
  wp_step; [by apply Hforget|].
  replace (cb_owner b) with (cb_owner (binding_ q2)) by (by rewrite (bt_binding _ _ _ Hbt2)).
  wp_step. eapply wp_retain; [done|done| |].
  2: { intros r m3 Hn Hs3. rewrite (proj2 (negb_true_iff _)) by (by destruct r). by apply Hforget. }
  intros m3 Hs3. cbn [MellowNative.isOk negb].
  wp_step. eapply (wp_qupd _ none); [exact Hs3|reflexivity| |].
  { intros h. unfold refs, none, one. cbn. rewrite Er2, Ef2, (bt_binding _ _ _ Hbt2). cbn. lia. }
  intros m4 Hs4. set (q4 := set_ringHeld_ true q2) in *.
  assert (Hbt4 : binding_to (qu m) b q4) by (by destruct Hbt2).
  change (cb_owner (binding_ q2)) with (cb_owner (binding_ q4)).
  wp_step. eapply wp_retain; [done|done| |].
  2: { intros r m5 Hn Hs5. rewrite (proj2 (negb_true_iff _)) by (by destruct r).
       by eapply (undo_bind_ok (qu m) (qtrace m) b). }
  intros m5 Hs5. cbn [MellowNative.isOk negb].
  wp_step. eapply (wp_qupd _ none); [exact Hs5|reflexivity| |].
  { intros h. unfold refs, none, one. cbn. rewrite Ef2, (bt_binding _ _ _ Hbt2). cbn. lia. }
  intros m6 Hs6. set (q6 := set_fenceHeld_ true q4) in *.
  assert (Hbt6 : binding_to (qu m) b q6) by (by destruct Hbt4).
  wp_step. eapply wp_qview; [done|]. intros v m7 Hs7 _.
  wp_step. eapply wp_qupd_same; try done. intros m8 Hs8. set (q8 := set_ring_ v.2 q6) in *.
  assert (Hbt8 : binding_to (qu m) b q8) by (by destruct Hbt6).
  wp_step. apply (wp_mono _ (fun s m' => exists q, st none q (qtrace m) m' /\ binding_to (qu m) b q /\
    ringHeld_ q = true /\ fenceHeld_ q = true)).
  { wp_step; [|wp_step; by exists q8]. wp_step. eapply wp_qview; [done|]. intros f m9 Hs9 _.
    wp_step. eapply wp_qupd_same; try done. intros m10 Hs10. apply wp_ret.
    eexists. split; [done|]. split; [|done]. by destruct Hbt8. }
  intros s' m9 (q9 & Hs9 & Hbt9 & Hrh9 & Hfh9).
  wp_step; [by eapply (needs_reset_ok (qu m) (qtrace m) b)|].
  by eapply (bind_claim_ok (qu m) (qtrace m) b).
Qed.

(** * Completion *)

Definition expire_job (now : Z) (job : Job) : Job := if expired now job then set_jstate JTimedOut job else job.

Lemma expire_job_ok now j tr job : job_ok j tr false job -> job_ok j tr false (expire_job now job).
Proof.
  unfold expire_job, expired. intros Hj. case_match eqn:E; [|done].
  apply andb_true_iff in E as [E%bool_decide_eq_true _]. destruct Hj as [A B C D F]. split; cbn; try done.
  - intros Hp. by destruct (C Hp) as (? & ? & ?).
  - intros _ _ _. apply D; congruence.
Qed.

Lemma expire_queue now q q' tr :
  queue_ok None q tr -> jobs_ q' = expire_job now <$> jobs_ q -> pending_ q' = pending_ q ->
  claimed_ q' = claimed_ q -> binding_ q' = binding_ q -> ringHeld_ q' = ringHeld_ q ->
  fenceHeld_ q' = fenceHeld_ q -> state_step q q' -> queue_ok None q' tr.
Proof.
  intros [A B C D E F G H I] Ej S2 S3 S4 S5 S6 Hst.
  assert (Hn : npending (jobs_ q') = npending (jobs_ q)).
  { rewrite Ej. apply npending_fmap. intros job. unfold expire_job. by case_match. }
  split; rewrite ?S2, ?S3, ?S4, ?S5, ?S6, ?Hn; try done.
  - by rewrite Ej, length_fmap.
  - rewrite Ej. intros j job (b & -> & Hb)%list_lookup_fmap_Some. apply expire_job_ok. by apply (B j).
  - rewrite Ej. intros Hc j job (b & -> & Hb)%list_lookup_fmap_Some. destruct (E Hc j b Hb) as [E1 E2].
    unfold expire_job. by case_match.
  - intros Hd. apply G. destruct Hst as [[<- _]|Hst]; [done|congruence].
  - intros Hd. destruct Hst as [[Hst ->]|Hst]; [|congruence]. apply H. congruence.
Qed.

Lemma expire_ok now q tr m :
  st none q tr m -> queue_ok None q tr -> wp (expire now) (fun _ m' => qinv m') m.
Proof.
  intros Hs Hq. unfold expire. wp_step. wp_step. rewrite (st_queue _ _ _ _ Hs).
  wp_step; [apply wp_ret; by eapply st_qinv|]. wp_step. eapply tick_ok; [done| |].
  2: { cbn [negb]. apply wp_ret. by eapply st_qinv. }
  intros m1 Hs1. cbn [negb]. wp_step. eapply (wp_qupd _ none); [exact Hs1|reflexivity| |].
  { intros h. unfold refs. cbn. fold (expire_job now). rewrite job_refs_fmap; [lia|].
    intros job. unfold expire_job. by case_match. }
  intros m2 Hs2. wp_step.
  - wp_step. eapply wp_qupd_same; try done. intros m3 Hs3. apply wp_ret. eapply st_qinv; [done|].
    eapply (expire_queue now); try done. by right.
  - apply wp_ret. eapply st_qinv; [done|]. eapply (expire_queue now); try done. by left.
Qed.

(** One job is complete. *)
Lemma complete_queue q q' tr j job v :
  queue_ok None q tr -> jobs_ q !! j = Some job -> ringPending job = true ->
  EvFence (tk_generation (token job)) v Ok ∈ tr -> sequence (token job) <= v ->
  jobs_ q' = <[j := set_jheld [] (set_jstate Completed (set_ringPending false job))]> (jobs_ q) ->
  pending_ q' = npending (jobs_ q) - 1 -> claimed_ q' = claimed_ q -> binding_ q' = binding_ q ->
  ringHeld_ q' = ringHeld_ q -> fenceHeld_ q' = fenceHeld_ q -> state_step q q' -> queue_ok None q' tr.
Proof.
  intros Hq Hj Hp Hev Hle Ej Ep Ec Eb Er Ef Hst.
  eapply (queue_ok_job None None q q' tr j job); try done; try (by left); try congruence.
  - rewrite bool_decide_false by done. split; cbn; try done. by exists v.
  - rewrite Ep, Hp. cbn. lia.
  - rewrite Hp. cbn. left. lia.
  - intros Hd. destruct Hst as [[<- _]|Hst]; [done|congruence].
  - intros Hd. destruct Hst as [[Hst ->]|Hst]; [|congruence]. apply (qo_ready _ _ _ Hq). congruence.
Qed.

Lemma job_at_some q j job : jobs_ q !! j = Some job -> job_at q j = job.
Proof. unfold job_at. by intros ->. Qed.

(** The fields that completion and reset of jobs leave. *)
Record same_binding q q' : Prop := {
  sb_claimed : claimed_ q' = claimed_ q;
  sb_binding : binding_ q' = binding_ q;
  sb_state : state_ q' = state_ q;
  sb_ring : ringHeld_ q' = ringHeld_ q;
  sb_fence : fenceHeld_ q' = fenceHeld_ q;
  sb_generation : qgeneration_ q' = qgeneration_ q;
}.

(** The loop completes jobs one by one; it cannot fail. *)
Lemma complete_jobs_ok v js q tr m (Q : QueueStatus -> qmachine M W -> Prop) :
  st none q tr m -> queue_ok None q tr -> EvFence (qgeneration_ q) v Ok ∈ tr ->
  (forall q' m', st none q' tr m' -> queue_ok None q' tr -> Q Ok m') -> wp (complete_jobs v js) Q m.
Proof.
  revert q m. induction js as [|j js IH]; intros q m Hs Hq Hev HQ; cbn [complete_jobs].
  { apply wp_ret. by eapply HQ. }
  wp_step. wp_step. rewrite (st_queue _ _ _ _ Hs). wp_step; [|by eapply IH].
  unfold done_by in Hcond. apply andb_true_iff in Hcond as [[Hp Hg%Z.eqb_eq]%andb_true_iff Hle%Z.leb_le].
  destruct (jobs_ q !! j) as [job|] eqn:Hj; [|unfold job_at in Hp; by rewrite Hj in Hp].
  rewrite (job_at_some _ _ _ Hj) in *. pose proof (qo_jobs _ _ _ Hq _ _ Hj) as Hjo.
  pose proof (npending_pos _ _ _ Hj Hp). pose proof (npending_bound (jobs_ q)) as Hb.
  rewrite (qo_length _ _ _ Hq) in Hb. unfold MaxJobs in Hb.
  wp_step. eapply (wp_upd_job none none); [done|done|done|]. intros m1 Hs1.
  wp_step. eapply wp_qupd_same; try done. intros m2 Hs2. cbn in Hs2.
  rewrite (qo_pending _ _ _ Hq), wrap_small in Hs2 by (eval_pows; lia).
  wp_step. eapply releaseJob_ok; [done|by eapply with_job_lookup|apply Hjo|].
  intros m3 Hs3. cbn [isOk negb]. eapply IH; [done| |done|done].
  eapply (complete_queue q _ tr j job v); try done; [congruence| |by left].
  cbn. by rewrite list_insert_insert_eq.
Qed.

Lemma poll_ok now m : qinv m -> wp (poll now) (fun _ m' => qinv m') m.
Proof.
  intros Hi. pose proof (proj1 (qinv_st m) Hi) as [Hs Hq]. unfold poll. wp_step. wp_step.
  wp_step; [by apply wp_ret|]. apply orb_false_iff in Hcond as [[[Hd Hc]%orb_false_iff _]%orb_false_iff _].
  apply negb_false_iff in Hc. destruct (qo_claimed _ _ _ Hq Hc) as (_ & Hfh & _).
  pose proof (proj2 (qo_slots _ _ _ Hq) Hfh) as Hsl.
  wp_step. eapply tick_ok; [done| |cbn [negb]; by apply wp_ret].
  intros m1 Hs1. cbn [negb]. set (q1 := set_lastTime_ now (set_clockSet_ true (qu m))) in *.
  assert (Hq1 : queue_ok None q1 (qtrace m)) by (eapply queue_ok_same; [done|done|by left]).
  assert (Hreset : forall tr (s : QueueStatus) m2, st none q1 tr m2 -> queue_ok None q1 tr ->
    wp (qupd (set_state_ NeedsReset) ;;; ret s) (fun _ m' => qinv m') m2).
  { intros tr s m2 Hs2 Hq2. wp_step. eapply wp_qupd_same; try done. intros m3 Hs3. apply wp_ret.
    eapply st_qinv; [done|]. eapply queue_ok_same; [done|done|by right]. }
  wp_step. eapply wp_sync; [done|done|]. intros r m2 Hs2. wp_step; [by eapply Hreset|].
  wp_step. eapply wp_qcall; [done|]. intros [s v] m3 Hs3. cbn [fst snd] in *.
  assert (Hq3 : queue_ok None q1 (EvFence (qgeneration_ (qu m)) (wrap 32 v) s :: qtrace m)) by (by apply queue_ok_trace).
  wp_step; [by eapply Hreset|]. wp_step; [by eapply Hreset|].
  assert (s = Ok) as -> by (by destruct s).
  wp_step. eapply wp_qupd_same; try done. intros m4 Hs4. wp_step. eapply complete_jobs_ok; [done| | |].
  - eapply queue_ok_same; [done|done|by left].
  - by left.
  - intros q5 m5 Hs5 Hq5. cbn [isOk negb]. by eapply expire_ok.
Qed.

(** * Reset *)

Definition clean (job : Job) : Prop := jheld job = [] /\ ringPending job = false.

(** A job as reset leaves it. *)
Definition reset_job (job : Job) : Job :=
  set_jheld [] (set_ringPending false (if bool_decide (jstate job = Completed) then job else set_jstate Reset job)).

Lemma reset_queue q q' tr j job :
  queue_ok None q tr -> jobs_ q !! j = Some job -> jstate job <> Free ->
  jobs_ q' = <[j := reset_job job]> (jobs_ q) -> same_binding q q' -> put_ q' = put_ q ->
  pending_ q' = npending (jobs_ q) - b2z (ringPending job) -> queue_ok None q' tr.
Proof.
  intros Hq Hj Hf Ej [S1 S2 S3 S4 S5 _] Ep Epn. pose proof (qo_jobs _ _ _ Hq _ _ Hj) as [A B C D F].
  assert (Hb : 0 <= b2z (ringPending job)) by (destruct (ringPending job); cbn; lia).
  eapply (queue_ok_job None None q q' tr j job); try done; try (by left).
  - rewrite bool_decide_false by done. clear B. unfold reset_job. case_bool_decide as E; split; cbn; try done.
  - rewrite Epn. cbn. lia.
  - congruence.
  - rewrite S3, Ep. apply (qo_ready _ _ _ Hq).
Qed.

Lemma reset_jobs_ok js q tr m (Q : QueueStatus -> qmachine M W -> Prop) :
  st none q tr m -> queue_ok None q tr ->
  (forall j job, jobs_ q !! j = Some job -> j ∉ js -> clean job) ->
  (forall q' m', st none q' tr m' -> queue_ok None q' tr -> same_binding q q' ->
     (forall j job, jobs_ q' !! j = Some job -> clean job) -> Q Ok m') ->
  wp (reset_jobs js) Q m.
Proof.
  revert q m. induction js as [|j js IH]; intros q m Hs Hq Hcl HQ; cbn [reset_jobs].
  { apply wp_ret. eapply HQ; try done. intros. eapply Hcl; [done|]. apply not_elem_of_nil. }
  wp_step. wp_step. rewrite (st_queue _ _ _ _ Hs). wp_step.
  { apply bool_decide_eq_true in Hcond. eapply IH; try done. intros k job Hk Hn.
    destruct (decide (k = j)) as [->|Hkj]; [|eapply Hcl; [done|]; by apply not_elem_of_cons].
    rewrite (job_at_some _ _ _ Hk) in Hcond.
    destruct (jo_free _ _ _ _ (qo_jobs _ _ _ Hq _ _ Hk) Hcond) as [? Hjh]. split; [by apply Hjh|done]. }
  apply bool_decide_eq_false in Hcond.
  destruct (jobs_ q !! j) as [job|] eqn:Hj; [|unfold job_at in Hcond; by rewrite Hj in Hcond].
  rewrite (job_at_some _ _ _ Hj) in *. pose proof (qo_jobs _ _ _ Hq _ _ Hj) as Hjo.
  pose proof (npending_bound (jobs_ q)) as Hb. rewrite (qo_length _ _ _ Hq) in Hb. unfold MaxJobs in Hb.
  set (job1 := if bool_decide (jstate job = Completed) then job else set_jstate Reset job).
  assert (Hh1 : jheld job1 = jheld job /\ ringPending job1 = ringPending job) by (subst job1; destruct (bool_decide (jstate job = Completed)); done).
  wp_step. eapply (wp_upd_job none none); [done|done|intros h; fold job1; by rewrite (proj1 Hh1)|].
  intros m1 Hs1. fold job1 in Hs1. wp_step.
  apply (wp_mono _ (fun _ m' => exists q', st none q' tr m' /\ same_binding q q' /\ put_ q' = put_ q /\
    jobs_ q' = <[j := set_ringPending false job1]> (jobs_ q) /\
    pending_ q' = npending (jobs_ q) - b2z (ringPending job))).
  { apply wp_when; intros Hp.
    - wp_step. eapply (wp_upd_job none none); [done|by eapply with_job_lookup|done|]. intros m2 Hs2.
      eapply wp_qupd_same; try done. intros m3 Hs3. eexists. split; [done|]. cbn.
      pose proof (npending_pos _ _ _ Hj Hp). rewrite Hp. cbn.
      split_and!; [done|done|by rewrite list_insert_insert_eq|].
      rewrite (qo_pending _ _ _ Hq), wrap_small by (eval_pows; lia). lia.
    - exists (with_job q j job1). split; [done|]. rewrite Hp. cbn.
      split_and!; [done|done| |rewrite (qo_pending _ _ _ Hq); lia].
      do 2 f_equal. destruct job1; cbn in *. rewrite (proj2 Hh1) in *. by rewrite Hp. }
  intros _ m2 (q2 & Hs2 & Hsb & Hput & Ej & Ep).
  assert (Hl : (j < length (jobs_ q))%nat) by (by eapply lookup_lt_Some).
  wp_step. eapply (releaseJob_ok q2 tr j (set_ringPending false job1)); [done| | |].
  { rewrite Ej. by apply list_lookup_insert_eq. }
  { cbn. rewrite (proj1 Hh1). apply Hjo. }
  intros m3 Hs3. cbn [isOk negb].
  assert (Ej3 : jobs_ (with_job q2 j (set_jheld [] (set_ringPending false job1))) = <[j := reset_job job]> (jobs_ q)).
  { cbn. by rewrite Ej, list_insert_insert_eq. }
  eapply IH; [done| | |].
  - eapply (reset_queue q _ tr j job); try done. by destruct Hsb.
  - rewrite Ej3. intros k b Hk Hn. destruct (decide (k = j)) as [->|Hkj].
    + rewrite list_lookup_insert_eq in Hk by done. by injection Hk as <-.
    + rewrite list_lookup_insert_ne in Hk by done. eapply Hcl; [done|]. by apply not_elem_of_cons.
  - intros q' m' Hs' Hq' Hsb' Hall. eapply HQ; try done.
    destruct Hsb as [? ? ? ? ? ?], Hsb' as [? ? ? ? ? ?]. cbn in *. split; congruence.
Qed.

Lemma reset_fields_spec q :
  jobs_ (reset_fields q) = jobs_ q /\ ringHeld_ (reset_fields q) = ringHeld_ q /\
  fenceHeld_ (reset_fields q) = fenceHeld_ q /\ claimed_ (reset_fields q) = claimed_ q /\
  state_ (reset_fields q) = Detached /\ pending_ (reset_fields q) = 0.
Proof. unfold reset_fields. cbn. by destruct (qgeneration_ q =? U64_MAX). Qed.

Lemma reset_ok m :
  qinv m -> wp reset (fun r m' => qinv m' /\ (r = Ok \/ r = QuiesceFailed \/ r = TransportFailure) /\
    (r = Ok -> state_ (qu m') = Detached /\ forall h, refs (qu m') h = 0)) m.
Proof.
  intros Hi. pose proof (proj1 (qinv_st m) Hi) as [Hs Hq]. unfold reset. wp_step. wp_step. wp_step.
  { apply wp_ret. apply andb_true_iff in Hcond as [[[Hd%bool_decide_eq_true Hr]%andb_true_iff Hf]%andb_true_iff Hc].
    zbool. split; [done|]. split; [by left|]. intros _. split; [done|]. intros h.
    apply idle_refs; try done. by apply (qo_unclaimed _ _ _ Hq). }
  set (q0 := qu m) in *. wp_step. eapply wp_qupd_same; try done. intros m1 Hs1.
  set (q1 := set_bindingVerified_ false (set_state_ NeedsReset q0)) in *.
  assert (Hq1 : queue_ok None q1 (qtrace m)) by (eapply queue_ok_same; [done|done|by right]).
  wp_step. apply (wp_mono _ (fun b m' => exists q tr, st none q tr m' /\ queue_ok None q tr /\ same_binding q1 q)).
  { wp_step; [apply wp_ret; by exists q1, (qtrace m)|]. wp_step. eapply wp_qcall; [done|]. intros b m2 Hs2.
    pose proof (queue_ok_trace (EvQuiesce b) _ _ _ I Hq1) as Hq2. wp_step. apply wp_when; intros Hb.
    - eapply wp_qupd_same; try done. intros m3 Hs3. apply wp_ret. do 2 eexists. split; [done|].
      split; [|done]. eapply queue_ok_same; [done|done|by left].
    - apply wp_ret. by do 2 eexists. }
  intros b m2 (q2 & tr2 & Hs2 & Hq2 & Hsb2).
  assert (Hfail : forall q tr (s : QueueStatus) m, st none q tr m -> queue_ok None q tr ->
    s = QuiesceFailed \/ s = TransportFailure ->
    wp (ret s) (fun r m' => qinv m' /\ (r = Ok \/ r = QuiesceFailed \/ r = TransportFailure) /\
      (r = Ok -> state_ (qu m') = Detached /\ forall h, refs (qu m') h = 0)) m).
  { intros q tr s m' Hs' Hq' Hst. apply wp_ret. split; [by eapply st_qinv|]. split; [by right|].
    by destruct Hst as [-> | ->]. }
  wp_step; [eapply Hfail; eauto|].
  wp_step. eapply reset_jobs_ok; [done|done| |].
  { intros j job Hj Hn. destruct Hn. apply elem_of_seq. split; [lia|].
    apply lookup_lt_Some in Hj. rewrite (qo_length _ _ _ Hq2) in Hj. lia. }
  intros q3 m3 Hs3 Hq3 Hsb3 Hcl. cbn [isOk negb].
  assert (Hn3 : npending (jobs_ q3) = 0) by (apply npending_zero; intros; by eapply Hcl).
  wp_step. apply (wp_mono _ (fun ok m' => exists q tr, st none q tr m' /\ queue_ok None q tr /\ jobs_ q = jobs_ q3 /\
    (ok = true -> claimed_ q = false))).
  { wp_step.
    - wp_step. eapply wp_qcall; [done|]. intros r m4 Hs4. pose proof (queue_ok_trace (EvRelease r) _ _ _ I Hq3) as Hq4.
      wp_step. apply wp_when; intros Hr.
      + eapply wp_qupd_same; try done. intros m5 Hs5. apply wp_ret. do 2 eexists. split; [done|].
        split; [|done]. eapply (queue_ok_rebind q3); try done.
        * cbn. rewrite (qo_pending _ _ _ Hq3). done.
        * cbn. rewrite (sb_state _ _ Hsb3), (sb_state _ _ Hsb2). done.
        * cbn. rewrite (sb_state _ _ Hsb3), (sb_state _ _ Hsb2). done.
        * apply (qo_slots _ _ _ Hq3).
        * apply (qo_slots _ _ _ Hq3).
      + apply wp_ret. rewrite Hr. by do 2 eexists.
    - apply wp_ret. exists q3, tr2. split_and!; try done. intros _.
      rewrite (sb_claimed _ _ Hsb3), (sb_claimed _ _ Hsb2). done. }
  intros ok m4 (q4 & tr4 & Hs4 & Hq4 & Ej4 & Hc4). wp_step; [eapply Hfail; eauto|]. apply negb_false_iff in Hcond1 as ->.
  wp_step. eapply releaseBindingHolds_ok; [done|apply (qo_slots _ _ _ Hq4)|apply (qo_slots _ _ _ Hq4)|].
  intros m5 Hs5. cbn [isOk negb]. destruct (reset_fields_spec (unheld q4)) as (F1 & F2 & F3 & F4 & F5 & F6).
  change (jobs_ (unheld q4)) with (jobs_ q4) in F1. change (claimed_ (unheld q4)) with (claimed_ q4) in F4.
  rewrite Ej4 in F1. rewrite Hc4 in F4 by done.
  assert (Hidle : forall h, refs (reset_fields (unheld q4)) h = 0).
  { intros h. apply idle_refs; [rewrite F1; exact Hcl|exact F2|exact F3]. }
  wp_step. eapply wp_qupd_idle; [exact Hs5|intros h; rewrite Hidle; lia|].
  set (q6 := reset_fields (unheld q4)) in *. clearbody q6.
  intros m6 Hs6. apply wp_ret. split; [|split; [by left|intros _; by rewrite (st_queue _ _ _ _ Hs6)]].
  eapply st_qinv; [done|]. eapply (queue_ok_rebind q4); try done; try congruence.
  - rewrite Ej4. apply Hcl.
  - intros ?. exfalso. cbn in F2. congruence.
  - intros ?. exfalso. cbn in F3. congruence.
Qed.

(** * Retirement *)

Lemma find_job_some t l j : find_job t l = Some j -> exists job, l !! j = Some job /\ has_token t job = true.
Proof.
  revert j. induction l as [|job l IH]; intros j; cbn; [done|]. destruct (has_token t job) eqn:E.
  - intros [= <-]. eauto.
  - destruct (find_job t l) as [k|]; [|done]. intros [= <-]. by apply IH.
Qed.

Lemma retire_job_ok t m : qinv m -> wp (retire_job t) (fun _ m' => qinv m') m.
Proof.
  intros Hi. pose proof (proj1 (qinv_st m) Hi) as [Hs Hq]. unfold retire_job. wp_step. wp_step.
  destruct (find_job t (jobs_ (qu m))) as [j|] eqn:Ef; [|by apply wp_ret].
  destruct (find_job_some _ _ _ Ef) as (job & Hj & _). rewrite (job_at_some _ _ _ Hj).
  wp_step; [by apply wp_ret|].
  apply orb_false_iff in Hcond as [[Hh%negb_false_iff%bool_decide_eq_true Hp]%orb_false_iff _].
  wp_step. eapply (wp_upd_job none none); [done|done|intros h; rewrite Hh; done|].
  intros m1 Hs1. apply wp_ret. eapply st_qinv; [done|].
  eapply (queue_ok_job None None _ _ _ j job no_job); try done; try (by left).
  - cbn. rewrite Hp, (qo_pending _ _ _ Hq). cbn. lia.
  - rewrite Hp. by left.
  - apply (qo_ready _ _ _ Hq).
Qed.

(** * Reachable states

    Any operation of the queue, any change of the channel, and anything that other
    clients of the memory owner do in between. *)

Inductive q_step : qmachine M W -> qmachine M W -> Prop :=
  | qs_bind b m : 0 <= slot (ring b) -> 0 <= slot (fence b) -> q_step m (bind_queue b m).2
  | qs_submit r now m : request_ok r -> q_step m (submit r now m).2
  | qs_poll now m : q_step m (poll now m).2
  | qs_expire now m : q_step m (expire now m).2
  | qs_reset m : q_step m (reset m).2
  | qs_retire t m : q_step m (retire_job t m).2
  | qs_memory mem m : mem_env (cb_owner (binding_ (qu m))) (memory m) mem ->
      q_step m {| qu := qu m; memory := mem; qworld := qworld m; qtrace := qtrace m |}
  | qs_world w m : q_step m {| qu := qu m; memory := memory m; qworld := w; qtrace := qtrace m |}.

Lemma q_step_qinv m m' : qinv m -> q_step m m' -> qinv m'.
Proof.
  intros Hi Hs. destruct Hs.
  - by apply (wp_run _ _ _ (bind_queue_ok b m Hi H H0)).
  - by apply (wp_run _ _ _ (submit_ok r now m Hi H)).
  - by apply (wp_run _ _ _ (poll_ok now m Hi)).
  - pose proof (proj1 (qinv_st m) Hi) as [Hs Hq]. by apply (wp_run _ _ _ (expire_ok now _ _ m Hs Hq)).
  - by apply (wp_run _ _ _ (reset_ok m Hi)).
  - by apply (wp_run _ _ _ (retire_job_ok t m Hi)).
  - destruct Hi as [[Hg Hh] Hq]. destruct (law_env _ _ _ Hg H) as [Hg' Hle]. split; [|done].
    split; [done|]. cbn. intros h. specialize (Hh h). specialize (Hle h). lia.
  - by destruct Hi.
Qed.

Definition q_start (t : QueueTransport W) (mem : M) (w : W) : qmachine M W :=
  {| qu := new_queue t; memory := mem; qworld := w; qtrace := [] |}.

Definition q_reachable m : Prop :=
  exists t mem w, mem_good mem /\ rtc q_step (q_start t mem w) m.

Lemma q_start_qinv t mem w : mem_good mem -> qinv (q_start t mem w).
Proof.
  intros Hg. assert (Hs : forall j job, replicate MaxJobs no_job !! j = Some job -> job = no_job).
  { intros j job H. by apply lookup_replicate in H as [-> _]. }
  split; [split; [done|]|].
  - intros h. change (0 <= mem_held mem 0 h). by apply law_held.
  - split; try done; cbn -[lookup].
    + by intros j job ->%Hs.
    + intros _ j job ->%Hs. done.
Qed.

Lemma q_reachable_qinv m : q_reachable m -> qinv m.
Proof.
  intros (t & mem & w & Hg & Hr).
  refine (rtc_ind_r (fun m => qinv m) _ _ _ m Hr); [by apply q_start_qinv|].
  intros m1 m2 _ Hs Hm. by eapply q_step_qinv.
Qed.
End Reach.
