(* ===== verification/GpFifoThms.v ===== *)
(** The theorems about the GPFIFO queue.  The invariant of the queue is proved against the
    laws of [MemoryLaws]; here the memory owner is shown to satisfy them, and the two
    components are put together. *)
From stdpp Require Import base numbers list relations.
From S2P Require Import Prelude.
From S2P Require Import StateWp.
From S2P Require Import MemoryOwner.
From S2P Require Import MemoryOwnerInv.
From S2P Require Import MemoryOwnerSteps.
From S2P Require Import MemoryOwnerReach.
From S2P Require Import MemoryOwnerThms.
From S2P Require Import NvCommand.
From S2P Require Import GpFifoQueue.
From S2P Require Import GpFifoInv.
From S2P Require Import GpFifoSteps.
From S2P Require Import GpFifoReach.
Import MellowNative NativeNvidia.

(** * The memory owner implements the interface *)

Section Instance.
Context {V : Type} (read64 : Z -> V -> Z).

#[local] Instance owner_interface : MemoryInterface (mem_machine V) := {
  mem_inspect := inspect;
  mem_retain := retain read64;
  mem_release := release;
  mem_synchronizeRetained := synchronizeRetained read64;
}.

Lemma held_nonneg own h (m : mem_machine V) : minv m -> 0 <= held (mo m) own h.
Proof.
  intros Hm. unfold held. destruct (slots_ (mo m) !! Z.to_nat (slot h)) as [s|] eqn:E; [|done].
  repeat case_decide; try done. destruct (decide (s = no_slot)) as [->|Hn]; [done|].
  destruct (si_holds _ _ _ (oi_slots _ (mi_owner _ Hm) _ _ E Hn)) as [[? _] _]. done.
Qed.

Lemma owner_retain own h (m : mem_machine V) :
  minv m -> 0 <= slot h -> wp (retain read64 own h) (fun r m' => minv m' /\ forall own' h',
    held (mo m') own' h' = held (mo m) own' h' +
      if decide (r = MellowNative.Ok /\ h = h' /\ own = own') then 1 else 0) m.
Proof.
  intros Hm Hh. eapply wp_mono; [by apply retain_ok|]. intros r m' [[-> [Hm' Hc]]|[Hr [Hm' Hc]]];
    (split; [done|]); intros own' h'; rewrite Hc.
  - f_equal. apply decide_ext. naive_solver.
  - rewrite decide_False by naive_solver. lia.
Qed.

Lemma owner_release own h (m : mem_machine V) :
  minv m -> 0 <= slot h -> 0 < held (mo m) own h ->
  wp (release own h) (fun r m' => r = MellowNative.Ok /\ minv m' /\ forall own' h',
    held (mo m') own' h' = held (mo m) own' h' + if decide (h = h' /\ own = own') then -1 else 0) m.
Proof.
  intros Hm Hh Hp. eapply wp_mono; [by apply release_ok|].
  intros r m' [(-> & _ & [Hm' Hc])|(_ & Hle & _)]; [done|lia].
Qed.

Lemma owner_sync own h d (m : mem_machine V) :
  minv m -> 0 <= slot h -> wp (synchronizeRetained read64 own h d) (fun _ m' => minv m' /\
    forall own' h', held (mo m') own' h' = held (mo m) own' h') m.
Proof. intros Hm Hh. by apply synchronizeRetained_ok. Qed.

Lemma owner_env own (m m' : mem_machine V) :
  minv m -> mem_step_by read64 (fun o => o <> own) m m' ->
  minv m' /\ forall h, held (mo m) own h <= held (mo m') own h.
Proof.
  intros Hm Hs. destruct (mem_step_keeps read64 _ _ _ Hm Hs) as [Hm' Hh]. split; [done|].
  intros h. apply Hh. naive_solver.
Qed.

#[local] Instance owner_laws : MemoryLaws (mem_machine V) := {
  mem_good := minv;
  mem_held m := held (mo m);
  mem_env own := mem_step_by read64 (fun o => o <> own);
  law_held := held_nonneg;
  law_inspect _ _ _ := eq_refl;
  law_retain := owner_retain;
  law_release := owner_release;
  law_sync := owner_sync;
  law_env := owner_env;
}.

(** * The queue and the memory owner together *)

Context {W : Type}.
Implicit Types (m : qmachine (mem_machine V) W).

(** What is held is mapped. *)
Lemma held_mapped own h (mem : mem_machine V) :
  minv mem -> 0 < held (mo mem) own h -> phase_of h (trace mem) = PMapped.
Proof.
  intros Hm. unfold held. destruct (slots_ (mo mem) !! Z.to_nat (slot h)) as [s|] eqn:E; [|lia].
  repeat case_decide; try lia. subst. intros Hp.
  assert (Hn : s <> no_slot) by (intros ->; cbn in Hp; lia).
  by apply (sp_held _ _ (mi_phase _ Hm _ _ E Hn)).
Qed.

Lemma refs_mapped m h : qinv m -> 0 < refs (qu m) h -> phase_of h (trace (memory m)) = PMapped.
Proof.
  intros [[Hg Hh] _] Hp. eapply held_mapped; [exact Hg|]. specialize (Hh h). unfold none in Hh. cbn in Hh.
  apply (Z.lt_le_trans _ _ _ Hp). rewrite Z.add_0_r in Hh. exact Hh.
Qed.

Lemma count_in_pos h l : h ∈ l -> 0 < count_in h l.
Proof.
  induction l as [|x l IH]; [intros []%not_elem_of_nil|]. cbn. pose proof (count_in_nonneg h l).
  intros [<-|Hin]%elem_of_cons; [rewrite bool_decide_true by done; cbn; lia|].
  specialize (IH Hin). unfold b2z. case_match; lia.
Qed.

Lemma refs_ring m : ringHeld_ (qu m) = true -> 0 < refs (qu m) (ring (binding_ (qu m))).
Proof.
  intros E. unfold refs. rewrite E. rewrite bool_decide_true by done. cbn.
  pose proof (job_refs_nonneg (ring (binding_ (qu m))) (jobs_ (qu m))). unfold b2z. case_match; lia.
Qed.

Lemma refs_fence m : fenceHeld_ (qu m) = true -> 0 < refs (qu m) (fence (binding_ (qu m))).
Proof.
  intros E. unfold refs. rewrite E. rewrite (bool_decide_true (fence _ = _)) by done. cbn.
  pose proof (job_refs_nonneg (fence (binding_ (qu m))) (jobs_ (qu m))). unfold b2z. case_match; lia.
Qed.

Lemma refs_job m j job h : jobs_ (qu m) !! j = Some job -> h ∈ jheld job -> 0 < refs (qu m) h.
Proof.
  intros Hj Hin. pose proof (count_in_refs _ _ _ h Hj). pose proof (count_in_pos _ _ Hin).
  unfold refs, b2z. repeat case_match; lia.
Qed.

(** [C24] In every state that the queue and the memory owner reach together, whatever the
    channel and the backend do, and whatever the other clients do but give back holds of
    the queue's owner: the calls of the backend are in a legal order; the memory owner
    counts at least as many holds of an allocation as the queue has references to it, by
    the ring, the fence and the jobs; a job that is neither free, completed nor reset is
    one that the channel may still execute, and such a job holds exactly the allocations
    that the channel was given when the job of this slot and token was sealed, its
    commands and its data; all of them are mapped, and so are the ring and the fence as
    long as the channel is claimed; and a submission that returns [Ok] has made such a
    job, whose allocations are the commands and all the data of the request. *)
Theorem queue_memory_safe m :
  q_reachable m ->
  legal_trace (trace (memory m)) /\
  (forall h, refs (qu m) h <= held (mo (memory m)) (cb_owner (binding_ (qu m))) h) /\
  (forall j job, jobs_ (qu m) !! j = Some job ->
     (jstate job <> Free -> jstate job <> Completed -> jstate job <> Reset -> ringPending job = true) /\
     (ringPending job = true -> sealed_in j (qtrace m) = Some (token job, jheld job)) /\
     forall h, h ∈ jheld job -> phase_of h (trace (memory m)) = PMapped) /\
  (claimed_ (qu m) = true ->
     phase_of (ring (binding_ (qu m))) (trace (memory m)) = PMapped /\
     phase_of (fence (binding_ (qu m))) (trace (memory m)) = PMapped) /\
  (forall r now, request_ok r -> (submit r now m).1.1 = Ok ->
     exists j job, jobs_ (qu (submit r now m).2) !! j = Some job /\ ringPending job = true /\
       token job = (submit r now m).1.2 /\ jheld job = commands r :: (d_handle <$> rq_resources r)).
Proof.
  intros Hr. pose proof (q_reachable_qinv _ Hr) as Hi. pose proof Hi as [[Hg Hh] Hq].
  split; [apply (mi_legal _ Hg)|]. split; [|split; [|split]].
  - intros h. specialize (Hh h). unfold none in Hh. rewrite Z.add_0_r in Hh. exact Hh.
  - intros j job Hj. pose proof (qo_jobs _ _ _ Hq _ _ Hj) as Hjo.
    split; [apply (jo_live _ _ _ _ Hjo)|]. split; [intros Hp; by apply (jo_pending _ _ _ _ Hjo)|].
    intros h Hin. by eapply refs_mapped, refs_job.
  - intros Hc. destruct (qo_claimed _ _ _ Hq Hc) as (Hrh & Hfh & _).
    split; (apply refs_mapped; [done|]); [by apply refs_ring|by apply refs_fence].
  - intros r now Hok Hs. destruct (wp_run _ _ _ (submit_ok r now m Hi Hok)) as [_ H].
    destruct (H Hs) as (j & e & dt & Ht & _ & Hj & _). by eexists j, _.
Qed.

(** [C25] The bookkeeping of the queue is exact in every reachable state: [pending_] counts
    the jobs that the ring may still hold and leaves one entry free, PUT stays inside the
    ring, and a job is reported completed only if the fence of its own generation was
    read, successfully, at its sequence number or beyond. *)
Theorem queue_bookkeeping m :
  q_reachable m ->
  pending_ (qu m) = npending (jobs_ (qu m)) /\
  (claimed_ (qu m) = true -> pending_ (qu m) <= ringEntries (binding_ (qu m)) - 1) /\
  (state_ (qu m) = Ready -> 0 <= put_ (qu m) < ringEntries (binding_ (qu m))) /\
  (forall t r, query t (qu m) = (Ok, r) -> jr_state r = Completed -> exists v,
     EvFence (tk_generation t) v Ok ∈ qtrace m /\ sequence t <= v).
Proof.
  intros Hr. destruct (q_reachable_qinv _ Hr) as [_ Hq].
  pose proof (qo_pending _ _ _ Hq) as Hp. split; [done|]. split; [|split].
  - intros Hc. rewrite Hp. by apply (qo_claimed _ _ _ Hq).
  - intros Hs. by apply (qo_ready _ _ _ Hq).
  - intros t r. unfold query. destruct (find_job t (jobs_ (qu m))) as [j|] eqn:Ef; [|done].
    destruct (find_job_some _ _ _ Ef) as (job & Hj & Ht). rewrite (job_at_some _ _ _ Hj).
    intros [= <-]. cbn. intros Hc. unfold has_token in Ht.
    apply andb_true_iff in Ht as [[_ Hg%Z.eqb_eq]%andb_true_iff Hsq%Z.eqb_eq].
    destruct (jo_done _ _ _ _ (qo_jobs _ _ _ Hq _ _ Hj) Hc) as (v & Hv & Hle).
    exists v. by rewrite <- Hg, <- Hsq.
Qed.


(** A reset of a reachable queue can only fail because the channel could not be
    quiesced or released, never because of the memory owner; when it succeeds no job and
    no binding keeps a hold and the queue can be bound again. *)
Theorem reset_outcomes m :
  q_reachable m ->
  ((reset m).1 = Ok \/ (reset m).1 = QuiesceFailed \/ (reset m).1 = TransportFailure) /\
  ((reset m).1 = Ok -> state_ (qu (reset m).2) = Detached /\ forall h, refs (qu (reset m).2) h = 0).
Proof. intros Hr. by apply (wp_run _ _ _ (reset_ok m (q_reachable_qinv _ Hr))). Qed.
End Instance.

(** * Examples

    The backend of [MemoryOwnerThms] and a channel that agrees to everything. *)

Definition obedient : QueueTransport unit := {|
  context := 1;
  t_claim := Some (fun b _ _ w => ((Done, {|
    ob_device := cb_device b; ob_owner := cb_owner b; ob_vm := vm b; ob_channel := channel b;
    ob_channelGeneration := channelGeneration b; ob_channelClass := channelClass b;
    ob_ringEntries := ringEntries b; gpGet := 0; gpPut := 0; completedFence := 0;
    lastQueuedFence := 0; ob_mode := Ordinary; ringDomain := CoherentSystem |}), w));
  t_sealPushbuffer := Some (fun _ _ g _ _ _ w => ((Ok, commandBytes g), w));
  t_beforePut := Some (fun _ w => (Ok, w));
  t_writePut := Some (fun _ _ w => (Done, w));
  t_afterPut := Some (fun _ w => (Ok, w));
  t_readCurrentToken := Some (fun _ w => ((Ok, 9), w));
  t_ringDoorbell := Some (fun _ _ w => (Done, w));
  t_readCompletedFence := Some (fun _ _ w => ((Ok, 1), w));
  t_quiesce := Some (fun _ w => (true, w));
  t_releaseChannel := Some (fun _ w => (Done, w)) |}.

Definition example_memory : mem_machine unit :=
  let m := (initialize example_device no_limits agreeable (mem_start tt)).2 in
  let m := (allocate zero64 5 4096 m).2 in
  let m := (allocate zero64 5 4096 m).2 in
  let m := (allocate zero64 5 8192 m).2 in
  let m := (map zero64 5 (example_handle 0 1) true m).2 in
  let m := (map zero64 5 (example_handle 1 2) true m).2 in
  (map zero64 5 (example_handle 2 3) true m).2.

Definition example_binding : ChannelBinding := {|
  cb_device := example_device; cb_owner := 5; vm := 1; channel := 2; channelGeneration := 3;
  channelClass := PortedNvidia.AmpereA; ringEntries := 16; ring := example_handle 0 1;
  fence := example_handle 1 2; ringOffset := 0; fenceOffset := 0 |}.

Definition example_request : SubmitRequest := {|
  commands := example_handle 2 3;
  range := {| offset := 64; commandBytes := 16; capacityBytes := 64 |};
  resources := None; resourceCount := 0; rq_deadline := 100 |}.

#[local] Instance zero_interface : MemoryInterface (mem_machine unit) := owner_interface zero64.
#[local] Instance zero_laws : MemoryLaws (mem_machine unit) := owner_laws zero64.

Definition example_bound : qmachine (mem_machine unit) unit :=
  (bind_queue example_binding (q_start obedient example_memory tt)).2.
Definition example_submitted : qmachine (mem_machine unit) unit := (submit example_request 10 example_bound).2.
Definition example_done : qmachine (mem_machine unit) unit := (poll 20 example_submitted).2.

Lemma example_memory_good : minv example_memory.
Proof.
  apply (mem_reachable_minv zero64). unfold example_memory. cbv zeta.
  do 3 (eapply mem_reach_r; [|apply ms_map; cbn; lia]).
  do 3 (eapply mem_reach_r; [|apply ms_allocate; lia]).
  eapply mem_reach_r; [|apply ms_initialize; cbn; lia]. exists tt. apply rtc_refl.
Qed.

Lemma q_reach_r (m m' : qmachine (mem_machine unit) unit) : q_reachable m -> q_step m m' -> q_reachable m'.
Proof. intros (t & mem & w & Hg & Hr) Hs. exists t, mem, w. split; [done|]. by eapply rtc_r. Qed.

Lemma example_bound_reachable : q_reachable example_bound.
Proof.
  eapply q_reach_r; [|apply qs_bind; cbn; lia]. exists obedient, example_memory, tt.
  split; [apply example_memory_good|apply rtc_refl].
Qed.

Lemma example_request_ok : request_ok example_request.
Proof. split; [cbn; lia|constructor]. Qed.

Lemma example_submitted_reachable : q_reachable example_submitted.
Proof.
  eapply q_reach_r; [apply example_bound_reachable|]. apply qs_submit. apply example_request_ok.
Qed.

Definition example_job : Job := job_at (qu example_submitted) 0.

Lemma queue_memory_safe_witness :
  pending_ (qu example_submitted) = 1 /\ legal_trace (trace (memory example_submitted)) /\
  sealed_in 0 (qtrace example_submitted) = Some ({| tk_generation := 1; sequence := 1 |}, [example_handle 2 3]) /\
  phase_of (example_handle 2 3) (trace (memory example_submitted)) = PMapped.
Proof.
  destruct (queue_memory_safe zero64 example_submitted example_submitted_reachable) as (Hl & _ & Hj & _).
  split; [vm_compute; reflexivity|]. split; [exact Hl|].
  assert (E : jobs_ (qu example_submitted) !! 0%nat = Some example_job) by (vm_compute; reflexivity).
  destruct (Hj 0%nat example_job E) as (_ & Hs & Hm). split.
  - rewrite Hs by (vm_compute; reflexivity). vm_compute. reflexivity.
  - apply Hm. vm_compute. left.
Defined.

Definition example_token : FenceToken := {| tk_generation := 1; sequence := 1 |}.

Lemma queue_bookkeeping_witness :
  jr_state (query example_token (qu example_done)).2 = Completed /\
  exists v, EvFence 1 v Ok ∈ qtrace example_done /\ 1 <= v.
Proof.
  assert (Hr : q_reachable example_done).
  { eapply q_reach_r; [apply example_submitted_reachable|]. apply qs_poll. }
  split; [vm_compute; reflexivity|].
  destruct (queue_bookkeeping zero64 example_done Hr) as (_ & _ & _ & Hq).
  destruct (query example_token (qu example_done)) as [s r] eqn:E.
  refine (Hq example_token r _ _).
  - rewrite E. f_equal. vm_compute in E. injection E as <- _. reflexivity.
  - vm_compute in E. injection E as _ <-. reflexivity.
Defined.


Lemma reset_outcomes_witness :
  (reset example_submitted).1 = Ok /\ state_ (qu (reset example_submitted).2) = Detached.
Proof.
  assert (E : (reset example_submitted).1 = Ok) by (vm_compute; reflexivity). split; [exact E|].
  exact (proj1 (proj2 (reset_outcomes zero64 example_submitted example_submitted_reachable) E)).
Defined.
