(* ===== verification/HeapSort.v ===== *)
(** The in-place heap sort of [Drivers/PortedNvidiaGsp/Radix3.cpp]: it terminates, and what
    it leaves is the sorted permutation of what it was given. *)
From stdpp Require Import base numbers list sorting.
From S2P Require Import Prelude.

#[local] Open Scope nat_scope.

Module HeapSort.

(** * Code *)

Definition swap (words : list Z) (a b : nat) : list Z :=
  <[b := words !!! a]> (<[a := words !!! b]> words).

(** The child that the root is compared with: the larger one. *)
Definition larger_child (words : list Z) (root count : nat) : nat :=
  let child := root * 2 + 1 in
  if (child + 1 <? count) && Z.ltb (words !!! child) (words !!! (child + 1)) then child + 1 else child.

(** The loop of [sift]; [None] when the fuel runs out. *)
Fixpoint sift (fuel : nat) (words : list Z) (root count : nat) : option (list Z) :=
  match fuel with
  | O => None
  | S fuel =>
      if root <? count / 2 then
        let child := larger_child words root count in
        if (words !!! child <=? words !!! root)%Z then Some words
        else sift fuel (swap words root child) child count
      else Some words
  end.

(** [for (i = n; i > 0; --i) sift(words, i - 1, count)]. *)
Fixpoint build (words : list Z) (n count : nat) : option (list Z) :=
  match n with
  | O => Some words
  | S n => ws ← sift (S count) words n count; build ws n count
  end.

(** [for (remaining = n; remaining > 1; --remaining)]. *)
Fixpoint extract (words : list Z) (remaining : nat) : option (list Z) :=
  match remaining with
  | O | S O => Some words
  | S n => ws ← sift (S n) (swap words 0 n) 0 n; extract ws n
  end.

Definition heapSort (words : list Z) (count : nat) : option (list Z) :=
  ws ← build words (count / 2) count; extract ws count.

Example heapSort_example : heapSort [5; 1; 9; 3; 9; 2; 0]%Z 7 = Some [0; 1; 2; 3; 5; 9; 9]%Z.
Proof. reflexivity. Qed.

(** * Exchanges *)

Lemma swap_length l a b : length (swap l a b) = length l.
Proof. unfold swap. by rewrite !length_insert. Qed.

Lemma swap_at l a b i :
  a < length l -> b < length l ->
  swap l a b !!! i = if decide (i = b) then l !!! a else if decide (i = a) then l !!! b else l !!! i.
Proof.
  intros Ha Hb. unfold swap. rewrite !list_lookup_total_alt.
  destruct (decide (i = b)) as [->|Hib].
  - rewrite list_lookup_insert_eq by (by rewrite length_insert). done.
  - rewrite list_lookup_insert_ne by done. destruct (decide (i = a)) as [->|Hia].
    + by rewrite list_lookup_insert_eq.
    + by rewrite list_lookup_insert_ne.
Qed.

Lemma swap_perm l a b : a < length l -> b < length l -> swap l a b ≡ₚ l.
Proof.
  intros Ha Hb. unfold swap. rewrite !list_lookup_total_alt.
  destruct (lookup_lt_is_Some_2 l a Ha) as [x Hx], (lookup_lt_is_Some_2 l b Hb) as [y Hy].
  rewrite Hx, Hy. cbn. destruct (decide (a = b)) as [->|Hab].
  { rewrite list_insert_insert_eq. by rewrite list_insert_id. }
  apply Permutation_inj. split; [by rewrite !length_insert|].
  exists (fun i => if decide (i = a) then b else if decide (i = b) then a else i). split.
  - intros i j. repeat case_decide; congruence.
  - intros i. repeat case_decide; subst.
    + rewrite list_lookup_insert_ne by done. by rewrite list_lookup_insert_eq, Hy.
    + by rewrite list_lookup_insert_eq, Hx by (by rewrite length_insert).
    + by rewrite !list_lookup_insert_ne by done.
Qed.

Lemma swap_drop l a b n : a < n -> b < n -> drop n (swap l a b) = drop n l.
Proof. intros. unfold swap. by rewrite !drop_insert_lt by lia. Qed.

(** * The heap *)

Definition parent (c : nat) : nat := (c - 1) / 2.

(** Every node from [s] on is at least its children, [hole] excepted; what the exception
    displaces stays below the parent of the hole. *)
Record heap_but (s n hole : nat) (l : list Z) : Prop := {
  hb_order : forall c, 0 < c < n -> s <= parent c -> parent c <> hole -> (l !!! c <= l !!! parent c)%Z;
  hb_hole : forall c, 0 < c < n -> parent c = hole -> 0 < hole -> s <= parent hole ->
    (l !!! c <= l !!! parent hole)%Z;
}.

Definition heap_from (s n : nat) (l : list Z) : Prop :=
  forall c, 0 < c < n -> s <= parent c -> (l !!! c <= l !!! parent c)%Z.

Lemma parent_cases c p : 0 < c -> parent c = p <-> c = p * 2 + 1 \/ c = p * 2 + 2.
Proof.
  intros Hc. unfold parent. pose proof (Nat.div_mod (c - 1) 2). pose proof (Nat.mod_upper_bound (c - 1) 2). lia.
Qed.

Lemma parent_lt c : 0 < c -> parent c < c.
Proof. intros Hc. pose proof (proj1 (parent_cases c (parent c) Hc) eq_refl). lia. Qed.

Lemma half_spec root count : root < count / 2 <-> root * 2 + 1 < count.
Proof.
  pose proof (Nat.div_mod count 2). pose proof (Nat.mod_upper_bound count 2). lia.
Qed.

Lemma larger_child_spec l root count :
  root * 2 + 1 < count ->
  let c := larger_child l root count in
  c < count /\ parent c = root /\ root < c /\
  forall d, 0 < d < count -> parent d = root -> (l !!! d <= l !!! c)%Z.
Proof.
  intros Hr c. subst c. unfold larger_child.
  assert (Hp : forall d, 0 < d -> parent d = root -> d = root * 2 + 1 \/ d = root * 2 + 2)
    by (intros d Hd; by apply parent_cases).
  destruct ((root * 2 + 1 + 1 <? count) && Z.ltb (l !!! (root * 2 + 1)) (l !!! (root * 2 + 1 + 1))) eqn:E.
  - apply andb_true_iff in E as [E1%Nat.ltb_lt E2%Z.ltb_lt]. split_and!; [lia|apply parent_cases; lia|lia|].
    intros d Hd Hpd. destruct (Hp d) as [->| ->]; [lia|done|lia|].
    replace (root * 2 + 2) with (root * 2 + 1 + 1) by lia. lia.
  - split_and!; [lia|apply parent_cases; lia|lia|].
    intros d Hd Hpd. destruct (Hp d) as [->| ->]; [lia|done|lia|].
    replace (root * 2 + 2) with (root * 2 + 1 + 1) by lia.
    apply andb_false_iff in E as [E%Nat.ltb_ge|E%Z.ltb_ge]; lia.
Qed.

(** One step of the loop moves the hole to the child. *)
Lemma heap_swap l s n root :
  n <= length l -> root * 2 + 1 < n -> s <= root -> heap_but s n root l ->
  let c := larger_child l root n in
  (l !!! root < l !!! c)%Z -> heap_but s n c (swap l root c).
Proof.
  intros Hn Hr Hs [Ho Hh] c Hlt. destruct (larger_child_spec l root n Hr) as (Hc & Hp & Hrc & Hmax).
  fold c in Hc, Hp, Hrc, Hmax.
  assert (Hsw := swap_at l root c). split.
  - intros d Hd Hsd Hnd. rewrite !Hsw by lia. pose proof (parent_lt d ltac:(lia)).
    destruct (decide (d = c)) as [->|Hdc].
    { rewrite Hp. rewrite decide_False by lia. rewrite decide_True by done. lia. }
    rewrite (decide_False (P := parent d = c)) by done.
    destruct (decide (d = root)) as [->|Hdr].
    { rewrite (decide_False (P := parent root = root)) by lia. apply Hh; try done; lia. }
    destruct (decide (parent d = root)) as [E|E]; [by apply Hmax|]. by apply Ho.
  - intros d Hd Hpd _ Hsp. rewrite Hp, !Hsw by lia. pose proof (parent_lt d ltac:(lia)).
    rewrite (decide_False (P := d = c)), (decide_False (P := d = root)) by lia.
    rewrite (decide_False (P := root = c)), (decide_True (P := root = root)) by (done || lia).
    rewrite <- Hpd. apply Ho; try done; lia.
Qed.

(** [sift] closes the hole. *)
Lemma sift_spec fuel l s n root :
  n <= length l -> n - root < fuel -> s <= root -> heap_but s n root l ->
  exists l', sift fuel l root n = Some l' /\ l' ≡ₚ l /\ drop n l' = drop n l /\ heap_from s n l'.
Proof.
  revert l root. induction fuel as [|fuel IH]; intros l root Hn Hf Hs Hb; [lia|]. cbn [sift].
  destruct (Nat.ltb_spec root (n / 2)) as [Hr%half_spec|Hr].
  - destruct (larger_child_spec l root n Hr) as (Hc & Hp & Hrc & Hmax).
    destruct (Z.leb_spec (l !!! larger_child l root n) (l !!! root)) as [Hle|Hlt].
    + exists l. split_and!; try done. intros d Hd Hsd. destruct (decide (parent d = root)) as [E|E].
      * rewrite E. specialize (Hmax d Hd E). lia.
      * by apply Hb.
    + destruct (IH (swap l root (larger_child l root n)) (larger_child l root n)) as (l' & El & Hpm & Hd & Hh).
      * by rewrite swap_length.
      * lia.
      * lia.
      * by apply heap_swap.
      * exists l'. split_and!; try done.
        -- rewrite Hpm. apply swap_perm; lia.
        -- rewrite Hd. apply swap_drop; lia.
  - exists l. split_and!; try done. intros d Hd Hsd. apply Hb; try done.
    intros E. apply (parent_cases d root) in E; [|lia].
    apply (proj1 (Nat.le_ngt _ _) Hr), half_spec. lia.
Qed.

Lemma build_spec l n count :
  count <= length l -> heap_from n count l ->
  exists l', build l n count = Some l' /\ l' ≡ₚ l /\ drop count l' = drop count l /\ heap_from 0 count l'.
Proof.
  revert l. induction n as [|n IH]; intros l Hl Hh; cbn [build]; [by exists l|].
  destruct (sift_spec (S count) l n count n) as (l1 & E1 & Hp1 & Hd1 & Hh1); [done|lia|lia| |].
  - split.
    + intros c Hc Hn Hne. apply Hh; [done|lia].
    + intros c Hc Hpc Hpos Hn. pose proof (parent_lt n Hpos). lia.
  - rewrite E1. cbn. destruct (IH l1) as (l2 & E2 & Hp2 & Hd2 & Hh2); [by rewrite Hp1|done|].
    exists l2. split_and!; try done; [by rewrite Hp2|by rewrite Hd2].
Qed.

(** * Extraction *)

(** The front is a heap, the rest of the [count] words is sorted and above it. *)
Record sorting (count n : nat) (l : list Z) : Prop := {
  so_heap : heap_from 0 n l;
  so_sorted : forall i j, n <= i -> i <= j -> j < count -> (l !!! i <= l !!! j)%Z;
  so_above : forall i j, i < n -> n <= j -> j < count -> (l !!! i <= l !!! j)%Z;
}.

Lemma heap_max n l c : heap_from 0 n l -> c < n -> (l !!! c <= l !!! 0%nat)%Z.
Proof.
  intros Hh. induction c as [c IH] using lt_wf_ind. intros Hc.
  destruct (decide (c = 0)) as [->|Hn]; [done|]. pose proof (parent_lt c ltac:(lia)).
  specialize (IH (parent c) ltac:(lia) ltac:(lia)). specialize (Hh c ltac:(lia) ltac:(lia)). lia.
Qed.

Lemma perm_front n (l l' : list Z) : l' ≡ₚ l -> drop n l' = drop n l -> take n l' ≡ₚ take n l.
Proof.
  intros Hp Hd. apply (Permutation_app_inv_r (drop n l)).
  rewrite take_drop. rewrite <- Hd at 1. by rewrite take_drop.
Qed.

Lemma front_lookup n (l l' : list Z) i :
  l' ≡ₚ l -> drop n l' = drop n l -> i < n -> n <= length l ->
  exists k, k < n /\ l' !!! i = l !!! k.
Proof.
  intros Hp Hd Hi Hn. assert (Hlen : length l' = length l) by (by rewrite Hp).
  assert (Hin : l' !!! i ∈ take n l).
  { rewrite <- (perm_front n l l' Hp Hd). apply list_elem_of_lookup_2 with i.
    rewrite lookup_take_lt by lia. apply list_lookup_lookup_total_lt. lia. }
  apply list_elem_of_lookup_1 in Hin as [k Hk]. apply lookup_take_Some in Hk as [Hk Hkn].
  exists k. split; [done|]. by rewrite (list_lookup_total_correct _ _ _ Hk).
Qed.

Lemma drop_at n (l l' : list Z) i : drop n l' = drop n l -> n <= i -> l' !!! i = l !!! i.
Proof.
  intros Hd Hi. rewrite !list_lookup_total_alt. replace i with (n + (i - n)) by lia.
  by rewrite <- !lookup_drop, Hd.
Qed.

Lemma drop_more n k (l l' : list Z) : drop n l' = drop n l -> n <= k -> drop k l' = drop k l.
Proof. intros Hd Hk. replace k with (n + (k - n)) by lia. by rewrite <- !drop_drop, Hd. Qed.

Lemma extract_step l n count :
  S n <= count -> count <= length l -> sorting count (S n) l ->
  exists l', sift (S n) (swap l 0 n) 0 n = Some l' /\ l' ≡ₚ l /\ drop count l' = drop count l /\
    sorting count n l'.
Proof.
  intros Hcn Hl [Hh Hs Ha].
  assert (Hsw := swap_at l 0 n).
  destruct (sift_spec (S n) (swap l 0 n) 0 n 0) as (l' & E & Hp & Hd & Hh'); [rewrite swap_length; lia|lia|lia| |].
  { split; [|lia]. intros c Hc _ Hne. rewrite !Hsw by lia. pose proof (parent_lt c ltac:(lia)).
    rewrite !decide_False by lia. apply Hh; lia. }
  exists l'. split; [done|]. rewrite swap_perm in Hp by lia. split; [done|]. split.
  { rewrite (drop_more n count _ _ Hd) by lia. apply swap_drop; lia. }
  assert (Hlen : length l' = length l) by (by rewrite Hp).
  assert (Hback : forall j, n <= j -> l' !!! j = if decide (j = n) then l !!! 0 else l !!! j).
  { intros j Hj. rewrite (drop_at n (swap l 0 n) l' j Hd Hj), Hsw by lia.
    destruct (decide (j = n)); [done|]. by rewrite decide_False by lia. }
  assert (Htop : forall j, n <= j -> j < count -> (l !!! 0%nat <= l' !!! j)%Z).
  { intros j Hj Hjl. rewrite Hback by done. case_decide; [done|]. apply Ha; lia. }
  split; [done| |].
  - intros i j Hi Hij Hj. rewrite (Hback i) by done. case_decide as Ein; [apply Htop; lia|].
    rewrite Hback, decide_False by lia. apply Hs; lia.
  - intros i j Hi Hj Hjl. assert (Hfront : (l' !!! i <= l !!! 0%nat)%Z).
    { destruct (front_lookup n (swap l 0 n) l' i) as (k & Hk & ->); [|done|done|rewrite swap_length; lia|].
      - rewrite Hp. symmetry. apply swap_perm; lia.
      - rewrite Hsw by lia. repeat case_decide; [lia|apply heap_max with (S n); [done|lia]..]. }
    specialize (Htop j Hj ltac:(lia)). lia.
Qed.

Lemma extract_spec l n count :
  n <= count -> count <= length l -> sorting count n l ->
  exists l', extract l n = Some l' /\ l' ≡ₚ l /\ drop count l' = drop count l /\ sorting count 0 l'.
Proof.
  revert l. induction n as [|[|n] IH]; intros l Hc Hl Hs.
  - by exists l.
  - exists l. split_and!; try done. destruct Hs as [H1 H2 H3]. split; [by intros c [? ?]; lia| |by intros; lia].
    intros i j _ Hij Hj. destruct (decide (i = 0)) as [->|Hi]; [|apply H2; lia].
    destruct (decide (j = 0)) as [->|Hj0]; [done|apply H3; lia].
  - destruct (extract_step l (S n) count Hc Hl Hs) as (l1 & E1 & Hp1 & Hd1 & Hs1).
    change (exists l', (ws ← sift (S (S n)) (swap l 0 (S n)) 0 (S n); extract ws (S n)) = Some l' /\
      l' ≡ₚ l /\ drop count l' = drop count l /\ sorting count 0 l').
    rewrite E1. cbn [mbind option_bind]. destruct (IH l1) as (l2 & E2 & Hp2 & Hd2 & Hs2).
    + lia.
    + by rewrite Hp1.
    + done.
    + exists l2. split_and!; try done; [by rewrite Hp2|by rewrite Hd2].
Qed.

(** * The sort *)

Lemma ascending_sorted l :
  (forall i j, i <= j -> j < length l -> (l !!! i <= l !!! j)%Z) -> StronglySorted Z.le l.
Proof.
  induction l as [|x l IH]; intros H; constructor.
  - apply IH. intros i j Hij Hj. apply (H (S i) (S j)); cbn; lia.
  - apply Forall_lookup. intros i y Hy. pose proof (lookup_lt_Some _ _ _ Hy).
    specialize (H 0 (S i) ltac:(lia) ltac:(cbn; lia)). change (x <= l !!! i)%Z in H.
    by rewrite (list_lookup_total_correct _ _ _ Hy) in H.
Qed.

Lemma heapSort_spec words count :
  count <= length words ->
  exists words', heapSort words count = Some words' /\
    take count words' ≡ₚ take count words /\ StronglySorted Z.le (take count words') /\
    drop count words' = drop count words.
Proof.
  intros Hl. unfold heapSort.
  destruct (build_spec words (count / 2) count) as (l1 & E1 & Hp1 & Hd1 & Hh1); [done| |].
  { intros c Hc Hle. exfalso. apply (proj1 (Nat.le_ngt _ _) Hle). apply half_spec.
    pose proof (proj1 (parent_cases c (parent c) ltac:(lia)) eq_refl). lia. }
  rewrite E1. cbn. assert (Hlen : length l1 = length words) by (by rewrite Hp1).
  destruct (extract_spec l1 count count) as (l2 & E2 & Hp2 & Hd2 & Hs2); [lia|lia| |].
  { split; [done|intros; lia|intros; lia]. }
  assert (Hd : drop count l2 = drop count words) by congruence.
  assert (Hp : l2 ≡ₚ words) by (by rewrite Hp2).
  exists l2. split_and!; [done|by apply perm_front| |done].
  apply ascending_sorted. intros i j Hij. rewrite length_take. intros Hj.
  rewrite !list_lookup_total_alt, !lookup_take_lt by lia. rewrite <- !list_lookup_total_alt.
  apply Hs2; lia.
Qed.

(** The heap sort terminates on every array and every count within it: the first
    [count] words become the sorted permutation of what they were, the words after them
    stay as they are. *)
Theorem heapSort_sorts words count :
  count <= length words ->
  exists words', heapSort words count = Some words' /\
    take count words' ≡ₚ take count words /\ StronglySorted Z.le (take count words') /\
    drop count words' = drop count words.
Proof. apply heapSort_spec. Qed.

Lemma heapSort_sorts_witness :
  heapSort [5; 1; 9; 3; 9; 2; 0; 4]%Z 7 = Some [0; 1; 2; 3; 5; 9; 9; 4]%Z /\
  StronglySorted Z.le [0; 1; 2; 3; 5; 9; 9]%Z.
Proof.
  split; [reflexivity|].
  destruct (heapSort_sorts [5; 1; 9; 3; 9; 2; 0; 4]%Z 7) as (l & E & _ & Hs & _); [cbn; lia|].
  vm_compute in E. injection E as <-. exact Hs.
Defined.

End HeapSort.
