(* ===== verification/Radix3.v ===== *)
(** The scatter table of a firmware image, [Drivers/PortedNvidiaGsp/Radix3.{hpp,cpp}]: its
    layout, its serialization, and the walk of the firmware loader through it. *)
From stdpp Require Import base numbers list sorting.
From S2P Require Import Prelude.
From S2P Require Import HeapSort.

Module PortedNvidiaGsp.

(** * Code *)

Definition RadixPageBytes : Z := 4096.
Definition RadixEntriesPerPage : Z := 512.
Definition RadixPayloadBytesMax : Z := 0x8000000000.

Inductive Status :=
  | Ok | InvalidSize | InvalidLayout | InvalidArgument | InvalidCount
  | InvalidAddressWidth | InvalidAddress | BufferTooSmall | IntegerOverflow
  | OverlappingCpuSpans | AliasedDmaPages.

#[export] Instance Status_eq_dec : EqDecision Status.
Proof. solve_decision. Defined.

Record Radix3Layout := {
  payloadBytes : Z;
  pageCount : list Z;
  byteOffset : list Z;
  tablePageCount : Z;
  tableBytes : Z;
  allocationBytes : Z;
}.

Definition no_layout : Radix3Layout := {|
  payloadBytes := 0; pageCount := [0; 0; 0; 0]; byteOffset := [0; 0; 0; 0];
  tablePageCount := 0; tableBytes := 0; allocationBytes := 0 |}.

#[export] Instance Radix3Layout_eq_dec : EqDecision Radix3Layout.
Proof. solve_decision. Defined.

Definition planRadix3 (bytes : Z) (out : Radix3Layout) : Status * Radix3Layout :=
  if (bytes =? 0) || (RadixPayloadBytesMax <? bytes) then (InvalidSize, out) else
  let above n := (n - 1) / RadixEntriesPerPage +64 1 in
  let p3 := (bytes - 1) / RadixPageBytes +64 1 in
  let p2 := above p3 in
  let p1 := above p2 in
  let p0 := above p1 in
  if negb (p0 =? 1) then (InvalidSize, out) else
  let pages1 := 0 +64 p0 in
  let pages2 := pages1 +64 p1 in
  let pages3 := pages2 +64 p2 in
  let offset n := wrap 64 (n * RadixPageBytes) in
  (Ok, {| payloadBytes := bytes; pageCount := [p0; p1; p2; p3];
          byteOffset := [0; offset pages1; offset pages2; offset pages3];
          tablePageCount := pages3; tableBytes := offset pages3;
          allocationBytes := offset pages3 +64 wrap 64 (p3 * RadixPageBytes) |}).

Definition sameLayout (a b : Radix3Layout) : bool := bool_decide (a = b).

(** A list of page addresses: the pointer and the count.  What is behind pointers is in
    [Contents]: the code stores nothing until it has checked that the spans of the
    arguments are disjoint. *)
Record DmaPages := { addresses : Z; count : Z }.

Record SerializeArguments := {
  layout : Radix3Layout;
  tablePages : DmaPages;
  payloadPages : DmaPages;
  dmaAddressBits : Z;
  payload : Z;
  payloadSize : Z;
  output : Z;
  outputBytes : Z;
  scratch : Z;
  scratchWords : Z;
}.

Record Contents := {
  tableAddresses : list Z;
  payloadAddresses : list Z;
  payloadData : list Z;
  outputData : list Z;
  scratchData : list Z;
}.

Definition SIZE_MAX : Z := U64_MAX.

Definition span (pointer bytes : Z) : option (Z * Z) :=
  if SIZE_MAX - pointer <? bytes then None else Some (pointer, pointer + bytes).

Definition overlap (a b : Z * Z) : bool := (a.1 <? b.2) && (b.1 <? a.2).

Fixpoint any_overlap (spans : list (Z * Z)) : bool :=
  match spans with
  | [] => false
  | s :: spans => existsb (overlap s) spans || any_overlap spans
  end.

Definition validPage (address addressMax : Z) : bool :=
  (Z.land address (RadixPageBytes - 1) =? 0) && (address <=? addressMax - (RadixPageBytes - 1)).

Definition totalPages (a : SerializeArguments) : Z := count (tablePages a) +64 count (payloadPages a).

Definition spans (a : SerializeArguments) : list (option (Z * Z)) :=
  [span (output a) (allocationBytes (layout a)); span (payload a) (payloadSize a);
   span (addresses (tablePages a)) (wrap 64 (count (tablePages a) * 8));
   span (addresses (payloadPages a)) (wrap 64 (count (payloadPages a) * 8));
   span (scratch a) (wrap 64 (totalPages a * 8))].

(** The checks of the arguments, up to the spans; [None] when all is well. *)
Definition check_arguments (a : SerializeArguments) : option Status :=
  let '(s, expected) := planRadix3 (payloadBytes (layout a)) no_layout in
  if negb (bool_decide (s = Ok)) || negb (sameLayout (layout a) expected) then Some InvalidLayout else
  if (dmaAddressBits a <? 12) || (64 <? dmaAddressBits a) then Some InvalidAddressWidth else
  if (SIZE_MAX <? allocationBytes (layout a)) || (SIZE_MAX <? tablePageCount (layout a)) ||
     (SIZE_MAX <? pageCount (layout a) !!! 3%nat) then Some IntegerOverflow else
  if negb (count (tablePages a) =? tablePageCount (layout a)) ||
     negb (count (payloadPages a) =? pageCount (layout a) !!! 3%nat) ||
     negb (payloadSize a =? payloadBytes (layout a)) then Some InvalidCount else
  if outputBytes a <? allocationBytes (layout a) then Some BufferTooSmall else
  if SIZE_MAX - count (payloadPages a) <? count (tablePages a) then Some IntegerOverflow else
  if SIZE_MAX / 8 <? totalPages a then Some IntegerOverflow else
  if scratchWords a <? totalPages a then Some BufferTooSmall else
  if (addresses (tablePages a) =? 0) || (addresses (payloadPages a) =? 0) || (payload a =? 0) ||
     (output a =? 0) || (scratch a =? 0) then Some InvalidArgument else
  if negb (addresses (tablePages a) mod 8 =? 0) || negb (addresses (payloadPages a) mod 8 =? 0) ||
     negb (scratch a mod 8 =? 0) then Some InvalidArgument else
  match mapM id (spans a) with
  | None => Some IntegerOverflow
  | Some l => if any_overlap l then Some OverlappingCpuSpans else None
  end.

Definition addressMax (a : SerializeArguments) : Z :=
  if dmaAddressBits a =? 64 then U64_MAX else Z.shiftl 1 (dmaAddressBits a) - 1.

(** [for (i = b; i < e; ++i)]. *)
Definition for_range {A} (b e : nat) (f : nat -> A -> A) (x : A) : A :=
  foldl (fun x i => f i x) x (seq b (e - b)).

Definition writeAddress (off : nat) (address : Z) (out : list Z) : list Z :=
  for_range 0 8 (fun byte out => <[off + byte := wrap 8 (Z.shiftr address (Z.of_nat byte * 8))]> out)%nat out.

(** The words of both lists, one after the other, in the scratch span. *)
Definition fill_scratch (nt np : nat) (c : Contents) : list Z :=
  for_range 0 np (fun i s => <[nt + i := payloadAddresses c !!! i]> s)%nat
    (for_range 0 nt (fun i s => <[i := tableAddresses c !!! i]> s) (scratchData c)).

(** [scratch[i - 1] == scratch[i]] for some [i]. *)
Definition adjacent_equal (n : nat) (s : list Z) : bool :=
  existsb (fun i => s !!! (i - 1)%nat =? s !!! i) (seq 1 (n - 1)).

(** One level of the table: entries for the [n] pages from [child] on. *)
Definition write_level (entry n : nat) (pages : nat -> Z) (out : list Z) : list Z :=
  for_range 0 n (fun i out => writeAddress (entry + i * 8) (pages i) out)%nat out.

Definition populate (a : SerializeArguments) (c : Contents) : list Z :=
  let l := layout a in
  let off k := Z.to_nat (byteOffset l !!! k) in
  let pages k := Z.to_nat (pageCount l !!! k) in
  let out := for_range 0 (Z.to_nat (tableBytes l)) (fun i out => <[i := 0]> out) (outputData c) in
  let out := for_range 0 2 (fun level out =>
    let childBegin := Z.to_nat (byteOffset l !!! S level / RadixPageBytes) in
    write_level (off level) (pages (S level)) (fun i => tableAddresses c !!! (childBegin + i)%nat) out) out in
  let out := write_level (off 2%nat) (Z.to_nat (count (payloadPages a))) (fun i => payloadAddresses c !!! i) out in
  let out := for_range 0 (Z.to_nat (payloadSize a))
    (fun i out => <[off 3 + i := payloadData c !!! i]> out)%nat out in
  for_range (off 3%nat + Z.to_nat (payloadSize a)) (Z.to_nat (allocationBytes l)) (fun i out => <[i := 0]> out) out.

(** Status, output and scratch; [None] if the sort does not terminate. *)
Definition serializeRadix3 (a : SerializeArguments) (c : Contents) : option (Status * list Z * list Z) :=
  match check_arguments a with
  | Some s => Some (s, outputData c, scratchData c)
  | None =>
      let nt := Z.to_nat (count (tablePages a)) in
      let np := Z.to_nat (count (payloadPages a)) in
      let total := Z.to_nat (totalPages a) in
      if negb (forallb (fun i => validPage (tableAddresses c !!! i) (addressMax a)) (seq 0 nt)) then
        Some (InvalidAddress, outputData c, scratchData c)
      else if negb (forallb (fun i => validPage (payloadAddresses c !!! i) (addressMax a)) (seq 0 np)) then
        Some (InvalidAddress, outputData c, scratchData c)
      else
        s ← HeapSort.heapSort (fill_scratch nt np c) total;
        if adjacent_equal total s then Some (AliasedDmaPages, outputData c, s)
        else Some (Ok, populate a c, s)
  end.
End PortedNvidiaGsp.
