(* ===== verification/Radix3Thms.v ===== *)
(** The theorems about the scatter table: the sort decides whether pages alias, nothing is
    written unless everything was checked, and the loader finds the image in the table. *)
From stdpp Require Import base numbers list sorting.
From S2P Require Import Prelude.
From S2P Require Import StateWp.
From S2P Require Import HeapSort.
From S2P Require Import Radix3.
Import PortedNvidiaGsp.

(** * Loops that store *)

Section Stores.
#[local] Open Scope nat_scope.

Lemma for_range_last {A} b e f (x : A) : b <= e -> for_range b (S e) f x = f e (for_range b e f x).
Proof.
  intros Hb. unfold for_range. replace (S e - b) with (S (e - b)) by lia.
  rewrite seq_S, foldl_snoc. f_equal. lia.
Qed.

Lemma for_range_nil {A} b e f (x : A) : e <= b -> for_range b e f x = x.
Proof. intros Hb. unfold for_range. by replace (e - b) with 0 by lia. Qed.

Lemma for_range_two {A} f (x : A) : for_range 0 2 f x = f 1 (f 0 x).
Proof. done. Qed.

(** Stores of one word per step. *)
Lemma store_range off b e (g : nat -> Z) (l : list Z) :
  b <= e -> length (for_range b e (fun i l => <[off + i := g i]> l) l) = length l /\
  forall k, for_range b e (fun i l => <[off + i := g i]> l) l !! k =
    if decide (off + b <= k < off + e /\ k < length l) then Some (g (k - off)) else l !! k.
Proof.
  intros Hb. induction Hb as [|e Hb [IHl IH]].
  - rewrite for_range_nil by done. split; [done|]. intros k. by rewrite decide_False by lia.
  - rewrite for_range_last by done. split; [by rewrite length_insert|]. intros k.
    destruct (decide (k = off + e)) as [->|Hk].
    + destruct (decide (off + e < length l)) as [Hlt|Hge].
      * rewrite list_lookup_insert_eq by lia. rewrite decide_True by lia. do 2 f_equal. lia.
      * rewrite list_insert_ge by lia. rewrite IH, !decide_False by lia. done.
    + rewrite list_lookup_insert_ne by done. rewrite IH.
      apply decide_ext. lia.
Qed.

(** The bytes of a word. *)
Definition byte_of (x : Z) (j : nat) : Z := wrap 8 (Z.shiftr x (Z.of_nat j * 8)).

Lemma writeAddress_spec off x l :
  length (writeAddress off x l) = length l /\
  forall k, writeAddress off x l !! k =
    if decide (off <= k < off + 8 /\ k < length l) then Some (byte_of x (k - off)) else l !! k.
Proof.
  destruct (store_range off 0 8 (byte_of x) l) as [Hl Hk]; [lia|]. split; [exact Hl|].
  intros k. unfold writeAddress. fold (byte_of x). specialize (Hk k). rewrite Nat.add_0_r in Hk. exact Hk.
Qed.

(** Stores of one address per step. *)
Lemma write_level_spec off n (g : nat -> Z) l :
  length (write_level off n g l) = length l /\
  forall k, write_level off n g l !! k =
    if decide (off <= k < off + n * 8 /\ k < length l)
    then Some (byte_of (g ((k - off) / 8)) ((k - off) mod 8)) else l !! k.
Proof.
  unfold write_level. induction n as [|n [IHl IH]].
  - rewrite for_range_nil by done. split; [done|]. intros k. by rewrite decide_False by lia.
  - rewrite for_range_last by lia.
    destruct (writeAddress_spec (off + n * 8) (g n)
      (for_range 0 n (fun i out => writeAddress (off + i * 8) (g i) out) l)) as [Hl Hk].
    split; [lia|]. intros k. rewrite Hk, IHl. case_decide as E.
    + rewrite decide_True by lia. replace (k - off) with ((k - (off + n * 8)) + n * 8) by lia.
      rewrite Nat.div_add, Nat.Div0.mod_add by lia.
      rewrite Nat.div_small, (Nat.mod_small (k - (off + n * 8))) by lia. do 2 f_equal; lia.
    + rewrite IH. apply decide_ext. lia.
Qed.

(** What a reader of a little-endian word sees. *)
Definition read64 (l : list Z) (k : nat) : Z := foldr (fun j w => l !!! (k + j)%nat + 256 * w)%Z 0%Z (seq 0 8).

Lemma bytes_sum x i n : (0 <= x)%Z ->
  foldr (fun j w => byte_of x j + 256 * w)%Z 0%Z (seq i n) = (Z.shiftr x (Z.of_nat i * 8) mod 2 ^ (Z.of_nat n * 8))%Z.
Proof.
  intros Hx. revert i. induction n as [|n IH]; intros i; cbn [seq foldr].
  - change (2 ^ (Z.of_nat 0 * 8))%Z with 1%Z. by rewrite Z.mod_1_r.
  - rewrite IH. unfold byte_of, wrap. rewrite !Z.shiftr_div_pow2 by lia.
    replace (Z.of_nat (S i) * 8)%Z with (Z.of_nat i * 8 + 8)%Z by lia.
    replace (Z.of_nat (S n) * 8)%Z with (8 + Z.of_nat n * 8)%Z by lia.
    rewrite !Z.pow_add_r by lia. change (2 ^ 8)%Z with 256%Z.
    rewrite Z.rem_mul_r by lia. rewrite Z.div_div by lia. lia.
Qed.

Lemma read64_bytes l k x :
  word 64 x -> (forall j, j < 8 -> l !! (k + j) = Some (byte_of x j)) -> read64 l k = x.
Proof.
  intros Hx Hl. unfold read64. transitivity (foldr (fun j w => byte_of x j + 256 * w)%Z 0%Z (seq 0 8)).
  - cbn [seq foldr]. rewrite !(fun j H => list_lookup_total_correct _ _ _ (Hl j H)) by lia. done.
  - rewrite bytes_sum by apply Hx. change (Z.of_nat 0 * 8)%Z with 0%Z. rewrite Z.shiftr_0_r.
    apply Z.mod_small. exact Hx.
Qed.

(** An entry that a level has stored. *)
Lemma read64_level off n g l i :
  i < n -> off + n * 8 <= length l -> word 64 (g i) -> read64 (write_level off n g l) (off + i * 8) = g i.
Proof.
  intros Hi Hl Hw. apply read64_bytes; [done|]. intros j Hj.
  rewrite (proj2 (write_level_spec off n g l)), decide_True by lia.
  replace (off + i * 8 + j - off) with (j + i * 8) by lia.
  rewrite Nat.div_add, Nat.Div0.mod_add, Nat.div_small, Nat.mod_small by lia. done.
Qed.

Lemma read64_ext l l' k : (forall j, j < 8 -> l !! (k + j) = l' !! (k + j)) -> read64 l k = read64 l' k.
Proof.
  intros H. unfold read64. cbn [seq foldr]. rewrite !list_lookup_total_alt, !H by lia. done.
Qed.
End Stores.

(** * The checks *)

(** A layout with [p1], [p2] and [p3] pages at its levels below the root. *)
Definition layout_of (bytes p1 p2 p3 : Z) : Radix3Layout := {|
  payloadBytes := bytes; pageCount := [1; p1; p2; p3];
  byteOffset := [0; 4096; (1 + p1) * 4096; (1 + p1 + p2) * 4096];
  tablePageCount := 1 + p1 + p2; tableBytes := (1 + p1 + p2) * 4096;
  allocationBytes := (1 + p1 + p2 + p3) * 4096 |}.

(** Every level has room for the entries of the next one, and is no larger than needed. *)
Record levels (bytes p1 p2 p3 : Z) : Prop := {
  lv_bytes : (p3 - 1) * 4096 < bytes <= p3 * 4096;
  lv_3 : (p2 - 1) * 512 < p3 <= p2 * 512;
  lv_2 : (p1 - 1) * 512 < p2 <= p1 * 512;
  lv_1 : 1 <= p1 <= 512;
}.

Lemma ceiling n d : 0 < d -> 0 < n -> ((n - 1) / d + 1 - 1) * d < n <= ((n - 1) / d + 1) * d.
Proof. intros Hd Hn. pose proof (Z.div_mod (n - 1) d). pose proof (Z.mod_pos_bound (n - 1) d). lia. Qed.

Lemma plan_spec bytes out :
  0 < bytes <= RadixPayloadBytesMax ->
  exists p1 p2 p3, planRadix3 bytes out = (Ok, layout_of bytes p1 p2 p3) /\ levels bytes p1 p2 p3.
Proof.
  unfold RadixPayloadBytesMax. intros Hb. unfold planRadix3, RadixPayloadBytesMax, RadixPageBytes, RadixEntriesPerPage.
  rewrite (proj2 (Z.eqb_neq bytes 0)), (proj2 (Z.ltb_ge 0x8000000000 bytes)) by lia. cbn [orb].
  pose proof (ceiling bytes 4096 ltac:(lia) ltac:(lia)) as Hc3.
  rewrite (add64_small ((bytes - 1) / 4096)) by (eval_pows; lia).
  set (p3 := (bytes - 1) / 4096 + 1) in *. assert (0 < p3 <= 512 * 512 * 512) by lia.
  pose proof (ceiling p3 512 ltac:(lia) ltac:(lia)) as Hc2.
  rewrite (add64_small ((p3 - 1) / 512)) by (eval_pows; lia).
  set (p2 := (p3 - 1) / 512 + 1) in *. assert (0 < p2 <= 512 * 512) by lia.
  pose proof (ceiling p2 512 ltac:(lia) ltac:(lia)) as Hc1.
  rewrite (add64_small ((p2 - 1) / 512)) by (eval_pows; lia).
  set (p1 := (p2 - 1) / 512 + 1) in *. assert (0 < p1 <= 512) by lia.
  pose proof (ceiling p1 512 ltac:(lia) ltac:(lia)) as Hc0.
  rewrite (add64_small ((p1 - 1) / 512)) by (eval_pows; lia).
  assert (Ep0 : (p1 - 1) / 512 + 1 = 1) by lia. rewrite Ep0.
  change (negb (1 =? 1)) with false. cbv iota. clearbody p1 p2 p3.
  exists p1, p2, p3. split; [|split; lia].
  rewrite (add64_small 0 1), (add64_small (0 + 1)), (add64_small (0 + 1 + p1)) by (eval_pows; lia).
  rewrite (wrap_small 64 ((0 + 1) * _)), (wrap_small 64 ((0 + 1 + p1) * _)), (wrap_small 64 ((0 + 1 + p1 + p2) * _)),
    (wrap_small 64 (p3 * _)) by (eval_pows; lia).
  rewrite add64_small by (eval_pows; lia). unfold layout_of. repeat f_equal; lia.
Qed.

(** What is behind the pointers of the arguments, as the caller must provide it. *)
Record contents_ok (a : SerializeArguments) (c : Contents) : Prop := {
  co_table : Z.of_nat (length (tableAddresses c)) = count (tablePages a);
  co_pages : Z.of_nat (length (payloadAddresses c)) = count (payloadPages a);
  co_payload : Z.of_nat (length (payloadData c)) = payloadSize a;
  co_output : Z.of_nat (length (outputData c)) = outputBytes a;
  co_scratch : Z.of_nat (length (scratchData c)) = scratchWords a;
  co_words : Forall (word 64) (tableAddresses c ++ payloadAddresses c);
}.

(** Arguments that passed the checks. *)
Record admitted (a : SerializeArguments) (p1 p2 p3 : Z) : Prop := {
  ad_layout : layout a = layout_of (payloadSize a) p1 p2 p3;
  ad_levels : levels (payloadSize a) p1 p2 p3;
  ad_table : count (tablePages a) = 1 + p1 + p2;
  ad_pages : count (payloadPages a) = p3;
  ad_total : totalPages a = 1 + p1 + p2 + p3;
  ad_output : (1 + p1 + p2 + p3) * 4096 <= outputBytes a;
  ad_scratch : 1 + p1 + p2 + p3 <= scratchWords a;
}.

Lemma check_arguments_none a :
  0 <= payloadBytes (layout a) -> check_arguments a = None -> exists p1 p2 p3, admitted a p1 p2 p3.
Proof.
  intros H0. unfold check_arguments. destruct (planRadix3 (payloadBytes (layout a)) no_layout) as [s expected] eqn:Ep.
  case_match eqn:E1; [done|]. apply orb_false_iff in E1 as [Es%negb_false_iff El%negb_false_iff].
  apply bool_decide_eq_true in Es as ->. apply bool_decide_eq_true in El.
  assert (Hb : 0 < payloadBytes (layout a) <= RadixPayloadBytesMax).
  { unfold planRadix3 in Ep. destruct (_ || _) eqn:E in Ep; [done|].
    apply orb_false_iff in E as [E2%Z.eqb_neq E3%Z.ltb_ge]. lia. }
  destruct (plan_spec _ no_layout Hb) as (p1 & p2 & p3 & Eq & Hlv). rewrite Eq in Ep. injection Ep as <-.
  unfold RadixPayloadBytesMax in Hb.
  destruct ((dmaAddressBits a <? 12) || _); [done|]. destruct ((SIZE_MAX <? allocationBytes _) || _ || _); [done|].
  case_match eqn:E2; [done|]. apply orb_false_iff in E2 as [[Et Epg]%orb_false_iff Esz]. zbool.
  case_match eqn:E3; [done|]. case_match eqn:E4; [done|]. case_match eqn:E5; [done|].
  case_match eqn:E6; [done|]. zbool. intros _. exists p1, p2, p3.
  rewrite El in Et, Epg, Esz, E3. cbn in Et, Epg, Esz, E3. rewrite <- Esz in *.
  destruct Hlv as [L1 L2 L3 L4].
  assert (Ht : totalPages a = 1 + p1 + p2 + p3).
  { unfold totalPages. rewrite Et, Epg. apply add64_small. eval_pows. lia. }
  rewrite Ht in E6. split; try done; lia.
Qed.

(** * Aliases *)

Section Alias.
#[local] Open Scope nat_scope.

Lemma sorted_lookup l i j :
  StronglySorted Z.le l -> i <= j -> j < length l -> (l !!! i <= l !!! j)%Z.
Proof.
  intros Hs. revert i j. induction Hs as [|x l Hs IH Hf]; intros i j Hij Hj; [cbn in Hj; lia|].
  destruct i as [|i], j as [|j]; try lia; [|cbn in Hj; apply IH; lia].
  change (x <= l !!! j)%Z. rewrite Forall_lookup in Hf. apply (Hf j), list_lookup_lookup_total_lt. cbn in Hj. lia.
Qed.

(** In a sorted list, duplicates are neighbours. *)
Lemma adjacent_sorted n l :
  n <= length l -> StronglySorted Z.le (take n l) -> adjacent_equal n l = false <-> NoDup (take n l).
Proof.
  intros Hn Hs. set (t := take n l) in *.
  assert (Hlen : length t = n) by (unfold t; rewrite length_take; lia).
  assert (Ht : forall i, i < n -> l !!! i = t !!! i).
  { intros i Hi. unfold t. by rewrite !list_lookup_total_alt, lookup_take_lt by lia. }
  unfold adjacent_equal. rewrite existsb_none. split.
  - intros Ha. apply NoDup_alt. intros i j x Hi Hj.
    assert (Hno : forall i j, i < j -> t !! i = Some x -> t !! j = Some x -> False).
    { clear i j Hi Hj. intros i j Hij Hi Hj. pose proof (lookup_lt_Some _ _ _ Hj).
      specialize (Ha j). rewrite !Ht in Ha by lia.
      assert (Hle : (t !!! i <= t !!! (j - 1)%nat)%Z) by (apply sorted_lookup; [done|lia|lia]).
      assert (Hle2 : (t !!! (j - 1)%nat <= t !!! j)%Z) by (apply sorted_lookup; [done|lia|lia]).
      rewrite (list_lookup_total_correct _ _ _ Hi) in Hle. rewrite (list_lookup_total_correct _ _ _ Hj) in Hle2, Ha.
      assert (t !!! (j - 1)%nat = x) as E by lia. rewrite E, Z.eqb_refl in Ha.
      assert (j ∈ seq 1 (n - 1)) by (apply elem_of_seq; lia). naive_solver. }
    destruct (Nat.lt_trichotomy i j) as [H|[H|H]]; [exfalso; eauto|done|exfalso; eauto].
  - intros Hnd i Hi. apply elem_of_seq in Hi. rewrite !Ht by lia. apply Z.eqb_neq. intros E.
    assert (i - 1 = i); [|lia]. apply (NoDup_lookup t (i - 1) i (t !!! i) Hnd).
    + rewrite <- E. apply list_lookup_lookup_total_lt. lia.
    + apply list_lookup_lookup_total_lt. lia.
Qed.

Lemma fill_scratch_take nt np c :
  length (tableAddresses c) = nt -> length (payloadAddresses c) = np -> nt + np <= length (scratchData c) ->
  take (nt + np) (fill_scratch nt np c) = tableAddresses c ++ payloadAddresses c /\
  length (fill_scratch nt np c) = length (scratchData c).
Proof.
  intros Et Ep Hs. unfold fill_scratch.
  destruct (store_range 0 0 nt (fun i => tableAddresses c !!! i) (scratchData c)) as [L1 H1]; [lia|].
  cbn [Nat.add] in L1, H1. set (s1 := for_range 0 nt _ _) in *.
  destruct (store_range nt 0 np (fun i => payloadAddresses c !!! i) s1) as [L2 H2]; [lia|].
  set (s2 := for_range 0 np _ _) in *. split; [|lia]. apply list_eq. intros i.
  destruct (decide (i < nt + np)) as [Hi|Hi].
  - rewrite lookup_take_lt, H2, L1 by lia. destruct (decide (i < nt)) as [Hlt|Hge].
    + rewrite lookup_app_l, decide_False, H1, decide_True by lia. rewrite Nat.sub_0_r.
      symmetry. apply list_lookup_lookup_total_lt. lia.
    + rewrite lookup_app_r, decide_True by lia. rewrite Et. symmetry. apply list_lookup_lookup_total_lt. lia.
  - rewrite lookup_take_ge by lia. symmetry. apply lookup_ge_None. rewrite length_app. lia.
Qed.
End Alias.

(** The status as the documentation has it: pages alias when an address occurs twice. *)
Definition reference_status (a : SerializeArguments) (c : Contents) : Status :=
  match check_arguments a with
  | Some s => s
  | None =>
      if forallb (fun x => validPage x (addressMax a)) (tableAddresses c ++ payloadAddresses c) then
        if decide (NoDup (tableAddresses c ++ payloadAddresses c)) then Ok else AliasedDmaPages
      else InvalidAddress
  end.

Lemma valid_pages (l : list Z) limit :
  forallb (fun i => validPage (l !!! i) limit) (seq 0 (length l)) = forallb (fun x => validPage x limit) l.
Proof.
  apply eq_true_iff_eq. rewrite !forallb_forall. split.
  - intros H x Hx%list_elem_of_In. apply list_elem_of_lookup_1 in Hx as [i Hi].
    rewrite <- (list_lookup_total_correct _ _ _ Hi). apply H, in_seq. apply lookup_lt_Some in Hi. lia.
  - intros H i Hi%in_seq. apply H, list_elem_of_In, (list_elem_of_lookup_total_2 l i). lia.
Qed.

Lemma check_not_ok a : check_arguments a <> Some Ok.
Proof. unfold check_arguments. repeat case_match; congruence. Qed.

Lemma serialize_spec a c :
  contents_ok a c -> 0 <= payloadBytes (layout a) ->
  exists s, serializeRadix3 a c = Some (reference_status a c,
    if decide (reference_status a c = Ok) then populate a c else outputData c, s).
Proof.
  intros [Ct Cp Cd Co Cs _] H0. unfold serializeRadix3, reference_status.
  destruct (check_arguments a) as [s|] eqn:Ec.
  { eexists. case_decide as E; [|done]. subst s. by destruct (check_not_ok a). }
  destruct (check_arguments_none a H0 Ec) as (p1 & p2 & p3 & [Al [L0 L1 L2 L3] At Ap Atot Ao As]).
  rewrite forallb_app. rewrite <- Ct, <- Cp, !Nat2Z.id, !valid_pages.
  destruct (forallb _ (tableAddresses c)); cbn [negb andb]; [|by eexists].
  destruct (forallb _ (payloadAddresses c)); cbn [negb]; [|by eexists].
  set (nt := length (tableAddresses c)) in *. set (np := length (payloadAddresses c)) in *.
  assert (En : Z.to_nat (totalPages a) = (nt + np)%nat) by lia. rewrite En.
  destruct (fill_scratch_take nt np c) as [Ef El]; [done|done|lia|].
  destruct (HeapSort.heapSort_spec (fill_scratch nt np c) (nt + np)) as (ws & Es & Hp & Hs & Hd); [lia|].
  rewrite Es. cbn [mbind option_bind]. rewrite Ef in Hp.
  assert (Hl : (nt + np <= length ws)%nat).
  { apply Permutation_length in Hp. rewrite length_take, length_app in Hp. lia. }
  pose proof (adjacent_sorted (nt + np) ws Hl Hs) as Ha. rewrite Hp in Ha.
  destruct (adjacent_equal (nt + np) ws) eqn:Ea, (decide (NoDup (tableAddresses c ++ payloadAddresses c))) as [Hn|Hn].
  - apply Ha in Hn. done.
  - eexists. by rewrite decide_False.
  - eexists. by rewrite decide_True.
  - destruct Hn. by apply Ha.
Qed.

(** [C29] Serialization always terminates with the status of the documentation: the in-place
    sort finds exactly the lists in which a page address occurs twice; and on every
    failure the output is unchanged. *)
Theorem serialize_status a c :
  contents_ok a c -> 0 <= payloadBytes (layout a) ->
  exists out s, serializeRadix3 a c = Some (reference_status a c, out, s) /\
    (reference_status a c <> Ok -> out = outputData c).
Proof.
  intros Hc H0. destruct (serialize_spec a c Hc H0) as [s E]. eexists _, s. split; [exact E|].
  intros Hn. by rewrite decide_False.
Qed.

(** * The table *)

Section Table.
#[local] Open Scope nat_scope.
Context (a : SerializeArguments) (c : Contents) (P1 P2 P3 : nat).
Context (Had : admitted a (Z.of_nat P1) (Z.of_nat P2) (Z.of_nat P3)) (Hco : contents_ok a c).

Notation size := (length (payloadData c)).
Notation tables := (1 + P1 + P2).

Definition zeroed : list Z := for_range 0 (tables * 4096) (fun i out => <[i := 0%Z]> out) (outputData c).
Definition rooted : list Z := write_level 0 P1 (fun i => tableAddresses c !!! (1 + i)) zeroed.
Definition leveled : list Z := write_level 4096 P2 (fun i => tableAddresses c !!! (1 + P1 + i)) rooted.
Definition linked : list Z := write_level ((1 + P1) * 4096) P3 (fun i => payloadAddresses c !!! i) leveled.
Definition loaded : list Z :=
  for_range 0 size (fun i out => <[tables * 4096 + i := payloadData c !!! i]> out) linked.

Lemma populate_eq : populate a c =
  for_range (tables * 4096 + size) ((tables + P3) * 4096) (fun i out => <[i := 0%Z]> out) loaded.
Proof.
  destruct Had as [El _ _ Ep _ _ _], Hco as [_ _ Cd _ _ _]. unfold populate. rewrite El. cbn [layout_of byteOffset pageCount tableBytes allocationBytes].
  assert (Esz : Z.to_nat (payloadSize a) = size) by lia. rewrite Esz, Ep, !Nat2Z.id. unfold loaded, linked, leveled, rooted, zeroed.
  cbn [lookup_total list_lookup_total].
  replace (Z.to_nat ((1 + Z.of_nat P1 + Z.of_nat P2) * 4096)) with (tables * 4096) by lia.
  replace (Z.to_nat ((1 + Z.of_nat P1 + Z.of_nat P2 + Z.of_nat P3) * 4096)) with ((tables + P3) * 4096) by lia.
  replace (Z.to_nat ((1 + Z.of_nat P1) * 4096)) with ((1 + P1) * 4096) by lia.
  rewrite for_range_two. cbn [lookup_total list_lookup_total]. rewrite !Nat2Z.id. unfold RadixPageBytes.
  rewrite Z.div_mul by lia. change (4096 / 4096)%Z with 1%Z. change (Z.to_nat 0) with 0. change (Z.to_nat 1) with 1.
  replace (Z.to_nat (1 + Z.of_nat P1)) with (1 + P1) by lia.
  replace (Z.to_nat 4096) with 4096 by lia. done.
Qed.

(** The sizes of the stages. *)
Lemma stage_lengths :
  (tables + P3) * 4096 <= length (outputData c) /\ length zeroed = length (outputData c) /\
  length rooted = length (outputData c) /\ length leveled = length (outputData c) /\
  length linked = length (outputData c) /\ length loaded = length (outputData c).
Proof.
  destruct Had as [_ _ _ _ _ Ao _], Hco as [_ _ _ Co _ _].
  assert (length zeroed = length (outputData c)) as E0 by (apply (store_range 0); lia).
  assert (length rooted = length (outputData c)) as E1 by (rewrite <- E0; apply write_level_spec).
  assert (length leveled = length (outputData c)) as E2 by (rewrite <- E1; apply write_level_spec).
  assert (length linked = length (outputData c)) as E3 by (rewrite <- E2; apply write_level_spec).
  split; [lia|]. split; [exact E0|]. split; [exact E1|]. split; [exact E2|]. split; [exact E3|].
  rewrite <- E3. apply store_range. lia.
Qed.

Lemma level_sizes : 1 <= P1 <= 512 /\ P2 <= P1 * 512 /\ P3 <= P2 * 512 /\ size <= P3 * 4096 /\ 0 < size.
Proof. destruct Had as [_ [L0 L1 L2 L3] _ _ _ _ _], Hco as [_ _ Cd _ _ _]. lia. Qed.

(** The table part is not touched after [linked]. *)
Lemma populate_tables k : k < tables * 4096 -> populate a c !! k = linked !! k.
Proof.
  intros Hk. destruct stage_lengths as (_ & _ & _ & _ & _ & El). destruct level_sizes as (_ & _ & _ & Hs & _).
  rewrite populate_eq, (proj2 (store_range 0 (tables * 4096 + size) ((tables + P3) * 4096) (fun _ => 0%Z) loaded ltac:(lia))), decide_False by lia.
  unfold loaded. by rewrite (proj2 (store_range _ 0 size _ linked ltac:(lia))), decide_False by lia.
Qed.

Lemma entry_root i :
  i < P1 -> word 64 (tableAddresses c !!! (1 + i)) ->
  read64 (populate a c) (i * 8) = tableAddresses c !!! (1 + i).
Proof.
  intros Hi Hw. destruct stage_lengths as (Hal & E0 & E1 & E2 & E3 & _). destruct level_sizes as (H1 & H2 & H3 & _).
  rewrite <- (read64_level 0 P1 (fun i => tableAddresses c !!! (1 + i)) zeroed i) by first [exact Hw | lia].
  fold rooted. cbn [Nat.add]. apply read64_ext. intros j Hj. rewrite populate_tables by lia. unfold linked.
  rewrite (proj2 (write_level_spec _ _ _ leveled)), decide_False by lia. unfold leveled.
  by rewrite (proj2 (write_level_spec _ _ _ rooted)), decide_False by lia.
Qed.

Lemma entry_middle i :
  i < P2 -> word 64 (tableAddresses c !!! (1 + P1 + i)) ->
  read64 (populate a c) (4096 + i * 8) = tableAddresses c !!! (1 + P1 + i).
Proof.
  intros Hi Hw. destruct stage_lengths as (Hal & E0 & E1 & E2 & E3 & _). destruct level_sizes as (H1 & H2 & H3 & _).
  rewrite <- (read64_level 4096 P2 (fun i => tableAddresses c !!! (1 + P1 + i)) rooted i) by first [exact Hw | lia].
  fold leveled. apply read64_ext. intros j Hj. rewrite populate_tables by lia. unfold linked.
  by rewrite (proj2 (write_level_spec _ _ _ leveled)), decide_False by lia.
Qed.

Lemma entry_leaf i :
  i < P3 -> word 64 (payloadAddresses c !!! i) ->
  read64 (populate a c) ((1 + P1) * 4096 + i * 8) = payloadAddresses c !!! i.
Proof.
  intros Hi Hw. destruct stage_lengths as (Hal & E0 & E1 & E2 & E3 & _). destruct level_sizes as (H1 & H2 & H3 & _).
  rewrite <- (read64_level ((1 + P1) * 4096) P3 (fun i => payloadAddresses c !!! i) leveled i) by first [exact Hw | lia].
  fold linked. apply read64_ext. intros j Hj. by rewrite populate_tables by lia.
Qed.

(** The image follows the tables, padded with zeros; what is after it is not touched. *)
Lemma populate_image k :
  tables * 4096 <= k -> k < length (outputData c) ->
  populate a c !! k =
    if decide (k < tables * 4096 + size) then Some (payloadData c !!! (k - tables * 4096))
    else if decide (k < (tables + P3) * 4096) then Some 0%Z else outputData c !! k.
Proof.
  intros Hk Hl. destruct stage_lengths as (Hal & E0 & E1 & E2 & E3 & E4). destruct level_sizes as (H1 & H2 & H3 & H4 & H5).
  destruct (Nat.lt_ge_cases k (tables * 4096 + size)) as [Hin|Hout];
    [|destruct (Nat.lt_ge_cases k ((tables + P3) * 4096)) as [Hp|Hp]];
    rewrite populate_eq, (proj2 (store_range 0 (tables * 4096 + size) ((tables + P3) * 4096) (fun _ => 0%Z) loaded ltac:(lia))).
  - rewrite decide_False by lia. rewrite decide_True by lia. unfold loaded.
    by rewrite (proj2 (store_range _ 0 size _ linked ltac:(lia))), decide_True by lia.
  - rewrite decide_True by lia. rewrite decide_False by lia. by rewrite decide_True by lia.
  - rewrite !decide_False by lia. unfold loaded.
    rewrite (proj2 (store_range _ 0 size _ linked ltac:(lia))), decide_False by lia. unfold linked.
    rewrite (proj2 (write_level_spec _ _ _ leveled)), decide_False by lia. unfold leveled.
    rewrite (proj2 (write_level_spec _ _ _ rooted)), decide_False by lia. unfold rooted.
    rewrite (proj2 (write_level_spec _ _ _ zeroed)), decide_False by lia. unfold zeroed.
    by rewrite (proj2 (store_range 0 0 (tables * 4096) (fun _ => 0%Z) (outputData c) ltac:(lia))), decide_False by lia.
Qed.

(** ** The walk of the loader

    The pages of the output are at the addresses of the two lists, in their order.  From
    the root page the loader follows one entry per level. *)

Definition page_index (pages : list Z) (address : Z) : option nat := fst <$> list_find (eq address) pages.

Definition walk (pages : list Z) (root : Z) (out : list Z) (o : nat) : option Z :=
  let n := o / 4096 in
  p0 ← page_index pages root;
  p1 ← page_index pages (read64 out (p0 * 4096 + n / 512 / 512 * 8));
  p2 ← page_index pages (read64 out (p1 * 4096 + (n / 512) mod 512 * 8));
  p3 ← page_index pages (read64 out (p2 * 4096 + n mod 512 * 8));
  out !! (p3 * 4096 + o mod 4096).

Lemma page_index_at pages i : NoDup pages -> i < length pages -> page_index pages (pages !!! i) = Some i.
Proof.
  intros Hn Hi. unfold page_index. pose proof (list_lookup_lookup_total_lt _ _ Hi) as Hl.
  assert (list_find (eq (pages !!! i)) pages = Some (i, pages !!! i)) as ->; [|done].
  apply list_find_Some. split_and!; [done|done|]. intros j y Hj Hji E. subst y.
  pose proof (NoDup_lookup _ _ _ _ Hn Hl Hj). lia.
Qed.

Lemma digits j : j = j / 512 * 512 + j mod 512.
Proof. pose proof (Nat.div_mod j 512). lia. Qed.

Lemma walk_payload o :
  NoDup (tableAddresses c ++ payloadAddresses c) -> o < size ->
  walk (tableAddresses c ++ payloadAddresses c) (tableAddresses c !!! 0) (populate a c) o = payloadData c !! o.
Proof.
  intros Hn Ho. destruct level_sizes as (H1 & H2 & H3 & H4 & H5). destruct stage_lengths as (Hal & _).
  destruct Had as [_ _ At Ap _ _ _], Hco as [Ct Cp _ _ _ Cw].
  set (pages := tableAddresses c ++ payloadAddresses c) in *.
  assert (Hlt : length (tableAddresses c) = tables) by lia. assert (Hlp : length (payloadAddresses c) = P3) by lia.
  assert (Hlen : length pages = tables + P3) by (unfold pages; rewrite length_app; lia).
  assert (Htab : forall i, i < tables -> tableAddresses c !!! i = pages !!! i).
  { intros i Hi. unfold pages. by rewrite !list_lookup_total_alt, lookup_app_l by lia. }
  assert (Hpay : forall i, i < P3 -> payloadAddresses c !!! i = pages !!! (tables + i)).
  { intros i Hi. unfold pages. rewrite !list_lookup_total_alt, lookup_app_r by lia. do 2 f_equal. lia. }
  assert (Hw : forall i, i < tables + P3 -> word 64 (pages !!! i)).
  { intros i Hi. rewrite Forall_lookup in Cw. apply (Cw i), list_lookup_lookup_total_lt. lia. }
  assert (Hix : forall i, i < tables + P3 -> page_index pages (pages !!! i) = Some i).
  { intros i Hi. apply page_index_at; [exact Hn|lia]. }
  unfold walk. set (n := o / 4096).
  assert (Hn3 : n < P3) by (apply Nat.Div0.div_lt_upper_bound; lia).
  assert (Hn2 : n / 512 < P2) by (apply Nat.Div0.div_lt_upper_bound; lia).
  assert (Hn1 : n / 512 / 512 < P1) by (apply Nat.Div0.div_lt_upper_bound; lia).
  rewrite Htab, Hix by lia. cbn [mbind option_bind Nat.mul Nat.add].
  rewrite entry_root, Htab, Hix by first [lia|rewrite Htab by lia; apply Hw; lia]. cbn [mbind option_bind].
  replace ((1 + n / 512 / 512) * 4096 + (n / 512) mod 512 * 8) with (4096 + n / 512 * 8)
    by (pose proof (digits (n / 512)); lia).
  rewrite entry_middle, Htab, Hix by first [lia|rewrite Htab by lia; apply Hw; lia]. cbn [mbind option_bind].
  replace ((1 + P1 + n / 512) * 4096 + n mod 512 * 8) with ((1 + P1) * 4096 + n * 8) by (pose proof (digits n); lia).
  rewrite entry_leaf, Hpay, Hix by first [lia|rewrite Hpay by lia; apply Hw; lia]. cbn [mbind option_bind].
  replace ((tables + n) * 4096 + o mod 4096) with (tables * 4096 + o)
    by (pose proof (Nat.div_mod o 4096); unfold n; lia).
  rewrite populate_image, decide_True by lia.
  replace (tables * 4096 + o - tables * 4096) with o by lia. symmetry. by apply list_lookup_lookup_total_lt.
Qed.
End Table.

(** [C27] When the documented conditions hold, serialization succeeds and the loader finds
    the image: from the root page, one entry per level leads from every offset to the
    byte of the payload at that offset; behind the allocation nothing is written. *)
Theorem radix3_walk a c :
  contents_ok a c -> 0 <= payloadBytes (layout a) -> reference_status a c = Ok ->
  exists out s, serializeRadix3 a c = Some (Ok, out, s) /\
    (forall o, (o < length (payloadData c))%nat ->
      walk (tableAddresses c ++ payloadAddresses c) (tableAddresses c !!! 0%nat) out o = payloadData c !! o) /\
    (forall k, (Z.to_nat (allocationBytes (layout a)) <= k < length (outputData c))%nat -> out !! k = outputData c !! k).
Proof.
  intros Hc H0 Hs. destruct (serialize_spec a c Hc H0) as [s E]. rewrite Hs in E.
  exists (populate a c), s. split; [exact E|]. unfold reference_status in Hs.
  destruct (check_arguments a) as [st|] eqn:Ec.
  { subst st. by destruct (check_not_ok a). }
  destruct (forallb _ _); [|done]. destruct (decide (NoDup _)) as [Hn|]; [|done].
  destruct (check_arguments_none a H0 Ec) as (p1 & p2 & p3 & Had). pose proof Had as [El [L0 L1 L2 L3] _ _ _ _ _].
  rewrite <- (Z2Nat.id p1), <- (Z2Nat.id p2), <- (Z2Nat.id p3) in Had by lia. split.
  - intros o Ho. exact (walk_payload a c _ _ _ Had Hc o Hn Ho).
  - intros k Hk. rewrite El in Hk. cbn [layout_of allocationBytes] in Hk.
    pose proof (level_sizes a c _ _ _ Had Hc) as (_ & _ & _ & Hsz & _).
    rewrite (populate_image a c _ _ _ Had Hc k), !decide_False by lia. reflexivity.
Qed.

(** * Examples

    An image of 100 bytes: one page at every level. *)

Definition example_arguments : SerializeArguments := {|
  layout := (planRadix3 100 no_layout).2;
  tablePages := {| addresses := 0x1000; count := 3 |};
  payloadPages := {| addresses := 0x2000; count := 1 |};
  dmaAddressBits := 47; payload := 0x3000; payloadSize := 100;
  output := 0x100000; outputBytes := 20000; scratch := 0x4000; scratchWords := 4 |}.

Definition example_contents (leaf : Z) : Contents := {|
  tableAddresses := [0x10000; 0x30000; 0x20000]; payloadAddresses := [leaf];
  payloadData := replicate 100 7; outputData := replicate (Z.to_nat 20000) 255;
  scratchData := replicate 4 0 |}.

Lemma example_contents_ok leaf : word 64 leaf -> contents_ok example_arguments (example_contents leaf).
Proof.
  intros Hl. split; [reflexivity|reflexivity|reflexivity| |reflexivity|].
  - cbn [outputData outputBytes example_contents example_arguments]. rewrite length_replicate. lia.
  - repeat (apply Forall_cons; split; [first [exact Hl|unfold word; eval_pows; lia]|]). constructor.
Qed.

Lemma serialize_status_witness :
  (exists out s, serializeRadix3 example_arguments (example_contents 0x20000) = Some (AliasedDmaPages, out, s)).
Proof.
  destruct (serialize_status example_arguments (example_contents 0x20000)) as (out & s & E & _).
  - apply example_contents_ok. unfold word. eval_pows. lia.
  - vm_compute. discriminate.
  - exists out, s. rewrite E. reflexivity.
Defined.

Lemma radix3_walk_witness :
  exists out s, serializeRadix3 example_arguments (example_contents 0x50000) = Some (Ok, out, s) /\
    walk [0x10000; 0x30000; 0x20000; 0x50000] 0x10000 out 99 = Some 7.
Proof.
  destruct (radix3_walk example_arguments (example_contents 0x50000)) as (out & s & E & Hw & _).
  - apply example_contents_ok. unfold word. eval_pows. lia.
  - vm_compute. discriminate.
  - vm_compute. reflexivity.
  - exists out, s. split; [exact E|]. refine (eq_trans (Hw 99%nat _) _); [cbn; lia|reflexivity].
Defined.
