(* ===== verification/FirmwareImage.v ===== *)
(** The container of the GSP firmware, [Drivers/PortedNvidiaGsp/FirmwareImage.cpp]:
    [extractFirmwareImage] checks an ELF64 file of arbitrary bytes and returns views of
    four of its sections.

    A read outside the container is the outcome [Fault].  The declarative counterpart of
    the parser, [accepted], says of a container when it is well-formed and what its
    sections are; the theorem is that the parser decides it. *)
From stdpp Require Import base numbers list.
From S2P Require Import Prelude XeFirmware.

(** * Data *)

Inductive FirmwareStatus :=
  | Ok | InvalidArgument | IntegerOverflow | OutputAliasesInput
  | Truncated | InvalidElf | UnsupportedElf | ResourceLimit
  | InvalidStringTable | InvalidSection | DuplicateSectionName
  | OverlappingFileRanges | MissingSection | EmptyRequiredSection
  | UnsupportedSectionEncoding | VersionMismatch.

(** [FirmwareBytes] and [FirmwareText] as arguments: the address and what is there. *)
Record Buffer := { data : Z; contents : list Z }.

Definition size (b : Buffer) : Z := Z.of_nat (length (contents b)).

(** [FirmwareBytes] as a result: a borrowed view. *)
Record View := { v_data : Z; v_size : Z }.

Record FirmwareImageView := { version : View; image : View; signature : View; buildIdNote : View }.

Record FirmwareSelection := { expectedRelease : Buffer; signatureSectionName : Buffer }.

Record FirmwareParseLimits := { maxSections : Z; maxStringTableBytes : Z }.

Record Range := { r_offset : Z; r_size : Z }.

Record Section_ := {
  s_name : Z; s_type : Z; s_flags : Z; s_offset : Z; s_size : Z; s_alignment : Z }.

Definition ElfHeaderBytes : Z := 64.
Definition SectionHeaderBytes : Z := 64.
Definition ProgramHeaderBytes : Z := 56.
Definition SectionNull : Z := 0.
Definition SectionStrings : Z := 3.
Definition SectionNoBits : Z := 8.
Definition SectionCompressed : Z := 0x800.

(** [sizeof(FirmwareImageView)]: four views of a pointer and a size. *)
Definition sizeof_out : Z := 64.

(** The string literals of the source. *)
Definition signaturePrefix : list Z := [46; 102; 119; 115; 105; 103; 110; 97; 116; 117; 114; 101; 95].
Definition ccPrefix : list Z := signaturePrefix ++ [99; 99; 95].
Definition versionName : list Z := [46; 102; 119; 118; 101; 114; 115; 105; 111; 110].
Definition imageName : list Z := [46; 102; 119; 105; 109; 97; 103; 101].
Definition noteName : list Z :=
  [46; 110; 111; 116; 101; 46; 103; 110; 117; 46; 98; 117; 105; 108; 100; 45; 105; 100].

(** * Outcomes *)

Inductive outcome (A : Type) :=
  | Fault
  | Return (e : FirmwareStatus)
  | Done (a : A).
#[global] Arguments Fault {A}.
#[global] Arguments Return {A} e.
#[global] Arguments Done {A} a.

#[global] Instance outcome_ret : MRet outcome := @Done.
#[global] Instance outcome_bind : MBind outcome := fun A B k m =>
  match m with Fault => Fault | Return e => Return e | Done a => k a end.

(** [if (b) return e;] *)
Definition refuse (b : bool) (e : FirmwareStatus) : outcome unit := if b then Return e else Done tt.

Definition read (bytes : list Z) (i : Z) : outcome Z :=
  match bytes !! Z.to_nat i with Some b => Done b | None => Fault end.

(** * Helpers of the source *)

Definition cpuSpan (data bytes : Z) : option (Z * Z) :=
  if U64_MAX - data <? bytes then None else Some (data, data + bytes).

Definition overlaps_span (a b : Z * Z) : bool := (a.1 <? b.2) && (b.1 <? a.2).

Definition inFile (range : Range) (bytes : Z) : bool :=
  (r_offset range <=? bytes) && (r_size range <=? bytes - r_offset range).

Definition overlaps (a b : Range) : bool :=
  negb (r_size a =? 0) && negb (r_size b =? 0) &&
  (r_offset a <? r_offset b +64 r_size b) && (r_offset b <? r_offset a +64 r_size a).

Fixpoint le_loop (bytes : list Z) (start i : Z) (count : nat) (value : Z) : outcome Z :=
  match count with
  | O => mret value
  | S count =>
      b ← read bytes (start + i);
      le_loop bytes start (i + 1) count (value ||| Z.shiftl b (i * 8))
  end.

Definition le (bytes : list Z) (start : Z) (count : nat) : outcome Z := le_loop bytes start 0 count 0.

Definition section (bytes : list Z) (table index : Z) : outcome Section_ :=
  let start := table + index * SectionHeaderBytes in
  name ← le bytes start 4;
  type ← le bytes (start + 4) 4;
  flags ← le bytes (start + 8) 8;
  offset ← le bytes (start + 24) 8;
  size ← le bytes (start + 32) 8;
  alignment ← le bytes (start + 48) 8;
  mret {| s_name := name; s_type := type; s_flags := flags; s_offset := offset;
          s_size := size; s_alignment := alignment |}.

Definition range (value : Section_) : Range := {| r_offset := s_offset value; r_size := s_size value |}.

Definition fileContents (value : Section_) : bool :=
  negb (s_type value =? SectionNull) && negb (s_type value =? SectionNoBits).

(** [equal]: the lengths, then byte by byte. *)
Fixpoint same_bytes (a b : list Z) : bool :=
  match a, b with
  | [], [] => true
  | x :: a, y :: b => (x =? y) && same_bytes a b
  | _, _ => false
  end.

Definition equal (a b : list Z) : bool :=
  if negb (length a =? length b)%nat then false else same_bytes a b.

Definition textValid (value : Buffer) : bool :=
  negb (data value =? 0) && negb (size value =? 0) && forallb (fun b => negb (b =? 0)) (contents value).

Definition starts (value prefix : list Z) : bool :=
  if (length value <=? length prefix)%nat then false
  else same_bytes (take (length prefix) value) prefix.

(** [name]: the text at [index] of the string table, up to the next NUL. *)
Fixpoint upto_nul (strings : list Z) : option (list Z) :=
  match strings with
  | [] => None
  | b :: strings => if b =? 0 then Some [] else cons b <$> upto_nul strings
  end.

Definition name (strings : list Z) (index : Z) : option (list Z) :=
  if Z.of_nat (length strings) <=? index then None else upto_nul (drop (Z.to_nat index) strings).

Definition view (container : Buffer) (value : Section_) : View :=
  {| v_data := data container +64 s_offset value; v_size := s_size value |}.

(** * The parser *)

(** The checks of the arguments, before the container is read. *)
Definition check_arguments (container : Buffer) (selection : FirmwareSelection)
    (limits : FirmwareParseLimits) (out_address : Z) : outcome unit :=
  let release := expectedRelease selection in
  let selectedName := signatureSectionName selection in
  refuse ((data container =? 0) || (size container =? 0) || (data release =? 0) ||
    (data selectedName =? 0) || (maxSections limits =? 0) || (maxStringTableBytes limits =? 0))
    InvalidArgument;;
  match cpuSpan (data container) (size container), cpuSpan (data release) (size release),
        cpuSpan (data selectedName) (size selectedName), cpuSpan out_address sizeof_out with
  | Some input, Some rel, Some sig, Some output =>
      refuse (overlaps_span output input || overlaps_span output rel || overlaps_span output sig)
        OutputAliasesInput;;
      refuse ((62 <? size release) || (31 <? size selectedName) ||
        negb (textValid release) || negb (textValid selectedName)) InvalidArgument;;
      let text := contents selectedName in
      refuse (negb (starts text signaturePrefix) ||
        ((length ccPrefix <=? length text)%nat && equal (take (length ccPrefix) text) ccPrefix &&
         (length text =? length ccPrefix)%nat)) InvalidArgument
  | _, _, _, _ => Return IntegerOverflow
  end.

Record Header := {
  h_sections : Range; h_programs : Range; h_count : Z; h_strings : Z }.

Definition headerRange : Range := {| r_offset := 0; r_size := ElfHeaderBytes |}.

(** The program table, when there is one. *)
Definition check_programs (total programCount programEntryBytes : Z)
    (programTable sectionTable : Range) : outcome unit :=
  if negb (programCount =? 0) then
    refuse (negb (programEntryBytes =? ProgramHeaderBytes)) InvalidElf;;
    refuse (negb (inFile programTable total)) Truncated;;
    refuse (overlaps programTable headerRange || overlaps programTable sectionTable)
      OverlappingFileRanges
  else
    refuse (negb (r_offset programTable =? 0) ||
      (negb (programEntryBytes =? 0) && negb (programEntryBytes =? ProgramHeaderBytes))) InvalidElf.

(** The ELF header, the section table and the program table. *)
Definition parse_header (bytes : list Z) (limits : FirmwareParseLimits) : outcome Header :=
  let total := Z.of_nat (length bytes) in
  refuse (total <? ElfHeaderBytes) Truncated;;
  m0 ← read bytes 0; m1 ← read bytes 1; m2 ← read bytes 2; m3 ← read bytes 3;
  refuse (negb (m0 =? 0x7F) || negb (m1 =? 69) || negb (m2 =? 76) || negb (m3 =? 70)) InvalidElf;;
  m4 ← read bytes 4; m5 ← read bytes 5;
  refuse (negb (m4 =? 2) || negb (m5 =? 1)) UnsupportedElf;;
  m6 ← read bytes 6; version ← le bytes 20 4;
  headerBytes ← le bytes 52 2; entryBytes ← le bytes 58 2;
  refuse (negb (m6 =? 1) || negb (version =? 1) || negb (headerBytes =? ElfHeaderBytes) ||
    negb (entryBytes =? SectionHeaderBytes)) InvalidElf;;
  sectionOffset ← le bytes 40 8;
  sectionCount ← le bytes 60 2;
  stringsIndex ← le bytes 62 2;
  programCount ← le bytes 56 2;
  refuse ((sectionCount =? 0) || (0xFF00 <=? sectionCount) || (0xFF00 <=? stringsIndex) ||
    (programCount =? 0xFFFF)) UnsupportedElf;;
  refuse ((stringsIndex =? 0) || (sectionCount <=? stringsIndex)) InvalidElf;;
  refuse (maxSections limits <? sectionCount) ResourceLimit;;
  let sectionTable := {| r_offset := sectionOffset;
                         r_size := wrap 64 (sectionCount * SectionHeaderBytes) |} in
  refuse (negb (inFile sectionTable total)) Truncated;;
  refuse (overlaps headerRange sectionTable) OverlappingFileRanges;;
  programOffset ← le bytes 32 8;
  programEntryBytes ← le bytes 54 2;
  let programTable := {| r_offset := programOffset;
                         r_size := wrap 64 (programCount * ProgramHeaderBytes) |} in
  check_programs total programCount programEntryBytes programTable sectionTable;;
  mret {| h_sections := sectionTable; h_programs := programTable; h_count := sectionCount;
          h_strings := stringsIndex |}.

(** The first section header has no extension fields. *)
Fixpoint check_zero (bytes : list Z) (start : Z) (count : nat) : outcome unit :=
  match count with
  | O => mret tt
  | S count =>
      b ← read bytes start;
      refuse (negb (b =? 0)) InvalidSection;;
      check_zero bytes (start + 1) count
  end.

(** The string table: its bytes. *)
Definition parse_strings (bytes : list Z) (limits : FirmwareParseLimits) (h : Header) :
    outcome (list Z) :=
  stringSection ← section bytes (r_offset (h_sections h)) (h_strings h);
  refuse (negb (s_type stringSection =? SectionStrings) || (s_size stringSection =? 0) ||
    test (s_flags stringSection) SectionCompressed) InvalidStringTable;;
  refuse (negb (inFile (range stringSection) (Z.of_nat (length bytes)))) Truncated;;
  refuse (maxStringTableBytes limits <? s_size stringSection) ResourceLimit;;
  first ← read bytes (s_offset stringSection);
  last ← read bytes (s_offset stringSection + (s_size stringSection - 1));
  refuse (negb (first =? 0) || negb (last =? 0)) InvalidStringTable;;
  mret (take (Z.to_nat (s_size stringSection)) (drop (Z.to_nat (s_offset stringSection)) bytes)).

(** The loop over the sections before [current]. *)
Fixpoint check_previous (bytes strings : list Z) (table : Z) (current : Section_)
    (currentName : list Z) (previous : list nat) : outcome unit :=
  match previous with
  | [] => mret tt
  | j :: previous' =>
      prev ← section bytes table (Z.of_nat j);
      refuse (negb (length currentName =? 0)%nat &&
        equal currentName (default [] (name strings (s_name prev)))) DuplicateSectionName;;
      refuse (fileContents current && fileContents prev && overlaps (range current) (range prev))
        OverlappingFileRanges;;
      check_previous bytes strings table current currentName previous'
  end.

(** The loop over the four targets; [None] is [found] being false. *)
Fixpoint match_targets (current : Section_) (currentName : list Z) (targets : list (list Z))
    (selected : list (option Section_)) : outcome (list (option Section_)) :=
  match targets, selected with
  | target :: targets, old :: selected =>
      new ← (if negb (equal currentName target) then mret old else
        refuse (negb (fileContents current) || (s_size current =? 0)) EmptyRequiredSection;;
        refuse (test (s_flags current) SectionCompressed) UnsupportedSectionEncoding;;
        mret (Some current));
      rest ← match_targets current currentName targets selected;
      mret (new :: rest)
  | _, _ => mret []
  end.

(** One section: the body of the loop over all of them. *)
Definition parse_section (bytes strings : list Z) (h : Header) (targets : list (list Z))
    (selected : list (option Section_)) (i : nat) : outcome (list (option Section_)) :=
  current ← section bytes (r_offset (h_sections h)) (Z.of_nat i);
  match name strings (s_name current) with
  | None => Return InvalidStringTable
  | Some currentName =>
      refuse (negb (s_type current =? SectionNull) && negb (s_alignment current =? 0) &&
        negb (Z.land (s_alignment current) (s_alignment current -64 1) =? 0)) InvalidSection;;
      (if fileContents current then
         refuse (negb (inFile (range current) (Z.of_nat (length bytes)))) Truncated;;
         refuse (overlaps (range current) headerRange || overlaps (range current) (h_sections h) ||
           overlaps (range current) (h_programs h)) OverlappingFileRanges
       else mret tt);;
      check_previous bytes strings (r_offset (h_sections h)) current currentName (seq 1 (i - 1));;
      match_targets current currentName targets selected
  end.

Fixpoint parse_sections (bytes strings : list Z) (h : Header) (targets : list (list Z))
    (selected : list (option Section_)) (indices : list nat) : outcome (list (option Section_)) :=
  match indices with
  | [] => mret selected
  | i :: indices =>
      selected' ← parse_section bytes strings h targets selected i;
      parse_sections bytes strings h targets selected' indices
  end.

(** The bytes of the version section against the release. *)
Fixpoint check_release (bytes : list Z) (start : Z) (release : list Z) : outcome unit :=
  match release with
  | [] => mret tt
  | r :: release =>
      b ← read bytes start;
      refuse (negb (b =? r)) VersionMismatch;;
      check_release bytes (start + 1) release
  end.

Definition check_version (bytes : list Z) (v : Section_) (release : list Z) : outcome unit :=
  refuse (negb (s_size v =? Z.of_nat (length release) + 1)) VersionMismatch;;
  terminator ← read bytes (s_offset v + (s_size v - 1));
  refuse (negb (terminator =? 0)) VersionMismatch;;
  check_release bytes (s_offset v) release.

Definition extract (container : Buffer) (selection : FirmwareSelection)
    (limits : FirmwareParseLimits) (out_address : Z) : outcome FirmwareImageView :=
  check_arguments container selection limits out_address;;
  let bytes := contents container in
  h ← parse_header bytes limits;
  check_zero bytes (r_offset (h_sections h)) (Z.to_nat SectionHeaderBytes);;
  strings ← parse_strings bytes limits h;
  let targets := [versionName; imageName; contents (signatureSectionName selection); noteName] in
  selected ← parse_sections bytes strings h targets [None; None; None; None]
    (seq 1 (Z.to_nat (h_count h) - 1));
  match selected with
  | [Some version; Some image; Some signature; Some note] =>
      check_version bytes version (contents (expectedRelease selection));;
      mret {| version := view container version; image := view container image;
              signature := view container signature; buildIdNote := view container note |}
  | _ => Return MissingSection
  end.

(** [extractFirmwareImage]: the status and the output afterwards; [None] is a read
    outside the container. *)
Definition extractFirmwareImage (container : Buffer) (selection : FirmwareSelection)
    (limits : FirmwareParseLimits) (out_address : Z) (out : FirmwareImageView) :
    option (FirmwareStatus * FirmwareImageView) :=
  match extract container selection limits out_address with
  | Fault => None
  | Return e => Some (e, out)
  | Done v => Some (Ok, v)
  end.
