(* ===== verification/FirmwareImageThms.v ===== *)
(** The GSP firmware container: what [FirmwareImage.extract] accepts, stated without
    reference to how it is checked, and the theorem that the parser decides it. *)
From stdpp Require Import base numbers list sets.
From S2P Require Import Prelude XeFirmware NvCommand FirmwareImage.

(** * The format *)

Definition slice (c : list Z) (start size : Z) : list Z :=
  take (Z.to_nat size) (drop (Z.to_nat start) c).

Definition field (c : list Z) (start size : Z) : Z := PortedNvidia.le_word (slice c start size).

Definition count_of (c : list Z) : Z := field c 60 2.
Definition table_of (c : list Z) : Range :=
  {| r_offset := field c 40 8; r_size := 64 * field c 60 2 |}.
Definition programs_of (c : list Z) : Range :=
  {| r_offset := field c 32 8; r_size := 56 * field c 56 2 |}.

(** Section header [i]. *)
Definition sect (c : list Z) (i : Z) : Section_ :=
  let start := r_offset (table_of c) + 64 * i in
  {| s_name := field c start 4; s_type := field c (start + 4) 4; s_flags := field c (start + 8) 8;
     s_offset := field c (start + 24) 8; s_size := field c (start + 32) 8;
     s_alignment := field c (start + 48) 8 |}.

Definition inside (r : Range) (c : list Z) : Prop := r_offset r + r_size r <= Z.of_nat (length c).

(** Two ranges of the file have no byte in common. *)
Definition apart (a b : Range) : Prop :=
  r_size a = 0 \/ r_size b = 0 \/
  r_offset a + r_size a <= r_offset b \/ r_offset b + r_size b <= r_offset a.

Definition segments_ok (c : list Z) : Prop :=
  if decide (field c 56 2 = 0) then field c 32 8 = 0 /\ (field c 54 2 = 0 \/ field c 54 2 = 56)
  else field c 54 2 = 56 /\ inside (programs_of c) c /\
    apart (programs_of c) headerRange /\ apart (programs_of c) (table_of c).

Record header_ok (c : list Z) (limits : FirmwareParseLimits) : Prop := {
  ho_length : 64 <= Z.of_nat (length c);
  ho_magic : take 7 c = [0x7F; 69; 76; 70; 2; 1; 1];
  ho_version : field c 20 4 = 1;
  ho_sizes : field c 52 2 = 64 /\ field c 58 2 = 64;
  ho_count : 0 < count_of c < 0xFF00 /\ count_of c <= maxSections limits;
  ho_strings : 0 < field c 62 2 < count_of c;
  ho_programs : field c 56 2 <> 0xFFFF;
  ho_table : inside (table_of c) c /\ apart headerRange (table_of c);
  ho_segments : segments_ok c;
}.

(** The string table and the name of a section: the bytes up to the next NUL. *)
Definition strings_section (c : list Z) : Section_ := sect c (field c 62 2).

Definition strings_of (c : list Z) : list Z :=
  slice c (s_offset (strings_section c)) (s_size (strings_section c)).

Record strings_ok (c : list Z) (limits : FirmwareParseLimits) : Prop := {
  so_type : s_type (strings_section c) = 3;
  so_plain : Z.testbit (s_flags (strings_section c)) 11 = false;
  so_size : 0 < s_size (strings_section c) <= maxStringTableBytes limits;
  so_inside : inside (range (strings_section c)) c;
  so_ends : head (strings_of c) = Some 0 /\ last (strings_of c) = Some 0;
}.

Definition named (c : list Z) (i : Z) (s : list Z) : Prop :=
  exists rest, drop (Z.to_nat (s_name (sect c i))) (strings_of c) = s ++ 0 :: rest /\ 0 ∉ s.

(** The section has contents in the file. *)
Definition stored (s : Section_) : Prop := s_type s <> SectionNull /\ s_type s <> SectionNoBits.

Record section_ok (c : list Z) (i : Z) : Prop := {
  se_named : exists s, named c i s;
  se_alignment : s_type (sect c i) <> SectionNull ->
    s_alignment (sect c i) = 0 \/ exists k, 0 <= k /\ s_alignment (sect c i) = 2 ^ k;
  se_inside : stored (sect c i) ->
    inside (range (sect c i)) c /\ apart (range (sect c i)) headerRange /\
    apart (range (sect c i)) (table_of c) /\ apart (range (sect c i)) (programs_of c);
}.

(** Two sections have different names, unless empty, and separate contents. *)
Definition distinct_sections (c : list Z) (i j : Z) : Prop :=
  (forall s, named c i s -> named c j s -> s = []) /\
  (stored (sect c i) -> stored (sect c j) -> apart (range (sect c i)) (range (sect c j))).

(** Section [i] is named [t] and its bytes are in the file as they are. *)
Record selects (c : list Z) (t : list Z) (i : Z) : Prop := {
  sl_index : 1 <= i < count_of c;
  sl_named : named c i t;
  sl_stored : stored (sect c i) /\ 0 < s_size (sect c i);
  sl_plain : Z.testbit (s_flags (sect c i)) 11 = false;
}.

Definition section_view (container : Buffer) (i : Z) : View :=
  {| v_data := data container + s_offset (sect (contents container) i);
     v_size := s_size (sect (contents container) i) |}.

(** The span of [size] bytes at [address] does not wrap. *)
Definition addressable (b : Buffer) : Prop := data b + size b <= U64_MAX.

(** The output does not share a byte with an argument. *)
Definition clear_of (out_address : Z) (b : Buffer) : Prop :=
  ~ (out_address < data b + size b /\ data b < out_address + sizeof_out).

Record arguments_ok (container : Buffer) (selection : FirmwareSelection)
    (limits : FirmwareParseLimits) (out_address : Z) : Prop := {
  ao_container : data container <> 0 /\ contents container <> [];
  ao_limits : maxSections limits <> 0 /\ maxStringTableBytes limits <> 0;
  ao_release : data (expectedRelease selection) <> 0 /\
    1 <= size (expectedRelease selection) <= 62 /\ 0 ∉ contents (expectedRelease selection);
  ao_name : data (signatureSectionName selection) <> 0 /\
    size (signatureSectionName selection) <= 31 /\ 0 ∉ contents (signatureSectionName selection);
  ao_prefix : exists chip, contents (signatureSectionName selection) = signaturePrefix ++ chip /\
    chip <> [] /\ chip <> [99; 99; 95];
  ao_spans : Forall addressable [container; expectedRelease selection; signatureSectionName selection] /\
    out_address + sizeof_out <= U64_MAX;
  ao_output : Forall (clear_of out_address)
    [container; expectedRelease selection; signatureSectionName selection];
}.

Record accepted (container : Buffer) (selection : FirmwareSelection)
    (limits : FirmwareParseLimits) (out_address : Z) (v : FirmwareImageView) : Prop := {
  ac_arguments : arguments_ok container selection limits out_address;
  ac_header : header_ok (contents container) limits;
  ac_first : slice (contents container) (r_offset (table_of (contents container))) 64 = replicate 64 0;
  ac_strings : strings_ok (contents container) limits;
  ac_sections : forall i, 1 <= i < count_of (contents container) -> section_ok (contents container) i;
  ac_distinct : forall i j, 1 <= j < i -> i < count_of (contents container) ->
    distinct_sections (contents container) i j;
  ac_views : exists i1 i2 i3 i4,
    selects (contents container) versionName i1 /\ selects (contents container) imageName i2 /\
    selects (contents container) (contents (signatureSectionName selection)) i3 /\
    selects (contents container) noteName i4 /\
    slice (contents container) (s_offset (sect (contents container) i1))
      (s_size (sect (contents container) i1)) = contents (expectedRelease selection) ++ [0] /\
    v = {| version := section_view container i1; image := section_view container i2;
           signature := section_view container i3; buildIdNote := section_view container i4 |};
}.

(** The views lie in the container and are separate. *)
Definition views (v : FirmwareImageView) : list View := [version v; image v; signature v; buildIdNote v].

Definition view_inside (container : Buffer) (w : View) : Prop :=
  0 < v_size w /\ data container <= v_data w /\ v_data w + v_size w <= data container + size container.

Definition views_disjoint (a b : View) : Prop :=
  v_data a + v_size a <= v_data b \/ v_data b + v_size b <= v_data a.

Definition views_safe (container : Buffer) (v : FirmwareImageView) : Prop :=
  Forall (view_inside container) (views v) /\ ForallOrdPairs views_disjoint (views v).

(** * Deciding a predicate *)

(** [m] does not fault, and returns [a] exactly when [P a]. *)
Definition decides {A} (m : outcome A) (P : A -> Prop) : Prop :=
  match m with
  | Fault => False
  | Return e => e <> Ok /\ forall a, ~ P a
  | Done a => forall b, P b <-> b = a
  end.

Lemma decides_iff {A} (m : outcome A) (P Q : A -> Prop) :
  (forall a, P a <-> Q a) -> decides m P -> decides m Q.
Proof. intros HPQ. destruct m; cbn; try setoid_rewrite HPQ; tauto. Qed.

Lemma decides_ret {A} (a : A) (P : A -> Prop) : (forall b, P b <-> b = a) -> decides (mret a) P.
Proof. done. Qed.

(** A stage of the parser that the specification implies. *)
Lemma decides_stage {A B} (m : outcome A) P (k : A -> outcome B) (Q : B -> Prop) :
  decides m P -> (forall v, Q v -> exists a, P a) -> (forall a, P a -> decides (k a) Q) ->
  decides (mbind k m) Q.
Proof.
  destruct m as [|e|a]; cbn; [done| |].
  - intros [He HP] HQ _. split; [done|]. intros v Hv. destruct (HQ v Hv) as [a Ha]. by apply (HP a).
  - intros HP _ Hk. apply Hk. by apply HP.
Qed.

(** A check that the specification implies. *)
Lemma decides_refuse {B} (b : bool) e (k : outcome B) (Q : B -> Prop) :
  e <> Ok -> (forall v, Q v -> b = false) -> (b = false -> decides k Q) ->
  decides (refuse b e ;; k) Q.
Proof.
  intros He HQ Hk. destruct b; cbn; [|by apply Hk].
  split; [done|]. intros v Hv. by discriminate (HQ v Hv).
Qed.

Lemma decides_check (b : bool) e (Q : unit -> Prop) :
  e <> Ok -> (Q tt <-> b = false) -> decides (refuse b e) Q.
Proof.
  intros He HQ. destruct b; cbn.
  - split; [done|]. intros [] Ht. by discriminate (proj1 HQ Ht).
  - intros []. split; [done|]. intros _. by apply HQ.
Qed.

Lemma outcome_assoc {A B C} (m : outcome A) (f : A -> outcome B) (k : B -> outcome C) :
  mbind k (mbind f m) = mbind (fun a => mbind k (f a)) m.
Proof. by destruct m. Qed.

Lemma decides_done {A B} (m : outcome A) a (k : A -> outcome B) Q :
  m = Done a -> decides (k a) Q -> decides (mbind k m) Q.
Proof. by intros ->. Qed.

(** * Reading fields *)

Lemma length_slice c start size :
  0 <= start -> 0 <= size -> start + size <= Z.of_nat (length c) ->
  length (slice c start size) = Z.to_nat size.
Proof. intros. unfold slice. rewrite length_take, length_drop. lia. Qed.

Lemma slice_cons c start size b :
  0 <= start -> 0 < size -> c !! Z.to_nat start = Some b ->
  slice c start size = b :: slice c (start + 1) (size - 1).
Proof.
  intros Hs Hn Hb. unfold slice. rewrite (drop_S _ _ _ Hb).
  replace (Z.to_nat size) with (S (Z.to_nat (size - 1))) by lia. cbn [take].
  do 2 f_equal. f_equal. lia.
Qed.

Lemma read_some c i : 0 <= i < Z.of_nat (length c) -> exists b, c !! Z.to_nat i = Some b /\ read c i = Done b.
Proof.
  intros Hi. destruct (lookup_lt_is_Some_2 c (Z.to_nat i)) as [b Hb]; [lia|].
  exists b. unfold read. by rewrite Hb.
Qed.

Lemma bytes_at c i b : bytes c -> c !! i = Some b -> 0 <= b < 2 ^ 8.
Proof. intros Hc Hb. exact (Forall_lookup_1 _ _ _ _ Hc Hb). Qed.

Lemma le_word_cons b l : PortedNvidia.le_word (b :: l) = b + 2 ^ 8 * PortedNvidia.le_word l.
Proof. done. Qed.

Lemma le_loop_value c start i n value :
  bytes c -> 0 <= start -> 0 <= i -> start + i + Z.of_nat n <= Z.of_nat (length c) ->
  word (8 * i) value ->
  le_loop c start i n value = Done (value + 2 ^ (8 * i) * PortedNvidia.le_word (slice c (start + i) (Z.of_nat n))).
Proof.
  intros Hc Hs. revert i value. induction n as [|n IH]; intros i value Hi Hl Hv; cbn [le_loop].
  - change (slice c (start + i) (Z.of_nat 0)) with (@nil Z). cbn [PortedNvidia.le_word foldr]; unfold mret, outcome_ret. f_equal. lia.
  - destruct (read_some c (start + i)) as (b & Hb & ->); [lia|]. cbn [mbind outcome_bind].
    pose proof (bytes_at _ _ _ Hc Hb) as Hbyte.
    rewrite Z.shiftl_mul_pow2, (Z.mul_comm i 8) by lia. rewrite PortedNvidia.lor_add by (done || lia).
    unfold word in *. assert (H8 : 2 ^ (8 * (i + 1)) = 2 ^ 8 * 2 ^ (8 * i)).
    { rewrite <- Z.pow_add_r by lia. f_equal. lia. }
    rewrite IH; [|lia|lia|].
    + f_equal. rewrite (slice_cons c (start + i) (Z.of_nat (S n)) b) by (done || lia).
      rewrite le_word_cons, H8. replace (start + (i + 1)) with (start + i + 1) by lia.
      replace (Z.of_nat (S n) - 1) with (Z.of_nat n) by lia. lia.
    + unfold word. rewrite H8. nia.
Qed.

Lemma le_field c start n :
  bytes c -> 0 <= start -> start + Z.of_nat n <= Z.of_nat (length c) ->
  le c start n = Done (field c start (Z.of_nat n)).
Proof.
  intros Hc Hs Hl. unfold le. rewrite le_loop_value by (done || lia).
  rewrite Z.mul_0_r, Z.add_0_r. cbn. unfold field. f_equal. lia.
Qed.

Lemma le_word_range l : bytes l -> 0 <= PortedNvidia.le_word l < 2 ^ (8 * Z.of_nat (length l)).
Proof.
  induction 1 as [|b l Hb Hl IH]; rewrite ?le_word_cons; cbn [length]; [cbn; lia|]. unfold word in Hb.
  replace (8 * Z.of_nat (S (length l))) with (8 + 8 * Z.of_nat (length l)) by lia.
  rewrite Z.pow_add_r by lia. change (2 ^ 8) with 256 in *. nia.
Qed.

Lemma field_range c start size : bytes c -> 0 <= size -> 0 <= field c start size < 2 ^ (8 * size).
Proof.
  intros Hc Hn. unfold field.
  assert (Hs : bytes (slice c start size)) by by apply Forall_take, Forall_drop.
  pose proof (le_word_range _ Hs) as Hr. split; [lia|].
  eapply Z.lt_le_trans; [apply Hr|]. apply Z.pow_le_mono_r; [lia|].
  unfold slice. rewrite length_take. lia.
Qed.

Lemma section_sect c i :
  bytes c -> inside (table_of c) c -> 0 <= i < count_of c ->
  section c (r_offset (table_of c)) i = Done (sect c i).
Proof.
  intros Hc Hin Hi. unfold section, sect, SectionHeaderBytes. unfold inside in Hin.
  pose proof (field_range c 40 8 Hc ltac:(lia)). cbn [table_of r_offset r_size] in *.
  unfold count_of in Hi.
  rewrite (Z.mul_comm i 64). by rewrite !le_field by (done || lia).
Qed.

(** The fields of a section are words. *)
Lemma sect_range c i : bytes c ->
  0 <= s_name (sect c i) /\ 0 <= s_offset (sect c i) < 2 ^ 64 /\ 0 <= s_size (sect c i) < 2 ^ 64 /\
  0 <= s_alignment (sect c i) < 2 ^ 64.
Proof.
  intros Hc. unfold sect. cbn.
  pose proof (fun s n H => field_range c s n Hc H) as HR.
  repeat split; try (apply (HR _ 4); lia); apply (HR _ 8); lia.
Qed.

(** * Ranges *)

Lemma inFile_spec r c :
  0 <= r_size r -> 0 <= r_offset r -> inFile r (Z.of_nat (length c)) = true <-> inside r c.
Proof. intros. unfold inFile, inside. rewrite andb_true_iff, !Z.leb_le. lia. Qed.

(** Inside the file the 64-bit sums of the overlap test do not wrap. *)
Lemma overlaps_spec a b :
  0 <= r_size a -> 0 <= r_offset a -> r_offset a + r_size a < 2 ^ 64 ->
  0 <= r_size b -> 0 <= r_offset b -> r_offset b + r_size b < 2 ^ 64 ->
  overlaps a b = false <-> apart a b.
Proof.
  intros. unfold overlaps, apart. rewrite !add64_small by lia.
  destruct (Z.eqb_spec (r_size a) 0), (Z.eqb_spec (r_size b) 0); cbn; try tauto.
  rewrite andb_false_iff, !Z.ltb_ge. lia.
Qed.

(** An empty range is apart from all, wherever it claims to be. *)
Lemma overlaps_empty a b : r_size b = 0 -> overlaps a b = false <-> apart a b.
Proof. intros Hb. unfold overlaps, apart. rewrite Hb, andb_false_r. cbn. tauto. Qed.

Lemma pow2_spec x : 0 < x < 2 ^ 64 -> Z.land x (x -64 1) = 0 <-> exists k, 0 <= k /\ x = 2 ^ k.
Proof.
  intros Hx. rewrite sub64_small by lia. split.
  - intros Hl. exists (Z.log2 x). split; [apply Z.log2_nonneg|].
    destruct (Z.log2_spec x) as [Hlo Hhi]; [lia|].
    destruct (Z.eq_dec x (2 ^ Z.log2 x)) as [|Hne]; [done|exfalso].
    assert (Hb : Z.testbit (Z.land x (x - 1)) (Z.log2 x) = true); [|by rewrite Hl, Z.bits_0 in Hb].
    rewrite Z.land_spec, Z.bit_log2 by lia.
    assert (Hlog : Z.log2 (x - 1) = Z.log2 x).
    { apply Z.log2_unique; [apply Z.log2_nonneg|lia]. }
    rewrite <- Hlog, Z.bit_log2; [done|]. pose proof (Z.pow_pos_nonneg 2 (Z.log2 x) ltac:(lia) (Z.log2_nonneg x)). lia.
  - intros (k & Hk & ->). rewrite land_ones_low by done. by rewrite Z.mod_same by lia.
Qed.

Lemma compressed_spec f : test f SectionCompressed = Z.testbit f 11.
Proof. change SectionCompressed with (BIT 11). by apply test_BIT. Qed.

(** * Texts *)

Lemma same_bytes_spec a b : same_bytes a b = true <-> a = b.
Proof.
  revert b. induction a as [|x a IH]; intros [|y b]; cbn; try done.
  rewrite andb_true_iff, Z.eqb_eq, IH. split; [by intros [-> ->]|by intros [= -> ->]].
Qed.

Lemma equal_spec a b : equal a b = true <-> a = b.
Proof.
  unfold equal. destruct (Nat.eqb_spec (length a) (length b)) as [|Hne]; cbn; [apply same_bytes_spec|].
  split; [done|by intros ->].
Qed.

Lemma equal_false a b : equal a b = false <-> a <> b.
Proof. rewrite <- equal_spec. by destruct (equal a b). Qed.

Lemma starts_spec a p : starts a p = true <-> exists rest, a = p ++ rest /\ rest <> [].
Proof.
  unfold starts. destruct (Nat.leb_spec (length a) (length p)) as [Hl|Hl].
  - split; [done|]. intros (rest & -> & Hr). rewrite length_app in Hl.
    destruct rest; cbn in Hl; [done|lia].
  - rewrite same_bytes_spec. split.
    + intros Ht. exists (drop (length p) a). split; [by rewrite <- Ht at 1; rewrite take_drop|].
      intros Hd. apply (f_equal length) in Hd. rewrite length_drop in Hd. cbn in Hd. lia.
    + intros (rest & -> & _). by rewrite take_app_length.
Qed.

Lemma nonzero_spec l : forallb (fun b => negb (b =? 0)) l = true <-> 0 ∉ l.
Proof.
  rewrite forallb_forall. split.
  - intros H Hin. by specialize (H 0 (proj1 (list_elem_of_In _ _) Hin)).
  - intros H x Hx. apply negb_true_iff, Z.eqb_neq. intros ->. by apply H, list_elem_of_In.
Qed.

Lemma textValid_spec b :
  textValid b = true <-> data b <> 0 /\ contents b <> [] /\ 0 ∉ contents b.
Proof.
  unfold textValid, size. rewrite !andb_true_iff, !negb_true_iff, !Z.eqb_neq, nonzero_spec.
  split; intros ?; destruct_and!; split_and!; try done.
  - by intros Hn; rewrite Hn in *.
  - by destruct (contents b).
Qed.

Lemma upto_nul_spec l s : upto_nul l = Some s <-> exists rest, l = s ++ 0 :: rest /\ 0 ∉ s.
Proof.
  revert s. induction l as [|b l IH]; intros s; cbn.
  - split; [done|]. intros ([|] & H & _); by destruct s.
  - destruct (Z.eqb_spec b 0) as [->|Hb].
    + split; [intros [= <-]; exists l; split; [done|set_solver]|].
      intros (rest & He & Hs). destruct s as [|x s]; [done|]. injection He as <- _. set_solver.
    + rewrite fmap_Some. setoid_rewrite IH. split.
      * intros (s' & (rest & -> & Hs) & ->). exists rest. split; [done|set_solver].
      * intros (rest & He & Hs). destruct s as [|x s]; injection He as -> ->; [done|].
        exists s. split; [|done]. exists rest. split; [done|set_solver].
Qed.

(** A text follows at most one way. *)
Lemma named_unique c i s s' : named c i s -> named c i s' -> s = s'.
Proof.
  unfold named. setoid_rewrite <- upto_nul_spec. congruence.
Qed.

Lemma name_spec c i s :
  0 <= s_name (sect c i) -> name (strings_of c) (s_name (sect c i)) = Some s <-> named c i s.
Proof.
  intros Hn. unfold name, named. setoid_rewrite <- upto_nul_spec.
  destruct (Z.leb_spec (Z.of_nat (length (strings_of c))) (s_name (sect c i))); [|done].
  rewrite drop_ge by lia. done.
Qed.

(** * The arguments *)

Lemma cpuSpan_spec p n : cpuSpan p n = if decide (p + n <= U64_MAX) then Some (p, p + n) else None.
Proof. unfold cpuSpan. case_decide; zcases; done. Qed.

Lemma overlaps_span_spec b out :
  overlaps_span (out, out + sizeof_out) (data b, data b + size b) = false <-> clear_of out b.
Proof. unfold overlaps_span, clear_of. cbn. rewrite andb_false_iff, !Z.ltb_ge. lia. Qed.

Lemma prefix_spec l :
  starts l signaturePrefix = true /\
  ((length ccPrefix <=? length l)%nat && equal (take (length ccPrefix) l) ccPrefix &&
    (length l =? length ccPrefix)%nat) = false <->
  exists chip, l = signaturePrefix ++ chip /\ chip <> [] /\ chip <> [99; 99; 95].
Proof.
  assert (Hcc : ((length ccPrefix <=? length l)%nat && equal (take (length ccPrefix) l) ccPrefix &&
    (length l =? length ccPrefix)%nat) = false <-> l <> ccPrefix).
  { destruct (decide (l = ccPrefix)) as [->|Hne]; [by split|]. split; [done|]. intros _.
    destruct (Nat.eqb_spec (length l) (length ccPrefix)) as [He|]; [|by rewrite andb_false_r].
    rewrite <- He at 2. rewrite firstn_all, (proj2 (equal_false _ _) Hne).
    by rewrite andb_false_r. }
  rewrite Hcc, starts_spec. split.
  - intros [(chip & -> & Hn) Hc]. exists chip. split_and!; [done..|]. intros ->. by apply Hc.
  - intros (chip & -> & Hn & Hc). split; [eauto|]. unfold ccPrefix. intros He. simplify_list_eq.
Qed.

Section Arguments.
Context (container : Buffer) (selection : FirmwareSelection) (limits : FirmwareParseLimits).
Context (out_address : Z).

Lemma size_nil b : size b = 0 <-> contents b = [].
Proof. unfold size. destruct (contents b); cbn; [done|]. split; [lia|done]. Qed.

Lemma decides_arguments :
  decides (check_arguments container selection limits out_address)
    (fun _ => arguments_ok container selection limits out_address).
Proof.
  unfold check_arguments. set (rel := expectedRelease selection).
  set (sig := signatureSectionName selection).
  apply decides_refuse; [done| |].
  { intros _ Ha. destruct Ha as [[Hc Hne] [Hl1 Hl2] [Hr _] [Hs _] _ _ _].
    rewrite <- size_nil in Hne. subst rel sig.
    rewrite !orb_false_iff, !Z.eqb_neq. tauto. }
  intros Hnull. zbool. rewrite !cpuSpan_spec.
  assert (Hspan : forall b, In b [container; rel; sig] -> data b + size b > U64_MAX ->
    ~ arguments_ok container selection limits out_address).
  { intros b Hb Hx Ha. destruct (ao_spans _ _ _ _ Ha) as [Hf _].
    rewrite List.Forall_forall in Hf. specialize (Hf b Hb). unfold addressable in Hf. lia. }
  assert (Hfail : forall P : Prop, ~ P -> decides (Return IntegerOverflow) (fun _ : unit => P)) by done.
  destruct (decide (data container + size container <= U64_MAX));
    [|apply Hfail, (Hspan container); [cbn; tauto|lia]].
  destruct (decide (data rel + size rel <= U64_MAX));
    [|apply Hfail, (Hspan rel); [cbn; tauto|lia]].
  destruct (decide (data sig + size sig <= U64_MAX));
    [|apply Hfail, (Hspan sig); [cbn; tauto|lia]].
  destruct (decide (out_address + sizeof_out <= U64_MAX));
    [|apply Hfail; intros Ha; by destruct (ao_spans _ _ _ _ Ha)].
  apply decides_refuse; [done| |].
  { intros _ Ha. rewrite !orb_false_iff, !overlaps_span_spec.
    pose proof (ao_output _ _ _ _ Ha) as Hf. rewrite !Forall_cons in Hf. subst rel sig. tauto. }
  intros Ho. rewrite !orb_false_iff, !overlaps_span_spec in Ho.
  apply decides_refuse; [done| |].
  { intros _ Ha. rewrite !orb_false_iff, !negb_false_iff, !textValid_spec, !Z.ltb_ge, <- !size_nil.
    destruct Ha as [_ _ (Hr & Hr1 & Hr2) (Hs & Hs1 & Hs2) (chip & He & _) _ _]. subst rel sig.
    split_and!; try (done || lia). unfold size. rewrite He, length_app. cbn. lia. }
  intros Ht. rewrite !orb_false_iff, !negb_false_iff, !textValid_spec, !Z.ltb_ge, <- !size_nil in Ht.
  apply decides_check; [done|]. rewrite orb_false_iff, negb_false_iff, prefix_spec.
  split; [by destruct 1|]. intros Hp.
  assert (0 <= size rel) by (unfold size; lia). destruct_and!.
  split; [rewrite <- size_nil|..]; rewrite ?Forall_cons; unfold addressable; subst rel sig;
    repeat split; solve [done | lia].
Qed.
End Arguments.

(** * The header *)

Section Container.
Context (c : list Z) (limits : FirmwareParseLimits).
Context (Hbytes : bytes c) (Hlength : Z.of_nat (length c) <= U64_MAX).

Definition header_of : Header :=
  {| h_sections := table_of c; h_programs := programs_of c; h_count := count_of c;
     h_strings := field c 62 2 |}.

Lemma magic_bytes b0 b1 b2 b3 b4 b5 b6 :
  c !! 0%nat = Some b0 -> c !! 1%nat = Some b1 -> c !! 2%nat = Some b2 -> c !! 3%nat = Some b3 ->
  c !! 4%nat = Some b4 -> c !! 5%nat = Some b5 -> c !! 6%nat = Some b6 ->
  take 7 c = [b0; b1; b2; b3; b4; b5; b6].
Proof.
  clear Hbytes Hlength. destruct c as [|x0 [|x1 [|x2 [|x3 [|x4 [|x5 [|x6 c']]]]]]]; cbn; intros; by simplify_eq.
Qed.

Ltac get b H E i := destruct (read_some c i ltac:(lia)) as (b & H & E).
Ltac get_field := eapply decides_done; [apply le_field; [exact Hbytes|lia|lia]|].

(** The ranges of the tables are words. *)
Lemma tables_range :
  0 <= r_offset (table_of c) < 2 ^ 64 /\ 0 <= r_size (table_of c) < 2 ^ 22 /\
  0 <= r_offset (programs_of c) < 2 ^ 64 /\ 0 <= r_size (programs_of c) < 2 ^ 22.
Proof.
  pose proof (field_range c 40 8 Hbytes). pose proof (field_range c 60 2 Hbytes).
  pose proof (field_range c 32 8 Hbytes). pose proof (field_range c 56 2 Hbytes).
  cbn [table_of programs_of r_offset r_size].
  change (2 ^ (8 * 2)) with 65536 in *. change (2 ^ (8 * 8)) with (2 ^ 64) in *.
  change (2 ^ 22) with 4194304. lia.
Qed.

Lemma inside_fits r : inside r c -> r_offset r + r_size r < 2 ^ 64.
Proof. unfold inside. change U64_MAX with (2 ^ 64 - 1) in Hlength. lia. Qed.

Lemma headerRange_fits :
  0 <= r_size headerRange /\ 0 <= r_offset headerRange /\
  r_offset headerRange + r_size headerRange < 2 ^ 64.
Proof. repeat split; by vm_compute. Qed.

Lemma decides_programs :
  inside (table_of c) c ->
  decides (check_programs (Z.of_nat (length c)) (field c 56 2) (field c 54 2) (programs_of c) (table_of c))
    (fun _ => segments_ok c).
Proof.
  intros Hin. unfold check_programs, segments_ok, ProgramHeaderBytes.
  pose proof tables_range as (Ho & Hs & Hpo & Hps). pose proof headerRange_fits as (Hh1 & Hh2 & Hh3).
  pose proof (inside_fits _ Hin) as Hfit.
  destruct (Z.eqb_spec (field c 56 2) 0) as [Hz|Hz]; cbn [negb].
  - rewrite decide_True by done. apply decides_check; [done|].
    rewrite orb_false_iff, andb_false_iff, !negb_false_iff, !Z.eqb_eq. tauto.
  - rewrite decide_False by done.
    apply decides_refuse; [done|by intros _ [-> _]|intros He; zbool].
    apply decides_refuse; [done| |intros Hpin].
    { intros _ (_ & Hi & _). apply negb_false_iff, inFile_spec; done || lia. }
    apply negb_false_iff, inFile_spec in Hpin; [|lia..]. pose proof (inside_fits _ Hpin) as Hpfit.
    apply decides_check; [done|]. rewrite orb_false_iff, !overlaps_spec by lia. tauto.
Qed.

Lemma decides_header :
  decides (parse_header c limits) (fun h => header_ok c limits /\ h = header_of).
Proof.
  unfold parse_header, ElfHeaderBytes, SectionHeaderBytes, ProgramHeaderBytes.
  apply decides_refuse; [done|intros v [[Hl] _]; by apply Z.ltb_ge|]. intros Hl. zbool.
  get b0 H0 E0 0. get b1 H1 E1 1. get b2 H2 E2 2. get b3 H3 E3 3.
  get b4 H4 E4 4. get b5 H5 E5 5. get b6 H6 E6 6.
  pose proof (magic_bytes _ _ _ _ _ _ _ H0 H1 H2 H3 H4 H5 H6) as Hm.
  clear H0 H1 H2 H3 H4 H5 H6. rewrite E0, E1, E2, E3, E4, E5, E6.
  rewrite !le_field by (done || lia). cbn [mbind outcome_bind]. cbv zeta.
  change (Z.of_nat 8) with 8. change (Z.of_nat 4) with 4. change (Z.of_nat 2) with 2.
  pose proof tables_range as Ht. cbn [table_of programs_of r_offset r_size] in Ht.
  rewrite !wrap_small by lia.
  rewrite (Z.mul_comm (field c 60 2) 64), (Z.mul_comm (field c 56 2) 56).
  change {| r_offset := field c 40 8; r_size := 64 * field c 60 2 |} with (table_of c).
  change {| r_offset := field c 32 8; r_size := 56 * field c 56 2 |} with (programs_of c).
  clear E0 E1 E2 E3 E4 E5 E6. fold (count_of c) in *.
  pose proof tables_range as (Ho & Hs & Hpo & Hps).
  apply decides_refuse; [done| |intros Hmagic; zbool].
  { intros v [[_ Hk] _]. rewrite Hm in Hk. by injection Hk as -> -> -> -> -> -> ->. }
  apply decides_refuse; [done| |intros Hclass; zbool].
  { intros v [[_ Hk] _]. rewrite Hm in Hk. by injection Hk as -> -> -> -> -> -> ->. }
  apply decides_refuse; [done| |intros Hversion; zbool].
  { intros v [[_ Hk -> [-> ->]] _]. rewrite Hm in Hk. by injection Hk as -> -> -> -> -> -> ->. }
  apply decides_refuse; [done| |intros Hcount; zbool].
  { intros v [[_ _ _ _ Hc Hn Hp] _]. zcases; done. }
  apply decides_refuse; [done| |intros Hindex; zbool].
  { intros v [[_ _ _ _ Hc Hn Hp] _]. zcases; done. }
  apply decides_refuse; [done| |intros Hmax; zbool].
  { intros v [[_ _ _ _ Hc] _]. zcases; done. }
  apply decides_refuse; [done| |intros Hin].
  { intros v [[_ _ _ _ _ _ _ [Hin _]] _]. apply negb_false_iff, inFile_spec; done || lia. }
  apply negb_false_iff, inFile_spec in Hin; [|lia..]. pose proof (inside_fits _ Hin) as Hfit.
  pose proof headerRange_fits as (Hh1 & Hh2 & Hh3).
  apply decides_refuse; [done| |intros Hap].
  { intros v [[_ _ _ _ _ _ _ [_ Hap]] _]. apply overlaps_spec; done || lia. }
  apply overlaps_spec in Hap; [|done || lia..].
  eapply decides_stage; [by apply decides_programs|intros v [[] _]; by exists tt|].
  intros [] Hseg. apply decides_ret. intros h. split; [by intros [_ ->]|]. intros ->. split; [|done].
  pose proof (field_range c 62 2 Hbytes). split; try (done || lia). rewrite Hm. by subst.
Qed.

(** ** The first section header and the string table *)

Lemma slice_0 start : slice c start 0 = [].
Proof. done. Qed.

Lemma decides_zero start n :
  0 <= start -> start + Z.of_nat n <= Z.of_nat (length c) ->
  decides (check_zero c start n) (fun _ => slice c start (Z.of_nat n) = replicate n 0).
Proof.
  revert start. induction n as [|n IH]; intros start Hs Hn; cbn [check_zero].
  { apply decides_ret. by intros []. }
  destruct (read_some c start) as (b & Hb & Hr); [lia|]. eapply decides_done; [done|].
  rewrite (slice_cons c start (Z.of_nat (S n)) b) by (done || lia). cbn [replicate].
  replace (Z.of_nat (S n) - 1) with (Z.of_nat n) by lia.
  apply decides_refuse; [done|by intros _ [= -> _]|]. intros Hz. zbool. subst b.
  eapply decides_iff; [|apply (IH (start + 1)); lia]. intros []. split; [by intros ->|by intros [= ->]].
Qed.

Lemma slice_lookup start size i :
  0 <= i < size -> 0 <= start -> slice c start size !! Z.to_nat i = c !! Z.to_nat (start + i).
Proof.
  intros Hi Hs. unfold slice. rewrite lookup_take_lt by lia. rewrite lookup_drop. f_equal. lia.
Qed.

Lemma slice_ends start size :
  0 <= start -> 0 < size -> start + size <= Z.of_nat (length c) ->
  head (slice c start size) = c !! Z.to_nat start /\
  last (slice c start size) = c !! Z.to_nat (start + (size - 1)).
Proof.
  intros Hs Hn Hl. split.
  - destruct (read_some c start) as (b & Hb & _); [lia|]. by rewrite (slice_cons c start size b).
  - rewrite last_lookup, length_slice by lia.
    replace (Init.Nat.pred (Z.to_nat size)) with (Z.to_nat (size - 1)) by lia.
    apply slice_lookup; lia.
Qed.

Lemma slice_snoc start n b :
  0 <= start -> 0 <= n -> c !! Z.to_nat (start + n) = Some b ->
  slice c start (n + 1) = slice c start n ++ [b].
Proof.
  intros Hs Hn Hb. unfold slice. replace (Z.to_nat (n + 1)) with (S (Z.to_nat n)) by lia.
  apply take_S_r. rewrite lookup_drop, <- Hb. f_equal. lia.
Qed.

Lemma decides_strings :
  header_ok c limits ->
  decides (parse_strings c limits header_of) (fun s => strings_ok c limits /\ s = strings_of c).
Proof.
  intros Hh. pose proof (ho_strings _ _ Hh) as Hi. pose proof (proj1 (ho_table _ _ Hh)) as Hin.
  unfold parse_strings, header_of. cbn [h_sections h_strings].
  eapply decides_done; [apply section_sect; done || lia|]. fold (strings_section c).
  destruct (sect_range c (field c 62 2) Hbytes) as (_ & Ho & Hs & _).
  fold (strings_section c) in Ho, Hs.
  apply decides_refuse; [done| |intros Hty].
  { intros v [[-> Hp Hsz] _]. rewrite compressed_spec, Hp. zcases; done. }
  rewrite compressed_spec in Hty. zbool.
  apply decides_refuse; [done| |intros Hsi].
  { intros v [[_ _ _ Hi'] _]. apply negb_false_iff, inFile_spec; done || (cbn [range r_offset r_size]; lia). }
  apply negb_false_iff, inFile_spec in Hsi; [|cbn [range r_offset r_size]; lia..]. pose proof Hsi as Hfit.
  unfold inside in Hfit. cbn [range r_offset r_size] in Hfit.
  apply decides_refuse; [done| |intros Hmax; zbool].
  { intros v [[_ _ Hsz] _]. zcases; done. }
  destruct (slice_ends (s_offset (strings_section c)) (s_size (strings_section c))) as [Hhd Hla];
    [lia..|]. fold (strings_of c) in Hhd, Hla.
  destruct (read_some c (s_offset (strings_section c))) as (b & Hb & Hr); [lia|].
  destruct (read_some c (s_offset (strings_section c) + (s_size (strings_section c) - 1)))
    as (b' & Hb' & Hr'); [lia|].
  eapply decides_done; [exact Hr|]. eapply decides_done; [exact Hr'|].
  rewrite Hb in Hhd. rewrite Hb' in Hla.
  apply decides_refuse; [done| |intros Hz; zbool; subst b b'].
  { intros v [[_ _ _ _ [He He']] _]. rewrite He in Hhd. rewrite He' in Hla. by simplify_eq. }
  apply decides_ret. intros s. split; [by intros [_ ->]|]. intros ->. split; [|done].
  split; try (done || lia).
Qed.

(** ** The release *)

Lemma decides_release start release :
  0 <= start -> start + Z.of_nat (length release) <= Z.of_nat (length c) ->
  decides (check_release c start release) (fun _ => slice c start (Z.of_nat (length release)) = release).
Proof.
  revert start. induction release as [|r release IH]; intros start Hs Hn; cbn [check_release length] in *.
  { apply decides_ret. by intros []. }
  destruct (read_some c start) as (b & Hb & Hr); [lia|]. eapply decides_done; [done|].
  rewrite (slice_cons c start (Z.of_nat (S (length release))) b) by (done || lia).
  replace (Z.of_nat (S (length release)) - 1) with (Z.of_nat (length release)) by lia.
  apply decides_refuse; [done| |].
  { intros _ [= -> _]. by rewrite Z.eqb_refl. }
  intros Hz. zbool. subst b.
  eapply decides_iff; [|apply (IH (start + 1)); lia]. intros []. split; [by intros ->|by intros [= ->]].
Qed.

Lemma decides_version v release :
  0 <= s_offset v -> 0 < s_size v -> s_offset v + s_size v <= Z.of_nat (length c) ->
  decides (check_version c v release)
    (fun _ => slice c (s_offset v) (s_size v) = release ++ [0]).
Proof.
  intros Ho Hs Hl. unfold check_version.
  apply decides_refuse; [done| |intros Hn; zbool].
  { intros _ He. apply (f_equal length) in He. rewrite length_slice, length_app in He by lia.
    apply negb_false_iff, Z.eqb_eq. cbn in He. lia. }
  destruct (read_some c (s_offset v + (s_size v - 1))) as (b & Hb & Hr); [lia|].
  eapply decides_done; [done|]. rewrite Hn in *.
  replace (Z.of_nat (length release) + 1 - 1) with (Z.of_nat (length release)) in Hb by lia.
  rewrite (slice_snoc _ _ b) by (done || lia).
  apply decides_refuse; [done| |intros Hz; zbool; subst b].
  { intros _ He. apply app_inj_2 in He as [_ [= ->]]; done. }
  eapply decides_iff; [|apply decides_release; lia]. intros [].
  split; [by intros ->|]. by intros ?%app_inv_tail.
Qed.

(** ** The sections *)

Context (Hheader : header_ok c limits).

Lemma fileContents_spec s : fileContents s = true <-> stored s.
Proof. unfold fileContents, stored. by rewrite andb_true_iff, !negb_true_iff, !Z.eqb_neq. Qed.

Lemma stored_fits i :
  section_ok c i -> stored (sect c i) -> r_offset (range (sect c i)) + r_size (range (sect c i)) < 2 ^ 64.
Proof. intros Hi Hs. apply inside_fits. by apply (se_inside _ _ Hi). Qed.

Lemma sect_apart i j :
  section_ok c i -> section_ok c j ->
  fileContents (sect c i) && fileContents (sect c j) &&
    overlaps (range (sect c i)) (range (sect c j)) = false <->
  (stored (sect c i) -> stored (sect c j) -> apart (range (sect c i)) (range (sect c j))).
Proof.
  intros Hi Hj. destruct (fileContents (sect c i)) eqn:Ei.
  2: { rewrite <- fileContents_spec, Ei. by split. }
  destruct (fileContents (sect c j)) eqn:Ej; cbn [andb].
  2: { split; [intros _ _|done]. by rewrite <- fileContents_spec, Ej. }
  apply fileContents_spec in Ei, Ej. pose proof (stored_fits _ Hi Ei). pose proof (stored_fits _ Hj Ej).
  destruct (sect_range c i Hbytes) as (_ & ? & ? & _).
  destruct (sect_range c j Hbytes) as (_ & ? & ? & _).
  rewrite overlaps_spec by (cbn [range r_offset r_size]; lia || done). tauto.
Qed.

Lemma sect_names i j s :
  named c i s -> section_ok c j ->
  negb (length s =? 0)%nat && equal s (default [] (name (strings_of c) (s_name (sect c j)))) = false <->
  (forall s', named c i s' -> named c j s' -> s' = []).
Proof.
  intros Hi [[s2 Hj] _ _]. destruct (sect_range c j Hbytes) as (Hn & _).
  rewrite (proj2 (name_spec c j s2 Hn) Hj). cbn [default from_option id].
  rewrite andb_false_iff, negb_false_iff, Nat.eqb_eq, equal_false. split.
  - intros Hs s' Hi' Hj'. assert (s = s') as <- by by eapply named_unique.
    assert (s2 = s) as -> by by eapply named_unique. destruct Hs; [by apply nil_length_inv|done].
  - intros Hs. destruct (decide (s = s2)) as [->|]; [|by right]. left. by rewrite (Hs s2).
Qed.

Lemma decides_previous i s js :
  named c i s -> section_ok c i -> Forall (fun j => Z.of_nat j < count_of c /\ section_ok c (Z.of_nat j)) js ->
  decides (check_previous c (strings_of c) (r_offset (table_of c)) (sect c i) s js)
    (fun _ => Forall (fun j => distinct_sections c i (Z.of_nat j)) js).
Proof.
  intros Hn Hi. induction js as [|j js IH]; intros Hjs; cbn [check_previous].
  { apply decides_ret. intros []. split; [done|]. intros _. by apply Forall_nil. }
  apply Forall_cons in Hjs as [[Hj Hok] Hjs].
  eapply decides_done; [apply section_sect; [done|by apply (ho_table _ _ Hheader)|lia]|].
  apply decides_refuse; [done| |rewrite (sect_names i _ s) by done; intros Hnames].
  { intros _ Hf. apply Forall_cons in Hf as [[Hf _] _]. by rewrite (sect_names i). }
  apply decides_refuse; [done| |rewrite sect_apart by done; intros Hapart].
  { intros _ Hf. apply Forall_cons in Hf as [[_ Hf] _]. by rewrite sect_apart. }
  eapply decides_iff; [|by apply IH]. intros []. rewrite Forall_cons. unfold distinct_sections. tauto.
Qed.

(** What is found for a target in a list of sections: the last that has the name. *)
Definition found_step (t : list Z) (old : option Section_) (i : nat) : option Section_ :=
  if decide (name (strings_of c) (s_name (sect c (Z.of_nat i))) = Some t)
  then Some (sect c (Z.of_nat i)) else old.

Definition usable (s : Section_) : Prop :=
  stored s /\ 0 < s_size s /\ Z.testbit (s_flags s) 11 = false.

Lemma decides_targets i s targets selected :
  name (strings_of c) (s_name (sect c (Z.of_nat i))) = Some s -> length targets = length selected ->
  decides (match_targets (sect c (Z.of_nat i)) s targets selected)
    (fun sel => (s ∈ targets -> usable (sect c (Z.of_nat i))) /\
      sel = zip_with (fun t old => found_step t old i) targets selected).
Proof.
  intros Hn. set (cur := sect c (Z.of_nat i)) in *.
  destruct (sect_range c (Z.of_nat i) Hbytes) as (_ & _ & Hsz & _). fold cur in Hsz.
  revert selected. induction targets as [|t targets IH]; intros [|old selected] Hl; cbn in Hl;
    try lia; cbn [match_targets zip_with].
  { apply decides_ret. intros b. split; [by intros [_ ->]|]. intros ->. split; [|done]. set_solver. }
  unfold found_step at 1. fold cur. rewrite Hn. destruct (equal s t) eqn:E; cbn [negb].
  - apply equal_spec in E as <-. rewrite decide_True by done. rewrite outcome_assoc.
    apply decides_refuse; [done| |intros Hf].
    { intros v [Hu _]. destruct Hu as (Hst & Hz & _); [set_solver|].
      apply fileContents_spec in Hst as ->. zcases; done. }
    apply orb_false_iff in Hf as [Hf Hz]. apply negb_false_iff, fileContents_spec in Hf. zbool.
    rewrite outcome_assoc. apply decides_refuse; [done| |intros Hp; rewrite compressed_spec in Hp].
    { intros v [Hu _]. rewrite compressed_spec. apply Hu. set_solver. }
    cbn [mbind outcome_bind mret outcome_ret].
    eapply decides_stage; [apply (IH selected); lia|intros v [Hu _]; eexists; split; [|done]; set_solver|].
    intros rest [_ ->]. apply decides_ret. intros v. split; [by intros [_ ->]|]. intros ->.
    split; [|done]. intros _. split_and!; try (done || lia).
  - apply equal_false in E. rewrite decide_False by congruence. cbn [mbind outcome_bind mret outcome_ret].
    eapply decides_stage; [apply (IH selected); lia|intros v [Hu _]; eexists; split; [|done]; set_solver|].
    intros rest [Hu ->]. apply decides_ret. intros v. split; [by intros [_ ->]|]. intros ->.
    split; [|done]. set_solver.
Qed.

(** Everything that is checked when the loop is at section [i]. *)
Record checked_at (targets : list (list Z)) (i : nat) : Prop := {
  ad_section : section_ok c (Z.of_nat i);
  ad_distinct : forall j, 1 <= j < Z.of_nat i -> distinct_sections c (Z.of_nat i) j;
  ad_usable : forall t, t ∈ targets -> named c (Z.of_nat i) t -> usable (sect c (Z.of_nat i));
}.

Lemma alignment_spec s :
  0 <= s_alignment s < 2 ^ 64 ->
  negb (s_type s =? SectionNull) && negb (s_alignment s =? 0) &&
    negb (Z.land (s_alignment s) (s_alignment s -64 1) =? 0) = false <->
  (s_type s <> SectionNull -> s_alignment s = 0 \/ exists k, 0 <= k /\ s_alignment s = 2 ^ k).
Proof.
  intros Ha. destruct (Z.eqb_spec (s_type s) SectionNull); cbn [negb andb]; [tauto|].
  destruct (Z.eqb_spec (s_alignment s) 0); cbn [negb andb]; [tauto|].
  rewrite negb_false_iff, Z.eqb_eq, pow2_spec by lia. tauto.
Qed.

Definition placed (i : Z) : Prop :=
  stored (sect c i) -> inside (range (sect c i)) c /\ apart (range (sect c i)) headerRange /\
  apart (range (sect c i)) (table_of c) /\ apart (range (sect c i)) (programs_of c).

Lemma programs_apart r :
  0 <= r_size r -> 0 <= r_offset r -> r_offset r + r_size r < 2 ^ 64 ->
  overlaps r (programs_of c) = false <-> apart r (programs_of c).
Proof.
  intros H1 H2 H3. pose proof tables_range as (_ & _ & Hpo & Hps).
  pose proof (ho_segments _ _ Hheader) as Hseg. unfold segments_ok in Hseg.
  destruct (decide (field c 56 2 = 0)) as [Hz|].
  - apply overlaps_empty. cbn [programs_of r_size]. lia.
  - destruct Hseg as (_ & Hin & _). pose proof (inside_fits _ Hin). apply overlaps_spec; lia.
Qed.

Lemma decides_placed i :
  decides (if fileContents (sect c i) then
      refuse (negb (inFile (range (sect c i)) (Z.of_nat (length c)))) Truncated;;
      refuse (overlaps (range (sect c i)) headerRange || overlaps (range (sect c i)) (table_of c) ||
        overlaps (range (sect c i)) (programs_of c)) OverlappingFileRanges
    else mret tt) (fun _ => placed i).
Proof.
  destruct (sect_range c i Hbytes) as (_ & Ho & Hs & _).
  pose proof tables_range as (Hto & Hts & _). pose proof headerRange_fits as (Hh1 & Hh2 & Hh3).
  pose proof (inside_fits _ (proj1 (ho_table _ _ Hheader))) as Htf.
  assert (0 <= r_offset (range (sect c i)) /\ 0 <= r_size (range (sect c i))) as [Hro Hrs]
    by (cbn [range r_offset r_size]; lia).
  unfold placed. pose proof (fileContents_spec (sect c i)) as Hst.
  destruct (fileContents (sect c i)).
  2: { apply decides_ret. intros []. split; [done|]. intros _ Hx. by apply Hst in Hx. }
  apply proj1 in Hst. specialize (Hst eq_refl).
  apply decides_refuse; [done| |intros Hin].
  { intros _ (Hin & _); [done|]. apply negb_false_iff, inFile_spec; done. }
  apply negb_false_iff, inFile_spec in Hin; [|done..]. pose proof (inside_fits _ Hin) as Hf.
  apply decides_check; [done|].
  rewrite !orb_false_iff, programs_apart, !overlaps_spec by (done || lia). tauto.
Qed.

Lemma decides_section targets selected i :
  1 <= Z.of_nat i < count_of c -> length targets = length selected ->
  (forall j, 1 <= j < Z.of_nat i -> section_ok c j) ->
  decides (parse_section c (strings_of c) header_of targets selected i)
    (fun sel => checked_at targets i /\ sel = zip_with (fun t old => found_step t old i) targets selected).
Proof.
  intros Hi Hl Hprev. unfold parse_section, header_of. cbn [h_sections h_programs].
  eapply decides_done; [apply section_sect; [done|by apply (ho_table _ _ Hheader)|lia]|].
  destruct (sect_range c (Z.of_nat i) Hbytes) as (Hn & _ & _ & Ha).
  destruct (name (strings_of c) (s_name (sect c (Z.of_nat i)))) as [s|] eqn:En.
  2: { split; [done|]. intros v [[[[s Hs] _ _] _ _] _]. apply name_spec in Hs; [|done]. congruence. }
  pose proof (proj1 (name_spec _ _ _ Hn) En) as Hs.
  apply decides_refuse; [done| |rewrite alignment_spec by done; intros Hal].
  { intros v [[[_ Hal _] _ _] _]. by rewrite alignment_spec. }
  eapply decides_stage; [apply decides_placed|intros v [[[_ _ Hp] _ _] _]; by exists tt|].
  intros [] Hplaced. assert (Hok : section_ok c (Z.of_nat i)) by (split; [by exists s|done..]).
  assert (Hseq : forall j, j ∈ seq 1 (i - 1) <-> 1 <= Z.of_nat j < Z.of_nat i).
  { intros j. rewrite elem_of_seq. lia. }
  eapply decides_stage; [apply decides_previous; [done..|]|intros v [[_ Hd _] _]; exists tt|].
  { apply Forall_forall. intros j Hj%Hseq. split; [lia|]. apply Hprev. lia. }
  { apply Forall_forall. intros j Hj%Hseq. by apply Hd. }
  intros [] Hd. rewrite Forall_forall in Hd.
  eapply decides_iff; [|by apply decides_targets]. intros sel. split; intros [Hu ->]; (split; [|done]).
  - split; [done| |intros t Ht Hnt; assert (t = s) as -> by (by eapply named_unique); by apply Hu].
    intros j Hj. replace j with (Z.of_nat (Z.to_nat j)) by lia. apply Hd, Hseq. lia.
  - intros Hin. by apply (ad_usable _ _ Hu s).
Qed.

Lemma decides_sections targets selected k n :
  length targets = length selected -> 1 <= Z.of_nat k -> Z.of_nat k + Z.of_nat n <= count_of c ->
  (forall j, 1 <= j < Z.of_nat k -> section_ok c j) ->
  decides (parse_sections c (strings_of c) header_of targets selected (seq k n))
    (fun sel => Forall (checked_at targets) (seq k n) /\
      sel = foldl (fun sel i => zip_with (fun t old => found_step t old i) targets sel) selected (seq k n)).
Proof.
  revert k selected. induction n as [|n IH]; intros k selected Hl Hk Hn Hprev; cbn [seq parse_sections foldl].
  { apply decides_ret. intros b. split; [by intros [_ ->]|]. intros ->. split; [by apply Forall_nil|done]. }
  eapply decides_stage; [apply decides_section; done || lia| |].
  { intros v [Hf _]. apply Forall_cons in Hf as [Hf _]. by eexists. }
  intros sel [Had ->]. eapply decides_iff; [|apply IH].
  - intros b. rewrite Forall_cons. tauto.
  - rewrite length_zip_with. lia.
  - lia.
  - lia.
  - intros j Hj. destruct (decide (j = Z.of_nat k)) as [->|]; [apply Had|apply Hprev; lia].
Qed.
End Container.

(** * The selected sections *)

Lemma found_four c t1 t2 t3 t4 ids o1 o2 o3 o4 :
  foldl (fun sel i => zip_with (fun t old => found_step c t old i) [t1; t2; t3; t4] sel) [o1; o2; o3; o4] ids =
  [foldl (found_step c t1) o1 ids; foldl (found_step c t2) o2 ids;
   foldl (found_step c t3) o3 ids; foldl (found_step c t4) o4 ids].
Proof. revert o1 o2 o3 o4. induction ids as [|i ids IH]; intros; cbn; [done|]. apply IH. Qed.

Lemma found_some c t ids s :
  foldl (found_step c t) None ids = Some s ->
  exists i, i ∈ ids /\ name (strings_of c) (s_name (sect c (Z.of_nat i))) = Some t /\ s = sect c (Z.of_nat i).
Proof.
  induction ids as [|i ids IH] using rev_ind; cbn; [done|]. rewrite foldl_app. cbn. unfold found_step at 1.
  case_decide as Hd.
  - intros [= <-]. exists i. split; [apply elem_of_app; right; by apply list_elem_of_singleton|done].
  - intros Hf. destruct (IH Hf) as (j & Hj & Hn). exists j. split; [apply elem_of_app; by left|done].
Qed.

Lemma found_none c t ids :
  foldl (found_step c t) None ids = None ->
  forall i, i ∈ ids -> name (strings_of c) (s_name (sect c (Z.of_nat i))) <> Some t.
Proof.
  induction ids as [|i ids IH] using rev_ind; [set_solver|]. rewrite foldl_app. cbn.
  unfold found_step at 1. case_decide as Hd; [done|]. intros Hf j Hj.
  apply elem_of_app in Hj as [Hj|Hj]; [by apply IH|]. by apply list_elem_of_singleton in Hj as ->.
Qed.

Section Selected.
Context (c : list Z) (t : list Z) (targets : list (list Z)).
Context (Hbytes : bytes c) (Ht : t ∈ targets).
Context (Hcount : 0 < count_of c).
Context (Hall : Forall (checked_at c targets) (seq 1 (Z.to_nat (count_of c) - 1))).

Lemma in_range i : i ∈ seq 1 (Z.to_nat (count_of c) - 1) <-> 1 <= Z.of_nat i < count_of c.
Proof. rewrite elem_of_seq. lia. Qed.

Lemma checked_section i : 1 <= i < count_of c -> checked_at c targets (Z.to_nat i).
Proof. intros Hi. rewrite Forall_forall in Hall. apply Hall, in_range. lia. Qed.

(** The section that is found has the name and can be used as it is. *)
Lemma found_selects s :
  foldl (found_step c t) None (seq 1 (Z.to_nat (count_of c) - 1)) = Some s ->
  exists i, selects c t i /\ s = sect c i.
Proof.
  intros Hf. destruct (found_some _ _ _ _ Hf) as (i & Hi%in_range & Hn & ->).
  exists (Z.of_nat i). split; [|done].
  pose proof (checked_section (Z.of_nat i) Hi) as [Hok _ Hu]. rewrite Nat2Z.id in *.
  apply name_spec in Hn; [|by apply sect_range]. destruct (Hu t Ht Hn) as (? & ? & ?). by split.
Qed.

Lemma not_found :
  foldl (found_step c t) None (seq 1 (Z.to_nat (count_of c) - 1)) = None -> forall i, ~ selects c t i.
Proof.
  intros Hf i [Hi Hn _ _]. apply (found_none _ _ _ Hf (Z.to_nat i)).
  - apply in_range. lia.
  - rewrite Z2Nat.id by lia. apply name_spec; [|done]. by apply sect_range.
Qed.

Lemma found_cases :
  let found := foldl (found_step c t) None (seq 1 (Z.to_nat (count_of c) - 1)) in
  (exists i, selects c t i /\ found = Some (sect c i)) \/ ((forall i, ~ selects c t i) /\ found = None).
Proof.
  cbv zeta. destruct (foldl _ _ _) as [s|] eqn:E; [left|right].
  - destruct (found_selects s E) as (i & Hi & ->). eauto.
  - split; [by apply not_found|done].
Qed.
End Selected.

(** At most one section has a given name. *)
Lemma named_index c t i j :
  (forall i j, 1 <= j < i -> i < count_of c -> distinct_sections c i j) -> t <> [] ->
  1 <= i < count_of c -> 1 <= j < count_of c -> named c i t -> named c j t -> i = j.
Proof.
  intros Hd Ht Hi Hj Hni Hnj.
  destruct (Z.lt_trichotomy i j) as [Hl|[|Hl]]; [|done|]; exfalso; apply Ht.
  - by apply (proj1 (Hd j i ltac:(lia) ltac:(lia))).
  - by apply (proj1 (Hd i j ltac:(lia) ltac:(lia))).
Qed.

(** * The parser *)

Section Parser.
Context (container : Buffer) (selection : FirmwareSelection) (limits : FirmwareParseLimits).
Context (out_address : Z).
Context (Hbytes : bytes (contents container)) (Hdata : 0 <= data container).

Notation c := (contents container).
Notation targets := [versionName; imageName; contents (signatureSectionName selection); noteName].

(** What the first five stages establish. *)
Record surveyed : Prop := {
  su_arguments : arguments_ok container selection limits out_address;
  su_header : header_ok c limits;
  su_first : slice c (r_offset (table_of c)) 64 = replicate 64 0;
  su_strings : strings_ok c limits;
  su_sections : Forall (checked_at c targets) (seq 1 (Z.to_nat (count_of c) - 1));
}.

Lemma length_fits : arguments_ok container selection limits out_address -> Z.of_nat (length c) <= U64_MAX.
Proof.
  intros Ha. destruct (ao_spans _ _ _ _ Ha) as [Hf _]. apply Forall_cons in Hf as [Hf _].
  unfold addressable, size in Hf. lia.
Qed.

(** The selected name and the fixed names are not empty. *)
Lemma targets_nonempty t : arguments_ok container selection limits out_address -> t ∈ targets -> t <> [].
Proof.
  intros Ha. destruct (ao_prefix _ _ _ _ Ha) as (chip & He & _). rewrite He.
  rewrite !elem_of_cons. intros [->|[->|[->|[->|Hn]]]]; try done. by apply not_elem_of_nil in Hn.
Qed.

Lemma surveyed_distinct i j :
  surveyed -> 1 <= j < i -> i < count_of c -> distinct_sections c i j.
Proof.
  intros Hs Hj Hi.
  pose proof (checked_section _ _ (proj1 (proj1 (ho_count _ _ (su_header Hs)))) (su_sections Hs) i) as Hc.
  replace i with (Z.of_nat (Z.to_nat i)) by lia. apply Hc; lia.
Qed.

Lemma accepted_surveyed v : accepted container selection limits out_address v -> surveyed.
Proof.
  intros [Ha Hh Hf Hs Hse Hd (i1 & i2 & i3 & i4 & S1 & S2 & S3 & S4 & _)]. split; try done.
  apply Forall_forall. intros i Hi%(in_range _ (proj1 (proj1 (ho_count _ _ Hh)))).
  split; [by apply Hse|intros j Hj; apply Hd; lia|].
  intros t Ht Hn. assert (Hu : exists k, selects c t k).
  { rewrite !elem_of_cons in Ht. destruct Ht as [->|[->|[->|[->|Hx]]]]; eauto.
    by apply not_elem_of_nil in Hx. }
  destruct Hu as [k Hk]. assert (Z.of_nat i = k) as ->.
  { eapply named_index; [exact Hd|by apply (targets_nonempty t)|..]; try done; apply Hk. }
  destruct Hk as [_ _ [??] ?]. by split.
Qed.

Lemma selects_index t i j :
  surveyed -> t ∈ targets -> selects c t i -> selects c t j -> i = j.
Proof.
  intros Hs Ht [Hi Hni _ _] [Hj Hnj _ _].
  eapply (named_index c t); try done; [intros; by apply surveyed_distinct|].
  apply targets_nonempty; [apply Hs|done].
Qed.

Lemma selects_inside t i :
  surveyed -> selects c t i ->
  0 <= s_offset (sect c i) /\ 0 < s_size (sect c i) /\
  s_offset (sect c i) + s_size (sect c i) <= Z.of_nat (length c).
Proof.
  intros Hs [Hi _ [Hst Hsz] _]. destruct (sect_range c i Hbytes) as (_ & Ho & _ & _).
  pose proof (checked_section _ _ (proj1 (proj1 (ho_count _ _ (su_header Hs)))) (su_sections Hs) i Hi) as Hc.
  destruct Hc as [[_ _ Hp] _ _]. rewrite Z2Nat.id in Hp by lia. destruct (Hp Hst) as [Hin _].
  unfold inside in Hin. cbn [range r_offset r_size] in Hin. lia.
Qed.

Lemma view_section t i :
  surveyed -> selects c t i -> view container (sect c i) = section_view container i.
Proof.
  intros Hs Hi. destruct (selects_inside t i Hs Hi) as (Ho & Hz & Hl).
  destruct (ao_spans _ _ _ _ (su_arguments Hs)) as [Hf _]. apply Forall_cons in Hf as [Hf _].
  unfold addressable, size in Hf. change U64_MAX with (2 ^ 64 - 1) in Hf.
  unfold view, section_view. rewrite add64_small by lia. done.
Qed.

Lemma decides_views i1 i2 i3 i4 :
  surveyed ->
  selects c versionName i1 -> selects c imageName i2 ->
  selects c (contents (signatureSectionName selection)) i3 -> selects c noteName i4 ->
  decides (check_version c (sect c i1) (contents (expectedRelease selection));;
    mret {| version := view container (sect c i1); image := view container (sect c i2);
            signature := view container (sect c i3); buildIdNote := view container (sect c i4) |})
    (accepted container selection limits out_address).
Proof.
  intros Hs S1 S2 S3 S4. destruct (selects_inside _ _ Hs S1) as (Ho & Hz & Hl).
  assert (Hsame : forall v, accepted container selection limits out_address v ->
    slice c (s_offset (sect c i1)) (s_size (sect c i1)) = contents (expectedRelease selection) ++ [0] /\
    v = {| version := section_view container i1; image := section_view container i2;
           signature := section_view container i3; buildIdNote := section_view container i4 |}).
  { intros v [_ _ _ _ _ _ (j1 & j2 & j3 & j4 & T1 & T2 & T3 & T4 & Hv & ->)].
    rewrite (selects_index versionName i1 j1), (selects_index imageName i2 j2),
      (selects_index (contents (signatureSectionName selection)) i3 j3),
      (selects_index noteName i4 j4) by (done || set_solver). done. }
  eapply decides_stage; [apply decides_version; done| |].
  { intros v Hv. exists tt. by apply Hsame in Hv as [? _]. }
  intros [] Hrel. rewrite (view_section _ _ Hs S1), (view_section _ _ Hs S2), (view_section _ _ Hs S3),
    (view_section _ _ Hs S4).
  apply decides_ret. intros v. split; [by intros [_ ->]%Hsame|]. intros ->.
  pose proof Hs as [? Hh ???]. pose proof (proj1 (proj1 (ho_count _ _ Hh))) as Hc. split; try done.
  - intros i Hi. destruct (checked_section _ _ Hc (su_sections Hs) i Hi) as [Hok _ _].
    by rewrite Z2Nat.id in Hok by lia.
  - intros. by apply surveyed_distinct.
  - by exists i1, i2, i3, i4.
Qed.

Lemma decides_extract :
  decides (extract container selection limits out_address)
    (accepted container selection limits out_address).
Proof.
  unfold extract.
  eapply decides_stage; [apply decides_arguments|intros v []; by exists tt|]. intros [] Ha.
  pose proof (length_fits Ha) as Hlen. cbv zeta.
  eapply decides_stage; [by apply decides_header|intros v []; by eexists|]. intros h [Hh ->].
  pose proof (proj1 (proj1 (ho_count _ _ Hh))) as Hc. pose proof (proj1 (ho_table _ _ Hh)) as Hin.
  pose proof (tables_range c Hbytes) as (Hto & _ & _). unfold inside in Hin.
  change (h_sections (header_of c)) with (table_of c).
  eapply decides_stage; [apply decides_zero; [lia|]|intros v []; by exists tt|].
  { cbn [table_of r_offset r_size] in *. unfold count_of in Hc.
    change (Z.of_nat (Z.to_nat SectionHeaderBytes)) with 64. lia. }
  intros [] Hz.
  eapply decides_stage; [by apply decides_strings|intros v []; by eexists|]. intros strs [Hs ->].
  eapply decides_stage; [eapply decides_sections; done || (cbn [header_of h_count]; lia)| |].
  { intros v Hv. eexists. split; [|done]. apply (su_sections (accepted_surveyed v Hv)). }
  intros sel [Hall ->]. cbn [header_of h_count] in Hall |- *. rewrite found_four.
  assert (Hsu : surveyed) by by split.
  assert (Hmiss : (forall v, ~ accepted container selection limits out_address v) ->
    decides (Return MissingSection) (accepted container selection limits out_address)) by by split.
  pose proof (fun t Ht => found_cases c t targets Hbytes Ht Hc Hall) as Hcases.
  destruct (Hcases versionName ltac:(set_solver)) as [(i1 & S1 & ->)|[Hn ->]].
  2: { apply Hmiss. intros v [_ _ _ _ _ _ (i & _ & _ & _ & Hi & _)]. by apply (Hn i). }
  destruct (Hcases imageName ltac:(set_solver)) as [(i2 & S2 & ->)|[Hn ->]].
  2: { apply Hmiss. intros v [_ _ _ _ _ _ (_ & i & _ & _ & _ & Hi & _)]. by apply (Hn i). }
  destruct (Hcases (contents (signatureSectionName selection)) ltac:(set_solver))
    as [(i3 & S3 & ->)|[Hn ->]].
  2: { apply Hmiss. intros v [_ _ _ _ _ _ (_ & _ & i & _ & _ & _ & Hi & _)]. by apply (Hn i). }
  destruct (Hcases noteName ltac:(set_solver)) as [(i4 & S4 & ->)|[Hn ->]].
  2: { apply Hmiss. intros v [_ _ _ _ _ _ (_ & _ & _ & i & _ & _ & _ & Hi & _)]. by apply (Hn i). }
  by apply decides_views.
Qed.

(** Sections of different names share no byte, nor do their views. *)
Lemma views_apart t t' i j :
  surveyed -> selects c t i -> selects c t' j -> t <> t' ->
  views_disjoint (section_view container i) (section_view container j).
Proof.
  intros Hs Si Sj Ht. destruct (selects_inside t i Hs Si) as (? & ? & _).
  destruct (selects_inside t' j Hs Sj) as (? & ? & _).
  assert (Hap : apart (range (sect c i)) (range (sect c j)) \/ apart (range (sect c j)) (range (sect c i))).
  { destruct Si as [Hi Hni [Hsi _] _], Sj as [Hj Hnj [Hsj _] _].
    destruct (Z.lt_trichotomy i j) as [Hl|[<-|Hl]].
    - right. apply (surveyed_distinct j i Hs); done || lia.
    - by destruct Ht; eapply named_unique.
    - left. apply (surveyed_distinct i j Hs); done || lia. }
  unfold views_disjoint, section_view, apart in *. cbn [range r_offset r_size v_data v_size] in *. lia.
Qed.

Lemma accepted_safe v : accepted container selection limits out_address v -> views_safe container v.
Proof.
  intros Hv. pose proof (accepted_surveyed v Hv) as Hs.
  destruct (ac_views _ _ _ _ _ Hv) as (i1 & i2 & i3 & i4 & S1 & S2 & S3 & S4 & _ & ->).
  destruct (ao_prefix _ _ _ _ (su_arguments Hs)) as (chip & He & _).
  assert (Hin : forall t i, selects c t i -> view_inside container (section_view container i)).
  { intros t i Hi. destruct (selects_inside t i Hs Hi) as (? & ? & ?).
    unfold view_inside, section_view, size. cbn [v_data v_size]. lia. }
  split; unfold views; cbn [version image signature buildIdNote].
  - rewrite !Forall_cons, Forall_nil. split_and!; eauto.
  - repeat apply FOP_cons; try apply FOP_nil; rewrite ?Forall_cons, ?Forall_nil;
      split_and?; try done; (eapply views_apart; [done|eassumption|eassumption|]); try done; by rewrite He.
Qed.
End Parser.

(** [C28] [extractFirmwareImage] decides whether a container is well-formed: on any bytes,
    with any arguments, it returns without reading outside the container; it returns [Ok]
    exactly when the declarative description [accepted] of the format holds (header,
    tables and sections inside the file and mutually disjoint, names terminated and not
    repeated, alignments powers of two, the four required sections present, stored,
    non-empty and not compressed, the version section equal to the release with its NUL),
    with the views of those sections, which lie in the container and share no byte; and
    on every failure the output is unchanged. *)
Theorem extractFirmwareImage_decides (container : Buffer) (selection : FirmwareSelection)
    (limits : FirmwareParseLimits) (out_address : Z) (out : FirmwareImageView) :
  bytes (contents container) -> 0 <= data container ->
  exists status out',
    extractFirmwareImage container selection limits out_address out = Some (status, out') /\
    ((status = Ok /\ accepted container selection limits out_address out' /\ views_safe container out') \/
     (status <> Ok /\ out' = out /\ forall v, ~ accepted container selection limits out_address v)).
Proof.
  intros Hb Hd. pose proof (decides_extract container selection limits out_address Hb Hd) as H.
  unfold extractFirmwareImage. destruct (extract _ _ _ _) as [|e|v]; cbn in H; [done| |].
  - exists e, out. split; [done|]. right. destruct H. done.
  - exists Ok, v. split; [done|]. left. assert (Hv : accepted container selection limits out_address v) by by apply H.
    split_and!; [done|done|]. by eapply accepted_safe.
Qed.

(** A container of the release [1.0] for the chip [x]: six sections after the header. *)
Definition half (v : Z) : list Z := [wrap 8 v; wrap 8 (Z.shiftr v 8)].
Definition long (v : Z) : list Z := word_bytes v ++ [0; 0; 0; 0].

Definition example_section (name type offset size : Z) : list Z :=
  word_bytes name ++ word_bytes type ++ long 0 ++ long 0 ++ long offset ++ long size ++
  long 0 ++ long 1 ++ long 0.

Definition example_strings : list Z :=
  [0] ++ versionName ++ [0] ++ imageName ++ [0] ++ signaturePrefix ++ [120; 0] ++ noteName ++ [0].

Definition example_container : list Z :=
  [0x7F; 69; 76; 70; 2; 1; 1] ++ replicate 9 0 ++ half 2 ++ half 190 ++ word_bytes 1 ++ long 0 ++
  long 0 ++ long 64 ++ word_bytes 0 ++ half 64 ++ half 0 ++ half 0 ++ half 64 ++ half 6 ++ half 1 ++
  replicate 64 0 ++
  example_section 0 3 448 (Z.of_nat (length example_strings)) ++
  example_section 1 1 503 4 ++ example_section 12 1 507 3 ++
  example_section 21 1 510 2 ++ example_section 36 7 512 1 ++
  example_strings ++ [49; 46; 48; 0] ++ [1; 2; 3] ++ [4; 5] ++ [6].

Definition example_buffer : Buffer := {| data := 4096; contents := example_container |}.
Definition example_selection : FirmwareSelection := {|
  expectedRelease := {| data := 65536; contents := [49; 46; 48] |};
  signatureSectionName := {| data := 69632; contents := signaturePrefix ++ [120] |} |}.
Definition example_limits : FirmwareParseLimits := {| maxSections := 16; maxStringTableBytes := 256 |}.
Definition no_view : View := {| v_data := 0; v_size := 0 |}.
Definition no_views : FirmwareImageView :=
  {| version := no_view; image := no_view; signature := no_view; buildIdNote := no_view |}.

Lemma extractFirmwareImage_decides_witness :
  exists v, extractFirmwareImage example_buffer example_selection example_limits 131072 no_views = Some (Ok, v) /\
    accepted example_buffer example_selection example_limits 131072 v /\
    image v = {| v_data := 4096 + 507; v_size := 3 |}.
Proof.
  destruct (extractFirmwareImage_decides example_buffer example_selection example_limits 131072 no_views)
    as (status & v & He & [(-> & Hv & _)|(Hs & _)]).
  - apply (bool_decide_unpack (Forall (word 8) example_container)). vm_compute. exact I.
  - by vm_compute.
  - exists v. split_and!; [done|done|]. revert He. vm_compute. by intros [= <-].
  - exfalso. revert He Hs. vm_compute. congruence.
Defined.
