(* ===== verification/XeMemory.v ===== *)
(** System memory of the Xe backend, [Mellow/XeMemory.{hpp,cpp}]: the address checks and the
    encoders of system page-table entries that the page-table builder and the virtual memory
    share. *)
From stdpp Require Import base numbers list.
From S2P Require Import Prelude.
From S2P Require Import GttDefs.
From S2P Require Import Pte.
From S2P Require Import PortedXe.
Import (hints) PortedXe.

Module XeMemory.

(** * Data *)

Definition PageSize : Z := 4096.
Definition VaLimit : Z := Z.shiftl 1 48.
Definition DmaLimit : Z := Z.shiftl 1 46.

Inductive Status :=
  | Ok | Invalid | NoSpace | NotFound | WrongOwner | Busy
  | Unavailable | BackendFailure | Quarantined.

#[export] Instance Status_eq_dec : EqDecision Status.
Proof. solve_decision. Defined.

(** * Checks *)

Definition powerOfTwo (value : Z) : bool :=
  negb (value =? 0) && (Z.land value (value -64 1) =? 0).

Definition span (address bytes limit : Z) : bool :=
  negb (bytes =? 0) && (address <? limit) && (bytes <=? limit -64 address).

Definition dmaPage (address : Z) : bool :=
  negb (test address (PageSize - 1)) && span address PageSize DmaLimit.

(** [None] is the return value [false]. *)
Definition alignUp (value alignment : Z) : option Z :=
  if negb (powerOfTwo alignment) || (U64_MAX -64 (alignment -64 1) <? value) then None
  else Some (Z.ldiff (value +64 alignment -64 1) (alignment -64 1)).

(** * Encoders

    The reference parameter [entry] is passed in and returned.  The ported encoders called
    here do not trap ([encode_never_traps] below), so the last branch of each is not taken. *)

Definition encodeSystemPte4K (address pat : Z) (writable : bool) (entry : Z) : Status * Z :=
  if negb (dmaPage address) || (15 <? pat) then (Invalid, entry)
  else
    match PortedXe.encodePpgtt address pat 0 false 46 entry writable with
    | Some (result, entry) => (if decide (result = PortedXe.Ok) then Ok else Invalid, entry)
    | None => (Invalid, entry)
    end.

Definition encodeSystemPde (address pat entry : Z) : Status * Z :=
  if negb (dmaPage address) || (3 <? pat) then (Invalid, entry)
  else
    match PortedXe.encodePde address pat 46 entry with
    | Some (result, entry) => (if decide (result = PortedXe.Ok) then Ok else Invalid, entry)
    | None => (Invalid, entry)
    end.

(** [None] is [Invalid], otherwise the four indices, lowest level first. *)
Definition pageTableIndices (address : Z) : option (list Z) :=
  if VaLimit <=? address then None
  else Some ((fun level => Z.land (Z.shiftr address (12 + 9 * level)) 511) <$> [0; 1; 2; 3]).

(** * Lemmas *)

Lemma span_spec a n l :
  0 <= a -> 0 <= n -> 0 <= l < 2 ^ 64 -> span a n l = true <-> 0 < n /\ a + n <= l.
Proof.
  intros Ha Hn Hl. unfold span. rewrite !andb_true_iff, negb_true_iff, Z.eqb_neq, Z.ltb_lt, Z.leb_le.
  split.
  - intros [[? ?] Hle]. rewrite sub64_small in Hle by lia. lia.
  - intros [? ?]. rewrite sub64_small by lia. lia.
Qed.

Lemma page_mask_mod a : test a (PageSize - 1) = negb (a mod 4096 =? 0).
Proof.
  unfold test, PageSize. change (4096 - 1) with (2 ^ 12 - 1).
  by rewrite land_ones_low by lia.
Qed.

Lemma dmaPage_spec a :
  0 <= a -> dmaPage a = true <-> a mod 4096 = 0 /\ a < 2 ^ 46.
Proof.
  intros Ha. unfold dmaPage. rewrite andb_true_iff, page_mask_mod, negb_involutive, Z.eqb_eq.
  rewrite span_spec by (unfold PageSize, DmaLimit; rewrite ?Z.shiftl_1_l; lia).
  unfold PageSize, DmaLimit. rewrite Z.shiftl_1_l.
  split; intros [Hm H]; (split; [done|]); [lia|split; [lia|]].
  apply Z.mod_divide in Hm as [k ->]; [|lia]. change (2 ^ 46) with (17179869184 * 4096) in *. lia.
Qed.

(** The entries the encoders make. *)
Definition sys_pde (address pat : Z) : Z :=
  address ||| XE_PAGE_PRESENT ||| XE_PAGE_RW ||| PortedXe.pde_encode_pat_index pat.
Definition sys_pte (address pat : Z) (writable : bool) : Z :=
  let pte := address ||| (XE_PAGE_PRESENT ||| XE_PAGE_RW) |||
             PortedXe.pte_encode_pat_index pat 0 ||| 0 ||| 0 in
  if negb writable then Z.ldiff pte XE_PAGE_RW else pte.

Lemma validAddress_page a : 0 <= a -> dmaPage a = true -> PortedXe.validAddress a 46 12 = true.
Proof.
  intros Ha [Hm Hl]%dmaPage_spec; [|done]. apply PortedXe.validAddress_spec; [lia..|].
  split; [lia|]. by split; [|unfold word].
Qed.

Lemma encode_never_traps a pat e wr :
  0 <= a -> dmaPage a = true -> 0 <= pat <= 15 ->
  PortedXe.encodePpgtt a pat 0 false 46 e wr = Some (PortedXe.Ok, sys_pte a pat wr) /\
  (pat <= 3 -> PortedXe.encodePde a pat 46 e = Some (PortedXe.Ok, sys_pde a pat)).
Proof.
  intros Ha Hd Hp. apply validAddress_page in Hd; [|done]. split.
  - unfold PortedXe.encodePpgtt. simpl. change (12 + 9 * 0) with 12. rewrite Hd. simpl.
    rewrite (proj2 (Z.ltb_ge 15 pat)) by lia. done.
  - intros Hp3. unfold PortedXe.encodePde. rewrite Hd. simpl.
    by rewrite (proj2 (Z.ltb_ge 3 pat)) by lia.
Qed.

Lemma encodeSystemPte4K_spec a pat wr e :
  0 <= a -> 0 <= pat ->
  encodeSystemPte4K a pat wr e =
    if dmaPage a && (pat <=? 15) then (Ok, sys_pte a pat wr) else (Invalid, e).
Proof.
  intros Ha Hp. unfold encodeSystemPte4K. destruct (dmaPage a) eqn:Hd; [|done]. cbn [negb orb andb].
  rewrite (Z.ltb_antisym pat 15). destruct (Z.leb_spec pat 15); [|done]. cbn [negb].
  destruct (encode_never_traps a pat e wr) as [-> _]; [done..|].
  by rewrite decide_True.
Qed.

Lemma encodeSystemPde_spec a pat e :
  0 <= a -> 0 <= pat ->
  encodeSystemPde a pat e = if dmaPage a && (pat <=? 3) then (Ok, sys_pde a pat) else (Invalid, e).
Proof.
  intros Ha Hp. unfold encodeSystemPde. destruct (dmaPage a) eqn:Hd; [|done]. cbn [negb orb andb].
  rewrite (Z.ltb_antisym pat 3). destruct (Z.leb_spec pat 3); [|done]. cbn [negb].
  rewrite (proj2 (encode_never_traps a pat e true Ha Hd ltac:(lia))) by done.
  by rewrite decide_True.
Qed.

(** ** The fields of an entry *)

Definition AddressMask : Z := Z.ldiff (DmaLimit - 1) (PageSize - 1).

Lemma testbit_AddressMask i : 0 <= i -> Z.testbit AddressMask i = (12 <=? i) && (i <? 46).
Proof.
  intros Hi. unfold AddressMask, DmaLimit, PageSize. rewrite Z.ldiff_spec, Z.shiftl_1_l.
  change (4096 - 1) with (Z.pred (2 ^ 12)). replace (2 ^ 46 - 1) with (Z.pred (2 ^ 46)) by lia.
  rewrite <- !Z.ones_equiv.
  destruct (Z.leb_spec 12 i), (Z.ltb_spec i 46);
    rewrite ?(Z.ones_spec_low 46), ?(Z.ones_spec_low 12), ?(Z.ones_spec_high 12),
      ?(Z.ones_spec_high 46) by lia; done.
Qed.

Lemma page_bits a i :
  0 <= a -> dmaPage a = true -> 0 <= i -> ~ 12 <= i < 46 -> Z.testbit a i = false.
Proof.
  intros Ha [Hm Hl]%dmaPage_spec Hi Hn; [|done]. destruct (Z.lt_ge_cases i 12).
  - by apply (testbit_aligned 12).
  - apply (testbit_above 46); [by split|lia].
Qed.

Lemma sys_pde_bits a pat i :
  0 <= i -> Z.testbit (sys_pde a pat) i =
    Z.testbit a i || (i =? 0) || (i =? 1) || (test pat (BIT 0) && (i =? 3)) ||
    (test pat (BIT 1) && (i =? 4)).
Proof.
  intros Hi. unfold sys_pde, PortedXe.pde_encode_pat_index. unfold_pte_bits.
  destruct (test pat (BIT 0)), (test pat (BIT 1)); autorewrite with bits;
    destruct (Z.testbit a i), (i =? 0), (i =? 1), (i =? 3), (i =? 4); done.
Qed.

Lemma sys_pte_bits a pat wr i :
  0 <= i -> Z.testbit (sys_pte a pat wr) i =
    (Z.testbit a i || (i =? 0) || (i =? 1) || (test pat (BIT 0) && (i =? 3)) ||
     (test pat (BIT 1) && (i =? 4)) || (test pat (BIT 2) && (i =? 7)) ||
     (test pat (BIT 3) && (i =? 62)) || (test pat (BIT 4) && (i =? 61))) &&
    (wr || negb (i =? 1)).
Proof.
  intros Hi. unfold sys_pte, PortedXe.pte_encode_pat_index. cbn [Z.eqb negb]. unfold_pte_bits.
  destruct wr, (test pat (BIT 0)), (test pat (BIT 1)), (test pat (BIT 2)), (test pat (BIT 3)),
    (test pat (BIT 4)); cbn [negb]; autorewrite with bits;
    destruct (Z.testbit a i), (i =? 0), (i =? 1), (i =? 3), (i =? 4), (i =? 7), (i =? 61),
      (i =? 62); done.
Qed.

Lemma sys_pde_addr a pat :
  0 <= a -> dmaPage a = true -> Z.land (sys_pde a pat) AddressMask = a.
Proof.
  intros Ha Hd. apply Z.bits_inj'. intros i Hi.
  rewrite Z.land_spec, sys_pde_bits, testbit_AddressMask by done.
  destruct (decide (12 <= i < 46)) as [Hr|Hr].
  - zcases; try lia. by rewrite ?andb_false_r, ?orb_false_r, ?andb_true_r.
  - rewrite (page_bits a i) by done. zcases; try lia; by rewrite ?andb_false_r.
Qed.

Lemma sys_pde_present a pat : Z.testbit (sys_pde a pat) 0 = true.
Proof. rewrite sys_pde_bits by lia. by rewrite orb_true_r. Qed.

Lemma sys_pde_nonzero a pat : sys_pde a pat <> 0.
Proof. intros E. pose proof (sys_pde_present a pat) as H. rewrite E in H. done. Qed.

Lemma sys_pte_addr a pat wr :
  0 <= a -> dmaPage a = true -> Z.land (sys_pte a pat wr) AddressMask = a.
Proof.
  intros Ha Hd. apply Z.bits_inj'. intros i Hi.
  rewrite Z.land_spec, sys_pte_bits, testbit_AddressMask by done.
  destruct (decide (12 <= i < 46)) as [Hr|Hr].
  - zcases; try lia. by rewrite ?andb_false_r, ?orb_false_r, ?orb_true_r, ?andb_true_r.
  - rewrite (page_bits a i) by done. zcases; try lia; by rewrite ?andb_false_r.
Qed.

Lemma sys_pte_present a pat wr : Z.testbit (sys_pte a pat wr) 0 = true.
Proof. rewrite sys_pte_bits by lia. by rewrite ?orb_true_r. Qed.

Lemma sys_pte_writable a pat wr :
  0 <= a -> dmaPage a = true -> Z.testbit (sys_pte a pat wr) 1 = wr.
Proof.
  intros Ha Hd. rewrite sys_pte_bits by lia. rewrite (page_bits a 1) by (done || lia).
  destruct wr; by rewrite ?andb_false_r, ?orb_true_r.
Qed.

Lemma pageTableIndices_spec a :
  0 <= a -> pageTableIndices a =
    if a <? 2 ^ 48 then Some [a / 4096 mod 512; a / 4096 / 512 mod 512;
                              a / 4096 / 512 / 512 mod 512; a / 4096 / 512 / 512 / 512 mod 512]
    else None.
Proof.
  intros Ha. unfold pageTableIndices, VaLimit. rewrite Z.shiftl_1_l, Z.ltb_antisym.
  destruct (2 ^ 48 <=? a); [done|]. cbn [negb fmap list_fmap].
  change 511 with (2 ^ 9 - 1). rewrite !land_ones_low, !Z.shiftr_div_pow2 by lia.
  rewrite !Z.div_div by lia. done.
Qed.
End XeMemory.
