(* ===== verification/XePageTable.v ===== *)
(** The builder of four-level page tables, [Mellow/XePageTable.{hpp,cpp}]: class [PageTable]
    maps and unmaps 4 KiB pages in a pool of table pages until it is sealed.

    The table pages are words of one CPU memory, addressed through the pointers of the pool,
    so that two pages that overlap would really share words. *)
From stdpp Require Import base numbers list.
From S2P Require Import Prelude.
From S2P Require Import XeMemory.
Import XeMemory.

Module PageTable.

(** * Data *)

(** [words] is the address of the page's 512 words; 0 is the null pointer. *)
Record TablePage := { dma : Z; words : Z }.

Record Node := { used : bool; level : nat }.
Record Edge := { parent : nat; child_ : nat; index : Z }.

Definition MaxPages : nat := 128.

Definition no_page : TablePage := {| dma := 0; words := 0 |}.
Definition no_node : Node := {| used := false; level := 0 |}.

(** [pool_] is [None] while the pointer is null; the array has [count_] elements. *)
Record PageTable := {
  pool_ : option (list TablePage);
  nodes_ : list Node;
  count_ : nat;
  mappings_ : Z;
  owner_ : Z;
  tablePat_ : Z;
  sealed_ : bool;
}.

Definition new_PageTable : PageTable := {|
  pool_ := None; nodes_ := replicate MaxPages no_node; count_ := 0; mappings_ := 0; owner_ := 0;
  tablePat_ := 0; sealed_ := false |}.

(** The object and the CPU memory, by the address of each 64-bit word. *)
Record machine := { pt : PageTable; mem : Z -> Z }.

Definition set_nodes (v : list Node) (t : PageTable) : PageTable :=
  {| pool_ := pool_ t; nodes_ := v; count_ := count_ t; mappings_ := mappings_ t;
     owner_ := owner_ t; tablePat_ := tablePat_ t; sealed_ := sealed_ t |}.
Definition set_mappings (v : Z) (t : PageTable) : PageTable :=
  {| pool_ := pool_ t; nodes_ := nodes_ t; count_ := count_ t; mappings_ := v;
     owner_ := owner_ t; tablePat_ := tablePat_ t; sealed_ := sealed_ t |}.
Definition set_sealed (v : bool) (t : PageTable) : PageTable :=
  {| pool_ := pool_ t; nodes_ := nodes_ t; count_ := count_ t; mappings_ := mappings_ t;
     owner_ := owner_ t; tablePat_ := tablePat_ t; sealed_ := v |}.

Definition upd_pt (f : PageTable -> PageTable) : ST machine unit :=
  modify (fun s => {| pt := f (pt s); mem := mem s |}).

(** ** Accesses *)

Definition pool_at (t : PageTable) (i : nat) : TablePage := default no_page (default [] (pool_ t) !! i).
Definition node_at (t : PageTable) (i : nat) : Node := default no_node (nodes_ t !! i).
Definition set_node (i : nat) (n : Node) : ST machine unit :=
  upd_pt (fun t => set_nodes (<[i := n]> (nodes_ t)) t).

Definition word_address (p : TablePage) (i : Z) : Z := words p + 8 * i.
(** [pool_[p].words[i]] *)
Definition get_word (s : machine) (p : nat) (i : Z) : Z := mem s (word_address (pool_at (pt s) p) i).
Definition set_word (p : nat) (i v : Z) : ST machine unit :=
  modify (fun s => {| pt := pt s;
    mem := fun a => if a =? word_address (pool_at (pt s) p) i then v else mem s a |}).

(** * Operations *)

Definition clear (p : nat) : ST machine unit := for_each (seqZ 0 512) (fun i => set_word p i 0).

Definition findDma (t : PageTable) (d : Z) : nat :=
  match list_find (fun p => dma p = d) (take (count_ t) (default [] (pool_ t))) with
  | Some (i, _) => i
  | None => MaxPages
  end.

Definition allocate (l : nat) : ST machine nat :=
  t <-- gets pt ;;
  match list_find (fun n => used n = false) (take (count_ t) (nodes_ t)) with
  | Some (i, _) => clear i ;;; set_node i {| used := true; level := l |} ;;; ret i
  | None => ret MaxPages
  end.

(** The checks of [initialize] on the pool, page [p] against the pages before it. *)
Definition check_page (pat : Z) (before : list TablePage) (p : TablePage) : bool :=
  let cpu := words p in
  negb ((cpu =? 0) || test cpu 7 || (U64_MAX - (PageSize - 1) <? cpu) ||
        bool_decide ((encodeSystemPde (dma p) pat 0).1 <> Ok)) &&
  forallb (fun q =>
    let other := words q in
    negb ((dma p =? dma q) ||
          (if cpu <=? other then other - cpu <? PageSize else cpu - other <? PageSize))) before.

Fixpoint check_pool (pat : Z) (before rest : list TablePage) : bool :=
  match rest with
  | [] => true
  | p :: rest => check_page pat before p && check_pool pat (before ++ [p]) rest
  end.

Definition initialize (owner : Z) (pool : option (list TablePage)) (pat : Z) : ST machine Status :=
  t <-- gets pt ;;
  match pool_ t with
  | Some _ => ret Busy
  | None =>
      match pool with
      | None => ret Invalid
      | Some pool =>
          let count := length pool in
          if (owner =? 0) || (count =? 0)%nat || (MaxPages <? count)%nat || (3 <? pat) then ret Invalid
          else if negb (check_pool pat [] pool) then ret Invalid
          else
            upd_pt (fun t => {| pool_ := Some pool; nodes_ := nodes_ t; count_ := count;
              mappings_ := mappings_ t; owner_ := owner; tablePat_ := pat; sealed_ := sealed_ t |}) ;;;
            allocate 3 ;;; ret Ok
      end
  end.

(** The out parameter is set only with [Ok]. *)
Definition child (s : machine) (parent : nat) (index : Z) : Status * nat :=
  let t := pt s in
  let entry := get_word s parent index in
  if entry =? 0 then (NotFound, 0%nat)
  else
    let candidate := findDma t (Z.land entry AddressMask) in
    if (candidate =? MaxPages)%nat || negb (used (node_at t candidate)) ||
       (level (node_at t parent) =? 0)%nat ||
       negb (level (node_at t candidate) + 1 =? level (node_at t parent))%nat then (Invalid, 0%nat)
    else
      let '(r, expected) := encodeSystemPde (dma (pool_at t candidate)) (tablePat_ t) 0 in
      if bool_decide (r <> Ok) || negb (expected =? entry) then (Invalid, 0%nat)
      else (Ok, candidate).

(** [edges] holds the last edge first. *)
Definition rollback (edges : list Edge) : ST machine unit :=
  for_each edges (fun edge =>
    set_word (parent edge) (index edge) 0 ;;;
    clear (child_ edge) ;;;
    set_node (child_ edge) no_node).

(** The loop of [map4K] over the levels: the node of level 0, or the status with which the
    function returns after the rollback. *)
Fixpoint map_levels (indices : list Z) (l node : nat) (edits : list Edge)
    : ST machine (Status * nat * list Edge) :=
  match l with
  | O => ret (Ok, node, edits)
  | S l' =>
      s <-- gets id ;;
      match child s node (indices !!! l) with
      | (NotFound, _) =>
          next <-- allocate l' ;;
          if (next =? MaxPages)%nat then rollback edits ;;; ret (NoSpace, node, edits)
          else
            t <-- gets pt ;;
            match encodeSystemPde (dma (pool_at t next)) (tablePat_ t) 0 with
            | (Ok, entry) =>
                set_word node (indices !!! l) entry ;;;
                map_levels indices l' next
                  ({| parent := node; child_ := next; index := indices !!! l |} :: edits)
            | (status, _) =>
                set_node next no_node ;;; rollback edits ;;; ret (status, node, edits)
            end
      | (Ok, next) => map_levels indices l' next edits
      | (status, _) => rollback edits ;;; ret (status, node, edits)
      end
  end.

Definition map4K (owner va data pat : Z) (writable : bool) : ST machine Status :=
  t <-- gets pt ;;
  if bool_decide (pool_ t = None) || test va (PageSize - 1) then ret Invalid
  else if negb (owner =? owner_ t) then ret WrongOwner
  else if sealed_ t then ret Busy
  else
    match pageTableIndices va, encodeSystemPte4K data pat writable 0 with
    | Some indices, (Ok, pte) =>
        if negb (findDma t data =? MaxPages)%nat then ret Invalid
        else
          r <-- map_levels indices 3 0 [] ;;
          match r with
          | (Ok, node, edits) =>
              s <-- gets id ;;
              if negb (get_word s node (indices !!! 0%nat) =? 0) then rollback edits ;;; ret Busy
              else
                set_word node (indices !!! 0%nat) pte ;;;
                upd_pt (fun t => set_mappings (mappings_ t +64 1) t) ;;; ret Ok
          | (status, _, _) => ret status
          end
    | _, _ => ret Invalid
    end.

(** The loop of [lookup] over the levels. *)
Fixpoint descend (s : machine) (indices : list Z) (l node : nat) : Status * nat :=
  match l with
  | O => (Ok, node)
  | S l' =>
      match child s node (indices !!! l) with
      | (Ok, next) => descend s indices l' next
      | (status, _) => (status, node)
      end
  end.

(** [pte] is passed in and returned. *)
Definition lookup (s : machine) (owner va pte : Z) : Status * Z :=
  let t := pt s in
  if bool_decide (pool_ t = None) || test va (PageSize - 1) then (Invalid, pte)
  else if negb (owner =? owner_ t) then (WrongOwner, pte)
  else
    match pageTableIndices va with
    | None => (Invalid, pte)
    | Some indices =>
        match descend s indices 3 0 with
        | (Ok, node) =>
            let entry := get_word s node (indices !!! 0%nat) in
            if entry =? 0 then (NotFound, pte)
            else if negb (test entry 1) then (Invalid, pte)
            else (Ok, entry)
        | (status, _) => (status, pte)
        end
    end.

(** The loop of [unmap4K] that fills [path], the node of the lowest level first. *)
Fixpoint walk_path (s : machine) (indices : list Z) (l : nat) (path : list nat) : Status * list nat :=
  match l with
  | O => (Ok, path)
  | S l' =>
      match child s (default 0%nat (head path)) (indices !!! l) with
      | (Ok, next) => walk_path s indices l' (next :: path)
      | (status, _) => (status, path)
      end
  end.

Definition page_empty (s : machine) (p : nat) : bool :=
  forallb (fun i => get_word s p i =? 0) (seqZ 0 512).

(** The loop of [unmap4K] that frees empty tables, from the levels [ls]. *)
Fixpoint free_levels (indices : list Z) (path : list nat) (ls : list nat) : ST machine unit :=
  match ls with
  | [] => ret tt
  | l :: ls =>
      s <-- gets id ;;
      if negb (page_empty s (path !!! l)) then ret tt
      else
        set_word (path !!! S l) (indices !!! S l) 0 ;;;
        set_node (path !!! l) no_node ;;;
        free_levels indices path ls
  end.

Definition unmap4K (owner va : Z) : ST machine Status :=
  s <-- gets id ;;
  if sealed_ (pt s) then ret Busy
  else
    match lookup s owner va 0 with
    | (Ok, _) =>
        let indices := default [0; 0; 0; 0] (pageTableIndices va) in
        match walk_path s indices 3 [0%nat] with
        | (Ok, path) =>
            set_word (path !!! 0%nat) (indices !!! 0%nat) 0 ;;;
            upd_pt (fun t => set_mappings (mappings_ t -64 1) t) ;;;
            free_levels indices path [0; 1; 2]%nat ;;; ret Ok
        | (status, _) => ret status
        end
    | (status, _) => ret status
    end.

(** [root] is passed in and returned. *)
Definition seal (owner root : Z) : ST machine (Status * Z) :=
  t <-- gets pt ;;
  match pool_ t with
  | None => ret (Invalid, root)
  | Some _ =>
      if negb (owner =? owner_ t) then ret (WrongOwner, root)
      else upd_pt (set_sealed true) ;;; ret (Ok, dma (pool_at t 0))
  end.

Definition usedPages (t : PageTable) : nat :=
  length (filter (fun n => used n = true) (take (count_ t) (nodes_ t))).
Definition mappedPages (t : PageTable) : Z := mappings_ t.
Definition sealed (t : PageTable) : bool := sealed_ t.
End PageTable.
