(* ===== verification/XePageTableRep.v ===== *)
(** What the page tables of [XePageTable] represent: a directory of the tables in use and the
    mapped pages, and how the changes of a table page change them. *)
From stdpp Require Import base numbers list gmap.
From S2P Require Import Prelude.
From S2P Require Import StateWp.
From S2P Require Import XeMemory.
From S2P Require Import XePageTable.
Import XeMemory PageTable.

(** * Keys

    Page [v] is the 4 KiB page at address [4096 * v].  [key l v] numbers the aligned groups of
    [512 ^ l] pages; the table of level [l] that leads to page [v] serves group [key (S l) v],
    at index [key l v mod 512]. *)

Fixpoint key (l : nat) (v : Z) : Z :=
  match l with O => v | S l => key l v / 512 end.

Lemma key_nonneg l v : 0 <= v -> 0 <= key l v.
Proof. induction l; cbn [key]; [done|]. intros. apply Z.div_pos; auto; lia. Qed.

Lemma key_top v : 0 <= v < 2 ^ 36 -> key 4 v = 0.
Proof.
  intros H. cbn [key]. rewrite !Z.div_div by lia. apply Z.div_small.
  change (512 * (512 * (512 * 512))) with (2 ^ 36). done.
Qed.

Lemma div512 y i : 0 <= i < 512 -> (512 * y + i) / 512 = y.
Proof. intros. rewrite (Z.mul_comm 512), Z.div_add_l by lia. rewrite Z.div_small; lia. Qed.

Lemma mod512 y i : 0 <= i < 512 -> (512 * y + i) mod 512 = i.
Proof. intros. rewrite Z.add_comm, (Z.mul_comm 512), Z_mod_plus_full. by apply Z.mod_small. Qed.

Lemma split512 y : y = 512 * (y / 512) + y mod 512.
Proof. apply Z.div_mod. lia. Qed.

Lemma mod512_range y : 0 <= y mod 512 < 512.
Proof. apply Z.mod_pos_bound. lia. Qed.

(** A table is named by its level and its group. *)
Notation table := (nat * Z)%type.

Section Rep.
Context (pool : list TablePage) (pat : Z).

Definition page (p : nat) : TablePage := default no_page (pool !! p).
Definition pde (p : nat) : Z := sys_pde (dma (page p)) pat.

(** What [initialize] requires of the pool. *)
Record wf_pool : Prop := {
  wp_count : (0 < length pool <= MaxPages)%nat;
  wp_pat : 0 <= pat <= 3;
  wp_dma : forall p, (p < length pool)%nat -> 0 <= dma (page p) /\ dmaPage (dma (page p)) = true;
  wp_dma_inj : forall p q, (p < length pool)%nat -> (q < length pool)%nat ->
    dma (page p) = dma (page q) -> p = q;
  wp_words : forall p, (p < length pool)%nat ->
    0 < words (page p) /\ words (page p) mod 8 = 0 /\ words (page p) + PageSize <= 2 ^ 64;
  wp_apart : forall p q, (p < length pool)%nat -> (q < length pool)%nat -> p <> q ->
    words (page p) + PageSize <= words (page q) \/ words (page q) + PageSize <= words (page p);
}.

(** The parts of the object that no operation changes after [initialize]. *)
Record static (s : machine) : Prop := {
  st_pool : pool_ (pt s) = Some pool;
  st_count : count_ (pt s) = length pool;
  st_pat : tablePat_ (pt s) = pat;
  st_nodes : length (nodes_ (pt s)) = MaxPages;
}.

(** * Representation *)

Definition has (D : gmap table nat) (m : gmap Z Z) (l : nat) (y : Z) : Prop :=
  match l with O => is_Some (m !! y) | S l => is_Some (D !! (l, y)) end.

(** The word of a table of level [l] for group [y]. *)
Definition entry_word (D : gmap table nat) (m : gmap Z Z) (l : nat) (y : Z) : Z :=
  match l with
  | O => default 0 (m !! y)
  | S l => match D !! (l, y) with Some q => pde q | None => 0 end
  end.

Record rep (N : list Node) (W : nat -> Z -> Z) (D : gmap table nat) (m : gmap Z Z) : Prop := {
  r_used : forall p n, N !! p = Some n -> (p < length pool)%nat -> used n = true ->
    exists k, D !! k = Some p;
  r_node : forall l x p, D !! (l, x) = Some p ->
    (p < length pool)%nat /\ N !! p = Some {| used := true; level := l |};
  r_inj : forall k1 k2 p, D !! k1 = Some p -> D !! k2 = Some p -> k1 = k2;
  r_root : D !! (3%nat, 0) = Some 0%nat;
  r_range : forall l x p, D !! (l, x) = Some p -> (l <= 3)%nat /\ 0 <= x /\ (l = 3%nat -> x = 0);
  r_word : forall l x p i, D !! (l, x) = Some p -> 0 <= i < 512 ->
    W p i = entry_word D m l (512 * x + i);
  r_parent : forall l x p, D !! (l, x) = Some p -> (l < 3)%nat -> is_Some (D !! (S l, x / 512));
  r_leaf : forall y e, m !! y = Some e ->
    is_Some (D !! (0%nat, y / 512)) /\ 0 <= y /\ Z.testbit e 0 = true;
}.

#[local] Arguments r_used {N W D m}.
#[local] Arguments r_node {N W D m}.
#[local] Arguments r_inj {N W D m}.
#[local] Arguments r_root {N W D m}.
#[local] Arguments r_range {N W D m}.
#[local] Arguments r_word {N W D m}.
#[local] Arguments r_parent {N W D m}.
#[local] Arguments r_leaf {N W D m}.

(** Every table but the root leads to a page. *)
Definition full (D : gmap table nat) (m : gmap Z Z) : Prop :=
  forall l x p, D !! (l, x) = Some p -> (l < 3)%nat ->
    exists i, 0 <= i < 512 /\ has D m l (512 * x + i).

Definition childless (D : gmap table nat) (m : gmap Z Z) (l : nat) (x : Z) : Prop :=
  forall i, 0 <= i < 512 -> ~ has D m l (512 * x + i).

Lemma pde_nonzero p : pde p <> 0.
Proof. apply sys_pde_nonzero. Qed.

Lemma rep_words_ext N W W' D m :
  rep N W D m -> (forall p i, (p < length pool)%nat -> 0 <= i < 512 -> W' p i = W p i) -> rep N W' D m.
Proof.
  intros [] HW. split; try done. intros l x p i HD Hi. rewrite HW; [|by eapply r_node0|done].
  by apply r_word0.
Qed.

Section Changes.
Context (N : list Node) (W : nat -> Z -> Z) (D : gmap table nat) (m : gmap Z Z).
Context (R : rep N W D m).

Lemma leaf_nonzero y e : m !! y = Some e -> e <> 0.
Proof. intros (_ & _ & H)%(r_leaf R) ->. done. Qed.

Lemma entry_has l y : entry_word D m l y = 0 <-> ~ has D m l y.
Proof.
  unfold entry_word, has. destruct l as [|l].
  - destruct (m !! y) as [e|] eqn:E; cbn; [|by split; [intros _ [? ?]|]].
    apply leaf_nonzero in E. split; [done|]. intros H. by destruct H.
  - destruct (D !! (l, y)) as [q|]; [|by split; [intros _ [? ?]|]].
    split; [intros ?%pde_nonzero; done|]. intros H. by destruct H.
Qed.

Lemma node_of l x p : D !! (l, x) = Some p -> N !! p = Some {| used := true; level := l |}.
Proof. apply R. Qed.

(** A table that is not in use has no tables and no pages below it. *)
Lemma absent_childless l x : (l < 3)%nat -> D !! (l, x) = None -> childless D m l x.
Proof.
  intros Hl HD i Hi H. destruct l as [|l]; cbn in H.
  - destruct H as [e ([q Hq] & _)%(r_leaf R)]. rewrite div512 in Hq by done. congruence.
  - destruct H as [q Hq]. eapply (r_parent R) in Hq as [? Hq]; [|lia].
    rewrite div512 in Hq by done. congruence.
Qed.

(** ** A new table below a table in use *)

Lemma rep_alloc W' l y p n nd :
  (p < length pool)%nat -> N !! p = Some nd -> used nd = false ->
  D !! (l, y) = None -> D !! (S l, y / 512) = Some n -> 0 <= y ->
  (forall i, 0 <= i < 512 -> W' p i = 0) ->
  W' n (y mod 512) = pde p ->
  (forall q i, q <> p -> ~ (q = n /\ i = y mod 512) -> W' q i = W q i) ->
  rep (<[p := {| used := true; level := l |}]> N) W' (<[(l, y) := p]> D) m.
Proof.
  intros Hp HN Hnd HD Hn Hy Wp Wn Wo.
  assert (Hfree : forall k, D !! k <> Some p).
  { intros [l' x'] Hk. apply node_of in Hk. rewrite HN in Hk. by simplify_eq. }
  pose proof (proj1 (r_range R _ _ _ Hn)) as Hl.
  assert (Hk : forall k q, <[(l, y):=p]> D !! k = Some q ->
    (k = (l, y) /\ q = p) \/ (k <> (l, y) /\ D !! k = Some q /\ q <> p)).
  { intros k q [[<- ->]|[? ?]]%lookup_insert_Some; [by left|right]. split_and!; [done..|].
    intros ->. by eapply Hfree. }
  split.
  - intros q nq [(<- & <- & _)|[? Hq]]%list_lookup_insert_Some Hlen Hu.
    + exists (l, y). by rewrite lookup_insert_eq.
    + destruct (r_used R _ _ Hq Hlen Hu) as [k ?]. exists k.
      rewrite lookup_insert_ne; [done|]. intros <-. congruence.
  - intros l' x q [[[= -> ->] ->]|(? & Hq & ?)]%Hk.
    + split; [done|]. apply list_lookup_insert_eq. by eapply lookup_lt_Some.
    + apply (r_node R) in Hq as [? ?]. split; [done|]. by rewrite list_lookup_insert_ne.
  - intros k1 k2 q [[-> ->]|(? & H1 & ?)]%Hk [[-> ?]|(? & H2 & ?)]%Hk; try done.
    by eapply R.
  - rewrite lookup_insert_ne; [apply R|]. intros [= -> ->]. lia.
  - intros l' x q [[[= -> ->] ->]|(? & Hq & ?)]%Hk; [|exact (r_range R _ _ _ Hq)]. split_and!; lia.
  - intros l' x q i [[[= -> ->] ->]|(? & Hq & ?)]%Hk Hi.
    + rewrite Wp by done. symmetry. pose proof (absent_childless l y ltac:(lia) HD i Hi) as Hc.
      apply entry_has in Hc. destruct l as [|l]; [done|]. cbn in *. rewrite lookup_insert_ne; [done|].
      intros [=]. lia.
    + destruct (decide (q = n /\ i = y mod 512)) as [[-> ->]|Hne].
      * assert ((S l, y / 512) = (l', x)) as [= <- <-] by (by eapply R).
        rewrite <- split512. cbn. by rewrite lookup_insert_eq.
      * rewrite Wo by done. rewrite (r_word R _ _ _ _ Hq Hi).
        destruct l' as [|l']; [done|]. cbn. rewrite lookup_insert_ne; [done|].
        intros [= -> E]. apply Hne. rewrite E in Hn. rewrite div512 in Hn by done.
        split; [|by rewrite E, mod512]. congruence.
  - intros l' x q [[[= -> ->] ->]|(? & Hq & ?)]%Hk Hl'.
    + rewrite lookup_insert_ne; [by eexists|]. intros [=]. lia.
    + apply (r_parent R) in Hq as [q' Hq']; [|done]. destruct (decide ((l, y) = (S l', x / 512))) as [<-|];
        [rewrite lookup_insert_eq|rewrite lookup_insert_ne by done]; by eexists.
  - intros y' e ([q Hq] & ? & ?)%(r_leaf R). split; [|done].
    destruct (decide ((l, y) = (0%nat, y' / 512))) as [->|];
      [rewrite lookup_insert_eq|rewrite lookup_insert_ne by done]; by eexists.
Qed.
(** ** Freeing a table with nothing below it *)

Lemma rep_free W' l y p n :
  (l < 3)%nat -> D !! (l, y) = Some p -> D !! (S l, y / 512) = Some n -> childless D m l y ->
  W' n (y mod 512) = 0 ->
  (forall q i, q <> p -> ~ (q = n /\ i = y mod 512) -> W' q i = W q i) ->
  rep (<[p := no_node]> N) W' (delete (l, y) D) m.
Proof.
  intros Hl Hp Hn Hc Wn Wo.
  assert (Hk : forall k q, delete (l, y) D !! k = Some q -> k <> (l, y) /\ D !! k = Some q /\ q <> p).
  { intros k q [? Hq]%lookup_delete_Some. split_and!; [done..|]. intros ->.
    by pose proof (r_inj R _ _ _ Hp Hq). }
  split.
  - intros q nq [(<- & <- & _)|[? Hq]]%list_lookup_insert_Some Hlen Hu; [done|].
    destruct (r_used R _ _ Hq Hlen Hu) as [k ?]. exists k. rewrite lookup_delete_ne; [done|].
    intros <-. congruence.
  - intros l' x q (? & [? ?]%(r_node R) & ?)%Hk. split; [done|]. by rewrite list_lookup_insert_ne.
  - intros k1 k2 q (_ & H1 & _)%Hk (_ & H2 & _)%Hk. by eapply (r_inj R).
  - rewrite lookup_delete_ne; [apply (r_root R)|]. intros [= -> ->]. lia.
  - intros l' x q (_ & Hq & _)%Hk. exact (r_range R _ _ _ Hq).
  - intros l' x q i (? & Hq & ?)%Hk Hi.
    destruct (decide (q = n /\ i = y mod 512)) as [[-> ->]|Hne].
    + assert ((S l, y / 512) = (l', x)) as [= <- <-] by (by eapply (r_inj R)).
      rewrite <- split512, Wn. cbn. by rewrite lookup_delete_eq.
    + rewrite Wo by done. rewrite (r_word R _ _ _ _ Hq Hi). destruct l' as [|l']; [done|]. cbn.
      rewrite lookup_delete_ne; [done|]. intros [= -> E]. apply Hne.
      rewrite E, div512 in Hn by done. split; [|by rewrite E, mod512]. congruence.
  - intros l' x q (? & Hq & ?)%Hk Hl'. pose proof (r_parent R _ _ _ Hq Hl') as [q' Hq'].
    rewrite lookup_delete_ne; [by eexists|]. intros [= -> ->].
    eapply (Hc (x mod 512)); [apply mod512_range|]. rewrite <- split512. cbn. by eexists.
  - intros y' e He. pose proof (r_leaf R _ _ He) as ([q Hq] & ? & ?). split; [|done].
    rewrite lookup_delete_ne; [by eexists|]. intros [= -> ->].
    eapply (Hc (y' mod 512)); [apply mod512_range|]. rewrite <- split512. cbn. by eexists.
Qed.

(** ** Changing a leaf *)

Lemma rep_leaf W' m' y p :
  D !! (0%nat, y / 512) = Some p ->
  (forall y', y' <> y -> m' !! y' = m !! y') ->
  (forall e, m' !! y = Some e -> 0 <= y /\ Z.testbit e 0 = true) ->
  W' p (y mod 512) = default 0 (m' !! y) ->
  (forall q i, ~ (q = p /\ i = y mod 512) -> W' q i = W q i) ->
  rep N W' D m'.
Proof.
  intros Hp Hm He Wp Wo. split; [apply R..| | |].
  - intros l x q i Hq Hi. destruct (decide (q = p /\ i = y mod 512)) as [[-> ->]|Hne].
    + assert ((0%nat, y / 512) = (l, x)) as [= <- <-] by (by eapply (r_inj R)).
      by rewrite <- split512, Wp.
    + rewrite Wo, (r_word R _ _ _ _ Hq Hi) by done. destruct l as [|l]; [|done]. cbn.
      rewrite Hm; [done|]. intros <-. rewrite div512 in Hp by done. apply Hne.
      split; [congruence|by rewrite mod512].
  - apply R.
  - intros y' e H'. destruct (decide (y' = y)) as [->|Hy].
    + split; [by eexists|by apply He].
    + rewrite Hm in H' by done. by apply (r_leaf R).
Qed.
End Changes.
(** * The tables that a set of pages needs *)

Definition path (v : Z) : list table := [(0%nat, key 1 v); (1%nat, key 2 v); (2%nat, key 3 v)].

Definition tables (m : gmap Z Z) : gset table :=
  {[(3%nat, 0)]} ∪ list_to_set ((map_to_list m).*1 ≫= path).

Lemma elem_of_tables m k : k ∈ tables m <-> k = (3%nat, 0) \/ exists v, is_Some (m !! v) /\ k ∈ path v.
Proof.
  unfold tables. rewrite elem_of_union, elem_of_singleton, elem_of_list_to_set, list_elem_of_bind.
  f_equiv. split; intros (v & H1 & H2); exists v.
  - split; [|done]. apply list_elem_of_fmap in H2 as ([? e] & -> & H2%elem_of_map_to_list).
    by eexists.
  - split; [done|]. destruct H1 as [e He]. apply list_elem_of_fmap. exists (v, e).
    by rewrite elem_of_map_to_list.
Qed.

Lemma elem_of_path v l x : (l, x) ∈ path v <-> (l < 3)%nat /\ x = key (S l) v.
Proof.
  unfold path. rewrite !elem_of_cons, elem_of_nil. split.
  - intros [[= -> ->]|[[= -> ->]|[[= -> ->]|[]]]]; (split; [lia|done]).
  - intros [Hl ->]. destruct l as [|[|[|l]]]; [tauto..|lia].
Qed.

Lemma tables_subseteq N W D m : rep N W D m -> tables m ⊆ dom D.
Proof.
  intros R [l x]. rewrite elem_of_tables, elem_of_dom. intros [[= -> ->]|(v & [e He] & Hp)].
  - exists 0%nat. apply R.
  - apply elem_of_path in Hp as [Hl ->]. induction l as [|l IH]; [by apply (r_leaf R) in He as []|].
    destruct IH as [q Hq]; [lia|]. cbn [key]. eapply (r_parent R); [done|lia].
Qed.

Lemma full_tables N W D m : rep N W D m -> full D m -> dom D = tables m.
Proof.
  intros R HF. apply set_eq. intros [l x]. split; [|by apply (tables_subseteq N W D m)].
  rewrite elem_of_tables, elem_of_dom. intros [p Hp].
  destruct (r_range R _ _ _ Hp) as (Hl & _ & H3). destruct (decide (l = 3%nat)) as [->|Hl3].
  { left. by rewrite H3. }
  right. assert (exists v, is_Some (m !! v) /\ x = key (S l) v) as (v & ? & ->);
    [|exists v; rewrite elem_of_path; auto with lia].
  clear H3. revert x p Hp Hl Hl3. induction l as [|l IH]; intros x p Hp Hl Hl3;
    destruct (HF _ _ _ Hp) as (i & Hi & Hh); [lia| |lia|].
  - exists (512 * x + i). split; [done|]. cbn [key]. by rewrite div512.
  - destruct Hh as [q Hq]. apply IH in Hq as (v & ? & E); [|lia..]. exists v. split; [done|].
    cbn [key] in *. by rewrite <- E, div512.
Qed.

(** * Pages in use *)

Lemma filter_fmap_length {A B} (P : B -> Prop) `{forall x, Decision (P x)} (f : A -> B) (l : list A) :
  length (filter P (f <$> l)) = length (filter (fun x => P (f x)) l).
Proof.
  induction l as [|x l IH]; [done|]. cbn [fmap list_fmap]. rewrite !filter_cons.
  destruct (decide (P (f x))); cbn [length]; by rewrite IH.
Qed.

Lemma take_seq (N : list Node) k :
  (k <= length N)%nat -> take k N = (fun p => default no_node (N !! p)) <$> seq 0 k.
Proof.
  intros Hk. apply list_eq. intros i. rewrite list_lookup_fmap.
  destruct (Nat.lt_ge_cases i k).
  - rewrite lookup_take_lt, lookup_seq_lt by done. cbn.
    destruct (N !! i) eqn:E; [done|]. apply lookup_ge_None in E. lia.
  - rewrite lookup_take_ge, lookup_seq_ge by done. done.
Qed.

Lemma used_count N W D m :
  rep N W D m -> (length pool <= length N)%nat ->
  length (filter (fun n => used n = true) (take (length pool) N)) = size D.
Proof.
  intros R HN. rewrite take_seq, filter_fmap_length by done.
  rewrite <- length_map_to_list, <- (length_fmap snd). apply Permutation_length, NoDup_Permutation.
  - apply NoDup_filter, NoDup_seq.
  - apply NoDup_fmap_2_strong; [|apply NoDup_map_to_list].
    intros [k1 p] [k2 q] H1%elem_of_map_to_list H2%elem_of_map_to_list. cbn. intros <-.
    by rewrite (r_inj R _ _ _ H1 H2).
  - intros p. rewrite list_elem_of_filter, elem_of_seq, list_elem_of_fmap. split.
    + intros [Hu Hp]. destruct (N !! p) as [n|] eqn:E; [|done].
      destruct (r_used R _ _ E) as [k ?]; [lia|done|]. exists (k, p).
      by rewrite elem_of_map_to_list.
    + intros ([[l x] q] & -> & [Hq E]%elem_of_map_to_list%(r_node R)). cbn. rewrite E. split; [done|lia].
Qed.

Lemma unused_free N W D m p n k :
  rep N W D m -> N !! p = Some n -> used n = false -> D !! k <> Some p.
Proof. intros R HN Hu Hk. destruct k. apply (r_node R) in Hk as [_ Hk]. by simplify_eq. Qed.

(** * Following an entry *)

Lemma pool_at_page s p : static s -> pool_at (pt s) p = page p.
Proof. intros [Hs _ _ _]. unfold pool_at. by rewrite Hs. Qed.

Lemma find_own s p : wf_pool -> static s -> (p < length pool)%nat -> findDma (pt s) (dma (page p)) = p.
Proof.
  intros WF HS Hp. unfold findDma. rewrite (st_count _ HS), (st_pool _ HS). cbn.
  rewrite take_ge by lia. destruct (lookup_lt_is_Some_2 pool p Hp) as [tp Htp].
  assert (E : dma (page p) = dma tp) by (unfold page; by rewrite Htp).
  destruct (list_find _ pool) as [[i x]|] eqn:F.
  - apply list_find_Some in F as (Hi & Hx & _). apply (wp_dma_inj WF); [by eapply lookup_lt_Some|done|].
    unfold page at 1. by rewrite Hi.
  - apply list_find_None in F. eapply Forall_lookup_1 in F; [|done]. by rewrite E in F.
Qed.

Lemma find_none s d : wf_pool -> static s ->
  (findDma (pt s) d =? MaxPages)%nat = bool_decide (d ∉ dma <$> pool).
Proof.
  intros WF HS. unfold findDma. rewrite (st_count _ HS), (st_pool _ HS). cbn. rewrite take_ge by lia.
  destruct (list_find _ pool) as [[i x]|] eqn:F.
  - apply list_find_Some in F as (Hi & <- & _). rewrite bool_decide_false.
    + apply Nat.eqb_neq. pose proof (wp_count WF). apply lookup_lt_Some in Hi. lia.
    + intros H. apply H, list_elem_of_fmap. exists x. split; [done|]. by eapply list_elem_of_lookup_2.
  - apply list_find_None in F. rewrite bool_decide_true; [done|].
    intros (x & -> & Hx)%list_elem_of_fmap. rewrite Forall_forall in F. by eapply F.
Qed.

Lemma child_spec s D m l x n i :
  wf_pool -> static s -> rep (nodes_ (pt s)) (get_word s) D m -> D !! (S l, x) = Some n -> 0 <= i < 512 ->
  child s n i = match D !! (l, 512 * x + i) with Some q => (Ok, q) | None => (NotFound, 0%nat) end.
Proof.
  intros WF HS R Hn Hi. unfold child. rewrite (r_word R _ _ _ _ Hn Hi). cbn [entry_word].
  destruct (D !! (l, 512 * x + i)) as [q|] eqn:Hq; [|done].
  rewrite (proj2 (Z.eqb_neq _ _)) by apply pde_nonzero.
  destruct (r_node R _ _ _ Hn) as [_ En]. destruct (r_node R _ _ _ Hq) as [Hql Eq].
  destruct (wp_dma WF q Hql) as [Hd Hd']. cbv zeta.
  assert (findDma (pt s) (Z.land (pde q) AddressMask) = q) as ->.
  { unfold pde. rewrite sys_pde_addr by done. by apply find_own. }
  rewrite (proj2 (Nat.eqb_neq _ _)) by (pose proof (wp_count WF); lia).
  unfold node_at. rewrite En, Eq. cbn.
  rewrite Nat.add_1_r, Nat.eqb_refl. cbn [negb orb].
  rewrite pool_at_page, (st_pat _ HS) by done. pose proof (wp_pat WF).
  rewrite encodeSystemPde_spec, Hd', (proj2 (Z.leb_le pat 3)) by lia. cbn [andb].
  unfold pde. by rewrite bool_decide_false, Z.eqb_refl by tauto.
Qed.
End Rep.

Arguments r_used {pool pat N W D m}.
Arguments r_node {pool pat N W D m}.
Arguments r_inj {pool pat N W D m}.
Arguments r_root {pool pat N W D m}.
Arguments r_range {pool pat N W D m}.
Arguments r_word {pool pat N W D m}.
Arguments r_parent {pool pat N W D m}.
Arguments r_leaf {pool pat N W D m}.
Arguments st_pool {pool pat s}.
Arguments st_count {pool pat s}.
Arguments st_pat {pool pat s}.
Arguments st_nodes {pool pat s}.
