(* ===== verification/XePageTableOps.v ===== *)
(** The operations of [XePageTable] on what its tables represent: the loops of [map4K] and
    [unmap4K], and the rollback. *)
From stdpp Require Import base numbers list gmap.
From S2P Require Import Prelude.
From S2P Require Import StateWp.
From S2P Require Import XeMemory.
From S2P Require Import XePageTable.
From S2P Require Import XePageTableRep.
Import XeMemory PageTable.

Section Ops.
Context (pool : list TablePage) (pat : Z) (WF : wf_pool pool pat).
Notation page := (page pool).
Notation pde := (pde pool pat).
Notation static := (static pool pat).
Notation rep := (rep pool pat).
Implicit Types (s : machine) (D : gmap table nat) (m : gmap Z Z).

(** * Words of the pool *)

Definition outside (a : Z) : Prop :=
  forall p, (p < length pool)%nat -> ~ words (page p) <= a < words (page p) + PageSize.

Lemma word_address_inj p q i j :
  (p < length pool)%nat -> (q < length pool)%nat -> 0 <= i < 512 -> 0 <= j < 512 ->
  word_address (page p) i = word_address (page q) j -> p = q /\ i = j.
Proof.
  unfold word_address. intros Hp Hq Hi Hj E. destruct (decide (p = q)) as [->|Hne]; [split; lia|].
  destruct (wp_apart _ _ WF p q) as [?|?]; [done..| |]; unfold PageSize in *; lia.
Qed.

(** [s] is [s0] but for the nodes [N] and the words [W] of the pool. *)
Record changes s0 s (N : list Node) (W : nat -> Z -> Z) : Prop := {
  ch_pt : pt s = set_nodes N (pt s0);
  ch_words : forall p i, (p < length pool)%nat -> 0 <= i < 512 -> get_word s p i = W p i;
  ch_frame : forall a, outside a -> mem s a = mem s0 a;
}.

Lemma changes_refl s : changes s s (nodes_ (pt s)) (get_word s).
Proof. split; [|done..]. by destruct (pt s). Qed.

Lemma changes_trans s0 s1 s2 N1 W1 N2 W2 :
  changes s0 s1 N1 W1 -> changes s1 s2 N2 W2 -> changes s0 s2 N2 W2.
Proof.
  intros [E1 _ F1] [E2 G2 F2]. split; [by rewrite E2, E1|done|].
  intros a Ha. by rewrite F2, F1.
Qed.

Lemma changes_static s0 s N W : changes s0 s N W -> static s0 -> length N = MaxPages -> static s.
Proof. intros [E _ _] [] HN. split; rewrite E; done. Qed.

Section Primitives.
Context (s0 : machine) (HS : static s0).

Lemma changes_page s N W p : changes s0 s N W -> pool_at (pt s) p = page p.
Proof. intros [E _ _]. unfold pool_at. rewrite E. cbn. by rewrite (st_pool HS). Qed.

Lemma wp_set_word s N W p i v (Q : unit -> machine -> Prop) :
  changes s0 s N W -> (p < length pool)%nat -> 0 <= i < 512 ->
  (forall s', changes s0 s' N (fun q j => if decide (q = p /\ j = i) then v else W q j) -> Q tt s') ->
  wp (set_word p i v) Q s.
Proof.
  intros HC Hp Hi HQ. apply wp_modify, HQ. pose proof HC as [E HW F].
  split; cbn [pt mem]; [done| |].
  - intros q j Hq Hj. unfold get_word. cbn [pt mem]. rewrite !(changes_page _ _ _ _ HC).
    case_decide as Hd.
    + destruct Hd as [-> ->]. by rewrite Z.eqb_refl.
    + rewrite (proj2 (Z.eqb_neq _ _)).
      * rewrite <- HW by done. unfold get_word. by rewrite (changes_page _ _ _ _ HC).
      * intros ?%word_address_inj; tauto.
  - intros a Ha. rewrite (changes_page _ _ _ _ HC), (proj2 (Z.eqb_neq _ _)); [by apply F|].
    intros ->. apply (Ha p Hp). unfold word_address, PageSize. lia.
Qed.

Lemma wp_clear s N W p (Q : unit -> machine -> Prop) :
  changes s0 s N W -> (p < length pool)%nat ->
  (forall s', changes s0 s' N (fun q j => if decide (q = p) then 0 else W q j) -> Q tt s') ->
  wp (clear p) Q s.
Proof.
  intros HC Hp HQ. unfold clear.
  assert (Hgen : forall l s, NoDup l -> (forall i, i ∈ l -> 0 <= i < 512) ->
    changes s0 s N (fun q j => if decide (q = p /\ j ∉ l) then 0 else W q j) ->
    wp (for_each l (fun i => set_word p i 0)) Q s).
  2: { apply Hgen; [apply NoDup_seqZ|intros i ?%elem_of_seqZ; lia|]. destruct HC as [E HW F]. split; [done| |done].
       intros q j Hq Hj. rewrite decide_False; [by apply HW|]. rewrite elem_of_seqZ. lia. }
  clear HC s. intros l. induction l as [|i l IH]; intros s Hnd Hl HC; cbn [for_each].
  - apply HQ. destruct HC as [E HW F]. split; [done| |done]. intros q j Hq Hj. rewrite HW by done.
    apply decide_ext. split; [by intros []|]. intros ->. split; [done|apply not_elem_of_nil].
  - apply wp_bind. eapply wp_set_word; [done..|apply Hl; set_solver|]. intros s' HC'.
    apply NoDup_cons in Hnd as [Hi Hnd]. apply IH; [done|set_solver|]. destruct HC' as [E HW F]. split; [done| |done].
    intros q j Hq Hj. rewrite HW by done.
    destruct (decide (q = p /\ j = i)) as [[-> ->]|Hne].
    + by rewrite decide_True.
    + apply decide_ext. rewrite not_elem_of_cons. tauto.
Qed.

Lemma wp_set_node s N W p n (Q : unit -> machine -> Prop) :
  changes s0 s N W -> (forall s', changes s0 s' (<[p := n]> N) W -> Q tt s') -> wp (set_node p n) Q s.
Proof.
  intros HC HQ. apply wp_modify, HQ. destruct HC as [E HW F]. split; cbn [pt mem]; [by rewrite E|..|done].
  intros q j Hq Hj. rewrite <- HW by done. unfold get_word, pool_at. cbn. by rewrite E.
Qed.
(** [s] is [s0] but for the words and nodes of the pool, which represent [D] and [m]. *)
Record holds s D m : Prop := {
  h_ch : changes s0 s (nodes_ (pt s)) (get_word s);
  h_len : length (nodes_ (pt s)) = MaxPages;
  h_rep : rep (nodes_ (pt s)) (get_word s) D m;
}.

Lemma holds_intro s N W D m :
  changes s0 s N W -> length N = MaxPages -> rep N W D m -> holds s D m.
Proof.
  intros HC HN HR. pose proof HC as [E HW F].
  assert (N = nodes_ (pt s)) as -> by (by rewrite E). split; [|done|].
  - by split.
  - eapply rep_words_ext; [done|]. auto.
Qed.

Lemma holds_static s D m : holds s D m -> static s.
Proof. intros [HC HN _]. by eapply changes_static. Qed.

Lemma used_size s D m : holds s D m -> usedPages (pt s) = size D.
Proof.
  intros H. unfold usedPages. rewrite (st_count (holds_static _ _ _ H)). destruct H as [_ HN R].
  eapply used_count; [done|]. rewrite HN. apply (wp_count _ _ WF).
Qed.

(** * Allocation and rollback *)

Lemma wp_allocate s D m l (Q : nat -> machine -> Prop) :
  holds s D m ->
  (size D = length pool -> Q MaxPages s) ->
  (forall p nd s', (p < length pool)%nat -> nodes_ (pt s) !! p = Some nd -> used nd = false ->
     changes s0 s' (<[p := {| used := true; level := l |}]> (nodes_ (pt s)))
       (fun q j => if decide (q = p) then 0 else get_word s q j) -> Q p s') ->
  wp (allocate l) Q s.
Proof.
  intros H HQ1 HQ2. pose proof (used_size _ _ _ H) as Hu. unfold usedPages in Hu.
  unfold allocate. wp_steps. rewrite (st_count (holds_static _ _ _ H)) in *.
  destruct H as [HC HN R]. destruct (list_find _ _) as [[p nd]|] eqn:F.
  - apply list_find_Some in F as ([Hp Hlt]%lookup_take_Some & Hnd & _). wp_steps.
    eapply wp_clear; [done..|]. intros s1 C1. wp_steps. eapply wp_set_node; [done|].
    intros s2 C2. wp_steps. by eapply HQ2.
  - apply wp_ret, HQ1. rewrite <- Hu. apply list_find_None in F.
    rewrite <- (length_take_le (nodes_ (pt s)) (length pool)) at 2
      by (rewrite HN; apply (wp_count _ _ WF)).
    f_equal. clear Hu. induction F as [|x l' Hx _ IH]; [done|].
    rewrite filter_cons_True by (by destruct (used x)). by rewrite IH.
Qed.

(** The edges that [map4K] has added since [D0], the last one first. *)
Inductive undo m D0 : list Edge -> gmap table nat -> Prop :=
  | undo_nil : undo m D0 [] D0
  | undo_cons l y p n es D :
      (l < 3)%nat -> D !! (l, y) = Some p -> D !! (S l, y / 512) = Some n -> childless D m l y ->
      undo m D0 es (delete (l, y) D) ->
      undo m D0 ({| parent := n; child_ := p; index := y mod 512 |} :: es) D.

Lemma undo_dom m D0 es D : undo m D0 es D -> dom D0 ⊆ dom D.
Proof. induction 1; [done|]. set_solver. Qed.

Lemma wp_rollback m D0 es D s (Q : unit -> machine -> Prop) :
  undo m D0 es D -> holds s D m -> (forall s', holds s' D0 m -> Q tt s') -> wp (rollback es) Q s.
Proof.
  intros HU. revert s. induction HU as [|l y p n es D Hl Hp Hn Hc HU IH]; intros s H HQ.
  { by apply HQ. }
  unfold rollback in *. cbn [for_each parent child_ index]. wp_steps. destruct H as [HC HN R].
  destruct (r_node R _ _ _ Hn) as [Hnl _]. destruct (r_node R _ _ _ Hp) as [Hpl _].
  eapply wp_set_word; [done|done|apply mod512_range|]. intros s1 C1. wp_steps.
  eapply wp_clear; [done..|]. intros s2 C2. wp_steps. eapply wp_set_node; [done|]. intros s3 C3.
  apply IH; [|done]. eapply holds_intro; [done|by rewrite length_insert|].
  eapply rep_free; [done..| |].
  - destruct (decide (n = p)); [done|]. by rewrite decide_True.
  - intros q i Hq Hne. cbv beta. by rewrite !decide_False.
Qed.
(** * Walks *)

Definition ixs (v : Z) : list Z := (fun l => key l v mod 512) <$> [0; 1; 2; 3]%nat.

Lemma ixs_at v l : (l <= 3)%nat -> ixs v !!! l = key l v mod 512.
Proof. intros Hl. destruct l as [|[|[|[|l]]]]; [done..|lia]. Qed.

(** The child of the table that leads to page [v]. *)
Lemma child_walk s D m v l node :
  holds s D m -> (l < 3)%nat -> D !! (S l, key (S (S l)) v) = Some node ->
  child s node (ixs v !!! S l) =
    match D !! (l, key (S l) v) with Some q => (Ok, q) | None => (NotFound, 0%nat) end.
Proof.
  intros H Hl Hn. rewrite ixs_at by lia.
  erewrite child_spec; [|done|by eapply holds_static|apply H|done|apply mod512_range].
  cbn [key]. by rewrite <- split512.
Qed.

(** ** The loop of [map4K] *)

Definition grown (v : Z) D0 D : Prop := dom D ⊆ dom D0 ∪ list_to_set (path v).

Definition map_result m D0 (v : Z) (r : Status * nat * list Edge) s : Prop :=
  match r with
  | (Ok, node, es) => exists D, holds s D m /\ undo m D0 es D /\ grown v D0 D /\
      D !! (0%nat, key 1 v) = Some node
  | (NoSpace, _, _) => holds s D0 m /\ exists D, size D = length pool /\ dom D0 ⊆ dom D /\ grown v D0 D /\
      exists k, k ∈ path v /\ D !! k = None
  | _ => False
  end.

Lemma link_child s D m D0 es v l p nd node s' :
  holds s D m -> undo m D0 es D -> grown v D0 D -> 0 <= v -> (l < 3)%nat ->
  D !! (S l, key (S (S l)) v) = Some node -> D !! (l, key (S l) v) = None ->
  (p < length pool)%nat -> nodes_ (pt s) !! p = Some nd -> used nd = false ->
  changes s0 s' (<[p := {| used := true; level := l |}]> (nodes_ (pt s)))
    (fun q j => if decide (q = node /\ j = ixs v !!! S l) then pde p
                else if decide (q = p) then 0 else get_word s q j) ->
  let D' := <[(l, key (S l) v) := p]> D in
  holds s' D' m /\ grown v D0 D' /\
  undo m D0 ({| parent := node; child_ := p; index := ixs v !!! S l |} :: es) D'.
Proof.
  intros H HU HG Hv Hl Hn HD Hp Hnd Hu HC D'. pose proof (h_rep _ _ _ H) as R.
  assert (Hnp : node <> p) by (intros ->; by eapply unused_free in Hn).
  rewrite ixs_at in * by lia. split_and!.
  - eapply holds_intro; [done|rewrite length_insert; apply H|].
    eapply rep_alloc; [done|done|done|done|done|done|by apply key_nonneg|..]; cbv beta.
    + intros i Hi. rewrite decide_False by (by intros [-> _]). by rewrite decide_True.
    + by rewrite decide_True.
    + intros q i Hq Hne. by rewrite !decide_False.
  - unfold grown, D' in *. rewrite dom_insert_L. apply union_subseteq. split; [|done].
    apply singleton_subseteq_l, elem_of_union_r, elem_of_list_to_set, elem_of_path. done.
  - apply (undo_cons m D0 l (key (S l) v)); [done|by apply lookup_insert_eq| | |].
    + unfold D'. rewrite lookup_insert_ne by (intros [=]; lia). done.
    + pose proof (absent_childless _ _ _ _ _ _ R l _ Hl HD) as Hc. intros i Hi Hh.
      apply (Hc i Hi). unfold D' in Hh. destruct l as [|l]; [done|]. cbn in *.
      rewrite lookup_insert_ne in Hh by (intros [=]; lia). done.
    + unfold D'. by rewrite delete_insert_id.
Qed.

Lemma wp_map_levels m D0 v l node es D s (Q : Status * nat * list Edge -> machine -> Prop) :
  0 <= v -> (l <= 3)%nat -> holds s D m -> undo m D0 es D -> grown v D0 D ->
  D !! (l, key (S l) v) = Some node ->
  (forall r s', map_result m D0 v r s' -> Q r s') -> wp (map_levels (ixs v) l node es) Q s.
Proof.
  intros Hv. revert node es D s. induction l as [|l IH]; intros node es D s Hl H HU HG Hn HQ.
  { apply wp_ret, HQ. by exists D. }
  cbn [map_levels]. wp_steps. cbn [id]. rewrite (child_walk s D m) by (done || lia).
  destruct (D !! (l, key (S l) v)) as [q|] eqn:Hq.
  { eapply IH; [lia|done..]. }
  wp_steps. eapply wp_allocate; [done|..].
  - intros Hsz. rewrite Nat.eqb_refl. wp_steps. eapply wp_rollback; [done..|].
    intros s' H'. wp_steps. apply HQ. split; [done|]. exists D.
    split_and!; [done|by eapply undo_dom|done|]. exists (l, key (S l) v). by rewrite elem_of_path.
  - intros p nd s1 Hp Hnd Hu C1. rewrite (proj2 (Nat.eqb_neq _ _)) by (pose proof (wp_count _ _ WF); lia).
    wp_steps. assert (HS1 : static s1).
    { eapply changes_static; [done..|]. rewrite length_insert. apply H. }
    rewrite (pool_at_page pool pat), (st_pat HS1) by done. destruct (wp_dma _ _ WF p Hp) as [Hd Hd'].
    pose proof (wp_pat _ _ WF). rewrite encodeSystemPde_spec, Hd', (proj2 (Z.leb_le pat 3)) by lia.
    cbn [andb]. wp_steps. destruct (r_node (h_rep _ _ _ H) _ _ _ Hn) as [Hnl _].
    eapply wp_set_word; [done|done|rewrite ixs_at by lia; apply mod512_range|]. intros s2 C2.
    destruct (link_child s D m D0 es v l p nd node s2) as (H2 & G2 & U2); [done|done|done|done|lia|done..|].
    eapply IH; [lia|done..| |done]. by rewrite lookup_insert_eq.
Qed.
(** ** The loops of [lookup] and [unmap4K] *)

Lemma path_up s D m v l :
  holds s D m -> is_Some (D !! (0%nat, key 1 v)) -> (l <= 3)%nat -> is_Some (D !! (l, key (S l) v)).
Proof.
  intros H H0. induction l as [|l IH]; intros Hl; [done|].
  destruct IH as [q Hq]; [lia|]. cbn [key]. eapply (r_parent (h_rep _ _ _ H)); [done|lia].
Qed.

Definition node_of (D : gmap table nat) (v : Z) (l : nat) : nat := default 0%nat (D !! (l, key (S l) v)).

Lemma node_of_eq s D m v l :
  holds s D m -> is_Some (D !! (0%nat, key 1 v)) -> (l <= 3)%nat ->
  D !! (l, key (S l) v) = Some (node_of D v l).
Proof.
  intros H H0 Hl. destruct (path_up _ _ _ _ _ H H0 Hl) as [q Hq]. unfold node_of. by rewrite Hq.
Qed.

Lemma descend_spec s D m v l node :
  holds s D m -> (l <= 3)%nat -> D !! (l, key (S l) v) = Some node ->
  match D !! (0%nat, key 1 v) with
  | Some q => descend s (ixs v) l node = (Ok, q)
  | None => exists n, descend s (ixs v) l node = (NotFound, n)
  end.
Proof.
  intros H. revert node. induction l as [|l IH]; intros node Hl Hn; [by rewrite Hn|].
  cbn [descend]. rewrite (child_walk s D m) by (done || lia).
  destruct (D !! (l, key (S l) v)) as [q|] eqn:Hq; [apply IH; [lia|done]|].
  destruct (D !! (0%nat, key 1 v)) as [q'|] eqn:H0; [|by eexists].
  destruct (path_up s D m v l) as [? ?]; [done|by eexists|lia|congruence].
Qed.

Lemma walk_path_spec s D m v l acc :
  holds s D m -> is_Some (D !! (0%nat, key 1 v)) -> (l <= 3)%nat ->
  walk_path s (ixs v) l (node_of D v l :: acc) =
    (Ok, (node_of D v <$> seq 0 l) ++ node_of D v l :: acc).
Proof.
  intros H H0. revert acc. induction l as [|l IH]; intros acc Hl; [done|].
  cbn [walk_path head default id]. rewrite (child_walk s D m) by (done || lia || by eapply node_of_eq).
  rewrite (node_of_eq s D m v l) by (done || lia). rewrite IH by lia.
  by rewrite seq_S, fmap_app, <- app_assoc.
Qed.

(** ** Freeing empty tables *)

(** Every table but the root and the one of level [l] that led to [v] leads to a page. *)
Definition full_but (l : nat) (v : Z) D m : Prop :=
  forall l' x p, D !! (l', x) = Some p -> (l' < 3)%nat -> (l', x) <> (l, key (S l) v) ->
    exists i, 0 <= i < 512 /\ has D m l' (512 * x + i).

Lemma page_empty_spec s D m l x p :
  holds s D m -> D !! (l, x) = Some p -> page_empty s p = true <-> childless D m l x.
Proof.
  intros [_ _ R] Hp. unfold page_empty. rewrite forallb_forall. split.
  - intros Hz i Hi. apply (entry_has _ _ _ _ _ _ R). rewrite <- (r_word R _ _ _ _ Hp Hi).
    apply Z.eqb_eq, Hz, list_elem_of_In, elem_of_seqZ. lia.
  - intros Hc i [Hi Hi']%list_elem_of_In%elem_of_seqZ. rewrite (r_word R _ _ _ _ Hp) by lia.
    apply Z.eqb_eq, (entry_has _ _ _ _ _ _ R), Hc. lia.
Qed.

Lemma full_but_full l v D m x :
  full_but l v D m -> x = key (S l) v -> (exists i, 0 <= i < 512 /\ has D m l (512 * x + i)) -> full D m.
Proof.
  intros HF -> Hi l' y p Hp Hl'. destruct (decide ((l', y) = (l, key (S l) v))) as [[= -> ->]|Hne]; [done|].
  by eapply HF.
Qed.

Lemma full_but_delete l v D m :
  (l < 3)%nat -> full_but l v D m -> full_but (S l) v (delete (l, key (S l) v) D) m.
Proof.
  intros Hl HF l' x p [Hne Hp]%lookup_delete_Some Hl' Hne'.
  destruct (HF l' x p Hp Hl') as (i & Hi & Hh); [congruence|]. exists i. split; [done|].
  destruct l' as [|l']; [done|]. cbn in *. rewrite lookup_delete_ne; [done|]. intros [= -> E].
  apply Hne'. cbn [key] in E |- *. rewrite E at 1. by rewrite div512.
Qed.

Lemma childless_dec D m l x :
  childless D m l x \/ exists i, 0 <= i < 512 /\ has D m l (512 * x + i).
Proof.
  assert (Hdec : forall i, Decision (has D m l (512 * x + i))) by (intros i; unfold has; destruct l; apply _).
  destruct (decide (Exists (fun i => has D m l (512 * x + i)) (seqZ 0 512))) as [He|He].
  - right. apply Exists_exists in He as (i & Hi%elem_of_seqZ & Hh). exists i. split; [lia|done].
  - left. intros i Hi Hh. apply He, Exists_exists. exists i. rewrite elem_of_seqZ. split; [lia|done].
Qed.

Lemma wp_free_levels m v l ls D path s (Q : unit -> machine -> Prop) :
  ls = seq l (3 - l) -> (l <= 3)%nat -> 0 <= v -> holds s D m -> full_but l v D m ->
  (forall j, (l <= j <= 3)%nat -> D !! (j, key (S j) v) = Some (path !!! j)) ->
  (forall s' D', holds s' D' m -> full D' m -> Q tt s') ->
  wp (free_levels (ixs v) path ls) Q s.
Proof.
  revert l D s. induction ls as [|l0 ls IH]; intros l D s Els Hl Hv H HF HP HQ; cbn [free_levels].
  - apply (HQ s D); [done|]. destruct (3 - l)%nat eqn:E; [|done]. assert (l = 3%nat) as -> by lia.
    intros l' x p Hp Hl'. eapply HF; [done..|]. intros [= -> _]. lia.
  - destruct (3 - l)%nat as [|k] eqn:E; [done|]. injection Els as -> ->. wp_steps; cbn [id] in *.
    + apply (HQ s D); [done|]. destruct (childless_dec D m l (key (S l) v)) as [Hc|Hc].
      * rewrite (proj2 (page_empty_spec s D m l _ _ H (HP l ltac:(lia))) Hc) in Hcond. done.
      * by eapply full_but_full.
    + apply negb_false_iff, (page_empty_spec s D m l (key (S l) v)) in Hcond; [|done|apply HP; lia].
      pose proof H as [HC HN R]. pose proof (HP l ltac:(lia)) as Hp. pose proof (HP (S l) ltac:(lia)) as Hn.
      destruct (r_node R _ _ _ Hn) as [Hnl _]. rewrite ixs_at by lia.
      eapply wp_set_word; [done|done|apply mod512_range|]. intros s1 C1. wp_steps.
      eapply wp_set_node; [done|]. intros s2 C2.
      apply (IH (S l) (delete (l, key (S l) v) D)); [f_equal; lia|lia|done| | | |done].
      * eapply holds_intro; [done|by rewrite length_insert|].
        eapply rep_free; [done|lia|done..|by cbv beta; rewrite decide_True|].
        intros q i Hq Hne. cbv beta. by rewrite decide_False.
      * apply full_but_delete; [lia|done].
      * intros j Hj. rewrite lookup_delete_ne; [apply HP; lia|]. intros [=]. lia.
Qed.
End Primitives.
End Ops.
