(* ===== verification/XePageTableSpec.v ===== *)
(** The abstract specification of the page-table builder, a finite map of pages to entries,
    and the simulation of its operations by [XePageTable]. *)
From stdpp Require Import base numbers list gmap.
From S2P Require Import Prelude.
From S2P Require Import StateWp.
From S2P Require Import XeMemory.
From S2P Require Import XePageTable.
From S2P Require Import XePageTableRep.
From S2P Require Import XePageTableOps.
Import XeMemory PageTable.

(** * Specification *)

Definition page_ok (p : TablePage) : Prop :=
  words p <> 0 /\ words p mod 8 = 0 /\ words p + 4096 <= 2 ^ 64 /\ dma p mod 4096 = 0 /\ dma p < 2 ^ 46.
Definition apart (p q : TablePage) : Prop :=
  dma p <> dma q /\ (words p + 4096 <= words q \/ words q + 4096 <= words p).
Definition pool_ok (pool : list TablePage) : Prop :=
  Forall page_ok pool /\
  Forall (fun i => Forall (fun j => apart (page pool i) (page pool j)) (seq 0 i)) (seq 0 (length pool)).

#[export] Instance page_ok_dec p : Decision (page_ok p).
Proof. unfold page_ok. apply _. Defined.
#[export] Instance apart_dec p q : Decision (apart p q).
Proof. unfold apart. apply _. Defined.
#[export] Instance pool_ok_dec pool : Decision (pool_ok pool).
Proof. unfold pool_ok. apply _. Defined.

(** A builder: the entries of the mapped pages, by page number, and whether it is sealed. *)
Record spec := {
  sp_owner : Z;
  sp_pool : list TablePage;
  sp_pat : Z;
  sp_sealed : bool;
  sp_map : gmap Z Z;
}.

Definition sp_update (f : gmap Z Z -> gmap Z Z) (t : spec) : spec :=
  {| sp_owner := sp_owner t; sp_pool := sp_pool t; sp_pat := sp_pat t; sp_sealed := sp_sealed t;
     sp_map := f (sp_map t) |}.
Definition sp_seal (t : spec) : spec :=
  {| sp_owner := sp_owner t; sp_pool := sp_pool t; sp_pat := sp_pat t; sp_sealed := true;
     sp_map := sp_map t |}.

Inductive op :=
  | OpInit (owner : Z) (pool : option (list TablePage)) (pat : Z)
  | OpMap (owner va data pat : Z) (writable : bool)
  | OpUnmap (owner va : Z)
  | OpLookup (owner va : Z)
  | OpSeal (owner : Z).

(** The status and the out parameter (0 if it is not set). *)
Definition result : Type := Status * Z.

Definition run_op (o : op) : ST machine result :=
  match o with
  | OpInit owner pool pat => r <-- initialize owner pool pat ;; ret (r, 0)
  | OpMap owner va data pat wr => r <-- map4K owner va data pat wr ;; ret (r, 0)
  | OpUnmap owner va => r <-- unmap4K owner va ;; ret (r, 0)
  | OpLookup owner va => gets (fun s => lookup s owner va 0)
  | OpSeal owner => seal owner 0
  end.

Definition spec_init (owner : Z) (pool : option (list TablePage)) (pat : Z) : result * option spec :=
  match pool with
  | Some pool =>
      if bool_decide (owner <> 0 /\ (0 < length pool <= MaxPages)%nat /\ pat <= 3 /\ pool_ok pool)
      then ((Ok, 0), Some {| sp_owner := owner; sp_pool := pool; sp_pat := pat; sp_sealed := false;
                             sp_map := ∅ |})
      else ((Invalid, 0), None)
  | None => ((Invalid, 0), None)
  end.

(** Mapping a page fails with [NoSpace] exactly when the pages that would then be mapped need
    more tables than the pool has. *)
Definition spec_map (owner va data pat : Z) (wr : bool) (t : spec) : result * spec :=
  let m' := <[va / 4096 := sys_pte data pat wr]> (sp_map t) in
  if bool_decide (va mod 4096 <> 0) then ((Invalid, 0), t)
  else if bool_decide (owner <> sp_owner t) then ((WrongOwner, 0), t)
  else if sp_sealed t then ((Busy, 0), t)
  else if bool_decide (2 ^ 48 <= va \/ data mod 4096 <> 0 \/ 2 ^ 46 <= data \/ 15 < pat \/
                       data ∈ dma <$> sp_pool t) then ((Invalid, 0), t)
  else if bool_decide (is_Some (sp_map t !! (va / 4096))) then ((Busy, 0), t)
  else if bool_decide (length (sp_pool t) < size (tables m'))%nat then ((NoSpace, 0), t)
  else ((Ok, 0), sp_update (fun _ => m') t).

Definition spec_lookup (owner va : Z) (t : spec) : result :=
  if bool_decide (va mod 4096 <> 0) then (Invalid, 0)
  else if bool_decide (owner <> sp_owner t) then (WrongOwner, 0)
  else if bool_decide (2 ^ 48 <= va) then (Invalid, 0)
  else match sp_map t !! (va / 4096) with Some e => (Ok, e) | None => (NotFound, 0) end.

Definition spec_unmap (owner va : Z) (t : spec) : result * spec :=
  if sp_sealed t then ((Busy, 0), t)
  else
    match spec_lookup owner va t with
    | (Ok, _) => ((Ok, 0), sp_update (delete (va / 4096)) t)
    | (r, _) => ((r, 0), t)
    end.

Definition spec_op (o : op) (st : option spec) : result * option spec :=
  match st, o with
  | None, OpInit owner pool pat => spec_init owner pool pat
  | None, _ => ((Invalid, 0), None)
  | Some t, OpInit _ _ _ => ((Busy, 0), Some t)
  | Some t, OpMap owner va data pat wr => prod_map id Some (spec_map owner va data pat wr t)
  | Some t, OpUnmap owner va => prod_map id Some (spec_unmap owner va t)
  | Some t, OpLookup owner va => (spec_lookup owner va t, Some t)
  | Some t, OpSeal owner =>
      if bool_decide (owner <> sp_owner t) then ((WrongOwner, 0), Some t)
      else ((Ok, dma (page (sp_pool t) 0)), Some (sp_seal t))
  end.

(** Arguments are words of their width. *)
Definition op_words (o : op) : Prop :=
  match o with
  | OpInit _ pool pat => word 8 pat /\
      Forall (fun p => word 64 (dma p) /\ word 64 (words p)) (default [] pool)
  | OpMap _ va data pat _ => word 64 va /\ word 64 data /\ word 8 pat
  | OpUnmap _ va | OpLookup _ va => word 64 va
  | OpSeal _ => True
  end.

(** * The checks of [initialize] *)

Lemma test7 a : test a 7 = negb (a mod 8 =? 0).
Proof. unfold test. change 7 with (2 ^ 3 - 1). by rewrite land_ones_low by lia. Qed.

Lemma check_page_spec pat before p :
  0 <= pat <= 3 -> word 64 (dma p) -> word 64 (words p) ->
  check_page pat before p = true <-> page_ok p /\ Forall (apart p) before.
Proof.
  intros Hpat [Hd _] Hw. unfold check_page. rewrite encodeSystemPde_spec by lia.
  rewrite (proj2 (Z.leb_le pat 3)), andb_true_r, test7 by lia.
  rewrite andb_true_iff, negb_true_iff, !orb_false_iff, Z.eqb_neq, negb_false_iff, Z.eqb_eq, Z.ltb_ge,
    forallb_forall, Forall_forall.
  assert (Ed : bool_decide ((if dmaPage (dma p) then (Ok, sys_pde (dma p) pat) else (Invalid, 0)).1 <> Ok)
               = false <-> dma p mod 4096 = 0 /\ dma p < 2 ^ 46).
  { rewrite <- dmaPage_spec by done. destruct (dmaPage (dma p)); [by rewrite bool_decide_false by tauto|].
    by rewrite bool_decide_true. }
  rewrite Ed. unfold page_ok, U64_MAX, PageSize. f_equiv; [split; intros; split_and!; tauto || lia|].
  apply forall_proper. intros q. rewrite <- list_elem_of_In. unfold apart.
  apply forall_proper. intros _. rewrite negb_true_iff, orb_false_iff, Z.eqb_neq. f_equiv.
  destruct (Z.leb_spec (words p) (words q)); rewrite Z.ltb_ge; lia.
Qed.

Lemma check_pool_lookup pat before rest :
  check_pool pat before rest = true <->
  forall i p, rest !! i = Some p -> check_page pat (before ++ take i rest) p = true.
Proof.
  revert before. induction rest as [|q rest IH]; intros before; cbn [check_pool]; [done|].
  rewrite andb_true_iff, IH. split.
  - intros [Hq Hr] [|i] p Hp; cbn in *; [by simplify_eq; rewrite app_nil_r|].
    rewrite cons_middle, (assoc (++)). by apply Hr.
  - intros H. split; [rewrite <- (app_nil_r before); by apply (H 0%nat)|].
    intros i p Hp. rewrite <- (assoc (++)). by apply (H (S i)).
Qed.

Lemma check_pool_spec pat pool :
  0 <= pat <= 3 -> Forall (fun p => word 64 (dma p) /\ word 64 (words p)) pool ->
  check_pool pat [] pool = true <-> pool_ok pool.
Proof.
  intros Hpat Hw. rewrite check_pool_lookup. unfold pool_ok. rewrite Forall_lookup in Hw |- *.
  setoid_rewrite Forall_forall. setoid_rewrite elem_of_seq. split.
  - intros H. split.
    + intros i p Hp. destruct (Hw i p Hp). by eapply check_page_spec, H.
    + intros i Hi. apply Forall_forall. intros j Hj%elem_of_seq. destruct (lookup_lt_is_Some_2 pool i) as [p Hp]; [lia|].
      destruct (lookup_lt_is_Some_2 pool j) as [q Hq]; [lia|]. unfold page. rewrite Hp, Hq. cbn.
      destruct (Hw i p Hp). apply H, check_page_spec in Hp as [_ Ha]; [|done..].
      rewrite Forall_forall in Ha. apply Ha. cbn. apply (list_elem_of_lookup_2 _ j).
      rewrite lookup_take_lt by lia. done.
  - intros [Hp Ha] i p Hi. destruct (Hw i p Hi). apply check_page_spec; [done..|].
    split; [by eapply Hp|]. apply Forall_lookup. intros j q [Hq Hj]%lookup_take_Some.
    specialize (Ha i ltac:(apply lookup_lt_Some in Hi; lia)). rewrite Forall_forall in Ha.
    specialize (Ha j ltac:(apply elem_of_seq; lia)).
    unfold page in Ha. by rewrite Hi, Hq in Ha.
Qed.

Lemma page_lookup pool i p : pool !! i = Some p -> page pool i = p.
Proof. unfold page. by intros ->. Qed.

Lemma pool_ok_wf pool pat :
  pool_ok pool -> (0 < length pool <= MaxPages)%nat -> 0 <= pat <= 3 ->
  Forall (fun p => word 64 (dma p) /\ word 64 (words p)) pool -> wf_pool pool pat.
Proof.
  intros [Hp Ha] Hl Hpat Hw.
  assert (Hone : forall p, (p < length pool)%nat -> page_ok (page pool p) /\
    0 <= dma (page pool p) /\ 0 <= words (page pool p)).
  { intros p [q Hq]%lookup_lt_is_Some_2. rewrite (page_lookup _ _ _ Hq).
    split; [by eapply Forall_lookup_1 in Hp|]. eapply Forall_lookup_1 in Hw as [? ?]; [|done].
    unfold word in *. lia. }
  assert (Htwo : forall p q, (p < length pool)%nat -> (q < length pool)%nat -> p <> q ->
    apart (page pool p) (page pool q)).
  { assert (Hlt : forall i j, (j < i < length pool)%nat -> apart (page pool i) (page pool j)).
    { intros i j Hij. rewrite Forall_forall in Ha. specialize (Ha i ltac:(apply elem_of_seq; lia)).
      rewrite Forall_forall in Ha. apply Ha, elem_of_seq. lia. }
    intros p q Hlp Hlq Hne. destruct (Nat.lt_ge_cases q p).
    - apply Hlt; lia.
    - specialize (Hlt q p ltac:(lia)). unfold apart in *. intuition congruence. }
  split; [done|done|..].
  - intros p (Hok & Hd & _)%Hone. unfold page_ok in Hok. split; [done|]. apply dmaPage_spec; tauto.
  - intros p q Hlp Hlq E. destruct (decide (p = q)) as [|Hne]; [done|]. by destruct (Htwo p q).
  - intros p (Hok & _ & ?)%Hone. unfold page_ok, PageSize in *. lia.
  - intros p q Hlp Hlq Hne. unfold PageSize. by destruct (Htwo p q).
Qed.

(** * Simulation *)

Section Sim.
Context (mem0 : Z -> Z).

(** A state of the object and the abstract builder it implements; [mem0] is the memory
    before [initialize]. *)
Record sim (s : machine) (t : spec) : Prop := {
  sm_wf : wf_pool (sp_pool t) (sp_pat t);
  sm_static : static (sp_pool t) (sp_pat t) s;
  sm_owner : owner_ (pt s) = sp_owner t;
  sm_sealed : sealed_ (pt s) = sp_sealed t;
  sm_count : mappings_ (pt s) = Z.of_nat (size (sp_map t));
  sm_range : forall y, is_Some (sp_map t !! y) -> 0 <= y < 2 ^ 36;
  sm_dir : exists D, rep (sp_pool t) (sp_pat t) (nodes_ (pt s)) (get_word s) D (sp_map t) /\
    full D (sp_map t);
  sm_frame : forall a, outside (sp_pool t) a -> mem s a = mem0 a;
}.

Definition sim_state (s : machine) (st : option spec) : Prop :=
  match st with
  | None => s = {| pt := new_PageTable; mem := mem0 |}
  | Some t => sim s t
  end.

Lemma holds_self pool pat s D m :
  static pool pat s -> rep pool pat (nodes_ (pt s)) (get_word s) D m -> holds pool pat s s D m.
Proof. intros HS R. split; [apply changes_refl|apply HS|done]. Qed.

Lemma size_range (m : gmap Z Z) n :
  (forall y, is_Some (m !! y) -> 0 <= y < n) -> Z.of_nat (size m) <= Z.max 0 n.
Proof.
  intros Hm. rewrite <- size_dom.
  assert (dom m ⊆ list_to_set (C := gset Z) (seqZ 0 n)) as Hs%subseteq_size.
  { intros y Hy%elem_of_dom%Hm. rewrite elem_of_list_to_set, elem_of_seqZ. lia. }
  rewrite size_list_to_set, length_seqZ in Hs by apply NoDup_seqZ. lia.
Qed.

(** ** Keeping the relation *)

Lemma sim_keep s s' t D :
  sim s t -> holds (sp_pool t) (sp_pat t) s s' D (sp_map t) -> full D (sp_map t) -> sim s' t.
Proof.
  intros S H HF. pose proof (holds_static _ _ _ (sm_static _ _ S) _ _ _ H) as HS. destruct H as [HC _ R].
  split; [apply S|done|..]; try (rewrite (ch_pt _ _ _ _ _ HC); apply S); [apply S|by exists D|].
  intros a Ha. rewrite (ch_frame _ _ _ _ _ HC) by done. by apply S.
Qed.

Lemma sim_change s s' t D m' :
  sim s t -> holds (sp_pool t) (sp_pat t) s s' D m' -> full D m' ->
  (forall y, is_Some (m' !! y) -> 0 <= y < 2 ^ 36) ->
  sim {| pt := set_mappings (Z.of_nat (size m')) (pt s'); mem := mem s' |} (sp_update (fun _ => m') t).
Proof.
  intros S H HF Hr. pose proof (holds_static _ _ _ (sm_static _ _ S) _ _ _ H) as HS. destruct H as [HC _ R].
  split; cbn; [apply S|by destruct HS|..]; try (rewrite (ch_pt _ _ _ _ _ HC); apply S); [done|done|by exists D|].
  intros a Ha. rewrite (ch_frame _ _ _ _ _ HC) by done. by apply S.
Qed.

(** ** [initialize] *)

Lemma rep_empty pool pat N W :
  (0 < length pool <= MaxPages)%nat -> N = <[0%nat := {| used := true; level := 3 |}]> (replicate MaxPages no_node) ->
  (forall i, 0 <= i < 512 -> W 0%nat i = 0) ->
  rep pool pat N W {[(3%nat, 0) := 0%nat]} ∅.
Proof.
  intros Hl -> HW. split.
  - intros p n [(<- & <- & _)|[? [-> _]%lookup_replicate]]%list_lookup_insert_Some Hp Hu; [|done].
    exists (3%nat, 0). apply lookup_singleton_eq.
  - intros l x p [[= <- <-] <-]%lookup_singleton_Some. split; [lia|].
    apply list_lookup_insert_eq. rewrite length_replicate. unfold MaxPages. lia.
  - intros k1 k2 p [<- _]%lookup_singleton_Some [<- _]%lookup_singleton_Some. done.
  - apply lookup_singleton_eq.
  - intros l x p [[= <- <-] <-]%lookup_singleton_Some. lia.
  - intros l x p i [[= <- <-] <-]%lookup_singleton_Some Hi. rewrite HW by done. cbn.
    rewrite lookup_singleton_ne; [done|]. by intros [=].
  - intros l x p [[= <- <-] <-]%lookup_singleton_Some. lia.
  - intros y e. by rewrite lookup_empty.
Qed.

Lemma full_empty : full {[(3%nat, 0) := 0%nat]} ∅.
Proof. intros l x p [[= <- <-] <-]%lookup_singleton_Some. lia. Qed.

Lemma init_sim owner pool pat :
  op_words (OpInit owner pool pat) ->
  wp (run_op (OpInit owner pool pat))
    (fun r s' => r = (spec_init owner pool pat).1 /\ sim_state s' (spec_init owner pool pat).2)
    {| pt := new_PageTable; mem := mem0 |}.
Proof.
  intros [[Hpat _] Hw]. cbn [run_op]. wp_steps. unfold initialize. wp_steps. cbn [pt pool_ new_PageTable].
  destruct pool as [pool|]; [|wp_steps; done]. cbn [spec_init default] in *. unfold id in Hw. wp_steps.
  { rewrite bool_decide_false; [done|]. rewrite !orb_true_iff, Z.eqb_eq, Nat.eqb_eq, Nat.ltb_lt, Z.ltb_lt in Hcond. lia. }
  { rewrite !orb_false_iff, Z.ltb_ge in Hcond. rewrite bool_decide_false; [done|]. intros (_ & _ & _ & Hok).
    apply check_pool_spec with (pat := pat) in Hok; [|lia|done]. by rewrite Hok in Hcond0. }
  rewrite !orb_false_iff, Z.eqb_neq, Nat.eqb_neq, Nat.ltb_ge, Z.ltb_ge in Hcond.
  apply negb_false_iff, check_pool_spec in Hcond0; [|lia|done].
  rewrite bool_decide_true by (split_and!; tauto || lia).
  pose proof (pool_ok_wf pool pat Hcond0 ltac:(lia) ltac:(lia) Hw) as WF.
  apply wp_modify. cbn [pt mem nodes_ mappings_ sealed_ new_PageTable]. wp_steps. set (s1 := {| pt := _; mem := _ |}). assert (HS : static pool pat s1) by done.
  unfold allocate. wp_steps. cbn [count_ nodes_ pt s1].
  assert (list_find (fun n => used n = false) (take (length pool) (replicate MaxPages no_node)) =
    Some (0%nat, no_node)) as ->.
  { apply list_find_Some. split_and!; [|done|intros; lia]. rewrite lookup_take_lt by lia. done. }
  wp_steps. eapply (wp_clear pool pat WF s1 HS); [apply changes_refl|lia|]. intros s2 C2. wp_steps.
  eapply (wp_set_node pool s1); [done|]. intros s3 C3. wp_steps. split; [done|]. cbn [sim_state snd].
  assert (H : holds pool pat s1 s3 {[(3%nat, 0) := 0%nat]} ∅).
  { eapply holds_intro; [done|done|]. by apply rep_empty; [lia|..]. }
  pose proof (holds_static _ _ _ HS _ _ _ H) as HS3. destruct H as [HC _ R].
  split; cbn; [done|done|..]; try (rewrite (ch_pt _ _ _ _ _ HC); done).
  - intros y [? ?]. by rewrite lookup_empty in *.
  - eexists. split; [done|apply full_empty].
  - intros a Ha. by rewrite (ch_frame _ _ _ _ _ HC).
Qed.
End Sim.

(** * Each operation of the page-table builder implements its specification *)

Ltac un_negb H :=
  lazymatch type of H with
  | negb _ = true => apply negb_true_iff in H
  | negb _ = false => apply negb_false_iff in H
  end.

Section Sim.
Context (mem0 : Z -> Z).
Notation sim := (sim mem0).
Implicit Types (s : machine) (t : spec).

Lemma indices_ixs va : 0 <= va < 2 ^ 48 -> pageTableIndices va = Some (ixs (va / 4096)).
Proof.
  intros Hva. rewrite pageTableIndices_spec by lia. by rewrite (proj2 (Z.ltb_lt _ _)) by lia.
Qed.

Lemma page_range va : 0 <= va < 2 ^ 48 -> 0 <= va / 4096 < 2 ^ 36.
Proof.
  intros Hva. split; [apply Z.div_pos; lia|]. apply Z.div_lt_upper_bound; [lia|].
  change (4096 * 2 ^ 36) with (2 ^ 48). lia.
Qed.

(** The root leads to every page. *)
Lemma root_walk pool pat N W D m v :
  rep pool pat N W D m -> 0 <= v < 2 ^ 36 -> D !! (3%nat, key 4 v) = Some 0%nat.
Proof. intros R Hv. rewrite key_top by done. apply R. Qed.

(** The word of the leaf table is the entry. *)
Lemma leaf_word pool pat s D m v q :
  rep pool pat (nodes_ (pt s)) (get_word s) D m -> D !! (0%nat, key 1 v) = Some q ->
  get_word s q (ixs v !!! 0%nat) = default 0 (m !! v).
Proof.
  intros R Hq. rewrite ixs_at by lia. rewrite (r_word R _ _ _ _ Hq) by apply mod512_range.
  cbn [entry_word key]. by rewrite <- split512.
Qed.

(** Writing the leaf of a page, or clearing it. *)
Lemma holds_leaf pool pat s0 s s' D m m' v q e :
  holds pool pat s0 s D m -> D !! (0%nat, key 1 v) = Some q -> 0 <= v ->
  changes pool s0 s' (nodes_ (pt s))
    (fun p i => if decide (p = q /\ i = ixs v !!! 0%nat) then e else get_word s p i) ->
  (m' = <[v := e]> m /\ Z.testbit e 0 = true \/ m' = delete v m /\ e = 0) ->
  holds pool pat s0 s' D m'.
Proof.
  intros [_ HN R] Hq Hv HC Hm. rewrite ixs_at in HC by lia. eapply holds_intro; [done|done|].
  eapply (rep_leaf _ _ _ _ _ _ R _ m' v); [exact Hq|..]; cbn [key].
  - intros y Hy. destruct Hm as [[-> _]|[-> _]]; [by rewrite lookup_insert_ne|by rewrite lookup_delete_ne].
  - intros x. destruct Hm as [[-> Hb]|[-> _]]; [|by rewrite lookup_delete_eq].
    rewrite lookup_insert_eq. by intros [= <-].
  - rewrite decide_True by done.
    destruct Hm as [[-> Hb]|[-> ->]]; [by rewrite lookup_insert_eq|by rewrite lookup_delete_eq].
  - intros q' i Hne. by rewrite decide_False.
Qed.

(** ** [lookup] *)

Lemma test_bit0 e : Z.testbit e 0 = true -> test e 1 = true.
Proof. intros H. change 1 with (BIT 0). by rewrite test_BIT. Qed.

Lemma lookup_sim s t owner va : sim s t -> word 64 va -> lookup s owner va 0 = spec_lookup owner va t.
Proof.
  intros S [Hva _]. unfold lookup, spec_lookup. rewrite (st_pool (sm_static _ _ _ S)), (sm_owner _ _ _ S).
  rewrite bool_decide_false, page_mask_mod by done. cbn [orb].
  destruct (Z.eqb_spec (va mod 4096) 0); cbn [negb];
    [rewrite bool_decide_false by tauto|by rewrite bool_decide_true].
  destruct (Z.eqb_spec owner (sp_owner t)); cbn [negb];
    [rewrite bool_decide_false by tauto|by rewrite bool_decide_true].
  case_bool_decide as Hb.
  { rewrite pageTableIndices_spec by done. by rewrite (proj2 (Z.ltb_ge _ _)). }
  rewrite indices_ixs by lia. set (v := va / 4096). pose proof (page_range va ltac:(lia)) as Hv. fold v in Hv.
  destruct (sm_dir _ _ _ S) as (D & R & _). pose proof (sm_static _ _ _ S) as HS.
  pose proof (holds_self _ _ _ _ _ HS R) as H.
  pose proof (descend_spec _ _ (sm_wf _ _ _ S) s HS s D _ v 3 0%nat H ltac:(lia) (root_walk _ _ _ _ _ _ _ R Hv)) as Hd.
  destruct (D !! (0%nat, key 1 v)) as [q|] eqn:Hq.
  - rewrite Hd, (leaf_word _ _ _ _ _ _ _ R Hq). destruct (sp_map t !! v) as [pte|] eqn:He; [|done]. cbn.
    rewrite (proj2 (Z.eqb_neq _ _)) by (by eapply leaf_nonzero).
    apply (r_leaf R) in He as (_ & _ & Hb0). by rewrite test_bit0.
  - destruct Hd as [n ->]. destruct (sp_map t !! v) as [pte|] eqn:He; [|done].
    apply (r_leaf R) in He as ([q Hq'] & _). cbn [key] in Hq. congruence.
Qed.

(** ** [map4K] *)

Lemma full_grow pool pat s0 s' D0 D m v e :
  holds pool pat s0 s' D (<[v := e]> m) -> full D0 m -> dom D0 ⊆ dom D -> grown v D0 D ->
  is_Some (D !! (0%nat, key 1 v)) -> full D (<[v := e]> m).
Proof.
  intros H HF Hsub HG H0 l x p Hp Hl.
  assert (Hmono : forall k, is_Some (D0 !! k) -> is_Some (D !! k)).
  { intros k. rewrite <- !elem_of_dom. apply Hsub. }
  assert ((l, x) ∈ dom D0 ∪ list_to_set (path v)) as [Hin|Hin]%elem_of_union.
  { apply HG, elem_of_dom. by eexists. }
  - apply elem_of_dom in Hin as [p0 Hp0]. destruct (HF l x p0 Hp0 Hl) as (i & Hi & Hh).
    exists i. split; [done|]. destruct l as [|l]; cbn in *; [|by apply Hmono].
    apply lookup_insert_is_Some. destruct (decide (v = 512 * x + i)); tauto.
  - rewrite elem_of_list_to_set, elem_of_path in Hin. destruct Hin as [_ ->].
    exists (key l v mod 512). split; [apply mod512_range|]. cbn [key]. rewrite <- split512.
    destruct l as [|l]; cbn [has].
    + cbn [key]. rewrite lookup_insert_eq. by eexists.
    + eapply path_up; [done..|lia].
Qed.

Lemma map_no_space pool pat N W D0 D m v e :
  rep pool pat N W D0 m -> full D0 m -> size D = length pool -> dom D0 ⊆ dom D -> grown v D0 D ->
  (exists k, k ∈ path v /\ D !! k = None) ->
  m !! v = None /\ (length pool < size (tables (<[v := e]> m)))%nat.
Proof.
  intros R HF Hsz Hsub HG (k & Hk & HDk).
  pose proof (full_tables _ _ _ _ _ _ R HF) as Et.
  assert (Hins : forall k', k' ∈ tables (<[v := e]> m) <-> k' ∈ tables m \/ k' ∈ path v).
  { intros k'. rewrite !elem_of_tables. setoid_rewrite lookup_insert_is_Some. split.
    - intros [->|(v' & [->|[_ ?]] & ?)]; [tauto|tauto|left; right; by eexists].
    - intros [[->|(v' & ? & ?)]|?]; [by left| |right; exists v; tauto].
      right. exists v'. split; [|done]. destruct (decide (v = v')); tauto. }
  split.
  - destruct (m !! v) as [e'|] eqn:Em; [|done]. exfalso.
    assert (Hin : k ∈ dom D).
    { apply Hsub. rewrite Et, elem_of_tables. right. exists v. split; [by eexists|done]. }
    apply elem_of_dom in Hin as [? ?]. congruence.
  - rewrite <- Hsz, <- size_dom. apply subset_size. split.
    + intros k' Hk'%HG. rewrite Et in Hk'. apply Hins. set_solver.
    + intros Hsub'. assert (k ∈ dom D) as [? ?]%elem_of_dom by (apply Hsub', Hins; tauto). congruence.
Qed.

Lemma map_space pool pat s D m :
  wf_pool pool pat -> static pool pat s -> rep pool pat (nodes_ (pt s)) (get_word s) D m -> full D m ->
  (size (tables m) <= length pool)%nat.
Proof.
  intros WF HS R HF. rewrite <- (full_tables _ _ _ _ _ _ R HF), size_dom.
  rewrite <- (used_count _ _ _ _ _ _ R), length_filter by (rewrite (st_nodes HS); apply (wp_count _ _ WF)).
  rewrite length_take. lia.
Qed.
Definition implements (c : ST machine Status) s (r : result * spec) : Prop :=
  wp c (fun st s' => (st, 0) = r.1 /\ sim s' r.2) s.

(** The rest of [map4K] after its checks. *)
Lemma map_levels_sim s t v pte :
  sim s t -> 0 <= v < 2 ^ 36 -> Z.testbit pte 0 = true ->
  implements
    (r <-- map_levels (ixs v) 3 0 [] ;;
     match r with
     | (Ok, node, edits) =>
         s <-- gets id ;;
         if negb (get_word s node (ixs v !!! 0%nat) =? 0) then rollback edits ;;; ret Busy
         else
           set_word node (ixs v !!! 0%nat) pte ;;;
           upd_pt (fun o => set_mappings (mappings_ o +64 1) o) ;;; ret Ok
     | (status, _, _) => ret status
     end) s
    (let m' := <[v := pte]> (sp_map t) in
     if bool_decide (is_Some (sp_map t !! v)) then ((Busy, 0), t)
     else if bool_decide (length (sp_pool t) < size (tables m'))%nat then ((NoSpace, 0), t)
     else ((Ok, 0), sp_update (fun _ => m') t)).
Proof.
  intros S Hv Hb. destruct (sm_dir _ _ _ S) as (D0 & R0 & F0). pose proof (sm_static _ _ _ S) as HS.
  pose proof (sm_wf _ _ _ S) as WF. unfold implements. cbv zeta. wp_steps.
  eapply (wp_map_levels _ _ WF s HS (sp_map t) D0); [lia|lia|by apply holds_self|constructor| |by eapply root_walk|].
  { unfold grown. set_solver. }
  intros [[[] node] es] s1 HR; try done; wp_steps; cbn [id] in *.
  - (* the page is mapped *)
    destruct HR as (D & H & HU & HG & HD). eapply wp_rollback; [done..|]. intros s2 H2. wp_steps.
    rewrite (leaf_word _ _ _ _ _ _ _ (h_rep _ _ _ _ _ _ H) HD) in Hcond.
    destruct (sp_map t !! v) eqn:E; [|done].
    rewrite bool_decide_true by (by eexists). split; [done|]. by eapply sim_keep.
  - (* the page is mapped by this call *)
    destruct HR as (D & H & HU & HG & HD). pose proof (h_rep _ _ _ _ _ _ H) as R.
    rewrite (leaf_word _ _ _ _ _ _ _ R HD) in Hcond. apply negb_false_iff, Z.eqb_eq in Hcond.
    assert (Em : sp_map t !! v = None).
    { destruct (sp_map t !! v) eqn:E; [|done]. cbn in Hcond. by eapply leaf_nonzero in E. }
    destruct (r_node R _ _ _ HD) as [Hl _]. pose proof H as [HC HN _].
    eapply wp_set_word; [done..|rewrite ixs_at by lia; apply mod512_range|]. intros s2 C2.
    set (m' := <[v := pte]> (sp_map t)) in *.
    assert (H2 : holds (sp_pool t) (sp_pat t) s s2 D m') by (eapply holds_leaf; [done|done|lia|done|by left]).
    assert (F2 : full D m') by (eapply full_grow; [done|done|by eapply undo_dom|done|by eexists]).
    assert (Hr : forall y, is_Some (m' !! y) -> 0 <= y < 2 ^ 36).
    { intros y [<-|[_ Hy]]%lookup_insert_is_Some; [done|by apply (sm_range _ _ _ S)]. }
    wp_steps. apply wp_modify. wp_steps. rewrite bool_decide_false by (rewrite Em; by intros [? ?]).
    rewrite bool_decide_false.
    2: { apply Nat.le_ngt. eapply (map_space _ _ s2); [done|by eapply holds_static|apply H2|done]. }
    split; [done|]. cbn [snd].
    assert (Hm : mappings_ (pt s2) +64 1 = Z.of_nat (size m')).
    { rewrite (ch_pt _ _ _ _ _ C2). cbn. rewrite (sm_count _ _ _ S). unfold m'. rewrite map_size_insert_None by done.
      pose proof (size_range (sp_map t) (2 ^ 36) (sm_range _ _ _ S)) as Hs.
      change (Z.max 0 (2 ^ 36)) with (2 ^ 36) in Hs. rewrite add64_small by lia. lia. }
    rewrite Hm. by eapply sim_change.
  - (* no table page is left *)
    destruct HR as (H & D & Hsz & Hsub & HG & Hk).
    destruct (map_no_space _ _ _ _ D0 D (sp_map t) v pte R0 F0 Hsz Hsub HG Hk) as [Em Hlt].
    rewrite bool_decide_false by (rewrite Em; by intros [? ?]). rewrite bool_decide_true by done.
    split; [done|]. by eapply sim_keep.
Qed.

Lemma map_sim s t owner va data pat wr :
  sim s t -> word 64 va -> word 64 data -> word 8 pat ->
  implements (map4K owner va data pat wr) s (spec_map owner va data pat wr t).
Proof.
  intros S [Hva _] [Hda _] [Hpat _]. unfold map4K, spec_map. cbv zeta. pose proof (sm_static _ _ _ S) as HS.
  unfold implements. wp_step. wp_step. rewrite (st_pool HS), (sm_owner _ _ _ S), (sm_sealed _ _ _ S).
  rewrite (bool_decide_false (Some _ = None)), page_mask_mod by done. cbn [orb].
  wp_step; un_negb Hcond.
  { apply Z.eqb_neq in Hcond. by rewrite bool_decide_true. }
  apply Z.eqb_eq in Hcond. rewrite (bool_decide_false (va mod 4096 <> 0)) by tauto.
  wp_step; un_negb Hcond0.
  { apply Z.eqb_neq in Hcond0. by rewrite bool_decide_true. }
  apply Z.eqb_eq in Hcond0. rewrite (bool_decide_false (owner <> _)) by tauto.
  wp_step; rewrite Hcond1; [done|].
  rewrite encodeSystemPte4K_spec by done.
  pose proof (dmaPage_spec data Hda) as Hdp.
  destruct (Z.lt_ge_cases va (2 ^ 48)).
  2: { rewrite bool_decide_true by tauto. rewrite pageTableIndices_spec by done.
       by rewrite (proj2 (Z.ltb_ge _ _)). }
  rewrite indices_ixs by done.
  destruct (dmaPage data) eqn:Hd; cbn [andb].
  2: { rewrite bool_decide_true; [done|]. destruct (Z.eqb_spec (data mod 4096) 0); [|tauto].
       right; right; left. apply Z.le_ngt. intros Hlt. by assert (false = true) by tauto. }
  destruct (Z.leb_spec pat 15); [|by rewrite bool_decide_true by tauto].
  rewrite (find_none _ _ _ data (sm_wf _ _ _ S) HS). wp_step; un_negb Hcond2.
  { apply bool_decide_eq_false, dec_stable in Hcond2. by rewrite bool_decide_true by tauto. }
  apply bool_decide_eq_true in Hcond2.
  rewrite (bool_decide_false (2 ^ 48 <= va \/ _)).
  2: { destruct (proj1 Hdp eq_refl). intros [?|[?|[?|[?|?]]]]; [lia|done|lia|lia|done]. }
  apply map_levels_sim; [done|by apply page_range|apply sys_pte_present].
Qed.
(** ** [unmap4K] *)

Lemma full_but_unmap D m v : full D m -> full_but 0 v D (delete v m).
Proof.
  intros HF l x p Hp Hl Hne. destruct (HF l x p Hp Hl) as (i & Hi & Hh). exists i. split; [done|].
  destruct l as [|l]; cbn in *; [|done]. rewrite lookup_delete_ne; [done|]. intros ->.
  apply Hne. cbn [key]. by rewrite div512.
Qed.

Lemma unmap_sim s t owner va :
  sim s t -> word 64 va -> implements (unmap4K owner va) s (spec_unmap owner va t).
Proof.
  intros S Hva. unfold implements, unmap4K, spec_unmap. wp_step. wp_step. cbn [id].
  rewrite (sm_sealed _ _ _ S), (lookup_sim s t) by done. wp_step; rewrite Hcond; [done|].
  destruct (spec_lookup owner va t) as [[] e] eqn:E; try done. destruct Hva as [Hva _].
  unfold spec_lookup in E. repeat case_bool_decide; try done. rewrite indices_ixs by lia.
  destruct (sp_map t !! (va / 4096)) as [e'|] eqn:Em; [|done]. clear E. cbn [default].
  set (v := va / 4096) in *. pose proof (page_range va ltac:(lia)) as Hv. fold v in Hv.
  destruct (sm_dir _ _ _ S) as (D & R & HF). pose proof (sm_static _ _ _ S) as HS.
  pose proof (sm_wf _ _ _ S) as WF. pose proof (holds_self _ _ _ _ _ HS R) as Hs0.
  pose proof (proj1 (r_leaf R _ _ Em)) as Hl0. fold (key 1 v) in Hl0.
  assert (E0 : node_of D v 3 = 0%nat).
  { unfold node_of. by rewrite (root_walk _ _ _ _ _ _ _ R Hv). }
  pose proof (walk_path_spec _ _ WF s HS s D _ v 3 [] Hs0 Hl0 ltac:(lia)) as Hw. rewrite E0 in Hw.
  unfold id. rewrite Hw. set (path := _ ++ _). cbv zeta.
  assert (HP : forall j, (0 <= j <= 3)%nat -> D !! (j, key (Datatypes.S j) v) = Some (path !!! j)).
  { intros j Hj. rewrite (node_of_eq _ _ s s D (sp_map t) v j) by (done || lia).
    destruct j as [|[|[|[|j]]]]; [done..|by rewrite E0|lia]. }
  pose proof (HP 0%nat ltac:(lia)) as Hq. destruct (r_node R _ _ _ Hq) as [Hl _].
  wp_step. eapply (wp_set_word _ _ WF s HS); [apply changes_refl|done|rewrite ixs_at by lia; apply mod512_range|].
  intros s1 C1. wp_step. apply wp_modify. wp_step.
  set (m' := delete v (sp_map t)).
  assert (Hh1 : holds (sp_pool t) (sp_pat t) s s1 D m') by (eapply holds_leaf; [done|done|lia|done|by right]).
  set (s1' := {| pt := _; mem := _ |}).
  assert (Hm : mappings_ (pt s1) -64 1 = Z.of_nat (size m')).
  { rewrite (ch_pt _ _ _ _ _ C1). cbn. rewrite (sm_count _ _ _ S). unfold m'.
    rewrite map_size_delete_Some by (by eexists).
    pose proof (size_range (sp_map t) (2 ^ 36) (sm_range _ _ _ S)) as Hs.
    change (Z.max 0 (2 ^ 36)) with (2 ^ 36) in Hs.
    assert (size (sp_map t) <> 0%nat) by (rewrite map_size_non_empty_iff; intros Hn; by rewrite Hn in Em).
    rewrite sub64_small by lia. lia. }
  assert (HS1 : static (sp_pool t) (sp_pat t) s1').
  { pose proof (holds_static _ _ _ HS _ _ _ Hh1) as []. by split. }
  assert (Hh1' : holds (sp_pool t) (sp_pat t) s1' s1' D m').
  { apply holds_self; [done|]. apply Hh1. }
  eapply (wp_free_levels _ _ WF s1' HS1 m' v 0); [done|lia|lia|done|by apply full_but_unmap|done|].
  intros s2 D2 Hh2 F2. wp_step. split; [done|]. cbn [snd].
  pose proof (holds_static _ _ _ HS1 _ _ _ Hh2) as HS2. destruct Hh2 as [HC _ R2].
  split; cbn; [done|done|..]; try (rewrite (ch_pt _ _ _ _ _ HC); cbn; rewrite (ch_pt _ _ _ _ _ C1); apply S).
  - rewrite (ch_pt _ _ _ _ _ HC). cbn. exact Hm.
  - intros y [_ Hy]%lookup_delete_is_Some. by apply (sm_range _ _ _ S).
  - by exists D2.
  - intros a Ha. rewrite (ch_frame _ _ _ _ _ HC) by done. cbn. rewrite (ch_frame _ _ _ _ _ C1) by done. by apply S.
Qed.

(** ** Every operation *)

Lemma op_sim s st o :
  sim_state mem0 s st -> op_words o ->
  wp (run_op o) (fun r s' => r = (spec_op o st).1 /\ sim_state mem0 s' (spec_op o st).2) s.
Proof.
  intros S Ho. destruct st as [t|]; cbn [sim_state] in S.
  - destruct o; cbn [run_op spec_op].
    + wp_step. unfold initialize. wp_step. wp_step. by rewrite (st_pool (sm_static _ _ _ S)).
    + destruct Ho as (? & ? & ?). wp_step. eapply wp_mono; [by eapply map_sim|]. intros r s' [E HS]. by apply wp_ret.
    + wp_step. eapply wp_mono; [by eapply unmap_sim|]. intros r s' [E HS]. by apply wp_ret.
    + apply wp_gets. by rewrite (lookup_sim s t).
    + unfold seal. wp_step. wp_step. rewrite (st_pool (sm_static _ _ _ S)), (sm_owner _ _ _ S).
      wp_step; un_negb Hcond.
      * apply Z.eqb_neq in Hcond. wp_step. by rewrite bool_decide_true.
      * apply Z.eqb_eq in Hcond. rewrite bool_decide_false by tauto. wp_step. apply wp_modify. wp_step.
        rewrite (pool_at_page _ _ _ _ (sm_static _ _ _ S)). split; [done|]. destruct S as [? [] ? ? ? ? ? ?]. by split.
  - subst s. destruct o; [by apply init_sim|done..].
Qed.
End Sim.
