(* ===== verification/XePageTableThms.v ===== *)
(** Theorems of the page-table builder: it refines a finite map, and what the GPU finds in a
    sealed tree is that map. *)
From stdpp Require Import base numbers list gmap.
From S2P Require Import Prelude.
From S2P Require Import StateWp.
From S2P Require Import XeMemory.
From S2P Require Import XePageTable.
From S2P Require Import XePageTableRep.
From S2P Require Import XePageTableOps.
From S2P Require Import XePageTableSpec.
Import XeMemory PageTable.

(** * Sequences of operations *)

Fixpoint run_ops (ops : list op) : ST machine (list result) :=
  match ops with
  | [] => ret []
  | o :: ops => r <-- run_op o ;; rs <-- run_ops ops ;; ret (r :: rs)
  end.

Fixpoint spec_ops (ops : list op) (st : option spec) : list result * option spec :=
  match ops with
  | [] => ([], st)
  | o :: ops =>
      let '(r, st) := spec_op o st in
      let '(rs, st) := spec_ops ops st in (r :: rs, st)
  end.

Definition start (mem0 : Z -> Z) : machine := {| pt := new_PageTable; mem := mem0 |}.

Lemma run_ops_cons o ops s :
  run_ops (o :: ops) s =
    ((run_op o s).1 :: (run_ops ops (run_op o s).2).1, (run_ops ops (run_op o s).2).2).
Proof. cbn [run_ops]. rewrite !run_bind. cbn. by destruct (run_ops ops _). Qed.

Lemma spec_ops_cons o ops st :
  spec_ops (o :: ops) st =
    ((spec_op o st).1 :: (spec_ops ops (spec_op o st).2).1, (spec_ops ops (spec_op o st).2).2).
Proof. cbn [spec_ops]. destruct (spec_op o st) as [r st']. cbn. by destruct (spec_ops ops st'). Qed.

Lemma ops_sim mem0 ops s st :
  sim_state mem0 s st -> Forall op_words ops ->
  (run_ops ops s).1 = (spec_ops ops st).1 /\ sim_state mem0 (run_ops ops s).2 (spec_ops ops st).2.
Proof.
  intros S Ho. revert s st S. induction Ho as [|o ops Ho _ IH]; intros s st S; [done|].
  rewrite run_ops_cons, spec_ops_cons. cbn [fst snd]. destruct (op_sim mem0 s st o S Ho) as [-> S'].
  destruct (IH _ _ S') as [-> ?]. done.
Qed.

(** What an observer sees of the object. *)
Definition observed (mem0 : Z -> Z) (s : machine) (st : option spec) : Prop :=
  match st with
  | None => s = start mem0
  | Some t =>
      usedPages (pt s) = size (tables (sp_map t)) /\
      mappedPages (pt s) = Z.of_nat (size (sp_map t)) /\
      sealed_ (pt s) = sp_sealed t /\
      forall a, outside (sp_pool t) a -> mem s a = mem0 a
  end.

Lemma sim_observed mem0 s st : sim_state mem0 s st -> observed mem0 s st.
Proof.
  destruct st as [t|]; [|done]. cbn. intros S. destruct (sm_dir _ _ _ S) as (D & R & HF).
  rewrite <- (full_tables _ _ _ _ _ _ R HF), size_dom.
  split_and!; [|by apply S..]. eapply (used_size _ _ (sm_wf _ _ _ S) s); [apply S|].
  apply holds_self; [apply S|done].
Qed.

(** [C2] The page-table builder refines a finite map from pages to entries.  After any sequence
    of [initialize], [map4K], [unmap4K], [lookup] and [seal], with any arguments and whatever the
    pool's memory held before, every status and every output is that of the abstract builder, in
    which [map4K] runs out of space exactly when the pages that would then be mapped need more
    tables than the pool has.  The pages in use are exactly the tables that the mapped pages
    need (so failed calls leave no table behind and [unmap4K] frees every empty one), the count
    of mappings is exact, and no word outside the pool's pages is ever written. *)
Theorem page_table_refines mem0 ops :
  Forall op_words ops ->
  (run_ops ops (start mem0)).1 = (spec_ops ops None).1 /\
  observed mem0 (run_ops ops (start mem0)).2 (spec_ops ops None).2.
Proof.
  intros Ho. destruct (ops_sim mem0 ops (start mem0) None) as [E S]; [done..|].
  split; [done|]. by apply sim_observed.
Qed.

Definition ex_pool : list TablePage :=
  (fun i => {| dma := 4096 * (100 + i); words := 65536 + 4096 * i |}) <$> [0; 1; 2; 3; 4].
Definition ex_ops : list op := [
  OpMap 7 4096 8192 0 true; OpInit 7 (Some ex_pool) 1; OpMap 7 0 (4096 * 101) 0 true;
  OpMap 7 4096 8192 0 true; OpMap 7 4096 8192 0 true; OpMap 7 (2 ^ 21) 12288 3 false;
  OpMap 7 (2 ^ 40) 8192 0 true; OpUnmap 7 4096; OpLookup 7 4096; OpLookup 7 (2 ^ 21);
  OpSeal 7; OpUnmap 7 (2 ^ 21)].

Lemma ex_ops_words : Forall op_words ex_ops.
Proof.
  unfold ex_ops. repeat (apply Forall_cons_2 || apply Forall_nil_2);
    cbn [op_words default]; unfold ex_pool, word; split_and?; try lia.
  cbn. repeat (apply Forall_cons_2 || apply Forall_nil_2); cbn; lia.
Qed.

Lemma page_table_refines_witness :
  Forall op_words ex_ops /\
  (run_ops ex_ops (start (fun _ => 255))).1 =
    [(Invalid, 0); (Ok, 0); (Invalid, 0); (Ok, 0); (Busy, 0); (Ok, 0); (NoSpace, 0); (Ok, 0);
     (NotFound, 0); (Ok, 12313); (Ok, 409600); (Busy, 0)].
Proof.
  split; [exact ex_ops_words|].
  rewrite (proj1 (page_table_refines (fun _ => 255) ex_ops ex_ops_words)). vm_compute. reflexivity.
Defined.

(** * What the GPU finds *)

(** The documented walk of the hardware: the index of each level selects a word of the table
    page at a DMA address; a word without its present bit ends the walk, a directory entry
    holds the address of the next table in bits 45:12. *)
Definition gpu_read (pool : list TablePage) (memory : Z -> Z) (table_dma i : Z) : option Z :=
  '(_, p) ← list_find (fun p => dma p = table_dma) pool;
  Some (memory (word_address p i)).

Fixpoint gpu_walk (pool : list TablePage) (memory : Z -> Z) (l : nat) (table_dma v : Z) : option Z :=
  e ← gpu_read pool memory table_dma (key l v mod 512);
  if Z.testbit e 0 then
    match l with
    | O => Some e
    | S l => gpu_walk pool memory l (Z.land e AddressMask) v
    end
  else None.

Lemma gpu_read_page pool pat memory p i :
  wf_pool pool pat -> (p < length pool)%nat ->
  gpu_read pool memory (dma (page pool p)) i = Some (memory (word_address (page pool p) i)).
Proof.
  intros WF Hp. unfold gpu_read. destruct (lookup_lt_is_Some_2 pool p Hp) as [tp Htp].
  destruct (list_find _ pool) as [[j x]|] eqn:F; cbn.
  - apply list_find_Some in F as (Hj & Hx & _). rewrite <- (page_lookup _ _ _ Hj) in Hx |- *.
    by rewrite (wp_dma_inj _ _ WF j p (lookup_lt_Some _ _ _ Hj) Hp Hx).
  - apply list_find_None in F. eapply Forall_lookup_1 in F; [|done]. by rewrite (page_lookup _ _ _ Htp) in F.
Qed.

Lemma table_read mem0 s t v l p D :
  sim mem0 s t -> rep (sp_pool t) (sp_pat t) (nodes_ (pt s)) (get_word s) D (sp_map t) ->
  D !! (l, key (S l) v) = Some p ->
  gpu_read (sp_pool t) (mem s) (dma (page (sp_pool t) p)) (key l v mod 512) =
    Some (entry_word (sp_pool t) (sp_pat t) D (sp_map t) l (key l v)).
Proof.
  intros S R Hp. rewrite (gpu_read_page _ (sp_pat t)) by (apply S || by eapply (r_node R)).
  pose proof (r_word R _ _ _ _ Hp (mod512_range (key l v))) as Hw. unfold get_word in Hw.
  rewrite (pool_at_page _ _ _ _ (sm_static _ _ _ S)) in Hw. rewrite Hw. cbn [key]. by rewrite <- split512.
Qed.

Lemma gpu_walk_sim mem0 s t v l p D :
  sim mem0 s t -> rep (sp_pool t) (sp_pat t) (nodes_ (pt s)) (get_word s) D (sp_map t) ->
  0 <= v -> D !! (l, key (S l) v) = Some p -> (l <= 3)%nat ->
  gpu_walk (sp_pool t) (mem s) l (dma (page (sp_pool t) p)) v = sp_map t !! v.
Proof.
  intros S R Hv. revert p. induction l as [|l IH]; intros p Hp Hl; cbn [gpu_walk];
    rewrite (table_read _ _ _ _ _ _ _ S R Hp); cbn [mbind option_bind entry_word key].
  - destruct (sp_map t !! v) as [pte|] eqn:Em; [|done]. cbn.
    apply (r_leaf R) in Em as (_ & _ & ->). done.
  - cbn [key] in IH. destruct (D !! (l, key l v / 512)) as [q|] eqn:Hq.
    + unfold pde. rewrite sys_pde_present. destruct (r_node R _ _ _ Hq) as [Hql _].
      destruct (wp_dma _ _ (sm_wf _ _ _ S) q Hql). rewrite sys_pde_addr by done. apply IH; [done|lia].
    + cbn. destruct (sp_map t !! v) as [pte|] eqn:Em; [|done]. exfalso.
      pose proof (proj1 (r_leaf R _ _ Em)) as H0.
      destruct (path_up (sp_pool t) (sp_pat t) s s D (sp_map t) v l) as [? Hup]; [|done|lia|cbn [key] in Hup; congruence].
      apply holds_self; [apply S|done].
Qed.

(** ** Entries *)

Definition entry_ok (pool : list TablePage) (e : Z) : Prop :=
  exists data pat wr, e = sys_pte data pat wr /\ 0 <= data /\ dmaPage data = true /\ 0 <= pat <= 15 /\
    data ∉ dma <$> pool.

Definition entries_ok (st : option spec) : Prop :=
  match st with
  | None => True
  | Some t => forall v e, sp_map t !! v = Some e -> entry_ok (sp_pool t) e
  end.

Lemma spec_op_entries o st : op_words o -> entries_ok st -> entries_ok (spec_op o st).2.
Proof.
  intros Ho He. destruct st as [t|]; cbn [spec_op].
  - destruct o; cbn [spec_op fst snd]; [done|..|done|].
    + unfold spec_map. cbv zeta. destruct (sp_sealed t); repeat case_bool_decide; try done. cbn. destruct Ho as ([? _] & [? _] & [? _]).
      intros v e [[_ <-]|[_ Hv]]%lookup_insert_Some; [|by eapply He].
      exists data, pat, writable. split_and!; [done|done|apply dmaPage_spec; [done|split; [|lia]]|lia|lia|tauto].
      destruct (Z.eq_dec (data mod 4096) 0); tauto.
    + unfold spec_unmap. destruct (sp_sealed t); [done|]. destruct (spec_lookup owner va t) as [[] ?]; try done.
      cbn. intros v e [_ Hv]%lookup_delete_Some. by eapply He.
    + case_bool_decide; done.
  - destruct o; try done. cbn. unfold spec_init. destruct pool as [pool|]; [|done].
    case_bool_decide; [|done]. intros v e. cbn. by rewrite lookup_empty.
Qed.

Lemma spec_ops_entries ops st : Forall op_words ops -> entries_ok st -> entries_ok (spec_ops ops st).2.
Proof.
  intros Ho. revert st. induction Ho as [|o ops Ho _ IH]; intros st He; [done|].
  rewrite spec_ops_cons. cbn [snd]. apply IH. by apply spec_op_entries.
Qed.

(** ** A sealed object *)

Lemma sealed_op o s : sealed_ (pt s) = true -> is_Some (pool_ (pt s)) -> (run_op o s).2 = s.
Proof.
  intros Hs [pool Hp]. destruct o; cbn [run_op]; rewrite ?run_bind.
  - unfold initialize. rewrite run_bind. cbn. by rewrite Hp.
  - unfold map4K. rewrite run_bind. cbn. rewrite Hp, Hs. cbn.
    repeat (case_match; [done|]). done.
  - unfold unmap4K. rewrite run_bind. cbn. by rewrite Hs.
  - done.
  - unfold seal. rewrite run_bind. cbn. rewrite Hp. destruct (negb _); [done|].
    cbn. destruct s as [[] ?]. cbn in *. by subst.
Qed.

Lemma sealed_ops ops s : sealed_ (pt s) = true -> is_Some (pool_ (pt s)) -> (run_ops ops s).2 = s.
Proof.
  intros Hs Hp. induction ops as [|o ops IH]; [done|]. rewrite run_ops_cons. cbn [snd].
  by rewrite sealed_op.
Qed.

(** [C3] Once [seal] has returned a root, nothing that is called on the object changes the tables
    any more, and the GPU that walks them from that root finds, at every page of the 48-bit
    address space, exactly the entry of the abstract map at the time of the seal: the DMA
    address, the write permission and the PAT index of the last [map4K] of that page, and no
    translation where none was mapped.  No translation leads to a page of the pool, so the GPU
    cannot write its own tables. *)
Theorem sealed_translation mem0 ops owner root ops' :
  Forall op_words ops ->
  (seal owner 0 (run_ops ops (start mem0)).2).1 = (Ok, root) ->
  let sealed := (seal owner 0 (run_ops ops (start mem0)).2).2 in
  let s := (run_ops ops' sealed).2 in
  s = sealed /\
  exists t, (spec_ops ops None).2 = Some t /\ owner = sp_owner t /\
    forall v, 0 <= v < 2 ^ 36 ->
      gpu_walk (sp_pool t) (mem s) 3 root v = sp_map t !! v /\
      forall e, sp_map t !! v = Some e -> exists data pat wr,
        e = sys_pte data pat wr /\ Z.land e AddressMask = data /\ Z.testbit e 1 = wr /\
        data ∉ dma <$> sp_pool t.
Proof.
  intros Ho Hseal. destruct (ops_sim mem0 ops (start mem0) None) as [_ S]; [done..|].
  pose proof (spec_ops_entries ops None Ho I) as He.
  set (s1 := (run_ops ops (start mem0)).2) in *. destruct (spec_ops ops None).2 as [t|].
  2: { cbn in S. rewrite S in Hseal. done. }
  cbn [sim_state entries_ok] in S, He. unfold seal in *. rewrite run_bind in *. cbn [gets fst snd] in *.
  rewrite (st_pool (sm_static _ _ _ S)), (sm_owner _ _ _ S) in *.
  destruct (Z.eqb_spec owner (sp_owner t)) as [->|]; cbn [negb] in *; [|done].
  rewrite run_bind in *. cbn in Hseal. injection Hseal as <-.
  rewrite (pool_at_page _ _ _ _ (sm_static _ _ _ S)). split.
  { apply sealed_ops; [done|]. cbn. rewrite (st_pool (sm_static _ _ _ S)). by eexists. }
  rewrite sealed_ops; [|done|cbn; rewrite (st_pool (sm_static _ _ _ S)); by eexists].
  exists t. split; [done|]. split; [done|]. intros v Hv. split.
  - destruct (sm_dir _ _ _ S) as (D & R & _). refine (gpu_walk_sim mem0 s1 t v 3 0 D S R _ _ _); [lia|by eapply root_walk|lia].
  - intros e Hve. destruct (He v e Hve) as (data & pat & wr & -> & Hd & Hp & _ & Hn).
    exists data, pat, wr. split_and!; [done|by apply sys_pte_addr|by apply sys_pte_writable|done].
Qed.

Lemma sealed_translation_witness :
  let s := (run_ops (take 10 ex_ops) (start (fun _ => 255))).2 in
  (seal 7 0 s).1 = (Ok, 409600) /\
  gpu_walk ex_pool (mem (run_ops [OpUnmap 7 (2 ^ 21)] (seal 7 0 s).2).2) 3 409600 512 = Some 12313.
Proof.
  cbv zeta. assert (E : (seal 7 0 (run_ops (take 10 ex_ops) (start (fun _ => 255))).2).1 = (Ok, 409600))
    by (vm_compute; reflexivity).
  split; [exact E|].
  destruct (sealed_translation (fun _ => 255) (take 10 ex_ops) 7 409600 [OpUnmap 7 (2 ^ 21)]
    (Forall_take _ _ _ ex_ops_words) E) as (_ & t & Et & _ & Hw).
  specialize (Hw 512 ltac:(lia)). destruct Hw as [Hw _].
  vm_compute in Et. injection Et as <-. cbn [sp_pool sp_map] in Hw. etransitivity; [exact Hw|].
  vm_compute. reflexivity.
Defined.
