(* ===== verification/XeVirtual.v ===== *)
(** The GPU virtual memory of the Xe backend, class [VirtualMemory] of
    [Mellow/XeMemory.{hpp,cpp}]: ranges of GPU addresses that are reserved, pinned, bound, used
    by jobs, retired and reclaimed, against a backend that may fail at any call. *)
From stdpp Require Import base numbers list.
From S2P Require Import Prelude.
From S2P Require Import XeMemory.
Import XeMemory.

Module VirtualMemory.

(** * Data *)

Inductive State := StFree | StExcluded | StReserved | StPinned | StBound | StRetiring | StQuarantined.

#[export] Instance State_eq_dec : EqDecision State.
Proof. solve_decision. Defined.

Record Handle := { slot : Z; h_generation : Z }.
Record Fence := { timeline : Z; value : Z }.
(** Pointers are addresses; 0 is the null pointer. *)
Record Pin := { cookie : Z; dmaPages : Z; pageCount : Z }.

Record Allocation := {
  state : State;
  owner : Z;
  generation : Z;
  address : Z;
  bytes : Z;
  activeUses : Z;
  pin : Pin;
  lastUse : Fence;
}.

#[export] Instance Fence_eq_dec : EqDecision Fence.
Proof. solve_decision. Defined.
#[export] Instance Pin_eq_dec : EqDecision Pin.
Proof. solve_decision. Defined.
#[export] Instance Allocation_eq_dec : EqDecision Allocation.
Proof. solve_decision. Defined.

Definition no_pin : Pin := {| cookie := 0; dmaPages := 0; pageCount := 0 |}.
Definition no_fence : Fence := {| timeline := 0; value := 0 |}.
Definition no_allocation : Allocation := {|
  state := StFree; owner := 0; generation := 0; address := 0; bytes := 0; activeUses := 0;
  pin := no_pin; lastUse := no_fence |}.

Definition set_state v (a : Allocation) : Allocation :=
  {| state := v; owner := owner a; generation := generation a; address := address a; bytes := bytes a;
     activeUses := activeUses a; pin := pin a; lastUse := lastUse a |}.
Definition set_activeUses v (a : Allocation) : Allocation :=
  {| state := state a; owner := owner a; generation := generation a; address := address a; bytes := bytes a;
     activeUses := v; pin := pin a; lastUse := lastUse a |}.
Definition set_pin v (a : Allocation) : Allocation :=
  {| state := state a; owner := owner a; generation := generation a; address := address a; bytes := bytes a;
     activeUses := activeUses a; pin := v; lastUse := lastUse a |}.
Definition set_lastUse v (a : Allocation) : Allocation :=
  {| state := state a; owner := owner a; generation := generation a; address := address a; bytes := bytes a;
     activeUses := activeUses a; pin := pin a; lastUse := v |}.

Definition is_free (a : Allocation) : bool := bool_decide (state a = StFree).

(** The calls of the backend, for the allocation of a generation. *)
Inductive vm_event :=
  | EvPin (g : Z) (s : Status)
  | EvUnpin (g : Z) (s : Status)
  | EvBind (g : Z) (address bytes : Z) (s : Status)
  | EvUnbind (g : Z) (address bytes : Z) (s : Status)
  | EvFence (g : Z) (f : Fence) (complete : bool).

Section Virtual.
Context {W : Type}.

(** Callbacks on a world [W]; a null function pointer is [None], an out parameter is a result. *)
Record Backend := {
  b_pin : option (Z -> Z -> Pin -> W -> (Status * Pin) * W);
  b_unpin : option (Pin -> W -> (Status * Pin) * W);
  b_bind : option (Z -> Pin -> Z -> bool -> W -> Status * W);
  b_unbind : option (Z -> Z -> W -> Status * W);
  b_fenceComplete : option (Fence -> W -> bool * W);
  verifiedPatIndices : Z;
}.

Definition no_backend : Backend := {|
  b_pin := None; b_unpin := None; b_bind := None; b_unbind := None; b_fenceComplete := None;
  verifiedPatIndices := 0 |}.

(** [slots_] is [None] while the pointer is null; the array has [capacity_] elements. *)
Record VirtualMemory := {
  slots_ : option (list Allocation);
  first_ : Z;
  limit_ : Z;
  nextGeneration_ : Z;
  backend_ : Backend;
}.

Definition new_VirtualMemory : VirtualMemory := {|
  slots_ := None; first_ := 0; limit_ := 0; nextGeneration_ := 1; backend_ := no_backend |}.

Definition slots (t : VirtualMemory) : list Allocation := default [] (slots_ t).
Definition capacity_ (t : VirtualMemory) : nat := length (slots t).
Definition slot_at (t : VirtualMemory) (i : nat) : Allocation := default no_allocation (slots t !! i).

Definition set_slots (v : list Allocation) (t : VirtualMemory) : VirtualMemory :=
  {| slots_ := Some v; first_ := first_ t; limit_ := limit_ t; nextGeneration_ := nextGeneration_ t;
     backend_ := backend_ t |}.
Definition set_nextGeneration (v : Z) (t : VirtualMemory) : VirtualMemory :=
  {| slots_ := slots_ t; first_ := first_ t; limit_ := limit_ t; nextGeneration_ := v;
     backend_ := backend_ t |}.

(** The object, the world of the backend and the calls made so far, newest first. *)
Record machine := { vm : VirtualMemory; world : W; trace : list vm_event }.

(** The 64-bit word at an address of kernel memory. *)
Context (read64 : Z -> W -> Z).

Definition upd (f : VirtualMemory -> VirtualMemory) : ST machine unit :=
  modify (fun m => {| vm := f (vm m); world := world m; trace := trace m |}).
Definition upd_slot (i : nat) (f : Allocation -> Allocation) : ST machine unit :=
  upd (fun t => set_slots (alter f i (slots t)) t).
Definition call {A} (f : W -> A * W) (ev : A -> vm_event) : ST machine A := fun m =>
  let '(r, w) := f (world m) in
  (r, {| vm := vm m; world := w; trace := ev r :: trace m |}).

(** What an out parameter can hold. *)
Definition as_pin (p : Pin) : Pin := {|
  cookie := wrap 64 (cookie p); dmaPages := wrap 64 (dmaPages p); pageCount := wrap 64 (pageCount p) |}.

(** * Address space *)

Definition initialize (array : option nat) (first limit : Z) (backend : Backend) : ST machine Status :=
  t <-- gets vm ;;
  match slots_ t with
  | Some _ => ret Busy
  | None =>
      match array with
      | None => ret Invalid
      | Some capacity =>
          if (capacity =? 0)%nat || (limit <=? first) || (VaLimit <? limit) ||
             test first (PageSize - 1) || test limit (PageSize - 1) then ret Invalid
          else
            upd (fun t => {| slots_ := Some (replicate capacity no_allocation); first_ := first;
              limit_ := limit; nextGeneration_ := nextGeneration_ t; backend_ := backend |}) ;;;
            ret Ok
      end
  end.

(** An allocation in use that meets [[address, address + bytes)]. *)
Definition meets (addr n : Z) (a : Allocation) : bool :=
  negb (is_free a) && (addr <? address a +64 bytes a) && (address a <? addr +64 n).

Definition available (t : VirtualMemory) (addr n : Z) : bool :=
  if bool_decide (slots_ t = None) || (addr <? first_ t) || negb (span addr n (limit_ t)) ||
     test addr (PageSize - 1) || test n (PageSize - 1) then false
  else forallb (fun a => negb (meets addr n a)) (slots t).

(** The handle is set only with [Ok]. *)
Definition insert (own addr n : Z) (st : State) : ST machine (Status * option Handle) :=
  t <-- gets vm ;;
  if negb (available t addr n) then ret (Invalid, None)
  else if (nextGeneration_ t =? 0) || (nextGeneration_ t =? U64_MAX) then ret (NoSpace, None)
  else
    match list_find (fun a => state a = StFree) (slots t) with
    | None => ret (NoSpace, None)
    | Some (i, _) =>
        let g := nextGeneration_ t in
        upd (set_nextGeneration (g +64 1)) ;;;
        upd_slot i (fun _ => {| state := st; owner := own; generation := g; address := addr; bytes := n;
                                activeUses := 0; pin := no_pin; lastUse := no_fence |}) ;;;
        ret (Ok, Some {| slot := Z.of_nat i; h_generation := g |})
    end.

Definition exclude (addr n : Z) : ST machine Status :=
  r <-- insert 0 addr n StExcluded ;; ret r.1.

Definition reserveAt (own addr n : Z) : ST machine (Status * option Handle) :=
  if own =? 0 then ret (Invalid, None) else insert own addr n StReserved.

(** The inner loop of [reserve]: the end of the last allocation that the candidate meets. *)
Definition next_candidate (l : list Allocation) (candidate n : Z) : Z :=
  foldl (fun next a =>
    if meets candidate n a then if next <? address a +64 bytes a then address a +64 bytes a else next
    else next) candidate l.

(** The loop of [reserve]; [None] is the return value [NoSpace]. *)
Fixpoint search (fuel : nat) (t : VirtualMemory) (n alignment candidate : Z) : option (option Z) :=
  match fuel with
  | O => None
  | S fuel =>
      if negb (span candidate n (limit_ t)) then Some None
      else
        let next := next_candidate (slots t) candidate n in
        if next =? candidate then Some (Some candidate)
        else
          match alignUp next alignment with
          | None => Some None
          | Some candidate => search fuel t n alignment candidate
          end
  end.

(** One round more than there are slots; [search_terminates] shows that the fuel is enough, so
    that the last branch is never taken. *)
Definition reserve (own n alignment : Z) : ST machine (Status * option Handle) :=
  t <-- gets vm ;;
  if bool_decide (slots_ t = None) || (own =? 0) || (n =? 0) || test n (PageSize - 1) ||
     (alignment <? PageSize) || negb (powerOfTwo alignment) then ret (Invalid, None)
  else
    match alignUp (first_ t) alignment with
    | None => ret (NoSpace, None)
    | Some candidate =>
        match search (S (capacity_ t)) t n alignment candidate with
        | Some (Some candidate) => insert own candidate n StReserved
        | Some None => ret (NoSpace, None)
        | None => ret (BackendFailure, None)
        end
    end.

Definition lookup (t : VirtualMemory) (own : Z) (h : Handle) : Status :=
  if bool_decide (slots_ t = None) || (Z.of_nat (capacity_ t) <=? slot h) || (h_generation h =? 0)
  then NotFound
  else
    let a := slot_at t (Z.to_nat (slot h)) in
    if is_free a || bool_decide (state a = StExcluded) || negb (generation a =? h_generation h)
    then NotFound
    else if (own =? 0) || negb (owner a =? own) then WrongOwner
    else if bool_decide (state a = StQuarantined) then Quarantined
    else Ok.

Definition inspect (t : VirtualMemory) (own : Z) (h : Handle) : option Allocation :=
  if bool_decide (slots_ t = None) || (Z.of_nat (capacity_ t) <=? slot h) || (h_generation h =? 0) ||
     (own =? 0) then None
  else
    let a := slot_at t (Z.to_nat (slot h)) in
    if negb (is_free a) && bool_decide (state a <> StExcluded) && (generation a =? h_generation h) &&
       (owner a =? own) then Some a else None.

Definition occupied (t : VirtualMemory) : nat := length (filter (fun a => state a <> StFree) (slots t)).

(** The allocation of a handle; [k] is the rest of the operation. *)
Definition with_allocation (own : Z) (h : Handle) (k : nat -> Allocation -> ST machine Status)
    : ST machine Status :=
  t <-- gets vm ;;
  match lookup t own h with
  | Ok => k (Z.to_nat (slot h)) (slot_at t (Z.to_nat (slot h)))
  | found => ret found
  end.

(** * Pinning and binding *)

Definition quarantine (i : nat) : ST machine Status :=
  upd_slot i (set_state StQuarantined) ;;; ret Quarantined.

Definition pin_empty (p : Pin) : bool := (cookie p =? 0) && (dmaPages p =? 0) && (pageCount p =? 0).

Definition pin_valid (w : W) (p : Pin) (n : Z) : bool :=
  negb (cookie p =? 0) && negb (dmaPages p =? 0) && (pageCount p =? n / PageSize) &&
  forallb (fun i => dmaPage (wrap 64 (read64 (dmaPages p + 8 * i) w))) (seqZ 0 (pageCount p)).

Definition pin_op (own : Z) (h : Handle) : ST machine Status :=
  with_allocation own h (fun i a =>
    if bool_decide (state a <> StReserved) then ret Busy
    else
      t <-- gets vm ;;
      match b_pin (backend_ t), b_unpin (backend_ t) with
      | Some bpin, Some bunpin =>
          r <-- call (bpin own (bytes a) no_pin) (fun r => EvPin (generation a) r.1) ;;
          let pinned := as_pin r.2 in
          if bool_decide (r.1 <> Ok) then
            if negb (pin_empty pinned) then upd_slot i (set_pin pinned) ;;; quarantine i
            else ret r.1
          else
            w <-- gets world ;;
            if negb (pin_valid w pinned (bytes a)) then
              u <-- call (bunpin pinned) (fun u => EvUnpin (generation a) u.1) ;;
              if bool_decide (u.1 <> Ok) then upd_slot i (set_pin (as_pin u.2)) ;;; quarantine i
              else ret BackendFailure
            else
              upd_slot i (set_pin pinned) ;;;
              upd_slot i (set_state StPinned) ;;; ret Ok
      | _, _ => ret Unavailable
      end).

Definition bind_op (own : Z) (h : Handle) (pat : Z) (writable : bool) : ST machine Status :=
  with_allocation own h (fun i a =>
    if bool_decide (state a <> StPinned) then ret Busy
    else if 15 <? pat then ret Invalid
    else
      t <-- gets vm ;;
      match b_bind (backend_ t), b_unbind (backend_ t) with
      | Some bbind, Some _ =>
          if negb (test (verifiedPatIndices (backend_ t)) (Z.shiftl 1 pat)) then ret Unavailable
          else
            r <-- call (bbind (address a) (pin a) pat writable)
                       (EvBind (generation a) (address a) (bytes a)) ;;
            if bool_decide (r = Ok) then upd_slot i (set_state StBound) ;;; ret r
            else if bool_decide (r <> Unavailable) then quarantine i
            else ret r
      | _, _ => ret Unavailable
      end).

(** * Uses *)

Definition retainUse (own : Z) (h : Handle) : ST machine Status :=
  with_allocation own h (fun i a =>
    if bool_decide (state a <> StBound) then ret Busy
    else if activeUses a =? U32_MAX then ret NoSpace
    else upd_slot i (set_activeUses (wrap 32 (activeUses a + 1))) ;;; ret Ok).

Definition releaseUse (own : Z) (h : Handle) : ST machine Status :=
  with_allocation own h (fun i a =>
    if bool_decide (state a <> StBound) && bool_decide (state a <> StRetiring) then ret Busy
    else if activeUses a =? 0 then ret Invalid
    else upd_slot i (set_activeUses (wrap 32 (activeUses a - 1))) ;;; ret Ok).

Definition recordUse (own : Z) (h : Handle) (f : Fence) : ST machine Status :=
  with_allocation own h (fun i a =>
    if bool_decide (state a <> StBound) then ret Busy
    else if (timeline f =? 0) || (value f =? 0) ||
            (negb (timeline (lastUse a) =? 0) && negb (timeline (lastUse a) =? timeline f)) ||
            (value f <=? value (lastUse a)) then ret Invalid
    else upd_slot i (set_lastUse f) ;;; ret Ok).

(** * Retirement *)

Definition retire (own : Z) (h : Handle) : ST machine Status :=
  with_allocation own h (fun i a =>
    if bool_decide (state a = StRetiring) then ret Ok
    else if bool_decide (state a <> StBound) then ret Busy
    else upd_slot i (set_state StRetiring) ;;; ret Ok).

(** The last part of [reclaim]: give up the pin, if any, and the slot. *)
Definition release_slot (i : nat) : ST machine Status :=
  t <-- gets vm ;;
  let a := slot_at t i in
  if bool_decide (state a = StPinned) then
    match b_unpin (backend_ t) with
    | None => quarantine i
    | Some bunpin =>
        u <-- call (bunpin (pin a)) (fun u => EvUnpin (generation a) u.1) ;;
        upd_slot i (set_pin (as_pin u.2)) ;;;
        if bool_decide (u.1 <> Ok) then quarantine i
        else upd_slot i (fun _ => no_allocation) ;;; ret Ok
    end
  else upd_slot i (fun _ => no_allocation) ;;; ret Ok.

(** [true] when the last use recorded has completed, or none was recorded; the status is
    returned otherwise. *)
Definition last_use_done (a : Allocation) : ST machine (option Status) :=
  if value (lastUse a) =? 0 then ret None
  else
    t <-- gets vm ;;
    match b_fenceComplete (backend_ t) with
    | None => ret (Some Unavailable)
    | Some f =>
        c <-- call (f (lastUse a)) (EvFence (generation a) (lastUse a)) ;;
        ret (if negb c then Some Busy else None)
    end.

Definition reclaim (own : Z) (h : Handle) : ST machine Status :=
  with_allocation own h (fun i a =>
    if bool_decide (state a = StBound) then ret Busy
    else if bool_decide (state a = StRetiring) then
      if negb (activeUses a =? 0) then ret Busy
      else
        stop <-- last_use_done a ;;
        match stop with
        | Some r => ret r
        | None =>
            t <-- gets vm ;;
            match b_unbind (backend_ t) with
            | None => ret Unavailable
            | Some bunbind =>
                r <-- call (bunbind (address a) (bytes a)) (EvUnbind (generation a) (address a) (bytes a)) ;;
                if bool_decide (r = Unavailable) then ret r
                else if bool_decide (r <> Ok) then quarantine i
                else upd_slot i (set_state StPinned) ;;; release_slot i
            end
        end
    else release_slot i).
End Virtual.

Arguments Backend : clear implicits.
Arguments VirtualMemory : clear implicits.
Arguments machine : clear implicits.
End VirtualMemory.
