(* ===== verification/XeVirtualInv.v ===== *)
(** The invariant of [VirtualMemory]: exclusive ranges, unique generations, and the protocol
    that its calls of the backend follow. *)
From stdpp Require Import base numbers list.
From S2P Require Import Prelude.
From S2P Require Import StateWp.
From S2P Require Import XeMemory.
From S2P Require Import XeVirtual.
Import XeMemory VirtualMemory.

(** * The protocol of the backend *)

(** What the backend was asked to do with an allocation, from the calls made so far. *)
Inductive phase := PNone | PPinned | PBound | PUncertain.

Definition phase_after (p : phase) (ev : vm_event) : phase :=
  match ev with
  | EvPin _ s => if bool_decide (s = Ok) then PPinned else p
  | EvUnpin _ s => if bool_decide (s = Ok) then PNone else PUncertain
  | EvBind _ _ _ s =>
      if bool_decide (s = Ok) then PBound else if bool_decide (s = Unavailable) then p else PUncertain
  | EvUnbind _ _ _ s =>
      if bool_decide (s = Ok) then PPinned else if bool_decide (s = Unavailable) then p else PUncertain
  | EvFence _ _ _ => p
  end.

Definition ev_gen (ev : vm_event) : Z :=
  match ev with
  | EvPin g _ | EvUnpin g _ | EvBind g _ _ _ | EvUnbind g _ _ _ | EvFence g _ _ => g
  end.

Fixpoint phase_of (g : Z) (tr : list vm_event) : phase :=
  match tr with
  | [] => PNone
  | ev :: tr => if ev_gen ev =? g then phase_after (phase_of g tr) ev else phase_of g tr
  end.

(** When each call is legal. *)
Definition legal (p : phase) (ev : vm_event) : Prop :=
  match ev with
  | EvPin _ _ => p = PNone
  | EvUnpin _ _ => p = PPinned
  | EvBind _ _ _ _ => p = PPinned
  | EvUnbind _ _ _ _ => p = PBound
  | EvFence _ _ _ => p = PBound
  end.

Fixpoint legal_trace (tr : list vm_event) : Prop :=
  match tr with
  | [] => True
  | ev :: tr => legal (phase_of (ev_gen ev) tr) ev /\ legal_trace tr
  end.

Lemma vm_phase_other g g' evs tr :
  Forall (fun ev => ev_gen ev = g) evs -> g' <> g -> phase_of g' (evs ++ tr) = phase_of g' tr.
Proof.
  intros Hf Hn. induction Hf as [|ev evs He _ IH]; [done|]. cbn [app phase_of].
  by rewrite (proj2 (Z.eqb_neq _ _)) by congruence.
Qed.

Lemma phase_fresh g tr : Forall (fun ev => ev_gen ev < g) tr -> phase_of g tr = PNone.
Proof.
  intros Hf. induction Hf as [|ev tr He _ IH]; [done|]. cbn [phase_of].
  by rewrite (proj2 (Z.eqb_neq _ _)) by lia.
Qed.

(** The phase of an allocation in a given state. *)
Definition phase_ok (s : State) (p : phase) : Prop :=
  match s with
  | StFree | StQuarantined => True
  | StExcluded | StReserved => p = PNone
  | StPinned => p = PPinned
  | StBound | StRetiring => p = PBound
  end.

(** * The table *)

Definition live (a : Allocation) : Prop := state a <> StFree.

Definition disjoint (a b : Allocation) : Prop :=
  address a + bytes a <= address b \/ address b + bytes b <= address a.

Definition held_state (s : State) : Prop := s = StBound \/ s = StRetiring.

(** The life of one allocation, between addresses [lo] and [hi]. *)
Record allocation_ok (lo hi gen : Z) (a : Allocation) : Prop := {
  ao_low : lo <= address a;
  ao_high : address a + bytes a <= hi;
  ao_bytes : 0 < bytes a;
  ao_aligned : address a mod 4096 = 0 /\ bytes a mod 4096 = 0;
  ao_generation : 0 < generation a < gen;
  ao_uses : 0 <= activeUses a <= U32_MAX;
  ao_held : activeUses a <> 0 -> held_state (state a);
  ao_pin : state a = StPinned \/ held_state (state a) ->
    cookie (pin a) <> 0 /\ dmaPages (pin a) <> 0 /\ pageCount (pin a) = bytes a / 4096;
  ao_owner : state a <> StExcluded -> owner a <> 0;
  ao_fence : 0 <= value (lastUse a);
}.

Section Inv.
Context {W : Type}.
Implicit Types (t : VirtualMemory W) (m : machine W).

Record table_ok (lo hi gen : Z) (l : list Allocation) : Prop := {
  to_free : forall i a, l !! i = Some a -> state a = StFree -> a = no_allocation;
  to_live : forall i a, l !! i = Some a -> live a -> allocation_ok lo hi gen a;
  to_apart : forall i j a b, l !! i = Some a -> l !! j = Some b -> live a -> live b -> i <> j ->
    disjoint a b /\ generation a <> generation b;
}.

Record vm_ok t : Prop := {
  vo_range : slots_ t <> None ->
    0 <= first_ t < limit_ t /\ limit_ t <= 2 ^ 48 /\ first_ t mod 4096 = 0 /\ limit_ t mod 4096 = 0;
  vo_generation : 0 < nextGeneration_ t <= U64_MAX;
  vo_table : table_ok (first_ t) (limit_ t) (nextGeneration_ t) (slots t);
}.

Record minv m : Prop := {
  mi_vm : vm_ok (vm m);
  mi_phase : forall i a, slots (vm m) !! i = Some a -> live a ->
    phase_ok (state a) (phase_of (generation a) (trace m));
  mi_events : Forall (fun ev => ev_gen ev < nextGeneration_ (vm m)) (trace m);
  mi_legal : legal_trace (trace m);
}.

(** * Changing one slot *)

(** The calls [evs] took an allocation from [a] to [a'], which has [d] more uses. *)
Record good_move (d : Z) (a : Allocation) (evs : list vm_event) (a' : Allocation) : Prop := {
  gm_events : Forall (fun ev => ev_gen ev = generation a) evs;
  gm_legal : forall tr, phase_ok (state a) (phase_of (generation a) tr) -> legal_trace tr ->
    legal_trace (evs ++ tr) /\ phase_ok (state a') (phase_of (generation a) (evs ++ tr));
  gm_kept : a' = no_allocation \/
    (live a' /\ generation a' = generation a /\ address a' = address a /\ bytes a' = bytes a /\
     owner a' = owner a /\
     forall lo hi gen, allocation_ok lo hi gen a ->
       activeUses a' = activeUses a + d /\ allocation_ok lo hi gen a');
  gm_held : activeUses a <> 0 -> held_state (state a) ->
    evs = [] /\ held_state (state a') /\ generation a' = generation a /\ pin a' = pin a;
  gm_unbind : forall g addr n s, EvUnbind g addr n s ∈ evs ->
    state a = StRetiring /\ activeUses a = 0 /\ addr = address a /\ n = bytes a /\
    (value (lastUse a) <> 0 -> EvFence g (lastUse a) true ∈ evs);
}.

Record focus m0 (i : nat) (a : Allocation) (evs : list vm_event) m : Prop := {
  fo_vm : vm m = set_slots (<[i := a]> (slots (vm m0))) (vm m0);
  fo_trace : trace m = evs ++ trace m0;
}.

Lemma table_move lo hi gen (l : list Allocation) i a a' :
  table_ok lo hi gen l -> l !! i = Some a -> live a ->
  a' = no_allocation \/
  (live a' /\ generation a' = generation a /\ address a' = address a /\ bytes a' = bytes a /\
   allocation_ok lo hi gen a') ->
  table_ok lo hi gen (<[i := a']> l).
Proof.
  intros [Hf Hl Ha] Hi La Ha'. split.
  - intros j b [(<- & <- & _)|[_ Hj]]%list_lookup_insert_Some Hb; [|by eapply Hf].
    destruct Ha' as [->|[Hn _]]; [done|]. by destruct Hn.
  - intros j b [(<- & <- & _)|[_ Hj]]%list_lookup_insert_Some Hb; [|by eapply Hl].
    destruct Ha' as [->|(_ & _ & _ & _ & Hn)]; [|done]. by destruct Hb.
  - assert (Hone : forall j b, l !! j = Some b -> live b -> live a' -> i <> j ->
      disjoint a' b /\ generation a' <> generation b).
    { intros j b Hj Hb Hla Hne. destruct Ha' as [->|(_ & Eg & Ea & Eb & _)]; [by destruct Hla|].
      unfold disjoint. rewrite Eg, Ea, Eb. by eapply Ha. }
    intros j k b c [(<- & <- & _)|[Hij Hj]]%list_lookup_insert_Some
      [(<- & <- & _)|[Hik Hk]]%list_lookup_insert_Some Hb Hc Hne; [done|by eapply Hone| |by eapply Ha].
    destruct (Hone j b) as [[?|?] ?]; [done..| |]; (split; [unfold disjoint; lia|congruence]).
Qed.

Lemma move_minv d m0 i a a' evs m :
  minv m0 -> slots_ (vm m0) <> None -> slots (vm m0) !! i = Some a -> live a ->
  focus m0 i a' evs m -> good_move d a evs a' -> minv m.
Proof.
  intros [[Hr Hg Ht] Hp He Hl] Hs Hi La [E T] G.
  pose proof (to_live _ _ _ _ Ht _ _ Hi La) as Hao. pose proof (gm_events _ _ _ _ G) as Hev.
  destruct (gm_legal _ _ _ _ G (trace m0) (Hp _ _ Hi La) Hl) as [Hlegal Hph].
  split.
  - rewrite E. split; cbn; [by intros _; apply Hr|done|].
    eapply table_move; [done..|]. destruct (gm_kept _ _ _ _ G) as [->|(? & ? & ? & ? & ? & Hk)]; [by left|].
    right. destruct (Hk _ _ _ Hao). split_and!; auto.
  - rewrite E, T. cbn. intros j b [(<- & <- & _)|[Hne Hj]]%list_lookup_insert_Some Hb.
    + destruct (gm_kept _ _ _ _ G) as [->|(_ & -> & _)]; [by destruct Hb|done].
    + rewrite (vm_phase_other (generation a)); [by eapply Hp|done|].
      by destruct (to_apart _ _ _ _ Ht j i b a Hj Hi Hb La ltac:(congruence)).
  - rewrite E, T. cbn. apply Forall_app. split; [|done].
    eapply Forall_impl; [exact Hev|]. intros ev ->. apply (ao_generation _ _ _ _ Hao).
  - by rewrite T.
Qed.
End Inv.
