(* ===== verification/XeVirtualOps.v ===== *)
(** Every operation on an allocation of [VirtualMemory] moves one slot legally, whatever the
    backend does. *)
From stdpp Require Import base numbers list sets.
From S2P Require Import Prelude.
From S2P Require Import StateWp.
From S2P Require Import XeMemory.
From S2P Require Import XeVirtual.
From S2P Require Import XeVirtualInv.
Import XeMemory VirtualMemory.

Section Ops.
Context {W : Type}.
Implicit Types (t : VirtualMemory W) (m : machine W).

(** The operation did nothing, or moved one slot and added [d] uses to it. *)
Definition moved (d : Z) m m' : Prop :=
  m' = m \/
  exists i a a' evs, slots (vm m) !! i = Some a /\ live a /\ focus m i a' evs m' /\ good_move d a evs a'.

Lemma moved_minv d m m' : minv m -> slots_ (vm m) <> None -> moved d m m' -> minv m'.
Proof. intros Hm Hs [->|(i & a & a' & evs & ? & ? & ? & ?)]; [done|]. by eapply move_minv. Qed.

(** * Symbolic execution on one slot *)

(** An allocation that a handle gives access to. *)
Record usable m (i : nat) (a : Allocation) : Prop := {
  us_slot : slots (vm m) !! i = Some a;
  us_free : state a <> StFree;
  us_excluded : state a <> StExcluded;
  us_quarantined : state a <> StQuarantined;
}.

Lemma lookup_ok t own h :
  lookup t own h = Ok ->
  exists a, slots t !! Z.to_nat (slot h) = Some a /\ slot_at t (Z.to_nat (slot h)) = a /\
    state a <> StFree /\ state a <> StExcluded /\ state a <> StQuarantined /\
    generation a = h_generation h /\ owner a = own.
Proof.
  unfold lookup. intros H. case_if_in H as E1; [done|]. case_if_in H as E2; [done|].
  case_if_in H as E3; [done|]. case_if_in H as E4; [done|]. clear H.
  apply bool_decide_eq_false in E4.
  unfold is_free in E2. rewrite !orb_false_iff, !bool_decide_eq_false, negb_false_iff, Z.eqb_eq in E2.
  rewrite orb_false_iff, negb_false_iff, Z.eqb_eq in E3.
  unfold slot_at in *. destruct (slots t !! Z.to_nat (slot h)) as [a|] eqn:Ea; cbn in *.
  - exists a. tauto.
  - tauto.
Qed.

Lemma wp_with_allocation m own h k (Q : Status -> machine W -> Prop) :
  (forall r, Q r m) -> (forall i a, usable m i a -> wp (k i a) Q m) -> wp (with_allocation own h k) Q m.
Proof.
  intros HQ Hk. unfold with_allocation. wp_steps.
  destruct (lookup (vm m) own h) eqn:E; try (apply wp_ret, HQ).
  apply lookup_ok in E as (a & Ha & Es & ? & ? & ? & _). rewrite Es. by apply Hk.
Qed.

Section Focus.
Context (m0 : machine W) (i : nat) (a0 : Allocation) (Hi : slots (vm m0) !! i = Some a0).

Lemma vm_focus_slot a evs m : focus m0 i a evs m -> slot_at (vm m) i = a.
Proof.
  intros [-> _]. unfold slot_at, slots. cbn. rewrite list_lookup_insert_eq; [done|].
  by eapply lookup_lt_Some.
Qed.

Lemma focus_backend a evs m : focus m0 i a evs m -> backend_ (vm m) = backend_ (vm m0).
Proof. by intros [-> _]. Qed.

Lemma focus_start : slots_ (vm m0) <> None -> focus m0 i a0 [] m0.
Proof.
  intros Hs. split; [|done]. rewrite list_insert_id by done. unfold slots.
  destruct (vm m0) as [[l|]]; done.
Qed.

Lemma wp_vm_slot a evs m f (Q : unit -> machine W -> Prop) :
  focus m0 i a evs m -> (forall m', focus m0 i (f a) evs m' -> Q tt m') -> wp (upd_slot i f) Q m.
Proof.
  intros [E T] HQ. apply HQ. split; cbn; [|done]. rewrite E. unfold slots at 1. cbn. unfold set_slots. cbn.
  do 2 f_equal. apply list_eq. intros j. destruct (decide (i = j)) as [<-|Hne].
  - rewrite list_lookup_alter_eq, !list_lookup_insert_eq by (by eapply lookup_lt_Some). done.
  - by rewrite list_lookup_alter_ne, !list_lookup_insert_ne by done.
Qed.

Lemma wp_vm_call {A} a evs m (f : W -> A * W) ev (Q : A -> machine W -> Prop) :
  focus m0 i a evs m -> (forall r m', focus m0 i a (ev r :: evs) m' -> Q r m') -> wp (call f ev) Q m.
Proof.
  intros [E T] HQ. unfold wp, call. destruct (f (world m)) as [r w]. apply HQ.
  split; cbn; [done|]. by rewrite T.
Qed.

Lemma wp_vm_quarantine a evs m (Q : Status -> machine W -> Prop) :
  focus m0 i a evs m -> (forall m', focus m0 i (set_state StQuarantined a) evs m' -> Q Quarantined m') ->
  wp (quarantine i) Q m.
Proof. intros Hf HQ. unfold quarantine. wp_steps. eapply wp_vm_slot; [done|]. intros m' Hf'. by apply wp_ret, HQ. Qed.
End Focus.
(** * Moves *)

(** What a move keeps of an allocation that stays in its slot. *)
Definition kept (d : Z) (a a' : Allocation) : Prop :=
  live a' /\ generation a' = generation a /\ address a' = address a /\ bytes a' = bytes a /\
  owner a' = owner a /\
  forall lo hi gen, allocation_ok lo hi gen a -> activeUses a' = activeUses a + d /\ allocation_ok lo hi gen a'.

Lemma kept_state a st p :
  state a <> StExcluded -> st <> StFree -> (activeUses a <> 0 -> held_state st) ->
  (st = StPinned \/ held_state st -> cookie p <> 0 /\ dmaPages p <> 0 /\ pageCount p = bytes a / 4096) ->
  kept 0 a (set_state st (set_pin p a)).
Proof.
  intros Hx Hf Hu Hp. split_and!; [done..|]. intros lo hi gen []. split; [cbn; lia|]. split; cbn; auto.
Qed.

Lemma kept_quarantine a p :
  state a <> StExcluded -> activeUses a = 0 -> kept 0 a (set_state StQuarantined (set_pin p a)).
Proof. intros Hx Hu. apply kept_state; [done..|by intros []|]. intros [?|[?|?]]; done. Qed.

Lemma kept_refl a : live a -> kept 0 a a.
Proof. intros Hl. split_and!; auto. intros lo hi gen Ha. split; [lia|done]. Qed.

Lemma set_pin_id a : set_pin (pin a) a = a.
Proof. by destruct a. Qed.

(** Evaluate the phases along a move whose first state and statuses are known. *)
Ltac phases :=
  let tr := fresh "tr" in let Hp := fresh "Hp" in let Hl := fresh "Hl" in
  intros tr Hp Hl;
  repeat match goal with E : state _ = _ |- _ => rewrite E in Hp; rewrite ?E end;
  cbn in Hp |- *; rewrite ?Z.eqb_refl; cbn;
  repeat first [rewrite bool_decide_true by done | rewrite bool_decide_false by done];
  cbn; rewrite ?Hp; cbn;
  repeat first [rewrite bool_decide_true by done | rewrite bool_decide_false by done];
  split_and!; auto.

(** A move that makes no call. *)
Lemma quiet_move d a a' :
  kept d a a' \/ a' = no_allocation ->
  (forall p, phase_ok (state a) p -> phase_ok (state a') p) ->
  (activeUses a <> 0 -> held_state (state a) ->
   held_state (state a') /\ generation a' = generation a /\ pin a' = pin a) ->
  good_move d a [] a'.
Proof.
  intros Hk Hp Hh. split; [constructor| | | |].
  - intros tr Ht Hl. cbn. auto.
  - destruct Hk as [Hk| ->]; [by right|by left].
  - intros H1 H2. destruct (Hh H1 H2) as (? & ? & ?). done.
  - intros g addr n s H. by apply elem_of_nil in H.
Qed.

(** A move of an allocation that no job uses. *)
Lemma call_move d a evs a' :
  kept d a a' \/ a' = no_allocation ->
  Forall (fun ev => ev_gen ev = generation a) evs ->
  (forall tr, phase_ok (state a) (phase_of (generation a) tr) -> legal_trace tr ->
    legal_trace (evs ++ tr) /\ phase_ok (state a') (phase_of (generation a) (evs ++ tr))) ->
  (held_state (state a) -> activeUses a = 0) ->
  (forall g addr n s, EvUnbind g addr n s ∈ evs ->
    state a = StRetiring /\ addr = address a /\ n = bytes a /\
    (value (lastUse a) <> 0 -> EvFence g (lastUse a) true ∈ evs)) ->
  good_move d a evs a'.
Proof.
  intros Hk He Hp Hu Hb. split; [done|done| | |].
  - destruct Hk as [Hk| ->]; [by right|by left].
  - intros H1 H2. by destruct H1; apply Hu.
  - intros g addr n s H. apply Hb in H as (Hs & ? & ? & ?). split_and!; try done.
    apply Hu. by right.
Qed.

Lemma not_unbind evs :
  Forall (fun ev => match ev with EvUnbind _ _ _ _ => False | _ => True end) evs ->
  forall g addr n s (P : Prop), EvUnbind g addr n s ∈ evs -> P.
Proof. intros Hf g addr n s P H. rewrite Forall_forall in Hf. by apply Hf in H. Qed.

Lemma good_stay a : live a -> good_move 0 a [] a.
Proof. intros Hl. apply quiet_move; [left; by apply kept_refl|done|done]. Qed.

Lemma unheld_uses m i a : minv m -> usable m i a -> ~ held_state (state a) -> activeUses a = 0.
Proof.
  intros Hm [Hi Hf _ _] Hn. destruct (decide (activeUses a = 0)) as [|Hu]; [done|].
  destruct Hn. eapply ao_held; [|done]. eapply to_live; [apply (vo_table _ (mi_vm _ Hm))|done|done].
Qed.

(** Finish an operation that moved slot [i] from [a]. *)
Lemma moved_intro d m i a a' evs m' :
  usable m i a -> focus m i a' evs m' -> good_move d a evs a' -> moved d m m'.
Proof. intros [Hi Hf _ _] Hfo HG. right. by exists i, a, a', evs. Qed.

Notation spec d op m := (wp op (fun _ m' => moved d m m') m).

(** ** [pin] *)

(** A move with calls, none of them an unbind; [K] is what it keeps. *)
Tactic Notation "by_call" constr(K) :=
  apply call_move;
    [left; apply K; solve [done | auto | by intros; split_and!]|by repeat constructor|by phases|by auto
    |intros ? ? ? ?; by apply not_unbind; repeat constructor].

Ltac unheld E := let H := fresh in intros [H|H]; rewrite E in H; done.

Lemma pin_ok (read64 : Z -> W -> Z) m own h : minv m -> slots_ (vm m) <> None -> spec 0 (pin_op read64 own h) m.
Proof.
  intros Hm Hs. apply wp_with_allocation; [by left|]. intros i a Ha. wp_steps; [by left|].
  apply bool_decide_eq_false, dec_stable in Hcond. rename Hcond into E.
  assert (Hu : activeUses a = 0) by (eapply unheld_uses; [done..|unheld E]).
  destruct (b_pin (backend_ (vm m))) as [bpin|]; [|by left].
  destruct (b_unpin (backend_ (vm m))) as [bunpin|]; [|by left]. wp_steps.
  pose proof (us_slot _ _ _ Ha) as Hi. pose proof (us_excluded _ _ _ Ha) as Hx.
  assert (Hl : live a) by apply Ha.
  eapply wp_vm_call; [by apply focus_start|]. intros [r p] m1 F1. cbn [fst snd] in *. wp_steps.
  - (* a failure that leaves a pin *)
    apply bool_decide_eq_true in Hcond. eapply wp_vm_slot; [done..|]. intros m2 F2. wp_steps.
    eapply wp_vm_quarantine; [done..|]. intros m3 F3. eapply moved_intro; [done..|].
    by_call kept_quarantine.
  - (* a failure *)
    apply bool_decide_eq_true in Hcond. eapply moved_intro; [done..|].
    by_call kept_refl.
  - (* an invalid pin *)
    apply bool_decide_eq_false, dec_stable in Hcond as ->. eapply wp_vm_call; [done..|]. intros [u q] m2 F2.
    cbn [fst snd] in *. wp_steps.
    + apply bool_decide_eq_true in Hcond. eapply wp_vm_slot; [done..|]. intros m3 F3. wp_steps.
      eapply wp_vm_quarantine; [done..|]. intros m4 F4. eapply moved_intro; [done..|].
      by_call kept_quarantine.
    + apply bool_decide_eq_false, dec_stable in Hcond as ->. eapply moved_intro; [done..|].
      by_call kept_refl.
  - (* pinned *)
    apply bool_decide_eq_false, dec_stable in Hcond as ->. eapply wp_vm_slot; [done..|]. intros m2 F2. wp_steps.
    eapply wp_vm_slot; [done..|]. intros m3 F3. wp_steps. eapply moved_intro; [done..|].
    apply negb_false_iff in Hcond0. unfold pin_valid in Hcond0.
    rewrite !andb_true_iff, !negb_true_iff, !Z.eqb_neq, Z.eqb_eq in Hcond0. destruct Hcond0 as [[[? ?] ?] _].
    by_call kept_state.
Qed.
(** ** [bind] *)

Lemma kept_pinned_bound a : state a = StPinned -> kept 0 a (set_state StBound a).
Proof.
  intros E. split_and!; [done..|]. intros lo hi gen []. split; [cbn; lia|]. split; cbn; auto.
  - by left.
  - intros _. apply ao_owner. by rewrite E.
Qed.

Lemma kept_quarantine_only a :
  state a <> StExcluded -> activeUses a = 0 -> kept 0 a (set_state StQuarantined a).
Proof. intros. rewrite <- (set_pin_id a) at 2. by apply kept_quarantine. Qed.

Lemma bind_ok m own h pat wr : minv m -> slots_ (vm m) <> None -> spec 0 (bind_op own h pat wr) m.
Proof.
  intros Hm Hs. apply wp_with_allocation; [by left|]. intros i a Ha. wp_steps; [by left|by left|].
  apply bool_decide_eq_false, dec_stable in Hcond. rename Hcond into E.
  assert (Hu : activeUses a = 0) by (eapply unheld_uses; [done..|unheld E]).
  destruct (b_bind (backend_ (vm m))) as [bbind|]; [|by left].
  destruct (b_unbind (backend_ (vm m))) as [bunbind|]; [|by left]. wp_steps; [by left|].
  pose proof (us_slot _ _ _ Ha) as Hi. pose proof (us_excluded _ _ _ Ha) as Hx.
  assert (Hl : live a) by apply Ha.
  eapply wp_vm_call; [by apply focus_start|]. intros r m1 F1.
  apply wp_if; intros Hb; [|apply wp_if; intros Hb']; wp_steps.
  - apply bool_decide_eq_true in Hb as ->. eapply wp_vm_slot; [done..|]. intros m2 F2. wp_steps.
    eapply moved_intro; [done..|]. by_call kept_pinned_bound.
  - apply bool_decide_eq_false in Hb. apply bool_decide_eq_true in Hb'.
    eapply wp_vm_quarantine; [done..|]. intros m2 F2. eapply moved_intro; [done..|]. by_call kept_quarantine_only.
  - apply bool_decide_eq_false, dec_stable in Hb' as ->. eapply moved_intro; [done..|]. by_call kept_refl.
Qed.

(** ** Uses *)

Lemma vm_retain_ok m own h : minv m -> slots_ (vm m) <> None -> spec 1 (retainUse own h) m.
Proof.
  intros Hm Hs. apply wp_with_allocation; [by left|]. intros i a Ha. wp_steps; [by left|by left|].
  apply bool_decide_eq_false, dec_stable in Hcond. apply Z.eqb_neq in Hcond0.
  pose proof (us_slot _ _ _ Ha) as Hi. eapply wp_vm_slot; [done|by apply focus_start|]. intros m1 F1. wp_steps.
  eapply moved_intro; [done..|]. apply quiet_move; [left| |]; cbn.
  - split_and!; [apply Ha|done..|]. intros lo hi gen []. unfold U32_MAX in *. cbn. rewrite wrap_small by lia.
    split; [done|]. split; cbn; auto; [unfold U32_MAX; lia|by left].
  - done.
  - done.
Qed.

Lemma vm_release_ok m own h : minv m -> slots_ (vm m) <> None -> spec (-1) (releaseUse own h) m.
Proof.
  intros Hm Hs. apply wp_with_allocation; [by left|]. intros i a Ha. wp_steps; [by left|by left|].
  apply Z.eqb_neq in Hcond0. pose proof (us_slot _ _ _ Ha) as Hi.
  eapply wp_vm_slot; [done|by apply focus_start|]. intros m1 F1. wp_steps.
  eapply moved_intro; [done..|]. apply quiet_move; [left| |]; cbn.
  - split_and!; [apply Ha|done..|]. intros lo hi gen []. unfold U32_MAX in *. cbn. rewrite wrap_small by lia.
    split; [lia|]. split; cbn; auto. unfold U32_MAX. lia.
  - done.
  - done.
Qed.

Lemma record_ok m own h f : minv m -> slots_ (vm m) <> None -> spec 0 (recordUse own h f) m.
Proof.
  intros Hm Hs. apply wp_with_allocation; [by left|]. intros i a Ha. wp_steps; [by left|by left|].
  rewrite !orb_false_iff, Z.leb_gt in Hcond0. pose proof (us_slot _ _ _ Ha) as Hi.
  eapply wp_vm_slot; [done|by apply focus_start|]. intros m1 F1. wp_steps.
  eapply moved_intro; [done..|]. apply quiet_move; [left|done|done].
  split_and!; [apply Ha|done..|]. intros lo hi gen []. split; [cbn; lia|]. split; cbn; auto. lia.
Qed.

Lemma vm_retire_ok m own h : minv m -> slots_ (vm m) <> None -> spec 0 (retire own h) m.
Proof.
  intros Hm Hs. apply wp_with_allocation; [by left|]. intros i a Ha. wp_steps; [by left|by left|].
  apply bool_decide_eq_false, dec_stable in Hcond0. pose proof (us_slot _ _ _ Ha) as Hi.
  eapply wp_vm_slot; [done|by apply focus_start|]. intros m1 F1. wp_steps.
  eapply moved_intro; [done..|]. apply quiet_move; [left| |]; cbn.
  - split_and!; [done..|]. intros lo hi gen []. split; [cbn; lia|]. split; cbn; auto.
    + by right.
    + intros _. apply ao_pin. right. by left.
    + intros _. apply ao_owner. by rewrite Hcond0.
  - by rewrite Hcond0.
  - intros _ _. split_and!; [by right|done|done].
Qed.
(** ** [reclaim] *)

Lemma wp_release_slot m0 i a0 a evs m (Q : Status -> machine W -> Prop) :
  slots (vm m0) !! i = Some a0 -> focus m0 i a evs m ->
  (state a <> StPinned -> forall m', focus m0 i no_allocation evs m' -> Q Ok m') ->
  (state a = StPinned -> forall m', focus m0 i (set_state StQuarantined a) evs m' -> Q Quarantined m') ->
  (state a = StPinned -> forall m', focus m0 i no_allocation (EvUnpin (generation a) Ok :: evs) m' -> Q Ok m') ->
  (state a = StPinned -> forall u p m', u <> Ok ->
     focus m0 i (set_state StQuarantined (set_pin p a)) (EvUnpin (generation a) u :: evs) m' -> Q Quarantined m') ->
  wp (release_slot i) Q m.
Proof.
  intros Hi F Q1 Q2 Q3 Q4. unfold release_slot. wp_step. wp_step. rewrite (vm_focus_slot _ _ _ Hi _ _ _ F).
  wp_step.
  - apply bool_decide_eq_true in Hcond. destruct (b_unpin (backend_ (vm m))) as [bunpin|].
    + wp_step. eapply wp_vm_call; [done|]. intros [u p] m1 F1. wp_step.
      eapply wp_vm_slot; [done..|]. intros m2 F2. cbn [fst snd] in *. wp_step.
      * apply bool_decide_eq_true in Hcond0. eapply wp_vm_quarantine; [done..|]. intros m3 F3. by eapply Q4.
      * apply bool_decide_eq_false, dec_stable in Hcond0 as ->. wp_step.
        eapply wp_vm_slot; [done..|]. intros m3 F3. by apply wp_ret, Q3.
    + eapply wp_vm_quarantine; [done..|]. intros m1 F1. by apply Q2.
  - apply bool_decide_eq_false in Hcond. wp_step. eapply wp_vm_slot; [done..|]. intros m1 F1.
    by apply wp_ret, Q1.
Qed.

(** The question about the last use, if there was one. *)
Definition fence_asked (a : Allocation) (evs : list vm_event) : Prop :=
  (value (lastUse a) = 0 /\ evs = []) \/ evs = [EvFence (generation a) (lastUse a) true].

Lemma wp_last_use_done m0 i a m (Q : option Status -> machine W -> Prop) :
  focus m0 i a [] m ->
  (forall r, Q (Some r) m) ->
  (forall m', focus m0 i a [EvFence (generation a) (lastUse a) false] m' -> Q (Some Busy) m') ->
  (forall evs m', fence_asked a evs -> focus m0 i a evs m' -> Q None m') ->
  wp (last_use_done a) Q m.
Proof.
  intros F Q1 Q2 Q3. unfold last_use_done. wp_step.
  { apply wp_ret. apply (Q3 []); [left|done]. apply Z.eqb_eq in Hcond. done. }
  wp_step. wp_step. destruct (b_fenceComplete (backend_ (vm m))) as [f|]; [|by apply wp_ret].
  wp_step. eapply wp_vm_call; [done|]. intros [] m1 F1; apply wp_ret; [|by apply Q2].
  eapply Q3; [|done]. by right.
Qed.

(** A move that asks whether the last use has completed and unbinds. *)
Tactic Notation "by_unbind" constr(K) :=
  lazymatch goal with Hfe : fence_asked _ _ |- _ =>
    destruct Hfe as [[? ->]| ->];
    (apply call_move;
      [first [by right | left; apply K; solve [done | auto]]|by repeat constructor|by phases|by auto
      |intros ? ? ? ? Hin; rewrite ?elem_of_cons in Hin;
       repeat match type of Hin with _ \/ _ => destruct Hin as [Hin|Hin] end;
       first [discriminate Hin | by apply elem_of_nil in Hin
             |injection Hin as -> -> -> ->; split_and!; [done..|]; intros ?; first [done | set_solver]]])
  end.

Lemma reclaim_ok m own h : minv m -> slots_ (vm m) <> None -> spec 0 (reclaim own h) m.
Proof.
  intros Hm Hs. apply wp_with_allocation; [by left|]. intros i a Ha.
  pose proof (us_slot _ _ _ Ha) as Hi. pose proof (us_excluded _ _ _ Ha) as Hx.
  assert (Hl : live a) by apply Ha. pose proof (focus_start m i a Hi Hs) as F0.
  wp_step; [by left|]. apply bool_decide_eq_false in Hcond. wp_step.
  2: { (* reserved or pinned *)
    apply bool_decide_eq_false in Hcond0.
    assert (Hnh : ~ held_state (state a)) by (intros []; done).
    assert (Hu : activeUses a = 0) by (by eapply unheld_uses).
    eapply wp_release_slot; [done..| | | |].
    - intros _ m' F. eapply moved_intro; [done..|]. apply quiet_move; [by right|done|done].
    - intros E m' F. eapply moved_intro; [done..|]. apply quiet_move; [left; by apply kept_quarantine_only|done|done].
    - intros E m' F. eapply moved_intro; [done..|].
      apply call_move; [by right|by repeat constructor|by phases|by auto|].
      intros ? ? ? ?. by apply not_unbind; repeat constructor.
    - intros E u p m' Hu' F. eapply moved_intro; [done..|]. by_call kept_quarantine. }
  apply bool_decide_eq_true in Hcond0. rename Hcond0 into E. wp_step; [by left|].
  apply negb_false_iff, Z.eqb_eq in Hcond0. rename Hcond0 into Hu. wp_step.
  eapply wp_last_use_done; [done|by left| |].
  { intros m' F. eapply moved_intro; [done..|]. by_call kept_refl. }
  intros fe m1 Hfe F1. wp_step. wp_step.
  destruct (b_unbind (backend_ (vm m1))) as [bunbind|].
  2: { eapply moved_intro; [done..|]. by_unbind kept_refl. }
  wp_step. eapply wp_vm_call; [done|]. intros r m2 F2. wp_step.
  { apply bool_decide_eq_true in Hcond0 as ->. eapply moved_intro; [done..|]. by_unbind kept_refl. }
  apply bool_decide_eq_false in Hcond0. wp_step.
  { apply bool_decide_eq_true in Hcond1. eapply wp_vm_quarantine; [done..|]. intros m3 F3.
    eapply moved_intro; [done..|]. by_unbind kept_quarantine_only. }
  apply bool_decide_eq_false, dec_stable in Hcond1 as ->. wp_step. eapply wp_vm_slot; [done..|]. intros m3 F3.
  assert (Hk : forall p, kept 0 a (set_state StQuarantined (set_pin p (set_state StPinned a)))).
  { intros p. pose proof (kept_quarantine a p Hx Hu) as H. done. }
  eapply wp_release_slot; [done..| | | |]; cbn [state set_state generation].
  - done.
  - intros _ m' F. eapply moved_intro; [done..|].
    replace (set_state StQuarantined (set_state StPinned a)) with (set_state StQuarantined a) by done.
    by_unbind kept_quarantine_only.
  - intros _ m' F. eapply moved_intro; [done..|]. by_unbind Hk.
  - intros _ u p m' Hu' F. eapply moved_intro; [done..|]. by_unbind Hk.
Qed.
End Ops.

(** * The address space of [VirtualMemory]: insertion of a range, and the first-fit search of     [reserve] *)

(** * Alignment *)

Lemma powerOfTwo_spec v : word 64 v -> powerOfTwo v = true -> exists k, 0 <= k < 64 /\ v = 2 ^ k.
Proof.
  intros [H0 H64] H. unfold powerOfTwo in H. apply andb_true_iff in H as [Hz Hl].
  apply negb_true_iff, Z.eqb_neq in Hz. apply Z.eqb_eq in Hl. rewrite sub64_small in Hl by lia.
  pose proof (Z.log2_spec v ltac:(lia)) as Hlog. set (k := Z.log2 v) in *.
  assert (0 <= k) by apply Z.log2_nonneg.
  exists k. split.
  - split; [done|]. apply (Z.pow_lt_mono_r_iff 2); lia.
  - destruct (Z.eq_dec v (2 ^ k)) as [|Hne]; [done|]. exfalso.
    assert (Hb : Z.testbit (v - 1) k = true).
    { rewrite <- (Z.log2_unique (v - 1) k) by lia. apply Z.bit_log2. lia. }
    assert (Hv : Z.testbit v k = true) by (apply Z.bit_log2; lia).
    pose proof (Z.land_spec v (v - 1) k) as Hs. rewrite Hl, Hb, Hv in Hs. by rewrite Z.bits_0 in Hs.
Qed.

Lemma alignUp_spec v k :
  0 <= k < 64 -> 0 <= v -> v + 2 ^ k <= 2 ^ 64 ->
  exists c, alignUp v (2 ^ k) = Some c /\ v <= c /\ c mod 2 ^ k = 0 /\
    forall c', v <= c' -> c' mod 2 ^ k = 0 -> c <= c'.
Proof.
  intros Hk Hv Hs. assert (Hp : 0 < 2 ^ k) by (apply Z.pow_pos_nonneg; lia).
  assert (H1 : 2 ^ k -64 1 = 2 ^ k - 1) by (rewrite sub64_small by lia; done).
  exists (2 ^ k * ((v + 2 ^ k - 1) / 2 ^ k)).
  pose proof (Z.div_mod (v + 2 ^ k - 1) (2 ^ k) ltac:(lia)) as Hd.
  pose proof (Z.mod_pos_bound (v + 2 ^ k - 1) (2 ^ k) Hp) as Hm. split_and!.
  - unfold alignUp, U64_MAX. rewrite H1.
    assert (powerOfTwo (2 ^ k) = true) as ->.
    { unfold powerOfTwo. rewrite H1, (proj2 (Z.eqb_neq _ _)) by lia.
      rewrite (land_ones_low _ k), Z_mod_same_full by lia. done. }
    rewrite sub64_small by lia. rewrite (proj2 (Z.ltb_ge _ _)) by lia. cbn [negb orb].
    replace (v +64 2 ^ k -64 1) with (v + 2 ^ k - 1).
    2: { unfold wrap. rewrite Zminus_mod_idemp_l. symmetry. apply Z.mod_small. lia. }
    f_equal. apply (ALIGN_DOWN_pow2 _ k). lia.
  - lia.
  - rewrite Z.mul_comm. apply Z_mod_mult.
  - intros c' Hle Hc'. apply Z.mod_divide in Hc' as [q ->]; [|lia].
    rewrite (Z.mul_comm q). apply Z.mul_le_mono_nonneg_l; [lia|].
    apply Z.lt_succ_r, Z.div_lt_upper_bound; [lia|]. lia.
Qed.

Section Space.
Context {W : Type}.
Implicit Types (t : VirtualMemory W) (m : machine W).

(** * Free ranges *)

(** [[c, c + n)] lies in the managed range and meets no allocation. *)
Definition fits t (n c : Z) : Prop :=
  first_ t <= c /\ c + n <= limit_ t /\
  forall i a, slots t !! i = Some a -> live a -> c + n <= address a \/ address a + bytes a <= c.

Lemma meets_spec t c n i a :
  vm_ok t -> slots_ t <> None -> slots t !! i = Some a -> 0 <= c -> 0 <= n -> c + n <= limit_ t ->
  meets c n a = true <-> live a /\ c < address a + bytes a /\ address a < c + n.
Proof.
  intros [Hr _ Ht] Hs Hi Hc Hn Hl. destruct (Hr Hs) as (Hf & H48 & _). unfold meets, is_free, live.
  destruct (decide (state a = StFree)) as [E|E].
  { rewrite bool_decide_true by done. cbn. split; [done|]. by intros []. }
  pose proof (to_live _ _ _ _ Ht _ _ Hi E) as [].
  rewrite bool_decide_false by done. cbn.
  rewrite !add64_small by lia. rewrite andb_true_iff, !Z.ltb_lt. tauto.
Qed.

Lemma available_spec t c n :
  vm_ok t -> slots_ t <> None -> 0 <= c -> 0 <= n ->
  available t c n = true <-> 0 < n /\ c mod 4096 = 0 /\ n mod 4096 = 0 /\ fits t n c.
Proof.
  intros Ht Hs Hc Hn. pose proof (vo_range _ Ht Hs) as (Hf & H48 & _). unfold available.
  rewrite bool_decide_false by done. cbn [orb]. rewrite !page_mask_mod.
  destruct (Z.ltb_spec c (first_ t)); cbn [orb].
  { split; [done|]. unfold fits. lia. }
  destruct (span c n (limit_ t)) eqn:Esp; cbn [negb orb].
  2: { split; [done|]. intros (? & _ & _ & _ & ? & _). rewrite (proj2 (span_spec c n (limit_ t) Hc Hn ltac:(lia))) in Esp; [done|lia]. }
  apply span_spec in Esp as [Hn0 Hle]; [|lia..].
  destruct (Z.eqb_spec (c mod 4096) 0); cbn [negb orb]; [|split; [done|tauto]].
  destruct (Z.eqb_spec (n mod 4096) 0); cbn [negb orb]; [|split; [done|tauto]].
  rewrite forallb_forall. split.
  - intros Hall. split_and!; [done..|]. split_and!; [lia|lia|]. intros i a Hi La.
    specialize (Hall a ltac:(apply list_elem_of_In; by eapply list_elem_of_lookup_2)).
    apply negb_true_iff in Hall. destruct (decide (address a < c + n)); [|lia].
    destruct (decide (c < address a + bytes a)); [|lia].
    assert (meets c n a = true) by (eapply meets_spec; eauto with lia). congruence.
  - intros (_ & _ & _ & _ & _ & Hfit) a Ha%list_elem_of_In. apply list_elem_of_lookup in Ha as [i Hi].
    apply negb_true_iff. destruct (meets c n a) eqn:E; [|done].
    apply (meets_spec t c n i) in E as (La & ? & ?); [|done..]. specialize (Hfit i a Hi La). lia.
Qed.

(** * The search *)

Lemma next_candidate_spec (l : list Allocation) c n :
  (next_candidate l c n = c /\ forall a, a ∈ l -> meets c n a = true -> address a +64 bytes a <= c) \/
  (c < next_candidate l c n /\
   exists a, a ∈ l /\ meets c n a = true /\ next_candidate l c n = address a +64 bytes a).
Proof.
  unfold next_candidate. induction l as [|a l IH] using rev_ind; [left; split; [done|]; intros a Ha; by apply elem_of_nil in Ha|].
  rewrite foldl_snoc. set (x := foldl _ c l) in *.
  setoid_rewrite elem_of_app. setoid_rewrite list_elem_of_singleton.
  destruct (meets c n a) eqn:Em.
  - destruct (Z.ltb_spec x (address a +64 bytes a)).
    + right. split; [destruct IH as [[? _]|[? _]]; lia|]. exists a. tauto.
    + destruct IH as [[Hx Hl]|(Hx & b & ? & ? & ?)]; [left|right].
      * split; [done|]. intros b [Hb| ->] Hm; [by apply Hl|lia].
      * split; [done|]. exists b. tauto.
  - destruct IH as [[Hx Hl]|(Hx & b & ? & ? & ?)]; [left|right].
    + split; [done|]. intros b [Hb| ->] Hm; [by apply Hl|congruence].
    + split; [done|]. exists b. tauto.
Qed.

(** The allocations that end after [c]. *)
Definition after (c : Z) (a : Allocation) : Prop := state a <> StFree /\ c < address a + bytes a.
#[local] Instance after_dec c a : Decision (after c a).
Proof. unfold after. apply _. Defined.

Lemma filter_lt (l : list Allocation) c c' i a :
  c <= c' -> l !! i = Some a -> after c a -> ~ after c' a ->
  (length (filter (after c') l) < length (filter (after c) l))%nat.
Proof.
  intros Hc. revert i. induction l as [|x l IH]; intros i Hi Ha Hn; [done|].
  assert (Hle : (length (filter (after c') l) <= length (filter (after c) l))%nat).
  { clear -Hc. induction l as [|y l IHl]; [done|]. rewrite !filter_cons.
    destruct (decide (after c' y)) as [[? ?]|]; destruct (decide (after c y)) as [|Hny]; cbn; try lia.
    destruct Hny. split; [done|lia]. }
  rewrite !filter_cons. destruct i as [|i]; cbn in Hi.
  - injection Hi as ->. rewrite decide_False, decide_True by done. cbn. lia.
  - specialize (IH i Hi Ha Hn). destruct (decide (after c' x)) as [[? ?]|];
      destruct (decide (after c x)) as [|Hny]; cbn; try lia.
    destruct Hny. split; [done|lia].
Qed.

(** The lowest aligned address that fits, if there is one. *)
Definition first_fit t (n al : Z) (r : option Z) : Prop :=
  match r with
  | Some c => c mod al = 0 /\ fits t n c /\ forall c', c' mod al = 0 -> fits t n c' -> c <= c'
  | None => forall c, c mod al = 0 -> ~ fits t n c
  end.

Lemma search_terminates t n k fuel c :
  vm_ok t -> slots_ t <> None -> 0 < n < 2 ^ 64 -> 0 <= k < 64 ->
  first_ t <= c -> c mod 2 ^ k = 0 -> (forall c', c' mod 2 ^ k = 0 -> fits t n c' -> c <= c') ->
  (length (filter (after c) (slots t)) < fuel)%nat ->
  exists r, search fuel t n (2 ^ k) c = Some r /\ first_fit t n (2 ^ k) r.
Proof.
  intros Ht Hs Hn Hk. pose proof (vo_range _ Ht Hs) as (Hf & H48 & _).
  revert c. induction fuel as [|fuel IH]; intros c Hc Ha Hmin Hfuel; [lia|]. cbn [search].
  destruct (span c n (limit_ t)) eqn:Esp; cbn [negb].
  2: { exists None. split; [done|]. intros c' Hc' Hfit. pose proof (Hmin c' Hc' Hfit). destruct Hfit as (_ & ? & _).
       rewrite (proj2 (span_spec c n (limit_ t) ltac:(lia) ltac:(lia) ltac:(lia))) in Esp; [done|lia]. }
  apply span_spec in Esp as [_ Hle]; [|lia..].
  destruct (next_candidate_spec (slots t) c n) as [[-> Hnone]|(Hlt & a & Hin & Hm & En)].
  - rewrite Z.eqb_refl. exists (Some c). split; [done|]. split; [done|]. split; [|done].
    split_and!; [done|done|]. intros i a Hi La.
    destruct (decide (address a < c + n)); [|lia]. destruct (decide (c < address a + bytes a)); [|lia].
    assert (Hm : meets c n a = true) by (eapply meets_spec; eauto with lia).
    apply Hnone in Hm; [|by eapply list_elem_of_lookup_2].
    pose proof (to_live _ _ _ _ (vo_table _ Ht) _ _ Hi La) as []. rewrite add64_small in Hm by lia. lia.
  - rewrite (proj2 (Z.eqb_neq _ _)) by lia. apply list_elem_of_lookup in Hin as [i Hi].
    apply (meets_spec t c n i) in Hm as (La & H1 & H2); [|done|done|done|lia..].
    pose proof (to_live _ _ _ _ (vo_table _ Ht) _ _ Hi La) as []. rewrite add64_small in En by lia. rewrite En in *.
    assert (2 ^ k <= 2 ^ 63) by (apply Z.pow_le_mono_r; lia).
    destruct (alignUp_spec (address a + bytes a) k) as (c2 & -> & Hc2 & Ha2 & Hmin2); [lia..|].
    apply IH; [lia|done| |].
    + intros c' Hc' Hfit. apply Hmin2; [|done]. pose proof (Hmin c' Hc' Hfit).
      destruct Hfit as (_ & _ & Hfit). destruct (Hfit i a Hi La); lia.
    + pose proof (filter_lt (slots t) c c2 i a ltac:(lia) Hi) as Hlt2. unfold after in Hlt2 at 1 2.
      specialize (Hlt2 ltac:(split; [done|lia]) ltac:(lia)). lia.
Qed.

(** * Insertion *)

(** The slot of a new allocation [a]. *)
Record inserted m (i : nat) (a : Allocation) m' : Prop := {
  in_free : slots (vm m) !! i = Some no_allocation;
  in_vm : vm m' = set_slots (<[i := a]> (slots (vm m))) (set_nextGeneration (nextGeneration_ (vm m) + 1) (vm m));
  in_trace : trace m' = trace m;
}.

Definition new_allocation m (st : State) (own addr n : Z) : Allocation :=
  {| state := st; owner := own; generation := nextGeneration_ (vm m); address := addr; bytes := n;
     activeUses := 0; pin := no_pin; lastUse := no_fence |}.

Definition no_room m : Prop :=
  nextGeneration_ (vm m) = U64_MAX \/ forall i a, slots (vm m) !! i = Some a -> live a.

Lemma insert_spec m own addr n st :
  vm_ok (vm m) -> slots_ (vm m) <> None ->
  wp (insert own addr n st) (fun r m' =>
    (r = (Invalid, None) /\ m' = m /\ available (vm m) addr n = false) \/
    (r = (NoSpace, None) /\ m' = m /\ available (vm m) addr n = true /\ no_room m) \/
    (available (vm m) addr n = true /\ nextGeneration_ (vm m) <> U64_MAX /\ exists i,
      r = (Ok, Some {| slot := Z.of_nat i; h_generation := nextGeneration_ (vm m) |}) /\
      inserted m i (new_allocation m st own addr n) m')) m.
Proof.
  intros Ht Hs. pose proof (vo_generation _ Ht) as Hg. unfold insert. wp_steps.
  - apply negb_true_iff in Hcond. by left.
  - apply negb_false_iff in Hcond. right; left. split_and!; [done..|]. left.
    apply orb_true_iff in Hcond0. rewrite !Z.eqb_eq in Hcond0. lia.
  - apply negb_false_iff in Hcond. apply orb_false_iff in Hcond0. rewrite !Z.eqb_neq in Hcond0.
    destruct (list_find _ _) as [[i a]|] eqn:F.
    + apply list_find_Some in F as (Hi & Hf & _). right; right. split_and!; [done|tauto|]. exists i.
      split; [done|]. pose proof (to_free _ _ _ _ (vo_table _ Ht) _ _ Hi Hf) as ->. split; [done| |done].
      cbn. unfold U64_MAX in *. rewrite add64_small by lia. unfold set_slots, slots. cbn. do 2 f_equal.
      fold (slots (vm m)). apply list_eq. intros j. destruct (decide (i = j)) as [<-|Hne].
      * rewrite list_lookup_alter_eq, list_lookup_insert_eq by (by eapply lookup_lt_Some). by rewrite Hi.
      * by rewrite list_lookup_alter_ne, list_lookup_insert_ne by done.
    + apply wp_ret. right; left. split_and!; [done..|]. right. intros i a Hi.
      apply list_find_None in F. by eapply Forall_lookup_1 in F.
Qed.

Lemma inserted_minv m i st own addr n m' :
  minv m -> slots_ (vm m) <> None -> 0 <= addr -> 0 <= n ->
  available (vm m) addr n = true -> nextGeneration_ (vm m) <> U64_MAX ->
  (st = StExcluded \/ st = StReserved /\ own <> 0) ->
  inserted m i (new_allocation m st own addr n) m' -> minv m'.
Proof.
  intros [[Hr Hg [Tf Tl Ta]] Hp He Hl] Hs Ha0 Hn0 Hav Hgen Hst [Hi E T].
  assert (Ht : vm_ok (vm m)) by (by split).
  apply available_spec in Hav as (Hn & Ha4 & Hn4 & Hlow & Hhigh & Hfit); [|done..].
  set (a := new_allocation m st own addr n) in *.
  assert (La : live a) by (destruct Hst as [->|[-> _]]; done).
  assert (Hmono : forall lo hi b, allocation_ok lo hi (nextGeneration_ (vm m)) b ->
    allocation_ok lo hi (nextGeneration_ (vm m) + 1) b).
  { intros lo hi b []. split; auto with lia. }
  assert (Hao : allocation_ok (first_ (vm m)) (limit_ (vm m)) (nextGeneration_ (vm m) + 1) a).
  { split; cbn; try done; try lia.
    - intros H. destruct Hst as [->|[-> _]]; destruct H as [H|[H|H]]; done.
    - destruct Hst as [->|[_ ?]]; done. }
  assert (Hnew : forall j b, slots (vm m) !! j = Some b -> live b ->
    disjoint a b /\ generation a <> generation b).
  { intros j b Hj Lb. split; [apply (Hfit j b Hj Lb)|]. cbn. pose proof (ao_generation _ _ _ _ (Tl j b Hj Lb)). lia. }
  split.
  - rewrite E. split; cbn; [by intros _; apply Hr|unfold U64_MAX in *; lia|]. split.
    + intros j b [(<- & <- & _)|[_ Hj]]%list_lookup_insert_Some Hb; [by destruct La|by eapply Tf].
    + intros j b [(<- & <- & _)|[_ Hj]]%list_lookup_insert_Some Hb; [done|]. by eapply Hmono, Tl.
    + intros j k b c [(<- & <- & _)|[Hij Hj]]%list_lookup_insert_Some
        [(<- & <- & _)|[Hik Hk]]%list_lookup_insert_Some Hb Hc Hne; [done|by eapply Hnew| |by eapply Ta].
      destruct (Hnew j b) as [[?|?] ?]; [done..| |]; (split; [unfold disjoint; lia|congruence]).
  - rewrite E, T. cbn. intros j b [(<- & <- & _)|[_ Hj]]%list_lookup_insert_Some Hb; [|by eapply Hp].
    cbn. rewrite phase_fresh by done. destruct Hst as [->|[-> _]]; done.
  - rewrite E, T. cbn. eapply Forall_impl; [exact He|]. cbn. lia.
  - by rewrite T.
Qed.
End Space.
