(* ===== verification/XeVirtualThms.v ===== *)
(** Theorems of [VirtualMemory] over every sequence of calls and every backend. *)
From stdpp Require Import base numbers list.
From S2P Require Import Prelude.
From S2P Require Import StateWp.
From S2P Require Import XeMemory.
From S2P Require Import XeVirtual.
From S2P Require Import XeVirtualInv.
From S2P Require Import XeVirtualOps.
Import XeMemory VirtualMemory.

Section Reach.
Context {W : Type} (read64 : Z -> W -> Z).
Implicit Types (t : VirtualMemory W) (m : machine W).

(** * Calls *)

Inductive vm_op :=
  | VInitialize (array : option nat) (first limit : Z) (backend : Backend W)
  | VExclude (addr n : Z)
  | VReserveAt (own addr n : Z)
  | VReserve (own n alignment : Z)
  | VPin (own : Z) (h : Handle)
  | VBind (own : Z) (h : Handle) (pat : Z) (writable : bool)
  | VRetain (own : Z) (h : Handle)
  | VRelease (own : Z) (h : Handle)
  | VRecord (own : Z) (h : Handle) (f : Fence)
  | VRetire (own : Z) (h : Handle)
  | VReclaim (own : Z) (h : Handle).

Definition vm_words (o : vm_op) : Prop :=
  match o with
  | VInitialize _ first limit _ => word 64 first /\ word 64 limit
  | VExclude addr n | VReserveAt _ addr n => word 64 addr /\ word 64 n
  | VReserve _ n alignment => word 64 n /\ word 64 alignment
  | _ => True
  end.

Definition vm_run (o : vm_op) : ST (machine W) Status :=
  match o with
  | VInitialize array first limit backend => initialize array first limit backend
  | VExclude addr n => exclude addr n
  | VReserveAt own addr n => r <-- reserveAt own addr n ;; ret r.1
  | VReserve own n alignment => r <-- reserve own n alignment ;; ret r.1
  | VPin own h => pin_op read64 own h
  | VBind own h pat wr => bind_op own h pat wr
  | VRetain own h => retainUse own h
  | VRelease own h => releaseUse own h
  | VRecord own h f => recordUse own h f
  | VRetire own h => retire own h
  | VReclaim own h => reclaim own h
  end.

(** Between calls the world may change in any way. *)
Inductive vm_reachable : machine W -> Prop :=
  | vr_start w : vm_reachable {| vm := new_VirtualMemory; world := w; trace := [] |}
  | vr_world m w : vm_reachable m -> vm_reachable {| vm := vm m; world := w; trace := trace m |}
  | vr_call m o : vm_reachable m -> vm_words o -> vm_reachable (vm_run o m).2.

(** * What a call does *)

(** The uses that a call may add. *)
Definition uses_added (o : vm_op) : Z := match o with VRetain _ _ => 1 | VRelease _ _ => -1 | _ => 0 end.

Inductive effect (d : Z) m m' : Prop :=
  | eff_moved : moved d m m' -> effect d m m'
  | eff_init : slots_ (vm m) = None -> trace m' = trace m ->
      (forall i a, slots (vm m') !! i = Some a -> a = no_allocation) -> effect d m m'
  | eff_inserted i a : inserted m i a m' -> state a <> StFree -> activeUses a = 0 -> effect d m m'.

Lemma with_null m own h k : slots_ (vm m) = None -> (with_allocation own h k m).2 = m.
Proof.
  intros Hs. unfold with_allocation. rewrite run_bind. cbn. unfold lookup.
  by rewrite bool_decide_true.
Qed.

Lemma insert_null m own addr n st : slots_ (vm m) = None -> insert own addr n st m = ((Invalid, None), m).
Proof.
  intros Hs. unfold insert. rewrite run_bind. cbn. unfold available. by rewrite bool_decide_true.
Qed.

Lemma insert_ok m own addr n st :
  minv m -> 0 <= addr -> 0 <= n -> (st = StExcluded \/ st = StReserved /\ own <> 0) ->
  minv (insert own addr n st m).2 /\ effect 0 m (insert own addr n st m).2.
Proof.
  intros Hm Ha Hn Hst. destruct (decide (slots_ (vm m) = None)) as [Hs|Hs].
  { rewrite insert_null by done. split; [done|]. by apply eff_moved; left. }
  destruct (wp_run _ _ _ (insert_spec m own addr n st (mi_vm _ Hm) Hs)) as
    [(_ & -> & _)|[(_ & -> & _)|(Hav & Hg & i & _ & Hin)]].
  - split; [done|]. by apply eff_moved; left.
  - split; [done|]. by apply eff_moved; left.
  - split; [by apply (inserted_minv m i st own addr n)|]. eapply eff_inserted; [done| |done].
    destruct Hst as [->|[-> _]]; done.
Qed.

(** What [reserve] returns. *)
Definition reserve_spec m (own n al : Z) (r : Status * option Handle) m' : Prop :=
  match r with
  | (Ok, Some h) => exists i c, first_fit (vm m) n al (Some c) /\
      h = {| slot := Z.of_nat i; h_generation := nextGeneration_ (vm m) |} /\
      inserted m i (new_allocation m StReserved own c n) m'
  | (NoSpace, None) => m' = m /\ (first_fit (vm m) n al None \/ no_room m)
  | (Invalid, None) => m' = m /\
      (slots_ (vm m) = None \/ own = 0 \/ n = 0 \/ n mod 4096 <> 0 \/ al < 4096 \/ powerOfTwo al = false)
  | _ => False
  end.

Lemma reserve_run m own n al :
  minv m -> word 64 n -> word 64 al ->
  reserve_spec m own n al (reserve own n al m).1 (reserve own n al m).2 /\
  minv (reserve own n al m).2.
Proof.
  intros Hm Hn Hal. set (P r m' := reserve_spec m own n al r m' /\ minv m'). change (wp (reserve own n al) P m).
  pose proof (mi_vm _ Hm) as Ht. unfold reserve. wp_steps.
  { split; [|done]. split; [done|]. rewrite !orb_true_iff in Hcond.
    rewrite bool_decide_eq_true, !Z.eqb_eq, Z.ltb_lt, negb_true_iff in Hcond. rewrite page_mask_mod, negb_true_iff, Z.eqb_neq in Hcond.
    unfold PageSize in Hcond. tauto. }
  rewrite !orb_false_iff, bool_decide_eq_false, !Z.eqb_neq, Z.ltb_ge, negb_false_iff, page_mask_mod, negb_false_iff, Z.eqb_eq in Hcond.
  destruct Hcond as (((((Hs & Hown) & Hn0) & Hn4) & H4096) & Hpow). unfold PageSize in H4096.
  pose proof (vo_range _ Ht Hs) as (Hf & H48 & _).
  destruct (powerOfTwo_spec al Hal Hpow) as (k & Hk & ->).
  assert (2 ^ k <= 2 ^ 63) by (apply Z.pow_le_mono_r; lia).
  assert (Hk12 : 12 <= k) by (apply (Z.pow_le_mono_r_iff 2); lia).
  destruct (alignUp_spec (first_ (vm m)) k) as (c0 & -> & Hc0 & Ha0 & Hmin0); [lia..|].
  destruct (search_terminates (vm m) n k (S (capacity_ (vm m))) c0) as ([c|] & -> & Hr); try done.
  - unfold word in Hn. lia.
  - intros c' Hc' (? & _). by apply Hmin0.
  - apply Nat.lt_succ_r, length_filter.
  - destruct Hr as (Hc & Hfit & Hmin).
    assert (Hc4 : c mod 4096 = 0).
    { apply Z.mod_divide in Hc as [q ->]; [|lia]. apply Z.mod_divide; [lia|].
      apply Z.divide_mul_r. exists (2 ^ (k - 12)). change 4096 with (2 ^ 12).
      rewrite <- (Z.pow_add_r 2 (k - 12) 12) by lia. f_equal. lia. }
    assert (0 <= c) by (destruct Hfit; lia). destruct Hn as [? Hn'].
    assert (Hav : available (vm m) c n = true) by (apply available_spec; [done..|split_and!; [lia|done..]]).
    unfold wp. set (x := insert _ _ _ _ _). unfold P.
    destruct (wp_run _ _ _ (insert_spec m own c n StReserved Ht Hs)) as
      [(_ & _ & Hf')|[(E & Em & _ & Hno)|(_ & Hg & i & E & Hin)]].
    + congruence.
    + fold x in E, Em. rewrite E, Em. split; [|done]. split; [done|by right].
    + fold x in E, Hin. rewrite E. split; [|].
      * exists i, c. split_and!; [done| |]; done.
      * apply (inserted_minv m i StReserved own c n); [done..|by right|done].
  - wp_steps. split; [|done]. split; [done|by left].
Qed.

Lemma reserve_ok m own n al :
  minv m -> word 64 n -> word 64 al -> minv (reserve own n al m).2 /\ effect 0 m (reserve own n al m).2.
Proof.
  intros Hm Hn Hal. destruct (reserve_run m own n al Hm Hn Hal) as [HR HM]. split; [done|].
  destruct (reserve own n al m) as [[[] [h|]] m']; cbn in *; try done;
    try (destruct HR as [-> _]; by apply eff_moved; left).
  destruct HR as (i & c & _ & _ & HI). by eapply eff_inserted.
Qed.

Lemma init_ok m array first limit b :
  minv m -> word 64 first -> word 64 limit ->
  minv (initialize array first limit b m).2 /\ effect 0 m (initialize array first limit b m).2.
Proof.
  intros Hm [Hf _] [Hl _]. set (P (_ : Status) m' := minv m' /\ effect 0 m m').
  change (wp (initialize array first limit b) P m). unfold initialize. wp_steps.
  assert (Hstay : P Busy m) by (split; [done|by apply eff_moved; left]).
  destruct (slots_ (vm m)) as [l|] eqn:Hs; [done|]. destruct array as [capacity|]; [|done]. wp_steps; [done|].
  rewrite !orb_false_iff, Z.leb_gt, Z.ltb_ge, !page_mask_mod, !negb_false_iff, !Z.eqb_eq in Hcond.
  unfold VaLimit in Hcond. rewrite Z.shiftl_1_l in Hcond.
  apply wp_modify. wp_steps. destruct Hm as [[_ Hg _] _ He Hlg]. unfold P.
  assert (Hno : forall i a, replicate capacity no_allocation !! i = Some a -> a = no_allocation).
  { by intros i a [-> _]%lookup_replicate. }
  split; [|by apply eff_init]. split; cbn; [|..|done|done].
  - split; cbn; [lia|done|]. split.
    + by intros i a ->%Hno.
    + by intros i a ->%Hno.
    + by intros i j a b' ->%Hno.
  - by intros i a ->%Hno.
Qed.

Lemma run_ok m o : minv m -> vm_words o -> minv (vm_run o m).2 /\ effect (uses_added o) m (vm_run o m).2.
Proof.
  intros Hm Ho. destruct (decide (slots_ (vm m) = None)) as [Hs|Hs]; destruct o; cbn [vm_run vm_words uses_added] in *.
  all: try (destruct Ho as [Ho1 Ho2]; by apply init_ok).
  all: try (unfold pin_op, bind_op, retainUse, releaseUse, recordUse, retire, reclaim;
            rewrite with_null by done; split; [done|by apply eff_moved; left]).
  all: try (unfold exclude; rewrite run_bind; cbn; destruct Ho as [[] []]; by apply insert_ok; [..|by left]).
  all: try (rewrite run_bind; cbn; unfold reserveAt; destruct Ho as [[] []];
            destruct (Z.eqb_spec own 0); [split; [done|by apply eff_moved; left]|];
            by apply insert_ok; [..|by right]).
  all: try (rewrite run_bind; cbn; destruct Ho as [Ho1 Ho2]; by apply reserve_ok).
  all: match goal with |- minv (?op ?s).2 /\ effect ?d _ _ =>
         enough (Hmv : moved d s (op s).2) by (split; [by eapply moved_minv|by apply eff_moved]) end.
  - exact (wp_run _ _ _ (pin_ok read64 m own h Hm Hs)).
  - exact (wp_run _ _ _ (bind_ok m own h pat writable Hm Hs)).
  - exact (wp_run _ _ _ (vm_retain_ok m own h Hm Hs)).
  - exact (wp_run _ _ _ (vm_release_ok m own h Hm Hs)).
  - exact (wp_run _ _ _ (record_ok m own h f Hm Hs)).
  - exact (wp_run _ _ _ (vm_retire_ok m own h Hm Hs)).
  - exact (wp_run _ _ _ (reclaim_ok m own h Hm Hs)).
Qed.

Lemma vm_reachable_minv m : vm_reachable m -> minv m.
Proof.
  induction 1 as [w|m w _ IH|m o _ IH Ho].
  - split; cbn; [|done..]. split; cbn; [done|unfold U64_MAX; lia|]. split; [by intros|by intros|by intros].
  - destruct IH. by split.
  - by apply run_ok.
Qed.
(** * Theorems *)

(** [C5] In every reachable state, against any backend: two allocations in use never overlap and
    never share a generation, each lies page-aligned in the managed range, its use count fits
    its 32 bits and is zero unless it is bound or retiring, and an allocation that is pinned,
    bound or retiring has a complete pin of exactly its pages. *)
Theorem vm_exclusive m :
  vm_reachable m ->
  (forall i j a b, slots (vm m) !! i = Some a -> slots (vm m) !! j = Some b -> live a -> live b -> i <> j ->
    disjoint a b /\ generation a <> generation b) /\
  (forall i a, slots (vm m) !! i = Some a -> live a ->
    first_ (vm m) <= address a /\ address a + bytes a <= limit_ (vm m) <= 2 ^ 48 /\
    address a mod 4096 = 0 /\ bytes a mod 4096 = 0 /\ 0 < bytes a /\
    0 <= activeUses a <= U32_MAX /\ (activeUses a <> 0 -> held_state (state a)) /\
    (state a = StPinned \/ held_state (state a) ->
     cookie (pin a) <> 0 /\ pageCount (pin a) = bytes a / 4096)).
Proof.
  intros Hr. pose proof (mi_vm _ (vm_reachable_minv _ Hr)) as [Hrange _ [Tf Tl Ta]]. split; [done|].
  intros i a Hi La. pose proof (Tl i a Hi La) as [? ? ? [? ?] ? ? ? Hp ? ?].
  assert (Hs : slots_ (vm m) <> None) by (intros Hs; unfold slots in Hi; by rewrite Hs in Hi).
  destruct (Hrange Hs) as (? & ? & _). split_and!; try done; try lia.
  intros H'. by destruct (Hp H') as (? & _ & ?).
Qed.

(** What a call may do to an allocation that jobs use, and when it may unbind. *)
Definition protects m m' : Prop :=
  exists evs, trace m' = evs ++ trace m /\
  (forall i a, slots (vm m) !! i = Some a -> activeUses a <> 0 ->
    Forall (fun ev => ev_gen ev <> generation a) evs /\ phase_of (generation a) (trace m') = PBound /\
    exists a', slots (vm m') !! i = Some a' /\ held_state (state a') /\ generation a' = generation a /\
      address a' = address a /\ bytes a' = bytes a /\ owner a' = owner a /\ pin a' = pin a) /\
  (forall g addr n s, EvUnbind g addr n s ∈ evs -> exists i a,
    slots (vm m) !! i = Some a /\ generation a = g /\ state a = StRetiring /\ activeUses a = 0 /\
    addr = address a /\ n = bytes a /\ (value (lastUse a) <> 0 -> EvFence g (lastUse a) true ∈ evs)).

Lemma held_live m i a : minv m -> slots (vm m) !! i = Some a -> activeUses a <> 0 -> live a /\ held_state (state a).
Proof.
  intros Hm Hi Hu. assert (La : live a).
  { intros E. by rewrite (to_free _ _ _ _ (vo_table _ (mi_vm _ Hm)) _ _ Hi E) in Hu. }
  split; [done|]. by apply (ao_held _ _ _ _ (to_live _ _ _ _ (vo_table _ (mi_vm _ Hm)) _ _ Hi La)).
Qed.

Lemma held_phase m i a :
  minv m -> slots (vm m) !! i = Some a -> activeUses a <> 0 -> phase_of (generation a) (trace m) = PBound.
Proof.
  intros Hm Hi Hu. destruct (held_live m i a Hm Hi Hu) as [La Hh].
  pose proof (mi_phase _ Hm _ _ Hi La) as Hp. destruct Hh as [E|E]; by rewrite E in Hp.
Qed.

(** A call that leaves the slots of the allocations in use as they are. *)
Lemma protects_same m m' :
  minv m -> trace m' = trace m ->
  (forall i a, slots (vm m) !! i = Some a -> live a -> slots (vm m') !! i = Some a) -> protects m m'.
Proof.
  intros Hm T Hk. exists []. split; [done|]. split; [|by intros * H%elem_of_nil].
  intros i a Hi Hu. destruct (held_live m i a Hm Hi Hu) as [La Hh]. split; [constructor|].
  rewrite T. split; [by eapply held_phase|]. exists a. split; [by apply Hk|]. done.
Qed.

Lemma effect_protects d m m' : minv m -> effect d m m' -> protects m m'.
Proof.
  intros Hm [[->|(i & a & a' & evs & Hi & La & [E T] & G)]|Hs T _|i a [Hi E T] _ _].
  - by apply protects_same.
  - exists evs. split; [done|]. split.
    + intros j b Hj Hu. destruct (held_live m j b Hm Hj Hu) as [Lb Hh]. destruct (decide (i = j)) as [<-|Hne].
      * rewrite Hi in Hj. injection Hj as ->. destruct (gm_held _ _ _ _ G Hu Hh) as (-> & Hh' & Eg & Ep).
        split; [constructor|]. split; [rewrite T; by eapply held_phase|]. exists a'. rewrite E. cbn.
        rewrite list_lookup_insert_eq by (by eapply lookup_lt_Some). split; [done|]. split; [done|].
        destruct (gm_kept _ _ _ _ G) as [->|(_ & ? & ? & ? & ? & _)]; [|done]. destruct Hh' as [?|?]; done.
      * assert (Hg : generation b <> generation a).
        { by eapply (to_apart _ _ _ _ (vo_table _ (mi_vm _ Hm)) j i b a Hj Hi Lb La). }
        split; [eapply Forall_impl; [apply G|]; intros ev ->; congruence|].
        split; [rewrite T, (vm_phase_other (generation a)); [by eapply held_phase|apply G|done]|].
        exists b. rewrite E. cbn. by rewrite list_lookup_insert_ne.
    + intros g addr n s Hin. pose proof (gm_unbind _ _ _ _ G _ _ _ _ Hin) as (? & ? & ? & ? & ?).
      exists i, a. split_and!; try done. pose proof (gm_events _ _ _ _ G) as He. rewrite Forall_forall in He.
      symmetry. by apply (He _ Hin).
  - apply protects_same; [done..|]. intros i a Hi. unfold slots in Hi. by rewrite Hs in Hi.
  - apply protects_same; [done..|]. intros j b Hj Lb. rewrite E. cbn.
    rewrite list_lookup_insert_ne; [done|]. intros <-. rewrite Hi in Hj. injection Hj as <-. by destruct Lb.
Qed.

(** [C4] Over every sequence of calls and any backend, the backend is called in a legal order: an
    allocation is bound only while it is pinned, unbound only while it is bound and unpinned
    only while it is pinned and not bound.  While jobs use an allocation no call of any kind
    reaches the backend about it and it keeps its range, its pages and its binding; it is
    unbound only when it is retiring, no job uses it, and the backend has just reported the
    last recorded fence as complete. *)
Theorem vm_protocol m o :
  vm_reachable m -> vm_words o ->
  legal_trace (trace (vm_run o m).2) /\ protects m (vm_run o m).2.
Proof.
  intros Hr Ho. pose proof (vm_reachable_minv _ Hr) as Hm. destruct (run_ok m o Hm Ho) as [Hm' He].
  split; [apply Hm'|by eapply effect_protects].
Qed.

(** [C6] [reserve] always returns: its search ends after at most one round per slot.  It fails
    with [Invalid] only for invalid arguments and with [NoSpace] only when no aligned range in
    the managed space is free, or no slot or generation is left; otherwise the new allocation
    is at the lowest aligned address at which the range is free. *)
Theorem reserve_first_fit m own n al :
  vm_reachable m -> word 64 n -> word 64 al ->
  reserve_spec m own n al (reserve own n al m).1 (reserve own n al m).2.
Proof. intros Hr Hn Hal. apply reserve_run; [by apply vm_reachable_minv|done..]. Qed.
End Reach.

(** * Examples

    A backend that agrees to everything. *)

Definition yes_backend : Backend unit := {|
  b_pin := Some (fun _ n _ w => ((Ok, {| cookie := 1; dmaPages := 8; pageCount := n / 4096 |}), w));
  b_unpin := Some (fun p w => ((Ok, p), w));
  b_bind := Some (fun _ _ _ _ w => (Ok, w));
  b_unbind := Some (fun _ _ w => (Ok, w));
  b_fenceComplete := Some (fun _ w => (true, w));
  verifiedPatIndices := 1 |}.

Definition zero_memory : Z -> unit -> Z := fun _ _ => 0.

Fixpoint vm_runs (ops : list (vm_op (W := unit))) (m : machine unit) : machine unit :=
  match ops with [] => m | o :: ops => vm_runs ops (vm_run zero_memory o m).2 end.

Lemma vm_runs_reachable ops m :
  vm_reachable zero_memory m -> Forall vm_words ops -> vm_reachable zero_memory (vm_runs ops m).
Proof. intros Hr Ho. revert m Hr. induction Ho as [|o ops Ho _ IH]; intros m Hr; [done|]. by apply IH, vr_call. Qed.

Definition ex_start : machine unit := {| vm := new_VirtualMemory; world := tt; trace := [] |}.
Definition ex_handle : Handle := {| slot := 1; h_generation := 2 |}.
Definition ex_vm_ops : list (vm_op (W := unit)) := [
  VInitialize (Some 3%nat) 4096 (2 ^ 20) yes_backend; VExclude 8192 4096; VReserve 7 8192 4096;
  VPin 7 ex_handle; VBind 7 ex_handle 0 true; VRetain 7 ex_handle;
  VRecord 7 ex_handle {| timeline := 1; value := 5 |}; VRetire 7 ex_handle].

Lemma ex_vm_words : Forall vm_words ex_vm_ops.
Proof.
  unfold ex_vm_ops. repeat (apply Forall_cons_2 || apply Forall_nil_2); cbn; unfold word; lia || done.
Qed.

Definition ex_vm : machine unit := vm_runs ex_vm_ops ex_start.

Lemma ex_vm_reachable : vm_reachable zero_memory ex_vm.
Proof. apply vm_runs_reachable; [constructor|apply ex_vm_words]. Qed.

Lemma vm_exclusive_witness :
  vm_reachable zero_memory ex_vm /\
  exists a b, slots (vm ex_vm) !! 0%nat = Some a /\ slots (vm ex_vm) !! 1%nat = Some b /\
    address b = 12288 /\ disjoint a b.
Proof.
  split; [exact ex_vm_reachable|]. destruct (vm_exclusive zero_memory ex_vm ex_vm_reachable) as [Ha _].
  eexists _, _. split; [vm_compute; reflexivity|]. split; [vm_compute; reflexivity|]. split; [reflexivity|].
  eapply (Ha 0%nat 1%nat); [vm_compute; reflexivity|vm_compute; reflexivity|done|done|done].
Defined.

Lemma vm_protocol_witness :
  (vm_run zero_memory (VReclaim 7 ex_handle) ex_vm).1 = Busy /\
  protects ex_vm (vm_run zero_memory (VReclaim 7 ex_handle) ex_vm).2.
Proof.
  split; [vm_compute; reflexivity|]. by apply (vm_protocol zero_memory ex_vm (VReclaim 7 ex_handle) ex_vm_reachable).
Defined.

Lemma reserve_first_fit_witness :
  (reserve 9 4096 8192 ex_vm).1 = (Ok, Some {| slot := 2; h_generation := 3 |}) /\
  exists m', reserve_spec ex_vm 9 4096 8192 (Ok, Some {| slot := 2; h_generation := 3 |}) m'.
Proof.
  assert (E : (reserve 9 4096 8192 ex_vm).1 = (Ok, Some {| slot := 2; h_generation := 3 |})) by (vm_compute; reflexivity).
  split; [exact E|]. exists (reserve 9 4096 8192 ex_vm).2. rewrite <- E.
  apply (reserve_first_fit zero_memory ex_vm 9 4096 8192 ex_vm_reachable); unfold word; lia.
Defined.
