(* ===== verification/XeSubmission.v ===== *)
(** The submission queue of the Xe backend, [Mellow/XeSubmission.{hpp,cpp}]: jobs that hold
    their resources from submission until the fence of the hardware passes them or the queue is
    quiesced, against a backend that may answer anything. *)
From stdpp Require Import base numbers list.
From S2P Require Import Prelude.
From S2P Require Import XeFirmware.

Module MellowXe.

(** * Data *)

Inductive SubmitError :=
  | None_ | UnsupportedBackend | NotReady | InvalidArgument | InvalidCommand
  | Ownership | InvalidMapping | ResourceBusy | Capacity | Rejected
  | AcceptanceUnknown | StaleGeneration | InvalidObservation | QuiesceFailed
  | SequenceExhausted | ClockRegression.
Inductive JobState := JFree | JSubmitted | JAcceptanceUnknown | JCompleted | JTimedOut | JReset.
Inductive QueueState := Inactive | Ready | NeedsReset.
Inductive BackendAcceptance := BAccepted | BRejected | BUnknown.

#[export] Instance SubmitError_eq_dec : EqDecision SubmitError.
Proof. solve_decision. Defined.
#[export] Instance SubmitJobState_eq_dec : EqDecision JobState.
Proof. solve_decision. Defined.
#[export] Instance SubmitQueueState_eq_dec : EqDecision QueueState.
Proof. solve_decision. Defined.
#[export] Instance BackendAcceptance_eq_dec : EqDecision BackendAcceptance.
Proof. solve_decision. Defined.

Definition maxJobs : nat := 32.
Definition maxResources : nat := 8.
Definition maxBatchWords : nat := 64.
Definition miNoop : Z := 0.
Definition miBatchBufferEnd : Z := 0x05000000.

Record Resource := {
  id : Z;
  r_owner : Z;
  mappingGeneration : Z;
  gpuAddress : Z;
  r_bytes : Z;
  gpuReadable : bool;
  pinned : bool;
}.

#[export] Instance Resource_eq_dec : EqDecision Resource.
Proof. solve_decision. Defined.

Record FenceToken := { f_generation : Z; f_sequence : Z }.

#[export] Instance FenceToken_eq_dec : EqDecision FenceToken.
Proof. solve_decision. Defined.

(** The arrays of a batch hold [wordCount] words and [resourceCount] resources. *)
Record BatchSnapshot := {
  fence : FenceToken;
  b_owner : Z;
  b_context : Z;
  deadline : Z;
  b_engine : Z;
  words : list Z;
  resources : list Resource;
}.

Record Job := { batch : BatchSnapshot; state : JobState; held : bool }.

Definition no_token : FenceToken := {| f_generation := 0; f_sequence := 0 |}.
Definition no_batch : BatchSnapshot := {|
  fence := no_token; b_owner := 0; b_context := 0; deadline := 0; b_engine := 0; words := [];
  resources := [] |}.
Definition no_job : Job := {| batch := no_batch; state := JFree; held := false |}.

Definition set_state (v : JobState) (j : Job) : Job := {| batch := batch j; state := v; held := held j |}.
Definition set_held (v : bool) (j : Job) : Job := {| batch := batch j; state := state j; held := v |}.

Definition requiredReadyBits : Z := Z.shiftl 1 8 - 1.

Record Readiness := { rd_generation : Z; rd_owner : Z; rd_context : Z; rd_engine : Z; rd_flags : Z }.
Record FenceObservation := {
  o_generation : Z;
  o_owner : Z;
  o_context : Z;
  o_engine : Z;
  completedSequence : Z;
  o_valid : bool;
  acquireOrdered : bool;
}.
Definition no_readiness : Readiness :=
  {| rd_generation := 0; rd_owner := 0; rd_context := 0; rd_engine := 0; rd_flags := 0 |}.
Definition no_observation : FenceObservation := {|
  o_generation := 0; o_owner := 0; o_context := 0; o_engine := 0; completedSequence := 0;
  o_valid := false; acquireOrdered := false |}.

Record JobResult := { jr_state : JobState; resourcesHeld : bool; jr_token : FenceToken }.
Definition no_result : JobResult := {| jr_state := JFree; resourcesHeld := false; jr_token := no_token |}.

(** * Validation *)

Fixpoint check_words (l : list Z) : SubmitError :=
  match l with
  | [] => InvalidCommand
  | w :: l =>
      if w =? miBatchBufferEnd then match l with [] => None_ | _ => InvalidCommand end
      else if negb (w =? miNoop) then InvalidCommand
      else check_words l
  end.

Definition validateBootstrapBatch (l : option (list Z)) : SubmitError :=
  match l with
  | None => InvalidArgument
  | Some l =>
      if (length l =? 0)%nat || (maxBatchWords <? length l)%nat then InvalidArgument else check_words l
  end.

(** The calls that concern what jobs hold and what the hardware reports, newest first. *)
Inductive q_event :=
  | QSubmit (b : BatchSnapshot) (a : BackendAcceptance)
  | QFence (o : FenceObservation)
  | QQuiesce (generation : Z) (stopped : bool).

Section Queue.
Context {W : Type}.

(** Callbacks on a world [W]; a null function pointer is [None]. *)
Record SubmissionBackend := {
  sb_readiness : option (FirmwareInfo -> Z -> Z -> Z -> Z -> Readiness -> W -> (SubmitError * Readiness) * W);
  sb_retain : option (Resource -> W -> bool * W);
  sb_release : option (Resource -> W -> W);
  sb_submit : option (BatchSnapshot -> W -> BackendAcceptance * W);
  sb_readFence : option (Z -> Z -> Z -> Z -> FenceObservation -> W -> (SubmitError * FenceObservation) * W);
  sb_quiesce : option (Z -> Z -> Z -> Z -> W -> bool * W);
}.

Definition unavailableSubmissionBackend : SubmissionBackend := {|
  sb_readiness := None; sb_retain := None; sb_release := None; sb_submit := None;
  sb_readFence := None; sb_quiesce := None |}.

Record SubmissionQueue := {
  jobs_ : list Job;
  backend_ : SubmissionBackend;
  owner_ : Z;
  context_ : Z;
  generation_ : Z;
  lastTime_ : Z;
  engine_ : Z;
  nextSequence_ : Z;
  lastSubmitted_ : Z;
  lastObserved_ : Z;
  exhausted_ : bool;
  state_ : QueueState;
}.

Definition new_queue (owner context : Z) (backend : SubmissionBackend) (engine : Z) : SubmissionQueue := {|
  jobs_ := replicate maxJobs no_job; backend_ := backend; owner_ := owner; context_ := context;
  generation_ := 1; lastTime_ := 0; engine_ := engine; nextSequence_ := 1; lastSubmitted_ := 0;
  lastObserved_ := 0; exhausted_ := false; state_ := Inactive |}.

Definition set_jobs v (q : SubmissionQueue) : SubmissionQueue :=
  {| jobs_ := v; backend_ := backend_ q; owner_ := owner_ q; context_ := context_ q; generation_ := generation_ q; lastTime_ := lastTime_ q; engine_ := engine_ q; nextSequence_ := nextSequence_ q; lastSubmitted_ := lastSubmitted_ q; lastObserved_ := lastObserved_ q; exhausted_ := exhausted_ q; state_ := state_ q |}.
Definition set_lastTime v (q : SubmissionQueue) : SubmissionQueue :=
  {| jobs_ := jobs_ q; backend_ := backend_ q; owner_ := owner_ q; context_ := context_ q; generation_ := generation_ q; lastTime_ := v; engine_ := engine_ q; nextSequence_ := nextSequence_ q; lastSubmitted_ := lastSubmitted_ q; lastObserved_ := lastObserved_ q; exhausted_ := exhausted_ q; state_ := state_ q |}.
Definition set_lastObserved v (q : SubmissionQueue) : SubmissionQueue :=
  {| jobs_ := jobs_ q; backend_ := backend_ q; owner_ := owner_ q; context_ := context_ q; generation_ := generation_ q; lastTime_ := lastTime_ q; engine_ := engine_ q; nextSequence_ := nextSequence_ q; lastSubmitted_ := lastSubmitted_ q; lastObserved_ := v; exhausted_ := exhausted_ q; state_ := state_ q |}.
Definition set_qstate v (q : SubmissionQueue) : SubmissionQueue :=
  {| jobs_ := jobs_ q; backend_ := backend_ q; owner_ := owner_ q; context_ := context_ q; generation_ := generation_ q; lastTime_ := lastTime_ q; engine_ := engine_ q; nextSequence_ := nextSequence_ q; lastSubmitted_ := lastSubmitted_ q; lastObserved_ := lastObserved_ q; exhausted_ := exhausted_ q; state_ := v |}.

Record machine := { queue : SubmissionQueue; world : W; trace : list q_event }.

Definition upd (f : SubmissionQueue -> SubmissionQueue) : ST machine unit :=
  modify (fun m => {| queue := f (queue m); world := world m; trace := trace m |}).
Definition upd_job (i : nat) (f : Job -> Job) : ST machine unit :=
  upd (fun q => set_jobs (alter f i (jobs_ q)) q).
Definition job_at (q : SubmissionQueue) (i : nat) : Job := default no_job (jobs_ q !! i).
Definition act {A} (f : W -> A * W) : ST machine A := fun m =>
  let '(r, w) := f (world m) in (r, {| queue := queue m; world := w; trace := trace m |}).
Definition record (ev : q_event) : ST machine unit :=
  modify (fun m => {| queue := queue m; world := world m; trace := ev :: trace m |}).

Definition is_some {A} (x : option A) : bool := match x with Some _ => true | None => false end.

Definition completeBackend (b : SubmissionBackend) : bool :=
  is_some (sb_readiness b) && is_some (sb_retain b) && is_some (sb_release b) && is_some (sb_submit b) &&
  is_some (sb_readFence b) && is_some (sb_quiesce b).

(** ** Calls; each is made only with a complete backend. *)

Definition call_readiness (fw : FirmwareInfo) : ST machine (SubmitError * Readiness) :=
  q <-- gets queue ;;
  act (fun w => match sb_readiness (backend_ q) with
    | Some f => f fw (generation_ q) (owner_ q) (context_ q) (engine_ q) no_readiness w
    | None => ((UnsupportedBackend, no_readiness), w) end).
Definition call_retain (r : Resource) : ST machine bool :=
  q <-- gets queue ;;
  act (fun w => match sb_retain (backend_ q) with Some f => f r w | None => (false, w) end).
Definition call_release (r : Resource) : ST machine unit :=
  q <-- gets queue ;;
  act (fun w => (tt, match sb_release (backend_ q) with Some f => f r w | None => w end)).
Definition call_submit (b : BatchSnapshot) : ST machine BackendAcceptance :=
  q <-- gets queue ;;
  a <-- act (fun w => match sb_submit (backend_ q) with Some f => f b w | None => (BRejected, w) end) ;;
  record (QSubmit b a) ;;; ret a.
(** [completedSequence] is a 32-bit field. *)
Definition call_readFence : ST machine (SubmitError * FenceObservation) :=
  q <-- gets queue ;;
  r <-- act (fun w => match sb_readFence (backend_ q) with
    | Some f => f (generation_ q) (owner_ q) (context_ q) (engine_ q) no_observation w
    | None => ((UnsupportedBackend, no_observation), w) end) ;;
  let o := {| o_generation := o_generation r.2; o_owner := o_owner r.2; o_context := o_context r.2;
    o_engine := o_engine r.2; completedSequence := wrap 32 (completedSequence r.2);
    o_valid := o_valid r.2; acquireOrdered := acquireOrdered r.2 |} in
  ret (r.1, o).
Definition call_quiesce : ST machine bool :=
  q <-- gets queue ;;
  b <-- act (fun w => match sb_quiesce (backend_ q) with
    | Some f => f (generation_ q) (owner_ q) (context_ q) (engine_ q) w
    | None => (false, w) end) ;;
  record (QQuiesce (generation_ q) b) ;;; ret b.

(** * Operations *)

Definition tick (now : Z) : ST machine bool :=
  q <-- gets queue ;;
  if now <? lastTime_ q then ret false else upd (set_lastTime now) ;;; ret true.

Definition activate (fw : FirmwareInfo) : ST machine SubmitError :=
  q <-- gets queue ;;
  if negb (completeBackend (backend_ q)) then ret UnsupportedBackend
  else if (owner_ q =? 0) || (context_ q =? 0) || bool_decide (state_ q <> Inactive) then ret NotReady
  else if negb (major (fi_release fw) =? 70) || (packed (fi_release fw) <? gucMinimumRelease) ||
          (ucodeBytes fw =? 0) || (rsaBytes fw =? 0) then ret InvalidArgument
  else
    r <-- call_readiness fw ;;
    let '(error, ready) := r in
    if bool_decide (error <> None_) then ret error
    else if negb (rd_generation ready =? generation_ q) || negb (rd_owner ready =? owner_ q) ||
            negb (rd_context ready =? context_ q) || negb (rd_engine ready =? engine_ q) ||
            negb (Z.land (rd_flags ready) requiredReadyBits =? requiredReadyBits) then ret NotReady
    else upd (set_qstate Ready) ;;; ret None_.

(** [SubmissionQueue::release] of the job in slot [i]. *)
Definition release (i : nat) : ST machine unit :=
  q <-- gets queue ;;
  let job := job_at q i in
  if negb (held job) then ret tt
  else
    for_each (rev (resources (batch job))) call_release ;;;
    upd_job i (set_held false).

Definition find (q : SubmissionQueue) (token : FenceToken) : option nat :=
  fst <$> list_find (fun j => state j <> JFree /\ fence (batch j) = token) (jobs_ q).

Definition resource_error (own : Z) (before : list Resource) (r : Resource) : option SubmitError :=
  if (id r =? 0) || negb (r_owner r =? own) then Some Ownership
  else if (mappingGeneration r =? 0) || (r_bytes r =? 0) || negb (pinned r) || negb (gpuReadable r) ||
          test (gpuAddress r) 3 || (Z.shiftl 1 48 <=? gpuAddress r) ||
          (Z.shiftl 1 48 - gpuAddress r <? r_bytes r) then Some InvalidMapping
  else if existsb (fun o => id o =? id r) before then Some InvalidArgument
  else None.

Fixpoint check_resources (own : Z) (before rest : list Resource) : option SubmitError :=
  match rest with
  | [] => None
  | r :: rest =>
      match resource_error own before r with
      | Some e => Some e
      | None => check_resources own (before ++ [r]) rest
      end
  end.

(** The loop that retains the resources: [Some] are the resources retained, last first, before
    the one that was refused. *)
Fixpoint retain_all (retained rest : list Resource) : ST machine (option (list Resource)) :=
  match rest with
  | [] => ret None
  | r :: rest =>
      ok <-- call_retain r ;;
      if negb ok then ret (Some retained) else retain_all (r :: retained) rest
  end.

(** After the batch is retained: publish it. *)
Definition publish (i : nat) (b : BatchSnapshot) : ST machine (SubmitError * FenceToken) :=
  upd_job i (set_held true) ;;;
  accepted <-- call_submit b ;;
  if bool_decide (accepted = BRejected) then
    release i ;;; upd_job i (fun _ => no_job) ;;; ret (Rejected, no_token)
  else
    upd (fun q => {| jobs_ := jobs_ q; backend_ := backend_ q; owner_ := owner_ q; context_ := context_ q;
      generation_ := generation_ q; lastTime_ := lastTime_ q; engine_ := engine_ q;
      nextSequence_ := if nextSequence_ q =? U32_MAX then nextSequence_ q else wrap 32 (nextSequence_ q + 1);
      lastSubmitted_ := nextSequence_ q; lastObserved_ := lastObserved_ q;
      exhausted_ := if nextSequence_ q =? U32_MAX then true else exhausted_ q; state_ := state_ q |}) ;;;
    if bool_decide (accepted <> BAccepted) then
      upd_job i (set_state JAcceptanceUnknown) ;;; upd (set_qstate NeedsReset) ;;;
      ret (AcceptanceUnknown, fence b)
    else
      upd_job i (set_state JSubmitted) ;;; ret (None_, fence b).

(** Null arrays are [None]; [wordCount] and [resourceCount] are the lengths. *)
Definition submit (ws : option (list Z)) (rs : option (list Resource)) (now dl : Z)
    : ST machine (SubmitError * FenceToken) :=
  q <-- gets queue ;;
  if negb (completeBackend (backend_ q)) then ret (UnsupportedBackend, no_token)
  else if bool_decide (state_ q <> Ready) then ret (NotReady, no_token)
  else
    ticked <-- tick now ;;
    if negb ticked then ret (ClockRegression, no_token)
    else
      match rs with
      | None => ret (InvalidArgument, no_token)
      | Some rs =>
          if (dl <=? now) || (length rs =? 0)%nat || (maxResources <? length rs)%nat
          then ret (InvalidArgument, no_token)
          else
            match ws with
            | None => ret (InvalidArgument, no_token)
            | Some ws =>
                if (length ws =? 0)%nat || (maxBatchWords <? length ws)%nat then ret (InvalidArgument, no_token)
                else if exhausted_ q then ret (SequenceExhausted, no_token)
                else
                  match list_find (fun j => state j = JFree) (jobs_ q) with
                  | None => ret (Capacity, no_token)
                  | Some (i, _) =>
                      let b := {| fence := {| f_generation := generation_ q; f_sequence := nextSequence_ q |};
                        b_owner := owner_ q; b_context := context_ q; deadline := dl; b_engine := engine_ q;
                        words := ws; resources := rs |} in
                      upd_job i (fun _ => {| batch := b; state := JFree; held := false |}) ;;;
                      let validation := validateBootstrapBatch (Some ws) in
                      if bool_decide (validation <> None_) then ret (validation, no_token)
                      else
                        match check_resources (owner_ q) [] rs with
                        | Some e => ret (e, no_token)
                        | None =>
                            refused <-- retain_all [] rs ;;
                            match refused with
                            | Some retained =>
                                for_each retained call_release ;;;
                                upd_job i (fun _ => no_job) ;;; ret (ResourceBusy, no_token)
                            | None => publish i b
                            end
                        end
                  end
            end
      end.

Definition expired (now : Z) (j : Job) : bool :=
  bool_decide (state j = JSubmitted) && (deadline (batch j) <=? now).

Definition expire (now : Z) : ST machine SubmitError :=
  ticked <-- tick now ;;
  if negb ticked then ret ClockRegression
  else
    for_each (seq 0 maxJobs) (fun i =>
      q <-- gets queue ;;
      when (expired now (job_at q i)) (
        upd_job i (set_state JTimedOut) ;;; upd (set_qstate NeedsReset))) ;;;
    ret None_.

Definition observation_invalid (q : SubmissionQueue) (o : FenceObservation) : bool :=
  negb (o_valid o) || negb (acquireOrdered o) || negb (o_generation o =? generation_ q) ||
  negb (o_owner o =? owner_ q) || negb (o_context o =? context_ q) || negb (o_engine o =? engine_ q) ||
  (completedSequence o <? lastObserved_ q) || (lastSubmitted_ q <? completedSequence o).

(** The body of the loop of [onInterrupt]. *)
Definition observe_job (i : nat) : ST machine unit :=
  q <-- gets queue ;;
  let job := job_at q i in
  if negb (f_generation (fence (batch job)) =? generation_ q) ||
     (lastObserved_ q <? f_sequence (fence (batch job))) then ret tt
  else
    match state job with
    | JSubmitted => upd_job i (set_state JCompleted) ;;; release i
    | JTimedOut | JAcceptanceUnknown => release i
    | _ => ret tt
    end.

Definition onInterrupt (irqGeneration now : Z) : ST machine SubmitError :=
  q <-- gets queue ;;
  if negb (irqGeneration =? generation_ q) then ret StaleGeneration
  else if negb (completeBackend (backend_ q)) then ret UnsupportedBackend
  else if bool_decide (state_ q = Inactive) then ret NotReady
  else
    e <-- expire now ;;
    if bool_decide (e <> None_) then ret e
    else
      r <-- call_readFence ;;
      let '(e, observation) := r in
      if bool_decide (e <> None_) then ret e
      else
        q <-- gets queue ;;
        if observation_invalid q observation then ret InvalidObservation
        else
          record (QFence observation) ;;;
          upd (set_lastObserved (completedSequence observation)) ;;;
          for_each (seq 0 maxJobs) observe_job ;;; ret None_.

(** The body of the loop of [reset]. *)
Definition reset_job (i : nat) : ST machine unit :=
  q <-- gets queue ;;
  let job := job_at q i in
  when (bool_decide (state job = JSubmitted) || bool_decide (state job = JAcceptanceUnknown))
    (upd_job i (set_state JReset)) ;;;
  release i.

Definition reset (now : Z) : ST machine SubmitError :=
  q <-- gets queue ;;
  if negb (completeBackend (backend_ q)) then ret UnsupportedBackend
  else
    ticked <-- tick now ;;
    if negb ticked then ret ClockRegression
    else
      upd (set_qstate NeedsReset) ;;;
      if generation_ q =? U64_MAX then ret SequenceExhausted
      else
        stopped <-- call_quiesce ;;
        if negb stopped then ret QuiesceFailed
        else
          for_each (seq 0 maxJobs) reset_job ;;;
          upd (fun q => {| jobs_ := jobs_ q; backend_ := backend_ q; owner_ := owner_ q; context_ := context_ q;
            generation_ := generation_ q +64 1; lastTime_ := lastTime_ q; engine_ := engine_ q;
            nextSequence_ := 1; lastSubmitted_ := 0; lastObserved_ := 0; exhausted_ := false;
            state_ := Inactive |}) ;;;
          ret None_.

Definition query (q : SubmissionQueue) (token : FenceToken) : SubmitError * JobResult :=
  match find q token with
  | None => (StaleGeneration, no_result)
  | Some i =>
      let job := job_at q i in
      (None_, {| jr_state := state job; resourcesHeld := held job; jr_token := fence (batch job) |})
  end.

Definition retire (token : FenceToken) : ST machine SubmitError :=
  q <-- gets queue ;;
  match find q token with
  | None => ret StaleGeneration
  | Some i =>
      let job := job_at q i in
      if held job || bool_decide (state job = JSubmitted) then ret ResourceBusy
      else upd_job i (fun _ => no_job) ;;; ret None_
  end.
End Queue.

Arguments SubmissionBackend : clear implicits.
Arguments SubmissionQueue : clear implicits.
Arguments machine : clear implicits.
End MellowXe.
