(* ===== verification/XeSubmissionInv.v ===== *)
(** The invariant of the submission queue, and the interface through which the queue sees the
    owner of its resources. *)
From stdpp Require Import base numbers list.
From S2P Require Import Prelude.
From S2P Require Import StateWp.
From S2P Require Import XeSubmission.
Import MellowXe.

(** * Held resources *)

Definition holds_of (j : Job) : list Resource := if held j then resources (batch j) else [].
Definition refs (l : list Job) : list Resource := l ≫= holds_of.

(** What [refs] holds besides job [i]. *)
Definition refs_but (i : nat) (l : list Job) : list Resource := refs (take i l) ++ refs (drop (S i) l).

Lemma refs_split l i j : l !! i = Some j -> refs l ≡ₚ holds_of j ++ refs_but i l.
Proof.
  intros Hi. unfold refs, refs_but. rewrite <- (take_drop_middle l i j Hi) at 1.
  rewrite bind_app. cbn. rewrite Permutation_app_swap_app. done.
Qed.

Lemma refs_insert l i j j' : l !! i = Some j -> refs (<[i := j']> l) ≡ₚ holds_of j' ++ refs_but i l.
Proof.
  intros Hi. pose proof (lookup_lt_Some _ _ _ Hi) as Hl.
  rewrite (refs_split (<[i := j']> l) i j') by (by apply list_lookup_insert_eq).
  unfold refs_but. rewrite take_insert_ge, drop_insert_lt by lia. done.
Qed.

(** * The owner of the resources

    [Good w H]: the world [w] is in order and the queue has the holds [H] on its resources. *)
Class ResourceOwner {W} (b : SubmissionBackend W) (Good : W -> list Resource -> Prop) : Prop := {
  ro_perm w H H' : Good w H -> H ≡ₚ H' -> Good w H';
  ro_readiness f fw g o c e out w H :
    sb_readiness b = Some f -> Good w H -> Good (f fw g o c e out w).2 H;
  ro_retain f r w H : sb_retain b = Some f -> Good w H -> Good (f r w).2 (if (f r w).1 then r :: H else H);
  ro_release f r w H : sb_release b = Some f -> Good w (r :: H) -> Good (f r w) H;
  ro_submit f x w H : sb_submit b = Some f -> Good w H -> Good (f x w).2 H;
  ro_readFence f g o c e out w H :
    sb_readFence b = Some f -> Good w H -> Good (f g o c e out w).2 H;
  ro_quiesce f g o c e w H : sb_quiesce b = Some f -> Good w H -> Good (f g o c e w).2 H;
}.

(** Nothing is asked of an owner that may do anything. *)
#[export] Instance any_owner {W} (b : SubmissionBackend W) : ResourceOwner b (fun _ _ => True).
Proof. by split. Qed.

(** * Jobs *)

(** The hardware reported, for the generation of the token, a sequence that has reached it. *)
Definition fence_passed {W} (q : SubmissionQueue W) (tr : list q_event) (t : FenceToken) : Prop :=
  exists o, QFence o ∈ tr /\ o_valid o = true /\ acquireOrdered o = true /\
    o_generation o = f_generation t /\ o_owner o = owner_ q /\ o_context o = context_ q /\
    o_engine o = engine_ q /\ f_sequence t <= completedSequence o.

(** The hardware was stopped in the generation of the token. *)
Definition stopped (tr : list q_event) (t : FenceToken) : Prop := QQuiesce (f_generation t) true ∈ tr.

Lemma fence_passed_cons {W} (q q' : SubmissionQueue W) tr ev t :
  owner_ q' = owner_ q -> context_ q' = context_ q -> engine_ q' = engine_ q ->
  fence_passed q tr t -> fence_passed q' (ev :: tr) t.
Proof.
  intros E1 E2 E3 (o & ? & ?). exists o. rewrite E1, E2, E3. split; [by apply elem_of_cons; right|done].
Qed.

(** The state of a job of the current generation, when [seen] is the last sequence observed. *)
Definition current_ok (seen : Z) (j : Job) : Prop :=
  let s := f_sequence (fence (batch j)) in
  match state j with
  | JFree | JReset => False
  | JSubmitted => held j = true /\ seen < s
  | JCompleted => held j = false /\ s <= seen
  | JTimedOut | JAcceptanceUnknown => held j = (seen <? s)
  end.

Record job_ok {W} (q : SubmissionQueue W) (seen : Z) (tr : list q_event) (j : Job) : Prop := {
  jo_sequence : 0 < f_sequence (fence (batch j)) <= U32_MAX;
  jo_generation : 0 < f_generation (fence (batch j)) <= generation_ q;
  jo_current : f_generation (fence (batch j)) = generation_ q ->
    f_sequence (fence (batch j)) <= lastSubmitted_ q /\ current_ok seen j;
  jo_old : f_generation (fence (batch j)) < generation_ q ->
    held j = false /\ state j <> JSubmitted /\ state j <> JAcceptanceUnknown;
  jo_backend : completeBackend (backend_ q) = true;
  jo_submitted : exists a, QSubmit (batch j) a ∈ tr /\ a <> BRejected;
  jo_completed : state j = JCompleted -> fence_passed q tr (fence (batch j));
  jo_released : held j = false -> fence_passed q tr (fence (batch j)) \/ stopped tr (fence (batch j));
  jo_doubt : f_generation (fence (batch j)) = generation_ q ->
    state j = JTimedOut \/ state j = JAcceptanceUnknown -> state_ q = NeedsReset;
}.

(** A table of jobs: those in use satisfy [P] and have tokens of their own. *)
Record jobs_sat (l : list Job) (P : nat -> Job -> Prop) : Prop := {
  js_length : length l = maxJobs;
  js_free : forall i j, l !! i = Some j -> state j = JFree -> held j = false;
  js_job : forall i j, l !! i = Some j -> state j <> JFree -> P i j;
  js_unique : forall i k j j', l !! i = Some j -> l !! k = Some j' ->
    state j <> JFree -> state j' <> JFree -> fence (batch j) = fence (batch j') -> i = k;
}.

Lemma jobs_sat_impl l (P P' : nat -> Job -> Prop) :
  jobs_sat l P -> (forall i j, l !! i = Some j -> state j <> JFree -> P i j -> P' i j) -> jobs_sat l P'.
Proof. intros [] H. split; auto. Qed.

Lemma jobs_sat_set l i j j' (P P' : nat -> Job -> Prop) :
  jobs_sat l P -> l !! i = Some j ->
  (state j' = JFree -> held j' = false) -> (state j' <> JFree -> P' i j') ->
  (forall k x, k <> i -> l !! k = Some x -> state x <> JFree -> P k x -> P' k x) ->
  (state j' <> JFree -> (state j <> JFree /\ fence (batch j') = fence (batch j)) \/
    forall k x, l !! k = Some x -> state x <> JFree -> fence (batch x) <> fence (batch j')) ->
  jobs_sat (<[i := j']> l) P'.
Proof.
  intros [Hl Hf Hj Hu] Hi F J O U. split.
  - by rewrite length_insert.
  - intros k x [(<- & <- & _)|[? Hk]]%list_lookup_insert_Some; [done|by eapply Hf].
  - intros k x [(<- & <- & _)|[? Hk]]%list_lookup_insert_Some Hx; [by apply J|]. by apply O; [|..|apply Hj].
  - assert (Hone : forall k x, k <> i -> l !! k = Some x -> state x <> JFree -> state j' <> JFree ->
      fence (batch x) <> fence (batch j')).
    { intros k x Hne Hk Hx Hj'. destruct (U Hj') as [[Hji E]|Hn]; [|by eapply Hn].
      rewrite E. intros Eq. by apply Hne, (Hu k i x j). }
    intros k k' x x' [(<- & <- & _)|[? Hk]]%list_lookup_insert_Some
      [(<- & <- & _)|[? Hk']]%list_lookup_insert_Some Hx Hx' Eq.
    + done.
    + exfalso. by eapply (Hone k' x').
    + exfalso. by eapply (Hone k x).
    + by eapply Hu.
Qed.

Record queue_ok {W} (q : SubmissionQueue W) (tr : list q_event) : Prop := {
  qo_generation : 0 < generation_ q <= U64_MAX;
  qo_next : 0 < nextSequence_ q <= U32_MAX;
  qo_last : if exhausted_ q then lastSubmitted_ q = U32_MAX else lastSubmitted_ q + 1 = nextSequence_ q;
  qo_observed : 0 <= lastObserved_ q <= lastSubmitted_ q;
  qo_jobs : jobs_sat (jobs_ q) (fun _ => job_ok q (lastObserved_ q) tr);
}.

(** A job stays in order while the queue goes on in its generation. *)
Lemma job_ok_mono {W} (q q' : SubmissionQueue W) seen tr tr' j :
  job_ok q seen tr j -> generation_ q' = generation_ q -> backend_ q' = backend_ q ->
  owner_ q' = owner_ q -> context_ q' = context_ q -> engine_ q' = engine_ q ->
  lastSubmitted_ q <= lastSubmitted_ q' -> (state_ q = NeedsReset -> state_ q' = NeedsReset) ->
  (forall ev, ev ∈ tr -> ev ∈ tr') -> job_ok q' seen tr' j.
Proof.
  intros [] Eg Eb Eo Ec Ee Hl Hst Htr.
  assert (Hf : fence_passed q tr (fence (batch j)) -> fence_passed q' tr' (fence (batch j))).
  { intros (o & ? & ?). exists o. rewrite Eo, Ec, Ee. auto. }
  split; rewrite ?Eg, ?Eb; auto.
  - intros E. destruct (jo_current0 E). split; [lia|done].
  - destruct jo_submitted0 as (a & ? & ?). exists a. auto.
  - intros E. destruct (jo_released0 E) as [?|?]; [left; auto|right; by apply Htr].
Qed.

Section Inv.
Context {W : Type} (b : SubmissionBackend W) (Good : W -> list Resource -> Prop) `{!ResourceOwner b Good}.
Implicit Types (m : machine W) (q : SubmissionQueue W).

Record inv m : Prop := {
  iv_backend : backend_ (queue m) = b;
  iv_queue : queue_ok (queue m) (trace m);
  iv_good : Good (world m) (refs (jobs_ (queue m)));
}.

(** * Rules *)

(** A call that the owner of the resources does not notice. *)
Lemma wp_act {A} m (f : W -> A * W) H (Q : A -> machine W -> Prop) :
  Good (f (world m)).2 H ->
  (forall r w, Good w H -> Q r {| queue := queue m; world := w; trace := trace m |}) -> wp (act f) Q m.
Proof. intros HG HQ. unfold wp, act. destruct (f (world m)) as [r w]. by apply HQ. Qed.

Lemma wp_call_release m r H (Q : unit -> machine W -> Prop) :
  backend_ (queue m) = b -> is_some (sb_release b) = true -> Good (world m) (r :: H) ->
  (forall w, Good w H -> Q tt {| queue := queue m; world := w; trace := trace m |}) ->
  wp (call_release r) Q m.
Proof.
  intros Eb Hs HG HQ. unfold call_release. wp_steps. rewrite Eb. destruct (sb_release b) as [f|] eqn:E; [|done].
  eapply wp_act; [by eapply (ro_release f)|]. intros []. apply HQ.
Qed.

Lemma wp_release_all m l H (Q : unit -> machine W -> Prop) :
  backend_ (queue m) = b -> is_some (sb_release b) = true -> Good (world m) (l ++ H) ->
  (forall w, Good w H -> Q tt {| queue := queue m; world := w; trace := trace m |}) ->
  wp (for_each l call_release) Q m.
Proof.
  intros Eb Hs. revert m Eb. induction l as [|r l IH]; intros m Eb HG HQ; cbn [for_each].
  - apply wp_ret. specialize (HQ (world m) HG). by destruct m.
  - wp_step. eapply wp_call_release; [done..|]. intros w HG'. by apply IH.
Qed.

Lemma complete_release q : completeBackend (backend_ q) = true -> is_some (sb_release (backend_ q)) = true.
Proof. unfold completeBackend. rewrite !andb_true_iff. tauto. Qed.

Lemma alter_set {A} (f : A -> A) (l : list A) i x : l !! i = Some x -> alter f i l = <[i := f x]> l.
Proof.
  intros Hi. apply list_eq. intros k. destruct (decide (i = k)) as [<-|Hne].
  - by rewrite list_lookup_alter_eq, Hi, list_lookup_insert_eq by (by eapply lookup_lt_Some).
  - by rewrite list_lookup_alter_ne, list_lookup_insert_ne.
Qed.

(** [release] drops exactly the holds of its job. *)
Lemma wp_release_job m i j (Q : unit -> machine W -> Prop) :
  backend_ (queue m) = b -> jobs_ (queue m) !! i = Some j ->
  (held j = true -> completeBackend (backend_ (queue m)) = true) ->
  Good (world m) (refs (jobs_ (queue m))) ->
  (forall w, let l := <[i := set_held false j]> (jobs_ (queue m)) in
     Good w (refs l) -> Q tt {| queue := set_jobs l (queue m); world := w; trace := trace m |}) ->
  wp (release i) Q m.
Proof.
  intros Eb Hi Hc HG HQ. unfold release. wp_step. wp_step.
  assert (Ej : job_at (queue m) i = j) by (unfold job_at; by rewrite Hi). rewrite Ej. wp_step.
  - apply negb_true_iff in Hcond. apply wp_ret.
    assert (E : set_held false j = j) by (destruct j; cbn in *; by subst).
    specialize (HQ (world m)). cbv zeta in HQ. rewrite E, list_insert_id in HQ by done.
    specialize (HQ HG). by destruct m as [[] ? ?].
  - apply negb_false_iff in Hcond. wp_step.
    eapply (wp_release_all _ _ (refs_but i (jobs_ (queue m)))); [done|rewrite <- Eb; by apply complete_release, Hc| |].
    { eapply ro_perm; [done|]. rewrite (refs_split _ i j) by done. unfold holds_of. rewrite Hcond.
      by rewrite <- Permutation_rev. }
    intros w HG'. apply wp_modify. cbn [queue world trace]. unfold upd_job in *.
    rewrite (alter_set _ _ _ _ Hi). apply HQ. eapply ro_perm; [done|].
    by rewrite (refs_insert _ i j).
Qed.
End Inv.
