(* ===== verification/XeSubmissionOps.v ===== *)
(** Every operation of the submission queue keeps its invariant. *)
From stdpp Require Import base numbers list.
From S2P Require Import Prelude.
From S2P Require Import StateWp.
From S2P Require Import XeFirmware.
From S2P Require Import XeSubmission.
From S2P Require Import XeSubmissionInv.
Import MellowXe.
Import (hints) MellowXe.

(** A counted loop. *)
Lemma wp_for_seq {S} (P : nat -> S -> Prop) (f : nat -> ST S unit) n s (Q : unit -> S -> Prop) :
  P 0%nat s -> (forall k s', (k < n)%nat -> P k s' -> wp (f k) (fun _ => P (Datatypes.S k)) s') ->
  (forall s', P n s' -> Q tt s') -> wp (for_each (seq 0 n) f) Q s.
Proof.
  intros H0 Hf HQ.
  assert (Hgen : forall d k s, (k + d = n)%nat -> P k s -> wp (for_each (seq k d) f) Q s).
  { intros d. induction d as [|d IH]; intros k s' Hk HP; cbn [seq for_each].
    - apply wp_ret, HQ. by replace n with k by lia.
    - wp_step. eapply wp_mono; [apply Hf; [lia|done]|]. intros [] s'' HP'. apply IH; [lia|done]. }
  by apply Hgen.
Qed.

Section Ops.
Context {W : Type} (b : SubmissionBackend W) (Good : W -> list Resource -> Prop) `{!ResourceOwner b Good}.
Notation inv := (inv b Good).
Implicit Types (m : machine W) (q : SubmissionQueue W).

Notation keeps op m := (wp op (fun _ m' => inv m') m).

(** * The state of the queue *)

Lemma queue_ok_set q q' tr :
  queue_ok q tr -> jobs_ q' = jobs_ q -> generation_ q' = generation_ q -> backend_ q' = backend_ q ->
  owner_ q' = owner_ q -> context_ q' = context_ q -> engine_ q' = engine_ q ->
  nextSequence_ q' = nextSequence_ q -> lastSubmitted_ q' = lastSubmitted_ q ->
  lastObserved_ q' = lastObserved_ q -> exhausted_ q' = exhausted_ q ->
  (state_ q = NeedsReset -> state_ q' = NeedsReset) -> queue_ok q' tr.
Proof.
  intros [] Ej Eg Eb Eo Ec Ee En El Eob Ex Hst.
  split; rewrite ?Eg, ?En, ?El, ?Eob, ?Ex, ?Ej; auto.
  eapply jobs_sat_impl; [done|]. intros i j _ _ HJ. cbv beta in HJ. eapply job_ok_mono; [done..|lia|exact Hst|done].
Qed.

Lemma inv_upd m f (Q : unit -> machine W -> Prop) :
  inv m -> jobs_ (f (queue m)) = jobs_ (queue m) -> backend_ (f (queue m)) = backend_ (queue m) ->
  queue_ok (f (queue m)) (trace m) ->
  (forall m', inv m' -> queue m' = f (queue m) -> trace m' = trace m -> Q tt m') -> wp (upd f) Q m.
Proof.
  intros [Eb Hq HG] Ej Eb' Hq' HQ. apply wp_modify, HQ; [|done..]. split; cbn; [by rewrite Eb'|done|by rewrite Ej].
Qed.

Lemma wp_tick m now (Q : bool -> machine W -> Prop) :
  inv m -> Q false m ->
  (forall m', inv m' -> queue m' = set_lastTime now (queue m) -> trace m' = trace m -> Q true m') ->
  wp (tick now) Q m.
Proof.
  intros Hm HF HT. unfold tick. wp_steps; [done|]. eapply inv_upd; [done..| |].
  - by eapply queue_ok_set; [apply Hm|..].
  - intros m' Hm' E T. apply wp_ret. by apply HT.
Qed.

(** A call that only the owner of the resources may notice. *)
Lemma wp_act_inv {A} m (f : W -> A * W) (Q : A -> machine W -> Prop) :
  inv m -> (forall H, Good (world m) H -> Good (f (world m)).2 H) ->
  (forall r w, inv {| queue := queue m; world := w; trace := trace m |} ->
    Q r {| queue := queue m; world := w; trace := trace m |}) -> wp (act f) Q m.
Proof.
  intros [Eb Hq HG] Hf HQ. eapply wp_act; [by apply Hf|]. intros r w HG'. apply HQ. by split.
Qed.

Lemma activate_ok m fw : inv m -> keeps (activate fw) m.
Proof.
  intros Hm. unfold activate. wp_steps; [done..|]. unfold call_readiness. wp_steps.
  eapply wp_act_inv; [done| |].
  { intros H HG. rewrite (iv_backend _ _ _ Hm). destruct (sb_readiness b) as [f|] eqn:E; [|done].
    by eapply (ro_readiness f). }
  intros [e ready] w Hm'. wp_steps; [done..|].
  eapply inv_upd; [done..| |by intros; apply wp_ret].
  eapply queue_ok_set; [apply Hm'|done..|]. cbn in *. intros E.
  apply orb_false_iff in Hcond0 as [_ H]. apply bool_decide_eq_false, dec_stable in H. congruence.
Qed.

(** * One job *)

(** The queue goes on in its generation. *)
Record same_run q q' : Prop := {
  sr_generation : generation_ q' = generation_ q;
  sr_backend : backend_ q' = backend_ q;
  sr_owner : owner_ q' = owner_ q /\ context_ q' = context_ q /\ engine_ q' = engine_ q;
  sr_sequence : nextSequence_ q' = nextSequence_ q /\ lastSubmitted_ q' = lastSubmitted_ q /\
    lastObserved_ q' = lastObserved_ q /\ exhausted_ q' = exhausted_ q;
  sr_state : state_ q = NeedsReset -> state_ q' = NeedsReset;
}.

Lemma same_run_job q q' seen tr j : same_run q q' -> job_ok q seen tr j -> job_ok q' seen tr j.
Proof.
  intros [Eg Eb (Eo & Ec & Ee) (En & El & Eob & Ex) Hst] HJ.
  eapply job_ok_mono; [done..|lia|exact Hst|done].
Qed.

Lemma inv_set_job m m' i j j' :
  inv m -> jobs_ (queue m) !! i = Some j -> jobs_ (queue m') = <[i := j']> (jobs_ (queue m)) ->
  same_run (queue m) (queue m') -> trace m' = trace m -> Good (world m') (refs (jobs_ (queue m'))) ->
  (state j' = JFree -> held j' = false) ->
  (state j' <> JFree -> state j <> JFree /\ fence (batch j') = fence (batch j) /\
    job_ok (queue m') (lastObserved_ (queue m)) (trace m) j') -> inv m'.
Proof.
  intros [Eb [] HG] Hi Ej HR T HG' HF HJ.
  pose proof HR as [Eg Eb' (Eo & Ec & Ee) (En & El & Eob & Ex) Hst].
  split; [congruence| |done]. rewrite T. split; rewrite ?Eg, ?En, ?El, ?Eob, ?Ex; try done. rewrite Ej.
  eapply jobs_sat_set; [done..| | |].
  - intros Hs. by apply HJ.
  - intros k x _ _ _. by apply same_run_job.
  - intros Hs. left. destruct (HJ Hs) as (? & ? & _). done.
Qed.

Lemma refs_same m i j j' :
  jobs_ (queue m) !! i = Some j -> holds_of j' = holds_of j ->
  Good (world m) (refs (jobs_ (queue m))) -> Good (world m) (refs (<[i := j']> (jobs_ (queue m)))).
Proof.
  intros Hi E HG. eapply ro_perm; [done|]. rewrite (refs_insert _ i j) by done.
  rewrite (refs_split _ i j) by done. by rewrite E.
Qed.

(** * [expire] *)

Lemma timed_out_ok q q' tr j :
  state j = JSubmitted -> job_ok q (lastObserved_ q) tr j -> same_run q q' -> state_ q' = NeedsReset ->
  job_ok q' (lastObserved_ q) tr (set_state JTimedOut j).
Proof.
  intros Es HJ HR Hst. apply (same_run_job _ _ _ _ _ HR) in HJ as [].
  split; cbn; auto; try done.
  - intros E. destruct (jo_current E) as [? Hc]. split; [done|]. unfold current_ok in *. rewrite Es in Hc. cbn.
    destruct Hc as [-> ?]. symmetry. by apply Z.ltb_lt.
  - intros E. destruct (jo_old E) as (? & ? & ?). done.
Qed.

Lemma expire_job_inv m now i :
  inv m -> (i < maxJobs)%nat ->
  wp (q <-- gets queue ;;
      when (expired now (job_at q i)) (
        upd_job i (set_state JTimedOut) ;;; upd (set_qstate NeedsReset))) (fun _ m' => inv m') m.
Proof.
  intros Hm Hi. wp_steps; [|done].
  destruct (lookup_lt_is_Some_2 (jobs_ (queue m)) i) as [j Hj].
  { by rewrite (js_length _ _ (qo_jobs _ _ (iv_queue _ _ _ Hm))). }
  assert (Ej : job_at (queue m) i = j) by (unfold job_at; by rewrite Hj). rewrite Ej in Hcond.
  unfold expired in Hcond. apply andb_true_iff in Hcond as [Hs%bool_decide_eq_true _].
  apply wp_modify. apply wp_modify. cbn [queue world trace].
  set (q' := set_qstate NeedsReset _). assert (HR : same_run (queue m) q') by done.
  apply (inv_set_job m _ i j (set_state JTimedOut j)); [done|done| |done|done| |done|]; cbn.
  - by apply alter_set.
  - rewrite (alter_set _ _ _ _ Hj). by eapply refs_same; [done|..|apply Hm].
  - intros _. rewrite Hs. split_and!; [done..|]. apply timed_out_ok; [done| |done|done].
    eapply (js_job _ _ (qo_jobs _ _ (iv_queue _ _ _ Hm))); [done|]. by rewrite Hs.
Qed.

Lemma queue_expire_ok m now : inv m -> keeps (expire now) m.
Proof.
  intros Hm. unfold expire. wp_step. eapply wp_tick; [done|by wp_steps|]. intros m' Hm' _ _. wp_steps; [done|].
  eapply (wp_for_seq (fun _ => inv)); [done| |by intros; apply wp_ret].
  intros k s Hk Hs. by apply expire_job_inv.
Qed.
(** * [onInterrupt] *)

Section Observe.
Context (q : SubmissionQueue W) (tr : list q_event) (seen new : Z).
Context (Hle : seen <= new).
Context (Hfence : forall t, f_generation t = generation_ q -> f_sequence t <= new -> fence_passed q tr t).

(** A job that the observation does not reach. *)
Lemma observe_pass j :
  job_ok q seen tr j ->
  f_generation (fence (batch j)) <> generation_ q \/ new < f_sequence (fence (batch j)) -> job_ok q new tr j.
Proof.
  intros [] Hp. split; auto. intros E. destruct (jo_current E) as [? Hc]. split; [done|].
  destruct Hp as [Hp|Hp]; [done|]. unfold current_ok in *. destruct (state j); try done.
  - split; [tauto|lia].
  - rewrite Hc, !(proj2 (Z.ltb_lt _ _)) by lia. done.
  - lia.
  - rewrite Hc, !(proj2 (Z.ltb_lt _ _)) by lia. done.
Qed.

(** A job that the observation reaches, released with state [st]. *)
Lemma observe_release j st :
  job_ok q seen tr j -> f_generation (fence (batch j)) = generation_ q -> f_sequence (fence (batch j)) <= new ->
  (st = JCompleted \/ st = state j /\ (st = JTimedOut \/ st = JAcceptanceUnknown)) ->
  job_ok q new tr (set_held false (set_state st j)).
Proof.
  intros [] Hg Hs Hst. pose proof (Hfence _ Hg Hs) as Hf. split; cbn; auto.
  - intros _. destruct (jo_current Hg) as [? _]. split; [done|]. unfold current_ok. cbn.
    destruct Hst as [->|[_ [->| ->]]]; [done|symmetry; apply Z.ltb_ge; lia..].
  - lia.
  - intros _ H. destruct Hst as [->|[-> Ht]]; [destruct H; done|by apply jo_doubt].
Qed.

Lemma observe_done j :
  job_ok q seen tr j -> state j = JCompleted -> job_ok q new tr j.
Proof.
  intros [] Hs. split; auto. intros E. destruct (jo_current E) as [? Hc]. split; [done|].
  unfold current_ok in *. rewrite Hs in *. split; [tauto|lia].
Qed.
End Observe.

(** The loop has looked at the first [k] jobs. *)
Record looking (q : SubmissionQueue W) (tr : list q_event) (P P' : Job -> Prop) (k : nat) m : Prop := {
  lk_queue : queue m = set_jobs (jobs_ (queue m)) q;
  lk_trace : trace m = tr;
  lk_jobs : jobs_sat (jobs_ (queue m)) (fun i j => if decide (i < k)%nat then P' j else P j);
  lk_good : Good (world m) (refs (jobs_ (queue m)));
}.

Lemma looking_job q tr P P' k m :
  looking q tr P P' k m -> (k < maxJobs)%nat -> exists j, jobs_ (queue m) !! k = Some j /\
    job_at (queue m) k = j /\ (state j <> JFree -> P j).
Proof.
  intros [_ _ HJ _] Hk. destruct (lookup_lt_is_Some_2 (jobs_ (queue m)) k) as [j Hj].
  { by rewrite (js_length _ _ HJ). }
  exists j. split; [done|]. split; [unfold job_at; by rewrite Hj|]. intros Hs.
  pose proof (js_job _ _ HJ _ _ Hj Hs) as H. cbv beta in H. by rewrite decide_False in H by lia.
Qed.

(** The next job changes to [j'], with the same batch. *)
Lemma looking_next q tr P P' k m m' j j' :
  looking q tr P P' k m -> jobs_ (queue m) !! k = Some j ->
  queue m' = set_jobs (<[k := j']> (jobs_ (queue m))) (queue m) -> trace m' = trace m ->
  Good (world m') (refs (jobs_ (queue m'))) -> batch j' = batch j ->
  (state j = JFree -> state j' = JFree /\ held j' = held j) ->
  (state j <> JFree -> state j' <> JFree /\ P' j') -> looking q tr P P' (S k) m'.
Proof.
  intros [Eq Et HJ HG] Hk E T HG' Eb HF HN. split; [rewrite E, Eq; done|congruence| |done].
  rewrite E. cbn. eapply jobs_sat_set; [done..| | | |].
  - intros H. destruct (decide (state j = JFree)) as [Hf|Hf]; [|by destruct (HN Hf)].
    destruct (HF Hf) as [_ ->]. by eapply (js_free _ _ HJ).
  - intros H. rewrite decide_True by lia. apply HN. intros Hf. by destruct (HF Hf).
  - intros i x Hne _ _. cbv beta. destruct (decide (i < k)%nat).
    + by rewrite decide_True by lia.
    + by rewrite decide_False by lia.
  - intros H. left. split; [|by rewrite Eb]. intros Hf. by destruct (HF Hf).
Qed.

Lemma looking_stay q tr P P' k m j :
  looking q tr P P' k m -> jobs_ (queue m) !! k = Some j -> (state j <> JFree -> P' j) ->
  looking q tr P P' (S k) m.
Proof.
  intros HL Hk HN. eapply looking_next; [done|done| |done|apply HL|done|done|by auto].
  rewrite list_insert_id by done. rewrite (lk_queue _ _ _ _ _ _ HL). done.
Qed.

Lemma observe_job_ok q tr k m seen :
  backend_ q = b -> seen <= lastObserved_ q ->
  (forall t, f_generation t = generation_ q -> f_sequence t <= lastObserved_ q -> fence_passed q tr t) ->
  (k < maxJobs)%nat -> looking q tr (job_ok q seen tr) (job_ok q (lastObserved_ q) tr) k m ->
  wp (observe_job k) (fun _ => looking q tr (job_ok q seen tr) (job_ok q (lastObserved_ q) tr) (S k)) m.
Proof.
  intros Eb Hle Hf Hk HL. destruct (looking_job _ _ _ _ _ _ HL Hk) as (j & Hj & Ej & HJ).
  pose proof (lk_queue _ _ _ _ _ _ HL) as Eq. unfold observe_job. wp_step. wp_step. rewrite Ej.
  assert (Eg : generation_ (queue m) = generation_ q) by (by rewrite Eq).
  assert (El : lastObserved_ (queue m) = lastObserved_ q) by (by rewrite Eq).
  assert (Ebm : backend_ (queue m) = b) by (by rewrite Eq).
  rewrite Eg, El. wp_step.
  { apply wp_ret. eapply looking_stay; [done..|]. intros Hs. eapply observe_pass; [done|by apply HJ|].
    apply orb_true_iff in Hcond. rewrite negb_true_iff, Z.eqb_neq, Z.ltb_lt in Hcond. done. }
  apply orb_false_iff in Hcond as [Hg%negb_false_iff Hs]. apply Z.eqb_eq in Hg. apply Z.ltb_ge in Hs.
  assert (Hrel : forall st m1 j1, state j <> JFree -> st <> JFree -> j1 = set_state st j ->
    (st = JCompleted \/ st = state j /\ (st = JTimedOut \/ st = JAcceptanceUnknown)) ->
    queue m1 = set_jobs (<[k := j1]> (jobs_ (queue m))) (queue m) -> trace m1 = trace m -> world m1 = world m ->
    wp (release k) (fun _ => looking q tr (job_ok q seen tr) (job_ok q (lastObserved_ q) tr) (S k)) m1).
  { intros st m1 j1 Hn Hst -> Hcase E1 T1 W1. pose proof (lookup_lt_Some _ _ _ Hj) as Hlt.
    assert (Hj1 : jobs_ (queue m1) !! k = Some (set_state st j)) by (rewrite E1; cbn; by rewrite list_lookup_insert_eq).
    eapply (wp_release_job b Good); [by rewrite E1|done| | |].
    - intros _. rewrite E1. cbn. rewrite Eq. apply (HJ Hn).
    - rewrite E1, W1. cbn. eapply refs_same; [done|done|apply HL].
    - intros w l HG'. eapply (looking_next _ _ _ _ _ m _ j (set_held false (set_state st j)));
        [done|done| |done|done|done|done|].
      + cbn. unfold l. rewrite E1. cbn. by rewrite list_insert_insert_eq.
      + intros _. split; [done|]. eapply observe_release; [done|by apply HJ|done..]. }
  destruct (state j) eqn:Es; try (apply wp_ret; eapply looking_stay; [done..|]; intros Hn).
  - done.
  - wp_step. apply wp_modify. apply (Hrel JCompleted _ (set_state JCompleted j)); cbn; auto; try done.
    by rewrite (alter_set _ _ _ _ Hj).
  - eapply (Hrel JAcceptanceUnknown m j); auto; try done; [by rewrite <- Es; destruct j|].
    rewrite list_insert_id by done. by destruct (queue m).
  - apply (observe_done q tr seen _ Hle); [by apply HJ|done].
  - eapply (Hrel JTimedOut m j); auto; try done; [by rewrite <- Es; destruct j|].
    rewrite list_insert_id by done. by destruct (queue m).
  - exfalso. destruct (jo_current _ _ _ _ (HJ ltac:(done)) Hg) as [_ Hc].
    unfold current_ok in Hc. by rewrite Es in Hc.
Qed.
Lemma observation_fields q o :
  observation_invalid q o = false ->
  o_valid o = true /\ acquireOrdered o = true /\ o_generation o = generation_ q /\ o_owner o = owner_ q /\
  o_context o = context_ q /\ o_engine o = engine_ q /\
  lastObserved_ q <= completedSequence o <= lastSubmitted_ q.
Proof.
  unfold observation_invalid. rewrite !orb_false_iff, !negb_false_iff, !Z.eqb_eq, !Z.ltb_ge. tauto.
Qed.

Lemma interrupt_ok m g now : inv m -> keeps (onInterrupt g now) m.
Proof.
  intros Hm. unfold onInterrupt. wp_steps; [done..|]. eapply wp_mono; [by apply queue_expire_ok|].
  intros e m1 Hm1. wp_steps; [done|]. unfold call_readFence. wp_steps.
  eapply wp_act_inv; [done| |].
  { intros H HG. rewrite (iv_backend _ _ _ Hm1). destruct (sb_readFence b) as [f|] eqn:E; [|done].
    by eapply (ro_readFence f). }
  intros [e' o0] w Hm2. wp_steps; [done|done|]. set (o := {| o_generation := _ |}) in *.
  apply observation_fields in Hcond4 as (Hv & Ha & Hg & Ho & Hc & He & Hr). cbn [queue] in *.
  unfold record. wp_steps. apply wp_modify. wp_steps. cbn [queue world trace].
  destruct Hm2 as [Eb [Q1 Q2 Q3 Q4 Q5] HG]. cbn [queue world trace] in *.
  set (q' := set_lastObserved (completedSequence o) (queue m1)). set (tr := QFence o :: trace m1).
  assert (Hf : forall t, f_generation t = generation_ q' -> f_sequence t <= lastObserved_ q' -> fence_passed q' tr t).
  { intros t Hg' Hs. exists o. split_and!; [by apply elem_of_cons; left|done|done|by rewrite Hg'|done..]. }
  eapply (wp_for_seq (looking q' tr (job_ok q' (lastObserved_ (queue m1)) tr) (job_ok q' (lastObserved_ q') tr))).
  - split; [done|done| |done]. cbn. eapply jobs_sat_impl; [done|]. intros i j _ _ HJ. cbv beta in HJ.
    rewrite decide_False by lia. eapply job_ok_mono; [done..|]. intros ev ?. by apply elem_of_cons; right.
  - intros k s Hk HL. apply (observe_job_ok q' tr k s (lastObserved_ (queue m1))); [done|exact (proj1 Hr)|done..].
  - intros s [Eq Et HJ HG']. apply wp_ret. split; [by rewrite Eq| |done]. rewrite Et.
    split; [by rewrite Eq..|rewrite Eq; change (0 <= completedSequence o <= lastSubmitted_ (queue m1)); lia|].
    eapply jobs_sat_impl; [done|]. intros i j Hi _ H. cbv beta in H.
    rewrite decide_True in H by (rewrite <- (js_length _ _ HJ); by eapply lookup_lt_Some).
    rewrite Eq. apply (same_run_job q'); [done|exact H].
Qed.

(** * [reset] *)

(** The queue of the next generation. *)
Definition next_generation q : SubmissionQueue W := {|
  jobs_ := jobs_ q; backend_ := backend_ q; owner_ := owner_ q; context_ := context_ q;
  generation_ := generation_ q +64 1; lastTime_ := lastTime_ q; engine_ := engine_ q; nextSequence_ := 1;
  lastSubmitted_ := 0; lastObserved_ := 0; exhausted_ := false; state_ := Inactive |}.

Lemma reset_job_old q seen tr j st :
  0 < generation_ q < U64_MAX -> QQuiesce (generation_ q) true ∈ tr -> job_ok q seen tr j ->
  (st = state j /\ st <> JSubmitted /\ st <> JAcceptanceUnknown \/ st = JReset) ->
  job_ok (next_generation q) 0 tr (set_held false (set_state st j)).
Proof.
  intros Hg Hq [] Hst.
  assert (Eg : generation_ (next_generation q) = generation_ q + 1).
  { cbn. unfold U64_MAX in Hg. rewrite add64_small by lia. done. }
  split; rewrite ?Eg; cbn; auto; try lia.
  - intros _. split; [done|]. destruct Hst as [(-> & ? & ?)| ->]; done.
  - intros E. destruct Hst as [(-> & _)| ->]; [|done]. apply jo_completed in E as (o & ? & ?). by exists o.
  - intros _. destruct (Z.eq_dec (f_generation (fence (batch j))) (generation_ q)) as [E|E].
    + right. unfold stopped. cbn. by rewrite E.
    + destruct (jo_old ltac:(lia)) as [Hh _]. destruct (jo_released Hh) as [(o & ? & ?)|?]; [left; by exists o|by right].
Qed.

Lemma reset_job_ok q tr k m :
  backend_ q = b -> 0 < generation_ q < U64_MAX -> QQuiesce (generation_ q) true ∈ tr ->
  (k < maxJobs)%nat ->
  looking q tr (job_ok q (lastObserved_ q) tr) (job_ok (next_generation q) 0 tr) k m ->
  wp (reset_job k) (fun _ => looking q tr (job_ok q (lastObserved_ q) tr) (job_ok (next_generation q) 0 tr) (S k)) m.
Proof.
  intros Eb Hg Hq Hk HL. destruct (looking_job _ _ _ _ _ _ HL Hk) as (j & Hj & Ej & HJ).
  pose proof (lk_queue _ _ _ _ _ _ HL) as Eq. unfold reset_job. wp_step. wp_step. rewrite Ej.
  set (st := if bool_decide (state j = JSubmitted) || bool_decide (state j = JAcceptanceUnknown) then JReset else state j).
  assert (Hst : st = state j /\ st <> JSubmitted /\ st <> JAcceptanceUnknown \/ st = JReset).
  { unfold st. destruct (bool_decide _ || bool_decide _) eqn:E; [by right|].
    apply orb_false_iff in E as [E1%bool_decide_eq_false E2%bool_decide_eq_false]. by left. }
  assert (Hfree : state j = JFree -> st = JFree).
  { intros E. unfold st. by rewrite E. }
  assert (Hnfree : state j <> JFree -> st <> JFree).
  { intros E. destruct Hst as [[-> _]| ->]; done. }
  assert (Hrel : forall m1, queue m1 = set_jobs (<[k := set_state st j]> (jobs_ (queue m))) (queue m) ->
    trace m1 = trace m -> world m1 = world m ->
    wp (release k) (fun _ => looking q tr (job_ok q (lastObserved_ q) tr) (job_ok (next_generation q) 0 tr) (S k)) m1).
  { intros m1 E1 T1 W1. pose proof (lookup_lt_Some _ _ _ Hj) as Hlt.
    assert (Hj1 : jobs_ (queue m1) !! k = Some (set_state st j)) by (rewrite E1; cbn; by rewrite list_lookup_insert_eq).
    eapply (wp_release_job b Good); [by rewrite E1; cbn; rewrite Eq|done| | |].
    - cbn. intros Hh. rewrite E1. cbn. rewrite Eq. destruct (decide (state j = JFree)) as [Hf|Hf]; [|apply (HJ Hf)].
      by rewrite (js_free _ _ (lk_jobs _ _ _ _ _ _ HL) _ _ Hj Hf) in Hh.
    - rewrite E1, W1. cbn. eapply refs_same; [done|done|apply HL].
    - intros w l HG'. eapply (looking_next _ _ _ _ _ m _ j (set_held false (set_state st j)));
        [done|done| |done|done|done| |].
      + cbn. unfold l. rewrite E1. cbn. by rewrite list_insert_insert_eq.
      + cbn. intros Hf. rewrite (js_free _ _ (lk_jobs _ _ _ _ _ _ HL) _ _ Hj Hf). auto.
      + intros Hf. split; [by apply Hnfree|]. eapply reset_job_old; [done..|by apply HJ|done]. }
  unfold st in Hrel. wp_step. wp_step; rewrite Hcond in Hrel.
  - apply wp_modify. apply Hrel; [|done..]. cbn. by rewrite (alter_set _ _ _ _ Hj).
  - apply Hrel; [|done..]. replace (set_state (state j) j) with j by (by destruct j).
    rewrite list_insert_id by done. by destruct (queue m).
Qed.

Lemma queue_reset_ok m now : inv m -> keeps (reset now) m.
Proof.
  intros Hm. unfold reset. wp_steps; [done|]. eapply wp_tick; [done|by wp_steps|].
  intros m1 Hm1 E1 T1. wp_steps; [done|]. eapply inv_upd; [done..| |].
  { by eapply queue_ok_set; [apply Hm1|..]. }
  intros m2 Hm2 E2 T2. wp_steps; [done|]. unfold call_quiesce. wp_steps.
  eapply wp_act_inv; [done| |].
  { intros H HG. rewrite (iv_backend _ _ _ Hm2). destruct (sb_quiesce b) as [f|] eqn:E; [|done].
    by eapply (ro_quiesce f). }
  intros r w Hm3. unfold record. wp_steps; cbn [queue world trace] in *.
  { destruct Hm3 as [Eb [] HG]. split; cbn in *; [done| |done]. split; try done.
    eapply jobs_sat_impl; [done|]. intros i j _ _ HJ. cbv beta in HJ. eapply job_ok_mono; [done..|].
    intros ev ?. by apply elem_of_cons; right. }
  apply negb_false_iff in Hcond2 as ->.
  destruct Hm3 as [Eb [Q1 Q2 Q3 Q4 Q5] HG]. cbn [queue world trace] in *.
  set (q' := queue m2) in *. set (tr := QQuiesce (generation_ q') true :: trace m2).
  assert (Hg : 0 < generation_ q' < U64_MAX).
  { apply Z.eqb_neq in Hcond1. assert (generation_ q' = generation_ (queue m)) by (by rewrite E2, E1). lia. }
  eapply (wp_for_seq (looking q' tr (job_ok q' (lastObserved_ q') tr) (job_ok (next_generation q') 0 tr))).
  - split; [by destruct q'|done| |done]. eapply jobs_sat_impl; [done|]. intros i j _ _ HJ. cbv beta in HJ.
    rewrite decide_False by lia. eapply job_ok_mono; [done..|]. intros ev ?. by apply elem_of_cons; right.
  - intros k s Hk HL. apply reset_job_ok; [done|done|by apply elem_of_cons; left|done|done].
  - intros s [Eq Et HJ HG']. wp_steps. apply wp_modify. wp_steps. split; cbn; [by rewrite Eq| |done].
    rewrite Et. split; cbn; [rewrite Eq; cbn; unfold U64_MAX in *; rewrite add64_small by lia; lia|unfold U32_MAX; lia|done|lia|].
    eapply jobs_sat_impl; [done|]. intros i j Hi _ H. cbv beta in H.
    rewrite decide_True in H by (rewrite <- (js_length _ _ HJ); by eapply lookup_lt_Some).
    eapply job_ok_mono; [done|rewrite Eq; done..|cbn; lia|done|done].
Qed.

(** * [retire] *)

Lemma find_some q token i :
  find q token = Some i -> exists j, jobs_ q !! i = Some j /\ state j <> JFree /\ fence (batch j) = token.
Proof.
  unfold find. intros ([k j] & (Hk & [? ?] & _)%list_find_Some & ->)%fmap_Some. by exists j.
Qed.

Lemma retire_queue_ok m token : inv m -> keeps (retire token) m.
Proof.
  intros Hm. unfold retire. wp_step. wp_step. destruct (find (queue m) token) as [i|] eqn:F; [|by wp_steps].
  apply find_some in F as (j & Hj & Hs & _).
  assert (Ej : job_at (queue m) i = j) by (unfold job_at; by rewrite Hj). rewrite Ej. wp_steps; [done|].
  apply orb_false_iff in Hcond as [Hh _]. apply wp_modify. wp_steps.
  apply (inv_set_job m _ i j no_job); [done|done| |done|done| |done|done]; cbn.
  - exact (alter_set (fun _ => no_job) _ _ _ Hj).
  - rewrite (alter_set (fun _ => no_job) _ _ _ Hj). eapply refs_same; [done| |apply Hm]. unfold holds_of. by rewrite Hh.
Qed.
(** * [submit] *)

Lemma wp_retain_all m acc rs H (Q : option (list Resource) -> machine W -> Prop) :
  backend_ (queue m) = b -> Good (world m) (acc ++ H) ->
  (forall w, Good w (rs ++ acc ++ H) -> Q None {| queue := queue m; world := w; trace := trace m |}) ->
  (forall l w, Good w (l ++ H) -> Q (Some l) {| queue := queue m; world := w; trace := trace m |}) ->
  wp (retain_all acc rs) Q m.
Proof.
  revert acc m. induction rs as [|r rs IH]; intros acc m Eb HG HN HS; cbn [retain_all].
  - apply wp_ret. specialize (HN (world m) HG). by destruct m.
  - unfold call_retain. wp_steps. rewrite Eb.
    unfold wp at 1, act. destruct (sb_retain b) as [f|] eqn:E.
    + pose proof (ro_retain f r (world m) _ E HG) as HG'. destruct (f r (world m)) as [ok w]. cbn in *.
      destruct ok; cbn [negb]; [|apply wp_ret; by apply HS].
      apply IH; [done|done| |done]. cbn. intros w' HG''. apply HN. eapply ro_perm; [done|].
      by rewrite <- Permutation_middle.
    + cbn. apply wp_ret. specialize (HS acc (world m) HG). by destruct m.
Qed.

(** The batch that [submit] has put into a free slot. *)
Record prepared m (i : nat) (x : BatchSnapshot) : Prop := {
  pr_backend : backend_ (queue m) = b;
  pr_complete : completeBackend b = true;
  pr_queue : queue_ok (queue m) (trace m);
  pr_slot : jobs_ (queue m) !! i = Some {| batch := x; state := JFree; held := false |};
  pr_fence : fence x = {| f_generation := generation_ (queue m); f_sequence := nextSequence_ (queue m) |};
  pr_exhausted : exhausted_ (queue m) = false;
  pr_state : state_ (queue m) = Ready;
}.

(** A slot that becomes free again. *)
Lemma inv_no_job m m' i x :
  prepared m i x -> jobs_ (queue m') = <[i := no_job]> (jobs_ (queue m)) ->
  same_run (queue m) (queue m') -> (forall ev, ev ∈ trace m -> ev ∈ trace m') ->
  Good (world m') (refs (jobs_ (queue m))) -> inv m'.
Proof.
  intros [Eb Hc [Q1 Q2 Q3 Q4 Q5] Hi _ _ _] Ej HR Htr HG.
  pose proof HR as [Eg Eb' (Eo & Ec & Ee) (En & El & Eob & Ex) Hst].
  split; [congruence| |].
  - split; rewrite ?Eg, ?En, ?El, ?Eob, ?Ex; try done. rewrite Ej.
    eapply jobs_sat_set; [done..| |].
    + intros k y _ _ _ HJ. cbv beta in HJ. eapply job_ok_mono; [done..|lia|exact Hst|done].
    + done.
  - rewrite Ej. eapply ro_perm; [done|]. rewrite (refs_insert _ i _) by done.
    by rewrite (refs_split _ i _) by done.
Qed.

(** The queue after a batch was published. *)
Definition after_publish q (i : nat) (x : BatchSnapshot) (st : JobState) (qs : QueueState) : SubmissionQueue W := {|
  jobs_ := <[i := {| batch := x; state := st; held := true |}]> (jobs_ q);
  backend_ := backend_ q; owner_ := owner_ q; context_ := context_ q; generation_ := generation_ q;
  lastTime_ := lastTime_ q; engine_ := engine_ q;
  nextSequence_ := if nextSequence_ q =? U32_MAX then nextSequence_ q else wrap 32 (nextSequence_ q + 1);
  lastSubmitted_ := nextSequence_ q; lastObserved_ := lastObserved_ q;
  exhausted_ := if nextSequence_ q =? U32_MAX then true else exhausted_ q; state_ := qs |}.

Lemma queue_published_ok m i x a st qs w :
  prepared m i x -> a <> BRejected -> Good w (resources x ++ refs (jobs_ (queue m))) ->
  (st = JSubmitted \/ st = JAcceptanceUnknown /\ qs = NeedsReset) ->
  inv {| queue := after_publish (queue m) i x st qs; world := w; trace := QSubmit x a :: trace m |}.
Proof.
  intros [Eb Hc [Q1 Q2 Q3 Q4 Q5] Hi Hf Hx Hs] Ha HG Hst. set (q := queue m) in *.
  rewrite Hx in Q3. unfold U32_MAX in *. split; cbn; [done| |].
  - split; cbn; [done| | |lia|].
    + unfold U32_MAX. destruct (Z.eqb_spec (nextSequence_ q) (2 ^ 32 - 1)); [lia|].
      rewrite wrap_small by lia. lia.
    + unfold U32_MAX. destruct (Z.eqb_spec (nextSequence_ q) (2 ^ 32 - 1)); [done|]. rewrite Hx.
      rewrite wrap_small by lia. done.
    + eapply jobs_sat_set; [done..| | | |]; cbn.
      * destruct Hst as [->|[-> _]]; done.
      * intros _. split; cbn; rewrite ?Hf; cbn; try done; try lia.
        -- intros _. split; [lia|]. unfold current_ok. cbn. rewrite Hf. cbn.
           destruct Hst as [->|[-> _]]; [split; [done|lia]|symmetry; apply Z.ltb_lt; lia].
        -- by rewrite Eb.
        -- exists a. split; [by apply elem_of_cons; left|done].
        -- destruct Hst as [->|[-> _]]; done.
        -- destruct Hst as [->|[_ ->]]; [by intros _ [?|?]|done].
      * intros k y _ _ _ HJ. cbv beta in HJ. eapply job_ok_mono; [done..|cbn; lia|cbn; by rewrite Hs|].
        intros ev ?. by apply elem_of_cons; right.
      * intros _. right. intros k y Hk Hy E. pose proof (js_job _ _ Q5 _ _ Hk Hy) as HJ. cbv beta in HJ.
        rewrite Hf in E. destruct HJ. destruct jo_current as [? _]; rewrite E in *; cbn in *; [done|lia].
  - eapply ro_perm; [done|]. rewrite (refs_insert _ i _) by done. cbn.
    by rewrite (refs_split _ i _) by done.
Qed.

Lemma publish_ok m i x :
  prepared m i x -> Good (world m) (resources x ++ refs (jobs_ (queue m))) -> keeps (publish i x) m.
Proof.
  intros HP HG. pose proof (pr_slot _ _ _ HP) as Hi. pose proof (lookup_lt_Some _ _ _ Hi) as Hlt.
  unfold publish. wp_step. apply wp_modify. rewrite (alter_set _ _ _ _ Hi). cbn [set_held batch state held].
  unfold call_submit. wp_step. wp_step. wp_step. wp_step. cbn [queue world trace].
  eapply wp_act.
  { cbn. rewrite (pr_backend _ _ _ HP).
    pose proof (pr_complete _ _ _ HP) as Hc. unfold completeBackend in Hc. rewrite !andb_true_iff in Hc.
    destruct (sb_submit b) as [f|] eqn:E; [|by destruct Hc as [[[_ ?] _] _]]. by eapply (ro_submit f). }
  intros a w HG'. cbn [queue world trace]. unfold record. wp_step. apply wp_modify. wp_step.
  cbn [queue world trace]. wp_step.
  - (* rejected *)
    wp_step. eapply (wp_release_job b Good).
    + cbn. apply HP.
    + cbn. by apply list_lookup_insert_eq.
    + cbn. rewrite (pr_backend _ _ _ HP). intros _. apply HP.
    + cbn. eapply ro_perm; [done|]. rewrite (refs_insert _ i _) by done. cbn. by rewrite (refs_split _ i _) by done.
    + cbn. intros w' HG''. wp_step. apply wp_modify. wp_step. cbn.
      eapply (inv_no_job m _ i x HP); cbn.
      * rewrite list_insert_insert_eq. erewrite (alter_set (fun _ => no_job)) by (by apply list_lookup_insert_eq).
        by rewrite list_insert_insert_eq.
      * done.
      * intros ev ?. by apply elem_of_cons; right.
      * rewrite list_insert_insert_eq in HG''. eapply ro_perm; [done|]. rewrite (refs_insert _ i _) by done.
        by rewrite (refs_split _ i _) by done.
  - apply bool_decide_eq_false in Hcond. wp_step. apply wp_modify. cbn [queue world trace].
    assert (Hset : forall st, alter (set_state st) i (<[i := {| batch := x; state := JFree; held := true |}]> (jobs_ (queue m))) =
      <[i := {| batch := x; state := st; held := true |}]> (jobs_ (queue m))).
    { intros st. erewrite (alter_set (set_state st)) by (by apply list_lookup_insert_eq).
      by rewrite list_insert_insert_eq. }
    wp_step.
    + wp_step. apply wp_modify. cbn [queue world trace]. wp_step. apply wp_modify. wp_step. cbn. rewrite Hset.
      apply (queue_published_ok m i x a JAcceptanceUnknown NeedsReset w HP Hcond HG'). by right.
    + wp_step. apply wp_modify. wp_step. cbn. rewrite Hset.
      apply (queue_published_ok m i x a JSubmitted (state_ (queue m)) w HP Hcond HG'). by left.
Qed.

Lemma submit_queue_ok m ws rs now dl : inv m -> keeps (submit ws rs now dl) m.
Proof.
  intros Hm. unfold submit. wp_step. wp_step. wp_step; [by wp_steps|]. wp_step; [by wp_steps|]. wp_step.
  eapply wp_tick; [done|by wp_steps|]. intros m1 Hm1 E1 T1. wp_step; [by wp_steps|].
  destruct rs as [rs|]; [|by wp_steps]. wp_step; [by wp_steps|].
  destruct ws as [ws|]; [|by wp_steps]. wp_step; [by wp_steps|]. wp_step; [by wp_steps|].
  destruct (list_find _ _) as [[i j]|] eqn:F; [|by wp_steps].
  apply list_find_Some in F as (Hi & Hf & _). cbv zeta. set (x := {| fence := _ |}). wp_step. apply wp_modify.
  assert (Hi1 : jobs_ (queue m1) !! i = Some j) by (by rewrite E1).
  rewrite (alter_set (fun _ => _) _ _ _ Hi1). set (j' := {| batch := x |}). set (m2 := {| queue := _ |}).
  assert (Hh : held j = false) by (by eapply (js_free _ _ (qo_jobs _ _ (iv_queue _ _ _ Hm1)))).
  assert (Hm2 : inv m2).
  { apply (inv_set_job m1 m2 i j j'); [done|done|done|done|done| |done|done].
    refine (refs_same m1 i j j' Hi1 _ (iv_good _ _ _ Hm1)). unfold holds_of. by rewrite Hh. }
  assert (HP : prepared m2 i x).
  { apply negb_false_iff in Hcond. apply bool_decide_eq_false, dec_stable in Hcond0.
    split; [apply Hm2|by rewrite <- (iv_backend _ _ _ Hm)|apply Hm2| |..]; cbn; rewrite ?E1; try done.
    apply list_lookup_insert_eq. rewrite <- E1. by eapply lookup_lt_Some. }
  wp_step; [by wp_steps|]. destruct (check_resources _ _ _); [by wp_steps|]. wp_step.
  eapply (wp_retain_all _ _ _ (refs (jobs_ (queue m2)))); [apply Hm2|apply Hm2| |].
  - intros w HG. apply publish_ok; [|done]. destruct HP. by split.
  - intros l w HG. wp_step. eapply (wp_release_all b Good); [apply Hm2| |exact HG|].
    { pose proof (pr_complete _ _ _ HP) as Hc. unfold completeBackend in Hc. rewrite !andb_true_iff in Hc. tauto. }
    intros w' HG'. wp_step. apply wp_modify. wp_step.
    eapply (inv_no_job m2 _ i x HP); [|done|done|done]. cbn.
    apply (alter_set (fun _ => no_job) _ _ _ (pr_slot _ _ _ HP)).
Qed.
End Ops.

(** * Sequences of calls *)

Inductive q_op :=
  | QoActivate (fw : FirmwareInfo)
  | QoSubmit (ws : option (list Z)) (rs : option (list MellowXe.Resource)) (now deadline : Z)
  | QoInterrupt (generation now : Z)
  | QoExpire (now : Z)
  | QoReset (now : Z)
  | QoRetire (token : MellowXe.FenceToken).

Section Calls.
Context {W : Type} (b : MellowXe.SubmissionBackend W).

Definition q_run (o : q_op) : ST (MellowXe.machine W) unit :=
  match o with
  | QoActivate fw => _ <-- MellowXe.activate fw ;; ret tt
  | QoSubmit ws rs now dl => _ <-- MellowXe.submit ws rs now dl ;; ret tt
  | QoInterrupt g now => _ <-- MellowXe.onInterrupt g now ;; ret tt
  | QoExpire now => _ <-- MellowXe.expire now ;; ret tt
  | QoReset now => _ <-- MellowXe.reset now ;; ret tt
  | QoRetire token => _ <-- MellowXe.retire token ;; ret tt
  end.

(** From a new queue and a world of [init]; between calls the world changes by [env]. *)
Inductive q_reachable (init : W -> Prop) (env : W -> W -> Prop) : MellowXe.machine W -> Prop :=
  | qr_start owner context engine w : init w ->
      q_reachable init env {| MellowXe.queue := MellowXe.new_queue owner context b engine; MellowXe.world := w; MellowXe.trace := [] |}
  | qr_env m w : q_reachable init env m -> env (MellowXe.world m) w ->
      q_reachable init env {| MellowXe.queue := MellowXe.queue m; MellowXe.world := w; MellowXe.trace := MellowXe.trace m |}
  | qr_call m o : q_reachable init env m -> q_reachable init env (q_run o m).2.

Context (Good : W -> list MellowXe.Resource -> Prop) `{!ResourceOwner b Good}.

Lemma q_run_inv m o : inv b Good m -> inv b Good (q_run o m).2.
Proof.
  intros Hm. assert (Hr : forall {A} (c : ST (MellowXe.machine W) A), wp c (fun _ m' => inv b Good m') m ->
    inv b Good ((_ <-- c ;; ret tt) m).2) by (intros A c H; rewrite run_bind; exact H).
  destruct o; cbn [q_run]; apply Hr.
  - by apply activate_ok.
  - by apply submit_queue_ok.
  - by apply interrupt_ok.
  - by apply queue_expire_ok.
  - by apply queue_reset_ok.
  - by apply retire_queue_ok.
Qed.

Lemma new_queue_ok owner context engine : queue_ok (MellowXe.new_queue owner context b engine) [].
Proof.
  assert (Hno : forall i j, replicate MellowXe.maxJobs MellowXe.no_job !! i = Some j -> j = MellowXe.no_job).
  { by intros i j [-> _]%lookup_replicate. }
  split; cbn -[replicate MellowXe.maxJobs]; [unfold U64_MAX; lia|unfold U32_MAX; lia|done|lia|]. split.
  - apply length_replicate.
  - by intros i j ->%Hno.
  - by intros i j ->%Hno.
  - by intros i k j j' ->%Hno.
Qed.

Lemma q_reachable_inv (init : W -> Prop) (env : W -> W -> Prop) m :
  (forall w, init w -> Good w []) -> (forall w w' H, env w w' -> Good w H -> Good w' H) ->
  q_reachable init env m -> inv b Good m.
Proof.
  intros Hi He. induction 1 as [owner context engine w Hw|m w _ IH Hw|m o _ IH].
  - split; [done|apply new_queue_ok|]. by apply Hi.
  - destruct IH as [Eb Hq HG]. split; [done|done|]. cbn. by eapply He.
  - by apply q_run_inv.
Qed.
End Calls.
