(* ===== verification/XeMemorySubmission.v ===== *)
(** The bridge of [Mellow/XeMemorySubmission.hpp] between the submission queue and the virtual
    memory, [SubmissionMemoryBridge]: the holds of the queue are uses of the allocations. *)
From stdpp Require Import base numbers list.
From S2P Require Import Prelude.
From S2P Require Import XeFirmware.
From S2P Require Import XeMemory.
From S2P Require Import XeVirtual.
From S2P Require Import XeSubmission.

Import (hints) XeMemory VirtualMemory MellowXe.

Module SubmissionMemoryBridge.

Section Bridge.
Context {W : Type}.

(** The virtual memory, on the world that it shares with the transport, and the flags of the
    bridge. *)
Record bridge := {
  bvm : VirtualMemory.machine W;
  faulted : bool;
  lastRelease : XeMemory.Status;
}.

Definition new_bridge (m : VirtualMemory.machine W) : bridge :=
  {| bvm := m; faulted := false; lastRelease := XeMemory.Ok |}.

Definition validPin (a : VirtualMemory.Allocation) : bool :=
  negb (VirtualMemory.cookie (VirtualMemory.pin a) =? 0) && negb (VirtualMemory.dmaPages (VirtualMemory.pin a) =? 0) &&
  (VirtualMemory.pageCount (VirtualMemory.pin a) =? VirtualMemory.bytes a / XeMemory.PageSize).

(** [None] is the return value [false]. *)
Definition resource (s : bridge) (owner : Z) (h : VirtualMemory.Handle) : option MellowXe.Resource :=
  match VirtualMemory.inspect (VirtualMemory.vm (bvm s)) owner h with
  | None => None
  | Some a =>
      if faulted s || bool_decide (VirtualMemory.state a <> VirtualMemory.StBound) || negb (validPin a) || (VirtualMemory.slot h =? U64_MAX)
      then None
      else Some {| MellowXe.id := VirtualMemory.slot h +64 1; MellowXe.r_owner := owner; MellowXe.mappingGeneration := VirtualMemory.h_generation h;
                   MellowXe.gpuAddress := VirtualMemory.address a; MellowXe.r_bytes := VirtualMemory.bytes a; MellowXe.gpuReadable := true;
                   MellowXe.pinned := true |}
  end.

(** [None] is the null pointer; otherwise the handle of the allocation found. *)
Definition resolve (t : VirtualMemory.VirtualMemory W) (r : MellowXe.Resource) (allowRetiring : bool) : option VirtualMemory.Handle :=
  if (MellowXe.id r =? 0) || (U64_MAX <? MellowXe.id r -64 1) || (MellowXe.r_owner r =? 0) || (MellowXe.mappingGeneration r =? 0) ||
     negb (MellowXe.pinned r) || negb (MellowXe.gpuReadable r) then None
  else
    let h := {| VirtualMemory.slot := MellowXe.id r -64 1; VirtualMemory.h_generation := MellowXe.mappingGeneration r |} in
    match VirtualMemory.inspect t (MellowXe.r_owner r) h with
    | None => None
    | Some a =>
        if (bool_decide (VirtualMemory.state a <> VirtualMemory.StBound) &&
            negb (allowRetiring && bool_decide (VirtualMemory.state a = VirtualMemory.StRetiring))) ||
           negb (VirtualMemory.address a =? MellowXe.gpuAddress r) || negb (VirtualMemory.bytes a =? MellowXe.r_bytes r) || negb (validPin a)
        then None else Some h
    end.

Definition retain (r : MellowXe.Resource) (s : bridge) : bool * bridge :=
  if faulted s then (false, s)
  else
    match resolve (VirtualMemory.vm (bvm s)) r false with
    | None => (false, s)
    | Some h =>
        let '(st, m) := VirtualMemory.retainUse (MellowXe.r_owner r) h (bvm s) in
        (bool_decide (st = XeMemory.Ok), {| bvm := m; faulted := faulted s; lastRelease := lastRelease s |})
    end.

Definition release (r : MellowXe.Resource) (s : bridge) : bridge :=
  let '(st, m) :=
    match resolve (VirtualMemory.vm (bvm s)) r true with
    | Some h => VirtualMemory.releaseUse (MellowXe.r_owner r) h (bvm s)
    | None => (XeMemory.Invalid, bvm s)
    end in
  if bool_decide (st <> XeMemory.Ok) then {| bvm := m; faulted := true; lastRelease := st |}
  else {| bvm := m; faulted := faulted s; lastRelease := lastRelease s |}.

(** The transport acts on the world only. *)
Definition on_world {A} (f : W -> A * W) (s : bridge) : A * bridge :=
  let '(r, w) := f (VirtualMemory.world (bvm s)) in
  (r, {| bvm := {| VirtualMemory.vm := VirtualMemory.vm (bvm s); VirtualMemory.world := w; VirtualMemory.trace := VirtualMemory.trace (bvm s) |};
         faulted := faulted s; lastRelease := lastRelease s |}).

Context (transport : MellowXe.SubmissionBackend W).

Definition backend : MellowXe.SubmissionBackend bridge :=
  match MellowXe.sb_readiness transport, MellowXe.sb_submit transport, MellowXe.sb_readFence transport, MellowXe.sb_quiesce transport with
  | Some readiness, Some submit, Some readFence, Some quiesce => {|
      MellowXe.sb_readiness := Some (fun fw g o c e out s =>
        if faulted s then ((MellowXe.NotReady, out), s) else on_world (readiness fw g o c e out) s);
      MellowXe.sb_retain := Some retain;
      MellowXe.sb_release := Some release;
      MellowXe.sb_submit := Some (fun b s => if faulted s then (MellowXe.BRejected, s) else on_world (submit b) s);
      MellowXe.sb_readFence := Some (fun g o c e out => on_world (readFence g o c e out));
      MellowXe.sb_quiesce := Some (fun g o c e => on_world (quiesce g o c e)) |}
  | _, _, _, _ => MellowXe.unavailableSubmissionBackend
  end.
End Bridge.

Arguments bridge : clear implicits.
End SubmissionMemoryBridge.
