(* ===== verification/XeSubmissionBridge.v ===== *)
(** The bridge to the virtual memory as an owner of the queue's resources: its holds are uses of
    bound allocations, and it never fails to drop one. *)
From stdpp Require Import base numbers list.
From S2P Require Import Prelude.
From S2P Require Import StateWp.
From S2P Require Import XeFirmware.
From S2P Require Import XeMemory.
From S2P Require Import XeVirtual.
From S2P Require Import XeVirtualInv.
From S2P Require Import XeVirtualOps.
From S2P Require Import XeVirtualThms.
From S2P Require Import XeSubmission.
From S2P Require Import XeSubmissionInv.
From S2P Require Import XeMemorySubmission.
Import (hints) XeMemory VirtualMemory MellowXe.
Import SubmissionMemoryBridge.

Section Bridge.
Context {W : Type}.
Implicit Types (s : bridge W) (m : VirtualMemory.machine W).

(** The slot that a resource names. *)
Definition slot_of (r : MellowXe.Resource) : Z := MellowXe.id r -64 1.

Definition names (i : nat) (g : Z) (r : MellowXe.Resource) : Prop := slot_of r = Z.of_nat i /\ MellowXe.mappingGeneration r = g.
#[local] Instance names_dec i g r : Decision (names i g r).
Proof. unfold names. apply _. Defined.

(** The holds of the queue on the allocation of generation [g] in slot [i]. *)
Definition uses (H : list MellowXe.Resource) (i : nat) (g : Z) : Z := Z.of_nat (length (filter (names i g) H)).

(** Allocation [a] is what resource [r] says. *)
Record stands (r : MellowXe.Resource) (a : VirtualMemory.Allocation) : Prop := {
  sd_held : held_state (VirtualMemory.state a);
  sd_generation : VirtualMemory.generation a = MellowXe.mappingGeneration r;
  sd_owner : VirtualMemory.owner a = MellowXe.r_owner r;
  sd_range : VirtualMemory.address a = MellowXe.gpuAddress r /\ VirtualMemory.bytes a = MellowXe.r_bytes r;
  sd_flags : MellowXe.pinned r = true /\ MellowXe.gpuReadable r = true /\ MellowXe.id r <> 0;
}.

Record bgood s (H : list MellowXe.Resource) : Prop := {
  bg_vm : minv (bvm s);
  bg_ok : faulted s = false;
  bg_uses : forall i a, VirtualMemory.slots (VirtualMemory.vm (bvm s)) !! i = Some a -> live a ->
    VirtualMemory.activeUses a = uses H i (VirtualMemory.generation a);
  bg_res : forall r, r ∈ H -> exists i a,
    VirtualMemory.slots (VirtualMemory.vm (bvm s)) !! i = Some a /\ slot_of r = Z.of_nat i /\ stands r a;
}.

Lemma uses_perm H H' i g : H ≡ₚ H' -> uses H i g = uses H' i g.
Proof. intros HP. unfold uses. by rewrite HP. Qed.

Lemma uses_cons r H i g : uses (r :: H) i g = (if decide (names i g r) then 1 else 0) + uses H i g.
Proof. unfold uses. rewrite filter_cons. destruct (decide (names i g r)); cbn [length]; lia. Qed.

Lemma uses_zero H i g r : uses H i g = 0 -> r ∈ H -> ~ names i g r.
Proof.
  unfold uses. intros E Hr Hn. assert (Hl : r ∈ filter (names i g) H) by (by apply list_elem_of_filter).
  destruct (filter (names i g) H); [by apply elem_of_nil in Hl|cbn in E; lia].
Qed.

Lemma uses_none H i g : (forall r, r ∈ H -> ~ names i g r) -> uses H i g = 0.
Proof.
  intros Hn. unfold uses. destruct (filter (names i g) H) as [|r l] eqn:E; [done|]. exfalso.
  assert (Hr : r ∈ filter (names i g) H) by (rewrite E; by apply elem_of_cons; left).
  apply list_elem_of_filter in Hr as [? Hr]. by eapply Hn.
Qed.

(** ** Looking up *)

Lemma inspect_some (t : VirtualMemory.VirtualMemory W) own h a :
  VirtualMemory.inspect t own h = Some a ->
  VirtualMemory.slots t !! Z.to_nat (VirtualMemory.slot h) = Some a /\ live a /\ VirtualMemory.state a <> VirtualMemory.StExcluded /\
  VirtualMemory.generation a = VirtualMemory.h_generation h /\ VirtualMemory.owner a = own /\ own <> 0.
Proof.
  unfold VirtualMemory.inspect. intros H. case_if_in H as E1; [done|]. case_if_in H as E2; [|done]. injection H as <-.
  rewrite !orb_false_iff in E1. destruct E1 as [[[_ E1] _] Ho]. apply Z.eqb_neq in Ho.
  unfold VirtualMemory.is_free in E2. rewrite !andb_true_iff, negb_true_iff, bool_decide_eq_false, bool_decide_eq_true, !Z.eqb_eq in E2.
  unfold VirtualMemory.slot_at in *. destruct (VirtualMemory.slots t !! Z.to_nat (VirtualMemory.slot h)) as [x|] eqn:Ex; cbn in *; [|tauto].
  destruct E2 as [[[? ?] ?] ?]. done.
Qed.

Lemma inspect_found (t : VirtualMemory.VirtualMemory W) own h i a :
  VirtualMemory.slots t !! i = Some a -> VirtualMemory.slot h = Z.of_nat i -> live a -> VirtualMemory.state a <> VirtualMemory.StExcluded ->
  VirtualMemory.generation a = VirtualMemory.h_generation h -> VirtualMemory.owner a = own -> own <> 0 -> VirtualMemory.h_generation h <> 0 ->
  VirtualMemory.inspect t own h = Some a.
Proof.
  intros Hi Hh La Hx Hg Ho Hn Hgn. unfold VirtualMemory.inspect. pose proof (lookup_lt_Some _ _ _ Hi) as Hlt.
  rewrite bool_decide_false by (intros E; unfold VirtualMemory.slots in Hi; by rewrite E in Hi).
  unfold VirtualMemory.capacity_. rewrite Hh, Nat2Z.id. rewrite (proj2 (Z.leb_gt _ _)) by lia.
  rewrite !(proj2 (Z.eqb_neq _ _)) by done. cbn [orb]. unfold VirtualMemory.slot_at. rewrite Hi. cbn.
  unfold VirtualMemory.is_free. rewrite bool_decide_false, bool_decide_true, Hg, Ho, !Z.eqb_refl by done. done.
Qed.

Lemma with_found m own h i a k :
  VirtualMemory.slots (VirtualMemory.vm m) !! i = Some a -> VirtualMemory.slot h = Z.of_nat i -> held_state (VirtualMemory.state a) ->
  VirtualMemory.generation a = VirtualMemory.h_generation h -> VirtualMemory.owner a = own -> own <> 0 -> VirtualMemory.h_generation h <> 0 ->
  VirtualMemory.with_allocation own h k m = k i a m.
Proof.
  intros Hi Hh Hs Hg Ho Hn Hgn. unfold VirtualMemory.with_allocation. rewrite run_bind. cbn. unfold VirtualMemory.lookup.
  pose proof (lookup_lt_Some _ _ _ Hi) as Hlt.
  rewrite bool_decide_false by (intros E; unfold VirtualMemory.slots in Hi; by rewrite E in Hi).
  unfold VirtualMemory.capacity_. rewrite Hh, Nat2Z.id. rewrite (proj2 (Z.leb_gt _ _)) by lia.
  rewrite (proj2 (Z.eqb_neq _ _)) by done. cbn [orb]. unfold VirtualMemory.slot_at. rewrite Hi. cbn. unfold VirtualMemory.is_free.
  rewrite !bool_decide_false by (destruct Hs as [E|E]; by rewrite E). rewrite Hg, Z.eqb_refl. cbn.
  rewrite (proj2 (Z.eqb_neq _ _)), Ho, Z.eqb_refl by done. done.
Qed.

(** ** One slot changes *)

Lemma stands_names r a i : slot_of r = Z.of_nat i -> stands r a -> names i (VirtualMemory.generation a) r.
Proof. by intros ? []. Qed.

Lemma bg_at s H r i a : bgood s H -> r ∈ H -> VirtualMemory.slots (VirtualMemory.vm (bvm s)) !! i = Some a -> slot_of r = Z.of_nat i -> stands r a.
Proof.
  intros HG Hr Hi E. destruct (bg_res _ _ HG r Hr) as (j & b & Hj & Ej & Hs).
  assert (j = i) as -> by lia. rewrite Hi in Hj. by injection Hj as ->.
Qed.

Lemma bgood_slot s s' H H' i a' :
  bgood s H -> minv (bvm s') -> faulted s' = false -> (i < length (VirtualMemory.slots (VirtualMemory.vm (bvm s))))%nat ->
  VirtualMemory.slots (VirtualMemory.vm (bvm s')) = <[i := a']> (VirtualMemory.slots (VirtualMemory.vm (bvm s))) ->
  (live a' -> VirtualMemory.activeUses a' = uses H' i (VirtualMemory.generation a')) ->
  (forall j g, j <> i -> uses H' j g = uses H j g) ->
  (forall r, r ∈ H' -> slot_of r = Z.of_nat i -> stands r a') ->
  (forall r, r ∈ H' -> slot_of r <> Z.of_nat i -> r ∈ H) -> bgood s' H'.
Proof.
  intros HG Hm Hf Hi E Hu Ho Hs Hr. split; [done..| |]; rewrite E.
  - intros j b [(<- & <- & _)|[Hne Hj]]%list_lookup_insert_Some Lb; [by apply Hu|].
    rewrite Ho by congruence. by eapply bg_uses.
  - intros r Hin. destruct (decide (slot_of r = Z.of_nat i)) as [Er|Er].
    + exists i, a'. rewrite list_lookup_insert_eq by done. auto.
    + destruct (bg_res _ _ HG r (Hr r Hin Er)) as (j & b & Hj & Ej & Hst). exists j, b.
      rewrite list_lookup_insert_ne by (intros ->; lia). auto.
Qed.

(** A held resource is a use of its allocation. *)
Lemma bg_used s H r i a :
  bgood s H -> r ∈ H -> VirtualMemory.slots (VirtualMemory.vm (bvm s)) !! i = Some a -> slot_of r = Z.of_nat i -> VirtualMemory.activeUses a <> 0.
Proof.
  intros HG Hr Hi E Hz. pose proof (bg_at _ _ _ _ _ HG Hr Hi E) as Hst.
  assert (La : live a) by (unfold live; by destruct (sd_held _ _ Hst) as [-> | ->]).
  rewrite (bg_uses _ _ HG _ _ Hi La) in Hz. by eapply uses_zero, stands_names.
Qed.

(** ** Other clients of the virtual memory *)

Lemma bgood_effect s m' H :
  bgood s H -> minv m' -> effect 0 (bvm s) m' ->
  bgood {| bvm := m'; faulted := faulted s; lastRelease := lastRelease s |} H.
Proof.
  intros HG Hm [[->|(i & a & a' & evs & Hi & La & [E T] & G)]|Hs T Hno|i a [Hi E T] Hst Hu].
  - destruct HG. by split.
  - assert (Ht : allocation_ok _ _ _ a) by (eapply (to_live _ _ _ _ (vo_table _ (mi_vm _ (bg_vm _ _ HG)))); done).
    eapply (bgood_slot s _ H H i a'); [done..|apply HG|by eapply lookup_lt_Some|by cbn; rewrite E| |done| |done].
    + intros La'. destruct (gm_kept _ _ _ _ G) as [->|(_ & Eg & _ & _ & _ & Hk)]; [by destruct La'|].
      destruct (Hk _ _ _ Ht) as [-> _]. rewrite Eg, Z.add_0_r. by eapply bg_uses.
    + intros r Hr Er. pose proof (bg_at _ _ _ _ _ HG Hr Hi Er) as [Sh Sg So Sr Sf].
      destruct (gm_held _ _ _ _ G (bg_used _ _ _ _ _ HG Hr Hi Er) Sh) as (_ & Hh & Eg & _).
      destruct (gm_kept _ _ _ _ G) as [->|(_ & _ & Ea & Eb & Eo & _)]; [by destruct Hh|].
      split; [done|congruence|congruence|by rewrite Ea, Eb|done].
  - assert (HH : H = []).
    { destruct H as [|r H]; [done|]. destruct (bg_res _ _ HG r) as (i & a & Hi & _); [by left|].
      unfold VirtualMemory.slots in Hi. by rewrite Hs in Hi. }
    subst H. split; cbn; [done|apply HG| |by intros r ?%elem_of_nil].
    intros i a ->%Hno La. by destruct La.
  - assert (Hnone : forall r, r ∈ H -> slot_of r <> Z.of_nat i).
    { intros r Hr Er. destruct (sd_held _ _ (bg_at _ _ _ _ _ HG Hr Hi Er)) as [?|?]; done. }
    eapply (bgood_slot s _ H H i a); [done..|apply HG|by eapply lookup_lt_Some|by cbn; rewrite E| |done| |done].
    + intros _. rewrite Hu, uses_none; [done|]. intros r Hr [Er _]. by apply (Hnone r).
    + intros r Hr Er. by apply Hnone in Hr.
Qed.

Lemma bgood_world s w H :
  bgood s H ->
  bgood {| bvm := {| VirtualMemory.vm := VirtualMemory.vm (bvm s); VirtualMemory.world := w; VirtualMemory.trace := VirtualMemory.trace (bvm s) |};
           faulted := faulted s; lastRelease := lastRelease s |} H.
Proof. intros [[] ? ? ?]. by split. Qed.

(** ** Holds *)

Lemma resolve_some (t : VirtualMemory.VirtualMemory W) r b h :
  resolve t r b = Some h -> exists i a,
    VirtualMemory.slots t !! i = Some a /\ slot_of r = Z.of_nat i /\ h = {| VirtualMemory.slot := slot_of r; VirtualMemory.h_generation := MellowXe.mappingGeneration r |} /\
    (b = false -> VirtualMemory.state a = VirtualMemory.StBound) /\ stands r a /\ MellowXe.r_owner r <> 0 /\ MellowXe.mappingGeneration r <> 0.
Proof.
  unfold resolve. intros H. case_if_in H as E1; [done|].
  destruct (VirtualMemory.inspect _ _ _) as [a|] eqn:Ea; [|done]. case_if_in H as E2; [done|]. injection H as <-.
  rewrite !orb_false_iff, !Z.eqb_neq, !negb_false_iff in E1. destruct E1 as [[[[[Hid _] Ho] Hg] Hp] Hr].
  rewrite !orb_false_iff, !negb_false_iff, !Z.eqb_eq in E2. destruct E2 as [[[Hst Had] Hby] _].
  apply inspect_some in Ea as (Hi & La & _ & Hgen & How & _). cbn in *.
  exists (Z.to_nat (slot_of r)), a. assert (0 <= slot_of r) by (apply Z.mod_pos_bound; lia).
  split_and!; try done; [lia|intros ->; cbn in Hst; rewrite andb_true_r in Hst; by apply bool_decide_eq_false, dec_stable in Hst|].
  split; try done. unfold held_state. rewrite andb_false_iff, bool_decide_eq_false, negb_false_iff, andb_true_iff, bool_decide_eq_true in Hst.
  destruct Hst as [?%dec_stable|[_ ?]]; auto.
Qed.

(** What a held allocation says makes [resolve] find it. *)
Lemma resolve_found m r i a :
  minv m -> VirtualMemory.slots (VirtualMemory.vm m) !! i = Some a -> slot_of r = Z.of_nat i -> stands r a ->
  resolve (VirtualMemory.vm m) r true = Some {| VirtualMemory.slot := slot_of r; VirtualMemory.h_generation := MellowXe.mappingGeneration r |} /\
  MellowXe.r_owner r <> 0 /\ MellowXe.mappingGeneration r <> 0.
Proof.
  intros Hm Hi Er [Sh Sg So [Sa Sb] (Sp & Sr & Sid)].
  assert (Hl : live a /\ VirtualMemory.state a <> VirtualMemory.StExcluded) by (unfold live; by destruct Sh as [-> | ->]).
  destruct Hl as [La Hx].
  pose proof (to_live _ _ _ _ (vo_table _ (mi_vm _ Hm)) _ _ Hi La) as Hok.
  assert (Ho : MellowXe.r_owner r <> 0) by (rewrite <- So; by apply (ao_owner _ _ _ _ Hok)).
  assert (Hg : MellowXe.mappingGeneration r <> 0) by (rewrite <- Sg; pose proof (ao_generation _ _ _ _ Hok); lia).
  split; [|done]. unfold resolve. fold (slot_of r).
  assert (slot_of r <= U64_MAX) by (pose proof (Z.mod_pos_bound (MellowXe.id r - 1) (2 ^ 64) eq_refl); unfold slot_of, wrap, U64_MAX; lia).
  rewrite !(proj2 (Z.eqb_neq _ _)), (proj2 (Z.ltb_ge _ _)), Sp, Sr by done. cbn [orb negb].
  rewrite (inspect_found _ (MellowXe.r_owner r) _ i a) by done.
  rewrite Sa, Sb, !Z.eqb_refl. cbn [negb]. rewrite !orb_false_r.
  destruct (ao_pin _ _ _ _ Hok (or_intror Sh)) as (Hc & Hd & Hpg). unfold validPin.
  rewrite !(proj2 (Z.eqb_neq _ _)), Hpg, Z.eqb_refl by done. cbn.
  by destruct Sh as [-> | ->].
Qed.

Lemma retain_good r s H : bgood s H -> bgood (retain r s).2 (if (retain r s).1 then r :: H else H).
Proof.
  intros HG. unfold retain. rewrite (bg_ok _ _ HG).
  destruct (resolve (VirtualMemory.vm (bvm s)) r false) as [h|] eqn:E; [|done].
  apply resolve_some in E as (i & a & Hi & Er & -> & Hb & Hst & Ho & Hg). specialize (Hb eq_refl).
  set (h := {| VirtualMemory.slot := _; VirtualMemory.h_generation := _ |}).
  assert (Hs : VirtualMemory.slots_ (VirtualMemory.vm (bvm s)) <> None) by (intros Hs; unfold VirtualMemory.slots in Hi; by rewrite Hs in Hi).
  pose proof (moved_minv _ _ _ (bg_vm _ _ HG) Hs (wp_run _ _ _ (vm_retain_ok _ (MellowXe.r_owner r) h (bg_vm _ _ HG) Hs))) as Hm.
  pose proof (to_live _ _ _ _ (vo_table _ (mi_vm _ (bg_vm _ _ HG))) _ _ Hi) as Hok.
  assert (La : live a) by (unfold live; by rewrite Hb). specialize (Hok La).
  revert Hm. unfold VirtualMemory.retainUse. rewrite (with_found _ _ h i a) by (try done; apply Hst).
  rewrite bool_decide_false by (by intros []). destruct (Z.eqb_spec (VirtualMemory.activeUses a) U32_MAX) as [Em|Em]; intros Hm.
  { destruct HG. by split. }
  cbn in Hm |- *. eapply (bgood_slot s _ H (r :: H) i); [done..|by eapply lookup_lt_Some|cbn; by rewrite (alter_set _ _ _ _ Hi)| | | |].
  - intros _. cbn [VirtualMemory.set_activeUses VirtualMemory.activeUses VirtualMemory.generation]. rewrite uses_cons, decide_True by (by apply stands_names).
    rewrite <- (bg_uses _ _ HG _ _ Hi La). pose proof (ao_uses _ _ _ _ Hok). rewrite wrap_small; unfold U32_MAX in *; lia.
  - intros j g Hne. rewrite uses_cons, decide_False; [lia|]. intros [Ej _]. lia.
  - intros r' [->|Hr]%elem_of_cons Er'; [by destruct Hst|]. by destruct (bg_at _ _ _ _ _ HG Hr Hi Er').
  - intros r' [->|Hr]%elem_of_cons Er'; [by destruct Er'|done].
Qed.

Lemma release_good r s H : bgood s (r :: H) -> bgood (release r s) H.
Proof.
  intros HG. destruct (bg_res _ _ HG r) as (i & a & Hi & Er & Hst); [by left|].
  pose proof (bg_used _ _ r _ _ HG ltac:(by left) Hi Er) as Hu.
  destruct (resolve_found _ _ _ _ (bg_vm _ _ HG) Hi Er Hst) as (E & Ho & Hg). unfold release. rewrite E.
  set (h := {| VirtualMemory.slot := _; VirtualMemory.h_generation := _ |}).
  assert (Hs : VirtualMemory.slots_ (VirtualMemory.vm (bvm s)) <> None) by (intros Hs; unfold VirtualMemory.slots in Hi; by rewrite Hs in Hi).
  pose proof (moved_minv _ _ _ (bg_vm _ _ HG) Hs (wp_run _ _ _ (vm_release_ok _ (MellowXe.r_owner r) h (bg_vm _ _ HG) Hs))) as Hm.
  assert (La : live a) by (unfold live; by destruct (sd_held _ _ Hst) as [-> | ->]).
  pose proof (to_live _ _ _ _ (vo_table _ (mi_vm _ (bg_vm _ _ HG))) _ _ Hi La) as Hok.
  revert Hm. unfold VirtualMemory.releaseUse. rewrite (with_found _ _ h i a) by (try done; apply Hst).
  assert (bool_decide (VirtualMemory.state a <> VirtualMemory.StBound) && bool_decide (VirtualMemory.state a <> VirtualMemory.StRetiring) = false) as ->
    by (by destruct (sd_held _ _ Hst) as [-> | ->]).
  rewrite (proj2 (Z.eqb_neq _ _)) by done. intros Hm. cbn in Hm |- *.
  eapply (bgood_slot s _ (r :: H) _ i); [done..|apply HG|by eapply lookup_lt_Some|cbn; by rewrite (alter_set _ _ _ _ Hi)| | | |].
  - intros _. cbn [VirtualMemory.set_activeUses VirtualMemory.activeUses VirtualMemory.generation]. pose proof (bg_uses _ _ HG _ _ Hi La) as Eu. rewrite uses_cons, decide_True in Eu by (by apply stands_names).
    pose proof (ao_uses _ _ _ _ Hok). rewrite wrap_small; unfold U32_MAX in *; lia.
  - intros j g Hne. rewrite uses_cons, decide_False; [lia|]. intros [Ej _]. lia.
  - intros r' Hr Er'. by destruct (bg_at _ _ r' _ _ HG ltac:(by right) Hi Er').
  - intros r' Hr _. by right.
Qed.

Lemma on_world_good {A} (f : W -> A * W) s H : bgood s H -> bgood (on_world f s).2 H.
Proof. intros HG. unfold on_world. destruct (f _) as [x w]. by apply bgood_world. Qed.

#[export] Instance bridge_owner (transport : MellowXe.SubmissionBackend W) : ResourceOwner (backend transport) bgood.
Proof.
  unfold backend. destruct transport as [[fr|] ? ? [fs|] [ff|] [fq|]]; cbn.
  all: split; cbn; [intros w H H' [] HP; split; try done;
    [intros; by rewrite <- (uses_perm H H' _ _ HP); auto|intros r; rewrite <- HP; auto]|..]; try done.
  - intros ? fw g o c e out w H [= <-] HG. rewrite (bg_ok _ _ HG). by apply on_world_good.
  - intros ? r w H [= <-]. apply retain_good.
  - intros ? r w H [= <-]. apply release_good.
  - intros ? x w H [= <-] HG. rewrite (bg_ok _ _ HG). by apply on_world_good.
  - intros ? g o c e out w H [= <-]. by apply on_world_good.
  - intros ? g o c e w H [= <-]. by apply on_world_good.
Qed.
End Bridge.
