(* ===== verification/XeSubmissionThms.v ===== *)
(** Theorems of the submission queue: the life of its jobs against any backend, and, with the
    bridge, that no job ever outlives the memory it uses. *)
From stdpp Require Import base numbers list.
From S2P Require Import Prelude.
From S2P Require Import StateWp.
From S2P Require Import XeFirmware.
From S2P Require Import XeMemory.
From S2P Require Import XeVirtual.
From S2P Require Import XeVirtualInv.
From S2P Require Import XeVirtualOps.
From S2P Require Import XeVirtualThms.
From S2P Require Import XeSubmission.
From S2P Require Import XeSubmissionInv.
From S2P Require Import XeSubmissionOps.
From S2P Require Import XeMemorySubmission.
From S2P Require Import XeSubmissionBridge.
Import (hints) XeMemory VirtualMemory MellowXe.
Import SubmissionMemoryBridge.

(** * Jobs *)

Section Lifecycle.
Import MellowXe.
Context {W : Type} (b : SubmissionBackend W).
Implicit Types (m : machine W).

(** What [query] may say of a token, from what was observed of the hardware. *)
Record told m (t : FenceToken) (r : JobResult) : Prop := {
  td_token : jr_token r = t;
  td_generation : f_generation t <= generation_ (queue m);
  td_submitted : exists x a, QSubmit x a ∈ trace m /\ a <> BRejected /\
    fence x = t;
  td_completed : jr_state r = JCompleted ->
    resourcesHeld r = false /\ fence_passed (queue m) (trace m) t;
  td_released : resourcesHeld r = false ->
    fence_passed (queue m) (trace m) t \/ stopped (trace m) t;
  td_held : f_generation t = generation_ (queue m) ->
    resourcesHeld r = (lastObserved_ (queue m) <? f_sequence t);
  td_old : f_generation t < generation_ (queue m) ->
    resourcesHeld r = false /\ jr_state r <> JSubmitted;
  td_doubt : f_generation t = generation_ (queue m) ->
    jr_state r = JTimedOut \/ jr_state r = JAcceptanceUnknown ->
    state_ (queue m) = NeedsReset;
}.

Lemma current_held seen j : current_ok seen j ->
  held j = (seen <? f_sequence (fence (batch j))) /\
  (state j = JCompleted -> held j = false).
Proof.
  unfold current_ok. destruct (state j); try done; intros H; try (by split).
  - destruct H as [-> ?]. split; [by symmetry; apply Z.ltb_lt|done].
  - destruct H as [-> ?]. split; [by symmetry; apply Z.ltb_ge|done].
Qed.

Lemma job_told m i j :
  inv b (fun _ _ => True) m -> jobs_ (queue m) !! i = Some j -> state j <> JFree ->
  told m (fence (batch j))
    {| jr_state := state j; resourcesHeld := held j;
       jr_token := fence (batch j) |}.
Proof.
  intros [_ [_ _ _ _ [_ _ Hj _]] _] Hi Hs. destruct (Hj i j Hi Hs) as [Hsq Hg Hc Ho _ (a & Hsub & Ha) Hcp Hr Hd].
  assert (Hcomp : state j = JCompleted -> held j = false).
  { destruct (Z.eq_dec (f_generation (fence (batch j)))
      (generation_ (queue m))) as [E|E].
    - apply (current_held _ _ (proj2 (Hc E))).
    - intros _. apply Ho. lia. }
  split; cbn; auto.
  - lia.
  - by exists (batch j), a.
  - intros E. by apply current_held, Hc.
  - intros E. destruct (Ho E) as (? & ? & _). done.
Qed.

(** [C8] Over every sequence of calls, against any backend and whatever happens in between: two
    jobs never have the same token, and what [query] says of a token is backed by what the
    hardware reported.  A job is [Completed] only after an ordered observation of its own
    generation, owner, context and engine reached its sequence; its resources are given back
    only after such an observation or after the hardware was stopped in its generation, and in
    the current generation they are held exactly until the last observation reaches it.  A job
    that timed out, or whose acceptance is unknown, leaves the queue waiting for a reset. *)
Theorem submission_lifecycle m :
  q_reachable b (fun _ => True) (fun _ _ => True) m ->
  (forall i k j j', jobs_ (queue m) !! i = Some j ->
     jobs_ (queue m) !! k = Some j' ->
     state j <> JFree -> state j' <> JFree ->
     fence (batch j) = fence (batch j') -> i = k) /\
  (forall t r, query (queue m) t = (None_, r) -> told m t r).
Proof.
  intros Hr. assert (Hm : inv b (fun _ _ => True) m) by (by eapply (q_reachable_inv b (fun _ _ => True))).
  split; [apply Hm|]. intros t r. unfold query, find.
  destruct (list_find _ _) as [[i j]|] eqn:E; cbn; [|done]. intros [= <-].
  apply list_find_Some in E as (Hi & (Hs & <-) & _). unfold job_at. rewrite Hi. by eapply job_told.
Qed.
End Lifecycle.

(** * Memory *)

Section Memory.
Context {W : Type} (read64 : Z -> W -> Z) (transport : MellowXe.SubmissionBackend W).

(** A new bridge on a new virtual memory. *)
Definition bridge_init (s : bridge W) : Prop :=
  exists w, s = new_bridge {| VirtualMemory.vm := VirtualMemory.new_VirtualMemory; VirtualMemory.world := w;
                              VirtualMemory.trace := [] |}.

(** Between calls of the queue: any call of the virtual memory but those that count uses, which
    are the queue's, or any change of the world. *)
Inductive bridge_env (s : bridge W) : bridge W -> Prop :=
  | be_vm o : vm_words o -> uses_added o = 0 ->
      bridge_env s {| bvm := (vm_run read64 o (bvm s)).2; faulted := faulted s; lastRelease := lastRelease s |}
  | be_world w :
      bridge_env s {| bvm := {| VirtualMemory.vm := VirtualMemory.vm (bvm s); VirtualMemory.world := w;
                                VirtualMemory.trace := VirtualMemory.trace (bvm s) |};
                      faulted := faulted s; lastRelease := lastRelease s |}.

Lemma bgood_init s : bridge_init s -> bgood s [].
Proof.
  intros [w ->]. split; [|done|by intros i a ?|by intros r ?%elem_of_nil].
  apply (vm_reachable_minv read64). constructor.
Qed.

Lemma bgood_env s s' H : bridge_env s s' -> bgood s H -> bgood s' H.
Proof.
  intros [o Ho Hu|w] HG; [|by apply bgood_world].
  destruct (run_ok read64 _ o (bg_vm _ _ HG) Ho) as [Hm He]. rewrite Hu in He. by apply bgood_effect.
Qed.

Lemma held_valid (m : VirtualMemory.machine W) i a :
  minv m -> VirtualMemory.slots (VirtualMemory.vm m) !! i = Some a -> held_state (VirtualMemory.state a) ->
  validPin a = true.
Proof.
  intros Hm Hi Hh. assert (La : live a) by (unfold live; by destruct Hh as [-> | ->]).
  destruct (ao_pin _ _ _ _ (to_live _ _ _ _ (vo_table _ (mi_vm _ Hm)) _ _ Hi La)) as (? & ? & E); [by right|].
  unfold validPin. rewrite E, Z.eqb_refl. by rewrite !(proj2 (Z.eqb_neq _ _)).
Qed.

(** [C7] The queue on the bridge to the virtual memory, over every sequence of calls of both and
    any transport: dropping a hold never fails, the use count of every allocation is the
    number of holds that the jobs in flight have on it, and each resource of a job whose
    resources are held is the allocation that was submitted, with its owner, range and
    generation, still bound in the GPU and completely pinned. *)
Theorem xe_submission_memory_safe m :
  q_reachable (backend transport) bridge_init bridge_env m ->
  let q := MellowXe.queue m in let vm := bvm (MellowXe.world m) in
  faulted (MellowXe.world m) = false /\
  (forall i a, VirtualMemory.slots (VirtualMemory.vm vm) !! i = Some a -> live a ->
    VirtualMemory.activeUses a = uses (refs (MellowXe.jobs_ q)) i (VirtualMemory.generation a)) /\
  (forall k j r, MellowXe.jobs_ q !! k = Some j -> MellowXe.held j = true ->
    r ∈ MellowXe.resources (MellowXe.batch j) -> exists i a,
    VirtualMemory.slots (VirtualMemory.vm vm) !! i = Some a /\ MellowXe.id r -64 1 = Z.of_nat i /\ stands r a /\
    phase_of (VirtualMemory.generation a) (VirtualMemory.trace vm) = PBound /\ validPin a = true).
Proof.
  intros Hr q vm. assert (Hm : inv (backend transport) bgood m).
  { eapply q_reachable_inv; [apply _|exact bgood_init|exact bgood_env|exact Hr]. }
  destruct (iv_good _ _ _ Hm) as [Hv Hf Hu Hres]. split; [done|]. split; [exact Hu|].
  intros k j r Hk Hh Hin. destruct (Hres r) as (i & a & Hi & Er & Hst).
  { apply list_elem_of_bind. exists j. split; [unfold holds_of; by rewrite Hh|by eapply list_elem_of_lookup_2]. }
  exists i, a. split; [done|]. split; [done|]. split; [done|].
  pose proof (held_valid _ _ _ Hv Hi (sd_held _ _ Hst)). split; [|done].
  eapply (held_phase _ i); [done..|]. eapply (bg_used _ (refs (MellowXe.jobs_ q)) r); [apply Hm| |done..].
  apply list_elem_of_bind. exists j. split; [unfold holds_of; by rewrite Hh|by eapply list_elem_of_lookup_2].
Qed.
End Memory.

(** * Examples *)

(** A transport whose hardware accepts everything and reports sequence 1. *)
Definition yes_transport : MellowXe.SubmissionBackend unit := {|
  MellowXe.sb_readiness := Some (fun _ g o c e _ w =>
    ((MellowXe.None_, {| MellowXe.rd_generation := g; MellowXe.rd_owner := o; MellowXe.rd_context := c;
      MellowXe.rd_engine := e; MellowXe.rd_flags := MellowXe.requiredReadyBits |}), w));
  MellowXe.sb_retain := None;
  MellowXe.sb_release := None;
  MellowXe.sb_submit := Some (fun _ w => (MellowXe.BAccepted, w));
  MellowXe.sb_readFence := Some (fun g o c e _ w =>
    ((MellowXe.None_, {| MellowXe.o_generation := g; MellowXe.o_owner := o; MellowXe.o_context := c;
      MellowXe.o_engine := e; MellowXe.completedSequence := 1; MellowXe.o_valid := true;
      MellowXe.acquireOrdered := true |}), w));
  MellowXe.sb_quiesce := Some (fun _ _ _ _ w => (true, w)) |}.

Definition ex_firmware : FirmwareInfo := {|
  fi_release := {| major := 70; minor := 44; patch := 1 |}; fi_submission := no_version; ucodeOffset := 0;
  ucodeBytes := 4096; rsaOffset := 0; rsaBytes := 256; minimumBytes := 0; privateDataBytes := 0;
  moduleVendor := 0; headerVersion := 0; declaredDeviceId := 0; buildType := 0; securityVersion := 0;
  deviceInfoValid := false; securityInfoValid := false; belowRecommended := false |}.

Definition ex_batch : list Z := [0; 0x05000000].

Definition ex_resource : MellowXe.Resource := {|
  MellowXe.id := 2; MellowXe.r_owner := 7; MellowXe.mappingGeneration := 2; MellowXe.gpuAddress := 12288;
  MellowXe.r_bytes := 8192; MellowXe.gpuReadable := true; MellowXe.pinned := true |}.

(** The calls of both, in order. *)
Fixpoint ex_calls (l : list (vm_op (W := unit) + q_op)) (m : MellowXe.machine (bridge unit)) :=
  match l with
  | [] => m
  | inl o :: l =>
      let s := MellowXe.world m in
      ex_calls l {| MellowXe.queue := MellowXe.queue m;
        MellowXe.world := {| bvm := (vm_run zero_memory o (bvm s)).2; faulted := faulted s; lastRelease := lastRelease s |};
        MellowXe.trace := MellowXe.trace m |}
  | inr o :: l => ex_calls l (q_run o m).2
  end.

Definition env_ok (x : vm_op (W := unit) + q_op) : Prop :=
  match x with inl o => vm_words o /\ uses_added o = 0 | inr _ => True end.

Lemma ex_calls_reachable l m :
  q_reachable (backend yes_transport) bridge_init (bridge_env zero_memory) m -> Forall env_ok l ->
  q_reachable (backend yes_transport) bridge_init (bridge_env zero_memory) (ex_calls l m).
Proof.
  intros Hm Hl. revert m Hm. induction Hl as [|[o|o] l Ho _ IH]; intros m Hm; cbn [ex_calls]; [done| |].
  - apply IH. apply qr_env; [done|]. by apply be_vm; destruct Ho.
  - by apply IH, qr_call.
Qed.

Definition ex_queue : MellowXe.machine (bridge unit) := {|
  MellowXe.queue := MellowXe.new_queue 7 1 (backend yes_transport) 0;
  MellowXe.world := new_bridge ex_start; MellowXe.trace := [] |}.

Definition ex_q_calls : list (vm_op (W := unit) + q_op) := [
  inl (VInitialize (Some 3%nat) 4096 (2 ^ 20) yes_backend); inl (VExclude 8192 4096); inl (VReserve 7 8192 4096);
  inl (VPin 7 ex_handle); inl (VBind 7 ex_handle 0 true); inr (QoActivate ex_firmware);
  inr (QoSubmit (Some ex_batch) (Some [ex_resource]) 1 10); inl (VRetire 7 ex_handle); inl (VReclaim 7 ex_handle)].

Definition ex_flight : MellowXe.machine (bridge unit) := ex_calls ex_q_calls ex_queue.

Lemma ex_flight_reachable :
  q_reachable (backend yes_transport) bridge_init (bridge_env zero_memory) ex_flight.
Proof.
  apply ex_calls_reachable; [apply qr_start; by exists tt|]. unfold ex_q_calls.
  repeat (apply Forall_cons_2 || apply Forall_nil_2); cbn; unfold word; lia || done.
Qed.

Definition ex_job : MellowXe.Job := Eval vm_compute in MellowXe.job_at (MellowXe.queue ex_flight) 0.

(** A job in flight keeps an allocation that its owner has retired and asks to reclaim; the
    interrupt that completes the job gives it back. *)
Lemma xe_submission_memory_safe_witness :
  faulted (MellowXe.world ex_flight) = false /\
  MellowXe.resource_error 7 [] ex_resource = None /\
  (exists i a, VirtualMemory.slots (VirtualMemory.vm (bvm (MellowXe.world ex_flight))) !! i = Some a /\
    stands ex_resource a /\ VirtualMemory.state a = VirtualMemory.StRetiring /\ VirtualMemory.activeUses a = 1) /\
  (VirtualMemory.activeUses <$> VirtualMemory.slots (VirtualMemory.vm (bvm (MellowXe.world
    (q_run (QoInterrupt 1 2) ex_flight).2))) !! 1%nat) = Some 0.
Proof.
  destruct (xe_submission_memory_safe zero_memory yes_transport ex_flight ex_flight_reachable) as (Hf & _ & Hr).
  split; [exact Hf|]. split; [vm_compute; reflexivity|]. split; [|vm_compute; reflexivity].
  destruct (Hr 0%nat ex_job ex_resource) as (i & a & Hi & Ei & Hst & _); [vm_compute; reflexivity|reflexivity|by left|].
  exists i, a. assert (i = 1%nat) as ->.
  { apply Nat2Z.inj. rewrite <- Ei. vm_compute. reflexivity. }
  split; [exact Hi|]. split; [exact Hst|]. vm_compute in Hi. injection Hi as <-. split; reflexivity.
Defined.

(** The queue alone, on the same transport with an owner that agrees to everything. *)
Definition yes_owner : MellowXe.SubmissionBackend unit := {|
  MellowXe.sb_readiness := MellowXe.sb_readiness yes_transport;
  MellowXe.sb_retain := Some (fun _ w => (true, w));
  MellowXe.sb_release := Some (fun _ w => w);
  MellowXe.sb_submit := MellowXe.sb_submit yes_transport;
  MellowXe.sb_readFence := MellowXe.sb_readFence yes_transport;
  MellowXe.sb_quiesce := MellowXe.sb_quiesce yes_transport |}.

Definition ex_ops : list q_op := [
  QoActivate ex_firmware; QoSubmit (Some ex_batch) (Some [ex_resource]) 1 10;
  QoSubmit (Some ex_batch) (Some [ex_resource]) 2 10; QoInterrupt 1 3].

Definition ex_done : MellowXe.machine unit :=
  fold_left (fun m o => (q_run o m).2) ex_ops
    {| MellowXe.queue := MellowXe.new_queue 7 1 yes_owner 0; MellowXe.world := tt; MellowXe.trace := [] |}.

Lemma ex_done_reachable : q_reachable yes_owner (fun _ => True) (fun _ _ => True) ex_done.
Proof. unfold ex_done, ex_ops. cbn [fold_left]. do 4 apply qr_call. by apply qr_start. Qed.

Lemma submission_lifecycle_witness :
  let t s := {| MellowXe.f_generation := 1; MellowXe.f_sequence := s |} in
  MellowXe.query (MellowXe.queue ex_done) (t 1) =
    (MellowXe.None_, {| MellowXe.jr_state := MellowXe.JCompleted; MellowXe.resourcesHeld := false; MellowXe.jr_token := t 1 |}) /\
  MellowXe.query (MellowXe.queue ex_done) (t 2) =
    (MellowXe.None_, {| MellowXe.jr_state := MellowXe.JSubmitted; MellowXe.resourcesHeld := true; MellowXe.jr_token := t 2 |}) /\
  fence_passed (MellowXe.queue ex_done) (MellowXe.trace ex_done) (t 1).
Proof.
  intros t. assert (E : MellowXe.query (MellowXe.queue ex_done) (t 1) =
    (MellowXe.None_, {| MellowXe.jr_state := MellowXe.JCompleted; MellowXe.resourcesHeld := false; MellowXe.jr_token := t 1 |}))
    by (vm_compute; reflexivity).
  split; [exact E|]. split; [vm_compute; reflexivity|].
  destruct (submission_lifecycle yes_owner ex_done ex_done_reachable) as [_ Ht].
  destruct (Ht (t 1) _ E) as [_ _ _ Hc _ _ _ _]. apply Hc. reflexivity.
Defined.
