(* ===== verification/Interleave.v ===== *)
(** Programs that run step by step on a shared state, for code that an interrupt may preempt
    between any two atomic actions; and two ways to reason about one thread: the phases of an
    automaton that its steps follow, and assertions under a rely condition. *)
From stdpp Require Import base tactics.
From S2P Require Import Prelude.

Declare Scope prog_scope.
Delimit Scope prog_scope with prog.

Section Prog.
Context {M : Type}.

(** An atomic action on the state and what to do with its result. *)
Inductive prog (A : Type) : Type :=
  | Ret (a : A)
  | Step {B : Type} (c : ST M B) (k : B -> prog A).
Arguments Ret {A} a.
Arguments Step {A B} c k.

Fixpoint pbind {A B} (p : prog A) (f : A -> prog B) : prog B :=
  match p with
  | Ret a => f a
  | Step c k => Step c (fun x => pbind (k x) f)
  end.

Definition atomic {A} (c : ST M A) : prog A := Step c Ret.

(** Without interference. *)
Fixpoint prun {A} (p : prog A) : ST M A :=
  match p with
  | Ret a => ret a
  | Step c k => fun m => prun (k (c m).1) (c m).2
  end.

(** * Phases

    [follows T F s p]: from phase [s] every step of [p], in whatever state it is taken, is a
    transition of [T]; when [p] returns [a] in phase [s'], [F a s']. *)
Section Follows.
Context {P : Type} (T : P -> M -> M -> P -> Prop).

Fixpoint follows {A} (F : A -> P -> Prop) (s : P) (p : prog A) : Prop :=
  match p with
  | Ret a => F a s
  | Step c k => forall m, exists s', T s m (c m).2 s' /\ follows F s' (k (c m).1)
  end.

Lemma follows_mono {A} (F G : A -> P -> Prop) s p :
  follows F s p -> (forall a s', F a s' -> G a s') -> follows G s p.
Proof.
  revert s. induction p as [a|B c k IH]; intros s Hp HFG; cbn in *; [by apply HFG|].
  intros m. destruct (Hp m) as (s' & Ht & Hk). exists s'. auto.
Qed.

Lemma follows_bind {A B} (F : B -> P -> Prop) s (p : prog A) (f : A -> prog B) :
  follows (fun a s' => follows F s' (f a)) s p -> follows F s (pbind p f).
Proof.
  revert s. induction p as [a|C c k IH]; intros s Hp; cbn in *; [done|].
  intros m. destruct (Hp m) as (s' & Ht & Hk). exists s'. auto.
Qed.
End Follows.

(** * Assertions

    [rely_wp R I Q p m]: from [m], when between its steps the state changes only by [R], every
    step of [p] leads to a state that satisfies [I] and [p] returns in one that satisfies [Q]. *)
Section Rely.
Context (R : M -> M -> Prop) (I : M -> Prop) `{!PreOrder R}.

Fixpoint rely_wp {A} (Q : A -> M -> Prop) (p : prog A) (m : M) : Prop :=
  match p with
  | Ret a => Q a m
  | Step c k => forall m', R m m' -> I (c m').2 /\ rely_wp Q (k (c m').1) (c m').2
  end.

Lemma rely_mono {A} (Q Q' : A -> M -> Prop) p m :
  rely_wp Q p m -> (forall a m', Q a m' -> Q' a m') -> rely_wp Q' p m.
Proof. revert m. induction p as [a|B c k IH]; intros m Hp HQ; cbn in *; [auto|]. intros m' HR. by destruct (Hp m' HR); auto. Qed.

Lemma rely_bind {A B} (Q : B -> M -> Prop) (p : prog A) (f : A -> prog B) m :
  rely_wp (fun a => rely_wp Q (f a)) p m -> rely_wp Q (pbind p f) m.
Proof. revert m. induction p as [a|C c k IH]; intros m Hp; cbn in *; [auto|]. intros m' HR. by destruct (Hp m' HR); auto. Qed.

(** Interference before the first step. *)
Lemma rely_stable {A} (Q : A -> M -> Prop) p m m' :
  (forall a x y, Q a x -> R x y -> Q a y) -> rely_wp Q p m -> R m m' -> rely_wp Q p m'.
Proof.
  intros HQ Hp HR. destruct p as [a|B c k]; cbn in *; [by eapply HQ|].
  intros m'' HR'. apply Hp. by etrans.
Qed.
End Rely.
End Prog.

Arguments prog M A : clear implicits.
Arguments Ret {M A} a.
Arguments Step {M A B} c k.

Notation "x <~ p ;; k" := (pbind p (fun x => k))
  (at level 60, p at next level, right associativity) : prog_scope.
Notation "p ;;~ k" := (pbind p (fun _ => k)) (at level 60, right associativity) : prog_scope.
