(* ===== verification/XeInterrupt.v ===== *)
(** The interrupt controller of the Xe backend, class [Controller] of
    [Mellow/XeInterrupt.{hpp,cpp}].  Its operations run on a workloop, except [filter], which
    runs in interrupt context at any time; an operation is therefore a program of atomic
    actions: loads and stores of [state_], calls of the adapter, and accesses to the fields
    that only the workloop uses. *)
From stdpp Require Import base numbers list.
From S2P Require Import Prelude.
From S2P Require Import Interleave.

Module XeInterrupt.

(** * Data *)

Inductive Status :=
  | Ok | Empty | Pending | Invalid | Unavailable | IoFailure | Timeout | Unsupported | Faulted.
Inductive Handling := Drained | More | Failed.

#[export] Instance Status_eq_dec : EqDecision Status.
Proof. solve_decision. Defined.
#[export] Instance Handling_eq_dec : EqDecision Handling.
Proof. solve_decision. Defined.

Record Identity := { raw : Z; bank : Z; bit : Z; engineClass : Z; instance : Z; vector : Z }.
Definition no_identity : Identity :=
  {| raw := 0; bank := 0; bit := 0; engineClass := 0; instance := 0; vector := 0 |}.

Definition tileMaster : Z := 0x190008.
Definition gfxMaster : Z := 0x190010.
Definition bankStatus : Z := 0x190018.
Definition identityRegister : Z := 0x190060.
Definition selectorRegister : Z := 0x190070.
Definition masterEnable : Z := 0x80000000.
Definition identityValid : Z := 0x80000000.
Definition engineUser : Z := 1.
Definition engineFlush : Z := 16.

(** [state_]: 0 stopped, 1 armed, 2 masked, 3 workloop, 4 fault. *)
Definition Stopped : Z := 0.
Definition Armed : Z := 1.
Definition Masked : Z := 2.
Definition Workloop : Z := 3.
Definition Fault : Z := 4.

Record Configuration := { epoch : Z; vendor : Z; device : Z; ccsMask : Z; render : bool; copy : bool }.

(** What happened, newest first: refused admissions, register writes with their success, and
    handled identities; [EvBatch] marks where the array of events is emptied for a new batch,
    [EvStop] a call of [stop], [EvOverflow] a store behind the end of [events_]. *)
Inductive event :=
  | EvRefused
  | EvWrite (reg v : Z) (ok : bool)
  | EvHandled (id : Identity) (h : Handling)
  | EvBatch
  | EvStop
  | EvOverflow.

Section Controller.
Context {W : Type}.

(** Callbacks on a world [W]; a null function pointer is [None]. *)
Record Ops := {
  op_read32 : option (Z -> W -> (bool * Z) * W);
  op_write32 : option (Z -> Z -> W -> bool * W);
  op_nowMicros : option (W -> Z * W);
  op_admitted : option (Z -> W -> bool * W);
  op_identity : option (Z -> Identity -> W -> Handling * W);
  op_otherMaster : option (Z -> Z -> W -> Handling * W);
}.

Record Controller := {
  config_ : Configuration;
  ops_ : Ops;
  events_ : list Identity;
  eventCount_ : nat;
  nextEvent_ : nat;
  other_ : Z;
  state_ : Z;
  configured_ : bool;
  batchReady_ : bool;
}.

Definition maxEvents : nat := 64.

Definition no_ops : Ops := {|
  op_read32 := None; op_write32 := None; op_nowMicros := None; op_admitted := None; op_identity := None;
  op_otherMaster := None |}.
Definition new_controller : Controller := {|
  config_ := {| epoch := 0; vendor := 0; device := 0; ccsMask := 0; render := false; copy := false |};
  ops_ := no_ops; events_ := replicate maxEvents no_identity; eventCount_ := 0; nextEvent_ := 0; other_ := 0;
  state_ := 0; configured_ := false; batchReady_ := false |}.

Definition set_state v (c : Controller) : Controller :=
  {| config_ := config_ c; ops_ := ops_ c; events_ := events_ c; eventCount_ := eventCount_ c; nextEvent_ := nextEvent_ c; other_ := other_ c; state_ := v; configured_ := configured_ c; batchReady_ := batchReady_ c |}.
Definition set_configured v (c : Controller) : Controller :=
  {| config_ := config_ c; ops_ := ops_ c; events_ := events_ c; eventCount_ := eventCount_ c; nextEvent_ := nextEvent_ c; other_ := other_ c; state_ := state_ c; configured_ := v; batchReady_ := batchReady_ c |}.
Definition set_batchReady v (c : Controller) : Controller :=
  {| config_ := config_ c; ops_ := ops_ c; events_ := events_ c; eventCount_ := eventCount_ c; nextEvent_ := nextEvent_ c; other_ := other_ c; state_ := state_ c; configured_ := configured_ c; batchReady_ := v |}.
Definition set_other v (c : Controller) : Controller :=
  {| config_ := config_ c; ops_ := ops_ c; events_ := events_ c; eventCount_ := eventCount_ c; nextEvent_ := nextEvent_ c; other_ := v; state_ := state_ c; configured_ := configured_ c; batchReady_ := batchReady_ c |}.
Definition set_nextEvent v (c : Controller) : Controller :=
  {| config_ := config_ c; ops_ := ops_ c; events_ := events_ c; eventCount_ := eventCount_ c; nextEvent_ := v; other_ := other_ c; state_ := state_ c; configured_ := configured_ c; batchReady_ := batchReady_ c |}.
Definition set_setup cfg o (c : Controller) : Controller :=
  {| config_ := cfg; ops_ := o; events_ := events_ c; eventCount_ := eventCount_ c; nextEvent_ := nextEvent_ c; other_ := other_ c; state_ := state_ c; configured_ := configured_ c; batchReady_ := batchReady_ c |}.
Definition set_events v n (c : Controller) : Controller :=
  {| config_ := config_ c; ops_ := ops_ c; events_ := v; eventCount_ := n; nextEvent_ := nextEvent_ c; other_ := other_ c; state_ := state_ c; configured_ := configured_ c; batchReady_ := batchReady_ c |}.
(** [eventCount_ = nextEvent_ = 0] with a new [other_]. *)
Definition set_empty v (c : Controller) : Controller :=
  {| config_ := config_ c; ops_ := ops_ c; events_ := events_ c; eventCount_ := 0; nextEvent_ := 0; other_ := v; state_ := state_ c; configured_ := configured_ c; batchReady_ := batchReady_ c |}.

Record machine := { ctl : Controller; world : W; trace : list event }.

Local Open Scope prog_scope.
Notation program := (prog machine).

(** * Atomic actions *)

Definition upd (f : Controller -> Controller) : ST machine unit :=
  modify (fun m => {| ctl := f (ctl m); world := world m; trace := trace m |}).
Definition record (ev : event) : ST machine unit :=
  modify (fun m => {| ctl := ctl m; world := world m; trace := ev :: trace m |}).
Definition act {A} (f : W -> A * W) : ST machine A := fun m =>
  let '(r, w) := f (world m) in (r, {| ctl := ctl m; world := w; trace := trace m |}).

Definition get : program Controller := atomic (gets ctl).
Definition set (f : Controller -> Controller) : program unit := atomic (upd f).
Definition load_state : program Z := atomic (gets (fun m => state_ (ctl m))).
Definition store_state (v : Z) : program unit := atomic (upd (set_state v)).
Definition cas_state (expected desired : Z) : program bool := atomic (
  c <-- gets ctl ;;
  if state_ c =? expected then upd (set_state desired) ;;; ret true else ret false)%st.

(** Callbacks are called only after [configure] has found them; a missing one counts as a
    refusal. *)
Definition call_admitted : ST machine bool := (
  c <-- gets ctl ;;
  match op_admitted (ops_ c) with
  | None => record EvRefused ;;; ret false
  | Some f =>
      b <-- act (f (epoch (config_ c))) ;;
      when (negb b) (record EvRefused) ;;; ret b
  end)%st.
Definition call_read32 (reg : Z) : ST machine (bool * Z) := (
  c <-- gets ctl ;;
  match op_read32 (ops_ c) with
  | None => ret (false, 0)
  | Some f => r <-- act (f reg) ;; ret (r.1, wrap 32 r.2)
  end)%st.
Definition call_write32 (reg v : Z) : ST machine bool := (
  c <-- gets ctl ;;
  match op_write32 (ops_ c) with
  | None => record EvRefused ;;; ret false
  | Some f => ok <-- act (f reg v) ;; record (EvWrite reg v ok) ;;; ret ok
  end)%st.
Definition call_nowMicros : ST machine Z := (
  c <-- gets ctl ;;
  match op_nowMicros (ops_ c) with
  | None => ret 0
  | Some f => t <-- act f ;; ret (wrap 64 t)
  end)%st.
Definition call_identity (id : Identity) : ST machine Handling := (
  c <-- gets ctl ;;
  match op_identity (ops_ c) with
  | None => ret Failed
  | Some f => h <-- act (f (epoch (config_ c)) id) ;; record (EvHandled id h) ;;; ret h
  end)%st.
Definition call_otherMaster (bits : Z) : ST machine Handling := (
  c <-- gets ctl ;;
  match op_otherMaster (ops_ c) with
  | None => ret Failed
  | Some f => act (f (epoch (config_ c)) bits)
  end)%st.

(** * Register access *)

Definition admitted : program bool := atomic call_admitted.

Definition read (reg : Z) : program (bool * Z) :=
  ok <~ admitted ;;
  if negb ok then Ret (false, 0)
  else r <~ atomic (call_read32 reg) ;; Ret (r.1 && negb (r.2 =? U32_MAX), r.2).

Definition write (reg v : Z) : program bool :=
  ok <~ admitted ;;
  if negb ok then Ret false else atomic (call_write32 reg v).

Definition update (reg mask bits : Z) : program bool :=
  ok <~ admitted ;;
  if negb ok then Ret false
  else
    r <~ atomic (call_read32 reg) ;;
    if negb r.1 then Ret false
    else write reg (Z.lor (Z.land r.2 (Z.lnot mask)) (Z.land bits mask)).

Definition fail (s : Status) : program Status :=
  store_state Fault ;;~
  ok <~ admitted ;;
  if ok then write tileMaster 0 ;;~ Ret s else Ret s.

(** * Configuration *)

Definition irqs : Z := Z.lor engineUser engineFlush.

(** The registers that [configure] updates, with mask and bits. *)
Definition setup (c : Configuration) : list (Z * Z * Z) :=
  let high := Z.shiftl irqs 16 in
  let both := Z.lor high irqs in
  let engineBits := Z.lor (if render c then high else 0) (if copy c then irqs else 0) in
  let ccs := negb (ccsMask c =? 0) in
  [ (0x190030, 0x00110011, engineBits);
    (0x190090, high, if render c then 0 else high);
    (0x1900a0, high, if copy c then 0 else high);
    (0x190048, high, if ccs then high else 0);
    (0x190100, both, if ccs then 0 else both);
    (0x190038, 0x80000000, 0x80000000);
    (0x1900e8, 0x80000000, 0) ].

Fixpoint update_all (l : list (Z * Z * Z)) : program bool :=
  match l with
  | [] => Ret true
  | (reg, mask, bits) :: l =>
      ok <~ update reg mask bits ;;
      if negb ok then Ret false else update_all l
  end.

Definition is_some {A} (x : option A) : bool := match x with Some _ => true | None => false end.

Definition ops_complete (o : Ops) : bool :=
  is_some (op_read32 o) && is_some (op_write32 o) && is_some (op_nowMicros o) && is_some (op_admitted o) &&
  is_some (op_identity o) && is_some (op_otherMaster o).

Definition configure (c : Configuration) (o : Ops) : program Status :=
  t <~ get ;;
  if configured_ t || (epoch c =? 0) || negb (vendor c =? 0x8086) || negb (device c =? 0x7d41) ||
     negb (Z.land (ccsMask c) (Z.lnot 1) =? 0) || negb (ops_complete o) then Ret Invalid
  else
    set (set_setup c o) ;;~
    ok <~ admitted ;;
    if negb ok then Ret Unavailable
    else
      set (set_configured true) ;;~
      ok <~ write tileMaster 0 ;;
      if negb ok then fail IoFailure
      else
        posted <~ read tileMaster ;;
        if negb posted.1 || test posted.2 masterEnable then fail IoFailure
        else
          ok <~ update_all (setup c) ;;
          if negb ok then fail IoFailure
          else
            ok <~ admitted ;;
            if negb ok then fail IoFailure
            else
              r <~ atomic (call_read32 0x1900e8) ;;
              if negb r.1 then fail IoFailure else Ret Ok.

(** * Delivery *)

Definition rearm : program Status :=
  store_state Armed ;;~
  ok <~ write tileMaster masterEnable ;;
  if negb ok then fail IoFailure
  else
    after <~ load_state ;;
    if after =? Armed then Ret Ok
    else
      ok <~ write tileMaster 0 ;;
      if negb ok then fail IoFailure
      else Ret (if after =? Fault then Faulted else Ok).

Definition start : program Status :=
  t <~ get ;;
  if negb (configured_ t) then Ret Invalid
  else
    state <~ load_state ;;
    if negb (state =? Stopped) then Ret Invalid
    else
      ok <~ admitted ;;
      if negb ok then Ret Unavailable else rearm.

Definition filter : program bool :=
  state <~ load_state ;;
  if negb (state =? Armed) then Ret false
  else
    ok <~ admitted ;;
    if negb ok then Ret false
    else
      level <~ read tileMaster ;;
      if negb level.1 then fail IoFailure ;;~ Ret true
      else if negb (test level.2 1) then Ret false
      else
        ok <~ cas_state Armed Masked ;;
        if negb ok then Ret false
        else
          ok <~ write tileMaster 0 ;;
          if negb ok then fail IoFailure ;;~ Ret true else Ret true.

Inductive polled := PIo | PValid (identity : Z) | PInvalid.

(** The loop that waits for a valid identity. *)
Fixpoint poll (attempts : nat) (reg start : Z) : program polled :=
  match attempts with
  | O => Ret PInvalid
  | S attempts =>
      r <~ read reg ;;
      if negb r.1 then Ret PIo
      else if test r.2 identityValid then Ret (PValid r.2)
      else
        now <~ atomic call_nowMicros ;;
        if (now <? start) || (100 <=? now - start) then Ret PInvalid else poll attempts reg start
  end.

Definition identity_of (b i v : Z) : Identity := {|
  raw := v; bank := b; bit := i; engineClass := Z.land (Z.shiftr v 16) 7;
  instance := Z.land (Z.shiftr v 20) 63; vector := wrap 16 v |}.

(** [events_[eventCount_++] = id] *)
Definition push_event (id : Identity) : ST machine unit := (
  c <-- gets ctl ;;
  if (eventCount_ c <? maxEvents)%nat then upd (set_events (<[eventCount_ c := id]> (events_ c)) (S (eventCount_ c)))
  else record EvOverflow)%st.

(** The body of the loop over the bits of a bank; [Some] is a return. *)
Definition collect_bit (b dw i : Z) : program (option Status) :=
  if negb (test dw (Z.shiftl 1 i)) then Ret None
  else
    ok <~ write (selectorRegister + b * 4) (Z.shiftl 1 i) ;;
    if negb ok then s <~ fail IoFailure ;; Ret (Some s)
    else
      begin <~ atomic call_nowMicros ;;
      identity <~ poll 10000 (identityRegister + b * 4) begin ;;
      match identity with
      | PIo => s <~ fail IoFailure ;; Ret (Some s)
      | PInvalid => s <~ fail Timeout ;; Ret (Some s)
      | PValid v =>
          ok <~ write (identityRegister + b * 4) v ;;
          if negb ok then s <~ fail IoFailure ;; Ret (Some s)
          else atomic (push_event (identity_of b i v)) ;;~ Ret None
      end.

Fixpoint collect_bits (b dw : Z) (l : list Z) : program (option Status) :=
  match l with
  | [] => Ret None
  | i :: l =>
      r <~ collect_bit b dw i ;;
      match r with Some s => Ret (Some s) | None => collect_bits b dw l end
  end.

Definition collect_bank (master b : Z) : program (option Status) :=
  if negb (test master (Z.shiftl 1 b)) then Ret None
  else
    dw <~ read (bankStatus + b * 4) ;;
    if negb dw.1 then s <~ fail IoFailure ;; Ret (Some s)
    else
      r <~ collect_bits b dw.2 (seqZ 0 32) ;;
      match r with
      | Some s => Ret (Some s)
      | None =>
          ok <~ write (bankStatus + b * 4) dw.2 ;;
          if negb ok then s <~ fail IoFailure ;; Ret (Some s) else Ret None
      end.

(** [eventCount_ = nextEvent_ = 0]: a batch begins. *)
Definition begin_batch (other : Z) : ST machine unit := (upd (set_empty other) ;;; record EvBatch)%st.

Definition collect : program Status :=
  tile <~ read tileMaster ;;
  if negb tile.1 || test tile.2 masterEnable then fail IoFailure
  else if test tile.2 (Z.land (Z.lnot masterEnable) (Z.lnot 1)) then fail Unsupported
  else if negb (test tile.2 1) then
    atomic (begin_batch 0) ;;~ set (set_batchReady true) ;;~ Ret Ok
  else
    ok <~ write tileMaster (Z.land tile.2 (Z.lnot masterEnable)) ;;
    if negb ok then fail IoFailure
    else
      master <~ read gfxMaster ;;
      if negb master.1 then fail IoFailure
      else
        ok <~ write gfxMaster master.2 ;;
        if negb ok then fail IoFailure
        else
          atomic (begin_batch (Z.land master.2 (Z.lnot (Z.lor masterEnable 3)))) ;;~
          r <~ collect_bank master.2 0 ;;
          match r with
          | Some s => Ret s
          | None =>
              r <~ collect_bank master.2 1 ;;
              match r with
              | Some s => Ret s
              | None => set (set_batchReady true) ;;~ Ret Ok
              end
          end.

(** [while (nextEvent_ < eventCount_)]: a round advances [nextEvent_] or returns, so that the
    difference of the two is as many rounds as there can be. *)
Fixpoint deliver (rounds : nat) : program (option Status) :=
  match rounds with
  | O => Ret None
  | S rounds =>
      t <~ get ;;
      if negb (nextEvent_ t <? eventCount_ t)%nat then Ret None
      else
        ok <~ admitted ;;
        if negb ok then s <~ fail Unavailable ;; Ret (Some s)
        else
          h <~ atomic (call_identity (default no_identity (events_ t !! nextEvent_ t))) ;;
          match h with
          | More => Ret (Some Pending)
          | Failed => s <~ fail Unsupported ;; Ret (Some s)
          | Drained => set (fun t => set_nextEvent (S (nextEvent_ t)) t) ;;~ deliver rounds
          end
  end.

Definition deliver_other : program (option Status) :=
  t <~ get ;;
  if other_ t =? 0 then Ret None
  else
    ok <~ admitted ;;
    if negb ok then s <~ fail Unavailable ;; Ret (Some s)
    else
      h <~ atomic (call_otherMaster (other_ t)) ;;
      match h with
      | More => Ret (Some Pending)
      | Failed => s <~ fail Unsupported ;; Ret (Some s)
      | Drained => set (set_other 0) ;;~ Ret None
      end.

Definition service : program Status :=
  state <~ load_state ;;
  if state =? Fault then Ret Faulted
  else if negb (state =? Masked) && negb (state =? Workloop) then Ret Empty
  else
    ok <~ admitted ;;
    if negb ok then fail Unavailable
    else
      store_state Workloop ;;~
      t <~ get ;;
      s <~ (if batchReady_ t then Ret Ok else collect) ;;
      if bool_decide (s <> Ok) then Ret s
      else
        t <~ get ;;
        r <~ deliver (eventCount_ t - nextEvent_ t) ;;
        match r with
        | Some s => Ret s
        | None =>
            r <~ deliver_other ;;
            match r with
            | Some s => Ret s
            | None => set (set_batchReady false) ;;~ rearm
            end
        end.

Definition store_stopped : ST machine unit := (upd (set_state Stopped) ;;; record EvStop)%st.

Definition stop : program Status :=
  atomic store_stopped ;;~
  t <~ get ;;
  if negb (configured_ t) then Ret Ok
  else
    ok <~ admitted ;;
    if negb ok then Ret Unavailable
    else
      ok <~ write tileMaster 0 ;;
      if negb ok then Ret IoFailure
      else
        posting <~ read tileMaster ;;
        if negb posting.1 || test posting.2 masterEnable then Ret IoFailure
        else
          set (fun t => set_configured false (set_batchReady false (set_empty 0 t))) ;;~ Ret Ok.

Definition faulted (c : Controller) : bool := state_ c =? Fault.
End Controller.

Arguments Ops : clear implicits.
Arguments Controller : clear implicits.
Arguments machine : clear implicits.
End XeInterrupt.
