(* ===== verification/XeInterruptMask.v ===== *)
(** The interrupt controller preempted by its filter at any point: who may change [state_] and
    the master enable when, as automata of the two threads, and the invariant of both. *)
From stdpp Require Import base numbers list.
From S2P Require Import Prelude.
From S2P Require Import Interleave.
From S2P Require Import XeInterrupt.
Import XeInterrupt.

(** * The master enable *)

(** What the last write of the tile master asked for; [Lost] when it asked for delivery and an
    admission was refused since, or nothing was written. *)
Inductive delivery := Off | On | Lost.

Definition refuse (d : delivery) : delivery := match d with On => Lost | d => d end.

Fixpoint delivery_of (tr : list event) : delivery :=
  match tr with
  | [] => Lost
  | EvRefused :: tr => refuse (delivery_of tr)
  | EvWrite reg v _ :: tr =>
      if reg =? tileMaster then if test v masterEnable then On else Off else delivery_of tr
  | _ :: tr => delivery_of tr
  end.

Section Mask.
Context {W : Type}.
Implicit Types (m : machine W).
Notation program := (prog (machine W)).

(** * Threads *)

Inductive workloop_op :=
  | OpConfigure (c : Configuration) (o : Ops W)
  | OpStart
  | OpService
  | OpStop.

Definition run_op (o : workloop_op) : program Status :=
  match o with
  | OpConfigure c o => configure c o
  | OpStart => start
  | OpService => service
  | OpStop => stop
  end.

(** The state and what is left of the operation and of the filter that are running. *)
Record threads := { mach : machine W; wl : option (program Status); irq : option (program bool) }.

(** Except [stop], an operation is called when no filter is running, and [service] for an
    interrupt that the filter has reported. *)
Definition may_call (o : workloop_op) (c : threads) : Prop :=
  match o with
  | OpConfigure _ _ | OpStart => irq c = None
  | OpService => irq c = None /\ state_ (ctl (mach c)) <> Armed
  | OpStop => True
  end.

Inductive thread_step (c : threads) : threads -> Prop :=
  | ts_call o : wl c = None -> may_call o c ->
      thread_step c {| mach := mach c; wl := Some (run_op o); irq := irq c |}
  | ts_workloop {B} (a : ST (machine W) B) k : wl c = Some (Step a k) ->
      thread_step c {| mach := (a (mach c)).2; wl := Some (k (a (mach c)).1); irq := irq c |}
  | ts_return s : wl c = Some (Ret s) -> thread_step c {| mach := mach c; wl := None; irq := irq c |}
  | ts_interrupt : irq c = None ->
      thread_step c {| mach := mach c; wl := wl c; irq := Some filter |}
  | ts_filter {B} (a : ST (machine W) B) k : irq c = Some (Step a k) ->
      thread_step c {| mach := (a (mach c)).2; wl := wl c; irq := Some (k (a (mach c)).1) |}
  | ts_filtered b : irq c = Some (Ret b) -> thread_step c {| mach := mach c; wl := wl c; irq := None |}
  | ts_world w :
      thread_step c {| mach := {| ctl := ctl (mach c); world := w; trace := trace (mach c) |};
                       wl := wl c; irq := irq c |}.

Inductive threads_reachable : threads -> Prop :=
  | tr_start w : threads_reachable
      {| mach := {| ctl := new_controller; world := w; trace := [] |}; wl := None; irq := None |}
  | tr_step c c' : threads_reachable c -> thread_step c c' -> threads_reachable c'.

(** * Phases

    The state that the threads share, [state_], the delivery and whether the controller is
    configured, has finitely many values, and each thread goes through finitely many phases;
    [fnexts] and [wnexts] give the steps that a thread may take in a phase. *)

Inductive cstate := CStopped | CArmed | CMasked | CWorkloop | CFault.

Definition cstate_of (s : Z) : cstate :=
  if s =? Stopped then CStopped else if s =? Armed then CArmed else if s =? Masked then CMasked
  else if s =? Workloop then CWorkloop else CFault.

Record view := { vs : cstate; vd : delivery; vc : bool }.
Definition view_of m : view :=
  {| vs := cstate_of (state_ (ctl m)); vd := delivery_of (trace m); vc := configured_ (ctl m) |}.

Definition vstore s v : view := {| vs := s; vd := vd v; vc := vc v |}.
Definition vdeliver d v : view := {| vs := vs v; vd := d; vc := vc v |}.
Definition vrefuse v : view := vdeliver (refuse (vd v)) v.
Definition vconfigure b v : view := {| vs := vs v; vd := vd v; vc := b |}.

(** The filter: before its load of [state_]; armed; it has masked [state_] and must mask the
    hardware; the hardware is masked; it has set the fault; done. *)
Inductive fphase := FNew | FArmed | FOwes | FMasked | FFault | FDone.

Definition fnexts (f : fphase) (v : view) : list (view * fphase) :=
  (v, f) :: (vrefuse v, f) ::
  match f with
  | FNew => [(v, match vs v with CArmed => FArmed | _ => FDone end)]
  | FArmed => (vstore CFault v, FFault) :: match vs v with CArmed => [(vstore CMasked v, FOwes)] | _ => [] end
  | FOwes => [(vstore CFault v, FFault); (vdeliver Off v, FMasked)]
  | FMasked => [(vstore CFault v, FFault)]
  | FFault => [(vrefuse v, FDone); (vdeliver Off v, FDone)]
  | FDone => []
  end.

Definition ffinal (f : fphase) : bool := match f with FArmed | FMasked | FDone => true | _ => false end.

(** The workloop: before and after the first check of [configure]; before the load of [state_]
    of [start] and [service]; between
    it and [rearm]; in [rearm] before the enabling write, after it, and when it must mask
    again; it has set the fault; in [stop] before and after the mask; done. *)
Inductive wphase :=
  | WConfigure | WConfiguring | WStart | WStartConfigured | WService | WStarting | WServing | WArming | WEnabled | WRemask
  | WFault | WStop | WStopping | WStopped | WDone.

Definition wnexts (w : wphase) (v : view) : list (view * wphase) :=
  (v, w) :: (vrefuse v, w) ::
  match w with
  | WConfigure => (v, WDone) :: (if vc v then [] else [(v, WConfiguring)])
  | WConfiguring => [(vdeliver Off v, w); (vconfigure true v, w); (vstore CFault v, WFault)]
  | WStart => (v, WDone) :: (if vc v then [(v, WStartConfigured)] else [])
  | WStartConfigured => (v, WDone) :: match vs v with CStopped => [(v, WStarting)] | _ => [] end
  | WService => (v, WDone) :: match vs v with CMasked | CWorkloop => [(v, WServing)] | _ => [] end
  | WStarting => [(vstore CArmed v, WArming)]
  | WServing =>
      [(vdeliver Off v, w); (vstore CWorkloop v, w); (vstore CArmed v, WArming); (vstore CFault v, WFault)]
  | WArming => [(vdeliver On v, WEnabled); (vstore CFault v, WFault)]
  | WEnabled => [(v, match vs v with CArmed => WDone | _ => WRemask end); (vstore CFault v, WFault)]
  | WRemask => [(vdeliver Off v, WDone); (vstore CFault v, WFault)]
  | WFault => [(vrefuse v, WDone); (vdeliver Off v, WDone)]
  | WStop => [(vstore CStopped v, WStopping)]
  | WStopping => [(vdeliver Off v, WStopped)]
  | WStopped => [(vconfigure false v, w)]
  | WDone => [(vstore CFault v, WFault)]
  end.

Definition wfinal (w : wphase) : bool :=
  match w with WArming | WEnabled | WRemask | WFault => false | _ => true end.

Definition wfirst (o : workloop_op) : wphase :=
  match o with
  | OpConfigure _ _ => WConfigure
  | OpStart => WStart
  | OpService => WService
  | OpStop => WStop
  end.

(** * The invariant of the phases *)

Definition is_on (d : delivery) : bool := match d with On => true | _ => false end.
Definition is_off (d : delivery) : bool := match d with Off => true | _ => false end.
(** The filter has not seen an armed controller. *)
Definition harmless (f : option fphase) : bool :=
  match f with None | Some FNew | Some FDone => true | _ => false end.
(** The workloop will still mask the hardware, or check whether it must. *)
Definition will_check (w : option wphase) : bool :=
  match w with Some WEnabled | Some WRemask => true | _ => false end.

Definition state_ok (v : view) (w : option wphase) (f : option fphase) : bool :=
  match vs v with
  | CStopped => true
  | CArmed =>
      (negb (is_off (vd v)) || match w with Some WArming => true | _ => false end) &&
      (harmless f || match f with Some FArmed => true | _ => false end) && vc v
  | CMasked | CWorkloop =>
      (is_off (vd v) || match f with Some FOwes => true | _ => false end || will_check w) && vc v
  | CFault =>
      negb (is_on (vd v)) || match f with Some FFault => true | _ => false end || will_check w ||
      match w with Some WFault | Some WArming => true | _ => false end
  end.

Definition phase_view_ok (v : view) (w : option wphase) (f : option fphase) : bool :=
  match w with
  | Some WStart => match vs v with CStopped => harmless f | _ => true end
  | Some WStartConfigured => vc v && match vs v with CStopped => harmless f | _ => true end
  | Some WStarting => vc v && match vs v with CStopped => harmless f | _ => false end
  | Some WService => match vs v with CArmed => false | _ => harmless f end
  | Some WServing => match vs v with CMasked | CWorkloop => harmless f | _ => false end
  | Some WArming | Some WEnabled => vc v
  | Some WRemask => vc v && match vs v with CArmed => false | _ => true end
  | Some WFault => match vs v with CFault => true | _ => false end
  | Some WConfiguring => match vs v with CStopped | CFault => true | _ => false end
  | Some WStopping => match vs v with CStopped | CFault => true | _ => false end
  | Some WStopped => match vs v with CStopped | CFault => negb (is_on (vd v)) | _ => false end
  | _ => true
  end.

Definition view_ok (v : view) (w : option wphase) (f : option fphase) : bool :=
  state_ok v w f && phase_view_ok v w f && (vc v || negb (is_on (vd v))).

(** ** All of them *)

Definition all_views : list view :=
  s ← [CStopped; CArmed; CMasked; CWorkloop; CFault]; d ← [Off; On; Lost]; c ← [false; true];
  [{| vs := s; vd := d; vc := c |}].
Definition all_f : list fphase := [FNew; FArmed; FOwes; FMasked; FFault; FDone].
Definition all_w : list wphase :=
  [WConfigure; WConfiguring; WStart; WStartConfigured; WService; WStarting; WServing; WArming; WEnabled; WRemask; WFault;
   WStop; WStopping; WStopped; WDone].

Lemma all_views_in v : In v all_views.
Proof. destruct v as [[] [] []]; cbn; tauto. Qed.
Lemma all_f_in f : In f all_f.
Proof. destruct f; cbn; tauto. Qed.
Lemma all_w_in w : In w all_w.
Proof. destruct w; cbn; tauto. Qed.
Lemma all_option_in {A} (l : list A) (x : option A) : (forall a, In a l) -> In x (None :: map Some l).
Proof. intros H. destruct x as [a|]; [|by left]. right. apply in_map, H. Qed.

Lemma forallb_in {A} (P : A -> bool) l x : forallb P l = true -> In x l -> P x = true.
Proof. rewrite forallb_forall. auto. Qed.

(** For all phases of the workloop, and for all or no phase of the filter. *)
Definition each_w (P : wphase -> view -> option fphase -> bool) : bool :=
  forallb (fun w => forallb (fun v => forallb (P w v) (None :: map Some all_f)) all_views) all_w.
Definition each_f (P : option wphase -> view -> fphase -> bool) : bool :=
  forallb (fun w => forallb (fun v => forallb (P w v) all_f) all_views) (None :: map Some all_w).

Lemma each_w_all P w v f : each_w P = true -> P w v f = true.
Proof.
  intros H. eapply forallb_in in H; [|apply (all_w_in w)]. eapply forallb_in in H; [|apply (all_views_in v)].
  eapply forallb_in in H; [exact H|]. apply all_option_in, all_f_in.
Qed.

Lemma each_f_all P w v f : each_f P = true -> P w v f = true.
Proof.
  intros H. eapply forallb_in in H; [|apply (all_option_in all_w w), all_w_in].
  eapply forallb_in in H; [|apply (all_views_in v)]. by eapply forallb_in in H; [|apply (all_f_in f)].
Qed.

(** A step of the workloop, and of the filter, from every state; threads that end and begin. *)
Definition w_steps w v f : bool :=
  implb (view_ok v (Some w) f) (forallb (fun x => view_ok x.1 (Some x.2) f) (wnexts w v)).
Definition f_steps w v f : bool :=
  implb (view_ok v w (Some f)) (forallb (fun x => view_ok x.1 w (Some x.2)) (fnexts f v)).
Definition w_ends w v f : bool := implb (view_ok v (Some w) f && wfinal w) (view_ok v None f).
Definition f_ends w v f : bool :=
  implb (view_ok v w None) (view_ok v w (Some FNew)) && implb (view_ok v w (Some f) && ffinal f) (view_ok v w None).

Lemma view_w_step w v f v' w' : view_ok v (Some w) f = true -> In (v', w') (wnexts w v) -> view_ok v' (Some w') f = true.
Proof.
  intros Hv Hin. assert (H : w_steps w v f = true) by (apply each_w_all; vm_compute; reflexivity).
  unfold w_steps in H. rewrite Hv in H. by apply (forallb_in _ _ (v', w')) in H.
Qed.

Lemma view_f_step w v f v' f' : view_ok v w (Some f) = true -> In (v', f') (fnexts f v) -> view_ok v' w (Some f') = true.
Proof.
  intros Hv Hin. assert (H : f_steps w v f = true) by (apply each_f_all; vm_compute; reflexivity).
  unfold f_steps in H. rewrite Hv in H. by apply (forallb_in _ _ (v', f')) in H.
Qed.

Lemma view_w_end w v f : view_ok v (Some w) f = true -> wfinal w = true -> view_ok v None f = true.
Proof.
  intros Hv Hw. assert (H : w_ends w v f = true) by (apply each_w_all; vm_compute; reflexivity).
  unfold w_ends in H. by rewrite Hv, Hw in H.
Qed.

Lemma f_ends_all w v f : f_ends w v f = true.
Proof. apply each_f_all. vm_compute. reflexivity. Qed.

Lemma view_f_new w v : view_ok v w None = true -> view_ok v w (Some FNew) = true.
Proof.
  intros Hv. pose proof (f_ends_all w v FDone) as H. unfold f_ends in H. rewrite Hv, andb_true_iff in H. apply H.
Qed.

Lemma view_f_end w v f : view_ok v w (Some f) = true -> ffinal f = true -> view_ok v w None = true.
Proof.
  intros Hv Hf. pose proof (f_ends_all w v f) as H. unfold f_ends in H. rewrite Hv, Hf, andb_true_iff in H. apply H.
Qed.

(** * The programs follow the phases *)

Definition steps {P} (nexts : P -> view -> list (view * P)) (s : P) m m' (s' : P) : Prop :=
  In (view_of m', s') (nexts s (view_of m)).

(** ** Actions *)

Lemma admitted_view m :
  let r := call_admitted m in
  view_of r.2 = view_of m \/ r.1 = false /\ view_of r.2 = vrefuse (view_of m).
Proof.
  unfold call_admitted, act, record. rewrite run_bind. cbn. destruct (op_admitted _) as [g|]; [|by right].
  rewrite run_bind. destruct (g _ _) as [[] w]; cbn; [by left|by right].
Qed.

Lemma refused_view m : (call_admitted m).1 = false -> view_of (call_admitted m).2 = vrefuse (view_of m).
Proof.
  unfold call_admitted, act, record. rewrite run_bind. cbn. destruct (op_admitted _) as [g|]; [|done].
  rewrite run_bind. by destruct (g _ _) as [[] w].
Qed.

(** A write is an attempt, or the adapter cannot write. *)
Lemma write_view reg x m :
  let r := call_write32 reg x m in
  view_of r.2 = view_of {| ctl := ctl m; world := world m; trace := EvWrite reg x r.1 :: trace m |} \/
  r.1 = false /\ view_of r.2 = vrefuse (view_of m).
Proof.
  unfold call_write32, act, record. rewrite run_bind. cbn. destruct (op_write32 _) as [g|]; [|by right].
  rewrite run_bind. destruct (g _ _) as [b w]; cbn. by left.
Qed.

Lemma master_view x r m :
  view_of {| ctl := ctl m; world := world m; trace := EvWrite tileMaster x r :: trace m |} =
  vdeliver (if test x masterEnable then On else Off) (view_of m).
Proof. done. Qed.

Section Actions.
Context {P : Type} (nexts : P -> view -> list (view * P)).
Context (Hstill : forall s v, In (v, s) (nexts s v) /\ In (vrefuse v, s) (nexts s v)).
Notation flw := (follows (steps nexts)).

(** An action that changes nothing of the view. *)
Lemma f_atomic {A} (F : A -> P -> Prop) s (c : ST (machine W) A) :
  (forall m, view_of (c m).2 = view_of m) -> (forall a, F a s) -> flw F s (atomic c).
Proof.
  intros Hc HF m. exists s. split; [|apply HF]. unfold steps. rewrite Hc. apply Hstill.
Qed.

Lemma f_read32 (F : bool * Z -> P -> Prop) s reg : (forall r, F r s) -> flw F s (atomic (call_read32 reg)).
Proof.
  apply f_atomic. intros m. unfold call_read32, act. rewrite run_bind. cbn. destruct (op_read32 _); [|done].
  rewrite run_bind. by destruct (p _ _) as [[] ?].
Qed.

Lemma f_now (F : Z -> P -> Prop) s : (forall r, F r s) -> flw F s (atomic call_nowMicros).
Proof.
  apply f_atomic. intros m. unfold call_nowMicros, act. rewrite run_bind. cbn. destruct (op_nowMicros _); [|done].
  rewrite run_bind. by destruct (p _).
Qed.

Lemma f_admitted (F : bool -> P -> Prop) s : (forall b, F b s) -> flw F s admitted.
Proof.
  intros HF m. exists s. split; [|apply HF]. unfold steps.
  destruct (admitted_view m) as [->|[_ ->]]; apply Hstill.
Qed.

Lemma f_read (F : bool * Z -> P -> Prop) s reg : (forall r, F r s) -> flw F s (read reg).
Proof.
  intros HF. apply follows_bind, f_admitted. intros []; cbn [negb]; [|apply HF].
  apply follows_bind, f_read32. intros r. apply HF.
Qed.

Lemma f_write (F : bool -> P -> Prop) s reg x :
  reg <> tileMaster -> (forall b, F b s) -> flw F s (write reg x).
Proof.
  intros Hr HF. apply follows_bind, f_admitted. intros []; cbn [negb]; [|apply HF].
  intros m. exists s. split; [|apply HF]. unfold steps.
  destruct (write_view reg x m) as [->|[_ ->]]; [|apply Hstill]. unfold view_of. cbn.
  rewrite (proj2 (Z.eqb_neq _ _)) by done. apply Hstill.
Qed.

(** A write of the tile master from phase [s]; the attempt leads to [s']. *)
Lemma f_master (F : bool -> P -> Prop) s s' x :
  (forall v, In (vdeliver (if test x masterEnable then On else Off) v, s') (nexts s v)) ->
  F false s -> (forall b, F b s') -> flw F s (write tileMaster x).
Proof.
  intros Hn H0 HF. apply follows_bind. intros m.
  exists s. split; [unfold steps; destruct (admitted_view m) as [->|[_ ->]]; apply Hstill|].
  destruct (call_admitted m).1; cbn [negb]; [|done].
  intros m'. destruct (write_view tileMaster x m') as [E|[Er E]].
  - exists s'. split; [unfold steps; rewrite E, master_view; apply Hn|apply HF].
  - exists s. split; [unfold steps; rewrite E; apply Hstill|]. change (F (call_write32 tileMaster x m').1 s). by rewrite Er.
Qed.

(** A refusal that leads to another phase. *)
Lemma f_admitted_or (F : bool -> P -> Prop) s s' :
  (forall v, In (vrefuse v, s') (nexts s v)) -> F true s -> F false s' -> flw F s admitted.
Proof.
  intros Hn Ht Hf m. destruct (call_admitted m).1 eqn:E.
  - exists s. split; [|exact Ht]. unfold steps.
    destruct (admitted_view m) as [->|[_ ->]]; apply Hstill.
  - exists s'. split; [unfold steps; rewrite refused_view by done; apply Hn|exact Hf].
Qed.

Lemma f_store (F : unit -> P -> Prop) s s' x :
  (forall v, In (vstore (cstate_of x) v, s') (nexts s v)) -> F tt s' -> flw F s (store_state x).
Proof. intros Hn HF m. exists s'. split; [exact (Hn (view_of m))|exact HF]. Qed.

(** A load whose value decides the next phase. *)
Lemma f_load (F : Z -> P -> Prop) s (s' : Z -> P) :
  (forall v x, vs v = cstate_of x -> In (v, s' x) (nexts s v)) -> (forall x, F x (s' x)) -> flw F s load_state.
Proof. intros Hn HF m. exists (s' (state_ (ctl m))). split; [by apply Hn|apply HF]. Qed.

Lemma f_get (F : Controller W -> P -> Prop) s (s' : bool -> P) :
  (forall v, In (v, s' (vc v)) (nexts s v)) -> (forall t, F t (s' (configured_ t))) -> flw F s get.
Proof. intros Hn HF m. exists (s' (configured_ (ctl m))). split; [apply (Hn (view_of m))|apply HF]. Qed.

(** [fail] from phase [s]. *)
Lemma f_fail (F : Status -> P -> Prop) s sf sd st :
  (forall v, In (vstore CFault v, sf) (nexts s v)) ->
  (forall v, In (vrefuse v, sd) (nexts sf v) /\ In (vdeliver Off v, sd) (nexts sf v)) ->
  F st sd -> flw F s (fail st).
Proof.
  intros Hs Hd HF. apply follows_bind, (f_store _ _ sf); [done|]. apply follows_bind.
  eapply (f_admitted_or _ _ sd); [apply Hd| |done]. apply follows_bind, follows_bind.
  eapply (f_admitted_or _ _ sd); [apply Hd| |done]. intros m'. exists sd. split; [|done]. unfold steps.
  destruct (write_view tileMaster 0 m') as [->|[_ ->]]; [rewrite master_view|]; apply Hd.
Qed.
End Actions.

(** ** Workloop *)

Notation flw := (follows (steps wnexts)).
Notation wends := (fun (_ : Status) w => wfinal w = true).

Lemma w_still w v : In (v, w) (wnexts w v) /\ In (vrefuse v, w) (wnexts w v).
Proof. cbn. auto. Qed.

Lemma f_still f v : In (v, f) (fnexts f v) /\ In (vrefuse v, f) (fnexts f v).
Proof. cbn. auto. Qed.

(** The phases in which the workloop may fail. *)
Definition may_fail (w : wphase) : bool :=
  match w with WConfiguring | WServing | WArming | WEnabled | WRemask | WDone => true | _ => false end.

Lemma w_fail (F : Status -> wphase -> Prop) w st : may_fail w = true -> F st WDone -> flw F w (fail st).
Proof.
  intros Hw HF. apply (f_fail wnexts w_still F w WFault WDone); [|intros v; cbn; tauto|done].
  intros v. destruct w; try done; cbn; tauto.
Qed.

Lemma w_atomic {A} (F : A -> wphase -> Prop) w (c : ST (machine W) A) :
  (forall m, view_of (c m).2 = view_of m) -> (forall a, F a w) -> flw F w (atomic c).
Proof. apply f_atomic, w_still. Qed.

#[local] Ltac w_fails := cbv beta; cbn [negb fst snd]; apply w_fail; done.

Lemma rearm_follows w : w = WStarting \/ w = WServing -> flw wends w rearm.
Proof.
  intros Hw. apply follows_bind, (f_store _ _ _ WArming); [destruct Hw as [-> | ->]; cbn; auto 10|].
  apply follows_bind, (f_master _ w_still _ _ WEnabled); [cbn; auto|w_fails|].
  intros [|]; cbn [negb]; [|w_fails].
  apply follows_bind, (f_load _ _ _ (fun x => if x =? Armed then WDone else WRemask)).
  { intros v x E. cbn. rewrite E. destruct (Z.eqb_spec x Armed) as [->|Hx]; [cbn; auto|].
    unfold cstate_of. rewrite (proj2 (Z.eqb_neq _ _) Hx).
    destruct (x =? Stopped), (x =? Masked), (x =? Workloop); cbn; auto. }
  intros x. destruct (x =? Armed); [done|].
  apply follows_bind, (f_master _ w_still _ _ WDone); [cbn; auto|w_fails|].
  intros [|]; [done|w_fails].
Qed.

Lemma w_get (F : Controller W -> wphase -> Prop) w : (forall t, F t w) -> flw F w get.
Proof. by apply w_atomic. Qed.

Lemma start_follows : flw wends WStart start.
Proof.
  apply follows_bind, (f_get _ _ _ (fun b => if b then WStartConfigured else WDone)).
  { intros [? ? []]; cbn; auto. }
  intros t. destruct (configured_ t); cbn [negb]; [|done].
  apply follows_bind, (f_load _ _ _ (fun x => if x =? Stopped then WStarting else WDone)).
  { intros v x Ex. cbn. rewrite Ex. unfold cstate_of. destruct (x =? Stopped); cbn; auto. }
  intros x. destruct (x =? Stopped); cbn [negb]; [|done]. apply follows_bind, f_admitted; [apply w_still|].
  intros []; [|done]. apply rearm_follows. auto.
Qed.

Lemma update_follows (F : bool -> wphase -> Prop) w reg mask bits :
  reg <> tileMaster -> (forall b, F b w) -> flw F w (update reg mask bits).
Proof.
  intros Hr HF. apply follows_bind, f_admitted; [apply w_still|]. intros []; [|apply HF].
  apply follows_bind, f_read32; [apply w_still|]. intros [[] x]; [|apply HF].
  apply f_write; [apply w_still|done..].
Qed.

Lemma update_all_follows (F : bool -> wphase -> Prop) w l :
  Forall (fun x => x.1.1 <> tileMaster) l -> (forall b, F b w) -> flw F w (update_all l).
Proof.
  intros Hl HF. induction Hl as [|[[reg mask] bits] l Hr _ IH]; cbn [update_all]; [apply HF|].
  apply follows_bind, update_follows; [done|]. intros []; [done|apply HF].
Qed.

Lemma configure_follows c o : flw wends WConfigure (configure c o).
Proof.
  apply follows_bind, (f_get _ _ _ (fun b => if b then WDone else WConfiguring)).
  { intros [? ? []]; cbn; auto. }
  intros t. destruct (configured_ t); cbn [orb]; [done|]. destruct (_ || _); [done|].
  apply follows_bind, w_atomic; [done|]. intros _.
  apply follows_bind, f_admitted; [apply w_still|]. intros []; [|done]. cbn [negb].
  apply follows_bind. intros m'. exists WConfiguring. split; [cbn; auto|].
  apply follows_bind, (f_master _ w_still _ _ WConfiguring); [cbn; auto|w_fails|].
  intros []; [|w_fails]. cbn [negb]. apply follows_bind, f_read; [apply w_still|]. intros r.
  destruct (_ || _); [w_fails|]. apply follows_bind, update_all_follows; [by repeat constructor|].
  intros []; [|w_fails]. cbn [negb]. apply follows_bind, f_admitted; [apply w_still|]. intros []; [|w_fails].
  apply follows_bind, f_read32; [apply w_still|]. intros [[] x]; [done|w_fails].
Qed.

Lemma stop_follows : flw wends WStop stop.
Proof.
  apply follows_bind, (f_store _ _ _ WStopping); [cbn; auto|]. apply follows_bind, w_get. intros t.
  destruct (configured_ t); [|done]. cbn [negb]. apply follows_bind, f_admitted; [apply w_still|].
  intros []; [|done]. cbn [negb]. apply follows_bind, (f_master _ w_still _ _ WStopped); [cbn; auto|done|].
  intros []; [|done]. cbn [negb]. apply follows_bind, f_read; [apply w_still|]. intros r. destruct (_ || _); [done|].
  apply follows_bind. intros m. exists WStopped. split; [cbn; auto|done].
Qed.

(** A part of [service] that goes on, or returns with an error. *)
Definition served (r : option Status) (w : wphase) : Prop :=
  match r with None => w = WServing | Some s => s <> Ok /\ wfinal w = true end.

Lemma served_fail st : st <> Ok -> flw served WServing (s <~ fail st ;; Ret (Some s))%prog.
Proof. intros Hs. apply follows_bind. by apply w_fail. Qed.

Lemma poll_follows (F : polled -> wphase -> Prop) w n reg x : (forall r, F r w) -> flw F w (poll n reg x).
Proof.
  intros HF. induction n as [|n IH]; cbn [poll]; [apply HF|].
  apply follows_bind, f_read; [apply w_still|]. intros [[] v]; cbn [negb fst]; [|apply HF].
  destruct (test _ _); [apply HF|]. apply follows_bind, f_now; [apply w_still|]. intros t.
  destruct (_ || _); [apply HF|exact IH].
Qed.

Lemma bank_registers b : b = 0 \/ b = 1 ->
  bankStatus + b * 4 <> tileMaster /\ identityRegister + b * 4 <> tileMaster /\ selectorRegister + b * 4 <> tileMaster.
Proof. by intros [-> | ->]. Qed.

Lemma collect_bit_follows b dw i : b = 0 \/ b = 1 -> flw served WServing (collect_bit b dw i).
Proof.
  intros Hb. pose proof (bank_registers b Hb) as (_ & Hi & Hs). unfold collect_bit.
  destruct (negb _); [done|]. apply follows_bind, f_write; [apply w_still|done|].
  intros []; cbn [negb]; [|by apply served_fail]. apply follows_bind, f_now; [apply w_still|]. intros t.
  apply follows_bind, poll_follows. intros [|v|]; [by apply served_fail| |by apply served_fail].
  apply follows_bind, f_write; [apply w_still|done|]. intros []; cbn [negb]; [|by apply served_fail].
  apply follows_bind, w_atomic; [|done]. intros m. unfold push_event. rewrite run_bind. by destruct (Nat.ltb _ _).
Qed.

Lemma collect_bits_follows b dw l : b = 0 \/ b = 1 -> flw served WServing (collect_bits b dw l).
Proof.
  intros Hb. induction l as [|i l IH]; cbn [collect_bits]; [done|].
  apply follows_bind. eapply follows_mono; [by apply collect_bit_follows|]. intros [s|] w; [done|].
  by intros ->.
Qed.

Lemma collect_bank_follows master b : b = 0 \/ b = 1 -> flw served WServing (collect_bank master b).
Proof.
  intros Hb. pose proof (bank_registers b Hb) as (Hr & _). unfold collect_bank. destruct (negb _); [done|].
  apply follows_bind, f_read; [apply w_still|]. intros [[] dw]; cbn [negb fst]; [|by apply served_fail].
  apply follows_bind. eapply follows_mono; [by apply collect_bits_follows|]. intros [s|] w; [done|].
  intros ->. apply follows_bind, f_write; [apply w_still|done|]. intros []; [done|by apply served_fail].
Qed.

Lemma collect_follows : flw (fun s w => served (if bool_decide (s = Ok) then None else Some s) w) WServing collect.
Proof.
  assert (Hf : forall st, st <> Ok ->
    flw (fun s w => served (if bool_decide (s = Ok) then None else Some s) w) WServing (fail st)).
  { intros st Hs. apply w_fail; [done|]. by rewrite bool_decide_false. }
  apply follows_bind, f_read; [apply w_still|]. intros tile. destruct (_ || _); [by apply Hf|].
  destruct (test _ _); [by apply Hf|]. destruct (negb _).
  { apply follows_bind, w_atomic; [done|]. intros _. apply follows_bind, w_atomic; [done|]. done. }
  apply follows_bind, (f_master _ w_still _ _ WServing).
  { intros v. assert (test (Z.land tile.2 (Z.lnot masterEnable)) masterEnable = false) as ->; [|cbn; auto].
    unfold test. rewrite <- Z.land_assoc. change (Z.land (Z.lnot masterEnable) masterEnable) with 0.
    by rewrite Z.land_0_r. }
  { by apply Hf. }
  intros []; [|by apply Hf]. apply follows_bind, f_read; [apply w_still|]. intros [[] x]; [|by apply Hf]. cbn [negb fst snd].
  apply follows_bind, f_write; [apply w_still|done|]. intros []; [|by apply Hf]. cbn [negb].
  apply follows_bind, w_atomic; [done|]. intros _.
  apply follows_bind. eapply follows_mono; [apply collect_bank_follows; auto|]. intros [s|] w.
  { intros [? ?]. cbn. by rewrite bool_decide_false. }
  intros ->. apply follows_bind. eapply follows_mono; [apply collect_bank_follows; auto|]. intros [s|] w.
  { intros [? ?]. cbn. by rewrite bool_decide_false. }
  intros ->. apply follows_bind, w_atomic; [done|]. done.
Qed.

Lemma deliver_follows n : flw served WServing (deliver n).
Proof.
  induction n as [|n IH]; cbn [deliver]; [done|]. apply follows_bind, w_get. intros t. destruct (negb _); [done|].
  apply follows_bind, f_admitted; [apply w_still|]. intros []; [|by apply served_fail]. cbn [negb].
  apply follows_bind, w_atomic.
  { intros m. unfold call_identity, act. rewrite run_bind. cbn. destruct (op_identity _) as [g|]; [|done].
    rewrite run_bind. by destruct (g _ _). }
  intros []; [|done|by apply served_fail]. apply follows_bind, w_atomic; [done|]. intros _. exact IH.
Qed.

Lemma deliver_other_follows : flw served WServing deliver_other.
Proof.
  apply follows_bind, w_get. intros t. destruct (_ =? _); [done|].
  apply follows_bind, f_admitted; [apply w_still|]. intros []; [|by apply served_fail]. cbn [negb].
  apply follows_bind, w_atomic.
  { intros m. unfold call_otherMaster, act. rewrite run_bind. cbn. destruct (op_otherMaster _) as [g|]; [|done].
    by destruct (g _ _). }
  intros []; [|done|by apply served_fail]. by apply follows_bind, w_atomic.
Qed.

Lemma service_follows : flw wends WService service.
Proof.
  apply follows_bind, (f_load _ _ _ (fun x => if (x =? Masked) || (x =? Workloop) then WServing else WDone)).
  { intros v x E. cbn. rewrite E. unfold cstate_of. destruct (Z.eqb_spec x Masked) as [->|H1]; [cbn; auto|].
    destruct (Z.eqb_spec x Workloop) as [->|H2]; cbn; auto. }
  intros x. destruct (Z.eqb_spec x Fault) as [->|_]; [done|]. destruct (x =? Masked) eqn:E1, (x =? Workloop) eqn:E2; try done.
  all: cbn [orb andb negb]; apply follows_bind, f_admitted; [apply w_still|]; intros []; [|w_fails]; cbn [negb];
    apply follows_bind, (f_store _ _ _ WServing); [cbn; auto|]; apply follows_bind, w_get; intros t;
    apply follows_bind, (follows_mono _ (fun s w => served (if bool_decide (s = Ok) then None else Some s) w));
    [destruct (batchReady_ t); [done|apply collect_follows]|]; intros s w;
    destruct (bool_decide_reflect (s = Ok)) as [->|Hs]; [|rewrite bool_decide_true by done; by intros [_ ?]];
    rewrite bool_decide_false by (by intros []); intros ->; apply follows_bind, w_get; intros t';
    apply follows_bind; (eapply follows_mono; [apply deliver_follows|]); intros [s|] w'; [by intros [_ ?]|]; intros ->;
    apply follows_bind; (eapply follows_mono; [apply deliver_other_follows|]); intros [s|] w'; [by intros [_ ?]|]; intros ->;
    apply follows_bind, w_atomic; [done|]; intros _; apply rearm_follows; auto.
Qed.

Lemma op_follows o : flw wends (wfirst o) (run_op o).
Proof.
  destruct o; [apply configure_follows|apply start_follows|apply service_follows|apply stop_follows].
Qed.

Lemma filter_follows : follows (steps fnexts) (fun _ f => ffinal f = true) FNew filter.
Proof.
  apply follows_bind, (f_load _ _ _ (fun x => if x =? Armed then FArmed else FDone)).
  { intros v x E. cbn. rewrite E. unfold cstate_of. destruct (Z.eqb_spec x Armed) as [->|H1]; [cbn; auto|].
    destruct (x =? Stopped), (x =? Masked), (x =? Workloop); cbn; auto. }
  intros x. destruct (x =? Armed); [|done]. cbn [negb].
  assert (Hf : forall f, f = FArmed \/ f = FOwes \/ f = FMasked ->
    follows (steps fnexts) (fun _ f => ffinal f = true) f (fail IoFailure ;;~ Ret true)%prog).
  { intros f Hf. apply follows_bind, (f_fail _ f_still _ _ FFault FDone); [|intros v; cbn; tauto|done].
    intros v. destruct Hf as [->|[-> | ->]]; cbn; auto. }
  apply follows_bind, f_admitted; [apply f_still|]. intros []; [|done]. cbn [negb].
  apply follows_bind, f_read; [apply f_still|]. intros [[] lv]; cbn [negb fst snd]; [|by apply Hf; auto].
  destruct (negb _); [done|]. apply follows_bind. intros m. unfold cas_state.
  destruct (Z.eqb_spec (state_ (ctl m)) Armed) as [E|E].
  - exists FOwes. rewrite run_bind. unfold gets, fst, snd. rewrite (proj2 (Z.eqb_eq _ _) E).
    split; [unfold steps, view_of; cbn; rewrite E; cbn; auto|]. cbn [fst negb].
    apply follows_bind, (f_master _ f_still _ _ FMasked); [cbn; auto|apply Hf; auto|].
    intros []; [done|apply Hf; auto].
  - exists FArmed. rewrite run_bind. unfold gets, fst, snd. rewrite (proj2 (Z.eqb_neq _ _) E). split; [cbn; auto|done].
Qed.

(** * Every interleaving *)

(** The threads are in phases that what is left of them follows. *)
Definition phases_ok (c : threads) : Prop := exists w f,
  view_ok (view_of (mach c)) w f = true /\
  match wl c with None => w = None | Some p => exists w', w = Some w' /\ flw wends w' p end /\
  match irq c with
  | None => f = None
  | Some p => exists f', f = Some f' /\ follows (steps fnexts) (fun _ f => ffinal f = true) f' p
  end.

(** An operation begins. *)
Lemma view_call o c : may_call o c -> forall f, (irq c = None -> f = None) ->
  view_ok (view_of (mach c)) None f = true -> view_ok (view_of (mach c)) (Some (wfirst o)) f = true.
Proof.
  intros Hc f Hf. unfold view_ok. rewrite !andb_true_iff. intros [[Hs _] Hu].
  destruct o; cbn [wfirst may_call] in *.
  1, 2: rewrite (Hf Hc) in *; destruct (view_of (mach c)) as [[] [] []]; done.
  2: destruct (view_of (mach c)) as [[] [] []]; done.
  destruct Hc as [Hi Ha]. rewrite (Hf Hi) in *. unfold view_of, cstate_of in *.
  rewrite (proj2 (Z.eqb_neq _ _) Ha) in *. cbn in *.
  destruct (_ =? Stopped); [|destruct (_ =? Masked); [|destruct (_ =? Workloop)]];
    destruct (delivery_of _), (configured_ _); done.
Qed.

Lemma thread_step_ok c c' : phases_ok c -> thread_step c c' -> phases_ok c'.
Proof.
  intros (w & f & Hv & Hw & Hf) Hs. destruct Hs as [o E Hc|B a k E|s E|E|B a k E|b E|x].
  - rewrite E in Hw. subst w. exists (Some (wfirst o)), f. cbn. split_and!; [|by eexists; split; [|apply op_follows]|done].
    apply view_call; [done| |done]. intros Ei. by rewrite Ei in Hf.
  - rewrite E in Hw. destruct Hw as (w' & -> & Hp). destruct (Hp (mach c)) as (w2 & Ht & Hk).
    exists (Some w2), f. cbn. split_and!; [by eapply view_w_step|by eexists|done].
  - rewrite E in Hw. destruct Hw as (w' & -> & Hp). exists None, f. split_and!; [by eapply view_w_end|done..].
  - rewrite E in Hf. subst f. exists w, (Some FNew). split_and!; [by apply view_f_new|done|].
    eexists. split; [done|apply filter_follows].
  - rewrite E in Hf. destruct Hf as (f' & -> & Hp). destruct (Hp (mach c)) as (f2 & Ht & Hk).
    exists w, (Some f2). cbn. split_and!; [by eapply view_f_step|done|by eexists].
  - rewrite E in Hf. destruct Hf as (f' & -> & Hp). exists w, None. split_and!; [by eapply view_f_end|done..].
  - by exists w, f.
Qed.

Lemma reachable_phases c : threads_reachable c -> phases_ok c.
Proof.
  induction 1 as [w|c c' _ IH Hs]; [|by eapply thread_step_ok]. exists None, None. by vm_compute.
Qed.
End Mask.
