(* ===== verification/XeInterruptBatch.v ===== *)
(** What the interrupt controller does with a batch of identities: each one that it acknowledges
    is handled once and in order before delivery is enabled again. *)
From stdpp Require Import base numbers list.
From S2P Require Import Prelude.
From S2P Require Import Interleave.
From S2P Require Import XeInterrupt.
From S2P Require Import XeInterruptMask.
Import XeInterrupt.

(** * Acknowledged and handled identities *)

Definition identity_bank (reg : Z) : option Z :=
  if reg =? identityRegister then Some 0 else if reg =? identityRegister + 4 then Some 1 else None.

(** Since the batch began: bank and value of the identities acknowledged, and of those that the
    handler has drained. *)
Fixpoint acks (tr : list event) : list (Z * Z) :=
  match tr with
  | [] | EvBatch :: _ => []
  | EvWrite reg v true :: tr =>
      match identity_bank reg with Some b => acks tr ++ [(b, v)] | None => acks tr end
  | _ :: tr => acks tr
  end.

Definition key (id : Identity) : Z * Z := (bank id, raw id).

Fixpoint drains (tr : list event) : list (Z * Z) :=
  match tr with
  | [] | EvBatch :: _ => []
  | EvHandled id Drained :: tr => drains tr ++ [key id]
  | _ :: tr => drains tr
  end.

(** [stop] has been called since the batch began. *)
Fixpoint stopped (tr : list event) : bool :=
  match tr with
  | [] | EvBatch :: _ => false
  | EvStop :: _ => true
  | _ :: tr => stopped tr
  end.

(** Every identity acknowledged has been drained, once and in order, or [stop] gave the batch up. *)
Definition settled (tr : list event) : Prop := acks tr = drains tr \/ stopped tr = true.

Definition enables (reg v : Z) : bool := (reg =? tileMaster) && test v masterEnable.

(** Delivery is enabled, and a new batch begun, only when the batch before is settled. *)
Fixpoint orderly (tr : list event) : Prop :=
  match tr with
  | [] => True
  | EvBatch :: tr => settled tr /\ orderly tr
  | EvWrite reg v _ :: tr => (enables reg v = true -> settled tr) /\ orderly tr
  | EvOverflow :: _ => False
  | _ :: tr => orderly tr
  end.

(** The events that matter here. *)
Definition is_log (ev : event) : bool :=
  match ev with
  | EvRefused => false
  | EvWrite reg v ok => bool_decide (identity_bank reg <> None) && ok || enables reg v
  | _ => true
  end.
Definition log (tr : list event) : list event := List.filter is_log tr.

Lemma identity_other reg v : enables reg v = true -> identity_bank reg = None.
Proof. unfold enables. intros [->%Z.eqb_eq _]%andb_true_iff. done. Qed.

(** A write that is not logged. *)
Lemma unlogged reg v ok : is_log (EvWrite reg v ok) = false -> (identity_bank reg = None \/ ok = false) /\ enables reg v = false.
Proof.
  cbn. intros [H ->]%orb_false_iff. split; [|done]. apply andb_false_iff in H as [H|H]; [left|by right].
  apply bool_decide_eq_false in H. by destruct (identity_bank reg); [destruct H|].
Qed.

Lemma acks_log tr : acks (log tr) = acks tr.
Proof.
  unfold log. induction tr as [|ev tr IH]; [done|]. cbn [List.filter]. destruct (is_log ev) eqn:E.
  - destruct ev as [|reg v []|id h| | |]; cbn; rewrite ?IH; done.
  - destruct ev as [|reg v ok|id h| | |]; try done. apply unlogged in E as [[E| ->] _]; cbn; rewrite ?E; [by destruct ok|done].
Qed.

Lemma drains_log tr : drains (log tr) = drains tr.
Proof.
  unfold log. induction tr as [|ev tr IH]; [done|]. cbn [List.filter]. destruct (is_log ev) eqn:E.
  - destruct ev as [|reg v []|id []| | |]; cbn; rewrite ?IH; done.
  - by destruct ev.
Qed.

Lemma stopped_log tr : stopped (log tr) = stopped tr.
Proof.
  unfold log. induction tr as [|ev tr IH]; [done|]. cbn [List.filter]. destruct (is_log ev) eqn:E.
  - destruct ev as [|reg v []|id []| | |]; cbn; rewrite ?IH; done.
  - by destruct ev.
Qed.

Lemma settled_log tr : settled (log tr) <-> settled tr.
Proof. unfold settled. by rewrite acks_log, drains_log, stopped_log. Qed.

Lemma orderly_log tr : orderly (log tr) <-> orderly tr.
Proof.
  induction tr as [|ev tr IH]; [done|]. unfold log. cbn [List.filter]. fold (log tr). destruct (is_log ev) eqn:E.
  - destruct ev as [|reg v ok|id h| | |]; cbn [orderly]; rewrite ?settled_log, ?IH; done.
  - destruct ev as [|reg v ok|id h| | |]; try done. apply unlogged in E as [_ E]. cbn [orderly]. rewrite E, IH. naive_solver.
Qed.

Section Batch.
Context {W : Type}.
Implicit Types (m : machine W).
Notation program := (prog (machine W)).

(** * What only the workloop touches *)

Definition pv m : (list Identity * nat * nat) * bool * list event :=
  (events_ (ctl m), eventCount_ (ctl m), nextEvent_ (ctl m), batchReady_ (ctl m), log (trace m)).

(** The filter can mask an armed controller or fault it. *)
Definition moved (x y : Z) : Prop := y = x \/ y = Fault \/ x = Armed /\ y = Masked.
Definition same_pv m m' : Prop := pv m' = pv m /\ moved (state_ (ctl m)) (state_ (ctl m')).

Lemma moved_refl x : moved x x.
Proof. by left. Qed.

#[local] Instance same_pv_preorder : PreOrder same_pv.
Proof.
  split; unfold same_pv, moved; [intros m; split; [done|by left]|]. intros m1 m2 m3 [E1 H1] [E2 H2]. split; [by rewrite E2|].
  unfold Armed, Masked, Fault in *. lia.
Qed.

Definition safe m : Prop := orderly (trace m).

Lemma safe_pv m m' : safe m -> pv m' = pv m -> safe m'.
Proof. unfold safe. intros Hs E. apply (f_equal snd) in E. cbn in E. rewrite <- orderly_log, E, orderly_log. exact Hs. Qed.

Lemma safe_same m m' : safe m -> same_pv m m' -> safe m'.
Proof. intros Hs [E _]. by eapply safe_pv. Qed.

(** ** Programs that leave it alone *)

Definition quiet {A} (p : program A) : Prop :=
  follows (fun (_ : unit) m m' _ => same_pv m m') (fun _ _ => True) tt p.

Lemma quiet_ret {A} (a : A) : quiet (Ret a).
Proof. done. Qed.

Lemma program_quiet_bind {A B} (p : program A) (f : A -> program B) : quiet p -> (forall a, quiet (f a)) -> quiet (pbind p f).
Proof. intros Hp Hf. apply follows_bind. eapply follows_mono; [exact Hp|]. intros a [] _. apply Hf. Qed.

Lemma quiet_moves {A} (c : ST (machine W) A) : (forall m, same_pv m (c m).2) -> quiet (atomic c).
Proof. intros H m. exists tt. split; [apply H|done]. Qed.

Lemma quiet_atomic {A} (c : ST (machine W) A) :
  (forall m, pv (c m).2 = pv m /\ state_ (ctl (c m).2) = state_ (ctl m)) -> quiet (atomic c).
Proof. intros H. apply quiet_moves. intros m. destruct (H m). split; [done|by left]. Qed.

Lemma quiet_admitted : quiet admitted.
Proof.
  apply quiet_atomic. intros m. unfold call_admitted, act, record. rewrite run_bind. cbn.
  destruct (op_admitted _) as [g|]; [|done]. rewrite run_bind. by destruct (g _ _) as [[] w].
Qed.

Lemma quiet_read32 reg : quiet (atomic (call_read32 reg)).
Proof.
  apply quiet_atomic. intros m. unfold call_read32, act. rewrite run_bind. cbn.
  destruct (op_read32 _) as [g|]; [|done]. rewrite run_bind. by destruct (g _ _) as [[] ?].
Qed.

Lemma quiet_now : quiet (atomic call_nowMicros).
Proof.
  apply quiet_atomic. intros m. unfold call_nowMicros, act. rewrite run_bind. cbn.
  destruct (op_nowMicros _) as [g|]; [|done]. rewrite run_bind. by destruct (g _).
Qed.

Lemma quiet_other bits : quiet (atomic (call_otherMaster bits)).
Proof.
  apply quiet_atomic. intros m. unfold call_otherMaster, act. rewrite run_bind. cbn.
  destruct (op_otherMaster _) as [g|]; [|done]. by destruct (g _ _).
Qed.

(** A write that neither acknowledges an identity nor enables delivery. *)
Definition plain (reg x : Z) : Prop := identity_bank reg = None /\ enables reg x = false.

Lemma quiet_write32 reg x : plain reg x -> quiet (atomic (call_write32 reg x)).
Proof.
  intros [Hr He]. apply quiet_atomic. intros m. unfold call_write32, act, record. rewrite run_bind. cbn.
  destruct (op_write32 _) as [g|]; [|done]. rewrite run_bind. destruct (g _ _) as [b w]. cbn.
  split; [|done]. unfold pv, log. cbn. by rewrite Hr, He.
Qed.

Lemma quiet_get : quiet get.
Proof. by apply quiet_atomic. Qed.

Lemma quiet_load : quiet load_state.
Proof. by apply quiet_atomic. Qed.

Lemma quiet_store : quiet (store_state Fault).
Proof. apply quiet_moves. intros m. split; [done|]. right. by left. Qed.

Create HintDb quiet.
#[local] Hint Resolve quiet_ret quiet_admitted quiet_read32 quiet_now quiet_other quiet_get quiet_load quiet_store
  : quiet.

(** Taking a program apart. *)
#[local] Ltac quiet_step :=
  lazymatch goal with
  | |- forall _, _ => intros ?
  | |- quiet (pbind _ _) => apply program_quiet_bind
  | |- quiet (if ?b then _ else _) => destruct b
  | |- quiet (match ?x with _ => _ end) => destruct x
  | |- quiet (set _) => by apply quiet_atomic
  | |- quiet _ => by auto with quiet
  end.
#[local] Ltac quiet_steps := repeat quiet_step.

Lemma quiet_read reg : quiet (read reg).
Proof. unfold read. quiet_steps. Qed.

Lemma quiet_write reg x : plain reg x -> quiet (write reg x).
Proof. intros Hr. unfold write. apply program_quiet_bind; [quiet_steps|]. intros []; cbn [negb]; [by apply quiet_write32|quiet_steps]. Qed.

Lemma quiet_master x : test x masterEnable = false -> quiet (write tileMaster x).
Proof. intros Hx. apply quiet_write. split; [done|]. exact Hx. Qed.

Lemma quiet_mask : quiet (write tileMaster 0).
Proof. by apply quiet_master. Qed.

#[local] Hint Resolve quiet_read quiet_mask : quiet.

Lemma quiet_fail st : quiet (fail st).
Proof. unfold fail. quiet_steps. Qed.

#[local] Hint Resolve quiet_fail : quiet.

Lemma quiet_update reg mask bits : identity_bank reg = None -> reg <> tileMaster -> quiet (update reg mask bits).
Proof.
  intros Hr Ht. unfold update. quiet_steps. apply quiet_write. split; [done|]. unfold enables. by rewrite (proj2 (Z.eqb_neq _ _)).
Qed.

Lemma quiet_update_all l : Forall (fun x => identity_bank x.1.1 = None /\ x.1.1 <> tileMaster) l -> quiet (update_all l).
Proof.
  intros Hl. induction Hl as [|[[reg mask] bits] l [Hr Ht] _ IH]; cbn [update_all]; [quiet_steps|].
  apply program_quiet_bind; [by apply quiet_update|]. by intros [].
Qed.

Lemma quiet_setup c : quiet (update_all (setup c)).
Proof. apply quiet_update_all. by repeat constructor. Qed.

#[local] Hint Resolve quiet_setup : quiet.

Lemma quiet_configure c o : quiet (configure c o).
Proof. unfold configure. quiet_steps. Qed.

Lemma quiet_deliver_other : quiet deliver_other.
Proof. unfold deliver_other. quiet_steps. Qed.

Lemma quiet_poll n reg x : quiet (poll n reg x).
Proof. induction n as [|n IH]; cbn [poll]; quiet_steps. Qed.

Lemma quiet_cas : quiet (cas_state Armed Masked).
Proof.
  apply quiet_moves. intros m. rewrite run_bind. cbn. destruct (state_ (ctl m) =? Armed) eqn:E; (split; [done|]); [|by left].
  apply Z.eqb_eq in E. right. by right.
Qed.

#[local] Hint Resolve quiet_cas : quiet.

Lemma quiet_filter : quiet filter.
Proof. unfold filter. quiet_steps. Qed.

(** * Assertions *)

Notation rwp := (rely_wp same_pv safe).

Lemma r_quiet {A} (Q : A -> machine W -> Prop) (p : program A) m :
  quiet p -> safe m -> (forall a m', same_pv m m' -> Q a m') -> rwp Q p m.
Proof.
  revert m. induction p as [a|B c k IH]; intros m Hp Hs HQ; cbn; [by apply HQ|].
  intros m1 H1. destruct (Hp m1) as ([] & H2 & Hk). assert (H3 : same_pv m (c m1).2) by (by etrans).
  split; [by eapply safe_same|]. apply IH; [exact Hk|by eapply safe_same|]. intros a m2 H4. apply HQ. by etrans.
Qed.

Lemma r_bind {A B} (Q : B -> machine W -> Prop) (p : program A) (f : A -> program B) m :
  rwp (fun a => rwp Q (f a)) p m -> rwp Q (pbind p f) m.
Proof. apply rely_bind. Qed.

Lemma r_atomic {A} (Q : A -> machine W -> Prop) (c : ST (machine W) A) m :
  (forall m', same_pv m m' -> safe (c m').2 /\ Q (c m').1 (c m').2) -> rwp Q (atomic c) m.
Proof. done. Qed.

(** A quiet program keeps what does not depend on more than [same_pv]. *)
Lemma r_stable {A} (P : machine W -> Prop) (Q : A -> machine W -> Prop) (p : program A) m :
  quiet p -> (forall m m', P m -> same_pv m m' -> P m') -> (forall m, P m -> safe m) -> P m ->
  (forall x m', P m' -> Q x m') -> rwp Q p m.
Proof. intros Hp Hst Hsf Hm HQ. apply r_quiet; [done|by apply Hsf|]. intros x m' H. by eapply HQ, Hst. Qed.

(** The fields of the batch, and what [log] says of it; with [u] the state is not [Stopped]. *)
Record batch m (ids : list Identity) (count next : nat) (ready : bool) (a d : list (Z * Z)) (z u : bool) : Prop := {
  bt_pv : exists l, pv m = (ids, count, next, ready, l) /\ orderly l /\ acks l = a /\ drains l = d /\ stopped l = z;
  bt_on : u = true -> state_ (ctl m) <> Stopped;
}.

Lemma moved_on x y : x <> Stopped -> moved x y -> y <> Stopped.
Proof. unfold moved, Stopped, Fault, Masked. lia. Qed.

Lemma batch_same m m' ids n k r a d z u : batch m ids n k r a d z u -> same_pv m m' -> batch m' ids n k r a d z u.
Proof.
  intros [(l & E & H) Hu] [E' Hm]. split; [exists l; by rewrite E'|]. intros Eu. eapply moved_on; [by apply Hu|done].
Qed.

Lemma batch_safe m ids n k r a d z u : batch m ids n k r a d z u -> safe m.
Proof. intros [(l & E & H & _) _]. unfold safe. rewrite <- orderly_log. by injection E as _ _ _ _ ->. Qed.

Lemma batch_weaken m ids n k r a d z u : batch m ids n k r a d z u -> batch m ids n k r a d z false.
Proof. intros [H _]. by split. Qed.

(** A quiet program keeps the batch. *)
Lemma r_keep {A} (Q : A -> machine W -> Prop) (p : program A) m ids n k r a d z u :
  quiet p -> batch m ids n k r a d z u -> (forall x m', batch m' ids n k r a d z u -> Q x m') -> rwp Q p m.
Proof.
  intros Hp Hb. apply (r_stable (fun m => batch m ids n k r a d z u)); [done| | |done].
  - intros ? ? ? ?. by eapply batch_same.
  - intros ? ?. by eapply batch_safe.
Qed.

Lemma batch_fields m ids n k r a d z u : batch m ids n k r a d z u ->
  events_ (ctl m) = ids /\ eventCount_ (ctl m) = n /\ nextEvent_ (ctl m) = k /\ batchReady_ (ctl m) = r.
Proof. intros [(l & E & _) _]. by injection E. Qed.

Lemma r_get (Q : Controller W -> machine W -> Prop) m ids n k r a d z u :
  batch m ids n k r a d z u ->
  (forall t m', batch m' ids n k r a d z u -> events_ t = ids -> eventCount_ t = n -> nextEvent_ t = k ->
    batchReady_ t = r -> Q t m') -> rwp Q get m.
Proof.
  intros Hb HQ. apply r_atomic. intros m' Hs. pose proof (batch_same _ _ _ _ _ _ _ _ _ _ Hb Hs) as Hb'.
  split; [by eapply batch_safe|]. destruct (batch_fields _ _ _ _ _ _ _ _ _ Hb') as (? & ? & ? & ?). by apply HQ.
Qed.

(** * Batches *)

(** The array is sound, and a batch that is ready has as its rest what was acknowledged and not
    drained; [G] is what else is known. *)
Definition sound (G : bool -> list (Z * Z) -> list (Z * Z) -> bool -> Prop) (u : bool) m : Prop := exists ids n k r a d z,
  batch m ids n k r a d z u /\ length ids = maxEvents /\ (k <= n <= maxEvents)%nat /\
  (r = true -> a = d ++ map key (drop k (take n ids))) /\ G r a d z.

(** Nothing more; the batch before is settled; it is, or it is ready; it was given up. *)
Definition loose : machine W -> Prop := sound (fun _ _ _ _ => True) false.
Definition clean : machine W -> Prop := sound (fun _ a d z => z = true \/ a = d) false.
Definition going : machine W -> Prop := sound (fun r a d z => r = false -> z = true \/ a = d) true.
Definition given_up : machine W -> Prop := sound (fun _ _ _ z => z = true) false.

(** Between operations: what is acknowledged and not drained is in a batch that is ready, unless
    [stop] gave it up or the controller has failed. *)
Definition batch_ok m : Prop :=
  sound (fun r a d z => z = true \/ state_ (ctl m) = Fault \/ a = d \/ r = true /\ state_ (ctl m) <> Stopped) false m.

Lemma sound_same G u m m' : sound G u m -> same_pv m m' -> sound G u m'.
Proof. intros (ids & n & k & r & a & d & z & Hb & H) Hs. exists ids, n, k, r, a, d, z. split; [by eapply batch_same|done]. Qed.
Lemma sound_safe G u m : sound G u m -> safe m.
Proof. intros (? & ? & ? & ? & ? & ? & ? & Hb & _). by eapply batch_safe. Qed.
Lemma sound_mono (G G' : bool -> list (Z * Z) -> list (Z * Z) -> bool -> Prop) u m :
  sound G u m -> (forall r a d z, G r a d z -> G' r a d z) -> sound G' false m.
Proof.
  intros (ids & n & k & r & a & d & z & Hb & H1 & H2 & H3 & H4) HG. exists ids, n, k, r, a, d, z.
  split_and!; auto. by eapply batch_weaken. all: lia.
Qed.

Lemma batch_ok_same m m' : batch_ok m -> same_pv m m' -> batch_ok m'.
Proof.
  intros Hm Hs. pose proof Hs as [_ Hv]. apply (sound_same _ _ _ _ Hm) in Hs. eapply sound_mono; [exact Hs|].
  intros r a d z [H|[H|[H|[H H']]]]; [by left| |by right; right; left|].
  - right. left. unfold moved in Hv. rewrite H in Hv. unfold Fault, Armed, Masked in *. lia.
  - right. right. right. split; [done|by eapply moved_on].
Qed.
Lemma batch_ok_safe m : batch_ok m -> safe m.
Proof. apply sound_safe. Qed.

Lemma clean_ok m : clean m -> batch_ok m.
Proof. intros H. eapply sound_mono; [exact H|]. intros r a d z [|]; auto. Qed.
Lemma given_up_ok m : given_up m -> batch_ok m.
Proof. intros H. eapply sound_mono; [exact H|]. auto. Qed.

Lemma r_sound {A} G u (Q : A -> machine W -> Prop) (p : program A) m :
  quiet p -> sound G u m -> (forall x m', sound G u m' -> Q x m') -> rwp Q p m.
Proof. intros. apply (r_stable (sound G u)); [done| | |done..]; [intros ? ?; apply sound_same|apply sound_safe]. Qed.

Lemma r_ok {A} (Q : A -> machine W -> Prop) (p : program A) m :
  quiet p -> batch_ok m -> (forall x m', batch_ok m' -> Q x m') -> rwp Q p m.
Proof. intros. apply (r_stable batch_ok); [done| | |done..]; [intros ? ?; apply batch_ok_same|apply batch_ok_safe]. Qed.

(** The state is loaded, or stored. *)
Lemma r_load (P : machine W -> Prop) (Q : Z -> machine W -> Prop) m :
  (forall m m', P m -> same_pv m m' -> P m') -> (forall m, P m -> safe m) -> P m ->
  (forall m', P m' -> Q (state_ (ctl m')) m') -> rwp Q load_state m.
Proof. intros Hst Hsf Hm HQ. apply r_atomic. intros m' Hs. specialize (Hst _ _ Hm Hs). split; [by apply Hsf|by apply HQ]. Qed.

Lemma sound_store G u m s : sound G u m -> (u = true -> s <> Stopped) -> sound G u (upd (set_state s) m).2.
Proof.
  intros (ids & n & k & r & a & d & z & [Hp _] & H) Hs. exists ids, n, k, r, a, d, z. split; [|done]. split; [exact Hp|exact Hs].
Qed.

Lemma r_store G u (Q : unit -> machine W -> Prop) m s :
  sound G u m -> (u = true -> s <> Stopped) -> (forall m', sound G u m' -> state_ (ctl m') = s -> Q tt m') -> rwp Q (store_state s) m.
Proof.
  intros Hm Hs HQ. apply r_atomic. intros m' Hm'. pose proof (sound_store _ _ _ s (sound_same _ _ _ _ Hm Hm') Hs) as H1.
  split; [by eapply sound_safe|by apply HQ].
Qed.

Lemma r_fail G u (Q : Status -> machine W -> Prop) st m :
  sound G u m -> (forall m', batch_ok m' -> Q st m') -> rwp Q (fail st) m.
Proof.
  intros Hm HQ. unfold fail. apply r_bind. eapply (r_store (fun _ _ _ _ => True) false).
  { by eapply sound_mono. } { done. }
  intros m1 H1 E1. assert (H1' : batch_ok m1) by (eapply sound_mono; [exact H1|]; auto).
  apply r_bind, r_ok; [apply quiet_admitted|done|]. intros [] m2 H2; [|by apply HQ].
  apply r_bind, r_ok; [apply quiet_mask|done|]. intros _ m3 H3. by apply HQ.
Qed.

(** * Collection *)

(** [n] identities so far, each acknowledged. *)
Definition partial m (n : nat) : Prop := exists ids z,
  batch m ids n 0 false (map key (take n ids)) [] z true /\ length ids = maxEvents.

(** A part of the collection: it goes on with at most [n] identities, or returns an error. *)
Definition collected (n : nat) (r : option Status) m : Prop :=
  match r with
  | None => exists n', (n' <= n)%nat /\ partial m n'
  | Some s => s <> Ok /\ batch_ok m
  end.

Lemma partial_loose m n : partial m n -> (n <= maxEvents)%nat -> loose m.
Proof.
  intros (ids & z & Hb & Hl) Hn. exists ids, n, 0%nat, false, (map key (take n ids)), [], z.
  split_and!; try done; [by eapply batch_weaken|lia].
Qed.

Lemma partial_same m m' n : partial m n -> same_pv m m' -> partial m' n.
Proof. intros (ids & z & Hb & H) Hs. exists ids, z. split; [by eapply batch_same|done]. Qed.
Lemma partial_safe m n : partial m n -> safe m.
Proof. intros (? & ? & Hb & _). by eapply batch_safe. Qed.

Lemma r_partial {A} (Q : A -> machine W -> Prop) (p : program A) m n :
  quiet p -> partial m n -> (forall x m', partial m' n -> Q x m') -> rwp Q p m.
Proof.
  intros. apply (r_stable (fun m => partial m n)); [done| | |done..]; [intros ? ?; apply partial_same|intros ?; apply partial_safe].
Qed.

(** A failure while a batch is collected. *)
Lemma r_collect_fail n st m : st <> Ok -> loose m -> rwp (collected n) (s <~ fail st ;; Ret (Some s))%prog m.
Proof. intros Hs Hb. eapply r_bind, r_fail; [exact Hb|done]. Qed.

(** The acknowledgement of an identity. *)
Lemma r_ack (Q : bool -> machine W -> Prop) b v m n :
  b = 0 \/ b = 1 -> partial m n ->
  (forall m', partial m' n -> Q false m') ->
  (forall m' ids z, batch m' ids n 0 false (map key (take n ids) ++ [(b, v)]) [] z true -> length ids = maxEvents -> Q true m') ->
  rwp Q (write (identityRegister + b * 4) v) m.
Proof.
  intros Hb Hp Hno Hyes. apply r_bind. eapply r_partial; [apply quiet_admitted|done|].
  intros [] m1 H1; cbn [negb]; [|by apply Hno]. apply r_atomic. intros m2 Hs.
  pose proof (partial_same _ _ _ H1 Hs) as H2. clear H1 Hs.
  unfold call_write32, act, record. rewrite run_bind. cbn [gets fst snd]. destruct (op_write32 _) as [g|].
  2: { assert (H3 : partial (record EvRefused m2).2 n) by (eapply partial_same; [exact H2|]; split; [done|by left]).
       split; [exact (partial_safe _ _ H3)|exact (Hno _ H3)]. }
  rewrite run_bind. destruct (g _ _) as [ok w]. cbn [fst snd]. rewrite run_bind. cbn [modify fst snd ret].
  destruct H2 as (ids & z & [(l & E & Hso & Ha & Hd & Hz) Hu] & Hl). injection E as E1 E2 E3 E4 E5.
  assert (Hbank : identity_bank (identityRegister + b * 4) = Some b) by (by destruct Hb as [-> | ->]).
  assert (Hen : enables (identityRegister + b * 4) v = false) by (by destruct Hb as [-> | ->]).
  destruct ok.
  - assert (Hb' : batch {| ctl := ctl m2; world := w; trace := EvWrite (identityRegister + b * 4) v true :: trace m2 |}
      ids n 0 false (map key (take n ids) ++ [(b, v)]) [] z true).
    { split; [|exact Hu]. exists (EvWrite (identityRegister + b * 4) v true :: l). unfold pv. cbn [ctl trace]. unfold log.
      cbn [List.filter is_log]. rewrite Hbank, Hen, bool_decide_true by done. cbn [andb orb]. fold (log (trace m2)).
      rewrite E1, E2, E3, E4, E5. cbn [acks drains orderly stopped]. rewrite Hbank, Ha, Hd, Hz, Hen. done. }
    split; [by eapply batch_safe|by eapply Hyes].
  - assert (Hp' : partial {| ctl := ctl m2; world := w; trace := EvWrite (identityRegister + b * 4) v false :: trace m2 |} n).
    { exists ids, z. split; [|done]. split; [|exact Hu]. exists l. split; [|done]. unfold pv, log. cbn [ctl trace List.filter is_log].
      rewrite Hen, andb_false_r. cbn [orb]. fold (log (trace m2)). by rewrite E1, E2, E3, E4, E5. }
    split; [by apply (partial_safe _ n)|by apply Hno].
Qed.

Lemma r_push (Q : unit -> machine W -> Prop) b i v m ids n z :
  batch m ids n 0 false (map key (take n ids) ++ [(b, v)]) [] z true -> length ids = maxEvents -> (n < maxEvents)%nat ->
  (forall m', partial m' (S n) -> Q tt m') -> rwp Q (atomic (push_event (identity_of b i v))) m.
Proof.
  intros Hb Hl Hn HQ. apply r_atomic. intros m' Hs. pose proof (batch_same _ _ _ _ _ _ _ _ _ _ Hb Hs) as Hb'.
  destruct (batch_fields _ _ _ _ _ _ _ _ _ Hb') as (E1 & E2 & E3 & E4). unfold push_event. rewrite run_bind. cbn [gets fst snd].
  rewrite E1, E2, (proj2 (Nat.ltb_lt _ _) Hn). cbn [upd modify fst snd].
  set (m1 := {| ctl := _; world := _; trace := _ |}).
  assert (Hp : partial m1 (S n)).
  { exists (<[n := identity_of b i v]> ids), z. split; [|by rewrite length_insert].
    destruct Hb' as [(l & E & Hso & Ha & Hd & Hz) Hu]. split; [|exact Hu]. exists l. split; [|split_and!; [done| |done..]].
    - unfold pv. cbn -[log]. rewrite E3, E4. by injection E as _ _ _ _ ->.
    - rewrite Ha. rewrite (take_S_r _ n (identity_of b i v)) by (apply list_lookup_insert_eq; lia).
      rewrite take_insert_ge by lia. by rewrite map_app. }
  split; [by apply (partial_safe _ (S n))|by apply HQ].
Qed.

Lemma collect_bit_ok b dw i m n :
  b = 0 \/ b = 1 -> partial m n -> (n < maxEvents)%nat -> rwp (collected (S n)) (collect_bit b dw i) m.
Proof.
  intros Hb Hp Hn. unfold collect_bit. destruct (negb _); [exists n; split; [lia|done]|].
  assert (Hk : forall m', partial m' n -> loose m') by (intros m' H; eapply partial_loose; [done|lia]).
  apply r_bind. eapply r_partial; [apply quiet_write; by destruct Hb as [-> | ->]|done|].
  intros [] m1 H1; cbn [negb]; [|apply r_collect_fail; auto; done].
  apply r_bind. eapply r_partial; [apply quiet_now|done|]. intros t m2 H2.
  apply r_bind. eapply r_partial; [apply quiet_poll|done|].
  intros [|v|] m3 H3; [by apply r_collect_fail; auto| |by apply r_collect_fail; auto].
  apply r_bind. eapply r_ack; [done..| |].
  - intros m4 H4. by apply r_collect_fail; auto.
  - intros m4 ids z H4 Hl. apply r_bind. eapply r_push; [done..|]. intros m5 H5. exists (S n). auto.
Qed.

Lemma collect_bits_ok b dw l m n :
  b = 0 \/ b = 1 -> partial m n -> (n + length l <= maxEvents)%nat ->
  rwp (collected (n + length l)) (collect_bits b dw l) m.
Proof.
  intros Hb. revert m n. induction l as [|i l IH]; intros m n Hp Hn; cbn [collect_bits length] in *.
  { exists n. split; [lia|done]. }
  apply r_bind. eapply rely_mono; [apply (collect_bit_ok b dw i m n); [done..|lia]|].
  intros [s|] m1 H1; [done|]. destruct H1 as (n' & Hn' & H1).
  eapply rely_mono; [apply (IH m1 n'); [done|lia]|].
  intros [s|] m2 H2; [done|]. destruct H2 as (n2 & ? & ?). exists n2. split; [lia|done].
Qed.

Lemma collect_bank_ok master b m n :
  b = 0 \/ b = 1 -> partial m n -> (n + 32 <= maxEvents)%nat -> rwp (collected (n + 32)) (collect_bank master b) m.
Proof.
  intros Hb Hp Hn. unfold collect_bank. destruct (negb _); [exists n; split; [lia|done]|].
  assert (Hk : forall m' k, (k <= n + 32)%nat -> partial m' k -> loose m') by (intros m' k ? H; eapply partial_loose; [done|lia]).
  apply r_bind. eapply r_partial; [apply quiet_read|done|].
  intros [[] dw] m1 H1; cbn [negb fst snd]; [|apply r_collect_fail; [done|by apply (Hk _ n); [lia|]]].
  apply r_bind. eapply rely_mono; [apply (collect_bits_ok b dw (seqZ 0 32) m1 n); [done..|exact Hn]|].
  intros [s|] m2 H2; [done|]. destruct H2 as (n' & Hn' & H2). change (length (seqZ 0 32)) with 32%nat in Hn'.
  apply r_bind. eapply r_partial; [apply quiet_write; by destruct Hb as [-> | ->]|done|].
  intros [] m3 H3; cbn [negb]; [by exists n'|apply r_collect_fail; [done|by apply (Hk _ n')]].
Qed.

Lemma r_begin (Q : unit -> machine W -> Prop) other m ids n k a d z :
  batch m ids n k false a d z true -> z = true \/ a = d -> length ids = maxEvents -> (forall m', partial m' 0 -> Q tt m') ->
  rwp Q (atomic (begin_batch other)) m.
Proof.
  intros Hb Hset Hl HQ. apply r_atomic. intros m' Hs.
  destruct (batch_same _ _ _ _ _ _ _ _ _ _ Hb Hs) as [(l & E & Hso & Ha & Hd & Hz) Hu]. injection E as E1 E2 E3 E4 E5.
  assert (Hp : partial (begin_batch other m').2 0).
  { exists ids, false. split; [|done]. split; [|exact Hu]. exists (EvBatch :: l). unfold pv. cbn -[log]. unfold log.
    cbn [List.filter is_log]. fold (log (trace m')). rewrite E1, E4, E5. split_and!; try done. unfold settled.
    rewrite Ha, Hd, Hz. tauto. }
  split; [by apply (partial_safe _ 0)|by apply HQ].
Qed.

(** A collected batch. *)
Definition ready m : Prop := exists ids n k a d z,
  batch m ids n k true a d z true /\ length ids = maxEvents /\ (k <= n <= maxEvents)%nat /\
  a = d ++ map key (drop k (take n ids)).

Lemma r_ready (Q : unit -> machine W -> Prop) m n :
  partial m n -> (n <= maxEvents)%nat -> (forall m', ready m' -> Q tt m') -> rwp Q (set (set_batchReady true)) m.
Proof.
  intros Hp Hn HQ. apply r_atomic. intros m' Hs.
  destruct (partial_same _ _ _ Hp Hs) as (ids & z & [(l & E & Hso & Ha & Hd & Hz) Hu] & Hl). injection E as E1 E2 E3 E4 E5.
  assert (Hb : batch (upd (set_batchReady true) m').2 ids n 0 true (map key (take n ids)) [] z true).
  { split; [|exact Hu]. exists l. split; [|done]. unfold pv. cbn -[log]. by rewrite E1, E2, E3, E5. }
  split; [by eapply batch_safe|]. apply HQ. eexists _, _, _, _, _, _. split_and!; [exact Hb|done|lia|done|]. by rewrite drop_0.
Qed.

Lemma collect_ok m ids n k a d z :
  batch m ids n k false a d z true -> z = true \/ a = d -> length ids = maxEvents -> (k <= n <= maxEvents)%nat ->
  rwp (fun s m' => if bool_decide (s = Ok) then ready m' else batch_ok m') collect m.
Proof.
  intros Hb Hset Hl Hn. assert (Hok : forall m', batch m' ids n k false a d z true -> loose m').
  { intros m' H. exists ids, n, k, false, a, d, z. split_and!; try done; [by eapply batch_weaken|lia|lia]. }
  assert (Hf : forall st m', st <> Ok -> loose m' ->
    rwp (fun s m' => if bool_decide (s = Ok) then ready m' else batch_ok m') (fail st) m').
  { intros st m' Hst Hm. eapply r_fail; [exact Hm|]. intros m2 H2. by rewrite bool_decide_false. }
  assert (Hend : forall m' j, partial m' j -> (j <= maxEvents)%nat ->
    rwp (fun s m' => if bool_decide (s = Ok) then ready m' else batch_ok m') (set (set_batchReady true) ;;~ Ret Ok)%prog m').
  { intros m' j Hp Hj. apply r_bind. by eapply r_ready. }
  assert (Hret : forall c r m', collected c r m' -> r <> None ->
    rwp (fun s m' => if bool_decide (s = Ok) then ready m' else batch_ok m') (Ret (default Ok r)) m').
  { intros c [s|] m' H Hr; [|done]. destruct H as [? ?]. cbn. by rewrite bool_decide_false. }
  unfold collect. apply r_bind. eapply r_keep; [apply quiet_read|done|]. intros tile m1 H1.
  destruct (_ || _); [by apply Hf; auto|]. destruct (test _ _); [by apply Hf; auto|]. destruct (negb _).
  { apply r_bind. eapply r_begin; [done..|]. intros m2 H2. eapply Hend; [done|unfold maxEvents; lia]. }
  apply r_bind. eapply r_keep; [apply quiet_master; unfold test; by rewrite <- Z.land_assoc, (Z.land_comm (Z.lnot _)), Z.land_lnot_diag, Z.land_0_r|done|].
  intros [] m2 H2; cbn [negb]; [|by apply Hf; auto].
  apply r_bind. eapply r_keep; [apply quiet_read|done|].
  intros [[] ms] m3 H3; cbn [negb fst snd]; [|by apply Hf; auto].
  apply r_bind. eapply r_keep; [by apply quiet_write|done|]. intros [] m4 H4; cbn [negb]; [|by apply Hf; auto].
  apply r_bind. eapply r_begin; [done..|]. intros m5 H5.
  apply r_bind. eapply rely_mono; [apply (collect_bank_ok ms 0 m5 0); [auto|done|unfold maxEvents; lia]|].
  intros [s|] m6 H6; [by apply (Hret _ (Some s) _ H6)|]. destruct H6 as (n1 & Hn1 & H6).
  apply r_bind. eapply rely_mono; [apply (collect_bank_ok ms 1 m6 n1); [auto|done|unfold maxEvents; lia]|].
  intros [s|] m7 H7; [by apply (Hret _ (Some s) _ H7)|]. destruct H7 as (n2 & Hn2 & H7).
  eapply Hend; [done|unfold maxEvents; lia].
Qed.

(** * Handling *)

(** A handled identity. *)
Lemma r_handle (Q : Handling -> machine W -> Prop) id m ids n k a d z :
  batch m ids n k true a d z true ->
  (forall h m', batch m' ids n k true a (match h with Drained => d ++ [key id] | _ => d end) z true -> Q h m') ->
  rwp Q (atomic (call_identity id)) m.
Proof.
  intros Hb HQ. apply r_atomic. intros m' Hs.
  pose proof (batch_same _ _ _ _ _ _ _ _ _ _ Hb Hs) as Hb'. unfold call_identity, act, record.
  rewrite run_bind. cbn [gets fst snd]. destruct (op_identity _) as [g|].
  2: { split; [by eapply batch_safe|]. by apply HQ. }
  rewrite run_bind. destruct (g _ _) as [h w]. cbn [fst snd]. rewrite run_bind. cbn [modify fst snd ret].
  destruct Hb' as [(l & E & Hso & Ha & Hd & Hz) Hu]. injection E as E1 E2 E3 E4 E5.
  set (m1 := {| ctl := _; world := _; trace := _ |}).
  assert (Hb1 : batch m1 ids n k true a (match h with Drained => d ++ [key id] | _ => d end) z true).
  { split; [|exact Hu]. exists (EvHandled id h :: l). unfold pv, log. cbn [m1 ctl trace List.filter is_log]. fold (log (trace m')).
    rewrite E1, E2, E3, E4, E5. split_and!; [done|done|done| |done]. cbn. destruct h; by rewrite Hd. }
  split; [by eapply batch_safe|by apply HQ].
Qed.

Lemma r_next (Q : unit -> machine W -> Prop) m ids n k a d z :
  batch m ids n k true a d z true -> (forall m', batch m' ids n (S k) true a d z true -> Q tt m') ->
  rwp Q (set (fun t => set_nextEvent (S (nextEvent_ t)) t)) m.
Proof.
  intros Hb HQ. apply r_atomic. intros m' Hs. destruct (batch_same _ _ _ _ _ _ _ _ _ _ Hb Hs) as [(l & E & H) Hu].
  injection E as E1 E2 E3 E4 E5.
  assert (Hb1 : batch (upd (fun t => set_nextEvent (S (nextEvent_ t)) t) m').2 ids n (S k) true a d z true).
  { split; [|exact Hu]. exists l. split; [|done]. unfold pv. cbn -[log]. by rewrite E1, E2, E3, E4, E5. }
  split; [by eapply batch_safe|by apply HQ].
Qed.

(** A batch that is kept for the next call. *)
Lemma ready_ok m ids n k d z :
  batch m ids n k true (d ++ map key (drop k (take n ids))) d z true -> length ids = maxEvents -> (k <= n <= maxEvents)%nat -> batch_ok m.
Proof.
  intros Hb Hl Hn. exists ids, n, k, true, (d ++ map key (drop k (take n ids))), d, z.
  split_and!; try done; [by eapply batch_weaken|lia|lia|]. right. right. right. split; [done|]. by apply Hb.
Qed.

(** The loop: everything is drained, or it returns. *)
Lemma deliver_ok rounds m ids n k d z :
  batch m ids n k true (d ++ map key (drop k (take n ids))) d z true -> length ids = maxEvents ->
  (k <= n <= maxEvents)%nat -> rounds = (n - k)%nat ->
  rwp (fun r m' => match r with
    | None => exists d', batch m' ids n n true d' d' z true
    | Some _ => batch_ok m' end) (deliver rounds) m.
Proof.
  intros Hb Hl Hn. revert m k d Hb Hn. induction rounds as [|rounds IH]; intros m k d Hb Hn Hr; cbn [deliver].
  { assert (k = n) as -> by lia. rewrite drop_ge in Hb by (rewrite length_take; lia). cbn in Hb.
    rewrite app_nil_r in Hb. by exists d. }
  assert (Hid : exists id, ids !! k = Some id) by (apply lookup_lt_is_Some; lia). destruct Hid as [id Hid].
  assert (Ed : drop k (take n ids) = id :: drop (S k) (take n ids)).
  { apply drop_S. by rewrite lookup_take_lt by lia. }
  assert (Hf : forall m' st, batch_ok m' -> rwp (fun r m' => match r with None => exists d', batch m' ids n n true d' d' z true | Some _ => batch_ok m' end)
    (s <~ fail st ;; Ret (Some s))%prog m').
  { intros m' st H. apply r_bind. eapply r_fail; [exact H|done]. }
  apply r_bind. eapply r_get; [done|]. intros t m1 H1 E1 E2 E3 _. rewrite E1, E2, E3, (proj2 (Nat.ltb_lt _ _)) by lia. cbn [negb].
  apply r_bind. eapply r_keep; [apply quiet_admitted|done|].
  intros [] m2 H2; cbn [negb]; [|by apply Hf; eapply ready_ok].
  apply r_bind. rewrite Hid. eapply r_handle; [done|]. intros [| |] m3 H3; [|by eapply ready_ok|by apply Hf; eapply ready_ok].
  apply r_bind. eapply r_next; [done|]. intros m4 H4. apply (IH m4 (S k) (d ++ [key id])); [|lia|lia].
  rewrite Ed in H4. cbn [map] in H4. by rewrite <- app_assoc.
Qed.

(** * Delivery is enabled *)

Lemma r_enable (Q : bool -> machine W -> Prop) m : clean m -> (forall b m', clean m' -> Q b m') -> rwp Q (write tileMaster masterEnable) m.
Proof.
  intros Hm HQ. apply r_bind. eapply r_sound; [apply quiet_admitted|exact Hm|]. intros [] m1 H1; cbn [negb]; [|by apply HQ].
  apply r_atomic. intros m2 Hs. pose proof (sound_same _ _ _ _ H1 Hs) as H2. unfold call_write32, act, record.
  rewrite run_bind. cbn [gets fst snd]. destruct (op_write32 _) as [g|].
  2: { assert (H3 : clean (record EvRefused m2).2) by (eapply sound_same; [exact H2|]; split; [done|by left]).
       split; [exact (sound_safe _ _ _ H3)|exact (HQ false _ H3)]. }
  rewrite run_bind. destruct (g _ _) as [ok w]. cbn [fst snd]. rewrite run_bind. cbn [modify fst snd ret].
  destruct H2 as (ids & n & k & r & a & d & z & [(l & E & Hso & Ha & Hd & Hz) Hu] & Hl & Hn & Hr & Hset). injection E as E1 E2 E3 E4 E5.
  set (m3 := {| ctl := _; world := _; trace := _ |}).
  assert (Hc : clean m3).
  { exists ids, n, k, r, a, d, z. split_and!; try done; [|lia..]. split; [|done]. exists (EvWrite tileMaster masterEnable ok :: l).
    unfold pv, log. cbn [m3 ctl trace List.filter]. change (is_log (EvWrite tileMaster masterEnable ok)) with true. cbv iota. fold (log (trace m2)).
    rewrite E1, E2, E3, E4, E5. split_and!; [done| | | |exact Hz].
    - cbn [orderly]. split; [|done]. intros _. unfold settled. rewrite Ha, Hd, Hz. tauto.
    - cbn [acks]. destruct ok; done.
    - done. }
  split; [by eapply sound_safe|by apply HQ].
Qed.

Lemma rearm_ok m : clean m -> rwp (fun _ => batch_ok) rearm m.
Proof.
  intros Hm. unfold rearm. apply r_bind. eapply r_store; [exact Hm|done|]. intros m1 H1 _.
  apply r_bind, r_enable; [exact H1|]. intros [] m2 H2; cbn [negb]; [|eapply r_fail; [exact H2|done]].
  apply r_bind. eapply r_sound; [apply quiet_load|exact H2|]. intros x m3 H3. destruct (_ =? Armed); [by apply clean_ok|].
  apply r_bind. eapply r_sound; [apply quiet_mask|exact H3|]. intros [] m4 H4; cbn [negb]; [|eapply r_fail; [exact H4|done]].
  by apply clean_ok.
Qed.

(** * Operations *)

(** The state that is loaded tells what is known. *)
Lemma loaded_clean m : batch_ok m -> state_ (ctl m) = Stopped -> clean m.
Proof.
  intros Hm E. eapply sound_mono; [exact Hm|]. cbn. intros r a d z. rewrite E. intros [|[|[|[_ H]]]]; auto; done.
Qed.
Lemma loaded_going m : batch_ok m -> state_ (ctl m) = Masked \/ state_ (ctl m) = Workloop -> going m.
Proof.
  intros (ids & n & k & r & a & d & z & [Hp _] & Hl & Hn & Hr & HG) E. exists ids, n, k, r, a, d, z.
  split_and!; try done; [|lia|lia|]; [split; [done|]; intros _; by destruct E as [-> | ->]|].
  intros ->. destruct HG as [|[H|[|[H _]]]]; auto; [|done]. rewrite H in E. by destruct E.
Qed.

Lemma start_ok m : batch_ok m -> rwp (fun _ => batch_ok) start m.
Proof.
  intros Hm. unfold start. apply r_bind, r_ok; [apply quiet_get|done|]. intros t m1 H1. destruct (negb _); [done|].
  apply r_bind. apply (r_load batch_ok); [intros ? ?; apply batch_ok_same|apply batch_ok_safe|done|]. intros m2 H2.
  destruct (Z.eqb_spec (state_ (ctl m2)) Stopped) as [E|]; cbn [negb]; [|done]. pose proof (loaded_clean _ H2 E) as H3.
  apply r_bind. eapply r_sound; [apply quiet_admitted|exact H3|]. intros [] m4 H4; cbn [negb]; [by apply rearm_ok|by apply clean_ok].
Qed.

Lemma r_end (Q : unit -> machine W -> Prop) m ids n d z :
  batch m ids n n true d d z true -> length ids = maxEvents -> (n <= maxEvents)%nat ->
  (forall m', clean m' -> Q tt m') -> rwp Q (set (set_batchReady false)) m.
Proof.
  intros Hb Hl Hn HQ. apply r_atomic. intros m' Hs.
  destruct (batch_same _ _ _ _ _ _ _ _ _ _ Hb Hs) as [(l & E & H) Hu]. injection E as E1 E2 E3 E4 E5.
  assert (Hb1 : batch (upd (set_batchReady false) m').2 ids n n false d d z false).
  { split; [|done]. exists l. split; [|done]. unfold pv. cbn -[log]. by rewrite E1, E2, E3, E5. }
  assert (Hc : clean (upd (set_batchReady false) m').2).
  { exists ids, n, n, false, d, d, z. split_and!; try done. by right. }
  split; [by eapply sound_safe|by apply HQ].
Qed.

Lemma service_ok m : batch_ok m -> rwp (fun _ => batch_ok) service m.
Proof.
  intros Hm. unfold service. apply r_bind. apply (r_load batch_ok); [intros ? ?; apply batch_ok_same|apply batch_ok_safe|done|]. intros m1 H1.
  destruct (_ =? Fault); [done|]. destruct (negb (_ =? Masked) && _) eqn:Es; [done|].
  assert (Hg : going m1).
  { apply loaded_going; [done|]. apply andb_false_iff in Es as [Es|Es]; apply negb_false_iff, Z.eqb_eq in Es; auto. }
  apply r_bind. eapply r_sound; [apply quiet_admitted|exact Hg|]. intros [] m2 H2; cbn [negb]; [|eapply r_fail; [exact H2|done]].
  apply r_bind. eapply r_store; [exact H2|done|]. intros m3 (ids & n & k & r & a & d & z & Hb & Hl & Hn & Hr & HG) _.
  apply r_bind. eapply r_get; [done|]. intros t m4 H4 _ _ _ Et. apply r_bind.
  apply (rely_mono _ _ (fun s m' => if bool_decide (s = Ok) then ready m' else batch_ok m')).
  { rewrite Et. destruct r; [|by eapply collect_ok; eauto]. cbn. exists ids, n, k, a, d, z. auto. }
  intros s m5. destruct (bool_decide_reflect (s = Ok)) as [->|Hs]; [|by rewrite bool_decide_true].
  rewrite bool_decide_false by (by intros []). clear. intros (ids & n & k & a & d & z & Hb & Hl & Hn & ->).
  apply r_bind. eapply r_get; [done|]. intros t m6 H6 _ E2 E3 _. rewrite E2, E3.
  apply r_bind. eapply rely_mono; [by eapply deliver_ok|]. intros [s|] m7 H7; [done|]. destruct H7 as (d' & H7).
  apply r_bind. eapply r_keep; [apply quiet_deliver_other|done|]. intros [s|] m8 H8.
  { exists ids, n, n, true, d', d', z. split_and!; try done; [by eapply batch_weaken|lia| |auto].
    intros _. rewrite drop_ge by (rewrite length_take; lia). by rewrite app_nil_r. }
  apply r_bind. eapply r_end; [done..|lia|]. apply rearm_ok.
Qed.

Lemma r_stopped (Q : unit -> machine W -> Prop) m :
  batch_ok m -> (forall m', given_up m' -> Q tt m') -> rwp Q (atomic store_stopped) m.
Proof.
  intros Hm HQ. apply r_atomic. intros m' Hs.
  destruct (batch_ok_same _ _ Hm Hs) as (ids & n & k & r & a & d & z & [(l & E & Hso & Ha & Hd & Hz) _] & Hl & Hn & Hr & _).
  injection E as E1 E2 E3 E4 E5. set (m1 := (store_stopped m').2).
  assert (Hb : batch m1 ids n k r a d true false).
  { split; [|done]. exists (EvStop :: l). unfold pv. cbn -[log]. unfold log. cbn [List.filter is_log]. fold (log (trace m')).
    by rewrite E1, E2, E3, E4, E5. }
  assert (Hg : given_up m1) by (exists ids, n, k, r, a, d, true; split_and!; try done; lia).
  split; [exact (sound_safe _ _ _ Hg)|exact (HQ _ Hg)].
Qed.

Lemma stop_ok m : batch_ok m -> rwp (fun _ => batch_ok) stop m.
Proof.
  intros Hm. unfold stop. apply r_bind, r_stopped; [done|]. intros m1 H1.
  apply r_bind. eapply r_sound; [apply quiet_get|exact H1|]. intros t m2 H2. destruct (negb _); [by apply given_up_ok|].
  apply r_bind. eapply r_sound; [apply quiet_admitted|exact H2|]. intros [] m3 H3; cbn [negb]; [|by apply given_up_ok].
  apply r_bind. eapply r_sound; [apply quiet_mask|exact H3|]. intros [] m4 H4; cbn [negb]; [|by apply given_up_ok].
  apply r_bind. eapply r_sound; [apply quiet_read|exact H4|]. intros r m5 H5. destruct (_ || _); [by apply given_up_ok|].
  apply r_bind, r_atomic. intros m6 Hs. destruct (sound_same _ _ _ _ H5 Hs) as (ids & n & k & b & a & d & z & [(l & E & H) _] & Hl & _ & _ & Ez).
  injection E as E1 E2 E3 E4 E5. set (m7 := (upd _ m6).2).
  assert (Hb : batch m7 ids 0 0 false a d z false).
  { split; [|done]. exists l. split; [|done]. unfold pv. cbn -[log]. by rewrite E1, E5. }
  assert (Hg : given_up m7) by (exists ids, 0%nat, 0%nat, false, a, d, z; split_and!; try done; lia).
  split; [by eapply sound_safe|by apply given_up_ok].
Qed.

Lemma run_op_ok o m : batch_ok m -> rwp (fun _ => batch_ok) (run_op o) m.
Proof.
  intros Hm. destruct o; cbn [run_op].
  - by apply r_ok; [apply quiet_configure|..].
  - by apply start_ok.
  - by apply service_ok.
  - by apply stop_ok.
Qed.

(** * Every interleaving *)

Record batches_ok (c : threads) : Prop := {
  bo_safe : safe (mach c);
  bo_workloop : match wl c with None => batch_ok (mach c) | Some p => rwp (fun _ => batch_ok) p (mach c) end;
  bo_filter : match irq c with None => True | Some p => quiet p end;
}.

Lemma batches_step c c' : batches_ok c -> thread_step c c' -> batches_ok c'.
Proof.
  intros [Hs Hw Hf] Hst.
  assert (Hstable : forall m', same_pv (mach c) m' ->
    safe m' /\ match wl c with None => batch_ok m' | Some p => rwp (fun _ => batch_ok) p m' end).
  { intros m' H. split; [by eapply safe_same|]. destruct (wl c); [|by eapply batch_ok_same].
    eapply rely_stable; [apply _| |done..]. intros _ x y. apply batch_ok_same. }
  destruct Hst as [o E Hc|B a k E|s E|E|B a k E|b E|x].
  - rewrite E in Hw. split; cbn; [done|by apply run_op_ok|done].
  - rewrite E in Hw. destruct (Hw (mach c)) as [H1 H2]; [done|]. by split.
  - rewrite E in Hw. by split.
  - split; cbn; [done..|apply quiet_filter].
  - rewrite E in Hf. destruct (Hf (mach c)) as ([] & H1 & H2). destruct (Hstable _ H1). by split.
  - by split.
  - destruct (Hstable {| ctl := ctl (mach c); world := x; trace := trace (mach c) |}); [split; [done|by left]|]. by split.
Qed.

Lemma reachable_batches c : threads_reachable c -> batches_ok c.
Proof.
  induction 1 as [w|c c' _ IH Hs]; [|by eapply batches_step]. split; [done| |done].
  exists (replicate maxEvents no_identity), 0%nat, 0%nat, false, [], [], false.
  split_and!; [split; [by exists []|done]|done|lia|lia|done|by right; right; left].
Qed.
End Batch.
