(* ===== verification/XeInterruptThms.v ===== *)
(** Theorems of the interrupt controller over every interleaving of its operations with the
    filter, and runs that show one. *)
From stdpp Require Import base numbers list.
From S2P Require Import Prelude.
From S2P Require Import Interleave.
From S2P Require Import XeInterrupt.
From S2P Require Import XeInterruptMask.
From S2P Require Import XeInterruptBatch.
Import XeInterrupt.

Section Theorems.
Context {W : Type}.
Implicit Types (c : threads (W := W)) (m : machine W).

(** [C9] The interrupt controller under every interleaving of its operations with the filter, at
    the granularity of single atomic accesses and calls of the adapter, against any adapter:
    whenever neither is running, interrupts are never lost and never storm.  If the state is
    armed, the last write of the tile master has not masked it; if the filter has masked the
    state or the workloop is serving a batch, the last write masked it; after a fault, or when
    the controller is not configured, it is not left enabled unless the adapter has since
    refused access. *)
Theorem interrupt_mask c :
  threads_reachable c -> wl c = None -> irq c = None ->
  let s := state_ (ctl (mach c)) in let d := delivery_of (trace (mach c)) in
  (s = Armed -> d <> Off) /\
  (s = Masked \/ s = Workloop -> d = Off) /\
  (s = Fault -> d <> On) /\
  (configured_ (ctl (mach c)) = false -> d <> On /\ s <> Armed).
Proof.
  intros Hr Hw Hf s d. destruct (reachable_phases c Hr) as (w & f & Hv & Ew & Ef).
  rewrite Hw in Ew. rewrite Hf in Ef. subst w f. unfold view_ok, view_of in Hv. fold s d in Hv.
  split_and!.
  - intros E. rewrite E in Hv. intros E'. by rewrite E' in Hv.
  - intros [E|E]; rewrite E in Hv; by destruct d.
  - intros E. rewrite E in Hv. intros E'. by rewrite E' in Hv.
  - intros E. rewrite E in Hv. cbn in Hv. split; intros E'; rewrite E' in Hv.
    + by rewrite andb_false_r in Hv.
    + cbn in Hv. by rewrite andb_false_r in Hv.
Qed.

Lemma orderly_split ev tr1 tr2 : orderly (tr1 ++ ev :: tr2) -> orderly (ev :: tr2).
Proof.
  induction tr1 as [|e tr1 IH]; [done|]. intros Ho. apply IH. destruct e; cbn in Ho; try done; by destruct Ho.
Qed.

Lemma orderly_no_overflow tr : orderly tr -> EvOverflow ∉ tr.
Proof. intros Ho [tr1 [tr2 ->]]%list_elem_of_split. by apply orderly_split in Ho. Qed.

(** [C10] Over every interleaving and against any adapter: the array of events never overflows.
    At every write of the tile master that enables delivery, and whenever a new batch is begun,
    the identities that the handler has drained since the last batch began are exactly those
    acknowledged, once each and in the same order, unless [stop] has been called in between.
    When no operation is running, a batch that is kept for later has as its rest exactly the
    identities acknowledged but not yet drained; and what is acknowledged and not drained is in
    such a batch, unless [stop] was called or the controller has failed. *)
Theorem interrupt_delivery c :
  threads_reachable c ->
  let tr := trace (mach c) in let t := ctl (mach c) in
  EvOverflow ∉ tr /\
  (forall tr1 v ok tr2, tr = tr1 ++ EvWrite tileMaster v ok :: tr2 -> test v masterEnable = true ->
    acks tr2 = drains tr2 \/ stopped tr2 = true) /\
  (forall tr1 tr2, tr = tr1 ++ EvBatch :: tr2 -> acks tr2 = drains tr2 \/ stopped tr2 = true) /\
  (wl c = None ->
    (batchReady_ t = true -> acks tr = drains tr ++ map key (drop (nextEvent_ t) (take (eventCount_ t) (events_ t)))) /\
    (batchReady_ t = true \/ acks tr = drains tr \/ stopped tr = true \/ state_ t = Fault)).
Proof.
  intros Hr tr t. destruct (reachable_batches c Hr) as [Hs Hw _]. split; [by apply orderly_no_overflow|]. split_and!.
  - intros tr1 v ok tr2 E Hv. unfold safe in Hs. fold tr in Hs. rewrite E in Hs. apply orderly_split in Hs as [Hs _]. exact (Hs Hv).
  - intros tr1 tr2 E. unfold safe in Hs. fold tr in Hs. rewrite E in Hs. by apply orderly_split in Hs as [Hs _].
  - intros E. rewrite E in Hw. destruct Hw as (ids & n & k & r & a & d & z & [(l & Epv & _ & Ha & Hd & Hz) _] & _ & _ & Hrd & HG).
    injection Epv as E1 E2 E3 E4 E5. unfold tr, t. rewrite E1, E2, E3, E4, <- acks_log, <- drains_log, <- stopped_log, E5, Ha, Hd, Hz.
    split; [exact Hrd|]. destruct HG as [|[|[|[? _]]]]; auto.
Qed.

(** * Running the threads *)

Fixpoint psteps {A} (n : nat) (p : prog (machine W) A) (m : machine W) : prog (machine W) A * machine W :=
  match n, p with
  | S n, Step a k => psteps n (k (a m).1) (a m).2
  | _, _ => (p, m)
  end.

Lemma workloop_steps n m p i :
  threads_reachable {| mach := m; wl := Some p; irq := i |} ->
  threads_reachable {| mach := (psteps n p m).2; wl := Some (psteps n p m).1; irq := i |}.
Proof.
  revert m p. induction n as [|n IH]; intros m p Hr; [done|]. destruct p as [a|B a k]; [done|]. cbn.
  apply IH. exact (tr_step _ _ Hr (ts_workloop {| mach := m; wl := Some (Step a k); irq := i |} a k eq_refl)).
Qed.

Lemma workloop_ends m p i :
  threads_reachable {| mach := m; wl := Some p; irq := i |} ->
  threads_reachable {| mach := (prun p m).2; wl := None; irq := i |}.
Proof.
  revert m. induction p as [a|B a k IH]; intros m Hr; cbn.
  - exact (tr_step _ _ Hr (ts_return {| mach := m; wl := Some (Ret a); irq := i |} a eq_refl)).
  - apply IH. exact (tr_step _ _ Hr (ts_workloop {| mach := m; wl := Some (Step a k); irq := i |} a k eq_refl)).
Qed.

Lemma filter_ends m w p :
  threads_reachable {| mach := m; wl := w; irq := Some p |} ->
  threads_reachable {| mach := (prun p m).2; wl := w; irq := None |}.
Proof.
  revert m. induction p as [a|B a k IH]; intros m Hr; cbn.
  - exact (tr_step _ _ Hr (ts_filtered {| mach := m; wl := w; irq := Some (Ret a) |} a eq_refl)).
  - apply IH. exact (tr_step _ _ Hr (ts_filter {| mach := m; wl := w; irq := Some (Step a k) |} a k eq_refl)).
Qed.

Lemma interrupted m w :
  threads_reachable {| mach := m; wl := w; irq := None |} ->
  threads_reachable {| mach := (prun filter m).2; wl := w; irq := None |}.
Proof. intros Hr. apply filter_ends. exact (tr_step _ _ Hr (ts_interrupt {| mach := m; wl := w; irq := None |} eq_refl)). Qed.

Lemma begun o m :
  threads_reachable {| mach := m; wl := None; irq := None |} ->
  may_call o {| mach := m; wl := None; irq := None |} ->
  threads_reachable {| mach := m; wl := Some (run_op o); irq := None |}.
Proof. intros Hr Hc. exact (tr_step _ _ Hr (ts_call {| mach := m; wl := None; irq := None |} o eq_refl Hc)). Qed.
End Theorems.

(** * Examples

    Hardware that always has one identity pending, and handlers that drain everything. *)

Definition ex_id : Z := Z.lor identityValid 0x00030001.

Definition ex_read (reg : Z) : Z :=
  if reg =? tileMaster then 1 else if reg =? gfxMaster then 1 else if reg =? bankStatus then 4
  else if reg =? identityRegister then ex_id else 0.

Definition ex_adapter : Ops unit := {|
  op_read32 := Some (fun reg w => ((true, ex_read reg), w));
  op_write32 := Some (fun _ _ w => (true, w));
  op_nowMicros := Some (fun w => (0, w));
  op_admitted := Some (fun _ w => (true, w));
  op_identity := Some (fun _ _ w => (Drained, w));
  op_otherMaster := Some (fun _ _ w => (Drained, w)) |}.

Definition ex_config : Configuration :=
  {| epoch := 1; vendor := 0x8086; device := 0x7d41; ccsMask := 0; render := true; copy := true |}.

Definition ex_begin : machine unit := {| ctl := new_controller; world := tt; trace := [] |}.
Definition ex_configured : machine unit := Eval vm_compute in (prun (configure ex_config ex_adapter) ex_begin).2.

Lemma ex_configured_reachable : threads_reachable {| mach := ex_configured; wl := None; irq := None |}.
Proof.
  assert (E : ex_configured = (prun (configure ex_config ex_adapter) ex_begin).2) by (vm_compute; reflexivity).
  rewrite E.
  exact (workloop_ends ex_begin (configure ex_config ex_adapter) None
    (begun (OpConfigure ex_config ex_adapter) ex_begin (tr_start tt) eq_refl)).
Qed.

(** [start] is preempted by the filter right after it has armed the state: it goes on to enable
    delivery, and masks it again. *)
Definition ex_arming : prog (machine unit) Status * machine unit := psteps 4 start ex_configured.
Definition ex_preempted : machine unit :=
  Eval vm_compute in (prun ex_arming.1 (prun filter ex_arming.2).2).2.

Lemma ex_preempted_reachable : threads_reachable {| mach := ex_preempted; wl := None; irq := None |}.
Proof.
  assert (E : ex_preempted = (prun ex_arming.1 (prun filter ex_arming.2).2).2) by (vm_compute; reflexivity).
  rewrite E.
  exact (workloop_ends (prun filter ex_arming.2).2 ex_arming.1 None
    (interrupted ex_arming.2 (Some ex_arming.1)
      (workloop_steps 4 ex_configured start None (begun OpStart ex_configured ex_configured_reachable eq_refl)))).
Qed.

Lemma interrupt_mask_witness :
  state_ (ctl (ex_arming.2)) = Armed /\ state_ (ctl ex_preempted) = Masked /\
  take 2 (trace ex_preempted) = [EvWrite tileMaster 0 true; EvWrite tileMaster masterEnable true] /\
  delivery_of (trace ex_preempted) = Off.
Proof.
  split; [vm_compute; reflexivity|]. split; [reflexivity|]. split; [reflexivity|].
  destruct (interrupt_mask {| mach := ex_preempted; wl := None; irq := None |} ex_preempted_reachable eq_refl eq_refl)
    as (_ & H & _). apply H. left. reflexivity.
Defined.

(** The service that follows. *)
Definition ex_serviced : machine unit := Eval vm_compute in (prun service ex_preempted).2.

Lemma ex_serviced_reachable : threads_reachable {| mach := ex_serviced; wl := None; irq := None |}.
Proof.
  assert (E : ex_serviced = (prun service ex_preempted).2) by (vm_compute; reflexivity). rewrite E.
  refine (workloop_ends ex_preempted service None (begun OpService ex_preempted ex_preempted_reachable (conj eq_refl _))).
  vm_compute. discriminate.
Qed.

Lemma interrupt_delivery_witness :
  state_ (ctl ex_serviced) = Armed /\
  exists tr, trace ex_serviced = EvWrite tileMaster masterEnable true :: tr /\ stopped tr = false /\
    acks tr = [(0, ex_id)] /\ drains tr = [(0, ex_id)].
Proof.
  split; [reflexivity|].
  destruct (interrupt_delivery {| mach := ex_serviced; wl := None; irq := None |} ex_serviced_reachable) as (_ & H & _).
  exists (tail (trace ex_serviced)).
  assert (E : trace ex_serviced = [] ++ EvWrite tileMaster masterEnable true :: tail (trace ex_serviced)) by reflexivity.
  split; [exact E|]. split; [reflexivity|]. destruct (H _ _ _ _ E eq_refl) as [<-|Hst]; [split; reflexivity|].
  exfalso. discriminate Hst.
Defined.
