(* ===== verification/XeFence.v ===== *)
(** The fence timeline of the Xe backend, class [Timeline] of [Mellow/XeFence.{hpp,cpp}]: a slot
    of memory that the GPU writes and the CPU observes, retained from [bind] until [close]. *)
From stdpp Require Import base numbers list.
From S2P Require Import Prelude.
From S2P Require Import StateWp.

Module XeFence.

(** * Data *)

Inductive Status := Ok | Invalid | Unavailable | StaleEpoch | Busy | Exhausted | Corrupt | NotBound.

#[export] Instance FenceStatus_eq_dec : EqDecision Status.
Proof. solve_decision. Defined.

(** [cpu] is an address of kernel memory; 0 is the null pointer. *)
Record Slot := {
  cpu : Z;
  ggtt : Z;
  allocation : Z;
  owner : Z;
  context : Z;
  epoch : Z;
  engineClass : Z;
  instance : Z;
}.
Definition no_slot : Slot := {|
  cpu := 0; ggtt := 0; allocation := 0; owner := 0; context := 0; epoch := 0; engineClass := 0; instance := 0 |}.

Record Observation := {
  o_owner : Z;
  o_context : Z;
  o_epoch : Z;
  o_ggtt : Z;
  o_raw : Z;
  o_sequence : Z;
  o_engineClass : Z;
  o_instance : Z;
  acquireOrdered : bool;
}.
Definition no_observation : Observation := {|
  o_owner := 0; o_context := 0; o_epoch := 0; o_ggtt := 0; o_raw := 0; o_sequence := 0; o_engineClass := 0;
  o_instance := 0; acquireOrdered := false |}.

(** The calls of the adapter with their answers, and the accesses to the slot, newest first. *)
Inductive f_event :=
  | FvValid (ok : bool)
  | FvStopped (ok : bool)
  | FvRetain (ok : bool)
  | FvRelease
  | FvClear (addr : Z)
  | FvRead (addr v : Z).

Section Timeline.
Context {W : Type}.

(** Callbacks on a world [W]; a null function pointer is [None]. *)
Record Ops := {
  op_valid : option (Slot -> W -> bool * W);
  op_retain : option (Slot -> W -> bool * W);
  op_release : option (Slot -> W -> W);
  op_stopped : option (Slot -> W -> bool * W);
}.
Definition no_ops : Ops := {| op_valid := None; op_retain := None; op_release := None; op_stopped := None |}.

Record Timeline := {
  slot_ : Slot;
  ops_ : Ops;
  published_ : Z;
  observed_ : Z;
  held_ : bool;
  active_ : bool;
  used_ : bool;
}.
Definition new_Timeline : Timeline := {|
  slot_ := no_slot; ops_ := no_ops; published_ := 0; observed_ := 0; held_ := false; active_ := false;
  used_ := false |}.

Definition set_active v (t : Timeline) : Timeline :=
  {| slot_ := slot_ t; ops_ := ops_ t; published_ := published_ t; observed_ := observed_ t; held_ := held_ t; active_ := v; used_ := used_ t |}.
Definition set_published v (t : Timeline) : Timeline :=
  {| slot_ := slot_ t; ops_ := ops_ t; published_ := v; observed_ := observed_ t; held_ := held_ t; active_ := active_ t; used_ := used_ t |}.
Definition set_observed v (t : Timeline) : Timeline :=
  {| slot_ := slot_ t; ops_ := ops_ t; published_ := published_ t; observed_ := v; held_ := held_ t; active_ := active_ t; used_ := used_ t |}.

Record machine := { timeline : Timeline; world : W; trace : list f_event }.

(** The 64-bit word at an address, as the GPU and the CPU share it, and a store to it. *)
Context (read64 : Z -> W -> Z) (write64 : Z -> Z -> W -> W).

Definition upd (f : Timeline -> Timeline) : ST machine unit :=
  modify (fun m => {| timeline := f (timeline m); world := world m; trace := trace m |}).
Definition act {A} (f : W -> A * W) (ev : A -> f_event) : ST machine A := fun m =>
  let '(r, w) := f (world m) in (r, {| timeline := timeline m; world := w; trace := ev r :: trace m |}).

(** Callbacks of [bind], which are not null by then, and of the other operations, which are
    those of [bind]. *)
Definition call_valid (o : Ops) (s : Slot) : ST machine bool :=
  act (fun w => match op_valid o with Some f => f s w | None => (false, w) end) FvValid.
Definition call_stopped (o : Ops) (s : Slot) : ST machine bool :=
  act (fun w => match op_stopped o with Some f => f s w | None => (false, w) end) FvStopped.
Definition call_retain (o : Ops) (s : Slot) : ST machine bool :=
  act (fun w => match op_retain o with Some f => f s w | None => (false, w) end) FvRetain.
Definition call_release (o : Ops) (s : Slot) : ST machine unit :=
  act (fun w => (tt, match op_release o with Some f => f s w | None => w end)) (fun _ => FvRelease).
Definition clear_slot (addr : Z) : ST machine unit :=
  act (fun w => (tt, write64 addr 0 w)) (fun _ => FvClear addr).
Definition read_slot (addr : Z) : ST machine Z :=
  act (fun w => (wrap 64 (read64 addr w), w)) (FvRead addr).

Definition is_some {A} (x : option A) : bool := match x with Some _ => true | None => false end.

(** * Operations *)

Definition bind_invalid (t : Timeline) (s : Slot) (o : Ops) : bool :=
  used_ t || (cpu s =? 0) || test (cpu s) 7 || (ggtt s =? 0) || test (ggtt s) 7 || (0xfffffff8 <? ggtt s) ||
  (allocation s =? 0) || (owner s =? 0) || (context s =? 0) || (epoch s =? 0) ||
  (negb (engineClass s =? 0) && negb (engineClass s =? 3) && negb (engineClass s =? 5)) ||
  negb (instance s =? 0) ||
  negb (is_some (op_valid o)) || negb (is_some (op_retain o)) || negb (is_some (op_release o)) ||
  negb (is_some (op_stopped o)).

(** [valid && stopped] of a slot, the second asked only when the first holds. *)
Definition valid_and_stopped (o : Ops) (s : Slot) : ST machine bool :=
  v <-- call_valid o s ;;
  if negb v then ret false else call_stopped o s.

Definition bind (s : Slot) (o : Ops) : ST machine Status :=
  t <-- gets timeline ;;
  if bind_invalid t s o then ret Invalid
  else
    ok <-- valid_and_stopped o s ;;
    if negb ok then ret Unavailable
    else
      ok <-- call_retain o s ;;
      if negb ok then ret Unavailable
      else
        upd (fun t => {| slot_ := s; ops_ := o; published_ := published_ t; observed_ := observed_ t;
          held_ := true; active_ := active_ t; used_ := true |}) ;;;
        ok <-- valid_and_stopped o s ;;
        if negb ok then ret Unavailable
        else
          clear_slot (cpu s) ;;;
          upd (fun t => {| slot_ := slot_ t; ops_ := ops_ t; published_ := 0; observed_ := 0; held_ := held_ t;
            active_ := true; used_ := used_ t |}) ;;;
          ret Ok.

Definition published (ep sequence : Z) : ST machine Status :=
  t <-- gets timeline ;;
  if negb (held_ t) || negb (active_ t) then ret NotBound
  else if negb (ep =? epoch (slot_ t)) then ret StaleEpoch
  else
    v <-- call_valid (ops_ t) (slot_ t) ;;
    if negb v then upd (set_active false) ;;; ret Unavailable
    else if published_ t =? U32_MAX then ret Exhausted
    else if (sequence =? 0) || negb (sequence =? wrap 32 (published_ t + 1)) then ret Invalid
    else upd (set_published sequence) ;;; ret Ok.

Definition observation_of (t : Timeline) (raw : Z) : Observation := {|
  o_owner := owner (slot_ t); o_context := context (slot_ t); o_epoch := epoch (slot_ t); o_ggtt := ggtt (slot_ t);
  o_raw := raw; o_sequence := wrap 32 raw; o_engineClass := engineClass (slot_ t);
  o_instance := instance (slot_ t); acquireOrdered := true |}.

Definition observe (ep : Z) : ST machine (Status * Observation) :=
  t <-- gets timeline ;;
  if negb (held_ t) || negb (active_ t) then ret (NotBound, no_observation)
  else if negb (ep =? epoch (slot_ t)) then ret (StaleEpoch, no_observation)
  else
    v <-- call_valid (ops_ t) (slot_ t) ;;
    if negb v then upd (set_active false) ;;; ret (Unavailable, no_observation)
    else
      raw <-- read_slot (cpu (slot_ t)) ;;
      v <-- call_valid (ops_ t) (slot_ t) ;;
      if negb v then upd (set_active false) ;;; ret (Unavailable, no_observation)
      else if negb (Z.shiftr raw 32 =? 0) || (published_ t <? raw) || (raw <? observed_ t)
      then upd (set_active false) ;;; ret (Corrupt, no_observation)
      else upd (set_observed (wrap 32 raw)) ;;; ret (Ok, observation_of t raw).

Definition invalidate : ST machine unit := upd (set_active false).

Definition close : ST machine Status :=
  t <-- gets timeline ;;
  if negb (held_ t) then ret Ok
  else
    upd (set_active false) ;;;
    s <-- call_stopped (ops_ t) (slot_ t) ;;
    if negb s then ret Busy
    else
      call_release (ops_ t) (slot_ t) ;;;
      upd (fun t => {| slot_ := no_slot; ops_ := ops_ t; published_ := published_ t; observed_ := observed_ t;
        held_ := false; active_ := active_ t; used_ := used_ t |}) ;;;
      ret Ok.

Definition address (t : Timeline) : Z := if held_ t then ggtt (slot_ t) else 0.
End Timeline.

Arguments Ops : clear implicits.
Arguments Timeline : clear implicits.
Arguments machine : clear implicits.
End XeFence.
