(* ===== verification/XeFenceThms.v ===== *)
(** Theorems of the fence timeline over every sequence of calls, any adapter and any contents of
    the slot. *)
From stdpp Require Import base numbers list sets.
From S2P Require Import Prelude.
From S2P Require Import StateWp.
From S2P Require Import XeFence.
Import XeFence.

(** * The protocol of the adapter *)

(** The retains that have not been released. *)
Fixpoint holds (tr : list f_event) : Z :=
  match tr with
  | [] => 0
  | FvRetain true :: tr => holds tr + 1
  | FvRelease :: tr => holds tr - 1
  | _ :: tr => holds tr
  end.

(** When the adapter and the slot may be used; [before] are the answers just before. *)
Definition fence_legal (ev : f_event) (before : list f_event) : Prop :=
  match ev with
  | FvValid _ | FvStopped _ => True
  | FvRetain _ => take 2 before = [FvStopped true; FvValid true] /\ FvRetain true ∉ before
  | FvRelease => take 1 before = [FvStopped true] /\ holds before = 1
  | FvClear _ => take 2 before = [FvStopped true; FvValid true] /\ holds before = 1
  | FvRead _ _ => take 1 before = [FvValid true] /\ holds before = 1
  end.

Fixpoint fence_trace (tr : list f_event) : Prop :=
  match tr with [] => True | ev :: tr => fence_legal ev tr /\ fence_trace tr end.

Section Timeline.
Context {W : Type} (read64 : Z -> W -> Z) (write64 : Z -> Z -> W -> W).
Implicit Types (m : machine W) (t : Timeline W).

Record timeline_ok m : Prop := {
  tl_trace : fence_trace (trace m);
  tl_holds : holds (trace m) = if held_ (timeline m) then 1 else 0;
  tl_used : used_ (timeline m) = false -> held_ (timeline m) = false /\ FvRetain true ∉ trace m;
  tl_active : active_ (timeline m) = true -> held_ (timeline m) = true;
  tl_range : 0 <= observed_ (timeline m) <= published_ (timeline m) /\ published_ (timeline m) <= U32_MAX;
}.

(** * Calls *)

Inductive f_op :=
  | FBind (s : Slot) (o : Ops W)
  | FPublished (ep sequence : Z)
  | FObserve (ep : Z)
  | FInvalidate
  | FClose.

Definition f_run (o : f_op) : ST (machine W) Status :=
  match o with
  | FBind s o => bind write64 s o
  | FPublished ep sequence => published ep sequence
  | FObserve ep => r <-- observe read64 ep ;; ret r.1
  | FInvalidate => invalidate ;;; ret Ok
  | FClose => close
  end.

(** Between calls the world, and with it the slot, may change in any way. *)
Inductive fence_reachable : machine W -> Prop :=
  | fr_start w : fence_reachable {| timeline := new_Timeline; world := w; trace := [] |}
  | fr_world m w : fence_reachable m -> fence_reachable {| timeline := timeline m; world := w; trace := trace m |}
  | fr_call m o : fence_reachable m -> fence_reachable (f_run o m).2.

(** One recorded action. *)
Lemma fence_wp_act {A} (f : W -> A * W) ev m (Q : A -> machine W -> Prop) :
  (forall r w, Q r {| timeline := timeline m; world := w; trace := ev r :: trace m |}) -> wp (act f ev) Q m.
Proof. intros H. unfold wp, act. destruct (f (world m)) as [r w]. apply H. Qed.

Lemma fence_wp_upd f m (Q : unit -> machine W -> Prop) :
  Q tt {| timeline := f (timeline m); world := world m; trace := trace m |} -> wp (upd f) Q m.
Proof. done. Qed.

(** Answers change nothing. *)
Definition answer (ev : f_event) : bool := match ev with FvValid _ | FvStopped _ => true | _ => false end.

Lemma answers_ok m w v :
  timeline_ok m -> forallb answer v = true ->
  timeline_ok {| timeline := timeline m; world := w; trace := v ++ trace m |}.
Proof.
  intros Hm. induction v as [|ev v IH]; intros Hv; [destruct Hm; by split|]. cbn in Hv. apply andb_true_iff in Hv as [He Hv].
  destruct (IH Hv) as [Ht Hh Hu Ha Hr]. destruct ev; try done; split; cbn in *; auto.
  all: intros E; destruct (Hu E) as [? Hn]; split; [done|]; by intros [[=]|?]%elem_of_cons.
Qed.

(** The answers [valid && stopped] in front of the trace. *)
Lemma wp_valid_and_stopped o s m (Q : bool -> machine W -> Prop) :
  (forall w v, forallb answer v = true -> Q false {| timeline := timeline m; world := w; trace := v ++ trace m |}) ->
  (forall w, Q true {| timeline := timeline m; world := w; trace := FvStopped true :: FvValid true :: trace m |}) ->
  wp (valid_and_stopped o s) Q m.
Proof.
  intros Hf Ht. unfold valid_and_stopped. wp_step. apply fence_wp_act. intros [] w; cbn [negb].
  - apply fence_wp_act. intros [] w'; [apply Ht|]. by apply (Hf w' [FvStopped false; FvValid true]).
  - apply wp_ret. by apply (Hf w [FvValid false]).
Qed.

Lemma bind_keeps s o m : timeline_ok m -> wp (bind write64 s o) (fun _ => timeline_ok) m.
Proof.
  intros Hm. unfold bind. wp_step. wp_step. wp_step; [by apply wp_ret|]. wp_step.
  assert (Eu : used_ (timeline m) = false) by (unfold bind_invalid in Hcond; rewrite !orb_false_iff in Hcond; tauto).
  apply wp_valid_and_stopped; [intros w v Hv; by apply wp_ret, answers_ok|]. intros w. cbn [negb].
  destruct Hm as [Ht Hh Hu Ha Hr]. destruct (Hu Eu) as [Eh Hn]. rewrite Eh in Hh.
  wp_step. apply fence_wp_act. cbn. intros [] w1; cbn [negb].
  2: { apply wp_ret. split; cbn; auto; [|by rewrite Eh|].
    - split_and!; auto. set_solver.
    - intros _. split; [done|]. set_solver. }
  wp_step. apply fence_wp_upd. cbn [timeline world trace]. set (m1 := {| timeline := _; world := _; trace := _ |}).
  assert (Hm1 : timeline_ok m1).
  { split; cbn; auto; [|lia|done]. split_and!; auto. set_solver. }
  wp_step. apply wp_valid_and_stopped; [intros w2 v Hv; by apply wp_ret, answers_ok|]. intros w2. cbn [negb].
  destruct Hm1 as [Ht1 Hh1 _ _ _]. cbn in Ht1, Hh1. wp_step. apply fence_wp_act. intros _ w3. wp_step. apply fence_wp_upd, wp_ret.
  split; cbn; auto 10; [done|unfold U32_MAX; lia].
Qed.

Lemma published_keeps ep sq m : timeline_ok m -> wp (published ep sq) (fun _ => timeline_ok) m.
Proof.
  intros Hm. unfold published. wp_steps; try done. apply fence_wp_act. intros v w. cbn.
  assert (Hm1 : timeline_ok {| timeline := timeline m; world := w; trace := FvValid v :: trace m |})
    by (by apply (answers_ok m w [FvValid v])).
  destruct v; cbn [negb].
  - wp_steps; try done. apply fence_wp_upd, wp_ret. destruct Hm1 as [Ht Hh Hu Ha [Hr1 Hr2]]. split; cbn; auto.
    rewrite orb_false_iff, negb_false_iff, Z.eqb_eq in Hcond2. destruct Hcond2 as [_ ->]. cbn in *.
    apply Z.eqb_neq in Hcond1. rewrite wrap_small; unfold U32_MAX in *; lia.
  - wp_step. apply fence_wp_upd, wp_ret. destruct Hm1. by split.
Qed.

Lemma invalidate_keeps m : timeline_ok m -> wp invalidate (fun _ => timeline_ok) m.
Proof. intros []. apply fence_wp_upd. by split. Qed.

Lemma close_keeps m : timeline_ok m -> wp close (fun _ => timeline_ok) m.
Proof.
  intros Hm. unfold close. wp_steps; [done|]. apply fence_wp_upd. wp_step. apply fence_wp_act. intros v w. cbn.
  set (t := set_active false (timeline m)).
  assert (Hm1 : timeline_ok {| timeline := t; world := w; trace := FvStopped v :: trace m |}).
  { apply (answers_ok {| timeline := t; world := world m; trace := trace m |} w [FvStopped v]); [|done]. destruct Hm. by split. }
  destruct v; cbn [negb]; [|by apply wp_ret]. wp_step. apply fence_wp_act. intros _ w1. wp_step. apply fence_wp_upd, wp_ret.
  destruct Hm1 as [Ht Hh Hu Ha Hr]. cbn in *. apply negb_false_iff in Hcond. unfold t in Hh. cbn in Hh.
  rewrite Hcond in Hh. split; cbn; auto; [lia|]. intros E. destruct (Hu E) as [? ?]. congruence.
Qed.

(** What a successful observation is. *)
Record observed m (ep : Z) (o : Observation) m' : Prop := {
  ob_epoch : ep = epoch (slot_ (timeline m)) /\ o_epoch o = ep;
  ob_raw : exists v, trace m' = FvValid true :: FvRead (cpu (slot_ (timeline m))) v :: FvValid true :: trace m /\
    o_raw o = v /\ o_sequence o = v /\ observed_ (timeline m) <= v <= published_ (timeline m) /\
    observed_ (timeline m') = v;
  ob_slot : o_owner o = owner (slot_ (timeline m)) /\ o_context o = context (slot_ (timeline m)) /\
    o_ggtt o = ggtt (slot_ (timeline m)) /\ o_engineClass o = engineClass (slot_ (timeline m)) /\
    o_instance o = instance (slot_ (timeline m));
}.

Lemma observe_keeps ep m : timeline_ok m ->
  wp (observe read64 ep) (fun r m' => timeline_ok m' /\
    match r.1 with
    | Ok => observed m ep r.2 m'
    | _ => r.2 = no_observation /\ observed_ (timeline m') = observed_ (timeline m)
    end) m.
Proof.
  intros Hm. unfold observe. wp_steps; try done. apply fence_wp_act. intros v w. cbn.
  assert (Hact : forall v' w' tr, timeline_ok {| timeline := timeline m; world := w'; trace := tr |} ->
    timeline_ok {| timeline := set_active false (timeline m); world := w'; trace := FvValid v' :: tr |}).
  { intros v' w' tr H. apply (answers_ok {| timeline := set_active false (timeline m); world := w'; trace := tr |} w' [FvValid v']); [|done]. destruct H. by split. }
  destruct v; cbn [negb].
  2: { wp_step. apply fence_wp_upd, wp_ret. split; [|done]. cbn. apply Hact. destruct Hm. by split. }
  rewrite orb_false_iff, !negb_false_iff in Hcond. destruct Hcond as [Eh Ea].
  wp_step. apply fence_wp_act. intros raw w1. cbn. destruct Hm as [Ht Hh Hu Ha [Hr1 Hr2]]. rewrite Eh in Hh.
  assert (Hm1 : timeline_ok {| timeline := timeline m; world := w1; trace := FvRead (cpu (slot_ (timeline m))) raw :: FvValid true :: trace m |}).
  { split; cbn; auto; [by rewrite Eh|]. intros E. destruct (Hu E). congruence. }
  wp_step. apply fence_wp_act. intros v2 w2. cbn. destruct v2; cbn [negb].
  2: { wp_step. apply fence_wp_upd, wp_ret. split; [|done]. cbn. apply (Hact false w2). destruct Hm1. by split. }
  wp_step; (wp_step; apply fence_wp_upd, wp_ret).
  { split; [|done]. apply (Hact true w2). destruct Hm1. by split. }
  rewrite !orb_false_iff, negb_false_iff, Z.eqb_eq, !Z.ltb_ge in Hcond. destruct Hcond as [[Hz Hp] Ho].
  assert (Hw : wrap 32 raw = raw) by (apply wrap_small; unfold U32_MAX in Hr2; lia).
  split.
  - apply (answers_ok {| timeline := set_observed (wrap 32 raw) (timeline m); world := w2; trace := FvRead _ raw :: FvValid true :: trace m |} w2 [FvValid true]); [|done]. destruct Hm1 as [? ? ? ? _]. split; cbn in *; auto. rewrite Hw. lia.
  - cbn. apply negb_false_iff, Z.eqb_eq in Hcond0. split; cbn; [done| |done]. exists raw. rewrite Hw. split_and!; try done; lia.
Qed.

Lemma fence_reachable_ok m : fence_reachable m -> timeline_ok m.
Proof.
  induction 1 as [w|m w _ IH|m o _ IH].
  - split; cbn; try done. intros _. by split; [|intros ?%elem_of_nil].
  - by apply (answers_ok m w []).
  - destruct o; cbn [f_run].
    + by apply bind_keeps.
    + by apply published_keeps.
    + rewrite run_bind. cbn. by apply observe_keeps.
    + rewrite run_bind. cbn. by apply invalidate_keeps.
    + by apply close_keeps.
Qed.

(** [C35] Over every sequence of calls, any adapter and any contents of the slot: the slot is
    retained at most once, after the adapter confirmed that it is valid and the hardware is
    stopped; it is cleared only while retained and stopped, read only while retained and
    valid, and released exactly once, right after the hardware was confirmed to be stopped.
    What [observe] reports is the word read from the slot in this call, between two
    confirmations, of the slot's own epoch; it never goes back and never exceeds the last
    sequence published. *)
Theorem fence_timeline m ep :
  fence_reachable m ->
  fence_trace (trace m) /\ holds (trace m) = (if held_ (timeline m) then 1 else 0) /\
  0 <= observed_ (timeline m) <= published_ (timeline m) /\ published_ (timeline m) <= U32_MAX /\
  match observe read64 ep m with
  | ((Ok, o), m') => observed m ep o m'
  | ((_, o), m') => o = no_observation /\ observed_ (timeline m') = observed_ (timeline m)
  end.
Proof.
  intros Hr. pose proof (fence_reachable_ok m Hr) as Hm. pose proof (observe_keeps ep m Hm) as [_ Ho].
  destruct Hm as [Ht Hh _ _ [? ?]]. split_and!; try done; try lia.
  destruct (observe read64 ep m) as [[[] o] m']; exact Ho.
Qed.
End Timeline.

(** * Example

    The world is the contents of the slot; the GPU has reached sequence 2. *)

Definition ex_slot : Slot := {|
  cpu := 64; ggtt := 4096; allocation := 1; owner := 7; context := 3; epoch := 5; engineClass := 0; instance := 0 |}.
Definition ex_fence_ops : Ops Z := {|
  op_valid := Some (fun _ w => (true, w)); op_retain := Some (fun _ w => (true, w)); op_release := Some (fun _ w => w);
  op_stopped := Some (fun _ w => (true, w)) |}.
Definition ex_read64 : Z -> Z -> Z := fun _ w => w.
Definition ex_write64 : Z -> Z -> Z -> Z := fun _ v _ => v.

Definition ex_fence : machine Z :=
  let m := fold_left (fun m o => (f_run ex_read64 ex_write64 o m).2)
    [FBind ex_slot ex_fence_ops; FPublished 5 1; FPublished 5 2; FPublished 5 3]
    {| timeline := new_Timeline; world := 9; trace := [] |} in
  {| timeline := timeline m; world := 2; trace := trace m |}.

Lemma ex_fence_reachable : fence_reachable ex_read64 ex_write64 ex_fence.
Proof. apply fr_world. cbn [fold_left]. do 4 apply fr_call. apply fr_start. Qed.

Lemma fence_timeline_witness :
  exists o m', observe ex_read64 5 ex_fence = ((Ok, o), m') /\ o_sequence o = 2 /\ observed ex_fence 5 o m'.
Proof.
  destruct (fence_timeline ex_read64 ex_write64 ex_fence 5 ex_fence_reachable) as (_ & _ & _ & _ & H).
  assert (E : (observe ex_read64 5 ex_fence).1.1 = Ok /\ o_sequence (observe ex_read64 5 ex_fence).1.2 = 2)
    by (vm_compute; split; reflexivity).
  destruct (observe ex_read64 5 ex_fence) as [[st o] m']. cbn in E. destruct E as [-> E]. exists o, m'. split; [reflexivity|]. split; [exact E|exact H].
Defined.
