(* ===== verification/XeContext.v ===== *)
(** The logical ring context of the Xe backend, [Mellow/XeContext.{hpp,cpp}]: the register image
    of a context that is submitted for the first time, and the append of commands to a ring. *)
From stdpp Require Import base numbers list.
From S2P Require Import Prelude.
From S2P Require Import XeMemory.
Import (hints) XeMemory.

Module XeContext.

Inductive Error := None_ | Invalid | Capacity | Unsupported | Unavailable.

#[export] Instance ContextError_eq_dec : EqDecision Error.
Proof. solve_decision. Defined.

Definition PageBytes : Z := 4096.
Definition RegisterDwords : nat := 96.
Definition ImageBytes : Z := 14 * PageBytes.
Definition RenderMmioBase : Z := 0x2000.

Record Spec := { s_ggttContext : Z; s_ggttRing : Z; s_ringBytes : Z; rootDma : Z; tablePat : Z }.
Record Staged := {
  descriptor : Z;
  rootDescriptor : Z;
  ggttContext : Z;
  ggttRing : Z;
  ringBytes : Z;
  bootstrapCaptureOnly : bool;
  softwareOnly : bool;
}.

Definition alignedPage (v : Z) : bool := Z.land v (PageBytes - 1) =? 0.
Definition ringSize (v : Z) : bool :=
  (PageBytes <=? v) && (v <=? 2 * 1024 * 1024) && (Z.land v (v -64 1) =? 0).
Definition intersects (a n b k : Z) : bool := (a <? b +64 k) && (b <? a +64 n).

(** * Register image *)

Definition group1 : list Z :=
  [0x244; 0x034; 0x030; 0x038; 0x03c; 0x168; 0x140; 0x110; 0x1c0; 0x1c4; 0x1c8; 0x180; 0x2b4; 0x120; 0x124].
Definition group2 : list Z := [0x3a8; 0x28c; 0x288; 0x284; 0x280; 0x27c; 0x278; 0x274; 0x270].

(** [for (i...) r[first + 2 * i] = RenderMmioBase + group[i]] *)
Fixpoint registers (first : nat) (group : list Z) (r : list Z) : list Z :=
  match group with
  | [] => r
  | g :: group => registers (first + 2) group (<[first := RenderMmioBase + g]> r)
  end.

(** The registers start at word [b] of [r]. *)
Definition layout (b : nat) (r : list Z) : list Z :=
  let r := <[(b + 1)%nat := 0x1108101d]> r in
  let r := registers (b + 2) group1 r in
  let r := <[(b + 0x21)%nat := 0x11081011]> r in
  let r := registers (b + 0x22) group2 r in
  let r := <[(b + 0x36)%nat := 0x11081003]> r in
  let r := <[(b + 0x37)%nat := RenderMmioBase + 0x5a8]> r in
  let r := <[(b + 0x39)%nat := RenderMmioBase + 0x5ac]> r in
  let r := <[(b + 0x41)%nat := 0x11080001]> r in
  let r := <[(b + 0x42)%nat := RenderMmioBase + 0x0c8]> r in
  <[(b + 0x44)%nat := 0x05000001]> r.

Definition page_words : nat := Z.to_nat (PageBytes / 4).

(** The words of the image that hold register data. *)
Definition is_data (i : nat) : bool :=
  ((3 <=? i) && (i <=? 31) && Nat.odd i || (0x23 <=? i) && (i <=? 0x33) && Nat.odd i ||
   (i =? 0x38) || (i =? 0x3a) || (i =? 0x43))%nat.

(** [address] is where the words of [image] are; 0 is the null pointer. *)
Definition registerLayoutMatches (address : Z) (image : list Z) (bytes : Z) : bool :=
  if (address =? 0) || test address 3 || (bytes <? ImageBytes) then false
  else
    let expected := layout 0 (replicate RegisterDwords 0) in
    forallb (fun i => is_data i || ((image !!! (page_words + i)%nat) =? (expected !!! i))) (seq 0 RegisterDwords).

(** [out] is set only with [None_]. *)
Definition buildBootstrap (s : Spec) (address : Z) (image : list Z) (bytes : Z) : Error * list Z * option Staged :=
  if (address =? 0) || test address 3 || (bytes <? ImageBytes) then (Capacity, image, None)
  else if (s_ggttContext s =? 0) || (s_ggttRing s =? 0) || negb (alignedPage (s_ggttContext s)) ||
          negb (alignedPage (s_ggttRing s)) || negb (ringSize (s_ringBytes s)) ||
          (Z.shiftl 1 32 <? s_ggttContext s +64 ImageBytes) ||
          (Z.shiftl 1 32 <? s_ggttRing s +64 s_ringBytes s) ||
          intersects (s_ggttContext s) ImageBytes (s_ggttRing s) (s_ringBytes s) then (Invalid, image, None)
  else
    let '(e, pdp) := XeMemory.encodeSystemPde (rootDma s) (tablePat s) 0 in
    if bool_decide (e <> XeMemory.Ok) || (rootDma s =? 0) then (Invalid, image, None)
    else
      let words := Z.to_nat (ImageBytes / 4) in
      let image := replicate words 0 ++ drop words image in
      let b := page_words in
      let image := layout b image in
      let image := <[(b + 3)%nat := 0x00090009]> image in
      let image := <[(b + 5)%nat := 0]> image in
      let image := <[(b + 7)%nat := 0]> image in
      let image := <[(b + 9)%nat := s_ggttRing s]> image in
      let image := <[(b + 11)%nat := Z.lor (wrap 32 (s_ringBytes s - PageBytes)) 1]> image in
      let image := <[(b + 0x31)%nat := wrap 32 (Z.shiftr pdp 32)]> image in
      let image := <[(b + 0x33)%nat := wrap 32 pdp]> image in
      (None_, image, Some {| descriptor := Z.lor (s_ggttContext s) 0x119; rootDescriptor := pdp;
        ggttContext := s_ggttContext s; ggttRing := s_ggttRing s; ringBytes := s_ringBytes s;
        bootstrapCaptureOnly := true; softwareOnly := true |}).

(** * Ring *)

(** [for (i...) ring[start + i] = ws[i]] *)
Fixpoint store_words (start : nat) (ws : list Z) (ring : list Z) : list Z :=
  match ws with
  | [] => ring
  | w :: ws => store_words (S start) ws (<[start := w]> ring)
  end.

(** The ring of [bytes] bytes is at address [rp], the commands at [cp]; [nextTail] is set only
    with [None_]. *)
Definition appendRing (rp : Z) (ring : list Z) (bytes head tail cp : Z) (commands : list Z)
    : Error * list Z * option Z :=
  let count := Z.of_nat (length commands) in
  if (rp =? 0) || (cp =? 0) || negb (ringSize bytes) || (count =? 0) || ((bytes - 8) / 4 <? count) ||
     test rp 3 || test cp 3 || (bytes <=? head) || (bytes <=? tail) || test head 7 || test tail 7
  then (Invalid, ring, None)
  else
    let raw := wrap 64 (count * 4) in
    let padded := Z.ldiff (raw +64 7) 7 in
    if (U64_MAX - bytes <? rp) || (U64_MAX - raw <? cp) || intersects rp bytes cp raw then (Invalid, ring, None)
    else
      let skip := if bytes - tail <? padded then bytes - tail else 0 in
      let free := wrap 64 (wrap 64 (head + bytes) - tail - 8) mod bytes in
      if free <? padded +64 skip then (Capacity, ring, None)
      else
        let start := if skip =? 0 then tail else 0 in
        let ring :=
          if skip =? 0 then ring
          else store_words (Z.to_nat (tail / 4)) (replicate (Z.to_nat (bytes / 4) - Z.to_nat (tail / 4)) 0) ring in
        let ring := store_words (Z.to_nat (start / 4)) commands ring in
        let ring :=
          if padded =? raw then ring else <[(Z.to_nat (start / 4) + length commands)%nat := 0]> ring in
        (None_, ring, Some (wrap 32 (wrap 64 (start + padded) mod bytes))).
End XeContext.
