(* ===== verification/XeContextThms.v ===== *)
(** Theorems of the ring context: an append to the ring is an append to the queue of words that
    the engine has still to read, and the bootstrap image is a well-formed register image that
    holds what the specification says. *)
From stdpp Require Import base numbers list.
From S2P Require Import Prelude.
From S2P Require Import PortedXe.
From S2P Require Import XeMemory.
From S2P Require Import XeVirtualOps.
From S2P Require Import XeContext.
Import (hints) XeMemory.
Import XeContext.

(** * The ring as a queue *)

(** The words between head and tail, given as word indices. *)
Definition pending (ring : list Z) (h t : nat) : list Z :=
  if (h <=? t)%nat then take (t - h) (drop h ring) else drop h ring ++ take t ring.

(** Commands are padded to an even number of words. *)
Definition pad (n : nat) : nat := if Nat.even n then 0 else 1.

Lemma store_words_spec start ws ring :
  (start + length ws <= length ring)%nat ->
  store_words start ws ring = take start ring ++ ws ++ drop (start + length ws) ring.
Proof.
  revert start ring. induction ws as [|w ws IH]; intros start ring Hl; cbn [store_words length] in *.
  { rewrite Nat.add_0_r. cbn [app]. by rewrite take_drop. }
  rewrite IH by (rewrite length_insert; lia).
  rewrite drop_insert_lt by lia. rewrite (take_S_r _ start w) by (apply list_lookup_insert_eq; lia).
  rewrite take_insert_ge by lia. rewrite <- app_assoc. cbn. by rewrite Nat.add_succ_r.
Qed.

Lemma pending_length ring h t :
  (h < length ring)%nat -> (t < length ring)%nat ->
  length (pending ring h t) = if (h <=? t)%nat then (t - h)%nat else (length ring - h + t)%nat.
Proof.
  intros Hh Ht. unfold pending. destruct (Nat.leb_spec h t).
  - rewrite length_take, length_drop. lia.
  - rewrite length_app, length_drop, length_take. lia.
Qed.

(** The store of [ws] at the tail [t] of the queue. *)
Lemma pending_store ring h t ws :
  (h < length ring)%nat -> (t + length ws <= length ring)%nat -> (t < length ring)%nat ->
  (h <= t -> h = 0 -> t + length ws < length ring)%nat -> (t < h -> t + length ws < h)%nat ->
  pending (store_words t ws ring) h ((t + length ws) mod length ring) = pending ring h t ++ ws.
Proof.
  intros Hh Ht Ht' H0 H1. rewrite store_words_spec by done. set (n := length ring) in *.
  destruct (decide (t + length ws = n)%nat) as [E|E].
  - rewrite E, Nat.Div0.mod_same. unfold pending.
    destruct (Nat.leb_spec h t) as [Hle|Hgt]; [|lia].
    rewrite (proj2 (Nat.leb_gt h 0)) by lia. rewrite take_0, app_nil_r.
    rewrite (drop_ge ring n) by (fold n; lia). rewrite app_nil_r.
    rewrite drop_app_le by (rewrite length_take; fold n; lia). by rewrite take_drop_commute, Nat.add_comm, Nat.sub_add by lia.
  - rewrite Nat.mod_small by lia. unfold pending.
    destruct (Nat.leb_spec h t) as [Hle|Hgt].
    + rewrite (proj2 (Nat.leb_le h (t + length ws))) by lia.
      rewrite drop_app_le by (rewrite length_take; fold n; lia).
      assert (Hl : length (drop h (take t ring)) = (t - h)%nat) by (rewrite length_drop, length_take; fold n; lia).
      replace (t + length ws - h)%nat with (length (drop h (take t ring)) + length ws)%nat by lia.
      rewrite take_app_add. rewrite take_app_length.
      by rewrite take_drop_commute, Nat.add_comm, Nat.sub_add by lia.
    + rewrite (proj2 (Nat.leb_gt h (t + length ws))) by lia.
      assert (Hl : length (take t ring) = t) by (rewrite length_take; fold n; lia).
      rewrite drop_app_ge by lia. rewrite drop_app_ge by lia. rewrite Hl, drop_drop.
      replace (t + length ws + (h - t - length ws))%nat with h by lia. rewrite <- app_assoc. f_equal.
      replace (t + length ws)%nat with (length (take t ring) + length ws)%nat at 1 by lia.
      rewrite take_app_add. by rewrite take_app_length.
Qed.

Lemma ringSize_spec v : ringSize v = true -> exists j, v = 8 * j /\ 512 <= j <= 262144.
Proof.
  unfold ringSize. rewrite !andb_true_iff, !Z.leb_le. intros [[H1 H2] H3]. unfold PageBytes in H1.
  destruct (powerOfTwo_spec v) as (k & Hk & ->).
  - unfold word. lia.
  - unfold XeMemory.powerOfTwo. rewrite H3. rewrite (proj2 (Z.eqb_neq _ _)) by lia. done.
  - assert (12 <= k) by (apply (Z.pow_le_mono_r_iff 2); lia).
    exists (2 ^ (k - 3)). replace (2 ^ k) with (8 * 2 ^ (k - 3)) in *; [lia|].
    change 8 with (2 ^ 3). rewrite <- Z.pow_add_r by lia. f_equal. lia.
Qed.

Lemma test_low x k : 0 <= k -> test x (2 ^ k - 1) = false -> x mod 2 ^ k = 0.
Proof. intros Hk. unfold test. rewrite negb_false_iff, Z.eqb_eq. by rewrite land_ones_low. Qed.

(** Rounding up to a multiple of 8. *)
Lemma round8 c : 0 <= c < 2 ^ 32 -> Z.ldiff (wrap 64 (c * 4) +64 7) 7 = 4 * (c + c mod 2).
Proof.
  intros Hc. rewrite !wrap_small by (rewrite ?wrap_small; lia). change 7 with (Z.ones 3) at 2.
  rewrite Z.ldiff_ones_r, Z.shiftr_div_pow2, Z.shiftl_mul_pow2 by lia. change (2 ^ 3) with 8.
  pose proof (Z.div_mod c 2). pose proof (Z.mod_pos_bound c 2).
  replace (c * 4 + 7) with ((c / 2 + c mod 2) * 8 + (7 - 4 * (c mod 2))) by lia.
  rewrite Z.div_add_l, (Z.div_small (7 - _)) by lia. lia.
Qed.

Lemma pad_mod (n : nat) : Z.of_nat (pad n) = Z.of_nat n mod 2.
Proof.
  unfold pad. destruct (Nat.even n) eqn:E.
  - apply Nat.even_spec in E as [k ->]. rewrite Nat2Z.inj_mul, Z.mul_comm, Z.mod_mul; lia.
  - assert (Ho : Nat.odd n = true) by (unfold Nat.odd; by rewrite E). apply Nat.odd_spec in Ho as [k ->].
    rewrite Nat2Z.inj_add, Nat2Z.inj_mul, Z.add_comm, Z.mul_comm, Z.mod_add; lia || done.
Qed.

Lemma pad_even (n : nat) : exists q, (n + pad n = 2 * q)%nat.
Proof.
  exists ((n + pad n) / 2)%nat. pose proof (pad_mod n). pose proof (Nat.div_mod (n + pad n) 2 ltac:(lia)).
  enough ((n + pad n) mod 2 = 0)%nat by lia. apply Nat2Z.inj. rewrite Nat2Z.inj_mod, Nat2Z.inj_add. Z.div_mod_to_equations. lia.
Qed.

(** The padding of commands, stored after them. *)
Lemma store_padded start ws ring :
  (start + length ws + pad (length ws) <= length ring)%nat ->
  (if Nat.even (length ws) then store_words start ws ring
   else <[(start + length ws)%nat := 0]> (store_words start ws ring)) =
  store_words start (ws ++ replicate (pad (length ws)) 0) ring.
Proof.
  unfold pad. destruct (Nat.even (length ws)); intros Hl; [by rewrite app_nil_r|].
  assert (E : forall ws i (r : list Z), store_words i (ws ++ [0]) r = <[(i + length ws)%nat := 0]> (store_words i ws r)).
  { clear. induction ws as [|w ws IH]; intros i r; cbn; [by rewrite Nat.add_0_r|]. rewrite IH. f_equal. lia. }
  symmetry. apply E.
Qed.

Lemma length_store start ws ring : length (store_words start ws ring) = length ring.
Proof. revert start ring. induction ws as [|w ws IH]; intros; cbn; [done|]. by rewrite IH, length_insert. Qed.

(** The append in words: [h] and [t] are even indices in a ring of [n] words. *)
Lemma append_words ring h t ws (n := length ring) :
  let p := (length ws + pad (length ws))%nat in
  let k := if (n - t <? p)%nat then (n - t)%nat else 0%nat in
  (0 < length ws)%nat -> (h < n)%nat -> (t < n)%nat -> (p + k + 2 <= n - length (pending ring h t))%nat ->
  let ring1 := if (k =? 0)%nat then ring else store_words t (replicate k 0) ring in
  let start := if (k =? 0)%nat then t else 0%nat in
  let ring2 := store_words start (ws ++ replicate (pad (length ws)) 0) ring1 in
  pending ring2 h ((start + p) mod n) = pending ring h t ++ replicate k 0 ++ ws ++ replicate (pad (length ws)) 0 /\
  ((start + p) mod n <> h)%nat.
Proof.
  intros p k Hpos Hh Ht Hroom ring1 start ring2. subst ring2 ring1 start.
  assert (Hws : length (ws ++ replicate (pad (length ws)) 0) = p) by (by rewrite length_app, length_replicate).
  rewrite pending_length in Hroom by done. fold n in Hroom. rewrite <- Hws. subst k.
  assert (Hle : (h <= t /\ p + (if (n - t <? p)%nat then n - t else 0) + 2 <= n - (t - h) \/
    t < h /\ p + (if (n - t <? p)%nat then n - t else 0) + 2 <= h - t)%nat)
    by (destruct (Nat.leb_spec h t); lia).
  clear Hroom. destruct (Nat.ltb_spec (n - t) p) as [Hk|Hk].
  - rewrite (proj2 (Nat.eqb_neq (n - t) 0)) by lia.
    set (z := replicate (n - t) 0). assert (Hz : length z = (n - t)%nat) by apply length_replicate.
    assert (E1 : pending (store_words t z ring) h ((t + length z) mod n) = pending ring h t ++ z).
    { apply pending_store; fold n; lia. }
    rewrite Hz, (Nat.add_comm t), Nat.sub_add, Nat.Div0.mod_same in E1 by lia.
    assert (Hn1 : length (store_words t z ring) = n) by apply length_store.
    pose proof (pending_store (store_words t z ring) h 0 (ws ++ replicate (pad (length ws)) 0)) as E2.
    rewrite Hn1, Hws in E2. rewrite Hws, E2, E1 by lia. rewrite <- app_assoc. split; [done|].
    rewrite Nat.mod_small by lia. lia.
  - cbn [Nat.eqb replicate app]. split.
    + apply pending_store; fold n; rewrite ?Hws; lia.
    + rewrite Hws. destruct (decide (t + p = n)%nat) as [E|E].
      * rewrite E, Nat.Div0.mod_same. lia.
      * rewrite Nat.mod_small by lia. lia.
Qed.

(** What a successful append does to the queue. *)
Record appended (bytes head tail : Z) (ring commands ring' : list Z) (next : Z) (k : nat) : Prop := {
  ap_length : length ring' = length ring;
  ap_next : 0 <= next < bytes /\ next mod 8 = 0 /\ next <> head;
  ap_queue : pending ring' (Z.to_nat (head / 4)) (Z.to_nat (next / 4)) =
    pending ring (Z.to_nat (head / 4)) (Z.to_nat (tail / 4)) ++ replicate k 0 ++ commands ++
    replicate (pad (length commands)) 0;
  ap_skip : k = 0%nat \/ (Z.to_nat (tail / 4) + k)%nat = length ring;
}.

(** The words that the append needs: the commands, padded, and the rest of the ring when they do
    not fit before its end. *)
Definition needed (ring commands : list Z) (t : nat) : nat :=
  let p := (length commands + pad (length commands))%nat in
  (p + if (length ring - t <? p)%nat then length ring - t else 0)%nat.

Definition arguments_ok (rp bytes head tail cp : Z) (commands : list Z) : Prop :=
  rp <> 0 /\ cp <> 0 /\ ringSize bytes = true /\ commands <> [] /\ Z.of_nat (length commands) <= (bytes - 8) / 4 /\
  rp mod 4 = 0 /\ cp mod 4 = 0 /\ head < bytes /\ tail < bytes /\ head mod 8 = 0 /\ tail mod 8 = 0 /\
  rp + bytes < 2 ^ 64 /\ cp + 4 * Z.of_nat (length commands) < 2 ^ 64 /\
  (rp + bytes <= cp \/ cp + 4 * Z.of_nat (length commands) <= rp).

Lemma free_words (n h t : nat) :
  (h < n)%nat -> (t < n)%nat -> (2 <= n - t)%nat -> h <> S t -> forall ring, length ring = n ->
  (4 * Z.of_nat h + 4 * Z.of_nat n - 4 * Z.of_nat t - 8) mod (4 * Z.of_nat n) =
  4 * Z.of_nat (n - length (pending ring h t) - 2).
Proof.
  intros Hh Ht H2 Hs ring Hn. rewrite pending_length, Hn by lia. destruct (Nat.leb_spec h t).
  - symmetry. apply (Z.mod_unique_pos _ _ 0); lia.
  - symmetry. apply (Z.mod_unique_pos _ _ 1); lia.
Qed.

(** The checks of [appendRing]. *)
Lemma test_mod x k : 0 <= k -> test x (2 ^ k - 1) = negb (x mod 2 ^ k =? 0).
Proof. intros Hk. unfold test. by rewrite land_ones_low. Qed.

Lemma first_checks rp bytes head tail cp (commands : list Z) :
  (rp =? 0) || (cp =? 0) || negb (ringSize bytes) || (Z.of_nat (length commands) =? 0) ||
   ((bytes - 8) / 4 <? Z.of_nat (length commands)) || test rp 3 || test cp 3 || (bytes <=? head) ||
   (bytes <=? tail) || test head 7 || test tail 7 = false <->
  rp <> 0 /\ cp <> 0 /\ ringSize bytes = true /\ commands <> [] /\ Z.of_nat (length commands) <= (bytes - 8) / 4 /\
  rp mod 4 = 0 /\ cp mod 4 = 0 /\ head < bytes /\ tail < bytes /\ head mod 8 = 0 /\ tail mod 8 = 0.
Proof.
  change 3 with (2 ^ 2 - 1). change 7 with (2 ^ 3 - 1). rewrite !test_mod by lia.
  rewrite !orb_false_iff, !negb_false_iff, !Z.eqb_eq, !Z.eqb_neq, !Z.ltb_ge, !Z.leb_gt.
  assert (Z.of_nat (length commands) <> 0 <-> commands <> []) as -> by (destruct commands; cbn; split; done || lia).
  tauto.
Qed.

Lemma second_checks rp bytes cp c :
  0 <= rp -> 0 <= cp -> 0 < bytes <= 2 ^ 22 -> 0 < c <= 2 ^ 22 ->
  (U64_MAX - bytes <? rp) || (U64_MAX - c <? cp) || intersects rp bytes cp c = false <->
  rp + bytes < 2 ^ 64 /\ cp + c < 2 ^ 64 /\ (rp + bytes <= cp \/ cp + c <= rp).
Proof.
  intros Hr Hc Hb Hn. unfold intersects, U64_MAX. rewrite !orb_false_iff, !Z.ltb_ge, andb_false_iff, !Z.ltb_ge. split.
  - intros [[B1 B2] H]. rewrite !wrap_small in H by lia. lia.
  - intros (? & ? & ?). rewrite !wrap_small by lia. lia.
Qed.

(** What [appendRing] writes, once [k] words are skipped. *)
Lemma appended_ok bytes head tail (ring commands : list Z) (h t k a b j : nat) :
  let p := (length commands + pad (length commands))%nat in
  let start := if (k =? 0)%nat then tail else 0 in
  let ring1 := if (k =? 0)%nat then ring
    else store_words (Z.to_nat (tail / 4)) (replicate (Z.to_nat (bytes / 4) - Z.to_nat (tail / 4)) 0) ring in
  let ring2 := store_words (Z.to_nat (start / 4)) commands ring1 in
  commands <> [] -> h = (2 * a)%nat -> t = (2 * b)%nat -> length ring = (2 * j)%nat -> Z.of_nat j < 2 ^ 20 ->
  head = 4 * Z.of_nat h -> tail = 4 * Z.of_nat t -> bytes = 4 * Z.of_nat (length ring) ->
  (h < length ring)%nat -> (t < length ring)%nat -> k = (if (length ring - t <? p)%nat then (length ring - t)%nat else 0%nat) ->
  (p + k + 2 <= length ring - length (pending ring h t))%nat ->
  appended bytes head tail ring commands
    (if 4 * Z.of_nat p =? 4 * Z.of_nat (length commands) then ring2
     else <[(Z.to_nat (start / 4) + length commands)%nat := 0]> ring2)
    (wrap 32 (wrap 64 (start + 4 * Z.of_nat p) mod bytes)) k.
Proof.
  intros p start ring1 ring2 Hne Eh Et En Hj -> -> -> Hh Ht Ek Hroom. set (n := length ring) in *.
  assert (Hdiv : forall x : nat, Z.to_nat (4 * Z.of_nat x / 4) = x) by (intros x; rewrite Z.mul_comm, Z.div_mul; lia).
  set (s := if (k =? 0)%nat then t else 0%nat).
  assert (Es : start = 4 * Z.of_nat s) by (unfold start, s; destruct (k =? 0)%nat; lia).
  assert (Hl : (0 < length commands)%nat) by (destruct commands; [done|cbn; lia]).
  destruct (append_words ring h t commands Hl Hh Ht) as [Q1 Q2]; [fold n p; rewrite <- Ek; lia|].
  fold n p in Q1, Q2. rewrite <- Ek in Q1, Q2. fold s in Q1, Q2.
  assert (Er : ring1 = if (k =? 0)%nat then ring else store_words t (replicate k 0) ring).
  { unfold ring1. destruct (Nat.eqb_spec k 0) as [|Hk]; [done|]. rewrite !Hdiv. do 2 f_equal.
    destruct (n - t <? p)%nat; lia. }
  rewrite <- Er in Q1. assert (Hr1 : length ring1 = n) by (rewrite Er; destruct (k =? 0)%nat; rewrite ?length_store; done).
  assert (Hfit : (s + p <= n)%nat).
  { unfold s. revert Ek. destruct (Nat.ltb_spec (n - t) p); intros ->; [|cbn; lia].
    rewrite (proj2 (Nat.eqb_neq (n - t) 0)) by lia. lia. }
  assert (Ee : (4 * Z.of_nat p =? 4 * Z.of_nat (length commands)) = Nat.even (length commands)).
  { unfold p, pad. destruct (Nat.even _); [apply Z.eqb_eq|apply Z.eqb_neq]; lia. }
  assert (Enx : wrap 32 (wrap 64 (start + 4 * Z.of_nat p) mod (4 * Z.of_nat n)) = 4 * Z.of_nat ((s + p) mod n)).
  { rewrite Es, <- Z.mul_add_distr_l, <- Nat2Z.inj_add, (wrap_small 64) by lia.
    rewrite Z.mul_mod_distr_l, <- Nat2Z.inj_mod by lia. pose proof (Nat.mod_upper_bound (s + p) n). apply wrap_small. lia. }
  rewrite Ee, Enx. unfold ring2. rewrite Es, Hdiv.
  rewrite store_padded by (rewrite Hr1; unfold p in Hfit; lia).
  split; rewrite ?length_store, ?Hdiv; fold n.
  - done.
  - pose proof (Nat.mod_upper_bound (s + p) n ltac:(lia)). split; [lia|]. split; [|lia].
    destruct (pad_even (length commands)) as [q Eq]. fold p in Eq. rewrite En.
    replace (s + p)%nat with (2 * (q + if (k =? 0)%nat then b else 0))%nat
      by (unfold s; destruct (k =? 0)%nat; lia).
    rewrite Nat.Div0.mul_mod_distr_l, Nat2Z.inj_mul, Z.mul_assoc, Z.mul_comm. apply Z.mod_mul. lia.
  - exact Q1.
  - destruct (n - t <? p)%nat; lia.
Qed.

(** [C36] An append to the ring is an append to the queue of words that the engine has still to
    read.  With valid arguments it fails only when the padded commands, with the zeros that
    skip the end of the ring when they do not fit before it, would leave less than two words
    free, and then nothing is changed.  Otherwise the queue is what it was, followed by those
    zeros, the commands and their padding; the new tail is aligned, in the ring and different
    from the head, so that a full ring never looks empty.  Invalid arguments change nothing. *)
Theorem append_ring_fifo rp ring bytes head tail cp commands :
  word 64 rp -> word 64 cp -> word 32 head -> word 32 tail -> bytes = 4 * Z.of_nat (length ring) ->
  let h := Z.to_nat (head / 4) in let t := Z.to_nat (tail / 4) in
  match appendRing rp ring bytes head tail cp commands with
  | (None_, ring', Some next) =>
      arguments_ok rp bytes head tail cp commands /\ exists k, appended bytes head tail ring commands ring' next k
  | (Capacity, ring', None) =>
      arguments_ok rp bytes head tail cp commands /\ ring' = ring /\
      (length ring < length (pending ring h t) + needed ring commands t + 2)%nat
  | (Invalid, ring', None) => ~ arguments_ok rp bytes head tail cp commands /\ ring' = ring
  | _ => False
  end.
Proof.
  intros Hrp Hcp Hh Ht Hbytes h t. unfold appendRing.
  set (c := Z.of_nat (length commands)).
  match goal with |- context [if ?b then (Invalid, ring, None) else _] => destruct b eqn:E1 end.
  { split; [|done]. intros (A1 & A2 & A3 & A4 & A5 & A6 & A7 & A8 & A9 & A10 & A11 & _). unfold c in E1.
    rewrite (proj2 (first_checks rp bytes head tail cp commands)) in E1; [done|]. auto 20. }
  unfold c in E1. apply first_checks in E1 as (A1 & A2 & A3 & A4 & A5 & A6 & A7 & A8 & A9 & A10 & A11).
  fold c in A5. destruct (ringSize_spec bytes A3) as (j & Ej & Hj). destruct Hrp as [Hrp _], Hcp as [Hcp _], Hh as [Hh _], Ht as [Ht _].
  assert (Hc : 0 < c) by (unfold c; destruct commands; [done|cbn; lia]).
  assert (Hc' : 4 * c <= bytes - 8) by (pose proof (Z.mul_div_le (bytes - 8) 4); lia).
  assert (Hraw : wrap 64 (c * 4) = 4 * c) by (rewrite wrap_small; lia).
  rewrite Hraw. match goal with |- context [if ?b then (Invalid, ring, None) else _] => destruct b eqn:E2 end.
  { split; [|done]. intros (_ & _ & _ & _ & _ & _ & _ & _ & _ & _ & _ & H).
    rewrite (proj2 (second_checks rp bytes cp (4 * c) Hrp Hcp ltac:(lia) ltac:(lia)) H) in E2. done. }
  apply second_checks in E2; [|lia..].
  assert (Hargs : arguments_ok rp bytes head tail cp commands) by (unfold arguments_ok; fold c; tauto).
  clear A1 A2 A3 A6 A7 E2.
  pose proof (round8 c ltac:(lia)) as Hpad. rewrite Hraw in Hpad. rewrite Hpad. clear Hpad Hraw.
  apply Z.mod_divide in A10 as [a Ha]; [|lia]. apply Z.mod_divide in A11 as [b Hb]; [|lia].
  assert (Eh : Z.of_nat h = 2 * a) by (unfold h; rewrite Ha; change 8 with (2 * 4); rewrite Z.mul_assoc, Z.div_mul; lia).
  assert (Et : Z.of_nat t = 2 * b) by (unfold t; rewrite Hb; change 8 with (2 * 4); rewrite Z.mul_assoc, Z.div_mul; lia).
  set (n := length ring) in *. assert (En : Z.of_nat n = 2 * j) by lia.
  set (p := (length commands + pad (length commands))%nat).
  assert (Ep : 4 * (c + c mod 2) = 4 * Z.of_nat p) by (unfold p, c; rewrite Nat2Z.inj_add, pad_mod; lia). rewrite Ep.
  set (k := if (n - t <? p)%nat then (n - t)%nat else 0%nat).
  assert (Ek : (if bytes - tail <? 4 * Z.of_nat p then bytes - tail else 0) = 4 * Z.of_nat k).
  { unfold k. destruct (Nat.ltb_spec (n - t) p), (Z.ltb_spec (bytes - tail) (4 * Z.of_nat p)); lia. }
  rewrite Ek. clear Ek. assert (Hk : (k <= n - t)%nat) by (unfold k; destruct (_ <? _)%nat; lia).
  assert (Hpeven : (pad (length commands) <= 1)%nat) by (unfold pad; destruct (Nat.even _); lia).
  assert (Hfree : wrap 64 (wrap 64 (head + bytes) - tail - 8) mod bytes = 4 * Z.of_nat (n - length (pending ring h t) - 2)).
  { rewrite !wrap_small by (rewrite ?wrap_small; lia). rewrite <- (free_words n h t); [|lia..|done]. f_equal; lia. }
  rewrite Hfree. clear Hfree. rewrite (wrap_small 64 (4 * Z.of_nat p + _)) by lia.
  pose proof (pending_length ring h t ltac:(fold n; lia) ltac:(fold n; lia)) as Hlen. fold n in Hlen.
  destruct (Z.ltb_spec (4 * Z.of_nat (n - length (pending ring h t) - 2)) (4 * Z.of_nat p + 4 * Z.of_nat k)) as [Hroom|Hroom].
  { split; [done|]. split; [done|]. unfold needed. fold n p k. destruct (Nat.leb_spec h t); lia. }
  split; [done|]. exists k.
  assert (Hkz : (4 * Z.of_nat k =? 0) = (k =? 0)%nat) by (destruct (Nat.eqb_spec k 0), (Z.eqb_spec (4 * Z.of_nat k) 0); lia).
  rewrite Hkz. apply (appended_ok bytes head tail ring commands h t k (Z.to_nat a) (Z.to_nat b) (Z.to_nat j)); fold n p k; try done; clear Hargs; lia.
Qed.

Lemma append_ring_fifo_witness :
  let ring := replicate 1024 1 in
  exists ring' k, appendRing 4096 ring 4096 64 4088 65536 [7; 8; 9] = (None_, ring', Some 16) /\
    pending ring' 16 4 = pending ring 16 1022 ++ replicate k 0 ++ [7; 8; 9] ++ [0].
Proof.
  intros ring. pose proof (append_ring_fifo 4096 ring 4096 64 4088 65536 [7; 8; 9]
    ltac:(unfold word; lia) ltac:(unfold word; lia) ltac:(unfold word; lia) ltac:(unfold word; lia)
    ltac:(vm_compute; reflexivity)) as H.
  assert (E : exists ring', appendRing 4096 ring 4096 64 4088 65536 [7; 8; 9] = (None_, ring', Some 16))
    by (eexists; vm_compute; reflexivity).
  destruct E as [ring' E]. rewrite E in H. destruct H as [_ [k A]]. exists ring', k. split; [exact E|].
  exact (ap_queue _ _ _ _ _ _ _ _ A).
Defined.

(** * The bootstrap image *)

Lemma insert_mid pre (mid post : list Z) i x b :
  length pre = b -> (i < length mid)%nat -> <[(b + i)%nat := x]> (pre ++ mid ++ post) = pre ++ <[i := x]> mid ++ post.
Proof. intros <- Hi. rewrite insert_app_r. f_equal. by apply insert_app_l. Qed.

Lemma length_registers first group r : length (registers first group r) = length r.
Proof. revert first r. induction group as [|g group IH]; intros; cbn; [done|]. by rewrite IH, length_insert. Qed.

Lemma registers_mid pre (mid post : list Z) group first b :
  length pre = b -> (first + 2 * length group <= length mid)%nat ->
  registers (b + first) group (pre ++ mid ++ post) = pre ++ registers first group mid ++ post.
Proof.
  intros Hb. revert first mid. induction group as [|g group IH]; intros first mid Hl; cbn [registers length] in *; [done|].
  rewrite insert_mid by (done || lia). rewrite <- Nat.add_assoc. apply IH. rewrite length_insert. lia.
Qed.

Lemma layout_mid pre (mid post : list Z) b :
  length pre = b -> length mid = RegisterDwords -> layout b (pre ++ mid ++ post) = pre ++ layout 0 mid ++ post.
Proof.
  intros Hb Hm. unfold RegisterDwords in Hm. unfold layout.
  rewrite insert_mid by (done || lia).
  repeat (rewrite registers_mid || rewrite insert_mid); rewrite ?length_insert, ?length_registers, ?length_insert, ?length_registers, ?length_insert; try done; cbn [length group1 group2]; try lia.
Qed.

(** What a successful [buildBootstrap] leaves: zeros but for the registers. *)
Record bootstrapped (s : Spec) (image image' : list Z) (st : Staged) (regs : list Z) : Prop := {
  bs_image : image' = replicate page_words 0 ++ regs ++
    replicate (Z.to_nat (ImageBytes / 4) - page_words - RegisterDwords) 0 ++ drop (Z.to_nat (ImageBytes / 4)) image;
  bs_length : length regs = RegisterDwords;
  bs_ring : regs !!! 5%nat = 0 /\ regs !!! 7%nat = 0 /\ regs !!! 9%nat = s_ggttRing s;
  bs_control : regs !!! 11%nat = s_ringBytes s - PageBytes + 1;
  bs_root : regs !!! 0x31%nat * 2 ^ 32 + regs !!! 0x33%nat = rootDescriptor st /\
    Z.land (rootDescriptor st) XeMemory.AddressMask = rootDma s /\ Z.testbit (rootDescriptor st) 0 = true;
  bs_descriptor : descriptor st = s_ggttContext s + 0x119;
  bs_staged : ggttContext st = s_ggttContext s /\ ggttRing st = s_ggttRing s /\ ringBytes st = s_ringBytes s;
  bs_ranges : s_ggttContext s + ImageBytes <= 2 ^ 32 /\ s_ggttRing s + s_ringBytes s <= 2 ^ 32 /\
    (s_ggttContext s + ImageBytes <= s_ggttRing s \/ s_ggttRing s + s_ringBytes s <= s_ggttContext s);
}.

Lemma lor_low x y k : 0 <= k -> x mod 2 ^ k = 0 -> word k y -> Z.lor x y = x + y.
Proof.
  intros Hk Hx Hy. symmetry. apply Z.add_nocarry_lor. apply Z.bits_inj'. intros i Hi. rewrite Z.land_spec, Z.bits_0.
  destruct (Z.ltb_spec i k).
  - by rewrite (testbit_aligned k) by (done || lia).
  - by rewrite (testbit_above k y), andb_false_r by (done || lia).
Qed.

Lemma alignedPage_spec v : alignedPage v = true -> v mod 4096 = 0.
Proof. unfold alignedPage, PageBytes. change 4096 with (2 ^ 12). rewrite land_ones_low, Z.eqb_eq by lia. done. Qed.

Lemma bootstrap_regs (image : list Z) (ring control hi lo : Z) :
  let words := Z.to_nat (ImageBytes / 4) in let b := page_words in
  exists regs, length regs = RegisterDwords /\
    <[(b + 0x33)%nat := lo]> (<[(b + 0x31)%nat := hi]> (<[(b + 11)%nat := control]> (<[(b + 9)%nat := ring]>
      (<[(b + 7)%nat := 0]> (<[(b + 5)%nat := 0]> (<[(b + 3)%nat := 0x00090009]>
        (layout b (replicate words 0 ++ drop words image))))))))
    = replicate b 0 ++ regs ++ replicate (words - b - RegisterDwords) 0 ++ drop words image /\
    forallb (fun i => is_data i || ((regs !!! i) =? (layout 0 (replicate RegisterDwords 0) !!! i))) (seq 0 RegisterDwords) = true /\
    regs !!! 5%nat = 0 /\ regs !!! 7%nat = 0 /\ regs !!! 9%nat = ring /\ regs !!! 11%nat = control /\
    regs !!! 0x31%nat = hi /\ regs !!! 0x33%nat = lo.
Proof.
  intros words b. assert (Hr : length (layout 0 (replicate RegisterDwords 0)) = RegisterDwords) by reflexivity.
  assert (Hb : length (replicate b 0) = b) by apply length_replicate.
  exists (<[0x33%nat := lo]> (<[0x31%nat := hi]> (<[11%nat := control]> (<[9%nat := ring]>
      (<[7%nat := 0]> (<[5%nat := 0]> (<[3%nat := 0x00090009]> (layout 0 (replicate RegisterDwords 0))))))))).
  split; [by rewrite !length_insert|]. split; [|vm_compute; done].
  replace words with (b + (RegisterDwords + (words - b - RegisterDwords)))%nat at 1 by (vm_compute; done).
  rewrite !replicate_add, <- !app_assoc. rewrite layout_mid by (done || apply length_replicate).
  by repeat (rewrite insert_mid by (done || rewrite ?length_insert, Hr; unfold RegisterDwords; lia)).
Qed.

Lemma word_sys_pde a pat : word 46 a -> word 64 (XeMemory.sys_pde a pat).
Proof.
  intros Ha. apply word_of_bits; [lia| |].
  - unfold XeMemory.sys_pde. rewrite !Z.lor_nonneg. destruct Ha. repeat split; try done.
    unfold PortedXe.pde_encode_pat_index. destruct (test pat (BIT 0)), (test pat (BIT 1)); done.
  - intros i Hi. rewrite XeMemory.sys_pde_bits, (testbit_above 46 a) by (done || lia). zcases; lia || by rewrite ?andb_false_r.
Qed.

Lemma halves x : word 64 x -> wrap 32 (Z.shiftr x 32) * 2 ^ 32 + wrap 32 x = x.
Proof.
  intros [H0 H1]. unfold wrap. rewrite Z.shiftr_div_pow2 by lia.
  rewrite (Z.mod_small (x / 2 ^ 32)); [pose proof (Z.div_mod x (2 ^ 32)); lia|].
  split; [apply Z.div_pos; lia|]. apply Z.div_lt_upper_bound; lia.
Qed.

Lemma forallb_ext_seq (f g : nat -> bool) n :
  (forall i, (i < n)%nat -> f i = g i) -> forallb f (seq 0 n) = forallb g (seq 0 n).
Proof.
  intros H. assert (G : forall i, In i (seq 0 n) -> f i = g i) by (intros i Hi; apply in_seq in Hi; apply H; lia).
  revert G. clear H. induction (seq 0 n) as [|i l IH]; intros G; cbn in *; [done|]. rewrite G, IH by auto. done.
Qed.

(** The checks of the specification. *)
Lemma spec_checks s :
  word 32 (s_ggttContext s) -> word 32 (s_ggttRing s) -> word 32 (s_ringBytes s) ->
  (s_ggttContext s =? 0) || (s_ggttRing s =? 0) || negb (alignedPage (s_ggttContext s)) ||
  negb (alignedPage (s_ggttRing s)) || negb (ringSize (s_ringBytes s)) ||
  (Z.shiftl 1 32 <? s_ggttContext s +64 ImageBytes) || (Z.shiftl 1 32 <? s_ggttRing s +64 s_ringBytes s) ||
  intersects (s_ggttContext s) ImageBytes (s_ggttRing s) (s_ringBytes s) = false ->
  s_ggttContext s mod 4096 = 0 /\ ringSize (s_ringBytes s) = true /\
  s_ggttContext s + ImageBytes <= 2 ^ 32 /\ s_ggttRing s + s_ringBytes s <= 2 ^ 32 /\
  (s_ggttContext s + ImageBytes <= s_ggttRing s \/ s_ggttRing s + s_ringBytes s <= s_ggttContext s).
Proof.
  intros [? ?] [? ?] [? ?]. unfold intersects, ImageBytes, PageBytes.
  rewrite !orb_false_iff, !negb_false_iff, !Z.eqb_neq, andb_false_iff, !Z.ltb_ge, Z.shiftl_1_l.
  intros [[[[[[_ K3] _] K5] H6] H7] H8]. rewrite (wrap_small 64) in H6, H7 by lia.
  rewrite (wrap_small 64 (s_ggttRing s + _)), (wrap_small 64 (s_ggttContext s + _)) in H8 by lia.
  split; [by apply alignedPage_spec|]. split; [done|]. lia.
Qed.

(** [C37] The bootstrap image.  [buildBootstrap] succeeds only with an image buffer of the size of
    the context, the two GGTT ranges page-aligned, below 4 GiB and disjoint.  The image it makes
    passes [registerLayoutMatches]; it is zero but for the 96 register words, in which the ring
    registers hold the address and size of the ring and an empty ring, and the page-directory
    pointer, read back from its two halves, is a present entry whose address is the root of the
    page tables.  Words beyond the context are not touched.  A refused call changes nothing. *)
Theorem bootstrap_image s address image bytes :
  word 32 (s_ggttContext s) -> word 32 (s_ggttRing s) -> word 32 (s_ringBytes s) -> word 64 (rootDma s) ->
  word 8 (tablePat s) ->
  match buildBootstrap s address image bytes with
  | (None_, image', Some st) =>
      registerLayoutMatches address image' bytes = true /\ exists regs, bootstrapped s image image' st regs
  | (None_, _, None) | (_, _, Some _) => False
  | (_, image', None) => image' = image
  end.
Proof.
  intros Hc Hr Hb Hd Hp. unfold buildBootstrap.
  destruct ((address =? 0) || test address 3 || (bytes <? ImageBytes)) eqn:E0; [done|].
  match goal with |- context [if ?b then (Invalid, image, None) else _] => destruct b eqn:E1 end; [done|].
  apply spec_checks in E1 as (A1 & A2 & A3); [|done..].
  rewrite XeMemory.encodeSystemPde_spec by (destruct Hd, Hp; done).
  destruct (XeMemory.dmaPage (rootDma s) && (tablePat s <=? 3)) eqn:E2; [|done].
  apply andb_true_iff in E2 as [E2 _]. rewrite bool_decide_eq_false_2 by auto. cbn [orb].
  destruct (rootDma s =? 0) eqn:E3; [done|].
  set (pdp := XeMemory.sys_pde (rootDma s) (tablePat s)). cbv zeta.
  destruct (bootstrap_regs image (s_ggttRing s) (Z.lor (wrap 32 (s_ringBytes s - PageBytes)) 1)
    (wrap 32 (Z.shiftr pdp 32)) (wrap 32 pdp)) as (regs & R1 & R2 & R3 & R4 & R5 & R6 & R7 & R8 & R9).
  cbv zeta in R2. rewrite R2. split.
  - unfold registerLayoutMatches. rewrite E0. rewrite <- R3. apply forallb_ext_seq. intros i Hi.
    rewrite lookup_total_app_r, length_replicate, Nat.add_comm, Nat.add_sub by (rewrite length_replicate; lia).
    by rewrite lookup_total_app_l by lia.
  - clear R2 R3. exists regs. destruct (ringSize_spec _ A2) as (j & Ej & Hj). split; cbn [rootDescriptor descriptor ggttContext ggttRing ringBytes].
    + reflexivity.
    + exact R1.
    + auto.
    + rewrite R7, wrap_small by (unfold PageBytes; lia).
      apply (lor_low _ 1 3); [lia| |by unfold word].
      rewrite Ej. unfold PageBytes. replace (8 * j - 4096) with ((j - 512) * 2 ^ 3) by lia. apply Z.mod_mul. lia.
    + rewrite R8, R9. split; [|split; [apply XeMemory.sys_pde_addr|apply XeMemory.sys_pde_present]; destruct Hd; done].
      apply halves. apply word_sys_pde. destruct Hd. apply XeMemory.dmaPage_spec in E2 as [_ ?]; [|done]. by split.
    + apply (lor_low _ _ 12); [lia|exact A1|by unfold word].
    + auto.
    + exact A3.
Qed.

Lemma bootstrap_image_witness :
  let s := {| s_ggttContext := 0x100000; s_ggttRing := 0x200000; s_ringBytes := 4096; rootDma := 0x7000; tablePat := 2 |} in
  let image := replicate 14336 1 in
  exists image' st, buildBootstrap s 4096 image 57344 = (None_, image', Some st) /\
    registerLayoutMatches 4096 image' 57344 = true /\ exists regs, bootstrapped s image image' st regs.
Proof.
  intros s image. pose proof (bootstrap_image s 4096 image 57344 ltac:(unfold word; cbn; lia) ltac:(unfold word; cbn; lia)
    ltac:(unfold word; cbn; lia) ltac:(unfold word; cbn; lia) ltac:(unfold word; cbn; lia)) as H.
  assert (E : exists image' st, buildBootstrap s 4096 image 57344 = (None_, image', Some st))
    by (do 2 eexists; vm_compute; reflexivity).
  destruct E as (image' & st & E). rewrite E in H. exists image', st. split; [exact E|exact H].
Defined.
