(* ===== verification/XeGgtt.v ===== *)
(** The GGTT manager of the Xe backend, class [Manager] of [Mellow/XeGgtt.{hpp,cpp}]: ranges of
    global GPU addresses that are reserved, published as page-table entries, used, and cleared
    again, against an adapter that may fail at any call. *)
From stdpp Require Import base numbers list.
From S2P Require Import Prelude.
From S2P Require Import PortedXe.

Module XeGgtt.

(** * Data *)

Definition PageSize : Z := 4096.
Inductive Status := Ok | Invalid | WrongOwner | WrongEpoch | NotFound | NoSpace | Busy | Unavailable | Io | Quarantined.
Inductive State := StFree | StReserved | StPublished | StQuarantined.

#[export] Instance GgttStatus_eq_dec : EqDecision Status.
Proof. solve_decision. Defined.
#[export] Instance GgttState_eq_dec : EqDecision State.
Proof. solve_decision. Defined.

Record Range := { address : Z; bytes : Z }.
Record Handle := { h_slot : Z; h_generation : Z }.
(** Pointers are addresses; 0 is the null pointer. *)
Record Backing := { cookie : Z; cpu : Z; dmaPages : Z; pageCount : Z; identity : Z }.

#[export] Instance Backing_eq_dec : EqDecision Backing.
Proof. solve_decision. Defined.
#[export] Instance Handle_eq_dec : EqDecision Handle.
Proof. solve_decision. Defined.

Record Mapping := {
  state : State;
  owner : Z;
  epoch : Z;
  generation : Z;
  range : Range;
  backing : Backing;
  pat : Z;
  users : Z;
}.
(** The fields [held], [touched] and [cleared] are those of [Slot]. *)
Record Slot := { m : Mapping; held : bool; touched : bool; cleared : bool }.

Definition no_range : Range := {| address := 0; bytes := 0 |}.
Definition no_backing : Backing := {| cookie := 0; cpu := 0; dmaPages := 0; pageCount := 0; identity := 0 |}.
Definition no_mapping : Mapping := {|
  state := StFree; owner := 0; epoch := 0; generation := 0; range := no_range; backing := no_backing; pat := 0;
  users := 0 |}.
Definition no_slot : Slot := {| m := no_mapping; held := false; touched := false; cleared := false |}.

Definition set_m (f : Mapping -> Mapping) (s : Slot) : Slot :=
  {| m := f (m s); held := held s; touched := touched s; cleared := cleared s |}.
Definition set_state v := set_m (fun x => {| state := v; owner := owner x; epoch := epoch x;
  generation := generation x; range := range x; backing := backing x; pat := pat x; users := users x |}).
Definition set_users v := set_m (fun x => {| state := state x; owner := owner x; epoch := epoch x;
  generation := generation x; range := range x; backing := backing x; pat := pat x; users := v |}).
Definition set_backing (b : Backing) (p : Z) := set_m (fun x => {| state := state x; owner := owner x;
  epoch := epoch x; generation := generation x; range := range x; backing := b; pat := p; users := users x |}).
Definition set_held (s : Slot) : Slot := {| m := m s; held := true; touched := touched s; cleared := cleared s |}.
Definition set_touched (s : Slot) : Slot := {| m := m s; held := held s; touched := true; cleared := cleared s |}.
Definition set_cleared (s : Slot) : Slot := {| m := m s; held := held s; touched := touched s; cleared := true |}.

Definition is_free (s : Slot) : bool := bool_decide (state (m s) = StFree).

Definition MaxRanges : nat := 32.
Definition MaxMappings : nat := 64.
Definition MaxPages : Z := 16384.

(** The calls of the adapter with their answers. *)
Inductive g_event :=
  | EvAdmitted (ok : bool)
  | EvAcquireSpace (ok : bool)
  | EvReleaseSpace (ok : bool)
  | EvRetain (own : Z) (b : Backing) (ok : bool)
  | EvOwns (own : Z) (b : Backing) (ok : bool)
  | EvRelease (own : Z) (b : Backing) (ok : bool)
  | EvPat (p : Z) (ok : bool)
  | EvRead (a v : Z) (ok : bool)
  | EvWrite (a v : Z) (ok : bool)
  | EvInvalidate (ok : bool)
  | EvRetired (h : Handle) (ok : bool).

#[export] Instance g_event_eq_dec : EqDecision g_event.
Proof. solve_decision. Defined.

Definition valid (r : Range) : bool :=
  negb (bytes r =? 0) && (address r mod PageSize =? 0) && (bytes r mod PageSize =? 0) &&
  (bytes r <=? Z.shiftl 1 32) && (address r <=? Z.shiftl 1 32 - bytes r).
Definition overlap (a b : Range) : bool :=
  (address a <? address b +64 bytes b) && (address b <? address a +64 bytes a).
Definition same (a b : Backing) : bool :=
  (cookie a =? cookie b) && (cpu a =? cpu b) && (dmaPages a =? dmaPages b) && (pageCount a =? pageCount b) &&
  (identity a =? identity b).

Section Manager.
Context {W : Type}.

(** Callbacks on a world [W]; a null function pointer is [None], an out parameter is a result. *)
Record Backend := {
  b_admitted : option (Z -> W -> bool * W);
  b_acquireSpace : option (Z -> list Range -> W -> bool * W);
  b_releaseSpace : option (Z -> W -> bool * W);
  b_retainBacking : option (Z -> Z -> Backing -> W -> bool * W);
  b_ownsBacking : option (Z -> Z -> Backing -> W -> bool * W);
  b_releaseBacking : option (Z -> Z -> Backing -> W -> bool * W);
  b_patReady : option (Z -> Z -> W -> bool * W);
  b_readPte : option (Z -> Z -> W -> (bool * Z) * W);
  b_writePte : option (Z -> Z -> Z -> W -> bool * W);
  b_invalidate : option (Z -> W -> bool * W);
  b_retired : option (Z -> Z -> Handle -> W -> bool * W);
}.
Definition no_backend : Backend := {|
  b_admitted := None; b_acquireSpace := None; b_releaseSpace := None; b_retainBacking := None;
  b_ownsBacking := None; b_releaseBacking := None; b_patReady := None; b_readPte := None; b_writePte := None;
  b_invalidate := None; b_retired := None |}.

(** [count_] is the length of [ranges_]. *)
Record Manager := {
  slots_ : list Slot;
  ranges_ : list Range;
  epoch_ : Z;
  serial_ : Z;
  io_ : Backend;
  started_ : bool;
  closed_ : bool;
}.
Definition new_Manager : Manager := {|
  slots_ := replicate MaxMappings no_slot; ranges_ := []; epoch_ := 0; serial_ := 1; io_ := no_backend;
  started_ := false; closed_ := false |}.

Definition slot_at (t : Manager) (i : nat) : Slot := default no_slot (slots_ t !! i).
Definition set_slots v (t : Manager) : Manager :=
  {| slots_ := v; ranges_ := ranges_ t; epoch_ := epoch_ t; serial_ := serial_ t; io_ := io_ t;
     started_ := started_ t; closed_ := closed_ t |}.
Definition set_serial v (t : Manager) : Manager :=
  {| slots_ := slots_ t; ranges_ := ranges_ t; epoch_ := epoch_ t; serial_ := v; io_ := io_ t;
     started_ := started_ t; closed_ := closed_ t |}.
Definition set_closed (t : Manager) : Manager :=
  {| slots_ := slots_ t; ranges_ := ranges_ t; epoch_ := epoch_ t; serial_ := serial_ t; io_ := io_ t;
     started_ := started_ t; closed_ := true |}.

(** The object, the world of the adapter and the calls made so far, newest first. *)
Record machine := { mgr : Manager; world : W; trace : list g_event }.

(** The 64-bit word at an address of kernel memory. *)
Context (read64 : Z -> W -> Z).

Definition upd (f : Manager -> Manager) : ST machine unit :=
  modify (fun x => {| mgr := f (mgr x); world := world x; trace := trace x |}).
Definition upd_slot (i : nat) (f : Slot -> Slot) : ST machine unit :=
  upd (fun t => set_slots (alter f i (slots_ t)) t).
Definition act {A} (f : W -> A * W) (ev : A -> g_event) : ST machine A := fun x =>
  let '(r, w) := f (world x) in (r, {| mgr := mgr x; world := w; trace := ev r :: trace x |}).

(** Callbacks.  [initialize] has checked that none is null. *)
Definition call_admitted (io : Backend) (ep : Z) : ST machine bool :=
  act (fun w => match b_admitted io with Some f => f ep w | None => (false, w) end) EvAdmitted.
Definition call_acquireSpace (io : Backend) (ep : Z) (rs : list Range) : ST machine bool :=
  act (fun w => match b_acquireSpace io with Some f => f ep rs w | None => (false, w) end) EvAcquireSpace.
Definition call_releaseSpace (io : Backend) (ep : Z) : ST machine bool :=
  act (fun w => match b_releaseSpace io with Some f => f ep w | None => (false, w) end) EvReleaseSpace.
Definition call_retainBacking (io : Backend) (own ep : Z) (b : Backing) : ST machine bool :=
  act (fun w => match b_retainBacking io with Some f => f own ep b w | None => (false, w) end) (EvRetain own b).
Definition call_ownsBacking (io : Backend) (own ep : Z) (b : Backing) : ST machine bool :=
  act (fun w => match b_ownsBacking io with Some f => f own ep b w | None => (false, w) end) (EvOwns own b).
Definition call_releaseBacking (io : Backend) (own ep : Z) (b : Backing) : ST machine bool :=
  act (fun w => match b_releaseBacking io with Some f => f own ep b w | None => (false, w) end) (EvRelease own b).
Definition call_patReady (io : Backend) (ep p : Z) : ST machine bool :=
  act (fun w => match b_patReady io with Some f => f ep p w | None => (false, w) end) (EvPat p).
Definition call_writePte (io : Backend) (ep a v : Z) : ST machine bool :=
  act (fun w => match b_writePte io with Some f => f ep a v w | None => (false, w) end) (EvWrite a v).
Definition call_invalidate (io : Backend) (ep : Z) : ST machine bool :=
  act (fun w => match b_invalidate io with Some f => f ep w | None => (false, w) end) EvInvalidate.
Definition call_retired (io : Backend) (own ep : Z) (h : Handle) : ST machine bool :=
  act (fun w => match b_retired io with Some f => f own ep h w | None => (false, w) end) (EvRetired h).
Definition call_readPte (io : Backend) (ep a : Z) : ST machine (bool * Z) :=
  act (fun w => match b_readPte io with
                | Some f => let '((ok, v), w) := f ep a w in ((ok, wrap 64 v), w)
                | None => ((false, 0), w)
                end) (fun r => EvRead a r.2 r.1).

(** [a && b], the second evaluated only when the first holds. *)
Definition both (a b : ST machine bool) : ST machine bool := x <-- a ;; if x then b else ret false.

(** A loop over pages that stops at the first [false]. *)
Fixpoint all_pages (l : list Z) (f : Z -> ST machine bool) : ST machine bool :=
  match l with
  | [] => ret true
  | page :: l => both (f page) (all_pages l f)
  end.
Definition pages (b : Backing) : list Z := seqZ 0 (pageCount b).

(** * Space *)

Definition live : ST machine bool :=
  t <-- gets mgr ;;
  if started_ t && negb (closed_ t) then call_admitted (io_ t) (epoch_ t) else ret false.

Definition is_some {A} (x : option A) : bool := match x with Some _ => true | None => false end.
Definition complete (io : Backend) : bool :=
  is_some (b_admitted io) && is_some (b_acquireSpace io) && is_some (b_releaseSpace io) &&
  is_some (b_retainBacking io) && is_some (b_ownsBacking io) && is_some (b_releaseBacking io) &&
  is_some (b_patReady io) && is_some (b_readPte io) && is_some (b_writePte io) &&
  is_some (b_invalidate io) && is_some (b_retired io).

(** Each range is valid and does not overlap those before it, [seen]. *)
Fixpoint check_ranges (seen rs : list Range) : bool :=
  match rs with
  | [] => true
  | r :: rs => valid r && forallb (fun q => negb (overlap r q)) seen && check_ranges (seen ++ [r]) rs
  end.

(** A null array is [None]. *)
Definition initialize (ep : Z) (array : option (list Range)) (io : Backend) : ST machine Status :=
  t <-- gets mgr ;;
  if started_ t then ret Busy
  else
    match array with
    | None => ret Invalid
    | Some rs =>
        if (ep =? 0) || (length rs =? 0)%nat || (MaxRanges <? length rs)%nat || negb (complete io) ||
           negb (check_ranges [] rs) then ret Invalid
        else
          a <-- call_admitted io ep ;;
          if negb a then ret Unavailable
          else
            q <-- call_acquireSpace io ep rs ;;
            if negb q then ret Unavailable
            else
              upd (fun t => {| slots_ := slots_ t; ranges_ := rs; epoch_ := ep; serial_ := serial_ t; io_ := io;
                started_ := true; closed_ := closed_ t |}) ;;;
              ret Ok
    end.

(** With [Ok] the index is [h_slot h]. *)
Definition get (t : Manager) (own ep : Z) (h : Handle) : Status :=
  if negb (started_ t) || closed_ t then Unavailable
  else if negb (ep =? epoch_ t) then WrongEpoch
  else if (Z.of_nat MaxMappings <=? h_slot h) || (h_generation h =? 0) then NotFound
  else
    let s := slot_at t (Z.to_nat (h_slot h)) in
    if is_free s || negb (generation (m s) =? h_generation h) then NotFound
    else if (own =? 0) || negb (owner (m s) =? own) then WrongOwner
    else Ok.

Definition within (r q : Range) : bool :=
  (address q <=? address r) && (address r +64 bytes r <=? address q +64 bytes q).
Definition meets (r : Range) (s : Slot) : bool := negb (is_free s) && overlap r (range (m s)).

Definition fits (t : Manager) (r : Range) : bool :=
  if negb (valid r) || (MaxPages <? bytes r / PageSize) then false
  else if negb (existsb (within r) (ranges_ t)) then false
  else negb (existsb (meets r) (slots_ t)).

(** The handle is set only with [Ok]. *)
Definition insert (own : Z) (r : Range) : ST machine (Status * option Handle) :=
  t <-- gets mgr ;;
  if serial_ t =? 0 then ret (NoSpace, None)
  else
    match list_find (fun s => state (m s) = StFree) (slots_ t) with
    | None => ret (NoSpace, None)
    | Some (i, _) =>
        let g := serial_ t in
        upd (set_serial (g +64 1)) ;;;
        upd_slot i (set_m (fun x => {| state := StReserved; owner := own; epoch := epoch_ t; generation := g;
          range := r; backing := backing x; pat := pat x; users := users x |})) ;;;
        ret (Ok, Some {| h_slot := Z.of_nat i; h_generation := g |})
    end.

Definition reserveAt (own ep : Z) (r : Range) : ST machine (Status * option Handle) :=
  t <-- gets mgr ;;
  if negb (ep =? epoch_ t) then ret (WrongEpoch, None)
  else
    l <-- live ;;
    if negb l then ret (Unavailable, None)
    else if (own =? 0) || negb (valid r) || (MaxPages <? bytes r / PageSize) then ret (Invalid, None)
    else if negb (fits t r) then ret (NoSpace, None)
    else insert own r.

(** [(x + alignment - 1) & ~(alignment - 1)] *)
Definition align_up (x alignment : Z) : Z := Z.ldiff (x +64 alignment -64 1) (alignment -64 1).

(** The scan of the slots that overlap the candidate. *)
Definition next_candidate (l : list Slot) (at_ n alignment : Z) : Z :=
  foldl (fun next s =>
    if meets {| address := at_; bytes := n |} s then
      let after := align_up (address (range (m s)) +64 bytes (range (m s))) alignment in
      if next <? after then after else next
    else next) at_ l.

(** The attempts in one range that ends at [end_]; [None] is no room there. *)
Fixpoint attempts (k : nat) (l : list Slot) (at_ end_ n alignment : Z) : option Z :=
  match k with
  | O => None
  | S k =>
      if (at_ <? end_) && (n <=? end_ -64 at_) then
        let next := next_candidate l at_ n alignment in
        if next =? at_ then Some at_ else attempts k l next end_ n alignment
      else None
  end.

Fixpoint search (rs : list Range) (l : list Slot) (n alignment : Z) : option Z :=
  match rs with
  | [] => None
  | r :: rs =>
      match attempts (S MaxMappings) l (align_up (address r) alignment) (address r +64 bytes r) n alignment with
      | Some at_ => Some at_
      | None => search rs l n alignment
      end
  end.

Definition reserve (own ep n alignment : Z) : ST machine (Status * option Handle) :=
  t <-- gets mgr ;;
  if negb (ep =? epoch_ t) then ret (WrongEpoch, None)
  else
    l <-- live ;;
    if negb l then ret (Unavailable, None)
    else if (own =? 0) || (n =? 0) || negb (n mod PageSize =? 0) || (MaxPages <? n / PageSize) ||
            (alignment <? PageSize) || (Z.shiftl 1 32 <? alignment) ||
            negb (Z.land alignment (alignment -64 1) =? 0) then ret (Invalid, None)
    else
      match search (ranges_ t) (slots_ t) n alignment with
      | Some at_ => insert own {| address := at_; bytes := n |}
      | None => ret (NoSpace, None)
      end.

(** * Entries *)

Definition page_address (s : Slot) (page : Z) : Z := address (range (m s)) +64 wrap 64 (page * PageSize).

(** The value with the answer of the adapter. *)
Definition read (a : Z) : ST machine (bool * Z) :=
  l <-- live ;;
  if l then t <-- gets mgr ;; call_readPte (io_ t) (epoch_ t) a else ret (false, 0).

(** [None] is the return value [false]. *)
Definition expected (s : Slot) (page : Z) (w : W) : option Z :=
  match PortedXe.encodeGgtt (wrap 64 (read64 (dmaPages (backing (m s)) + 8 * page) w)) (pat (m s)) false 46 0 with
  | Some (PortedXe.Ok, pte) => Some pte
  | _ => None
  end.

Definition verify_page (s : Slot) (clearing : bool) (page : Z) : ST machine bool :=
  e <-- gets (fun x => expected s page (world x)) ;;
  match e with
  | None => ret false
  | Some want =>
      r <-- read (page_address s page) ;;
      ret (r.1 && (if clearing then (r.2 =? 0) || (r.2 =? want) else r.2 =? want))
  end.
Definition verify (s : Slot) (clearing : bool) : ST machine bool :=
  all_pages (pages (backing (m s))) (verify_page s clearing).

(** The page reads as zero. *)
Definition read_zero (s : Slot) (page : Z) : ST machine bool :=
  r <-- read (page_address s page) ;; ret (r.1 && (r.2 =? 0)).

Definition clear_page (s : Slot) (page : Z) : ST machine bool :=
  t <-- gets mgr ;;
  both live (both (call_writePte (io_ t) (epoch_ t) (page_address s page) 0) (read_zero s page)).

(** The part of [teardown] for a slot whose entries may have been written. *)
Definition clear_entries (i : nat) : ST machine bool :=
  t <-- gets mgr ;;
  let s := slot_at t i in
  let h := {| h_slot := Z.of_nat i; h_generation := generation (m s) |} in
  both (call_ownsBacking (io_ t) (owner (m s)) (epoch_ t) (backing (m s)))
    (both (call_retired (io_ t) (owner (m s)) (epoch_ t) h)
      (both (verify s true)
        (both (all_pages (pages (backing (m s))) (clear_page s))
          (both live
            (both (call_invalidate (io_ t) (epoch_ t))
              (both (all_pages (pages (backing (m s))) (read_zero s))
                (upd_slot i set_cleared ;;; ret true))))))).

Definition teardown (i : nat) : ST machine Status :=
  l <-- live ;;
  t <-- gets mgr ;;
  let s := slot_at t i in
  if negb l || negb (users (m s) =? 0) then ret Quarantined
  else
    c <-- (if touched s && negb (cleared s) then clear_entries i else ret true) ;;
    if negb c then ret Quarantined
    else
      r <-- (if held s then call_releaseBacking (io_ t) (owner (m s)) (epoch_ t) (backing (m s)) else ret true) ;;
      if negb r then ret Quarantined
      else upd_slot i (fun _ => no_slot) ;;; ret Ok.

(** [teardown(i) == Ok ? st : Quarantined] *)
Definition fail_with (i : nat) (st : Status) : ST machine Status :=
  r <-- teardown i ;; ret (if decide (r = Ok) then st else Quarantined).

(** One round of the loop that writes the entries; [Some] leaves [publish] with the status. *)
Definition write_page (i : nat) (s : Slot) (page : Z) : ST machine (option Status) :=
  l <-- live ;;
  e <-- gets (fun x => expected s page (world x)) ;;
  match l, e with
  | true, Some pte =>
      t <-- gets mgr ;;
      upd_slot i set_touched ;;;
      ok <-- call_writePte (io_ t) (epoch_ t) (page_address s page) pte ;;
      if negb ok then r <-- fail_with i Io ;; ret (Some r)
      else
        r <-- read (page_address s page) ;;
        if negb r.1 || negb (r.2 =? pte) then r <-- fail_with i Io ;; ret (Some r)
        else ret None
  | _, _ => ret (Some Quarantined)
  end.

Fixpoint write_pages (i : nat) (s : Slot) (l : list Z) : ST machine (option Status) :=
  match l with
  | [] => ret None
  | page :: l =>
      r <-- write_page i s page ;;
      match r with Some st => ret (Some st) | None => write_pages i s l end
  end.

(** The entries are written, invalidated and read back. *)
Definition write_entries (i : nat) (s : Slot) : ST machine Status :=
  r <-- write_pages i s (pages (backing (m s))) ;;
  match r with
  | Some st => ret st
  | None =>
      t <-- gets mgr ;;
      ok <-- both live (both (call_invalidate (io_ t) (epoch_ t)) (verify s false)) ;;
      if negb ok then fail_with i Io
      else upd_slot i (set_state StPublished) ;;; ret Ok
  end.

Definition backing_invalid (s : Slot) (b : Backing) (p : Z) : bool :=
  (cookie b =? 0) || (cpu b =? 0) || (dmaPages b =? 0) || (identity b =? 0) ||
  negb (pageCount b =? bytes (range (m s)) / PageSize) || (3 <? p).

(** [publish] once the backing is retained.  The state is quarantined before the entries are
    written, and also when one of them did not read as zero. *)
Definition publish_held (i : nat) (own : Z) (b : Backing) (p : Z) : ST machine Status :=
  t <-- gets mgr ;;
  upd_slot i (fun s => set_held (set_backing b p s)) ;;;
  s <-- gets (fun x => slot_at (mgr x) i) ;;
  o <-- call_ownsBacking (io_ t) own (epoch_ t) b ;;
  w <-- gets world ;;
  if negb (o && forallb (fun page => is_some (expected s page w)) (pages b)) then
    upd_slot i (set_state StQuarantined) ;;; fail_with i Invalid
  else
    z <-- all_pages (pages b) (read_zero s) ;;
    upd_slot i (set_state StQuarantined) ;;;
    if negb z then ret Quarantined
    else write_entries i s.

(** The slot of a handle; [k] is the rest of the operation. *)
Definition with_slot (own ep : Z) (h : Handle) (k : nat -> Slot -> ST machine Status) : ST machine Status :=
  t <-- gets mgr ;;
  match get t own ep h with
  | Ok => k (Z.to_nat (h_slot h)) (slot_at t (Z.to_nat (h_slot h)))
  | st => ret st
  end.

Definition publish (own ep : Z) (h : Handle) (b : Backing) (p : Z) : ST machine Status :=
  with_slot own ep h (fun i s =>
    if bool_decide (state (m s) <> StReserved) then
      ret (if bool_decide (state (m s) = StQuarantined) then Quarantined else Busy)
    else
      l <-- live ;;
      if negb l then ret Unavailable
      else if backing_invalid s b p then ret Invalid
      else
        t <-- gets mgr ;;
        q <-- call_patReady (io_ t) (epoch_ t) p ;;
        if negb q then ret Unavailable
        else
          r <-- call_retainBacking (io_ t) own (epoch_ t) b ;;
          if negb r then ret Unavailable
          else publish_held i own b p).

(** * Uses *)

Definition published (own ep : Z) (h : Handle) (b : Backing) : ST machine Status :=
  with_slot own ep h (fun i s =>
    if bool_decide (state (m s) <> StPublished) then ret Quarantined
    else if negb (same (backing (m s)) b) then ret Invalid
    else
      t <-- gets mgr ;;
      ok <-- both live (both (call_ownsBacking (io_ t) own (epoch_ t) b)
               (both (call_patReady (io_ t) (epoch_ t) (pat (m s))) (verify s false))) ;;
      if negb ok then upd_slot i (set_state StQuarantined) ;;; ret Quarantined
      else ret Ok).

Definition retain (own ep : Z) (h : Handle) (b : Backing) : ST machine Status :=
  st <-- published own ep h b ;;
  if decide (st <> Ok) then ret st
  else
    t <-- gets mgr ;;
    let i := Z.to_nat (h_slot h) in
    let n := users (m (slot_at t i)) in
    if n =? U32_MAX then ret Busy
    else upd_slot i (set_users (wrap 32 (n + 1))) ;;; ret Ok.

Definition release (own ep : Z) (h : Handle) : ST machine Status :=
  with_slot own ep h (fun i s =>
    if users (m s) =? 0 then ret Invalid
    else
      t <-- gets mgr ;;
      ok <-- both live (call_retired (io_ t) own (epoch_ t) h) ;;
      if negb ok then ret Busy
      else upd_slot i (set_users (wrap 32 (users (m s) - 1))) ;;; ret Ok).

Definition retire (own ep : Z) (h : Handle) : ST machine Status :=
  with_slot own ep h (fun i s =>
    if negb (users (m s) =? 0) then ret Busy
    else
      l <-- live ;;
      if negb l then upd_slot i (set_state StQuarantined) ;;; ret Quarantined
      else if bool_decide (state (m s) = StQuarantined) && held s && negb (touched s) then ret Quarantined
      else upd_slot i (set_state StQuarantined) ;;; teardown i).

(** [out] is set only with [Ok]. *)
Definition inspect (t : Manager) (own ep : Z) (h : Handle) : Status * option Mapping :=
  match get t own ep h with
  | Ok => (Ok, Some (m (slot_at t (Z.to_nat (h_slot h)))))
  | st => (st, None)
  end.

Definition close : ST machine Status :=
  l <-- live ;;
  if negb l then ret Unavailable
  else
    t <-- gets mgr ;;
    if existsb (fun s => negb (is_free s)) (slots_ t) then ret Busy
    else
      r <-- call_releaseSpace (io_ t) (epoch_ t) ;;
      if negb r then ret Quarantined
      else upd set_closed ;;; ret Ok.
End Manager.

Arguments Backend W : clear implicits.
Arguments Manager W : clear implicits.
Arguments machine W : clear implicits.
End XeGgtt.
