(* ===== verification/XeGgttInv.v ===== *)
(** The invariant of the GGTT manager: the table of mappings, and what the calls made so far say
    about the entry of each page. *)
From stdpp Require Import base numbers list sets.
From S2P Require Import Prelude.
From S2P Require Import PortedXe.
From S2P Require Import StateWp.
From S2P Require Import XeMemory.
From S2P Require Import XeVirtualOps.
From S2P Require Import XeGgtt.
Import XeGgtt.

(** * The entry of a page, as the calls show it

    - [Idle]: nothing of ours is there; [Vacant]: and the last read returned zero;
    - [Live]: it may hold an entry of ours;
    - [Zeroed]: zero was written, [Checked]: and read back, [Flushed]: and the caches of old
      translations were invalidated after that.  A last read of zero makes it [Idle]. *)
Inductive entry := Idle | Vacant | Live | Zeroed | Checked | Flushed.

#[export] Instance entry_eq_dec : EqDecision entry.
Proof. solve_decision. Defined.

Definition after_read (v : Z) (ok : bool) (e : entry) : entry :=
  match e with
  | Idle | Vacant => if ok && (v =? 0) then Vacant else Idle
  | Live => Live
  | Zeroed => if negb ok then Zeroed else if v =? 0 then Checked else Live
  | Checked => if negb ok || (v =? 0) then Checked else Live
  | Flushed => if negb ok then Flushed else if v =? 0 then Idle else Live
  end.

Definition entry_step (a : Z) (ev : g_event) (e : entry) : entry :=
  match ev with
  | EvRead a' v ok => if a' =? a then after_read v ok e else e
  | EvWrite a' v ok => if a' =? a then if ok && (v =? 0) then Zeroed else Live else e
  | EvInvalidate true => if decide (e = Checked) then Flushed else e
  | _ => e
  end.

Definition entry_of (a : Z) (tr : list g_event) : entry := foldr (entry_step a) Idle tr.

Lemma entry_cons a ev tr : entry_of a (ev :: tr) = entry_step a ev (entry_of a tr).
Proof. done. Qed.

Definition ours (e : entry) : Prop := e <> Idle /\ e <> Vacant.

(** A value is written only to an entry that was just read as zero, and an entry is cleared only
    if it was read as zero before it was ever used. *)
Definition g_legal (ev : g_event) (before : list g_event) : Prop :=
  match ev with
  | EvWrite a v ok => if v =? 0 then EvRead a 0 true ∈ before else entry_of a before = Vacant
  | _ => True
  end.
Fixpoint g_legal_trace (tr : list g_event) : Prop :=
  match tr with [] => True | ev :: tr => g_legal ev tr /\ g_legal_trace tr end.

(** How often a backing is retained. *)
Definition retains (own : Z) (b : Backing) (ev : g_event) : Z :=
  match ev with
  | EvRetain o c true => if decide (o = own /\ c = b) then 1 else 0
  | EvRelease o c true => if decide (o = own /\ c = b) then -1 else 0
  | _ => 0
  end.
Fixpoint g_holds (own : Z) (b : Backing) (tr : list g_event) : Z :=
  match tr with [] => 0 | ev :: tr => retains own b ev + g_holds own b tr end.

(** * The table *)

Definition used (s : Slot) : Prop := state (m s) <> StFree.
Definition r_end (r : Range) : Z := address r + bytes r.
Definition apart (r q : Range) : Prop := r_end r <= address q \/ r_end q <= address r.
Definition inside (r q : Range) : Prop := address q <= address r /\ r_end r <= r_end q.

Record range_ok (r : Range) : Prop := {
  ro_bytes : 0 < bytes r;
  ro_address : 0 <= address r;
  ro_end : r_end r <= 2 ^ 32;
  ro_aligned : address r mod 4096 = 0 /\ bytes r mod 4096 = 0;
}.

(** The page [a] is one of the slot's. *)
Definition page_of (s : Slot) (a : Z) : Prop :=
  exists p, 0 <= p < bytes (range (m s)) / 4096 /\ a = address (range (m s)) + p * 4096.

Definition handle_of (i : nat) (s : Slot) : Handle := {| h_slot := Z.of_nat i; h_generation := generation (m s) |}.

Record slot_ok (rs : list Range) (serial : Z) (tr : list g_event) (i : nat) (s : Slot) : Prop := {
  so_range : range_ok (range (m s));
  so_granted : exists r, r ∈ rs /\ inside (range (m s)) r;
  so_generation : 0 < generation (m s) < (if serial =? 0 then 2 ^ 64 else serial);
  so_owner : owner (m s) <> 0;
  so_users : word 32 (users (m s)) /\ (users (m s) <> 0 -> held s = true);
  so_published : state (m s) = StPublished -> held s = true;
  so_held : held s = true -> pageCount (backing (m s)) = bytes (range (m s)) / 4096 /\ 0 <= pat (m s) <= 3;
  so_touched : touched s = true -> held s = true /\ forall a, page_of s a -> EvRead a 0 true ∈ tr;
  so_cleared : cleared s = true -> touched s = true /\ EvRetired (handle_of i s) true ∈ tr;
}.

Record table_ok (l : list Slot) (rs : list Range) (serial : Z) (tr : list g_event) : Prop := {
  tb_length : length l = MaxMappings;
  tb_free : forall i s, l !! i = Some s -> state (m s) = StFree -> s = no_slot;
  tb_used : forall i s, l !! i = Some s -> used s -> slot_ok rs serial tr i s;
  tb_apart : forall i j s q, l !! i = Some s -> l !! j = Some q -> used s -> used q -> i <> j ->
    apart (range (m s)) (range (m q)) /\ generation (m s) <> generation (m q);
  tb_ours : forall a, ours (entry_of a tr) -> exists i s,
    l !! i = Some s /\ used s /\ touched s = true /\ cleared s = false /\ page_of s a;
}.

Definition holder (own : Z) (b : Backing) (s : Slot) : Prop := held s = true /\ owner (m s) = own /\ backing (m s) = b.
#[export] Instance holder_dec own b s : Decision (holder own b s).
Proof. unfold holder. apply _. Defined.

Section Inv.
Context {W : Type}.
Implicit Types (x : machine W) (t : Manager W).

Record ginv x : Prop := {
  gi_table : table_ok (slots_ (mgr x)) (ranges_ (mgr x)) (serial_ (mgr x)) (trace x);
  gi_ranges : Forall range_ok (ranges_ (mgr x)) /\
    forall i j r q, ranges_ (mgr x) !! i = Some r -> ranges_ (mgr x) !! j = Some q -> i <> j -> apart r q;
  gi_serial : word 64 (serial_ (mgr x));
  gi_started : started_ (mgr x) = false \/ closed_ (mgr x) = true -> forall s, s ∈ slots_ (mgr x) -> s = no_slot;
  gi_legal : g_legal_trace (trace x);
  gi_holds : forall own b, g_holds own b (trace x) = Z.of_nat (length (filter (holder own b) (slots_ (mgr x))));
}.

(** * Calls that change nothing *)

Definition benign (ev : g_event) : bool :=
  match ev with
  | EvWrite _ _ _ => false
  | EvRetain _ _ ok | EvRelease _ _ ok => negb ok
  | _ => true
  end.

Definition with_calls x w tr : machine W := {| mgr := mgr x; world := w; trace := tr ++ trace x |}.

Lemma after_read_ours v ok e : ours (after_read v ok e) -> ours e.
Proof. unfold ours. destruct e, ok; cbn; try destruct (v =? 0); cbn; naive_solver. Qed.

Lemma benign_entry a ev e : benign ev = true -> ours (entry_step a ev e) -> ours e.
Proof.
  unfold ours. destruct ev as [| | | | | | |a' v ok|a' v ok|[]|]; cbn; try done.
  - intros _. destruct (a' =? a); [apply after_read_ours|done].
  - intros _. destruct (decide (e = Checked)) as [->|]; [|done]. naive_solver.
Qed.

Lemma slot_ok_mono rs serial tr tr' i s : slot_ok rs serial tr i s -> slot_ok rs serial (tr' ++ tr) i s.
Proof.
  intros [? ? ? ? ? ? ? Ht Hc]. split; auto.
  - intros E. destruct (Ht E) as [? Hp]. split; [done|]. intros a Ha. apply elem_of_app. right. auto.
  - intros E. destruct (Hc E) as [? ?]. split; [done|]. apply elem_of_app. by right.
Qed.

Lemma benign_ginv x w ev : ginv x -> benign ev = true -> ginv (with_calls x w [ev]).
Proof.
  intros [[T1 T2 T3 T4 T5] Hr Hs Hst Hl Hh] Hb. split; cbn; auto.
  - split; cbn; auto.
    + intros i s Hi Hu. apply (slot_ok_mono _ _ _ [ev]). by apply T3.
    + intros a Ha. apply T5. by eapply benign_entry.
  - split; [|done]. destruct ev; done.
  - intros own b. rewrite <- Hh. destruct ev as [| | |o c []|? ? []|o c []| | | | |]; done.
Qed.

Lemma with_calls_app x w w' tr tr' : with_calls (with_calls x w tr) w' tr' = with_calls x w' (tr' ++ tr).
Proof. unfold with_calls. cbn. by rewrite app_assoc. Qed.

Lemma benigns_ginv x w tr : ginv x -> Forall (fun ev => benign ev = true) tr -> ginv (with_calls x w tr).
Proof.
  intros Hx H. revert w. induction H as [|ev tr Hb _ IH]; intros w.
  - destruct Hx; by split.
  - assert (E : with_calls x w (ev :: tr) = with_calls (with_calls x w tr) w [ev]) by (by rewrite with_calls_app).
    rewrite E. apply benign_ginv; [apply IH|done].
Qed.

(** A program that only makes such calls. *)
Definition quiet {A} (c : ST (machine W) A) : Prop :=
  forall x, exists w tr, (c x).2 = with_calls x w tr /\ Forall (fun ev => benign ev = true) tr.

Lemma ggtt_quiet_ret {A} (a : A) : quiet (ret a).
Proof. intros x. exists (world x), []. split; [by destruct x|done]. Qed.
Lemma quiet_gets {A} (f : machine W -> A) : quiet (gets f).
Proof. intros x. exists (world x), []. split; [by destruct x|done]. Qed.
Lemma ggtt_quiet_bind {A B} (c : ST (machine W) A) (k : A -> ST (machine W) B) :
  quiet c -> (forall a, quiet (k a)) -> quiet (bind c k).
Proof.
  intros Hc Hk x. rewrite run_bind. destruct (Hc x) as (w & tr & E & H). rewrite E.
  destruct (Hk (c x).1 (with_calls x w tr)) as (w' & tr' & E' & H'). exists w', (tr' ++ tr).
  rewrite E', with_calls_app. split; [done|]. by apply Forall_app.
Qed.
Lemma quiet_act {A} (f : W -> A * W) ev : (forall r, benign (ev r) = true) -> quiet (act f ev).
Proof.
  intros Hb x. unfold act. destruct (f (world x)) as [r w]. exists w, [ev r]. split; [done|]. by constructor.
Qed.
Lemma quiet_if {A} (b : bool) (c d : ST (machine W) A) : quiet c -> quiet d -> quiet (if b then c else d).
Proof. by destruct b. Qed.
Lemma quiet_both (a b : ST (machine W) bool) : quiet a -> quiet b -> quiet (both a b).
Proof. intros Ha Hb. apply ggtt_quiet_bind; [done|]. intros []; [done|apply ggtt_quiet_ret]. Qed.
Lemma quiet_all_pages l (f : Z -> ST (machine W) bool) : (forall p, quiet (f p)) -> quiet (all_pages l f).
Proof. intros Hf. induction l as [|p l IH]; [apply ggtt_quiet_ret|]. by apply quiet_both. Qed.
End Inv.

Create HintDb ggtt.
#[export] Hint Resolve ggtt_quiet_ret quiet_gets ggtt_quiet_bind quiet_if quiet_both quiet_all_pages : ggtt.
#[export] Hint Extern 2 (quiet (act _ _)) => apply quiet_act; done : ggtt.

Section Quiet.
Context {W : Type} (read64 : Z -> W -> Z).

Lemma quiet_live : quiet (live (W := W)).
Proof. unfold live, call_admitted. auto with ggtt. Qed.
#[local] Hint Resolve quiet_live : ggtt.
Lemma ggtt_quiet_read a : quiet (read (W := W) a).
Proof. unfold read, call_readPte. auto 10 with ggtt. Qed.
#[local] Hint Resolve ggtt_quiet_read : ggtt.
Lemma quiet_verify s clearing : quiet (verify read64 s clearing).
Proof.
  unfold verify, verify_page. apply quiet_all_pages. intros p. apply ggtt_quiet_bind; [auto with ggtt|].
  intros []; auto with ggtt.
Qed.
Lemma quiet_read_zero s p : quiet (read_zero (W := W) s p).
Proof. unfold read_zero. auto with ggtt. Qed.
End Quiet.
#[export] Hint Resolve quiet_live ggtt_quiet_read quiet_verify quiet_read_zero : ggtt.

(** Run a quiet program. *)
Lemma wp_quiet {W A} (c : ST (machine W) A) (Q : A -> machine W -> Prop) x :
  quiet c -> (forall r w tr, Forall (fun ev => benign ev = true) tr -> Q r (with_calls x w tr)) -> wp c Q x.
Proof. intros Hc H. unfold wp. destruct (Hc x) as (w & tr & E & Hb). rewrite E. by apply H. Qed.

(** * The space of the GGTT manager: ranges, the search of [reserve] and the insertion of a mapping *)

(** * Ranges *)

Lemma valid_range r : 0 <= address r -> 0 <= bytes r -> valid r = true <-> range_ok r.
Proof.
  intros Ha Hb. unfold valid, PageSize. rewrite !andb_true_iff, negb_true_iff, !Z.eqb_eq, Z.eqb_neq, !Z.leb_le, Z.shiftl_1_l.
  split.
  - intros. split; unfold r_end; lia.
  - intros [? ? ? [? ?]]. unfold r_end in *. lia.
Qed.

Lemma overlap_apart r q :
  0 <= address r -> 0 <= address q -> r_end r <= 2 ^ 32 -> r_end q <= 2 ^ 32 -> 0 <= bytes r -> 0 <= bytes q ->
  overlap r q = false <-> apart r q.
Proof.
  unfold overlap, apart, r_end. intros. rewrite !add64_small by lia. rewrite andb_false_iff, !Z.ltb_ge. lia.
Qed.

Lemma check_ranges_ok seen rs :
  Forall (fun r => 0 <= address r /\ 0 <= bytes r) rs -> Forall range_ok seen ->
  (forall i j r q, seen !! i = Some r -> seen !! j = Some q -> i <> j -> apart r q) ->
  check_ranges seen rs = true ->
  Forall range_ok (seen ++ rs) /\
  forall i j r q, (seen ++ rs) !! i = Some r -> (seen ++ rs) !! j = Some q -> i <> j -> apart r q.
Proof.
  intros Hn. revert seen. induction Hn as [|r rs [Ha Hb] _ IH]; intros seen Hs Hd; cbn [check_ranges].
  { intros _. by rewrite app_nil_r. }
  rewrite !andb_true_iff. intros [[Hv Ho] Hc]. apply valid_range in Hv; [|done..].
  assert (Hr : forall q, q ∈ seen -> apart r q).
  { intros q Hq. rewrite forallb_forall in Ho. specialize (Ho q (proj1 (list_elem_of_In _ _) Hq)).
    apply negb_true_iff in Ho. rewrite Forall_forall in Hs. destruct (Hs q Hq), Hv. apply overlap_apart in Ho; [done|lia..]. }
  rewrite (cons_middle r seen rs), app_assoc. apply IH; [by apply Forall_app; split; [|constructor]| |done].
  assert (Hsym : forall q, q ∈ seen -> apart q r) by (intros q Hq; destruct (Hr q Hq); [right|left]; done).
  intros i j q1 q2 [H1|[L1 H1]]%lookup_app_Some [H2|[L2 H2]]%lookup_app_Some Hij.
  - by eapply Hd.
  - apply list_lookup_singleton_Some in H2 as [_ <-]. apply Hsym. by eapply list_elem_of_lookup_2.
  - apply list_lookup_singleton_Some in H1 as [_ <-]. apply Hr. by eapply list_elem_of_lookup_2.
  - apply list_lookup_singleton_Some in H1 as [H1 _]. apply list_lookup_singleton_Some in H2 as [H2 _]. lia.
Qed.

(** * Alignment *)

Lemma align_up_spec v k :
  0 <= k <= 32 -> 0 <= v <= 2 ^ 32 ->
  v <= align_up v (2 ^ k) /\ align_up v (2 ^ k) mod 2 ^ k = 0 /\ align_up v (2 ^ k) < 2 ^ 34 /\
  forall c, v <= c -> c mod 2 ^ k = 0 -> align_up v (2 ^ k) <= c.
Proof.
  intros Hk Hv. assert (2 ^ k <= 2 ^ 32) by (apply Z.pow_le_mono_r; lia). assert (0 < 2 ^ k) by (apply Z.pow_pos_nonneg; lia).
  destruct (alignUp_spec v k) as (c & Ec & H1 & H2 & H3); [lia..|].
  assert (align_up v (2 ^ k) = c) as ->.
  { unfold XeMemory.alignUp in Ec. destruct (_ || _); [done|]. by injection Ec. }
  split_and!; try done.
  assert (c <= 2 ^ k * (v / 2 ^ k + 1)); [|pose proof (Z.mul_div_le v (2 ^ k)); lia].
  apply H3; [pose proof (Z.div_mod v (2 ^ k)); pose proof (Z.mod_pos_bound v (2 ^ k)); lia|].
  rewrite Z.mul_comm. apply Z.mod_mul. lia.
Qed.

Lemma alignment_power al :
  4096 <= al <= 2 ^ 32 -> Z.land al (al -64 1) = 0 -> exists k, 0 <= k <= 32 /\ al = 2 ^ k.
Proof.
  intros Ha Hl. destruct (powerOfTwo_spec al) as (k & Hk & ->).
  - unfold word. lia.
  - unfold XeMemory.powerOfTwo. rewrite Hl, (proj2 (Z.eqb_neq _ _)) by lia. done.
  - exists k. split; [|done]. split; [lia|]. apply (Z.pow_le_mono_r_iff 2); lia.
Qed.

(** * Free places *)

(** The mappings of a table lie apart from [[c, c + n)]. *)
Definition unused (l : list Slot) (c n : Z) : Prop :=
  forall i s, l !! i = Some s -> used s -> apart {| address := c; bytes := n |} (range (m s)).
Definition place (l : list Slot) (r : Range) (al n c : Z) : Prop :=
  c mod al = 0 /\ inside {| address := c; bytes := n |} r /\ unused l c n.

(** The ranges in use are sane. *)
Definition sane (l : list Slot) : Prop := forall i s, l !! i = Some s -> used s -> range_ok (range (m s)).

Lemma ggtt_meets_spec l i s c n :
  sane l -> l !! i = Some s -> 0 <= c -> 0 <= n -> c + n <= 2 ^ 32 ->
  meets {| address := c; bytes := n |} s = true <-> used s /\ ~ apart {| address := c; bytes := n |} (range (m s)).
Proof.
  intros Hs Hi Hc Hn Hl. unfold meets, is_free, used.
  destruct (decide (state (m s) = StFree)) as [E|E]; [rewrite bool_decide_true by done; split; [done|by intros [? _]]|].
  rewrite bool_decide_false by done. cbn [negb andb]. destruct (Hs i s Hi E) as [].
  rewrite <- (overlap_apart {| address := c; bytes := n |} (range (m s))) by (unfold r_end in *; cbn; lia). destruct (overlap _ _); split; naive_solver.
Qed.

Lemma next_spec l c n al :
  (next_candidate l c n al = c /\ forall s, s ∈ l -> meets {| address := c; bytes := n |} s = true ->
     align_up (address (range (m s)) +64 bytes (range (m s))) al <= c) \/
  (c < next_candidate l c n al /\ exists s, s ∈ l /\ meets {| address := c; bytes := n |} s = true /\
     next_candidate l c n al = align_up (address (range (m s)) +64 bytes (range (m s))) al).
Proof.
  unfold next_candidate. induction l as [|a l IH] using rev_ind; [left; split; [done|]; intros s Hs; by apply elem_of_nil in Hs|].
  rewrite foldl_snoc. set (x := foldl _ c l) in *. setoid_rewrite elem_of_app. setoid_rewrite list_elem_of_singleton.
  set (e := align_up (address (range (m a)) +64 bytes (range (m a))) al).
  destruct (meets _ a) eqn:Em; cbv zeta; fold e.
  - destruct (Z.ltb_spec x e).
    + right. split; [destruct IH as [[? _]|[? _]]; lia|]. exists a. tauto.
    + destruct IH as [[Hx Hl]|(Hx & b & ? & ? & ?)]; [left|right].
      * split; [done|]. intros b [Hb| ->] Hm; [by apply Hl|fold e; lia].
      * split; [done|]. exists b. tauto.
  - destruct IH as [[Hx Hl]|(Hx & b & ? & ? & ?)]; [left|right].
    + split; [done|]. intros b [Hb| ->] Hm; [by apply Hl|congruence].
    + split; [done|]. exists b. tauto.
Qed.

(** The mappings that end after [c]. *)
Definition beyond (c : Z) (s : Slot) : Prop := used s /\ c < r_end (range (m s)).
#[local] Instance beyond_dec c s : Decision (beyond c s).
Proof. unfold beyond, used. apply _. Defined.

Lemma beyond_lt (l : list Slot) c c' i s :
  c <= c' -> l !! i = Some s -> beyond c s -> ~ beyond c' s ->
  (length (filter (beyond c') l) < length (filter (beyond c) l))%nat.
Proof.
  intros Hc. assert (Hsub : forall l : list Slot, (length (filter (beyond c') l) <= length (filter (beyond c) l))%nat).
  { intros l'. induction l' as [|y l' IHl]; [done|]. rewrite !filter_cons.
    destruct (decide (beyond c' y)) as [[? ?]|]; destruct (decide (beyond c y)) as [|Hny]; cbn; try lia.
    destruct Hny. split; [done|lia]. }
  revert i. induction l as [|x l IH]; intros i Hi Ha Hn; [done|]. specialize (Hsub l). rewrite !filter_cons.
  destruct i as [|i]; cbn in Hi.
  - injection Hi as ->. rewrite decide_False, decide_True by done. cbn. lia.
  - specialize (IH i Hi Ha Hn). destruct (decide (beyond c' x)) as [[? ?]|];
      destruct (decide (beyond c x)) as [|Hny]; cbn; try lia. destruct Hny. split; [done|lia].
Qed.

(** The first place in a range, if there is one. *)
Definition first_place (l : list Slot) (r : Range) (al n : Z) (o : option Z) : Prop :=
  match o with
  | Some c => place l r al n c /\ forall c', place l r al n c' -> c <= c'
  | None => forall c, ~ place l r al n c
  end.

Lemma attempts_spec l r k n fuel c :
  sane l -> range_ok r -> 0 <= k <= 32 -> 0 < n <= 2 ^ 32 -> address r <= c < 2 ^ 34 -> c mod 2 ^ k = 0 ->
  (forall c', place l r (2 ^ k) n c' -> c <= c') -> (length (filter (beyond c) l) < fuel)%nat ->
  first_place l r (2 ^ k) n (attempts fuel l c (r_end r) n (2 ^ k)).
Proof.
  intros Hs Hr Hk Hn. destruct Hr as [Hb Ha He _]. revert c.
  induction fuel as [|fuel IH]; intros c Hc Hal Hmin Hf; [lia|]. cbn [attempts].
  destruct ((c <? r_end r) && (n <=? r_end r -64 c)) eqn:Eg.
  2: { intros c' Hp. pose proof (Hmin c' Hp). destruct Hp as (_ & [_ Hi] & _). unfold r_end in Hi at 1. cbn in Hi.
       apply andb_false_iff in Eg as [Eg|Eg]; [apply Z.ltb_ge in Eg; lia|]. apply Z.leb_gt in Eg. rewrite sub64_small in Eg by lia. lia. }
  apply andb_true_iff in Eg as [Eg1%Z.ltb_lt Eg2%Z.leb_le]. rewrite sub64_small in Eg2 by lia.
  destruct (next_spec l c n (2 ^ k)) as [[-> Hnone]|(Hlt & s & Hin & Hm & En)].
  - rewrite Z.eqb_refl. split; [|exact Hmin]. split; [done|]. split; [unfold inside, r_end; cbn; fold (r_end r); lia|].
    intros i s Hi Hu. destruct (meets {| address := c; bytes := n |} s) eqn:Em.
    + pose proof (Hnone s (list_elem_of_lookup_2 _ _ _ Hi) Em) as Hle.
      apply (ggtt_meets_spec l i) in Em as [_ Hna]; [|done|done|lia..]. destruct (Hs i s Hi Hu). unfold apart, r_end in *. cbn in Hna.
      rewrite add64_small in Hle by lia. destruct (align_up_spec (address (range (m s)) + bytes (range (m s))) k) as [? _]; lia.
    + destruct (decide (apart {| address := c; bytes := n |} (range (m s)))) as [|Hna]; [done|].
      rewrite (proj2 (ggtt_meets_spec l i s c n Hs Hi ltac:(lia) ltac:(lia) ltac:(lia)) (conj Hu Hna)) in Em. done.
  - rewrite (proj2 (Z.eqb_neq _ _)) by lia. apply list_elem_of_lookup in Hin as [i Hi].
    apply (ggtt_meets_spec l i) in Hm as [Hu Hna]; [|done|done|lia..]. pose proof (Hs i s Hi Hu) as Hrs. destruct Hrs.
    unfold apart, r_end in *. cbn in Hna. rewrite add64_small in En by lia.
    destruct (align_up_spec (address (range (m s)) + bytes (range (m s))) k) as (A1 & A2 & A3 & A4); [lia..|].
    rewrite <- En in *. apply IH; [lia|done| |].
    + intros c' Hp. apply A4; [|apply Hp]. pose proof (Hmin c' Hp). destruct Hp as (_ & _ & Hfree).
      destruct (Hfree i s Hi Hu) as [Hx|Hx]; unfold r_end in Hx; cbn in Hx; lia.
    + pose proof (beyond_lt l c (next_candidate l c n (2 ^ k)) i s ltac:(lia) Hi) as Hlt2. unfold beyond in Hlt2 at 1 2. unfold r_end in Hlt2.
      specialize (Hlt2 ltac:(split; [done|lia]) ltac:(lia)). lia.
Qed.

(** The ranges are searched in order. *)
Lemma search_spec l rs k n :
  sane l -> length l = MaxMappings -> Forall range_ok rs -> 0 <= k <= 32 -> 0 < n <= 2 ^ 32 ->
  match search rs l n (2 ^ k) with
  | Some c => exists i r, rs !! i = Some r /\ first_place l r (2 ^ k) n (Some c) /\
      forall j q, (j < i)%nat -> rs !! j = Some q -> first_place l q (2 ^ k) n None
  | None => forall i r, rs !! i = Some r -> first_place l r (2 ^ k) n None
  end.
Proof.
  intros Hs Hlen Hrs Hk Hn. induction Hrs as [|r rs Hr Hrs IH]; [done|]. cbn [search].
  assert (Ha : first_place l r (2 ^ k) n (attempts (S MaxMappings) l (align_up (address r) (2 ^ k)) (address r +64 bytes r) n (2 ^ k))).
  { pose proof Hr as [? ? He _]. unfold r_end in He. rewrite add64_small by lia.
    destruct (align_up_spec (address r) k) as (A1 & A2 & A3 & A4); [lia..|].
    apply attempts_spec; [done..|lia|done| |].
    - intros c' (C1 & [C2 _] & _). by apply A4.
    - rewrite <- Hlen. apply Nat.lt_succ_r, length_filter. }
  destruct (attempts _ _ _ _ _ _) as [c|].
  - exists 0%nat, r. split; [done|]. split; [done|]. intros j q Hj. lia.
  - destruct (search rs l n (2 ^ k)) as [c|].
    + destruct IH as (i & q & Hi & Hp & Hb). exists (S i), q. split; [done|]. split; [done|].
      intros [|j] q' Hj Hq; [by injection Hq as <-|]. eapply Hb; [|exact Hq]. lia.
    + intros [|i] q Hi; [by injection Hi as <-|]. by eapply IH.
Qed.

(** * The operations of the GGTT manager keep its invariant: changes of one slot, and the clearing of the entries of a mapping *)

Section Ops.
Context {W : Type}.
Implicit Types (x : machine W) (t : Manager W) (s : Slot).

(** * Changes of one slot *)

Definition put x (i : nat) s w tr : machine W :=
  {| mgr := set_slots (<[i := s]> (slots_ (mgr x))) (mgr x); world := w; trace := tr ++ trace x |}.

Lemma ggtt_alter_insert {A} (f : A -> A) (l : list A) i a : l !! i = Some a -> alter f i l = <[i := f a]> l.
Proof.
  intros Hi. apply list_eq. intros j. destruct (decide (i = j)) as [<-|].
  - rewrite list_lookup_alter_eq, list_lookup_insert_eq, Hi by (by eapply lookup_lt_Some). done.
  - by rewrite list_lookup_alter_ne, list_lookup_insert_ne.
Qed.

Lemma ggtt_wp_upd_slot i f s x (Q : unit -> machine W -> Prop) :
  slots_ (mgr x) !! i = Some s -> Q tt (put x i (f s) (world x) []) -> wp (upd_slot i f) Q x.
Proof. intros Hi H. unfold upd_slot, upd, wp. cbn. by rewrite (ggtt_alter_insert f _ _ _ Hi). Qed.

Lemma slot_at_lookup t i s : slots_ t !! i = Some s -> slot_at t i = s.
Proof. intros Hi. unfold slot_at. by rewrite Hi. Qed.

Definition one (P : Prop) `{Decision P} : Z := if decide P then 1 else 0.

Lemma filter_insert_length (P : Slot -> Prop) `{!forall s, Decision (P s)} (l : list Slot) i s s' :
  l !! i = Some s ->
  Z.of_nat (length (filter P (<[i := s']> l))) = Z.of_nat (length (filter P l)) + one (P s') - one (P s).
Proof.
  unfold one. revert i. induction l as [|a l IH]; intros [|i] Hi; cbn in Hi; try done.
  - injection Hi as ->. change (<[0%nat := s']> (s :: l)) with (s' :: l). rewrite !filter_cons. destruct (decide (P s')), (decide (P s)); cbn [length]; lia.
  - change (<[S i := s']> (a :: l)) with (a :: <[i := s']> l). rewrite !filter_cons. specialize (IH i Hi).
    destruct (decide (P a)); cbn [length]; lia.
Qed.

Lemma g_holds_app own b tr tr' : g_holds own b (tr ++ tr') = g_holds own b tr + g_holds own b tr'.
Proof. induction tr as [|ev tr IH]; cbn; lia. Qed.

(** The pages of two mappings differ. *)
Lemma page_of_same_range s s' a : range (m s') = range (m s) -> page_of s a -> page_of s' a.
Proof. unfold page_of. by intros ->. Qed.

Lemma page_of_bounds s a :
  range_ok (range (m s)) -> page_of s a -> address (range (m s)) <= a /\ a + 4096 <= r_end (range (m s)).
Proof.
  intros [] (p & Hp & ->). unfold r_end. pose proof (Z.mul_div_le (bytes (range (m s))) 4096). lia.
Qed.

Lemma page_of_apart s q a :
  range_ok (range (m s)) -> range_ok (range (m q)) -> apart (range (m s)) (range (m q)) -> page_of s a -> ~ page_of q a.
Proof.
  intros Hs Hq Ha H1 H2. apply page_of_bounds in H1; [|done]. apply page_of_bounds in H2; [|done].
  unfold apart in Ha. lia.
Qed.

#[export] Instance page_of_dec s a : Decision (page_of s a).
Proof.
  set (d := a - address (range (m s))).
  refine (cast_if (decide (d mod 4096 = 0 /\ 0 <= d / 4096 < bytes (range (m s)) / 4096))).
  - exists (d / 4096). split; [tauto|]. pose proof (Z.div_mod d 4096). subst d. lia.
  - intros (p & Hp & E). subst d. apply n. replace (a - address (range (m s))) with (p * 4096) by lia.
    rewrite Z.mod_mul, Z.div_mul by lia. done.
Defined.

(** What [put] must respect. *)
Record may_put x (i : nat) (s s' : Slot) (tr : list g_event) : Prop := {
  mp_slot : s' = no_slot \/
    used s' /\ range (m s') = range (m s) /\ generation (m s') = generation (m s) /\
    slot_ok (ranges_ (mgr x)) (serial_ (mgr x)) (tr ++ trace x) i s';
  mp_legal : g_legal_trace (tr ++ trace x);
  mp_others : forall a, ~ page_of s a -> ours (entry_of a (tr ++ trace x)) -> ours (entry_of a (trace x));
  mp_ours : forall a, page_of s a -> ours (entry_of a (tr ++ trace x)) ->
    used s' /\ touched s' = true /\ cleared s' = false;
  mp_holds : forall own b, g_holds own b tr = one (holder own b s') - one (holder own b s);
}.

Lemma put_ginv x i s s' w tr :
  ginv x -> slots_ (mgr x) !! i = Some s -> used s -> may_put x i s s' tr -> ginv (put x i s' w tr).
Proof.
  intros [[T1 T2 T3 T4 T5] Hr Hsr Hst Hl Hh] Hi Hu [P1 P2 P3 P4 P5].
  assert (Hu' : used s' -> range (m s') = range (m s) /\ generation (m s') = generation (m s) /\
    slot_ok (ranges_ (mgr x)) (serial_ (mgr x)) (tr ++ trace x) i s') by (destruct P1 as [->|?]; naive_solver).
  split; cbn; auto.
  - split; cbn; [by rewrite length_insert| | | |].
    + intros j q [(<- & <- & _)|[_ Hj]]%list_lookup_insert_Some Hf; [|by eapply T2].
      destruct P1 as [->|[? _]]; done.
    + intros j q [(<- & <- & _)|[_ Hj]]%list_lookup_insert_Some Hq; [by apply Hu'|]. by apply slot_ok_mono, T3.
    + intros j k q1 q2 [(<- & <- & _)|[N1 H1]]%list_lookup_insert_Some
        [(<- & <- & _)|[N2 H2]]%list_lookup_insert_Some U1 U2 Hne; [done| | |by eapply T4].
      * destruct (Hu' U1) as (-> & -> & _). by eapply T4.
      * destruct (Hu' U2) as (-> & -> & _). by eapply T4.
    + intros a Ha. destruct (decide (page_of s a)) as [Hp|Hp].
      * destruct (P4 a Hp Ha) as (U & Ht & Hc). exists i, s'. destruct (Hu' U) as (Er & _).
        rewrite list_lookup_insert_eq by (by eapply lookup_lt_Some). split_and!; try done. by eapply page_of_same_range.
      * destruct (T5 a (P3 a Hp Ha)) as (j & q & Hj & Uq & Ht & Hc & Hq). exists j, q. split_and!; try done.
        rewrite list_lookup_insert_ne; [done|]. intros <-. rewrite Hi in Hj. injection Hj as <-. done.
  - intros E. specialize (Hst E). destruct Hu. by rewrite (Hst s (list_elem_of_lookup_2 _ _ _ Hi)).
  - intros own b. rewrite g_holds_app, Hh, P5, (filter_insert_length _ _ _ _ _ Hi). lia.
Qed.

(** * Reads *)

(** Calls that say nothing about entries. *)
Definition silent (ev : g_event) : bool :=
  match ev with EvAdmitted _ | EvOwns _ _ _ | EvPat _ _ | EvRetired _ _ => true | _ => false end.

Lemma silent_benign tr : Forall (fun ev => silent ev = true) tr -> Forall (fun ev => benign ev = true) tr.
Proof. intros H. eapply Forall_impl; [exact H|]. by intros []. Qed.

Lemma silent_entry a tr tr' : Forall (fun ev => silent ev = true) tr -> entry_of a (tr ++ tr') = entry_of a tr'.
Proof. induction 1 as [|ev tr He _ IH]; [done|]. cbn. unfold entry_of in IH. rewrite IH. by destruct ev. Qed.

Lemma ggtt_wp_act {A} (f : W -> A * W) ev x (Q : A -> machine W -> Prop) :
  (forall r w, Q r (with_calls x w [ev r])) -> wp (act f ev) Q x.
Proof. intros H. unfold wp, act. destruct (f (world x)) as [r w]. apply H. Qed.

Lemma ggtt_wp_live x (Q : bool -> machine W -> Prop) :
  (forall r w tr, Forall (fun ev => silent ev = true) tr -> Q r (with_calls x w tr)) -> wp live Q x.
Proof.
  intros H. unfold live. wp_step. wp_step. wp_step.
  - unfold call_admitted. apply ggtt_wp_act. intros r w. apply H. by constructor.
  - apply wp_ret. specialize (H false (world x) [] ltac:(constructor)). by destruct x.
Qed.

Lemma ggtt_wp_read a x (Q : bool * Z -> machine W -> Prop) :
  (forall w tr, Forall (fun ev => silent ev = true) tr -> Q (false, 0) (with_calls x w tr)) ->
  (forall ok v w tr, Forall (fun ev => silent ev = true) tr -> Q (ok, v) (with_calls x w (EvRead a v ok :: tr))) ->
  wp (read a) Q x.
Proof.
  intros H1 H2. unfold read. wp_step. apply ggtt_wp_live. intros [] w tr Ht; [|by apply wp_ret, H1]. wp_step. wp_step.
  unfold call_readPte. apply ggtt_wp_act. intros [ok v] w'. rewrite with_calls_app. by apply H2.
Qed.

Lemma wp_read_zero s p x (Q : bool -> machine W -> Prop) :
  (forall w tr, Forall (fun ev => benign ev = true) tr -> Q false (with_calls x w tr)) ->
  (forall w tr, Forall (fun ev => silent ev = true) tr -> Q true (with_calls x w (EvRead (page_address s p) 0 true :: tr))) ->
  wp (read_zero s p) Q x.
Proof.
  intros H1 H2. unfold read_zero. wp_step. apply ggtt_wp_read; [intros w tr Ht; by apply wp_ret, H1, silent_benign|].
  intros ok v w tr Ht. apply wp_ret. cbn. destruct ok, (Z.eqb_spec v 0) as [->|]; cbn; [by apply H2|..].
  all: apply H1; constructor; [done|by apply silent_benign].
Qed.

(** A loop over pages: [P] holds of the pages done. *)
Lemma wp_all_pages (P : list Z -> machine W -> Prop) l (f : Z -> ST (machine W) bool) x (Q : bool -> machine W -> Prop) :
  P [] x ->
  (forall done page rest x', l = done ++ page :: rest -> P done x' ->
    wp (f page) (fun r x'' => if r then P (done ++ [page]) x'' else Q false x'') x') ->
  (forall x', P l x' -> Q true x') -> wp (all_pages l f) Q x.
Proof.
  intros H0 Hf HQ. cut (forall done l' x', l = done ++ l' -> P done x' -> wp (all_pages l' f) Q x').
  { intros H. by apply (H [] l x). }
  intros done l'. revert done. induction l' as [|p l' IH]; intros done x' El HP; cbn [all_pages].
  - rewrite app_nil_r in El. subst done. by apply wp_ret, HQ.
  - unfold both. wp_step. eapply wp_mono; [by eapply Hf|]. intros [] x'' H; [|done].
    apply (IH (done ++ [p])); [by rewrite <- app_assoc|done].
Qed.

Lemma page_address_spec s p :
  range_ok (range (m s)) -> 0 <= p < bytes (range (m s)) / 4096 ->
  page_address s p = address (range (m s)) + p * 4096 /\ page_of s (page_address s p).
Proof.
  intros [] Hp. pose proof (Z.mul_div_le (bytes (range (m s))) 4096). unfold page_address, PageSize, r_end in *.
  assert (E : address (range (m s)) +64 wrap 64 (p * 4096) = address (range (m s)) + p * 4096).
  { rewrite (wrap_small 64 (p * 4096)) by lia. rewrite add64_small by lia. done. }
  split; [done|]. exists p. done.
Qed.

Lemma page_address_inj s p q :
  range_ok (range (m s)) -> 0 <= p < bytes (range (m s)) / 4096 -> 0 <= q < bytes (range (m s)) / 4096 ->
  page_address s p = page_address s q -> p = q.
Proof.
  intros Hr Hp Hq. destruct (page_address_spec s p Hr Hp) as [-> _]. destruct (page_address_spec s q Hr Hq) as [-> _]. lia.
Qed.

Lemma page_of_address s a :
  range_ok (range (m s)) -> page_of s a -> exists p, 0 <= p < bytes (range (m s)) / 4096 /\ a = page_address s p.
Proof. intros Hr (p & Hp & ->). exists p. split; [done|]. by destruct (page_address_spec s p Hr Hp). Qed.

(** * Clearing *)

(** The world and the calls of [x] have moved on, the object has not. *)
Definition same_mgr x x' : Prop := mgr x' = mgr x /\ exists tr, trace x' = tr ++ trace x.

Lemma same_mgr_calls x w tr : same_mgr x (with_calls x w tr).
Proof. split; [done|]. by exists tr. Qed.
Lemma same_mgr_trans x y z : same_mgr x y -> same_mgr y z -> same_mgr x z.
Proof. intros [E [tr Et]] [E' [tr' Et']]. split; [congruence|]. exists (tr' ++ tr). by rewrite Et', Et, app_assoc. Qed.
Lemma same_mgr_in x y ev : same_mgr x y -> ev ∈ trace x -> ev ∈ trace y.
Proof. intros [_ [tr ->]] H. apply elem_of_app. by right. Qed.

(** Calls after which one slot's entries differ. *)
Lemma calls_ginv x i s w tr :
  ginv x -> slots_ (mgr x) !! i = Some s -> used s -> touched s = true -> cleared s = false ->
  g_legal_trace (tr ++ trace x) ->
  (forall a, ~ page_of s a -> ours (entry_of a (tr ++ trace x)) -> ours (entry_of a (trace x))) ->
  (forall own b, g_holds own b tr = 0) -> ginv (with_calls x w tr).
Proof.
  intros Hx Hi Hu Ht Hc Hl Ho Hh.
  assert (E : with_calls x w tr = put x i s w tr).
  { unfold put, with_calls. rewrite list_insert_id by done. by destruct (mgr x). }
  rewrite E. apply (put_ginv x i s s); [done..|]. split; auto.
  - right. split_and!; try done. apply slot_ok_mono. by apply (tb_used _ _ _ _ (gi_table _ Hx)).
  - intros own b. rewrite Hh. lia.
Qed.

Lemma write_ginv x i s p v w ok :
  ginv x -> slots_ (mgr x) !! i = Some s -> used s -> touched s = true -> cleared s = false ->
  0 <= p < bytes (range (m s)) / 4096 ->
  (v = 0 \/ v <> 0 /\ entry_of (page_address s p) (trace x) = Vacant) ->
  ginv (with_calls x w [EvWrite (page_address s p) v ok]).
Proof.
  intros Hx Hi Hu Ht Hc Hp Hv. pose proof (tb_used _ _ _ _ (gi_table _ Hx) _ _ Hi Hu) as Hs.
  destruct (page_address_spec s p (so_range _ _ _ _ _ Hs) Hp) as [_ Hpage].
  apply (calls_ginv x i s); try done.
  - split; [|apply Hx]. cbn. destruct Hv as [->|[Hv Hvac]]; [|by rewrite (proj2 (Z.eqb_neq v 0))].
    rewrite Z.eqb_refl. apply (so_touched _ _ _ _ _ Hs Ht). done.
  - intros a Ha. cbn. destruct (Z.eqb_spec (page_address s p) a) as [<-|]; done.
Qed.
End Ops.
