(* ===== verification/XeGgttClear.v ===== *)
(** The end of a mapping of the GGTT manager: its entries are cleared, checked and flushed before
    its backing is given back. *)
From stdpp Require Import base numbers list sets.
From S2P Require Import Prelude.
From S2P Require Import Pte.
From S2P Require Import PortedXe.
From S2P Require Import StateWp.
From S2P Require Import XeGgtt.
From S2P Require Import XeGgttInv.
Import XeGgtt.

Lemma seqZ_split n done p rest :
  seqZ 0 n = done ++ p :: rest -> 0 <= p < n /\ p ∉ done /\ forall q, q ∈ done -> 0 <= q < n.
Proof.
  intros E. assert (H : forall q, q ∈ done ++ p :: rest -> 0 <= q < n) by (intros q; rewrite <- E, elem_of_seqZ; lia).
  pose proof (NoDup_seqZ 0 n) as Hn. rewrite E in Hn. apply NoDup_app in Hn as (_ & Hn & _).
  split; [apply H; set_solver|]. split; [|intros q Hq; apply H; set_solver].
  intros Hp. apply (Hn p Hp). set_solver.
Qed.

Section Clear.
Context {W : Type} (read64 : Z -> W -> Z).
Implicit Types (x : machine W) (s : Slot).

(** A slot whose entries may be ours. *)
Record written x (i : nat) s : Prop := {
  wr_inv : ginv x;
  wr_slot : slots_ (mgr x) !! i = Some s;
  wr_used : used s;
  wr_touched : touched s = true;
  wr_cleared : cleared s = false;
}.

Lemma written_ok x i s : written x i s -> slot_ok (ranges_ (mgr x)) (serial_ (mgr x)) (trace x) i s.
Proof. intros []. by apply (tb_used _ _ _ _ (gi_table _ wr_inv0)). Qed.

Lemma written_pages x i s : written x i s -> pages (backing (m s)) = seqZ 0 (bytes (range (m s)) / 4096).
Proof.
  intros Hw. pose proof (written_ok _ _ _ Hw) as Ho. pose proof (so_touched _ _ _ _ _ Ho (wr_touched _ _ _ Hw)) as [Hh _].
  unfold pages. by rewrite (proj1 (so_held _ _ _ _ _ Ho Hh)).
Qed.

Lemma written_calls x i s w tr :
  written x i s -> Forall (fun ev => benign ev = true) tr -> written (with_calls x w tr) i s.
Proof. intros [] H. split; try done. by apply benigns_ginv. Qed.

(** The entries of the pages [l] of a slot. *)
Definition entries s (tr : list g_event) (l : Z -> Prop) (e : entry) : Prop :=
  forall p, 0 <= p < bytes (range (m s)) / 4096 -> l p -> entry_of (page_address s p) tr = e.

Lemma entries_silent s tr tr' l e :
  Forall (fun ev => silent ev = true) tr -> entries s tr' l e -> entries s (tr ++ tr') l e.
Proof. intros Ht H p Hp Hl. rewrite silent_entry by done. by apply H. Qed.

Lemma entries_other s tr l e a ev :
  (forall p, l p -> 0 <= p < bytes (range (m s)) / 4096 -> page_address s p <> a) ->
  (exists v ok, ev = EvRead a v ok \/ ev = EvWrite a v ok) -> entries s tr l e -> entries s (ev :: tr) l e.
Proof.
  intros Ha (v & ok & Hev) H p Hp Hl. specialize (H p Hp Hl). specialize (Ha p Hl Hp).
  destruct Hev as [->| ->]; cbn; rewrite (proj2 (Z.eqb_neq a _)) by done; done.
Qed.

Lemma clear_pages_ok x i s :
  written x i s ->
  wp (all_pages (pages (backing (m s))) (clear_page s)) (fun r x' =>
    written x' i s /\ same_mgr x x' /\ (r = true -> entries s (trace x') (fun _ => True) Checked)) x.
Proof.
  intros Hx. rewrite (written_pages _ _ _ Hx). pose proof (so_range _ _ _ _ _ (written_ok _ _ _ Hx)) as Hr.
  apply (wp_all_pages (fun done x' => written x' i s /\ same_mgr x x' /\ entries s (trace x') (fun p => p ∈ done) Checked)).
  - split; [done|]. split; [split; [done|by exists []]|]. intros p _ Hp. by apply elem_of_nil in Hp.
  - intros done p rest x1 El (H1 & Hsame & He). apply seqZ_split in El as (Hp & Hnin & _).
    assert (Hne : forall q, q ∈ done -> 0 <= q < bytes (range (m s)) / 4096 -> page_address s q <> page_address s p).
    { intros q Hq Hq' E. apply page_address_inj in E; [|done..]. by subst q. }
    unfold clear_page, both. wp_step. wp_step. wp_step. apply ggtt_wp_live. intros [] w1 t1 Ht1.
    2: { apply wp_ret. split; [apply written_calls; [done|by apply silent_benign]|].
         split; [eapply same_mgr_trans; [done|apply same_mgr_calls]|done]. }
    assert (H2 : written (with_calls x1 w1 t1) i s) by (apply written_calls; [done|by apply silent_benign]).
    wp_step. unfold call_writePte. apply ggtt_wp_act. intros ok w2.
    assert (H3 : written (with_calls (with_calls x1 w1 t1) w2 [EvWrite (page_address s p) 0 ok]) i s).
    { destruct H2. split; try done. eapply write_ginv; eauto. }
    assert (S3 : same_mgr x (with_calls (with_calls x1 w1 t1) w2 [EvWrite (page_address s p) 0 ok])).
    { do 2 (eapply same_mgr_trans; [|apply same_mgr_calls]). done. }
    destruct ok; [|apply wp_ret; done].
    apply wp_read_zero; intros w3 t3 Ht3.
    + split; [by apply written_calls|]. split; [eapply same_mgr_trans; [exact S3|apply same_mgr_calls]|done].
    + split; [apply written_calls; [done|]; constructor; [done|by apply silent_benign]|].
      split; [eapply same_mgr_trans; [exact S3|apply same_mgr_calls]|]. cbn.
      intros q Hq [Hd| ->%list_elem_of_singleton]%elem_of_app.
      * apply (entries_other _ _ (fun q => q ∈ done) _ (page_address s p)); [done|by eauto| |done|done].
        apply entries_silent; [done|]. apply (entries_other _ _ (fun q => q ∈ done) _ (page_address s p)); [done|by eauto|].
        by apply entries_silent.
      * rewrite entry_cons, silent_entry, entry_cons by done. cbn [entry_step]. by rewrite !Z.eqb_refl.
  - intros x1 (H1 & Hs & He). split; [done|]. split; [done|]. intros _ p Hp _. apply He; [done|]. apply elem_of_seqZ. lia.
Qed.

Lemma flushed_pages_ok x i s :
  written x i s -> entries s (trace x) (fun _ => True) Flushed ->
  wp (all_pages (pages (backing (m s))) (read_zero s)) (fun r x' =>
    written x' i s /\ same_mgr x x' /\ (r = true -> entries s (trace x') (fun _ => True) Idle)) x.
Proof.
  intros Hx Hf. rewrite (written_pages _ _ _ Hx). pose proof (so_range _ _ _ _ _ (written_ok _ _ _ Hx)) as Hr.
  apply (wp_all_pages (fun done x' => written x' i s /\ same_mgr x x' /\ entries s (trace x') (fun p => p ∈ done) Idle /\
    entries s (trace x') (fun p => p ∉ done) Flushed)).
  - split; [done|]. split; [split; [done|by exists []]|]. split; [intros p _ Hp; by apply elem_of_nil in Hp|].
    intros p Hp _. by apply Hf.
  - intros done p rest x1 El (H1 & Hsame & He & Hn). apply seqZ_split in El as (Hp & Hnin & _).
    assert (Hne : forall q, 0 <= q < bytes (range (m s)) / 4096 -> q <> p -> page_address s q <> page_address s p).
    { intros q Hq Hqp E. by apply page_address_inj in E. }
    apply wp_read_zero; intros w3 t3 Ht3.
    + split; [by apply written_calls|]. split; [eapply same_mgr_trans; [done|apply same_mgr_calls]|done].
    + split; [apply written_calls; [done|]; constructor; [done|by apply silent_benign]|].
      split; [eapply same_mgr_trans; [done|apply same_mgr_calls]|]. cbn. split.
      * intros q Hq [Hd| ->%list_elem_of_singleton]%elem_of_app.
        -- apply (entries_other _ _ (fun q => q ∈ done) _ (page_address s p)); [|by eauto|by apply entries_silent|done|done].
           intros q' Hq' Hb. apply Hne; [done|]. by intros ->.
        -- rewrite entry_cons, silent_entry by done. cbn [entry_step]. by rewrite Z.eqb_refl, (Hn p Hp Hnin).
      * intros q Hq Hd. assert (Hqp : q ∉ done /\ q <> p) by set_solver.
        apply (entries_other _ _ (fun q => q ∉ done /\ q <> p) _ (page_address s p)); [|by eauto| |done|done].
        -- intros q' [_ Hq'] Hb. by apply Hne.
        -- apply entries_silent; [done|]. intros q' Hb [Hq' _]. by apply Hn.
  - intros x1 (H1 & Hs & He & _). split; [done|]. split; [done|]. intros _ p Hp _. apply He; [done|]. apply elem_of_seqZ. lia.
Qed.

(** The slot [i] becomes [s'], and calls are made. *)
Definition puts x (i : nat) s' x' : Prop :=
  mgr x' = set_slots (<[i := s']> (slots_ (mgr x))) (mgr x) /\ exists tr, trace x' = tr ++ trace x.

Lemma puts_same x i s x' : slots_ (mgr x) !! i = Some s -> same_mgr x x' -> puts x i s x'.
Proof. intros Hi [E Ht]. split; [|done]. rewrite E, list_insert_id by done. by destruct (mgr x). Qed.

Lemma puts_put x i s w tr : puts x i s (put x i s w tr).
Proof. split; [done|by exists tr]. Qed.

Lemma puts_trans x y z i s1 s2 : puts x i s1 y -> puts y i s2 z -> puts x i s2 z.
Proof.
  intros [E1 [t1 Et1]] [E2 [t2 Et2]]. split.
  - rewrite E2, E1. cbn. by rewrite list_insert_insert_eq.
  - exists (t2 ++ t1). by rewrite Et2, Et1, app_assoc.
Qed.

Lemma puts_lookup x y i s s' : slots_ (mgr x) !! i = Some s -> puts x i s' y -> slots_ (mgr y) !! i = Some s'.
Proof. intros Hi [-> _]. cbn. apply list_lookup_insert_eq. by eapply lookup_lt_Some. Qed.

Lemma put_calls x i s w w' tr tr' : put (with_calls x w tr) i s w' tr' = put x i s w' (tr' ++ tr).
Proof. unfold put, with_calls. cbn. by rewrite app_assoc. Qed.

(** A slot that was not written, or was cleared, has no entries of ours. *)
Lemma not_ours x i s a :
  ginv x -> slots_ (mgr x) !! i = Some s -> used s -> page_of s a -> (touched s = true -> cleared s = true) ->
  ~ ours (entry_of a (trace x)).
Proof.
  intros Hx Hi Hu Ha Hc Ho. destruct (gi_table _ Hx) as [_ _ T3 T4 T5].
  destruct (T5 a Ho) as (j & q & Hj & Uq & Ht & Hcl & Hq).
  destruct (decide (i = j)) as [<-|Hne].
  - rewrite Hi in Hj. injection Hj as <-. rewrite Hc in Hcl; done.
  - destruct (T4 i j s q Hi Hj Hu Uq Hne) as [Hap _].
    apply (page_of_apart s q a); [apply (so_range _ _ _ _ _ (T3 i s Hi Hu))|apply (so_range _ _ _ _ _ (T3 j q Hj Uq))|done..].
Qed.

Lemma cleared_ginv x i s :
  written x i s -> entries s (trace x) (fun _ => True) Idle -> EvRetired (handle_of i s) true ∈ trace x ->
  ginv (put x i (set_cleared s) (world x) []).
Proof.
  intros Hx He Hret. pose proof (written_ok _ _ _ Hx) as Ho. destruct Hx as [Hx Hi Hu Ht Hc].
  apply (put_ginv x i s); [done..|]. split; cbn [app].
  - right. split; [done|]. split; [done|]. split; [done|]. destruct Ho. split; cbn; auto.
  - apply Hx.
  - done.
  - intros a Ha Hour. destruct (page_of_address s a (so_range _ _ _ _ _ Ho) Ha) as (p & Hp & ->).
    rewrite (He p Hp I) in Hour. by destruct Hour.
  - intros own b. unfold one, holder. cbn. destruct (decide _); lia.
Qed.

(** A part of [clear_entries], after which the slot is as it was. *)
Definition kept x i s x' : Prop := written x' i s /\ same_mgr x x'.

Lemma kept_calls x i s x' w tr : kept x i s x' -> Forall (fun ev => benign ev = true) tr -> kept x i s (with_calls x' w tr).
Proof. intros [H1 H2] H. split; [by apply written_calls|]. eapply same_mgr_trans; [done|apply same_mgr_calls]. Qed.

Lemma wp_both_kept (a b : ST (machine W) bool) x0 i s x (Q : bool -> machine W -> Prop) :
  (forall x', kept x0 i s x' -> Q false x') ->
  wp a (fun r x' => kept x0 i s x' /\ (r = true -> wp b Q x')) x -> wp (both a b) Q x.
Proof.
  intros HQ H. unfold both. wp_step. eapply wp_mono; [exact H|]. intros [] x' [Hk Hb]; [by apply Hb|]. by apply wp_ret, HQ.
Qed.

Lemma clear_entries_ok x i s :
  written x i s ->
  wp (clear_entries read64 i) (fun r x' =>
    if r then ginv x' /\ puts x i (set_cleared s) x' /\ EvRetired (handle_of i s) true ∈ trace x' else kept x i s x') x.
Proof.
  intros Hx. unfold clear_entries. wp_step. wp_step. rewrite (slot_at_lookup _ _ _ (wr_slot _ _ _ Hx)).
  fold (handle_of i s). assert (K0 : kept x i s x) by (split; [done|split; [done|by exists []]]).
  apply (wp_both_kept _ _ x i s); [done|]. apply ggtt_wp_act. intros ok w1.
  assert (K1 : kept x i s (with_calls x w1 [EvOwns (owner (m s)) (backing (m s)) ok])) by (apply kept_calls; [done|by constructor]).
  split; [exact K1|]. intros ->. revert K1. generalize (with_calls x w1 [EvOwns (owner (m s)) (backing (m s)) true]). intros x1 K1.
  apply (wp_both_kept _ _ x i s); [done|]. apply ggtt_wp_act. intros ok w2.
  assert (K2 : kept x i s (with_calls x1 w2 [EvRetired (handle_of i s) ok])) by (apply kept_calls; [done|by constructor]).
  split; [exact K2|]. intros ->. assert (R2 : EvRetired (handle_of i s) true ∈ trace (with_calls x1 w2 [EvRetired (handle_of i s) true])) by (cbn; set_solver).
  revert K2 R2. generalize (with_calls x1 w2 [EvRetired (handle_of i s) true]). intros x2 K2 R2.
  apply (wp_both_kept _ _ x i s); [done|]. apply wp_quiet; [auto with ggtt|]. intros ok w3 t3 Ht3.
  assert (R3 : EvRetired (handle_of i s) true ∈ trace (with_calls x2 w3 t3)) by (cbn; set_solver).
  eapply kept_calls in K2; [|exact Ht3]. split; [exact K2|]. intros ->. revert K2 R3. generalize (with_calls x2 w3 t3). intros x3 K3 R3.
  apply (wp_both_kept _ _ x i s); [done|]. eapply wp_mono; [exact (clear_pages_ok _ _ _ (proj1 K3))|]. intros ok x4 (H4 & S4 & E4).
  split; [split; [done|eapply same_mgr_trans; [exact (proj2 K3)|done]]|]. intros ->. specialize (E4 eq_refl).
  assert (K4 : kept x i s x4) by (split; [done|eapply same_mgr_trans; [exact (proj2 K3)|done]]).
  apply (wp_both_kept _ _ x i s); [done|]. apply ggtt_wp_live. intros ok w5 t5 Ht5.
  split; [apply kept_calls; [done|by apply silent_benign]|]. intros ->.
  apply (wp_both_kept _ _ x i s); [done|]. apply ggtt_wp_act. intros ok w6.
  rewrite with_calls_app. assert (K6 : kept x i s (with_calls x4 w6 ([EvInvalidate ok] ++ t5)))
    by (apply kept_calls; [done|]; constructor; [done|by apply silent_benign]).
  split; [exact K6|]. intros ->. set (x6 := with_calls x4 w6 _) in *.
  assert (R6 : EvRetired (handle_of i s) true ∈ trace x6) by (cbn; apply (same_mgr_in _ _ _ S4) in R3; set_solver).
  assert (E6 : entries s (trace x6) (fun _ => True) Flushed).
  { intros p Hp _. unfold x6, with_calls. cbn [trace app]. rewrite entry_cons, silent_entry, (E4 p Hp I) by done. done. }
  apply (wp_both_kept _ _ x i s); [done|]. eapply wp_mono; [exact (flushed_pages_ok _ _ _ (proj1 K6) E6)|]. intros ok x7 (H7 & S7 & E7).
  assert (K7 : kept x i s x7) by (split; [done|eapply same_mgr_trans; [exact (proj2 K6)|done]]). split; [done|]. intros ->.
  apply (same_mgr_in _ _ _ S7) in R6. wp_step. eapply ggtt_wp_upd_slot; [apply H7|]. apply wp_ret. split; [apply cleared_ginv; auto|].
  split; [|done]. eapply puts_trans; [eapply puts_same; [apply Hx|exact (proj2 K7)]|apply puts_put].
Qed.

(** * Teardown *)

Definition release_calls s (ok : bool) : list g_event := if held s then [EvRelease (owner (m s)) (backing (m s)) ok] else [].

Lemma freed_ginv x i s w :
  ginv x -> slots_ (mgr x) !! i = Some s -> used s -> (touched s = true -> cleared s = true) ->
  ginv (put x i no_slot w (release_calls s true)).
Proof.
  intros Hx Hi Hu Hc. pose proof (tb_used _ _ _ _ (gi_table _ Hx) _ _ Hi Hu) as Ho.
  assert (He : forall a, entry_of a (release_calls s true ++ trace x) = entry_of a (trace x))
    by (intros a; unfold release_calls; by destruct (held s)).
  apply (put_ginv x i s); [done..|]. split.
  - by left.
  - unfold release_calls. destruct (held s); [split; [done|]|]; apply Hx.
  - intros a _. by rewrite He.
  - intros a Ha. rewrite He. intros Hour. by destruct (not_ours x i s a Hx Hi Hu Ha Hc).
  - intros own b. unfold one, release_calls. rewrite (decide_False (P := holder own b no_slot)) by (by intros [? _]).
    destruct (decide (holder own b s)) as [[Eh [<- <-]]|Hn].
    + rewrite Eh. cbn. by rewrite decide_True.
    + destruct (held s) eqn:Eh; [|done]. cbn. rewrite decide_False; [done|]. intros [<- <-]. by apply Hn.
Qed.

(** What [teardown] does to its slot. *)
Definition torn x i s (r : Status) x' : Prop :=
  ginv x' /\
  ((r = Quarantined /\ (puts x i s x' \/ puts x i (set_cleared s) x')) \/
   (r = Ok /\ puts x i no_slot x' /\ users (m s) = 0 /\ (touched s = true -> EvRetired (handle_of i s) true ∈ trace x'))).

Lemma teardown_release x0 i s s1 x :
  ginv x -> slots_ (mgr x) !! i = Some s1 -> used s1 -> (touched s1 = true -> cleared s1 = true) ->
  slots_ (mgr x0) !! i = Some s -> puts x0 i s1 x -> (s1 = s \/ s1 = set_cleared s) -> users (m s) = 0 ->
  wp (r <-- (if held s then call_releaseBacking (io_ (mgr x)) (owner (m s)) (epoch_ (mgr x)) (backing (m s)) else ret true) ;;
      if negb r then ret Quarantined else upd_slot i (fun _ => no_slot) ;;; ret Ok) (torn x0 i s) x.
Proof.
  intros Hx Hi Hu Hc Hi0 Hp Hs Hz. pose proof (tb_used _ _ _ _ (gi_table _ Hx) _ _ Hi Hu) as Ho.
  assert (Eh : release_calls s1 true = release_calls s true) by (destruct Hs as [->| ->]; done).
  assert (Hr : touched s = true -> EvRetired (handle_of i s) true ∈ trace x).
  { intros Ht. assert (Ht1 : touched s1 = true) by (destruct Hs as [->| ->]; done).
    destruct (so_cleared _ _ _ _ _ Ho (Hc Ht1)) as [_ H]. destruct Hs as [->| ->]; done. }
  assert (Hfree : forall w, torn x0 i s Ok (put x i no_slot w (release_calls s true))).
  { intros w. rewrite <- Eh. split; [by apply freed_ginv|]. right. split; [done|]. split; [eapply puts_trans; [done|apply puts_put]|].
    split; [done|]. intros Ht. cbn. apply elem_of_app. right. auto. }
  unfold release_calls in Hfree. wp_step. destruct (held s).
  - unfold call_releaseBacking. apply ggtt_wp_act. intros [] w; cbn [negb].
    + wp_step. eapply ggtt_wp_upd_slot; [cbn; exact Hi|]. apply wp_ret. rewrite put_calls. apply Hfree.
    + apply wp_ret. split; [by apply benign_ginv|]. left. split; [done|].
      assert (puts x0 i s1 (with_calls x w [EvRelease (owner (m s)) (backing (m s)) false])).
      { eapply puts_trans; [done|]. eapply puts_same; [done|apply same_mgr_calls]. }
      destruct Hs as [->| ->]; auto.
  - apply wp_ret. cbn [negb]. wp_step. eapply ggtt_wp_upd_slot; [exact Hi|]. apply wp_ret, Hfree.
Qed.

Lemma teardown_ok x i s :
  ginv x -> slots_ (mgr x) !! i = Some s -> used s -> wp (teardown read64 i) (torn x i s) x.
Proof.
  intros Hx Hi Hu. unfold teardown. wp_step. apply ggtt_wp_live. intros l w tr Ht. apply silent_benign in Ht. wp_step. wp_step.
  cbn [mgr with_calls]. rewrite (slot_at_lookup _ _ _ Hi). set (x1 := with_calls x w tr).
  assert (H1 : ginv x1) by (by apply benigns_ginv). assert (P1 : puts x i s x1) by (eapply puts_same; [done|apply same_mgr_calls]).
  assert (Hi1 : slots_ (mgr x1) !! i = Some s) by done. change (mgr x) with (mgr x1). clearbody x1.
  wp_step; [apply wp_ret; split; [done|]; left; auto|]. apply orb_false_iff in Hcond as [_ Hz].
  apply negb_false_iff, Z.eqb_eq in Hz. destruct (touched s && negb (cleared s)) eqn:E.
  - apply andb_true_iff in E as [Et Ec%negb_true_iff]. wp_step. eapply wp_mono; [by apply clear_entries_ok|].
    intros [] x2 H2; cbn [negb].
    + destruct H2 as (H2 & P2 & R2). assert (Em : io_ (mgr x1) = io_ (mgr x2) /\ epoch_ (mgr x1) = epoch_ (mgr x2)) by (destruct P2 as [-> _]; done).
      destruct Em as [-> ->]. apply (teardown_release x i s (set_cleared s)); auto.
      * by eapply puts_lookup.
      * by eapply puts_trans.
    + destruct H2 as [H2 S2]. apply wp_ret. split; [apply H2|]. left. split; [done|]. left.
      eapply puts_trans; [done|]. by eapply puts_same.
  - wp_step. apply wp_ret. cbn [negb]. apply (teardown_release x i s s); auto. intros Ht'. rewrite Ht' in E. by destruct (cleared s).
Qed.

Lemma fail_with_ok x i s st :
  ginv x -> slots_ (mgr x) !! i = Some s -> used s -> st <> Ok ->
  wp (fail_with read64 i st) (fun r x' => r <> Ok /\ exists r', torn x i s r' x') x.
Proof.
  intros Hx Hi Hu Hst. unfold fail_with. wp_step. eapply wp_mono; [by apply teardown_ok|].
  intros r x' H. apply wp_ret. split; [by destruct (decide (r = Ok))|]. by exists r.
Qed.
End Clear.

(** * The publication of a mapping by the GGTT manager *)

(** The same mapping, possibly with other fields. *)
Record alike (s s' : Slot) : Prop := {
  al_used : used s';
  al_range : range (m s') = range (m s);
  al_generation : generation (m s') = generation (m s);
  al_owner : owner (m s') = owner (m s);
  al_touched : touched s = true -> touched s' = true;
}.

Lemma alike_refl s : used s -> alike s s.
Proof. by split. Qed.
Lemma alike_trans s1 s2 s3 : alike s1 s2 -> alike s2 s3 -> alike s1 s3.
Proof. intros [] []. split; auto; congruence. Qed.

(** An entry is never zero. *)
Lemma expected_nonzero {W} (read64 : Z -> W -> Z) s p w pte : expected read64 s p w = Some pte -> pte <> 0.
Proof.
  unfold expected. set (dma := wrap 64 _). assert (0 <= dma) by (apply (wrap_range 64); lia). intros H1 ->.
  destruct (PortedXe.encodeGgtt dma (pat (m s)) false 46 0) as [[[] o]|] eqn:E; try done. injection H1 as ->.
  destruct (PortedXe.encodeGgtt_Ok _ _ _ _ _ _ E) as [Hv Hp]. rewrite PortedXe.encodeGgtt_valid in E by done. injection E as E.
  apply (f_equal (fun z => Z.testbit z 0)) in E. rewrite Z.lor_spec, Pte.xelpg_ggtt_pte_flags_bits, Z.bits_0 in E.
  by destruct (Z.testbit dma 0).
Qed.

Section Publish.
Context {W : Type} (read64 : Z -> W -> Z).
Implicit Types (x : machine W) (s : Slot).

(** What an operation does to a slot in use: it stays the same mapping, or it is freed, and then
    the adapter has confirmed that nobody uses it if its entries had been written. *)
Definition fate x i s x' : Prop :=
  ginv x' /\ exists s', puts x i s' x' /\ (state (m s') = StReserved -> held s' = false) /\
  (alike s s' \/
   s' = no_slot /\ users (m s) = 0 /\ (touched s = true -> EvRetired (handle_of i s) true ∈ trace x')).

Lemma torn_fate x i s r x' : torn x i s r x' -> used s -> state (m s) <> StReserved -> fate x i s x'.
Proof.
  intros [Hi H] Hu Hs. split; [done|]. destruct H as [(_ & [P|P])|(_ & P & Hz & Hr)].
  - exists s. split; [done|]. split; [done|]. left. by apply alike_refl.
  - exists (set_cleared s). split; [done|]. split; [done|]. left. by split.
  - exists no_slot. split; [done|]. split; [done|]. by right.
Qed.

Lemma fate_trans x y z i s s1 :
  puts x i s1 y -> alike s s1 -> users (m s1) = users (m s) -> fate y i s1 z -> fate x i s z.
Proof.
  intros P A Eu [Hz (s' & P' & Hs & H)]. split; [done|]. exists s'. split; [by eapply puts_trans|]. split; [done|].
  destruct H as [H|(-> & Hu & Hr)]; [left; by eapply alike_trans|right]. split; [done|]. rewrite <- Eu. split; [done|].
  intros Ht. replace (handle_of i s) with (handle_of i s1); [apply Hr, A, Ht|]. unfold handle_of. by rewrite (al_generation _ _ A).
Qed.

(** Changes of fields that the table does not depend on. *)
Lemma put_alike x i s s' w tr :
  ginv x -> slots_ (mgr x) !! i = Some s -> used s -> alike s s' ->
  slot_ok (ranges_ (mgr x)) (serial_ (mgr x)) (tr ++ trace x) i s' ->
  Forall (fun ev => benign ev = true) tr -> held s' = held s -> backing (m s') = backing (m s) -> cleared s' = cleared s ->
  ginv (put x i s' w tr).
Proof.
  intros Hx Hi Hu A Ho Ht Eh Eb Ec. pose proof (benigns_ginv x w tr Hx Ht) as Hb. apply (put_ginv x i s); [done..|].
  assert (Hours : forall a, ours (entry_of a (tr ++ trace x)) -> ours (entry_of a (trace x))).
  { clear -Ht. induction Ht as [|ev tr He _ IH]; [done|]. intros a. cbn [app]. rewrite entry_cons.
    intros H. by apply IH, (benign_entry a ev). }
  split.
  - right. destruct A. auto.
  - apply Hb.
  - intros a _. apply Hours.
  - intros a Ha Ho'. split; [apply A|]. rewrite Ec. destruct (touched s) eqn:Et.
    + split; [by apply A|]. destruct (cleared s) eqn:Ecl; [|done]. exfalso.
      eapply (not_ours (with_calls x w tr) i s a); [exact Hb|done|done|done|done|exact Ho'].
    + exfalso. eapply (not_ours (with_calls x w tr) i s a); [exact Hb|done|done|done|by rewrite Et|exact Ho'].
  - intros own b. assert (E : g_holds own b tr = 0).
    { clear -Ht. induction Ht as [|ev tr He _ IH]; [done|]. cbn. rewrite IH.
      destruct ev as [| | |? ? []|? ? []|? ? []| | | | |]; done. }
    rewrite E. unfold one. destruct A. assert (holder own b s' <-> holder own b s) by (unfold holder; rewrite Eh, Eb, al_owner0; done).
    destruct (decide (holder own b s')), (decide (holder own b s)); tauto || lia.
Qed.

(** * Writing the entries *)

(** The slot while its entries are written; [s] is its value when the backing was retained. *)
Record writing x (i : nat) (s q : Slot) : Prop := {
  wg_inv : ginv x;
  wg_slot : slots_ (mgr x) !! i = Some q;
  wg_state : state (m q) = StQuarantined;
  wg_held : held q = true /\ cleared q = false;
  wg_users : users (m q) = 0;
  wg_range : range (m q) = range (m s);
  wg_backing : backing (m q) = backing (m s) /\ pat (m q) = pat (m s);
  wg_vacant : forall a, page_of q a -> EvRead a 0 true ∈ trace x;
}.

Lemma writing_used x i s q : writing x i s q -> used q.
Proof. intros []. unfold used. by rewrite wg_state0. Qed.

Lemma writing_ok x i s q : writing x i s q -> slot_ok (ranges_ (mgr x)) (serial_ (mgr x)) (trace x) i q.
Proof. intros H. pose proof (writing_used _ _ _ _ H). destruct H. by apply (tb_used _ _ _ _ (gi_table _ wg_inv0)). Qed.

Lemma writing_calls x i s q w tr :
  writing x i s q -> Forall (fun ev => benign ev = true) tr -> writing (with_calls x w tr) i s q.
Proof.
  intros [] Ht. split; try done; [by apply benigns_ginv|]. intros a Ha. apply elem_of_app. right. auto.
Qed.

Lemma page_address_range s q p : range (m q) = range (m s) -> page_address q p = page_address s p.
Proof. unfold page_address. by intros ->. Qed.

Lemma touched_writing x i s q w :
  writing x i s q -> writing (put x i (set_touched q) w []) i s (set_touched q).
Proof.
  intros H. pose proof (writing_ok _ _ _ _ H) as Ho. pose proof (writing_used _ _ _ _ H) as Hu. destruct H as [H1 H2 H3 [H4 H4'] H5 H6 H7 H8].
  split; try done; [|cbn; apply list_lookup_insert_eq; by eapply lookup_lt_Some].
  apply (put_alike x i q); try done. destruct Ho. split; cbn; auto. by rewrite H4'.
Qed.

(** What one round of the loop does. *)
Definition page_result x i s q p (r : option Status) x' : Prop :=
  match r with
  | Some st => st <> Ok /\ fate x i q x'
  | None => exists q', writing x' i s q' /\ puts x i q' x' /\ alike q q' /\
      forall p', 0 <= p' < bytes (range (m s)) / 4096 -> p' <> p ->
        entry_of (page_address s p') (trace x') = entry_of (page_address s p') (trace x)
  end.

Lemma fail_page x i s q p q' x' :
  writing x' i s q' -> puts x i q' x' -> alike q q' -> users (m q) = 0 ->
  wp (r <-- fail_with read64 i Io ;; ret (Some r)) (page_result x i s q p) x'.
Proof.
  intros Hw P A Hz. wp_step. eapply wp_mono; [apply (fail_with_ok read64 x' i q'); [apply Hw|apply Hw|by eapply writing_used|done]|].
  intros r x'' [Hr [r' Ht]]. apply wp_ret. split; [done|]. eapply (fate_trans x x' x'' i q q'); [done|done| |].
  - rewrite Hz. apply Hw.
  - eapply torn_fate; [exact Ht|by eapply writing_used|by rewrite (wg_state _ _ _ _ Hw)].
Qed.

Lemma written_writing x i s q p pte w ok :
  writing x i s q -> touched q = true -> 0 <= p < bytes (range (m s)) / 4096 -> pte <> 0 ->
  entry_of (page_address q p) (trace x) = Vacant -> writing (with_calls x w [EvWrite (page_address q p) pte ok]) i s q.
Proof.
  intros Hx Ht Hp Hz Hv. pose proof (writing_used _ _ _ _ Hx) as Hu. destruct Hx as [G1 G2 G3 [G4 G4'] G5 G6 G7 G8]. split; try done.
  - eapply write_ginv; [done..|by rewrite G6|]. right. done.
  - intros a Ha. cbn. apply elem_of_cons. right. by apply G8.
Qed.

Lemma write_page_ok x i s q p :
  writing x i s q -> 0 <= p < bytes (range (m s)) / 4096 -> entry_of (page_address s p) (trace x) = Vacant ->
  wp (write_page read64 i s p) (page_result x i s q p) x.
Proof.
  intros Hx Hp Hv. unfold write_page. wp_step. apply ggtt_wp_live. intros l w1 t1 Ht1. wp_step. wp_step.
  pose proof (silent_benign _ Ht1) as Hb1. pose proof (writing_calls x i s q w1 t1 Hx Hb1) as H1.
  pose proof (wg_range _ _ _ _ Hx) as Er. pose proof (writing_used _ _ _ _ Hx) as Hu. pose proof (wg_users _ _ _ _ Hx) as Hz.
  assert (Hsame : fate x i q (with_calls x w1 t1)).
  { split; [apply H1|]. exists q. split; [eapply puts_same; [apply Hx|apply same_mgr_calls]|].
    split; [by rewrite (wg_state _ _ _ _ Hx)|]. left. by apply alike_refl. }
  destruct l; [|by apply wp_ret]. destruct (expected read64 s p _) as [pte|] eqn:Ee; [|by apply wp_ret].
  apply expected_nonzero in Ee. wp_step. wp_step. wp_step. eapply ggtt_wp_upd_slot; [apply H1|].
  set (q1 := set_touched q). set (x2 := put _ i q1 _ []).
  assert (H2 : writing x2 i s q1) by (by apply touched_writing).
  assert (P2 : puts x i q1 x2). { eapply puts_trans; [eapply puts_same; [apply Hx|apply same_mgr_calls]|apply puts_put]. }
  assert (A2 : alike q q1) by (by split). rewrite <- (page_address_range s q1) in Hv |- * by done.
  assert (Hent : forall a, entry_of a (trace x2) = entry_of a (trace x))
    by (intros a; change (trace x2) with (t1 ++ trace x); by rewrite silent_entry).
  rewrite <- Hent in Hv. clearbody x2. wp_step. unfold call_writePte. apply ggtt_wp_act. intros ok w3.
  pose proof (written_writing x2 i s q1 p pte w3 ok H2 eq_refl Hp Ee Hv) as H3.
  assert (P3 : puts x i q1 (with_calls x2 w3 [EvWrite (page_address q1 p) pte ok])).
  { eapply puts_trans; [exact P2|]. eapply puts_same; [apply H2|apply same_mgr_calls]. }
  wp_step; [by eapply fail_page|]. wp_step. apply ggtt_wp_read; intros.
  - cbn [fst negb orb]. eapply fail_page; [by apply writing_calls, silent_benign| |done|done].
    eapply puts_trans; [exact P3|]. eapply puts_same; [apply H3|apply same_mgr_calls].
  - assert (Hb : Forall (fun ev => benign ev = true) (EvRead (page_address q1 p) v ok0 :: tr)) by (constructor; [done|by apply silent_benign]).
    assert (P4 : puts x i q1 (with_calls (with_calls x2 w3 [EvWrite (page_address q1 p) pte ok]) w (EvRead (page_address q1 p) v ok0 :: tr))).
    { eapply puts_trans; [exact P3|]. eapply puts_same; [apply H3|apply same_mgr_calls]. }
    wp_step; [eapply fail_page; [by apply writing_calls|done..]|]. apply wp_ret. exists q1. split; [by apply writing_calls|].
    split; [done|]. split; [done|]. intros p' Hp' Hne.
    assert (Ha : page_address q1 p <> page_address s p').
    { rewrite (page_address_range s) by done. intros E. apply page_address_inj in E; [done| |done..].
      rewrite <- Er. apply (so_range _ _ _ _ _ (writing_ok _ _ _ _ Hx)). }
    cbn [trace with_calls app]. rewrite entry_cons, silent_entry, entry_cons by done. cbn [entry_step].
    rewrite (proj2 (Z.eqb_neq _ _) Ha). apply Hent.
Qed.

Lemma write_pages_ok x i s q done l :
  writing x i s q -> seqZ 0 (bytes (range (m s)) / 4096) = done ++ l ->
  entries s (trace x) (fun p => p ∈ l) Vacant ->
  wp (write_pages read64 i s l) (fun r x' =>
    match r with
    | Some st => st <> Ok /\ fate x i q x'
    | None => exists q', writing x' i s q' /\ puts x i q' x' /\ alike q q'
    end) x.
Proof.
  revert x q done. induction l as [|p l IH]; intros x q done Hx El Hv; cbn [write_pages].
  { apply wp_ret. exists q. split; [exact Hx|]. split; [eapply puts_same; [apply Hx|split; [reflexivity|by exists []]]|].
    apply alike_refl. by eapply writing_used. }
  pose proof (seqZ_split _ _ _ _ El) as (Hp & _ & _).
  assert (Hnd : p ∉ l). { pose proof (NoDup_seqZ 0 (bytes (range (m s)) / 4096)) as Hn. rewrite El in Hn. apply NoDup_app in Hn as (_ & _ & Hn). by inversion Hn. }
  wp_step. eapply wp_mono; [apply write_page_ok; [exact Hx|exact Hp|apply Hv; [exact Hp|set_solver]]|].
  intros [st|] x1 H1; [by apply wp_ret|]. destruct H1 as (q1 & H1 & P1 & A1 & E1).
  eapply wp_mono.
  - apply (IH x1 q1 (done ++ [p])); [exact H1|by rewrite <- app_assoc|]. intros p' Hp' Hl. rewrite E1; [apply Hv; [exact Hp'|set_solver]|exact Hp'|by intros ->].
  - intros [st|] x2 H2.
    + split; [apply H2|]. eapply fate_trans; [exact P1|exact A1| |apply H2]. by rewrite (wg_users _ _ _ _ H1), (wg_users _ _ _ _ Hx).
    + destruct H2 as (q2 & H2 & P2 & A2). exists q2. split; [exact H2|]. split; [by eapply puts_trans|by eapply alike_trans].
Qed.
(** * Verification *)

(** Every page of [s] was read as the entry that the backing asks for. *)
Definition pages_read s (tr : list g_event) : Prop :=
  forall p, p ∈ pages (backing (m s)) -> exists w v,
    expected read64 s p w = Some v /\ EvRead (page_address s p) v true ∈ tr.

Lemma wp_verify s x (Q : bool -> machine W -> Prop) :
  (forall r w tr, Forall (fun ev => benign ev = true) tr -> (r = true -> pages_read s tr) -> Q r (with_calls x w tr)) ->
  wp (verify read64 s false) Q x.
Proof.
  intros HQ. unfold verify, pages_read in *. revert x Q HQ. induction (pages (backing (m s))) as [|p l IH]; intros x Q HQ; cbn [all_pages].
  { apply wp_ret. replace x with (with_calls x (world x) []) by (by destruct x). apply HQ; [done|]. intros _ p Hp. by apply elem_of_nil in Hp. }
  unfold both. wp_step. unfold verify_page. wp_step. wp_step.
  destruct (expected read64 s p (world x)) as [v|] eqn:Ee.
  2: { apply wp_ret, wp_ret. replace x with (with_calls x (world x) []) by (by destruct x). by apply HQ. }
  wp_step. apply ggtt_wp_read.
  { intros w tr Ht. apply wp_ret, wp_ret. apply HQ; [by apply silent_benign|done]. }
  intros ok v' w tr Ht. apply wp_ret. cbn [fst snd]. assert (Hb : Forall (fun ev => benign ev = true) (EvRead (page_address s p) v' ok :: tr))
    by (constructor; [done|by apply silent_benign]).
  destruct ok, (Z.eqb_spec v' v) as [->|]; cbn [andb]; [|by apply wp_ret, HQ..].
  apply IH. intros r w' tr' Hb' Hr. rewrite with_calls_app. apply HQ; [by apply Forall_app|].
  intros ->. intros p' [->|Hp']%elem_of_cons.
  - exists (world x), v. split; [done|]. apply elem_of_app. right. set_solver.
  - destruct (Hr eq_refl p' Hp') as (w1 & v1 & ? & ?). exists w1, v1. split; [done|]. apply elem_of_app. by left.
Qed.

(** The entries of a published mapping: after the last write they were invalidated and then read
    back. *)
Definition shown s (tr : list g_event) : Prop :=
  exists t1 t2, tr = t1 ++ EvInvalidate true :: t2 /\ Forall (fun ev => benign ev = true) t1 /\ pages_read s t1.

Definition published_as s q' tr : Prop :=
  state (m q') = StPublished /\ backing (m q') = backing (m s) /\ pat (m q') = pat (m s) /\ shown s tr.

Lemma publish_state x i s q :
  writing x i s q -> ginv (put x i (set_state StPublished q) (world x) []).
Proof.
  intros H. pose proof (writing_ok _ _ _ _ H) as Ho. pose proof (writing_used _ _ _ _ H) as Hu. destruct H.
  apply (put_alike x i q); try done. destruct wg_held0, Ho. by split.
Qed.

Lemma write_entries_ok x i s q :
  writing x i s q -> entries s (trace x) (fun _ => True) Vacant -> pageCount (backing (m s)) = bytes (range (m s)) / 4096 ->
  wp (write_entries read64 i s) (fun r x' => fate x i q x' /\
    (r = Ok -> exists q', puts x i q' x' /\ alike q q' /\ published_as s q' (trace x'))) x.
Proof.
  intros Hx Hv Hn. unfold write_entries, pages. rewrite Hn. wp_step.
  eapply wp_mono; [apply (write_pages_ok x i s q []); [done..|]; intros p Hp _; by apply Hv|].
  intros [st|] x1 H1; [apply wp_ret; destruct H1; split; [done|congruence]|]. destruct H1 as (q1 & H1 & P1 & A1).
  pose proof (writing_used _ _ _ _ H1) as U1.
  assert (Hz : users (m q1) = users (m q)) by (by rewrite (wg_users _ _ _ _ H1), (wg_users _ _ _ _ Hx)).
  assert (Hfail : forall x', writing x' i s q1 -> puts x i q1 x' ->
    wp (fail_with read64 i Io) (fun r x'' => fate x i q x'' /\ (r = Ok -> exists q', puts x i q' x'' /\ alike q q' /\ published_as s q' (trace x''))) x').
  { intros x' Hw P. eapply wp_mono; [apply (fail_with_ok read64 x' i q1); [apply Hw|apply Hw|done|done]|].
    intros r x'' [Hr [r' Ht]]. split; [|congruence]. eapply fate_trans; [exact P|done|done|].
    eapply torn_fate; [exact Ht|done|by rewrite (wg_state _ _ _ _ Hw)]. }
  wp_step. wp_step. wp_step. unfold both. wp_step. apply ggtt_wp_live. intros l w2 t2 Ht2. apply silent_benign in Ht2.
  assert (H2 : writing (with_calls x1 w2 t2) i s q1) by (by apply writing_calls).
  assert (P2 : puts x i q1 (with_calls x1 w2 t2)) by (eapply puts_trans; [exact P1|eapply puts_same; [apply H1|apply same_mgr_calls]]).
  revert H2 P2. generalize (with_calls x1 w2 t2). intros x2 H2 P2. destruct l; [|apply wp_ret; by apply Hfail].
  wp_step. unfold call_invalidate. apply ggtt_wp_act. intros ok w3.
  assert (H3 : writing (with_calls x2 w3 [EvInvalidate ok]) i s q1) by (apply writing_calls; [done|by constructor]).
  assert (P3 : puts x i q1 (with_calls x2 w3 [EvInvalidate ok])) by (eapply puts_trans; [exact P2|eapply puts_same; [apply H2|apply same_mgr_calls]]).
  destruct ok; [|apply wp_ret; by apply Hfail]. apply wp_verify. intros r w4 t4 Ht4 Hr.
  assert (H4 : writing (with_calls (with_calls x2 w3 [EvInvalidate true]) w4 t4) i s q1) by (by apply writing_calls).
  assert (P4 : puts x i q1 (with_calls (with_calls x2 w3 [EvInvalidate true]) w4 t4)) by (eapply puts_trans; [exact P3|eapply puts_same; [apply H3|apply same_mgr_calls]]).
  destruct r; cbn [negb]; [|by apply Hfail]. wp_step. eapply ggtt_wp_upd_slot; [apply H4|]. apply wp_ret.
  assert (P5 : forall w, puts x i (set_state StPublished q1) (put (with_calls (with_calls x2 w3 [EvInvalidate true]) w4 t4) i (set_state StPublished q1) w [])).
  { intros w. eapply puts_trans; [exact P4|apply puts_put]. }
  assert (A5 : alike q (set_state StPublished q1)) by (eapply alike_trans; [exact A1|by split]).
  split; [split; [by eapply publish_state|]; eexists; split; [apply P5|]; split; [done|by left]|].
  intros _. eexists. split; [apply P5|]. split; [done|]. destruct (wg_backing _ _ _ _ H4). split; [done|]. split; [done|]. split; [done|].
  exists t4, (trace x2). split; [done|]. split; [done|]. by apply Hr.
Qed.
End Publish.
