(* ===== verification/XeGgttThms.v ===== *)
(** Every operation of the GGTT manager keeps its invariant. *)
From stdpp Require Import base numbers list sets.
From S2P Require Import Prelude.
From S2P Require Import PortedXe.
From S2P Require Import StateWp.
From S2P Require Import XeGgtt.
From S2P Require Import XeGgttInv.
From S2P Require Import XeGgttClear.
Import XeGgtt.

Section Run.
Context {W : Type} (read64 : Z -> W -> Z).
Implicit Types (x : machine W) (s : Slot).

(** Between operations a reserved mapping holds nothing. *)
Record ready x : Prop := {
  rd_inv : ginv x;
  rd_reserved : forall i s, slots_ (mgr x) !! i = Some s -> state (m s) = StReserved -> held s = false;
}.

Lemma ready_calls x w tr : ready x -> Forall (fun ev => benign ev = true) tr -> ready (with_calls x w tr).
Proof. intros [] H. split; [by apply benigns_ginv|done]. Qed.

(** What an operation does to the slot [i] in use. *)
Definition survives x (i : nat) s x' : Prop :=
  exists s', slots_ (mgr x') !! i = Some s' /\
  (alike s s' \/
   s' = no_slot /\ users (m s) = 0 /\ (touched s = true -> EvRetired (handle_of i s) true ∈ trace x')).
Definition effect x x' : Prop :=
  ready x' /\ forall i s, slots_ (mgr x) !! i = Some s -> used s -> survives x i s x'.

Lemma same_effect x x' : ready x' -> same_mgr x x' -> effect x x'.
Proof. intros H [E _]. split; [done|]. intros i s Hi Hu. exists s. rewrite E. split; [done|]. left. by apply alike_refl. Qed.

Lemma calls_effect x w tr : ready x -> Forall (fun ev => benign ev = true) tr -> effect x (with_calls x w tr).
Proof. intros. apply same_effect; [by apply ready_calls|apply same_mgr_calls]. Qed.

Lemma fate_effect x i s x' : ready x -> slots_ (mgr x) !! i = Some s -> used s -> fate x i s x' -> effect x x'.
Proof.
  intros [Hx Hr] Hi Hu [Hx' (s' & P & Hs & H)]. split.
  - split; [done|]. destruct P as [-> _]. cbn. intros j q [(<- & <- & _)|[_ Hj]]%list_lookup_insert_Some; [done|by eapply Hr].
  - intros j q Hj Uq. destruct (decide (i = j)) as [<-|Hne].
    + rewrite Hi in Hj. injection Hj as <-. exists s'. split; [by eapply puts_lookup|done].
    + exists q. destruct P as [-> _]. cbn. rewrite list_lookup_insert_ne by done. split; [done|]. left. by apply alike_refl.
Qed.

(** * Publication *)

(** The check that the entries are free. *)
Lemma vacant_pages_ok x i s :
  ginv x -> slots_ (mgr x) !! i = Some s -> used s -> touched s = false -> pageCount (backing (m s)) = bytes (range (m s)) / 4096 ->
  wp (all_pages (pages (backing (m s))) (read_zero s)) (fun r x' => exists w tr,
    x' = with_calls x w tr /\ Forall (fun ev => benign ev = true) tr /\
    (r = true -> entries s (trace x') (fun _ => True) Vacant /\ forall a, page_of s a -> EvRead a 0 true ∈ trace x')) x.
Proof.
  intros Hx Hi Hu Ht Hn. pose proof (so_range _ _ _ _ _ (tb_used _ _ _ _ (gi_table _ Hx) _ _ Hi Hu)) as Hr.
  unfold pages. rewrite Hn.
  apply (wp_all_pages (fun done x' => exists w tr, x' = with_calls x w tr /\ Forall (fun ev => benign ev = true) tr /\
    entries s (trace x') (fun p => p ∈ done) Vacant /\ forall p, p ∈ done -> EvRead (page_address s p) 0 true ∈ trace x')).
  - exists (world x), []. split; [by destruct x|]. split; [done|]. split; [intros p _ Hp|intros p Hp]; by apply elem_of_nil in Hp.
  - intros done p rest x1 El (w1 & t1 & -> & Hb1 & He & Hrd). apply seqZ_split in El as (Hp & Hnin & _).
    apply wp_read_zero; intros w2 t2 Ht2; rewrite with_calls_app.
    { exists w2, (t2 ++ t1). split; [done|]. split; [by apply Forall_app|done]. }
    exists w2, ((EvRead (page_address s p) 0 true :: t2) ++ t1). split; [done|].
    split; [apply Forall_app; split; [constructor; [done|by apply silent_benign]|done]|]. cbn [trace with_calls]. rewrite <- app_assoc. cbn [app]. split.
    + intros q Hq [Hd| ->%list_elem_of_singleton]%elem_of_app.
      * apply (entries_other _ _ (fun q => q ∈ done) _ (page_address s p)); [|by eauto|by apply entries_silent|done|done].
        intros q' Hq' Hb E. apply page_address_inj in E; [|done..]. by subst q'.
      * rewrite entry_cons, silent_entry by done. cbn [entry_step]. rewrite Z.eqb_refl.
        assert (Hno : ~ ours (entry_of (page_address s p) (t1 ++ trace x))).
        { apply (not_ours (with_calls x w1 t1) i s); [by apply benigns_ginv|done|done|by apply page_address_spec|by rewrite Ht]. }
        unfold ours in Hno. destruct (entry_of _ _); try done; destruct Hno; done.
    + intros q [Hd| ->%list_elem_of_singleton]%elem_of_app; [|set_solver].
      specialize (Hrd q Hd). cbn in Hrd. set_solver.
  - intros x1 (w1 & t1 & -> & Hb1 & He & Hrd). exists w1, t1. split; [done|]. split; [done|]. intros _. split.
    + intros p Hp _. apply He; [done|]. apply elem_of_seqZ. lia.
    + intros a Ha. destruct (page_of_address s a Hr Ha) as (p & Hp & ->). apply Hrd, elem_of_seqZ. lia.
Qed.

(** The slot takes the retained backing. *)
Lemma held_ginv x i s b p w :
  ready x -> slots_ (mgr x) !! i = Some s -> state (m s) = StReserved -> 0 <= p <= 3 ->
  pageCount b = bytes (range (m s)) / 4096 ->
  ginv (put x i (set_held (set_backing b p s)) w [EvRetain (owner (m s)) b true]) /\ users (m s) = 0 /\
  touched s = false /\ cleared s = false.
Proof.
  intros [Hx Hrd] Hi Hs Hp Hn. assert (Hu : used s) by (unfold used; by rewrite Hs). specialize (Hrd i s Hi Hs).
  pose proof (tb_used _ _ _ _ (gi_table _ Hx) _ _ Hi Hu) as Ho.
  assert (Ht : touched s = false) by (destruct (touched s) eqn:E; [destruct (so_touched _ _ _ _ _ Ho E); congruence|done]).
  assert (Hc : cleared s = false) by (destruct (cleared s) eqn:E; [destruct (so_cleared _ _ _ _ _ Ho E); congruence|done]).
  assert (Hz : users (m s) = 0) by (destruct (decide (users (m s) = 0)) as [|E]; [done|]; apply (so_users _ _ _ _ _ Ho) in E; congruence).
  split; [|done]. apply (put_ginv x i s); [done..|]. split.
  - right. split; [done|]. split; [done|]. split; [done|]. apply (slot_ok_mono _ _ _ [_]).
    destruct Ho as [? ? ? ? [? ?] ? ? ? ?]. split; cbn; auto; by rewrite ?Ht, ?Hc.
  - split; [done|apply Hx].
  - done.
  - intros a Ha Hour. destruct (not_ours x i s a Hx Hi Hu Ha ltac:(by rewrite Ht)). exact Hour.
  - intros own c. cbn. unfold one. rewrite (decide_False (P := holder own c s)) by (intros [? _]; congruence).
    destruct (decide (holder own c _)) as [[_ [? ?]]|Hnh]; cbn in *; [by rewrite decide_True|].
    rewrite decide_False; [done|]. intros [<- <-]. by apply Hnh.
Qed.

Lemma publish_held_ok x i s own b p w :
  ready x -> slots_ (mgr x) !! i = Some s -> state (m s) = StReserved -> own = owner (m s) -> 0 <= p <= 3 ->
  pageCount b = bytes (range (m s)) / 4096 ->
  wp (publish_held read64 i own b p) (fun r x' => fate x i s x' /\
    (r = Ok -> exists q', puts x i q' x' /\ alike s q' /\ published_as read64 (set_backing b p s) q' (trace x')))
    (with_calls x w [EvRetain own b true]).
Proof.
  intros Hr Hi Hs -> Hp Hn. destruct (held_ginv x i s b p w Hr Hi Hs Hp Hn) as (H1 & Hz & Ht & Hc).
  unfold publish_held. wp_step. wp_step. wp_step. eapply ggtt_wp_upd_slot; [exact Hi|]. rewrite put_calls. cbn [app world with_calls].
  set (s1 := set_held (set_backing b p s)) in *. set (x1 := put x i s1 w _) in *.
  assert (P1 : puts x i s1 x1) by apply puts_put. assert (A1 : alike s s1) by (split; try done; unfold used; cbn; by rewrite Hs).
  assert (U1 : used s1) by apply A1. assert (Hi1 : slots_ (mgr x1) !! i = Some s1) by (by eapply puts_lookup).
  wp_step. wp_step. rewrite (slot_at_lookup _ _ _ Hi1). wp_step. unfold call_ownsBacking. apply ggtt_wp_act. intros o w2.
  assert (H2 : ginv (with_calls x1 w2 [EvOwns (owner (m s)) b o])) by (by apply benign_ginv).
  assert (P2 : puts x i s1 (with_calls x1 w2 [EvOwns (owner (m s)) b o])) by (eapply puts_trans; [exact P1|eapply puts_same; [done|apply same_mgr_calls]]).
  assert (Hi2 : slots_ (mgr (with_calls x1 w2 [EvOwns (owner (m s)) b o])) !! i = Some s1) by done.
  clearbody x1. revert H2 P2 Hi2. generalize (with_calls x1 w2 [EvOwns (owner (m s)) b o]). intros x2 H2 P2 Hi2. clear x1 P1 H1 Hi1.
  assert (Hq : forall x' w', ginv x' -> puts x i s1 x' -> slots_ (mgr x') !! i = Some s1 ->
    ginv (put x' i (set_state StQuarantined s1) w' []) /\ puts x i (set_state StQuarantined s1) (put x' i (set_state StQuarantined s1) w' [])).
  { intros x' w' G1 G2 G3. split; [|eapply puts_trans; [exact G2|apply puts_put]].
    pose proof (tb_used _ _ _ _ (gi_table _ G1) _ _ G3 U1) as []. by apply (put_alike read64 x' i s1). }
  assert (A2 : alike s (set_state StQuarantined s1)) by (by split).
  wp_step. wp_step. wp_step.
  - wp_step. eapply ggtt_wp_upd_slot; [exact Hi2|]. destruct (Hq x2 (world x2) H2 P2 Hi2) as [H3 P3].
    eapply wp_mono; [apply (fail_with_ok read64 _ i (set_state StQuarantined s1)); [exact H3|exact (puts_lookup _ _ _ _ _ Hi P3)|done|done]|].
    intros r x3 [Hne [r' T]]. split; [|congruence]. eapply fate_trans; [exact P3|done|done|]. by eapply torn_fate.
  - wp_step. eapply wp_mono; [apply (vacant_pages_ok x2 i s1); done|]. intros z x3 (w3 & t3 & -> & Hb3 & Hz3).
    assert (H3 : ginv (with_calls x2 w3 t3)) by (by apply benigns_ginv).
    assert (P3 : puts x i s1 (with_calls x2 w3 t3)) by (eapply puts_trans; [exact P2|eapply puts_same; [done|apply same_mgr_calls]]).
    wp_step. eapply ggtt_wp_upd_slot; [exact Hi2|]. destruct (Hq _ (world (with_calls x2 w3 t3)) H3 P3 Hi2) as [H4 P4].
    set (x4 := put _ i _ _ []) in *. wp_step.
    + apply wp_ret. split; [|done]. split; [done|]. eexists. split; [exact P4|]. split; [done|by left].
    + apply negb_false_iff in Hcond0. destruct (Hz3 Hcond0) as [E3 R3].
      eapply wp_mono; [apply (write_entries_ok read64 x4 i s1 (set_state StQuarantined s1)); [|exact E3|done]|].
      { split; try done. cbn. apply list_lookup_insert_eq. by eapply lookup_lt_Some. }
      intros r x5 [F H]. split; [eapply fate_trans; [exact P4|done|done|exact F]|]. intros Er. destruct (H Er) as (q' & Pq & Aq & Hpub).
      exists q'. split; [by eapply puts_trans|]. split; [by eapply alike_trans|exact Hpub].
Qed.

(** * The operations on a handle *)

Lemma get_ok x own ep h :
  ginv x -> 0 <= h_slot h -> get (mgr x) own ep h = Ok ->
  exists s, slots_ (mgr x) !! Z.to_nat (h_slot h) = Some s /\ used s /\ owner (m s) = own /\
    handle_of (Z.to_nat (h_slot h)) s = h.
Proof.
  intros Hx Hh. unfold get. destruct (_ || closed_ _); [done|]. destruct (negb (ep =? _)); [done|].
  destruct ((_ <=? h_slot h) || _) eqn:E1; [done|]. apply orb_false_iff in E1 as [E1%Z.leb_gt _].
  pose proof (tb_length _ _ _ _ (gi_table _ Hx)) as Hl.
  destruct (lookup_lt_is_Some_2 (slots_ (mgr x)) (Z.to_nat (h_slot h))) as [s Hs]; [lia|].
  rewrite (slot_at_lookup _ _ _ Hs). destruct (is_free s || _) eqn:E2; [done|].
  apply orb_false_iff in E2 as [E2%bool_decide_eq_false E3]. apply negb_false_iff, Z.eqb_eq in E3.
  destruct ((own =? 0) || _) eqn:E4; [done|]. apply orb_false_iff in E4 as [_ E4]. apply negb_false_iff, Z.eqb_eq in E4.
  intros _. exists s. split; [done|]. split; [done|]. split; [done|]. unfold handle_of. rewrite E3, Z2Nat.id by lia. by destruct h.
Qed.

Lemma wp_with_slot own ep h k x (Q : Status -> machine W -> Prop) :
  ready x -> 0 <= h_slot h -> (forall st, st <> Ok -> Q st x) ->
  (forall i s, i = Z.to_nat (h_slot h) -> slots_ (mgr x) !! i = Some s -> used s -> owner (m s) = own -> handle_of i s = h ->
    wp (k i s) Q x) -> wp (with_slot own ep h k) Q x.
Proof.
  intros [Hx _] Hh H1 H2. unfold with_slot. wp_step. wp_step.
  destruct (get (mgr x) own ep h) eqn:E; try (apply wp_ret, H1; done).
  destruct (get_ok x own ep h Hx Hh E) as (s & Hs & Hu & Ho & Eh). rewrite (slot_at_lookup _ _ _ Hs). by apply H2.
Qed.

Lemma self_effect x : ready x -> effect x x.
Proof. intros H. apply same_effect; [done|]. split; [done|by exists []]. Qed.

(** A change of state or of the uses of a slot. *)
Lemma put_effect x i s s' w tr :
  ready x -> slots_ (mgr x) !! i = Some s -> used s -> alike s s' -> state (m s') <> StReserved \/ held s' = false ->
  slot_ok (ranges_ (mgr x)) (serial_ (mgr x)) (trace x) i s' -> Forall (fun ev => benign ev = true) tr ->
  held s' = held s -> backing (m s') = backing (m s) -> cleared s' = cleared s -> effect x (put x i s' w tr).
Proof.
  intros Hr Hi Hu A Hs Ho Ht Eh Eb Ec. apply (fate_effect x i s); [done..|]. split.
  - apply (put_alike read64 x i s); try done; [apply Hr|by apply slot_ok_mono].
  - exists s'. split; [apply puts_put|]. split; [naive_solver|by left].
Qed.

Lemma quarantine_effect x i s w tr :
  ready x -> slots_ (mgr x) !! i = Some s -> used s -> Forall (fun ev => benign ev = true) tr ->
  effect x (put x i (set_state StQuarantined s) w tr).
Proof.
  intros Hr Hi Hu Ht. apply (put_effect x i s); try done; [by left|].
  pose proof (tb_used _ _ _ _ (gi_table _ (rd_inv _ Hr)) _ _ Hi Hu) as []. by split.
Qed.

Lemma ggtt_publish_ok own ep h b p x :
  ready x -> 0 <= h_slot h -> 0 <= p ->
  wp (publish read64 own ep h b p) (fun r x' => effect x x' /\
    (r = Ok -> exists s q', slots_ (mgr x) !! Z.to_nat (h_slot h) = Some s /\ slots_ (mgr x') !! Z.to_nat (h_slot h) = Some q' /\
      alike s q' /\ pageCount b = bytes (range (m s)) / 4096 /\
      published_as read64 (set_backing b p s) q' (trace x'))) x.
Proof.
  intros Hr Hh Hp. unfold publish. apply wp_with_slot; [done|done|intros st Hst; split; [by apply self_effect|done]|].
  intros i s Ei Hi Hu Ho _. rewrite <- Ei. wp_step; [apply wp_ret; split; [by apply self_effect|destruct (bool_decide (state (m s) = StQuarantined)); discriminate]|].
  apply bool_decide_eq_false in Hcond. assert (Hs : state (m s) = StReserved) by (destruct (decide (state (m s) = StReserved)); [done|tauto]).
  wp_step. apply ggtt_wp_live. intros l w1 t1 Ht1. apply silent_benign in Ht1.
  destruct l; cbn [negb]; [|apply wp_ret; split; [by apply calls_effect|done]].
  wp_step; [apply wp_ret; split; [by apply calls_effect|done]|]. unfold backing_invalid in Hcond0.
  rewrite !orb_false_iff in Hcond0. destruct Hcond0 as [[_ Hn] H3]. apply negb_false_iff, Z.eqb_eq in Hn. apply Z.ltb_ge in H3. unfold PageSize in Hn.
  wp_step. wp_step. wp_step. unfold call_patReady. apply ggtt_wp_act. intros q w2. rewrite with_calls_app.
  assert (Ht2 : Forall (fun ev => benign ev = true) ([EvPat p q] ++ t1)) by (by constructor).
  destruct q; cbn [negb]; [|apply wp_ret; split; [by apply calls_effect|done]].
  wp_step. unfold call_retainBacking. apply ggtt_wp_act. intros r w3. rewrite with_calls_app.
  destruct r; cbn [negb]; [|apply wp_ret; split; [apply calls_effect; [done|by constructor]|done]].
  rewrite <- with_calls_app with (w := w2). set (x2 := with_calls x w2 _).
  eapply wp_mono; [apply (publish_held_ok x2 i s); [by apply ready_calls|done..|lia|done]|].
  intros r x3 [F HOk]. split.
  - apply (fate_effect x2 i s) in F; [|by apply ready_calls|done|done]. destruct F as [? F]. split; [done|exact F].
  - intros Er. destruct (HOk Er) as (q' & P & A & Hpub). exists s, q'. split; [done|]. split; [exact (puts_lookup x2 _ _ _ _ Hi P)|done].
Qed.

Lemma ggtt_published_ok own ep h b x :
  ready x -> 0 <= h_slot h ->
  wp (published read64 own ep h b) (fun r x' => effect x x' /\
    (r = Ok -> exists s w tr, x' = with_calls x w tr /\ Forall (fun ev => benign ev = true) tr /\
      slots_ (mgr x) !! Z.to_nat (h_slot h) = Some s /\ used s /\
      state (m s) = StPublished /\ same (backing (m s)) b = true /\ pages_read read64 s tr)) x.
Proof.
  intros Hr Hh. unfold published. apply wp_with_slot; [done|done|intros st Hst; split; [by apply self_effect|done]|].
  intros i s Ei Hi Hu Ho _. rewrite <- Ei. wp_step; [apply wp_ret; split; [by apply self_effect|done]|].
  apply bool_decide_eq_false in Hcond. assert (Hs : state (m s) = StPublished) by (destruct (decide (state (m s) = StPublished)); [done|tauto]).
  wp_step; [apply wp_ret; split; [by apply self_effect|done]|]. apply negb_false_iff in Hcond0. wp_step. wp_step. wp_step.
  set (R := fun (r : Status) (x' : machine W) => _).
  assert (Hfail : forall w tr, Forall (fun ev => benign ev = true) tr ->
    wp (if negb false then upd_slot i (set_state StQuarantined) ;;; ret Quarantined else ret Ok) R (with_calls x w tr)).
  { intros w tr Ht. cbn [negb]. wp_step. eapply ggtt_wp_upd_slot; [exact Hi|]. apply wp_ret. rewrite put_calls. split; [|done].
    by apply quarantine_effect. }
  unfold both. wp_step. apply ggtt_wp_live. intros l w1 t1 Ht1. apply silent_benign in Ht1.
  destruct l; [|by apply wp_ret, Hfail]. wp_step. unfold call_ownsBacking. apply ggtt_wp_act. intros o w2. rewrite with_calls_app.
  assert (Ht2 : Forall (fun ev => benign ev = true) ([EvOwns own b o] ++ t1)) by (by constructor).
  destruct o; [|by apply wp_ret, Hfail]. wp_step. unfold call_patReady. apply ggtt_wp_act. intros o w3. rewrite with_calls_app.
  assert (Ht3 : Forall (fun ev => benign ev = true) ([EvPat (pat (m s)) o] ++ [EvOwns own b true] ++ t1)) by (by constructor).
  destruct o; [|by apply wp_ret, Hfail]. apply wp_verify. intros r w4 t4 Ht4 Hv. rewrite with_calls_app.
  assert (Ht5 : Forall (fun ev => benign ev = true) (t4 ++ [EvPat (pat (m s)) true] ++ [EvOwns own b true] ++ t1)) by (by apply Forall_app).
  destruct r; [|by apply Hfail]. cbn [negb]. apply wp_ret. split; [by apply calls_effect|]. intros _.
  eexists s, w4, _. split; [done|]. split; [done|]. split; [done|]. split; [done|]. split; [done|]. split; [done|].
  intros p Hp. destruct (Hv eq_refl p Hp) as (w & v & E & Hin). exists w, v. split; [done|]. apply elem_of_app. by left.
Qed.
End Run.

(** * Theorems of the GGTT manager, over every sequence of calls and against any adapter *)

Section Thms.
Context {W : Type} (read64 : Z -> W -> Z).
Implicit Types (x : machine W) (s : Slot).

(** * Uses and the end of a mapping *)

Lemma ggtt_retain_ok own ep h b x :
  ready x -> 0 <= h_slot h -> wp (retain read64 own ep h b) (fun _ => effect x) x.
Proof.
  intros Hr Hh. unfold retain. wp_step. eapply wp_mono; [by apply ggtt_published_ok|]. intros st x1 [He HOk].
  destruct (decide (st <> Ok)) as [|Hst]; [by apply wp_ret|]. assert (st = Ok) as -> by (by apply dec_stable).
  destruct (HOk eq_refl) as (s & w & tr & -> & Ht & Hi & Hu & Hs & _). wp_step. wp_step.
  cbn [mgr with_calls]. rewrite (slot_at_lookup _ _ _ Hi). wp_step; [by apply wp_ret|]. wp_step. eapply ggtt_wp_upd_slot; [exact Hi|]. apply wp_ret. rewrite put_calls.
  pose proof (tb_used _ _ _ _ (gi_table _ (rd_inv _ Hr)) _ _ Hi Hu) as []. apply (put_effect read64 x _ s); try done.
  - left. cbn. by rewrite Hs.
  - split; try done. cbn. split; [|intros _; by apply so_published]. apply wrap_range. lia.
Qed.

Lemma ggtt_release_ok own ep h x : ready x -> 0 <= h_slot h -> wp (release own ep h) (fun _ => effect x) x.
Proof.
  intros Hr Hh. unfold release. apply wp_with_slot; [done|done|intros; by apply self_effect|].
  intros i s _ Hi Hu _ _. wp_step; [apply wp_ret; by apply self_effect|]. apply Z.eqb_neq in Hcond. wp_step. wp_step. wp_step. unfold both. wp_step.
  apply ggtt_wp_live. intros l w1 t1 Ht1. apply silent_benign in Ht1.
  destruct l; [|apply wp_ret; cbn [negb]; by apply wp_ret, calls_effect].
  unfold call_retired. apply ggtt_wp_act. intros o w2. rewrite with_calls_app.
  assert (Ht2 : Forall (fun ev => benign ev = true) ([EvRetired h o] ++ t1)) by (by constructor).
  destruct o; cbn [negb]; [|by apply wp_ret, calls_effect].
  wp_step. eapply ggtt_wp_upd_slot; [exact Hi|]. apply wp_ret. rewrite put_calls.
  pose proof (tb_used _ _ _ _ (gi_table _ (rd_inv _ Hr)) _ _ Hi Hu) as Ho. apply (put_effect read64 x _ s); try done.
  - destruct (decide (state (m s) = StReserved)) as [E|E]; [right; by apply (rd_reserved _ Hr i s)|by left].
  - destruct Ho as [? ? ? ? [? ?] ? ? ? ?]. split; try done. cbn. split; [|auto]. apply wrap_range. lia.
Qed.

Lemma ggtt_retire_ok own ep h x : ready x -> 0 <= h_slot h -> wp (retire read64 own ep h) (fun _ => effect x) x.
Proof.
  intros Hr Hh. unfold retire. apply wp_with_slot; [done|done|intros; by apply self_effect|].
  intros i s _ Hi Hu _ _. wp_step; [apply wp_ret; by apply self_effect|]. wp_step.
  apply ggtt_wp_live. intros l w1 t1 Ht1. apply silent_benign in Ht1.
  destruct l; cbn [negb].
  2: { wp_step. eapply ggtt_wp_upd_slot; [exact Hi|]. apply wp_ret. rewrite put_calls. by apply (quarantine_effect read64). }
  wp_step; [by apply wp_ret, calls_effect|]. wp_step. eapply ggtt_wp_upd_slot; [exact Hi|]. rewrite put_calls. cbn [app].
  set (q := set_state StQuarantined s). set (x1 := put x i q _ t1).
  assert (H1 : effect x x1) by (by apply (quarantine_effect read64)). assert (P1 : puts x i q x1) by apply puts_put.
  eapply wp_mono; [apply (teardown_ok read64 x1 i q); [apply H1|exact (puts_lookup _ _ _ _ _ Hi P1)|done]|].
  intros r x2 T. apply (fate_effect x i s); [done..|]. eapply fate_trans; [exact P1|by split|done|]. by eapply torn_fate.
Qed.

(** * Reservation *)

Lemma list_find_free (l : list Slot) :
  match list_find (fun s => state (m s) = StFree) l with
  | Some (i, s) => l !! i = Some s /\ state (m s) = StFree
  | None => forall i s, l !! i = Some s -> used s
  end.
Proof.
  destruct (list_find _ l) as [[i s]|] eqn:F.
  - apply list_find_Some in F as (Hi & Hf & _). done.
  - intros i s Hi. apply list_find_None in F. by eapply Forall_lookup_1 in F.
Qed.

Definition new_slot x own r : Slot := {|
  m := {| state := StReserved; owner := own; epoch := epoch_ (mgr x); generation := serial_ (mgr x); range := r;
          backing := no_backing; pat := 0; users := 0 |};
  held := false; touched := false; cleared := false |}.

(** A new mapping in the free slot [i]. *)
Definition inserted x own r (i : nat) x' : Prop :=
  slots_ (mgr x) !! i = Some no_slot /\ serial_ (mgr x) <> 0 /\
  mgr x' = set_slots (<[i := new_slot x own r]> (slots_ (mgr x))) (set_serial (serial_ (mgr x) +64 1) (mgr x)) /\
  trace x' = trace x.

(** The serial number 0 means that all have been used. *)
Lemma serial_next v (bound := fun v => if v =? 0 then 2 ^ 64 else v) :
  word 64 v -> v <> 0 -> (forall g, g < bound v -> g < bound (v +64 1) /\ g <> v) /\ v < bound (v +64 1).
Proof.
  intros [Hv1 Hv2] Hv. unfold bound. rewrite (proj2 (Z.eqb_neq _ _) Hv).
  destruct (decide (v = 2 ^ 64 - 1)) as [->|].
  - change (2 ^ 64 - 1 +64 1) with 0. cbn. split; [intros g ?|]; lia.
  - rewrite add64_small by lia. rewrite (proj2 (Z.eqb_neq _ _)) by lia. split; [intros g ?|]; lia.
Qed.

Lemma inserted_effect x own r i x' :
  ready x -> started_ (mgr x) = true -> closed_ (mgr x) = false -> own <> 0 -> range_ok r ->
  (exists q, q ∈ ranges_ (mgr x) /\ inside r q) -> unused (slots_ (mgr x)) (address r) (bytes r) ->
  inserted x own r i x' -> effect x x'.
Proof.
  intros [[[T1 T2 T3 T4 T5] Hrg Hsr Hst Hl Hh] Hrd] Est Ecl Hown Hr Hq Hun (Hi & Hs0 & Em & Et).
  set (s := new_slot x own r) in *. assert (Hus : used s) by done. destruct Hsr as [Hs1 Hs2].
  destruct (serial_next (serial_ (mgr x)) (conj Hs1 Hs2) Hs0) as [Hgen Hself].
  assert (Hnew : forall j q, slots_ (mgr x) !! j = Some q -> used q -> apart r (range (m q)) /\ serial_ (mgr x) <> generation (m q)).
  { intros j q Hj Uq. split; [pose proof (Hun j q Hj Uq) as Ha; by destruct r|]. destruct (Hgen (generation (m q))); [|done].
    apply (so_generation _ _ _ _ _ (T3 j q Hj Uq)). }
  split.
  - split; [|rewrite Em; cbn; intros j q [(<- & <- & _)|[_ Hj]]%list_lookup_insert_Some; [done|by eapply Hrd]].
    split; rewrite ?Em, ?Et; cbn; auto.
    + split; cbn; [by rewrite length_insert| | | |].
      * intros j q [(<- & <- & _)|[_ Hj]]%list_lookup_insert_Some Hf; [done|by eapply T2].
      * intros j q [(<- & <- & _)|[_ Hj]]%list_lookup_insert_Some Uq; [split; cbn; try done; lia|].
        destruct (T3 j q Hj Uq). split; auto. split; [lia|]. apply Hgen; lia.
      * intros j k q1 q2 [(<- & <- & _)|[N1 H1]]%list_lookup_insert_Some
          [(<- & <- & _)|[N2 H2]]%list_lookup_insert_Some U1 U2 Hne; [done|by eapply Hnew| |by eapply T4].
        destruct (Hnew j q1 H1 U1) as [[?|?] ?]; (split; [unfold apart; cbn; lia|cbn; congruence]).
      * intros a Ha. destruct (T5 a Ha) as (j & q & Hj & Uq & H). exists j, q. split; [|done].
        rewrite list_lookup_insert_ne; [done|]. intros <-. rewrite Hi in Hj. by injection Hj as <-.
    + apply wrap_range. lia.
    + rewrite Est, Ecl. by intros [|].
    + intros own' b. rewrite Hh, (filter_insert_length _ _ _ _ _ Hi). unfold one.
      rewrite !decide_False by (by intros [? _]). lia.
  - intros j q Hj Uq. exists q. rewrite Em. cbn. rewrite list_lookup_insert_ne by (intros <-; rewrite Hi in Hj; by injection Hj as <-).
    split; [done|]. left. by apply alike_refl.
Qed.

Definition full x : Prop := serial_ (mgr x) = 0 \/ forall i s, slots_ (mgr x) !! i = Some s -> used s.

Lemma ggtt_insert_ok own r x :
  ginv x ->
  wp (insert own r) (fun res x' =>
    (res = (NoSpace, None) /\ x' = x /\ full x) \/
    exists i, res = (Ok, Some {| h_slot := Z.of_nat i; h_generation := serial_ (mgr x) |}) /\ inserted x own r i x') x.
Proof.
  intros Hx. unfold insert. wp_step. wp_step. wp_step; [apply wp_ret; left; split; [done|]; split; [done|]; left; by apply Z.eqb_eq|].
  apply Z.eqb_neq in Hcond. pose proof (list_find_free (slots_ (mgr x))) as F. destruct (list_find _ _) as [[i s]|].
  2: { apply wp_ret. left. split; [done|]. split; [done|]. by right. }
  destruct F as [Hi Hf]. rewrite (tb_free _ _ _ _ (gi_table _ Hx) i s Hi Hf) in Hi. right. exists i. split; [done|].
  split; [done|]. split; [done|]. split; [|done]. cbn. unfold set_slots. cbn. f_equal.
  by rewrite (ggtt_alter_insert _ _ _ _ Hi).
Qed.

(** What [live] answers says about the object. *)
Lemma wp_live_started x (Q : bool -> machine W -> Prop) :
  (forall w tr, Forall (fun ev => benign ev = true) tr -> Q false (with_calls x w tr)) ->
  (forall w tr, Forall (fun ev => benign ev = true) tr -> started_ (mgr x) = true -> closed_ (mgr x) = false -> Q true (with_calls x w tr)) ->
  wp live Q x.
Proof.
  intros H1 H2. unfold live. wp_step. wp_step. wp_step.
  - apply andb_true_iff in Hcond as [? ?%negb_true_iff]. unfold call_admitted. apply ggtt_wp_act.
    intros [] w; [apply H2|apply H1]; try done; by constructor.
  - apply wp_ret. replace x with (with_calls x (world x) []) by (by destruct x). by apply H1.
Qed.

Lemma ready_sane x : ginv x -> sane (slots_ (mgr x)).
Proof. intros Hx i s Hi Hu. apply (so_range _ _ _ _ _ (tb_used _ _ _ _ (gi_table _ Hx) _ _ Hi Hu)). Qed.

(** The place of a new mapping. *)
Definition insert_post x own r (res : Status * option Handle) x' : Prop :=
  (res = (NoSpace, None) /\ mgr x' = mgr x /\ full x) \/
  exists i x1, res = (Ok, Some {| h_slot := Z.of_nat i; h_generation := serial_ (mgr x) |}) /\ mgr x1 = mgr x /\ inserted x1 own r i x'.

Lemma insert_effect own r x w tr :
  ready x -> Forall (fun ev => benign ev = true) tr -> started_ (mgr x) = true -> closed_ (mgr x) = false -> own <> 0 ->
  range_ok r -> (exists q, q ∈ ranges_ (mgr x) /\ inside r q) -> unused (slots_ (mgr x)) (address r) (bytes r) ->
  wp (insert own r) (fun res x' => effect x x' /\ insert_post x own r res x') (with_calls x w tr).
Proof.
  intros Hr Ht Es Ec Ho Hok Hq Hu. pose proof (ready_calls x w tr Hr Ht) as Hr1.
  eapply wp_mono; [apply ggtt_insert_ok, Hr1|]. intros res x' [(-> & -> & Hf)|(i & -> & Hi)].
  - split; [by apply calls_effect|]. left. split; [done|]. split; [done|exact Hf].
  - split; [|right; by exists i, (with_calls x w tr)].
    destruct (inserted_effect _ own r i x' Hr1 Es Ec Ho Hok Hq Hu Hi) as [? H]. split; [done|exact H].
Qed.

Lemma fits_spec x r :
  ginv x -> 0 <= address r -> 0 <= bytes r -> fits (mgr x) r = true ->
  range_ok r /\ (exists q, q ∈ ranges_ (mgr x) /\ inside r q) /\ unused (slots_ (mgr x)) (address r) (bytes r).
Proof.
  intros Hx Ha Hb. unfold fits. destruct (negb (valid r) || _) eqn:E1; [done|]. apply orb_false_iff in E1 as [E1%negb_false_iff _].
  apply valid_range in E1; [|done..]. destruct (existsb (within r) _) eqn:E2; [|done]. cbn [negb]. intros E3%negb_true_iff.
  split; [done|]. destruct (gi_ranges _ Hx) as [Hf _]. destruct E1 as [? ? He _]. unfold r_end in He. split.
  - apply existsb_exists in E2 as (q & Hq%list_elem_of_In & Hw). exists q. split; [done|].
    rewrite Forall_forall in Hf. destruct (Hf q Hq) as [? ? Hqe _]. unfold r_end in Hqe. unfold within in Hw.
    rewrite !add64_small in Hw by lia. apply andb_true_iff in Hw as [H1%Z.leb_le H2%Z.leb_le]. unfold inside, r_end. done.
  - intros i s Hi Hu. destruct (decide (apart {| address := address r; bytes := bytes r |} (range (m s)))) as [|Hna]; [done|].
    assert (Hm : meets r s = true). { destruct r. apply (ggtt_meets_spec (slots_ (mgr x)) i); try done; [by apply ready_sane|cbn in *; lia..]. }
    assert (Hex : existsb (meets r) (slots_ (mgr x)) = true) by (apply existsb_exists; exists s; split; [apply list_elem_of_In; by eapply list_elem_of_lookup_2|done]).
    congruence.
Qed.

Lemma reserveAt_ok own ep r x :
  ready x -> 0 <= address r -> 0 <= bytes r -> wp (reserveAt own ep r) (fun _ => effect x) x.
Proof.
  intros Hr Ha Hb. unfold reserveAt. wp_step. wp_step. wp_step; [apply wp_ret; by apply self_effect|]. wp_step.
  apply wp_live_started; intros w tr Ht; cbn [negb]; [by apply wp_ret, calls_effect|]. intros Es Ec.
  wp_step; [by apply wp_ret, calls_effect|]. wp_step; [by apply wp_ret, calls_effect|].
  apply negb_false_iff in Hcond1. rewrite !orb_false_iff, Z.eqb_neq in Hcond0.
  destruct (fits_spec x r (rd_inv _ Hr) Ha Hb Hcond1) as (H1 & H2 & H3).
  destruct Hcond0 as [[? _] _]. eapply wp_mono; [by apply insert_effect|]. tauto.
Qed.

(** What [reserve] promises: the place is the lowest aligned one in the first range that has
    one. *)
Definition reserve_spec x own n al (res : Status * option Handle) x' : Prop :=
  match res with
  | (Ok, Some h) => exists j r c, ranges_ (mgr x) !! j = Some r /\ first_place (slots_ (mgr x)) r al n (Some c) /\
      (forall k q, (k < j)%nat -> ranges_ (mgr x) !! k = Some q -> first_place (slots_ (mgr x)) q al n None) /\
      exists s, slots_ (mgr x') !! Z.to_nat (h_slot h) = Some s /\ handle_of (Z.to_nat (h_slot h)) s = h /\
        state (m s) = StReserved /\ owner (m s) = own /\ range (m s) = {| address := c; bytes := n |}
  | (NoSpace, None) => mgr x' = mgr x /\
      ((forall j r, ranges_ (mgr x) !! j = Some r -> first_place (slots_ (mgr x)) r al n None) \/ full x)
  | (_, None) => mgr x' = mgr x
  | _ => False
  end.

Definition reserve_args own n al : Prop :=
  own <> 0 /\ 0 < n /\ n mod 4096 = 0 /\ n / 4096 <= 16384 /\ exists k, 12 <= k <= 32 /\ al = 2 ^ k.

Lemma ggtt_reserve_ok own ep n al x :
  ready x -> word 64 n -> word 64 al ->
  wp (reserve own ep n al) (fun res x' => effect x x' /\ reserve_spec x own n al res x' /\
    (res.1 = Invalid -> ~ reserve_args own n al) /\ (res.1 = Ok \/ res.1 = NoSpace -> reserve_args own n al)) x.
Proof.
  intros Hr [Hn _] [Hal _]. unfold reserve. wp_step. wp_step.
  wp_step; [apply wp_ret; split; [by apply self_effect|]; split; [done|]; split; [done|]; by intros [|]|]. wp_step.
  apply wp_live_started; intros w tr Ht; cbn [negb].
  { apply wp_ret. split; [by apply calls_effect|]. split; [done|]. split; [done|]. by intros [|]. }
  intros Es Ec. wp_step.
  - apply wp_ret. split; [by apply calls_effect|]. split; [done|]. split; [|by intros [|]]. intros _ (A1 & A2 & A3 & A4 & k & Hk & ->).
    assert (2 ^ 12 <= 2 ^ k <= 2 ^ 32) by (split; apply Z.pow_le_mono_r; lia). unfold PageSize, MaxPages in Hcond0.
    rewrite !orb_true_iff, negb_true_iff, !Z.eqb_eq, !Z.ltb_lt, Z.eqb_neq, Z.shiftl_1_l, negb_true_iff, Z.eqb_neq in Hcond0.
    rewrite sub64_small, (land_ones_low _ k), Z_mod_same_full in Hcond0 by lia. lia.
  - unfold PageSize, MaxPages in Hcond0.
    rewrite !orb_false_iff, negb_false_iff, !Z.eqb_neq, !Z.ltb_ge, !Z.eqb_eq, Z.shiftl_1_l, negb_false_iff, Z.eqb_eq in Hcond0.
    destruct Hcond0 as ((((((B1 & B2) & B3) & B4) & B5) & B6) & B7). destruct (alignment_power al) as (k & Hk & ->); [lia|done|].
    assert (12 <= k) by (apply (Z.pow_le_mono_r_iff 2); lia). pose proof (Z.div_mod n 4096).
    assert (Hargs : reserve_args own n (2 ^ k)) by (unfold reserve_args; split_and!; try lia; exists k; split; [lia|done]).
    pose proof (search_spec (slots_ (mgr x)) (ranges_ (mgr x)) k n (ready_sane _ (rd_inv _ Hr))
      (tb_length _ _ _ _ (gi_table _ (rd_inv _ Hr))) (proj1 (gi_ranges _ (rd_inv _ Hr))) ltac:(lia) ltac:(lia)) as S.
    destruct (search _ _ _ _) as [c|].
    2: { apply wp_ret. split; [by apply calls_effect|]. split; [split; [done|by left]|]. done. }
    destruct S as (j & r & Hj & [Hp Hmin] & Hb). pose proof Hp as (P1 & [P2 P3] & P4). unfold r_end in P3 at 1. cbn in P2, P3.
    destruct (Forall_lookup_1 _ _ _ _ (proj1 (gi_ranges _ (rd_inv _ Hr))) Hj) as [? ? ? _].
    assert (c mod 4096 = 0).
    { apply Z.mod_divide in P1 as [z ->]; [|lia]. replace (2 ^ k) with (2 ^ (k - 12) * 4096); [rewrite Z.mul_assoc; apply Z.mod_mul; lia|].
      change 4096 with (2 ^ 12). rewrite <- Z.pow_add_r by lia. f_equal. lia. }
    eapply wp_mono.
    + apply (insert_effect own {| address := c; bytes := n |} x w tr); try done.
      * split; unfold r_end; cbn; lia.
      * exists r. split; [by eapply list_elem_of_lookup_2|]. split; unfold r_end; cbn; [lia|]. fold (r_end r). lia.
    + intros res x' [He Hpost]. split; [done|]. destruct Hpost as [(-> & Em & Hf)|(i & x1 & -> & E1 & I1 & _ & I2 & _)]; split; try done.
      * split; [exact Em|by right].
      * exists j, r, c. split; [done|]. split; [done|]. split; [done|]. cbn [h_slot]. rewrite Nat2Z.id.
        eexists. rewrite I2. cbn. rewrite E1 in *. split; [apply list_lookup_insert_eq; by eapply lookup_lt_Some|].
        unfold handle_of. cbn. by rewrite E1.
Qed.

(** * Bring-up and close *)

Lemma ggtt_initialize_ok ep array io x :
  ready x -> (forall rs, array = Some rs -> Forall (fun r => 0 <= address r /\ 0 <= bytes r) rs) ->
  wp (initialize ep array io) (fun _ => effect x) x.
Proof.
  intros Hr Ha. unfold initialize. wp_step. wp_step. wp_step; [by apply wp_ret, self_effect|].
  destruct array as [rs|]; [|by apply wp_ret, self_effect]. specialize (Ha rs eq_refl). wp_step; [by apply wp_ret, self_effect|].
  rewrite !orb_false_iff in Hcond0. destruct Hcond0 as [_ Hc%negb_false_iff]. wp_step. unfold call_admitted. apply ggtt_wp_act. intros a w1.
  assert (Ht1 : Forall (fun ev => benign ev = true) [EvAdmitted a]) by (by constructor).
  destruct a; cbn [negb]; [|by apply wp_ret, calls_effect]. wp_step. unfold call_acquireSpace. apply ggtt_wp_act. intros q w2. rewrite with_calls_app.
  assert (Ht2 : Forall (fun ev => benign ev = true) ([EvAcquireSpace q] ++ [EvAdmitted true])) by (by repeat constructor).
  destruct q; cbn [negb]; [|by apply wp_ret, calls_effect]. wp_step. apply wp_modify, wp_ret.
  destruct (ready_calls x w2 _ Hr Ht2) as [[[T1 T2 T3 T4 T5] Hrg Hsr Hst Hl Hh] Hrd]. cbn in *.
  assert (Hfree : forall i s, slots_ (mgr x) !! i = Some s -> s = no_slot)
    by (intros i s Hi; apply Hst; [by left|by eapply list_elem_of_lookup_2]).
  assert (Hno : forall i s, slots_ (mgr x) !! i = Some s -> ~ used s) by (intros i s Hi Hu; by rewrite (Hfree i s Hi) in Hu).
  split; [|intros i s Hi Hu; by destruct (Hno i s Hi)]. split; [|done]. split; cbn; auto.
  - split; auto; intros i s Hi Hu; by destruct (Hno i s Hi).
  - destruct (check_ranges_ok [] rs Ha) as [H1 H2]; try done; constructor.
Qed.

Lemma ggtt_close_ok x : ready x -> wp close (fun _ => effect x) x.
Proof.
  intros Hr. unfold close. wp_step. apply ggtt_wp_live. intros l w1 t1 Ht1. apply silent_benign in Ht1.
  destruct l; cbn [negb]; [|by apply wp_ret, calls_effect]. wp_step. wp_step. cbn [mgr with_calls]. wp_step; [by apply wp_ret, calls_effect|]. wp_step.
  unfold call_releaseSpace. apply ggtt_wp_act. intros r w2. rewrite with_calls_app.
  assert (Ht2 : Forall (fun ev => benign ev = true) ([EvReleaseSpace r] ++ t1)) by (by constructor).
  destruct r; cbn [negb]; [|by apply wp_ret, calls_effect]. wp_step. apply wp_modify, wp_ret.
  destruct (ready_calls x w2 _ Hr Ht2) as [[HT Hrg Hsr Hst Hl Hh] Hrd]. split.
  - split; [|done]. split; try done. cbn. intros _ s Hs. pose proof Hs as [i Hi]%list_elem_of_lookup.
    apply (tb_free _ _ _ _ HT i s Hi). apply dec_stable. intros Hu.
    assert (He : existsb (fun s => negb (is_free s)) (slots_ (mgr x)) = true); [|congruence].
    apply existsb_exists. exists s. split; [by apply list_elem_of_In|]. unfold is_free. by rewrite bool_decide_false.
  - intros i s Hi Hu. exists s. split; [done|]. left. by apply alike_refl.
Qed.

(** * Reachable states *)

Inductive g_op :=
  | GInitialize (ep : Z) (array : option (list Range)) (io : Backend W)
  | GReserve (own ep n al : Z)
  | GReserveAt (own ep : Z) (r : Range)
  | GPublish (own ep : Z) (h : Handle) (b : Backing) (p : Z)
  | GPublished (own ep : Z) (h : Handle) (b : Backing)
  | GRetain (own ep : Z) (h : Handle) (b : Backing)
  | GRelease (own ep : Z) (h : Handle)
  | GRetire (own ep : Z) (h : Handle)
  | GClose.

Definition g_run (o : g_op) : ST (machine W) Status :=
  match o with
  | GInitialize ep array io => initialize ep array io
  | GReserve own ep n al => r <-- reserve own ep n al ;; ret r.1
  | GReserveAt own ep r => r <-- reserveAt own ep r ;; ret r.1
  | GPublish own ep h b p => publish read64 own ep h b p
  | GPublished own ep h b => published read64 own ep h b
  | GRetain own ep h b => retain read64 own ep h b
  | GRelease own ep h => release own ep h
  | GRetire own ep h => retire read64 own ep h
  | GClose => close
  end.

(** Arguments are unsigned. *)
Definition g_words (o : g_op) : Prop :=
  match o with
  | GInitialize _ array _ => forall rs, array = Some rs -> Forall (fun r => 0 <= address r /\ 0 <= bytes r) rs
  | GReserve _ _ n al => word 64 n /\ word 64 al
  | GReserveAt _ _ r => 0 <= address r /\ 0 <= bytes r
  | GPublish _ _ h _ p => 0 <= h_slot h /\ 0 <= p
  | GPublished _ _ h _ | GRetain _ _ h _ | GRelease _ _ h | GRetire _ _ h => 0 <= h_slot h
  | GClose => True
  end.

(** Between calls the world may change in any way. *)
Inductive g_reachable : machine W -> Prop :=
  | gr_start w : g_reachable {| mgr := new_Manager; world := w; trace := [] |}
  | gr_world x w : g_reachable x -> g_reachable {| mgr := mgr x; world := w; trace := trace x |}
  | gr_call x o : g_reachable x -> g_words o -> g_reachable (g_run o x).2.

Lemma g_run_ok o x : ready x -> g_words o -> wp (g_run o) (fun _ => effect x) x.
Proof.
  intros Hr Hw. destruct o; cbn [g_run g_words] in *.
  - by apply ggtt_initialize_ok.
  - wp_step. eapply wp_mono; [by apply ggtt_reserve_ok; destruct Hw|]. intros r x' [H _]. by apply wp_ret.
  - wp_step. eapply wp_mono; [by apply reserveAt_ok; destruct Hw|]. intros r' x' H. by apply wp_ret.
  - destruct Hw. eapply wp_mono; [by apply ggtt_publish_ok|]. by intros r x' [He _].
  - eapply wp_mono; [by apply ggtt_published_ok|]. by intros r x' [He _].
  - by apply ggtt_retain_ok.
  - by apply ggtt_release_ok.
  - by apply ggtt_retire_ok.
  - by apply ggtt_close_ok.
Qed.

Lemma new_ready (w : W) : ready {| mgr := new_Manager; world := w; trace := [] |}.
Proof.
  unfold new_Manager. set (l := replicate MaxMappings no_slot). assert (Hl : length l = MaxMappings) by apply length_replicate.
  assert (H : forall i s, l !! i = Some s -> s = no_slot) by (intros i s Hi; by apply lookup_replicate in Hi as [-> _]).
  clearbody l. split; [|cbn [mgr slots_]; intros i s Hi; by rewrite (H i s Hi)].
  split; cbn [mgr slots_ ranges_ serial_ started_ closed_ trace].
  - split; [done|intros i s Hi _; by eapply H| | |].
    + intros i s Hi Hu. by rewrite (H i s Hi) in Hu.
    + intros i j s q Hi _ Hu. by rewrite (H i s Hi) in Hu.
    + by intros a [? _].
  - split; [done|]. by intros i j r q Hi.
  - by unfold word.
  - intros _ s [i Hi]%list_elem_of_lookup. by eapply H.
  - done.
  - intros own b. destruct (filter (holder own b) l) as [|s l'] eqn:E; [done|].
    assert (Hs : s ∈ filter (holder own b) l) by (rewrite E; set_solver).
    apply list_elem_of_filter in Hs as [[Hh _] [i Hi]%list_elem_of_lookup]. by rewrite (H i s Hi) in Hh.
Qed.

Lemma g_reachable_ready x : g_reachable x -> ready x.
Proof.
  induction 1 as [w|x w _ IH|x o _ IH Hw].
  - apply new_ready.
  - apply (ready_calls x w []); done.
  - by apply (g_run_ok o x IH Hw).
Qed.

(** [C32] In every reachable state, against any adapter: mappings in use have distinct handles and
    page-aligned ranges below 4 GiB that are pairwise disjoint and each lie in one of the granted
    ranges, which are disjoint; after [close], and before [initialize], there is none. *)
Theorem ggtt_manager_exclusive x :
  g_reachable x ->
  (forall i s, slots_ (mgr x) !! i = Some s -> used s -> range_ok (range (m s)) /\ owner (m s) <> 0 /\
    (exists r, r ∈ ranges_ (mgr x) /\ inside (range (m s)) r) /\ started_ (mgr x) = true /\ closed_ (mgr x) = false) /\
  (forall i j s q, slots_ (mgr x) !! i = Some s -> slots_ (mgr x) !! j = Some q -> used s -> used q -> i <> j ->
    apart (range (m s)) (range (m q)) /\ generation (m s) <> generation (m q)) /\
  (forall i j r q, ranges_ (mgr x) !! i = Some r -> ranges_ (mgr x) !! j = Some q -> i <> j -> apart r q).
Proof.
  intros Hr%g_reachable_ready. destruct Hr as [[[T1 T2 T3 T4 T5] [_ Hrg] _ Hst _ _] _]. split; [|done].
  intros i s Hi Hu. destruct (T3 i s Hi Hu). split; [done|]. split; [done|]. split; [done|].
  destruct (started_ (mgr x)) eqn:E1, (closed_ (mgr x)) eqn:E2; try done.
  all: exfalso; rewrite (Hst ltac:(auto) s (list_elem_of_lookup_2 _ _ _ Hi)) in Hu; done.
Qed.

(** [C31] Page-table entries and memory, over every sequence of calls and against any adapter.  A
    value is written only to an entry that was just read as zero and held nothing of ours, and an
    entry is cleared only if it was found free before it was used.  An entry that may still be
    ours, that is, was written and has not since been zeroed, read back, invalidated and read as
    zero again, belongs to a mapping in the table whose backing is still retained.  Each backing
    is retained as often as mappings hold it.  In one more operation a mapping stays what it is
    or is freed, and it is freed only without users and, if its entries had been written, after
    the adapter confirmed for this very handle that nobody uses it. *)
Theorem ggtt_manager_entries x o :
  g_reachable x -> g_words o ->
  g_legal_trace (trace x) /\
  (forall a, ours (entry_of a (trace x)) -> exists i s, slots_ (mgr x) !! i = Some s /\ used s /\ touched s = true /\
    page_of s a /\ 0 < g_holds (owner (m s)) (backing (m s)) (trace x)) /\
  (forall own b, g_holds own b (trace x) = Z.of_nat (length (filter (holder own b) (slots_ (mgr x))))) /\
  (forall i s, slots_ (mgr x) !! i = Some s -> used s -> survives x i s (g_run o x).2).
Proof.
  intros Hr%g_reachable_ready Hw. destruct (g_run_ok o x Hr Hw) as [_ Hs].
  destruct Hr as [[[T1 T2 T3 T4 T5] _ _ _ Hl Hh] _]. split; [done|]. split; [|done].
  intros a Ha. destruct (T5 a Ha) as (i & s & Hi & Hu & Ht & _ & Hp). exists i, s. split_and!; try done.
  destruct (so_touched _ _ _ _ _ (T3 i s Hi Hu) Ht) as [Hheld _]. rewrite Hh.
  assert (Hin : s ∈ filter (holder (owner (m s)) (backing (m s))) (slots_ (mgr x)))
    by (apply list_elem_of_filter; split; [done|by eapply list_elem_of_lookup_2]).
  destruct (filter _ _); [by apply elem_of_nil in Hin|cbn; lia].
Qed.

(** [C34] [reserve] always returns after at most [MaxMappings + 1] attempts per range.  It returns
    [Invalid] only for invalid arguments and [NoSpace] only when no granted range has an aligned
    free place or no slot or serial number is left; otherwise the new mapping is at the lowest
    aligned free place of the first granted range that has one.  Nothing else changes. *)
Theorem ggtt_reserve_first_fit x own ep n al :
  g_reachable x -> word 64 n -> word 64 al ->
  let r := reserve own ep n al x in
  reserve_spec x own n al r.1 r.2 /\ (r.1.1 = Invalid -> ~ reserve_args own n al) /\
  forall i s, slots_ (mgr x) !! i = Some s -> used s -> survives x i s r.2.
Proof.
  intros Hr%g_reachable_ready Hn Hal r. destruct (ggtt_reserve_ok own ep n al x Hr Hn Hal) as ([_ H1] & H2 & H3 & _). done.
Qed.

(** [C33] A mapping that [publish] reports as published shows its backing.  Let the DMA array not
    change, as the adapter promises for a retained backing.  Then after the last write of an entry
    the translations were invalidated, and after that every page of the mapping was read back as
    the encoding of its DMA address; a later [published] that returns [Ok] has read every page
    again with the same result, and changed nothing. *)
Theorem ggtt_publish_shows x own ep h b p dma :
  g_reachable x -> 0 <= h_slot h -> 0 <= p -> (forall page w, wrap 64 (read64 (dmaPages b + 8 * page) w) = dma page) ->
  let shows s tr := forall page, 0 <= page < bytes (range (m s)) / 4096 -> exists v,
    PortedXe.encodeGgtt (dma page) p false 46 0 = Some (PortedXe.Ok, v) /\
    EvRead (page_address s page) v true ∈ tr in
  match publish read64 own ep h b p x with
  | (Ok, x') => exists s t1 t2, slots_ (mgr x') !! Z.to_nat (h_slot h) = Some s /\ state (m s) = StPublished /\
      backing (m s) = b /\ pat (m s) = p /\
      trace x' = t1 ++ EvInvalidate true :: t2 /\ (forall a v ok, EvWrite a v ok ∉ t1) /\ shows s t1 /\
      match published read64 own ep h b x' with
      | (Ok, x'') => mgr x'' = mgr x' /\ exists t3, trace x'' = t3 ++ trace x' /\ shows s t3
      | _ => True
      end
  | _ => True
  end.
Proof.
  intros Hr%g_reachable_ready Hh Hp Hdma shows.
  assert (Hshow : forall s tr, backing (m s) = b -> pat (m s) = p -> pageCount b = bytes (range (m s)) / 4096 ->
    pages_read read64 s tr -> shows s tr).
  { intros s tr Eb Ep En H page Hpage. destruct (H page) as (w & v & E & Hin); [unfold pages; apply elem_of_seqZ; rewrite Eb, En; lia|].
    exists v. split; [|done]. unfold expected in E. rewrite Eb, Ep, Hdma in E. destruct (PortedXe.encodeGgtt _ _ _ _ _) as [[[] ?]|]; naive_solver. }
  pose proof (ggtt_publish_ok read64 own ep h b p x Hr Hh Hp) as H. unfold wp in H. destruct (publish read64 own ep h b p x) as [[] x']; try done.
  destruct H as [[Hr' _] H]. destruct (H eq_refl) as (s & q & Hs & Hq & A & En & Hst & Eb & Ep & t1 & t2 & Et & Ht1 & Hrd).
  cbn in Eb, Ep. exists q, t1, t2. split_and!; try done.
  - intros a v ok Hin. rewrite Forall_forall in Ht1. by specialize (Ht1 _ Hin).
  - intros page Hpage. rewrite (al_range _ _ A) in Hpage. rewrite (page_address_range s) by apply A. by apply (Hshow (set_backing b p s)).
  - pose proof (ggtt_published_ok read64 own ep h b x' Hr' Hh) as H2. unfold wp in H2. destruct (published read64 own ep h b x') as [[] x'']; try done.
    destruct H2 as [_ H2]. destruct (H2 eq_refl) as (s2 & w & t3 & E2 & _ & Hs2 & _ & _ & _ & Hrd2). cbn in E2. subst x''. cbn in Hq. rewrite Hq in Hs2. injection Hs2 as <-.
    split; [done|]. exists t3. split; [done|]. apply Hshow; try done. by rewrite (al_range _ _ A).
Qed.
End Thms.

(** * Examples

    The world is the page table; the adapter agrees to everything. *)

Definition ex_dma (a : Z) (_ : Z -> Z) : Z := 4096 * a.
Definition yes_io : Backend (Z -> Z) := {|
  b_admitted := Some (fun _ w => (true, w)); b_acquireSpace := Some (fun _ _ w => (true, w));
  b_releaseSpace := Some (fun _ w => (true, w)); b_retainBacking := Some (fun _ _ _ w => (true, w));
  b_ownsBacking := Some (fun _ _ _ w => (true, w)); b_releaseBacking := Some (fun _ _ _ w => (true, w));
  b_patReady := Some (fun _ _ w => (true, w)); b_readPte := Some (fun _ a w => ((true, w a), w));
  b_writePte := Some (fun _ a v w => (true, fun a' => if a' =? a then v else w a'));
  b_invalidate := Some (fun _ w => (true, w)); b_retired := Some (fun _ _ _ w => (true, w)) |}.

Definition ex_backing : Backing := {| cookie := 1; cpu := 64; dmaPages := 8; pageCount := 2; identity := 9 |}.
Definition ex_handle : Handle := {| h_slot := 0; h_generation := 1 |}.

Fixpoint g_runs (ops : list (g_op (W := Z -> Z))) (x : machine (Z -> Z)) : machine (Z -> Z) :=
  match ops with [] => x | o :: ops => g_runs ops (g_run ex_dma o x).2 end.

Lemma g_runs_reachable ops x : g_reachable ex_dma x -> Forall g_words ops -> g_reachable ex_dma (g_runs ops x).
Proof. intros Hr Ho. revert x Hr. induction Ho as [|o ops Ho _ IH]; intros x Hr; [done|]. by apply IH, gr_call. Qed.

Definition ex_reserved : machine (Z -> Z) := g_runs
  [GInitialize 5 (Some [{| address := 8192; bytes := 65536 |}]) yes_io; GReserve 7 5 8192 4096; GReserve 8 5 4096 8192]
  {| mgr := new_Manager; world := fun _ => 0; trace := [] |}.

Lemma ex_reserved_reachable : g_reachable ex_dma ex_reserved.
Proof.
  apply g_runs_reachable; [apply gr_start|]. repeat constructor; unfold word; cbn; try lia.
  intros rs [= <-]. by repeat constructor.
Qed.

Lemma ggtt_manager_exclusive_witness :
  g_reachable ex_dma ex_reserved /\
  exists s q, slots_ (mgr ex_reserved) !! 0%nat = Some s /\ slots_ (mgr ex_reserved) !! 1%nat = Some q /\
    apart (range (m s)) (range (m q)).
Proof.
  split; [exact ex_reserved_reachable|]. destruct (ggtt_manager_exclusive ex_dma ex_reserved ex_reserved_reachable) as (_ & H & _).
  eexists _, _. split; [vm_compute; reflexivity|]. split; [vm_compute; reflexivity|].
  eapply (H 0%nat 1%nat); [vm_compute; reflexivity|vm_compute; reflexivity|done|done|done].
Defined.

Definition ex_published : machine (Z -> Z) := (g_run ex_dma (GPublish 7 5 ex_handle ex_backing 1) ex_reserved).2.

Lemma ex_published_reachable : g_reachable ex_dma ex_published.
Proof. apply gr_call; [exact ex_reserved_reachable|]. cbn. lia. Qed.

Lemma ggtt_manager_entries_witness :
  entry_of 8192 (trace ex_published) = Live /\
  0 < g_holds 7 ex_backing (trace ex_published) /\
  (g_run ex_dma (GRetire 7 5 ex_handle) ex_published).1 = Ok /\
  exists s, slots_ (mgr ex_published) !! 0%nat = Some s /\
    survives ex_published 0 s (g_run ex_dma (GRetire 7 5 ex_handle) ex_published).2.
Proof.
  destruct (ggtt_manager_entries ex_dma ex_published (GRetire 7 5 ex_handle) ex_published_reachable ltac:(cbn; lia)) as (_ & _ & Hh & Hs).
  split; [vm_compute; reflexivity|]. split; [rewrite Hh; vm_compute; reflexivity|]. split; [vm_compute; reflexivity|].
  eexists. split; [vm_compute; reflexivity|]. apply Hs; [vm_compute; reflexivity|done].
Defined.

Lemma ggtt_reserve_first_fit_witness :
  (reserve 9 5 8192 4096 ex_reserved).1 = (Ok, Some {| h_slot := 2; h_generation := 3 |}) /\
  reserve_spec ex_reserved 9 8192 4096 (reserve 9 5 8192 4096 ex_reserved).1 (reserve 9 5 8192 4096 ex_reserved).2.
Proof.
  split; [vm_compute; reflexivity|].
  destruct (ggtt_reserve_first_fit ex_dma ex_reserved 9 5 8192 4096 ex_reserved_reachable
    ltac:(unfold word; lia) ltac:(unfold word; lia)) as [H _]. exact H.
Defined.

Lemma ggtt_publish_shows_witness :
  (publish ex_dma 7 5 ex_handle ex_backing 1 ex_reserved).1 = Ok /\
  exists s, slots_ (mgr ex_published) !! 0%nat = Some s /\ state (m s) = StPublished /\ backing (m s) = ex_backing.
Proof.
  pose proof (ggtt_publish_shows ex_dma ex_reserved 7 5 ex_handle ex_backing 1 (fun page => wrap 64 (4096 * (8 + 8 * page)))
    ex_reserved_reachable ltac:(cbn; lia) ltac:(lia) ltac:(reflexivity)) as H.
  assert (E : (publish ex_dma 7 5 ex_handle ex_backing 1 ex_reserved).1 = Ok) by (vm_compute; reflexivity).
  split; [exact E|]. unfold ex_published. cbn [g_run]. destruct (publish ex_dma 7 5 ex_handle ex_backing 1 ex_reserved) as [st x'].
  cbn in E. subst st. destruct H as (s & t1 & t2 & Hs & Hst & Hb & _). exists s. split; [exact Hs|]. split; [exact Hst|exact Hb].
Defined.
