(* ===== verification/XeForceWake.v ===== *)
(** Forcewake of the Xe backend, class [ForceWake] of [Mellow/XeMmioAccess.{hpp,cpp}]: reference
    counted holds of the two power domains, taken and given back through registers of an adapter
    that may fail at any access. *)
From stdpp Require Import base numbers list.
From S2P Require Import Prelude.

Module XeForceWake.

Inductive MmioStatus :=
  | Ok | Invalid | UnsupportedIp | Unavailable | IoFailure | Timeout | Busy | Faulted | ClockRegression.

#[export] Instance MmioStatus_eq_dec : EqDecision MmioStatus.
Proof. solve_decision. Defined.

(** A [WakeDomain] is its value: 0 for [Gt], 1 for [Render]. *)
Definition Gt : nat := 0.
Definition Render : nat := 1.

Record GraphicsIp := { architecture : Z; release_ : Z; subIp : Z; revision : Z }.
Definition no_ip : GraphicsIp := {| architecture := 0; release_ := 0; subIp := 0; revision := 0 |}.

Definition gmdId : Z := 0xD8C.
Definition control (index : nat) : Z := match index with O => 0xA188 | _ => 0xA278 end.
Definition ack (index : nat) : Z := match index with O => 0xDFC | _ => 0xD84 end.
Definition kernelBit : Z := 1.
Definition kernelMask : Z := Z.shiftl 1 16.

(** The accesses with their answers. *)
Inductive w_event :=
  | WvRead (reg v : Z) (ok : bool)
  | WvWrite (reg v : Z) (ok : bool)
  | WvNow (t : Z)
  | WvDelay (n : Z).

Section ForceWake.
Context {W : Type}.

(** Callbacks on a world [W]; a null function pointer is [None], an out parameter is a result. *)
Record MmioAccess := {
  read32 : option (Z -> W -> (bool * Z) * W);
  write32 : option (Z -> Z -> W -> bool * W);
  nowMicros : option (W -> Z * W);
  delayMicros : option (Z -> W -> W);
}.
Definition no_access : MmioAccess := {| read32 := None; write32 := None; nowMicros := None; delayMicros := None |}.

Record ForceWake := {
  io_ : MmioAccess;
  ip_ : GraphicsIp;
  refs_ : list Z;
  initialized_ : bool;
  faulted_ : bool;
}.
Definition new_ForceWake : ForceWake := {|
  io_ := no_access; ip_ := no_ip; refs_ := [0; 0]; initialized_ := false; faulted_ := false |}.
Definition ref (t : ForceWake) (index : nat) : Z := refs_ t !!! index.

Definition set_ref (index : nat) (v : Z) (t : ForceWake) : ForceWake :=
  {| io_ := io_ t; ip_ := ip_ t; refs_ := <[index := v]> (refs_ t); initialized_ := initialized_ t; faulted_ := faulted_ t |}.
Definition set_faulted (t : ForceWake) : ForceWake :=
  {| io_ := io_ t; ip_ := ip_ t; refs_ := refs_ t; initialized_ := initialized_ t; faulted_ := true |}.

(** The object, the world of the adapter and the accesses made so far, newest first. *)
Record machine := { fw : ForceWake; world : W; trace : list w_event }.

Definition upd (f : ForceWake -> ForceWake) : ST machine unit :=
  modify (fun x => {| fw := f (fw x); world := world x; trace := trace x |}).
Definition act {A} (f : W -> A * W) (ev : A -> w_event) : ST machine A := fun x =>
  let '(r, w) := f (world x) in (r, {| fw := fw x; world := w; trace := ev r :: trace x |}).

(** Callbacks, which are not null when they are used. *)
Definition call_read32 (io : MmioAccess) (reg : Z) : ST machine (bool * Z) :=
  act (fun w => match read32 io with
                | Some f => let '((ok, v), w) := f reg w in ((ok, wrap 32 v), w)
                | None => ((false, 0), w)
                end) (fun r => WvRead reg r.2 r.1).
Definition call_write32 (io : MmioAccess) (reg v : Z) : ST machine bool :=
  act (fun w => match write32 io with Some f => f reg v w | None => (false, w) end) (WvWrite reg v).
Definition call_nowMicros (io : MmioAccess) : ST machine Z :=
  act (fun w => match nowMicros io with Some f => let '(t, w) := f w in (wrap 64 t, w) | None => (0, w) end) WvNow.
Definition call_delayMicros (io : MmioAccess) (n : Z) : ST machine unit :=
  act (fun w => (tt, match delayMicros io with Some f => f n w | None => w end)) (fun _ => WvDelay n).

Definition is_some {A} (x : option A) : bool := match x with Some _ => true | None => false end.

(** The read failed or returned what a dead device returns. *)
Definition bad_read (r : bool * Z) : bool := negb r.1 || (r.2 =? U32_MAX).

(** * Operations *)

Definition initialize (access : MmioAccess) : ST machine MmioStatus :=
  t <-- gets fw ;;
  if initialized_ t then ret Busy
  else if negb (is_some (read32 access)) || negb (is_some (write32 access)) || negb (is_some (nowMicros access)) ||
          negb (is_some (delayMicros access)) then ret Unavailable
  else
    r <-- call_read32 access gmdId ;;
    if bad_read r then ret IoFailure
    else
      let raw := r.2 in
      let info := {| architecture := wrap 16 (Z.shiftr raw 22); release_ := wrap 8 (Z.land (Z.shiftr raw 14) 255);
                     subIp := wrap 8 (Z.land (Z.shiftr raw 6) 255); revision := wrap 8 (Z.land raw 63) |} in
      if negb (architecture info =? 12) || negb (release_ info =? 70) then ret UnsupportedIp
      else
        upd (fun t => {| io_ := access; ip_ := info; refs_ := refs_ t; initialized_ := true; faulted_ := faulted_ t |}) ;;;
        ret Ok.

Definition canDetach (t : ForceWake) : bool := (ref t 0 =? 0) && (ref t 1 =? 0) && negb (faulted_ t).

Definition shutdown : ST machine MmioStatus :=
  t <-- gets fw ;;
  if negb (canDetach t) then ret Busy
  else
    upd (fun t => {| io_ := no_access; ip_ := no_ip; refs_ := refs_ t; initialized_ := false; faulted_ := faulted_ t |}) ;;;
    ret Ok.

(** [attempts] more follow this one; the last is number 1000. *)
Fixpoint wait_loop (attempts : nat) (reg : Z) (awake : bool) (start previous : Z) : ST machine MmioStatus :=
  t <-- gets fw ;;
  r <-- call_read32 (io_ t) reg ;;
  if bad_read r then ret IoFailure
  else if Bool.eqb (test r.2 kernelBit) awake then ret Ok
  else
    now <-- call_nowMicros (io_ t) ;;
    if now <? previous then ret ClockRegression
    else if 50000 <=? now -64 start then ret Timeout
    else
      match attempts with
      | O => ret Timeout
      | S attempts => call_delayMicros (io_ t) 50 ;;; wait_loop attempts reg awake start now
      end.

Definition wait (reg : Z) (awake : bool) : ST machine MmioStatus :=
  t <-- gets fw ;;
  start <-- call_nowMicros (io_ t) ;;
  wait_loop 1000 reg awake start start.

Definition acquire (index : nat) : ST machine MmioStatus :=
  t <-- gets fw ;;
  if (1 <? index)%nat then ret Invalid
  else if negb (initialized_ t) then ret Unavailable
  else if faulted_ t then ret Faulted
  else if (index =? 1)%nat && (ref t 0 =? 0) then ret Busy
  else if ref t index =? U32_MAX then ret Busy
  else if negb (ref t index =? 0) then upd (set_ref index (wrap 32 (ref t index + 1))) ;;; ret Ok
  else
    r <-- call_read32 (io_ t) (ack index) ;;
    if bad_read r then ret IoFailure
    else if test r.2 kernelBit then ret Busy
    else
      ok <-- call_write32 (io_ t) (control index) (Z.lor kernelMask kernelBit) ;;
      if negb ok then upd set_faulted ;;; ret IoFailure
      else
        result <-- wait (ack index) true ;;
        if decide (result <> Ok) then
          cleared <-- call_write32 (io_ t) (control index) kernelMask ;;
          idle <-- (if cleared then w <-- wait (ack index) false ;; ret (bool_decide (w = Ok)) else ret false) ;;
          (if negb idle then upd set_faulted else ret tt) ;;;
          ret result
        else
          upd (set_ref index 1) ;;; ret Ok.

Definition release (index : nat) : ST machine MmioStatus :=
  t <-- gets fw ;;
  if (1 <? index)%nat then ret Invalid
  else if negb (initialized_ t) then ret Unavailable
  else if faulted_ t then ret Faulted
  else if (ref t index =? 0) || ((index =? 0)%nat && (ref t index =? 1) && negb (ref t 1 =? 0)) then ret Busy
  else if 1 <? ref t index then upd (set_ref index (wrap 32 (ref t index - 1))) ;;; ret Ok
  else
    ok <-- call_write32 (io_ t) (control index) kernelMask ;;
    if negb ok then upd set_faulted ;;; ret IoFailure
    else
      result <-- wait (ack index) false ;;
      if decide (result <> Ok) then upd set_faulted ;;; ret result
      else upd (set_ref index 0) ;;; ret Ok.

Definition held (t : ForceWake) (index : nat) : bool :=
  initialized_ t && negb (faulted_ t) && (index <? 2)%nat && negb (ref t index =? 0).
End ForceWake.

Arguments MmioAccess W : clear implicits.
Arguments ForceWake W : clear implicits.
Arguments machine W : clear implicits.
End XeForceWake.
