(* ===== verification/XeForceWakeThms.v ===== *)
(** Theorems of forcewake, over every sequence of calls and against any adapter. *)
From stdpp Require Import base numbers list sets.
From S2P Require Import Prelude.
From S2P Require Import StateWp.
From S2P Require Import XeForceWake.
Import XeForceWake.

(** * The power of a domain, as the accesses show it *)

Inductive power := Idle | Requested | Awake | Releasing.

#[export] Instance power_eq_dec : EqDecision power.
Proof. solve_decision. Defined.

Definition Wake : Z := Z.lor kernelMask kernelBit.

Definition power_step (d : nat) (ev : w_event) (p : power) : power :=
  match ev with
  | WvWrite reg v _ => if reg =? control d then if v =? Wake then Requested else Releasing else p
  | WvRead reg v ok =>
      if (reg =? ack d) && negb (bad_read (ok, v)) then
        match p with
        | Requested => if test v kernelBit then Awake else Requested
        | Releasing => if test v kernelBit then Releasing else Idle
        | p => p
        end
      else p
  | _ => p
  end.
Definition power_of (d : nat) (tr : list w_event) : power := foldr (power_step d) Idle tr.

#[global] Arguments power_of : simpl never.

Lemma power_cons d ev tr : power_of d (ev :: tr) = power_step d ev (power_of d tr).
Proof. done. Qed.

(** A domain is woken only when it is idle and was just seen without a hold of the kernel, and the
    render domain only while the GT is awake; a hold is given up only if it was taken, and that of
    the GT only while the render domain is idle. *)
Definition w_legal (ev : w_event) (before : list w_event) : Prop :=
  match ev with
  | WvWrite reg v _ => exists d, (d < 2)%nat /\ reg = control d /\
      ((v = Wake /\ power_of d before = Idle /\ (d = Render -> power_of Gt before = Awake) /\
        exists seen, head before = Some (WvRead (ack d) seen true) /\ test seen kernelBit = false) \/
       (v = kernelMask /\ (power_of d before = Awake \/ power_of d before = Requested) /\
        (d = Gt -> power_of Render before = Idle)))
  | _ => True
  end.
Fixpoint w_legal_trace (tr : list w_event) : Prop :=
  match tr with [] => True | ev :: tr => w_legal ev tr /\ w_legal_trace tr end.

Definition no_write (ev : w_event) : bool := match ev with WvWrite _ _ _ => false | _ => true end.

Lemma no_writes_legal tr tr' : Forall (fun ev => no_write ev = true) tr -> w_legal_trace tr' -> w_legal_trace (tr ++ tr').
Proof. intros H Ht. induction H as [|ev tr He _ IH]; [done|]. cbn. split; [by destruct ev|done]. Qed.

Lemma control_ne d d' : (d < 2)%nat -> (d' < 2)%nat -> d <> d' -> control d <> control d' /\ ack d <> ack d'.
Proof. intros. destruct d as [|[|]], d' as [|[|]]; try lia; done. Qed.

Section Thms.
Context {W : Type}.
Implicit Types (x : machine W) (t : ForceWake W).

Definition after x w tr : machine W := {| fw := fw x; world := w; trace := tr ++ trace x |}.

Lemma wake_wp_act {A} (f : W -> A * W) ev x (Q : A -> machine W -> Prop) :
  (forall r w, Q r (after x w [ev r])) -> wp (act f ev) Q x.
Proof. intros H. unfold wp, act. destruct (f (world x)) as [r w]. apply H. Qed.

Lemma after_app x w w' tr tr' : after (after x w tr) w' tr' = after x w' (tr' ++ tr).
Proof. unfold after. cbn. by rewrite app_assoc. Qed.

(** * Waiting *)

Definition before_wait (awake : bool) : power := if awake then Requested else Releasing.
Definition after_wait (awake : bool) : power := if awake then Awake else Idle.

(** What waiting for the acknowledgement of [d] does: it only reads, at most [n] times, and the
    power of [d] is the one waited for exactly when it succeeds. *)
Definition waited (d : nat) (awake : bool) (n : nat) x (r : MmioStatus) x' : Prop :=
  exists w tr, x' = after x w tr /\ Forall (fun ev => no_write ev = true) tr /\ (length tr <= n)%nat /\
  (power_of d (trace x) = before_wait awake ->
    power_of d (trace x') = if decide (r = Ok) then after_wait awake else before_wait awake) /\
  forall d', (d' < 2)%nat -> d' <> d -> power_of d' (trace x') = power_of d' (trace x).

(** Reads of the acknowledgement that show nothing new, and the clock. *)
Definition unchanged (d : nat) (awake : bool) (ev : w_event) : Prop :=
  match ev with
  | WvRead reg v ok => reg = ack d /\ (bad_read (ok, v) = true \/ Bool.eqb (test v kernelBit) awake = false)
  | WvWrite _ _ _ => False
  | _ => True
  end.

Lemma unchanged_power d awake tr tr' :
  Forall (unchanged d awake) tr -> (d < 2)%nat ->
  (power_of d tr' = before_wait awake -> power_of d (tr ++ tr') = before_wait awake) /\
  forall d', (d' < 2)%nat -> d' <> d -> power_of d' (tr ++ tr') = power_of d' tr'.
Proof.
  intros Ht Hd. induction Ht as [|ev tr Hr _ [IH1 IH2]]; [done|]. cbn [app]. split.
  - intros E. specialize (IH1 E). rewrite power_cons, IH1. destruct ev as [reg v ok| | |]; try done. destruct Hr as [-> Hr]. cbn.
    rewrite Z.eqb_refl. destruct (bad_read (ok, v)); [done|]. cbn. destruct Hr as [|Hr]; [done|].
    destruct awake, (test v kernelBit); done.
  - intros d' Hd' Hn. rewrite power_cons, IH2 by done. destruct ev as [reg v ok| | |]; try done. destruct Hr as [-> _]. cbn.
    by rewrite (proj2 (Z.eqb_neq _ _) (proj2 (control_ne d d' Hd Hd' (not_eq_sym Hn)))).
Qed.

Lemma unchanged_no_write d awake tr : Forall (unchanged d awake) tr -> Forall (fun ev => no_write ev = true) tr.
Proof. intros H. eapply Forall_impl; [exact H|]. by intros []. Qed.

Lemma waited_fail d awake n x r w tr :
  Forall (unchanged d awake) tr -> (length tr <= n)%nat -> (d < 2)%nat -> r <> Ok -> waited d awake n x r (after x w tr).
Proof.
  intros Ht Hl Hd Hne. exists w, tr. destruct (unchanged_power d awake tr (trace x) Ht Hd) as [H1 H2].
  split; [done|]. split; [by eapply unchanged_no_write|]. split; [done|]. by rewrite decide_False by done.
Qed.

Lemma waited_trans d awake n k x r w tr x' :
  Forall (unchanged d awake) tr -> (length tr + k <= n)%nat -> (d < 2)%nat ->
  waited d awake k (after x w tr) r x' -> waited d awake n x r x'.
Proof.
  intros Ht Hl Hd (w' & tr' & -> & Hn & Hk & H1 & H2). destruct (unchanged_power d awake tr (trace x) Ht Hd) as [H3 H4].
  exists w', (tr' ++ tr). rewrite after_app in *. split; [done|]. split; [apply Forall_app; split; [done|by eapply unchanged_no_write]|].
  split; [rewrite length_app; lia|]. split; [intros E; by apply H1, H3|]. intros d' Hd' Hne. by rewrite H2, H4.
Qed.

Lemma wait_loop_ok d awake n start previous x :
  (d < 2)%nat -> wp (wait_loop n (ack d) awake start previous) (waited d awake (3 * n + 2) x) x.
Proof.
  intros Hd. revert previous x. induction n as [|n IH]; intros previous x; cbn [wait_loop].
  all: wp_step; wp_step; wp_step; unfold call_read32; apply wake_wp_act; intros [ok v] w1; cbn [fst snd].
  all: wp_step; [apply wp_ret; apply waited_fail; [by constructor; [split; [done|left]|]|cbn; lia|done|done]|].
  all: wp_step; [apply wp_ret|wp_step; unfold call_nowMicros; apply wake_wp_act; intros now w2; rewrite after_app].
  1,3: apply Bool.eqb_prop in Hcond0; exists w1, [WvRead (ack d) v ok]; split; [done|]; split; [by constructor|]; split; [cbn; lia|].
  1,2: cbn [trace after app]; split; [intros E|intros d' Hd' Hne]; rewrite power_cons; cbn [power_step].
  1,3: rewrite Z.eqb_refl, Hcond, E, <- Hcond0; cbn; by destruct (test v kernelBit).
  1,2: by rewrite (proj2 (Z.eqb_neq _ _) (proj2 (control_ne d d' Hd Hd' (not_eq_sym Hne)))).
  all: assert (Hu : Forall (unchanged d awake) ([WvNow now] ++ [WvRead (ack d) v ok])) 
    by (constructor; [done|constructor; [split; [done|by right]|constructor]]).
  all: wp_step; [apply wp_ret; apply waited_fail; [done|cbn; lia|done|done]|].
  all: wp_step; [apply wp_ret; apply waited_fail; [done|cbn; lia|done|done]|].
  - apply wp_ret, waited_fail; [done|cbn; lia|done|done].
  - wp_step. unfold call_delayMicros. apply wake_wp_act. intros [] w3. rewrite after_app.
    eapply wp_mono; [apply IH|]. intros r x' H. eapply waited_trans; [|  |done|exact H]; [by constructor|cbn; lia].
Qed.

Lemma wait_ok d awake x : (d < 2)%nat -> wp (wait (ack d) awake) (waited d awake 3003 x) x.
Proof.
  intros Hd. unfold wait. wp_step. wp_step. wp_step. unfold call_nowMicros. apply wake_wp_act. intros now w.
  eapply wp_mono; [by apply wait_loop_ok|]. intros r x' H. eapply waited_trans; [|  |done|exact H]; [by constructor|cbn; lia].
Qed.

(** * The invariant *)

Record wake_ok x : Prop := {
  wk_refs : length (refs_ (fw x)) = 2%nat /\ forall d, (d < 2)%nat -> word 32 (ref (fw x) d);
  wk_nested : ref (fw x) Render <> 0 -> ref (fw x) Gt <> 0;
  wk_power : faulted_ (fw x) = false -> forall d, (d < 2)%nat ->
    power_of d (trace x) = if ref (fw x) d =? 0 then Idle else Awake;
  wk_down : initialized_ (fw x) = false -> canDetach (fw x) = true;
  wk_legal : w_legal_trace (trace x);
}.

(** An operation makes at most [n] accesses, and writes nothing after a fault. *)
Definition spends (n : nat) x x' : Prop :=
  exists tr, trace x' = tr ++ trace x /\ (length tr <= n)%nat /\
  (faulted_ (fw x) = true -> Forall (fun ev => no_write ev = true) tr).

Definition kept (n : nat) x x' : Prop := wake_ok x' /\ spends n x x'.

Lemma spends_self n x : spends n x x.
Proof. exists []. split; [done|]. split; [cbn; lia|]. by constructor. Qed.

Lemma ref_set x d d' v : (d < length (refs_ (fw x)))%nat -> ref (set_ref d v (fw x)) d' = if decide (d = d') then v else ref (fw x) d'.
Proof.
  intros Hl. unfold ref, set_ref. cbn. destruct (decide (d = d')) as [<-|].
  - by apply list_lookup_total_insert_eq.
  - by apply list_lookup_total_insert_ne.
Qed.

(** The reference count of [d] becomes [v]. *)
Lemma set_ref_ok x d v w tr :
  wake_ok x -> (d < 2)%nat -> word 32 v -> initialized_ (fw x) = true -> faulted_ (fw x) = false ->
  (d = Gt -> v = 0 -> ref (fw x) Render = 0) -> (d = Render -> v <> 0 -> ref (fw x) Gt <> 0) ->
  power_of d (tr ++ trace x) = (if v =? 0 then Idle else Awake) ->
  (forall d', (d' < 2)%nat -> d' <> d -> power_of d' (tr ++ trace x) = power_of d' (trace x)) ->
  w_legal_trace (tr ++ trace x) ->
  wake_ok {| fw := set_ref d v (fw x); world := w; trace := tr ++ trace x |}.
Proof.
  intros [[Hl Hw] Hn Hp Hd Hg] Hd2 Hv Hi Hf H0 H1 Hpd Hpo Ht.
  assert (E : forall d', ref (set_ref d v (fw x)) d' = if decide (d = d') then v else ref (fw x) d') by (intros; apply ref_set; lia).
  split; cbn [fw trace]; [|rewrite !E| |cbn; congruence|done].
  - split; [cbn; by rewrite length_insert|]. intros d' Hd'. rewrite E. destruct (decide (d = d')); auto.
  - destruct (decide (d = Render)), (decide (d = Gt)); auto.
  - intros _ d' Hd'. rewrite E. destruct (decide (d = d')) as [<-|Hne]; [done|]. rewrite Hpo by done. by apply Hp.
Qed.

Lemma faulted_ok x w tr :
  wake_ok x -> initialized_ (fw x) = true -> w_legal_trace (tr ++ trace x) ->
  wake_ok {| fw := set_faulted (fw x); world := w; trace := tr ++ trace x |}.
Proof. intros [[Hl Hw] Hn Hp Hd Hg] Hi Ht. split; cbn in *; try done; congruence. Qed.

(** Reads change nothing while the domains are idle or awake. *)
Lemma reads_power d tr tr' :
  Forall (fun ev => no_write ev = true) tr -> power_of d tr' = Idle \/ power_of d tr' = Awake ->
  power_of d (tr ++ tr') = power_of d tr'.
Proof.
  intros H Hp. induction H as [|ev tr He _ IH]; [done|]. cbn [app]. rewrite power_cons, IH.
  destruct ev as [reg v ok| | |]; try done. cbn. destruct (_ && _); [|done]. by destruct Hp as [-> | ->].
Qed.

Lemma reads_ok x w tr : wake_ok x -> Forall (fun ev => no_write ev = true) tr -> wake_ok (after x w tr).
Proof.
  intros [Hr Hn Hp Hd Hg] Ht. split; cbn [fw trace after]; try done; [|by apply no_writes_legal].
  intros Hf d Hd2. rewrite reads_power; [by apply Hp|done|]. rewrite Hp by done. destruct (_ =? 0); auto.
Qed.

Lemma reads_kept n x w tr :
  wake_ok x -> Forall (fun ev => no_write ev = true) tr -> (length tr <= n)%nat -> kept n x (after x w tr).
Proof. intros Hx Ht Hl. split; [by apply reads_ok|]. exists tr. done. Qed.

Lemma self_kept n x : wake_ok x -> kept n x x.
Proof. intros Hx. split; [done|apply spends_self]. Qed.

Lemma release_write_legal x d tr :
  wake_ok x -> (d < 2)%nat -> faulted_ (fw x) = false -> (d = Gt -> ref (fw x) Render = 0) ->
  (power_of d tr = Awake \/ power_of d tr = Requested) -> (d = Gt -> power_of Render tr = power_of Render (trace x)) ->
  w_legal_trace tr -> forall ok, w_legal_trace (WvWrite (control d) kernelMask ok :: tr).
Proof.
  intros Hx Hd Hf H0 Hp Hr Hl ok. split; [|done]. exists d. split; [done|]. split; [done|]. right. split; [done|]. split; [done|].
  intros Ed. rewrite Hr, (wk_power _ Hx Hf Render) by (done || unfold Render; lia). by rewrite H0.
Qed.

Lemma wake_release_ok d x :
  wake_ok x -> wp (release d) (fun r x' => kept 3004 x x' /\ (r <> Ok -> refs_ (fw x') = refs_ (fw x))) x.
Proof.
  intros Hx. unfold release. wp_step. wp_step. do 4 (wp_step; [by apply wp_ret; split; [apply self_kept|]|]).
  apply Nat.ltb_ge in Hcond. apply negb_false_iff in Hcond0. rewrite orb_false_iff, Z.eqb_neq in Hcond2. destruct Hcond2 as [Hr0 Hr1].
  assert (Hd : (d < 2)%nat) by lia. pose proof (wk_refs _ Hx) as [Hl Hw]. destruct (Hw d Hd) as [Hw0 Hw1].
  assert (Hz : d = Gt -> ref (fw x) d = 1 -> ref (fw x) Render = 0).
  { intros -> E. rewrite E in Hr1. cbn in Hr1. by apply negb_false_iff, Z.eqb_eq in Hr1. }
  assert (Hpd : power_of d (trace x) = Awake) by (rewrite (wk_power _ Hx Hcond1 d Hd), (proj2 (Z.eqb_neq _ _) Hr0); done).
  wp_step.
  - apply Z.ltb_lt in Hcond2. wp_step. apply wp_modify, wp_ret. split; [|done]. split; [|exists []; split; [done|]; split; [cbn; lia|by constructor]].
    rewrite wrap_small by lia. apply (set_ref_ok x d _ (world x) []); try done; [unfold word; lia|lia| | |].
    + intros -> _. apply (wk_nested _ Hx). exact Hr0.
    + cbn. rewrite (proj2 (Z.eqb_neq _ _)) by lia. done.
    + apply Hx.
  - apply Z.ltb_ge in Hcond2. assert (H1 : ref (fw x) d = 1) by lia. wp_step. unfold call_write32. apply wake_wp_act. intros ok w1.
    assert (Hleg : w_legal_trace (WvWrite (control d) kernelMask ok :: trace x)).
    { apply (release_write_legal x d); auto. apply Hx. }
    assert (Hnf : forall (P : Prop), faulted_ (fw x) = true -> P) by (intros P E; congruence).
    wp_step.
    { wp_step. apply wp_modify, wp_ret. split; [|done]. split; [by apply (faulted_ok x _ [_])|]. eexists [_]. split; [done|]. split; [cbn; lia|apply Hnf]. }
    wp_step. eapply wp_mono; [by apply wait_ok|]. intros r x2 (w2 & tr & -> & Hnw & Hlen & Hp1 & Hp2).
    rewrite after_app in *. cbn [trace after] in Hp1, Hp2. rewrite <- app_assoc in Hp1, Hp2.
    assert (Hleg2 : w_legal_trace ((tr ++ [WvWrite (control d) kernelMask ok]) ++ trace x)) by (rewrite <- app_assoc; by apply no_writes_legal).
    assert (Hsp : forall t w, spends 3004 x {| fw := t; world := w; trace := (tr ++ [WvWrite (control d) kernelMask ok]) ++ trace x |}).
    { intros t w. eexists. split; [done|]. split; [rewrite length_app; cbn; lia|apply Hnf]. }
    destruct (decide (r <> Ok)) as [Hne|Heq].
    + wp_step. apply wp_modify, wp_ret. split; [|done]. split; [exact (faulted_ok x _ _ Hx Hcond0 Hleg2)|apply Hsp].
    + apply dec_stable in Heq as ->. wp_step. apply wp_modify, wp_ret. split; [|done]. split; [|apply Hsp].
      rewrite decide_True in Hp1 by done. apply (set_ref_ok x d 0 _ _ Hx Hd ltac:(by unfold word) Hcond0 Hcond1); try done; [auto| |].
      * rewrite <- app_assoc. apply Hp1. cbn [app]. rewrite power_cons. cbn [power_step]. by rewrite Z.eqb_refl.
      * intros d' Hd' Hne. rewrite <- app_assoc, Hp2 by done. cbn [app]. rewrite power_cons. cbn [power_step].
        by rewrite (proj2 (Z.eqb_neq _ _) (proj1 (control_ne d d' Hd Hd' (not_eq_sym Hne)))).
Qed.

(** A domain without references is woken: [seen] was just read from its acknowledgement. *)
Lemma wake_write_legal x d seen ok :
  wake_ok x -> (d < 2)%nat -> faulted_ (fw x) = false -> ref (fw x) d = 0 -> (d = Render -> ref (fw x) Gt <> 0) ->
  test seen kernelBit = false ->
  let tr := [WvWrite (control d) Wake ok; WvRead (ack d) seen true] in
  w_legal_trace (tr ++ trace x) /\ power_of d (tr ++ trace x) = Requested /\
  forall d', (d' < 2)%nat -> d' <> d -> power_of d' (tr ++ trace x) = power_of d' (trace x).
Proof.
  intros Hx Hd Hf Hz Hr Ht tr. pose proof (wk_power _ Hx Hf) as Hp.
  assert (Hread : forall d', (d' < 2)%nat -> power_of d' (WvRead (ack d) seen true :: trace x) = power_of d' (trace x)).
  { intros d' Hd'. apply (reads_power d' [_]); [by constructor|]. rewrite Hp by done. destruct (_ =? 0); auto. }
  split; [|split].
  - split; [|split; [done|apply Hx]]. exists d. split; [done|]. split; [done|]. left. split; [done|]. cbn [app].
    rewrite !Hread, !Hp by (done || unfold Gt; lia). rewrite Hz. split; [done|]. split; [|by exists seen].
    intros Ed. by rewrite (proj2 (Z.eqb_neq _ _) (Hr Ed)).
  - cbn [app tr]. rewrite power_cons. cbn [power_step]. by rewrite !Z.eqb_refl.
  - intros d' Hd' Hne. cbn [app tr]. rewrite power_cons. cbn [power_step].
    rewrite (proj2 (Z.eqb_neq _ _) (proj1 (control_ne d d' Hd Hd' (not_eq_sym Hne)))). by apply Hread.
Qed.

(** The end of [acquire] when the domain did not wake up. *)
Lemma give_up_ok x d result tr w :
  wake_ok x -> (d < 2)%nat -> initialized_ (fw x) = true -> faulted_ (fw x) = false -> ref (fw x) d = 0 ->
  w_legal_trace (tr ++ trace x) -> power_of d (tr ++ trace x) = Requested -> (length tr <= 3006)%nat -> result <> Ok ->
  (forall d', (d' < 2)%nat -> d' <> d -> power_of d' (tr ++ trace x) = power_of d' (trace x)) ->
  wp (cleared <-- call_write32 (io_ (fw x)) (control d) kernelMask ;;
      idle <-- (if cleared then w <-- wait (ack d) false ;; ret (bool_decide (w = Ok)) else ret false) ;;
      (if negb idle then upd set_faulted else ret tt) ;;; ret result)
    (fun r x' => kept (2 * 3005) x x' /\ r <> Ok /\ refs_ (fw x') = refs_ (fw x)) (after x w tr).
Proof.
  intros Hx Hd Hi Hf Hz Hl Hp Hlen Hres Hpo.
  assert (Hnf : forall (P : Prop), faulted_ (fw x) = true -> P) by (intros P E; congruence).
  wp_step. unfold call_write32. apply wake_wp_act. intros ok w1. rewrite after_app. cbn [app].
  assert (Hleg : w_legal_trace ((WvWrite (control d) kernelMask ok :: tr) ++ trace x)).
  { apply (release_write_legal x d (tr ++ trace x)); auto.
    - intros ->. destruct (decide (ref (fw x) Render = 0)) as [|E]; [done|]. by apply (wk_nested _ Hx) in E.
    - intros ->. apply Hpo; [unfold Render; lia|done]. }
  destruct ok.
  2: { wp_step. apply wp_ret. wp_step. apply wp_modify, wp_ret. split; [|done]. split; [by apply (faulted_ok x)|].
       eexists. split; [done|]. split; [cbn; lia|apply Hnf]. }
  wp_step. wp_step. eapply wp_mono; [by apply wait_ok|]. intros r x2 (w2 & tr2 & -> & Hnw & Hlen2 & Hp1 & Hp2).
  apply wp_ret. rewrite after_app in *. cbn [trace after] in Hp1, Hp2. set (T := tr2 ++ WvWrite (control d) kernelMask true :: tr) in *.
  assert (Hleg2 : w_legal_trace (T ++ trace x)) by (unfold T; rewrite <- app_assoc; by apply no_writes_legal).
  assert (HlT : (length T <= 2 * 3005)%nat) by (unfold T; rewrite length_app; cbn; lia).
  assert (HpT : power_of d (T ++ trace x) = if decide (r = Ok) then Idle else Releasing).
  { apply Hp1. cbn [app]. rewrite power_cons. cbn [power_step]. by rewrite Z.eqb_refl. }
  assert (HpoT : forall d', (d' < 2)%nat -> d' <> d -> power_of d' (T ++ trace x) = power_of d' (trace x)).
  { intros d' Hd' Hne. rewrite Hp2 by done. cbn [app]. rewrite power_cons. cbn [power_step].
    rewrite (proj2 (Z.eqb_neq _ _) (proj1 (control_ne d d' Hd Hd' (not_eq_sym Hne)))). by apply Hpo. }
  destruct (decide (r = Ok)) as [->|Hne].
  - rewrite bool_decide_true by done. wp_step. apply wp_ret, wp_ret. split; [|done]. split; [|exists T; split; [done|]; split; [done|apply Hnf]].
    destruct Hx as [G1 G2 G3 G4 G5]. split; cbn [fw trace after]; try done. intros _ d' Hd'. destruct (decide (d' = d)) as [->|Hne].
    + by rewrite HpT, Hz.
    + rewrite HpoT by done. by apply G3.
  - rewrite bool_decide_false by done. wp_step. apply wp_modify, wp_ret. split; [|done]. split; [exact (faulted_ok x _ T Hx Hi Hleg2)|].
    exists T. split; [done|]. split; [done|apply Hnf].
Qed.

Lemma acquire_ok d x :
  wake_ok x -> wp (acquire d) (fun r x' => kept (2 * 3005) x x' /\
    (r = Ok -> held (fw x') d = true /\ power_of d (trace x') = Awake) /\ (r <> Ok -> refs_ (fw x') = refs_ (fw x))) x.
Proof.
  intros Hx. unfold acquire. wp_step. wp_step. do 5 (wp_step; [by apply wp_ret; split; [apply self_kept|split]|]).
  apply Nat.ltb_ge in Hcond. apply negb_false_iff in Hcond0. apply Z.eqb_neq in Hcond3.
  assert (Hd : (d < 2)%nat) by lia. pose proof (wk_refs _ Hx) as [Hl Hw]. destruct (Hw d Hd) as [Hw0 Hw1]. unfold U32_MAX in Hcond3.
  assert (Hr : d = Render -> ref (fw x) Gt <> 0) by (intros ->; cbn in Hcond2; by apply Z.eqb_neq).
  assert (Hnf : forall (P : Prop), faulted_ (fw x) = true -> P) by (intros P E; congruence).
  assert (Hheld : forall v w tr, v <> 0 -> held (fw {| fw := set_ref d v (fw x); world := w; trace := tr |}) d = true).
  { intros v w tr Hv. unfold held. cbn [fw]. rewrite ref_set, decide_True by (done || lia). cbn [initialized_ faulted_ set_ref]. rewrite Hcond0, Hcond1.
    rewrite (proj2 (Nat.ltb_lt d 2) Hd), (proj2 (Z.eqb_neq _ _) Hv). done. }
  wp_step.
  - apply negb_true_iff, Z.eqb_neq in Hcond4. wp_step. apply wp_modify, wp_ret. rewrite wrap_small by lia.
    assert (Hp : power_of d (trace x) = Awake) by (rewrite (wk_power _ Hx Hcond1 d Hd), (proj2 (Z.eqb_neq _ _) Hcond4); done).
    split; [split; [|exists []; split; [done|]; split; [cbn; lia|by constructor]]|split; [|done]].
    + apply (set_ref_ok x d (ref (fw x) d + 1) _ [] Hx Hd ltac:(unfold word; lia) Hcond0 Hcond1); try done; [lia|auto|by rewrite (proj2 (Z.eqb_neq _ _)) by lia|apply Hx].
    + intros _. split; [apply Hheld; lia|exact Hp].
  - apply negb_false_iff, Z.eqb_eq in Hcond4. wp_step. unfold call_read32. apply wake_wp_act. intros [ok v] w1. cbn [fst snd].
    wp_step; [apply wp_ret; split; [apply reads_kept; [done|by constructor|cbn; lia]|done]|]. destruct ok; [|done].
    wp_step; [apply wp_ret; split; [apply reads_kept; [done|by constructor|cbn; lia]|done]|].
    wp_step. unfold call_write32 at 1. apply wake_wp_act. intros ok w2. rewrite after_app. fold Wake.
    destruct (wake_write_legal x d v ok Hx Hd Hcond1 Hcond4 Hr Hcond6) as (L1 & P1 & O1). cbn [app] in *.
    destruct ok; cbn [negb].
    2: { wp_step. apply wp_modify, wp_ret. split; [|done]. split; [exact (faulted_ok x _ [_; _] Hx Hcond0 L1)|].
         eexists [_; _]. split; [done|]. split; [cbn; lia|apply Hnf]. }
    wp_step. eapply wp_mono; [by apply wait_ok|]. intros r x3 (w3 & tr & -> & Hnw & Hlen & Hp1 & Hp2).
    rewrite after_app in *. cbn [trace after] in Hp1, Hp2. set (T := tr ++ [WvWrite (control d) Wake true; WvRead (ack d) v true]) in *.
    specialize (Hp1 P1). assert (HlT : (length T <= 3006)%nat) by (unfold T; rewrite length_app; cbn; lia).
    assert (L2 : w_legal_trace (T ++ trace x)) by (unfold T; rewrite <- app_assoc; by apply no_writes_legal).
    assert (O2 : forall d', (d' < 2)%nat -> d' <> d -> power_of d' (T ++ trace x) = power_of d' (trace x)) by (intros d' Hd' Hne; rewrite Hp2 by done; by apply O1).
    destruct (decide (r <> Ok)) as [Hne|Heq].
    + rewrite decide_False in Hp1 by done. eapply wp_mono; [by apply (give_up_ok x d r T)|]. intros r' x' (K & Hr' & E). done.
    + apply dec_stable in Heq as ->. rewrite decide_True in Hp1 by done. wp_step. apply wp_modify, wp_ret.
      split; [split; [|exists T; split; [done|]; split; [lia|apply Hnf]]|split; [|done]].
      * apply (set_ref_ok x d 1 _ T Hx Hd ltac:(by unfold word) Hcond0 Hcond1); auto; done.
      * intros _. split; [by apply Hheld|exact Hp1].
Qed.

(** * Every sequence of calls *)

Inductive w_op :=
  | WInitialize (access : MmioAccess W)
  | WShutdown
  | WAcquire (d : nat)
  | WRelease (d : nat).

Definition w_run (o : w_op) : ST (machine W) MmioStatus :=
  match o with
  | WInitialize access => initialize access
  | WShutdown => shutdown
  | WAcquire d => acquire d
  | WRelease d => release d
  end.

(** Between calls the world may change in any way. *)
Inductive w_reachable : machine W -> Prop :=
  | wr_start w : w_reachable {| fw := new_ForceWake; world := w; trace := [] |}
  | wr_world x w : w_reachable x -> w_reachable {| fw := fw x; world := w; trace := trace x |}
  | wr_call x o : w_reachable x -> w_reachable (w_run o x).2.

Lemma initialize_kept access x :
  wake_ok x -> wp (initialize access) (fun r x' => kept 1 x x' /\ (r <> Ok -> fw x' = fw x)) x.
Proof.
  intros Hx. unfold initialize. wp_step. wp_step. do 2 (wp_step; [by apply wp_ret; split; [apply self_kept|]|]). wp_step.
  unfold call_read32. apply wake_wp_act. intros r w. cbn [fst snd].
  assert (K : kept 1 x (after x w [WvRead gmdId r.2 r.1])) by (apply reads_kept; [done|by constructor|done]).
  do 2 (wp_step; [by apply wp_ret|]). wp_step. apply wp_modify, wp_ret. split; [|done]. destruct K as [[G1 G2 G3 G4 G5] S].
  split; [by split|exact S].
Qed.

Lemma shutdown_kept x : wake_ok x -> wp shutdown (fun r x' => kept 0 x x' /\ (r = Ok -> forall d, (d < 2)%nat -> power_of d (trace x') = Idle)) x.
Proof.
  intros Hx. unfold shutdown. wp_step. wp_step. wp_step; [by apply wp_ret; split; [apply self_kept|]|]. wp_step. apply wp_modify, wp_ret.
  apply negb_false_iff in Hcond. destruct Hx as [G1 G2 G3 G4 G5]. split; [split; [by split|exists []; split; [done|]; split; [done|by constructor]]|].
  intros _ d Hd. cbn [trace]. unfold canDetach in Hcond. rewrite !andb_true_iff, negb_true_iff, !Z.eqb_eq in Hcond.
  destruct Hcond as [[E0 E1] Ef]. rewrite G3 by done. destruct d as [|[|]]; [by rewrite E0|by rewrite E1|lia].
Qed.

Lemma w_run_kept o x : wake_ok x -> kept (2 * 3005) x (w_run o x).2.
Proof.
  intros Hx. assert (Hmono : forall n x', (n <= 2 * 3005)%nat -> kept n x x' -> kept (2 * 3005) x x').
  { intros n x' Hn [? (tr & ? & ? & ?)]. split; [done|]. exists tr. split; [done|]. split; [lia|done]. }
  destruct o as [access| |d|d]; cbn [w_run].
  - apply (Hmono 1%nat); [lia|]. apply (initialize_kept access x Hx).
  - apply (Hmono 0%nat); [lia|]. apply (shutdown_kept x Hx).
  - apply (acquire_ok d x Hx).
  - apply (Hmono 3004%nat); [lia|]. apply (wake_release_ok d x Hx).
Qed.

Lemma w_reachable_ok x : w_reachable x -> wake_ok x.
Proof.
  induction 1 as [w|x w _ IH|x o _ IH].
  - split; cbn; try done; [|intros _ [|[|]] Hd; done || lia]. split; [done|]. intros [|[|]] Hd; [done|done|lia].
  - by apply (reads_ok x w []).
  - by apply w_run_kept.
Qed.

(** [C38] Forcewake over every sequence of calls and against any adapter.  A domain is woken only
    when it is idle and was just seen without a hold, the render domain only while the GT is
    awake, and a hold is given up only if it was taken, that of the GT only while the render
    domain is idle.  Unless a fault is recorded, a domain is awake exactly while it has
    references, and render references imply GT references.  Every call ends within 6010 accesses
    and writes nothing after a fault; [acquire] succeeds only with the domain seen awake, and
    [shutdown] only with both idle. *)
Theorem forcewake_holds x o :
  w_reachable x ->
  w_legal_trace (trace x) /\
  (faulted_ (fw x) = false -> forall d, (d < 2)%nat -> power_of d (trace x) = if ref (fw x) d =? 0 then Idle else Awake) /\
  (ref (fw x) Render <> 0 -> ref (fw x) Gt <> 0) /\
  spends (2 * 3005) x (w_run o x).2 /\
  match o with
  | WInitialize access => match initialize access x with (Ok, _) => True | (_, x') => fw x' = fw x end
  | WShutdown => match shutdown x with (Ok, x') => forall d, (d < 2)%nat -> power_of d (trace x') = Idle | _ => True end
  | WAcquire d =>
      match acquire d x with
      | (Ok, x') => held (fw x') d = true /\ power_of d (trace x') = Awake
      | (_, x') => refs_ (fw x') = refs_ (fw x)
      end
  | WRelease d => match release d x with (Ok, _) => True | (_, x') => refs_ (fw x') = refs_ (fw x) end
  end.
Proof.
  intros Hr%w_reachable_ok. destruct (w_run_kept o x Hr) as [_ Hs]. pose proof Hr as [_ G2 G3 _ G5]. split_and!; try done.
  destruct o as [access| |d|d].
  - destruct (initialize_kept access x Hr) as [_ H]. destruct (initialize access x) as [[] x']; try done; by apply H.
  - destruct (shutdown_kept x Hr) as [_ H]. destruct (shutdown x) as [[] x']; try done. by apply H.
  - destruct (acquire_ok d x Hr) as (_ & H1 & H2). destruct (acquire d x) as [[] x']; try (by apply H2). by apply H1.
  - destruct (wake_release_ok d x Hr) as (_ & H). destruct (release d x) as [[] x']; try done; by apply H.
Qed.
End Thms.

(** * Example

    The world is the acknowledgement of the GT; it follows the control register at once. *)

Definition ex_access : MmioAccess Z := {|
  read32 := Some (fun reg w => ((true, if reg =? gmdId then 0x03118040 else if reg =? ack Gt then w else 0), w));
  write32 := Some (fun reg v w => (true, if reg =? control Gt then Z.land v 1 else w));
  nowMicros := Some (fun w => (7, w)); delayMicros := Some (fun _ w => w) |}.

Definition ex_wake : machine Z :=
  (w_run (WInitialize ex_access) {| fw := new_ForceWake; world := 0; trace := [] |}).2.

Lemma ex_wake_reachable : w_reachable ex_wake.
Proof. apply wr_call, wr_start. Qed.

Lemma forcewake_holds_witness :
  (acquire Gt ex_wake).1 = Ok /\ held (fw (acquire Gt ex_wake).2) Gt = true /\
  power_of Gt (trace (acquire Gt ex_wake).2) = Awake.
Proof.
  destruct (forcewake_holds ex_wake (WAcquire Gt) ex_wake_reachable) as (_ & _ & _ & _ & H).
  assert (E : (acquire Gt ex_wake).1 = Ok) by (vm_compute; reflexivity). split; [exact E|].
  destruct (acquire Gt ex_wake) as [st x']. cbn in E. subst st. exact H.
Defined.
