(* ===== verification/XeGuCFirmware.v ===== *)
(** The GuC firmware loader of the Xe backend, [Mellow/XeGuCFirmware.{hpp,cpp}]: the identity of
    the pinned image by SHA-256, the check of the GGTT entries, the minimal ADS, and the class
    [Loader] that resets the GuC, starts the DMA of the image and waits for its authentication. *)
From stdpp Require Import base numbers list.
From S2P Require Import Prelude XeFirmware.
From S2P Require Import GucTransport.
From S2P Require Import XeForceWake.

Module XeGuCFirmware.
Import XeForceWake (MmioAccess, read32, write32, nowMicros, delayMicros, is_some).

Inductive Error :=
  | None_ | Invalid | FirmwareMismatch | Unavailable | Mapping
  | Wopcm | Busy | Io | Timeout | Clock | Authentication | Boot | Quarantined.

#[export] Instance Error_eq_dec : EqDecision Error.
Proof. solve_decision. Defined.

Inductive State := Idle | Retained | Starting | Dma | Authenticating | Running | Failed.

#[export] Instance State_eq_dec : EqDecision State.
Proof. solve_decision. Defined.

Inductive Profile := HardwareConfig | Submission.

#[export] Instance Profile_eq_dec : EqDecision Profile.
Proof. solve_decision. Defined.

Definition gucGgttTop : Z := 0xfee00000.
Definition firmwareFileBytes : Z := 320320.
Definition minimalAdsPrefix : Z := 24576.
Definition logBytes : Z := 4096 + 65536 + 16384 + 1048576.

(** Pointers are addresses, 0 the null pointer. *)
Record Region := {
  owner : Z; generation : Z; ggtt : Z; bytes_ : Z;
  cpu : Z;
  dmaPages : Z;
  pageCount : Z;
  pinCookie : Z;
}.
Definition no_region : Region := {|
  owner := 0; generation := 0; ggtt := 0; bytes_ := 0; cpu := 0; dmaPages := 0; pageCount := 0; pinCookie := 0 |}.

(** [profile] is [None] for a value of the enumeration that is neither of its constants. *)
Record Plan := {
  p_owner : Z; epoch : Z;
  firmware : Region; ads : Region; log : Region;
  hucUploadBytes : Z;
  pciRevision : Z;
  profile : option Profile;
  ccsPresent : bool;
}.
Definition no_plan : Plan := {|
  p_owner := 0; epoch := 0; firmware := no_region; ads := no_region; log := no_region;
  hucUploadBytes := 0; pciRevision := 0; profile := Some HardwareConfig; ccsPresent := false |}.

(** [at]. *)
Definition at_ (p : Plan) (i : nat) : Region :=
  match i with O => firmware p | S O => ads p | _ => log p end.

Definition statusReg : Z := 0xc000.
Definition dmaControl : Z := 0xc314.

(** * Helpers *)

Definition span (base bytes limit : Z) : bool :=
  (base <? limit) && negb (bytes =? 0) && (bytes <=? limit - base).
Definition overlap (a n b m : Z) : bool := (a <? b +64 m) && (b <? a +64 n).
Definition regionValid (r : Region) : bool :=
  negb (owner r =? 0) && negb (generation r =? 0) && negb (cpu r =? 0) && negb (pinCookie r =? 0) &&
  negb (dmaPages r =? 0) &&
  negb (bytes_ r =? 0) && (bytes_ r <=? 64 * 1024 * 1024) && (Z.land (bytes_ r) 4095 =? 0) &&
  (Z.land (ggtt r) 4095 =? 0) && (4 * 1024 * 1024 <=? ggtt r) && span (ggtt r) (bytes_ r) gucGgttTop &&
  (pageCount r =? bytes_ r / 4096) && (cpu r <=? U64_MAX - bytes_ r).

(** * The identity of the image *)

Definition rotate (x n : Z) : Z := Z.lor (Z.shiftr x n) (wrap 32 (Z.shiftl x (32 - n))).

(** The tables, a row of eight words of the source as one number. *)
Definition row (x : Z) : list Z :=
  map (fun i => wrap 32 (Z.shiftr x (32 * i))) [7; 6; 5; 4; 3; 2; 1; 0].
Definition sha_k : list Z := flat_map row [
  0x428a2f9871374491b5c0fbcfe9b5dba53956c25b59f111f1923f82a4ab1c5ed5;
  0xd807aa9812835b01243185be550c7dc372be5d7480deb1fe9bdc06a7c19bf174;
  0xe49b69c1efbe47860fc19dc6240ca1cc2de92c6f4a7484aa5cb0a9dc76f988da;
  0x983e5152a831c66db00327c8bf597fc7c6e00bf3d5a7914706ca635114292967;
  0x27b70a852e1b21384d2c6dfc53380d13650a7354766a0abb81c2c92e92722c85;
  0xa2bfe8a1a81a664bc24b8b70c76c51a3d192e819d6990624f40e3585106aa070;
  0x19a4c1161e376c082748774c34b0bcb5391c0cb34ed8aa4a5b9cca4f682e6ff3;
  0x748f82ee78a5636f84c878148cc7020890befffaa4506cebbef9a3f7c67178f2].
Definition sha_h : list Z := row 0x6a09e667bb67ae853c6ef372a54ff53a510e527f9b05688c1f83d9ab5be0cd19.
Definition expected : list Z := row 0x7794f0b6abe5fcd9c6f47035dafe2199f30a6e7d230bd5a53fbf8005a60e5911.

(** [total]: the length of the padded image. *)
Definition padded_length (length : Z) : Z := Z.ldiff (wrap 64 (length + 9 + 63)) 63.

(** The byte at [at], beyond the end of the data the padding. *)
Definition padded_byte (data : list Z) (at_ : Z) : Z :=
  let length := Z.of_nat (length data) in
  let total := padded_length length in
  if at_ <? length then data !!! Z.to_nat at_
  else if at_ =? length then 0x80
  else if total - 8 <=? at_ then wrap 8 (Z.shiftr (wrap 64 (length * 8)) (8 * (total - 1 - at_)))
  else 0.

(** The first sixteen words of a block: [w[i/4] |= byte << (24 - 8 * (i % 4))]. *)
Definition block_words (data : list Z) (offset : Z) : list Z :=
  foldl (fun w i =>
      <[(i / 4)%nat := Z.lor (w !!! (i / 4)%nat)
          (Z.shiftl (padded_byte data (offset + Z.of_nat i)) (24 - 8 * (Z.of_nat i mod 4)))]> w)
    (replicate 64 0) (seq 0 64).

Definition schedule (w : list Z) : list Z :=
  foldl (fun w i =>
      let x := w !!! (i - 15)%nat in
      let y := w !!! (i - 2)%nat in
      <[i := wrap 32 (w !!! (i - 16)%nat +
          Z.lxor (Z.lxor (rotate x 7) (rotate x 18)) (Z.shiftr x 3) + w !!! (i - 7)%nat +
          Z.lxor (Z.lxor (rotate y 17) (rotate y 19)) (Z.shiftr y 10))]> w)
    w (seq 16 48).

(** One of the 64 rounds on [a..g, v]; [~e] is the 32-bit complement. *)
Definition round (w : list Z) (s : Z * Z * Z * Z * Z * Z * Z * Z) (i : nat) : Z * Z * Z * Z * Z * Z * Z * Z :=
  let '(a, b, c, d, e, f, g, v) := s in
  let t1 := wrap 32 (v + Z.lxor (Z.lxor (rotate e 6) (rotate e 11)) (rotate e 25) +
    Z.lxor (Z.land e f) (Z.land (U32_MAX - e) g) + sha_k !!! i + w !!! i) in
  let t2 := wrap 32 (Z.lxor (Z.lxor (rotate a 2) (rotate a 13)) (rotate a 22) +
    Z.lxor (Z.lxor (Z.land a b) (Z.land a c)) (Z.land b c)) in
  (wrap 32 (t1 + t2), a, b, c, wrap 32 (d + t1), e, f, g).

Definition compress (w : list Z) (h : list Z) : list Z :=
  let '(a, b, c, d, e, f, g, v) :=
    foldl (round w) (h !!! 0%nat, h !!! 1%nat, h !!! 2%nat, h !!! 3%nat, h !!! 4%nat, h !!! 5%nat,
                     h !!! 6%nat, h !!! 7%nat) (seq 0 64) in
  [wrap 32 (h !!! 0%nat + a); wrap 32 (h !!! 1%nat + b); wrap 32 (h !!! 2%nat + c);
   wrap 32 (h !!! 3%nat + d); wrap 32 (h !!! 4%nat + e); wrap 32 (h !!! 5%nat + f);
   wrap 32 (h !!! 6%nat + g); wrap 32 (h !!! 7%nat + v)].

(** The loop over the blocks: [n] are left. *)
Fixpoint hash_blocks (n : nat) (data : list Z) (offset : Z) (h : list Z) : list Z :=
  match n with
  | O => h
  | S n => hash_blocks n data (offset + 64) (compress (schedule (block_words data offset)) h)
  end.
Definition hash (data : list Z) : list Z :=
  hash_blocks (Z.to_nat (padded_length (Z.of_nat (length data)) / 64)) data 0 sha_h.

Definition exactHash (data : list Z) : bool :=
  foldl (fun difference i => Z.lor difference (Z.lxor (hash data !!! i) (expected !!! i))) 0 (seq 0 8) =? 0.

(** The test vectors of the standard. *)
Example hash_abc : hash [97; 98; 99] =
  [0xba7816bf; 0x8f01cfea; 0x414140de; 0x5dae2223; 0xb00361a3; 0x96177a9c; 0xb410ff61; 0xf20015ad].
Proof. vm_compute. reflexivity. Qed.
Example hash_two_blocks : hash (flat_map (fun i => [i; i + 1; i + 2; i + 3]) (seqZ 97 14)) =
  [0x248d6a61; 0xd20638b8; 0xe5c02693; 0x0c3e6039; 0xa33ce459; 0x64ff2167; 0xf6ecedd4; 0x19db06c1].
Proof. vm_compute. reflexivity. Qed.

(** [inspectPinnedFirmware] of a non-null pointer; a read outside the image would be an error. *)
Definition inspectPinnedFirmware (data : list Z) : Error * FirmwareInfo :=
  let count := Z.of_nat (length data) in
  if negb (count =? firmwareFileBytes) || negb (exactHash data) then (FirmwareMismatch, no_info)
  else
    match parseGuCCss (Some data) with
    | Some (XeFirmware.None_, info) =>
        if negb (packed (fi_release info) =? 0x463500) || negb (packed (fi_submission info) =? 0x011a00) ||
           negb (rsaBytes info =? 384) || negb (ucodeOffset info =? 128) || negb (minimumBytes info =? count) ||
           negb (privateDataBytes info =? 8392704)
        then (FirmwareMismatch, info) else (None_, info)
    | Some (_, info) => (FirmwareMismatch, info)
    | None => (FirmwareMismatch, no_info)
    end.

Definition minimalAdsBytes (f : FirmwareInfo) : Z :=
  if (privateDataBytes f =? 0) || (32 * 1024 * 1024 <? privateDataBytes f) then 0
  else minimalAdsPrefix + Z.ldiff (wrap 32 (privateDataBytes f + 4095)) 4095.

(** * The loader *)

(** What the loader does to its surroundings, with the answers. *)
Inductive event :=
  | EvAdmitted (owner epoch : Z) (ok : bool)
  | EvQuiesced (owner epoch : Z) (ok : bool)
  | EvRetain (r : Region) (writable ok : bool)
  | EvRelease (r : Region) (ok : bool)
  | EvSynchronize (r : Region) (ok : bool)
  | EvPat (ok : bool) (v : Z)
  | EvPublished (r : Region) (ok : bool)
  | EvFullAds (ok : bool)
  | EvRead (reg v : Z) (ok : bool)
  | EvWrite (reg v : Z) (ok : bool)
  | EvNow (t : Z)
  | EvDelay (n : Z)
  | EvLoad (address : Z) (data : list Z)
  | EvFill (address count v : Z)
  | EvPut (address v : Z).

Section Loader.
Context {W : Type}.

(** Callbacks on a world [W]; a null function pointer is [None]. *)
Record Backend := {
  io : MmioAccess W;
  physicalRevision : Z;
  admitted : option (Z -> Z -> W -> bool * W);
  quiesced : option (Z -> Z -> W -> bool * W);
  retain : option (Region -> bool -> W -> bool * W);
  release : option (Region -> W -> bool * W);
  synchronize : option (Region -> W -> bool * W);
  readPat3 : option (W -> (bool * Z) * W);
  mappingPublished : option (Region -> Z -> W -> bool * W);
  fullAdsValid : option (Plan -> FirmwareInfo -> W -> bool * W);
}.

(** The memory that the CPU pointers point to: the byte and the 64-bit word at an address, and what
    a loop does that stores one byte at each of [count] addresses. *)
Record Memory := {
  load : Z -> W -> Z; load64 : Z -> W -> Z; store : forall address count v : Z, W -> W }.
Context (mem : Memory).

(** The check of the image: [inspectPinnedFirmware] in the program. *)
Context (inspect : list Z -> Error * FirmwareInfo).

Record Loader := {
  backend_ : Backend;
  plan_ : Plan;
  info_ : FirmwareInfo;
  state_ : State;
  lastStatus_ : Z;
  held_ : nat;
  touchedHardware_ : bool;
  attempted_ : bool;
}.
Definition new_Loader (backend : Backend) : Loader := {|
  backend_ := backend; plan_ := no_plan; info_ := no_info; state_ := Idle; lastStatus_ := 0; held_ := 0;
  touchedHardware_ := false; attempted_ := false |}.

Definition set_plan v (t : Loader) : Loader := {|
  backend_ := backend_ t; plan_ := v; info_ := info_ t; state_ := state_ t; lastStatus_ := lastStatus_ t;
  held_ := held_ t; touchedHardware_ := touchedHardware_ t; attempted_ := attempted_ t |}.
Definition set_info v (t : Loader) : Loader := {|
  backend_ := backend_ t; plan_ := plan_ t; info_ := v; state_ := state_ t; lastStatus_ := lastStatus_ t;
  held_ := held_ t; touchedHardware_ := touchedHardware_ t; attempted_ := attempted_ t |}.
Definition set_state v (t : Loader) : Loader := {|
  backend_ := backend_ t; plan_ := plan_ t; info_ := info_ t; state_ := v; lastStatus_ := lastStatus_ t;
  held_ := held_ t; touchedHardware_ := touchedHardware_ t; attempted_ := attempted_ t |}.
Definition set_lastStatus v (t : Loader) : Loader := {|
  backend_ := backend_ t; plan_ := plan_ t; info_ := info_ t; state_ := state_ t; lastStatus_ := v;
  held_ := held_ t; touchedHardware_ := touchedHardware_ t; attempted_ := attempted_ t |}.
Definition set_held v (t : Loader) : Loader := {|
  backend_ := backend_ t; plan_ := plan_ t; info_ := info_ t; state_ := state_ t; lastStatus_ := lastStatus_ t;
  held_ := v; touchedHardware_ := touchedHardware_ t; attempted_ := attempted_ t |}.
Definition set_touched (t : Loader) : Loader := {|
  backend_ := backend_ t; plan_ := plan_ t; info_ := info_ t; state_ := state_ t; lastStatus_ := lastStatus_ t;
  held_ := held_ t; touchedHardware_ := true; attempted_ := attempted_ t |}.
Definition set_attempted (t : Loader) : Loader := {|
  backend_ := backend_ t; plan_ := plan_ t; info_ := info_ t; state_ := state_ t; lastStatus_ := lastStatus_ t;
  held_ := held_ t; touchedHardware_ := touchedHardware_ t; attempted_ := true |}.

Record machine := { ld : Loader; world : W; trace : list event }.

Definition upd (f : Loader -> Loader) : ST machine unit :=
  modify (fun x => {| ld := f (ld x); world := world x; trace := trace x |}).
Definition act {A} (f : W -> A * W) (ev : A -> event) : ST machine A := fun x =>
  let '(r, w) := f (world x) in (r, {| ld := ld x; world := w; trace := ev r :: trace x |}).

(** A callback that answers [false] when it is null. *)
Definition ask (f : option (W -> bool * W)) (ev : bool -> event) : ST machine bool :=
  match f with Some f => act f ev | None => ret false end.

Definition call_read32 (b : Backend) (reg : Z) : ST machine (bool * Z) :=
  act (fun w => match read32 (io b) with
                | Some f => let '((ok, v), w) := f reg w in ((ok, wrap 32 v), w)
                | None => ((false, 0), w)
                end) (fun r => EvRead reg r.2 r.1).
Definition call_write32 (b : Backend) (reg v : Z) : ST machine bool :=
  act (fun w => match write32 (io b) with Some f => f reg v w | None => (false, w) end) (EvWrite reg v).
Definition call_nowMicros (b : Backend) : ST machine Z :=
  act (fun w => match nowMicros (io b) with Some f => let '(t, w) := f w in (wrap 64 t, w) | None => (0, w) end) EvNow.
Definition call_delayMicros (b : Backend) (n : Z) : ST machine unit :=
  act (fun w => (tt, match delayMicros (io b) with Some f => f n w | None => w end)) (fun _ => EvDelay n).
Definition call_quiesced : ST machine bool :=
  t <-- gets ld ;;
  ask ((fun f => f (p_owner (plan_ t)) (epoch (plan_ t))) <$> quiesced (backend_ t))
    (EvQuiesced (p_owner (plan_ t)) (epoch (plan_ t))).
Definition call_retain (r : Region) (writable : bool) : ST machine bool :=
  t <-- gets ld ;; ask ((fun f => f r writable) <$> retain (backend_ t)) (EvRetain r writable).
Definition call_release (r : Region) : ST machine bool :=
  t <-- gets ld ;; ask ((fun f => f r) <$> release (backend_ t)) (EvRelease r).
Definition call_synchronize (r : Region) : ST machine bool :=
  t <-- gets ld ;; ask ((fun f => f r) <$> synchronize (backend_ t)) (EvSynchronize r).
Definition call_readPat3 : ST machine (bool * Z) :=
  t <-- gets ld ;;
  act (fun w => match readPat3 (backend_ t) with Some f => f w | None => ((false, 0), w) end)
    (fun r => EvPat r.1 r.2).
Definition call_mappingPublished (r : Region) : ST machine bool :=
  t <-- gets ld ;; ask ((fun f => f r (epoch (plan_ t))) <$> mappingPublished (backend_ t)) (EvPublished r).
Definition call_fullAdsValid : ST machine bool :=
  t <-- gets ld ;; ask ((fun f => f (plan_ t) (info_ t)) <$> fullAdsValid (backend_ t)) EvFullAds.

(** [for (i = 0; i < count; ++i) p[i] = v;] *)
Definition fill (address count v : Z) : ST machine unit :=
  act (fun w => (tt, store mem address count v w)) (fun _ => EvFill address count v).
Definition put32 (address v : Z) : ST machine unit :=
  act (fun w => (tt, foldl (fun w i => store mem (address + i) 1 (wrap 8 (Z.shiftr v (8 * i))) w) w [0; 1; 2; 3]))
    (fun _ => EvPut address v).
Fixpoint load_from (w : W) (count : nat) (address : Z) : list Z :=
  match count with O => [] | S count => wrap 8 (load mem address w) :: load_from w count (address + 1) end.
Definition load_bytes (address count : Z) : ST machine (list Z) :=
  act (fun w => (load_from w (Z.to_nat count) address, w)) (EvLoad address).

(** ** The GGTT and the ADS *)

(** The [n] pages from number [i] on. *)
Fixpoint verify_pages (b : Backend) (r : Region) (i : Z) (n : nat) : ST machine Error :=
  match n with
  | O => ret None_
  | S n =>
      dma <-- gets (fun x => wrap 64 (load64 mem (dmaPages r + 8 * i) (world x))) ;;
      if negb (Z.land dma 4095 =? 0) || (Z.shiftl 1 46 <=? dma) then ret Mapping
      else
        let reg := wrap 32 (0x800000 + wrap 32 ((ggtt r / 4096 + i) * 8)) in
        hi <-- call_read32 b (wrap 32 (reg + 4)) ;;
        if negb hi.1 then ret Io else
        lo <-- call_read32 b reg ;;
        if negb lo.1 then ret Io else
        again <-- call_read32 b (wrap 32 (reg + 4)) ;;
        if negb again.1 then ret Io else
        let pte := Z.lor (Z.shiftl hi.2 32) lo.2 in
        if negb (hi.2 =? again.2) || negb (pte =? Z.lor (Z.lor dma 1) (Z.shiftl 3 52)) then ret Mapping
        else verify_pages b r (i + 1) n
  end.
Definition verifyGgtt (b : Backend) (r : Region) : ST machine Error :=
  if negb (regionValid r) || negb (is_some (read32 (io b))) then ret Invalid
  else verify_pages b r 0 (Z.to_nat (pageCount r)).

Definition populateMinimalAds (a : Region) (f : FirmwareInfo) (doorbell : Z) : ST machine Error :=
  let bytes := minimalAdsBytes f in
  if negb (regionValid a) || (bytes =? 0) || (bytes_ a <? bytes) || (doorbell =? U32_MAX) then ret Invalid
  else
    let policies := 4572 in
    let systemInfo := 4668 in
    fill (cpu a) (bytes_ a) 0 ;;;
    put32 (cpu a + 4100) (wrap 32 (ggtt a + policies)) ;;;
    put32 (cpu a + 4104) (wrap 32 (ggtt a + systemInfo)) ;;;
    put32 (cpu a + 4244) (wrap 32 (ggtt a + minimalAdsPrefix)) ;;;
    put32 (cpu a + policies + 64) 500000 ;;;
    put32 (cpu a + policies + 68) 1 ;;;
    put32 (cpu a + policies + 72) 15 ;;;
    fill (cpu a + systemInfo) (16 * 32) 32 ;;;
    put32 (cpu a + systemInfo + 512 + 64 + 2 * 4) (Z.land (Z.shiftr doorbell 16) 255 + 1) ;;;
    ret None_.

(** ** Registers *)

Definition allowed : ST machine bool :=
  t <-- gets ld ;;
  ask ((fun f => f (p_owner (plan_ t)) (epoch (plan_ t))) <$> admitted (backend_ t))
    (EvAdmitted (p_owner (plan_ t)) (epoch (plan_ t))).

(** The success and what the out parameter holds afterwards, which was [old]. *)
Definition read (reg old : Z) : ST machine (bool * Z) :=
  a <-- allowed ;;
  t <-- gets ld ;;
  if negb a || negb (is_some (read32 (io (backend_ t)))) then ret (false, old)
  else
    r <-- call_read32 (backend_ t) reg ;;
    ret (r.1 && negb (r.2 =? U32_MAX), r.2).

(** [read(statusReg, lastStatus_)]. *)
Definition read_status : ST machine bool :=
  t <-- gets ld ;;
  r <-- read statusReg (lastStatus_ t) ;;
  upd (set_lastStatus r.2) ;;;
  ret r.1.

Definition write (reg value : Z) : ST machine bool :=
  a <-- allowed ;;
  t <-- gets ld ;;
  if negb a || negb (is_some (write32 (io (backend_ t)))) then ret false
  else
    upd set_touched ;;;
    call_write32 (backend_ t) reg value.

(** [attempts] more follow this one. *)
Fixpoint wait_loop (attempts : nat) (reg mask expct timeout interval start previous : Z) : ST machine Error :=
  t <-- gets ld ;;
  r <-- read reg 0 ;;
  if negb r.1 then ret Io
  else
    now <-- call_nowMicros (backend_ t) ;;
    if now <? previous then ret Clock
    else if Z.land r.2 mask =? expct then ret None_
    else if timeout <=? now -64 start then ret Timeout
    else
      match attempts with
      | O => ret Timeout
      | S attempts =>
          call_delayMicros (backend_ t) interval ;;;
          wait_loop attempts reg mask expct timeout interval start now
      end.
Definition wait (reg mask expct timeout interval : Z) : ST machine Error :=
  t <-- gets ld ;;
  start <-- call_nowMicros (backend_ t) ;;
  wait_loop (Z.to_nat (timeout / interval)) reg mask expct timeout interval start start.

Definition reset : ST machine Error :=
  q <-- call_quiesced ;;
  if negb q then ret Busy else
  ok <-- write 0x941c 8 ;;
  if negb ok then ret Io else
  error <-- wait 0x941c 8 0 5000 50 ;;
  if decide (error <> None_) then ret error else
  ok <-- read_status ;;
  t <-- gets ld ;;
  if negb ok || negb (test (lastStatus_ t) 1) then ret Boot
  else wait dmaControl 1 0 100000 1000.

Definition wopcm : ST machine Error :=
  t <-- gets ld ;;
  b <-- read 0xc340 0 ;;
  if negb b.1 then ret Io else
  s <-- read 0xc050 0 ;;
  if negb s.1 then ret Io else
  let baseReg := b.2 in
  let sizeReg := s.2 in
  let baseLocked := test baseReg 1 in
  let sizeLocked := test sizeReg 1 in
  if negb (Bool.eqb baseLocked sizeLocked) then ret Wopcm else
  let total := if baseLocked then 8 * 1024 * 1024 else 4 * 1024 * 1024 in
  let usable := total - 36864 in
  let minimumBase := hucUploadBytes (plan_ t) + 16384 in
  if usable <=? minimumBase then ret Wopcm else
  let base := if baseLocked then Z.land baseReg 0xffffc000 else Z.ldiff (minimumBase + 16383) 16383 in
  let size := if baseLocked then Z.land sizeReg 0xfffff000
              else Z.land (wrap 32 (usable - base)) 0xfffff000 in
  if (base <? minimumBase) || (usable <=? base) || (usable - base <? size) ||
     (size <? rsaOffset (info_ t) +64 24576) then ret Wopcm else
  if existsb (fun i => ggtt (at_ (plan_ t) i) <? total) [0%nat; 1%nat; 2%nat] then ret Mapping else
  let agent := if hucUploadBytes (plan_ t) =? 0 then 0 else 2 in
  if baseLocked then if negb (Z.land baseReg 2 =? agent) then ret Wopcm else ret None_
  else
    ok <-- write 0xc050 size ;;
    if negb ok then ret Io else
    s <-- read 0xc050 sizeReg ;;
    if negb s.1 then ret Io else
    if negb (Z.land s.2 0xfffff001 =? Z.lor size 1) then ret Wopcm else
    ok <-- write 0xc340 (Z.lor base agent) ;;
    if negb ok then ret Io else
    b <-- read 0xc340 baseReg ;;
    if negb b.1 then ret Io else
    if negb (Z.land b.2 0xffffc003 =? Z.lor (Z.lor base agent) 1) then ret Wopcm
    else ret None_.

Definition refused (status : Z) : bool :=
  let boot := Z.land (Z.shiftr status 1) 127 in
  (Z.land status 0xc0000000 =? 0x40000000) ||
  existsb (Z.eqb boot) [0x13; 0x2b; 0x50; 0x73; 0x74; 0x75; 0x77; 0x79; 0x7a; 0x7e].
Definition crashed (status : Z) : bool :=
  let uk := Z.land (Z.shiftr status 8) 255 in
  existsb (Z.eqb uk) [2; 3; 4; 7; 8; 0x60; 0x70; 0x71; 0x73; 0x74; 0x75; 0x76].

Fixpoint authenticate_loop (attempts : nat) (start previous : Z) : ST machine Error :=
  ok <-- read_status ;;
  t <-- gets ld ;;
  if negb ok then ret Io
  else
    now <-- call_nowMicros (backend_ t) ;;
    if now <? previous then ret Clock
    else if XeGuC.statusAuthenticatedAndReady (lastStatus_ t) then ret None_
    else if refused (lastStatus_ t) then ret Authentication
    else if crashed (lastStatus_ t) then ret Boot
    else if 3000000 <=? now -64 start then ret Timeout
    else
      match attempts with
      | O => ret Timeout
      | S attempts => call_delayMicros (backend_ t) 10000 ;;; authenticate_loop attempts start now
      end.
Definition authenticate : ST machine Error :=
  t <-- gets ld ;;
  start <-- call_nowMicros (backend_ t) ;;
  authenticate_loop 300 start start.

(** ** Regions *)

(** [while (held_)], with the value of [held_]. *)
Fixpoint release_loop (held : nat) : ST machine Error :=
  match held with
  | O => ret None_
  | S held =>
      t <-- gets ld ;;
      ok <-- call_release (at_ (plan_ t) held) ;;
      if negb ok then ret Quarantined
      else upd (set_held held) ;;; release_loop held
  end.
Definition releaseRegions : ST machine Error := t <-- gets ld ;; release_loop (held_ t).

Definition fail (error : Error) : ST machine Error :=
  upd (set_state Failed) ;;;
  t <-- gets ld ;;
  if touchedHardware_ t then ret error
  else
    r <-- releaseRegions ;;
    if decide (r <> None_) then ret Quarantined else ret error.

(** [if (!c) return fail(e);] and [error = c; if (error != None) return fail(error);] *)
Definition need (c : ST machine bool) (e : Error) (k : ST machine Error) : ST machine Error :=
  ok <-- c ;; if negb ok then fail e else k.
Definition need_none (c : ST machine Error) (k : ST machine Error) : ST machine Error :=
  error <-- c ;; if decide (error <> None_) then fail error else k.

Fixpoint write_all (l : list (Z * Z)) (k : ST machine Error) : ST machine Error :=
  match l with [] => k | (reg, v) :: l => need (write reg v) Io (write_all l k) end.

Fixpoint retain_all (l : list nat) (k : ST machine Error) : ST machine Error :=
  match l with
  | [] => k
  | i :: l =>
      t <-- gets ld ;;
      need (call_retain (at_ (plan_ t) i) (negb (i =? 0)%nat)) Mapping
        (upd (fun t => set_held (S (held_ t)) t) ;;; retain_all l k)
  end.
Fixpoint verify_all (l : list nat) (k : ST machine Error) : ST machine Error :=
  match l with
  | [] => k
  | i :: l =>
      t <-- gets ld ;;
      need (call_mappingPublished (at_ (plan_ t) i)) Mapping
        (need_none (verifyGgtt (backend_ t) (at_ (plan_ t) i)) (verify_all l k))
  end.
Fixpoint synchronize_all (l : list nat) (k : ST machine Error) : ST machine Error :=
  match l with
  | [] => k
  | i :: l => t <-- gets ld ;; need (call_synchronize (at_ (plan_ t) i)) Mapping (synchronize_all l k)
  end.

(** ** Starting *)

Definition regions : list nat := [0%nat; 1%nat; 2%nat].

(** The regions of the plan: each valid, of the plan's owner, and apart from those before it. *)
Definition regions_valid (p : Plan) : bool :=
  forallb (fun i =>
      let r := at_ p i in
      regionValid r && (owner r =? p_owner p) &&
      forallb (fun j =>
          let q := at_ p j in
          negb (overlap (ggtt r) (bytes_ r) (ggtt q) (bytes_ q)) &&
          negb (overlap (cpu r) (bytes_ r) (cpu q) (bytes_ q))) (seq 0 i))
    regions.

Definition callbacks (b : Backend) : bool :=
  is_some (read32 (io b)) && is_some (write32 (io b)) && is_some (nowMicros (io b)) &&
  is_some (delayMicros (io b)) && is_some (retain b) && is_some (release b) &&
  is_some (synchronize b) && is_some (readPat3 b) && is_some (mappingPublished b).

(** The parameters passed in scratch registers. *)
Definition params (p : Plan) : list Z :=
  [Z.lor (wrap 32 (ggtt (log p))) 0x3f7;
   (if decide (profile p = Some Submission)
    then Z.lor (Z.shiftl 1 22) (if ccsPresent p then Z.shiftl 1 11 else 0) else 0);
   (if decide (profile p = Some Submission) then Z.lor (Z.shiftl 1 4) (Z.shiftl 1 24) else 0);
   Z.shiftl 1 6;
   wrap 32 (Z.shiftl (Z.shiftr (ggtt (ads p)) 12) 1);
   Z.lor (Z.shiftl 0x7d41 16) (pciRevision p)] ++ replicate 8 0.

Definition param_writes (p : Plan) : list (Z * Z) :=
  (0xc180, 0) :: imap (fun i v => (0xc184 + Z.of_nat i * 4, v)) (params p) ++ [(0xc064, 0x8602); (0x13816c, 1)].

Definition dma_writes (p : Plan) (info : FirmwareInfo) : list (Z * Z) :=
  [(0xc200, wrap 32 (ggtt (firmware p) + rsaOffset info)); (0xc300, wrap 32 (ggtt (firmware p)));
   (0xc304, Z.shiftl 8 16); (0xc308, 0x2000); (0xc30c, Z.shiftl 7 16); (0xc310, wrap 32 (rsaOffset info))].

(** From the start of the DMA on. *)
Definition boot : ST machine Error :=
  upd (set_state Dma) ;;;
  need (write dmaControl 0x00110011) Io
    (error <-- wait dmaControl 1 0 100000 1000 ;;
     need (write dmaControl 0x00100000) Io
       (if decide (error <> None_) then fail error
        else
          upd (set_state Authenticating) ;;;
          need_none authenticate
            (upd (set_state Running) ;;; ret None_))).

(** From the reset on. *)
Definition program : ST machine Error :=
  upd (set_state Starting) ;;;
  need_none reset
    (need_none wopcm
      (d <-- read 0xd08 0 ;;
       if negb d.1 then fail Io else
       t <-- gets ld ;;
       need_none (if decide (profile (plan_ t) = Some HardwareConfig)
                  then populateMinimalAds (ads (plan_ t)) (info_ t) d.2 else ret None_)
         (fill (cpu (log (plan_ t))) (bytes_ (log (plan_ t))) 0 ;;;
          synchronize_all regions
            (write_all (param_writes (plan_ t))
               (r <-- read 0xa168 0 ;;
                if negb r.1 then fail Io else
                write_all ((0xa168, Z.ldiff r.2 (Z.shiftl 1 9)) :: dma_writes (plan_ t) (info_ t)) boot))))).

(** From the first reference on. *)
Definition attempt : ST machine Error :=
  upd set_attempted ;;;
  retain_all regions
    (upd (set_state Retained) ;;;
     t <-- gets ld ;;
     image <-- load_bytes (cpu (firmware (plan_ t))) firmwareFileBytes ;;
     let '(error, info) := inspect image in
     upd (set_info info) ;;;
     if decide (error <> None_) then fail error else
     if bytes_ (ads (plan_ t)) <? minimalAdsBytes info then fail Invalid else
     pat <-- call_readPat3 ;;
     if negb pat.1 || negb (pat.2 =? 2) then fail Mapping else
     verify_all regions
       (if decide (profile (plan_ t) = Some Submission)
        then need call_fullAdsValid Unavailable program else program)).

Definition start (input : Plan) : ST machine Error :=
  t <-- gets ld ;;
  if attempted_ t then ret Busy
  else
    upd (set_plan input) ;;;
    if (p_owner input =? 0) || (epoch input =? 0) || negb (pciRevision input =? physicalRevision (backend_ t)) ||
       negb (is_some (profile input)) then ret Invalid
    else if negb (regions_valid input) then ret Invalid
    else if (bytes_ (firmware input) <? firmwareFileBytes) || (bytes_ (log input) <? logBytes) then ret Invalid
    else if negb (callbacks (backend_ t)) then ret Unavailable
    else
      a <-- allowed ;;
      if negb a then ret Unavailable else
      q <-- call_quiesced ;;
      if negb q then ret Busy else attempt.

Definition resetAndRelease : ST machine Error :=
  t <-- gets ld ;;
  if negb (attempted_ t) then ret Invalid
  else if (held_ t =? 0)%nat then ret None_
  else
    a <-- allowed ;;
    if negb a then ret Unavailable
    else
      let finish := upd (set_state Failed) ;;; releaseRegions in
      if touchedHardware_ t then
        error <-- reset ;;
        if decide (error <> None_) then fail error else finish
      else finish.

Definition running (o e : Z) : ST machine bool :=
  t <-- gets ld ;;
  if negb (bool_decide (state_ t = Running)) || negb (o =? p_owner (plan_ t)) || negb (e =? epoch (plan_ t))
  then ret false
  else
    r <-- read statusReg 0 ;;
    ret (r.1 && XeGuC.statusAuthenticatedAndReady r.2).

Definition submissionProfile (t : Loader) : bool :=
  bool_decide (state_ t = Running) && bool_decide (profile (plan_ t) = Some Submission).
End Loader.

Arguments Backend W : clear implicits.
Arguments Memory W : clear implicits.
Arguments Loader W : clear implicits.
Arguments machine W : clear implicits.
End XeGuCFirmware.
