(* ===== verification/XeGuCFirmwareThms.v ===== *)
(** Theorems of the GuC firmware loader: over every sequence of calls, against any backend, any
    memory and any check of the image. *)
From stdpp Require Import base numbers list sets.
From S2P Require Import Prelude XeFirmware.
From S2P Require Import StateWp.
From S2P Require Import GucTransport.
From S2P Require Import XeForceWake.
From S2P Require Import XeGuCFirmware.
Import XeForceWake (MmioAccess, read32, write32, nowMicros, delayMicros, is_some).
Import XeGuCFirmware.

(** * The device, as the accesses show it

    [Stopped]: the reset was written and read back as complete, the GuC was then seen in reset and
    after that the DMA engine idle, and nothing was written since.  [Configured]: registers were
    written since, but neither the reset nor the DMA control. *)
Inductive device := Untouched | Live | Resetting | Acked | InReset | Stopped | Configured.

#[export] Instance device_eq_dec : EqDecision device.
Proof. solve_decision. Defined.

Definition resetReg : Z := 0x941c.

Definition device_step (ev : event) (d : device) : device :=
  match ev with
  | EvWrite reg v ok =>
      if (reg =? resetReg) && (v =? 8) && ok then Resetting
      else if (reg =? resetReg) || (reg =? dmaControl) then Live
      else match d with Stopped | Configured => Configured | _ => Live end
  | EvRead reg v true =>
      if v =? U32_MAX then d
      else
        match d with
        | Resetting => if (reg =? resetReg) && (Z.land v 8 =? 0) then Acked else d
        | Acked => if (reg =? statusReg) && test v 1 then InReset else d
        | InReset => if (reg =? dmaControl) && (Z.land v 1 =? 0) then Stopped else d
        | d => d
        end
  | _ => d
  end.
Definition device_of (tr : list event) : device := foldr device_step Untouched tr.

(** The number of regions retained and not released. *)
Definition held_step (ev : event) (n : nat) : nat :=
  match ev with
  | EvRetain _ _ true => S n
  | EvRelease _ true => pred n
  | _ => n
  end.
Definition held_of (tr : list event) : nat := foldr held_step 0%nat tr.

(** The accesses that make up a boot, oldest first: the image read from memory, the regions made
    coherent, the register writes, and the successful reads of the registers that say whether the
    WOPCM window is locked and which interrupts are masked. *)
Inductive access :=
  | Load (address : Z) (data : list Z)
  | Sync (r : Region)
  | Rd (reg v : Z)
  | Wr (reg v : Z).

Definition setting (reg : Z) : bool := (reg =? 0xc340) || (reg =? 0xc050) || (reg =? 0xa168).

Definition access_step (ev : event) : list access :=
  match ev with
  | EvLoad address data => [Load address data]
  | EvSynchronize r true => [Sync r]
  | EvRead reg v true => if setting reg then [Rd reg v] else []
  | EvWrite reg v _ => [Wr reg v]
  | _ => []
  end.
Fixpoint accesses_of (tr : list event) : list access :=
  match tr with [] => [] | ev :: tr => accesses_of tr ++ access_step ev end.

#[global] Arguments device_of : simpl never.
#[global] Arguments held_of : simpl never.

Lemma device_cons ev tr : device_of (ev :: tr) = device_step ev (device_of tr).
Proof. done. Qed.
Lemma held_cons ev tr : held_of (ev :: tr) = held_step ev (held_of tr).
Proof. done. Qed.

(** [n] bytes at [address] belong to the ADS or the log of the plan. *)
Definition in_shared (p : Plan) (address n : Z) : Prop :=
  exists r, (r = ads p \/ r = log p) /\ cpu r <= address /\ address + n <= cpu r + bytes_ r.

(** The GuC is in reset since the device was stopped. *)
Definition halted (d : device) : Prop := d = Stopped \/ d = Configured.

(** The protocol.  Every register write directly follows an admission of the plan's owner and
    epoch.  Regions are retained in order before the hardware is touched, and released in reverse
    order, only while the hardware is untouched or stopped.  The image is read while the regions
    are held and the hardware is untouched.  The CPU writes to the shared regions,
    and only to those, while all three are held and the GuC is stopped; the DMA is started only
    then, too. *)
Definition legal (p : Plan) (ev : event) (before : list event) : Prop :=
  match ev with
  | EvWrite reg v _ =>
      head before = Some (EvAdmitted (p_owner p) (epoch p) true) /\
      (reg = dmaControl -> v = 0x00110011 -> halted (device_of before) /\ held_of before = 3%nat)
  | EvRetain r writable _ =>
      (held_of before < 3)%nat /\ device_of before = Untouched /\
      r = at_ p (held_of before) /\ writable = negb (held_of before =? 0)%nat
  | EvRelease r _ =>
      (0 < held_of before)%nat /\ (device_of before = Untouched \/ device_of before = Stopped) /\
      r = at_ p (pred (held_of before))
  | EvLoad address _ =>
      device_of before = Untouched /\ held_of before = 3%nat /\ address = cpu (firmware p)
  | EvFill address n _ =>
      halted (device_of before) /\ held_of before = 3%nat /\
      in_shared p address n
  | EvPut address _ =>
      halted (device_of before) /\ held_of before = 3%nat /\
      in_shared p address 4
  | _ => True
  end.
Fixpoint legal_trace (p : Plan) (tr : list event) : Prop :=
  match tr with [] => True | ev :: tr => legal p ev tr /\ legal_trace p tr end.

(** Events that change nothing outside and are no part of a boot. *)
Definition quiet (ev : event) : Prop :=
  match ev with
  | EvRetain _ _ _ | EvRelease _ _ | EvWrite _ _ _ | EvLoad _ _ | EvFill _ _ _ | EvPut _ _ => False
  | EvSynchronize _ ok => ok = false
  | EvRead reg _ ok => ok && setting reg = false
  | _ => True
  end.

Lemma quiet_legal p tr tr' : Forall quiet tr -> legal_trace p tr' -> legal_trace p (tr ++ tr').
Proof. intros H Ht. induction H as [|ev tr He _ IH]; [done|]. cbn. split; [by destruct ev|done]. Qed.

Lemma quiet_held tr tr' : Forall quiet tr -> held_of (tr ++ tr') = held_of tr'.
Proof. intros H. induction H as [|ev tr He _ IH]; [done|]. cbn [app]. rewrite held_cons, IH. by destruct ev. Qed.

Lemma quiet_writes tr tr' : Forall quiet tr -> accesses_of (tr ++ tr') = accesses_of tr'.
Proof. 
  intros H. induction H as [|ev tr He _ IH]; [done|]. cbn. rewrite IH.
  destruct ev as [| | | |r [|]| | | |reg v [|]| | | | | |]; cbn in He |- *; rewrite ?He, ?app_nil_r; done.
Qed.

(** Reads move the device only in the course of a reset. *)
Definition at_rest (d : device) : Prop := d = Untouched \/ d = Live \/ d = Stopped \/ d = Configured.

Lemma quiet_device tr tr' :
  Forall quiet tr -> at_rest (device_of tr') -> device_of (tr ++ tr') = device_of tr'.
Proof.
  intros H Hr. induction H as [|ev tr He _ IH]; [done|]. cbn [app]. rewrite device_cons, IH.
  destruct ev as [| | | | | | | |reg v [|]| | | | | |]; try done. cbn. destruct (v =? U32_MAX); [done|].
  by destruct Hr as [->|[->|[->| ->]]].
Qed.

Section Thms.
Context {W : Type} (mem : Memory W) (inspect : list Z -> Error * FirmwareInfo).
Implicit Types (x : machine W) (p : Plan).

(** * Steps *)

(** The loader but for the last status. *)
Definition same_loader (t t' : Loader W) : Prop := exists s, t' = set_lastStatus s t.

Lemma same_refl t : same_loader t t.
Proof. exists (lastStatus_ t). by destruct t. Qed.

Lemma same_trans t1 t2 t3 : same_loader t1 t2 -> same_loader t2 t3 -> same_loader t1 t3.
Proof. intros [s ->] [s' ->]. exists s'. done. Qed.

(** Only quiet events happen. *)
Definition quietly x x' : Prop :=
  same_loader (ld x) (ld x') /\ exists tr, trace x' = tr ++ trace x /\ Forall quiet tr.

Lemma quietly_refl x : quietly x x.
Proof. split; [apply same_refl|]. by exists []. Qed.

Lemma quietly_trans x1 x2 x3 : quietly x1 x2 -> quietly x2 x3 -> quietly x1 x3.
Proof.
  intros [S1 (tr1 & E1 & H1)] [S2 (tr2 & E2 & H2)]. split; [by eapply same_trans|].
  exists (tr2 ++ tr1). rewrite E2, E1. split; [by rewrite app_assoc|by apply Forall_app].
Qed.

Definition after x w ev : machine W := {| ld := ld x; world := w; trace := ev :: trace x |}.

Lemma fw_act {A} (f : W -> A * W) ev x (Q : A -> machine W -> Prop) :
  (forall r w, Q r (after x w (ev r))) -> wp (act f ev) Q x.
Proof. intros H. unfold wp, act. destruct (f (world x)) as [r w]. apply H. Qed.

Lemma fw_ask f ev x (Q : bool -> machine W -> Prop) :
  (forall r w, Q r (after x w (ev r))) -> Q false x -> wp (ask f ev) Q x.
Proof. intros H H0. unfold ask. destruct f; [by apply fw_act|by apply wp_ret]. Qed.

Lemma quietly_after x w ev : quiet ev -> quietly x (after x w ev).
Proof. intros H. split; [apply same_refl|]. exists [ev]. split; [done|by constructor]. Qed.

Lemma quietly_status x s :
  quietly x {| ld := set_lastStatus s (ld x); world := world x; trace := trace x |}.
Proof. split; [by exists s|]. by exists []. Qed.

Hint Resolve quietly_refl quietly_after quietly_status : core.
Hint Extern 4 (quietly _ _) => eapply quietly_trans; [eassumption|] : core.

(** * Reading and waiting *)

Lemma allowed_wp x (Q : bool -> machine W -> Prop) :
  (forall w, Q true (after x w (EvAdmitted (p_owner (plan_ (ld x))) (epoch (plan_ (ld x))) true))) ->
  (forall w, Q false (after x w (EvAdmitted (p_owner (plan_ (ld x))) (epoch (plan_ (ld x))) false))) ->
  Q false x -> wp allowed Q x.
Proof. intros Ht Hf Hn. unfold allowed. do 2 wp_step. apply fw_ask; [|done]. intros [|] w; auto. Qed.

(** What an unsuccessful poll of [reg] for [good] leaves in the trace. *)
Definition polled (reg : Z) (good : Z -> bool) (ev : event) : Prop :=
  match ev with
  | EvRead r v ok => r = reg /\ ok && negb (v =? U32_MAX) && good v = false
  | EvNow _ | EvDelay _ | EvAdmitted _ _ _ => True
  | _ => False
  end.

Lemma polled_quiet reg good tr : Forall (polled reg good) tr -> setting reg = false -> Forall quiet tr.
Proof.
  intros H Hs. eapply Forall_impl; [exact H|]. intros []; try done. cbn. intros [-> _]. by rewrite Hs, andb_false_r.
Qed.

(** A poll that ends well: [reg] read as a good value after unsuccessful polls. *)
Definition seen (reg : Z) (good : Z -> bool) (tr : list event) (v : Z) : Prop :=
  v <> U32_MAX /\ good v = true /\ exists rest, tr = EvRead reg v true :: rest /\ Forall (polled reg good) rest.

Lemma seen_quiet reg good tr v : seen reg good tr v -> setting reg = false -> Forall quiet tr.
Proof. intros (_ & _ & rest & -> & Hr) Hs. constructor; [done|by eapply polled_quiet]. Qed.

(** A read, as one poll of whatever is expected of the value. *)
Lemma read_wp reg old good x :
  wp (read reg old) (fun r x' => ld x' = ld x /\ exists tr, trace x' = tr ++ trace x /\
    if r.1 && good r.2 then seen reg good tr r.2 else Forall (polled reg good) tr) x.
Proof.
  unfold read. wp_step. apply allowed_wp; [intros w|intros w|]; do 3 wp_step.
  all: try (wp_step; split; [done|]; exists []; split; [done|]; by constructor).
  all: try (wp_step; split; [done|]; eexists [_]; split; [done|]; by constructor).
  all: try done.
  - wp_step. apply fw_act. intros [ok v] w'. wp_step. cbn [fst snd]. split; [done|].
    eexists [_; _]. split; [done|]. destruct (ok && negb (v =? U32_MAX) && good v) eqn:E.
    + apply andb_true_iff in E as [E Hg]. apply andb_true_iff in E as [-> Hm].
      apply negb_true_iff, Z.eqb_neq in Hm. split_and!; [done|done|]. eexists. split; [done|]. by repeat constructor.
    + by repeat constructor.
Qed.

Lemma read_status_wp good x :
  wp read_status (fun ok x' => exists v, ld x' = set_lastStatus v (ld x) /\ exists tr, trace x' = tr ++ trace x /\
    if ok && good v then seen statusReg good tr v else Forall (polled statusReg good) tr) x.
Proof.
  unfold read_status. do 3 wp_step. eapply wp_mono; [by apply (read_wp _ _ good)|].
  intros [ok v] x' (Hl & tr & Ht & H). wp_step. apply wp_modify. wp_step. exists v. cbn. rewrite Hl. split; [done|]. by exists tr.
Qed.

(** How waiting ends: well, right after a good value was read, or having changed nothing. *)
Definition waits (reg : Z) (good : Z -> bool) x (r : Error) x' : Prop :=
  ld x' = ld x /\ exists tr, trace x' = tr ++ trace x /\
  if decide (r = None_) then exists t v tr', tr = EvNow t :: tr' /\ seen reg good tr' v else Forall quiet tr.

Lemma waits_fail reg good x r x' tr :
  r <> None_ -> ld x' = ld x -> trace x' = tr ++ trace x -> Forall quiet tr -> waits reg good x r x'.
Proof. intros Hr Hl Ht Hq. split; [done|]. exists tr. by rewrite decide_False. Qed.

Lemma waits_more reg good x x1 r x' tr :
  setting reg = false -> ld x1 = ld x -> trace x1 = tr ++ trace x -> Forall (polled reg good) tr -> waits reg good x1 r x' -> waits reg good x r x'.
Proof.
  intros Hset Hl Ht Hp (Hl' & tr' & Ht' & H). split; [congruence|]. exists (tr' ++ tr). rewrite Ht', Ht.
  split; [by rewrite app_assoc|]. destruct (decide (r = None_)).
  - destruct H as (t & v & tr'' & -> & Hm & Hg & rest & -> & Hr). exists t, v, (EvRead reg v true :: rest ++ tr).
    split; [done|]. split_and!; [done..|]. eexists. split; [done|]. by apply Forall_app.
  - apply Forall_app. split; [done|by eapply polled_quiet].
Qed.

Lemma wait_loop_wp n reg mask expct timeout interval start previous x :
  setting reg = false -> wp (wait_loop n reg mask expct timeout interval start previous)
    (waits reg (fun v => Z.land v mask =? expct) x) x.
Proof.
  intros Hset. set (good := fun v => Z.land v mask =? expct). revert previous x.
  induction n as [|n IH]; intros previous x; cbn [wait_loop]; do 3 wp_step;
    (eapply wp_mono; [by apply (read_wp _ _ good)|]); intros [ok v] x1 (Hl1 & tr1 & Ht1 & H1); cbn [fst snd] in *.
  all: assert (Hq1 : Forall quiet tr1) by
    (destruct (ok && good v); [by eapply seen_quiet|by eapply polled_quiet]).
  all: wp_step; [wp_step; by eapply waits_fail|]; apply negb_false_iff in Hcond as ->.
  all: wp_step; apply fw_act; intros now w.
  all: assert (Hq2 : Forall quiet (EvNow now :: tr1)) by by constructor.
  all: wp_step; [wp_step; eapply (waits_fail _ _ _ _ _ (EvNow now :: tr1)); [done|done|cbn; by rewrite Ht1|done]|].
  all: wp_step.
  1,3: wp_step; fold (good v) in Hcond0; rewrite Hcond0 in H1; split; [done|]; exists (EvNow now :: tr1);
    (split; [cbn; by rewrite Ht1|]); rewrite decide_True by done; by exists now, v, tr1.
  all: fold (good v) in Hcond0; rewrite Hcond0 in H1.
  all: wp_step; [wp_step; eapply (waits_fail _ _ _ _ _ (EvNow now :: tr1)); [done|done|cbn; by rewrite Ht1|done]|].
  - wp_step. eapply (waits_fail _ _ _ _ _ (EvNow now :: tr1)); [done|done|cbn; by rewrite Ht1|done].
  - wp_step. apply fw_act. intros _ w'. eapply wp_mono; [apply IH|]. intros r x' Hw.
    eapply (waits_more _ _ _ _ _ _ (EvDelay interval :: EvNow now :: tr1)); [..|done]; [done|done|cbn; by rewrite Ht1|].
    by repeat constructor.
Qed.

Lemma wait_wp reg mask expct timeout interval x :
  setting reg = false -> wp (wait reg mask expct timeout interval) (waits reg (fun v => Z.land v mask =? expct) x) x.
Proof.
  intros Hset. unfold wait. do 3 wp_step. apply fw_act. intros t w. eapply wp_mono; [by apply wait_loop_wp|]. intros r x' Hw.
  eapply (waits_more _ _ _ _ _ _ [EvNow t]); [..|done]; [done|done|done|by repeat constructor].
Qed.

(** * The invariant of an attempt *)

Record Inv p x : Prop := {
  i_plan : plan_ (ld x) = p;
  i_attempted : attempted_ (ld x) = true;
  i_callbacks : callbacks (backend_ (ld x)) = true;
  i_held : held_ (ld x) = held_of (trace x);
  i_three : (held_of (trace x) <= 3)%nat;
  i_touched : touchedHardware_ (ld x) = false -> device_of (trace x) = Untouched;
  i_legal : legal_trace p (trace x);
}.

(** Steps that leave the references and the phase alone. *)
Record kept (t t' : Loader W) : Prop := {
  k_backend : backend_ t' = backend_ t;
  k_plan : plan_ t' = plan_ t;
  k_info : info_ t' = info_ t;
  k_state : state_ t' = state_ t;
  k_held : held_ t' = held_ t;
  k_attempted : attempted_ t' = attempted_ t;
  k_touched : touchedHardware_ t = true -> touchedHardware_ t' = true;
}.

Lemma loader_kept_refl t : kept t t.
Proof. done. Qed.
Lemma kept_trans t1 t2 t3 : kept t1 t2 -> kept t2 t3 -> kept t1 t3.
Proof. intros [] []. split; try congruence. auto. Qed.
Lemma kept_eq t t' : t' = t -> kept t t'.
Proof. by intros ->. Qed.
Lemma kept_same t t' : same_loader t t' -> kept t t'.
Proof. by intros [s ->]. Qed.
Lemma kept_touched t : kept t (set_touched t).
Proof. by split. Qed.

Lemma Inv_quietly p x x' : Inv p x -> quietly x x' -> Inv p x'.
Proof.
  intros [] [[s Hs] (tr & Ht & Hq)].
  assert (Hh : held_of (trace x') = held_of (trace x)) by (rewrite Ht; by apply quiet_held).
  split; rewrite ?Hs; cbn; rewrite ?Hh; try done.
  - intros Hu. rewrite Ht, quiet_device; auto. left. auto.
  - rewrite Ht. by apply quiet_legal.
Qed.

Lemma Inv_waits p x reg good r x' :
  Inv p x -> waits reg good x r x' -> setting reg = false -> Inv p x' /\ kept (ld x) (ld x').
Proof.
  intros Hi (Hl & tr & Ht & H) Hset. split; [|by apply kept_eq]. eapply Inv_quietly; [done|]. split; [rewrite Hl; apply same_refl|].
  exists tr. split; [done|]. destruct (decide (r = None_)); [|done].
  destruct H as (t & v & tr' & -> & Hs). constructor; [done|by eapply seen_quiet].
Qed.

Lemma quietly_loader x x' tr : ld x' = ld x -> trace x' = tr ++ trace x -> Forall quiet tr -> quietly x x'.
Proof. intros Hl Ht Hq. split; [rewrite Hl; apply same_refl|]. by exists tr. Qed.

(** A write that was made, or was refused before it reached the device. *)
Definition written reg v x (ok : bool) x' : Prop :=
  (ld x' = set_touched (ld x) /\
   trace x' = EvWrite reg v ok :: EvAdmitted (p_owner (plan_ (ld x))) (epoch (plan_ (ld x))) true :: trace x) \/
  (ok = false /\ ld x' = ld x /\ quietly x x').

Lemma write_wp p reg v x :
  Inv p x ->
  (reg = dmaControl -> v = 0x00110011 -> halted (device_of (trace x)) /\ held_of (trace x) = 3%nat) ->
  wp (write reg v) (fun ok x' => Inv p x' /\ kept (ld x) (ld x') /\ written reg v x ok x') x.
Proof.
  intros Hi Hd. unfold write. wp_step. apply allowed_wp; [intros w|intros w|]; do 3 wp_step.
  all: try done.
  all: try (wp_step; assert (Hq : forall y, quietly x y -> ld y = ld x ->
      Inv p y /\ kept (ld x) (ld y) /\ written reg v x false y) by
      (intros y Hy Hl; split_and!; [by eapply Inv_quietly|by apply kept_eq|by right]);
    apply Hq; [auto; by apply quietly_after|done]).
  wp_step. apply wp_modify. apply fw_act. intros ok w'. cbn. split_and!; [|apply kept_touched|by left].
  destruct Hi as [Hp]. split; cbn; rewrite ?held_cons; try done. rewrite Hp. repeat split; try done; by apply Hd.
Qed.

(** A write that succeeds was made. *)
Lemma write_made reg v x x' :
  written reg v x true x' ->
  touchedHardware_ (ld x') = true /\
  device_of (trace x') = device_step (EvWrite reg v true) (device_of (trace x)) /\
  held_of (trace x') = held_of (trace x) /\ accesses_of (trace x') = accesses_of (trace x) ++ [Wr reg v].
Proof.
  intros [[-> ->]|[? _]]; [|done]. rewrite !device_cons, !held_cons. cbn. by rewrite app_nil_r.
Qed.

(** What a quiet step keeps. *)
Lemma quietly_keeps x x' :
  quietly x x' -> at_rest (device_of (trace x)) ->
  device_of (trace x') = device_of (trace x) /\ held_of (trace x') = held_of (trace x) /\
  accesses_of (trace x') = accesses_of (trace x).
Proof.
  intros [_ (tr & -> & Hq)] Hr. by rewrite quiet_device, quiet_held, quiet_writes.
Qed.

(** * Reset *)

(** Polling leaves the device where it is until the value it waits for is read. *)
Lemma polled_device reg (good : Z -> bool) tr tr' d d' :
  (forall v, v <> U32_MAX -> device_step (EvRead reg v true) d = if good v then d' else d) ->
  Forall (polled reg good) tr -> device_of tr' = d -> device_of (tr ++ tr') = d.
Proof.
  intros Hs Hp Hd. induction Hp as [|ev tr He _ IH]; [done|]. cbn [app]. rewrite device_cons, IH.
  destruct ev as [| | | | | | | |r v [|]| | | | | |]; try done. destruct He as [-> He]. cbn [andb] in He.
  destruct (Z.eqb_spec v U32_MAX) as [->|Hv]; [done|]. rewrite Hs by done. cbn in He. by rewrite He.
Qed.

Lemma seen_device reg (good : Z -> bool) tr tr' v d d' :
  (forall v, v <> U32_MAX -> device_step (EvRead reg v true) d = if good v then d' else d) ->
  seen reg good tr v -> device_of tr' = d -> device_of (tr ++ tr') = d'.
Proof.
  intros Hs (Hm & Hg & rest & -> & Hr) Hd. cbn [app]. rewrite device_cons.
  rewrite (polled_device reg good rest tr' d d') by done. rewrite Hs by done. by rewrite Hg.
Qed.

Lemma waits_device reg (good : Z -> bool) x x' d d' :
  (forall v, v <> U32_MAX -> device_step (EvRead reg v true) d = if good v then d' else d) ->
  waits reg good x None_ x' -> device_of (trace x) = d -> device_of (trace x') = d'.
Proof.
  intros Hs (_ & tr & -> & H) Hd. rewrite decide_True in H by done.
  destruct H as (t & v & tr' & -> & Hseen). cbn [app]. rewrite device_cons. cbn.
  by eapply seen_device.
Qed.

Lemma step_ack v : v <> U32_MAX ->
  device_step (EvRead resetReg v true) Resetting = if Z.land v 8 =? 0 then Acked else Resetting.
Proof. intros Hv. cbn. by rewrite (proj2 (Z.eqb_neq v U32_MAX) Hv). Qed.
Lemma step_reset v : v <> U32_MAX ->
  device_step (EvRead statusReg v true) Acked = if test v 1 then InReset else Acked.
Proof. intros Hv. cbn. by rewrite (proj2 (Z.eqb_neq v U32_MAX) Hv). Qed.
Lemma step_stop v : v <> U32_MAX ->
  device_step (EvRead dmaControl v true) InReset = if Z.land v 1 =? 0 then Stopped else InReset.
Proof. intros Hv. cbn. by rewrite (proj2 (Z.eqb_neq v U32_MAX) Hv). Qed.

Lemma waits_writes reg good x r x' :
  waits reg good x r x' -> setting reg = false -> accesses_of (trace x') = accesses_of (trace x) /\ held_of (trace x') = held_of (trace x).
Proof.
  intros (_ & tr & -> & H) Hset. assert (Hq : Forall quiet tr).
  { destruct (decide (r = None_)); [|done]. destruct H as (t & v & tr' & -> & Hs).
    constructor; [done|by eapply seen_quiet]. }
  by rewrite quiet_writes, quiet_held.
Qed.

Lemma quietly_held x x' : quietly x x' -> held_of (trace x') = held_of (trace x).
Proof. intros [_ (tr & -> & Hq)]. by apply quiet_held. Qed.
Lemma quietly_writes x x' : quietly x x' -> accesses_of (trace x') = accesses_of (trace x).
Proof. intros [_ (tr & -> & Hq)]. by apply quiet_writes. Qed.
Lemma written_held reg v x ok x' : written reg v x ok x' -> held_of (trace x') = held_of (trace x).
Proof. intros [[_ ->]|(_ & _ & Hq)]; [by rewrite !held_cons|by apply quietly_held]. Qed.

Lemma ask_quiet f ev x (Q : bool -> machine W -> Prop) :
  (forall r, quiet (ev r)) -> (forall r x', quietly x x' -> ld x' = ld x -> Q r x') -> wp (ask f ev) Q x.
Proof. intros He HQ. apply fw_ask; intros; apply HQ; auto. Qed.

Lemma reset_wp p x :
  Inv p x ->
  wp reset (fun r x' => Inv p x' /\ kept (ld x) (ld x') /\ held_of (trace x') = held_of (trace x) /\
    (r = None_ -> touchedHardware_ (ld x') = true /\ device_of (trace x') = Stopped /\
      accesses_of (trace x') = accesses_of (trace x) ++ [Wr resetReg 8])) x.
Proof.
  intros Hi. unfold reset, call_quiesced. do 3 wp_step. apply ask_quiet; [done|]. intros q x0 Hq Hl0.
  pose proof (Inv_quietly _ _ _ Hi Hq) as Hi0. pose proof (quietly_held _ _ Hq) as Hh0.
  pose proof (quietly_writes _ _ Hq) as Hw0. rewrite <- Hl0, <- Hh0, <- Hw0. clear x Hi Hq Hl0 Hh0 Hw0.
  wp_step; [by wp_step|]. wp_step. eapply wp_mono; [apply (write_wp p); [done|by intros [=]]|]. intros ok x1 (Hi1 & K1 & Hwr).
  pose proof (written_held _ _ _ _ _ Hwr) as Hh1. wp_step; [by wp_step|]. apply negb_false_iff in Hcond0 as ->.
  apply write_made in Hwr as (Ht1 & Hd1 & _ & Hw1). cbn in Hd1.
  wp_step. eapply wp_mono; [by apply wait_wp|]. intros r x2 Hwait. destruct (Inv_waits _ _ _ _ _ _ Hi1 Hwait eq_refl) as [Hi2 K2].
  destruct (waits_writes _ _ _ _ _ Hwait eq_refl) as [Hw2 Hh2]. pose proof (kept_trans _ _ _ K1 K2) as K2'.
  destruct (decide (r <> None_)) as [Hr|Hr]; [wp_step; split_and!; try done; congruence|].
  apply dec_stable in Hr as ->. pose proof (waits_device _ _ _ _ _ _ step_ack Hwait Hd1) as Hd2.
  wp_step. eapply wp_mono; [by apply (read_status_wp (fun v => test v 1))|].
  intros ok x3 (v & Hl3 & tr3 & Ht3 & H3).
  assert (Hq3 : quietly x2 x3).
  { split; [by exists v|]. exists tr3. split; [done|].
    destruct (ok && test v 1); [by eapply seen_quiet|by eapply polled_quiet]. }
  pose proof (Inv_quietly _ _ _ Hi2 Hq3) as Hi3. pose proof (kept_trans _ _ _ K2' (kept_same _ _ (proj1 Hq3))) as K3.
  pose proof (quietly_held _ _ Hq3) as Hh3. pose proof (quietly_writes _ _ Hq3) as Hw3. do 3 wp_step.
  { wp_step. split_and!; try done; congruence. }
  rewrite Hl3 in Hcond0. cbn in Hcond0. apply orb_false_iff in Hcond0 as [Ho Ht].
  apply negb_false_iff in Ho as ->, Ht. rewrite Ht in H3. cbn in H3.
  assert (Hd3 : device_of (trace x3) = InReset).
  { rewrite Ht3. eapply seen_device; [apply step_reset|done|done]. }
  eapply wp_mono; [by apply wait_wp|]. intros r x4 Hwait4. destruct (Inv_waits _ _ _ _ _ _ Hi3 Hwait4 eq_refl) as [Hi4 K4].
  destruct (waits_writes _ _ _ _ _ Hwait4 eq_refl) as [Hw4 Hh4]. pose proof (kept_trans _ _ _ K3 K4) as K4'.
  split_and!; [done|done|congruence|]. intros ->. split_and!.
  - apply (k_touched _ _ K4). rewrite Hl3. cbn. by apply (k_touched _ _ K2).
  - by apply (waits_device _ _ _ _ _ _ step_stop Hwait4 Hd3).
  - unfold resetReg; congruence.
Qed.

(** * The WOPCM *)

(** The window from [base] of [size] bytes leaves room for the HuC and its reserve below, ends
    before the reserved top of the WOPCM, holds the image and its stack, and no region of the plan
    lies in the WOPCM. *)
Definition wopcm_room p (info : FirmwareInfo) (total base size : Z) : Prop :=
  hucUploadBytes p + 16384 <= base /\ base + size <= total - 36864 /\ rsaOffset info +64 24576 <= size /\
  total <= ggtt (firmware p) /\ total <= ggtt (ads p) /\ total <= ggtt (log p).

(** The accesses that set up the window.  Either both registers are read as locked, and what they
    hold is a window of the 8 MiB with the right HuC agent; or both are read as unlocked, and the
    lowest window of the 4 MiB is written and read back as locked, the size before the base. *)
Inductive wopcm_window p (info : FirmwareInfo) : list access -> Prop :=
  | window_locked b s :
      Z.odd b = true -> Z.odd s = true ->
      wopcm_room p info 0x800000 (Z.land b 0xffffc000) (Z.land s 0xfffff000) ->
      Z.testbit b 1 = negb (hucUploadBytes p =? 0) ->
      wopcm_window p info [Rd 0xc340 b; Rd 0xc050 s]
  | window_set b s base size agent s' b' :
      Z.odd b = false -> Z.odd s = false ->
      wopcm_room p info 0x400000 base size ->
      base mod 0x4000 = 0 -> base < hucUploadBytes p + 16384 + 0x4000 -> size mod 0x1000 = 0 ->
      agent = (if hucUploadBytes p =? 0 then 0 else 2) ->
      Z.land s' 0xfffff001 = Z.lor size 1 -> Z.land b' 0xffffc003 = Z.lor (Z.lor base agent) 1 ->
      wopcm_window p info [Rd 0xc340 b; Rd 0xc050 s; Wr 0xc050 size; Rd 0xc050 s';
        Wr 0xc340 (Z.lor base agent); Rd 0xc340 b'].

Lemma halted_rest d : halted d -> at_rest d.
Proof. unfold halted, at_rest. tauto. Qed.

Lemma halted_write reg v d :
  halted d -> reg <> resetReg -> reg <> dmaControl -> halted (device_step (EvWrite reg v true) d).
Proof.
  intros Hd H1 H2. cbn. rewrite (proj2 (Z.eqb_neq _ _) H1), (proj2 (Z.eqb_neq _ _) H2). cbn.
  right. by destruct Hd as [->| ->].
Qed.

(** What a phase of the attempt leaves: the invariant, with the hardware halted and more writes. *)
Record halt_phase p x (l : list access) x' : Prop := {
  h_inv : Inv p x';
  h_kept : kept (ld x) (ld x');
  h_held : held_of (trace x') = held_of (trace x);
  h_device : halted (device_of (trace x'));
  h_writes : accesses_of (trace x') = accesses_of (trace x) ++ l;
}.

Lemma halt_quietly p x l x1 x2 : halt_phase p x l x1 -> quietly x1 x2 -> halt_phase p x l x2.
Proof.
  intros [Hi Hk Hh Hd Hw] Hq. destruct (quietly_keeps _ _ Hq (halted_rest _ Hd)) as (Ed & Eh & Ew).
  split; rewrite ?Ed, ?Eh, ?Ew; try done; [by eapply Inv_quietly|].
  eapply kept_trans; [done|]. by apply kept_same, Hq.
Qed.

Lemma halt_written p x l x1 reg v x2 :
  halt_phase p x l x1 -> reg <> resetReg -> reg <> dmaControl ->
  Inv p x2 -> kept (ld x1) (ld x2) -> written reg v x1 true x2 -> halt_phase p x (l ++ [Wr reg v]) x2.
Proof.
  intros [Hi Hk Hh Hd Hw] H1 H2 Hi2 Hk2 Hwr. apply write_made in Hwr as (_ & Ed & Eh & Ew).
  split; rewrite ?Ed, ?Eh, ?Ew, ?Hw; try done; [by eapply kept_trans|by apply halted_write|by rewrite app_assoc].
Qed.

Lemma read_quiet reg old x :
  setting reg = false -> wp (read reg old) (fun r x' => quietly x x' /\ ld x' = ld x) x.
Proof.
  intros Hset. eapply wp_mono; [by apply (read_wp reg old (fun _ => true))|]. intros [ok v] x' (Hl & tr & Ht & H).
  split; [|done]. apply (quietly_loader _ _ tr); try done.
  destruct ok; cbn in H; [by eapply seen_quiet|by eapply polled_quiet].
Qed.

(** A phase that returns an error may stop anywhere. *)
Definition phase p x (l : list access) (P : list access -> Prop) (r : Error) x' : Prop :=
  if decide (r = None_) then exists l', P l' /\ halt_phase p x (l ++ l') x' else Inv p x' /\ kept (ld x) (ld x').

Lemma phase_fail p x l P r x' l' : r <> None_ -> halt_phase p x l' x' -> phase p x l P r x'.
Proof. intros Hr [Hi Hk _ _ _]. unfold phase. by rewrite decide_False. Qed.

Lemma phase_stop p x l P r x' : r <> None_ -> Inv p x' /\ kept (ld x) (ld x') -> phase p x l P r x'.
Proof. intros Hr H. unfold phase. by rewrite decide_False. Qed.

Lemma halt_write_wp p x l reg v x1 :
  halt_phase p x l x1 -> reg <> resetReg -> reg <> dmaControl ->
  wp (write reg v) (fun ok x' =>
    if ok then halt_phase p x (l ++ [Wr reg v]) x' else Inv p x' /\ kept (ld x) (ld x')) x1.
Proof.
  intros H1 Hr Hd. eapply wp_mono; [apply (write_wp p); [apply H1|done]|]. intros [|] x2 (Hi2 & K2 & Hw).
  - by eapply halt_written.
  - split; [done|]. eapply kept_trans; [apply H1|done].
Qed.

(** An event that leaves the device and the references alone adds its access. *)
Lemma halt_event p x l x1 w ev :
  halt_phase p x l x1 -> legal p ev (trace x1) ->
  device_step ev (device_of (trace x1)) = device_of (trace x1) -> (forall n, held_step ev n = n) ->
  halt_phase p x (l ++ access_step ev) (after x1 w ev).
Proof.
  intros [[] Hk Hh Hd Hw] Hl E1 E2.
  split; cbn; rewrite ?held_cons, ?device_cons, ?E1, ?E2; try done; [|by rewrite Hw, app_assoc].
  split; cbn; rewrite ?held_cons, ?device_cons, ?E1, ?E2; done.
Qed.

Lemma halt_read d reg v ok : halted d -> device_step (EvRead reg v ok) d = d.
Proof. intros [->| ->]; cbn; by destruct ok, (v =? U32_MAX). Qed.

(** A read of a setting. *)
Lemma read_setting_wp p x l reg old x1 :
  halt_phase p x l x1 -> setting reg = true ->
  wp (read reg old) (fun r x' =>
    ld x' = ld x1 /\
    if r.1 then halt_phase p x (l ++ [Rd reg r.2]) x' else Inv p x' /\ kept (ld x) (ld x')) x1.
Proof.
  intros H1 Hs. unfold read. wp_step.
  apply allowed_wp; [intros w|intros w|]; do 3 wp_step; try done.
  all: match goal with |- wp _ _ ?y => assert (Hy : halt_phase p x l y) by
    (eapply halt_quietly; [exact H1|]; first [apply quietly_refl|by apply quietly_after]) end.
  all: try (wp_step; split; [done|]; split; apply Hy).
  wp_step. apply fw_act. intros [ok v] w'. wp_step. cbn [fst snd]. split; [done|].
  pose proof (halt_event _ _ _ _ w' (EvRead reg v ok) Hy I (halt_read _ _ _ _ (h_device _ _ _ _ Hy)) (fun _ => eq_refl)) as H3.
  destruct ok; cbn [andb]; [|split; apply H3]. destruct (negb (v =? U32_MAX)); [|split; apply H3].
  cbn in H3. by rewrite Hs in H3.
Qed.

Lemma test_odd b : test b 1 = Z.odd b.
Proof. rewrite <- Z.bit0_odd. exact (test_BIT b 0 ltac:(lia)). Qed.

Lemma test_agent b n : (Z.land b 2 =? (if n =? 0 then 0 else 2)) = true -> Z.testbit b 1 = negb (n =? 0).
Proof.
  intros H%Z.eqb_eq. rewrite <- (test_BIT b 1) by lia. unfold test.
  change (BIT 1) with 2. rewrite H. by destruct (n =? 0).
Qed.

Lemma above_wopcm p total :
  existsb (fun i => ggtt (at_ p i) <? total) [0%nat; 1%nat; 2%nat] = false ->
  total <= ggtt (firmware p) /\ total <= ggtt (ads p) /\ total <= ggtt (log p).
Proof. cbn. intros H. zbool. lia. Qed.

(** Rounding up to a multiple of [2 ^ n]. *)
Lemma round_up_low m n : 0 <= n -> Z.ldiff (m + (2 ^ n - 1)) (2 ^ n - 1) = (m + (2 ^ n - 1)) / 2 ^ n * 2 ^ n.
Proof.
  intros Hn. rewrite Z.sub_1_r, <- Z.ones_equiv, Z.ldiff_ones_r, Z.shiftr_div_pow2, Z.shiftl_mul_pow2 by lia. done.
Qed.

Lemma aligned_land z : Z.land z 0xfffff000 mod 0x1000 = 0.
Proof. rewrite <- (land_ones_low _ 12), <- Z.land_assoc by lia. apply Z.land_0_r. Qed.

Lemma wopcm_wp p x l x0 :
  halt_phase p x l x0 -> wp wopcm (phase p x l (wopcm_window p (info_ (ld x0)))) x0.
Proof.
  intros H0. unfold wopcm. do 2 wp_step. pose proof (i_plan _ _ (h_inv _ _ _ _ H0)) as Hp. rewrite Hp.
  wp_step. eapply wp_mono; [by apply (read_setting_wp _ _ _ _ _ _ H0)|]. intros [[|] b] x1 [Hl1 H1]; cbn [fst snd negb] in *;
    [|wp_step; by apply phase_stop].
  wp_step. eapply wp_mono; [by apply (read_setting_wp _ _ _ _ _ _ H1)|]. intros [[|] s] x2 [Hl2 H2]; cbn [fst snd negb] in *;
    [|wp_step; by apply phase_stop].
  wp_step; [wp_step; by eapply phase_fail|]. apply negb_false_iff, eqb_prop in Hcond.
  wp_step; [wp_step; by eapply phase_fail|]. rename Hcond0 into Hmin.
  wp_step; [wp_step; by eapply phase_fail|]. rename Hcond0 into Hwin.
  wp_step; [wp_step; by eapply phase_fail|]. rename Hcond0 into Hggtt. rewrite <- !app_assoc in H2.
  rewrite !test_odd in *. destruct (Z.odd b) eqn:Hlock.
  { wp_step; [wp_step; by eapply phase_fail|]. wp_step. unfold phase. rewrite decide_True by done.
    eexists. split; [|exact H2]. constructor; [done|done| |].
    - apply above_wopcm in Hggtt. clear -Hwin Hggtt. unfold wopcm_room. zbool. lia.
    - apply test_agent. by apply negb_false_iff. }
  set (base := Z.ldiff _ _) in *. set (size := Z.land (wrap 32 _) _) in *.
  wp_step. eapply wp_mono; [by apply (halt_write_wp _ _ _ _ _ _ H2)|]. intros [|] x3 H3; cbn [negb];
    [|wp_step; by apply phase_stop].
  wp_step. eapply wp_mono; [by apply (read_setting_wp _ _ _ _ _ _ H3)|]. intros [[|] s4] x4 [Hl4 H4]; cbn [fst snd negb] in *;
    [|wp_step; by apply phase_stop].
  wp_step; [wp_step; by eapply phase_fail|]. apply negb_false_iff, Z.eqb_eq in Hcond0. rename Hcond0 into Hs4.
  wp_step. eapply wp_mono; [by apply (halt_write_wp _ _ _ _ _ _ H4)|]. intros [|] x5 H5; cbn [negb];
    [|wp_step; by apply phase_stop].
  wp_step. eapply wp_mono; [by apply (read_setting_wp _ _ _ _ _ _ H5)|]. intros [[|] b6] x6 [Hl6 H6]; cbn [fst snd negb] in *;
    [|wp_step; by apply phase_stop].
  wp_step; [wp_step; by eapply phase_fail|]. apply negb_false_iff, Z.eqb_eq in Hcond0. rename Hcond0 into Hb6.
  wp_step. unfold phase. rewrite decide_True by done. rewrite <- !app_assoc in H6. eexists. split; [|exact H6].
  apply above_wopcm in Hggtt. apply (window_set p _ b s base size _ s4 b6); try done.
  - clear -Hwin Hggtt. unfold wopcm_room. zbool. lia.
  - subst base. rewrite (round_up_low _ 14) by lia. apply Z.mod_mul. lia.
  - subst base. rewrite (round_up_low _ 14) by lia. pose proof (Z.mul_div_le (hucUploadBytes p + 16384 + (2 ^ 14 - 1)) (2 ^ 14)). lia.
  - subst size. apply aligned_land.
Qed.

(** * Giving references back *)

(** Between operations of an attempted loader: nothing is held without a reason, and a running
    loader was seen authenticated. *)
Record Settled p x : Prop := {
  s_inv : Inv p x;
  s_leak : touchedHardware_ (ld x) = false ->
    held_ (ld x) = 0%nat \/ exists r, EvRelease r false ∈ trace x;
  s_running : state_ (ld x) = Running ->
    XeGuC.statusAuthenticatedAndReady (lastStatus_ (ld x)) = true /\ held_ (ld x) = 3%nat;
}.

Lemma release_loop_wp p n x :
  Inv p x -> held_ (ld x) = n -> (device_of (trace x) = Untouched \/ device_of (trace x) = Stopped) ->
  wp (release_loop n) (fun r x' => Inv p x' /\ state_ (ld x') = state_ (ld x) /\
    if decide (r = None_) then held_ (ld x') = 0%nat else exists rg, EvRelease rg false ∈ trace x') x.
Proof.
  revert x. induction n as [|n IH]; intros x Hi Hn Hd; cbn [release_loop]; [by wp_step|].
  do 3 wp_step. unfold call_release. do 2 wp_step.
  pose proof (i_callbacks _ _ Hi) as Hc. unfold callbacks in Hc.
  destruct (release (backend_ (ld x))) as [f|]; [|by rewrite !andb_false_r in Hc]. cbn. apply fw_act. intros ok w.
  destruct Hi as [Hp Ha Hcb Hh H3 Ht Hl]. rewrite Hn in Hh.
  assert (Hlegal : legal p (EvRelease (at_ (plan_ (ld x)) n) ok) (trace x)).
  { cbn. rewrite Hp, <- Hh. split_and!; [lia|done|done]. }
  destruct ok; cbn [negb].
  - wp_step. apply wp_modify. eapply wp_mono; [apply IH|].
    + split; cbn; rewrite ?held_cons; cbn; rewrite <- ?Hh; try done; [lia|].
      split; [|done]. rewrite Hp. split_and!; [lia|done|done].
    + done.
    + done.
    + done.
  - wp_step. split; [|split; [done|]].
    + split; cbn; rewrite ?held_cons; cbn; rewrite <- ?Hh; try done; [lia|].
      split; [|done]. rewrite Hp. split_and!; [lia|done|done].
    + cbn. eexists. apply elem_of_cons. by left.
Qed.

Lemma fail_wp p e x : Inv p x -> e <> None_ -> wp (fail e) (fun r x' => Settled p x' /\ r <> None_) x.
Proof.
  intros Hi He. unfold fail. wp_step. apply wp_modify. do 2 wp_step.
  set (x0 := {| ld := _; world := _; trace := _ |}).
  assert (Hi0 : Inv p x0) by (by destruct Hi). wp_step.
  - wp_step. split; [|done]. split; [done|congruence|done].
  - wp_step. unfold releaseRegions. do 2 wp_step. eapply wp_mono; [by apply (release_loop_wp p); auto; left; apply Hi|].
    intros r x' (Hi' & Hs & H). assert (Hset : Settled p x').
    { split; [done| |by rewrite Hs]. intros _. destruct (decide (r = None_)); auto. }
    destruct (decide (r <> None_)); by wp_step.
Qed.

(** The steps of an attempt, each of which either goes on or fails. *)
Section Steps.
Context (p : Plan) (B : machine W -> Prop).

(** What an attempt ends in. *)
Definition ends (r : Error) x' : Prop := Settled p x' /\ (r = None_ -> B x').

Lemma fail_ends e x : Inv p x -> e <> None_ -> wp (fail e) ends x.
Proof.
  intros Hi He. eapply wp_mono; [by apply (fail_wp p)|]. intros r x' [Hs Hr]. split; [done|]. by intros ->.
Qed.

Lemma need_wp (c : ST (machine W) bool) e k x :
  e <> None_ ->
  wp c (fun ok x' => if ok then wp k ends x' else Inv p x') x -> wp (need c e k) ends x.
Proof.
  intros He H. unfold need. wp_step. eapply wp_mono; [exact H|]. intros [|] x' H'; cbn [negb]; [done|].
  by apply fail_ends.
Qed.

Lemma need_none_wp (c : ST (machine W) Error) k x :
  wp c (fun r x' => if decide (r = None_) then wp k ends x' else Inv p x') x -> wp (need_none c k) ends x.
Proof.
  intros H. unfold need_none. wp_step. eapply wp_mono; [exact H|]. intros r x' H'. cbn in H'.
  destruct (decide (r = None_)) as [->|Hr]; [done|]. rewrite decide_True by done. by apply fail_ends.
Qed.

Definition wrs (ws : list (Z * Z)) : list access := (fun w => Wr w.1 w.2) <$> ws.

Lemma write_all_wp x l ws k x1 :
  Forall (fun w => w.1 <> resetReg /\ w.1 <> dmaControl) ws ->
  halt_phase p x l x1 -> (forall x2, halt_phase p x (l ++ wrs ws) x2 -> wp k ends x2) ->
  wp (write_all ws k) ends x1.
Proof.
  intros Hws. revert l x1. induction Hws as [|[reg v] ws [H1 H2] _ IH]; intros l x1 Hh Hk; cbn [write_all].
  { rewrite app_nil_r in Hk. by apply Hk. }
  apply need_wp; [done|]. eapply wp_mono; [by apply (halt_write_wp _ _ _ _ _ _ Hh)|].
  intros [|] x2 H2'; [|by destruct H2'].
  apply (IH (l ++ [Wr reg v])); [done|]. intros x3 H3. apply Hk. by rewrite <- app_assoc in H3.
Qed.

Lemma synchronize_all_wp x l is_ k x1 :
  halt_phase p x l x1 -> (forall x2, halt_phase p x (l ++ ((fun i => Sync (at_ p i)) <$> is_)) x2 -> wp k ends x2) ->
  wp (synchronize_all is_ k) ends x1.
Proof.
  revert l x1. induction is_ as [|i is_ IH]; intros l x1 Hh Hk; cbn [synchronize_all].
  { cbn in Hk. rewrite app_nil_r in Hk. by apply Hk. }
  do 2 wp_step. rewrite (i_plan _ _ (h_inv _ _ _ _ Hh)). apply need_wp; [done|]. unfold call_synchronize. do 2 wp_step.
  apply fw_ask; [|apply Hh]. intros ok w.
  pose proof (halt_event _ _ _ _ w (EvSynchronize (at_ p i) ok) Hh I eq_refl (fun _ => eq_refl)) as H2.
  destruct ok; [|apply H2]. eapply IH; [exact H2|]. intros x2 H3. apply Hk. by rewrite <- app_assoc in H3.
Qed.

(** ** The shared regions *)

Lemma halt_fill x l x1 address n v (Q : unit -> machine W -> Prop) :
  held_of (trace x) = 3%nat -> in_shared p address n -> halt_phase p x l x1 ->
  (forall x2, halt_phase p x l x2 -> Q tt x2) -> wp (fill mem address n v) Q x1.
Proof.
  intros H3 Hin Hh HQ. apply fw_act. intros [] w. apply HQ. rewrite <- (app_nil_r l).
  apply (halt_event _ _ _ _ w (EvFill address n v) Hh); try done. destruct Hh as [_ _ Eh Hd _]. cbn. by rewrite Eh.
Qed.

Lemma halt_put x l x1 address v (Q : unit -> machine W -> Prop) :
  held_of (trace x) = 3%nat -> in_shared p address 4 -> halt_phase p x l x1 ->
  (forall x2, halt_phase p x l x2 -> Q tt x2) -> wp (put32 mem address v) Q x1.
Proof.
  intros H3 Hin Hh HQ. apply fw_act. intros [] w. apply HQ. rewrite <- (app_nil_r l).
  apply (halt_event _ _ _ _ w (EvPut address v) Hh); try done. destruct Hh as [_ _ Eh Hd _]. cbn. by rewrite Eh.
Qed.

Lemma in_ads k n : 0 <= k -> k + n <= bytes_ (ads p) -> in_shared p (cpu (ads p) + k) n.
Proof. intros. exists (ads p). split; [by left|]. lia. Qed.

Lemma minimalAdsBytes_prefix f : minimalAdsBytes f <> 0 -> minimalAdsPrefix <= minimalAdsBytes f.
Proof.
  unfold minimalAdsBytes. destruct (_ || _); [done|]. intros _.
  assert (0 <= Z.ldiff (wrap 32 (privateDataBytes f + 4095)) 4095); [|lia].
  apply Z.ldiff_nonneg. left. by apply wrap_range.
Qed.

Lemma populate_wp x l x1 f d :
  held_of (trace x) = 3%nat -> halt_phase p x l x1 ->
  wp (populateMinimalAds mem (ads p) f d) (fun _ => halt_phase p x l) x1.
Proof.
  intros H3 Hh. unfold populateMinimalAds. cbv zeta. wp_step; [by wp_step|]. apply orb_false_iff in Hcond as [Hc _].
  apply orb_false_iff in Hc as [Hc Hb]. apply orb_false_iff in Hc as [_ Hz]. zbool.
  pose proof (minimalAdsBytes_prefix f Hz) as Hm. unfold minimalAdsPrefix in Hm.
  wp_step. rewrite <- (Z.add_0_r (cpu (ads p))) at 1. eapply halt_fill; [done|apply in_ads; lia|done|]. clear x1 Hh. intros x1 Hh.
  do 6 (wp_step; rewrite <- ?Z.add_assoc; eapply halt_put; [done|apply in_ads; lia|done|]; clear x1 Hh; intros x1 Hh).
  wp_step. eapply halt_fill; [done|apply in_ads; lia|done|]. clear x1 Hh. intros x1 Hh.
  wp_step. rewrite <- ?Z.add_assoc. eapply halt_put; [done|apply in_ads; lia|done|]. clear x1 Hh. intros x1 Hh. by wp_step.
Qed.

(** ** The checks before the reset *)

(** The entries of a valid region lie behind the registers. *)
Lemma entry_reg k : 0 <= k < 0x100000 ->
  setting (wrap 32 (0x800000 + wrap 32 (k * 8))) = false /\
  setting (wrap 32 (wrap 32 (0x800000 + wrap 32 (k * 8)) + 4)) = false.
Proof.
  intros Hk. rewrite (wrap_small 32 (k * 8)), (wrap_small 32 (_ + k * 8)), wrap_small by (unfold word; lia).
  unfold setting. split; repeat apply orb_false_intro; apply Z.eqb_neq; lia.
Qed.

Lemma verify_pages_wp b r i n x :
  0 <= ggtt r -> 0 <= i -> ggtt r / 4096 + i + Z.of_nat n <= 0x100000 ->
  wp (verify_pages mem b r i n) (fun _ x' => quietly x x' /\ ld x' = ld x) x.
Proof.
  intros Hg. assert (Hread : forall reg x0 (k : bool * Z -> ST (machine W) Error),
    setting reg = false -> quietly x x0 -> ld x0 = ld x ->
    (forall v x', quietly x x' -> ld x' = ld x -> wp (k v) (fun _ x' => quietly x x' /\ ld x' = ld x) x') ->
    wp (bind (call_read32 b reg) k) (fun _ x' => quietly x x' /\ ld x' = ld x) x0).
  { intros reg x0 k Hs Hq Hl Hk. wp_step. apply fw_act. intros v w. apply Hk; [|done].
    eapply quietly_trans; [done|]. apply quietly_after. cbn. by rewrite Hs, andb_false_r. }
  enough (H : forall x0, quietly x x0 -> ld x0 = ld x -> 0 <= i -> ggtt r / 4096 + i + Z.of_nat n <= 0x100000 ->
    wp (verify_pages mem b r i n) (fun _ x' => quietly x x' /\ ld x' = ld x) x0) by (intros; apply H; auto).
  revert i. induction n as [|n IH]; intros i x0 Hq Hl Hi Hn; cbn [verify_pages]; [by wp_step|].
  destruct (entry_reg (ggtt r / 4096 + i)) as [Hs1 Hs2]; [pose proof (Z.div_pos (ggtt r) 4096); lia|].
  do 2 wp_step. wp_step; [by wp_step|].
  apply Hread; [done..|]. intros hi x1 H1 L1. wp_step; [by wp_step|].
  apply Hread; [done..|]. intros lo x2 H2 L2. wp_step; [by wp_step|].
  apply Hread; [done..|]. intros again x3 H3 L3. wp_step; [by wp_step|]. wp_step; [by wp_step|]. apply IH; [done|done|lia|lia].
Qed.

Lemma pages_below g b :
  0 <= g -> g + b <= 0xfee00000 -> g < 0xfee00000 -> g / 4096 + 0 + Z.of_nat (Z.to_nat (b / 4096)) <= 0x100000.
Proof. intros Hg Hs Ht. pose proof (Z.mul_div_le g 4096). pose proof (Z.mul_div_le b 4096). lia. Qed.

Lemma valid_entries r :
  regionValid r = true -> 0 <= ggtt r /\ ggtt r / 4096 + 0 + Z.of_nat (Z.to_nat (pageCount r)) <= 0x100000.
Proof.
  unfold regionValid, span, gucGgttTop. intros Hv. zbool. split; [lia|]. rewrite H1. apply pages_below; lia.
Qed.

Lemma verifyGgtt_wp b r x : wp (verifyGgtt mem b r) (fun _ x' => quietly x x' /\ ld x' = ld x) x.
Proof.
  unfold verifyGgtt. wp_step; [wp_step; auto|]. apply orb_false_iff in Hcond as [Hv _].
  apply negb_false_iff, valid_entries in Hv as [Hg Hp]. by apply verify_pages_wp.
Qed.

(** Before the first write: everything is checked, nothing has changed. *)
Record ready x x' : Prop := {
  r_inv : Inv p x';
  r_kept : kept (ld x) (ld x');
  r_quiet : held_of (trace x') = held_of (trace x) /\ accesses_of (trace x') = accesses_of (trace x);
}.

Lemma ready_quietly x x1 x2 : ready x x1 -> quietly x1 x2 -> ready x x2.
Proof.
  intros [Hi Hk [Hh Hw]] Hq. split; [by eapply Inv_quietly| |].
  - eapply kept_trans; [done|]. by apply kept_same, Hq.
  - by rewrite (quietly_held _ _ Hq), (quietly_writes _ _ Hq).
Qed.

Lemma verify_all_wp x is_ k x1 :
  ready x x1 -> (forall x2, ready x x2 -> wp k ends x2) -> wp (verify_all mem is_ k) ends x1.
Proof.
  revert x1. induction is_ as [|i is_ IH]; intros x1 Hr Hk; cbn [verify_all]; [by apply Hk|].
  do 2 wp_step. apply need_wp; [done|]. unfold call_mappingPublished. do 2 wp_step. apply ask_quiet; [done|].
  intros [|] x2 Hq _; pose proof (ready_quietly _ _ _ Hr Hq) as H2; [|apply H2].
  apply need_none_wp. eapply wp_mono; [apply verifyGgtt_wp|]. intros r x3 [Hq3 _].
  pose proof (ready_quietly _ _ _ H2 Hq3) as H3. destruct (decide (r = None_)); [by apply IH|apply H3].
Qed.

(** ** Authentication *)

Lemma authenticate_loop_wp n start previous x :
  wp (authenticate_loop n start previous) (fun r x' => quietly x x' /\
    (r = None_ -> XeGuC.statusAuthenticatedAndReady (lastStatus_ (ld x')) = true)) x.
Proof.
  enough (H : forall x0, quietly x x0 -> wp (authenticate_loop n start previous) (fun r x' => quietly x x' /\
    (r = None_ -> XeGuC.statusAuthenticatedAndReady (lastStatus_ (ld x')) = true)) x0) by (apply H; auto).
  revert previous. induction n as [|n IH]; intros previous x0 Hq; cbn [authenticate_loop]; wp_step;
    (eapply wp_mono; [by apply (read_status_wp (fun _ => true))|]); intros ok x1 (v & Hl1 & tr1 & Ht1 & H1).
  all: assert (Hq1 : quietly x x1) by (eapply quietly_trans; [done|]; split; [by exists v|]; exists tr1; split; [done|];
    destruct ok; cbn in H1; [by eapply seen_quiet|by eapply polled_quiet]).
  all: do 2 wp_step; (wp_step; [by wp_step|]); wp_step; apply fw_act; intros now w.
  all: assert (Hq2 : quietly x (after x1 w (EvNow now))) by (eapply quietly_trans; [done|]; by apply quietly_after).
  all: repeat (wp_step; [wp_step; by split|]).
  - by wp_step.
  - wp_step. apply fw_act. intros [] w'. apply IH. eapply quietly_trans; [done|]. by apply quietly_after.
Qed.

Lemma authenticate_wp x :
  wp authenticate (fun r x' => quietly x x' /\
    (r = None_ -> XeGuC.statusAuthenticatedAndReady (lastStatus_ (ld x')) = true)) x.
Proof.
  unfold authenticate. do 3 wp_step. apply fw_act. intros t w. eapply wp_mono; [apply authenticate_loop_wp|].
  intros r x' [Hq H]. split; [|done]. eapply quietly_trans; [|done]. by apply quietly_after.
Qed.

(** ** Booting *)

Definition in_state (v : State) x : machine W := {| ld := set_state v (ld x); world := world x; trace := trace x |}.

Lemma Inv_state v x : Inv p x -> Inv p (in_state v x).
Proof. by intros []. Qed.

Lemma boot_wp x l x1 :
  halt_phase p x l x1 -> held_of (trace x) = 3%nat ->
  (forall x', state_ (ld x') = Running -> info_ (ld x') = info_ (ld x) ->
    accesses_of (trace x') = accesses_of (trace x) ++ l ++ [Wr dmaControl 0x00110011; Wr dmaControl 0x00100000] -> B x') ->
  wp boot ends x1.
Proof.
  intros [Hi1 K1 Hh1 Hd1 Hw1] H3 HB. unfold boot. wp_step. apply wp_modify. fold (in_state Dma x1).
  apply need_wp; [done|]. eapply wp_mono; [apply (write_wp p); [by apply Inv_state|cbn; by rewrite Hh1]|].
  intros ok x2 (Hi2 & K2 & Hwr2). pose proof (written_held _ _ _ _ _ Hwr2) as Hh2. destruct ok; [|done].
  apply write_made in Hwr2 as (Ht2 & _ & _ & Hw2).
  wp_step. eapply wp_mono; [by apply wait_wp|]. intros r x3 Hwait. destruct (Inv_waits _ _ _ _ _ _ Hi2 Hwait eq_refl) as [Hi3 K3].
  destruct (waits_writes _ _ _ _ _ Hwait eq_refl) as [Hw3 Hh3].
  apply need_wp; [done|]. eapply wp_mono; [apply (write_wp p); [done|by intros _ [=]]|]. intros ok x4 (Hi4 & K4 & Hwr4).
  pose proof (written_held _ _ _ _ _ Hwr4) as Hh4. destruct ok; [|done].
  apply write_made in Hwr4 as (Ht4 & _ & _ & Hw4).
  destruct (decide (r <> None_)); [by apply fail_ends|].
  wp_step. apply wp_modify. fold (in_state Authenticating x4).
  apply need_none_wp. eapply wp_mono; [apply authenticate_wp|]. intros r' x5 [Hq5 Hr5].
  pose proof (Inv_quietly _ _ _ (Inv_state Authenticating _ Hi4) Hq5) as Hi5.
  pose proof (quietly_held _ _ Hq5) as Hh5. pose proof (quietly_writes _ _ Hq5) as Hw5. cbn in Hh5, Hw5.
  destruct (decide (r' = None_)); [|done]. wp_step. apply wp_modify. fold (in_state Running x5). wp_step.
  pose proof (kept_same _ _ (proj1 Hq5)) as K5. split.
  - split; [by apply Inv_state| |].
    + cbn. rewrite (k_touched _ _ K5) by done. done.
    + intros _. cbn. split; [by apply Hr5|]. rewrite (i_held _ _ Hi5). cbn in *. congruence.
  - intros _. apply HB; cbn; [done| |].
    + rewrite (k_info _ _ K5). cbn. rewrite (k_info _ _ K4), (k_info _ _ K3), (k_info _ _ K2). cbn. apply K1.
    + rewrite Hw5, Hw4, Hw3, Hw2. cbn. by rewrite Hw1, <- !app_assoc.
Qed.

(** The accesses of a boot: the image is read, the GuC reset, the WOPCM window set up, the regions
    made coherent; then come the parameters (the address of the log with its sizes, the features of
    the submission profile, the log level, the page of the ADS, the device and its revision), the
    interrupt mask without its bit 9, the addresses of the signature, of the image and of its
    place in the WOPCM with the length up to the signature, and the start and the end of the DMA. *)
Definition boot_accesses (info : FirmwareInfo) (image : list Z) (window : list access) (irq : Z) : list access :=
  [Load (cpu (firmware p)) image; Wr 0x941c 8] ++ window ++
  [Sync (firmware p); Sync (ads p); Sync (log p)] ++
  [Wr 0xc180 0;
   Wr 0xc184 (ggtt (log p) + 0x3f7);
   Wr 0xc188 (if decide (profile p = Some Submission) then (if ccsPresent p then 0x400800 else 0x400000) else 0);
   Wr 0xc18c (if decide (profile p = Some Submission) then 0x1000010 else 0);
   Wr 0xc190 0x40;
   Wr 0xc194 (ggtt (ads p) / 4096 * 2);
   Wr 0xc198 (Z.lor 0x7d410000 (pciRevision p));
   Wr 0xc19c 0; Wr 0xc1a0 0; Wr 0xc1a4 0; Wr 0xc1a8 0; Wr 0xc1ac 0; Wr 0xc1b0 0; Wr 0xc1b4 0; Wr 0xc1b8 0;
   Wr 0xc064 0x8602; Wr 0x13816c 1;
   Rd 0xa168 irq; Wr 0xa168 (Z.ldiff irq 0x200);
   Wr 0xc200 ((ggtt (firmware p) + rsaOffset info) mod 2 ^ 32);
   Wr 0xc300 (ggtt (firmware p)); Wr 0xc304 0x80000; Wr 0xc308 0x2000; Wr 0xc30c 0x70000;
   Wr 0xc310 (rsaOffset info mod 2 ^ 32);
   Wr 0xc314 0x00110011; Wr 0xc314 0x00100000].

(** A valid region is below the top of the GGTT and starts at a page. *)
Lemma valid_ggtt r : regionValid r = true -> 0 <= ggtt r < 2 ^ 32 /\ Z.land (ggtt r) 4095 = 0.
Proof. unfold regionValid, span, gucGgttTop. intros H. zbool. split; [lia|done]. Qed.

Lemma regions_ggtt i :
  regions_valid p = true -> (i < 3)%nat -> 0 <= ggtt (at_ p i) < 2 ^ 32 /\ Z.land (ggtt (at_ p i)) 4095 = 0.
Proof.
  intros Hv Hi. apply valid_ggtt. unfold regions_valid in Hv. rewrite forallb_forall in Hv.
  assert (Hin : In i regions) by (unfold regions; do 3 (destruct i as [|i]; [cbn; tauto|]); lia).
  specialize (Hv i Hin). cbv zeta in Hv. apply andb_true_iff in Hv as [Hv _]. by apply andb_true_iff in Hv as [Hv _].
Qed.

(** The values the loader computes. *)
Lemma boot_values info image window irq :
  regions_valid p = true ->
  boot_accesses info image window irq =
  [Load (cpu (firmware p)) image; Wr resetReg 8] ++ window ++ ((fun i => Sync (at_ p i)) <$> regions) ++
  wrs (param_writes p) ++ [Rd 0xa168 irq] ++
  wrs ((0xa168, Z.ldiff irq (Z.shiftl 1 9)) :: dma_writes p info) ++
  [Wr dmaControl 0x00110011; Wr dmaControl 0x00100000].
Proof.
  intros Hv. destruct (regions_ggtt 0 Hv ltac:(lia)) as [H0 _]. destruct (regions_ggtt 1 Hv ltac:(lia)) as [H1 _].
  destruct (regions_ggtt 2 Hv ltac:(lia)) as [H2 A2]. cbn [at_] in *.
  assert (E1 : Z.lor (wrap 32 (ggtt (log p))) 0x3f7 = ggtt (log p) + 0x3f7).
  { rewrite wrap_small by done. assert (Hl : Z.land (ggtt (log p)) 0x3f7 = 0).
    { change 0x3f7 with (Z.land 4095 0x3f7). by rewrite Z.land_assoc, A2. }
    pose proof (Z.add_lor_land (ggtt (log p)) 0x3f7). lia. }
  assert (E2 : wrap 32 (Z.shiftl (Z.shiftr (ggtt (ads p)) 12) 1) = ggtt (ads p) / 4096 * 2).
  { rewrite Z.shiftr_div_pow2, Z.shiftl_mul_pow2 by lia. change (2 ^ 12) with 4096. change (2 ^ 1) with 2.
    apply wrap_small. split; [apply Z.mul_nonneg_nonneg; [apply Z.div_pos|]; lia|].
    pose proof (Z.mul_div_le (ggtt (ads p)) 4096). lia. }
  unfold param_writes, params, dma_writes. rewrite E1, E2, (wrap_small 32 (ggtt (firmware p))) by done.
  unfold boot_accesses. destruct (decide (profile p = Some Submission)), (ccsPresent p); done.
Qed.

Lemma other_regs l :
  forallb (fun w : Z * Z => negb (w.1 =? resetReg) && negb (w.1 =? dmaControl)) l = true ->
  Forall (fun w => w.1 <> resetReg /\ w.1 <> dmaControl) l.
Proof.
  rewrite forallb_forall, List.Forall_forall. intros H w Hw. specialize (H w Hw).
  by rewrite andb_true_iff, !negb_true_iff, !Z.eqb_neq in H.
Qed.

Lemma in_log : in_shared p (cpu (log p)) (bytes_ (log p)).
Proof. exists (log p). split; [by right|]. lia. Qed.

Lemma program_wp x :
  Inv p x -> held_of (trace x) = 3%nat ->
  (forall x' window irq, state_ (ld x') = Running -> info_ (ld x') = info_ (ld x) ->
    wopcm_window p (info_ (ld x)) window ->
    accesses_of (trace x') = accesses_of (trace x) ++ [Wr resetReg 8] ++ window ++
      ((fun i => Sync (at_ p i)) <$> regions) ++ wrs (param_writes p) ++ [Rd 0xa168 irq] ++
      wrs ((0xa168, Z.ldiff irq (Z.shiftl 1 9)) :: dma_writes p (info_ (ld x))) ++
      [Wr dmaControl 0x00110011; Wr dmaControl 0x00100000] -> B x') ->
  wp (program mem) ends x.
Proof.
  intros Hi H3 HB. unfold program. wp_step. apply wp_modify. fold (in_state Starting x).
  set (y := in_state Starting x). assert (Hiy : Inv p y) by by apply Inv_state.
  assert (Hy3 : held_of (trace y) = 3%nat) by done.
  apply need_none_wp. eapply wp_mono; [by apply (reset_wp p)|]. intros r x1 (Hi1 & K1 & Hh1 & Hr1).
  destruct (decide (r = None_)) as [->|]; [|done]. destruct (Hr1 eq_refl) as (_ & Hd1 & Hw1).
  assert (P1 : halt_phase p y [Wr resetReg 8] x1) by (split; try done; by left).
  apply need_none_wp. eapply wp_mono; [by apply (wopcm_wp p)|]. intros r x2 P2. unfold phase in P2.
  destruct (decide (r = None_)) as [->|]; [|apply P2]. destruct P2 as (wl & Hwl & P2).
  rewrite (k_info _ _ K1) in Hwl. wp_step. eapply wp_mono; [by apply read_quiet|]. intros d x3 [Hq3 _].
  pose proof (halt_quietly _ _ _ _ _ P2 Hq3) as P3. wp_step; [apply fail_ends; [apply P3|done]|].
  do 2 wp_step. rewrite (i_plan _ _ (h_inv _ _ _ _ P3)), (k_info _ _ (h_kept _ _ _ _ P3)).
  apply need_none_wp.
  assert (Hads : wp (if decide (profile p = Some HardwareConfig)
      then populateMinimalAds mem (ads p) (info_ (ld y)) d.2 else ret None_)
    (fun _ => halt_phase p y ([Wr resetReg 8] ++ wl)) x3).
  { destruct (decide _); [by apply populate_wp|by wp_step]. }
  eapply wp_mono; [exact Hads|]. clear Hads. intros r x4 P4.
  destruct (decide (r = None_)); [|apply P4]. wp_step. eapply (halt_fill y); [done|apply in_log|exact P4|]. intros x5 P5.
  eapply synchronize_all_wp; [done|]. intros x6 P6.
  eapply write_all_wp; [by apply other_regs; vm_compute|done|]. intros x7 P7.
  wp_step. eapply wp_mono; [by apply (read_setting_wp _ _ _ _ _ _ P7)|]. intros [[|] irq] x8 [_ P8]; cbn [fst snd negb] in *;
    [|apply fail_ends; [apply P8|done]].
  eapply write_all_wp; [by apply other_regs; vm_compute|done|]. intros x9 P9.
  eapply (boot_wp y); [done|done|]. intros x' Hs Hinf Hw. eapply (HB x' wl irq); [done|done|done|].
  rewrite Hw. cbn [trace in_state y]. f_equal. by rewrite <- !app_assoc.
Qed.

(** ** The attempt *)

Lemma retain_all_wp k n c x :
  (k + n = 3)%nat -> Inv p x -> touchedHardware_ (ld x) = false -> held_of (trace x) = k ->
  (forall x', Inv p x' -> held_of (trace x') = 3%nat -> touchedHardware_ (ld x') = false ->
    accesses_of (trace x') = accesses_of (trace x) -> wp c ends x') ->
  wp (retain_all (seq k n) c) ends x.
Proof.
  revert k x. induction n as [|n IH]; intros k x Hk Hi Ht Hh Hc; cbn [seq retain_all]; [apply Hc; done || lia|].
  do 2 wp_step. apply need_wp; [done|]. unfold call_retain. do 2 wp_step.
  pose proof (i_callbacks _ _ Hi) as Hcb. unfold callbacks in Hcb.
  destruct (retain (backend_ (ld x))) as [f|]; [|by rewrite !andb_false_r in Hcb]. cbn. apply fw_act. intros ok w.
  destruct Hi as [Hp Ha Hcb' Hh' H3 Htd Hl]. pose proof (Htd Ht) as Hd.
  assert (Hlegal : legal p (EvRetain (at_ (plan_ (ld x)) k) (negb (k =? 0)%nat) ok) (trace x)).
  { cbn. rewrite Hp, Hh. split_and!; [lia|done|done|done]. }
  destruct ok.
  - wp_step. apply wp_modify. apply IH; cbn; rewrite ?held_cons; cbn; rewrite ?Hh, ?app_nil_r; try (done || lia).
    split; cbn; rewrite ?held_cons; cbn; rewrite ?Hh', ?Hh; try (done || lia). rewrite <- Hh. split; [|done].
    rewrite Hp. split_and!; [lia|done|done|done].
  - split; cbn; rewrite ?held_cons; cbn; try done.
Qed.
End Steps.

(** What a successful start has done: the bytes of the firmware region were accepted, as the image
    that [info_] describes, the WOPCM window was set up, and the accesses since the loader was made
    are exactly those of a boot. *)
Definition booted p x : Prop :=
  state_ (ld x) = Running /\
  exists w image window irq,
    image = load_from mem w (Z.to_nat firmwareFileBytes) (cpu (firmware p)) /\
    inspect image = (None_, info_ (ld x)) /\
    wopcm_window p (info_ (ld x)) window /\
    accesses_of (trace x) = boot_accesses p (info_ (ld x)) image window irq.

Lemma fw_load address n x (Q : list Z -> machine W -> Prop) :
  let image := load_from mem (world x) (Z.to_nat n) address in
  Q image (after x (world x) (EvLoad address image)) -> wp (load_bytes mem address n) Q x.
Proof. done. Qed.

(** Reading the image before the hardware is touched. *)
Lemma Inv_load p x image info v :
  Inv p x -> held_of (trace x) = 3%nat -> touchedHardware_ (ld x) = false ->
  Inv p {| ld := set_info info (set_state v (ld x)); world := world x;
           trace := EvLoad (cpu (firmware (plan_ (ld x)))) image :: trace x |}.
Proof.
  intros [Hp Ha Hc Hh H3 Ht Hl] Hn Hu. split; cbn; rewrite ?held_cons, ?device_cons; cbn; try done.
  rewrite Hp. split; [|done]. split_and!; auto.
Qed.

Lemma attempt_wp p x :
  plan_ (ld x) = p -> regions_valid p = true -> callbacks (backend_ (ld x)) = true -> held_ (ld x) = 0%nat ->
  touchedHardware_ (ld x) = false -> Forall quiet (trace x) ->
  wp (attempt mem inspect) (ends p (booted p)) x.
Proof.
  intros Hp Hv Hc Hh Ht Hq. unfold attempt. wp_step. apply wp_modify.
  set (y := {| ld := set_attempted (ld x); world := world x; trace := trace x |}).
  pose proof (quiet_held _ [] Hq) as Eh. pose proof (quiet_device _ [] Hq ltac:(by left)) as Ed.
  pose proof (quiet_writes _ [] Hq) as Ew. pose proof (quiet_legal p _ [] Hq I) as Hl. rewrite app_nil_r in *.
  apply (retain_all_wp p _ 0 3); [done| |done|done|].
  { split; cbn; rewrite ?Eh, ?Ed; try done; unfold held_of; cbn; lia. }
  intros x1 Hi1 H3 Ht1 Hw1. cbn in Hw1. rewrite Ew in Hw1. wp_step. apply wp_modify. fold (in_state Retained x1).
  do 3 wp_step. apply fw_load. cbv zeta. remember (load_from _ _ _ _) as image eqn:Himage.
  change (plan_ (ld (in_state Retained x1))) with (plan_ (ld x1)) in Himage. rewrite (i_plan _ _ Hi1) in Himage.
  destruct (inspect image) as [e info] eqn:Einsp. wp_step. apply wp_modify.
  set (x2 := {| ld := _; world := _; trace := _ |}). pose proof (Inv_load p x1 image info Retained Hi1 H3 Ht1 : Inv p x2) as Hi2.
  destruct (decide (e <> None_)) as [He|He]; [by apply fail_ends|]. apply dec_stable in He as ->.
  wp_step; [by apply fail_ends|]. wp_step. unfold call_readPat3. do 2 wp_step. apply fw_act. intros pat w.
  set (x3 := after x2 w _). assert (Hr3 : ready p x2 x3).
  { eapply ready_quietly; [|by apply quietly_after]. by split. }
  wp_step; [apply fail_ends; [apply Hr3|done]|].
  eapply verify_all_wp; [exact Hr3|]. intros x4 [Hi4 K4 [Hh4 Hw4]].
  assert (Hprog : forall x5, ready p x2 x5 -> wp (program mem) (ends p (booted p)) x5).
  { intros x5 [Hi5 K5 [Hh5 Hw5]]. apply program_wp; [done|by rewrite Hh5|]. intros x' window irq Hs Hinf Hwl Hws.
    rewrite Hw5 in Hws. change (accesses_of (trace x2)) with
      (accesses_of (trace x1) ++ [Load (cpu (firmware (plan_ (ld x1)))) image]) in Hws.
    rewrite Hw1, (i_plan _ _ Hi1) in Hws. rewrite (k_info _ _ K5) in Hinf, Hwl, Hws.
    split; [done|]. rewrite Hinf. exists (world x1), image, window, irq. split; [exact Himage|]. split; [done|]. split; [done|].
    rewrite Hws, boot_values by done. reflexivity. }
  destruct (decide _); [|by apply Hprog; split].
  apply need_wp; [done|]. unfold call_fullAdsValid. do 2 wp_step. apply ask_quiet; [done|]. intros ok x5 Hq5 _.
  assert (Hr5 : ready p x2 x5) by (eapply ready_quietly; [|exact Hq5]; by split).
  destruct ok; [by apply Hprog|apply Hr5].
Qed.

(** * Every sequence of calls *)

Inductive call := Start (p : Plan) | ResetAndRelease | IsRunning (owner epoch : Z).

Definition run_call (c : call) : ST (machine W) unit :=
  match c with
  | Start p => _ <-- start mem inspect p ;; ret tt
  | ResetAndRelease => _ <-- resetAndRelease ;; ret tt
  | IsRunning o e => _ <-- running o e ;; ret tt
  end.
Fixpoint run (l : list call) : ST (machine W) unit :=
  match l with [] => ret tt | c :: l => run_call c ;;; run l end.
Definition fresh (b : Backend W) (w : W) : machine W := {| ld := new_Loader b; world := w; trace := [] |}.

(** Before the first attempt nothing but questions was asked. *)
Record Fresh x : Prop := {
  f_attempted : attempted_ (ld x) = false;
  f_touched : touchedHardware_ (ld x) = false;
  f_held : held_ (ld x) = 0%nat;
  f_state : state_ (ld x) = Idle;
  f_trace : Forall quiet (trace x);
}.

Definition Safe x : Prop := Fresh x \/ Settled (plan_ (ld x)) x.

Lemma Fresh_quietly x x' : Fresh x -> quietly x x' -> Fresh x'.
Proof. intros [] [[s Hs] (tr & Ht & Hq)]. split; rewrite ?Hs, ?Ht; try done. by apply Forall_app. Qed.

Lemma Settled_quietly p x x' : Settled p x -> quietly x x' -> ld x' = ld x -> Settled p x'.
Proof.
  intros [Hi Hl Hr] Hq E. split; rewrite ?E; [by eapply Inv_quietly| |done].
  intros Ht. destruct (Hl Ht) as [|[rg Hrg]]; [by left|right]. destruct Hq as [_ (tr & -> & _)].
  exists rg. apply elem_of_app. by right.
Qed.

Lemma start_wp p x :
  Safe x -> wp (start mem inspect p) (fun r x' => Safe x' /\ (attempted_ (ld x) = false -> r = None_ ->
    plan_ (ld x') = p /\ Settled p x' /\ booted p x')) x.
Proof.
  intros Hs. unfold start. do 2 wp_step. wp_step; [wp_step; split; [done|congruence]|].
  destruct Hs as [Hf|Hs]; [|rewrite (i_attempted _ _ (s_inv _ _ Hs)) in Hcond; done].
  wp_step. apply wp_modify. set (y := {| ld := _; world := _; trace := _ |}).
  assert (Hy : Fresh y) by (by destruct Hf). clear Hf.
  do 4 (wp_step; [wp_step; split; [by left|done]|]).
  wp_step. unfold allowed. do 2 wp_step. apply ask_quiet; [done|]. intros a x1 Hq1 L1.
  pose proof (Fresh_quietly _ _ Hy Hq1) as H1. wp_step; [wp_step; split; [by left|done]|].
  wp_step. unfold call_quiesced. do 2 wp_step. apply ask_quiet; [done|]. intros q x2 Hq2 L2.
  pose proof (Fresh_quietly _ _ H1 Hq2) as H2. wp_step; [wp_step; split; [by left|done]|].
  assert (Hp2 : plan_ (ld x2) = p) by (by rewrite L2, L1).
  eapply wp_mono; [apply (attempt_wp p); [done|by apply negb_false_iff| |apply H2..]|].
  { rewrite L2, L1. cbn. by apply negb_false_iff. }
  intros r x' [Hset HB]. pose proof (i_plan _ _ (s_inv _ _ Hset)) as Hp. split; [right; by rewrite Hp|]. auto.
Qed.

Lemma finish_wp p x :
  Inv p x -> (device_of (trace x) = Untouched \/ device_of (trace x) = Stopped) ->
  wp (upd (set_state Failed) ;;; releaseRegions) (fun _ => Settled p) x.
Proof.
  intros Hi Hd. wp_step. apply wp_modify. fold (in_state Failed x). unfold releaseRegions. do 2 wp_step.
  eapply wp_mono; [by apply (release_loop_wp p); [apply Inv_state|..]|]. intros r x' (Hi' & Hs & H).
  split; [done| |by rewrite Hs]. intros _. destruct (decide (r = None_)); auto.
Qed.

Lemma resetAndRelease_wp x : Safe x -> wp resetAndRelease (fun _ => Safe) x.
Proof.
  intros Hs. unfold resetAndRelease. do 2 wp_step. wp_step; [by wp_step|]. apply negb_false_iff in Hcond.
  destruct Hs as [Hf|Hs]; [by rewrite (f_attempted _ Hf) in Hcond|]. set (p := plan_ (ld x)) in *.
  assert (HS : forall x', Settled p x' -> Safe x') by
    (intros x' Hx; right; by rewrite (i_plan _ _ (s_inv _ _ Hx))).
  wp_step; [wp_step; by apply HS|]. wp_step. unfold allowed. do 2 wp_step. apply ask_quiet; [done|]. intros a x1 Hq L1.
  pose proof (Settled_quietly _ _ _ Hs Hq L1) as H1. wp_step; [wp_step; by apply HS|]. rewrite <- L1.
  wp_step.
  - wp_step. eapply wp_mono; [apply (reset_wp p), H1|]. intros r x2 (Hi2 & K2 & _ & Hr).
    destruct (decide (r <> None_)) as [Hn|Hn].
    + eapply wp_mono; [by apply (fail_wp p)|]. intros r' x3 [Hset _]. by apply HS.
    + apply dec_stable in Hn. destruct (Hr Hn) as (_ & Hd & _).
      eapply wp_mono; [apply (finish_wp p); [done|by right]|]. intros r' x3. apply HS.
  - eapply wp_mono; [apply (finish_wp p); [apply H1|left; by apply H1]|]. intros r' x3. apply HS.
Qed.

Lemma running_wp o e x :
  Safe x -> wp (running o e) (fun r x' => Safe x' /\ ld x' = ld x) x.
Proof.
  intros Hs. unfold running. do 2 wp_step. wp_step; [by wp_step|]. wp_step. eapply wp_mono; [by apply read_quiet|].
  intros r x' [Hq L]. wp_step. split; [|done]. destruct Hs as [Hf|Hs]; [left; by eapply Fresh_quietly|right].
  rewrite L. by eapply Settled_quietly.
Qed.

Lemma run_safe l x : Safe x -> Safe (run l x).2.
Proof.
  revert x. induction l as [|c l IH]; intros x Hs; [done|]. cbn [run]. rewrite run_bind. apply IH.
  change (wp (run_call c) (fun _ => Safe) x). destruct c; cbn [run_call]; wp_step; eapply wp_mono.
  - by apply start_wp. - intros r x' [H _]. by wp_step.
  - by apply resetAndRelease_wp. - intros r x' H. by wp_step.
  - by apply running_wp. - intros r x' [H _]. by wp_step.
Qed.

Lemma Safe_fresh b w : Safe (fresh b w).
Proof. left. by split. Qed.

(** [C39] The firmware loader under every sequence of calls, against any backend, any memory and any
    check of the image.  Before the first attempt it has only asked questions.  Afterwards every
    register write directly followed an admission of the plan's owner and epoch; regions were
    retained in order before the hardware was touched and released in reverse order, each once,
    only while the hardware was untouched or after a reset that was read back as complete with the
    GuC in reset and the DMA idle, and no write since; the CPU wrote to the shared regions, and the
    DMA was started, only while all three regions were held and the GuC was in reset; [held_]
    counts the references exactly, those of an attempt that did not touch the hardware are all
    returned unless the backend refused one, and a running loader holds all three and was seen
    authenticated. *)
Theorem loader_safe (b : Backend W) (w : W) (l : list call) :
  let x := (run l (fresh b w)).2 in
  if attempted_ (ld x) then
    legal_trace (plan_ (ld x)) (trace x) /\
    held_ (ld x) = held_of (trace x) /\ (held_ (ld x) <= 3)%nat /\
    (touchedHardware_ (ld x) = false ->
      device_of (trace x) = Untouched /\ (held_ (ld x) = 0%nat \/ exists r, EvRelease r false ∈ trace x)) /\
    (state_ (ld x) = Running ->
      XeGuC.statusAuthenticatedAndReady (lastStatus_ (ld x)) = true /\ held_ (ld x) = 3%nat)
  else Forall quiet (trace x) /\ held_ (ld x) = 0%nat /\ state_ (ld x) = Idle.
Proof.
  cbv zeta. destruct (run_safe l _ (Safe_fresh b w)) as [[Ha _ Hh Hs Ht]|[[_ Ha _ Hh H3 Ht Hl] Hk Hr]].
  - by rewrite Ha.
  - rewrite Ha, Hh in *. split_and!; try done. auto.
Qed.

(** [C40] A start that reports success has booted the GuC with the image of the firmware region: the
    bytes read at that region's CPU address passed the check, and the accesses since the loader was
    made are exactly these, in this order: the image read; the reset; the two WOPCM registers read,
    either both locked with a window that has the room the image, the stack and the HuC need, or
    both unlocked and then written and read back as such a window; the three regions made coherent;
    the parameters, with the addresses of the log and of the ADS; the interrupt mask with its bit 9
    cleared in what was read; the addresses of the signature and of the image; the start and the
    end of the DMA.  The loader is running, holds its three regions and has read an authenticated
    status. *)
Theorem loader_boots (b : Backend W) (w : W) (l : list call) (p : Plan) :
  let x := (run l (fresh b w)).2 in
  attempted_ (ld x) = false -> (start mem inspect p x).1 = None_ ->
  let x' := (start mem inspect p x).2 in
  booted p x' /\ held_ (ld x') = 3%nat /\
  XeGuC.statusAuthenticatedAndReady (lastStatus_ (ld x')) = true.
Proof.
  cbv zeta. intros Ha Hr. destruct (start_wp p _ (run_safe l _ (Safe_fresh b w))) as [_ H].
  destruct (H Ha Hr) as (_ & Hset & Hb). split; [done|]. destruct (s_running _ _ Hset (proj1 Hb)). done.
Qed.
End Thms.

(** * A device that boots *)

(** The registers written so far, newest first. *)
Definition gpu : Type := list (Z * Z).

Definition written_value (reg : Z) (w : gpu) : option Z :=
  snd <$> head (filter (fun q => q.1 = reg) w).

Definition gpu_read (reg : Z) (w : gpu) : Z :=
  if 0x800000 <=? reg then
    (if Z.land reg 4 =? 0 then Z.lor ((reg - 0x800000) / 8 * 4096) 1 else Z.shiftl 3 20)
  else if reg =? statusReg then (if decide (written_value dmaControl w = None) then 1 else 0x8000f0ec)
  else if (reg =? 0xc050) || (reg =? 0xc340) then
    match written_value reg w with Some v => Z.lor v 1 | None => 0 end
  else 0.

Definition gpu_backend : Backend gpu := {|
  io := {| read32 := Some (fun reg w => ((true, gpu_read reg w), w));
           write32 := Some (fun reg v w => (true, (reg, v) :: w));
           nowMicros := Some (fun w => (0, w)); delayMicros := Some (fun _ w => w) |};
  physicalRevision := 4;
  admitted := Some (fun _ _ w => (true, w)); quiesced := Some (fun _ _ w => (true, w));
  retain := Some (fun _ _ w => (true, w)); release := Some (fun _ w => (true, w));
  synchronize := Some (fun _ w => (true, w)); readPat3 := Some (fun w => ((true, 2), w));
  mappingPublished := Some (fun _ _ w => (true, w)); fullAdsValid := None |}.

Definition gpu_memory : Memory gpu := {| load := fun _ _ => 0; load64 := fun a _ => a / 8 * 4096; store := fun _ _ _ w => w |}.

(** A region whose GGTT pages are mapped one to one: entry [i] of its array of DMA pages is read by
    [load64] as the address of its page. *)
Definition example_region (start pages : Z) : Region := {|
  owner := 7; generation := 1; ggtt := start; bytes_ := pages * 4096; cpu := 0x100000000 + start;
  dmaPages := start / 4096 * 8; pageCount := pages; pinCookie := 1 |}.

Definition example_plan : Plan := {|
  p_owner := 7; epoch := 1; firmware := example_region 0x1000000 79; ads := example_region 0x2000000 7;
  log := example_region 0x3000000 277; hucUploadBytes := 0; pciRevision := 4;
  profile := Some HardwareConfig; ccsPresent := false |}.

(** An image check that accepts, with a small private area. *)
Definition accept (_ : list Z) : Error * FirmwareInfo := (None_, {|
  fi_release := no_version; fi_submission := no_version; ucodeOffset := 128; ucodeBytes := 319808;
  rsaOffset := 319936; rsaBytes := 384; minimumBytes := 320320; privateDataBytes := 4096; moduleVendor := 0;
  headerVersion := 0; declaredDeviceId := 0; buildType := 0; securityVersion := 0;
  deviceInfoValid := false; securityInfoValid := false; belowRecommended := false |}).

Lemma loader_boots_witness :
  let x := (start gpu_memory accept example_plan (fresh gpu_backend [])).2 in
  booted gpu_memory accept example_plan x /\ length (accesses_of (trace x)) = 38%nat.
Proof.
  split; [|by vm_compute].
  apply (loader_boots gpu_memory accept gpu_backend [] [] example_plan); by vm_compute.
Defined.
